(* ===== verification/_CoqProject ===== *)
-Q . S2P
Prelude.v
UtilsIO.v
Keyfile.v
CryptBackend.v
Cstd.v
Base64.v
UtilsCrypt.v
Crc32.v
Pbkdf2.v
CryptPlain.v
LoopAes.v
CryptStorage.v
StorageWrapper.v
Pbkdf.v
JsonC.v
Luks2Json.v
Device.v
Integrity.v
Wipe.v
WipeProps.v
LockProtocol.v
AF.v
Luks2Keyslot.v
Luks2Edit.v
Luks2Areas.v
KeyEncryption.v
Luks1.v
Luks1Facts.v
Luks1Io.v
Luks1Props.v
Luks1Keys.v
Luks1KeysProps.v
Luks2Validate.v
Luks2EditFacts.v
Luks2EditProps.v
Luks2Format.v
Luks2FormatProps.v
Luks2AllocProps.v
Luks2Reencrypt.v
Luks2ReencryptStorage.v
Luks2ReencryptData.v
Luks2ReencryptProps.v
Luks2ReencryptRecovery.v
Luks2ReencryptSafety.v
Luks2Disk.v
Luks2DiskFacts.v
Luks2DiskWrite.v
Luks2DiskAtomic.v
Luks2DiskProps.v
Luks2HdrStore.v
Luks2KeyslotIo.v
Luks2KeyslotRun.v
Luks2KeyslotProps.v
Luks2Info.v
Luks2Token.v
Luks2Convert.v
Setup.v
SetupKeyslot.v
SetupProps.v
Luks2ReencryptExample.v
VerityHash.v
DmTable.v
DmQuery.v
DmFacts.v
DmProps.v
VerityHashProps.v
VerityTree.v
ReedSolomon.v
Massey.v
ReedSolomonField.v
ReedSolomonProps.v
ReedSolomonDecode.v
VerityFec.v
VerityFecProps.v
Verity.v
VerityProps.v
SetupFormat.v
Tcrypt.v
Bitlk.v
SetupActivate.v
