(* ===== verification/Prelude.v ===== *)
(** * A verification development for cryptsetup

    cryptsetup manages encrypted block devices; its library (lib/) keeps the
    volume's metadata (LUKS1, LUKS2) on the device itself and sets up
    device-mapper targets. The development models the parts of the library on
    which the integrity of the metadata rests and proves what each part
    promises to the others. Source paths below are relative to src/.

    ** Layers

    - [Prelude]: machine integers as [Z] with explicit wrap-around, byte
      strings, slices and splices of byte lists, little- and big-endian
      numbers, list lemmas, the hint database [zlen].
    - [UtilsIO] (lib/utils_io.c): retry loops and block-wise reads and writes
      on a [file], the contents of a block device with an explicit schedule of
      full, short, interrupted and failing transfers.
    - [CryptBackend]: the interface to the crypto back end (lib/crypto_backend
      wraps external libraries): classes with laws, and concrete instances on
      which witnesses run.
    - [Cstd]: strtoull, atoi, decimal printing, C strings in fields of fixed
      size, and the interface to libuuid. [JsonC]: the interface to
      json-c, a class [JsonC] with its laws [JsonCLaws] and an instance on
      finite trees.
    - [Luks2Json] (luks2_json_metadata.c, luks2_segment.c): the in-memory
      header [luks2_hdr] and the access functions on its JSON sections, and
      example headers.
    - [Device] (lib/utils_device.c, utils_device_locking.c): the nested locks
      and descriptors of a [device], in a monad that threads the device and
      stops at failed assertions. [LockProtocol]: the lock-file protocol
      between processes, as interleaved steps.
    - [AF] (lib/luks1/af.c): the anti-forensic splitter.
    - [Luks2Keyslot] (luks2_keyslot.c, luks2_digest.c and keyslot handlers):
      queries and keyslot validation. [Luks2Areas] (luks2_json_format.c):
      allocation of keyslot areas. [Luks2Validate] (luks2_json_metadata.c):
      every validator of the JSON header.
    - [Luks2Edit] (luks2_segment.c, luks2_digest.c, luks2_token.c,
      luks2_keyslot.c): changes of the in-memory header; [Luks2EditFacts] their
      effect on sections, [Luks2EditProps] the validators as predicates and the
      removal of a keyslot. [Luks2Format] (luks2_json_format.c,
      luks2_keyslot_luks2.c, luks2_digest_pbkdf2.c): new headers, keyslots and
      digests, with their theorems in [Luks2FormatProps] and
      [Luks2AllocProps].
    - Keys in LUKS2 keyslots: [Luks2KeyslotIo] (luks2_keyslot_luks2.c,
      luks2_keyslot.c, luks2_digest.c) stores, opens and wipes them and reads
      and writes the header with its locks; [Luks2KeyslotRun] holds what each
      step does, [Luks2KeyslotProps] the theorems.
    - [Luks2Info] (luks2_json_metadata.c): getters, UUID and labels, backup and
      restoration. [Luks2Token] (luks2_token.c, luks2_token_keyring.c): tokens
      and their handlers. [Luks2Convert] (luks2_luks1_convert.c): conversion
      between LUKS1 and LUKS2.
    - LUKS1: [KeyEncryption] (luks1/keyencryption.c) encrypts key material,
      [Luks1] (luks1/keymanage.c) is the header and its keyslots. [Luks1Facts]
      (the material of a key, shared with LUKS2) and [Luks1Io] hold lemmas on
      bytes, areas and transfers, [Luks1Props] the
      theorems on the header; [Luks1Keys] and [Luks1KeysProps] those on keys.
    - [Wipe] (utils_wipe.c): wiping of a range, with [WipeProps].
    - [Base64] (lib/base64.c) and [Pbkdf] (utils_pbkdf.c,
      crypto_backend/pbkdf_check.c): encoding of salts, parameters of key
      derivation functions and the searches for their costs.
    - [UtilsCrypt] (utils_crypt.c), [Crc32] (crypto_backend/crc32.c), [Pbkdf2]
      (crypto_backend/pbkdf2_generic.c), [CryptPlain] (crypt_plain.c): cipher
      specifications with the table of ciphers (cipher_generic.c) and
      hexadecimal keys, the checksum, the key derivation and the hashing of
      plain mode. [Keyfile] (utils.c): reading of key files; [LoopAes]
      (loopaes/loopaes.c): loop-AES key files. [CryptStorage]
      (crypto_backend/crypto_storage.c): the encryption of sectors;
      [StorageWrapper] (utils_storage_wrappers.c): encrypted access to a device.
    - [Luks2Disk] (luks2_disk_metadata.c): conversion, checksum, reading,
      writing and recovery of the two on-disk copies of the header.
      [Luks2DiskFacts], [Luks2DiskWrite], [Luks2DiskAtomic] hold its lemmas,
      from bytes to whole updates; [Luks2DiskProps] its theorems.
    - [Luks2Reencrypt] (luks2_reencrypt.c): the metadata of a reencryption, its
      windows and segments, with theorems in [Luks2ReencryptProps].
      [Luks2ReencryptData]: the steps that move the data, the protection of a
      hotzone and its recovery, on a store of two devices; how headers are
      stored is the class [HdrStore] with the laws [HdrStoreLaws], and
      [Luks2HdrStore] shows that [Luks2Disk] is an instance.
      [Luks2ReencryptStorage], [Luks2ReencryptRecovery] hold lemmas,
      [Luks2ReencryptSafety] the theorems and [Luks2ReencryptExample] a
      concrete hotzone.
    - dm-verity (lib/verity/): [VerityHash] (verity_hash.c) the hash tree on a
      data and a hash device, [VerityHashProps] its levels and the
      verification of a tree, [VerityTree] its creation. [ReedSolomon]
      (rs_encode_char.c, rs_decode_char.c) the Reed-Solomon codec on bytes;
      [Massey] the theory of the decoder (Berlekamp-Massey, Chien, Forney)
      over any field, a class [FieldOps]; [ReedSolomonField] shows that the
      code's tables are GF(256), [ReedSolomonProps] and [ReedSolomonDecode]
      that the codec corrects. [VerityFec] (verity_fec.c) the interleaved
      parity of devices with [VerityFecProps]; [Verity] (verity.c) the
      superblock and the activation, with [VerityProps].

    - Device-mapper (libdevmapper.c, utils_dm.h): [DmTable] prints the lines of
      the tables of targets and knows what a kernel supports, [DmQuery] parses
      lines and creates, removes and queries mappings around the requests to the
      kernel, which are arguments; [DmFacts] holds lemmas on words and numbers,
      [DmProps] the theorems.
    - The public interface (setup.c): [Setup] the context with its getters and
      settings, [SetupKeyslot] loading and the operations on keyslots, tokens
      and headers, with theorems in [SetupProps]; [SetupFormat] new devices;
      [SetupActivate] activation, reload, resizing, suspension and removal of
      mappings, also on dm-integrity, as sequences of requests to the kernel,
      with the theorems on them.
    - [Tcrypt] (tcrypt/tcrypt.c): TrueCrypt and VeraCrypt volumes, found by
      trial. [Bitlk] (bitlk/bitlk.c): the metadata, keys and segments of
      BitLocker volumes. [Integrity] (integrity/integrity.c): superblocks and sizes of
      dm-integrity.

    A function of the source is a definition of the same name; what it returns
    through pointers is part of its result. An error is the negative errno
    the code returns. A loop is a structural recursion on the list it walks or
    on fuel.

    ** What the theorems show

    - The header on disk: an update interrupted at any sector leaves the old
      or the new header readable; without errors the header written is the
      one read; a damaged copy is rewritten from the other; the write lock is
      released on every path.
    - Locking: two handles never hold conflicting locks on the path, whatever
      the interleaving; a lock file that is held stays; an acquisition starts
      again only when the file was removed; nested write locks count; a write
      open under a read lock is refused.
    - Validation: what an accepted header guarantees of keyslot areas,
      segments, data offset and digests; and two inputs it should refuse and
      accepts.
    - Changes: a generated header, a header with an allocated keyslot and one
      with a removed keyslot are valid; a small device of odd size on which
      the generated header is not.
    - Keys of LUKS2: a stored key is opened with its password; whatever is
      opened was verified by a digest.
    - LUKS1: the areas of an accepted header are disjoint, a generated header
      is accepted, headers and keys round-trip, a deleted key is wiped; material
      beyond 4 GiB aliases.
    - Wiping: every byte of the range is overwritten, and nothing else; a block
      size for which this fails.
    - Allocation of keyslot areas: soundness, completeness and maximality.
    - Block-wise I/O: nothing outside the written range changes, for every
      schedule; what was written is read back.
    - Anti-forensic splitting: merging inverts splitting; errors; sizes.
    - Encryption: sectors and wrappers round-trip, vectors differ between
      sectors, CRC32 and PBKDF2 are their mathematical definitions.
    - Reencryption: the windows of the loop tile the device when hotzones are
      read in full; a step does what it is meant to; a step and its recoveries,
      interrupted anywhere, lose no data.
    - dm-verity: a tree that verifies fixes the data (two devices that verify
      against one root hash agree, or have different blocks with one digest at
      the same place); a created tree verifies; creation succeeds within its
      bounds; FEC repairs as many bad bytes per codeword as half its roots; the
      decoder corrects every such error; the superblock round-trips and what is
      read is valid; a mapping with CRYPT_VERITY_CHECK_HASH is created only when
      the hashes, or for a wrong block the check of the parity, reported no
      error.
    - Interface: a passphrase that was added opens the volume. The tables of an
      activated LUKS device have a key that a digest of its header verified,
      and a successful activation got a table accepted.
    - Device-mapper: the line printed for a dm-crypt target is parsed to the
      target it was printed from; a query ends; the table of an open mapping is
      never replaced.
    - TrueCrypt: the volume key of a header that was found is made of pieces
      within the header's keys and fills its buffer; the
      library's chained CBC undoes the textbook's; a header in the clear that is
      accepted. BitLocker: the segments of a mapping cover the device once;
      recovery passwords round-trip; passphrases outside of ASCII, metadata
      without keys and metadata at the end of the device. Key files are read
      exactly or not at all.
    - Base64 round trip; parameters accepted for key derivation are verified;
      a division by zero in the argon2 search.

    ** Fuel and bounds

    The retry loops of [UtilsIO] take one unit of fuel per byte plus one per
    interrupted transfer of the schedule: each iteration transfers a byte or
    consumes a schedule entry ([read_loop_spec], [write_loop_spec]). 64-bit
    offsets and lengths are added with the wrapping [+64]; theorems that need
    the absence of wrap-around say so or derive it from the device size. The
    parsers of [Bitlk] take fuel for the bytes of the entries and always have
    enough; the loop over its segments has no bound in the code, ten turns do
    for a sound layout and none for some others.

    ** What is not modelled

    Device-mapper requests, loop devices, keyrings, option parsing and plug-in
    loading are I/O around the library: [SetupActivate] keeps the requests in
    order and takes the answers from a parameter. The initialisation of a
    context by the name of a mapping and the activation of integrity devices of
    their own are not modelled; neither are the device-mapper stack of an online
    reencryption, the formatting of verity and integrity devices (their hash
    trees and superblocks are), the command line tools and what only prints.
    External libraries (json-c, crypto back ends, libblkid) are parameters with
    the laws the code relies on.
    Memory allocation succeeds unless a size limit is stated. *)

From Stdlib Require Export ZArith Lia Bool.
From Stdlib Require Import Strings.Byte.
From stdpp Require Export base tactics numbers list strings sets fin_sets.

Declare Scope cs_scope.
Delimit Scope cs_scope with cs.
#[global] Open Scope Z_scope.

(** ** C error codes

    The code returns negated [errno] values; the positive constants are the
    ones of Linux. *)

Definition EPERM : Z := 1.
Definition ENOENT : Z := 2.
Definition EINTR : Z := 4.
Definition EIO : Z := 5.
Definition EAGAIN : Z := 11.
Definition ENOMEM : Z := 12.
Definition EBUSY : Z := 16.
Definition EINVAL : Z := 22.
Definition ENOSPC : Z := 28.
Definition ERANGE : Z := 34.
Definition ENOTSUP : Z := 95.

(** ** Machine integers

    A [w]-bit unsigned integer is a [Z] in [0, 2^w); [wrap w] is the
    reduction C performs on unsigned overflow and on conversion, [swrap w]
    the (implementation-defined, two's complement) conversion to a signed
    type. *)

Definition wrap (w z : Z) : Z := z mod 2 ^ w.
Definition swrap (w z : Z) : Z := (z + 2 ^ (w - 1)) mod 2 ^ w - 2 ^ (w - 1).

Abbreviation u8 := (wrap 8).
Abbreviation u16 := (wrap 16).
Abbreviation u32 := (wrap 32).
Abbreviation u64 := (wrap 64).
Abbreviation i32 := (swrap 32).
Abbreviation i64 := (swrap 64).

Definition UINT32_MAX : Z := 2 ^ 32 - 1.
Definition UINT64_MAX : Z := 2 ^ 64 - 1.
Definition INT64_MAX : Z := 2 ^ 63 - 1.
Definition INT64_MIN : Z := - 2 ^ 63.
Definition INT32_MAX : Z := 2 ^ 31 - 1.

Notation "x +64 y" := (u64 (x + y)) (at level 50, left associativity) : cs_scope.
Notation "x -64 y" := (u64 (x - y)) (at level 50, left associativity) : cs_scope.
Notation "x *64 y" := (u64 (x * y)) (at level 40, left associativity) : cs_scope.
#[global] Open Scope cs_scope.

Definition in_u (w z : Z) : Prop := 0 <= z < 2 ^ w.

Lemma wrap_range w z : 0 <= w -> in_u w (wrap w z).
Proof. intros H. apply Z.mod_pos_bound. apply Z.pow_pos_nonneg; lia. Qed.

Lemma wrap_id w z : in_u w z -> wrap w z = z.
Proof. apply Z.mod_small. Qed.

Lemma u64_range z : in_u 64 (u64 z).
Proof. by apply wrap_range. Qed.

Lemma u64_id z : 0 <= z < 2 ^ 64 -> u64 z = z.
Proof. apply wrap_id. Qed.

Lemma sub64_id a b : 0 <= b <= a -> a < 2 ^ 64 -> a -64 b = a - b.
Proof. intros. apply u64_id. lia. Qed.

Lemma add64_id a b : 0 <= a -> 0 <= b -> a + b < 2 ^ 64 -> a +64 b = a + b.
Proof. intros. apply u64_id. lia. Qed.

Lemma u32_id z : 0 <= z < 2 ^ 32 -> u32 z = z.
Proof. apply wrap_id. Qed.

Lemma u16_id z : 0 <= z < 2 ^ 16 -> u16 z = z.
Proof. apply wrap_id. Qed.

Lemma swrap_id w z : 0 < w -> - 2 ^ (w - 1) <= z < 2 ^ (w - 1) -> swrap w z = z.
Proof.
  intros Hw Hz. unfold swrap. rewrite Z.mod_small; [lia|].
  replace (2 ^ w) with (2 * 2 ^ (w - 1)); [lia|].
  rewrite <-Z.pow_succ_r by lia. f_equal; lia.
Qed.

Lemma i32_id z : - 2 ^ 31 <= z < 2 ^ 31 -> i32 z = z.
Proof. intros. by apply swrap_id. Qed.

Lemma i32_range z : - 2 ^ 31 <= i32 z < 2 ^ 31.
Proof.
  unfold swrap. change (2 ^ (32 - 1)) with (2 ^ 31).
  pose proof (Z.mod_pos_bound (z + 2 ^ 31) (2 ^ 32) ltac:(lia)). lia.
Qed.

Lemma i64_range z : - 2 ^ 63 <= i64 z < 2 ^ 63.
Proof.
  unfold swrap. change (2 ^ (64 - 1)) with (2 ^ 63).
  pose proof (Z.mod_pos_bound (z + 2 ^ 63) (2 ^ 64) ltac:(lia)). lia.
Qed.

(** An addition of two unsigned 64-bit values wraps exactly when the result
    is smaller than an operand, which is how wrap-around checks read. *)
Lemma add64_cases a b :
  in_u 64 a -> in_u 64 b ->
  (a + b < 2 ^ 64 /\ a +64 b = a + b) \/
  (2 ^ 64 <= a + b /\ a +64 b = a + b - 2 ^ 64).
Proof.
  unfold in_u, wrap. intros Ha Hb.
  destruct (decide (a + b < 2 ^ 64)); [left|right]; split; try lia.
  - apply Z.mod_small; lia.
  - symmetry. apply Z.mod_unique_pos with (q := 1); lia.
Qed.

Lemma sub64_cases a b :
  in_u 64 a -> in_u 64 b ->
  (b <= a /\ a -64 b = a - b) \/ (a < b /\ a -64 b = a - b + 2 ^ 64).
Proof.
  unfold in_u, wrap. intros Ha Hb.
  destruct (decide (b <= a)); [left|right]; split; try lia.
  - apply Z.mod_small; lia.
  - symmetry. apply Z.mod_unique_pos with (q := -1); lia.
Qed.

(** ** Bytes and buffers

    A byte is [Byte.byte]; a buffer ([char *] with a length) is a list of
    bytes. [byte_val] and [byte_of_Z] are the value of a byte and the byte
    an integer converts to (the low 8 bits). *)

Abbreviation byte := Byte.byte.
Abbreviation bytes := (list Byte.byte).

Definition byte_val (b : byte) : Z := Z.of_N (Byte.to_N b).
Definition byte_of_Z (z : Z) : byte := default x00 (Byte.of_N (Z.to_N (u8 z))).

#[export] Instance byte_eq_dec : EqDecision byte := Byte.byte_eq_dec.
#[export] Instance byte_inhabited : Inhabited byte := populate x00.

Lemma byte_val_range b : 0 <= byte_val b < 256.
Proof. unfold byte_val. pose proof (Byte.to_N_bounded b). lia. Qed.

Lemma byte_val_of_Z z : byte_val (byte_of_Z z) = u8 z.
Proof.
  unfold byte_of_Z, byte_val.
  assert (H : 0 <= u8 z < 256) by (pose proof (wrap_range 8 z); unfold in_u in *; lia).
  destruct (Byte.of_N (Z.to_N (u8 z))) as [b|] eqn:E.
  - apply Byte.to_of_N in E. simpl. rewrite E. lia.
  - apply Byte.of_N_None_iff in E. lia.
Qed.

Lemma byte_of_Z_val b : byte_of_Z (byte_val b) = b.
Proof.
  unfold byte_of_Z, byte_val. rewrite wrap_id.
  - rewrite N2Z.id, Byte.of_to_N. done.
  - pose proof (byte_val_range b). unfold byte_val, in_u in *. lia.
Qed.

Lemma byte_val_inj b1 b2 : byte_val b1 = byte_val b2 -> b1 = b2.
Proof. intros H. by rewrite <-(byte_of_Z_val b1), H, byte_of_Z_val. Qed.

(** *** Exclusive or of bytes *)

Definition byte_xor (a b : byte) : byte := byte_of_Z (Z.lxor (byte_val a) (byte_val b)).

Lemma lxor_range w a b : 0 <= w -> in_u w a -> in_u w b -> in_u w (Z.lxor a b).
Proof.
  unfold in_u. intros Hw Ha Hb.
  assert (0 <= Z.lxor a b) by (apply Z.lxor_nonneg; lia). split; [done|].
  destruct (decide (w = 0)) as [->|]; [by assert (a = 0) as -> by lia; assert (b = 0) as -> by lia|].
  apply Z.log2_lt_cancel. eapply Z.le_lt_trans; [apply Z.log2_lxor; lia|].
  rewrite Z.log2_pow2 by lia.
  assert (forall z, 0 <= z < 2 ^ w -> Z.log2 z < w) as Hl.
  { intros z Hz. destruct (decide (z = 0)) as [->|]; [simpl; lia|]. apply Z.log2_lt_pow2; lia. }
  apply Z.max_lub_lt; by apply Hl.
Qed.

Lemma byte_val_in_u b : in_u 8 (byte_val b).
Proof. apply byte_val_range. Qed.

Lemma byte_val_xor a b : byte_val (byte_xor a b) = Z.lxor (byte_val a) (byte_val b).
Proof.
  unfold byte_xor. rewrite byte_val_of_Z. apply wrap_id.
  apply lxor_range; [lia|apply byte_val_in_u ..].
Qed.

Lemma byte_xor_comm a b : byte_xor a b = byte_xor b a.
Proof. unfold byte_xor. by rewrite Z.lxor_comm. Qed.

Lemma byte_xor_assoc a b c : byte_xor (byte_xor a b) c = byte_xor a (byte_xor b c).
Proof. apply byte_val_inj. by rewrite !byte_val_xor, Z.lxor_assoc. Qed.

Lemma byte_xor_cancel a b : byte_xor (byte_xor a b) b = a.
Proof.
  apply byte_val_inj. rewrite !byte_val_xor.
  by rewrite Z.lxor_assoc, Z.lxor_nilpotent, Z.lxor_0_r.
Qed.

Definition zeros (n : nat) : bytes := replicate n x00.

(** *** Fixed-width big-endian and little-endian integers *)

Fixpoint le_decode (bs : bytes) : Z :=
  match bs with
  | [] => 0
  | b :: bs' => byte_val b + 256 * le_decode bs'
  end.

Fixpoint le_encode (n : nat) (z : Z) : bytes :=
  match n with
  | O => []
  | S n' => byte_of_Z z :: le_encode n' (z / 256)
  end.

Definition be_decode (bs : bytes) : Z := le_decode (reverse bs).
Definition be_encode (n : nat) (z : Z) : bytes := reverse (le_encode n z).

Lemma length_le_encode n z : length (le_encode n z) = n.
Proof. revert z; induction n; intros; simpl; auto. Qed.

Lemma length_be_encode n z : length (be_encode n z) = n.
Proof. unfold be_encode. by rewrite length_reverse, length_le_encode. Qed.

Lemma pow256_succ n : 2 ^ (8 * Z.of_nat (S n)) = 256 * 2 ^ (8 * Z.of_nat n).
Proof.
  replace (8 * Z.of_nat (S n)) with (8 + 8 * Z.of_nat n) by lia.
  rewrite Z.pow_add_r by lia. reflexivity.
Qed.

Lemma le_decode_range bs : in_u (8 * Z.of_nat (length bs)) (le_decode bs).
Proof.
  induction bs as [|b bs IH]; [by compute|]. unfold in_u in *.
  cbn [length le_decode]. rewrite pow256_succ.
  pose proof (byte_val_range b). lia.
Qed.

Lemma be_decode_range bs : in_u (8 * Z.of_nat (length bs)) (be_decode bs).
Proof. unfold be_decode. rewrite <-length_reverse. apply le_decode_range. Qed.

Lemma le_decode_encode n z : le_decode (le_encode n z) = wrap (8 * Z.of_nat n) z.
Proof.
  revert z. induction n as [|n IH]; intros z; cbn [le_encode le_decode].
  - unfold wrap. simpl. by rewrite Z.mod_1_r.
  - rewrite IH, byte_val_of_Z. unfold wrap. rewrite pow256_succ.
    change (2 ^ 8) with 256. rewrite Z.rem_mul_r; try lia.
Qed.

Lemma be_decode_encode n z : be_decode (be_encode n z) = wrap (8 * Z.of_nat n) z.
Proof. unfold be_decode, be_encode. by rewrite reverse_involutive, le_decode_encode. Qed.

Lemma le_encode_decode bs : le_encode (length bs) (le_decode bs) = bs.
Proof.
  induction bs as [|b bs IH]; [done|]. cbn [length le_encode le_decode].
  pose proof (byte_val_range b). f_equal.
  - apply byte_val_inj. rewrite byte_val_of_Z. unfold wrap.
    change (2 ^ 8) with 256. rewrite (Z.mul_comm 256), Z_mod_plus_full.
    apply Z.mod_small; lia.
  - rewrite (Z.mul_comm 256), Z.div_add, Z.div_small by lia. exact IH.
Qed.

Lemma be_encode_decode bs : be_encode (length bs) (be_decode bs) = bs.
Proof.
  unfold be_encode, be_decode. rewrite <-(length_reverse bs), le_encode_decode.
  apply reverse_involutive.
Qed.

(** *** Slices and in-place updates of a buffer

    [slice off len l] is what [memcpy] from [l + off] reads, [splice off new l]
    is [l] after [memcpy(l + off, new, zlen new)]; both are used in range
    only, out of range is an error of the operation that models the access. *)

Definition zlen {A} (l : list A) : Z := Z.of_nat (length l).
Definition slice {A} (off len : Z) (l : list A) : list A :=
  take (Z.to_nat len) (drop (Z.to_nat off) l).
Definition splice {A} (off : Z) (new l : list A) : list A :=
  take (Z.to_nat off) l ++ new ++ drop (Z.to_nat off + length new) l.

Section slices.
Context {A : Type}.
Implicit Types l a b new : list A.

Lemma zlen_nonneg l : 0 <= zlen l.
Proof. unfold zlen. lia. Qed.

Lemma zlen_app a b : zlen (a ++ b) = zlen a + zlen b.
Proof. unfold zlen. rewrite length_app. lia. Qed.

Lemma zlen_0_nil l : zlen l = 0 -> l = [].
Proof. unfold zlen. destruct l; simpl; [done|lia]. Qed.

Lemma zlen_slice off len l :
  0 <= off -> 0 <= len -> off + len <= zlen l -> zlen (slice off len l) = len.
Proof. unfold zlen, slice. rewrite length_take, length_drop. lia. Qed.

Lemma zlen_slice_le off len l : 0 <= len -> zlen (slice off len l) <= len.
Proof. unfold zlen, slice. rewrite length_take. lia. Qed.

Lemma zlen_take n l : 0 <= n <= zlen l -> zlen (take (Z.to_nat n) l) = n.
Proof. unfold zlen. rewrite length_take. lia. Qed.

Lemma zlen_splice off new l :
  0 <= off -> off + zlen new <= zlen l -> zlen (splice off new l) = zlen l.
Proof. unfold zlen, splice. rewrite !length_app, length_take, length_drop. lia. Qed.

Lemma slice_all l : slice 0 (zlen l) l = l.
Proof. unfold slice, zlen. rewrite drop_0, Nat2Z.id. by rewrite take_ge. Qed.

Lemma slice_0 off l : slice off 0 l = [].
Proof. reflexivity. Qed.

Lemma splice_nil off l : splice off [] l = l.
Proof. unfold splice. simpl. rewrite Nat.add_0_r. apply take_drop. Qed.

Lemma slice_app_split off m n l :
  0 <= off -> 0 <= m -> 0 <= n ->
  slice off (m + n) l = slice off m l ++ slice (off + m) n l.
Proof.
  intros. unfold slice. rewrite !Z2Nat.inj_add by lia.
  rewrite <-drop_drop. generalize (drop (Z.to_nat off) l). intros k.
  rewrite <-(take_drop (Z.to_nat m) k) at 1.
  destruct (decide (Z.to_nat m <= length k)%nat).
  - rewrite take_app. rewrite length_take, Nat.min_l by lia.
    f_equal; [|f_equal; lia]. apply take_ge. rewrite length_take. lia.
  - rewrite take_drop. rewrite !take_ge, drop_ge, take_nil by lia.
    by rewrite app_nil_r.
Qed.

Lemma lookup_slice off len l i :
  0 <= off -> (i < Z.to_nat len)%nat -> slice off len l !! i = l !! (Z.to_nat off + i)%nat.
Proof. intros. unfold slice. rewrite lookup_take_lt by lia. apply lookup_drop. Qed.

Lemma lookup_splice off new l i :
  0 <= off -> off + zlen new <= zlen l ->
  splice off new l !! i =
    if decide (Z.to_nat off <= i < Z.to_nat off + length new)%nat
    then new !! (i - Z.to_nat off)%nat else l !! i.
Proof.
  unfold zlen, splice. intros. case_decide as Hd.
  - rewrite lookup_app_r by (rewrite length_take; lia).
    rewrite length_take, Nat.min_l by lia. rewrite lookup_app_l by lia. done.
  - destruct (decide (i < Z.to_nat off)%nat).
    + rewrite lookup_app_l by (rewrite length_take; lia). by apply lookup_take_lt.
    + rewrite lookup_app_r by (rewrite length_take; lia).
      rewrite length_take, Nat.min_l by lia. rewrite lookup_app_r by lia.
      rewrite lookup_drop. f_equal. lia.
Qed.

Lemma list_eq_zlen l1 l2 :
  zlen l1 = zlen l2 -> (forall i, (i < length l1)%nat -> l1 !! i = l2 !! i) -> l1 = l2.
Proof.
  unfold zlen. intros Hlen H. apply list_eq. intros i.
  destruct (decide (i < length l1)%nat); [auto|].
  rewrite !lookup_ge_None_2; auto; lia.
Qed.

Lemma slice_splice_same off new l :
  0 <= off -> off + zlen new <= zlen l -> slice off (zlen new) (splice off new l) = new.
Proof.
  intros. pose proof (zlen_nonneg new). apply list_eq_zlen.
  - apply zlen_slice; auto. rewrite zlen_splice; auto.
  - intros i Hi. pose proof (zlen_slice_le off (zlen new) (splice off new l)).
    unfold zlen in *. rewrite lookup_slice, lookup_splice by (unfold zlen; lia).
    rewrite decide_True by lia. f_equal. lia.
Qed.

Lemma slice_splice_disj o n off new l :
  0 <= o -> 0 <= n -> 0 <= off -> off + zlen new <= zlen l ->
  o + n <= off \/ off + zlen new <= o ->
  slice o n (splice off new l) = slice o n l.
Proof.
  intros Ho Hn Hoff Hin Hd. apply list_eq. intros i.
  destruct (decide (i < Z.to_nat n)%nat) as [Hi|Hi].
  - rewrite !lookup_slice, lookup_splice by lia. rewrite decide_False; [done|].
    unfold zlen in *. lia.
  - rewrite !lookup_ge_None_2; auto; unfold slice; rewrite length_take; lia.
Qed.

Lemma splice_splice_same off a b l :
  0 <= off -> zlen a <= zlen b -> off + zlen b <= zlen l ->
  splice off b (splice off a l) = splice off b l.
Proof.
  intros. pose proof (zlen_nonneg a). apply list_eq_zlen.
  - rewrite !zlen_splice; rewrite ?zlen_splice; lia.
  - intros i _. rewrite !lookup_splice by (rewrite ?zlen_splice; lia).
    repeat case_decide; auto. unfold zlen in *. lia.
Qed.

Lemma splice_app off a b l :
  0 <= off -> off + zlen a + zlen b <= zlen l ->
  splice (off + zlen a) b (splice off a l) = splice off (a ++ b) l.
Proof.
  intros. pose proof (zlen_nonneg a). pose proof (zlen_nonneg b). apply list_eq_zlen.
  - rewrite !zlen_splice; rewrite ?zlen_splice, ?zlen_app; lia.
  - intros i _. rewrite !lookup_splice by (rewrite ?zlen_splice, ?zlen_app; lia).
    rewrite length_app. unfold zlen in *.
    repeat case_decide; try lia.
    + rewrite lookup_app_r by lia. f_equal. lia.
    + by rewrite lookup_app_l by lia.
    + done.
Qed.

Lemma splice_slice_id off n l :
  0 <= off -> 0 <= n -> off + n <= zlen l -> splice off (slice off n l) l = l.
Proof.
  intros. apply list_eq_zlen.
  - apply zlen_splice; auto. rewrite zlen_slice; lia.
  - intros i _. rewrite lookup_splice by (rewrite ?zlen_slice; lia).
    case_decide as Hd; [|done].
    assert (length (slice off n l) = Z.to_nat n) as E.
    { pose proof (zlen_slice off n l). unfold zlen in *. lia. }
    rewrite lookup_slice by lia. f_equal. lia.
Qed.

Lemma slice_slice o n off len l :
  0 <= o -> 0 <= n -> 0 <= off -> o + n <= len ->
  slice o n (slice off len l) = slice (off + o) n l.
Proof.
  intros. apply list_eq. intros i. destruct (decide (i < Z.to_nat n)%nat) as [Hi|Hi].
  - rewrite !lookup_slice by lia. f_equal. lia.
  - rewrite !lookup_ge_None_2; auto; unfold slice; rewrite length_take; lia.
Qed.

Lemma slice_drop off n k l :
  0 <= off -> 0 <= k <= n -> drop (Z.to_nat k) (slice off n l) = slice (off + k) (n - k) l.
Proof.
  intros. unfold slice. rewrite skipn_firstn_comm, drop_drop. f_equal; [lia|f_equal; lia].
Qed.

(** What a partial update leaves in the range it was meant for. *)
Lemma slice_splice_take off k new l :
  0 <= off -> 0 <= k <= zlen new -> off + zlen new <= zlen l ->
  slice off (zlen new) (splice off (take (Z.to_nat k) new) l) =
    take (Z.to_nat k) new ++ drop (Z.to_nat k) (slice off (zlen new) l).
Proof.
  intros. assert (E : zlen (take (Z.to_nat k) new) = k) by (by apply zlen_take).
  replace (zlen new) with (k + (zlen new - k)) at 1 by lia.
  rewrite slice_app_split by lia. f_equal.
  - rewrite <-E at 1. apply slice_splice_same; lia.
  - rewrite slice_splice_disj by lia. by rewrite slice_drop by lia.
Qed.

Lemma slice_app_l off n a b :
  0 <= off -> off + n <= zlen a -> slice off n (a ++ b) = slice off n a.
Proof.
  intros. apply list_eq. intros i. destruct (decide (i < Z.to_nat n)%nat) as [Hi|Hi].
  - rewrite !lookup_slice by lia. unfold zlen in *. rewrite lookup_app_l by lia. done.
  - rewrite !lookup_ge_None_2; auto; unfold slice; rewrite length_take; lia.
Qed.

Lemma slice_app_r off n a b :
  zlen a <= off -> slice off n (a ++ b) = slice (off - zlen a) n b.
Proof.
  intros. pose proof (zlen_nonneg a). apply list_eq. intros i.
  destruct (decide (i < Z.to_nat n)%nat) as [Hi|Hi].
  - rewrite !lookup_slice by lia. unfold zlen in *. rewrite lookup_app_r by lia.
    f_equal. lia.
  - rewrite !lookup_ge_None_2; auto; unfold slice; rewrite length_take; lia.
Qed.
End slices.

(** *** Packed structs: the fields of a concatenation *)

Lemma slice_join_head n (a : bytes) l : zlen a = n -> slice 0 n (mjoin (a :: l)) = a.
Proof.
  intros <-. change (mjoin (a :: l)) with (a ++ mjoin l). pose proof (zlen_nonneg a).
  rewrite slice_app_l by lia. apply slice_all.
Qed.
Lemma slice_join_tail off n (a : bytes) l k : zlen a = k -> k <= off -> slice off n (mjoin (a :: l)) = slice (off - k) n (mjoin l).
Proof. intros <- Ho. change (mjoin (a :: l)) with (a ++ mjoin l). by apply slice_app_r. Qed.

(** *** C strings in fixed-size fields

    [cstr b] is the C string a [char[]] holds: the bytes before the first
    NUL. *)

Fixpoint cstr (b : bytes) : bytes :=
  match b with
  | [] => []
  | c :: b' => if decide (c = x00) then [] else c :: cstr b'
  end.

Definition no_nul (b : bytes) : Prop := Forall (fun c => c <> x00) b.

Lemma cstr_no_nul b : no_nul (cstr b).
Proof.
  unfold no_nul. induction b as [|c b IH]; simpl; [constructor|].
  case_decide; constructor; auto.
Qed.

Lemma cstr_app_nul b rest : no_nul b -> cstr (b ++ x00 :: rest) = b.
Proof.
  unfold no_nul. induction 1 as [|c b Hc Hb IH]; simpl; [done|].
  rewrite decide_False by done. by rewrite IH.
Qed.

Lemma cstr_id b : no_nul b -> cstr b = b.
Proof.
  unfold no_nul. induction 1 as [|c b Hc Hb IH]; simpl; [done|].
  rewrite decide_False by done. by rewrite IH.
Qed.

Definition bytes_of_string (s : string) : bytes := String.list_byte_of_string s.
