(* ===== verification/UtilsIO.v ===== *)
(** * UtilsIO: block-wise buffered I/O (lib/utils_io.c)

    The system calls read(2), write(2) and lseek(2) on an open block device
    are the functions [sys_read], [sys_write] and [sys_lseek] on a [file]: the
    device contents, the file offset, and a schedule that says how much each
    coming read or write transfers or which error it fails with. A transfer
    is never empty unless nothing is left (POSIX), an exhausted schedule means
    full transfers. A write does not extend a block device.

    The retry loops [_read_buffer], [_write_buffer] recurse with fuel; the
    fuel they are started with is enough for every schedule
    ([read_loop_spec], [write_loop_spec]). Memory allocation is taken to
    succeed, and a buffer's address does not matter, so the bounce buffer of
    unaligned callers is the buffer itself. *)

From S2P Require Import Prelude.

Inductive xfer :=
| Xfer (n : positive)
| Xerr (errno : Z).

Record file := File {
  f_data : bytes;
  f_pos : Z;
  f_sched : list xfer;
}.

Definition f_size (f : file) : Z := zlen (f_data f).

(** Bytes the next call transfers of [len] requested and [avail] available. *)
Definition grant (s : list xfer) (len avail : Z) : Z :=
  match s with
  | Xfer n :: _ => Z.min (Z.pos n) (Z.min len avail)
  | _ => Z.min len avail
  end.

Record sysres := SysRes { sr_ret : Z; sr_errno : Z; sr_data : bytes; sr_file : file }.

Definition sys_read (len : Z) (f : file) : sysres :=
  let s' := tail (f_sched f) in
  match f_sched f with
  | Xerr e :: _ => SysRes (-1) e [] (File (f_data f) (f_pos f) s')
  | _ =>
      let n := Z.max 0 (grant (f_sched f) len (f_size f - f_pos f)) in
      SysRes n 0 (slice (f_pos f) n (f_data f)) (File (f_data f) (f_pos f + n) s')
  end.

Definition sys_write (buf : bytes) (f : file) : sysres :=
  let s' := tail (f_sched f) in
  let avail := f_size f - f_pos f in
  match f_sched f with
  | Xerr e :: _ => SysRes (-1) e [] (File (f_data f) (f_pos f) s')
  | _ =>
      if (0 <? zlen buf) && (avail <=? 0)
      then SysRes (-1) ENOSPC [] (File (f_data f) (f_pos f) s')
      else
        let n := grant (f_sched f) (zlen buf) avail in
        SysRes n 0 []
          (File (splice (f_pos f) (take (Z.to_nat n) buf) (f_data f)) (f_pos f + n) s')
  end.

Inductive whence := SEEK_SET | SEEK_CUR | SEEK_END.

Definition sys_lseek (off : Z) (w : whence) (f : file) : Z * file :=
  let p := match w with
           | SEEK_SET => off
           | SEEK_CUR => f_pos f + off
           | SEEK_END => f_size f + off
           end in
  if p <? 0 then (-1, f) else (p, File (f_data f) p (f_sched f)).

(** ** The retry loops

    [quit] is what successive inspections of [*quit] see; [[]] is a NULL
    pointer or a flag never raised. *)

Fixpoint read_loop (fuel : nat) (quit : list bool) (length : Z) (acc : bytes) (f : file)
    : option (Z * bytes * file) :=
  match fuel with
  | O => None
  | S fuel' =>
      let r := sys_read (length - zlen acc) f in
      if (sr_ret r =? -1) && negb (sr_errno r =? EINTR)
      then Some (sr_ret r, acc, sr_file r)
      else
        let acc' := if 0 <? sr_ret r then acc ++ sr_data r else acc in
        if (sr_ret r =? 0) || default false (head quit)
        then Some (zlen acc', acc', sr_file r)
        else if zlen acc' =? length then Some (length, acc', sr_file r)
        else read_loop fuel' (tail quit) length acc' (sr_file r)
  end.

Definition io_fuel (length : Z) (f : file) : nat :=
  S (List.length (f_sched f) + Z.to_nat length).

Definition _read_buffer (fd : Z) (quit : list bool) (length : Z) (f : file)
    : Z * bytes * file :=
  if fd <? 0 then (- EINVAL, [], f)
  else default (- EINVAL, [], f) (read_loop (io_fuel length f) quit length [] f).

Definition read_buffer (fd length : Z) (f : file) := _read_buffer fd [] length f.
Definition read_buffer_intr (fd : Z) (quit : list bool) (length : Z) (f : file) :=
  _read_buffer fd quit length f.

Fixpoint write_loop (fuel : nat) (quit : list bool) (length write_size : Z) (buf : bytes)
    (f : file) : option (Z * file) :=
  match fuel with
  | O => None
  | S fuel' =>
      let w := sys_write (take (Z.to_nat (length - write_size)) buf) f in
      if (sr_ret w <? 0) && negb (sr_errno w =? EINTR)
      then Some (sr_ret w, sr_file w)
      else
        let ws' := if 0 <? sr_ret w then write_size + sr_ret w else write_size in
        let buf' := if 0 <? sr_ret w then drop (Z.to_nat (sr_ret w)) buf else buf in
        if (sr_ret w =? 0) || default false (head quit)
        then Some (ws', sr_file w)
        else if ws' =? length then Some (ws', sr_file w)
        else write_loop fuel' (tail quit) length ws' buf' (sr_file w)
  end.

Definition _write_buffer (fd : Z) (quit : list bool) (buf : bytes) (length : Z) (f : file)
    : Z * file :=
  if (fd <? 0) || (length =? 0) then (- EINVAL, f)
  else default (- EINVAL, f) (write_loop (io_fuel length f) quit length 0 buf f).

Definition write_buffer (fd : Z) (buf : bytes) (length : Z) (f : file) :=
  _write_buffer fd [] buf length f.
Definition write_buffer_intr (fd : Z) (quit : list bool) (buf : bytes) (length : Z) (f : file) :=
  _write_buffer fd quit buf length f.

(** ** Block-wise transfers

    A read returns its value and, when it is not negative, the bytes it put
    into the buffer; a failed read leaves the buffer unspecified. *)

(** The last, partial block: read the block, overlay the new bytes, step back
    and write the whole block. *)
Definition write_hangover (fd bsize : Z) (solid_buf : bytes) (hangover length : Z) (f : file)
    : Z * file :=
  let '(r, got, f) := read_buffer fd bsize f in
  if r <? 0 then (-1, f)
  else
    let hangover_buf := splice 0 got (zeros (Z.to_nat bsize)) in
    let '(p, f) := sys_lseek (- r) SEEK_CUR f in
    if p <? 0 then (-1, f)
    else
      let hangover_buf := splice 0 (take (Z.to_nat hangover) solid_buf) hangover_buf in
      let '(r, f) := write_buffer fd hangover_buf bsize f in
      if (r <? 0) || (r <? hangover) then (-1, f) else (length, f).

Definition write_blockwise (fd bsize alignment : Z) (buf : bytes) (length : Z) (f : file)
    : Z * file :=
  if (fd =? -1) || (bsize =? 0) || (alignment =? 0) then (-1, f)
  else
    let hangover := length mod bsize in
    let solid := length - hangover in
    let '(r, f) := if solid =? 0 then (solid, f)
                   else write_buffer fd (take (Z.to_nat solid) buf) solid f in
    if (r <? 0) || negb (r =? solid) then (-1, f)
    else if hangover =? 0 then (length, f)
    else write_hangover fd bsize (drop (Z.to_nat solid) buf) hangover length f.

Definition read_blockwise (fd bsize alignment length : Z) (f : file)
    : Z * bytes * file :=
  if (fd =? -1) || (bsize =? 0) || (alignment =? 0) then (-1, [], f)
  else
    let hangover := length mod bsize in
    let solid := length - hangover in
    let '(r, buf, f) := read_buffer fd solid f in
    if (r <? 0) || negb (r =? solid) then (-1, [], f)
    else if hangover =? 0 then (length, buf, f)
    else
      let '(r, hangover_buf, f) := read_buffer fd bsize f in
      if (r <? 0) || (r <? hangover) then (-1, [], f)
      else (length, buf ++ take (Z.to_nat hangover) hangover_buf, f).

(** The first, partial block: read it, overlay [innerCount] new bytes at
    [frontHang], seek back and write the block. [false] stands for [goto out]
    with [ret = -1]. *)
Definition write_front (fd bsize frontHang innerCount start : Z) (buf : bytes) (f : file)
    : bool * file :=
  let '(r, got, f) := read_buffer fd bsize f in
  if (r <? 0) || (r <? frontHang + innerCount) then (false, f)
  else
    let frontPadBuf := splice frontHang (take (Z.to_nat innerCount) buf)
                         (got ++ zeros (Z.to_nat (bsize - r))) in
    let '(p, f) := sys_lseek start SEEK_SET f in
    if p <? 0 then (false, f)
    else
      let '(r, f) := write_buffer fd frontPadBuf bsize f in
      if (r <? 0) || negb (r =? bsize) then (false, f) else (true, f).

Definition write_lseek_blockwise (fd bsize alignment : Z) (buf : bytes) (length offset : Z)
    (f : file) : Z * file :=
  if (fd =? -1) || (bsize =? 0) || (alignment =? 0) then (-1, f)
  else
    let '(offset, f) := if offset <? 0 then sys_lseek offset SEEK_END f else (offset, f) in
    if offset <? 0 then (-1, f)
    else
      let frontHang := offset mod bsize in
      let '(p, f) := sys_lseek (offset - frontHang) SEEK_SET f in
      if p <? 0 then (-1, f)
      else if negb (frontHang =? 0) && negb (length =? 0) then
        let innerCount := Z.min (bsize - frontHang) length in
        let '(ok, f) := write_front fd bsize frontHang innerCount (offset - frontHang) buf f in
        if negb ok then (-1, f)
        else
          let buf := drop (Z.to_nat innerCount) buf in
          let length := length - innerCount in
          let '(ret, f) := if length =? 0 then (0, f)
                           else write_blockwise fd bsize alignment buf length f in
          if 0 <=? ret then (ret + innerCount, f) else (ret, f)
      else if length =? 0 then (0, f)
      else write_blockwise fd bsize alignment buf length f.

Definition read_lseek_blockwise (fd bsize alignment length offset : Z) (f : file)
    : Z * bytes * file :=
  if (fd =? -1) || (bsize <=? 0) then (-1, [], f)
  else
    let '(offset, f) := if offset <? 0 then sys_lseek offset SEEK_END f else (offset, f) in
    if offset <? 0 then (-1, [], f)
    else
      let frontHang := offset mod bsize in
      let '(p, f) := sys_lseek (offset - frontHang) SEEK_SET f in
      if p <? 0 then (-1, [], f)
      else if negb (frontHang =? 0) && negb (length =? 0) then
        let innerCount := Z.min (bsize - frontHang) length in
        if alignment =? 0 then (-1, [], f) else
        let '(r, frontPadBuf, f) := read_buffer fd bsize f in
        if (r <? 0) || (r <? frontHang + innerCount) then (-1, [], f)
        else
          let '(ret, buf, f) := read_blockwise fd bsize alignment (length - innerCount) f in
          if 0 <=? ret then (ret + innerCount, slice frontHang innerCount frontPadBuf ++ buf, f)
          else (ret, [], f)
      else read_blockwise fd bsize alignment length f.

(** ** Schedules *)

(** No call fails for good: only interrupted calls, which are retried. *)
Definition benign (s : list xfer) : Prop :=
  Forall (fun x => match x with Xerr e => e = EINTR | Xfer _ => True end) s.

(** Transfers stop at multiples of [g] bytes only (sector atomicity); any
    call may still fail. *)
Definition granular (g : Z) (s : list xfer) : Prop :=
  Forall (fun x => match x with Xerr _ => True | Xfer n => (g | Z.pos n) end) s.

(** [f'] is [f] after some calls that consumed a part of the schedule. *)
Definition sched_le (f f' : file) : Prop :=
  forall P : xfer -> Prop, Forall P (f_sched f) -> Forall P (f_sched f').

#[export] Instance sched_le_preorder : PreOrder sched_le.
Proof. split; [intros f P H; exact H|]. intros f1 f2 f3 H12 H23 P H. auto. Qed.

Lemma sched_le_tail f d p : sched_le f (File d p (tail (f_sched f))).
Proof. intros P H. simpl. destruct H; simpl; auto. Qed.

Lemma sched_le_same f d p : sched_le f (File d p (f_sched f)).
Proof. intros P H. exact H. Qed.

Create HintDb cs_io.
#[export] Hint Resolve sched_le_tail sched_le_same : cs_io.

Lemma sched_le_benign f f' : sched_le f f' -> benign (f_sched f) -> benign (f_sched f').
Proof. intros H. apply H. Qed.

Lemma grant_bounds s len avail :
  0 <= len -> 0 <= avail -> 0 <= grant s len avail <= Z.min len avail /\
  (grant s len avail = 0 -> len = 0 \/ avail = 0).
Proof. unfold grant. destruct s as [|[]]; lia. Qed.

(** ** Read loop *)

Lemma sys_read_spec len f :
  0 <= len ->
  let r := sys_read len f in
  sched_le f (sr_file r) /\ f_data (sr_file r) = f_data f /\
  ((sr_ret r = -1 /\ f_pos (sr_file r) = f_pos f /\
    (List.length (f_sched (sr_file r)) < List.length (f_sched f))%nat /\
    (benign (f_sched f) -> sr_errno r = EINTR)) \/
   (0 <= sr_ret r <= len /\ sr_ret r <= Z.max 0 (f_size f - f_pos f) /\
    (sr_ret r = 0 -> len = 0 \/ f_size f <= f_pos f) /\
    sr_data r = slice (f_pos f) (sr_ret r) (f_data f) /\
    (List.length (f_sched (sr_file r)) <= List.length (f_sched f))%nat /\
    f_pos (sr_file r) = f_pos f + sr_ret r)).
Proof.
  intros Hlen r. subst r. unfold sys_read.
  destruct (f_sched f) as [|[n|e] s'] eqn:Es; simpl.
  - split; [eauto using sched_le_tail; rewrite <-Es; apply sched_le_same|].
    split; [done|]. right. repeat split; try lia.
  - split; [intros P H; rewrite Es in H; by inversion H|].
    split; [done|]. right. repeat split; try lia.
  - split; [intros P H; rewrite Es in H; by inversion H|].
    split; [done|]. left. repeat split; try lia. intros Hb. by inversion Hb.
Qed.

Lemma read_loop_spec fuel length acc f p0 :
  0 <= p0 -> f_pos f = p0 + zlen acc -> acc = slice p0 (zlen acc) (f_data f) ->
  zlen acc <= length -> zlen acc <= Z.max 0 (f_size f - p0) ->
  (List.length (f_sched f) + Z.to_nat (length - zlen acc) < fuel)%nat ->
  exists r buf f',
    read_loop fuel [] length acc f = Some (r, buf, f') /\
    sched_le f f' /\ f_data f' = f_data f /\ f_pos f' = p0 + zlen buf /\
    ((r = -1 /\ ~ benign (f_sched f)) \/
     (r = Z.min length (Z.max 0 (f_size f - p0)) /\ buf = slice p0 r (f_data f) /\ zlen buf = r)).
Proof.
  revert acc f. induction fuel as [|fuel IH]; intros acc f Hp0 Hpos Hacc Hlen Hav Hf; [lia|].
  pose proof (zlen_nonneg acc) as Hacc0.
  cbn [read_loop].
  destruct (sys_read_spec (length - zlen acc) f ltac:(lia)) as (Hs & Hd & Hcase).
  set (r := sys_read (length - zlen acc) f) in *.
  destruct Hcase as [(Hr & Hp & Hl & Hb)|(Hr & Hr2 & H0 & Hdata & Hl & Hp)].
  - rewrite Hr. simpl. destruct (Z.eqb_spec (sr_errno r) EINTR) as [He|He]; simpl.
    + destruct (Z.eqb_spec (zlen acc) length) as [E|E].
      * exists length, acc, (sr_file r). split; [done|]. split; [done|].
        split; [done|]. split; [congruence|]. right. subst length.
        split; [lia|]. split; [congruence|done].
      * destruct (IH acc (sr_file r)) as (r' & buf & f' & Hrun & Hs' & Hd' & Hp' & Hres);
          rewrite ?Hp, ?Hd; auto; try lia.
        { unfold f_size in *. rewrite Hd. lia. }
        exists r', buf, f'. rewrite Hd in *. unfold f_size in *. rewrite Hd in *.
        split; [done|]. split; [by transitivity (sr_file r)|].
        split; [done|]. split; [done|].
        destruct Hres as [[-> Hnb]|Hres]; [left|right; auto].
        split; [done|]. intros Hb'. apply Hnb. by apply Hs.
    + exists (-1), acc, (sr_file r). split; [done|]. split; [done|]. split; [done|].
      split; [congruence|]. left. split; [done|]. intros Hben. by apply He, Hb.
  - destruct (Z.eqb_spec (sr_ret r) (-1)); [lia|]. simpl. rewrite orb_false_r.
    assert (Hacc' : (if 0 <? sr_ret r then acc ++ sr_data r else acc)
                    = slice p0 (zlen acc + sr_ret r) (f_data f)).
    { rewrite slice_app_split by lia. rewrite <-Hacc, <-Hpos, <-Hdata.
      destruct (Z.ltb_spec 0 (sr_ret r)); [done|].
      assert (E : sr_ret r = 0) by lia. rewrite Hdata, E, slice_0. by rewrite app_nil_r. }
    rewrite Hacc'. set (acc' := slice p0 (zlen acc + sr_ret r) (f_data f)) in *.
    assert (Hzl : zlen acc' = zlen acc + sr_ret r).
    { destruct (decide (f_size f <= p0)) as [Hle|].
      - assert (zlen acc = 0) by lia. assert (sr_ret r = 0) as E2 by lia.
        subst acc'. rewrite E2, Z.add_0_r. congruence.
      - apply zlen_slice; unfold f_size in *; lia. }
    rewrite Hzl. destruct (Z.eqb_spec (sr_ret r) 0) as [Hz|Hz].
    + exists (zlen acc + sr_ret r), acc', (sr_file r). split; [done|]. split; [done|].
      split; [done|]. split; [lia|]. right. rewrite Hz in *. rewrite Z.add_0_r in *.
      split; [destruct (H0 eq_refl); lia|]. split; [|lia]. subst acc'. f_equal; lia.
    + destruct (Z.eqb_spec (zlen acc + sr_ret r) length) as [E|E].
      * exists length, acc', (sr_file r). split; [done|]. split; [done|]. split; [done|].
        split; [lia|]. right. split; [lia|]. split; [|lia]. subst acc'. by rewrite E.
      * destruct (IH acc' (sr_file r)) as (r' & buf & f' & Hrun & Hs' & Hd' & Hp' & Hres);
          rewrite ?Hd; auto; try lia.
        { by rewrite Hzl. }
        { unfold f_size in *. rewrite Hd. lia. }
        exists r', buf, f'. rewrite Hd in *. unfold f_size in *. rewrite Hd in *.
        split; [done|]. split; [by transitivity (sr_file r)|].
        split; [done|]. split; [done|].
        destruct Hres as [[-> Hnb]|Hres]; [left|right; auto].
        split; [done|]. intros Hb'. apply Hnb. by apply Hs.
Qed.

(** [read_buffer] returns all the bytes up to the end of the device unless a
    call fails for good. *)
Lemma read_buffer_spec fd length f :
  0 <= fd -> 0 <= length -> 0 <= f_pos f ->
  exists r buf f',
    read_buffer fd length f = (r, buf, f') /\
    sched_le f f' /\ f_data f' = f_data f /\ f_pos f' = f_pos f + zlen buf /\
    ((r = -1 /\ ~ benign (f_sched f)) \/
     (r = Z.min length (Z.max 0 (f_size f - f_pos f)) /\
      buf = slice (f_pos f) r (f_data f) /\ zlen buf = r)).
Proof.
  intros Hfd Hlen Hpos. unfold read_buffer, _read_buffer.
  destruct (Z.ltb_spec fd 0); [lia|].
  destruct (read_loop_spec (io_fuel length f) length [] f (f_pos f))
    as (r & buf & f' & Hrun & Hres);
    change (zlen (@nil byte)) with 0; auto; try lia.
  { unfold io_fuel. rewrite Z.sub_0_r. lia. }
  rewrite Hrun. simpl. exists r, buf, f'. split; [done|]. exact Hres.
Qed.

(** ** Write loop *)

Lemma sys_write_spec buf f :
  0 < zlen buf -> 0 <= f_pos f <= f_size f ->
  let w := sys_write buf f in
  sched_le f (sr_file w) /\
  ((sr_ret w = -1 /\ f_data (sr_file w) = f_data f /\ f_pos (sr_file w) = f_pos f /\
    (List.length (f_sched (sr_file w)) <= List.length (f_sched f))%nat /\
    (sr_errno w = EINTR -> (List.length (f_sched (sr_file w)) < List.length (f_sched f))%nat) /\
    (sr_errno w <> EINTR -> ~ benign (f_sched f) \/ f_size f <= f_pos f)) \/
   (0 < sr_ret w <= zlen buf /\ f_pos f + sr_ret w <= f_size f /\
    (List.length (f_sched (sr_file w)) <= List.length (f_sched f))%nat /\
    f_data (sr_file w) = splice (f_pos f) (take (Z.to_nat (sr_ret w)) buf) (f_data f) /\
    f_pos (sr_file w) = f_pos f + sr_ret w /\
    (forall g, granular g (f_sched f) -> (g | zlen buf) -> f_pos f + zlen buf <= f_size f ->
       (g | sr_ret w)))).
Proof.
  intros Hbuf Hpos w. subst w. unfold sys_write.
  assert (Hb : (0 <? zlen buf) = true) by lia. rewrite Hb.
  assert (Hg : forall g n, (g | n) -> (g | zlen buf) -> f_pos f + zlen buf <= f_size f ->
    (g | Z.min n (Z.min (zlen buf) (f_size f - f_pos f)))).
  { intros g n H1 H2 H3. rewrite (Z.min_l (zlen buf)) by lia.
    destruct (Z.min_spec n (zlen buf)) as [[_ ->]|[_ ->]]; auto. }
  destruct (f_sched f) as [|[n|e] s'] eqn:Es; cbn [tail andb].
  - destruct (Z.leb_spec (f_size f - f_pos f) 0); simpl; (split; [intros P H'; rewrite Es in H'; by auto|]).
    + left. repeat split; try done; try lia; try (intros _; right; lia).
    + right. repeat split; try lia. intros g _ H1 H2.
      rewrite <-(Z.min_id (zlen buf)), <-Z.min_assoc. auto.
  - destruct (Z.leb_spec (f_size f - f_pos f) 0); simpl;
      (split; [intros P H'; rewrite Es in H'; by inversion H'|]).
    + left. repeat split; try done; try lia; try (intros _; right; lia).
    + right. repeat split; simpl; try lia. intros g H0 H1 H2.
      apply Hg; auto. by inversion H0.
  - simpl. split; [intros P H'; rewrite Es in H'; by inversion H'|]. left.
    repeat split; simpl; try done; try lia. intros He. left. intros Hben. by inversion Hben.
Qed.

Lemma take_drop_take {A} (i j : Z) (l : list A) :
  0 <= i -> 0 <= j -> i + j <= zlen l ->
  take (Z.to_nat i) l ++ take (Z.to_nat j) (drop (Z.to_nat i) l) = take (Z.to_nat (i + j)) l.
Proof.
  intros. rewrite Z2Nat.inj_add by lia. apply list_eq. intros k.
  unfold zlen in *.
  destruct (decide (k < Z.to_nat i)%nat).
  - rewrite lookup_app_l by (rewrite length_take; lia). rewrite !lookup_take_lt by lia. done.
  - rewrite lookup_app_r by (rewrite length_take; lia). rewrite length_take, Nat.min_l by lia.
    destruct (decide (k < Z.to_nat i + Z.to_nat j)%nat).
    + rewrite !lookup_take_lt by lia. rewrite lookup_drop. f_equal. lia.
    + rewrite !lookup_take_ge by lia. done.
Qed.

Definition write_outcome (buf : bytes) (length p0 : Z) (f0 : file) (r : Z) (f' : file) : Prop :=
  exists k, 0 <= k <= length /\ p0 + k <= f_size f0 /\
    f_data f' = splice p0 (take (Z.to_nat k) buf) (f_data f0) /\
    f_pos f' = p0 + k /\
    (forall g, granular g (f_sched f0) -> (g | length) -> p0 + length <= f_size f0 -> (g | k)) /\
    ((r = length /\ k = length) \/
     (r = -1 /\ (~ benign (f_sched f0) \/ f_size f0 < p0 + length))).

Lemma write_loop_spec fuel length ws buf0 f0 f p0 :
  0 <= p0 <= f_size f0 -> zlen buf0 = length -> 0 <= ws < length ->
  sched_le f0 f -> p0 + ws <= f_size f0 ->
  f_data f = splice p0 (take (Z.to_nat ws) buf0) (f_data f0) -> f_pos f = p0 + ws ->
  (forall g, granular g (f_sched f0) -> (g | length) -> p0 + length <= f_size f0 -> (g | ws)) ->
  (List.length (f_sched f) + Z.to_nat (length - ws) < fuel)%nat ->
  exists r f',
    write_loop fuel [] length ws (drop (Z.to_nat ws) buf0) f = Some (r, f') /\
    sched_le f0 f' /\ write_outcome buf0 length p0 f0 r f'.
Proof.
  revert ws f. induction fuel as [|fuel IH]; intros ws f Hp0 Hlen Hws Hs Hin Hd Hp Hg Hf; [lia|].
  cbn [write_loop].
  rewrite take_ge by (rewrite length_drop; unfold zlen in *; lia).
  assert (Hzd : zlen (drop (Z.to_nat ws) buf0) = length - ws)
    by (unfold zlen in *; rewrite length_drop; lia).
  assert (Hsz : f_size f = f_size f0).
  { unfold f_size. rewrite Hd. apply zlen_splice; [lia|]. rewrite zlen_take; unfold f_size in *; lia. }
  destruct (sys_write_spec (drop (Z.to_nat ws) buf0) f) as (Hsw & Hcase); [lia..|].
  set (w := sys_write _ f) in *.
  destruct Hcase as [(Hr & Hdw & Hpw & Hl1 & Hl2 & He)|(Hr & Hfit & Hl & Hdw & Hpw & Hgw)].
  - rewrite Hr. simpl. destruct (Z.eqb_spec (sr_errno w) EINTR) as [E|E]; simpl.
    + destruct (Z.eqb_spec ws length); [lia|].
      apply IH; auto; try congruence; try lia; try (by transitivity f).
    + exists (-1), (sr_file w). split; [done|]. split; [by transitivity f|].
      exists ws. repeat split; auto; try congruence; try lia. right. split; [done|].
      destruct (He E) as [Hnb|Hle]; [left; intros Hb; apply Hnb; by apply Hs|right; lia].
  - destruct (Z.ltb_spec (sr_ret w) 0); [lia|]. destruct (Z.ltb_spec 0 (sr_ret w)); [|lia].
    simpl. rewrite orb_false_r. destruct (Z.eqb_spec (sr_ret w) 0); [lia|].
    assert (Hd' : f_data (sr_file w) = splice p0 (take (Z.to_nat (ws + sr_ret w)) buf0) (f_data f0)).
    { rewrite Hdw, Hd, Hp, <-take_drop_take by lia.
      pose proof (splice_app p0 (take (Z.to_nat ws) buf0)
        (take (Z.to_nat (sr_ret w)) (drop (Z.to_nat ws) buf0)) (f_data f0)) as Hsa.
      rewrite !zlen_take in Hsa by lia. apply Hsa; unfold f_size in *; lia. }
    assert (Hg' : forall g, granular g (f_sched f0) -> (g | length) -> p0 + length <= f_size f0 ->
              (g | ws + sr_ret w)).
    { intros g H1 H2 H3. apply Z.divide_add_r; [auto|]. apply Hgw.
      - by apply Hs.
      - rewrite Hzd. apply Z.divide_sub_r; auto.
      - rewrite Hp, Hsz, Hzd. lia. }
    destruct (Z.eqb_spec (ws + sr_ret w) length) as [E|E].
    + exists (ws + sr_ret w), (sr_file w). split; [done|]. split; [by transitivity f|].
      exists (ws + sr_ret w). repeat split; auto; try lia.
    + rewrite drop_drop, <-Z2Nat.inj_add by lia.
      apply IH; auto; try lia. by transitivity f.
Qed.

Lemma write_buffer_spec fd buf length f :
  0 <= fd -> 0 < length -> zlen buf = length -> 0 <= f_pos f <= f_size f ->
  exists r f',
    write_buffer fd buf length f = (r, f') /\ sched_le f f' /\
    write_outcome buf length (f_pos f) f r f'.
Proof.
  intros Hfd Hlen Hbuf Hpos. unfold write_buffer, _write_buffer.
  destruct (Z.ltb_spec fd 0); [lia|]. destruct (Z.eqb_spec length 0); [lia|]. simpl.
  destruct (write_loop_spec (io_fuel length f) length 0 buf f f (f_pos f))
    as (r & f' & Hrun & Hres); auto; try lia.
  - reflexivity.
  - change (take (Z.to_nat 0) buf) with (@nil byte). by rewrite splice_nil.
  - intros. apply Z.divide_0_r.
  - unfold io_fuel. rewrite Z.sub_0_r. lia.
  - simpl in Hrun. rewrite drop_0 in Hrun. rewrite Hrun. simpl. eauto.
Qed.

(** ** Block-wise reads *)

Definition read_outcome (off length : Z) (f : file) (res : Z * bytes * file) : Prop :=
  let '(r, buf, f') := res in
  sched_le f f' /\ f_data f' = f_data f /\
  ((r = length /\ buf = slice off length (f_data f)) \/
   (r = -1 /\ (~ benign (f_sched f) \/ f_size f < off + length))).

Lemma size_eq f f' : f_data f' = f_data f -> f_size f' = f_size f.
Proof. unfold f_size. by intros ->. Qed.

Lemma not_benign_le f f' : sched_le f f' -> ~ benign (f_sched f') -> ~ benign (f_sched f).
Proof. intros Hs Hn Hb. apply Hn. by apply Hs. Qed.

#[export] Hint Resolve not_benign_le : cs_io.

(** A failed transfer: the value is -1 and the cause is left to prove. *)
Ltac io_fail := simpl; split; [done|]; split; [done|]; right; split; [done|].

Lemma read_blockwise_spec fd bsize alignment length f :
  0 <= fd -> 0 < bsize -> alignment <> 0 -> 0 <= length -> 0 <= f_pos f ->
  read_outcome (f_pos f) length f (read_blockwise fd bsize alignment length f).
Proof.
  intros Hfd Hb Ha Hlen Hpos. unfold read_blockwise.
  destruct (Z.eqb_spec fd (-1)), (Z.eqb_spec bsize 0), (Z.eqb_spec alignment 0); try lia. simpl.
  pose proof (Z.mod_pos_bound length bsize Hb) as Hm.
  pose proof (Z.mod_le length bsize Hlen Hb) as Hml.
  set (h := length mod bsize) in *. set (solid := length - h).
  destruct (read_buffer_spec fd solid f) as (r1 & buf1 & f1 & -> & Hs1 & Hd1 & Hp1 & Hc1);
    [lia..|].
  destruct Hc1 as [[-> Hn1]|(Hr1 & Hbuf1 & Hz1)]; [io_fail; auto|].
  destruct (Z.ltb_spec r1 0), (Z.eqb_spec r1 solid) as [E1|E1]; try lia; simpl.
  2: { io_fail. right. lia. }
  destruct (Z.eqb_spec h 0) as [Eh|Eh].
  { split; [done|]. split; [done|]. left. split; [done|]. rewrite Hbuf1. f_equal. lia. }
  destruct (read_buffer_spec fd bsize f1) as (r2 & buf2 & f2 & -> & Hs2 & Hd2 & Hp2 & Hc2);
    [lia..|].
  assert (Hs12 : sched_le f f2) by (by transitivity f1).
  rewrite (size_eq f f1 Hd1), Hp1, Hd1 in Hc2. rewrite Hd1 in Hd2.
  destruct Hc2 as [[-> Hn2]|(Hr2 & Hbuf2 & Hz2)]; [io_fail; eauto with cs_io|].
  destruct (Z.ltb_spec r2 0), (Z.ltb_spec r2 h); try lia; simpl.
  - io_fail. right. lia.
  - split; [done|]. split; [done|]. left. split; [done|].
    replace length with (solid + h) by lia.
    rewrite slice_app_split by lia. rewrite Hbuf1, E1. f_equal.
    rewrite Hbuf2, Hz1, E1.
    change (take (Z.to_nat h) ?l) with (slice 0 h l). rewrite slice_slice by lia. f_equal. lia.
Qed.

Lemma sys_lseek_set_spec off f :
  0 <= off -> sys_lseek off SEEK_SET f = (off, File (f_data f) off (f_sched f)).
Proof. intros. unfold sys_lseek. destruct (Z.ltb_spec off 0); [lia|done]. Qed.

(** Reading [length] bytes at any offset, aligned or not, returns exactly
    that part of the device, however the kernel splits or interrupts the
    transfers; it fails only when a call fails or the device ends before. *)
Lemma read_lseek_blockwise_spec fd bsize alignment length offset f :
  0 <= fd -> 0 < bsize -> alignment <> 0 -> 0 <= length -> 0 <= offset ->
  read_outcome offset length f (read_lseek_blockwise fd bsize alignment length offset f).
Proof.
  intros Hfd Hb Ha Hlen Hoff. unfold read_lseek_blockwise.
  destruct (Z.eqb_spec fd (-1)), (Z.leb_spec bsize 0), (Z.ltb_spec offset 0); try lia. simpl.
  destruct (Z.ltb_spec offset 0); try lia.
  pose proof (Z.mod_pos_bound offset bsize Hb) as Hm.
  pose proof (Z.mod_le offset bsize Hoff Hb) as Hml.
  set (fh := offset mod bsize) in *.
  rewrite sys_lseek_set_spec by lia. cbn match. destruct (Z.ltb_spec (offset - fh) 0); [lia|].
  set (f0 := File (f_data f) (offset - fh) (f_sched f)).
  destruct (Z.eqb_spec fh 0) as [E|E]; simpl.
  { pose proof (read_blockwise_spec fd bsize alignment length f0) as Hrb.
    replace (f_pos f0) with offset in Hrb by (simpl; lia). by apply Hrb. }
  destruct (Z.eqb_spec length 0) as [El|El]; simpl.
  { pose proof (read_blockwise_spec fd bsize alignment length f0) as Hrb.
    unfold read_outcome in *. destruct (read_blockwise _ _ _ _ _) as [[r buf] f'].
    destruct Hrb as (Hs & Hd & Hc); simpl; try lia. split; [done|]. split; [done|].
    destruct Hc as [[-> ->]|[-> [Hn|Hn]]]; [left|right|right].
    - subst length. by rewrite !slice_0.
    - auto.
    - simpl in Hn. split; [done|]. right. unfold f_size in *. simpl in Hn. lia. }
  destruct (Z.eqb_spec alignment 0); [lia|].
  set (ic := Z.min (bsize - fh) length).
  destruct (read_buffer_spec fd bsize f0) as (r1 & buf1 & f1 & -> & Hs1 & Hd1 & Hp1 & Hc1);
    [simpl; lia..|]. simpl in Hp1, Hd1.
  destruct Hc1 as [[-> Hn1]|(Hr1 & Hbuf1 & Hz1)]; [io_fail; auto|].
  change (f_size f0) with (f_size f) in Hr1. cbn [f_pos f0] in Hr1, Hbuf1.
  destruct (Z.ltb_spec r1 0), (Z.ltb_spec r1 (fh + ic)); try lia; simpl.
  { io_fail. right. lia. }
  pose proof (read_blockwise_spec fd bsize alignment (length - ic) f1) as Hrb.
  unfold read_outcome in Hrb. destruct (read_blockwise _ _ _ _ _) as [[r2 buf2] f2].
  destruct Hrb as (Hs2 & Hd2 & Hc2); [lia..|]. rewrite (size_eq f f1 Hd1) in Hc2.
  rewrite Hd1 in *. assert (Hs12 : sched_le f f2) by (by transitivity f1).
  destruct Hc2 as [[-> ->]|[-> Hn2]].
  - destruct (Z.leb_spec 0 (length - ic)); [|lia]. split; [done|]. split; [done|]. left.
    split; [lia|]. transitivity (slice offset (ic + (length - ic)) (f_data f)); [|f_equal; lia].
    rewrite slice_app_split by lia. rewrite Hbuf1, slice_slice by lia. rewrite Hp1, Hz1.
    f_equal; [f_equal; lia|].
    destruct (decide (length - ic = 0)) as [->|]; [by rewrite !slice_0|].
    f_equal. lia.
  - io_fail.
    destruct Hn2 as [Hn2|Hn2]; [left; eauto with cs_io|right].
    destruct (decide (length = ic)); lia.
Qed.

(** What is returned is as long as the result says. *)
Lemma read_blockwise_length fd bsize alignment length f r buf f' :
  0 <= fd -> 0 < bsize -> 0 <= length -> 0 <= f_pos f ->
  read_blockwise fd bsize alignment length f = (r, buf, f') -> 0 <= r -> r = length /\ zlen buf = length.
Proof.
  intros Hfd Hb Hlen Hpos E Hr. unfold read_blockwise in E. destruct (_ || _); [injection E as <- <- <-; lia|].
  pose proof (Z.mod_pos_bound length bsize Hb) as Hm. pose proof (Z.mod_le length bsize Hlen Hb) as Hml.
  set (h := length mod bsize) in *.
  destruct (read_buffer_spec fd (length - h) f) as (r1 & buf1 & f1 & E1 & _ & _ & Hp1 & Hc1); [lia..|]. rewrite E1 in E.
  destruct (Z.ltb_spec r1 0), (Z.eqb_spec r1 (length - h)); try (injection E as <- <- <-; lia). cbn [negb orb] in E.
  destruct Hc1 as [[? _]|(_ & _ & Hz1)]; [lia|].
  destruct (Z.eqb_spec h 0); [injection E as <- <- <-; lia|].
  destruct (read_buffer_spec fd bsize f1) as (r2 & buf2 & f2 & E2 & _ & _ & _ & Hc2); [lia..|]. rewrite E2 in E.
  destruct (Z.ltb_spec r2 0), (Z.ltb_spec r2 h); try (injection E as <- <- <-; lia). cbn [orb] in E.
  destruct Hc2 as [[? _]|(_ & _ & Hz2)]; [lia|]. injection E as <- <- <-. rewrite zlen_app, zlen_take by lia. lia.
Qed.

Lemma read_lseek_blockwise_length fd bsize alignment length offset f r buf f' :
  0 <= fd -> 0 < bsize -> 0 <= length -> 0 <= offset ->
  read_lseek_blockwise fd bsize alignment length offset f = (r, buf, f') -> 0 <= r -> r = length /\ zlen buf = length.
Proof.
  intros Hfd Hb Hlen Hoff E Hr. unfold read_lseek_blockwise in E.
  destruct (_ || _); [injection E as <- <- <-; lia|]. destruct (Z.ltb_spec offset 0); [lia|]. cbv iota zeta in E.
  rewrite (proj2 (Z.ltb_ge offset 0)) in E by lia. pose proof (Z.mod_pos_bound offset bsize Hb).
  pose proof (Z.mod_le offset bsize Hoff Hb). set (fh := offset mod bsize) in *. rewrite sys_lseek_set_spec in E by lia.
  destruct (_ <? 0); [injection E as <- <- <-; lia|].
  destruct (negb (fh =? 0) && negb (length =? 0)); [|eapply read_blockwise_length; [..|exact E|]; cbn; lia].
  destruct (alignment =? 0); [injection E as <- <- <-; lia|]. set (ic := Z.min (bsize - fh) length) in *.
  destruct (read_buffer_spec fd bsize (File (f_data f) (offset - fh) (f_sched f))) as (r1 & buf1 & f1 & E1 & _ & _ & Hp1 & Hc1);
    [lia|lia|cbn; lia|]. rewrite E1 in E. cbn [f_pos] in Hp1. pose proof (zlen_nonneg buf1).
  destruct (Z.ltb_spec r1 0), (Z.ltb_spec r1 (fh + ic)); try (injection E as <- <- <-; lia). cbn [orb] in E.
  destruct Hc1 as [[? _]|(_ & _ & Hz1)]; [lia|].
  destruct (read_blockwise fd bsize alignment (length - ic) f1) as [[r2 buf2] f2] eqn:E2.
  destruct (Z.leb_spec 0 r2); [|injection E as <- <- <-; lia].
  apply read_blockwise_length in E2 as [-> Hz2]; [|lia..]. injection E as <- <- <-. rewrite zlen_app, Hz2, zlen_slice by lia. lia.
Qed.

(** ** Block-wise writes *)

(** Writing back the first [k] bytes of a block that was read and overlaid
    with new bytes changes the device only where the new bytes go. *)
Lemma splice_overlay {A} (q b o k : Z) (t d : list A) :
  0 <= q -> 0 <= o -> o + zlen t <= b -> q + b <= zlen d -> 0 <= k <= b ->
  splice q (take (Z.to_nat k) (splice o t (slice q b d))) d =
  splice (q + o) (take (Z.to_nat (k - o)) t) d.
Proof.
  intros Hq Ho Hob Hqb Hk. pose proof (zlen_nonneg t) as Ht.
  assert (Hz1 : zlen (slice q b d) = b) by (apply zlen_slice; lia).
  assert (Hz2 : zlen (splice o t (slice q b d)) = b) by (rewrite zlen_splice; lia).
  assert (Hz3 : zlen (take (Z.to_nat k) (splice o t (slice q b d))) = k)
    by (apply zlen_take; lia).
  assert (Hz4 : zlen (take (Z.to_nat (k - o)) t) = Z.min (zlen t) (Z.max 0 (k - o))).
  { unfold zlen. rewrite length_take. lia. }
  apply list_eq_zlen; [rewrite !zlen_splice; lia|]. intros i _.
  rewrite (lookup_splice q), (lookup_splice (q + o)) by lia.
  unfold zlen in Hz3, Hz4, Ht.
  destruct (decide (Z.to_nat q <= i < Z.to_nat q + length (take (Z.to_nat k) (splice o t (slice q b d))))%nat) as [D1|D1].
  - rewrite lookup_take_lt by lia. rewrite lookup_splice by lia. unfold zlen in *.
    destruct (decide (Z.to_nat o <= i - Z.to_nat q < Z.to_nat o + length t)%nat) as [D2|D2].
    + rewrite decide_True by lia. rewrite lookup_take_lt by lia. f_equal. lia.
    + rewrite decide_False by lia. rewrite lookup_slice by lia. f_equal. lia.
  - rewrite decide_False; [done|]. unfold zlen in *. lia.
Qed.

(** The outcome of writing [buf] at [off]: a prefix of it reached the device
    and nothing else changed; all of it when the call reports success. *)
Definition blockwise_outcome (buf : bytes) (off length : Z) (f : file) (res : Z * file) : Prop :=
  let '(r, f') := res in
  sched_le f f' /\
  exists k, 0 <= k <= length /\
    f_data f' = splice off (take (Z.to_nat k) buf) (f_data f) /\
    ((r = length /\ k = length) \/ (r = -1 /\ ~ benign (f_sched f))).

Lemma divide_lt_full b p size : 0 < b -> (b | p) -> (b | size) -> p < size -> p + b <= size.
Proof.
  intros Hb [x ->] [y ->] Hlt. assert (x < y) by (apply (Z.mul_lt_mono_pos_r b); lia). nia.
Qed.

Lemma write_solid_spec fd buf solid f :
  0 <= fd -> 0 <= solid <= zlen buf -> 0 <= f_pos f -> f_pos f + solid <= f_size f ->
  exists r1 f1,
    (if solid =? 0 then (solid, f) else write_buffer fd (take (Z.to_nat solid) buf) solid f)
      = (r1, f1) /\
    sched_le f f1 /\ exists k, 0 <= k <= solid /\
      f_data f1 = splice (f_pos f) (take (Z.to_nat k) buf) (f_data f) /\ f_pos f1 = f_pos f + k /\
      ((r1 = solid /\ k = solid) \/ (r1 = -1 /\ ~ benign (f_sched f))).
Proof.
  intros Hfd Hs Hpos Hin. destruct (Z.eqb_spec solid 0) as [E|E].
  - exists solid, f. split; [done|]. split; [done|]. exists 0.
    change (take (Z.to_nat 0) buf) with (@nil byte). rewrite splice_nil. repeat split; lia.
  - destruct (write_buffer_spec fd (take (Z.to_nat solid) buf) solid f)
      as (r1 & f1 & -> & Hs1 & k & Hk & Hfit & Hd & Hp & _ & Hc); try lia.
    { apply zlen_take. lia. }
    exists r1, f1. split; [done|]. split; [done|]. exists k.
    rewrite Hd, take_take, Nat.min_l by lia. repeat split; try lia; try done.
    destruct Hc as [?|[? [?|?]]]; auto; lia.
Qed.

Lemma write_hangover_spec fd bsize tl h length f :
  0 <= fd -> 0 < h < bsize -> h <= zlen tl -> 0 <= f_pos f -> f_pos f + bsize <= f_size f ->
  0 < length ->
  let '(r, f') := write_hangover fd bsize tl h length f in
  sched_le f f' /\ exists k, 0 <= k <= h /\
    f_data f' = splice (f_pos f) (take (Z.to_nat k) tl) (f_data f) /\
    ((r = length /\ k = h) \/ (r = -1 /\ ~ benign (f_sched f))).
Proof.
  intros Hfd Hh Htl Hpos Hin Hlen. unfold write_hangover.
  destruct (read_buffer_spec fd bsize f) as (r2 & got & f2 & -> & Hs2 & Hd2 & Hp2 & Hc2); [lia..|].
  destruct Hc2 as [[-> Hn2]|(Hr2 & Hgot & Hz2)].
  { simpl. split; [done|]. exists 0. change (take (Z.to_nat 0) tl) with (@nil byte).
    rewrite splice_nil. repeat split; auto; lia. }
  assert (r2 = bsize) as -> by lia. destruct (Z.ltb_spec bsize 0); [lia|].
  unfold sys_lseek. cbn [f_pos]. rewrite Hp2, Hz2.
  replace (f_pos f + bsize + - bsize) with (f_pos f) by lia.
  destruct (Z.ltb_spec (f_pos f) 0); [lia|]. cbn match. destruct (Z.ltb_spec (f_pos f) 0); [lia|].
  set (hb := splice 0 (take (Z.to_nat h) tl) (splice 0 got (zeros (Z.to_nat bsize)))).
  assert (Hzh : zlen (take (Z.to_nat h) tl) = h) by (apply zlen_take; lia).
  assert (Hgl : zlen (slice (f_pos f) bsize (f_data f)) = bsize)
    by (apply zlen_slice; unfold f_size in *; lia).
  assert (Hhb : hb = splice 0 (take (Z.to_nat h) tl) (slice (f_pos f) bsize (f_data f))).
  { unfold hb. rewrite Hgot. f_equal. unfold splice. rewrite take_0, drop_ge; [by rewrite app_nil_r|].
    unfold zeros. rewrite length_replicate. unfold zlen in Hgl. lia. }
  set (f3 := File (f_data f2) (f_pos f) (f_sched f2)).
  assert (Hsz3 : f_size f3 = f_size f) by (unfold f_size; simpl; by rewrite Hd2).
  destruct (write_buffer_spec fd hb bsize f3)
    as (r4 & f4 & -> & Hs4 & k4 & Hk4 & Hfit4 & Hd4 & Hp4 & _ & Hc4); try lia.
  { rewrite Hhb, zlen_splice; rewrite ?Hzh, ?Hgl; lia. }
  { rewrite Hsz3. simpl. lia. }
  rewrite Hsz3 in Hc4. cbn [f_data f_pos f_sched f3] in *.
  assert (Hs24 : sched_le f f4) by (transitivity f2; [done|]; exact Hs4).
  assert (Hfin : f_data f4 = splice (f_pos f) (take (Z.to_nat (Z.min k4 h)) tl) (f_data f)).
  { rewrite Hd4, Hhb, Hd2. rewrite splice_overlay by (rewrite ?Hzh; unfold f_size in *; lia).
    rewrite Z.add_0_r, Z.sub_0_r, take_take. f_equal. f_equal. lia. }
  destruct Hc4 as [[-> ->]|[-> [Hn|Hn]]]; [| |lia].
  - destruct (Z.ltb_spec bsize 0), (Z.ltb_spec bsize h); try lia. simpl.
    split; [done|]. exists h. rewrite Z.min_r in Hfin by lia. repeat split; auto; lia.
  - simpl. split; [done|]. exists (Z.min k4 h). repeat split; auto; try lia. right.
    eauto with cs_io.
Qed.

Lemma write_blockwise_spec fd bsize alignment buf length f :
  0 <= fd -> 0 < bsize -> alignment <> 0 -> 0 < length -> zlen buf = length ->
  (bsize | f_pos f) -> (bsize | f_size f) -> 0 <= f_pos f -> f_pos f + length <= f_size f ->
  blockwise_outcome buf (f_pos f) length f (write_blockwise fd bsize alignment buf length f).
Proof.
  intros Hfd Hb Ha Hlen Hbuf Hdp Hds Hpos Hin. unfold write_blockwise.
  destruct (Z.eqb_spec fd (-1)), (Z.eqb_spec bsize 0), (Z.eqb_spec alignment 0); try lia. simpl.
  pose proof (Z.mod_pos_bound length bsize Hb) as Hm.
  pose proof (Z.div_mod length bsize ltac:(lia)) as Hdm.
  pose proof (Z.mod_le length bsize ltac:(lia) Hb) as Hml.
  set (h := length mod bsize) in *. set (solid := length - h).
  destruct (write_solid_spec fd buf solid f) as (r1 & f1 & -> & Hs1 & k & Hk & Hd1 & Hp1 & Hc1); [lia..|].
  destruct Hc1 as [[-> ->]|[-> Hn1]].
  2: { simpl. split; [done|]. exists k. repeat split; auto; lia. }
  destruct (Z.ltb_spec solid 0); [lia|]. rewrite Z.eqb_refl. simpl.
  destruct (Z.eqb_spec h 0) as [Eh|Eh].
  { split; [done|]. exists length. repeat split; auto; try lia. rewrite Hd1. repeat f_equal. lia. }
  assert (Hsz1 : f_size f1 = f_size f).
  { unfold f_size. rewrite Hd1, zlen_splice; auto. rewrite zlen_take; unfold f_size in *; lia. }
  assert (Hq : f_pos f1 + bsize <= f_size f).
  { apply divide_lt_full; auto; try lia. rewrite Hp1. apply Z.divide_add_r; auto.
    exists (length / bsize). subst solid. lia. }
  assert (Hzt : zlen (drop (Z.to_nat solid) buf) = h) by (unfold zlen in *; rewrite length_drop; lia).
  pose proof (write_hangover_spec fd bsize (drop (Z.to_nat solid) buf) h length f1) as Hh.
  destruct (write_hangover _ _ _ _ _ _) as [r f']. destruct Hh as (Hs2 & k2 & Hk2 & Hd2 & Hc2); try lia.
  split; [by transitivity f1|]. exists (solid + k2).
  repeat split; try lia.
  - rewrite Hd2, Hd1, Hp1. pose proof (splice_app (f_pos f) (take (Z.to_nat solid) buf)
      (take (Z.to_nat k2) (drop (Z.to_nat solid) buf)) (f_data f)) as Hsa.
    rewrite take_drop_take in Hsa by lia. rewrite !zlen_take in Hsa by lia.
    apply Hsa; unfold f_size in *; lia.
  - destruct Hc2 as [[-> ->]|[-> Hn]]; [left; lia|right; eauto with cs_io].
Qed.

Lemma write_front_spec fd bsize fh ic start buf f :
  0 <= fd -> 0 <= start -> f_pos f = start -> 0 < fh -> 0 < ic -> fh + ic <= bsize ->
  ic <= zlen buf -> start + bsize <= f_size f ->
  let '(ok, f') := write_front fd bsize fh ic start buf f in
  sched_le f f' /\ exists k, 0 <= k <= ic /\
    f_data f' = splice (start + fh) (take (Z.to_nat k) buf) (f_data f) /\
    ((ok = true /\ k = ic /\ f_pos f' = start + bsize) \/ (ok = false /\ ~ benign (f_sched f))).
Proof.
  intros Hfd Hst Hpos Hfh Hic Hfi Hbuf Hin. unfold write_front.
  destruct (read_buffer_spec fd bsize f) as (r2 & got & f2 & -> & Hs2 & Hd2 & Hp2 & Hc2); [lia..|].
  destruct Hc2 as [[-> Hn2]|(Hr2 & Hgot & Hz2)].
  { simpl. split; [done|]. exists 0. change (take (Z.to_nat 0) buf) with (@nil byte).
    rewrite splice_nil. repeat split; auto; lia. }
  assert (r2 = bsize) as -> by lia.
  destruct (Z.ltb_spec bsize 0), (Z.ltb_spec bsize (fh + ic)); try lia. cbn [orb].
  rewrite sys_lseek_set_spec by lia. cbn match. destruct (Z.ltb_spec start 0); [lia|].
  rewrite Z.sub_diag. change (zeros (Z.to_nat 0)) with (@nil byte). rewrite app_nil_r.
  assert (Hzh : zlen (take (Z.to_nat ic) buf) = ic) by (apply zlen_take; lia).
  rewrite Hgot, Hpos in *.
  assert (Hgl : zlen (slice start bsize (f_data f)) = bsize)
    by (apply zlen_slice; unfold f_size in *; lia).
  set (pad := splice fh (take (Z.to_nat ic) buf) (slice start bsize (f_data f))).
  set (f3 := File (f_data f2) start (f_sched f2)).
  assert (Hsz3 : f_size f3 = f_size f) by (unfold f_size; simpl; by rewrite Hd2).
  destruct (write_buffer_spec fd pad bsize f3)
    as (r4 & f4 & -> & Hs4 & k4 & Hk4 & Hfit4 & Hd4 & Hp4 & _ & Hc4); try lia.
  { unfold pad. rewrite zlen_splice; rewrite ?Hzh, ?Hgl; lia. }
  { rewrite Hsz3. simpl. lia. }
  rewrite Hsz3 in Hc4. cbn [f_data f_pos f_sched f3] in *.
  assert (Hs24 : sched_le f f4) by (transitivity f2; [done|]; exact Hs4).
  assert (Hfin : f_data f4 =
    splice (start + fh) (take (Z.to_nat (Z.min (Z.max 0 (k4 - fh)) ic)) buf) (f_data f)).
  { rewrite Hd4, Hd2. unfold pad. rewrite splice_overlay by (rewrite ?Hzh; unfold f_size in *; lia).
    rewrite take_take. do 2 f_equal. lia. }
  destruct Hc4 as [[-> ->]|[-> [Hn|Hn]]]; [| |lia].
  - rewrite Z.eqb_refl. destruct (Z.ltb_spec bsize 0); [lia|]. cbn [negb orb].
    split; [done|]. exists ic. rewrite Z.min_r in Hfin by lia. repeat split; auto; try lia.
  - simpl. split; [done|]. eexists. split; [|split; [exact Hfin|]]; [lia|]. right.
    eauto with cs_io.
Qed.

(** Writing at any offset, aligned or not, puts exactly the buffer there and
    leaves every other byte of the device alone; when a call fails, a prefix
    of the buffer was written. *)
Lemma write_lseek_blockwise_spec fd bsize alignment buf length offset f :
  0 <= fd -> 0 < bsize -> alignment <> 0 -> 0 <= length -> zlen buf = length ->
  (bsize | f_size f) -> 0 <= offset -> offset + length <= f_size f ->
  blockwise_outcome buf offset length f
    (write_lseek_blockwise fd bsize alignment buf length offset f).
Proof.
  intros Hfd Hb Ha Hlen Hbuf Hds Hoff Hin. unfold write_lseek_blockwise.
  destruct (Z.eqb_spec fd (-1)), (Z.eqb_spec bsize 0), (Z.eqb_spec alignment 0),
    (Z.ltb_spec offset 0); try lia. simpl. destruct (Z.ltb_spec offset 0); try lia.
  pose proof (Z.mod_pos_bound offset bsize Hb) as Hm.
  pose proof (Z.div_mod offset bsize ltac:(lia)) as Hdm.
  pose proof (Z.mod_le offset bsize Hoff Hb) as Hml. set (fh := offset mod bsize) in *.
  rewrite sys_lseek_set_spec by lia. cbn match. destruct (Z.ltb_spec (offset - fh) 0); [lia|].
  set (f0 := File (f_data f) (offset - fh) (f_sched f)).
  assert (Hdiv : (bsize | offset - fh)) by (exists (offset / bsize); lia).
  destruct (Z.eqb_spec length 0) as [El|El].
  { rewrite andb_false_r. cbn [negb]. split; [apply sched_le_same|]. exists 0.
    change (take (Z.to_nat 0) buf) with (@nil byte). rewrite splice_nil. repeat split; lia. }
  destruct (Z.eqb_spec fh 0) as [E|E]; cbn [negb andb].
  { pose proof (write_blockwise_spec fd bsize alignment buf length f0) as Hw.
    replace (f_pos f0) with offset in Hw by (simpl; lia). apply Hw; auto; try lia.
    exists (offset / bsize). lia. }
  assert (Hblk : offset - fh + bsize <= f_size f) by (apply divide_lt_full; auto; lia).
  pose proof (write_front_spec fd bsize fh (Z.min (bsize - fh) length) (offset - fh) buf f0) as Hf.
  set (ic := Z.min (bsize - fh) length) in *.
  destruct (write_front _ _ _ _ _ _ _) as [ok f1].
  destruct Hf as (Hs1 & k & Hk & Hd1 & Hc1); auto; try lia. cbn [f_data f_pos f_sched f0] in *.
  replace (offset - fh + fh) with offset in Hd1 by lia.
  destruct Hc1 as [(-> & -> & Hp1)|[-> Hn]]; cbn [negb].
  2: { split; [done|]. exists k. repeat split; auto; lia. }
  destruct (Z.eqb_spec (length - ic) 0) as [El2|El2].
  { destruct (Z.leb_spec 0 0); [|lia]. split; [done|]. exists length.
    repeat split; auto; try lia. rewrite Hd1. repeat f_equal. lia. }
  assert (Hsz1 : f_size f1 = f_size f).
  { unfold f_size. rewrite Hd1, zlen_splice; auto. rewrite zlen_take; unfold f_size in *; lia. }
  assert (Hzt : zlen (drop (Z.to_nat ic) buf) = length - ic) by (unfold zlen in *; rewrite length_drop; lia).
  pose proof (write_blockwise_spec fd bsize alignment (drop (Z.to_nat ic) buf) (length - ic) f1) as Hw.
  unfold blockwise_outcome in Hw. destruct (write_blockwise _ _ _ _ _ _) as [ret f2].
  destruct Hw as (Hs2 & k2 & Hk2 & Hd2 & Hc2); auto; try lia.
  { rewrite Hp1. apply Z.divide_add_r; [done|apply Z.divide_refl]. }
  { by rewrite Hsz1. }
  assert (Hs12 : sched_le f f2) by (transitivity f1; [exact Hs1|done]).
  assert (Hfin : f_data f2 = splice offset (take (Z.to_nat (ic + k2)) buf) (f_data f)).
  { rewrite Hd2, Hd1, Hp1. pose proof (splice_app offset (take (Z.to_nat ic) buf)
      (take (Z.to_nat k2) (drop (Z.to_nat ic) buf)) (f_data f)) as Hsa.
    rewrite take_drop_take in Hsa by lia. rewrite !zlen_take in Hsa by lia.
    replace (offset - fh + bsize) with (offset + ic) by lia. apply Hsa; unfold f_size in *; lia. }
  destruct Hc2 as [[-> ->]|[-> Hn]].
  - destruct (Z.leb_spec 0 (length - ic)); [|lia]. split; [done|]. exists length.
    repeat split; auto; try lia. rewrite Hfin. repeat f_equal. lia.
  - simpl. split; [done|]. exists (ic + k2). repeat split; auto; try lia. right. split; [done|].
    intros Hbn. apply Hn. by apply Hs1.
Qed.

(** When everything is block-aligned and the device transfers whole units of
    [g] bytes, the written prefix ends at the boundary of a unit. *)
Lemma write_lseek_blockwise_aligned fd bsize alignment buf length offset f g :
  0 <= fd -> 0 < bsize -> alignment <> 0 -> 0 < length -> zlen buf = length ->
  (bsize | f_size f) -> 0 <= offset -> offset + length <= f_size f ->
  (bsize | offset) -> (bsize | length) -> (g | length) -> granular g (f_sched f) ->
  let '(r, f') := write_lseek_blockwise fd bsize alignment buf length offset f in
  sched_le f f' /\
  exists k, 0 <= k <= length /\ (g | k) /\
    f_data f' = splice offset (take (Z.to_nat k) buf) (f_data f) /\
    ((r = length /\ k = length) \/ (r = -1 /\ ~ benign (f_sched f))).
Proof.
  intros Hfd Hb Ha Hlen Hbuf Hds Hoff Hin Hdo Hdl Hg Hgr. unfold write_lseek_blockwise.
  destruct (Z.eqb_spec fd (-1)), (Z.eqb_spec bsize 0) as [|E0], (Z.eqb_spec alignment 0),
    (Z.ltb_spec offset 0); try lia. simpl. destruct (Z.ltb_spec offset 0); try lia.
  rewrite (proj2 (Z.mod_divide offset bsize E0) Hdo), Z.sub_0_r, sys_lseek_set_spec by lia.
  cbn match. destruct (Z.ltb_spec offset 0); [lia|]. rewrite Z.eqb_refl. cbn [negb andb].
  destruct (Z.eqb_spec length 0); [lia|]. unfold write_blockwise.
  destruct (Z.eqb_spec fd (-1)), (Z.eqb_spec bsize 0), (Z.eqb_spec alignment 0); try lia. cbn [orb].
  rewrite (proj2 (Z.mod_divide length bsize E0) Hdl), Z.sub_0_r.
  destruct (Z.eqb_spec length 0); [lia|]. rewrite take_ge by (unfold zlen in *; lia).
  set (f0 := File (f_data f) offset (f_sched f)).
  destruct (write_buffer_spec fd buf length f0)
    as (r & f1 & -> & Hs1 & k & Hk & Hfit & Hd & Hp & Hgk & Hc); try lia.
  { unfold f_size in *; simpl; lia. }
  cbn [f_data f_pos f_sched f0] in *. change (f_size f0) with (f_size f) in *.
  assert (Hgk' : (g | k)) by (apply Hgk; auto; cbn; lia).
  destruct Hc as [[-> ->]|[-> [Hn|Hn]]]; [| |lia].
  - destruct (Z.ltb_spec length 0); [lia|]. rewrite !Z.eqb_refl. cbn [orb negb].
    split; [done|]. exists length. repeat split; auto; lia.
  - simpl. split; [done|]. exists k. repeat split; auto; lia.
Qed.

(** ** Transfers confined to a range

    What calls that write to [off, off + len) only may change: neither the size
    of the device nor a byte outside the range. *)

Record confined (off len : Z) (f f' : file) : Prop := {
  cf_size : f_size f' = f_size f;
  cf_sched : sched_le f f';
  cf_slice : forall o n, 0 <= o -> 0 <= n -> o + n <= off \/ off + len <= o ->
    slice o n (f_data f') = slice o n (f_data f);
}.

Lemma confined_same off len f f' : f_data f' = f_data f -> sched_le f f' -> confined off len f f'.
Proof. intros Hd Hs. split; [by apply size_eq|done|]. intros. by rewrite Hd. Qed.

Lemma confined_refl off len f : confined off len f f.
Proof. by apply confined_same. Qed.

Lemma confined_trans off len f g h : confined off len f g -> confined off len g h -> confined off len f h.
Proof.
  intros [S1 L1 C1] [S2 L2 C2]. split; [congruence|by transitivity g|]. intros. by rewrite C2, C1.
Qed.

Lemma confined_weaken off len off' len' f g :
  off <= off' -> off' + len' <= off + len -> confined off' len' f g -> confined off len f g.
Proof. intros Ho Hl [S L C]. split; [done|done|]. intros. apply C; lia. Qed.

Lemma confined_splice off w f f' :
  0 <= off -> off + zlen w <= f_size f -> f_data f' = splice off w (f_data f) -> sched_le f f' ->
  confined off (zlen w) f f'.
Proof.
  intros Ho Hin Hd Hs. unfold f_size in *. split; [unfold f_size; by rewrite Hd, zlen_splice|done|].
  intros o n Hoo Hn Hdis. rewrite Hd. by apply slice_splice_disj.
Qed.

(** The outcome of a block-wise write: confined, and on success the range
    holds the buffer. *)
Lemma blockwise_confined buf off length f r f' :
  zlen buf = length -> 0 <= off -> off + length <= f_size f -> blockwise_outcome buf off length f (r, f') ->
  confined off length f f' /\
  ((r = length /\ slice off length (f_data f') = buf) \/ (r = -1 /\ ~ benign (f_sched f))).
Proof.
  intros Hb Ho Hin (Hs & k & Hk & Hd & Hc).
  assert (Hz : zlen (take (Z.to_nat k) buf) = k) by (apply zlen_take; lia). split.
  - apply (confined_weaken _ _ off (zlen (take (Z.to_nat k) buf))); [lia|lia|].
    apply confined_splice; [lia|lia|done|done].
  - destruct Hc as [[-> ->]|?]; [|by right]. left. split; [done|]. rewrite Hd.
    rewrite take_ge by (unfold zlen in *; lia). rewrite <-Hb. apply slice_splice_same; unfold f_size in *; lia.
Qed.

(** ** Properties *)

(** C33: However the kernel splits, interrupts or fails the transfers,
    [write_lseek_blockwise] leaves every byte outside the requested range as it
    was and a prefix of the buffer inside it; it reports [length] only when the
    whole buffer is on the device, and -1 only when a transfer failed. *)
Theorem write_lseek_blockwise_safe fd bsize alignment buf offset f :
  0 <= fd -> 0 < bsize -> alignment <> 0 -> (bsize | f_size f) ->
  0 <= offset -> offset + zlen buf <= f_size f ->
  let '(r, f') := write_lseek_blockwise fd bsize alignment buf (zlen buf) offset f in
  f_size f' = f_size f /\
  (forall o n, 0 <= o -> 0 <= n -> o + n <= offset \/ offset + zlen buf <= o ->
     slice o n (f_data f') = slice o n (f_data f)) /\
  (exists k, 0 <= k <= zlen buf /\ slice offset k (f_data f') = take (Z.to_nat k) buf /\
     slice (offset + k) (zlen buf - k) (f_data f') = slice (offset + k) (zlen buf - k) (f_data f)) /\
  ((r = zlen buf /\ slice offset (zlen buf) (f_data f') = buf) \/ (r = -1 /\ ~ benign (f_sched f))).
Proof.
  intros Hfd Hb Ha Hds Hoff Hin. pose proof (zlen_nonneg buf) as H0.
  pose proof (write_lseek_blockwise_spec fd bsize alignment buf (zlen buf) offset f) as Hw.
  destruct (write_lseek_blockwise _ _ _ _ _ _ _) as [r f'].
  destruct Hw as (_ & k & Hk & Hd & Hr); auto. unfold f_size in *.
  assert (Hzt : zlen (take (Z.to_nat k) buf) = k) by (apply zlen_take; lia).
  rewrite Hd, zlen_splice by lia. split; [done|]. split; [|split].
  - intros o n Ho Hn Hdis. apply slice_splice_disj; lia.
  - exists k. split; [done|]. split.
    + rewrite <-Hzt at 1. apply slice_splice_same; lia.
    + apply slice_splice_disj; lia.
  - destruct Hr as [[-> ->]|Hr]; [left|by right]. split; [done|].
    rewrite take_ge by (unfold zlen; lia). apply slice_splice_same; lia.
Qed.

(** Without hard errors, [write_lseek_blockwise] of a buffer that fits at
    any offset returns its length, [read_lseek_blockwise] then returns the
    buffer, and reading any disjoint range returns what was there before. *)
Theorem blockwise_write_then_read fd bsize alignment buf offset f :
  0 <= fd -> 0 < bsize -> alignment <> 0 -> (bsize | f_size f) ->
  0 <= offset -> offset + zlen buf <= f_size f -> benign (f_sched f) ->
  let '(r, f1) := write_lseek_blockwise fd bsize alignment buf (zlen buf) offset f in
  r = zlen buf /\
  (read_lseek_blockwise fd bsize alignment (zlen buf) offset f1).1 = (zlen buf, buf) /\
  forall o n, 0 <= o -> 0 <= n -> o + n <= f_size f -> o + n <= offset \/ offset + zlen buf <= o ->
    (read_lseek_blockwise fd bsize alignment n o f1).1 = (n, slice o n (f_data f)).
Proof.
  intros Hfd Hb Ha Hds Hoff Hin Hbn. pose proof (zlen_nonneg buf) as H0.
  pose proof (write_lseek_blockwise_spec fd bsize alignment buf (zlen buf) offset f) as Hw.
  destruct (write_lseek_blockwise _ _ _ _ _ _ _) as [r f1].
  destruct Hw as (Hs & k & Hk & Hd & Hr); auto. destruct Hr as [[-> ->]|[_ Hn]]; [|done].
  rewrite take_ge in Hd by (unfold zlen; lia). split; [done|].
  assert (Hsz : f_size f1 = f_size f) by (unfold f_size in *; rewrite Hd; apply zlen_splice; lia).
  assert (Hread : forall o n, 0 <= o -> 0 <= n -> o + n <= f_size f ->
    (read_lseek_blockwise fd bsize alignment n o f1).1 = (n, slice o n (f_data f1))).
  { intros o n Ho Hn Hon. pose proof (read_lseek_blockwise_spec fd bsize alignment n o f1) as Hrd.
    destruct (read_lseek_blockwise _ _ _ _ _ _) as [[r' b] f2].
    destruct Hrd as (_ & _ & [[-> ->]|[_ [Hnb|Hlt]]]); auto; [|lia]. destruct Hnb. by apply Hs. }
  split.
  - rewrite Hread by lia. f_equal. rewrite Hd. apply slice_splice_same; unfold f_size in *; lia.
  - intros o n Ho Hn Hon Hdis. rewrite Hread by lia. f_equal. rewrite Hd.
    apply slice_splice_disj; unfold f_size in *; lia.
Qed.

(** ** Witnesses *)

(** Sixteen bytes on a device with blocks of four, written one byte off the
    blocks, with short and interrupted transfers, and with a failing one. *)
Definition fx_file (sched : list xfer) : file := File (zeros 16) 0 sched.

Lemma write_lseek_blockwise_safe_witness :
  let '(r, f') := write_lseek_blockwise 3 4 1 (replicate 6 Byte.x01) 6 5 (fx_file [Xfer 4; Xerr EIO]) in
  f_size f' = 16 /\ r = -1.
Proof.
  pose proof (write_lseek_blockwise_safe 3 4 1 (replicate 6 Byte.x01) 5 (fx_file [Xfer 4; Xerr EIO])
    ltac:(lia) ltac:(lia) ltac:(lia) ltac:(by exists 4) ltac:(lia) ltac:(vm_compute; congruence)) as H.
  change (zlen (replicate 6 Byte.x01)) with 6 in H.
  destruct (write_lseek_blockwise 3 4 1 (replicate 6 Byte.x01) 6 5 (fx_file [Xfer 4; Xerr EIO])) as [r f'] eqn:E.
  split; [exact (proj1 H)|]. vm_compute in E. congruence.
Defined.

Lemma blockwise_write_then_read_witness :
  let '(r, f1) := write_lseek_blockwise 3 4 1 (replicate 6 Byte.x01) 6 5 (fx_file [Xfer 1; Xerr EINTR]) in
  r = 6 /\ (read_lseek_blockwise 3 4 1 6 5 f1).1 = (6, replicate 6 Byte.x01).
Proof.
  pose proof (blockwise_write_then_read 3 4 1 (replicate 6 Byte.x01) 5 (fx_file [Xfer 1; Xerr EINTR])
    ltac:(lia) ltac:(lia) ltac:(lia) ltac:(by exists 4) ltac:(lia) ltac:(vm_compute; congruence)
    ltac:(repeat constructor)) as H.
  change (zlen (replicate 6 Byte.x01)) with 6 in H.
  destruct (write_lseek_blockwise 3 4 1 (replicate 6 Byte.x01) 6 5 (fx_file [Xfer 1; Xerr EINTR])) as [r f1].
  destruct H as (H1 & H2 & _). exact (conj H1 H2).
Defined.
