(* ===== verification/Keyfile.v ===== *)
(** * Keyfile: reading key files (lib/utils.c)

    [crypt_keyfile_device_read] on an input with an explicit schedule of
    transfers: a regular file, a device, or a pipe, which cannot be seeked. *)

From S2P Require Import Prelude UtilsIO.
From Stdlib Require Import Strings.Byte.

Definition EPIPE : Z := 32.
Definition DEFAULT_KEYFILE_SIZE_MAXKB : Z := 8192.
Definition CRYPT_KEYFILE_STOP_EOL : Z := 1.
Definition BUFSIZ : Z := 8192.

(** The input: given by a path or standard input, with what isatty(3) and
    stat(2) say ([None] is a failure; regular, and the size), whether it can be
    seeked ([None] is an error other than ESPIPE), and its contents. *)
Record key_input := KeyInput {
  ki_path : bool;
  ki_tty : bool;
  ki_stat : option (bool * Z);
  ki_seek : option bool;
  ki_file : option file;
}.

(** Reads and drops bytes: what is left to drop, or an error. *)
Fixpoint discard (fuel : nat) (n : Z) (f : file) : Z * file :=
  match fuel with
  | O => (-1, f)
  | S fuel =>
      if n <=? 0 then (0, f)
      else
        let r := sys_read (Z.min n BUFSIZ) f in
        if sr_ret r <? 0 then (if sr_errno r =? EINTR then discard fuel n (sr_file r) else (-1, sr_file r))
        else if sr_ret r =? 0 then (-1, sr_file r)
        else discard fuel (n - sr_ret r) (sr_file r)
  end.

Definition keyfile_seek (seek : option bool) (n : Z) (f : file) : Z * file :=
  match seek with
  | None => (-1, f)
  | Some true =>
      let '(r, f) := sys_lseek n SEEK_CUR f in
      if 0 <? r then (0, f) else if r <? 0 then (-1, f) else discard (io_fuel n f) n f
  | Some false => discard (io_fuel n f) n f
  end.

(** The buffer grows by 4096 bytes when it is full; allocation succeeds. The
    result is an error, or what was read and whether a line end stopped it;
    [None] when the fuel is used up, which it never is ([key_loop_spec]). *)
Fixpoint key_loop (fuel : nat) (eol : bool) (key_size buflen : Z) (pass : bytes) (f : file) : option (Z + bytes * bool) :=
  match fuel with
  | O => None
  | S fuel =>
      let i := zlen pass in
      if key_size <=? i then Some (inr (pass, false))
      else
        let buflen := if i =? buflen then buflen + 4096 else buflen in
        let char_to_read := if eol then 1 else i32 ((if key_size <? buflen then key_size else buflen) - i) in
        let '(char_read, buf, f) := read_buffer 0 char_to_read f in
        if char_read <? 0 then Some (inl (- EPIPE))
        else if char_read =? 0 then Some (inr (pass, false))
        else if eol && bool_decide (head buf = Some x0a) then Some (inr (pass, true))
        else key_loop fuel eol key_size buflen (pass ++ buf) f
  end.

(** Every round of the loop but the last reads a byte. *)
Definition key_fuel (f : file) : nat := S (S (length (f_data f))).

Definition crypt_keyfile_device_read (inp : key_input) (keyfile_offset key_size flags : Z) : Z + bytes :=
  match ki_file inp with
  | None => inl (- EINVAL)
  | Some f =>
      if ki_tty inp then inl (- EINVAL)
      else
        let unlimited_read := key_size =? 0 in
        let buflen := if unlimited_read then 4096 - 8 else key_size in
        let key_size := if unlimited_read then DEFAULT_KEYFILE_SIZE_MAXKB * 1024 + 1 else key_size in
        let regular_file := match ki_stat inp with Some (regular, _) => ki_path inp && regular | None => false end in
        let stat_size := match ki_stat inp with Some (_, n) => n | None => 0 end in
        if ki_path inp && negb (bool_decide (is_Some (ki_stat inp))) then inl (- EINVAL)
        else if regular_file && (stat_size <? keyfile_offset) then inl (- EINVAL)
        else
          let file_read_size := stat_size - keyfile_offset in
          let buflen :=
            if negb regular_file then buflen
            else if key_size <=? file_read_size then key_size
            else if negb (file_read_size =? 0) then file_read_size else buflen in
          let '(r, f) := if keyfile_offset =? 0 then (0, f) else keyfile_seek (ki_seek inp) keyfile_offset f in
          if r <? 0 then inl (- EINVAL)
          else match default (inl (- EINVAL)) (key_loop (key_fuel f) (negb (Z.land flags CRYPT_KEYFILE_STOP_EOL =? 0)) key_size buflen [] f) with
          | inl r => inl r
          | inr (pass, newline) =>
              let i := zlen pass in
              if (i =? 0) && negb regular_file && negb newline then inl (- EPIPE)
              else if unlimited_read && (i =? key_size) then inl (- EINVAL)
              else if negb unlimited_read && negb (i =? key_size) then inl (- EINVAL)
              else inr pass
          end
  end.

Definition crypt_keyfile_read (inp : key_input) (keyfile_offset keyfile_size_max flags : Z) : Z + bytes :=
  crypt_keyfile_device_read inp keyfile_offset keyfile_size_max flags.

(** ** Comparing strings *)

Definition crypt_string_in (str : string) (l : list string) : bool := existsb (fun s => bool_decide (str = s)) l.

(** NULL is [None]; only whether the result is 0 matters. *)
Definition crypt_strcmp (a b : option string) : Z :=
  match a, b with
  | None, None => 0
  | Some a, Some b => if bool_decide (a = b) then 0 else 1
  | _, _ => 1
  end.

(** ** What is read *)

(** The first line. *)
Fixpoint first_line (b : bytes) : bytes :=
  match b with
  | [] => []
  | c :: b => if bool_decide (c = x0a) then [] else c :: first_line b
  end.

(** The key in the bytes from the offset on, at most [limit] of them. *)
Definition key_text (eol : bool) (limit : Z) (rest : bytes) : bytes :=
  let t := take (Z.to_nat limit) rest in if eol then first_line t else t.

Lemma first_line_app a b : x0a ∉ a -> first_line (a ++ b) = a ++ first_line b.
Proof.
  induction a as [|c a IH]; intros H; [done|]. apply not_elem_of_cons in H as [H1 H2]. cbn [app first_line].
  rewrite bool_decide_false by congruence. by rewrite IH.
Qed.

Lemma first_line_id a : x0a ∉ a -> first_line a = a.
Proof. intros H. rewrite <-(app_nil_r a) at 1. rewrite first_line_app by done. apply app_nil_r. Qed.

(** All of the bytes that may be read have been read, without a line end. *)
Lemma key_text_done (eol : bool) limit pass rest :
  pass = take (length pass) rest -> (eol = true -> x0a ∉ pass) -> zlen pass <= limit ->
  zlen pass = limit \/ pass = rest -> key_text eol limit rest = pass.
Proof.
  intros Hp He Hl Hend. unfold key_text. assert (E : take (Z.to_nat limit) rest = pass).
  { destruct Hend as [<-| ->]; [unfold zlen; by rewrite Nat2Z.id|]. apply take_ge. unfold zlen in Hl. lia. }
  rewrite E. destruct eol; [by apply first_line_id, He|done].
Qed.

(** A line end was read behind the key. *)
Lemma key_text_line limit pass rest c buf :
  pass ++ c :: buf = take (length pass + S (length buf)) rest -> c = x0a -> x0a ∉ pass -> zlen pass < limit ->
  key_text true limit rest = pass.
Proof.
  intros Hp -> He Hl. unfold key_text. rewrite <-(take_drop (length pass + S (length buf)) rest), <-Hp, <-app_assoc.
  cbn [app]. rewrite take_app_ge by (unfold zlen in Hl; lia). unfold zlen in Hl.
  destruct (Z.to_nat limit - length pass)%nat eqn:En; [lia|]. cbn [take]. rewrite first_line_app by done. cbn [first_line].
  rewrite bool_decide_true by done. apply app_nil_r.
Qed.

(** The loop reads the key, unless a read fails. *)
Lemma key_loop_spec fuel (eol : bool) key_size buflen pass f p0 :
  0 <= p0 -> f_pos f = p0 + zlen pass -> pass = take (length pass) (drop (Z.to_nat p0) (f_data f)) ->
  (eol = true -> x0a ∉ pass) -> zlen pass <= key_size -> zlen pass <= buflen -> key_size < 2 ^ 31 ->
  (Z.to_nat (f_size f - f_pos f) + 1 < fuel)%nat ->
  exists r, key_loop fuel eol key_size buflen pass f = Some r /\
    ((r = inl (- EPIPE) /\ ~ benign (f_sched f)) \/
     exists newline, r = inr (key_text eol key_size (drop (Z.to_nat p0) (f_data f)), newline)).
Proof.
  intros Hp0. revert buflen pass f. induction fuel as [|fuel IH]; intros buflen pass f Hpos Hpass Hnl Hk Hb Hi Hf; [lia|].
  pose proof (zlen_nonneg pass) as Hz. cbn [key_loop]. destruct (Z.leb_spec key_size (zlen pass)) as [Hle|Hlt].
  { eexists. split; [done|]. right. eexists. do 2 f_equal. symmetry. apply key_text_done; try done. left. lia. }
  set (buflen' := if zlen pass =? buflen then buflen + 4096 else buflen).
  assert (Hb' : zlen pass < buflen') by (unfold buflen'; case_match; lia).
  set (n := if eol then 1 else i32 ((if key_size <? buflen' then key_size else buflen') - zlen pass)).
  assert (Hn : 1 <= n /\ zlen pass + n <= key_size /\ zlen pass + n <= buflen').
  { unfold n. destruct eol; [lia|]. destruct (Z.ltb_spec key_size buflen'); rewrite i32_id; lia. }
  destruct (read_buffer_spec 0 n f) as (r & buf & f' & -> & Hs & Hd & Hp' & [[-> Hben]|(Hr & Hbuf & Hzb)]); [lia..| |].
  { cbn [Z.ltb Z.compare]. eexists. split; [done|]. by left. }
  rewrite (proj2 (Z.ltb_ge r 0)) by lia. unfold f_size in *. destruct (Z.eqb_spec r 0) as [Hr0|Hr0].
  { eexists. split; [done|]. right. eexists. do 2 f_equal. symmetry. apply key_text_done; [done..|lia|]. right.
    rewrite Hpass. apply take_ge. rewrite length_drop. unfold zlen in *. lia. }
  assert (Hcat : pass ++ buf = take (length pass + length buf) (drop (Z.to_nat p0) (f_data f))).
  { rewrite <-take_take_drop, <-Hpass. f_equal. rewrite Hbuf at 1. unfold slice. rewrite drop_drop, Hpos.
    f_equal; [unfold zlen in Hzb; lia|]. f_equal. unfold zlen. lia. }
  destruct buf as [|c buf]; [unfold zlen in Hzb; cbn in Hzb; lia|]. cbn [head].
  destruct (eol && bool_decide (Some c = Some x0a)) eqn:Ec.
  { apply andb_true_iff in Ec as [-> Ec%bool_decide_eq_true]. eexists. split; [done|]. right. eexists. do 2 f_equal. symmetry.
    apply (key_text_line _ _ _ c buf); [exact Hcat|congruence|by apply Hnl|lia]. }
  destruct (IH buflen' (pass ++ c :: buf) f') as (r' & E & Hr'); rewrite ?Hd, ?zlen_app.
  - lia.
  - by rewrite length_app.
  - intros ->. cbn [andb] in Ec. apply bool_decide_eq_false in Ec. assert (Hb1 : buf = []).
    { unfold n in *. apply zlen_0_nil. unfold zlen in *. cbn [length] in Hzb. lia. }
    rewrite Hb1. apply not_elem_of_app. split; [by apply Hnl|]. apply not_elem_of_cons. split; [congruence|apply not_elem_of_nil].
  - lia.
  - lia.
  - done.
  - unfold f_size in *. rewrite ?Hd. lia.
  - exists r'. split; [done|]. destruct Hr' as [[-> Hben]|(nl & ->)]; [left|right; exists nl; by rewrite Hd].
    split; [done|]. intros ?. by apply Hben, Hs.
Qed.

(** Skipping ends at the offset, unless a read fails or the input is shorter. *)
Lemma discard_spec fuel n f :
  0 <= n -> 0 <= f_pos f -> (length (f_sched f) + Z.to_nat n < fuel)%nat ->
  exists r f', discard fuel n f = (r, f') /\ sched_le f f' /\ f_data f' = f_data f /\
    ((r = 0 /\ f_pos f' = f_pos f + n) \/ (r = -1 /\ (~ benign (f_sched f) \/ f_size f < f_pos f + n))).
Proof.
  revert n f. induction fuel as [|fuel IH]; intros n f Hn Hp Hf; [lia|]. cbn [discard].
  destruct (Z.leb_spec n 0).
  { eexists _, _. split; [done|]. split; [done|]. split; [done|]. left. split; [done|lia]. }
  destruct (sys_read_spec (Z.min n BUFSIZ) f ltac:(unfold BUFSIZ; lia)) as (Hs & Hd & Hc).
  set (x := sys_read (Z.min n BUFSIZ) f) in *. pose proof (size_eq _ _ Hd) as Hsz.
  destruct Hc as [(-> & Hp' & Hl & Hb)|(Hr & Hr2 & H0 & _ & Hl & Hp')].
  - cbn [Z.ltb Z.compare]. destruct (Z.eqb_spec (sr_errno x) EINTR) as [_|He].
    + destruct (IH n (sr_file x)) as (r & f' & -> & Hs' & Hd' & Hc'); [lia..|]. exists r, f'. rewrite Hd', Hp', Hsz in *.
      split; [done|]. split; [by transitivity (sr_file x)|]. split; [done|]. destruct Hc' as [?|[? [Hc'|?]]]; [by left|right|right; tauto].
      split; [done|]. left. intros Hb'. by apply Hc', Hs.
    + eexists _, _. split; [done|]. split; [done|]. split; [done|]. right. split; [done|]. left. intros Hb'. by apply He, Hb.
  - rewrite (proj2 (Z.ltb_ge (sr_ret x) 0)) by lia. destruct (Z.eqb_spec (sr_ret x) 0) as [E|E].
    + eexists _, _. split; [done|]. split; [done|]. split; [done|]. right. split; [done|]. right. unfold BUFSIZ in *. destruct (H0 E); lia.
    + destruct (IH (n - sr_ret x) (sr_file x)) as (r & f' & -> & Hs' & Hd' & Hc'); [lia..|]. exists r, f'. rewrite Hd', Hp', Hsz in *.
      split; [done|]. split; [by transitivity (sr_file x)|]. split; [done|].
      destruct Hc' as [[? ?]|[? [Hc'|?]]]; [left; split; [done|lia]|right..]; (split; [done|]); [left|right; lia].
      intros Hb'. by apply Hc', Hs.
Qed.

Lemma keyfile_seek_spec seekable n f :
  0 < n -> f_pos f = 0 ->
  exists r f', keyfile_seek (Some seekable) n f = (r, f') /\ sched_le f f' /\ f_data f' = f_data f /\
    ((r = 0 /\ f_pos f' = n) \/ (r = -1 /\ (~ benign (f_sched f) \/ f_size f < n))).
Proof.
  intros Hn Hp. unfold keyfile_seek. destruct seekable.
  - unfold sys_lseek. rewrite Hp, (proj2 (Z.ltb_ge (0 + n) 0)), (proj2 (Z.ltb_lt 0 (0 + n))) by lia.
    eexists _, _. split; [done|]. split; [apply sched_le_same|]. split; [done|]. left. split; [done|cbn; lia].
  - destruct (discard_spec (io_fuel n f) n f) as (r & f' & E & Hs & Hd & Hc); [lia..|unfold io_fuel; lia|].
    exists r, f'. rewrite Hp in *. done.
Qed.

(** An input that can be read, and sought or skipped: its contents, and stat(2)
    agrees with them when it is given by a path. *)
Record key_source (inp : key_input) (f : file) : Prop := {
  ks_file : ki_file inp = Some f;
  ks_start : f_pos f = 0;
  ks_tty : ki_tty inp = false;
  ks_stat : ki_path inp = true -> exists regular, ki_stat inp = Some (regular, f_size f);
  ks_seek : is_Some (ki_seek inp);
}.

(** The size of the key is the one asked for, or below the default limit. *)
Definition key_fits (key_size : Z) (key : bytes) : Prop :=
  if key_size =? 0 then zlen key <= DEFAULT_KEYFILE_SIZE_MAXKB * 1024 else zlen key = key_size.

Definition key_limit (key_size : Z) : Z := if key_size =? 0 then DEFAULT_KEYFILE_SIZE_MAXKB * 1024 + 1 else key_size.

Lemma key_text_size eol limit rest : 0 <= limit -> zlen (key_text eol limit rest) <= limit.
Proof.
  intros H. assert (Hl : forall b, zlen (first_line b) <= zlen b).
  { induction b as [|c b IH]; [done|]. cbn [first_line]. unfold zlen in *. case_match; cbn [length]; lia. }
  unfold key_text. assert (zlen (take (Z.to_nat limit) rest) <= limit) by (unfold zlen; rewrite length_take; lia).
  destruct eol; [|done]. etransitivity; [apply Hl|done].
Qed.

(** The last checks of the function. *)
Lemma key_checks (regular newline : bool) key_size key :
  0 <= key_size -> zlen key <= key_limit key_size ->
  let res :=
    if (zlen key =? 0) && negb regular && negb newline then inl (- EPIPE)
    else if (key_size =? 0) && (zlen key =? key_limit key_size) then inl (- EINVAL)
    else if negb (key_size =? 0) && negb (zlen key =? key_limit key_size) then inl (- EINVAL) else inr key in
  (forall pass, res = inr pass -> pass = key /\ key_fits key_size pass) /\ (key <> [] -> key_fits key_size key -> res = inr key).
Proof.
  unfold key_fits, key_limit. intros H0 Hl. split.
  - intros pass. destruct (Z.eqb_spec key_size 0); cbn [negb andb]; repeat case_match; try done; intros [= <-]; (split; [done|]); lia.
  - intros Hne Hk. destruct (Z.eqb_spec (zlen key) 0) as [E|_]; [by apply zlen_0_nil in E|].
    destruct (Z.eqb_spec key_size 0); cbn [negb andb]; repeat case_match; try done; lia.
Qed.

Lemma key_limit_range key_size : 0 <= key_size < 2 ^ 31 -> 0 <= key_limit key_size < 2 ^ 31.
Proof. unfold key_limit, DEFAULT_KEYFILE_SIZE_MAXKB. destruct (key_size =? 0); lia. Qed.

(** C39: A key file is never cut short or read from the wrong place: whatever
    errors and partial transfers occur, for a file as for a pipe, when
    [crypt_keyfile_device_read] gives a key it is exactly the bytes from the
    offset on (up to the first line end where that was asked for), with the
    size that was asked for, or below the limit of 8 MiB when none was. It
    does give that key when no call fails for good and the key is not empty. *)
Theorem keyfile_read_exact inp f off key_size flags :
  key_source inp f -> 0 <= off < 2 ^ 63 -> 0 <= key_size < 2 ^ 31 ->
  let key := key_text (negb (Z.land flags CRYPT_KEYFILE_STOP_EOL =? 0)) (key_limit key_size) (drop (Z.to_nat off) (f_data f)) in
  (forall pass, crypt_keyfile_device_read inp off key_size flags = inr pass -> pass = key /\ key_fits key_size pass) /\
  (benign (f_sched f) -> key <> [] -> key_fits key_size key -> crypt_keyfile_device_read inp off key_size flags = inr key).
Proof.
  intros [Hf Hp Ht Hst [seekable Hsk]] Ho Hk key. unfold crypt_keyfile_device_read. rewrite Hf, Ht, Hsk.
  set (eol := negb (Z.land flags CRYPT_KEYFILE_STOP_EOL =? 0)) in *. fold (key_limit key_size).
  set (regular := match ki_stat inp with Some (b, _) => ki_path inp && b | None => false end).
  assert (Hnil : f_size f <= off -> key = []).
  { intros Hle. unfold key, key_text. rewrite drop_ge by (unfold f_size, zlen in Hle; lia). rewrite take_nil. by destruct eol. }
  assert (E0 : ki_path inp && negb (bool_decide (is_Some (ki_stat inp))) = false).
  { destruct (ki_path inp); [|done]. destruct Hst as [b ->]; [done|]. by rewrite bool_decide_true by done. }
  rewrite E0.
  assert (Hreg : regular = true -> match ki_stat inp with Some (_, n) => n | None => 0 end = f_size f).
  { unfold regular. destruct (ki_path inp); [|by destruct (ki_stat inp) as [[]|]]. by destruct Hst as [b ->]. }
  destruct (regular && _) eqn:Eoff.
  { apply andb_true_iff in Eoff as [E1 E2]. rewrite Hreg in E2 by done. split; [done|]. intros _ []. apply Hnil. lia. }
  assert (Hoff : regular = true -> off <= f_size f).
  { intros E. rewrite E, Hreg in Eoff by done. cbn [andb] in Eoff. lia. }
  set (buflen := if negb regular then _ else _).
  assert (Hb : 0 <= buflen).
  { unfold buflen. destruct regular eqn:Er; cbn [negb]; [rewrite Hreg by done; specialize (Hoff eq_refl)|];
      unfold key_limit, DEFAULT_KEYFILE_SIZE_MAXKB; repeat case_match; lia. }
  set (sk := if off =? 0 then _ else _).
  assert (Hsk' : exists r f1, sk = (r, f1) /\ sched_le f f1 /\ f_data f1 = f_data f /\
    ((r = 0 /\ f_pos f1 = off) \/ (r = -1 /\ (~ benign (f_sched f) \/ f_size f < off)))).
  { unfold sk. destruct (Z.eqb_spec off 0) as [->|]; [|apply keyfile_seek_spec; [lia|done]].
    exists 0, f. split; [done|]. split; [done|]. split; [done|]. by left. }
  destruct Hsk' as (r & f1 & -> & Hs & Hd & [[-> Hp1]|[-> Hbad]]).
  2: { cbn [Z.ltb Z.compare]. split; [done|]. intros Hben Hne. destruct Hbad; [done|]. destruct Hne. apply Hnil. lia. }
  cbn [Z.ltb Z.compare]. destruct (key_loop_spec (key_fuel f1) eol (key_limit key_size) buflen [] f1 off) as (res & -> & Hres).
  - lia.
  - rewrite Hp1. change (zlen (@nil byte)) with 0. lia.
  - done.
  - intros _. apply not_elem_of_nil.
  - change (zlen (@nil byte)) with 0. by apply key_limit_range.
  - done.
  - by apply key_limit_range.
  - unfold key_fuel, f_size, zlen. lia.
  - cbn [default]. destruct Hres as [[-> Hben]|[newline ->]]; [split; [done|]; intros Hb'; destruct Hben; by apply Hs|].
    rewrite Hd. fold key.
    destruct (key_checks regular newline key_size key) as [R1 R2]; [lia|by apply key_text_size, key_limit_range|].
    split; [exact R1|intros _; exact R2].
Qed.

Definition fx_keyfile : file := File [x01; x02; x6b; x65; x79; x0a; x03] 0 [Xerr EINTR; Xfer 1; Xfer 1; Xerr EINTR].
Definition fx_key_input : key_input := KeyInput false false None (Some false) (Some fx_keyfile).

(** The line behind two bytes of a pipe whose transfers are interrupted. *)
Lemma keyfile_read_exact_witness : crypt_keyfile_device_read fx_key_input 2 0 CRYPT_KEYFILE_STOP_EOL = inr [x6b; x65; x79].
Proof.
  assert (Hs : key_source fx_key_input fx_keyfile) by (split; try done; by exists false).
  destruct (keyfile_read_exact fx_key_input fx_keyfile 2 0 CRYPT_KEYFILE_STOP_EOL Hs) as [_ H]; [lia..|]. apply H.
  - repeat constructor.
  - by vm_compute.
  - by vm_compute.
Defined.
