(* ===== verification/CryptBackend.v ===== *)
(** * CryptBackend: the interface of the crypto back end

    lib/crypto_backend wraps libraries that are not part of the repository.
    What the modelled code uses of it is the class [CryptHash]; what it relies
    on is [CryptHashLaws]. [fx_hash] is a checksum of the right size on which
    the witnesses run. *)

From S2P Require Import Prelude.
From Stdlib Require Import Strings.Byte.

Class CryptHash := {
  (** not positive when the algorithm is not known *)
  crypt_hash_size : bytes -> Z;
  (** init, write, final: the digest, of [crypt_hash_size] bytes *)
  crypt_hash : bytes -> bytes -> bytes;
}.

(** LUKS2_CHECKSUM_L, the largest digest *)
Definition MAX_DIGEST : Z := 64.

Class CryptHashLaws `{CH : CryptHash} : Prop := {
  hash_size_max : forall alg, crypt_hash_size alg <= MAX_DIGEST;
  hash_length : forall alg m, 0 < crypt_hash_size alg -> zlen (crypt_hash alg m) = crypt_hash_size alg;
}.

(** crypt_hash_final(hd, dst, len) writes the first [len] bytes. *)
Definition crypt_hash_final `{CH : CryptHash} (alg m : bytes) (len : Z) : bytes :=
  take (Z.to_nat len) (crypt_hash alg m).

Lemma zlen_hash_final `{CHL : CryptHashLaws} alg m len :
  0 <= len <= crypt_hash_size alg -> 0 < crypt_hash_size alg -> zlen (crypt_hash_final alg m len) = len.
Proof. intros Hl Hs. unfold crypt_hash_final. apply zlen_take. rewrite hash_length; lia. Qed.

(** *** HMAC *)

Class CryptHmac := {
  (** negative when the algorithm is not known *)
  crypt_hmac_size : bytes -> Z;
  (** block size of the hash function *)
  hmac_block : bytes -> Z;
  (** crypt_hmac_init(&ctx, name, key): [None] when it fails; then write and
      final, which can fail and leave the context ready for the next message *)
  crypt_hmac : bytes -> bytes -> option (bytes -> option bytes);
}.

(** RFC 2104: the size of the result; a key longer than a block stands for its
    digest. *)
Class CryptHmacLaws `{CH : CryptHash} `{CM : CryptHmac} : Prop := {
  hmac_length : forall alg key mac m out,
    crypt_hmac alg key = Some mac -> mac m = Some out -> zlen out = crypt_hmac_size alg;
  hmac_hash_size : forall alg, 0 < crypt_hmac_size alg -> crypt_hash_size alg = crypt_hmac_size alg;
  hmac_long_key : forall alg key, hmac_block alg < zlen key ->
    crypt_hmac alg key = crypt_hmac alg (crypt_hash alg key);
}.

(** *** Key derivation *)

(** crypt_pbkdf of a KDF, hash, password and salt, for a key of the given size:
    code and key. *)
Class CryptPbkdf := crypt_pbkdf : string -> bytes -> bytes -> bytes -> Z -> Z -> Z -> Z -> Z * bytes.

Class CryptPbkdfLaws `{CP : CryptPbkdf} : Prop :=
  pbkdf_length : forall kdf hash pw salt n it mem par,
    0 <= n -> 0 <= fst (crypt_pbkdf kdf hash pw salt n it mem par) -> zlen (snd (crypt_pbkdf kdf hash pw salt n it mem par)) = n.

(** ** An instance for the witnesses *)

Definition fx_alg : bytes := bytes_of_string "sha256".

#[local] Instance fx_hash : CryptHash | 100 := {
  crypt_hash_size alg := if decide (alg = fx_alg) then 32 else -1;
  crypt_hash alg m := replicate 28 x01 ++ le_encode 4 (fold_left (fun s c => s + byte_val c) m 0);
}.

#[local] Instance fx_hash_laws : CryptHashLaws | 100.
Proof.
  split; unfold crypt_hash_size, crypt_hash, fx_hash; intros; [case_decide; unfold MAX_DIGEST; lia|].
  case_decide; [|lia]. unfold zlen. by rewrite length_app, length_replicate, length_le_encode.
Qed.

#[local] Instance fx_hmac : CryptHmac | 100 := {
  crypt_hmac_size alg := if decide (alg = fx_alg) then 32 else - EINVAL;
  hmac_block _ := 64;
  crypt_hmac alg key :=
    let key := if 64 <? zlen key then crypt_hash alg key else key in
    if decide (alg = fx_alg) then Some (fun m => Some (crypt_hash alg (key ++ m))) else None;
}.

#[local] Instance fx_hmac_laws : CryptHmacLaws | 100.
Proof.
  assert (Hl : forall k, zlen (crypt_hash fx_alg k) = 32).
  { intros k. rewrite hash_length; [done|]. done. }
  split; cbn [crypt_hmac crypt_hmac_size hmac_block fx_hmac].
  - intros alg key mac m out Hi Ho. case_decide; [|done]. simplify_eq. apply Hl.
  - intros alg. unfold crypt_hash_size, fx_hash. case_decide; [done|]. unfold EINVAL. lia.
  - intros alg key Hk. case_decide as Ha; [subst alg|done].
    rewrite Hl. rewrite (proj2 (Z.ltb_lt _ _)) by done. done.
Qed.
