(* ===== verification/Cstd.v ===== *)
(** * Cstd: what the library uses of the C library

    What the sources use of <stdlib.h>, <ctype.h> and <stdio.h> on strings:
    [isdigit], [strtoull] base 10, [atoi], and [snprintf] of an unsigned or
    signed decimal, [strcasecmp]. A C string is a [string] without NUL; [strcmp(a, b) == 0]
    is equality. The conversions are proved inverse to each other where the
    code relies on it ([strtoull_dec], [atoi_dec]). Then what is used on bytes:
    characters of the C locale, strings in fields of fixed size, and the
    interface to libuuid. *)

From S2P Require Import Prelude.
From Stdlib Require Import Ascii Strings.Byte.

Definition ascii_val (c : ascii) : Z := Z.of_N (N_of_ascii c).
Definition digit_char (d : Z) : ascii := ascii_of_N (Z.to_N (48 + d)).

(** ctype(3), in the C locale. *)
Definition isdigit (c : ascii) : bool := (48 <=? ascii_val c) && (ascii_val c <=? 57).
Definition isspace (c : ascii) : bool :=
  (ascii_val c =? 32) || ((9 <=? ascii_val c) && (ascii_val c <=? 13)).

(** The longest prefix of digits, added to [acc]; the rest of the string. *)
Fixpoint parse_digits (s : string) (acc : Z) : Z * string :=
  match s with
  | EmptyString => (acc, EmptyString)
  | String c s' =>
      if isdigit c then parse_digits s' (acc * 10 + (ascii_val c - 48)) else (acc, s)
  end.

Fixpoint skip_space (s : string) : string :=
  match s with
  | String c s' => if isspace c then skip_space s' else s
  | EmptyString => s
  end.

(** Sign and digits: [Some (negative, magnitude, rest)], [None] when there is
    no digit and the conversion fails. *)
Definition parse_number (s : string) : option (bool * Z * string) :=
  let s := skip_space s in
  let '(neg, s) :=
    match s with
    | String c s' => if ascii_val c =? 45 then (true, s')
                     else if ascii_val c =? 43 then (false, s') else (false, s)
    | EmptyString => (false, s)
    end in
  match s with
  | String c _ => if isdigit c then let '(v, rest) := parse_digits s 0 in Some (neg, v, rest)
                  else None
  | EmptyString => None
  end.

(** strtoull(s, &endptr, 10): value, [endptr], [errno]. A minus sign negates
    in the unsigned type; without a digit [endptr] is [s] itself. *)
Definition strtoull (s : string) : Z * string * Z :=
  match parse_number s with
  | None => (0, s, 0)
  | Some (neg, v, rest) =>
      if UINT64_MAX <? v then (UINT64_MAX, rest, ERANGE)
      else (if neg then u64 (- v) else v, rest, 0)
  end.

(** atoi(s) is (int) strtol(s, NULL, 10), and strtol saturates. *)
Definition atoi (s : string) : Z :=
  match parse_number s with
  | None => 0
  | Some (neg, v, _) =>
      i32 (if neg then Z.max INT64_MIN (- v) else Z.min INT64_MAX v)
  end.

(** snprintf of "%u" or PRIu64: at most 20 digits for a 64-bit value. *)
Fixpoint dec_aux (fuel : nat) (z : Z) (acc : string) : string :=
  match fuel with
  | O => acc
  | S fuel' =>
      let acc := String (digit_char (z mod 10)) acc in
      if z <? 10 then acc else dec_aux fuel' (z / 10) acc
  end.

Definition dec_u (z : Z) : string := dec_aux 20 z EmptyString.
Definition dec_u32 (z : Z) : string := dec_u (u32 z).
Definition dec_i32 (z : Z) : string :=
  if i32 z <? 0 then String (ascii_of_N 45) (dec_u (- i32 z)) else dec_u (i32 z).

(** strcasecmp(a, b) == 0 *)
Definition tolower_char (c : ascii) : ascii :=
  if (65 <=? ascii_val c) && (ascii_val c <=? 90) then ascii_of_N (Z.to_N (ascii_val c + 32)) else c.
Fixpoint lowercase (s : string) : string :=
  match s with EmptyString => EmptyString | String c s' => String (tolower_char c) (lowercase s') end.
Definition strcaseeq (a b : string) : bool := bool_decide (lowercase a = lowercase b).

(** strncasecmp(s, p, strlen(p)) == 0 *)
Definition strcaseprefix (p s : string) : bool := String.prefix (lowercase p) (lowercase s).

Lemma digit_char_val d : 0 <= d < 10 -> ascii_val (digit_char d) = 48 + d.
Proof.
  intros H. unfold ascii_val, digit_char. rewrite N_ascii_embedding by lia. lia.
Qed.

Lemma isdigit_digit_char d : 0 <= d < 10 -> isdigit (digit_char d) = true.
Proof. intros H. unfold isdigit. rewrite digit_char_val by lia. lia. Qed.

Lemma parse_digits_dec fuel z acc :
  0 <= z < 10 ^ Z.of_nat fuel -> parse_digits (dec_aux fuel z acc) 0 = parse_digits acc z.
Proof.
  revert z acc. induction fuel as [|fuel IH]; intros z acc Hz.
  - simpl in *. f_equal. lia.
  - cbn [dec_aux].
    assert (Hstep : forall a, a = z / 10 ->
      parse_digits (String (digit_char (z mod 10)) acc) a = parse_digits acc z).
    { intros a ->. cbn [parse_digits]. pose proof (Z.mod_pos_bound z 10 ltac:(lia)).
      rewrite isdigit_digit_char, digit_char_val by lia. f_equal.
      pose proof (Z.div_mod z 10 ltac:(lia)). lia. }
    destruct (Z.ltb_spec z 10).
    + apply Hstep. symmetry. apply Z.div_small. lia.
    + rewrite IH; [by apply Hstep|].
      replace (Z.of_nat (S fuel)) with (1 + Z.of_nat fuel) in Hz by lia.
      rewrite Z.pow_add_r in Hz by lia. change (10 ^ 1) with 10 in Hz.
      split; [apply Z.div_pos; lia|]. apply Z.div_lt_upper_bound; lia.
Qed.

Lemma dec_aux_head fuel z acc :
  0 <= z -> exists c s, dec_aux (S fuel) z acc = String c s /\ isdigit c = true.
Proof.
  revert z acc. induction fuel as [|fuel IH]; intros z acc Hz.
  - exists (digit_char (z mod 10)), acc. pose proof (Z.mod_pos_bound z 10 ltac:(lia)).
    split; [simpl; by destruct (z <? 10)|]. apply isdigit_digit_char. lia.
  - cbn [dec_aux]. destruct (z <? 10).
    + eexists _, _. split; [done|]. apply isdigit_digit_char.
      pose proof (Z.mod_pos_bound z 10 ltac:(lia)). lia.
    + apply IH. apply Z.div_pos; lia.
Qed.

Lemma isdigit_not_special c :
  isdigit c = true -> isspace c = false /\ (ascii_val c =? 45) = false /\ (ascii_val c =? 43) = false.
Proof. unfold isdigit, isspace. intros H. repeat split; lia. Qed.

Lemma parse_number_dec z :
  0 <= z < 10 ^ 20 -> parse_number (dec_u z) = Some (false, z, EmptyString).
Proof.
  intros Hz. unfold parse_number, dec_u.
  destruct (dec_aux_head 19 z EmptyString ltac:(lia)) as (c & s & E & Hc).
  rewrite E. cbn [skip_space]. destruct (isdigit_not_special c Hc) as (-> & -> & ->).
  rewrite Hc, <-E, parse_digits_dec by lia. done.
Qed.

(** [strtoull] reads back what PRIu64 printed, consuming all of it. *)
Lemma strtoull_dec z : in_u 64 z -> strtoull (dec_u z) = (z, EmptyString, 0).
Proof.
  unfold in_u. intros Hz. unfold strtoull.
  rewrite parse_number_dec by (change (10 ^ 20) with 100000000000000000000; lia).
  unfold UINT64_MAX. destruct (Z.ltb_spec (2 ^ 64 - 1) z); [lia|done].
Qed.

(** [atoi] reads back a non-negative [int]. *)
Lemma atoi_dec z : 0 <= z < 2 ^ 31 -> atoi (dec_u z) = z.
Proof.
  intros Hz. unfold atoi.
  rewrite parse_number_dec by (change (10 ^ 20) with 100000000000000000000; lia).
  rewrite Z.min_r by (unfold INT64_MAX; lia). apply i32_id. lia.
Qed.

Lemma dec_u_inj a b : 0 <= a < 10 ^ 20 -> 0 <= b < 10 ^ 20 -> dec_u a = dec_u b -> a = b.
Proof.
  intros Ha Hb E. apply (f_equal parse_number) in E.
  rewrite !parse_number_dec in E by lia. congruence.
Qed.

(** Every character printed is a digit. *)
Fixpoint all_digits (s : string) : bool :=
  match s with
  | EmptyString => true
  | String c s' => isdigit c && all_digits s'
  end.

Lemma all_digits_dec_aux fuel z acc :
  0 <= z -> all_digits acc = true -> all_digits (dec_aux fuel z acc) = true.
Proof.
  revert z acc. induction fuel as [|fuel IH]; intros z acc Hz Ha; [done|]. cbn [dec_aux].
  assert (all_digits (String (digit_char (z mod 10)) acc) = true) as H.
  { cbn [all_digits]. rewrite Ha, isdigit_digit_char; [done|].
    pose proof (Z.mod_pos_bound z 10 ltac:(lia)). lia. }
  destruct (z <? 10); [done|]. apply IH; [apply Z.div_pos; lia|done].
Qed.

Lemma all_digits_dec z : 0 <= z -> all_digits (dec_u z) = true.
Proof. intros. by apply all_digits_dec_aux. Qed.

(** * Bytes and libuuid *)

(** ctype(3) in the C locale *)
Definition isupper (c : byte) : bool := (65 <=? byte_val c) && (byte_val c <=? 90).
Definition tolower (c : byte) : byte := if isupper c then byte_of_Z (byte_val c + 32) else c.

(** strncpy(3) of a C string into a buffer of [n] bytes: truncated without a
    terminator, or padded with NUL. *)
Definition strncpy (n : Z) (src : bytes) : bytes :=
  let s := take (Z.to_nat n) (cstr src) in s ++ zeros (Z.to_nat (n - zlen s)).

Definition string_of_bytes (b : bytes) : string := String.string_of_list_byte b.

(** libuuid *)
Class LibUuid := {
  (** 16 bytes, or -1 *)
  uuid_parse : bytes -> option bytes;
  uuid_unparse : bytes -> bytes;
}.

Class LibUuidLaws `{LU : LibUuid} : Prop := {
  uuid_parse_length : forall s u, uuid_parse s = Some u -> zlen u = 16;
  (** the text has 36 characters *)
  uuid_unparse_text : forall u, zlen (uuid_unparse u) = 36 /\ no_nul (uuid_unparse u);
}.

(** ** An instance for the witnesses: the text is the bytes, padded. *)

Definition fx_uuid_char (c : byte) : byte := if decide (c = x00) then x30 else c.

#[local] Instance fx_uuid : LibUuid | 100 := {
  uuid_parse s := if bool_decide (zlen s = 36) then Some (take 16 s) else None;
  uuid_unparse u := map fx_uuid_char (take 16 (u ++ replicate 16 x30)) ++ replicate 20 x30;
}.

#[local] Instance fx_uuid_laws : LibUuidLaws | 100.
Proof.
  split; cbn [uuid_parse uuid_unparse fx_uuid].
  - intros s u. case_bool_decide as Hs; [|done]. intros [= <-]. unfold zlen in *. rewrite length_take. lia.
  - intros u. split.
    + unfold zlen. rewrite length_app, length_map, length_take, length_app, !length_replicate. lia.
    + unfold no_nul. rewrite Forall_app. split; [|by apply Forall_replicate]. apply Forall_map.
      apply Forall_true. intros c. cbn. unfold fx_uuid_char. by case_decide.
Qed.
