(* ===== verification/Base64.v ===== *)
(** * Base64: binary values in JSON strings (lib/base64.c)

    [base64_encode] writes at most [outlen] bytes; its result is what it
    writes. The decoder is used by the library without a context, so that the
    input is one unit and newlines are garbage; its result is the success flag
    and the bytes written. *)

From S2P Require Import Prelude.
From Stdlib Require Import Strings.Byte.

Definition b64c_table : bytes :=
  bytes_of_string "ABCDEFGHIJKLMNOPQRSTUVWXYZabcdefghijklmnopqrstuvwxyz0123456789+/".

Definition b64c (i : Z) : byte := nth (Z.to_nat i) b64c_table x00.

Fixpoint index_of (c : byte) (l : bytes) (i : Z) : Z :=
  match l with
  | [] => -1
  | x :: l' => if bool_decide (c = x) then i else index_of c l' (i + 1)
  end.

(** The table [b64]: the position in the alphabet, or -1. *)
Definition b64 (c : byte) : Z := index_of c b64c_table 0.

Definition isbase64 (ch : byte) : bool := 0 <=? b64 ch.

Definition equals_sign : byte := x3d.

(** ** Encoding *)

Definition BASE64_LENGTH (inlen : Z) : Z := (inlen + 2) / 3 * 4.

Definition sextet (z : Z) : byte := b64c (Z.land z 0x3f).

Fixpoint base64_encode_fast (inp : bytes) : bytes :=
  match inp with
  | in0 :: in1 :: in2 :: inp' =>
      let in0 := byte_val in0 in let in1 := byte_val in1 in let in2 := byte_val in2 in
      [ sextet (Z.shiftr in0 2);
        sextet (Z.shiftl in0 4 + Z.shiftr in1 4);
        sextet (Z.shiftl in1 2 + Z.shiftr in2 6);
        sextet in2 ] ++ base64_encode_fast inp'
  | _ => []
  end.

(** One iteration's four characters. *)
Definition encode_3 (in0 : byte) (rest : bytes) : bytes :=
  let v i := match rest !! i with Some c => byte_val c | None => 0 end in
  [ sextet (Z.shiftr (byte_val in0) 2);
    sextet (Z.shiftl (byte_val in0) 4 + Z.shiftr (v 0%nat) 4);
    match rest with
    | [] => equals_sign
    | in1 :: _ => sextet (Z.shiftl (byte_val in1) 2 + Z.shiftr (v 1%nat) 6)
    end;
    match rest with
    | _ :: in2 :: _ => sextet (byte_val in2)
    | _ => equals_sign
    end ].

(** The loop ends inside an iteration when the output is full. *)
Fixpoint encode_loop (fuel : nat) (inp : bytes) (outlen : Z) : bytes * Z :=
  match fuel, inp with
  | S fuel', in0 :: rest =>
      if outlen =? 0 then ([], 0)
      else if outlen <=? 4 then (take (Z.to_nat outlen) (encode_3 in0 rest), 0)
      else
        let '(out, outleft) := encode_loop fuel' (drop 2 rest) (outlen - 4) in
        (encode_3 in0 rest ++ out, outleft)
  | _, _ => ([], outlen)
  end.

Definition base64_encode (inp : bytes) (outlen : Z) : bytes :=
  if (outlen mod 4 =? 0) && (zlen inp =? outlen / 4 * 3) then base64_encode_fast inp
  else
    let '(out, outleft) := encode_loop (length inp) inp outlen in
    if outleft =? 0 then out else out ++ [x00].

(** The C string allocated, without its terminating NUL; [None] when the size
    overflows. *)
Definition base64_encode_alloc (inp : bytes) : option bytes :=
  let outlen := 1 +64 BASE64_LENGTH (zlen inp) in
  if outlen <? zlen inp then None else Some (cstr (base64_encode inp outlen)).

(** ** Decoding *)

(** [*out++ = c; --*outleft] if there is room. *)
Definition put (outleft : Z) (c : Z) : bytes := if outleft =? 0 then [] else [byte_of_Z c].

(** Success, and the bytes written. *)
Definition decode_4 (inp : bytes) (outleft : Z) : bool * bytes :=
  match inp with
  | in0 :: in1 :: rest =>
      if negb (isbase64 in0) || negb (isbase64 in1) then (false, [])
      else
        let o0 := put outleft (Z.lor (Z.shiftl (b64 in0) 2) (Z.shiftr (b64 in1) 4)) in
        match rest with
        | [] => (false, o0)
        | in2 :: rest' =>
            if bool_decide (in2 = equals_sign)
            then (bool_decide (rest' = [equals_sign]), o0)
            else if negb (isbase64 in2) then (false, o0)
            else
              let o1 := put (outleft - zlen o0)
                          (Z.lor (Z.land (Z.shiftl (b64 in1) 4) 0xf0) (Z.shiftr (b64 in2) 2)) in
              match rest' with
              | [] => (false, o0 ++ o1)
              | in3 :: rest'' =>
                  if bool_decide (in3 = equals_sign) then (bool_decide (rest'' = []), o0 ++ o1)
                  else if negb (isbase64 in3) then (false, o0 ++ o1)
                  else
                    (true, o0 ++ o1 ++ put (outleft - zlen o0 - zlen o1)
                       (Z.lor (Z.land (Z.shiftl (b64 in2) 6) 0xc0) (b64 in3)))
              end
        end
  | _ => (false, [])
  end.

(** [decode_4] takes four characters as long as it succeeds; the block it
    fails on is decoded again and fails again, so that the bytes it wrote
    stay. *)
Fixpoint decode_loop (fuel : nat) (inp : bytes) (outleft : Z) : bool * bytes :=
  match fuel with
  | O => (bool_decide (inp = []), [])
  | S fuel' =>
      let '(ok, o) := decode_4 inp outleft in
      if ok then
        let '(r, out) := decode_loop fuel' (drop 4 inp) (outleft - zlen o) in (r, o ++ out)
      else (bool_decide (inp = []), o)
  end.

Definition base64_decode (inp : bytes) (outlen : Z) : bool * bytes :=
  decode_loop (S (length inp)) inp outlen.

Definition base64_decode_alloc (inp : bytes) : option bytes :=
  let '(ok, out) := base64_decode inp (3 * (zlen inp / 4) + 3) in
  if ok then Some out else None.

(** ** One block *)

Definition all_bytes : bytes := byte_of_Z <$> seqZ 0 256.

Lemma elem_of_all_bytes (b : byte) : b ∈ all_bytes.
Proof.
  unfold all_bytes. apply list_elem_of_fmap. exists (byte_val b). split; [by rewrite byte_of_Z_val|].
  apply elem_of_seqZ. pose proof (byte_val_range b). lia.
Qed.

Lemma for_all_bytes (P : byte -> bool) : forallb P all_bytes = true -> forall b, P b = true.
Proof. intros H b. rewrite forallb_forall in H. apply H, list_elem_of_In, elem_of_all_bytes. Qed.

Lemma for_all_bytes2 (P : byte -> byte -> bool) :
  forallb (fun a => forallb (P a) all_bytes) all_bytes = true -> forall a b, P a b = true.
Proof. intros H a b. pose proof (for_all_bytes _ H a) as Ha. by apply for_all_bytes. Qed.

Definition q0 (a : byte) : Z := Z.land (Z.shiftr (byte_val a) 2) 0x3f.
Definition q1 (a b : byte) : Z := Z.land (Z.shiftl (byte_val a) 4 + Z.shiftr (byte_val b) 4) 0x3f.
Definition q2 (b c : byte) : Z := Z.land (Z.shiftl (byte_val b) 2 + Z.shiftr (byte_val c) 6) 0x3f.
Definition q3 (c : byte) : Z := Z.land (byte_val c) 0x3f.

Lemma b64_sextet z : b64 (sextet z) = Z.land z 0x3f.
Proof.
  unfold sextet. assert (H : 0 <= Z.land z 63 < 64).
  { change 63 with (Z.ones 6). rewrite Z.land_ones by lia. apply Z.mod_pos_bound. lia. }
  revert H. generalize (Z.land z 63). clear z. intros z Hz.
  assert (E : forallb (fun z => b64 (b64c z) =? z) (seqZ 0 64) = true) by (vm_compute; reflexivity).
  rewrite forallb_forall in E. apply Z.eqb_eq, E, list_elem_of_In, elem_of_seqZ. lia.
Qed.

Lemma sextet_isbase64 z : isbase64 (sextet z) = true.
Proof. unfold isbase64. rewrite b64_sextet. apply Z.leb_le, Z.land_nonneg. by right. Qed.

Lemma sextet_not_equals z : sextet z <> equals_sign.
Proof. intros E. pose proof (sextet_isbase64 z) as H. by rewrite E in H. Qed.

Lemma sextet_not_nul z : sextet z <> x00.
Proof. intros E. pose proof (sextet_isbase64 z) as H. by rewrite E in H. Qed.

(** The decoder's three bytes from the encoder's four numbers. *)
Lemma quads_byte0 a b : byte_of_Z (Z.lor (Z.shiftl (q0 a) 2) (Z.shiftr (q1 a b) 4)) = a.
Proof.
  refine (bool_decide_eq_true_1 _ _). revert a b. apply for_all_bytes2. vm_compute. reflexivity.
Qed.

Lemma q1_high a b : Z.land (Z.shiftl (q1 a b) 4) 0xf0 = Z.land (byte_val b) 0xf0.
Proof. apply Z.eqb_eq. revert a b. apply for_all_bytes2. vm_compute. reflexivity. Qed.

Lemma q2_high b c : Z.shiftr (q2 b c) 2 = Z.land (byte_val b) 0x0f.
Proof. apply Z.eqb_eq. revert b c. apply for_all_bytes2. vm_compute. reflexivity. Qed.

Lemma q2_low b c : Z.land (Z.shiftl (q2 b c) 6) 0xc0 = Z.land (byte_val c) 0xc0.
Proof. apply Z.eqb_eq. revert b c. apply for_all_bytes2. vm_compute. reflexivity. Qed.

Lemma quads_byte1 a b c :
  byte_of_Z (Z.lor (Z.land (Z.shiftl (q1 a b) 4) 0xf0) (Z.shiftr (q2 b c) 2)) = b.
Proof.
  rewrite q1_high, q2_high. refine (bool_decide_eq_true_1 _ _). revert b. apply for_all_bytes.
  vm_compute. reflexivity.
Qed.

Lemma quads_byte2 b c :
  byte_of_Z (Z.lor (Z.land (Z.shiftl (q2 b c) 6) 0xc0) (q3 c)) = c.
Proof.
  rewrite q2_low. refine (bool_decide_eq_true_1 _ _). revert c. apply for_all_bytes.
  vm_compute. reflexivity.
Qed.

(** A missing byte counts as zero. *)
Lemma q1_zero a : Z.land (Z.shiftl (byte_val a) 4 + Z.shiftr 0 4) 0x3f = q1 a x00.
Proof. done. Qed.
Lemma q2_zero b : Z.land (Z.shiftl (byte_val b) 2 + Z.shiftr 0 6) 0x3f = q2 b x00.
Proof. done. Qed.

Lemma put_room outleft c : 0 < outleft -> put outleft c = [byte_of_Z c].
Proof. intros H. unfold put. by destruct (Z.eqb_spec outleft 0); [lia|]. Qed.

Lemma zlen_put outleft c : 0 < outleft -> zlen (put outleft c) = 1.
Proof. intros H. by rewrite put_room. Qed.

Lemma decode_encode_3 a b c rest outleft :
  3 <= outleft -> decode_4 (encode_3 a [b; c] ++ rest) outleft = (true, [a; b; c]).
Proof.
  intros Ho. unfold encode_3. cbn [lookup list_lookup app]. unfold decode_4.
  rewrite !sextet_isbase64. cbn [negb orb]. rewrite !bool_decide_false by apply sextet_not_equals.
  rewrite !b64_sextet. fold (q0 a) (q1 a b) (q2 b c) (q3 c).
  rewrite !zlen_put, !put_room by (rewrite ?zlen_put; lia).
  rewrite quads_byte0, quads_byte1, quads_byte2. done.
Qed.

Lemma decode_encode_2 a b outleft :
  2 <= outleft -> decode_4 (encode_3 a [b]) outleft = (true, [a; b]).
Proof.
  intros Ho. unfold encode_3. cbn [lookup list_lookup]. unfold decode_4.
  rewrite !sextet_isbase64. cbn [negb orb]. rewrite !(bool_decide_false (sextet _ = _)) by apply sextet_not_equals.
  rewrite !b64_sextet, q2_zero. fold (q0 a) (q1 a b).
  rewrite (bool_decide_true (equals_sign = equals_sign)) by done.
  rewrite !zlen_put, !put_room by (rewrite ?zlen_put; lia). by rewrite quads_byte0, quads_byte1.
Qed.

Lemma decode_encode_1 a outleft :
  1 <= outleft -> decode_4 (encode_3 a []) outleft = (true, [a]).
Proof.
  intros Ho. unfold encode_3. cbn [lookup list_lookup]. unfold decode_4.
  rewrite !sextet_isbase64. cbn [negb orb]. rewrite !b64_sextet, q1_zero. fold (q0 a).
  rewrite !put_room by lia. by rewrite quads_byte0.
Qed.

(** ** Whole strings *)

Lemma encode_3_take in0 in1 in2 rest : encode_3 in0 (in1 :: in2 :: rest) = encode_3 in0 [in1; in2].
Proof. done. Qed.

Lemma length_encode_3 in0 rest : length (encode_3 in0 rest) = 4%nat.
Proof. done. Qed.

Lemma BASE64_LENGTH_cons3 n : BASE64_LENGTH (n + 3) = BASE64_LENGTH n + 4.
Proof.
  unfold BASE64_LENGTH. replace (n + 3 + 2) with (n + 2 + 1 * 3) by lia. rewrite Z.div_add by lia. lia.
Qed.

(** Induction by blocks of three bytes. *)
Lemma chunks3_ind (P : bytes -> Prop) :
  P [] -> (forall a, P [a]) -> (forall a b, P [a; b]) ->
  (forall a b c l, P l -> P (a :: b :: c :: l)) -> forall l, P l.
Proof.
  intros H0 H1 H2 H3 l. induction l as [l IH] using (well_founded_induction (Wf_nat.well_founded_ltof _ length)).
  destruct l as [|a [|b [|c l]]]; auto. apply H3, IH. unfold Wf_nat.ltof. simpl. lia.
Qed.

(** The text of whole blocks, without the terminating NUL. *)
Fixpoint b64_text (fuel : nat) (inp : bytes) : bytes :=
  match fuel, inp with
  | S fuel', in0 :: rest => encode_3 in0 rest ++ b64_text fuel' (drop 2 rest)
  | _, _ => []
  end.

Lemma encode_loop_text fuel inp outlen :
  (length inp <= fuel)%nat -> BASE64_LENGTH (zlen inp) < outlen ->
  encode_loop fuel inp outlen = (b64_text fuel inp, outlen - BASE64_LENGTH (zlen inp)).
Proof.
  revert inp outlen. induction fuel as [|fuel IH]; intros inp outlen Hf Ho.
  - destruct inp; [|simpl in Hf; lia]. cbn. f_equal. change (BASE64_LENGTH (zlen [])) with 0. lia.
  - destruct inp as [|a rest]; [cbn; f_equal; change (BASE64_LENGTH (zlen [])) with 0; lia|].
    cbn [encode_loop b64_text]. pose proof (zlen_nonneg rest).
    assert (Hd : BASE64_LENGTH (zlen (a :: rest)) = 4 + BASE64_LENGTH (zlen (drop 2 rest))).
    { destruct rest as [|b [|c rest]]; [done|done|]. change (drop 2 (b :: c :: rest)) with rest. unfold zlen. cbn [length].
      replace (Z.of_nat (S (S (S (length rest))))) with (Z.of_nat (length rest) + 3) by lia.
      rewrite BASE64_LENGTH_cons3. lia. }
    assert (0 <= BASE64_LENGTH (zlen (drop 2 rest))).
    { unfold BASE64_LENGTH. pose proof (zlen_nonneg (drop 2 rest)).
      pose proof (Z.div_pos (zlen (drop 2 rest) + 2) 3). lia. }
    destruct (Z.eqb_spec outlen 0); [lia|]. destruct (Z.leb_spec outlen 4); [lia|].
    rewrite IH; [|rewrite length_drop; simpl in Hf; lia|lia]. f_equal. lia.
Qed.

Lemma no_nul_encode_3 a rest : no_nul (encode_3 a rest).
Proof.
  assert (equals_sign <> x00) by done. unfold no_nul, encode_3.
  destruct rest as [|b [|c rest]]; repeat constructor; auto using sextet_not_nul.
Qed.

Lemma no_nul_b64_text fuel inp : no_nul (b64_text fuel inp).
Proof.
  revert inp. induction fuel as [|fuel IH]; intros [|a rest]; [constructor..|].
  cbn [b64_text]. apply Forall_app. split; [apply no_nul_encode_3|apply IH].
Qed.

(** What [base64_encode_alloc] returns. *)
Lemma base64_encode_alloc_text inp :
  zlen inp < 2 ^ 62 -> base64_encode_alloc inp = Some (b64_text (length inp) inp).
Proof.
  intros Hz. pose proof (zlen_nonneg inp). unfold base64_encode_alloc.
  assert (Hl : zlen inp <= BASE64_LENGTH (zlen inp) < 2 ^ 63).
  { unfold BASE64_LENGTH. pose proof (Z.div_mod (zlen inp + 2) 3). pose proof (Z.mod_pos_bound (zlen inp + 2) 3). lia. }
  rewrite u64_id by lia. destruct (Z.ltb_spec (1 + BASE64_LENGTH (zlen inp)) (zlen inp)); [lia|].
  f_equal. unfold base64_encode.
  replace ((1 + BASE64_LENGTH (zlen inp)) mod 4) with 1.
  2: { unfold BASE64_LENGTH. rewrite Z.mod_add by lia. done. }
  cbn [Z.eqb andb]. rewrite encode_loop_text by lia.
  destruct (Z.eqb_spec (1 + BASE64_LENGTH (zlen inp) - BASE64_LENGTH (zlen inp)) 0); [lia|].
  apply cstr_app_nul, no_nul_b64_text.
Qed.

Lemma decode_loop_nil fuel outleft : decode_loop fuel [] outleft = (true, []).
Proof. by destruct fuel. Qed.

Lemma decode_loop_block fuel blk o rest outleft :
  length blk = 4%nat -> decode_4 (blk ++ rest) outleft = (true, o) ->
  decode_loop (S fuel) (blk ++ rest) outleft =
    (let '(r, out) := decode_loop fuel rest (outleft - zlen o) in (r, o ++ out)).
Proof. intros Hb Hd. cbn [decode_loop]. by rewrite Hd, drop_app_length'. Qed.

Lemma decode_loop_text inp fuel outleft n :
  (length inp <= n)%nat -> (length inp < fuel)%nat -> zlen inp <= outleft ->
  decode_loop fuel (b64_text n inp) outleft = (true, inp).
Proof.
  revert fuel outleft n. induction inp as [|a|a b|a b c inp IH] using chunks3_ind;
    intros fuel outleft n Hn Hf Ho; (destruct fuel as [|fuel]; [simpl in *; lia|]);
    unfold zlen in Ho; cbn [length] in *; (destruct n as [|n]; [try lia|]).
  - done.
  - done.
  - cbn [b64_text]. rewrite (decode_loop_block _ _ [a]); [|done|].
    + destruct n; by rewrite decode_loop_nil.
    + destruct n; cbn [b64_text drop]; rewrite app_nil_r; apply decode_encode_1; lia.
  - cbn [b64_text drop]. rewrite (decode_loop_block _ _ [a; b]); [|done|].
    + destruct n; by rewrite decode_loop_nil.
    + destruct n; cbn [b64_text]; rewrite app_nil_r; apply decode_encode_2; lia.
  - cbn [b64_text drop]. rewrite encode_3_take.
    rewrite (decode_loop_block _ _ [a; b; c]); [|done|apply decode_encode_3; lia].
    rewrite IH; [done|lia|lia|]. unfold zlen. cbn [length]. lia.
Qed.

Lemma length_b64_text inp n :
  (length inp <= n)%nat -> zlen (b64_text n inp) = BASE64_LENGTH (zlen inp).
Proof.
  revert n. induction inp as [|a|a b|a b c inp IH] using chunks3_ind; intros n Hn;
    (destruct n as [|n]; [simpl in *; try lia; done|]); cbn [b64_text]; [done|..].
  - by destruct n.
  - by destruct n.
  - change (drop 2 (b :: c :: inp)) with inp. specialize (IH n ltac:(simpl in Hn; lia)).
    unfold zlen in *. rewrite length_app, length_encode_3. cbn [length].
    replace (Z.of_nat (S (S (S (length inp))))) with (Z.of_nat (length inp) + 3) by lia.
    rewrite BASE64_LENGTH_cons3. lia.
Qed.

(** ** Properties *)

(** Decoding inverts encoding, into any buffer that is large enough; the
    allocating decoder's estimate is. *)
Theorem base64_roundtrip inp outlen :
  zlen inp < 2 ^ 62 -> zlen inp <= outlen ->
  exists text, base64_encode_alloc inp = Some text /\ no_nul text /\
    base64_decode text outlen = (true, inp) /\ base64_decode_alloc text = Some inp.
Proof.
  intros Hz Ho. exists (b64_text (length inp) inp).
  split; [by apply base64_encode_alloc_text|]. split; [apply no_nul_b64_text|].
  pose proof (length_b64_text inp (length inp) ltac:(lia)) as Hl. pose proof (zlen_nonneg inp).
  assert (zlen inp <= BASE64_LENGTH (zlen inp)).
  { unfold BASE64_LENGTH. pose proof (Z.div_mod (zlen inp + 2) 3). pose proof (Z.mod_pos_bound (zlen inp + 2) 3). lia. }
  assert ((length inp < S (length (b64_text (length inp) inp)))%nat) by (unfold zlen in *; lia).
  split; [by apply decode_loop_text|]. unfold base64_decode_alloc, base64_decode.
  rewrite decode_loop_text; [done|done|done|]. rewrite Hl. unfold BASE64_LENGTH.
  rewrite Z.div_mul by lia. pose proof (Z.div_mod (zlen inp + 2) 3). pose proof (Z.mod_pos_bound (zlen inp + 2) 3). lia.
Qed.

Lemma base64_roundtrip_witness :
  exists text, base64_encode_alloc [x00; xff; x41; x42] = Some text /\ no_nul text /\
    base64_decode text 32 = (true, [x00; xff; x41; x42]) /\
    base64_decode_alloc text = Some [x00; xff; x41; x42].
Proof. apply (base64_roundtrip [x00; xff; x41; x42] 32); [reflexivity|vm_compute; discriminate]. Defined.

(** The fast path computes what the loop does. *)
Lemma base64_encode_fast_spec inp n :
  (length inp <= n)%nat -> (zlen inp) mod 3 = 0 -> base64_encode_fast inp = b64_text n inp.
Proof.
  revert n. induction inp as [|a|a b|a b c inp IH] using chunks3_ind; intros n Hn Hm;
    (destruct n as [|n]; [simpl in *; try lia; done|]); [done|done|done|].
  cbn [base64_encode_fast b64_text]. change (drop 2 (b :: c :: inp)) with inp.
  rewrite (IH n); [done|simpl in Hn; lia|]. revert Hm. unfold zlen. cbn [length].
  replace (Z.of_nat (S (S (S (length inp))))) with (Z.of_nat (length inp) + 1 * 3) by lia.
  by rewrite Z.mod_add by lia.
Qed.
