(* ===== verification/UtilsCrypt.v ===== *)
(** * UtilsCrypt: cipher and integrity specifications, hexadecimal keys
    (lib/utils_crypt.c), and the table of ciphers
    (lib/crypto_backend/cipher_generic.c)

    A C string is a [string] without NUL. What the file uses of sscanf(3) and
    strtoul(3) is defined here; a conversion that fails leaves its argument
    unset. The output buffers hold MAX_CIPHER_LEN bytes. *)

From S2P Require Import Prelude Cstd.
From Stdlib Require Import Ascii Strings.Byte.

Definition MAX_CIPHER_LEN : Z := 32.

(** ** sscanf(3): a conversion of a bounded run of characters *)

Fixpoint span_max (n : nat) (p : ascii -> bool) (s : string) : string * string :=
  match n, s with
  | S n', String c s' =>
      if p c then let '(a, b) := span_max n' p s' in (String c a, b) else (EmptyString, s)
  | _, _ => (EmptyString, s)
  end.

(** A conversion needs at least one character. *)
Definition conv_set (n : nat) (p : ascii -> bool) (s : string) : option (string * string) :=
  match span_max n p s with
  | (EmptyString, _) => None
  | (a, rest) => Some (a, rest)
  end.

Definition not_dash (c : ascii) : bool := negb (Ascii.eqb c "-"%char).
Definition not_space (c : ascii) : bool := negb (isspace c).

(** The two strings converted by "%31[^-]-%31s". *)
Definition scan_dash (s : string) : option string * option string :=
  match conv_set 31 not_dash s with
  | None => (None, None)
  | Some (a, String "-"%char rest) =>
      match conv_set 31 not_space (skip_space rest) with
      | Some (b, _) => (Some a, Some b)
      | None => (Some a, None)
      end
  | Some (a, _) => (Some a, None)
  end.

Definition strchr (s : string) (c : ascii) : option string :=
  (fix go s := match s with
               | EmptyString => None
               | String d s' => if Ascii.eqb d c then Some s else go s'
               end) s.

(** ** Cipher specifications *)

Record name_and_mode := { cipher : string; cipher_mode : string; key_nums : Z }.

(** [nums] is false when the caller passes no pointer for the number of keys. *)
Definition crypt_parse_name_and_mode (s : string) (nums : bool) : Z + name_and_mode :=
  match scan_dash s with
  | (Some c, Some m) =>
      let m := if (m =? "plain")%string then "cbc-plain"%string else m in
      if nums then
        let k := match strchr c ":"%char with
                 | Some (String _ tmp) => atoi tmp
                 | _ => 1
                 end in
        if k =? 0 then inl (- EINVAL)
        else inr {| cipher := c; cipher_mode := m; key_nums := k |}
      else inr {| cipher := c; cipher_mode := m; key_nums := 0 |}
  | _ =>
      if (s =? "null")%string || (s =? "cipher_null")%string then
        inr {| cipher := "cipher_null"; cipher_mode := "ecb"; key_nums := 0 |}
      else match conv_set 31 not_dash s with
           | Some (c, _) =>
               inr {| cipher := c; cipher_mode := "cbc-plain"; key_nums := if nums then 1 else 0 |}
           | None => inl (- EINVAL)
           end
  end.

Fixpoint strstr (needle s : string) : bool :=
  String.prefix needle s ||
  match s with
  | EmptyString => false
  | String _ s' => strstr needle s'
  end.

Definition crypt_is_cipher_null (cipher_spec : option string) : bool :=
  match cipher_spec with
  | None => false
  | Some c => strstr "cipher_null" c || (c =? "null")%string
  end.

(** ** Integrity specifications *)

(** snprintf into a buffer of MAX_CIPHER_LEN bytes: the string stored and the
    length of the untruncated one. *)
Definition snprintf_32 (s : string) : string * Z :=
  (String.substring 0 31 s, Z.of_nat (String.length s)).

Definition crypt_parse_hash_integrity_mode (s : string) : Z + string :=
  match strchr s "("%char, strchr s ")"%char with
  | None, None =>
      let print (t : string) :=
        let '(stored, r) := snprintf_32 t in
        if r =? MAX_CIPHER_LEN then inl (- EINVAL) else inr stored in
      match scan_dash s with
      | (Some mode, Some (String h _ as hash)) =>
          if isdigit h then print (mode +:+ "-" +:+ hash)%string
          else print (mode +:+ "(" +:+ hash +:+ ")")%string
      | (Some mode, _) => print mode
      | (None, _) => inl (- EINVAL)
      end
  | _, _ => inl (- EINVAL)
  end.

Definition crypt_parse_integrity_mode (s : string) : Z + string * Z :=
  if (s =? "aead")%string || (s =? "poly1305")%string || (s =? "none")%string then inr (s, 0)
  else if (s =? "hmac-sha1")%string then inr ("hmac(sha1)"%string, 20)
  else if (s =? "hmac-sha256")%string then inr ("hmac(sha256)"%string, 32)
  else if (s =? "hmac-sha512")%string then inr ("hmac(sha512)"%string, 64)
  else if (s =? "cmac-aes")%string then inr ("cmac(aes)"%string, 16)
  else inl (- EINVAL).

(** ** Hexadecimal strings *)

Definition hex_digit (c : ascii) : option Z :=
  let v := ascii_val c in
  if isdigit c then Some (v - 48)
  else if (97 <=? v) && (v <=? 102) then Some (v - 87)
  else if (65 <=? v) && (v <=? 70) then Some (v - 55)
  else None.

Fixpoint parse_hex (s : string) (acc : Z) : Z * string :=
  match s with
  | EmptyString => (acc, EmptyString)
  | String c s' =>
      match hex_digit c with
      | Some d => parse_hex s' (acc * 16 + d)
      | None => (acc, s)
      end
  end.

(** A prefix "0x" counts when a digit follows it. *)
Definition skip_0x (s : string) : string :=
  match s with
  | String "0"%char (String x (String d r)) =>
      if (Ascii.eqb x "x"%char || Ascii.eqb x "X"%char) && bool_decide (hex_digit d <> None)
      then String d r else s
  | _ => s
  end.

(** strtoul(s, &endp, 16): the value and [endp]. *)
Definition strtoul_16 (s : string) : Z * string :=
  let '(neg, t) :=
    match skip_space s with
    | String c s' => if ascii_val c =? 45 then (true, s')
                     else if ascii_val c =? 43 then (false, s') else (false, String c s')
    | EmptyString => (false, EmptyString)
    end in
  match skip_0x t with
  | String c r =>
      match hex_digit c with
      | Some _ =>
          let '(v, rest) := parse_hex (String c r) 0 in
          (if UINT64_MAX <? v then UINT64_MAX else if neg then u64 (- v) else v, rest)
      | None => (0, s)
      end
  | EmptyString => (0, s)
  end.

(** The loop over pairs of characters; [None] when a pair is refused. *)
Fixpoint hex_pairs (s : string) : option bytes :=
  match s with
  | String a (String b s') =>
      match strtoul_16 (String a (String b EmptyString)) with
      | (v, EmptyString) => (byte_of_Z v ::.) <$> hex_pairs s'
      | _ => None
      end
  | _ => Some []
  end.

(** crypt_safe_alloc refuses a size of 0, malloc does not. *)
Definition crypt_hex_to_bytes (hex : string) (safe_alloc : bool) : Z + bytes :=
  let len := Z.of_nat (String.length hex) in
  if negb (len mod 2 =? 0) then inl (- EINVAL)
  else if safe_alloc && (len / 2 =? 0) then inl (- ENOMEM)
  else match hex_pairs hex with
       | Some bs => inr bs
       | None => inl (- EINVAL)
       end.

(** "%02x" of every byte (lib/libdevmapper.c). *)
Definition hex_char (d : Z) : ascii :=
  ascii_of_N (Z.to_N (if d <? 10 then 48 + d else 87 + d)).

Fixpoint hex_key (key : bytes) : string :=
  match key with
  | [] => EmptyString
  | b :: key' =>
      String (hex_char (byte_val b / 16)) (String (hex_char (byte_val b mod 16)) (hex_key key'))
  end.

(** ** Facts *)

Lemma hex_char_val d : 0 <= d < 16 -> hex_digit (hex_char d) = Some d.
Proof.
  intros H. unfold hex_digit, isdigit, hex_char, ascii_val.
  destruct (Z.ltb_spec d 10); rewrite N_ascii_embedding by lia.
  - rewrite (proj2 (Z.leb_le _ _)), (proj2 (Z.leb_le _ _)) by lia. simpl. f_equal. lia.
  - destruct (Z.leb_spec (Z.of_N (Z.to_N (87 + d))) 57); [lia|]. rewrite andb_false_r.
    rewrite (proj2 (Z.leb_le _ _)), (proj2 (Z.leb_le _ _)) by lia. simpl. f_equal. lia.
Qed.

Lemma hex_digit_plain c d :
  hex_digit c = Some d ->
  isspace c = false /\ (ascii_val c =? 45) = false /\ (ascii_val c =? 43) = false /\
  Ascii.eqb c "x" = false /\ Ascii.eqb c "X" = false.
Proof.
  unfold hex_digit, isdigit, isspace. intros H.
  repeat split; try (repeat case_match; try discriminate; lia).
  all: apply Ascii.eqb_neq; intros ->; discriminate H.
Qed.

(** Two digits are read as one byte, all of them consumed. *)
Lemma strtoul_two_digits a b x y :
  hex_digit a = Some x -> hex_digit b = Some y -> 0 <= x < 16 -> 0 <= y < 16 ->
  strtoul_16 (String a (String b EmptyString)) = (x * 16 + y, EmptyString).
Proof.
  intros Ha Hb Hx Hy. destruct (hex_digit_plain _ _ Ha) as (Hs & Hm & Hp & _).
  unfold strtoul_16. cbn [skip_space]. rewrite Hs, Hm, Hp.
  assert (skip_0x (String a (String b EmptyString)) = String a (String b EmptyString)) as ->.
  { unfold skip_0x. by destruct a as [[] [] [] [] [] [] [] []]. }
  rewrite Ha. cbn [parse_hex]. rewrite Ha, Hb.
  destruct (Z.ltb_spec UINT64_MAX ((0 * 16 + x) * 16 + y)); [unfold UINT64_MAX in *; lia|].
  f_equal; lia.
Qed.

Lemma hex_pairs_key bs : hex_pairs (hex_key bs) = Some bs.
Proof.
  induction bs as [|b bs IH]; [done|]. cbn [hex_key hex_pairs].
  pose proof (byte_val_range b).
  erewrite strtoul_two_digits;
    [|apply hex_char_val|apply hex_char_val| |];
    [|pose proof (Z.div_mod (byte_val b) 16); pose proof (Z.mod_pos_bound (byte_val b) 16); lia ..].
  rewrite IH. cbn. do 2 f_equal.
  rewrite (Z.mul_comm _ 16), <-Z.div_mod by lia. apply byte_of_Z_val.
Qed.

Lemma length_hex_key bs : Z.of_nat (String.length (hex_key bs)) = 2 * zlen bs.
Proof. unfold zlen. induction bs as [|b bs IH]; cbn [hex_key String.length length] in *; lia. Qed.

(** Reading a key or a root hash back from the hexadecimal form the
    library prints returns exactly its bytes, in ordinary and in safe memory
    (where an empty key cannot be stored). *)
Theorem hex_key_roundtrip bs safe :
  safe = false \/ bs <> [] -> crypt_hex_to_bytes (hex_key bs) safe = inr bs.
Proof.
  intros H. unfold crypt_hex_to_bytes. rewrite length_hex_key, hex_pairs_key.
  replace (2 * zlen bs) with (zlen bs * 2) by lia.
  rewrite Z.mod_mul, Z.div_mul by lia. cbn [Z.eqb negb].
  destruct safe; cbn [andb]; [|done].
  destruct (Z.eqb_spec (zlen bs) 0) as [E|]; [|done].
  apply zlen_0_nil in E. destruct H; done.
Qed.

Lemma hex_key_roundtrip_witness :
  crypt_hex_to_bytes "00ff7a"%string true = inr [x00; xff; x7a].
Proof. apply (hex_key_roundtrip [x00; xff; x7a] true). by right. Defined.

(** *** Cipher specifications *)

Fixpoint all_chars (p : ascii -> bool) (s : string) : bool :=
  match s with
  | EmptyString => true
  | String c s' => p c && all_chars p s'
  end.

Definition stops (p : ascii -> bool) (s : string) : Prop :=
  match s with EmptyString => True | String c _ => p c = false end.

Lemma empty_append s : EmptyString +:+ s = s.
Proof. done. Qed.

Lemma string_append c s t : String c s +:+ t = String c (s +:+ t).
Proof. done. Qed.

Lemma span_max_all n p s rest :
  (String.length s <= n)%nat -> all_chars p s = true -> stops p rest ->
  span_max n p (s +:+ rest) = (s, rest).
Proof.
  revert s. induction n as [|n IH]; intros [|c s] Hl Ha Hr;
    rewrite ?empty_append, ?string_append; cbn in *; try lia; [done| |].
  - destruct rest as [|d rest]; [done|]. cbn in Hr |- *. by rewrite Hr.
  - apply andb_true_iff in Ha as [Hc Ha]. rewrite Hc, (IH s) by (done || lia). done.
Qed.

Lemma conv_set_all n p s rest :
  s <> EmptyString -> (String.length s <= n)%nat -> all_chars p s = true -> stops p rest ->
  conv_set n p (s +:+ rest) = Some (s, rest).
Proof.
  intros Hs Hl Ha Hr. unfold conv_set. rewrite span_max_all by done. by destruct s.
Qed.

Lemma append_empty_r s : s +:+ EmptyString = s.
Proof. induction s; rewrite ?empty_append, ?string_append; congruence. Qed.

(** A name and a mode that fit the conversions. *)
Definition spec_fits (c m : string) : Prop :=
  c <> EmptyString /\ m <> EmptyString /\
  (String.length c <= 31)%nat /\ (String.length m <= 31)%nat /\
  all_chars not_dash c = true /\ all_chars not_space m = true.

Lemma skip_space_none s : all_chars not_space s = true -> skip_space s = s.
Proof.
  destruct s as [|c s]; [done|]. cbn. unfold not_space. by destruct (isspace c).
Qed.

Lemma scan_dash_fits c m : spec_fits c m -> scan_dash (c +:+ "-" +:+ m) = (Some c, Some m).
Proof.
  intros (Hc & Hm & Lc & Lm & Dc & Sm). unfold scan_dash. rewrite conv_set_all by done.
  rewrite string_append, empty_append. cbn. rewrite skip_space_none by done. rewrite <-(append_empty_r m) at 1.
  by rewrite conv_set_all.
Qed.

(** The number of keys a name asks for ("aes:64"), 1 unless it says so. *)
Definition spec_keys (c : string) : Z :=
  match strchr c ":" with Some (String _ n) => atoi n | _ => 1 end.

(** A cipher specification [c-m] whose parts fit the buffers is split at
    its first dash, whatever dashes the mode has; "plain" means cbc-plain; a
    number of keys of zero is refused and one left out is 1. *)
Theorem parse_name_and_mode_spec c m nums :
  spec_fits c m ->
  crypt_parse_name_and_mode (c +:+ "-" +:+ m) nums =
    if nums && (spec_keys c =? 0) then inl (- EINVAL)
    else inr {| cipher := c; cipher_mode := if (m =? "plain")%string then "cbc-plain" else m;
                key_nums := if nums then spec_keys c else 0 |}.
Proof.
  intros H. unfold crypt_parse_name_and_mode, spec_keys. rewrite scan_dash_fits by done.
  by destruct nums; cbn [andb]; [destruct (strchr c ":") as [[|? ?]|]|].
Qed.

Lemma parse_name_and_mode_spec_witness :
  crypt_parse_name_and_mode "aes:64-cbc-lmk"%string true =
    inr {| cipher := "aes:64"; cipher_mode := "cbc-lmk"; key_nums := 64 |} /\
  crypt_parse_name_and_mode "aes:0-plain"%string true = inl (- EINVAL).
Proof.
  split.
  - apply (parse_name_and_mode_spec "aes:64" "cbc-lmk" true). by repeat split; cbn; try lia.
  - apply (parse_name_and_mode_spec "aes:0" "plain" true). by repeat split; cbn; try lia.
Defined.

(** A longer name is cut at 31 characters and its mode replaced, and the call
    succeeds. *)
Example long_cipher_name_misread :
  crypt_parse_name_and_mode "capi:authenc(hmac(sha256),xts(aes))-plain64"%string false =
    inr {| cipher := "capi:authenc(hmac(sha256),xts(a"; cipher_mode := "cbc-plain"; key_nums := 0 |}.
Proof. reflexivity. Qed.

(** The check of the printed length refuses 32 but nothing longer: the string
    stored is cut. *)
Example long_integrity_truncated :
  crypt_parse_hash_integrity_mode "phmac-an_algorithm_with_a_long_name"%string =
    inr "phmac(an_algorithm_with_a_long_"%string /\
  crypt_parse_hash_integrity_mode "phmac-an_algorithm_with_a_long_n"%string =
    inr "phmac(an_algorithm_with_a_long_"%string /\
  crypt_parse_hash_integrity_mode "phmac-an_algorithm_with_a_long"%string =
    inr "phmac(an_algorithm_with_a_long)"%string /\
  crypt_parse_hash_integrity_mode "phmac-an_algorithm_with_a_long1"%string = inl (- EINVAL).
Proof. vm_compute. repeat split; reflexivity. Qed.

(** A sign or a space in a pair is accepted by strtoul. *)
Example hex_accepts_signs :
  crypt_hex_to_bytes "-a+1 7"%string false = inr [xf6; x01; x07].
Proof. reflexivity. Qed.

(** * The table of ciphers (lib/crypto_backend/cipher_generic.c) *)

Section cipher_table.
Local Open Scope string_scope.

Record cipher_alg := CipherAlg {
  ca_name : string;
  ca_mode : option string;
  ca_blocksize : Z;
  ca_wrapped_key : bool;
}.

Definition cipher_algs : list cipher_alg := [
  CipherAlg "cipher_null" None 16 false;
  CipherAlg "aes" None 16 false;
  CipherAlg "serpent" None 16 false;
  CipherAlg "twofish" None 16 false;
  CipherAlg "anubis" None 16 false;
  CipherAlg "blowfish" None 8 false;
  CipherAlg "camellia" None 16 false;
  CipherAlg "cast5" None 8 false;
  CipherAlg "cast6" None 16 false;
  CipherAlg "des" None 8 false;
  CipherAlg "des3_ede" None 8 false;
  CipherAlg "khazad" None 8 false;
  CipherAlg "seed" None 16 false;
  CipherAlg "tea" None 8 false;
  CipherAlg "xtea" None 8 false;
  CipherAlg "paes" None 16 true;
  CipherAlg "xchacha12,aes" (Some "adiantum") 32 false;
  CipherAlg "xchacha20,aes" (Some "adiantum") 32 false;
  CipherAlg "sm4" None 16 false ].

Definition _get_alg (name : string) (mode : option string) : option cipher_alg :=
  List.find (fun ca =>
    strcaseeq name (ca_name ca) &&
    match mode, ca_mode ca with Some m, Some p => strcaseprefix p m | _, _ => true end) cipher_algs.

Definition crypt_cipher_ivsize (name : string) (mode : option string) : Z :=
  match _get_alg name mode with
  | None => - EINVAL
  | Some ca =>
      match mode with
      | Some m => if strcaseeq m "ecb" then 0 else ca_blocksize ca
      | None => ca_blocksize ca
      end
  end.

Definition crypt_cipher_wrapped_key (name : string) (mode : option string) : bool :=
  match _get_alg name mode with Some ca => ca_wrapped_key ca | None => false end.
End cipher_table.
