(* ===== verification/Pbkdf2.v ===== *)
(** * Pbkdf2: the generic PBKDF2 (lib/crypto_backend/pbkdf2_generic.c)

    [pkcs5_pbkdf2] follows the code: loops over block and iteration numbers
    that are machine integers, with fuel for the inner one, whose condition
    [u <= c] holds for every [u] when [c] is the largest unsigned int.
    [PBKDF2] is the definition of RFC 2898, section 5.2. *)

From S2P Require Import Prelude CryptBackend.
From Stdlib Require Import Strings.Byte.

Definition MAX_PRF_BLOCK_LEN : Z := 80.
Definition UINT_MAX : Z := UINT32_MAX.

(** What a loop with fuel does: return, fail ([goto out]), or still run. *)
Inductive run (A : Type) := Done (a : A) | Failed | Running.
Arguments Done {A}. Arguments Failed {A}. Arguments Running {A}.

Definition xor_bytes (a b : bytes) : bytes := zip_with byte_xor a b.

(** The big-endian block number, byte by byte. *)
Definition int_be (i : Z) : bytes :=
  [byte_of_Z (Z.shiftr (Z.land i 0xff000000) 24); byte_of_Z (Z.shiftr (Z.land i 0x00ff0000) 16);
   byte_of_Z (Z.shiftr (Z.land i 0x0000ff00) 8); byte_of_Z (Z.land i 0x000000ff)].

Section pbkdf2.
Context `{CH : CryptHash} `{CM : CryptHmac}.

Definition hash_buf (src : bytes) (dst_len : Z) (hash_name : bytes) : option bytes :=
  if crypt_hash_size hash_name <=? 0 then None
  else Some (crypt_hash_final hash_name src dst_len).

(** The iterations of one block from [u], with [U] and [T] as they stand. *)
Fixpoint prf_loop (fuel : nat) (mac : bytes -> option bytes) (S : bytes) (i c hLen : Z)
    (u : Z) (U T : bytes) : run bytes :=
  match fuel with
  | O => Running
  | Datatypes.S fuel' =>
      if u <=? c then
        match mac (if u =? 1 then S ++ int_be i else U) with
        | None => Failed
        | Some out =>
            let U := take (Z.to_nat hLen) out in
            prf_loop fuel' mac S i c hLen (u32 (u + 1)) U (xor_bytes T U)
        end
      else Done T
  end.

(** [n] blocks from the [i]-th of [l]; [r] bytes of the last one. *)
Fixpoint block_loop (fuel : nat) (mac : bytes -> option bytes) (S : bytes) (c hLen l r : Z)
    (n : nat) (i : Z) (DK : bytes) : run bytes :=
  match n with
  | O => Done DK
  | Datatypes.S n' =>
      match prf_loop fuel mac S i c hLen 1 [] (zeros (Z.to_nat hLen)) with
      | Done T =>
          let len := if i =? l then r else hLen in
          block_loop fuel mac S c hLen l r n' (i + 1) (DK ++ take (Z.to_nat len) T)
      | Failed => Failed
      | Running => Running
      end
  end.

(** Code and derived key. *)
Definition pkcs5_pbkdf2 (fuel : nat) (hash P S : bytes) (c dkLen hash_block_size : Z) : run (Z + bytes) :=
  let hLen := u32 (crypt_hmac_size hash) in
  if (hLen =? 0) || (MAX_PRF_BLOCK_LEN <? hLen) then Done (inl (- EINVAL))
  else if c =? 0 then Done (inl (- EINVAL))
  else if dkLen =? 0 then Done (inl (- EINVAL))
  else if 4294967295 <? dkLen then Done (inl (- EINVAL))
  else
    let l := dkLen / hLen in
    let l := if negb (dkLen mod hLen =? 0) then u32 (l + 1) else l in
    let r := u32 (dkLen - u32 (u32 (l - 1) * hLen)) in
    let key :=
      if (0 <? hash_block_size) && (hash_block_size <? zlen P) then hash_buf P hLen hash
      else Some P in
    match key ≫= crypt_hmac hash with
    | None => Done (inl (- EINVAL))
    | Some mac =>
        match block_loop fuel mac S c hLen l r (Z.to_nat l) 1 [] with
        | Done DK => Done (inr DK)
        | Failed => Done (inl (- EINVAL))
        | Running => Running
        end
    end.
End pbkdf2.

(** ** RFC 2898 *)

Section rfc.
Variable PRF : bytes -> bytes.

(** U_1, U_2, ... *)
Definition U_seq (S : bytes) (i : Z) (j : nat) : bytes := Nat.iter j PRF (PRF (S ++ be_encode 4 i)).

(** U_1 xor ... xor U_c *)
Definition F (S : bytes) (i : Z) (c : nat) : bytes :=
  match c with
  | O => []
  | Datatypes.S c' => fold_left (fun T j => xor_bytes T (U_seq S i j)) (seq 1 c') (U_seq S i 0)
  end.

(** The first [dkLen] bytes of T_1 || T_2 || ... *)
Definition PBKDF2 (S : bytes) (c dkLen hLen : Z) : bytes :=
  take (Z.to_nat dkLen)
    (mjoin ((fun i => F S i (Z.to_nat c)) <$> seqZ 1 ((dkLen + hLen - 1) / hLen))).
End rfc.

(** ** The block number *)

Lemma byte_of_Z_u8 a b : u8 a = u8 b -> byte_of_Z a = byte_of_Z b.
Proof. intros H. apply byte_val_inj. by rewrite !byte_val_of_Z. Qed.

Lemma land_shifted_byte i k :
  0 <= k -> Z.shiftr (Z.land i (Z.shiftl 0xff k)) k = Z.shiftr i k mod 2 ^ 8.
Proof.
  intros Hk. rewrite Z.shiftr_land, Z.shiftr_shiftl_l by lia.
  replace (k - k) with 0 by lia. rewrite Z.shiftl_0_r. change 0xff with (Z.ones 8).
  by rewrite Z.land_ones by lia.
Qed.

Lemma int_be_spec i : int_be i = be_encode 4 i.
Proof.
  unfold int_be, be_encode. cbn [le_encode].
  change 0xff000000 with (Z.shiftl 0xff 24). change 0x00ff0000 with (Z.shiftl 0xff 16).
  change 0x0000ff00 with (Z.shiftl 0xff 8).
  rewrite !land_shifted_byte by lia. change 0xff with (Z.ones 8). rewrite Z.land_ones by lia.
  rewrite !Z.shiftr_div_pow2 by lia. rewrite !reverse_cons, reverse_nil. cbn [app].
  repeat apply (f_equal2 cons); [..|done]; apply byte_of_Z_u8; unfold wrap;
    rewrite ?Z.mod_mod, ?Z.div_div by lia; done.
Qed.

(** ** Exclusive or of blocks *)

Lemma zlen_xor_bytes a b : zlen a = zlen b -> zlen (xor_bytes a b) = zlen b.
Proof. unfold zlen, xor_bytes. intros H. rewrite length_zip_with. lia. Qed.

Lemma byte_xor_0 b : byte_xor x00 b = b.
Proof. rewrite byte_xor_comm. apply (byte_val_inj _ b). rewrite byte_val_xor. apply Z.lxor_0_r. Qed.

Lemma xor_bytes_zeros n b : zlen b = n -> xor_bytes (zeros (Z.to_nat n)) b = b.
Proof.
  intros <-. unfold zlen, xor_bytes, zeros. rewrite Nat2Z.id.
  induction b as [|x b IH]; [done|]. cbn. by rewrite IH, byte_xor_0.
Qed.

(** ** The loops compute the definition *)

Section correct.
Context (PRF : bytes -> bytes) (mac : bytes -> option bytes) (hLen : Z).
Context (mac_PRF : forall m, mac m = Some (PRF m)) (PRF_len : forall m, zlen (PRF m) = hLen).
Implicit Types S U T : bytes.

Lemma take_PRF m : take (Z.to_nat hLen) (PRF m) = PRF m.
Proof. apply take_ge. rewrite <-(PRF_len m). unfold zlen. lia. Qed.

Lemma U_seq_step S i j : PRF (U_seq PRF S i j) = U_seq PRF S i (Datatypes.S j).
Proof. unfold U_seq. by rewrite Nat.iter_succ. Qed.

Lemma zlen_U_seq S i j : zlen (U_seq PRF S i j) = hLen.
Proof. unfold U_seq. destruct j; rewrite ?Nat.iter_succ; apply PRF_len. Qed.

Lemma prf_loop_rest S i c n fuel j U T :
  c < UINT_MAX -> 1 <= Z.of_nat j -> Z.of_nat j + Z.of_nat n = c -> (n < fuel)%nat ->
  U = U_seq PRF S i (j - 1) ->
  prf_loop fuel mac S i c hLen (Z.of_nat j + 1) U T =
    Done (fold_left (fun T j => xor_bytes T (U_seq PRF S i j)) (seq j n) T).
Proof.
  intros Hc Hj Hn Hf ->. revert j fuel T Hj Hn Hf.
  induction n as [|n IH]; intros j [|fuel] T Hj Hn Hf; [lia| |lia|]; cbn [prf_loop seq fold_left].
  - rewrite (proj2 (Z.leb_gt _ _)) by lia. done.
  - rewrite (proj2 (Z.leb_le _ _)) by lia. rewrite (proj2 (Z.eqb_neq _ _)) by lia.
    rewrite mac_PRF, take_PRF, U_seq_step.
    replace (Datatypes.S (j - 1)) with j by lia.
    rewrite u32_id by (unfold UINT_MAX, UINT32_MAX in Hc; lia).
    replace (Z.of_nat j + 1 + 1) with (Z.of_nat (Datatypes.S j) + 1) by lia.
    replace (U_seq PRF S i j) with (U_seq PRF S i (Datatypes.S j - 1)) at 1 by (f_equal; lia).
    apply IH; lia.
Qed.

Lemma prf_loop_F S i c fuel :
  0 < c < UINT_MAX -> (Z.to_nat c < fuel)%nat ->
  prf_loop fuel mac S i c hLen 1 [] (zeros (Z.to_nat hLen)) = Done (F PRF S i (Z.to_nat c)).
Proof.
  intros Hc Hf. destruct fuel as [|fuel]; [lia|]. cbn [prf_loop].
  rewrite (proj2 (Z.leb_le _ _)) by lia. rewrite Z.eqb_refl, mac_PRF, take_PRF, int_be_spec.
  rewrite xor_bytes_zeros by apply PRF_len. change (u32 (1 + 1)) with (Z.of_nat 1 + 1).
  rewrite (prf_loop_rest S i c (Z.to_nat c - 1)) by (done || lia).
  unfold F. destruct (Z.to_nat c) as [|c'] eqn:E; [lia|].
  by replace (Datatypes.S c' - 1)%nat with c' by lia.
Qed.

Lemma zlen_F S i c : (0 < c)%nat -> zlen (F PRF S i c) = hLen.
Proof.
  destruct c as [|c]; [lia|]. intros _. cbn [F].
  assert (zlen (U_seq PRF S i 0) = hLen) as H0 by apply zlen_U_seq.
  revert H0. generalize (U_seq PRF S i 0). generalize 1%nat.
  induction c as [|c IH]; intros k T HT; cbn [seq fold_left]; [done|].
  apply IH. rewrite zlen_xor_bytes; rewrite ?zlen_U_seq; lia.
Qed.

Lemma zlen_blocks S c n i :
  (0 < c)%nat ->
  zlen (mjoin ((fun i => F PRF S i c) <$> seqZ i (Z.of_nat n))) = hLen * Z.of_nat n.
Proof.
  intros Hc. revert i. induction n as [|n IH]; intros i.
  - rewrite seqZ_nil by lia. cbn [fmap list_fmap mjoin list_join]. unfold zlen. cbn. lia.
  - rewrite seqZ_cons by lia. replace (Z.pred (Z.of_nat (Datatypes.S n))) with (Z.of_nat n) by lia.
    rewrite fmap_cons. cbn [mjoin list_join].
    rewrite zlen_app, zlen_F by done. change (list_join ?l) with (mjoin l). rewrite IH. lia.
Qed.

Lemma block_loop_spec S c fuel l r n i DK :
  0 < c < UINT_MAX -> (Z.to_nat c < fuel)%nat -> 0 < r <= hLen -> i + Z.of_nat n = l + 1 ->
  block_loop fuel mac S c hLen l r n i DK =
    Done (DK ++ take (Z.to_nat (hLen * (Z.of_nat n - 1) + r))
                  (mjoin ((fun i => F PRF S i (Z.to_nat c)) <$> seqZ i (Z.of_nat n)))).
Proof.
  intros Hc Hf Hr. revert i DK. induction n as [|n IH]; intros i DK Hi; cbn [block_loop].
  - rewrite seqZ_nil by lia. cbn [fmap list_fmap mjoin list_join].
    by rewrite take_nil, app_nil_r.
  - rewrite prf_loop_F by done. rewrite IH by lia.
    rewrite (seqZ_cons i (Z.of_nat (Datatypes.S n))) by lia.
    replace (Z.pred (Z.of_nat (Datatypes.S n))) with (Z.of_nat n) by lia.
    cbn [fmap list_fmap mjoin list_join].
    assert (Hl : zlen (F PRF S i (Z.to_nat c)) = hLen) by (apply zlen_F; lia).
    rewrite <-app_assoc. do 2 f_equal. unfold zlen in Hl. destruct n as [|n].
    + rewrite (proj2 (Z.eqb_eq _ _)) by lia. rewrite (seqZ_nil (Z.succ i)) by lia. cbn [fmap list_fmap mjoin list_join].
      rewrite take_nil, !app_nil_r.
      f_equal. lia.
    + rewrite (proj2 (Z.eqb_neq _ _)) by lia.
      rewrite take_ge by lia. rewrite take_app_ge by nia. f_equal.
      rewrite Z.add_1_r. f_equal. rewrite Nat2Z.inj_succ in *. lia.
Qed.
End correct.

(** Number of blocks and size of the last one. *)
Lemma block_count dkLen hLen l r :
  0 < dkLen < 2 ^ 32 -> 0 < hLen < 2 ^ 32 ->
  l = (if negb (dkLen mod hLen =? 0) then u32 (dkLen / hLen + 1) else dkLen / hLen) ->
  r = u32 (dkLen - u32 (u32 (l - 1) * hLen)) ->
  0 < l /\ 0 < r <= hLen /\ dkLen = hLen * (l - 1) + r /\ l = (dkLen + hLen - 1) / hLen.
Proof.
  intros Hd Hh Hl Hr.
  pose proof (Z.div_mod dkLen hLen ltac:(lia)) as Hdm.
  pose proof (Z.mod_pos_bound dkLen hLen ltac:(lia)) as Hm.
  set (q := dkLen / hLen) in *. set (m := dkLen mod hLen) in *.
  assert (0 <= q < 2 ^ 32 /\ (m <> 0 -> q + 1 < 2 ^ 32)) as [Hq Hq1].
  { split; [nia|]. intros Hm0. destruct (decide (hLen = 1)); [lia|nia]. }
  assert (l = if m =? 0 then q else q + 1) as El.
  { rewrite Hl. destruct (Z.eqb_spec m 0); cbn [negb]; [done|]. apply u32_id. lia. }
  assert (0 < l < 2 ^ 32) as Hlr by (rewrite El; destruct (Z.eqb_spec m 0); nia).
  assert (0 <= (l - 1) * hLen < dkLen) as Hprod
    by (rewrite El; destruct (Z.eqb_spec m 0); nia).
  assert (r = dkLen - (l - 1) * hLen) as Er.
  { rewrite Hr. rewrite (u32_id (l - 1)), (u32_id ((l - 1) * hLen)), u32_id by lia. done. }
  split; [lia|]. split; [rewrite Er, El; destruct (Z.eqb_spec m 0); nia|]. split; [lia|].
  rewrite El. destruct (Z.eqb_spec m 0).
  - apply Z.div_unique with (hLen - 1); nia.
  - apply Z.div_unique with (m - 1); nia.
Qed.

Section pbkdf2_theorems.
Context `{CHL : CryptHashLaws} `{CM : CryptHmac} `{CML : !CryptHmacLaws}.

(** The key that is set is [P], hashed first or not. *)
Lemma pbkdf2_key hash P hbs :
  0 < crypt_hmac_size hash <= MAX_PRF_BLOCK_LEN -> hbs = 0 \/ hbs = hmac_block hash ->
  (if (0 <? hbs) && (hbs <? zlen P) then hash_buf P (u32 (crypt_hmac_size hash)) hash else Some P)
    ≫= crypt_hmac hash = crypt_hmac hash P.
Proof.
  unfold MAX_PRF_BLOCK_LEN. intros Hs Hb. rewrite u32_id by lia.
  destruct (Z.ltb_spec 0 hbs), (Z.ltb_spec hbs (zlen P)); cbn [andb]; try done.
  destruct Hb as [->| ->]; [lia|]. unfold hash_buf.
  rewrite hmac_hash_size by lia. rewrite (proj2 (Z.leb_gt _ _)) by lia.
  cbn [mbind option_bind]. rewrite (hmac_long_key hash P) by done. f_equal.
  unfold crypt_hash_final. apply take_ge.
  pose proof (hash_length hash P) as Hl. rewrite hmac_hash_size in Hl by lia.
  unfold zlen in Hl. lia.
Qed.

(** C38: with a back end that does not fail, the code derives exactly the key
    RFC 2898 defines, of the length asked for, for every password (hashed in
    advance or not), salt, length and iteration count below the largest
    unsigned int; fuel for one more iteration than the count is enough. *)
Theorem pkcs5_pbkdf2_rfc hash P S c dkLen hbs mac PRF fuel :
  0 < crypt_hmac_size hash <= MAX_PRF_BLOCK_LEN ->
  crypt_hmac hash P = Some mac -> (forall m, mac m = Some (PRF m)) ->
  0 < c < UINT_MAX -> 0 < dkLen <= UINT_MAX -> hbs = 0 \/ hbs = hmac_block hash ->
  (Z.to_nat c < fuel)%nat ->
  pkcs5_pbkdf2 fuel hash P S c dkLen hbs =
    Done (inr (PBKDF2 PRF S c dkLen (crypt_hmac_size hash))) /\
  zlen (PBKDF2 PRF S c dkLen (crypt_hmac_size hash)) = dkLen.
Proof.
  intros Hs Hk Hm Hc Hd Hb Hf. pose proof (pbkdf2_key hash P hbs Hs Hb) as Hkey.
  assert (Hl : forall m, zlen (PRF m) = crypt_hmac_size hash).
  { intros m. by apply (hmac_length hash P mac m). }
  unfold pkcs5_pbkdf2, UINT_MAX, UINT32_MAX in *. cbv zeta. rewrite Hkey, Hk.
  set (hLen := crypt_hmac_size hash) in *. unfold MAX_PRF_BLOCK_LEN in *.
  rewrite (u32_id hLen) by lia.
  rewrite (proj2 (Z.eqb_neq hLen 0)), (proj2 (Z.ltb_ge 80 hLen)), (proj2 (Z.eqb_neq c 0)),
    (proj2 (Z.eqb_neq dkLen 0)), (proj2 (Z.ltb_ge 4294967295 dkLen)) by lia. cbn [orb].
  set (l := if negb _ then _ else _). set (r := u32 _).
  destruct (block_count dkLen hLen l r ltac:(lia) ltac:(lia) eq_refl eq_refl) as (H1 & H2 & H3 & H4).
  rewrite (block_loop_spec PRF mac hLen Hm Hl S c fuel l r) by (unfold UINT_MAX, UINT32_MAX; lia).
  rewrite Z2Nat.id by lia. unfold PBKDF2. rewrite <-H4, H3.
  replace (Z.to_nat (hLen * (l - 1) + r)) with (Z.to_nat (hLen * (l - 1) + r)) by done.
  split; [done|]. apply zlen_take. split; [lia|].
  rewrite <-(Z2Nat.id l) at 2 by lia. rewrite (zlen_blocks PRF hLen Hl) by lia. nia.
Qed.

(** with the largest iteration count, which the limits of the library
    accept, the loop over the iterations never ends: its 32-bit counter wraps
    around before it exceeds the count. *)
Theorem pkcs5_pbkdf2_max_diverges hash P S dkLen hbs mac PRF fuel :
  0 < crypt_hmac_size hash <= MAX_PRF_BLOCK_LEN ->
  crypt_hmac hash P = Some mac -> (forall m, mac m = Some (PRF m)) ->
  0 < dkLen <= UINT_MAX -> hbs = 0 \/ hbs = hmac_block hash ->
  pkcs5_pbkdf2 fuel hash P S UINT_MAX dkLen hbs = Running.
Proof.
  intros Hs Hk Hm Hd Hb. pose proof (pbkdf2_key hash P hbs Hs Hb) as Hkey.
  unfold pkcs5_pbkdf2, MAX_PRF_BLOCK_LEN in *. cbv zeta. rewrite Hkey, Hk.
  unfold UINT_MAX, UINT32_MAX in Hd.
  set (hLen := crypt_hmac_size hash) in *. rewrite (u32_id hLen) by lia.
  rewrite (proj2 (Z.eqb_neq hLen 0)), (proj2 (Z.ltb_ge 80 hLen)),
    (proj2 (Z.eqb_neq dkLen 0)), (proj2 (Z.ltb_ge 4294967295 dkLen)) by lia.
  change (UINT_MAX =? 0) with false. cbn [orb].
  set (l := if negb _ then _ else _). set (r := u32 _).
  destruct (block_count dkLen hLen l r ltac:(lia) ltac:(lia) eq_refl eq_refl) as (H1 & _).
  destruct (Z.to_nat l) as [|n] eqn:En; [lia|]. cbn [block_loop].
  assert (forall u U T, in_u 32 u ->
    prf_loop fuel mac S 1 UINT_MAX hLen u U T = Running) as ->; [|done|done].
  induction fuel as [|f IH]; intros u U T Hu; [done|]. cbn [prf_loop].
  rewrite (proj2 (Z.leb_le _ _)) by (unfold UINT_MAX, UINT32_MAX, in_u in *; lia).
  rewrite Hm. apply IH. by apply wrap_range.
Qed.
End pbkdf2_theorems.

#[local] Existing Instances fx_hash fx_hash_laws fx_hmac fx_hmac_laws.

Lemma pkcs5_pbkdf2_rfc_witness :
  pkcs5_pbkdf2 3 fx_alg (bytes_of_string "password") (bytes_of_string "salt") 2 40 64 =
    Done (inr (PBKDF2 (fun m => crypt_hash fx_alg (bytes_of_string "password" ++ m))
                 (bytes_of_string "salt") 2 40 (crypt_hmac_size fx_alg))) /\
  zlen (PBKDF2 (fun m => crypt_hash fx_alg (bytes_of_string "password" ++ m))
          (bytes_of_string "salt") 2 40 (crypt_hmac_size fx_alg)) = 40.
Proof.
  apply (pkcs5_pbkdf2_rfc fx_alg (bytes_of_string "password") (bytes_of_string "salt") 2 40 64
           (fun m => Some (crypt_hash fx_alg (bytes_of_string "password" ++ m)))
           (fun m => crypt_hash fx_alg (bytes_of_string "password" ++ m)) 3).
  - by split.
  - reflexivity.
  - done.
  - by split.
  - by split.
  - by right.
  - cbn. lia.
Defined.

Lemma pkcs5_pbkdf2_max_diverges_witness :
  pkcs5_pbkdf2 1000 fx_alg (bytes_of_string "password") (bytes_of_string "salt") UINT_MAX 32 0
    = Running.
Proof.
  apply (pkcs5_pbkdf2_max_diverges fx_alg (bytes_of_string "password") (bytes_of_string "salt") 32 0
           (fun m => Some (crypt_hash fx_alg (bytes_of_string "password" ++ m)))
           (fun m => crypt_hash fx_alg (bytes_of_string "password" ++ m))).
  - by split.
  - reflexivity.
  - done.
  - by split.
  - by left.
Defined.
