(* ===== verification/CryptPlain.v ===== *)
(** * CryptPlain: keys of plain devices (lib/crypt_plain.c)

    The key is the digest of the passphrase, extended by further rounds that
    hash the passphrase behind more and more letters A. *)

From S2P Require Import Prelude Cstd CryptBackend UtilsCrypt.
From Stdlib Require Import Strings.Byte Ascii.

Definition PLAIN_HASH_LEN_MAX : Z := 256.

(** sscanf(s, "%zd", &size), for values of the type. *)
Definition scan_zd (s : string) : option Z :=
  match parse_number s with
  | Some (neg, v, _) => Some (u64 (if neg then - v else v))
  | None => None
  end.

(** The string up to the first [c], and what follows it. *)
Fixpoint split_chr (s : string) (c : ascii) : string * option string :=
  match s with
  | EmptyString => (EmptyString, None)
  | String d s' =>
      if Ascii.eqb d c then (EmptyString, Some s')
      else let '(a, b) := split_chr s' c in (String d a, b)
  end.

Section plain.
Context `{CH : CryptHash}.

(** The rounds, while bytes are missing; [fuel] of them at most. *)
Fixpoint hash_rounds (fuel : nat) (hash_name passphrase : bytes) (round : nat) (len key_size : Z) : option bytes :=
  match fuel with
  | O => if key_size =? 0 then Some [] else None
  | S fuel' =>
      if key_size =? 0 then Some []
      else
        let len := if key_size <? len then key_size else len in
        let part := crypt_hash_final hash_name (replicate round x41 ++ passphrase) len in
        app part <$> hash_rounds fuel' hash_name passphrase (S round) len (key_size - len)
  end.

(** Code and key; every round writes a byte or more. *)
Definition hash (hash_name : bytes) (key_size : Z) (passphrase : bytes) : Z + bytes :=
  if crypt_hash_size hash_name <=? 0 then inl (- ENOENT)
  else match hash_rounds (Z.to_nat key_size) hash_name passphrase 0 (crypt_hash_size hash_name) key_size with
       | Some key => inr key
       | None => inl 1
       end.

Definition crypt_plain_hash (hash_name : string) (key_size : Z) (passphrase : bytes) : Z + bytes :=
  if PLAIN_HASH_LEN_MAX <=? Z.of_nat (String.length hash_name) then inl (- EINVAL)
  else
    let '(name, s) := split_chr hash_name ":" in
    let size :=
      match s with
      | None => Some key_size
      | Some EmptyString => None
      | Some s => match scan_zd s with
                  | Some n => if key_size <? n then None else Some n
                  | None => None
                  end
      end in
    match size with
    | None => inl (- EINVAL)
    | Some hash_size =>
        let pad_size := key_size - hash_size in
        let r :=
          if (name =? "plain")%string then
            if zlen passphrase <? hash_size then inl (- EINVAL)
            else inr (take (Z.to_nat hash_size) passphrase)
          else hash (bytes_of_string name) hash_size passphrase in
        match r with
        | inl e => inl e
        | inr key => inr (key ++ zeros (Z.to_nat pad_size))
        end
    end.
End plain.

Lemma split_chr_app name c rest :
  strchr name c = None -> split_chr (name +:+ String c rest) c = (name, Some rest).
Proof.
  unfold strchr. induction name as [|d name IH]; intros H.
  - rewrite empty_append. cbn. by rewrite Ascii.eqb_refl.
  - rewrite string_append. cbn [split_chr]. destruct (Ascii.eqb d c); [done|]. by rewrite IH.
Qed.

(** ** The reference: the endless stream of digests, cut *)

Section theorems.
Context `{CHL : CryptHashLaws}.

Definition plain_stream (hash_name passphrase : bytes) (k n : nat) : bytes :=
  mjoin ((fun round => crypt_hash hash_name (replicate round x41 ++ passphrase)) <$> seq k n).

Lemma zlen_plain_stream alg pass k n :
  0 < crypt_hash_size alg -> zlen (plain_stream alg pass k n) = crypt_hash_size alg * Z.of_nat n.
Proof.
  intros Hs. unfold plain_stream. revert k. induction n as [|n IH]; intros k; [unfold zlen; cbn; lia|].
  cbn [seq]. rewrite fmap_cons. cbn [mjoin list_join]. rewrite zlen_app, hash_length by done.
  change (list_join ?l) with (mjoin l). rewrite IH. lia.
Qed.

Lemma hash_rounds_stream alg pass size fuel k :
  0 < crypt_hash_size alg -> 0 <= size <= Z.of_nat fuel ->
  hash_rounds fuel alg pass k (crypt_hash_size alg) size =
    Some (take (Z.to_nat size) (plain_stream alg pass k fuel)).
Proof.
  intros Hs. revert size k. induction fuel as [|fuel IH]; intros size k Hz; cbn [hash_rounds].
  - by assert (size = 0) as -> by lia.
  - destruct (Z.eqb_spec size 0) as [->|Hn]; [done|].
    unfold plain_stream. cbn [seq]. rewrite fmap_cons. cbn [mjoin list_join].
    change (list_join ?l) with (mjoin l). fold (plain_stream alg pass (S k) fuel).
    set (d := crypt_hash alg (replicate k x41 ++ pass)).
    assert (Hd : zlen d = crypt_hash_size alg) by (by apply hash_length).
    unfold crypt_hash_final. fold d.
    destruct (Z.ltb_spec size (crypt_hash_size alg)).
    + replace (size - size) with 0 by lia.
      assert (forall f l, hash_rounds f alg pass (S k) l 0 = Some []) as -> by (by intros []).
      cbn. rewrite app_nil_r. unfold zlen in Hd. by rewrite take_app_le by lia.
    + rewrite IH by lia. cbn. f_equal. unfold zlen in Hd.
      rewrite take_ge by lia. rewrite take_app_ge by lia. f_equal. f_equal. lia.
Qed.

(** A plain-mode key of a known hash is the first bytes of the stream of
    digests of the passphrase, each round with one more letter in front, and
    zeros behind the length asked for; its size is the size of the key. *)
Theorem plain_hash_stream name len key_size passphrase :
  strchr name ":" = None -> name <> "plain"%string ->
  Z.of_nat (String.length (name +:+ ":" +:+ dec_u len)) < PLAIN_HASH_LEN_MAX ->
  0 < crypt_hash_size (bytes_of_string name) -> 0 <= len <= key_size -> key_size < 2 ^ 64 ->
  crypt_plain_hash (name +:+ ":" +:+ dec_u len) key_size passphrase =
    inr (take (Z.to_nat len) (plain_stream (bytes_of_string name) passphrase 0 (Z.to_nat len))
         ++ zeros (Z.to_nat (key_size - len))) /\
  zlen (take (Z.to_nat len) (plain_stream (bytes_of_string name) passphrase 0 (Z.to_nat len))) = len.
Proof.
  intros Hsp Hn Hl Hs Hlen Hk. unfold crypt_plain_hash, PLAIN_HASH_LEN_MAX in *.
  rewrite (proj2 (Z.leb_gt _ _)) by lia.
  rewrite string_append, empty_append, split_chr_app by done.
  assert (Hd : exists c r, dec_u len = String c r).
  { destruct (dec_aux_head 19 len EmptyString) as (c & r & E & _); [lia|]. by exists c, r. }
  destruct Hd as (c & r & Ec). rewrite Ec, <-Ec.
  unfold scan_zd. rewrite parse_number_dec by (change (10 ^ 20) with 100000000000000000000; lia).
  rewrite u64_id by lia. rewrite (proj2 (Z.ltb_ge _ _)) by lia.
  rewrite (proj2 (String.eqb_neq _ _)) by done. unfold hash.
  rewrite (proj2 (Z.leb_gt _ _)) by lia. rewrite hash_rounds_stream by lia.
  split; [done|]. apply zlen_take. rewrite zlen_plain_stream by done. nia.
Qed.
End theorems.

#[local] Existing Instances fx_hash fx_hash_laws.

(** A hash length of 0 is accepted and gives a key of zeros, whatever the
    passphrase. *)
Lemma zero_hash_length passphrase :
  crypt_plain_hash "sha256:0" 32 passphrase = inr (zeros 32).
Proof. reflexivity. Qed.

Lemma plain_hash_stream_witness :
  crypt_plain_hash "sha256:40" 48 [x70] =
    inr (take 40 (plain_stream fx_alg [x70] 0 40) ++ zeros 8) /\
  zlen (take 40 (plain_stream fx_alg [x70] 0 40)) = 40.
Proof.
  apply (plain_hash_stream "sha256" 40 48 [x70]); try done; by vm_compute.
Defined.
