(* ===== verification/LoopAes.v ===== *)
(** * LoopAes: loop-AES key files (lib/loopaes/loopaes.c)

    A key file holds 1, 64 or 65 keys of equal length, each ended by a line end
    or a NUL; each key is hashed. *)

From S2P Require Import Prelude Cstd CryptBackend.
From Stdlib Require Import Strings.Byte.

Local Open Scope string_scope.
Local Open Scope Z_scope.

Definition LOOPAES_KEYS_MAX : Z := 65.

Definition get_hash (key_size : Z) : option string :=
  if key_size =? 16 then Some "sha256"
  else if key_size =? 24 then Some "sha384"
  else if key_size =? 32 then Some "sha512"
  else None.

Definition get_tweak (keys_count : Z) : Z := if keys_count =? 64 then 0x55 else if keys_count =? 65 then 0xF4 else 0.

(** *** Parsing *)

Fixpoint is_infix (s b : bytes) : bool :=
  match b with
  | [] => bool_decide (s = [])
  | _ :: b' => bool_decide (take (length s) b = s) || is_infix s b'
  end.

(** strstr in the first 100 bytes, up to a NUL. *)
Definition keyfile_is_gpg (buffer : bytes) : bool :=
  let index := if zlen buffer <? 100 then zlen buffer - 1 else 100 in
  is_infix (bytes_of_string "BEGIN PGP MESSAGE") (cstr (take (Z.to_nat index) buffer)).

Definition remove_eol (buffer : bytes) : bytes :=
  (fun c => if bool_decide (c = x0a) || bool_decide (c = x0d) then x00 else c) <$> buffer.

(** The bytes before the first NUL, and the rest from it on. *)
Fixpoint key_and_rest (b : bytes) : bytes * bytes :=
  match b with
  | [] => ([], [])
  | c :: b' => if bool_decide (c = x00) then ([], b) else let '(key, rest) := key_and_rest b' in (c :: key, rest)
  end.

Fixpoint skip_nuls (b : bytes) : bytes :=
  match b with
  | [] => []
  | c :: b' => if bool_decide (c = x00) then skip_nuls b' else b
  end.

(** At most [n] keys, and what follows them; [None] when the last is not ended. *)
Fixpoint split_keys (n : nat) (b : bytes) : option (list bytes * bytes) :=
  match n, b with
  | S n, _ :: _ =>
      let '(key, rest) := key_and_rest b in
      match rest with
      | [] => None
      | _ =>
          '(keys, rest) ← split_keys n (skip_nuls rest);
          Some (key :: keys, rest)
      end
  | _, _ => Some ([], b)
  end.

Section loopaes.
Context `{CH : CryptHash}.

(** crypt_hash_final refuses more bytes than the digest has. *)
Definition hash_key (src : bytes) (dst_len : Z) (hash_name : string) : Z + bytes :=
  let alg := bytes_of_string hash_name in
  if crypt_hash_size alg <=? 0 then inl (- EINVAL)
  else if crypt_hash_size alg <? dst_len then inl (- EINVAL)
  else inr (crypt_hash_final alg src dst_len).

(** [key_ptr[0] ^= tweak] *)
Definition tweak_key (tweak : Z) (key : bytes) : bytes :=
  match key with [] => [] | c :: key => byte_of_Z (Z.lxor (byte_val c) tweak) :: key end.

Fixpoint hash_all (tweak : Z) (hash_name : string) (input_keys : list bytes) (key_len_output : Z) : Z + bytes :=
  match input_keys with
  | [] => inr []
  | key :: input_keys =>
      match hash_key key key_len_output hash_name with
      | inl r => inl r
      | inr key =>
          match hash_all tweak hash_name input_keys key_len_output with
          | inl r => inl r
          | inr keys => inr (tweak_key tweak key ++ keys)%list
          end
      end
  end.

(** The keys are of [key_len_input] bytes each. *)
Definition hash_keys (hash_override : option string) (input_keys : list bytes) (key_len_output key_len_input : Z) : Z + bytes :=
  let keys_count := zlen input_keys in
  match (match hash_override with Some h => Some h | None => get_hash key_len_output end) with
  | None => inl (- EINVAL)
  | Some hash_name =>
      if (keys_count =? 0) || (key_len_output =? 0) || (key_len_input =? 0) then inl (- EINVAL)
      else hash_all (get_tweak keys_count) hash_name input_keys key_len_output
  end.

(** Code, or the number of keys and the volume key; the key size of the context
    is an argument. *)
Definition LOOPAES_parse_keyfile (hash : option string) (buffer : bytes) (volume_key_size : Z) : Z + Z * bytes :=
  if zlen buffer =? 0 then inl (- EINVAL)
  else if keyfile_is_gpg buffer then inl (- EINVAL)
  else match split_keys (Z.to_nat LOOPAES_KEYS_MAX) (remove_eol buffer) with
  | None => inl (- EINVAL)
  | Some (keys, rest) =>
      let key_len := zlen (default [] (head keys)) in
      let key_index := zlen keys in
      let key_len := if forallb (fun key => negb (zlen key =? 0) && (zlen key =? key_len)) keys then key_len else 0 in
      if negb (bool_decide (rest = [])) || (key_len =? 0) || (negb (key_index =? 1) && negb (key_index =? 64) && negb (key_index =? 65))
      then inl (- EINVAL)
      else match hash_keys hash keys volume_key_size key_len with
      | inl r => inl r
      | inr vk => inr (key_index, vk)
      end
  end.
End loopaes.
