(* ===== verification/CryptStorage.v ===== *)
(** * CryptStorage: sector encryption (lib/crypto_backend/crypto_storage.c)

    A [crypt_storage] encrypts a buffer of whole sectors, each with an
    initialisation vector derived from its number. The cipher itself is the
    interface [CryptCipher]; an operation of it that fails returns a non-zero
    code ([inl]). The buffer of the vector is rewritten in full for every
    sector, so it is a value here. *)

From S2P Require Import Prelude Cstd CryptBackend UtilsCrypt.
From Stdlib Require Import Strings.Byte Ascii.

Definition SECTOR_SHIFT : Z := 9.

(** ** The cipher interface *)

Record crypt_cipher := {
  cipher_encrypt : bytes -> bytes -> Z + bytes;  (** vector, data *)
  cipher_decrypt : bytes -> bytes -> Z + bytes;
  cipher_kernel_only : bool;
}.

Class CryptCipher := {
  crypt_cipher_init : string -> string -> bytes -> Z + crypt_cipher;
}.

(** A block cipher mode keeps the size and is undone by decryption with the
    same vector; a failure has a code. *)
Record cipher_ok (c : crypt_cipher) : Prop := {
  encrypt_inverse : forall iv d e, cipher_encrypt c iv d = inr e ->
    zlen e = zlen d /\ cipher_decrypt c iv e = inr d;
  decrypt_size : forall iv d e, cipher_decrypt c iv d = inr e -> zlen e = zlen d;
  encrypt_error : forall iv d, cipher_encrypt c iv d <> inl 0;
  decrypt_error : forall iv d, cipher_decrypt c iv d <> inl 0;
}.

Class CryptCipherLaws `{CC : CryptCipher} : Prop :=
  cipher_init_ok : forall name mode key c, crypt_cipher_init name mode key = inr c -> cipher_ok c.

(** ** Initialisation vectors *)

Fixpoint int_log2_loop (fuel : nat) (x r : Z) : Z :=
  match fuel with
  | O => r
  | S fuel' => if 0 <? x then int_log2_loop fuel' (Z.shiftr x 1) (r + 1) else r
  end.

(** An unsigned int has 32 bits. *)
Definition int_log2 (x : Z) : Z := int_log2_loop 32 (Z.shiftr x 1) 0.

Inductive iv_type :=
| IV_NONE | IV_NULL | IV_PLAIN | IV_PLAIN64 | IV_ESSIV | IV_BENBI | IV_PLAIN64BE | IV_EBOIV.

Record crypt_sector_iv := {
  type : iv_type;
  iv_size : Z;
  iv_cipher : option crypt_cipher;
  shift : Z;
}.

Section storage.
Context `{CH : CryptHash} `{CC : CryptCipher}.

Definition crypt_sector_iv_init (cipher_name mode_name : string) (iv_name : option string)
    (key : bytes) (sector_size : Z) : Z + crypt_sector_iv :=
  let iv_size := crypt_cipher_ivsize cipher_name (Some mode_name) in
  let ok t c s := inr {| type := t; iv_size := iv_size; iv_cipher := c; shift := s |} in
  if (iv_size <? 0) || (negb (mode_name =? "ecb")%string && (iv_size <? 8)) then inl (- ENOENT)
  else if (cipher_name =? "cipher_null")%string || (mode_name =? "ecb")%string then
    match iv_name with
    | Some _ => inl (- EINVAL)
    | None => inr {| type := IV_NONE; iv_size := 0; iv_cipher := None; shift := 0 |}
    end
  else match iv_name with
  | None => inl (- EINVAL)
  | Some iv_name =>
      if strcaseeq iv_name "null" then ok IV_NULL None 0
      else if strcaseeq iv_name "plain64" then ok IV_PLAIN64 None 0
      else if strcaseeq iv_name "plain64be" then ok IV_PLAIN64BE None 0
      else if strcaseeq iv_name "plain" then ok IV_PLAIN None 0
      else if strcaseprefix "essiv:" iv_name then
        let hash_name := bytes_of_string (String.substring 6 (String.length iv_name) iv_name) in
        let hash_size := crypt_hash_size hash_name in
        if hash_size <? 0 then inl (- ENOENT)
        else if 256 <? hash_size then inl (- EINVAL)
        else if hash_size =? 0 then inl (- EINVAL)
        else
          let tmp := crypt_hash_final hash_name key hash_size in
          match crypt_cipher_init cipher_name "ecb" tmp with
          | inl r => inl r
          | inr c => ok IV_ESSIV (Some c) 0
          end
      else if strcaseprefix "benbi" iv_name then
        let log := int_log2 iv_size in
        if SECTOR_SHIFT <? log then inl (- EINVAL) else ok IV_BENBI None (SECTOR_SHIFT - log)
      else if strcaseprefix "eboiv" iv_name then
        match crypt_cipher_init cipher_name "ecb" key with
        | inl r => inl r
        | inr c => ok IV_EBOIV (Some c) (int_log2 sector_size)
        end
      else inl (- ENOENT)
  end.

Definition crypt_sector_iv_generate (ctx : crypt_sector_iv) (sector : Z) : Z + bytes :=
  let zero := zeros (Z.to_nat (iv_size ctx)) in
  let encrypted iv :=
    match iv_cipher ctx with
    | Some c => cipher_encrypt c [] iv
    | None => inl (- EINVAL)
    end in
  match type ctx with
  | IV_NONE => inr []
  | IV_NULL => inr zero
  | IV_PLAIN => inr (splice 0 (le_encode 4 (Z.land sector 0xffffffff)) zero)
  | IV_PLAIN64 => inr (splice 0 (le_encode 8 sector) zero)
  | IV_PLAIN64BE => inr (splice (iv_size ctx - 8) (be_encode 8 sector) zero)
  | IV_ESSIV => encrypted (splice 0 (le_encode 8 sector) zero)
  | IV_BENBI =>
      let val := be_encode 8 (u64 (Z.shiftl sector (shift ctx)) +64 1) in
      inr (splice (iv_size ctx - 8) val zero)
  | IV_EBOIV => encrypted (splice 0 (le_encode 8 (u64 (Z.shiftl sector (shift ctx)))) zero)
  end.

(** ** Storage contexts *)

Record crypt_storage := {
  sector_size : Z;
  iv_shift : Z;
  s_cipher : crypt_cipher;
  cipher_iv : crypt_sector_iv;
}.

Fixpoint split_first_dash (s : string) : string * option string :=
  match s with
  | EmptyString => (EmptyString, None)
  | String c s' =>
      if not_dash c then let '(a, b) := split_first_dash s' in (String c a, b)
      else (EmptyString, Some s')
  end.

Definition crypt_storage_init (sector_size : Z) (cipher cipher_mode : string) (key : bytes)
    (large_iv : bool) : Z + crypt_storage :=
  if (sector_size <? Z.shiftl 1 SECTOR_SHIFT) || (Z.shiftl 1 (SECTOR_SHIFT + 3) <? sector_size)
     || negb (Z.land sector_size (sector_size - 1) =? 0)
  then inl (- EINVAL)
  else
    let '(mode_name, cipher_iv) := split_first_dash (String.substring 0 63 cipher_mode) in
    match crypt_cipher_init cipher mode_name key with
    | inl r => inl r
    | inr c =>
        match crypt_sector_iv_init cipher mode_name cipher_iv key sector_size with
        | inl r => inl r
        | inr iv =>
            inr {| sector_size := sector_size;
                   iv_shift := if large_iv then int_log2 sector_size - SECTOR_SHIFT else 0;
                   s_cipher := c; cipher_iv := iv |}
        end
    end.

(** [n] sectors from byte [i] of the buffer; the loop stops at an error and
    leaves the sectors before it converted. *)
Fixpoint storage_loop (n : nat) (op : bytes -> bytes -> Z + bytes) (ctx : crypt_storage)
    (iv_offset i : Z) (buffer : bytes) : Z * bytes :=
  match n with
  | O => (0, buffer)
  | S n' =>
      match crypt_sector_iv_generate (cipher_iv ctx)
              (Z.shiftr (iv_offset +64 Z.shiftr i SECTOR_SHIFT) (iv_shift ctx)) with
      | inl r => (r, buffer)
      | inr iv =>
          match op iv (slice i (sector_size ctx) buffer) with
          | inl r => (r, buffer)
          | inr d => storage_loop n' op ctx iv_offset (i + sector_size ctx) (splice i d buffer)
          end
      end
  end.

Definition storage_convert (op : bytes -> bytes -> Z + bytes) (ctx : crypt_storage)
    (iv_offset length : Z) (buffer : bytes) : Z * bytes :=
  if negb (Z.land length (sector_size ctx - 1) =? 0) then (- EINVAL, buffer)
  else if negb (Z.land iv_offset (Z.shiftr (sector_size ctx) SECTOR_SHIFT - 1) =? 0)
  then (- EINVAL, buffer)
  else storage_loop (Z.to_nat (length / sector_size ctx)) op ctx iv_offset 0 buffer.

Definition crypt_storage_decrypt (ctx : crypt_storage) :=
  storage_convert (cipher_decrypt (s_cipher ctx)) ctx.
Definition crypt_storage_encrypt (ctx : crypt_storage) :=
  storage_convert (cipher_encrypt (s_cipher ctx)) ctx.

Definition crypt_storage_kernel_only (ctx : crypt_storage) : bool :=
  cipher_kernel_only (s_cipher ctx).
End storage.

(** ** Sizes *)

Lemma int_log2_loop_spec fuel x r :
  0 <= x < 2 ^ Z.of_nat fuel -> int_log2_loop fuel x r = r + (if x =? 0 then 0 else Z.log2 x + 1).
Proof.
  revert x r. induction fuel as [|fuel IH]; intros x r Hx; cbn [int_log2_loop].
  - assert (x = 0) as -> by (cbn in Hx; lia). cbn. lia.
  - rewrite Nat2Z.inj_succ, Z.pow_succ_r in Hx by lia.
    destruct (Z.ltb_spec 0 x); [|by assert (x = 0) as -> by lia; cbn; lia].
    rewrite (proj2 (Z.eqb_neq x 0)) by lia. rewrite Z.shiftr_div_pow2 by lia.
    change (2 ^ 1) with 2. pose proof (Z.div_mod x 2 ltac:(lia)). pose proof (Z.mod_pos_bound x 2).
    rewrite IH by lia. destruct (Z.eqb_spec (x / 2) 0).
    + assert (x = 1) as -> by lia. cbn. lia.
    + assert (Z.log2 x = Z.log2 (x / 2) + 1); [|lia].
      destruct (decide (x mod 2 = 0)).
      * replace x with (2 * (x / 2)) at 1 by lia. rewrite Z.log2_double by lia. lia.
      * replace x with (2 * (x / 2) + 1) at 1 by lia. rewrite Z.log2_succ_double by lia. lia.
Qed.

Lemma int_log2_spec x : 0 < x < 2 ^ 32 -> int_log2 x = Z.log2 x.
Proof.
  intros Hx. unfold int_log2. rewrite Z.shiftr_div_pow2 by lia. change (2 ^ 1) with 2.
  pose proof (Z.mod_pos_bound x 2). pose proof (Z.div_mod x 2).
  rewrite int_log2_loop_spec by (change (Z.of_nat 32) with 32; lia).
  destruct (Z.eqb_spec (x / 2) 0).
  - by assert (x = 1) as -> by lia.
  - destruct (decide (x mod 2 = 0)).
    + replace x with (2 * (x / 2)) at 2 by lia. rewrite Z.log2_double by lia. lia.
    + replace x with (2 * (x / 2) + 1) at 2 by lia. rewrite Z.log2_succ_double by lia. lia.
Qed.

(** A power of two, as the code tests for it. *)
Lemma land_pred_pow2 x k : 0 <= k -> Z.land x (2 ^ k - 1) = x mod 2 ^ k.
Proof. intros. rewrite <-Z.land_ones by lia. f_equal. rewrite Z.ones_equiv. lia. Qed.

(** What an initialised context guarantees. *)
Definition storage_ok (s : crypt_storage) : Prop :=
  cipher_ok (s_cipher s) /\
  (forall c, iv_cipher (cipher_iv s) = Some c -> cipher_ok c) /\
  (sector_size s = 512 \/ sector_size s = 1024 \/ sector_size s = 2048 \/ sector_size s = 4096).

Section init.
Context `{CH : CryptHash} `{CCL : CryptCipherLaws}.

Lemma sector_iv_init_ok cipher mode iv key ss i c :
  crypt_sector_iv_init cipher mode iv key ss = inr i -> iv_cipher i = Some c -> cipher_ok c.
Proof.
  unfold crypt_sector_iv_init. intros H Hc. cbv zeta in H.
  repeat (case_match; try discriminate H);
    injection H as <-; try discriminate Hc; cbn in Hc; injection Hc as <-;
    eapply cipher_init_ok; eassumption.
Qed.

Lemma storage_init_ok ss cipher mode key large s :
  0 <= ss < 2 ^ 63 -> crypt_storage_init ss cipher mode key large = inr s ->
  storage_ok s /\ sector_size s = ss /\
  iv_shift s = (if large then Z.log2 ss - 9 else 0).
Proof.
  unfold crypt_storage_init. intros Hss.
  change (Z.shiftl 1 SECTOR_SHIFT) with 512. change (Z.shiftl 1 (SECTOR_SHIFT + 3)) with 4096.
  destruct (Z.ltb_spec ss 512); [done|]. destruct (Z.ltb_spec 4096 ss); [done|]. cbn [orb].
  destruct (Z.eqb_spec (Z.land ss (ss - 1)) 0) as [Hp|]; [|done]. cbn [negb].
  destruct (split_first_dash _) as [m iv]. destruct (crypt_cipher_init cipher m key) as [r|c] eqn:Ec; [done|].
  destruct (crypt_sector_iv_init _ _ _ _ _) as [r|i] eqn:Ei; [done|]. intros [= <-].
  split; [split; [|split]|split; [done|]]; cbn [sector_size iv_shift s_cipher cipher_iv].
  - by eapply cipher_init_ok.
  - intros c'. by eapply sector_iv_init_ok.
  - assert (ss = 2 ^ Z.log2 ss) as Hpow.
    { pose proof (Z.log2_spec ss ltac:(lia)) as [Hl Hu].
      destruct (decide (ss = 2 ^ Z.log2 ss)) as [|Hn]; [done|exfalso].
      assert (Z.testbit (Z.land ss (ss - 1)) (Z.log2 ss) = true) as Hb; [|by rewrite Hp, Z.bits_0 in Hb].
      rewrite Z.land_spec, Z.bit_log2 by lia. cbn.
      assert (Z.log2 (ss - 1) = Z.log2 ss) as <-.
      { apply Z.log2_unique; [apply Z.log2_nonneg|lia]. }
      apply Z.bit_log2. lia. }
    assert (9 <= Z.log2 ss <= 12) as Hr.
    { split; [apply (Z.log2_le_mono 512); lia|apply (Z.log2_le_mono ss 4096); lia]. }
    assert (Z.log2 ss = 9 \/ Z.log2 ss = 10 \/ Z.log2 ss = 11 \/ Z.log2 ss = 12) as Hc by lia.
    destruct Hc as [E|[E|[E|E]]]; rewrite E in Hpow; rewrite Hpow; cbn; lia.
  - destruct large; [|done]. by rewrite int_log2_spec by lia.
Qed.
End init.

(** ** The loop *)

Section loop.
Context `{CH : CryptHash} `{CC : CryptCipher}.
Implicit Types op : bytes -> bytes -> Z + bytes.

Lemma iv_generate_error s sec :
  storage_ok s -> crypt_sector_iv_generate (cipher_iv s) sec <> inl 0.
Proof.
  intros (_ & Hi & _). unfold crypt_sector_iv_generate. cbv zeta.
  destruct (type (cipher_iv s)); try done;
    (destruct (iv_cipher (cipher_iv s)) as [c|]; [|done]; by apply encrypt_error, Hi).
Qed.

Definition keeps_size op : Prop := forall iv d e, op iv d = inr e -> zlen e = zlen d.

(** The sectors one after the other, without the buffer around them. *)
Fixpoint storage_map (n : nat) op (s : crypt_storage) (iv_offset i : Z) (data : bytes) : option bytes :=
  match n with
  | O => Some []
  | S n' =>
      match crypt_sector_iv_generate (cipher_iv s)
              (Z.shiftr (iv_offset +64 Z.shiftr i SECTOR_SHIFT) (iv_shift s)) with
      | inl _ => None
      | inr iv =>
          match op iv (slice 0 (sector_size s) data) with
          | inl _ => None
          | inr d => app d <$> storage_map n' op s iv_offset (i + sector_size s)
                                 (drop (Z.to_nat (sector_size s)) data)
          end
      end
  end.

Lemma zlen_storage_map n op s ivo i data out :
  keeps_size op -> 0 < sector_size s -> zlen data = Z.of_nat n * sector_size s ->
  storage_map n op s ivo i data = Some out -> zlen out = zlen data.
Proof.
  intros Hop Hs. revert i data out. induction n as [|n IH]; intros i data out Hz; cbn [storage_map].
  - intros [= <-]. rewrite Hz. unfold zlen. cbn. lia.
  - destruct (crypt_sector_iv_generate _ _) as [|iv]; [done|].
    destruct (op iv _) as [|d] eqn:Ed; [done|]. apply Hop in Ed.
    rewrite zlen_slice in Ed by lia. destruct (storage_map n op _ _ _ _) as [o|] eqn:Eo; [|done].
    intros [= <-]. apply IH in Eo; [|unfold zlen in *; rewrite length_drop; nia].
    rewrite zlen_app, Ed, Eo. unfold zlen in *. rewrite length_drop. nia.
Qed.

(** The loop either converts all sectors or stops with the code of an error. *)
Lemma storage_loop_map n op s ivo i buffer :
  keeps_size op -> 0 < sector_size s -> 0 <= i -> i + Z.of_nat n * sector_size s <= zlen buffer ->
  match storage_map n op s ivo i (slice i (Z.of_nat n * sector_size s) buffer) with
  | Some out => storage_loop n op s ivo i buffer = (0, splice i out buffer)
  | None => exists r buffer' iv sec,
      storage_loop n op s ivo i buffer = (r, buffer') /\ zlen buffer' = zlen buffer /\
      (crypt_sector_iv_generate (cipher_iv s) sec = inl r \/ exists d, op iv d = inl r)
  end.
Proof.
  intros Hop Hs. revert i buffer. induction n as [|n IH]; intros i buffer Hi Hz;
    cbn [storage_map storage_loop]; [by rewrite splice_nil|].
  rewrite slice_slice by nia. rewrite Z.add_0_r.
  set (sec := Z.shiftr _ (iv_shift s)).
  destruct (crypt_sector_iv_generate (cipher_iv s) sec) as [r|iv] eqn:Eiv.
  { exists r, buffer, [], sec. split; [done|]. split; [done|]. by left. }
  destruct (op iv _) as [r|d] eqn:Ed.
  { exists r, buffer, iv, sec. split; [done|]. split; [done|]. right. by eexists. }
  pose proof (Hop _ _ _ Ed) as Hd. rewrite zlen_slice in Hd by lia.
  assert (Hzs : zlen (splice i d buffer) = zlen buffer) by (apply zlen_splice; nia).
  specialize (IH (i + sector_size s) (splice i d buffer) ltac:(lia) ltac:(rewrite Hzs; nia)).
  assert (slice (i + sector_size s) (Z.of_nat n * sector_size s) (splice i d buffer) =
    drop (Z.to_nat (sector_size s)) (slice i (Z.of_nat (S n) * sector_size s) buffer)) as E.
  { rewrite slice_splice_disj by nia. rewrite slice_drop by nia. f_equal. lia. }
  rewrite E in IH. destruct (storage_map n op _ _ _ _) as [o|] eqn:Eo; cbn [fmap option_fmap option_map].
  - rewrite IH. f_equal. rewrite <-Hd. apply zlen_storage_map in Eo; [|done|done|].
    + apply splice_app; [lia|]. rewrite Eo. unfold zlen in *. rewrite length_drop.
      assert (Z.of_nat (length (slice i (Z.of_nat (S n) * sector_size s) buffer)) =
        Z.of_nat (S n) * sector_size s) by (apply zlen_slice; unfold zlen; nia). nia.
    + rewrite slice_drop by nia. rewrite zlen_slice by nia. lia.
  - destruct IH as (r & b' & iv' & sec' & E1 & E2 & E3). exists r, b', iv', sec'.
    split; [done|]. split; [congruence|done].
Qed.

(** A conversion that succeeds is the map over the sectors of the first
    [len] bytes. *)
Lemma storage_convert_map op s ivo len buffer buffer' :
  storage_ok s -> keeps_size op -> (forall iv d, op iv d <> inl 0) -> 0 <= len <= zlen buffer ->
  (exists n out, len = Z.of_nat n * sector_size s /\
     Z.land ivo (Z.shiftr (sector_size s) SECTOR_SHIFT - 1) = 0 /\
     storage_map n op s ivo 0 (slice 0 len buffer) = Some out /\ buffer' = splice 0 out buffer) <->
  storage_convert op s ivo len buffer = (0, buffer').
Proof.
  intros Hok Hop Her Hl. destruct (Hok) as (_ & _ & Hss). assert (0 < sector_size s) as Hs by lia.
  assert (Hmod : Z.land len (sector_size s - 1) = len mod sector_size s).
  { destruct Hss as [E|[E|[E|E]]]; rewrite E;
      [apply (land_pred_pow2 len 9)|apply (land_pred_pow2 len 10)
      |apply (land_pred_pow2 len 11)|apply (land_pred_pow2 len 12)]; lia. }
  assert (Hdiv : len mod sector_size s = 0 -> len = Z.of_nat (Z.to_nat (len / sector_size s)) * sector_size s).
  { intros E. pose proof (Z.div_mod len (sector_size s)). pose proof (Z.div_pos len (sector_size s)). nia. }
  unfold storage_convert. rewrite Hmod.
  destruct (Z.eqb_spec (len mod sector_size s) 0) as [Em|Em]; cbn [negb].
  2: { split; [|done]. intros (n & out & -> & _). by rewrite Z.mod_mul in Em by lia. }
  destruct (Z.eqb_spec (Z.land ivo (Z.shiftr (sector_size s) SECTOR_SHIFT - 1)) 0) as [Ei|Ei]; cbn [negb].
  2: { split; [|done]. by intros (n & out & _ & ? & _). }
  pose proof (storage_loop_map (Z.to_nat (len / sector_size s)) op s ivo 0 buffer Hop Hs ltac:(lia)) as H.
  rewrite <-(Hdiv Em) in H. specialize (H ltac:(lia)).
  destruct (storage_map (Z.to_nat (len / sector_size s)) _ _ _ _ _) as [o|] eqn:Eo.
  - rewrite H. split; [|intros [= <-]; exists (Z.to_nat (len / sector_size s)), o; auto].
    intros (n & out & En & _ & Hm & ->). assert (n = Z.to_nat (len / sector_size s)) as ->.
    { rewrite En, Z.div_mul by lia. lia. }
    congruence.
  - destruct H as (r & b & iv & sec & -> & _ & Hr). split.
    + intros (n & out & En & _ & Hm & _). assert (n = Z.to_nat (len / sector_size s)) as ->.
      { rewrite En, Z.div_mul by lia. lia. }
      congruence.
    + intros [= -> ->]. destruct Hr as [Hr|[d Hr]]; [by apply iv_generate_error in Hr|by apply Her in Hr].
Qed.

Lemma storage_map_inverse n s ivo i data out :
  cipher_ok (s_cipher s) -> 0 < sector_size s -> zlen data = Z.of_nat n * sector_size s ->
  storage_map n (cipher_encrypt (s_cipher s)) s ivo i data = Some out ->
  storage_map n (cipher_decrypt (s_cipher s)) s ivo i out = Some data.
Proof.
  intros Hc Hs. revert i data out. induction n as [|n IH]; intros i data out Hz; cbn [storage_map].
  - intros [= <-]. f_equal. symmetry. apply zlen_0_nil. lia.
  - destruct (crypt_sector_iv_generate _ _) as [|iv]; [done|].
    destruct (cipher_encrypt _ iv _) as [|d] eqn:Ed; [done|]. apply (encrypt_inverse _ Hc) in Ed as [Hzd Hdec].
    rewrite zlen_slice in Hzd by nia.
    destruct (storage_map n _ _ _ _ _) as [o|] eqn:Eo; [|done]. intros [= <-].
    assert (slice 0 (sector_size s) (d ++ o) = d) as ->.
    { rewrite slice_app_l by lia. rewrite <-Hzd. apply slice_all. }
    rewrite Hdec. apply IH in Eo; [|unfold zlen in *; rewrite length_drop; nia].
    assert (drop (Z.to_nat (sector_size s)) (d ++ o) = o) as ->.
    { rewrite <-Hzd. unfold zlen. rewrite Nat2Z.id. apply drop_app_length. }
    rewrite Eo. cbn. f_equal. unfold slice. rewrite drop_0. apply take_drop.
Qed.

Lemma storage_map_app a b op s ivo i x y :
  keeps_size op -> 0 < sector_size s -> zlen x = Z.of_nat a * sector_size s ->
  storage_map (a + b) op s ivo i (x ++ y) =
    u ← storage_map a op s ivo i x;
    v ← storage_map b op s ivo (i + Z.of_nat a * sector_size s) y;
    Some (u ++ v).
Proof.
  intros Hop Hs. revert i x. induction a as [|a IH]; intros i x Hz; cbn [Nat.add storage_map].
  - assert (x = []) as -> by (apply zlen_0_nil; lia). cbn.
    rewrite Z.add_0_r. by destruct (storage_map b _ _ _ _ _).
  - rewrite slice_app_l by lia. destruct (crypt_sector_iv_generate _ _) as [|iv]; [done|].
    destruct (op iv _) as [|d] eqn:Ed; [done|].
    assert (drop (Z.to_nat (sector_size s)) (x ++ y) = drop (Z.to_nat (sector_size s)) x ++ y) as ->.
    { apply drop_app_le. unfold zlen in Hz. nia. }
    rewrite IH by (unfold zlen in *; rewrite length_drop; nia).
    replace (i + Z.of_nat (S a) * sector_size s) with (i + sector_size s + Z.of_nat a * sector_size s) by lia.
    destruct (storage_map a _ _ _ _ _) as [u|]; cbn; [|done].
    destruct (storage_map b _ _ _ _ _) as [v|]; cbn; [|done]. by rewrite app_assoc.
Qed.
End loop.

(** ** Theorems *)

(** Contexts whose operations do not fail. *)
Definition storage_total (s : crypt_storage) : Prop :=
  (forall sec, exists iv, crypt_sector_iv_generate (cipher_iv s) sec = inr iv) /\
  (forall iv d, exists e, cipher_encrypt (s_cipher s) iv d = inr e).

Lemma storage_map_total n s ivo i data :
  storage_total s -> is_Some (storage_map n (cipher_encrypt (s_cipher s)) s ivo i data).
Proof.
  intros [Hi He]. revert i data. induction n as [|n IH]; intros i data; cbn [storage_map]; [done|].
  destruct (Hi (Z.shiftr (ivo +64 Z.shiftr i SECTOR_SHIFT) (iv_shift s))) as [iv ->].
  destruct (He iv (slice 0 (sector_size s) data)) as [e ->].
  destruct (IH (i + sector_size s) (drop (Z.to_nat (sector_size s)) data)) as [x ->]. by eexists.
Qed.

Section theorems.
Context `{CH : CryptHash} `{CCL : CryptCipherLaws}.

Lemma encrypt_keeps_size c : cipher_ok c -> keeps_size (cipher_encrypt c).
Proof. intros Hc iv d e H. by apply (encrypt_inverse _ Hc) in H as [? _]. Qed.

Lemma storage_decrypt_encrypt s ivo len buffer buffer' :
  storage_ok s -> 0 <= len <= zlen buffer ->
  crypt_storage_encrypt s ivo len buffer = (0, buffer') ->
  crypt_storage_decrypt s ivo len buffer' = (0, buffer) /\ zlen buffer' = zlen buffer /\
  drop (Z.to_nat len) buffer' = drop (Z.to_nat len) buffer.
Proof.
  intros Hok Hl He. pose proof Hok as (Hc & _ & Hss).
  apply storage_convert_map in He as (n & out & -> & Hiv & Hm & ->);
    [|done|by apply encrypt_keeps_size|by apply encrypt_error|done].
  set (len := Z.of_nat n * sector_size s) in *.
  assert (Hzd : zlen (slice 0 len buffer) = len) by (apply zlen_slice; lia).
  assert (Hzo : zlen out = len).
  { apply zlen_storage_map in Hm; [congruence|by apply encrypt_keeps_size|lia|done]. }
  assert (Hzb : zlen (splice 0 out buffer) = zlen buffer) by (apply zlen_splice; lia).
  split; [|split; [done|]].
  - apply storage_convert_map; [done|exact (decrypt_size _ Hc)|by apply decrypt_error|lia|].
    exists n, (slice 0 len buffer). split; [done|]. split; [done|]. split.
    + assert (slice 0 len (splice 0 out buffer) = out) as ->
        by (rewrite <-Hzo; apply slice_splice_same; lia).
      by apply storage_map_inverse in Hm; [|done|lia|].
    + rewrite splice_splice_same by lia. by rewrite splice_slice_id by lia.
  - unfold splice. change (Z.to_nat 0) with O. rewrite take_0. cbn [app Nat.add].
    unfold zlen in *. by rewrite drop_app_length' by lia; f_equal; lia.
Qed.

(** Whole sectors of a context that does not fail are encrypted. *)
Lemma storage_encrypt_total s len buffer :
  storage_ok s -> storage_total s -> 0 <= len <= zlen buffer -> (sector_size s | len) ->
  exists buffer', crypt_storage_encrypt s 0 len buffer = (0, buffer').
Proof.
  intros Hok Ht Hl [q Hq]. pose proof Hok as (Hc & _ & Hss).
  destruct (storage_map_total (Z.to_nat q) s 0 0 (slice 0 len buffer) Ht) as [out Ho].
  exists (splice 0 out buffer). apply storage_convert_map; [done|by apply encrypt_keeps_size|by apply encrypt_error|done|].
  exists (Z.to_nat q), out. split; [nia|done].
Qed.

(** C37: what a storage context encrypts it decrypts again, for every cipher,
    sector size, initialisation vector and length the code accepts; a
    conversion changes nothing behind its length. *)
Theorem storage_roundtrip ss cipher mode key large s ivo len buffer buffer' :
  0 <= ss < 2 ^ 63 -> crypt_storage_init ss cipher mode key large = inr s ->
  0 <= len <= zlen buffer ->
  crypt_storage_encrypt s ivo len buffer = (0, buffer') ->
  crypt_storage_decrypt s ivo len buffer' = (0, buffer) /\ zlen buffer' = zlen buffer /\
  drop (Z.to_nat len) buffer' = drop (Z.to_nat len) buffer.
Proof.
  intros Hss Hi. apply storage_init_ok in Hi as (Hok & _); [|done].
  by apply storage_decrypt_encrypt.
Qed.

(** Sectors [a] further on have vectors [a] further on. *)
Lemma storage_map_shift n op s ivo i data k :
  0 <= i -> 0 <= k -> storage_ok s ->
  storage_map n op s ivo (i + k * 512) data = storage_map n op s (ivo +64 k) i data.
Proof.
  intros Hi Hk (_ & _ & Hss). revert i data Hi. induction n as [|n IH]; intros i data Hi; [done|].
  cbn [storage_map].
  assert (ivo +64 Z.shiftr (i + k * 512) SECTOR_SHIFT = ivo +64 k +64 Z.shiftr i SECTOR_SHIFT) as ->.
  { rewrite !Z.shiftr_div_pow2 by (unfold SECTOR_SHIFT; lia). change (2 ^ SECTOR_SHIFT) with 512.
    rewrite Z.div_add by lia. unfold wrap. rewrite Zplus_mod_idemp_l. f_equal. lia. }
  destruct (crypt_sector_iv_generate _ _); [done|]. destruct (op _ _); [done|].
  replace (i + k * 512 + sector_size s) with (i + sector_size s + k * 512) by lia.
  rewrite IH by lia. done.
Qed.

(** Encryption is position-wise: two buffers encrypted one after the
    other, the second with the vectors of the sectors that follow, are the
    encryption of their concatenation. Data can be written and re-encrypted in
    pieces of any number of sectors. *)
Theorem storage_encrypt_app ss cipher mode key large s ivo x y ex ey :
  0 <= ss < 2 ^ 63 -> crypt_storage_init ss cipher mode key large = inr s ->
  crypt_storage_encrypt s ivo (zlen x) x = (0, ex) ->
  crypt_storage_encrypt s (ivo +64 (zlen x / 512)) (zlen y) y = (0, ey) ->
  crypt_storage_encrypt s ivo (zlen x + zlen y) (x ++ y) = (0, ex ++ ey).
Proof.
  intros Hss Hi Hx Hy. apply storage_init_ok in Hi as (Hok & _); [|done]. pose proof Hok as (Hc & _ & Hs).
  pose proof (zlen_nonneg x). pose proof (zlen_nonneg y).
  pose proof (encrypt_keeps_size _ Hc) as Hk. pose proof (encrypt_error _ Hc) as He.
  apply storage_convert_map in Hx as (a & ox & Ea & Hiv & Hmx & ->); [|done..|lia].
  apply storage_convert_map in Hy as (b & oy & Eb & _ & Hmy & ->); [|done..|lia].
  rewrite slice_all in Hmx, Hmy. assert (0 < sector_size s) as Hpos by lia.
  pose proof (zlen_storage_map _ _ _ _ _ _ _ Hk Hpos Ea Hmx) as Hzx.
  pose proof (zlen_storage_map _ _ _ _ _ _ _ Hk Hpos Eb Hmy) as Hzy.
  assert (Hfull : forall (o l : bytes), zlen o = zlen l -> splice 0 o l = o).
  { intros o l E. unfold splice. cbn. rewrite drop_ge by (unfold zlen in *; lia). apply app_nil_r. }
  rewrite !Hfull by done.
  apply storage_convert_map; [done..|rewrite zlen_app; lia|].
  exists (a + b)%nat, (ox ++ oy). split; [lia|]. split; [done|].
  rewrite <-zlen_app, slice_all, storage_map_app, Hmx by (done || lia). cbn [mbind option_bind].
  rewrite Hfull by (rewrite !zlen_app; lia). split; [|done].
  assert (Z.of_nat a * sector_size s = zlen x / 512 * 512) as ->.
  { assert (exists q, sector_size s = q * 512) as [q Eq].
    { destruct Hs as [E|[E|[E|E]]]; rewrite E; [exists 1|exists 2|exists 4|exists 8]; lia. }
    rewrite Ea, Eq, Z.mul_assoc, Z.div_mul by lia. done. }
  rewrite storage_map_shift by (done || apply Z.div_pos; lia || lia). by rewrite Hmy.
Qed.

(** *** Distinct sectors, distinct vectors *)

Lemma splice_inj off (a b l : bytes) :
  0 <= off -> zlen a = zlen b -> off + zlen a <= zlen l -> splice off a l = splice off b l -> a = b.
Proof.
  intros Ho Hz Hl E. rewrite <-(slice_splice_same off a l), E, Hz by done.
  apply slice_splice_same; lia.
Qed.

Lemma le_encode_inj n a b :
  in_u (8 * Z.of_nat n) a -> in_u (8 * Z.of_nat n) b -> le_encode n a = le_encode n b -> a = b.
Proof.
  intros Ha Hb E. rewrite <-(wrap_id _ _ Ha), <-(wrap_id _ _ Hb), <-!le_decode_encode. by rewrite E.
Qed.

Lemma be_encode_inj n a b :
  in_u (8 * Z.of_nat n) a -> in_u (8 * Z.of_nat n) b -> be_encode n a = be_encode n b -> a = b.
Proof.
  intros Ha Hb E. rewrite <-(wrap_id _ _ Ha), <-(wrap_id _ _ Hb), <-!be_decode_encode. by rewrite E.
Qed.

(** A number stored at the start or at the end of a vector of zeros. *)
Lemma le_field_inj n a b z :
  in_u (8 * Z.of_nat n) a -> in_u (8 * Z.of_nat n) b -> Z.of_nat n <= zlen z ->
  splice 0 (le_encode n a) z = splice 0 (le_encode n b) z -> a = b.
Proof.
  intros Ha Hb Hz E. apply (le_encode_inj n); [done..|]. apply (splice_inj 0 _ _ z); [lia| | |done];
    unfold zlen in *; rewrite !length_le_encode; lia.
Qed.

Lemma be_field_inj n a b off z :
  in_u (8 * Z.of_nat n) a -> in_u (8 * Z.of_nat n) b -> 0 <= off -> off + Z.of_nat n <= zlen z ->
  splice off (be_encode n a) z = splice off (be_encode n b) z -> a = b.
Proof.
  intros Ha Hb Ho Hz E. apply (be_encode_inj n); [done..|]. apply (splice_inj off _ _ z); [done| | |done];
    unfold zlen in *; rewrite !length_be_encode; lia.
Qed.

Definition iv_limit (t : iv_type) : Z :=
  match t with IV_NONE | IV_NULL => 1 | IV_PLAIN => 2 ^ 32 | _ => 2 ^ 52 end.

(** What [crypt_sector_iv_init] guarantees of the vectors that have a size. *)
Lemma sector_iv_init_size cipher mode iv key ss i :
  0 <= ss < 2 ^ 32 -> (ss = 0 \/ Z.log2 ss <= 12) ->
  crypt_sector_iv_init cipher mode iv key ss = inr i -> type i <> IV_NONE ->
  8 <= iv_size i /\ 0 <= shift i <= 12.
Proof.
  intros Hss Hlog. unfold crypt_sector_iv_init. cbv zeta.
  set (n := crypt_cipher_ivsize cipher (Some mode)).
  destruct (_ || _) eqn:E1 at 1; [done|]. apply orb_false_iff in E1 as [E1 E2].
  destruct (_ || _) eqn:E3 at 1.
  { destruct iv; [done|]. intros [= <-]. done. }
  apply orb_false_iff in E3 as [_ E3]. rewrite E3 in E2. cbn [negb andb] in E2.
  assert (8 <= n) as Hn by lia.
  assert (Hs : 0 <= int_log2 ss <= 12).
  { destruct (decide (ss = 0)) as [->|]; [by cbn|]. rewrite int_log2_spec by lia.
    pose proof (Z.log2_nonneg ss). lia. }
  assert (Hb : SECTOR_SHIFT - int_log2 n <= 12).
  { unfold int_log2, SECTOR_SHIFT.
    assert (forall fuel x r, 0 <= r -> 0 <= int_log2_loop fuel x r) as Hnn.
    { induction fuel as [|f IH]; intros x r Hr; cbn [int_log2_loop]; [done|].
      destruct (0 <? x); [apply IH; lia|done]. }
    pose proof (Hnn 32%nat (Z.shiftr n 1) 0 ltac:(lia)). lia. }
  intros H Ht. repeat (case_match; try discriminate H); injection H as <-; cbn [iv_size shift];
    (split; [done|]); lia.
Qed.

Lemma cipher_iv_size ss cipher mode key large s :
  0 <= ss < 2 ^ 32 -> crypt_storage_init ss cipher mode key large = inr s ->
  type (cipher_iv s) <> IV_NONE -> 8 <= iv_size (cipher_iv s) /\ 0 <= shift (cipher_iv s) <= 12.
Proof.
  intros Hss Hi.
  pose proof (storage_init_ok ss cipher mode key large s ltac:(lia) Hi) as ((_ & _ & Hsz) & Ess & _).
  unfold crypt_storage_init in Hi. destruct (_ || _); [done|].
  destruct (split_first_dash _) as [m iv]. destruct (crypt_cipher_init cipher m key); [done|].
  destruct (crypt_sector_iv_init _ _ _ _ _) as [|i] eqn:Ei; [done|]. injection Hi as <-.
  apply (sector_iv_init_size cipher m iv key ss); [done| |done].
  right. cbn in Ess, Hsz. destruct Hsz as [->|[->|[->| ->]]]; cbn; lia.
Qed.

Lemma encrypt_inj c iv a b v :
  cipher_ok c -> cipher_encrypt c iv a = inr v -> cipher_encrypt c iv b = inr v -> a = b.
Proof.
  intros Hc Ha Hb. apply (encrypt_inverse _ Hc) in Ha as [_ Ha], Hb as [_ Hb]. congruence.
Qed.

(** The shifted number of a sector fits 64 bits. *)
Lemma shifted_sector sh k :
  0 <= sh <= 12 -> 0 <= k < 2 ^ 52 ->
  u64 (Z.shiftl k sh) = k * 2 ^ sh /\ 0 <= k * 2 ^ sh < 2 ^ 64 - 1 /\ 0 < 2 ^ sh.
Proof.
  intros Hr Hk. rewrite Z.shiftl_mul_pow2 by lia.
  pose proof (Z.pow_le_mono_r 2 sh 12 ltac:(lia) ltac:(lia)) as Hp. change (2 ^ 12) with 4096 in Hp.
  pose proof (Z.pow_pos_nonneg 2 sh ltac:(lia) ltac:(lia)).
  assert (k * 2 ^ sh <= (2 ^ 52 - 1) * 2 ^ sh) by nia.
  split; [apply u64_id|split]; nia.
Qed.

(** two sectors below the limit of the vector's type never share a vector
    (2^32 sectors for plain, 2^52 for the others that depend on the sector):
    plain64, plain64be, benbi, essiv and eboiv vectors are unique on every
    device of up to 2 EiB. *)
Theorem sector_iv_unique ss cipher mode key large s s1 s2 v1 v2 :
  0 <= ss < 2 ^ 32 -> crypt_storage_init ss cipher mode key large = inr s ->
  0 <= s1 < iv_limit (type (cipher_iv s)) -> 0 <= s2 < iv_limit (type (cipher_iv s)) ->
  crypt_sector_iv_generate (cipher_iv s) s1 = inr v1 ->
  crypt_sector_iv_generate (cipher_iv s) s2 = inr v2 ->
  v1 = v2 -> s1 = s2.
Proof.
  intros Hss Hi H1 H2 G1 G2 ->.
  pose proof (storage_init_ok ss cipher mode key large s ltac:(lia) Hi) as ((_ & Hc & _) & _).
  pose proof (cipher_iv_size ss cipher mode key large s ltac:(lia) Hi) as Hsh.
  set (i := cipher_iv s) in *. unfold crypt_sector_iv_generate in G1, G2. cbv zeta in G1, G2.
  set (z := zeros (Z.to_nat (iv_size i))) in *.
  assert (Hz : type i <> IV_NONE -> zlen z = iv_size i).
  { intros Ht. destruct (Hsh Ht). unfold z, zeros, zlen. rewrite length_replicate. lia. }
  assert (Henc : forall c a b, iv_cipher i = Some c -> cipher_encrypt c [] a = inr v2 ->
    cipher_encrypt c [] b = inr v2 -> a = b).
  { intros c a b Ec. by apply encrypt_inj, Hc. }
  destruct (type i) eqn:Et; cbn [iv_limit] in H1, H2; try lia;
    specialize (Hz ltac:(done)); destruct (Hsh ltac:(done)) as [Hsz8 Hr];
    try (destruct (iv_cipher i) as [c|]; [|done]; apply (Henc c _ _ eq_refl G1) in G2 as E);
    try (assert (inr v2 = inr v2 :> Z + bytes) as E by done; rewrite <-G2 in E at 1;
         rewrite <-G1 in E; apply (inj inr) in E).
  - change 0xffffffff with (Z.ones 32) in E. rewrite !Z.land_ones, !Z.mod_small in E by lia.
    symmetry in E. apply (le_field_inj 4) in E; unfold in_u; lia.
  - symmetry in E. by apply (le_field_inj 8) in E; unfold in_u; try lia.
  - by apply (le_field_inj 8) in E; unfold in_u; try lia.
  - symmetry in E. apply (be_field_inj 8) in E; [|apply wrap_range; lia|apply wrap_range; lia|lia..].
    pose proof (shifted_sector (shift i) s1 Hr H1) as (E1 & B1 & P1).
    pose proof (shifted_sector (shift i) s2 Hr H2) as (E2 & B2 & _).
    rewrite E1, E2, !u64_id in E by lia. nia.
  - symmetry in E. by apply (be_field_inj 8) in E; unfold in_u; try lia.
  - pose proof (shifted_sector (shift i) s1 Hr H1) as (E1 & B1 & P1).
    pose proof (shifted_sector (shift i) s2 Hr H2) as (E2 & B2 & _).
    apply (le_field_inj 8) in E; [|apply wrap_range; lia|apply wrap_range; lia|lia].
    rewrite E1, E2 in E. nia.
Qed.
End theorems.

(** ** An instance for the witnesses: bytes shifted by a number that depends on
    key and vector *)

Definition byte_sum (l : bytes) : Z := fold_left (fun s c => s + byte_val c) l 0.
Definition shift_bytes (k : Z) (d : bytes) : bytes := (fun b => byte_of_Z (byte_val b + k)) <$> d.

Lemma shift_bytes_inverse k d : shift_bytes (- k) (shift_bytes k d) = d.
Proof.
  unfold shift_bytes. rewrite <-list_fmap_compose. rewrite <-(list_fmap_id d) at 2.
  apply list_fmap_ext. intros _ b _. cbn. apply byte_val_inj. rewrite !byte_val_of_Z.
  unfold wrap. rewrite Zplus_mod_idemp_l. replace (byte_val b + k + - k) with (byte_val b) by lia.
  apply Z.mod_small. pose proof (byte_val_range b). lia.
Qed.

Definition fx_cipher_ctx (key : bytes) : crypt_cipher := {|
  cipher_encrypt iv d := inr (shift_bytes (byte_sum iv + byte_sum key) d);
  cipher_decrypt iv d := inr (shift_bytes (- (byte_sum iv + byte_sum key)) d);
  cipher_kernel_only := false;
|}.

(** The key is the sum of password and salt. *)
#[local] Instance fx_crypt_pbkdf : CryptPbkdf | 100 :=
  fun kdf hash pw salt n it mem par => (0, replicate (Z.to_nat n) (byte_of_Z (byte_sum pw + byte_sum salt))).
#[local] Instance fx_pbkdf_laws : CryptPbkdfLaws | 100.
Proof. intros kdf hash pw salt n it mem par Hn _. cbn. unfold zlen. rewrite length_replicate. lia. Qed.

#[local] Instance fx_cipher : CryptCipher | 100 := {
  crypt_cipher_init name mode key :=
    if (name =? "aes")%string then inr (fx_cipher_ctx key) else inl (- ENOENT);
}.

Lemma fx_cipher_ctx_ok key : cipher_ok (fx_cipher_ctx key).
Proof.
  split; cbn; try done.
  - intros iv d e [= <-]. rewrite shift_bytes_inverse. split; [|done].
    unfold zlen, shift_bytes. by rewrite length_fmap.
  - intros iv d e [= <-]. unfold zlen, shift_bytes. by rewrite length_fmap.
Qed.

#[local] Instance fx_cipher_laws : CryptCipherLaws | 100.
Proof.
  intros name mode key c. cbn. destruct (name =? "aes")%string; [|done]. intros [= <-].
  apply fx_cipher_ctx_ok.
Qed.

#[local] Existing Instances fx_hash fx_hash_laws.

Definition fx_storage (mode : string) : crypt_storage :=
  match crypt_storage_init 512 "aes" mode [x07; x09] false with
  | inr s => s
  | inl _ => {| sector_size := 0; iv_shift := 0; s_cipher := fx_cipher_ctx [];
                cipher_iv := {| type := IV_NONE; iv_size := 0; iv_cipher := None; shift := 0 |} |}
  end.

Definition fx_sectors (n : nat) : bytes := replicate (512 * n) x05.

Lemma storage_roundtrip_witness :
  let s := fx_storage "xts-plain64" in
  let out := (crypt_storage_encrypt s 3 1024 (fx_sectors 3)).2 in
  out <> fx_sectors 3 /\ crypt_storage_decrypt s 3 1024 out = (0, fx_sectors 3).
Proof.
  intros s out. split.
  - intros E. apply (f_equal (fun l => l !! 0%nat)) in E. vm_compute in E. discriminate E.
  - apply (storage_roundtrip 512 "aes" "xts-plain64" [x07; x09] false s 3 1024 (fx_sectors 3) out).
    + lia.
    + reflexivity.
    + vm_compute. split; congruence.
    + unfold out. refine (bool_decide_eq_true_1 _ _). vm_compute. reflexivity.
Defined.

Lemma storage_encrypt_app_witness :
  let s := fx_storage "cbc-benbi" in
  let ex := (crypt_storage_encrypt s 8 512 (fx_sectors 1)).2 in
  let ey := (crypt_storage_encrypt s 9 1024 (fx_sectors 2)).2 in
  crypt_storage_encrypt s 8 (zlen (fx_sectors 1) + zlen (fx_sectors 2)) (fx_sectors 1 ++ fx_sectors 2)
    = (0, ex ++ ey).
Proof.
  intros s ex ey.
  apply (storage_encrypt_app 512 "aes" "cbc-benbi" [x07; x09] false s 8).
  - lia.
  - reflexivity.
  - unfold ex. refine (bool_decide_eq_true_1 _ _). vm_compute. reflexivity.
  - unfold ey. refine (bool_decide_eq_true_1 _ _). vm_compute. reflexivity.
Defined.

Lemma sector_iv_unique_witness :
  let s := fx_storage "cbc-essiv:sha256" in
  type (cipher_iv s) = IV_ESSIV /\
  crypt_sector_iv_generate (cipher_iv s) 1 <> crypt_sector_iv_generate (cipher_iv s) 2.
Proof.
  intros s. split; [reflexivity|]. intros E.
  destruct (crypt_sector_iv_generate (cipher_iv s) 1) as [e|v] eqn:E1; [vm_compute in E1; discriminate E1|].
  assert (1 = 2) as F; [|discriminate F].
  apply (sector_iv_unique 512 "aes" "cbc-essiv:sha256" [x07; x09] false s 1 2 v v); try done;
    by vm_compute.
Defined.
