(* ===== verification/StorageWrapper.v ===== *)
(** * StorageWrapper: encrypted access to a part of a device
    (lib/utils_storage_wrappers.c)

    A wrapper reads and writes a device at [data_offset] and encrypts either
    not at all, in the library, or through a temporary dm-crypt device. The
    dm-crypt device is the kernel's: a view of the file with its inverse
    ([dm_view]). The device's block size, alignment and descriptor are
    results of lib/utils_device.c. *)

From S2P Require Import Prelude CryptBackend UtilsIO UtilsCrypt CryptStorage.
From Stdlib Require Import Strings.Byte.

(** What dm-crypt shows of a device, and the device after its view changed. *)
Record dm_view := { dm_get : file -> file; dm_put : file -> file -> file }.

Inductive wrapper_type :=
| NONE
| USPACE (s : crypt_storage) (iv_start : Z)
| DMCRYPT (dmcrypt_fd : Z) (view : dm_view).

Record crypt_storage_wrapper := {
  w_type : wrapper_type;
  dev_fd : Z;
  w_block_size : Z;
  mem_alignment : Z;
  data_offset : Z;
}.

Definition DISABLE_KCAPI : Z := 2.
Definition DISABLE_DMCRYPT : Z := 4.
Definition LARGE_IV : Z := 16.
Definition flag (flags f : Z) : bool := negb (Z.land flags f =? 0).

Section wrapper.
Context `{CH : CryptHash} `{CC : CryptCipher}.

Definition crypt_storage_backend_init (iv_start sector_size : Z) (cipher cipher_mode : string)
    (vk : bytes) (flags : Z) : Z + wrapper_type :=
  match crypt_storage_init sector_size cipher cipher_mode vk (flag flags LARGE_IV) with
  | inl r => inl r
  | inr s =>
      if flag flags DISABLE_KCAPI && crypt_storage_kernel_only s then inl (- ENOTSUP)
      else inr (USPACE s iv_start)
  end.

(** [dmcrypt_init] is the result of setting up the temporary device. *)
Definition crypt_storage_wrapper_init (block_size alignment fd : Z) (dmcrypt_init : Z + wrapper_type)
    (data_offset iv_start sector_size : Z) (cipher : string) (vk : option bytes) (flags : Z)
    : Z + crypt_storage_wrapper :=
  if negb (Z.land data_offset (Z.shiftl 1 SECTOR_SHIFT - 1) =? 0) then inl (- EINVAL)
  else match crypt_parse_name_and_mode cipher false with
  | inl _ => inl (- EINVAL)
  | inr spec =>
      let w t := {| w_type := t; dev_fd := fd; w_block_size := block_size;
                    mem_alignment := alignment; data_offset := data_offset |} in
      if (block_size =? 0) || (alignment =? 0) then inl (- EINVAL)
      else if fd <? 0 then inl (- EINVAL)
      else if crypt_is_cipher_null (Some (UtilsCrypt.cipher spec)) then inr (w NONE)
      else match vk with
      | None => inl (- EINVAL)
      | Some vk =>
          match crypt_storage_backend_init iv_start sector_size (UtilsCrypt.cipher spec)
                  (cipher_mode spec) vk flags with
          | inr t => inr (w t)
          | inl r =>
              if (negb (r =? - ENOTSUP) && negb (r =? - ENOENT)) || flag flags DISABLE_DMCRYPT
              then inl r
              else match dmcrypt_init with
                   | inl r => inl r
                   | inr t => inr (w t)
                   end
          end
      end
  end.

(** Offsets are relative to [data_offset]. *)
Definition crypt_storage_wrapper_read (cw : crypt_storage_wrapper) (offset length : Z) (f : file)
    : Z * bytes * file :=
  read_lseek_blockwise (dev_fd cw) (w_block_size cw) (mem_alignment cw) length
    (data_offset cw +64 offset) f.

(** I/O on the view of a dm-crypt device. *)
Definition dm_read (cw : crypt_storage_wrapper) (fd : Z) (v : dm_view) (offset length : Z) (f : file) :=
  let '(r, buf, g) := read_lseek_blockwise fd (w_block_size cw) (mem_alignment cw) length offset (dm_get v f) in
  (r, buf, dm_put v f g).

Definition dm_write (cw : crypt_storage_wrapper) (fd : Z) (v : dm_view) (offset : Z) (buffer : bytes) (length : Z) (f : file) :=
  let '(r, g) := write_lseek_blockwise fd (w_block_size cw) (mem_alignment cw) buffer length offset (dm_get v f) in
  (r, dm_put v f g).

(** The number of the sector's vector. *)
Definition iv_at (iv_start offset : Z) : Z := iv_start +64 Z.shiftr offset SECTOR_SHIFT.

Definition crypt_storage_wrapper_read_decrypt (cw : crypt_storage_wrapper) (offset length : Z) (f : file)
    : Z * bytes * file :=
  match w_type cw with
  | DMCRYPT fd v => dm_read cw fd v offset length f
  | t =>
      let '(read, buffer, f) := crypt_storage_wrapper_read cw offset length f in
      match t with
      | USPACE s iv_start =>
          if read <? 0 then (read, buffer, f)
          else
            let '(r, buffer) := crypt_storage_decrypt s (iv_at iv_start offset) read buffer in
            if negb (r =? 0) then (- EINVAL, buffer, f) else (read, buffer, f)
      | _ => (read, buffer, f)
      end
  end.

Definition crypt_storage_wrapper_decrypt (cw : crypt_storage_wrapper) (offset : Z) (buffer : bytes)
    (length : Z) (f : file) : Z * bytes * file :=
  match w_type cw with
  | NONE => (0, buffer, f)
  | DMCRYPT _ _ =>
      let '(read, buffer, f) := crypt_storage_wrapper_read_decrypt cw offset length f in
      if (read <? 0) || negb (read =? length) then (- EINVAL, buffer, f) else (0, buffer, f)
  | USPACE s iv_start =>
      let '(r, buffer) := crypt_storage_decrypt s (iv_at iv_start offset) length buffer in
      (r, buffer, f)
  end.

Definition crypt_storage_wrapper_write (cw : crypt_storage_wrapper) (offset : Z) (buffer : bytes)
    (length : Z) (f : file) : Z * file :=
  write_lseek_blockwise (dev_fd cw) (w_block_size cw) (mem_alignment cw) buffer length
    (data_offset cw +64 offset) f.

(** The buffer is encrypted in place. *)
Definition crypt_storage_wrapper_encrypt_write (cw : crypt_storage_wrapper) (offset : Z)
    (buffer : bytes) (length : Z) (f : file) : Z * bytes * file :=
  match w_type cw with
  | DMCRYPT fd v => let '(r, f) := dm_write cw fd v offset buffer length f in (r, buffer, f)
  | NONE => let '(r, f) := crypt_storage_wrapper_write cw offset buffer length f in (r, buffer, f)
  | USPACE s iv_start =>
      let '(r, buffer) := crypt_storage_encrypt s (iv_at iv_start offset) length buffer in
      if negb (r =? 0) then (- EINVAL, buffer, f)
      else let '(r, f) := crypt_storage_wrapper_write cw offset buffer length f in (r, buffer, f)
  end.

Definition crypt_storage_wrapper_encrypt (cw : crypt_storage_wrapper) (offset : Z) (buffer : bytes)
    (length : Z) : Z * bytes :=
  match w_type cw with
  | NONE => (0, buffer)
  | DMCRYPT _ _ => (- ENOTSUP, buffer)
  | USPACE s iv_start =>
      let '(r, buffer) := crypt_storage_encrypt s (iv_at iv_start offset) length buffer in
      if negb (r =? 0) then (- EINVAL, buffer) else (0, buffer)
  end.

Definition crypt_storage_wrapper_get_type (cw : option crypt_storage_wrapper) : wrapper_type :=
  match cw with Some cw => w_type cw | None => NONE end.
End wrapper.

(** ** Theorems *)

Section theorems.
Context `{CH : CryptHash} `{CCL : CryptCipherLaws}.

(** A wrapper that does not go through dm-crypt, as made by the code. *)
Definition direct_ok (cw : crypt_storage_wrapper) : Prop :=
  0 <= dev_fd cw /\ w_block_size cw <> 0 /\ mem_alignment cw <> 0 /\
  match w_type cw with
  | NONE => True
  | USPACE s _ => storage_ok s
  | DMCRYPT _ _ => False
  end.

Definition is_dmcrypt (t : wrapper_type) : bool :=
  match t with DMCRYPT _ _ => true | _ => false end.

Lemma wrapper_init_ok bs al fd dm off ivs ss cipher vk flags cw :
  0 <= ss < 2 ^ 63 -> crypt_storage_wrapper_init bs al fd dm off ivs ss cipher vk flags = inr cw ->
  is_dmcrypt (w_type cw) = false -> (forall t, dm = inr t -> is_dmcrypt t = true) ->
  direct_ok cw /\ data_offset cw = off /\ w_block_size cw = bs /\ dev_fd cw = fd.
Proof.
  intros Hss. unfold crypt_storage_wrapper_init. destruct (negb _); [done|].
  destruct (crypt_parse_name_and_mode cipher false) as [|spec]; [done|].
  destruct (_ || _) eqn:E1; [done|]. apply orb_false_iff in E1 as [Eb Ea].
  destruct (Z.ltb_spec fd 0); [done|].
  destruct (crypt_is_cipher_null _).
  { intros [= <-] _ _. unfold direct_ok. cbn. repeat split; lia. }
  destruct vk as [vk|]; [|done].
  destruct (crypt_storage_backend_init _ _ _ _ _ _) as [r|t] eqn:Et.
  - destruct (_ || _); [done|]. destruct dm as [|t]; [done|].
    intros [= <-] Hn Hd. cbn in Hn. by rewrite (Hd t eq_refl) in Hn.
  - intros [= <-] _ _. unfold crypt_storage_backend_init in Et.
    destruct (crypt_storage_init _ _ _ _ _) as [|s] eqn:Es; [done|]. destruct (_ && _); [done|].
    injection Et as <-. apply storage_init_ok in Es as (Hs & _); [|done].
    unfold direct_ok. cbn. split; [|done]. split; [lia|]. split; [lia|]. split; [lia|exact Hs].
Qed.

(** Without hard errors, the device holds what was written, at its place. *)
Lemma wrapper_write_spec cw offset e f :
  direct_ok cw -> 0 < w_block_size cw -> (w_block_size cw | f_size f) -> 0 <= offset ->
  0 <= data_offset cw -> data_offset cw + offset + zlen e <= f_size f -> f_size f < 2 ^ 63 ->
  benign (f_sched f) ->
  exists f', crypt_storage_wrapper_write cw offset e (zlen e) f = (zlen e, f') /\
    benign (f_sched f') /\ f_data f' = splice (data_offset cw + offset) e (f_data f).
Proof.
  intros (Hfd & _ & Ha & _) Hb Hd Ho Hdo Hin Hsz Hbn. unfold crypt_storage_wrapper_write.
  pose proof (zlen_nonneg e). rewrite u64_id by lia.
  pose proof (write_lseek_blockwise_spec (dev_fd cw) (w_block_size cw) (mem_alignment cw) e (zlen e)
    (data_offset cw + offset) f) as Hw.
  destruct (write_lseek_blockwise _ _ _ _ _ _ _) as [r f'].
  destruct Hw as (Hs & k & Hk & Hdt & Hr); [done..|lia|lia|].
  exists f'. destruct Hr as [[-> ->]|[_ Hn]]; [|done].
  rewrite take_ge in Hdt by (unfold zlen; lia).
  split; [done|]. split; [by apply Hs|done].
Qed.

Lemma wrapper_read_spec cw offset n f :
  direct_ok cw -> 0 < w_block_size cw -> 0 <= offset -> 0 <= n ->
  0 <= data_offset cw -> data_offset cw + offset + n <= f_size f -> f_size f < 2 ^ 63 ->
  benign (f_sched f) ->
  exists f', crypt_storage_wrapper_read cw offset n f = (n, slice (data_offset cw + offset) n (f_data f), f').
Proof.
  intros (Hfd & _ & Ha & _) Hb Ho Hn Hdo Hin Hsz Hbn. unfold crypt_storage_wrapper_read.
  rewrite u64_id by lia.
  pose proof (read_lseek_blockwise_spec (dev_fd cw) (w_block_size cw) (mem_alignment cw) n
    (data_offset cw + offset) f) as Hr.
  destruct (read_lseek_blockwise _ _ _ _ _ _) as [[r buf] f'].
  destruct Hr as (_ & _ & Hr); [done..|lia|]. exists f'.
  destruct Hr as [[-> ->]|[_ [Hnb|Hlt]]]; [done|done|lia].
Qed.

(** data written through a wrapper is read back as it was, while the
    device holds its encryption, and nothing of the device outside the range
    changes; for plain and encrypting wrappers, at any offset, when no transfer
    fails for good. *)
Theorem wrapper_write_then_read bs al fd dm off ivs ss cipher vk flags cw offset buf f :
  0 <= ss < 2 ^ 63 -> crypt_storage_wrapper_init bs al fd dm off ivs ss cipher vk flags = inr cw ->
  is_dmcrypt (w_type cw) = false -> (forall t, dm = inr t -> is_dmcrypt t = true) ->
  0 < bs -> (bs | f_size f) -> 0 <= off -> 0 <= offset -> off + offset + zlen buf <= f_size f ->
  f_size f < 2 ^ 63 -> benign (f_sched f) ->
  let '(r, e, f1) := crypt_storage_wrapper_encrypt_write cw offset buf (zlen buf) f in
  (r = zlen buf /\ zlen e = zlen buf /\
   f_data f1 = splice (off + offset) e (f_data f) /\
   (crypt_storage_wrapper_read cw offset (zlen buf) f1).1 = (zlen buf, e) /\
   (crypt_storage_wrapper_read_decrypt cw offset (zlen buf) f1).1 = (zlen buf, buf)) \/
  (r = - EINVAL /\ f1 = f).
Proof.
  intros Hss Hi Hnd Hdm Hb Hd Hoff Ho Hin Hsz Hbn.
  apply wrapper_init_ok in Hi as (Hok & <- & <- & <-); [|done..]. pose proof (zlen_nonneg buf).
  assert (Hrw : forall e, zlen e = zlen buf -> exists f1,
    crypt_storage_wrapper_write cw offset e (zlen buf) f = (zlen buf, f1) /\
    f_data f1 = splice (data_offset cw + offset) e (f_data f) /\
    exists f2, crypt_storage_wrapper_read cw offset (zlen buf) f1 = (zlen buf, e, f2)).
  { intros e He. destruct (wrapper_write_spec cw offset e f) as (f1 & Hw & Hb1 & Hd1); try done; [lia|].
    rewrite He in Hw. exists f1. split; [done|]. split; [done|].
    assert (f_size f1 = f_size f) as Es by (unfold f_size in *; rewrite Hd1; apply zlen_splice; lia).
    destruct (wrapper_read_spec cw offset (zlen buf) f1) as (f2 & Hr); try done; [lia..|].
    exists f2. rewrite Hr, Hd1, <-He. rewrite slice_splice_same by (unfold f_size in *; lia). done. }
  unfold crypt_storage_wrapper_encrypt_write, crypt_storage_wrapper_read_decrypt.
  destruct Hok as (_ & _ & _ & Hs). destruct (w_type cw) as [|s ivs'|]; [| |done].
  - destruct (Hrw buf eq_refl) as (f1 & -> & Hd1 & f2 & ->). by left.
  - destruct (crypt_storage_encrypt s _ _ _) as [r e] eqn:Ee.
    destruct (Z.eqb_spec r 0) as [->|]; cbn [negb]; [|right; done].
    apply storage_decrypt_encrypt in Ee as (Hdec & Hz & _); [|done|lia].
    destruct (Hrw e Hz) as (f1 & -> & Hd1 & f2 & ->).
    left. rewrite (proj2 (Z.ltb_ge _ _)), Hdec by lia. done.
Qed.
End theorems.

(** ** Witness: two sectors written behind a data offset of one sector *)

#[local] Existing Instances fx_hash fx_hash_laws fx_cipher fx_cipher_laws.

Definition fx_wrapper_file : file := File (replicate 2048 x00) 0 [Xfer 700; Xerr EINTR].

Definition fx_wrapper : Z + crypt_storage_wrapper :=
  crypt_storage_wrapper_init 512 4096 3 (inl (- ENOTSUP)) 512 0 512 "aes-xts-plain64" (Some [x07]) 0.

Lemma wrapper_write_then_read_witness :
  match fx_wrapper with
  | inr cw =>
      let '(r, e, f1) := crypt_storage_wrapper_encrypt_write cw 512 (fx_sectors 2) 1024 fx_wrapper_file in
      r = 1024 /\ (crypt_storage_wrapper_read_decrypt cw 512 1024 f1).1 = (1024, fx_sectors 2)
  | inl _ => False
  end.
Proof.
  destruct fx_wrapper as [r|cw] eqn:Ew; [vm_compute in Ew; discriminate Ew|].
  pose proof (wrapper_write_then_read 512 4096 3 (inl (- ENOTSUP)) 512 0 512 "aes-xts-plain64" (Some [x07]) 0
    cw 512 (fx_sectors 2) fx_wrapper_file ltac:(lia) Ew) as H.
  assert (is_dmcrypt (w_type cw) = false) as Hd by (vm_compute in Ew; injection Ew as <-; reflexivity).
  assert ((crypt_storage_wrapper_encrypt_write cw 512 (fx_sectors 2) (zlen (fx_sectors 2)) fx_wrapper_file).1.1 = 1024)
    as Hr by (vm_compute in Ew; injection Ew as <-; vm_compute; reflexivity).
  specialize (H Hd). change (zlen (fx_sectors 2)) with 1024 in *.
  destruct (crypt_storage_wrapper_encrypt_write cw 512 (fx_sectors 2) 1024 fx_wrapper_file) as [[r e] f1].
  cbn in Hr. subst r. split; [done|].
  destruct H as [(_ & _ & _ & _ & H)|[H _]].
  - intros t Ht. discriminate Ht.
  - lia.
  - by exists 4.
  - lia.
  - lia.
  - by vm_compute.
  - by vm_compute.
  - repeat constructor.
  - exact H.
  - discriminate H.
Defined.
