(* ===== verification/Pbkdf.v ===== *)
(** * Pbkdf: parameters of the key derivation functions

    lib/utils_pbkdf.c (defaults, checks, and the parameters kept in the
    context), lib/crypto_backend/pbkdf_check.c (limits, and the search for
    parameters that take a given time) and [crypt_benchmark_pbkdf_internal].
    A measurement's duration is an input: [samples] lists the result code and
    the milliseconds of each coming run of the function. *)

From S2P Require Import Prelude Cstd.
From Stdlib Require Import Ascii.

Local Open Scope string_scope.
Local Open Scope Z_scope.

Definition CRYPT_KDF_PBKDF2 : string := "pbkdf2".
Definition CRYPT_KDF_ARGON2I : string := "argon2i".
Definition CRYPT_KDF_ARGON2ID : string := "argon2id".

(** configure.ac, the defaults of the build. *)
Definition DEFAULT_LUKS1_HASH : string := "sha256".
Definition DEFAULT_LUKS1_ITER_TIME : Z := 2000.
Definition DEFAULT_LUKS2_ITER_TIME : Z := 2000.
Definition DEFAULT_LUKS2_MEMORY_KB : Z := 1048576.
Definition DEFAULT_LUKS2_PARALLEL_THREADS : Z := 4.
Definition DEFAULT_LUKS2_PBKDF : string := CRYPT_KDF_ARGON2I.

Definition CRYPT_PBKDF_ITER_TIME_SET : Z := Z.shiftl 1 0.
Definition CRYPT_PBKDF_NO_BENCHMARK : Z := Z.shiftl 1 1.

Record crypt_pbkdf_type := PbkdfType {
  p_type : option string;
  p_hash : option string;
  p_time_ms : Z;
  p_iterations : Z;
  p_max_memory_kb : Z;
  p_parallel_threads : Z;
  p_flags : Z;
}.

Definition has_flag (flags f : Z) : bool := negb (Z.land flags f =? 0).

Definition default_pbkdf2 : crypt_pbkdf_type :=
  PbkdfType (Some CRYPT_KDF_PBKDF2) (Some DEFAULT_LUKS1_HASH) DEFAULT_LUKS1_ITER_TIME 0 0 0 0.
Definition default_argon2i : crypt_pbkdf_type :=
  PbkdfType (Some CRYPT_KDF_ARGON2I) (Some DEFAULT_LUKS1_HASH) DEFAULT_LUKS2_ITER_TIME 0
    DEFAULT_LUKS2_MEMORY_KB DEFAULT_LUKS2_PARALLEL_THREADS 0.
Definition default_argon2id : crypt_pbkdf_type :=
  PbkdfType (Some CRYPT_KDF_ARGON2ID) (Some DEFAULT_LUKS1_HASH) DEFAULT_LUKS2_ITER_TIME 0
    DEFAULT_LUKS2_MEMORY_KB DEFAULT_LUKS2_PARALLEL_THREADS 0.

Definition crypt_get_pbkdf_type_params (pbkdf_type : option string) : option crypt_pbkdf_type :=
  match pbkdf_type with
  | None => None
  | Some s =>
      if bool_decide (s = CRYPT_KDF_PBKDF2) then Some default_pbkdf2
      else if bool_decide (s = CRYPT_KDF_ARGON2I) then Some default_argon2i
      else if bool_decide (s = CRYPT_KDF_ARGON2ID) then Some default_argon2id
      else None
  end.

(** ** Limits *)

Record crypt_pbkdf_limits := PbkdfLimits {
  min_iterations : Z; max_iterations : Z;
  min_memory : Z; max_memory : Z;
  min_parallel : Z; max_parallel : Z;
}.

Definition crypt_pbkdf_get_limits (kdf : option string) : Z * option crypt_pbkdf_limits :=
  match kdf with
  | None => (- EINVAL, None)
  | Some s =>
      if bool_decide (s = CRYPT_KDF_PBKDF2) then (0, Some (PbkdfLimits 1000 UINT32_MAX 0 0 0 0))
      else if bool_decide (s = CRYPT_KDF_ARGON2I) || bool_decide (s = CRYPT_KDF_ARGON2ID)
      then (0, Some (PbkdfLimits 4 UINT32_MAX 32 (4 * 1024 * 1024) 1 4))
      else (- EINVAL, None)
  end.

(** lib/utils_crypt.c *)
Definition crypt_parse_pbkdf (s : option string) : Z * option string :=
  match s with
  | None => (- EINVAL, None)
  | Some s =>
      if strcaseeq s CRYPT_KDF_PBKDF2 then (0, Some CRYPT_KDF_PBKDF2)
      else if strcaseeq s CRYPT_KDF_ARGON2I then (0, Some CRYPT_KDF_ARGON2I)
      else if strcaseeq s CRYPT_KDF_ARGON2ID then (0, Some CRYPT_KDF_ARGON2ID)
      else (- EINVAL, None)
  end.

(** ** The context *)

(** What the functions ask of the system and of the crypto back end. *)
Record pbkdf_env := PbkdfEnv {
  pe_init_crypto : Z;
  pe_hash_size : string -> Z;
  pe_cpusonline : Z;
  pe_getphysmemory_kb : Z;
  pe_fips_mode : bool;
}.

Section env.
Variable env : pbkdf_env.

Definition adjusted_phys_memory : Z :=
  let memory_kb := pe_getphysmemory_kb env in
  if (memory_kb <? 128 * 1024) || (UINT32_MAX <? memory_kb) then DEFAULT_LUKS2_MEMORY_KB
  else u32 (memory_kb / 2).

(** [dev_type]: the type of the context, [crypt_get_type(cd)]. *)
Definition verify_pbkdf_params (dev_type : option string) (pbkdf : crypt_pbkdf_type) : Z :=
  if pe_init_crypto env <? 0 then pe_init_crypto env
  else match p_type pbkdf with
  | None => - EINVAL
  | Some type =>
      if bool_decide (p_hash pbkdf = None) && bool_decide (type = "pbkdf2") then - EINVAL
      else if (p_time_ms pbkdf =? 0) && negb (has_flag (p_flags pbkdf) CRYPT_PBKDF_NO_BENCHMARK)
      then - EINVAL
      else
        let '(r, pbkdf_type) := crypt_parse_pbkdf (Some type) in
        if r <? 0 then r
        else if match p_hash pbkdf with Some h => pe_hash_size env h <? 0 | None => false end then - EINVAL
        else match crypt_pbkdf_get_limits (Some type) with
        | (r, None) => r
        | (_, Some limits) =>
            let is_pbkdf2 := bool_decide (pbkdf_type = Some CRYPT_KDF_PBKDF2) in
            if bool_decide (dev_type = Some "LUKS1") && negb is_pbkdf2 then - EINVAL
            else if is_pbkdf2 then
              if negb (p_max_memory_kb pbkdf =? 0) || negb (p_parallel_threads pbkdf =? 0) then - EINVAL
              else if has_flag (p_flags pbkdf) CRYPT_PBKDF_NO_BENCHMARK &&
                      (p_iterations pbkdf <? min_iterations limits) then - EINVAL
              else 0
            else if has_flag (p_flags pbkdf) CRYPT_PBKDF_NO_BENCHMARK &&
                    ((p_iterations pbkdf <? min_iterations limits) ||
                     (p_max_memory_kb pbkdf <? min_memory limits)) then - EINVAL
            else if max_memory limits <? p_max_memory_kb pbkdf then - EINVAL
            else if p_max_memory_kb pbkdf =? 0 then - EINVAL
            else if p_parallel_threads pbkdf =? 0 then - EINVAL
            else 0
        end
  end.

(** The result code and the new parameters of the context. *)
Definition init_pbkdf_type (cd_pbkdf : crypt_pbkdf_type) (cd_type : option string)
    (pbkdf : option crypt_pbkdf_type) (dev_type : option string) : Z * crypt_pbkdf_type :=
  if pe_fips_mode env &&
     match pbkdf with Some p => negb (bool_decide (p_type p = Some CRYPT_KDF_PBKDF2)) | None => false end
  then (- EINVAL, cd_pbkdf)
  else
    let pbkdf :=
      match pbkdf with
      | Some p => p
      | None =>
          if negb (pe_fips_mode env) && bool_decide (dev_type = Some "LUKS2")
          then default default_pbkdf2 (crypt_get_pbkdf_type_params (Some DEFAULT_LUKS2_PBKDF))
          else default default_pbkdf2 (crypt_get_pbkdf_type_params (Some CRYPT_KDF_PBKDF2))
      end in
    let r := verify_pbkdf_params cd_type pbkdf in
    if negb (r =? 0) then (r, cd_pbkdf)
    else match crypt_pbkdf_get_limits (p_type pbkdf) with
    | (r, None) => (r, cd_pbkdf)
    | (_, Some limits) =>
        let old_flags := p_flags cd_pbkdf in
        let iterations := if has_flag (p_flags pbkdf) CRYPT_PBKDF_NO_BENCHMARK then p_iterations pbkdf else 0 in
        let '(flags, time_ms) :=
          if has_flag old_flags CRYPT_PBKDF_ITER_TIME_SET
          then (Z.lor (p_flags pbkdf) CRYPT_PBKDF_ITER_TIME_SET, p_time_ms cd_pbkdf)
          else (p_flags pbkdf, p_time_ms pbkdf) in
        let threads := p_parallel_threads pbkdf in
        let threads := if max_parallel limits <? threads then max_parallel limits else threads in
        let threads :=
          if negb (threads =? 0) && (pe_cpusonline env <? threads) then pe_cpusonline env else threads in
        let memory :=
          if negb (p_max_memory_kb pbkdf =? 0) && (adjusted_phys_memory <? p_max_memory_kb pbkdf)
          then adjusted_phys_memory else p_max_memory_kb pbkdf in
        (0, PbkdfType (p_type pbkdf) (p_hash pbkdf) time_ms iterations memory threads flags)
    end.

Definition set_flags (p : crypt_pbkdf_type) (flags : Z) : crypt_pbkdf_type :=
  PbkdfType (p_type p) (p_hash p) (p_time_ms p) (p_iterations p) (p_max_memory_kb p)
    (p_parallel_threads p) flags.

Definition crypt_set_pbkdf_type (cd_pbkdf : crypt_pbkdf_type) (cd_type : option string)
    (pbkdf : option crypt_pbkdf_type) : Z * crypt_pbkdf_type :=
  init_pbkdf_type (set_flags cd_pbkdf 0) cd_type pbkdf cd_type.

Definition crypt_get_pbkdf_type (cd_pbkdf : crypt_pbkdf_type) : option crypt_pbkdf_type :=
  match p_type cd_pbkdf with Some _ => Some cd_pbkdf | None => None end.

Definition crypt_get_pbkdf_default (type : option string) : option crypt_pbkdf_type :=
  match type with
  | None => None
  | Some t =>
      if bool_decide (t = "LUKS1") || pe_fips_mode env then crypt_get_pbkdf_type_params (Some CRYPT_KDF_PBKDF2)
      else if bool_decide (t = "LUKS2") then crypt_get_pbkdf_type_params (Some DEFAULT_LUKS2_PBKDF)
      else None
  end.

Definition crypt_set_iteration_time (cd_pbkdf : crypt_pbkdf_type) (cd_type : option string)
    (iteration_time_ms : Z) : crypt_pbkdf_type :=
  if UINT32_MAX <? iteration_time_ms then cd_pbkdf
  else
    let pbkdf := PbkdfType (p_type cd_pbkdf) (p_hash cd_pbkdf) (u32 iteration_time_ms) (p_iterations cd_pbkdf)
                   (p_max_memory_kb cd_pbkdf) (p_parallel_threads cd_pbkdf) (p_flags cd_pbkdf) in
    if bool_decide (is_Some (p_type pbkdf)) && negb (verify_pbkdf_params cd_type pbkdf =? 0) then cd_pbkdf
    else
      let flags := Z.lor (p_flags pbkdf) CRYPT_PBKDF_ITER_TIME_SET in
      let flags := Z.land flags (u32 (Z.lnot CRYPT_PBKDF_NO_BENCHMARK)) in
      PbkdfType (p_type pbkdf) (p_hash pbkdf) (p_time_ms pbkdf) 0 (p_max_memory_kb pbkdf)
        (p_parallel_threads pbkdf) flags.
End env.

(** ** Search for parameters (pbkdf_check.c) *)

Definition BENCH_MIN_MS : Z := 250.
Definition BENCH_MIN_MS_FAST : Z := 10.
Definition BENCH_PERCENT_ATLEAST : Z := 95.
Definition BENCH_PERCENT_ATMOST : Z := 110.
Definition BENCH_SAMPLES_FAST : nat := 3.
Definition BENCH_SAMPLES_SLOW : nat := 1.

Definition samples := list (Z * Z).

(** A search returns, divides by zero, or needs more measurements. *)
Inductive search (A : Type) := Returns (a : A) | Traps | NeedsMore.
Arguments Returns {A} a.
Arguments Traps {A}.
Arguments NeedsMore {A}.

Definition search_map {A B} (f : A -> B) (x : search A) : search B :=
  match x with Returns a => Returns (f a) | Traps => Traps | NeedsMore => NeedsMore end.

(** Result code, milliseconds of the fastest run, the measurements left. *)
Fixpoint measure_argon2 (s : samples) (n : nat) (ms_atleast ms_min : Z) : option (Z * Z * samples) :=
  match n with
  | O => Some (0, ms_min, s)
  | S n' =>
      match s with
      | [] => None
      | (r, ms) :: s' =>
          if r <? 0 then Some (r, ms_min, s')
          else if ms <? 0 then Some (- EINVAL, ms_min, s')
          else if ms <? ms_atleast then Some (0, ms, s')
          else measure_argon2 s' n' ms_atleast (if ms <? ms_min then ms else ms_min)
      end
  end.

(** Unsigned division traps on zero. *)
Definition udiv (a b : Z) : option Z := if b =? 0 then None else Some (a / b).

(** The new costs; [true] is FINAL. Products are computed in 64 bits. [None]
    is a division by zero. *)
Definition next_argon2_params (t_cost m_cost min_t_cost min_m_cost max_m_cost ms target_ms : Z)
    : option (Z * Z * bool) :=
  let check t m := Some (t, m, (t_cost =? t) && (m_cost =? m)) in
  if target_ms <? u32 ms then
    new_t_cost ← udiv (t_cost *64 target_ms) (u64 ms);
    let new_t_cost := u32 new_t_cost in
    if new_t_cost <? min_t_cost then
      m ← udiv (t_cost *64 m_cost *64 target_ms) (min_t_cost *64 ms);
      if u32 m <? min_m_cost then Some (min_t_cost, min_m_cost, true) else check min_t_cost (u32 m)
    else check new_t_cost m_cost
  else
    new_m_cost ← udiv (m_cost *64 target_ms) (u64 ms);
    let new_m_cost := u32 new_m_cost in
    if max_m_cost <? new_m_cost then
      t ← udiv (t_cost *64 m_cost *64 target_ms) (max_m_cost *64 ms);
      if u32 t <=? min_t_cost then Some (min_t_cost, max_m_cost, true) else check (u32 t) max_m_cost
    else if new_m_cost <? min_m_cost then Some (t_cost, min_m_cost, true)
    else check t_cost new_m_cost.

(** What the first loop does with a measurement: [None] for [break]. *)
Definition scale (cost ms : Z) : option Z :=
  if ms <? BENCH_MIN_MS_FAST then Some (u32 (cost * 16))
  else let new := u32 (cost * BENCH_MIN_MS) / ms in
       if new =? cost then None else Some new.

(** The outputs [out] are the costs of the last measurement that succeeded;
    the progress callback asks to go on. *)
Fixpoint argon2_small (fuel : nat) (s : samples) (t_cost m_cost max_m_cost : Z) (out : Z * Z)
    : option (Z * (Z * Z) * Z * samples) :=
  match fuel with
  | O => None
  | S fuel' =>
      match measure_argon2 s BENCH_SAMPLES_FAST BENCH_MIN_MS INT64_MAX with
      | None => None
      | Some (r, ms, s) =>
          let here := (t_cost, m_cost) in
          if r <? 0 then Some (r, out, ms, s)
          else if BENCH_MIN_MS <=? ms then Some (0, here, ms, s)
          else if m_cost =? max_m_cost then
            match scale t_cost ms with
            | None => Some (0, here, ms, s)
            | Some t => argon2_small fuel' s t m_cost max_m_cost here
            end
          else
            match scale m_cost ms with
            | None => Some (0, here, ms, s)
            | Some m => argon2_small fuel' s t_cost (if max_m_cost <? m then max_m_cost else m) max_m_cost here
            end
      end
  end.

Fixpoint argon2_refine (fuel : nat) (s : samples)
    (out : Z * Z) (min_t_cost min_m_cost max_m_cost ms target_ms : Z) : search (Z * Z * Z) :=
  match fuel with
  | O => NeedsMore
  | S fuel' =>
      match next_argon2_params out.1 out.2 min_t_cost min_m_cost max_m_cost ms target_ms with
      | None => Traps
      | Some (t, m, true) => Returns (0, t, m)
      | Some (t, m, false) =>
          let ms_atleast := target_ms * BENCH_PERCENT_ATLEAST / 100 in
          let ms_atmost := target_ms * BENCH_PERCENT_ATMOST / 100 in
          match measure_argon2 s BENCH_SAMPLES_SLOW ms_atleast INT64_MAX with
          | None => NeedsMore
          | Some (r, ms, s) =>
              if r <? 0 then Returns (r, out.1, out.2)
              else if (ms <? ms_atleast) || (ms_atmost <? ms)
              then argon2_refine fuel' s (t, m) min_t_cost min_m_cost max_m_cost ms target_ms
              else Returns (0, t, m)
          end
      end
  end.

Definition crypt_argon2_check (s : samples) (key_length min_t_cost min_m_cost max_m_cost parallel target_ms : Z)
    : search (Z * Z * Z) :=
  if (key_length <=? 0) || (target_ms <=? 0) then Returns (- EINVAL, 0, 0)
  else
    let min_m_cost := if min_m_cost <? u32 (parallel * 8) then u32 (parallel * 8) else min_m_cost in
    if max_m_cost <? min_m_cost then Returns (- EINVAL, 0, 0)
    else match argon2_small (S (length s)) s min_t_cost min_m_cost max_m_cost (0, 0) with
    | None => NeedsMore
    | Some (r, out, ms, s) =>
        if r <? 0 then Returns (r, out.1, out.2)
        else argon2_refine (S (length s)) s out min_t_cost min_m_cost max_m_cost ms target_ms
    end.

(** PBKDF2: iterations per [target_ms]. The quotient is exact for products
    below 2^53, where the code's doubles are. *)
Fixpoint pbkdf_check_loop (fuel : nat) (s : samples) (iterations step iter_secs target_ms : Z) : option (Z * Z) :=
  match fuel, s with
  | S fuel', (r, ms) :: s' =>
      if r <? 0 then Some (r, iter_secs)
      else if negb (ms =? 0) && (UINT32_MAX <? iterations * target_ms / ms) then Some (- EINVAL, iter_secs)
      else
        let iter_secs := if ms =? 0 then iter_secs else iterations * target_ms / ms in
        if 500 <? ms then Some (0, iter_secs)
        else
          let iterations :=
            u32 (Z.shiftl iterations (if ms <=? 62 then 4 else if ms <=? 125 then 3 else if ms <=? 250 then 2 else 1)) in
          if (10 <? step + 1) || (iterations =? 0) then Some (- EINVAL, iter_secs)
          else pbkdf_check_loop fuel' s' iterations (step + 1) iter_secs target_ms
  | _, _ => None
  end.

Definition crypt_pbkdf_check (s : samples) (hash : option string) (key_length target_ms : Z) : option (Z * Z) :=
  if bool_decide (hash = None) || (key_length <=? 0) then Some (- EINVAL, 0)
  else pbkdf_check_loop (S (length s)) s (Z.shiftl 1 15) 0 0 target_ms.

(** Result code, iterations and memory. *)
Definition crypt_pbkdf_perf (s : samples) (p : crypt_pbkdf_type) (volume_key_size : Z) : search (Z * Z * Z) :=
  match crypt_pbkdf_get_limits (p_type p) with
  | (r, None) => Returns (r, p_iterations p, p_max_memory_kb p)
  | (_, Some limits) =>
      if bool_decide (p_type p = Some CRYPT_KDF_PBKDF2) then
        match crypt_pbkdf_check s (p_hash p) volume_key_size (p_time_ms p) with
        | Some (r, iterations) => Returns (r, iterations, 0)
        | None => NeedsMore
        end
      else
        crypt_argon2_check s volume_key_size (min_iterations limits) (min_memory limits)
          (p_max_memory_kb p) (p_parallel_threads p) (p_time_ms p)
  end.

(** lib/utils_benchmark.c. The interpolation is exact as above. *)
Definition crypt_benchmark_pbkdf_internal (s : samples) (p : crypt_pbkdf_type) (volume_key_size : Z)
    : search (Z * crypt_pbkdf_type) :=
  match crypt_pbkdf_get_limits (p_type p) with
  | (r, None) => Returns (r, p)
  | (_, Some limits) =>
      if has_flag (p_flags p) CRYPT_PBKDF_NO_BENCHMARK then
        if negb (p_iterations p =? 0) then Returns (0, p) else Returns (- EINVAL, p)
      else if bool_decide (p_type p = Some CRYPT_KDF_PBKDF2) then
        let p1 := PbkdfType (p_type p) (p_hash p) 1000 (p_iterations p) 0 0 (p_flags p) in
        search_map (fun '(r, iterations, memory) =>
            let result iterations :=
              PbkdfType (p_type p) (p_hash p) (p_time_ms p) iterations memory 0 (p_flags p) in
            if r <? 0 then (r, result iterations)
            else
              let tmp := iterations * p_time_ms p / 1000 in
              if UINT32_MAX <? tmp then (- EINVAL, result iterations)
              else (r, result (Z.max tmp (min_iterations limits))))
          (crypt_pbkdf_perf s p1 volume_key_size)
      else if negb (p_iterations p =? 0) then Returns (0, p)
      else
        search_map (fun '(r, iterations, memory) =>
            (r, PbkdfType (p_type p) (p_hash p) (p_time_ms p) iterations memory (p_parallel_threads p) (p_flags p)))
          (crypt_pbkdf_perf s p volume_key_size)
  end.

(** ** Facts *)

Lemma verify_type_known env dev_type p :
  verify_pbkdf_params env dev_type p = 0 ->
  exists limits, crypt_pbkdf_get_limits (p_type p) = (0, Some limits).
Proof.
  unfold verify_pbkdf_params. destruct (pe_init_crypto env <? 0) eqn:Ei; [intros; lia|].
  destruct (p_type p) as [type|]; [|done].
  destruct (_ && _); [done|]. destruct (_ && _); [done|].
  destruct (crypt_parse_pbkdf (Some type)) as [r t]. destruct (r <? 0) eqn:Er; [intros; lia|].
  destruct (match p_hash p with Some h => _ | None => _ end); [done|].
  unfold crypt_pbkdf_get_limits. case_bool_decide; [eauto|]. destruct (_ || _); [eauto|]. done.
Qed.

Lemma scale_spec cost ms c :
  0 < cost < 2 ^ 23 -> ms < BENCH_MIN_MS -> scale cost ms = Some c -> cost <= c.
Proof.
  unfold scale, BENCH_MIN_MS, BENCH_MIN_MS_FAST. intros Hc Hm. destruct (Z.ltb_spec ms 10).
  - intros [= <-]. rewrite u32_id by lia. lia.
  - destruct (_ =? cost); [done|]. intros [= <-]. rewrite u32_id by lia.
    apply Z.div_le_lower_bound; nia.
Qed.

(** ** The parameters of a context stay acceptable *)

Definition sane_env (env : pbkdf_env) : Prop := 1 <= pe_cpusonline env /\ 0 <= pe_getphysmemory_kb env.

Lemma adjusted_phys_memory_min env : sane_env env -> 65536 <= adjusted_phys_memory env.
Proof.
  intros [_ Hm]. unfold adjusted_phys_memory, DEFAULT_LUKS2_MEMORY_KB, UINT32_MAX.
  destruct (Z.ltb_spec (pe_getphysmemory_kb env) (128 * 1024)) as [?|H1]; [cbn; lia|].
  destruct (Z.ltb_spec (2 ^ 32 - 1) (pe_getphysmemory_kb env)) as [?|H2]; [cbn; lia|]. cbn [orb].
  pose proof (Z.div_le_lower_bound (pe_getphysmemory_kb env) 2 65536 ltac:(lia) ltac:(lia)).
  pose proof (Z.div_le_upper_bound (pe_getphysmemory_kb env) 2 (2 ^ 31) ltac:(lia) ltac:(lia)).
  rewrite u32_id by lia. done.
Qed.

(** What verification asks of the numbers: the rest only depends on the type,
    the hash and the flags. *)
Record smaller (p q : crypt_pbkdf_type) : Prop := {
  sm_type : p_type q = p_type p;
  sm_hash : p_hash q = p_hash p;
  sm_flags : p_flags q = p_flags p;
  sm_time : p_time_ms q = p_time_ms p;
  sm_iter : has_flag (p_flags p) CRYPT_PBKDF_NO_BENCHMARK = true -> p_iterations q = p_iterations p;
  sm_mem : p_max_memory_kb q = p_max_memory_kb p \/ 65536 <= p_max_memory_kb q < p_max_memory_kb p;
  sm_par : p_parallel_threads q = p_parallel_threads p \/ 1 <= p_parallel_threads q < p_parallel_threads p;
}.

(** Only the bounds that argon2 checks and the zeros that pbkdf2 asks for. *)
Lemma verify_smaller env dev_type p q :
  0 <= p_max_memory_kb p -> 0 <= p_parallel_threads p -> smaller p q ->
  (p_type p = Some CRYPT_KDF_PBKDF2 -> p_parallel_threads q = p_parallel_threads p) ->
  verify_pbkdf_params env dev_type p = 0 -> verify_pbkdf_params env dev_type q = 0.
Proof.
  intros Hm Hp [E1 E2 E3 E4 E5 Hmem Hpar] Hpb Hv. pose proof Hv as Hv'. revert Hv'.
  destruct (verify_type_known _ _ _ Hv) as [limits El]. unfold verify_pbkdf_params. rewrite E1, E2, E3, E4.
  destruct (pe_init_crypto env <? 0); [done|]. destruct (p_type p) as [type|]; [|done].
  destruct (_ && _); [done|]. destruct (_ && _); [done|].
  destruct (crypt_parse_pbkdf (Some type)) as [r t] eqn:Et. destruct (r <? 0); [done|].
  destruct (match p_hash p with Some h => _ | None => _ end); [done|]. rewrite El.
  destruct (_ && _); [done|].
  assert (Hlim : bool_decide (t = Some CRYPT_KDF_PBKDF2) = false -> min_memory limits <= 65536).
  { unfold crypt_pbkdf_get_limits in El. intros _.
    destruct (bool_decide (type = _)); [injection El as <-; cbn; lia|].
    destruct (_ || _); [injection El as <-; cbn; lia|done]. }
  destruct (bool_decide (t = Some CRYPT_KDF_PBKDF2)) eqn:Eb.
  - destruct (Z.eqb_spec (p_max_memory_kb p) 0) as [Ez|]; [|done].
    destruct (Z.eqb_spec (p_parallel_threads p) 0) as [Ez'|]; [|done]. cbn [negb orb].
    destruct (Z.eqb_spec (p_max_memory_kb q) 0) as [Eq|]; [|lia].
    destruct (Z.eqb_spec (p_parallel_threads q) 0) as [Eq'|]; [|lia]. cbn [negb orb].
    destruct (has_flag _ _); [by rewrite E5|done].
  - specialize (Hlim eq_refl).
    destruct (has_flag (p_flags p) CRYPT_PBKDF_NO_BENCHMARK); [rewrite E5 by done|]; cbn [andb];
      repeat match goal with |- context [?a <? ?b] => destruct (Z.ltb_spec a b) | |- context [?a =? ?b] =>
        destruct (Z.eqb_spec a b) end; cbn [orb]; try done; lia.
Qed.

Lemma init_smaller env p limits :
  sane_env env -> crypt_pbkdf_get_limits (p_type p) = (0, Some limits) -> 0 <= p_parallel_threads p ->
  0 <= p_max_memory_kb p -> (p_type p = Some CRYPT_KDF_PBKDF2 -> p_parallel_threads p = 0) ->
  let threads := if max_parallel limits <? p_parallel_threads p then max_parallel limits else p_parallel_threads p in
  let threads := if negb (threads =? 0) && (pe_cpusonline env <? threads) then pe_cpusonline env else threads in
  let memory := if negb (p_max_memory_kb p =? 0) && (adjusted_phys_memory env <? p_max_memory_kb p)
                then adjusted_phys_memory env else p_max_memory_kb p in
  smaller p (PbkdfType (p_type p) (p_hash p) (p_time_ms p)
    (if has_flag (p_flags p) CRYPT_PBKDF_NO_BENCHMARK then p_iterations p else 0) memory threads (p_flags p)) /\
  (p_type p = Some CRYPT_KDF_PBKDF2 -> threads = p_parallel_threads p).
Proof.
  intros Henv El Hp Hm Hpb threads0 threads memory. pose proof (adjusted_phys_memory_min env Henv).
  destruct Henv as [Hc _].
  assert (Hmp : p_type p = Some CRYPT_KDF_PBKDF2 \/ max_parallel limits = 4).
  { unfold crypt_pbkdf_get_limits in El. destruct (p_type p) as [s|]; [|done].
    case_bool_decide; [subst; by left|]. destruct (_ || _); [injection El as <-; by right|done]. }
  assert (Ht : threads = p_parallel_threads p \/ 1 <= threads < p_parallel_threads p).
  { subst threads threads0. destruct Hmp as [Hmp|Hmp].
    - rewrite (Hpb Hmp). left. unfold crypt_pbkdf_get_limits in El. rewrite Hmp in El.
      rewrite bool_decide_true in El by done. injection El as <-. done.
    - rewrite Hmp. destruct (Z.ltb_spec 4 (p_parallel_threads p)); [destruct (Z.ltb_spec (pe_cpusonline env) 4); cbn; lia|].
      destruct (Z.eqb_spec (p_parallel_threads p) 0); [cbn; lia|].
      destruct (Z.ltb_spec (pe_cpusonline env) (p_parallel_threads p)); cbn; lia. }
  split; [split; cbn; auto|].
  - by intros ->.
  - subst memory. destruct (Z.eqb_spec (p_max_memory_kb p) 0); [cbn; lia|].
    destruct (Z.ltb_spec (adjusted_phys_memory env) (p_max_memory_kb p)); cbn; lia.
  - intros Hpp. rewrite (Hpb Hpp) in *. lia.
Qed.

Lemma verify_pbkdf2_threads env dev_type p :
  p_type p = Some CRYPT_KDF_PBKDF2 -> verify_pbkdf_params env dev_type p = 0 -> p_parallel_threads p = 0.
Proof.
  intros Ht. unfold verify_pbkdf_params. destruct (Z.ltb_spec (pe_init_crypto env) 0); [intros; lia|]. rewrite Ht.
  destruct (_ && _); [done|]. destruct (_ && _); [done|].
  change (crypt_parse_pbkdf (Some CRYPT_KDF_PBKDF2)) with (0, Some CRYPT_KDF_PBKDF2). cbv beta iota.
  rewrite Z.ltb_irrefl. destruct (match p_hash p with Some h => _ | None => _ end); [done|].
  unfold crypt_pbkdf_get_limits. rewrite bool_decide_true by done. rewrite (bool_decide_true (Some _ = Some _)) by done.
  rewrite andb_false_r. destruct (Z.eqb_spec (p_parallel_threads p) 0); [done|]. by rewrite orb_true_r.
Qed.

(** ** Properties *)

(** [crypt_set_pbkdf_type] keeps the parameters of the context acceptable:
    when it succeeds, what it stores passes [verify_pbkdf_params] again, with
    the memory reduced to what the machine has and the threads to its
    processors. *)
Theorem set_pbkdf_type_verifies env cd cd_type pbkdf cd' :
  sane_env env -> (forall p, pbkdf = Some p -> 0 <= p_max_memory_kb p /\ 0 <= p_parallel_threads p) ->
  crypt_set_pbkdf_type env cd cd_type pbkdf = (0, cd') ->
  verify_pbkdf_params env cd_type cd' = 0 /\ p_parallel_threads cd' <= Z.max 0 (pe_cpusonline env) /\
  (p_max_memory_kb cd' <> 0 -> p_max_memory_kb cd' <= adjusted_phys_memory env).
Proof.
  intros Henv Hnn. unfold crypt_set_pbkdf_type, init_pbkdf_type. destruct (_ && _); [done|].
  match goal with |- context [verify_pbkdf_params env cd_type ?q] => set (p := q) end.
  assert (Hp : 0 <= p_max_memory_kb p /\ 0 <= p_parallel_threads p).
  { subst p. destruct pbkdf as [q|]; [by apply Hnn|]. destruct (negb _ && _); split; vm_compute; congruence. }
  clearbody p. destruct Hp as [Hm Hp]. destruct (Z.eqb_spec (verify_pbkdf_params env cd_type p) 0) as [Hv|]; [|cbn [negb]; congruence].
  cbn [negb]. destruct (verify_type_known _ _ _ Hv) as [limits El]. rewrite El. cbv beta iota zeta.
  change (has_flag (p_flags (set_flags cd 0)) CRYPT_PBKDF_ITER_TIME_SET) with false. cbv iota.
  pose proof (fun H => verify_pbkdf2_threads env cd_type p H Hv) as Hpb.
  pose proof (init_smaller env p limits Henv El Hp Hm Hpb) as [Hs Hthr]. cbv zeta in Hs, Hthr.
  intros [= <-]. split; [by eapply verify_smaller|]. cbn [p_parallel_threads p_max_memory_kb]. split.
  - repeat match goal with |- context [?a <? ?b] => destruct (Z.ltb_spec a b) | |- context [?a =? ?b] =>
      destruct (Z.eqb_spec a b) end; cbn [negb andb]; lia.
  - destruct (Z.eqb_spec (p_max_memory_kb p) 0); [cbn; lia|].
    destruct (Z.ltb_spec (adjusted_phys_memory env) (p_max_memory_kb p)); cbn; lia.
Qed.

Definition fx_pbkdf_env : pbkdf_env :=
  PbkdfEnv 0 (fun h => if bool_decide (h = "sha256") then 32 else -1) 2 1048576 false.

Lemma set_pbkdf_type_verifies_witness :
  let cd' := PbkdfType (Some "argon2id") (Some "sha256") 2000 0 524288 2 0 in
  crypt_set_pbkdf_type fx_pbkdf_env default_pbkdf2 (Some "LUKS2") (Some default_argon2id) = (0, cd') /\
  verify_pbkdf_params fx_pbkdf_env (Some "LUKS2") cd' = 0.
Proof.
  split; [vm_compute; reflexivity|].
  apply (set_pbkdf_type_verifies fx_pbkdf_env default_pbkdf2 (Some "LUKS2") (Some default_argon2id));
    [split; vm_compute; congruence|intros p [= <-]; split; vm_compute; congruence|vm_compute; reflexivity].
Defined.

(** [crypt_set_iteration_time] on a context without parameters accepts a time
    of zero, which [verify_pbkdf_params] refuses. The parameters set later
    inherit it, and the benchmark then asks PBKDF2 for the minimal iteration
    count, however fast the machine is. *)
Theorem zero_iteration_time_accepted ms :
  500 < ms ->
  let cd := crypt_set_iteration_time fx_pbkdf_env (PbkdfType None None 0 0 0 0 0) None 0 in
  exists cd', init_pbkdf_type fx_pbkdf_env cd None None (Some "LUKS1") = (0, cd') /\
    verify_pbkdf_params fx_pbkdf_env None cd' = - EINVAL /\
    exists cd'', crypt_benchmark_pbkdf_internal [(0, ms)] cd' 32 = Returns (0, cd'') /\ p_iterations cd'' = 1000.
Proof.
  intros Hms cd. exists (PbkdfType (Some CRYPT_KDF_PBKDF2) (Some "sha256") 0 0 0 0 CRYPT_PBKDF_ITER_TIME_SET).
  split; [vm_compute; reflexivity|]. split; [vm_compute; reflexivity|].
  exists (PbkdfType (Some CRYPT_KDF_PBKDF2) (Some "sha256") 0 1000 0 0 CRYPT_PBKDF_ITER_TIME_SET).
  split; [|reflexivity].
  unfold crypt_benchmark_pbkdf_internal, crypt_pbkdf_perf, crypt_pbkdf_check. cbn [p_type p_hash p_flags p_time_ms].
  change (crypt_pbkdf_get_limits (Some CRYPT_KDF_PBKDF2)) with (0, Some (PbkdfLimits 1000 UINT32_MAX 0 0 0 0)).
  change (has_flag CRYPT_PBKDF_ITER_TIME_SET CRYPT_PBKDF_NO_BENCHMARK) with false. cbv beta iota zeta.
  rewrite (bool_decide_true (Some CRYPT_KDF_PBKDF2 = _)) by done.
  rewrite (bool_decide_false (Some "sha256" = None)) by done. cbn [orb Z.leb Z.compare length pbkdf_check_loop].
  change (Z.shiftl 1 15) with 32768. rewrite Z.ltb_irrefl.
  assert (Hq : 0 <= 32768 * 1000 / ms <= UINT32_MAX).
  { split; [apply Z.div_pos; lia|]. apply Z.div_le_upper_bound; unfold UINT32_MAX; lia. }
  destruct (Z.eqb_spec ms 0); [lia|]. cbn [negb andb].
  destruct (Z.ltb_spec UINT32_MAX (32768 * 1000 / ms)); [lia|].
  destruct (Z.ltb_spec 500 ms); [|lia]. cbn [search_map].
  rewrite Z.ltb_irrefl, Z.mul_0_r. reflexivity.
Qed.

Lemma zero_iteration_time_accepted_witness :
  exists cd', init_pbkdf_type fx_pbkdf_env
      (crypt_set_iteration_time fx_pbkdf_env (PbkdfType None None 0 0 0 0 0) None 0) None None (Some "LUKS1") = (0, cd') /\
    p_time_ms cd' = 0.
Proof.
  destruct (zero_iteration_time_accepted 1000 ltac:(lia)) as (cd' & H & _).
  exists cd'. split; [exact H|]. vm_compute in H. injection H as <-. reflexivity.
Defined.

(** The search for argon2 parameters divides by zero when a run that was
    estimated to take the target time is over within a millisecond, which a
    small target time makes likely: here the target is 2 ms, memory grows from
    32 kB until a run takes 250 ms, and the run with the estimate for 2 ms
    takes less than 1 ms. *)
Theorem argon2_search_traps :
  crypt_benchmark_pbkdf_internal
    [(0, 0); (0, 1); (0, 8); (0, 150); (0, 260); (0, 260); (0, 260); (0, 0)]
    (PbkdfType (Some CRYPT_KDF_ARGON2ID) (Some "sha256") 2 0 1048576 4 0) 32 = Traps.
Proof. vm_compute. reflexivity. Qed.
