(* ===== verification/JsonC.v ===== *)
(** * JsonC: the interface to the json-c library

    json-c is not part of the repository: its objects and functions are the
    fields of the class [JsonC], and what the LUKS2 code relies on, as
    json-c documents it, is the class [JsonCLaws]. [json_null] is both the NULL
    pointer and the JSON null. Functions that json-c performs in place return
    the new value; allocation succeeds.

    [jtree_json] is an instance on finite trees; the witnesses use it. Its
    tokener recognises the printed form of a given list of documents. *)

From S2P Require Import Prelude Cstd.

Inductive json_type :=
| json_type_null | json_type_boolean | json_type_double | json_type_int
| json_type_object | json_type_array | json_type_string.

#[export] Instance json_type_eq_dec : EqDecision json_type.
Proof. solve_decision. Defined.

Class JsonC := {
  json : Type;
  json_null : json;
  json_object_get_type : json -> json_type;
  (** [Some v]: returns true with [*value = v]; [None]: false, [*value = NULL]. *)
  json_object_object_get_ex : json -> string -> option json;
  (** what [json_object_object_foreach] visits, in order *)
  json_object_entries : json -> list (string * json);
  json_object_array_elems : json -> list json;
  (** the C string json-c returns: the value of a string, the text otherwise *)
  json_object_get_string : json -> string;
  (** value and [errno] *)
  json_object_get_int64 : json -> Z * Z;
  json_object_get_int : json -> Z;
  json_object_new_object : json;
  json_object_new_array : json;
  json_object_new_string : string -> json;
  json_object_new_int : Z -> json;
  json_object_new_int64 : Z -> json;
  json_object_object_add : json -> string -> json -> json;
  json_object_object_del : json -> string -> json;
  json_object_array_add : json -> json -> json;
  (** with JSON_C_TO_STRING_PLAIN | JSON_C_TO_STRING_NOSLASHESCAPE *)
  json_object_to_json_string_ext : json -> bytes;
  (** tree and [char_offset] on success *)
  json_tokener_parse_ex : bytes -> option (json * Z);
}.

Section ops.
Context `{JC : JsonC}.

Definition json_object_is_type (j : json) (t : json_type) : bool :=
  bool_decide (json_object_get_type j = t).
Definition json_is_null (j : json) : bool := json_object_is_type j json_type_null.
Definition json_object_object_length (j : json) : Z := zlen (json_object_entries j).
Definition json_object_array_length (j : json) : Z := zlen (json_object_array_elems j).
Definition json_object_array_get_idx (j : json) (i : Z) : json :=
  if i <? 0 then json_null else default json_null (json_object_array_elems j !! Z.to_nat i).

(** [json_object_object_get_ex(j, k, &v)] when only [v] is used afterwards. *)
Definition json_get (j : json) (k : string) : json :=
  default json_null (json_object_object_get_ex j k).

(** The pointer [v] itself, [None] when it is NULL (no such key, or null). *)
Definition json_get_ptr (j : json) (k : string) : option json :=
  v ← json_object_object_get_ex j k; if json_is_null v then None else Some v.
End ops.

Class JsonCLaws `{JC : JsonC} : Prop := {
  type_null : json_object_get_type json_null = json_type_null;
  get_ex_type : forall j k v,
    json_object_object_get_ex j k = Some v -> json_object_get_type j = json_type_object;
  entries_lookup : forall j k v,
    json_object_object_get_ex j k = Some v <-> (k, v) ∈ json_object_entries j;
  entries_nodup : forall j, NoDup ((json_object_entries j).*1);
  new_object_type : json_object_get_type json_object_new_object = json_type_object;
  new_object_entries : json_object_entries json_object_new_object = [];
  new_array_type : json_object_get_type json_object_new_array = json_type_array;
  new_array_elems : json_object_array_elems json_object_new_array = [];
  new_string_type : forall s, json_object_get_type (json_object_new_string s) = json_type_string;
  new_string_get : forall s, json_object_get_string (json_object_new_string s) = s;
  new_int_type : forall z, json_object_get_type (json_object_new_int z) = json_type_int;
  new_int_get : forall z, json_object_get_int (json_object_new_int z) = i32 z;
  new_int_get64 : forall z, json_object_get_int64 (json_object_new_int z) = (i32 z, 0);
  new_int64_type : forall z, json_object_get_type (json_object_new_int64 z) = json_type_int;
  new_int64_get64 : forall z, json_object_get_int64 (json_object_new_int64 z) = (i64 z, 0);
  object_add_type : forall j k v, json_object_get_type j = json_type_object ->
    json_object_get_type (json_object_object_add j k v) = json_type_object;
  object_add_get : forall j k v k', json_object_get_type j = json_type_object ->
    json_object_object_get_ex (json_object_object_add j k v) k' =
      if decide (k' = k) then Some v else json_object_object_get_ex j k';
  (** a new key is appended, an existing one keeps its place *)
  object_add_entries_new : forall j k v, json_object_get_type j = json_type_object ->
    json_object_object_get_ex j k = None ->
    json_object_entries (json_object_object_add j k v) = json_object_entries j ++ [(k, v)];
  object_add_entries_old : forall j k v v', json_object_object_get_ex j k = Some v' ->
    json_object_entries (json_object_object_add j k v) =
      (fun kv => if decide (kv.1 = k) then (k, v) else kv) <$> json_object_entries j;
  object_del_type : forall j k, json_object_get_type j = json_type_object ->
    json_object_get_type (json_object_object_del j k) = json_type_object;
  object_del_entries : forall j k, json_object_get_type j = json_type_object ->
    json_object_entries (json_object_object_del j k) =
      filter (fun kv => kv.1 <> k) (json_object_entries j);
  array_add_type : forall j v, json_object_get_type j = json_type_array ->
    json_object_get_type (json_object_array_add j v) = json_type_array;
  array_add_elems : forall j v, json_object_get_type j = json_type_array ->
    json_object_array_elems (json_object_array_add j v) = json_object_array_elems j ++ [v];
}.

Section laws.
Context `{JL : JsonCLaws}.

Lemma get_ex_add_same j k v :
  json_object_get_type j = json_type_object ->
  json_object_object_get_ex (json_object_object_add j k v) k = Some v.
Proof. intros H. rewrite object_add_get by done. by rewrite decide_True. Qed.

Lemma get_ex_add_other j k v k' :
  json_object_get_type j = json_type_object -> k' <> k ->
  json_object_object_get_ex (json_object_object_add j k v) k' = json_object_object_get_ex j k'.
Proof. intros H Hne. rewrite object_add_get by done. by rewrite decide_False. Qed.

Lemma get_ex_None j k : json_object_object_get_ex j k = None <-> k ∉ (json_object_entries j).*1.
Proof.
  split.
  - intros HN [[k' v] [-> Hin]]%list_elem_of_fmap. apply entries_lookup in Hin. simpl in *. congruence.
  - intros Hk. destruct (json_object_object_get_ex j k) as [v|] eqn:E; [|done].
    apply entries_lookup in E. destruct Hk. apply list_elem_of_fmap. by exists (k, v).
Qed.

Lemma object_del_get j k k' :
  json_object_get_type j = json_type_object ->
  json_object_object_get_ex (json_object_object_del j k) k' =
    if decide (k' = k) then None else json_object_object_get_ex j k'.
Proof.
  intros Hj. case_decide as Hk.
  - apply get_ex_None. rewrite object_del_entries by done.
    intros [[a v] [Ha Hin]]%list_elem_of_fmap. apply list_elem_of_filter in Hin. simpl in *.
    destruct Hin. congruence.
  - destruct (json_object_object_get_ex j k') as [v|] eqn:E.
    + apply entries_lookup. rewrite object_del_entries by done. apply list_elem_of_filter.
      split; [done|]. by apply entries_lookup.
    + apply get_ex_None. apply get_ex_None in E. rewrite object_del_entries by done.
      intros [[a v] [-> Hin]]%list_elem_of_fmap. apply list_elem_of_filter in Hin as [_ Hin].
      apply E. apply list_elem_of_fmap. by exists (a, v).
Qed.

Lemma entries_type j kv : kv ∈ json_object_entries j -> json_object_get_type j = json_type_object.
Proof. destruct kv as [k v]. intros Hin. apply entries_lookup in Hin. by eapply get_ex_type. Qed.

Lemma new_object_get k : json_object_object_get_ex json_object_new_object k = None.
Proof. apply get_ex_None. rewrite new_object_entries. apply not_elem_of_nil. Qed.

Lemma is_type_spec j t : json_object_is_type j t = true <-> json_object_get_type j = t.
Proof. unfold json_object_is_type. apply bool_decide_eq_true. Qed.
End laws.

(** ** Trees *)

#[warnings="-register-all"]
Inductive jtree :=
| JNull
| JBool (b : bool)
| JInt (z : Z)
| JString (s : string)
| JArray (l : list jtree)
| JObject (l : list (string * jtree)).

Section tree.
Variable known : list jtree.

Definition jtree_type (j : jtree) : json_type :=
  match j with
  | JNull => json_type_null
  | JBool _ => json_type_boolean
  | JInt _ => json_type_int
  | JString _ => json_type_string
  | JArray _ => json_type_array
  | JObject _ => json_type_object
  end.

Fixpoint assoc (l : list (string * jtree)) (k : string) : option jtree :=
  match l with
  | [] => None
  | (k', v) :: l' => if decide (k = k') then Some v else assoc l' k
  end.

(** Keys that occur again later in the list are shadowed. *)
Fixpoint dedup (seen : list string) (l : list (string * jtree)) : list (string * jtree) :=
  match l with
  | [] => []
  | (k, v) :: l' => if decide (k ∈ seen) then dedup seen l' else (k, v) :: dedup (k :: seen) l'
  end.

Definition jtree_entries (j : jtree) : list (string * jtree) :=
  match j with JObject l => dedup [] l | _ => [] end.

Definition quote : string := String (Ascii.ascii_of_nat 34) EmptyString.

Fixpoint jtree_print (j : jtree) : string :=
  match j with
  | JNull => "null"
  | JBool true => "true"
  | JBool false => "false"
  | JInt z => if z <? 0 then "-" +:+ dec_u (- z) else dec_u z
  | JString s => quote +:+ s +:+ quote
  | JArray l =>
      "[" +:+ (fix go (first : bool) (l : list jtree) : string :=
        match l with
        | [] => ""
        | v :: l' => (if first then "" else ",") +:+ jtree_print v +:+ go false l'
        end) true l +:+ "]"
  | JObject l =>
      "{" +:+ (fix go (first : bool) (l : list (string * jtree)) : string :=
        match l with
        | [] => ""
        | (k, v) :: l' =>
            (if first then "" else ",") +:+ quote +:+ k +:+ quote +:+ ":" +:+ jtree_print v +:+
            go false l'
        end) true l +:+ "}"
  end.

Fixpoint is_prefix (a b : bytes) : bool :=
  match a, b with
  | [], _ => true
  | x :: a', y :: b' => bool_decide (x = y) && is_prefix a' b'
  | _, _ => false
  end.

Fixpoint jtree_parse (docs : list jtree) (s : bytes) : option (jtree * Z) :=
  match docs with
  | [] => None
  | j :: docs' =>
      let t := bytes_of_string (jtree_print j) in
      if is_prefix t s then Some (j, zlen t) else jtree_parse docs' s
  end.

Fixpoint obj_set (l : list (string * jtree)) (k : string) (v : jtree) : list (string * jtree) :=
  match l with
  | [] => [(k, v)]
  | (k', v') :: l' => if decide (k = k') then (k', v) :: l' else (k', v') :: obj_set l' k v
  end.

#[export] Instance jtree_json : JsonC := {
  json := jtree;
  json_null := JNull;
  json_object_get_type := jtree_type;
  json_object_object_get_ex j k := assoc (jtree_entries j) k;
  json_object_entries := jtree_entries;
  json_object_array_elems j := match j with JArray l => l | _ => [] end;
  json_object_get_string j := match j with JString s => s | _ => jtree_print j end;
  json_object_get_int64 j :=
    match j with
    | JInt z => (Z.max INT64_MIN (Z.min INT64_MAX z), 0)
    | JBool b => (if b then 1 else 0, 0)
    | _ => (0, 0)
    end;
  json_object_get_int j :=
    match j with
    | JInt z => Z.max (- 2 ^ 31) (Z.min INT32_MAX z)
    | JBool b => if b then 1 else 0
    | _ => 0
    end;
  json_object_new_object := JObject [];
  json_object_new_array := JArray [];
  json_object_new_string := JString;
  json_object_new_int z := JInt (i32 z);
  json_object_new_int64 z := JInt (i64 z);
  json_object_object_add j k v :=
    match j with JObject _ => JObject (obj_set (jtree_entries j) k v) | _ => j end;
  json_object_object_del j k :=
    match j with JObject _ => JObject (filter (fun kv => kv.1 <> k) (jtree_entries j)) | _ => j end;
  json_object_array_add j v := match j with JArray l => JArray (l ++ [v]) | _ => j end;
  json_object_to_json_string_ext j := bytes_of_string (jtree_print j);
  json_tokener_parse_ex := jtree_parse known;
}.

Lemma dedup_keys seen l : forall k, k ∈ (dedup seen l).*1 -> k ∉ seen.
Proof.
  revert seen. induction l as [|[k v] l IH]; intros seen k' Hk'; simpl in *; [by apply elem_of_nil in Hk'|].
  case_decide; [by apply IH|]. apply elem_of_cons in Hk' as [->|Hk']; [done|].
  apply IH in Hk'. set_solver.
Qed.

Lemma dedup_nodup seen l : NoDup (dedup seen l).*1.
Proof.
  revert seen. induction l as [|[k v] l IH]; intros seen; simpl; [constructor|].
  case_decide; [done|]. constructor; [|done]. intros Hk. apply dedup_keys in Hk. set_solver.
Qed.

Lemma dedup_id seen l :
  NoDup l.*1 -> (forall k, k ∈ l.*1 -> k ∉ seen) -> dedup seen l = l.
Proof.
  revert seen. induction l as [|[k v] l IH]; intros seen Hnd Hs; simpl; [done|].
  inversion Hnd; subst. rewrite decide_False by (apply Hs; set_solver). f_equal.
  apply IH; [done|]. intros k' Hk'. assert (k' <> k) by set_solver.
  assert (k' ∉ seen) by (apply Hs; set_solver). set_solver.
Qed.

Lemma assoc_elem l k v : NoDup l.*1 -> assoc l k = Some v <-> (k, v) ∈ l.
Proof.
  induction l as [|[k' v'] l IH]; simpl; intros Hnd; [set_solver|]. inversion Hnd; subst.
  case_decide as E.
  - subst. split; [intros [= ->]; set_solver|]. intros [?|Hin]%elem_of_cons; [congruence|].
    exfalso. match goal with H : _ ∉ _ |- _ => apply H end. apply list_elem_of_fmap. by exists (k', v).
  - rewrite IH by done. rewrite elem_of_cons. split; [auto|]. intros [?|?]; [congruence|done].
Qed.

Lemma obj_set_keys_in l k v k' : k' ∈ (obj_set l k v).*1 -> k' = k \/ k' ∈ l.*1.
Proof.
  induction l as [|[k1 v1] l IH]; simpl; [set_solver|]. case_decide; simpl; set_solver.
Qed.

Lemma obj_set_nodup l k v : NoDup l.*1 -> NoDup (obj_set l k v).*1.
Proof.
  induction l as [|[k1 v1] l IH]; simpl; intros Hnd.
  - apply NoDup_singleton.
  - inversion Hnd; subst. case_decide; simpl; [done|]. constructor; [|auto].
    intros Hin. apply obj_set_keys_in in Hin as [?|?]; [congruence|done].
Qed.

Lemma obj_set_assoc l k v k' :
  assoc (obj_set l k v) k' = if decide (k' = k) then Some v else assoc l k'.
Proof.
  induction l as [|[k1 v1] l IH]; simpl.
  - repeat case_decide; congruence.
  - destruct (decide (k = k1)); simpl; rewrite ?IH; repeat case_decide; congruence.
Qed.

Lemma obj_set_new l k v : k ∉ l.*1 -> obj_set l k v = l ++ [(k, v)].
Proof.
  induction l as [|[k1 v1] l IH]; simpl; intros Hk; [done|].
  rewrite decide_False by set_solver. f_equal. apply IH. set_solver.
Qed.

Lemma obj_set_old l k v :
  NoDup l.*1 -> k ∈ l.*1 -> obj_set l k v = (fun kv => if decide (kv.1 = k) then (k, v) else kv) <$> l.
Proof.
  induction l as [|[k1 v1] l IH]; simpl; intros Hnd Hk; [by apply elem_of_nil in Hk|].
  inversion Hnd; subst. case_decide as E.
  - subst. rewrite decide_True by done. f_equal. rewrite <-(list_fmap_id l) at 1.
    apply list_fmap_ext. intros i [a b] Hi. simpl. rewrite decide_False; [done|]. intros ->.
    match goal with H : _ ∉ _ |- _ => apply H end.
    apply list_elem_of_fmap. exists (k1, b). split; [done|]. by eapply list_elem_of_lookup_2.
  - rewrite decide_False by congruence. f_equal. apply IH; [done|]. set_solver.
Qed.

Lemma dedup_nil_id l : NoDup l.*1 -> dedup [] l = l.
Proof. intros H. apply dedup_id; [done|]. set_solver. Qed.

#[export] Instance jtree_laws : @JsonCLaws jtree_json.
Proof.
  assert (Hnd : forall j, NoDup (jtree_entries j).*1).
  { intros []; simpl; try constructor. apply dedup_nodup. }
  split; simpl; try done; intros.
  - destruct j; simpl in *; congruence.
  - by apply assoc_elem.
  - pose proof (i32_range z). unfold INT32_MAX. lia.
  - pose proof (i32_range z). f_equal. unfold INT64_MIN, INT64_MAX. lia.
  - pose proof (i64_range z). f_equal. unfold INT64_MIN, INT64_MAX. lia.
  - by destruct j.
  - destruct j; try done. simpl. rewrite dedup_nil_id by apply obj_set_nodup, dedup_nodup.
    apply obj_set_assoc.
  - destruct j; try done. simpl in *. rewrite dedup_nil_id by apply obj_set_nodup, dedup_nodup.
    apply obj_set_new. intros [[k' v'] [-> Hin]]%list_elem_of_fmap. simpl in *.
    apply assoc_elem in Hin; [congruence|apply dedup_nodup].
  - destruct j; simpl in *; try done. rewrite dedup_nil_id by apply obj_set_nodup, dedup_nodup.
    apply obj_set_old; [apply dedup_nodup|]. apply list_elem_of_fmap. exists (k, v').
    split; [done|]. apply assoc_elem; [apply dedup_nodup|done].
  - by destruct j.
  - destruct j; try done. simpl. apply dedup_nil_id. pose proof (dedup_nodup [] l) as Hl.
    eapply sublist_NoDup; [exact Hl|]. apply fmap_sublist, sublist_filter.
  - by destruct j.
  - by destruct j.
Qed.
End tree.
