(* ===== verification/Luks2Json.v ===== *)
(** * Luks2Json: access helpers on the LUKS2 JSON header

    lib/luks2/luks2_json_metadata.c (array, section and number helpers,
    persistent flags, requirements) and the segment accessors of
    lib/luks2/luks2_segment.c. The in-memory header [struct luks2_hdr] is the
    record [luks2_hdr]; a [json_object *] result that may be NULL is an option
    where the code tests it. Example headers for the witnesses are at the end. *)

From S2P Require Import Prelude Cstd JsonC.

Definition LUKS2_KEYSLOTS_MAX : Z := 32.
Definition LUKS2_DIGEST_MAX : Z := 8.
Definition LUKS2_HDR_BIN_LEN : Z := 4096.
Definition SECTOR_SIZE : Z := 512.
Definition SECTOR_SHIFT : Z := 9.
Definition CRYPT_ANY_SEGMENT : Z := -1.
Definition CRYPT_DEFAULT_SEGMENT : Z := -2.
Definition CRYPT_ONE_SEGMENT : Z := -3.
Definition CRYPT_ANY_DIGEST : Z := -1.
Definition CRYPT_ANY_SLOT : Z := -1.

(** libcryptsetup_macros.h *)
Definition MISALIGNED (a b : Z) : Z := Z.land a (b - 1).
Definition MISALIGNED_4K (a : Z) : Z := MISALIGNED a 4096.
Definition MISALIGNED_512 (a : Z) : Z := MISALIGNED a 512.
Definition NOTPOW2 (a : Z) : Z := MISALIGNED a a.

Lemma MISALIGNED_pow2 a k : 0 <= k -> MISALIGNED a (2 ^ k) = a mod 2 ^ k.
Proof.
  intros Hk. unfold MISALIGNED. rewrite <-Z.land_ones by done.
  f_equal. rewrite Z.ones_equiv. lia.
Qed.

Lemma MISALIGNED_512_mod a : MISALIGNED_512 a = a mod 512.
Proof. apply (MISALIGNED_pow2 a 9). lia. Qed.

Lemma MISALIGNED_4K_mod a : MISALIGNED_4K a = a mod 4096.
Proof. apply (MISALIGNED_pow2 a 12). lia. Qed.

#[export] Hint Rewrite MISALIGNED_512_mod MISALIGNED_4K_mod : cs_bits.

Record luks2_hdr `{JC : JsonC} := Luks2Hdr {
  hdr_size : Z;
  seqid : Z;
  version : Z;
  label : bytes;
  subsystem : bytes;
  checksum_alg : bytes;
  salt1 : bytes;
  salt2 : bytes;
  uuid : bytes;
  jobj : json;
}.

Section helpers.
Context `{JC : JsonC}.

Definition set_jobj (hdr : luks2_hdr) (j : json) : luks2_hdr :=
  Luks2Hdr _ (hdr_size hdr) (seqid hdr) (version hdr) (label hdr) (subsystem hdr)
    (checksum_alg hdr) (salt1 hdr) (salt2 hdr) (uuid hdr) j.

(** ** Arrays *)

Definition LUKS2_array_jobj (array : json) (num : string) : option json :=
  List.find (fun jobj1 => bool_decide (num = json_object_get_string jobj1))
    (json_object_array_elems array).

(** The object found is left out; objects are compared by address, so only
    the first one equal to [num] goes. *)
Fixpoint remove_first (num : string) (l : list json) : list json :=
  match l with
  | [] => []
  | j :: l' => if bool_decide (num = json_object_get_string j) then l' else j :: remove_first num l'
  end.

Definition LUKS2_array_remove (array : json) (num : string) : option json :=
  match LUKS2_array_jobj array num with
  | None => None
  | Some _ =>
      Some (fold_left json_object_array_add (remove_first num (json_object_array_elems array))
              json_object_new_array)
  end.

(** ** Numbers *)

(** Success flag and value; the value is 0 on failure. *)
Definition json_str_to_uint64 (j : json) : bool * Z :=
  let '(tmp, endptr, errno) := strtoull (json_object_get_string j) in
  if negb (bool_decide (endptr = EmptyString)) || negb (errno =? 0) then (false, 0)
  else (true, tmp).

Definition crypt_jobj_get_uint64 (j : json) : Z := snd (json_str_to_uint64 j).
Definition crypt_jobj_get_uint32 (j : json) : Z := u32 (fst (json_object_get_int64 j)).
Definition crypt_jobj_new_uint64 (value : Z) : json := json_object_new_string (dec_u value).

(** ** Validation helpers *)

Definition numbered (key : string) : bool := all_digits key.

Definition json_contains (j : json) (key : string) (type : json_type) : option json :=
  match json_object_object_get_ex j key with
  | Some sobj => if json_object_is_type sobj type then Some sobj else None
  | None => None
  end.

Definition validate_json_uint32 (j : json) : bool :=
  let '(tmp, errno) := json_object_get_int64 j in
  negb (negb (errno =? 0) || (tmp <? 0) || (UINT32_MAX <? tmp)).

(** ** Sections of the header *)

Definition LUKS2_get_keyslot_jobj (hdr : luks2_hdr) (keyslot : Z) : option json :=
  if keyslot <? 0 then None
  else
    jobj1 ← json_object_object_get_ex (jobj hdr) "keyslots";
    json_get_ptr jobj1 (dec_u32 keyslot).

Definition LUKS2_get_tokens_jobj (hdr : luks2_hdr) : option json :=
  json_get_ptr (jobj hdr) "tokens".

Definition LUKS2_get_token_jobj (hdr : luks2_hdr) (token : Z) : option json :=
  if token <? 0 then None
  else
    jobj1 ← LUKS2_get_tokens_jobj hdr;
    json_get_ptr jobj1 (dec_u32 token).

Definition LUKS2_get_digest_jobj (hdr : luks2_hdr) (digest : Z) : option json :=
  if digest <? 0 then None
  else
    jobj1 ← json_object_object_get_ex (jobj hdr) "digests";
    json_get_ptr jobj1 (dec_u32 digest).

Definition json_get_segments_jobj (hdr_jobj : json) : option json :=
  json_get_ptr hdr_jobj "segments".

Definition LUKS2_get_segments_jobj (hdr : luks2_hdr) : option json :=
  json_get_segments_jobj (jobj hdr).

(** ** Segments (luks2_segment.c) *)

Definition json_segment_get_flags (jobj_segment : json) : option json :=
  json_get_ptr jobj_segment "flags".

(** [strncmp(s, flag, len)] with [len = strlen(flag)] tests for a prefix. *)
Definition json_segment_contains_flag (jobj_segment : json) (flag_str : string) (len : bool) : bool :=
  match json_segment_get_flags jobj_segment with
  | None => false
  | Some jobj_flags =>
      existsb (fun j =>
        let s := json_object_get_string j in
        if len then String.prefix flag_str s else bool_decide (s = flag_str))
        (json_object_array_elems jobj_flags)
  end.

Definition json_segment_is_backup (jobj_segment : json) : bool :=
  json_segment_contains_flag jobj_segment "backup-" true.

Definition blockwise_shift (blockwise : bool) (v : Z) : Z :=
  if blockwise then Z.shiftr v SECTOR_SHIFT else v.

Definition json_segment_get_offset (jobj_segment : option json) (blockwise : bool) : Z :=
  match jobj_segment ≫= (fun s => json_object_object_get_ex s "offset") with
  | None => 0
  | Some j => blockwise_shift blockwise (crypt_jobj_get_uint64 j)
  end.

Definition json_segment_type (jobj_segment : option json) : option string :=
  j ← jobj_segment ≫= (fun s => json_object_object_get_ex s "type");
  Some (json_object_get_string j).

Definition json_segment_get_iv_offset (jobj_segment : option json) : Z :=
  match jobj_segment ≫= (fun s => json_object_object_get_ex s "iv_tweak") with
  | None => 0
  | Some j => crypt_jobj_get_uint64 j
  end.

Definition json_segment_get_size (jobj_segment : option json) (blockwise : bool) : Z :=
  match jobj_segment ≫= (fun s => json_object_object_get_ex s "size") with
  | None => 0
  | Some j => blockwise_shift blockwise (crypt_jobj_get_uint64 j)
  end.

Definition json_segment_get_cipher (jobj_segment : option json) : string :=
  match jobj_segment ≫= (fun s => json_object_object_get_ex s "encryption") with
  | None => "null"
  | Some j => json_object_get_string j
  end.

Definition json_segment_get_sector_size (jobj_segment : option json) : Z :=
  match jobj_segment ≫= (fun s => json_object_object_get_ex s "sector_size") with
  | None => -1
  | Some j => json_object_get_int j
  end.

(** The loop of [json_segments_get_minimal_offset]: an offset of 0 ends it. *)
Fixpoint minimal_offset_loop (blockwise : bool) (l : list (string * json)) (min : Z) : Z :=
  match l with
  | [] => min
  | (_, val) :: l' =>
      if json_segment_is_backup val then minimal_offset_loop blockwise l' min
      else
        let tmp := json_segment_get_offset (Some val) blockwise in
        if tmp =? 0 then tmp
        else minimal_offset_loop blockwise l' (if tmp <? min then tmp else min)
  end.

Definition json_segments_get_minimal_offset (jobj_segments : option json) (blockwise : bool) : Z :=
  match jobj_segments with
  | None => 0
  | Some j =>
      minimal_offset_loop blockwise (json_object_entries j) (blockwise_shift blockwise UINT64_MAX)
  end.

Definition json_segments_get_segment (jobj_segments : json) (segment : Z) : option json :=
  json_get_ptr jobj_segments (dec_u32 segment).

Definition json_segments_count (jobj_segments : option json) : Z :=
  match jobj_segments with
  | None => 0
  | Some j => zlen (filter (fun kv => json_segment_is_backup kv.2 = false) (json_object_entries j))
  end.

(** [_get_segment_or_id_by_flag]: the first segment whose flags hold [flag]. *)
Definition _get_segment_or_id_by_flag (jobj_segments : json) (flag : string) : option (string * json) :=
  List.find (fun kv =>
      match json_object_object_get_ex kv.2 "flags" with
      | None => false
      | Some jobj_flags => bool_decide (is_Some (LUKS2_array_jobj jobj_flags flag))
      end) (json_object_entries jobj_segments).

Definition LUKS2_get_segment_id_by_flag (hdr : luks2_hdr) (flag : string) : Z :=
  match LUKS2_get_segments_jobj hdr ≫= (fun j => _get_segment_or_id_by_flag j flag) with
  | Some (key, _) => atoi key
  | None => - ENOENT
  end.

Definition LUKS2_get_segment_by_flag (hdr : luks2_hdr) (flag : string) : option json :=
  snd <$> (LUKS2_get_segments_jobj hdr ≫= (fun j => _get_segment_or_id_by_flag j flag)).

Definition LUKS2_segments_count (hdr : luks2_hdr) : Z :=
  json_segments_count (LUKS2_get_segments_jobj hdr).

Definition LUKS2_get_default_segment (hdr : luks2_hdr) : Z :=
  let s := LUKS2_get_segment_id_by_flag hdr "backup-final" in
  if 0 <=? s then s
  else if LUKS2_segments_count hdr =? 1 then 0 else - EINVAL.

Definition LUKS2_get_segment_jobj (hdr : luks2_hdr) (segment : Z) : option json :=
  let segment := if segment =? CRYPT_DEFAULT_SEGMENT then LUKS2_get_default_segment hdr else segment in
  json_get_segments_jobj (jobj hdr) ≫= (fun j => json_segments_get_segment j segment).

Definition LUKS2_segment_offset (hdr : luks2_hdr) (segment : Z) (blockwise : bool) : Z :=
  json_segment_get_offset (LUKS2_get_segment_jobj hdr segment) blockwise.

Definition LUKS2_segment_size (hdr : luks2_hdr) (segment : Z) (blockwise : bool) : Z :=
  json_segment_get_size (LUKS2_get_segment_jobj hdr segment) blockwise.

Definition LUKS2_segment_is_type (hdr : luks2_hdr) (segment : Z) (type : string) : bool :=
  bool_decide (default "" (json_segment_type (LUKS2_get_segment_jobj hdr segment)) = type).

Definition json_segments_segment_in_reencrypt (jobj_segments : json) : Z :=
  match List.find (fun kv =>
      match json_object_object_get_ex kv.2 "flags" with
      | None => false
      | Some jobj_flags => bool_decide (is_Some (LUKS2_array_jobj jobj_flags "in-reencryption"))
      end) (json_object_entries jobj_segments) with
  | Some (slot, _) => atoi slot
  | None => -1
  end.

Definition regular_of_type (type : string) (kv : string * json) : bool :=
  negb (json_segment_is_backup kv.2) &&
  bool_decide (type = default "" (json_segment_type (Some kv.2))).

Definition LUKS2_last_segment_by_type (hdr : luks2_hdr) (type : string) : Z :=
  match json_object_object_get_ex (jobj hdr) "segments" with
  | None => -1
  | Some j =>
      fold_left (fun last_found kv =>
          if regular_of_type type kv
          then if last_found <? atoi kv.1 then atoi kv.1 else last_found
          else last_found)
        (json_object_entries j) (-1)
  end.

Definition LUKS2_segment_by_type (hdr : luks2_hdr) (type : string) : Z :=
  match json_object_object_get_ex (jobj hdr) "segments" with
  | None => - EINVAL
  | Some j =>
      fold_left (fun first_found kv =>
          if regular_of_type type kv
          then if first_found <? 0 then atoi kv.1
               else if atoi kv.1 <? first_found then atoi kv.1 else first_found
          else first_found)
        (json_object_entries j) (-1)
  end.

Definition LUKS2_segment_first_unused_id (hdr : luks2_hdr) : Z :=
  match json_object_object_get_ex (jobj hdr) "segments" with
  | None => - EINVAL
  | Some j =>
      i32 (fold_left (fun last_id kv => if last_id <? atoi kv.1 then atoi kv.1 else last_id)
             (json_object_entries j) (-1) + 1)
  end.

(** ** Sizes *)

Definition LUKS2_metadata_size_jobj (j : json) : Z :=
  crypt_jobj_get_uint64 (json_get (json_get j "config") "json_size") +64 LUKS2_HDR_BIN_LEN.

Definition LUKS2_metadata_size (hdr : luks2_hdr) : Z := LUKS2_metadata_size_jobj (jobj hdr).

Definition LUKS2_keyslots_size_jobj (j : json) : Z :=
  crypt_jobj_get_uint64 (json_get (json_get j "config") "keyslots_size").

Definition LUKS2_keyslots_size (hdr : luks2_hdr) : Z := LUKS2_keyslots_size_jobj (jobj hdr).

Definition LUKS2_hdr_and_areas_size_jobj (j : json) : Z :=
  2 *64 LUKS2_metadata_size_jobj j +64 LUKS2_keyslots_size_jobj j.

Definition LUKS2_hdr_and_areas_size (hdr : luks2_hdr) : Z := LUKS2_hdr_and_areas_size_jobj (jobj hdr).

(** ** Persistent flags and requirements *)

Definition persistent_flags : list (Z * string) :=
  [ (Z.shiftl 1 3, "allow-discards"); (Z.shiftl 1 6, "same-cpu-crypt");
    (Z.shiftl 1 7, "submit-from-crypt-cpus"); (Z.shiftl 1 12, "no-journal");
    (Z.shiftl 1 24, "no-read-workqueue"); (Z.shiftl 1 25, "no-write-workqueue") ]%string.

Definition CRYPT_REQUIREMENT_OFFLINE_REENCRYPT : Z := Z.shiftl 1 0.
Definition CRYPT_REQUIREMENT_ONLINE_REENCRYPT : Z := Z.shiftl 1 1.
Definition CRYPT_REQUIREMENT_UNKNOWN : Z := Z.shiftl 1 31.
Definition ETXTBSY : Z := 26.

Definition requirements_flags : list (Z * string) :=
  [ (CRYPT_REQUIREMENT_OFFLINE_REENCRYPT, "offline-reencrypt");
    (CRYPT_REQUIREMENT_ONLINE_REENCRYPT, "online-reencrypt") ]%string.

Definition reqs_unknown (reqs : Z) : bool := negb (Z.land reqs CRYPT_REQUIREMENT_UNKNOWN =? 0).
Definition reqs_reencrypt (reqs : Z) : bool := negb (Z.land reqs CRYPT_REQUIREMENT_OFFLINE_REENCRYPT =? 0).
Definition reqs_reencrypt_online (reqs : Z) : bool :=
  negb (Z.land reqs CRYPT_REQUIREMENT_ONLINE_REENCRYPT =? 0).

Definition flag_by_name (table : list (Z * string)) (name : string) : option Z :=
  fst <$> List.find (fun fd => bool_decide (fd.2 = name)) table.

Definition LUKS2_config_get_flags (hdr : luks2_hdr) : Z :=
  match json_object_object_get_ex (jobj hdr) "config" ≫= (fun c => json_object_object_get_ex c "flags") with
  | None => 0
  | Some jobj_flags =>
      fold_left (fun flags jobj1 =>
          match flag_by_name persistent_flags (json_object_get_string jobj1) with
          | Some f => Z.lor flags f
          | None => flags
          end) (json_object_array_elems jobj_flags) 0
  end.

(** The new header; the commit ([LUKS2_hdr_write]) is the caller's. *)
Definition LUKS2_config_set_flags_jobj (hdr : luks2_hdr) (flags : Z) : luks2_hdr :=
  match json_object_object_get_ex (jobj hdr) "config" with
  | None => hdr
  | Some jobj_config =>
      let jobj_flags :=
        fold_left (fun a fd => if negb (Z.land flags fd.1 =? 0)
                               then json_object_array_add a (json_object_new_string fd.2) else a)
          persistent_flags json_object_new_array in
      set_jobj hdr (json_object_object_add (jobj hdr) "config"
                      (json_object_object_add jobj_config "flags" jobj_flags))
  end.

Definition get_requirement_by_name (requirement : string) : Z :=
  default CRYPT_REQUIREMENT_UNKNOWN (flag_by_name requirements_flags requirement).

Definition LUKS2_config_get_requirements (hdr : luks2_hdr) : Z :=
  match json_object_object_get_ex (jobj hdr) "config" ≫= (fun c =>
        json_object_object_get_ex c "requirements" ≫= (fun r =>
        json_object_object_get_ex r "mandatory")) with
  | None => 0
  | Some jobj_mandatory =>
      fold_left (fun reqs j => Z.lor reqs (get_requirement_by_name (json_object_get_string j)))
        (json_object_array_elems jobj_mandatory) 0
  end.

(** The new header or the error; the array of known requirements is built
    first and any remaining bit is refused. *)
Definition requirements_array (reqs : Z) : json * Z :=
  fold_left (fun st fd =>
      if negb (Z.land (snd st) fd.1 =? 0)
      then (json_object_array_add (fst st) (json_object_new_string fd.2),
            Z.land (snd st) (u32 (Z.lnot fd.1)))
      else st) requirements_flags (json_object_new_array, reqs).

Definition LUKS2_config_set_requirements_jobj (hdr : luks2_hdr) (reqs : Z) : Z * luks2_hdr :=
  let '(jobj_mandatory, reqs) := requirements_array reqs in
  if negb (reqs =? 0) then (- EINVAL, hdr)
  else match json_object_object_get_ex (jobj hdr) "config" with
  | None => (- EINVAL, hdr)
  | Some jobj_config =>
      let jobj_requirements :=
        default json_object_new_object (json_object_object_get_ex jobj_config "requirements") in
      let jobj_requirements :=
        if 0 <? json_object_array_length jobj_mandatory
        then json_object_object_add jobj_requirements "mandatory" jobj_mandatory
        else json_object_object_del jobj_requirements "mandatory" in
      let jobj_config :=
        if json_object_object_length jobj_requirements =? 0
        then json_object_object_del jobj_config "requirements"
        else json_object_object_add jobj_config "requirements" jobj_requirements in
      (0, set_jobj hdr (json_object_object_add (jobj hdr) "config" jobj_config))
  end.

Definition LUKS2_unmet_requirements (hdr : luks2_hdr) (reqs_mask : Z) : Z :=
  let reqs := LUKS2_config_get_requirements hdr in
  if reqs_unknown reqs then - ETXTBSY
  else
    let reqs := Z.land reqs (u32 (Z.lnot reqs_mask)) in
    if negb (reqs =? 0) then - EINVAL else 0.

Inductive crypt_reencrypt_info :=
| CRYPT_REENCRYPT_NONE | CRYPT_REENCRYPT_CLEAN | CRYPT_REENCRYPT_CRASH | CRYPT_REENCRYPT_INVALID.

#[export] Instance crypt_reencrypt_info_eq_dec : EqDecision crypt_reencrypt_info.
Proof. solve_decision. Defined.

Definition LUKS2_reencrypt_status (hdr : luks2_hdr) : crypt_reencrypt_info :=
  if negb (reqs_reencrypt_online (LUKS2_config_get_requirements hdr)) then CRYPT_REENCRYPT_NONE
  else if json_segments_segment_in_reencrypt (json_get (jobj hdr) "segments") <? 0
  then CRYPT_REENCRYPT_CLEAN else CRYPT_REENCRYPT_CRASH.

Definition LUKS2_get_data_offset (hdr : luks2_hdr) : Z :=
  let minimal := json_segments_get_minimal_offset (LUKS2_get_segments_jobj hdr) true in
  match LUKS2_reencrypt_status hdr with
  | CRYPT_REENCRYPT_CLEAN | CRYPT_REENCRYPT_CRASH =>
      match LUKS2_get_segment_by_flag hdr "backup-final" with
      | Some j => json_segment_get_offset (Some j) true
      | None => minimal
      end
  | _ => minimal
  end.

(** Result code, size and whether it is dynamic. *)
Fixpoint data_size_loop (l : list (string * json)) (tmp : Z) : Z * Z * bool :=
  match l with
  | [] => if tmp =? 0 then (- EINVAL, 0, false) else (0, tmp, false)
  | (_, val) :: l' =>
      if json_segment_is_backup val then data_size_loop l' tmp
      else
        let jobj_size := json_get val "size" in
        if bool_decide (json_object_get_string jobj_size = "dynamic") then
          let sector_size := json_segment_get_sector_size (Some val) in
          (0, if tmp =? 0 then 0
              else tmp +64 (if 0 <? sector_size then sector_size else SECTOR_SIZE), true)
        else data_size_loop l' (tmp +64 crypt_jobj_get_uint64 jobj_size)
  end.

Definition LUKS2_get_data_size (hdr : luks2_hdr) : Z * Z * bool :=
  match json_object_object_get_ex (jobj hdr) "segments" with
  | None => (- EINVAL, 0, false)
  | Some j => data_size_loop (json_object_entries j) 0
  end.
End helpers.

(** [is_reencryption_helper]: [strncmp(name + len - 8, s, 9)] compares the last
    eight characters and the terminating NUL with the first nine of [s]. *)
Definition last8 (name : string) : string := String.substring (String.length name - 8) 8 name.

Definition strncmp9_eq (a b : string) : bool :=
  (** [a] has eight characters: its ninth byte is NUL *)
  bool_decide (a = String.substring 0 9 b).

Definition is_reencryption_helper (name : string) : bool :=
  (9 <=? Z.of_nat (String.length name)) &&
  (strncmp9_eq (last8 name) "-hotzone-" || bool_decide (last8 name = "-overlay")).

Definition contains_reencryption_helper (names : list string) : bool :=
  existsb is_reencryption_helper names.

(** * Example LUKS2 headers *)

Section fixtures.
Local Open Scope string_scope.

Definition fx_keyslot (offset size : Z) : jtree :=
  JObject [
    ("type", JString "luks2"); ("key_size", JInt 64);
    ("af", JObject [("type", JString "luks1"); ("stripes", JInt 4000); ("hash", JString "sha256")]);
    ("area", JObject [("type", JString "raw"); ("offset", JString (dec_u offset));
                      ("size", JString (dec_u size)); ("encryption", JString "aes-xts-plain64");
                      ("key_size", JInt 64)]);
    ("kdf", JObject [("type", JString "pbkdf2"); ("hash", JString "sha256"); ("iterations", JInt 1000);
                     ("salt", JString "AAAA")]) ].

Definition fx_segment (offset : Z) (size : string) : jtree :=
  JObject [
    ("type", JString "crypt"); ("offset", JString (dec_u offset)); ("size", JString size);
    ("iv_tweak", JString "0"); ("encryption", JString "aes-xts-plain64"); ("sector_size", JInt 512) ].

Definition fx_digest (keyslots segments : list string) : jtree :=
  JObject [
    ("type", JString "pbkdf2"); ("keyslots", JArray (JString <$> keyslots));
    ("segments", JArray (JString <$> segments)); ("hash", JString "sha256");
    ("iterations", JInt 1000); ("salt", JString "AAAA"); ("digest", JString "AAAA") ].

(** A header with the given keyslot areas, all of them in digest 0. *)
Definition fx_json (areas : list (Z * Z)) (segments : list (Z * string)) (keyslots_size : Z) : jtree :=
  let ks := imap (fun i a => (dec_u (Z.of_nat i), fx_keyslot a.1 a.2)) areas in
  let ss := imap (fun i s => (dec_u (Z.of_nat i), fx_segment s.1 s.2)) segments in
  JObject [
    ("keyslots", JObject ks); ("tokens", JObject []); ("segments", JObject ss);
    ("digests", JObject [("0", fx_digest ks.*1 ss.*1)]);
    ("config", JObject [("json_size", JString "12288"); ("keyslots_size", JString (dec_u keyslots_size))]) ].

Definition fx_hdr (known : list jtree) (seqid : Z) (j : jtree) : @luks2_hdr (jtree_json known) :=
  @Luks2Hdr (jtree_json known) 16384 seqid 2 (zeros 48) (zeros 48)
    (bytes_of_string "sha256" ++ zeros 26) (zeros 64) (zeros 64) (zeros 40) j.

(** Two keyslots with a gap of 4096 bytes between their areas. *)
Definition fx_two : jtree :=
  fx_json [(32768, 258048); (294912, 258048)] [(16777216, "dynamic")] 16744448.

(** No keyslots, and a device of exactly two header copies. *)
Definition fx_small : jtree := fx_json [] [(32768, "dynamic")] 0.

(** A keyslot area whose end wraps around 2^64. *)
Definition fx_wrap : jtree :=
  fx_json [(32768, 2 ^ 64 - 32768)] [(16777216, "dynamic")] 16744448.

(** Data in segments 0 and 2, which share sectors, and a backup segment 1 that
    comes last in the document. *)
Definition fx_backup_segment (offset : Z) (size : string) : jtree :=
  match fx_segment offset size with
  | JObject l => JObject (l ++ [("flags", JArray [JString "backup-final"])])
  | j => j
  end.

Definition fx_order : jtree :=
  JObject [
    ("keyslots", JObject []); ("tokens", JObject []);
    ("segments", JObject [("0", fx_segment 32768 "1048576"); ("2", fx_segment 33280 "1048576");
                          ("1", fx_backup_segment 32768 "dynamic")]);
    ("digests", JObject [("0", fx_digest [] ["0"; "1"; "2"])]);
    ("config", JObject [("json_size", JString "12288"); ("keyslots_size", JString "0")]) ].

(** Two data segments, the second one up to the end of the device. *)
Definition fx_segments : jtree :=
  fx_json [(32768, 258048)] [(16777216, "1048576"); (17825792, "dynamic")] 16744448.
End fixtures.
