(* ===== verification/Device.v ===== *)
(** * Device: devices, locks and file descriptors

    lib/utils_device.c (open, close, size check, lock wrappers) and the
    per-context part of lib/utils_device_locking.c (nested locks with a
    reference count). What other processes and the kernel do is the record
    [os_env]; the protocol by which processes acquire a lock is the subject of
    [LockProtocol]. The device is a block device, whose contents are the
    [file] of [UtilsIO].

    A function that uses a device runs in the monad [M]: it threads the
    [device], and [None] is a failed [assert]. *)

From S2P Require Import Prelude UtilsIO Luks2Json.

Inductive lock_type := DEV_LOCK_READ | DEV_LOCK_WRITE.

#[export] Instance lock_type_eq_dec : EqDecision lock_type.
Proof. solve_decision. Defined.

Record crypt_lock_handle := LockHandle {
  refcnt : Z;
  lh_type : lock_type;
}.

Record device := Device {
  d_file : file;
  d_lh : option crypt_lock_handle;
  ro_dev_fd : Z;
  dev_fd : Z;
}.

(** open(2) access modes *)
Inductive access_mode := O_RDONLY | O_WRONLY | O_RDWR.

#[export] Instance access_mode_eq_dec : EqDecision access_mode.
Proof. solve_decision. Defined.

(** The environment of an operation. *)
Record os_env := OsEnv {
  (** [crypt_metadata_locking_enabled()] *)
  locking_enabled : bool;
  (** result of [acquire_and_verify] for a lock of the type *)
  acquire_result : lock_type -> Z;
  (** result of open(2): the descriptor, or -1 and the [errno] *)
  open_result : access_mode -> Z * Z;
  (** [device_locked_verify] finds a mismatch *)
  verify_fails : bool;
  (** [device_size] succeeds *)
  size_known : bool;
  env_block_size : Z;
  env_alignment : Z;
  (** malloc(3) fails above this size *)
  mem_limit : Z;
}.

(** ** The monad *)

Definition M (A : Type) : Type := device -> option (A * device).

#[export] Instance M_ret : MRet M := fun A a d => Some (a, d).
#[export] Instance M_bind : MBind M := fun A B k m d =>
  match m d with
  | Some (a, d') => k a d'
  | None => None
  end.

Definition assert (b : bool) : M unit := fun d => if b then Some (tt, d) else None.
Definition get_device : M device := fun d => Some (d, d).
Definition set_lh (h : option crypt_lock_handle) : M unit := fun d =>
  Some (tt, Device (d_file d) h (ro_dev_fd d) (dev_fd d)).
Definition set_ro_dev_fd (fd : Z) : M unit := fun d =>
  Some (tt, Device (d_file d) (d_lh d) fd (dev_fd d)).
Definition set_dev_fd (fd : Z) : M unit := fun d =>
  Some (tt, Device (d_file d) (d_lh d) (ro_dev_fd d) fd).

Definition set_file (f : file) (d : device) : device := Device f (d_lh d) (ro_dev_fd d) (dev_fd d).

(** ** Locks *)

Definition device_locked (h : option crypt_lock_handle) : bool :=
  match h with
  | Some h => bool_decide (lh_type h = DEV_LOCK_READ) || bool_decide (lh_type h = DEV_LOCK_WRITE)
  | None => false
  end.

Definition device_locked_readonly (h : option crypt_lock_handle) : bool :=
  match h with
  | Some h => bool_decide (lh_type h = DEV_LOCK_READ)
  | None => false
  end.

Section env.
Variable env : os_env.

Definition device_lock_inc (h : crypt_lock_handle) : M Z :=
  let u := u32 (refcnt h + 1) in
  _ ← set_lh (Some (LockHandle u (lh_type h)));
  mret u.

Definition device_lock_dec (h : crypt_lock_handle) : M Z :=
  _ ← assert (negb (refcnt h =? 0));
  let u := u32 (refcnt h - 1) in
  _ ← set_lh (Some (LockHandle u (lh_type h)));
  mret u.

Definition device_read_lock_internal : M Z :=
  d ← get_device;
  match d_lh d with
  | Some h =>
      _ ← device_lock_inc h;
      mret 0
  | None =>
      let r := acquire_result env DEV_LOCK_READ in
      if r <? 0 then mret r
      else
        _ ← set_lh (Some (LockHandle 1 DEV_LOCK_READ));
        mret 0
  end.

Definition device_write_lock_internal : M Z :=
  d ← get_device;
  match d_lh d with
  | Some h => u ← device_lock_inc h; mret (i32 u)
  | None =>
      let r := acquire_result env DEV_LOCK_WRITE in
      if r <? 0 then mret r
      else
        _ ← set_lh (Some (LockHandle 1 DEV_LOCK_WRITE));
        mret 1
  end.

(** A missing handle would be a NULL dereference. *)
Definition device_unlock_internal : M unit :=
  d ← get_device;
  match d_lh d with
  | None => assert false
  | Some h =>
      u ← device_lock_dec h;
      if negb (u =? 0) then mret tt
      else set_lh None
  end.

Definition device_read_lock : M Z :=
  if negb (locking_enabled env) then mret 0
  else
    r ← device_read_lock_internal;
    if negb (r =? 0) then mret (- EBUSY) else mret 0.

Definition device_write_lock : M Z :=
  if negb (locking_enabled env) then mret 0
  else
    d ← get_device;
    _ ← assert (negb (device_locked (d_lh d)) || negb (device_locked_readonly (d_lh d)));
    device_write_lock_internal.

Definition device_read_unlock : M unit :=
  if negb (locking_enabled env) then mret tt
  else
    d ← get_device;
    _ ← assert (device_locked (d_lh d));
    device_unlock_internal.

Definition device_write_unlock : M unit :=
  if negb (locking_enabled env) then mret tt
  else
    d ← get_device;
    _ ← assert (device_locked (d_lh d) && negb (device_locked_readonly (d_lh d)));
    device_unlock_internal.

Definition device_is_locked : M bool :=
  d ← get_device;
  mret (device_locked (d_lh d)).

(** ** Descriptors *)

Definition _open_locked (flags : access_mode) : M Z :=
  d ← get_device;
  if negb (bool_decide (flags = O_RDONLY)) && device_locked_readonly (d_lh d) then mret (- EAGAIN)
  else
    let '(fd, errno) := open_result env flags in
    if fd <? 0 then mret (- errno)
    else if verify_fails env then mret (- EINVAL)
    else mret fd.

Definition device_open_internal (flags : access_mode) : M Z :=
  let access := if bool_decide (flags = O_WRONLY) then O_RDWR else flags in
  d ← get_device;
  if bool_decide (access = O_RDONLY) && (0 <=? ro_dev_fd d) then mret (ro_dev_fd d)
  else if bool_decide (access = O_RDWR) && (0 <=? dev_fd d) then mret (dev_fd d)
  else
    devfd ← (if device_locked (d_lh d) then _open_locked flags
             else mret (fst (open_result env flags)));
    if devfd <? 0 then mret devfd
    else
      _ ← (if bool_decide (access = O_RDONLY) then set_ro_dev_fd devfd else set_dev_fd devfd);
      mret devfd.

Definition device_open (flags : access_mode) : M Z :=
  d ← get_device;
  _ ← assert (negb (device_locked (d_lh d)));
  device_open_internal flags.

Definition device_open_locked (flags : access_mode) : M Z :=
  d ← get_device;
  _ ← assert (negb (locking_enabled env) || device_locked (d_lh d));
  device_open_internal flags.

Definition device_close : M unit :=
  _ ← set_ro_dev_fd (-1);
  set_dev_fd (-1).

(** ** Size *)

Definition device_size : M (Z * Z) :=
  d ← get_device;
  if size_known env then mret (0, f_size (d_file d)) else mret (- EINVAL, 0).

(** Only regular files can be extended. *)
Definition device_fallocate (size : Z) : M Z := mret (- EINVAL).

Definition device_check_size (req_offset : Z) (falloc : bool) : M Z :=
  '(r, dev_size) ← device_size;
  if negb (r =? 0) then mret (- EIO)
  else if dev_size <? req_offset then
    if falloc then
      r ← device_fallocate req_offset;
      if r =? 0 then mret 0 else mret (- EINVAL)
    else mret (- EINVAL)
  else mret 0.

(** ** Transfers on the device *)

Definition dev_read (fd length offset : Z) : M (Z * bytes) := fun d =>
  let '(r, buf, f) := read_lseek_blockwise fd (env_block_size env) (env_alignment env) length offset (d_file d) in
  Some ((r, buf), set_file f d).

Definition dev_write (fd : Z) (buf : bytes) (length offset : Z) : M Z := fun d =>
  let '(r, f) := write_lseek_blockwise fd (env_block_size env) (env_alignment env) buf length offset (d_file d) in
  Some (r, set_file f d).

(** fsync(2) does not change what is read back. *)
Definition device_sync : M unit := mret tt.

(** crypt_alloc_volume_key and crypt_safe_alloc of a size fail. *)
Definition alloc_fails (n : Z) : bool := mem_limit env <? n.
Definition safe_alloc_fails (n : Z) : bool := (n =? 0) || alloc_fails n.
End env.

(** ** Devices in working order

    The lock is held as the code requires and open(2) succeeds; transfers may
    still fail as the schedule says. *)

Record dev_ok (env : os_env) (d : device) : Prop := {
  do_lock : locking_enabled env = true -> is_Some (d_lh d);
  do_open : forall m, 0 <= fst (open_result env m);
  do_verify : verify_fails env = false;
  do_size : size_known env = true;
  do_block : 0 < env_block_size env /\ (512 | env_block_size env) /\ (env_block_size env | 4096);
  do_align : env_alignment env <> 0;
  do_blocks : (env_block_size env | f_size (d_file d));
}.

Definition writable (d : device) : Prop := device_locked_readonly (d_lh d) = false.

(** The same device after calls that did not change its contents or lock. *)
Definition dev_next (d d' : device) : Prop :=
  f_data (d_file d') = f_data (d_file d) /\ d_lh d' = d_lh d /\ sched_le (d_file d) (d_file d').

#[export] Instance dev_next_preorder : PreOrder dev_next.
Proof.
  split; [intros d; split; [done|split; [done|reflexivity]]|].
  intros d1 d2 d3 (H1 & H2 & H3) (H4 & H5 & H6). split; [congruence|]. split; [congruence|].
  by transitivity (d_file d2).
Qed.

Lemma dev_next_ok env d d' : dev_next d d' -> dev_ok env d -> dev_ok env d'.
Proof.
  intros (H1 & H2 & _) []. split; auto; [by rewrite H2|]. unfold f_size in *. by rewrite H1.
Qed.

Lemma device_locked_some h : device_locked (Some h) = true.
Proof. by destruct h as [n []]. Qed.

Section run.
Variable env : os_env.

Lemma bind_run {A B} (m : M A) (k : A -> M B) d a d' : m d = Some (a, d') -> (m ≫= k) d = k a d'.
Proof. intros H. unfold mbind, M_bind. by rewrite H. Qed.

(** An operation that returned passed all its steps. *)
Lemma bind_inv {A B} (m : M A) (k : A -> M B) d x : (m ≫= k) d = Some x -> exists a d1, m d = Some (a, d1) /\ k a d1 = Some x.
Proof. unfold mbind, M_bind. destruct (m d) as [[a d1]|]; [eauto|done]. Qed.

(** open(2) succeeds and the lock is the one of the device. *)
Definition dev_opens : Prop := (forall m, 0 <= fst (open_result env m)) /\ verify_fails env = false.

Lemma open_internal_opens d m :
  dev_opens -> m = O_RDONLY \/ (m = O_RDWR /\ writable d) ->
  exists fd d', device_open_internal env m d = Some (fd, d') /\ 0 <= fd /\ d_file d' = d_file d /\ d_lh d' = d_lh d.
Proof.
  intros [Hop Hver] Hm. unfold device_open_internal. erewrite bind_run by reflexivity.
  pose proof (Hop m) as Ho.
  assert (Hdev : forall k : Z -> M Z,
    ((if device_locked (d_lh d) then _open_locked env m else mret (fst (open_result env m))) ≫= k) d =
    k (fst (open_result env m)) d).
  { intros k. apply bind_run. destruct (device_locked (d_lh d)); [|done]. unfold _open_locked.
    erewrite bind_run by reflexivity.
    assert (E : negb (bool_decide (m = O_RDONLY)) && device_locked_readonly (d_lh d) = false).
    { destruct Hm as [->|[-> Hw]]; [done|]. unfold writable in Hw. by rewrite Hw. }
    rewrite E, Hver. destruct (open_result env m) as [fd e]. cbn in *.
    destruct (Z.ltb_spec fd 0); [lia|done]. }
  assert (Ew : bool_decide (m = O_WRONLY) = false)
    by (apply bool_decide_eq_false; destruct Hm as [->|[-> _]]; done).
  rewrite Ew. destruct Hm as [->|[-> _]];
    [rewrite (bool_decide_true (O_RDONLY = O_RDONLY)), (bool_decide_false (O_RDONLY = O_RDWR)) by done
    |rewrite (bool_decide_false (O_RDWR = O_RDONLY)), (bool_decide_true (O_RDWR = O_RDWR)) by done];
    cbn [andb].
  - destruct (Z.leb_spec 0 (ro_dev_fd d)); [eexists _, _; by repeat split|].
    rewrite Hdev. destruct (Z.ltb_spec (fst (open_result env O_RDONLY)) 0); [lia|].
    eexists _, _. split; [reflexivity|]. done.
  - destruct (Z.leb_spec 0 (dev_fd d)); [eexists _, _; by repeat split|].
    rewrite Hdev. destruct (Z.ltb_spec (fst (open_result env O_RDWR)) 0); [lia|].
    eexists _, _. split; [reflexivity|]. done.
Qed.

Lemma dev_ok_opens d : dev_ok env d -> dev_opens.
Proof. intros []. by split. Qed.

Lemma open_internal_ok d m :
  dev_ok env d -> m = O_RDONLY \/ (m = O_RDWR /\ writable d) ->
  exists fd d', device_open_internal env m d = Some (fd, d') /\ 0 <= fd /\ d_file d' = d_file d /\ d_lh d' = d_lh d.
Proof. intros Hok. by apply open_internal_opens, (dev_ok_opens d). Qed.

(** The device is opened whether it is locked or not. *)
Lemma open_either_ok d m :
  dev_opens -> m = O_RDONLY \/ (m = O_RDWR /\ writable d) ->
  exists fd d',
    (forall B (k : Z -> M B),
       (locked ← device_is_locked;
        devfd ← (if locked : bool then device_open_locked env m else device_open env m);
        k devfd) d = k fd d') /\
    0 <= fd /\ d_file d' = d_file d /\ d_lh d' = d_lh d.
Proof.
  intros Hop Hm. destruct (open_internal_opens d m Hop Hm) as (fd & d' & E & Hfd & Hf & Hl).
  exists fd, d'. split; [|done]. intros B k. unfold device_is_locked. erewrite bind_run by (erewrite bind_run by reflexivity; reflexivity).
  unfold device_open_locked, device_open. destruct (device_locked (d_lh d)) eqn:El; erewrite bind_run; try reflexivity;
    erewrite bind_run by reflexivity; rewrite El; [rewrite orb_true_r|]; by erewrite bind_run by reflexivity.
Qed.

Lemma open_locked_ok d m :
  dev_ok env d -> m = O_RDONLY \/ (m = O_RDWR /\ writable d) ->
  exists fd d', device_open_locked env m d = Some (fd, d') /\ 0 <= fd /\ dev_ok env d' /\
    d_file d' = d_file d /\ d_lh d' = d_lh d.
Proof.
  intros Hok Hm. unfold device_open_locked. erewrite bind_run by reflexivity.
  assert (E : negb (locking_enabled env) || device_locked (d_lh d) = true).
  { destruct (locking_enabled env) eqn:El; [|done]. destruct (do_lock _ _ Hok El) as [h ->].
    by rewrite device_locked_some. }
  rewrite E. erewrite bind_run by reflexivity.
  destruct (open_internal_ok d m Hok Hm) as (fd & d' & Hr & Hfd & Hf & Hl). exists fd, d'.
  split; [done|]. split; [done|]. split; [|done]. apply (dev_next_ok _ d); [|done].
  split; [by rewrite Hf|]. split; [done|]. by rewrite Hf.
Qed.

(** A read without hard errors: the data when the range exists, -1 otherwise. *)
Lemma dev_read_ok d fd length offset :
  dev_ok env d -> benign (f_sched (d_file d)) -> 0 <= fd -> 0 <= length -> 0 <= offset ->
  exists r buf d', dev_read env fd length offset d = Some ((r, buf), d') /\
    dev_next d d' /\
    ((offset + length <= f_size (d_file d) /\ r = length /\ buf = slice offset length (f_data (d_file d))) \/
     (f_size (d_file d) < offset + length /\ r = -1) \/
     (f_size (d_file d) < offset + length /\ r = length /\ buf = slice offset length (f_data (d_file d)))).
Proof.
  intros Hok Hb Hfd Hl Ho. unfold dev_read. destruct (do_block _ _ Hok) as [Hbs _].
  pose proof (read_lseek_blockwise_spec fd (env_block_size env) (env_alignment env) length offset (d_file d)
    Hfd Hbs (do_align _ _ Hok) Hl Ho) as Hr.
  destruct (read_lseek_blockwise _ _ _ _ _ _) as [[r buf] f]. destruct Hr as (Hs & Hd & Hc).
  exists r, buf, (set_file f d). split; [done|]. split; [by split|].
  destruct Hc as [[-> ->]|[-> [Hn|Hlt]]]; [|by destruct Hn|auto].
  destruct (Z.leb_spec (offset + length) (f_size (d_file d))); [left|right; right]; auto.
Qed.

(** A write of whole 4096-byte units when the device transfers whole sectors:
    a prefix that ends at a sector boundary is written. *)
Lemma dev_write_ok d fd buf offset :
  dev_ok env d -> granular 512 (f_sched (d_file d)) -> 0 <= fd -> 0 < zlen buf -> 0 <= offset ->
  offset + zlen buf <= f_size (d_file d) -> (4096 | offset) -> (4096 | zlen buf) ->
  exists r d' k, dev_write env fd buf (zlen buf) offset d = Some (r, d') /\
    dev_ok env d' /\ d_lh d' = d_lh d /\ sched_le (d_file d) (d_file d') /\
    0 <= k <= zlen buf /\ (512 | k) /\
    f_data (d_file d') = splice offset (take (Z.to_nat k) buf) (f_data (d_file d)) /\
    ((r = zlen buf /\ k = zlen buf) \/ (r = -1 /\ ~ benign (f_sched (d_file d)))).
Proof.
  intros Hok Hg Hfd Hz Ho Hin Hdo Hdz. destruct (do_block _ _ Hok) as (Hb & Hb1 & Hb2).
  pose proof (write_lseek_blockwise_aligned fd (env_block_size env) (env_alignment env) buf (zlen buf)
    offset (d_file d) 512 Hfd Hb (do_align _ _ Hok) Hz eq_refl (do_blocks _ _ Hok) Ho Hin
    (Z.divide_trans _ _ _ Hb2 Hdo) (Z.divide_trans _ _ _ Hb2 Hdz)
    (Z.divide_trans _ _ _ Hb1 (Z.divide_trans _ _ _ Hb2 Hdz)) Hg) as Hw.
  unfold dev_write. destruct (write_lseek_blockwise _ _ _ _ _ _ _) as [r f].
  destruct Hw as (Hs & k & Hk & Hgk & Hd & Hc). exists r, (set_file f d), k.
  split; [done|]. split; [|auto 10]. destruct Hok. split; auto. cbn. unfold f_size in *. rewrite Hd.
  rewrite zlen_splice; [done|done|]. rewrite zlen_take by lia. lia.
Qed.

(** ** Nested write locks *)

(** The handle that a further write lock leaves, when locking is enabled. *)
Definition lock_inc (l : option crypt_lock_handle) : option crypt_lock_handle :=
  if locking_enabled env then
    match l with
    | None => Some (LockHandle 1 DEV_LOCK_WRITE)
    | Some h => Some (LockHandle (refcnt h + 1) (lh_type h))
    end
  else l.

(** Not read-locked, and the count of nested locks does not overflow. *)
Definition write_lockable (d : device) : Prop :=
  match d_lh d with
  | None => True
  | Some h => lh_type h = DEV_LOCK_WRITE /\ 1 <= refcnt h < 2 ^ 31 - 1
  end.

Lemma write_lockable_writable d : write_lockable d -> writable d.
Proof.
  unfold write_lockable, writable. destruct (d_lh d) as [h|]; [|done]. cbn. by intros [-> _].
Qed.

Lemma device_write_lock_run d :
  write_lockable d ->
  exists r d', device_write_lock env d = Some (r, d') /\ d_file d' = d_file d /\
    ro_dev_fd d' = ro_dev_fd d /\ dev_fd d' = dev_fd d /\
    ((r < 0 /\ locking_enabled env = true /\ d_lh d = None /\ d_lh d' = d_lh d) \/
     (0 <= r /\ d_lh d' = lock_inc (d_lh d) /\
      (r = 1 <-> locking_enabled env = true /\ d_lh d = None))).
Proof.
  unfold write_lockable, device_write_lock, lock_inc. intros Hl.
  destruct (locking_enabled env); cbn [negb].
  2: { eexists 0, d. split; [done|]. do 3 (split; [done|]). right. split; [lia|]. split; [done|]. split; intuition lia. }
  erewrite bind_run by reflexivity. destruct (d_lh d) as [h|] eqn:E.
  - destruct Hl as [Ht Hr]. cbn [device_locked_readonly]. rewrite Ht, device_locked_some, bool_decide_false by done.
    cbn [negb orb]. erewrite bind_run by reflexivity. unfold device_write_lock_internal.
    erewrite bind_run by reflexivity. rewrite E. unfold device_lock_inc. rewrite u32_id by lia.
    erewrite bind_run by (erewrite bind_run by reflexivity; reflexivity).
    eexists _, _. split; [reflexivity|]. cbn. do 3 (split; [done|]). right. rewrite i32_id by lia.
    split; [lia|]. split; [by rewrite Ht|]. split; [lia|]. intros [_ ?]; done.
  - cbn [device_locked negb orb]. erewrite bind_run by reflexivity. unfold device_write_lock_internal.
    erewrite bind_run by reflexivity. rewrite E.
    destruct (Z.ltb_spec (acquire_result env DEV_LOCK_WRITE) 0).
    + eexists _, d. split; [reflexivity|]. do 3 (split; [done|]). left. done.
    + erewrite bind_run by reflexivity. eexists _, _. split; [reflexivity|]. cbn. do 3 (split; [done|]).
      right. split; [lia|]. done.
Qed.

Lemma device_write_unlock_run d l :
  match l with None => True | Some h => lh_type h = DEV_LOCK_WRITE /\ 1 <= refcnt h < 2 ^ 31 - 1 end ->
  d_lh d = lock_inc l ->
  exists d', device_write_unlock env d = Some (tt, d') /\ d_file d' = d_file d /\ d_lh d' = l.
Proof.
  unfold device_write_unlock, lock_inc. intros Hl E. destruct (locking_enabled env); cbn [negb].
  2: { exists d. done. }
  erewrite bind_run by reflexivity.
  assert (Hd : exists h, d_lh d = Some h /\ lh_type h = DEV_LOCK_WRITE /\ 1 <= refcnt h < 2 ^ 31 /\
    l = if refcnt h =? 1 then None else Some (LockHandle (refcnt h - 1) (lh_type h))).
  { destruct l as [h|]; rewrite E; eexists; (split; [reflexivity|]); cbn; [|done].
    destruct Hl as [Ht Hr]. split; [done|]. split; [lia|]. destruct (Z.eqb_spec (refcnt h + 1) 1); [lia|].
    rewrite Z.add_simpl_r. by destruct h. }
  destruct Hd as (h & Eh & Ht & Hr & ->). rewrite Eh. cbn [device_locked_readonly].
  rewrite device_locked_some, Ht, bool_decide_false by done. cbn [andb negb].
  erewrite bind_run by reflexivity. unfold device_unlock_internal. erewrite bind_run by reflexivity. rewrite Eh.
  unfold device_lock_dec. destruct (Z.eqb_spec (refcnt h) 0); [lia|]. rewrite u32_id by lia.
  erewrite bind_run by (erewrite bind_run by reflexivity; erewrite bind_run by reflexivity; reflexivity).
  destruct (Z.eqb_spec (refcnt h) 1) as [E1|E1].
  - rewrite E1. cbn. eexists. split; [reflexivity|]. done.
  - destruct (Z.eqb_spec (refcnt h - 1) 0); [lia|]. cbn. eexists. split; [reflexivity|]. cbn. by rewrite Ht.
Qed.

(** ** Devices that work once they are locked *)

Definition dev_ready (d : device) : Prop :=
  dev_ok env (Device (d_file d) (Some (LockHandle 1 DEV_LOCK_WRITE)) (ro_dev_fd d) (dev_fd d)).

Lemma dev_ready_ok d : dev_ready d -> (locking_enabled env = true -> is_Some (d_lh d)) -> dev_ok env d.
Proof. intros [] Hl. split; auto. Qed.

Lemma dev_ok_ready d : dev_ok env d -> dev_ready d.
Proof. intros []. by split; cbn; eauto. Qed.

Lemma dev_ready_size d d' : dev_ready d -> f_size (d_file d') = f_size (d_file d) -> dev_ready d'.
Proof. intros [] E. split; cbn in *; rewrite ?E; eauto. Qed.

Lemma lock_inc_some l : locking_enabled env = true -> is_Some (lock_inc l).
Proof. unfold lock_inc. intros ->. destruct l; eauto. Qed.

Lemma lock_inc_writable d l :
  match l with None => True | Some h => lh_type h = DEV_LOCK_WRITE /\ 1 <= refcnt h < 2 ^ 31 - 1 end ->
  d_lh d = lock_inc l -> writable d.
Proof.
  unfold writable, lock_inc. intros Hl ->. destruct (locking_enabled env); destruct l as [h|]; cbn; try done;
    destruct Hl as [-> _]; done.
Qed.

Lemma device_check_size_run d req falloc :
  size_known env = true -> req <= f_size (d_file d) -> device_check_size env req falloc d = Some (0, d).
Proof.
  intros Hk Hr. unfold device_check_size, device_size. erewrite bind_run.
  2: { erewrite bind_run by reflexivity. rewrite Hk. reflexivity. }
  cbn beta match. rewrite Z.eqb_refl. cbn [negb]. destruct (Z.ltb_spec (f_size (d_file d)) req); [lia|done].
Qed.

(** ** Steps of an operation *)

Lemma dev_next_file d d' : d_file d' = d_file d -> d_lh d' = d_lh d -> dev_next d d'.
Proof. intros Hf Hl. split; [by rewrite Hf|]. split; [done|]. by rewrite Hf. Qed.

Lemma dev_read_step d fd length offset :
  dev_ready d -> 0 <= fd -> 0 <= length -> 0 <= offset ->
  exists r buf d', (forall B (k : Z * bytes -> M B), (dev_read env fd length offset ≫= k) d = k (r, buf) d') /\ dev_next d d' /\
    ((r = length /\ buf = slice offset length (f_data (d_file d))) \/
     (r = -1 /\ (~ benign (f_sched (d_file d)) \/ f_size (d_file d) < offset + length))).
Proof.
  intros Hr Hfd Hl Ho. destruct (do_block _ _ Hr) as [Hb _]. pose proof (do_align _ _ Hr) as Ha.
  pose proof (read_lseek_blockwise_spec fd (env_block_size env) (env_alignment env) length offset (d_file d) Hfd Hb Ha Hl Ho) as Hs.
  destruct (read_lseek_blockwise _ _ _ _ _ _) as [[r buf] f] eqn:E. destruct Hs as (Hs & Hd & Hc).
  exists r, buf, (set_file f d). split; [|split; [by split|done]].
  intros B k. apply bind_run. unfold dev_read. by rewrite E.
Qed.

Lemma dev_write_step d fd buf offset :
  dev_ready d -> 0 <= fd -> 0 <= offset -> offset + zlen buf <= f_size (d_file d) ->
  exists r d', (forall B (k : Z -> M B), (dev_write env fd buf (zlen buf) offset ≫= k) d = k r d') /\
    confined offset (zlen buf) (d_file d) (d_file d') /\ d_lh d' = d_lh d /\
    ((r = zlen buf /\ slice offset (zlen buf) (f_data (d_file d')) = buf) \/ (r = -1 /\ ~ benign (f_sched (d_file d)))).
Proof.
  intros Hr Hfd Ho Hin. destruct (do_block _ _ Hr) as [Hb _]. pose proof (do_align _ _ Hr) as Ha.
  pose proof (do_blocks _ _ Hr) as Hd. cbn in Hd. pose proof (zlen_nonneg buf) as Hz.
  pose proof (write_lseek_blockwise_spec fd (env_block_size env) (env_alignment env) buf (zlen buf) offset (d_file d)
    Hfd Hb Ha Hz eq_refl Hd Ho Hin) as Hs.
  destruct (write_lseek_blockwise _ _ _ _ _ _ _) as [r f] eqn:E.
  apply blockwise_confined in Hs as [Hc Hx]; [|done..].
  exists r, (set_file f d). split; [|done]. intros B k. apply bind_run. unfold dev_write. by rewrite E.
Qed.

Lemma ret_step {A B} (x : A) (k : A -> M B) d : (mret x ≫= k) d = k x d.
Proof. done. Qed.

(** Opening under a lock. *)
Lemma open_locked_step d m :
  dev_ready d -> (locking_enabled env = true -> is_Some (d_lh d)) -> m = O_RDONLY \/ (m = O_RDWR /\ writable d) ->
  exists fd d', (forall B (k : Z -> M B), (device_open_locked env m ≫= k) d = k fd d') /\ 0 <= fd /\
    d_file d' = d_file d /\ d_lh d' = d_lh d.
Proof.
  intros Hr Hl Hm. destruct (open_locked_ok d m (dev_ready_ok d Hr Hl) Hm) as (fd & d' & E & Hfd & _ & Hf & Hlh).
  exists fd, d'. split; [|done]. intros B k. by apply bind_run.
Qed.

(** A read lock of a device that is not locked, and its release. *)
Lemma read_lock_step d :
  d_lh d = None -> 0 <= acquire_result env DEV_LOCK_READ ->
  exists d', (forall B (k : Z -> M B), (device_read_lock env ≫= k) d = k 0 d') /\ d_file d' = d_file d /\
    d_lh d' = if locking_enabled env then Some (LockHandle 1 DEV_LOCK_READ) else None.
Proof.
  intros Hn Ha. unfold device_read_lock. destruct (locking_enabled env); cbn [negb].
  2: { exists d. split; [by intros|done]. }
  exists (Device (d_file d) (Some (LockHandle 1 DEV_LOCK_READ)) (ro_dev_fd d) (dev_fd d)). split; [|done].
  intros B k. apply bind_run. unfold device_read_lock_internal.
  assert (E : (d0 ← get_device; match d_lh d0 with
      | Some h => _ ← device_lock_inc h; mret 0
      | None => let r := acquire_result env DEV_LOCK_READ in
          if r <? 0 then mret r else _ ← set_lh (Some (LockHandle 1 DEV_LOCK_READ)); mret 0 end) d =
      Some (0, Device (d_file d) (Some (LockHandle 1 DEV_LOCK_READ)) (ro_dev_fd d) (dev_fd d))).
  { erewrite bind_run by reflexivity. rewrite Hn. cbv zeta. by rewrite (proj2 (Z.ltb_ge _ 0) Ha). }
  erewrite bind_run by exact E. done.
Qed.

Lemma read_unlock_step d :
  d_lh d = (if locking_enabled env then Some (LockHandle 1 DEV_LOCK_READ) else None) ->
  exists d', (forall B (k : unit -> M B), (device_read_unlock env ≫= k) d = k tt d') /\ d_file d' = d_file d /\ d_lh d' = None.
Proof.
  intros El. unfold device_read_unlock. destruct (locking_enabled env); cbn [negb].
  2: { exists d. split; [by intros|done]. }
  exists (Device (d_file d) None (ro_dev_fd d) (dev_fd d)). split; [|done].
  intros B k. apply bind_run. erewrite bind_run by reflexivity. rewrite El. erewrite bind_run by reflexivity.
  unfold device_unlock_internal. erewrite bind_run by reflexivity. rewrite El. reflexivity.
Qed.
End run.

Lemma dev_ready_opens env d : dev_ready env d -> dev_opens env.
Proof. intros Hr. by apply (dev_ok_opens env _ Hr). Qed.

(** ** Properties *)

(** Write locks nest. [device_write_lock] returns 1 exactly for the first
    lock of the context, which is when the sequence id is checked, and the
    matching [device_write_unlock] restores the previous lock state and count
    without failing an assertion. *)
Theorem write_lock_nests env d :
  write_lockable d ->
  exists r d1, device_write_lock env d = Some (r, d1) /\ d_file d1 = d_file d /\
    (0 <= r -> (r = 1 <-> locking_enabled env = true /\ d_lh d = None) /\
       exists d2, device_write_unlock env d1 = Some (tt, d2) /\ d_lh d2 = d_lh d /\ d_file d2 = d_file d).
Proof.
  intros Hl. destruct (device_write_lock_run env d Hl) as (r & d1 & R & F & _ & _ & C).
  exists r, d1. split; [done|]. split; [done|]. intros Hr. destruct C as [[? _]|(_ & Hl1 & H1)]; [lia|].
  split; [done|]. destruct (device_write_unlock_run env d1 (d_lh d) Hl Hl1) as (d2 & R2 & F2 & Hl2).
  exists d2. split; [done|]. split; [done|]. by rewrite F2.
Qed.

(** Under a read lock a device is not opened for writing: unless a writable
    descriptor is cached already, [device_open_locked] returns -EAGAIN and
    changes nothing. *)
Theorem read_lock_forbids_write_open env d flags h :
  flags = O_WRONLY \/ flags = O_RDWR -> d_lh d = Some h -> lh_type h = DEV_LOCK_READ -> dev_fd d < 0 ->
  device_open_locked env flags d = Some (- EAGAIN, d).
Proof.
  intros Hf Hh Ht Hfd. unfold device_open_locked. erewrite bind_run by reflexivity.
  rewrite Hh, device_locked_some, orb_true_r. erewrite bind_run by reflexivity.
  unfold device_open_internal. erewrite bind_run by reflexivity.
  assert (Ha : (if bool_decide (flags = O_WRONLY) then O_RDWR else flags) = O_RDWR)
    by (destruct Hf as [->| ->]; done).
  rewrite Ha, (bool_decide_false (O_RDWR = O_RDONLY)) by done.
  destruct (Z.leb_spec 0 (dev_fd d)); [lia|]. rewrite andb_false_r, Hh, device_locked_some. cbn [andb].
  assert (Ho : _open_locked env flags d = Some (- EAGAIN, d)).
  { unfold _open_locked. erewrite bind_run by reflexivity.
    rewrite (bool_decide_false (flags = O_RDONLY)) by (destruct Hf as [->| ->]; done).
    rewrite Hh. cbn [device_locked_readonly]. by rewrite bool_decide_true. }
  by erewrite bind_run by exact Ho.
Qed.

Definition fx_locking : os_env := OsEnv true (fun _ => 0) (fun _ => (3, 0)) false true 512 1 0x400000.

Lemma write_lock_nests_witness :
  let d := Device (File [] 0 []) (Some (LockHandle 1 DEV_LOCK_WRITE)) (-1) (-1) in
  exists r d1 d2, device_write_lock fx_locking d = Some (r, d1) /\
    device_write_unlock fx_locking d1 = Some (tt, d2) /\ d_lh d2 = d_lh d.
Proof.
  intros d. destruct (write_lock_nests fx_locking d ltac:(cbn; split; [reflexivity|lia])) as (r & d1 & R & _ & H).
  exists r, d1. assert (Hr : 0 <= r) by (vm_compute in R; injection R as <- _; lia).
  destruct (H Hr) as [_ (d2 & R2 & Hl & _)]. exists d2. split; [exact R|]. split; [exact R2|exact Hl].
Defined.

Lemma read_lock_forbids_write_open_witness :
  let d := Device (File [] 0 []) (Some (LockHandle 1 DEV_LOCK_READ)) 3 (-1) in
  device_open_locked fx_locking O_RDWR d = Some (- EAGAIN, d).
Proof.
  intros d. apply (read_lock_forbids_write_open fx_locking d O_RDWR (LockHandle 1 DEV_LOCK_READ));
    [right; reflexivity|reflexivity|reflexivity|cbn; lia].
Defined.
