(* ===== verification/Integrity.v ===== *)
(** * Integrity: dm-integrity superblocks and sizes (lib/integrity/integrity.c)

    The superblock the kernel leaves on an integrity device, and the sizes of
    keys and tags of the integrity algorithms. *)

From S2P Require Import Prelude Cstd UtilsIO CryptBackend UtilsCrypt Device.
From Stdlib Require Import Strings.Byte Ascii.

Local Open Scope string_scope.
Local Open Scope Z_scope.

Definition SB_MAGIC : bytes := (bytes_of_string "integrt" ++ [x00])%list.
Definition SB_VERSION_1 : Z := 1.
Definition SB_VERSION_5 : Z := 5.
Definition SB_FLAG_HAVE_JOURNAL_MAC : Z := Z.shiftl 1 0.
Definition SB_FLAG_RECALCULATING : Z := Z.shiftl 1 1.
Definition SB_FLAG_DIRTY_BITMAP : Z := Z.shiftl 1 2.
Definition SB_FLAG_FIXED_PADDING : Z := Z.shiftl 1 3.
Definition SB_FLAG_FIXED_HMAC : Z := Z.shiftl 1 4.

(** The packed struct with its integers as the host sees them after the
    conversion. *)
Record superblock := Superblock {
  sb_magic : bytes;
  sb_version : Z;
  log2_interleave_sectors : Z;
  integrity_tag_size : Z;
  journal_sections : Z;
  provided_data_sectors : Z;
  sb_flags : Z;
  log2_sectors_per_block : Z;
  log2_blocks_per_bitmap_bit : Z;
  sb_pad : bytes;
  recalc_sector : Z;
}.

(** sizeof(struct superblock) *)
Definition SB_SIZE : Z := 40.

Definition superblock_of_bytes (b : bytes) : superblock :=
  Superblock (slice 0 8 b) (le_decode (slice 8 1 b)) (swrap 8 (le_decode (slice 9 1 b))) (le_decode (slice 10 2 b))
    (le_decode (slice 12 4 b)) (le_decode (slice 16 8 b)) (le_decode (slice 24 4 b)) (le_decode (slice 28 1 b))
    (le_decode (slice 29 1 b)) (slice 30 2 b) (le_decode (slice 32 8 b)).

Section integrity.
Context `{CH : CryptHash}.
Variable os : os_env.

(** Code and superblock; [None] when it was not read. *)
Definition INTEGRITY_read_superblock (offset : Z) : M (Z * option superblock) :=
  devfd ← device_open os O_RDONLY;
  if devfd <? 0 then mret (- EINVAL, None)
  else
    '(n, buf) ← dev_read os devfd SB_SIZE offset;
    let sb := superblock_of_bytes buf in
    mret (if negb (n =? SB_SIZE) || negb (bool_decide (sb_magic sb = SB_MAGIC)) || (sb_version sb <? SB_VERSION_1) ||
             (SB_VERSION_5 <? sb_version sb)
          then (- EINVAL, None) else (0, Some sb)).

(** Code, or sector size, tag size and flags. The shift is that of an int:
    beyond its width C leaves the result open. *)
Definition INTEGRITY_read_sb : M (Z + Z * Z * Z) :=
  '(r, sb) ← INTEGRITY_read_superblock 0;
  mret (match sb with
        | Some sb => if r =? 0 then inr (u32 (Z.shiftl 512 (log2_sectors_per_block sb)), integrity_tag_size sb, sb_flags sb) else inl r
        | None => inl r
        end).

Definition INTEGRITY_data_sectors (offset : Z) : M (Z * Z) :=
  '(r, sb) ← INTEGRITY_read_superblock offset;
  mret (r, match sb with Some sb => provided_data_sectors sb | None => 0 end).

(** ** Sizes *)

Definition INTEGRITY_key_size (integrity : option string) : Z :=
  match integrity with
  | None => 0
  | Some i =>
      if (i =? "aead")%string then 0
      else if (i =? "hmac(sha1)")%string then 20
      else if (i =? "hmac(sha256)")%string then 32
      else if (i =? "hmac(sha512)")%string then 64
      else if (i =? "poly1305")%string then 0
      else if (i =? "none")%string then 0
      else - EINVAL
  end.

(** The hash of "hmac(hash)": sscanf with "hmac(%31[^)]s". *)
Definition scan_hmac (s : string) : option string :=
  if String.prefix "hmac(" s
  then fst <$> conv_set 31 (fun c => negb (Ascii.eqb c ")"%char)) (String.substring 5 (String.length s - 5) s)
  else None.

Definition INTEGRITY_hash_tag_size (integrity : option string) : Z :=
  match integrity with
  | None => 0
  | Some i =>
      if (i =? "crc32")%string || (i =? "crc32c")%string then 4
      else
        let r := crypt_hash_size (bytes_of_string (default i (scan_hmac i))) in
        if r <? 0 then 0 else r
  end.

Definition iv_tag_size (cipher : string) (cipher_mode : option string) : Z :=
  match cipher_mode with
  | None => 0
  | Some m =>
      if (m =? "xts-random")%string then 16
      else if (m =? "gcm-random")%string then 12
      else if (m =? "ccm-random")%string then 8
      else if (m =? "ctr-random")%string then 16
      else if (cipher =? "aegis256")%string && (m =? "random")%string then 32
      else if (m =? "random")%string then 16
      else 0
  end.

(** The caller has a cipher when it has a mode. *)
Definition INTEGRITY_tag_size (integrity : option string) (cipher : string) (cipher_mode : option string) : Z :=
  let iv := iv_tag_size cipher cipher_mode in
  match integrity with
  | None => iv
  | Some i =>
      if (i =? "none")%string then iv
      else if (i =? "aead")%string then iv + 16
      else if (i =? "cmac(aes)")%string then iv + 16
      else if (i =? "hmac(sha1)")%string then iv + 20
      else if (i =? "hmac(sha256)")%string then iv + 32
      else if (i =? "hmac(sha512)")%string then iv + 64
      else if (i =? "poly1305")%string then (if iv =? 0 then 0 else 12) + 16
      else iv
  end.
End integrity.
