(* ===== verification/Wipe.v ===== *)
(** * Wipe: overwriting a part of a device (lib/utils_wipe.c)

    [crypt_wipe_device] overwrites a range block by block with zeroes, random
    bytes or the patterns of Gutmann's method. The random generator is the
    sequence of its answers; the state of a wipe is the buffer, the number of
    answers used and the device. The wipe runs in the monad of [Device], in
    which [None] is also an exhausted loop. *)

From S2P Require Import Prelude UtilsIO Luks2Json Device.
From Stdlib Require Import Strings.Byte.

Inductive crypt_wipe_pattern :=
| CRYPT_WIPE_ZERO
| CRYPT_WIPE_RANDOM
| CRYPT_WIPE_ENCRYPTED_ZERO
| CRYPT_WIPE_SPECIAL.

#[export] Instance crypt_wipe_pattern_eq_dec : EqDecision crypt_wipe_pattern.
Proof. solve_decision. Defined.

(** [crypt_random_get]: the code and the bytes of call [k] for [len] bytes. *)
Definition random_oracle : Type := nat -> Z -> Z * bytes.

(** memcpy of the bytes a call fills into the buffer; a failing call leaves the
    buffer, whose contents are not used then. *)
Definition fill (b buffer : bytes) : bytes := splice 0 b buffer.

Definition write_modes : list bytes :=
  [ [x55; x55; x55]; [xaa; xaa; xaa]; [x92; x49; x24]; [x49; x24; x92]; [x24; x92; x49]; [x00; x00; x00];
    [x11; x11; x11]; [x22; x22; x22]; [x33; x33; x33]; [x44; x44; x44]; [x55; x55; x55]; [x66; x66; x66];
    [x77; x77; x77]; [x88; x88; x88]; [x99; x99; x99]; [xaa; xaa; xaa]; [xbb; xbb; xbb]; [xcc; xcc; xcc];
    [xdd; xdd; xdd]; [xee; xee; xee]; [xff; xff; xff]; [x92; x49; x24]; [x49; x24; x92]; [x24; x92; x49];
    [x6d; xb6; xdb]; [xb6; xdb; x6d]; [xdb; x6d; xb6] ].

Definition wipeSpecial (buffer : bytes) (buffer_size : Z) (turn : nat) : bytes :=
  fill (mjoin (replicate (Z.to_nat (buffer_size / 3)) (default [] (write_modes !! turn)))) buffer.

(** What the wipe asks of the system. *)
Record wipe_env := {
  we_os : os_env;
  we_random : random_oracle;
  (** [device_is_rotational] is not 0 *)
  we_rotational : bool;
  (** [errno] after [device_open] failed *)
  we_errno : Z;
  (** posix_memalign(3): 0 or a positive error for an alignment and a size *)
  we_memalign : Z -> Z -> Z;
  (** the user's callback, not 0 for a size and an offset *)
  we_progress : option (Z -> Z -> bool);
}.

(** Buffer, random calls so far, device. *)
Definition wipe_state : Type := bytes * nat * file.

Section wipe.
Variable env : wipe_env.

Definition random_get (size : Z) (st : wipe_state) : Z * wipe_state :=
  let '(buffer, k, f) := st in
  let '(r, b) := we_random env k size in
  (r, (if r <? 0 then buffer else fill b buffer, S k, f)).

Definition write_at (fd bsize alignment offset size : Z) (st : wipe_state) : Z * wipe_state :=
  let '(buffer, k, f) := st in
  let '(written, f) := write_lseek_blockwise fd bsize alignment (take (Z.to_nat size) buffer) size (i64 offset) f in
  (if (written <? 0) || negb (written =? i64 size) then - EIO else 0, (buffer, k, f)).

(** The contents of the buffer in pass [i]. *)
Definition special_pass (i : nat) (size : Z) (st : wipe_state) : Z * wipe_state :=
  if (i <? 5)%nat then random_get size st
  else if (i <? 32)%nat then let '(buffer, k, f) := st in (0, (wipeSpecial buffer size (i - 5), k, f))
  else if (i <? 38)%nat then random_get size st
  else let '(buffer, k, f) := st in (0, (fill (replicate (Z.to_nat size) xff) buffer, k, f)).

(** [n] passes from pass [i]. *)
Fixpoint special_loop (n i : nat) (fd bsize alignment offset size : Z) (st : wipe_state) : Z * wipe_state :=
  match n with
  | O => (0, st)
  | S n' =>
      let '(r, st) := special_pass i size st in
      if r <? 0 then (- EIO, st)
      else
        let '(r, st) := write_at fd bsize alignment offset size st in
        if r <? 0 then (r, st) else special_loop n' (S i) fd bsize alignment offset size st
  end.

Definition crypt_wipe_special (fd bsize alignment offset size : Z) (st : wipe_state) : Z * wipe_state :=
  let '(r, st) := special_loop 39 0 fd bsize alignment offset size st in
  if r <? 0 then (r, st)
  else
    let '(r, st) := random_get size st in
    if r <? 0 then (- EIO, st) else write_at fd bsize alignment offset size st.

(** Code, state and [need_block_init]. *)
Definition wipe_block (devfd : Z) (pattern : crypt_wipe_pattern) (device_block_size alignment wipe_block_size offset : Z)
    (need_block_init : bool) (st : wipe_state) : Z * wipe_state * bool :=
  if bool_decide (pattern = CRYPT_WIPE_SPECIAL) then
    let '(r, st) := crypt_wipe_special devfd device_block_size alignment offset wipe_block_size st in
    (r, st, need_block_init)
  else
    let '(r, st, need_block_init) :=
      if need_block_init then
        match pattern with
        | CRYPT_WIPE_ZERO => let '(sf, k, f) := st in (0, (fill (zeros (Z.to_nat wipe_block_size)) sf, k, f), false)
        | _ => let '(r, st) := random_get wipe_block_size st in (if r =? 0 then 0 else - EIO, st, true)
        end
      else (0, st, need_block_init) in
    if negb (r =? 0) then (r, st, need_block_init)
    else
      let '(sf, k, f) := st in
      let '(r, f) := write_blockwise devfd device_block_size alignment (take (Z.to_nat wipe_block_size) sf) wipe_block_size f in
      (if r =? i64 wipe_block_size then 0 else - EIO, (sf, k, f), need_block_init).

Definition report (size offset : Z) : bool :=
  match we_progress env with Some p => p size offset | None => false end.

(** The loop over the blocks. *)
Fixpoint wipe_loop (fuel : nat) (devfd : Z) (pattern : crypt_wipe_pattern) (bsize alignment wipe_block_size offset dev_size : Z)
    (need_block_init : bool) (st : wipe_state) : option (Z * wipe_state) :=
  if offset <? dev_size then
    match fuel with
    | O => None
    | S fuel' =>
        let wipe_block_size := if dev_size <? offset +64 wipe_block_size then dev_size -64 offset else wipe_block_size in
        let '(r, st, need_block_init) :=
          wipe_block devfd pattern bsize alignment wipe_block_size offset need_block_init st in
        if negb (r =? 0) then Some (r, st)
        else
          let offset := offset +64 wipe_block_size in
          if report dev_size offset then Some (- EINTR, st)
          else wipe_loop fuel' devfd pattern bsize alignment wipe_block_size offset dev_size need_block_init st
    end
  else Some (0, st).

(** One iteration per block and one more. *)
Definition wipe_fuel (wipe_block_size offset dev_size : Z) : nat := Z.to_nat ((dev_size - offset) / wipe_block_size + 1).

Definition crypt_wipe_device (pattern : crypt_wipe_pattern) (offset length wipe_block_size : Z) : M Z :=
  let bsize := env_block_size (we_os env) in
  let alignment := env_alignment (we_os env) in
  if (bsize =? 0) || (alignment =? 0) || (wipe_block_size =? 0) then mret (- EINVAL)
  else if negb (MISALIGNED_512 offset =? 0) || negb (MISALIGNED_512 length =? 0) || negb (MISALIGNED_512 wipe_block_size =? 0)
  then mret (- EINVAL)
  else
    locked ← device_is_locked;
    devfd ← (if locked : bool then device_open_locked (we_os env) O_RDWR else device_open (we_os env) O_RDWR);
    if devfd <? 0 then mret (if negb (we_errno env =? 0) then - we_errno env else - EINVAL)
    else
      '(r, dev_size) ← (if negb (length =? 0) then mret (0, offset +64 length)
                        else '(r, size) ← device_size (we_os env);
                             mret (if negb (r =? 0) then r else if size <=? offset then - EINVAL else 0, size));
      if negb (r =? 0) then mret r
      else
        let r := we_memalign env alignment wipe_block_size in
        if negb (r =? 0) then mret r
        else if i64 offset <? 0 then mret (- EINVAL)
        else
          fun d =>
            let '(_, f) := sys_lseek offset SEEK_SET (d_file d) in
            let d := set_file f d in
            if report dev_size offset then Some (- EINVAL, d)
            else
              let pattern := if bool_decide (pattern = CRYPT_WIPE_SPECIAL) && negb (we_rotational env)
                             then CRYPT_WIPE_RANDOM else pattern in
              match wipe_loop (wipe_fuel wipe_block_size offset dev_size) devfd pattern bsize alignment wipe_block_size
                      offset dev_size true (zeros (Z.to_nat wipe_block_size), O, d_file d) with
              | Some (r, (_, _, f)) => (_ ← device_sync; mret r) (set_file f d)
              | None => None
              end.

(** On the data device of the context, or on a device of the given path. *)
Definition crypt_wipe (pattern : crypt_wipe_pattern) (offset length wipe_block_size : Z) : M Z :=
  let wipe_block_size := if wipe_block_size =? 0 then 1024 * 1024 else wipe_block_size in
  crypt_wipe_device pattern offset length wipe_block_size.
End wipe.
