(* ===== verification/WipeProps.v ===== *)
(** * WipeProps: what a wipe overwrites, and what it leaves

    A wipe by blocks that are a multiple of the device's block size overwrites
    its whole range and nothing else. Smaller blocks break both halves. *)

From S2P Require Import Prelude UtilsIO Luks2Json Device Wipe.
From Stdlib Require Import Strings.Byte.

(** An answer without an error has the size asked for. *)
Definition oracle_ok (rnd : random_oracle) : Prop := forall k n, 0 <= n -> 0 <= fst (rnd k n) -> zlen (snd (rnd k n)) = n.
Definition oracle_succeeds (rnd : random_oracle) : Prop := forall k n, fst (rnd k n) = 0.

(** The contents a pattern leaves: zeroes, or answers of the generator. *)
Definition wiped_block (rnd : random_oracle) (pattern : crypt_wipe_pattern) (b : bytes) : Prop :=
  if bool_decide (pattern = CRYPT_WIPE_ZERO) then b = zeros (length b)
  else exists k, 0 <= fst (rnd k (zlen b)) /\ b = snd (rnd k (zlen b)).

Definition wiped (rnd : random_oracle) (pattern : crypt_wipe_pattern) (w : bytes) : Prop :=
  exists bs, w = mjoin bs /\ Forall (wiped_block rnd pattern) bs.

Lemma wiped_app rnd p a b : wiped rnd p a -> wiped rnd p b -> wiped rnd p (a ++ b).
Proof.
  intros (xs & -> & Hx) (ys & -> & Hy). exists (xs ++ ys). split; [by rewrite join_app|by apply Forall_app].
Qed.

Lemma wiped_one rnd p b : wiped_block rnd p b -> wiped rnd p b.
Proof. intros Hb. exists [b]. split; [by cbn; rewrite app_nil_r|by repeat constructor]. Qed.

Lemma wiped_zeros rnd w : wiped rnd CRYPT_WIPE_ZERO w -> w = zeros (length w).
Proof.
  intros (bs & -> & Hb). induction Hb as [|b bs Hb _ IH]; [done|]. unfold wiped_block in Hb.
  rewrite bool_decide_true in Hb by done. cbn. rewrite length_app. unfold zeros in *.
  rewrite replicate_add. by f_equal.
Qed.

Lemma wiped_special rnd w : wiped rnd CRYPT_WIPE_SPECIAL w -> wiped rnd CRYPT_WIPE_RANDOM w.
Proof. done. Qed.

Section block.
Variables (env : wipe_env) (fd bsize alignment : Z).
Hypotheses (Hfd : 0 <= fd) (Hb : 0 < bsize) (Ha : alignment <> 0) (Hrnd : oracle_ok (we_random env)).

Definition st_buffer (st : wipe_state) : bytes := st.1.1.
Definition st_file (st : wipe_state) : file := st.2.

(** Steps that only change the buffer, and the size of the buffer. *)
Definition same_file (st st' : wipe_state) : Prop := st_file st' = st_file st /\ zlen (st_buffer st') = zlen (st_buffer st).

Lemma zlen_fill b buffer : zlen b <= zlen buffer -> zlen (fill b buffer) = zlen buffer.
Proof. intros H. unfold fill. apply zlen_splice; lia. Qed.

Lemma take_fill b buffer : zlen b <= zlen buffer -> take (Z.to_nat (zlen b)) (fill b buffer) = b.
Proof. intros H. unfold fill, splice, zlen. rewrite Nat2Z.id. change (take (Z.to_nat 0) buffer) with (@nil byte). rewrite app_nil_l. apply take_app_length. Qed.

Lemma random_get_spec size st r st' :
  0 <= size <= zlen (st_buffer st) -> random_get env size st = (r, st') ->
  same_file st st' /\
  (0 <= r -> exists k, r = fst (we_random env k size) /\ take (Z.to_nat size) (st_buffer st') = snd (we_random env k size) /\
     zlen (snd (we_random env k size)) = size) /\ (oracle_succeeds (we_random env) -> r = 0).
Proof.
  destruct st as [[buffer k] f]. unfold random_get, same_file, st_file, st_buffer. cbn [fst snd]. intros Hs.
  destruct (we_random env k size) as [r0 b] eqn:E. intros [= -> <-]. cbn [fst snd].
  pose proof (Hrnd k size ltac:(lia)) as Hz. rewrite E in Hz. cbn in Hz.
  destruct (Z.ltb_spec r 0).
  - split; [done|]. split; [lia|]. intros Hx. specialize (Hx k size). rewrite E in Hx. cbn in Hx. lia.
  - specialize (Hz ltac:(lia)). split; [split; [done|apply zlen_fill; lia]|]. split.
    + intros _. exists k. rewrite E. cbn. split; [done|]. split; [|done]. rewrite <-Hz. apply take_fill. lia.
    + intros Hx. specialize (Hx k size). by rewrite E in Hx.
Qed.

Lemma write_at_spec offset size st r st' :
  0 <= size <= zlen (st_buffer st) -> 0 <= offset -> offset + size <= f_size (st_file st) -> f_size (st_file st) < 2 ^ 63 ->
  (bsize | f_size (st_file st)) -> write_at fd bsize alignment offset size st = (r, st') ->
  confined offset size (st_file st) (st_file st') /\ st_buffer st' = st_buffer st /\
  (r = 0 \/ (r < 0 /\ ~ benign (f_sched (st_file st)))) /\
  (r = 0 -> slice offset size (f_data (st_file st')) = take (Z.to_nat size) (st_buffer st)).
Proof.
  destruct st as [[buffer k] f]. unfold write_at, st_file, st_buffer. cbn [fst snd]. intros Hs Ho Hin Hlt Hd.
  rewrite !swrap_id by lia.
  assert (Hz : zlen (take (Z.to_nat size) buffer) = size) by (apply zlen_take; lia).
  pose proof (write_lseek_blockwise_spec fd bsize alignment _ _ offset f Hfd Hb Ha (proj1 Hs) Hz Hd Ho Hin) as Hw.
  destruct (write_lseek_blockwise _ _ _ _ _ _ _) as [w f1]. intros [= <- <-]. cbn [fst snd].
  apply blockwise_confined in Hw as [Hc Hr]; [|done..]. split; [done|]. split; [done|].
  destruct Hr as [[-> Hr]|[-> Hr]].
  - rewrite Z.eqb_refl, (proj2 (Z.ltb_ge size 0)) by lia. cbn. split; [by left|done].
  - cbn. split; [right; split; [unfold EIO; lia|done]|]. unfold EIO; lia.
Qed.

Lemma pass_spec i size st r st' :
  0 <= size <= zlen (st_buffer st) -> special_pass env i size st = (r, st') ->
  same_file st st' /\ (oracle_succeeds (we_random env) -> r = 0).
Proof.
  intros Hs. unfold special_pass. destruct (i <? 5)%nat; [intros E; by apply random_get_spec in E as (? & _ & ?)|].
  destruct (i <? 32)%nat.
  - destruct st as [[buffer k] f]. unfold same_file, st_file, st_buffer in *. cbn [fst snd] in *. intros [= <- <-]. cbn [fst snd].
    split; [|done]. split; [done|]. unfold wipeSpecial. apply zlen_fill.
    assert (Hlen : (length (default [] (write_modes !! (i - 5)%nat)) <= 3)%nat).
    { destruct (write_modes !! (i - 5)%nat) as [m|] eqn:E; [|cbn; lia]. apply list_elem_of_lookup_2 in E.
      unfold write_modes in E. repeat (apply elem_of_cons in E as [->|E]; [cbn; lia|]). by apply elem_of_nil in E. }
    assert (H3 : forall n (l : bytes), length (mjoin (replicate n l)) = (n * length l)%nat)
      by (induction n; intros; cbn; [done|]; rewrite length_app; rewrite IHn; lia).
    unfold zlen in *. rewrite H3. pose proof (Z.div_mod size 3 ltac:(lia)). pose proof (Z.mod_pos_bound size 3 ltac:(lia)).
    assert (0 <= size / 3) by (apply Z.div_pos; lia). nia.
  - destruct (i <? 38)%nat; [intros E; by apply random_get_spec in E as (? & _ & ?)|].
    destruct st as [[buffer k] f]. unfold same_file, st_file, st_buffer in *. cbn [fst snd] in *. intros [= <- <-]. cbn [fst snd].
    split; [|done]. split; [done|]. apply zlen_fill. unfold zlen in *. rewrite length_replicate. lia.
Qed.

(** The part of the device from which the passes of a block start. *)
Definition room (offset size : Z) (st : wipe_state) : Prop :=
  0 <= size <= zlen (st_buffer st) /\ 0 <= offset /\ offset + size <= f_size (st_file st) /\ f_size (st_file st) < 2 ^ 63 /\
  (bsize | f_size (st_file st)).

(** What a step may do: write to the range, and fill the buffer. *)
Definition stepped (offset size : Z) (st st' : wipe_state) : Prop :=
  confined offset size (st_file st) (st_file st') /\ zlen (st_buffer st') = zlen (st_buffer st).

Definition works (st : wipe_state) : Prop := oracle_succeeds (we_random env) /\ benign (f_sched (st_file st)).

Lemma stepped_trans o n a b c : stepped o n a b -> stepped o n b c -> stepped o n a c.
Proof. intros [C1 Z1] [C2 Z2]. split; [by eapply confined_trans|congruence]. Qed.

Lemma stepped_same o n a b : same_file a b -> stepped o n a b.
Proof. intros [E Z]. split; [rewrite E; apply confined_refl|done]. Qed.

Lemma stepped_room o n a b : stepped o n a b -> room o n a -> room o n b.
Proof. intros [[S _ _] Z]. unfold room. by rewrite S, Z. Qed.

Lemma stepped_works o n a b : stepped o n a b -> works a -> works b.
Proof. intros [[_ L _] _] [W B]. split; [done|]. by apply (L _ B). Qed.

Lemma write_at_stepped offset size st r st' :
  room offset size st -> write_at fd bsize alignment offset size st = (r, st') ->
  stepped offset size st st' /\ st_buffer st' = st_buffer st /\ (r = 0 \/ r < 0 /\ ~ benign (f_sched (st_file st))) /\
  (r = 0 -> slice offset size (f_data (st_file st')) = take (Z.to_nat size) (st_buffer st)).
Proof.
  intros (H1 & H2 & H3 & H4 & H5) E. apply write_at_spec in E as (C & Bf & R & W); [|done..].
  split; [split; [done|by rewrite Bf]|done].
Qed.

Lemma special_loop_spec n i offset size st r st' :
  room offset size st -> special_loop env n i fd bsize alignment offset size st = (r, st') ->
  stepped offset size st st' /\ r <= 0 /\ (works st -> r = 0).
Proof.
  revert i st. induction n as [|n IH]; intros i st Hroom; cbn [special_loop].
  { intros [= <- <-]. split; [by apply stepped_same|]. split; [lia|done]. }
  destruct (special_pass env i size st) as [r1 st1] eqn:E1. apply pass_spec in E1 as [S1 W1]; [|apply Hroom].
  apply (stepped_same offset size) in S1. destruct (Z.ltb_spec r1 0).
  { intros [= <- <-]. split; [done|]. split; [unfold EIO; lia|]. intros [W _]. specialize (W1 W). lia. }
  pose proof (stepped_room _ _ _ _ S1 Hroom) as Hroom1.
  destruct (write_at fd bsize alignment offset size st1) as [r2 st2] eqn:E2.
  apply write_at_stepped in E2 as (S2 & _ & R2 & _); [|done]. pose proof (stepped_trans _ _ _ _ _ S1 S2) as S12.
  destruct (Z.ltb_spec r2 0).
  { intros [= <- <-]. split; [done|]. split; [lia|]. intros W. apply (stepped_works _ _ _ _ S1) in W as [_ W].
    destruct R2 as [?|[_ []]]; [lia|done]. }
  intros E. apply IH in E as (S3 & R3 & W3); [|by apply (stepped_room _ _ _ _ S2)].
  split; [by eapply stepped_trans|]. split; [done|]. intros W. by apply W3, (stepped_works _ _ _ _ S12).
Qed.

Lemma wipe_special_spec offset size st r st' :
  room offset size st -> crypt_wipe_special env fd bsize alignment offset size st = (r, st') ->
  stepped offset size st st' /\ r <= 0 /\ (works st -> r = 0) /\
  (r = 0 -> wiped_block (we_random env) CRYPT_WIPE_SPECIAL (slice offset size (f_data (st_file st')))).
Proof.
  intros Hroom. unfold crypt_wipe_special. destruct (special_loop _ _ _ _ _ _ _ _ _) as [r1 st1] eqn:E1.
  apply special_loop_spec in E1 as (S1 & R1 & W1); [|done]. pose proof (stepped_room _ _ _ _ S1 Hroom) as Hroom1.
  destruct (Z.ltb_spec r1 0). { intros [= <- <-]. split; [done|]. split; [lia|]. split; [done|lia]. }
  destruct (random_get env size st1) as [r2 st2] eqn:E2. apply random_get_spec in E2 as (S2 & G2 & W2); [|apply Hroom1].
  apply (stepped_same offset size) in S2. pose proof (stepped_trans _ _ _ _ _ S1 S2) as S12.
  destruct (Z.ltb_spec r2 0).
  { intros [= <- <-]. split; [done|]. unfold EIO. split; [lia|]. split; [|lia]. intros [W _]. apply W2 in W. lia. }
  intros E3. apply write_at_stepped in E3 as (S3 & _ & R3 & D3); [|by apply (stepped_room _ _ _ _ S2)].
  split; [by eapply stepped_trans|]. split; [lia|]. split.
  - intros W. apply (stepped_works _ _ _ _ S12) in W as [_ W]. destruct R3 as [?|[_ []]]; done.
  - intros ->. rewrite D3 by done. destruct G2 as (k & -> & -> & Hz); [done|]. unfold wiped_block. cbn.
    exists k. rewrite Hz. done.
Qed.

(** After a write of whole blocks the position is behind them. *)
Lemma write_blockwise_pos buf length f r f' :
  0 < length -> zlen buf = length -> (bsize | length) -> 0 <= f_pos f -> f_pos f + length <= f_size f ->
  write_blockwise fd bsize alignment buf length f = (r, f') -> r = length -> f_pos f' = f_pos f + length.
Proof.
  intros Hl Hz [q Hq] Hp Hin. unfold write_blockwise.
  destruct (Z.eqb_spec fd (-1)), (Z.eqb_spec bsize 0), (Z.eqb_spec alignment 0); try lia. cbn [orb].
  assert (E0 : length mod bsize = 0) by (apply Z.mod_divide; [lia|by exists q]). rewrite E0, Z.sub_0_r.
  destruct (write_solid_spec fd buf length f) as (r1 & f1 & -> & _ & k & _ & _ & Hpos & Hc); [lia..|].
  destruct Hc as [[-> ->]|[-> _]]; [|intros [= <- <-] ?; lia].
  rewrite Z.eqb_refl, (proj2 (Z.ltb_ge length 0)) by lia. cbn. intros [= <- <-]. done.
Qed.

(** The buffer need not be filled again: it holds zeroes. *)
Definition init_ok (pattern : crypt_wipe_pattern) (size : Z) (init : bool) (st : wipe_state) : Prop :=
  init = false -> pattern = CRYPT_WIPE_ZERO /\ take (Z.to_nat size) (st_buffer st) = zeros (Z.to_nat size).

Lemma zeros_block n : wiped_block (we_random env) CRYPT_WIPE_ZERO (zeros n).
Proof. unfold wiped_block. cbn. unfold zeros. by rewrite length_replicate. Qed.

(** The buffer of a pattern other than Gutmann's. *)
Lemma fill_block pattern size init st r st' init' :
  pattern <> CRYPT_WIPE_SPECIAL -> 0 <= size <= zlen (st_buffer st) -> init_ok pattern size init st ->
  (if init then
     match pattern with
     | CRYPT_WIPE_ZERO => let '(sf, k, f) := st in (0, (fill (zeros (Z.to_nat size)) sf, k, f), false)
     | _ => let '(r, st) := random_get env size st in (if r =? 0 then 0 else - EIO, st, true)
     end
   else (0, st, init)) = (r, st', init') ->
  same_file st st' /\ (r = 0 \/ r = - EIO) /\ (oracle_succeeds (we_random env) -> r = 0) /\ init_ok pattern size init' st' /\
  (r = 0 -> wiped_block (we_random env) pattern (take (Z.to_nat size) (st_buffer st'))).
Proof.
  intros Hp Hs Hi E. destruct init.
  2: { destruct (Hi eq_refl) as [-> Ht]. injection E as <- <- <-. split; [done|]. split; [by left|]. split; [done|].
       split; [done|]. intros _. rewrite Ht. apply zeros_block. }
  assert (Hrand : forall r st' init', (let '(r, st) := random_get env size st in (if r =? 0 then 0 else - EIO, st, true)) = (r, st', init') ->
    pattern <> CRYPT_WIPE_ZERO ->
    same_file st st' /\ (r = 0 \/ r = - EIO) /\ (oracle_succeeds (we_random env) -> r = 0) /\ init_ok pattern size init' st' /\
    (r = 0 -> wiped_block (we_random env) pattern (take (Z.to_nat size) (st_buffer st')))).
  { clear E r st' init'. intros r st' init' E Hz. destruct (random_get env size st) as [r1 st1] eqn:E1.
    apply random_get_spec in E1 as (S & G & W); [|done]. injection E as <- <- <-. split; [done|].
    split; [destruct (r1 =? 0); auto|]. split; [intros X; by rewrite (W X)|]. split; [done|].
    destruct (Z.eqb_spec r1 0) as [->|]; [|unfold EIO; lia]. intros _. destruct G as (k & Hk & -> & Hz1); [done|].
    unfold wiped_block. rewrite bool_decide_false by done. exists k. by rewrite Hz1, <-Hk. }
  destruct pattern; [|by apply Hrand..]. destruct st as [[sf k] f]. injection E as <- <- <-.
  unfold init_ok, same_file, st_file, st_buffer in *. cbn [fst snd] in *.
  assert (Hz : zlen (zeros (Z.to_nat size)) = size) by (unfold zlen, zeros; rewrite length_replicate; lia).
  assert (Ht : take (Z.to_nat size) (fill (zeros (Z.to_nat size)) sf) = zeros (Z.to_nat size)).
  { rewrite <-Hz at 1. apply take_fill. lia. }
  split; [split; [done|apply zlen_fill; lia]|]. split; [by left|]. split; [done|]. split; [done|]. intros _. rewrite Ht. apply zeros_block.
Qed.

Lemma wipe_block_spec pattern offset size init st r st' init' :
  room offset size st -> 0 < size -> (pattern <> CRYPT_WIPE_SPECIAL -> (bsize | offset) /\ f_pos (st_file st) = offset) ->
  init_ok pattern size init st -> wipe_block env fd pattern bsize alignment size offset init st = (r, st', init') ->
  stepped offset size st st' /\ r <= 0 /\ (works st -> r = 0) /\ init_ok pattern size init' st' /\
  (r = 0 -> wiped_block (we_random env) pattern (slice offset size (f_data (st_file st'))) /\
     (pattern <> CRYPT_WIPE_SPECIAL -> (bsize | size) -> f_pos (st_file st') = offset + size)).
Proof.
  intros Hroom Hs Hp Hi. unfold wipe_block. case_bool_decide as Hsp.
  { subst pattern. destruct (crypt_wipe_special _ _ _ _ _ _ _) as [r1 st1] eqn:E. intros [= <- <- <-].
    apply wipe_special_spec in E as (S & R & W & D); [|done]. split; [done|]. split; [done|]. split; [done|].
    split; [intros F; destruct (Hi F); done|]. intros E0. split; [by apply D|done]. }
  destruct (Hp Hsp) as [Hd Hpos]. destruct (if init then _ else _) as [[r1 st1] init1] eqn:E.
  apply fill_block in E as (S & R & W & I & B); [|done|apply Hroom|done]. pose proof (stepped_same offset size _ _ S) as S'.
  destruct (Z.eqb_spec r1 0) as [->|Hr1]; cbn [negb].
  2: { intros [= <- <- <-]. destruct R as [?|R]; [done|]. subst r1. split; [done|]. unfold EIO in *. split; [lia|]. split; [|split; [done|lia]].
       intros [X _]. by apply W in X. }
  pose proof (stepped_room _ _ _ _ S' Hroom) as (Hz & Ho & Hin & Hlt & Hdiv). destruct S as [Sf Sz].
  destruct st1 as [[sf k] f]. unfold st_file, st_buffer in *. cbn [fst snd] in *. subst f.
  assert (Hzt : zlen (take (Z.to_nat size) sf) = size) by (apply zlen_take; lia).
  pose proof (write_blockwise_spec fd bsize alignment (take (Z.to_nat size) sf) size st.2 Hfd Hb Ha Hs Hzt
    ltac:(by rewrite Hpos) Hdiv ltac:(lia) ltac:(lia)) as Hw.
  pose proof (fun r f' => write_blockwise_pos (take (Z.to_nat size) sf) size st.2 r f' Hs Hzt) as Hwp.
  destruct (write_blockwise _ _ _ _ _ _) as [w f1]. intros [= <- <- <-]. rewrite Hpos in Hw. cbn [fst snd].
  apply blockwise_confined in Hw as [Hc Hr]; [|done|lia|lia]. rewrite swrap_id by lia.
  split; [split; [done|by unfold st_buffer]|]. split; [destruct (w =? size); unfold EIO; lia|]. split; [|split; [done|]].
  - intros [_ X]. destruct Hr as [[-> _]|[_ []]]; [by rewrite Z.eqb_refl|]. done.
  - destruct (Z.eqb_spec w size) as [->|]; [|unfold EIO; lia]. intros _. destruct Hr as [[_ ->]|[? _]]; [|lia]. split; [by apply B|].
    intros _ Hdv. rewrite (Hwp _ _ Hdv ltac:(lia) ltac:(lia) eq_refl eq_refl). lia.
Qed.

Lemma init_ok_le pattern n m init st : 0 <= n <= m -> init_ok pattern m init st -> init_ok pattern n init st.
Proof.
  intros Hn Hi F. destruct (Hi F) as [Hp Ht]. split; [done|].
  replace (take (Z.to_nat n) (st_buffer st)) with (take (Z.to_nat n) (take (Z.to_nat m) (st_buffer st)))
    by (rewrite take_take; f_equal; lia).
  rewrite Ht. unfold zeros. rewrite take_replicate. f_equal. lia.
Qed.

Lemma wipe_loop_spec pattern dev_size fuel wbs o init st :
  let st0 := st in
  0 <= o <= dev_size -> dev_size <= f_size (st_file st) < 2 ^ 63 -> (bsize | f_size (st_file st)) ->
  0 < wbs <= zlen (st_buffer st) -> wbs < 2 ^ 63 -> dev_size - o <= wbs \/ (bsize | wbs) ->
  (pattern <> CRYPT_WIPE_SPECIAL -> o < dev_size -> (bsize | o) /\ f_pos (st_file st) = o) ->
  init_ok pattern wbs init st -> dev_size - o <= Z.of_nat fuel * wbs ->
  exists r st', wipe_loop env fuel fd pattern bsize alignment wbs o dev_size init st = Some (r, st') /\
    confined o (dev_size - o) (st_file st0) (st_file st') /\ r <= 0 /\
    (works st0 -> we_progress env = None -> r = 0) /\
    (r = 0 -> wiped (we_random env) pattern (slice o (dev_size - o) (f_data (st_file st')))).
Proof.
  cbv zeta. revert wbs o init st. induction fuel as [|fuel IH]; intros wbs o init st Ho Hin Hd Hw Hw63 Hm Hp Hi Hfuel.
  { cbn [wipe_loop]. rewrite (proj2 (Z.ltb_ge o dev_size)) by lia. exists 0, st. split; [done|].
    split; [apply confined_refl|]. split; [lia|]. split; [done|]. intros _. replace (dev_size - o) with 0 by lia. rewrite slice_0. by exists []. }
  cbn [wipe_loop]. destruct (Z.ltb_spec o dev_size) as [Hlt|Hge].
  2: { exists 0, st. split; [done|].
       split; [apply confined_refl|]. split; [lia|]. split; [done|]. intros _. replace (dev_size - o) with 0 by lia. rewrite slice_0. by exists []. }
  rewrite (add64_id o wbs) by lia. rewrite sub64_id by lia.
  set (size := if dev_size <? o + wbs then dev_size - o else wbs).
  assert (Hsz : 0 < size <= wbs /\ o + size <= dev_size /\ (o + size < dev_size -> size = wbs)).
  { unfold size. destruct (Z.ltb_spec dev_size (o + wbs)); lia. }
  clearbody size. destruct Hsz as (Hs1 & Hs2 & Hs3).
  destruct (wipe_block env fd pattern bsize alignment size o init st) as [[r1 st1] init1] eqn:E.
  assert (Hroom : room o size st) by (unfold room; split; [lia|]; split; [lia|]; split; [lia|]; split; [lia|done]).
  apply wipe_block_spec in E as ([C1 Z1] & R1 & W1 & I1 & D1); [|done|lia|auto|by apply (init_ok_le _ size wbs); [lia|]].
  assert (C1' : confined o (dev_size - o) (st_file st) (st_file st1)) by (apply (confined_weaken _ _ o size); [lia|lia|done]).
  destruct (Z.eqb_spec r1 0) as [->|Hr1]; cbn [negb].
  2: { exists r1, st1. split; [done|]. split; [done|]. split; [lia|]. split; [by auto|done]. }
  destruct (D1 eq_refl) as [B1 P1]. rewrite (add64_id o size) by lia. destruct (report env dev_size (o + size)) eqn:Erep.
  { exists (- EINTR), st1. split; [done|]. split; [done|]. unfold EINTR. split; [lia|]. split; [|lia].
    intros _ Hpr. unfold report in Erep. by rewrite Hpr in Erep. }
  destruct (IH size (o + size) init1 st1) as (r & st' & -> & C & R & W & D).
  - lia.
  - rewrite (cf_size _ _ _ _ C1). lia.
  - by rewrite (cf_size _ _ _ _ C1).
  - lia.
  - lia.
  - destruct (decide (o + size < dev_size)) as [Hl|]; [right|left; lia]. rewrite Hs3 by done. destruct Hm; [lia|done].
  - intros Hsp Hl. destruct (Hp Hsp Hlt) as [Hdo _]. destruct Hm as [?|Hm]; [lia|]. rewrite <-(Hs3 Hl) in Hm.
    split; [by apply Z.divide_add_r|]. by apply P1.
  - done.
  - destruct (decide (o + size < dev_size)) as [Hl|]; [rewrite (Hs3 Hl)|]; lia.
  - exists r, st'. split; [done|]. split.
    { eapply confined_trans; [done|]. apply (confined_weaken _ _ (o + size) (dev_size - (o + size))); [lia|lia|done]. }
    split; [done|]. split.
    { intros [W0 Bn] Hpr. apply W; [|done]. split; [done|]. by apply (cf_sched _ _ _ _ C1 _ Bn). }
    intros Hr. replace (dev_size - o) with (size + (dev_size - (o + size))) by lia.
    rewrite slice_app_split by lia. apply wiped_app; [|by apply D].
    apply wiped_one. by rewrite (cf_slice _ _ _ _ C o size) by lia.
Qed.
End block.

(** The caller may write to the device. *)
Definition wipe_ready (env : wipe_env) (d : device) : Prop :=
  dev_ready (we_os env) d /\ writable d /\ f_size (d_file d) < 2 ^ 63 /\ oracle_ok (we_random env).

(** Nothing but the transfers can fail. *)
Definition wipe_works (env : wipe_env) (d : device) : Prop :=
  benign (f_sched (d_file d)) /\ oracle_succeeds (we_random env) /\ we_progress env = None /\ (forall a n, we_memalign env a n = 0).

(** What a wipe of the range leaves of the device. *)
Record wipe_outcome (env : wipe_env) (pattern : crypt_wipe_pattern) (offset length : Z) (d : device) (r : Z) (d' : device) : Prop := {
  wo_confined : confined offset length (d_file d) (d_file d');
  wo_lock : d_lh d' = d_lh d;
  wo_wiped : r = 0 -> wiped (we_random env) (if bool_decide (pattern = CRYPT_WIPE_ZERO) then CRYPT_WIPE_ZERO else CRYPT_WIPE_RANDOM)
    (slice offset length (f_data (d_file d')));
  wo_works : wipe_works env d -> r = 0;
}.

Lemma wiped_pattern rnd p w :
  wiped rnd p w -> wiped rnd (if bool_decide (p = CRYPT_WIPE_ZERO) then CRYPT_WIPE_ZERO else CRYPT_WIPE_RANDOM) w.
Proof. intros H. by destruct p. Qed.

(** What the wipe asks for: whole sectors of the device, in blocks that are a
    multiple of the device's, or all at once. *)
Record wipe_request (env : wipe_env) (offset length wbs : Z) (d : device) : Prop := {
  wr_offset : 0 <= offset /\ (512 | offset) /\ (env_block_size (we_os env) | offset);
  wr_length : 0 < length /\ (512 | length) /\ offset + length <= f_size (d_file d);
  wr_block : 0 < wbs < 2 ^ 63 /\ (512 | wbs) /\ (length <= wbs \/ (env_block_size (we_os env) | wbs));
}.

Lemma misaligned_512_divide a : (512 | a) -> MISALIGNED_512 a =? 0 = true.
Proof. intros H. apply Z.eqb_eq. rewrite MISALIGNED_512_mod. by apply Z.mod_divide. Qed.

Lemma wipe_device_spec env pattern offset length wbs d :
  wipe_ready env d -> wipe_request env offset length wbs d ->
  exists r d', crypt_wipe_device env pattern offset length wbs d = Some (r, d') /\ wipe_outcome env pattern offset length d r d'.
Proof.
  intros (Hready & Hwr & Hlt & Horacle) [[Ho [Ho1 Ho2]] [Hl [Hl1 Hl2]] [Hw [Hw1 Hw2]]].
  pose proof (dev_ready_opens _ _ Hready) as Hop. destruct (do_block _ _ Hready) as [Hb _].
  pose proof (do_align _ _ Hready) as Ha. pose proof (do_blocks _ _ Hready) as Hdiv. cbn in Hdiv.
  unfold crypt_wipe_device.
  destruct (Z.eqb_spec (env_block_size (we_os env)) 0); [lia|]. destruct (Z.eqb_spec (env_alignment (we_os env)) 0); [done|].
  destruct (Z.eqb_spec wbs 0); [lia|]. rewrite !misaligned_512_divide by done. cbn [negb orb].
  destruct (open_either_ok (we_os env) d O_RDWR Hop (or_intror (conj eq_refl Hwr))) as (fd & d1 & E & Hfd & Hf & Hlh).
  rewrite E. clear E. rewrite (proj2 (Z.ltb_ge fd 0) Hfd). destruct (Z.eqb_spec length 0); [lia|]. cbn [negb].
  erewrite bind_run by reflexivity. cbn beta match. rewrite Z.eqb_refl. cbn [negb].
  assert (Hc0 : forall d' n, d_lh d' = d_lh d -> d_file d' = d_file d -> n <> 0 -> (wipe_works env d -> n = 0) ->
    wipe_outcome env pattern offset length d n d').
  { intros d' n' Hl' Hf' Hn' Hw'. split; [rewrite Hf'; apply confined_refl|done|by intros ->|done]. }
  destruct (Z.eqb_spec (we_memalign env (env_alignment (we_os env)) wbs) 0) as [Em|Em]; cbn [negb].
  2: { eexists _, d1. split; [reflexivity|]. apply Hc0; [done|done|done|]. intros (_ & _ & _ & X). by rewrite X in Em. }
  rewrite swrap_id by lia. rewrite (proj2 (Z.ltb_ge offset 0)) by lia. rewrite sys_lseek_set_spec by lia.
  rewrite (add64_id offset length) by lia.
  set (f := File (f_data (d_file d1)) offset (f_sched (d_file d1))).
  destruct (report env (offset + length) offset) eqn:Erep.
  { eexists _, _. split; [reflexivity|]. unfold report in Erep.
    split; [apply confined_same; unfold f; cbn; rewrite Hf; [done|apply sched_le_same]|done|unfold EINVAL; lia|].
    intros (_ & _ & X & _). by rewrite X in Erep. }
  set (p := if bool_decide (pattern = CRYPT_WIPE_SPECIAL) && negb (we_rotational env) then CRYPT_WIPE_RANDOM else pattern).
  destruct (wipe_loop_spec env fd (env_block_size (we_os env)) (env_alignment (we_os env)) Hfd Hb Ha Horacle p (offset + length)
    (wipe_fuel wbs offset (offset + length)) wbs offset true (zeros (Z.to_nat wbs), O, f)) as (r & st & El & C & R & W & D);
    unfold st_file, st_buffer in *; cbn [fst snd] in *.
  - lia.
  - unfold f, f_size. cbn [f_data]. rewrite Hf. fold (f_size (d_file d)). lia.
  - unfold f, f_size. cbn [f_data]. by rewrite Hf.
  - unfold zlen, zeros. rewrite length_replicate. lia.
  - lia.
  - replace (offset + length - offset) with length by lia. tauto.
  - done.
  - done.
  - replace (offset + length - offset) with length by lia. unfold wipe_fuel. replace (offset + length - offset) with length by lia.
    pose proof (Z.div_mod length wbs ltac:(lia)). pose proof (Z.mod_pos_bound length wbs ltac:(lia)).
    assert (0 <= length / wbs) by (apply Z.div_pos; lia). nia.
  - cbn [d_file set_file]. fold f in El. rewrite El. destruct st as [[sf k] f']. cbn [fst snd] in *.
    replace (offset + length - offset) with length in * by lia. eexists _, _. split; [reflexivity|].
    assert (Hff : confined offset length (d_file d) f) by (apply confined_same; unfold f; cbn; rewrite Hf; [done|apply sched_le_same]).
    split; [by eapply confined_trans|done| |].
    + intros Hr. apply D in Hr. unfold p in Hr. destruct pattern; cbn in *; try done. by destruct (we_rotational env).
    + intros (X1 & X2 & X3 & _). apply W; [|done]. split; [done|]. unfold f. cbn [f_sched]. by rewrite Hf.
Qed.

(** ** Properties *)

(** C29: A wipe of a range that lies on the device, in blocks that are a multiple
    of the device's block size (or in one), returns; it changes no byte outside
    the range, and when it reports success the whole range holds zeroes, or
    answers of the random generator for the other patterns. It succeeds unless a
    transfer, the generator or the allocation fails or the callback stops it. *)
Theorem wipe_overwrites_range env pattern offset length wbs d :
  wipe_ready env d -> wipe_request env offset length wbs d ->
  exists r d', crypt_wipe_device env pattern offset length wbs d = Some (r, d') /\
    f_size (d_file d') = f_size (d_file d) /\
    (forall o n, 0 <= o -> 0 <= n -> o + n <= offset \/ offset + length <= o ->
       slice o n (f_data (d_file d')) = slice o n (f_data (d_file d))) /\
    (r = 0 ->
       let w := slice offset length (f_data (d_file d')) in
       if bool_decide (pattern = CRYPT_WIPE_ZERO) then w = zeros (Z.to_nat length)
       else wiped (we_random env) CRYPT_WIPE_RANDOM w) /\
    (wipe_works env d -> r = 0).
Proof.
  intros Hr Hq. destruct (wipe_device_spec env pattern offset length wbs d Hr Hq) as (r & d' & E & [C L W K]).
  exists r, d'. split; [done|]. split; [apply C|]. split; [apply C|]. split; [|done]. intros R. apply W in R. cbv zeta.
  case_bool_decide; [|done]. apply wiped_zeros in R. rewrite R. unfold zeros. f_equal.
  destruct Hq as [[H1 _] [H2 [_ H3]] _].
  assert (Hz : zlen (slice offset length (f_data (d_file d'))) = length); [|unfold zlen in Hz; lia].
  apply zlen_slice; [lia|lia|]. change (zlen (f_data (d_file d'))) with (f_size (d_file d')). rewrite (cf_size _ _ _ _ C). lia.
Qed.

(** ** Examples *)

Definition fx_oracle : random_oracle := fun k n => (0, replicate (Z.to_nat n) xab).
Definition fx_wipe_env (bsize : Z) : wipe_env := {|
  we_os := OsEnv false (fun _ => 0) (fun _ => (3, 0)) false true bsize 1 0x400000;
  we_random := fx_oracle; we_rotational := true; we_errno := 0; we_memalign := fun _ _ => 0; we_progress := None;
|}.
Definition fx_wipe_device (sched : list xfer) : device := Device (File (replicate 8192 xff) 0 sched) None (-1) (-1).

Lemma fx_wipe_ready bsize sched : 0 < bsize -> (512 | bsize) -> (bsize | 4096) -> wipe_ready (fx_wipe_env bsize) (fx_wipe_device sched).
Proof.
  intros Hb H1 H2. split; [|split; [done|split; [done|]]].
  - split; try done. cbn [env_block_size we_os fx_wipe_env d_file fx_wipe_device]. apply (Z.divide_trans _ _ _ H2). by exists 2.
  - intros k n Hn _. cbn. unfold zlen. rewrite length_replicate. lia.
Qed.

Lemma wipe_overwrites_range_witness :
  exists r d', crypt_wipe_device (fx_wipe_env 512) CRYPT_WIPE_ZERO 512 1536 1024 (fx_wipe_device [Xfer 100; Xerr EINTR]) = Some (r, d') /\
    r = 0 /\ slice 512 1536 (f_data (d_file d')) = zeros 1536 /\ slice 0 512 (f_data (d_file d')) = replicate 512 xff.
Proof.
  destruct (wipe_overwrites_range (fx_wipe_env 512) CRYPT_WIPE_ZERO 512 1536 1024 (fx_wipe_device [Xfer 100; Xerr EINTR]))
    as (r & d' & E & S & U & W & K).
  - apply fx_wipe_ready; [done|by exists 1|by exists 8].
  - split; cbn [env_block_size we_os fx_wipe_env].
    + split; [done|]. split; by exists 1.
    + split; [done|]. split; [by exists 3|]. vm_compute. discriminate.
    + split; [done|]. split; [by exists 2|]. right. by exists 2.
  - assert (R : r = 0) by (apply K; split; [by repeat constructor|split; [intros k n; reflexivity|split; [reflexivity|intros; reflexivity]]]).
    exists r, d'. split; [exact E|]. split; [exact R|].
    split; [by apply (W R)|]. rewrite U; [|lia|lia|lia]. by vm_compute.
Defined.

(** On a device of 4096-byte blocks a wipe in smaller blocks writes each at the
    start of the next device block: it leaves most of its range, overwrites
    bytes behind it and reports success. *)
Theorem small_wipe_blocks_miss :
  exists d', crypt_wipe_device (fx_wipe_env 4096) CRYPT_WIPE_ZERO 0 1024 512 (fx_wipe_device []) = Some (0, d') /\
    slice 512 512 (f_data (d_file d')) = replicate 512 xff /\ slice 4096 512 (f_data (d_file d')) = zeros 512.
Proof. eexists. split; [vm_compute; reflexivity|]. split; by vm_compute. Qed.
