(* ===== verification/LockProtocol.v ===== *)
(** * LockProtocol: lock files between processes (lib/utils_device_locking.c)

    The lock on a block device, or a named resource, is flock(2) on a file of
    the locking directory. Releasing a lock may remove the file, so a process
    that got the flock checks that the path still names the file it locked
    ([verify_lock_handle]) and starts again otherwise. Every system call of
    [acquire_and_verify] and [unlock_internal] is one action here, and
    processes interleave in any order. A "process" is one lock handle. *)

From S2P Require Import Prelude Device.
From stdpp Require Import gmap.

(** Where a handle is in the code. [again] is the operation to retry after
    -EAGAIN; [None] means the call ends. *)
Inductive lock_pc :=
| PIdle                                                       (* no handle *)
| PRetry (op : lock_type)                                     (* do { ... } while (r == -EAGAIN) *)
| POpened (op : lock_type) (ino : nat)                        (* open_resource returned *)
| PLocked (op : lock_type) (ino : nat)                        (* flock succeeded *)
| PHeld (op : lock_type) (ino : nat)                          (* verify_lock_handle returned 0 *)
| PUnlock (ino : nat) (again : option lock_type)              (* before flock(LOCK_UN) *)
| PRelTry (ino : nat) (again : option lock_type)              (* release: before flock(LOCK_EX | LOCK_NB) *)
| PRelLocked (ino : nat) (again : option lock_type)           (* release: before fstat and stat *)
| PRelUnlink (ino : nat) (again : option lock_type)           (* release: before unlink *)
| PRelClose (ino : nat) (again : option lock_type).           (* release: before close *)

Record world := World {
  lock_path : option nat;              (* the file the path names *)
  next_ino : nat;                      (* a number no file has yet *)
  flocks : gmap nat (nat * lock_type); (* flock held by each handle *)
  pcs : gmap nat lock_pc;
}.

Definition pc_of (w : world) (p : nat) : lock_pc := default PIdle (pcs w !! p).

(** The start of the operations a program calls, and the system calls. *)
Inductive action :=
| AStart (op : lock_type)   (* a new acquire_and_verify *)
| AOpen                     (* open_resource *)
| AFlock                    (* flock in acquire_and_verify, granted *)
| AFlockBusy                (* flock in acquire_and_verify, refused *)
| AVerify                   (* verify_lock_handle *)
| ARelease                  (* unlock_internal *)
| AUnlock                   (* flock(LOCK_UN) *)
| ATryGranted               (* flock(LOCK_EX | LOCK_NB) in release_lock_handle *)
| ATryRefused
| ACompare                  (* fstat, stat, same_inode *)
| AUnlink
| AClose.

#[export] Instance action_eq : EqDecision action.
Proof. solve_decision. Defined.

(** flock(2): an exclusive lock excludes all others on the same file. *)
Definition grantable (w : world) (p ino : nat) (op : lock_type) : bool :=
  bool_decide (map_Forall (fun q (h : nat * lock_type) =>
    q <> p -> h.1 = ino -> op = DEV_LOCK_READ /\ h.2 = DEV_LOCK_READ) (flocks w)).

Definition goto (w : world) (p : nat) (pc : lock_pc) : world :=
  World (lock_path w) (next_ino w) (flocks w) (<[p := pc]> (pcs w)).
Definition set_flock (w : world) (p ino : nat) (op : lock_type) : world :=
  World (lock_path w) (next_ino w) (<[p := (ino, op)]> (flocks w)) (pcs w).
Definition drop_flock (w : world) (p : nat) : world :=
  World (lock_path w) (next_ino w) (delete p (flocks w)) (pcs w).
Definition unlink_path (w : world) : world := World None (next_ino w) (flocks w) (pcs w).

(** openat(O_CREAT): the file of the path, created when there is none. *)
Definition open_resource (w : world) : nat * world :=
  match lock_path w with
  | Some ino => (ino, w)
  | None => (next_ino w, World (Some (next_ino w)) (S (next_ino w)) (flocks w) (pcs w))
  end.

Definition after_close (again : option lock_type) : lock_pc :=
  match again with Some op => PRetry op | None => PIdle end.

(** One action of handle [p]; [None] when it is not at that point. *)
Definition exec (w : world) (p : nat) (a : action) : option world :=
  match pc_of w p, a with
  | PIdle, AStart op => Some (goto w p (PRetry op))
  | PRetry op, AOpen => let '(ino, w) := open_resource w in Some (goto w p (POpened op ino))
  | POpened op ino, AFlock =>
      if grantable w p ino op then Some (goto (set_flock w p ino op) p (PLocked op ino)) else None
  | POpened op ino, AFlockBusy => Some (goto w p (PRelTry ino None))
  | PLocked op ino, AVerify =>
      if bool_decide (lock_path w = Some ino) then Some (goto w p (PHeld op ino))
      else Some (goto w p (PUnlock ino (Some op)))
  | PHeld op ino, ARelease => Some (goto w p (PUnlock ino None))
  | PUnlock ino again, AUnlock => Some (goto (drop_flock w p) p (PRelTry ino again))
  | PRelTry ino again, ATryGranted =>
      if grantable w p ino DEV_LOCK_WRITE
      then Some (goto (set_flock w p ino DEV_LOCK_WRITE) p (PRelLocked ino again)) else None
  | PRelTry ino again, ATryRefused => Some (goto w p (PRelClose ino again))
  | PRelLocked ino again, ACompare =>
      if bool_decide (lock_path w = Some ino) then Some (goto w p (PRelUnlink ino again))
      else Some (goto w p (PRelClose ino again))
  | PRelUnlink ino again, AUnlink => Some (goto (unlink_path w) p (PRelClose ino again))
  | PRelClose ino again, AClose => Some (goto (drop_flock w p) p (after_close again))
  | _, _ => None
  end.

Definition initial_world : world := World None 0 ∅ ∅.

(** A sequence of steps of the handles. *)
Fixpoint run (w : world) (tr : list (nat * action)) : option world :=
  match tr with
  | [] => Some w
  | (p, a) :: tr' => w' ← exec w p a; run w' tr'
  end.

Definition holds (w : world) (p : nat) (op : lock_type) : Prop := exists ino, pc_of w p = PHeld op ino.

(** ** The invariant *)

(** The flock a handle has at each point. *)
Definition flock_of_pc (pc : lock_pc) (f : option (nat * lock_type)) : Prop :=
  match pc with
  | PIdle | PRetry _ | POpened _ _ | PRelTry _ _ => f = None
  | PLocked op ino | PHeld op ino => f = Some (ino, op)
  | PUnlock ino _ => exists op, f = Some (ino, op)
  | PRelLocked ino _ | PRelUnlink ino _ => f = Some (ino, DEV_LOCK_WRITE)
  | PRelClose ino _ => f = None \/ f = Some (ino, DEV_LOCK_WRITE)
  end.

(** A verified lock, or a checked file about to be removed, is the path's file. *)
Definition path_of_pc (pc : lock_pc) (path : option nat) : Prop :=
  match pc with
  | PHeld _ ino | PRelUnlink ino _ => path = Some ino
  | _ => True
  end.

Record lock_inv (w : world) : Prop := {
  inv_flock : forall p, flock_of_pc (pc_of w p) (flocks w !! p);
  inv_path : forall p, path_of_pc (pc_of w p) (lock_path w);
  inv_compat : forall p q i m1 m2, p <> q -> flocks w !! p = Some (i, m1) -> flocks w !! q = Some (i, m2) ->
    m1 = DEV_LOCK_READ /\ m2 = DEV_LOCK_READ;
}.

Lemma pc_of_goto w p q pc : pc_of (goto w p pc) q = if decide (q = p) then pc else pc_of w q.
Proof.
  unfold pc_of, goto. cbn. case_decide as E.
  - subst. by rewrite lookup_insert_eq.
  - by rewrite lookup_insert_ne.
Qed.

Lemma pc_of_set_flock w p q i op : pc_of (set_flock w p i op) q = pc_of w q.
Proof. done. Qed.
Lemma pc_of_drop_flock w p q : pc_of (drop_flock w p) q = pc_of w q.
Proof. done. Qed.

(** A step that only moves one handle. *)
Lemma inv_goto w p pc :
  lock_inv w -> flock_of_pc pc (flocks w !! p) -> path_of_pc pc (lock_path w) -> lock_inv (goto w p pc).
Proof.
  intros [H1 H2 H3] Hf Hp. split.
  - intros q. rewrite pc_of_goto. case_decide; [by subst|apply H1].
  - intros q. rewrite pc_of_goto. case_decide; [done|apply H2].
  - exact H3.
Qed.

Lemma inv_set_flock w p pc i op :
  lock_inv w -> grantable w p i op = true -> flock_of_pc pc (Some (i, op)) -> path_of_pc pc (lock_path w) ->
  lock_inv (goto (set_flock w p i op) p pc).
Proof.
  intros [H1 H2 H3] Hg Hf Hp. apply bool_decide_eq_true in Hg. split.
  - intros q. rewrite pc_of_goto. cbn. case_decide as E.
    + subst. by rewrite lookup_insert_eq.
    + rewrite lookup_insert_ne by done. apply H1.
  - intros q. rewrite pc_of_goto. case_decide; [done|apply H2].
  - intros q r j m1 m2 Hne. cbn. rewrite !lookup_insert. repeat case_decide; subst; intros Hq Hr; simplify_eq.
    + by apply (Hg r _ Hr).
    + by destruct (Hg q _ Hq ltac:(done) eq_refl).
    + by apply (H3 q r j).
Qed.

Lemma inv_drop_flock w p pc :
  lock_inv w -> flock_of_pc pc None -> path_of_pc pc (lock_path w) -> lock_inv (goto (drop_flock w p) p pc).
Proof.
  intros [H1 H2 H3] Hf Hp. split.
  - intros q. rewrite pc_of_goto. cbn. case_decide as E.
    + subst. by rewrite lookup_delete_eq.
    + rewrite lookup_delete_ne by done. apply H1.
  - intros q. rewrite pc_of_goto. case_decide; [done|apply H2].
  - intros q r j m1 m2 Hne. cbn. intros Hq Hr.
    apply lookup_delete_Some in Hq as [_ Hq]. apply lookup_delete_Some in Hr as [_ Hr]. by eapply H3.
Qed.

(** Only the handle that has the exclusive flock can remove the file, so no
    other handle relies on the path. *)
Lemma inv_unlink w p i again :
  lock_inv w -> pc_of w p = PRelUnlink i again -> lock_inv (goto (unlink_path w) p (PRelClose i again)).
Proof.
  intros [H1 H2 H3] Hpc. pose proof (H1 p) as Hf. pose proof (H2 p) as Hp. rewrite Hpc in Hf, Hp. cbn in Hf, Hp.
  assert (Hothers : forall q, q <> p -> path_of_pc (pc_of w q) None).
  { intros q Hne. pose proof (H1 q) as Hq. pose proof (H2 q) as Hq2.
    destruct (pc_of w q); cbn in *; try done; rewrite Hp in Hq2; injection Hq2 as <-;
      destruct (H3 p q _ _ _ (not_eq_sym Hne) Hf Hq); done. }
  split.
  - intros q. rewrite pc_of_goto. case_decide; [subst; right; exact Hf|apply H1].
  - intros q. rewrite pc_of_goto. case_decide as E; [done|]. cbn. apply Hothers. done.
  - exact H3.
Qed.

(** Creating the file: nobody holds a verified lock when there is none. *)
Lemma inv_open w p op :
  lock_inv w -> pc_of w p = PRetry op ->
  let '(ino, w') := open_resource w in lock_inv (goto w' p (POpened op ino)).
Proof.
  intros [H1 H2 H3] Hpc. pose proof (H1 p) as Hf. rewrite Hpc in Hf. unfold open_resource.
  destruct (lock_path w) as [ino|] eqn:El.
  - apply inv_goto; [split; rewrite ?El; done|exact Hf|done].
  - apply inv_goto; [|exact Hf|done]. split; [exact H1| |exact H3].
    intros q. specialize (H2 q). change (pc_of (World _ _ _ _) q) with (pc_of w q).
    destruct (pc_of w q); cbn in *; congruence.
Qed.

Lemma exec_inv w p a w' : lock_inv w -> exec w p a = Some w' -> lock_inv w'.
Proof.
  intros Hi. pose proof (inv_flock _ Hi p) as Hf. pose proof (inv_path _ Hi p) as Hp.
  unfold exec. destruct (pc_of w p) eqn:Epc; destruct a; try done; cbn in Hf, Hp.
  - intros [= <-]. by apply inv_goto.
  - pose proof (inv_open w p op Hi Epc) as Ho. destruct (open_resource w). by intros [= <-].
  - destruct (grantable w p ino op) eqn:Eg; [|done]. intros [= <-]. by apply inv_set_flock.
  - intros [= <-]. by apply inv_goto.
  - case_bool_decide; intros [= <-]; apply inv_goto; cbn; eauto.
  - intros [= <-]. apply inv_goto; cbn; eauto.
  - intros [= <-]. by apply inv_drop_flock.
  - destruct (grantable w p ino DEV_LOCK_WRITE) eqn:Eg; [|done]. intros [= <-]. by apply inv_set_flock.
  - intros [= <-]. apply inv_goto; cbn; auto.
  - case_bool_decide; intros [= <-]; apply inv_goto; cbn; auto.
  - intros [= <-]. by eapply inv_unlink.
  - intros [= <-]. apply inv_drop_flock; [done|by destruct again|by destruct again].
Qed.

Lemma run_inv w tr w' : lock_inv w -> run w tr = Some w' -> lock_inv w'.
Proof.
  revert w. induction tr as [|[p a] tr IH]; cbn; intros w Hi; [by intros [= <-]|].
  destruct (exec w p a) as [w1|] eqn:E; [|done]. cbn. intros H. eapply IH; [|exact H]. by eapply exec_inv.
Qed.

Lemma initial_inv : lock_inv initial_world.
Proof.
  split; cbn.
  - intros p. unfold pc_of. cbn. by rewrite !lookup_empty.
  - intros p. unfold pc_of. cbn. by rewrite lookup_empty.
  - intros p q i m1 m2 _. by rewrite lookup_empty.
Qed.

(** ** Properties *)

(** C18: Mutual exclusion. In every interleaving of any number of handles, if one
    holds the lock (its [acquire_and_verify] returned 0 and it has not released
    it yet) while another one holds it, both hold it for reading: nobody else
    holds the lock while a writer does, although lock files are removed and
    created concurrently. *)
Theorem lock_mutual_exclusion tr w p q op1 op2 :
  run initial_world tr = Some w -> p <> q -> holds w p op1 -> holds w q op2 ->
  op1 = DEV_LOCK_READ /\ op2 = DEV_LOCK_READ.
Proof.
  intros Hr Hne [i Hp] [j Hq]. destruct (run_inv _ _ _ initial_inv Hr) as [H1 H2 H3].
  pose proof (H1 p) as Fp. pose proof (H2 p) as Pp. pose proof (H1 q) as Fq. pose proof (H2 q) as Pq.
  rewrite Hp in Fp, Pp. rewrite Hq in Fq, Pq. cbn in *.
  assert (j = i) as -> by congruence. by eapply H3.
Qed.

(** The file of a held lock stays in place: the path names the file that the
    holder locked until the holder itself releases it. *)
Theorem held_lock_file_stays tr w p op ino :
  run initial_world tr = Some w -> pc_of w p = PHeld op ino ->
  lock_path w = Some ino /\
  forall q a w', exec w q a = Some w' -> (q = p -> a <> ARelease) ->
    pc_of w' p = PHeld op ino /\ lock_path w' = Some ino.
Proof.
  intros Hr Hp. pose proof (run_inv _ _ _ initial_inv Hr) as Hi.
  pose proof (inv_path _ Hi p) as Pp. rewrite Hp in Pp. cbn in Pp. split; [done|].
  intros q a w' He Hq. pose proof (exec_inv _ _ _ _ Hi He) as Hi'.
  assert (Hpc : pc_of w' p = PHeld op ino).
  { destruct (decide (q = p)) as [->|Hne].
    - unfold exec in He. rewrite Hp in He. destruct a; try done. by destruct (Hq eq_refl).
    - unfold exec, open_resource in He.
      destruct (pc_of w q), a; try done; repeat case_match; simplify_eq;
        rewrite pc_of_goto, decide_False by done; done. }
  split; [done|]. pose proof (inv_path _ Hi' p) as Pp'. by rewrite Hpc in Pp'.
Qed.

(** ** Retries *)

(** Only removing the file makes the path stop naming it. *)
Lemma exec_keeps_path w q a w' ino :
  exec w q a = Some w' -> a <> AUnlink -> lock_path w = Some ino -> lock_path w' = Some ino.
Proof.
  intros He Ha Hl. unfold exec, open_resource in He.
  destruct (pc_of w q), a; try done; rewrite ?Hl in He; repeat case_match; by simplify_eq.
Qed.

Lemma run_keeps_path w tr w' ino :
  run w tr = Some w' -> lock_path w = Some ino -> Forall (fun s => s.2 <> AUnlink) tr -> lock_path w' = Some ino.
Proof.
  intros Hr Hl HF. revert w Hr Hl. induction HF as [|[q a] tr Ha _ IH]; cbn; intros w; [by intros [= <-]|].
  destruct (exec w q a) as [w1|] eqn:E; [|done]. cbn. intros Hr Hl. eapply IH; [exact Hr|]. by eapply exec_keeps_path.
Qed.

(** Every retry is due to a removal: when [verify_lock_handle] sends a handle
    back to try again, somebody removed the file since the handle opened it. A
    flock may be refused at any time here ([AFlockBusy] also stands for its
    other errors), so nothing is said of a handle that does not get it. *)
Theorem retry_means_removed w p op w1 ino tr w2 w3 again :
  pc_of w p = PRetry op -> exec w p AOpen = Some w1 -> pc_of w1 p = POpened op ino ->
  run w1 tr = Some w2 -> pc_of w2 p = PLocked op ino -> exec w2 p AVerify = Some w3 -> pc_of w3 p = PUnlock ino again ->
  exists q, (q, AUnlink) ∈ tr.
Proof.
  intros Hp He H1 Hr H2 Hv H3. assert (Hl : lock_path w1 = Some ino).
  { unfold exec, open_resource in He. rewrite Hp in He. destruct (lock_path w) eqn:El; injection He as <-;
      rewrite pc_of_goto, decide_True in H1 by done; injection H1 as ->; done. }
  destruct (decide (Exists (fun s => s.2 = AUnlink) tr)) as [Hx|Hx].
  { apply Exists_exists in Hx as ([q a] & Hin & Ha). cbn in Ha. subst. by exists q. }
  apply not_Exists_Forall in Hx; [|solve_decision]. exfalso.
  pose proof (run_keeps_path _ _ _ _ Hr Hl Hx) as Hl2. unfold exec in Hv. rewrite H2, bool_decide_true in Hv by done.
  injection Hv as <-. by rewrite pc_of_goto, decide_True in H3.
Qed.

(** ** Witnesses *)

(** Handle 0 locks for writing and starts to release; handle 1 opens the file
    before 0 removes it, finds it gone, retries with a new file and gets the
    lock; then 2 fails to get it. *)
Definition fx_race : list (nat * action) :=
  [ (0%nat, AStart DEV_LOCK_WRITE); (0%nat, AOpen); (0%nat, AFlock); (0%nat, AVerify);
    (1%nat, AStart DEV_LOCK_READ); (1%nat, AOpen);
    (0%nat, ARelease); (0%nat, AUnlock); (0%nat, ATryGranted); (0%nat, ACompare); (0%nat, AUnlink); (0%nat, AClose);
    (1%nat, AFlock); (1%nat, AVerify); (1%nat, AUnlock); (1%nat, ATryGranted); (1%nat, ACompare); (1%nat, AClose);
    (1%nat, AOpen); (1%nat, AFlock); (1%nat, AVerify);
    (2%nat, AStart DEV_LOCK_READ); (2%nat, AOpen); (2%nat, AFlock); (2%nat, AVerify) ].

Lemma lock_mutual_exclusion_witness :
  exists w, run initial_world fx_race = Some w /\ holds w 1 DEV_LOCK_READ /\ holds w 2 DEV_LOCK_READ /\
    DEV_LOCK_READ = DEV_LOCK_READ.
Proof.
  destruct (run initial_world fx_race) as [w|] eqn:E; [|vm_compute in E; discriminate E].
  assert (H1 : holds w 1 DEV_LOCK_READ) by (vm_compute in E; injection E as <-; exists 1%nat; reflexivity).
  assert (H2 : holds w 2 DEV_LOCK_READ) by (vm_compute in E; injection E as <-; exists 1%nat; reflexivity).
  exists w. split; [reflexivity|]. split; [exact H1|]. split; [exact H2|].
  exact (proj1 (lock_mutual_exclusion fx_race w 1 2 DEV_LOCK_READ DEV_LOCK_READ E ltac:(lia) H1 H2)).
Defined.

Lemma held_lock_file_stays_witness :
  exists w, run initial_world fx_race = Some w /\ lock_path w = Some 1%nat.
Proof.
  destruct (run initial_world fx_race) as [w|] eqn:E; [|vm_compute in E; discriminate E].
  exists w. split; [reflexivity|].
  refine (proj1 (held_lock_file_stays fx_race w 1 DEV_LOCK_READ 1 E _)).
  vm_compute in E. injection E as <-. reflexivity.
Defined.
