(* ===== verification/AF.v ===== *)
(** * AF: the anti-forensic splitter (lib/luks1/af.c)

    A key is expanded to [blocknumbers] stripes, all of which are needed to
    recover it. The random generator is the sequence of its results; the hash
    is a parameter. *)

From S2P Require Import Prelude CryptBackend Luks2Json.
From Stdlib Require Import Strings.Byte.

Definition XORblock (src1 src2 : bytes) : bytes := zip_with byte_xor src1 src2.

Section af.
Context `{CH : CryptHash}.

Definition hash_buf (src : bytes) (iv len : Z) (hash_name : bytes) : bytes :=
  crypt_hash_final hash_name (be_encode 4 iv ++ slice 0 len src) len.

(** The loop over the blocks, on the buffer [buf] (source and destination are
    the same in all calls). *)
Fixpoint diffuse_loop (n : nat) (i digest_size : Z) (buf : bytes) (hash_name : bytes) : bytes :=
  match n with
  | O => buf
  | S n' =>
      let d := hash_buf (slice (digest_size * i) digest_size buf) (u32 i) digest_size hash_name in
      diffuse_loop n' (i + 1) digest_size (splice (digest_size * i) d buf) hash_name
  end.

Definition diffuse (buf : bytes) (size : Z) (hash_name : bytes) : Z * bytes :=
  let hash_size := crypt_hash_size hash_name in
  if hash_size <=? 0 then (- EINVAL, buf)
  else
    let digest_size := hash_size in
    let blocks := u32 (size / digest_size) in
    let padding := u32 (size mod digest_size) in
    let buf := diffuse_loop (Z.to_nat blocks) 0 digest_size buf hash_name in
    if padding =? 0 then (0, buf)
    else
      let d := hash_buf (slice (digest_size * blocks) padding buf) blocks padding hash_name in
      (0, splice (digest_size * blocks) d buf).

(** [crypt_random_get]: code and bytes of the successive calls. *)
Definition random_source : Type := list (Z * bytes).

(** [n] iterations from [i]: code, [bufblock], [dst]. *)
Fixpoint AF_split_loop (n : nat) (i : Z) (rnd : random_source) (bufblock dst : bytes) (blocksize : Z)
    (hash : bytes) : Z * bytes * bytes :=
  match n with
  | O => (0, bufblock, dst)
  | S n' =>
      match rnd with
      | [] => (- EINVAL, bufblock, dst)
      | (r, random) :: rnd' =>
          if r <? 0 then (r, bufblock, dst)
          else
            let dst := splice (blocksize * i) random dst in
            let bufblock := XORblock (slice (blocksize * i) blocksize dst) bufblock in
            let '(r, bufblock) := diffuse bufblock blocksize hash in
            if r <? 0 then (r, bufblock, dst)
            else AF_split_loop n' (i + 1) rnd' bufblock dst blocksize hash
      end
  end.

(** Code and [dst]. *)
Definition AF_split (rnd : random_source) (src dst : bytes) (blocksize blocknumbers : Z) (hash : bytes) : Z * bytes :=
  let n := u32 (blocknumbers - 1) in
  let '(r, bufblock, dst) :=
    AF_split_loop (Z.to_nat n) 0 rnd (zeros (Z.to_nat blocksize)) dst blocksize hash in
  if r <? 0 then (r, dst) else (0, splice (blocksize * n) (XORblock src bufblock) dst).

Fixpoint AF_merge_loop (n : nat) (i : Z) (src bufblock : bytes) (blocksize : Z) (hash : bytes) : Z * bytes :=
  match n with
  | O => (0, bufblock)
  | S n' =>
      let bufblock := XORblock (slice (blocksize * i) blocksize src) bufblock in
      let '(r, bufblock) := diffuse bufblock blocksize hash in
      if r <? 0 then (r, bufblock) else AF_merge_loop n' (i + 1) src bufblock blocksize hash
  end.

Definition AF_merge (src dst : bytes) (blocksize blocknumbers : Z) (hash : bytes) : Z * bytes :=
  let n := u32 (blocknumbers - 1) in
  let '(r, bufblock) := AF_merge_loop (Z.to_nat n) 0 src (zeros (Z.to_nat blocksize)) blocksize hash in
  if r <? 0 then (r, dst) else (0, XORblock (slice (blocksize * n) blocksize src) bufblock).
End af.

(** Size of the split data in sectors. *)
Definition AF_split_sectors (blocksize blocknumbers : Z) : Z :=
  let af_size := blocksize *64 blocknumbers in
  (af_size +64 (SECTOR_SIZE - 1)) / SECTOR_SIZE.

(** ** Exclusive or *)

Lemma zlen_XORblock a b : zlen a = zlen b -> zlen (XORblock a b) = zlen a.
Proof. unfold zlen, XORblock. intros H. rewrite length_zip_with. lia. Qed.

Lemma XORblock_cancel a b : zlen a = zlen b -> XORblock (XORblock a b) b = a.
Proof.
  unfold zlen, XORblock. revert b. induction a as [|x a IH]; intros [|y b] H; simpl in *; try lia; [done|].
  rewrite byte_xor_cancel. f_equal. apply IH. lia.
Qed.

(** ** Diffusion keeps the size *)

Section af_theorems.
Context `{CHL : CryptHashLaws}.

Lemma zlen_diffuse_loop n i ds buf hash :
  0 < ds -> ds = crypt_hash_size hash -> 0 <= i -> ds * (i + Z.of_nat n) <= zlen buf ->
  zlen (diffuse_loop n i ds buf hash) = zlen buf.
Proof.
  intros Hd He. revert i buf. induction n as [|n IH]; intros i buf Hi Hz; cbn [diffuse_loop]; [done|].
  assert (Hl : zlen (hash_buf (slice (ds * i) ds buf) (u32 i) ds hash) = ds) by (apply zlen_hash_final; lia).
  assert (Hs : zlen (splice (ds * i) (hash_buf (slice (ds * i) ds buf) (u32 i) ds hash) buf) = zlen buf)
    by (apply zlen_splice; nia).
  rewrite IH; [done|lia|]. rewrite Hs. nia.
Qed.

Lemma diffuse_spec buf size hash :
  zlen buf = size -> size < 2 ^ 32 -> 0 < crypt_hash_size hash ->
  exists buf', diffuse buf size hash = (0, buf') /\ zlen buf' = size.
Proof.
  intros Hz Hs Hh. pose proof (zlen_nonneg buf). unfold diffuse.
  destruct (Z.leb_spec (crypt_hash_size hash) 0); [lia|]. set (ds := crypt_hash_size hash) in *.
  pose proof (Z.div_mod size ds ltac:(lia)) as E. pose proof (Z.mod_pos_bound size ds Hh) as B.
  assert (Hb : 0 <= size / ds) by (apply Z.div_pos; lia).
  assert (Hle : size / ds <= size) by (apply Z.div_le_upper_bound; nia).
  pose proof (hash_size_max hash) as Hmax. unfold MAX_DIGEST in Hmax.
  rewrite (u32_id (size / ds)), (u32_id (size mod ds)) by lia.
  assert (Hl : zlen (diffuse_loop (Z.to_nat (size / ds)) 0 ds buf hash) = size).
  { rewrite zlen_diffuse_loop; auto; lia. }
  destruct (Z.eqb_spec (size mod ds) 0) as [E0|E0]; eexists; (split; [reflexivity|]); [done|].
  rewrite zlen_splice; [done|nia|]. unfold hash_buf. rewrite zlen_hash_final; lia.
Qed.

(** ** Splitting and merging *)

Definition random_ok (rnd : random_source) (blocksize : Z) : Prop :=
  Forall (fun x => 0 <= x.1 /\ zlen x.2 = blocksize) rnd.

(** The merge loop on the stripes that the split loop wrote computes the same
    block; the stripes before [i] are not touched again. *)
Lemma split_merge_loop n i rnd buf dst bs hash :
  0 <= i -> 0 < bs < 2 ^ 32 -> zlen buf = bs -> bs * (i + Z.of_nat n) <= zlen dst -> 0 < crypt_hash_size hash ->
  random_ok rnd bs -> (n <= length rnd)%nat ->
  exists buf' dst', AF_split_loop n i rnd buf dst bs hash = (0, buf', dst') /\
    zlen buf' = bs /\ zlen dst' = zlen dst /\
    (forall o k, 0 <= o -> 0 <= k -> o + k <= bs * i -> slice o k dst' = slice o k dst) /\
    forall src, (forall j, i <= j < i + Z.of_nat n -> slice (bs * j) bs src = slice (bs * j) bs dst') ->
      AF_merge_loop n i src buf bs hash = (0, buf').
Proof.
  intros Hi Hbs. revert i rnd buf dst Hi.
  induction n as [|n IH]; intros i rnd buf dst Hi Hbuf Hdst Hh Hr Hn; cbn [AF_split_loop AF_merge_loop].
  - exists buf, dst. auto.
  - destruct rnd as [|[r random] rnd]; cbn in Hn; [lia|]. apply Forall_cons in Hr as [[Hr0 Hrz] Hr].
    cbn in Hr0, Hrz. destruct (Z.ltb_spec r 0); [lia|].
    set (dst1 := splice (bs * i) random dst).
    assert (Hz1 : zlen dst1 = zlen dst) by (apply zlen_splice; nia).
    assert (Hs1 : slice (bs * i) bs dst1 = random)
      by (rewrite <-Hrz at 2; apply slice_splice_same; nia).
    rewrite Hs1. destruct (diffuse_spec (XORblock random buf) bs hash) as (buf1 & E1 & Hb1);
      [rewrite zlen_XORblock; lia|lia|done|].
    rewrite E1, Z.ltb_irrefl.
    destruct (IH (i + 1) rnd buf1 dst1) as (buf' & dst' & E & Hb' & Hd' & Hsl & Hm); auto; try lia.
    exists buf', dst'. split; [done|]. split; [done|]. split; [lia|]. split.
    + intros o k Ho Hk Hok. rewrite Hsl by nia. apply slice_splice_disj; nia.
    + intros src Hsrc. rewrite (Hsrc i) by lia.
      assert (E2 : slice (bs * i) bs dst' = random) by (rewrite Hsl by nia; exact Hs1).
      rewrite E2, E1, Z.ltb_irrefl. apply Hm. intros j Hj. apply Hsrc. lia.
Qed.

Lemma merge_split rnd src dst dst' blocksize blocknumbers hash :
  0 < blocksize < 2 ^ 32 -> 1 <= blocknumbers <= 2 ^ 32 -> zlen src = blocksize ->
  blocksize * blocknumbers <= zlen dst -> 0 < crypt_hash_size hash ->
  random_ok rnd blocksize -> blocknumbers - 1 <= zlen rnd ->
  exists stripes, AF_split rnd src dst blocksize blocknumbers hash = (0, stripes) /\
    zlen stripes = zlen dst /\
    AF_merge stripes dst' blocksize blocknumbers hash = (0, src).
Proof.
  intros Hbs Hbn Hsrc Hdst Hh Hr Hn. unfold AF_split, AF_merge. rewrite u32_id by lia.
  destruct (split_merge_loop (Z.to_nat (blocknumbers - 1)) 0 rnd (zeros (Z.to_nat blocksize)) dst blocksize hash)
    as (buf & dst1 & E & Hb & Hd & _ & Hm); auto; try lia.
  { unfold zlen, zeros. rewrite length_replicate. lia. }
  { unfold zlen in Hn. lia. }
  assert (Hx : zlen (XORblock src buf) = blocksize) by (rewrite zlen_XORblock; lia).
  rewrite E, Z.ltb_irrefl. eexists. split; [reflexivity|].
  split; [rewrite zlen_splice; nia|]. rewrite Hm.
  - rewrite Z.ltb_irrefl. f_equal. rewrite <-Hx at 2. rewrite slice_splice_same by nia.
    apply XORblock_cancel. lia.
  - intros j Hj. apply slice_splice_disj; nia.
Qed.

(** ** Properties *)

(** C30: Merging the stripes that [AF_split] wrote gives the key back, whatever
    the random bytes and the hash. *)
Theorem AF_merge_split rnd src dst dst' blocksize blocknumbers hash :
  0 < blocksize < 2 ^ 32 -> 1 <= blocknumbers <= 2 ^ 32 -> zlen src = blocksize ->
  zlen dst = blocksize * blocknumbers -> 0 < crypt_hash_size hash ->
  random_ok rnd blocksize -> blocknumbers - 1 <= zlen rnd ->
  exists stripes, AF_split rnd src dst blocksize blocknumbers hash = (0, stripes) /\
    zlen stripes = blocksize * blocknumbers /\
    AF_merge stripes dst' blocksize blocknumbers hash = (0, src).
Proof.
  intros Hbs Hbn Hsrc Hdst Hh Hr Hn.
  destruct (merge_split rnd src dst dst' blocksize blocknumbers hash) as (stripes & E & Hz & M); try done; [lia|].
  exists stripes. by rewrite Hz, Hdst.
Qed.

(** An unknown hash or a failing random generator makes [AF_split] fail, with
    that error, and an unknown hash makes [AF_merge] fail, as soon as there is
    more than one stripe. *)
Theorem AF_errors rnd src dst blocksize blocknumbers hash :
  1 < blocknumbers <= 2 ^ 32 ->
  (forall r x rnd', rnd = (r, x) :: rnd' -> r < 0 ->
     (AF_split rnd src dst blocksize blocknumbers hash).1 = r) /\
  (crypt_hash_size hash <= 0 -> (forall x rnd', rnd = (0, x) :: rnd' ->
     (AF_split rnd src dst blocksize blocknumbers hash).1 = - EINVAL)) /\
  (crypt_hash_size hash <= 0 -> AF_merge src dst blocksize blocknumbers hash = (- EINVAL, dst)).
Proof.
  intros Hb. unfold AF_split, AF_merge. rewrite u32_id by lia.
  destruct (Z.to_nat (blocknumbers - 1)) as [|n] eqn:En; [lia|]. cbn [AF_split_loop AF_merge_loop]. split; [|split].
  - intros r x rnd' -> Hr. rewrite (proj2 (Z.ltb_lt r 0) Hr). by rewrite (proj2 (Z.ltb_lt r 0) Hr).
  - intros Hh x rnd' ->. rewrite Z.ltb_irrefl. unfold diffuse.
    rewrite (proj2 (Z.leb_le _ 0) Hh). done.
  - intros Hh. unfold diffuse. rewrite (proj2 (Z.leb_le _ 0) Hh). done.
Qed.
End af_theorems.

(** The number of sectors that [AF_split_sectors] computes is the smallest one
    that holds the split key, when the size does not overflow. *)
Theorem AF_split_sectors_fits blocksize blocknumbers :
  0 <= blocksize -> 0 <= blocknumbers -> blocksize * blocknumbers + SECTOR_SIZE <= 2 ^ 64 ->
  let s := AF_split_sectors blocksize blocknumbers in
  SECTOR_SIZE * (s - 1) < blocksize * blocknumbers <= SECTOR_SIZE * s.
Proof.
  unfold AF_split_sectors, SECTOR_SIZE. intros H1 H2 H3. cbv zeta.
  rewrite (u64_id (blocksize * blocknumbers)) by nia. rewrite u64_id by nia.
  pose proof (Z.div_mod (blocksize * blocknumbers + (512 - 1)) 512 ltac:(lia)).
  pose proof (Z.mod_pos_bound (blocksize * blocknumbers + (512 - 1)) 512 ltac:(lia)). lia.
Qed.

(** ** Witnesses *)

#[local] Existing Instances fx_hash fx_hash_laws.

Definition fx_random : random_source := [(0, replicate 40 x07); (0, replicate 40 x55); (0, replicate 40 xf0)].
Definition fx_key : bytes := replicate 40 x3c.

Lemma AF_merge_split_witness :
  exists stripes, AF_split fx_random fx_key (zeros 160) 40 4 fx_alg = (0, stripes) /\
    AF_merge stripes [] 40 4 fx_alg = (0, fx_key).
Proof.
  destruct (AF_merge_split fx_random fx_key (zeros 160) [] 40 4 fx_alg) as (s & E & _ & M);
    [lia|lia|reflexivity|reflexivity|vm_compute; reflexivity| |vm_compute; discriminate|].
  - repeat constructor; cbn; lia.
  - exists s. split; [exact E|exact M].
Defined.

Lemma AF_errors_witness : AF_merge [] [] 10 4 [] = (- EINVAL, []).
Proof.
  apply (AF_errors [] [] [] 10 4 []); [lia|]. vm_compute. discriminate.
Defined.

Lemma AF_split_sectors_fits_witness : 512 * (AF_split_sectors 64 4000 - 1) < 64 * 4000 <= 512 * AF_split_sectors 64 4000.
Proof. apply (AF_split_sectors_fits 64 4000); [lia|lia|vm_compute; discriminate]. Defined.
