(* ===== verification/Luks2Keyslot.v ===== *)
(** * Luks2Keyslot: digests and keyslots as seen in the header

    The queries of lib/luks2/luks2_digest.c and lib/luks2/luks2_keyslot.c that
    read the JSON header, the keyslot handlers' [validate] and [repair]
    (luks2_keyslot_luks2.c, luks2_keyslot_reenc.c), and the checks over all
    keyslots. *)

From S2P Require Import Prelude Cstd Pbkdf JsonC Luks2Json.

Section keyslot.
Context `{JC : JsonC}.

(** ** Digests *)

(** The first digest whose array under [section] names [name]. *)
Definition digest_by (section name : string) (jobj_digests : json) : Z :=
  match List.find (fun kv =>
          bool_decide (is_Some (LUKS2_array_jobj (json_get kv.2 section) name)))
          (json_object_entries jobj_digests) with
  | Some (key, _) => atoi key
  | None => - ENOENT
  end.

Definition LUKS2_digest_by_keyslot (hdr : luks2_hdr) (keyslot : Z) : Z :=
  digest_by "keyslots" (dec_u32 keyslot) (json_get (jobj hdr) "digests").

Definition LUKS2_digest_by_segment (hdr : luks2_hdr) (segment : Z) : Z :=
  let segment := if segment =? CRYPT_DEFAULT_SEGMENT then LUKS2_get_default_segment hdr else segment in
  digest_by "segments" (dec_u32 segment) (json_get (jobj hdr) "digests").

(** [while (get_digest(hdr, digest) && digest < LUKS2_DIGEST_MAX) digest++] *)
Fixpoint digest_find_free_from (hdr : luks2_hdr) (n : nat) (digest : Z) : Z :=
  match n with
  | O => -1
  | S n' =>
      if bool_decide (is_Some (LUKS2_get_digest_jobj hdr digest))
      then digest_find_free_from hdr n' (digest + 1) else digest
  end.
Definition LUKS2_digest_find_free (hdr : luks2_hdr) : Z :=
  digest_find_free_from hdr (Z.to_nat LUKS2_DIGEST_MAX) 0.

Definition digest_unused (jobj_digest : json) : bool :=
  match json_get_ptr jobj_digest "segments", json_get_ptr jobj_digest "keyslots" with
  | Some segs, keys =>
      if negb (json_object_is_type segs json_type_array) || (0 <? json_object_array_length segs)
      then false
      else match keys with
           | None => false
           | Some keys =>
               if negb (json_object_is_type keys json_type_array) then false
               else negb (0 <? json_object_array_length keys)
           end
  | None, _ => false
  end.

Definition LUKS2_digests_erase_unused (hdr : luks2_hdr) : luks2_hdr :=
  match json_get_ptr (jobj hdr) "digests" with
  | None => hdr
  | Some jobj_digests =>
      if negb (json_object_is_type jobj_digests json_type_object) then hdr
      else
        set_jobj hdr (json_object_object_add (jobj hdr) "digests"
          (fold_left (fun d kv => if digest_unused kv.2 then json_object_object_del d kv.1 else d)
             (json_object_entries jobj_digests) jobj_digests))
  end.

(** ** Keyslots and segments *)

Definition _keyslot_for_segment (hdr : luks2_hdr) (keyslot segment : Z) : Z :=
  let keyslot_digest := LUKS2_digest_by_keyslot hdr keyslot in
  if keyslot_digest <? 0 then keyslot_digest
  else if 0 <=? segment
  then if keyslot_digest =? LUKS2_digest_by_segment hdr segment then 1 else 0
  else
    zlen (filter (fun s => keyslot_digest = LUKS2_digest_by_segment hdr s)
      (seqZ 0 (json_segments_count (LUKS2_get_segments_jobj hdr)))).

Definition _keyslot_for_digest (hdr : luks2_hdr) (keyslot digest : Z) : Z :=
  let r := LUKS2_digest_by_keyslot hdr keyslot in
  if r <? 0 then r else if r =? digest then 0 else - ENOENT.

Definition LUKS2_keyslot_for_segment (hdr : luks2_hdr) (keyslot segment : Z) : Z :=
  let check segment :=
    let r := _keyslot_for_segment hdr keyslot segment in
    if r <? 0 then r else if 1 <=? r then 0 else - ENOENT in
  if segment =? CRYPT_ANY_SEGMENT then 0
  else if segment =? CRYPT_DEFAULT_SEGMENT then
    let segment := LUKS2_get_default_segment hdr in
    if segment <? 0 then segment else check segment
  else check segment.

Definition LUKS2_keyslot_active_count (hdr : luks2_hdr) (segment : Z) : Z :=
  zlen (filter (fun kv => LUKS2_keyslot_for_segment hdr (atoi kv.1) segment = 0)
          (json_object_entries (json_get (jobj hdr) "keyslots"))).

Definition LUKS2_keyslot_unbound (hdr : luks2_hdr) (keyslot : Z) : bool :=
  let digest := LUKS2_digest_by_keyslot hdr keyslot in
  if digest <? 0 then false
  else
    match LUKS2_get_digest_jobj hdr digest with
    | None => false
    | Some jobj_digest =>
        match json_get_ptr jobj_digest "segments" with
        | None => true
        | Some segs => negb (json_object_is_type segs json_type_array) ||
                       (json_object_array_length segs =? 0)
        end
    end.

Inductive crypt_keyslot_info :=
| CRYPT_SLOT_INVALID | CRYPT_SLOT_INACTIVE | CRYPT_SLOT_ACTIVE
| CRYPT_SLOT_ACTIVE_LAST | CRYPT_SLOT_UNBOUND.

#[export] Instance crypt_keyslot_info_eq_dec : EqDecision crypt_keyslot_info.
Proof. solve_decision. Defined.

Definition LUKS2_keyslot_info (hdr : luks2_hdr) (keyslot : Z) : crypt_keyslot_info :=
  if (LUKS2_KEYSLOTS_MAX <=? keyslot) || (keyslot <? 0) then CRYPT_SLOT_INVALID
  else match LUKS2_get_keyslot_jobj hdr keyslot with
  | None => CRYPT_SLOT_INACTIVE
  | Some _ =>
      if (LUKS2_digest_by_keyslot hdr keyslot <? 0) || LUKS2_keyslot_unbound hdr keyslot
      then CRYPT_SLOT_UNBOUND
      else if (LUKS2_keyslot_active_count hdr CRYPT_DEFAULT_SEGMENT =? 1) &&
              (LUKS2_keyslot_for_segment hdr keyslot CRYPT_DEFAULT_SEGMENT =? 0)
      then CRYPT_SLOT_ACTIVE_LAST
      else CRYPT_SLOT_ACTIVE
  end.

(** Result code, offset and length; the outputs are meaningful for code 0. *)
Definition LUKS2_keyslot_area (hdr : luks2_hdr) (keyslot : Z) : Z * Z * Z :=
  if bool_decide (LUKS2_keyslot_info hdr keyslot = CRYPT_SLOT_INVALID) then (- EINVAL, 0, 0)
  else match LUKS2_get_keyslot_jobj hdr keyslot with
  | None => (- ENOENT, 0, 0)
  | Some jobj_keyslot =>
      match json_object_object_get_ex jobj_keyslot "area" with
      | None => (- EINVAL, 0, 0)
      | Some jobj_area =>
          match json_object_object_get_ex jobj_area "offset" with
          | None => (- EINVAL, 0, 0)
          | Some jo =>
              match json_object_object_get_ex jobj_area "size" with
              | None => (- EINVAL, crypt_jobj_get_uint64 jo, 0)
              | Some jl => (0, crypt_jobj_get_uint64 jo, crypt_jobj_get_uint64 jl)
              end
          end
      end
  end.

(** ** Keyslot handlers *)

Definition has (j : json) (key : string) (t : json_type) : bool :=
  bool_decide (is_Some (json_contains j key t)).

(** The parameters of the key derivation function, by type; other types are
    not checked. *)
Definition kdf_validate (jobj_kdf : json) (type : string) : Z :=
  let count := json_object_object_length jobj_kdf in
  if bool_decide (type = CRYPT_KDF_PBKDF2) then
    if negb (count =? 4) || negb (has jobj_kdf "hash" json_type_string) ||
       negb (has jobj_kdf "iterations" json_type_int) || negb (has jobj_kdf "salt" json_type_string)
    then - EINVAL else 0
  else if bool_decide (type = CRYPT_KDF_ARGON2I) || bool_decide (type = CRYPT_KDF_ARGON2ID) then
    if negb (count =? 5) || negb (has jobj_kdf "time" json_type_int) ||
       negb (has jobj_kdf "memory" json_type_int) || negb (has jobj_kdf "cpus" json_type_int) ||
       negb (has jobj_kdf "salt" json_type_string)
    then - EINVAL else 0
  else 0.

Definition luks2_keyslot_validate (jobj_keyslot : json) : Z :=
  match json_object_object_get_ex jobj_keyslot "kdf", json_object_object_get_ex jobj_keyslot "af",
        json_object_object_get_ex jobj_keyslot "area" with
  | Some jobj_kdf, Some jobj_af, Some jobj_area =>
      match json_contains jobj_kdf "type" json_type_string with
      | None => - EINVAL
      | Some jobj1 =>
          if negb (kdf_validate jobj_kdf (json_object_get_string jobj1) =? 0) then - EINVAL
          else match json_object_object_get_ex jobj_af "type" with
          | None => - EINVAL
          | Some jobj1 =>
              if negb (bool_decide (json_object_get_string jobj1 = "luks1")) ||
                 negb (has jobj_af "hash" json_type_string) ||
                 negb (has jobj_af "stripes" json_type_int)
              then - EINVAL
              else match json_object_object_get_ex jobj_area "type" with
              | None => - EINVAL
              | Some jobj1 =>
                  if negb (bool_decide (json_object_get_string jobj1 = "raw")) ||
                     negb (has jobj_area "encryption" json_type_string) ||
                     negb (has jobj_area "key_size" json_type_int) ||
                     negb (has jobj_area "offset" json_type_string) ||
                     negb (has jobj_area "size" json_type_string)
                  then - EINVAL else 0
              end
          end
      end
  | _, _, _ => - EINVAL
  end.

(** The resilience parameters of a reencryption keyslot. *)
Definition reenc_area_validate (jobj_area : json) (type : string) : Z :=
  if bool_decide (type = "checksum") then
    match json_contains jobj_area "hash" json_type_string,
          json_contains jobj_area "sector_size" json_type_int with
    | Some _, Some jobj_sector_size =>
        if negb (validate_json_uint32 jobj_sector_size) then - EINVAL
        else
          let sector_size := crypt_jobj_get_uint32 jobj_sector_size in
          if (sector_size <? SECTOR_SIZE) || negb (NOTPOW2 sector_size =? 0) then - EINVAL else 0
    | _, _ => - EINVAL
    end
  else if bool_decide (type = "datashift") then
    match json_contains jobj_area "shift_size" json_type_string with
    | None => - EINVAL
    | Some jobj_shift_size =>
        let shift_size := crypt_jobj_get_uint64 jobj_shift_size in
        if (shift_size =? 0) || negb (MISALIGNED_512 shift_size =? 0) then - EINVAL else 0
    end
  else 0.

Definition reenc_keyslot_validate (jobj_keyslot : json) : Z :=
  match json_object_object_get_ex jobj_keyslot "area" with
  | None => - EINVAL
  | Some jobj_area =>
      match json_object_object_get_ex jobj_area "type" with
      | None => - EINVAL
      | Some jobj_type =>
          match json_contains jobj_keyslot "mode" json_type_string,
                json_contains jobj_keyslot "direction" json_type_string with
          | Some jobj_mode, Some jobj_direction =>
              let mode := json_object_get_string jobj_mode in
              let type := json_object_get_string jobj_type in
              let direction := json_object_get_string jobj_direction in
              if negb (bool_decide (mode ∈ ["reencrypt"; "encrypt"; "decrypt"]%string)) then - EINVAL
              else if negb (bool_decide (direction ∈ ["forward"; "backward"]%string)) then - EINVAL
              else reenc_area_validate jobj_area type
          | _, _ => - EINVAL
          end
      end
  end.

(** The members of [kdf] that do not belong to its type are removed. *)
Definition kdf_keys (type : string) : option (list string) :=
  if bool_decide (type = CRYPT_KDF_PBKDF2) then Some ["type"; "salt"; "hash"; "iterations"]%string
  else if bool_decide (type = CRYPT_KDF_ARGON2I) || bool_decide (type = CRYPT_KDF_ARGON2ID)
  then Some ["type"; "salt"; "time"; "memory"; "cpus"]%string
  else None.

Definition luks2_keyslot_repair (jobj_keyslot : json) : json :=
  match json_contains jobj_keyslot "kdf" json_type_object with
  | None => jobj_keyslot
  | Some jobj_kdf =>
      match json_contains jobj_kdf "type" json_type_string with
      | None => jobj_keyslot
      | Some jobj_type =>
          match kdf_keys (json_object_get_string jobj_type) with
          | None => jobj_keyslot
          | Some keys =>
              json_object_object_add jobj_keyslot "kdf"
                (fold_left (fun k kv => if bool_decide (kv.1 ∈ keys) then k
                                        else json_object_object_del k kv.1)
                   (json_object_entries jobj_kdf) jobj_kdf)
          end
      end
  end.

(** [keyslot_handler]: the part of the table of functions used on headers. *)
Record keyslot_handler := KeyslotHandler {
  kh_name : string;
  kh_validate : option (json -> Z);
  kh_repair : option (json -> json);
}.

Definition luks2_keyslot : keyslot_handler :=
  KeyslotHandler "luks2" (Some luks2_keyslot_validate) (Some luks2_keyslot_repair).
Definition reenc_keyslot : keyslot_handler :=
  KeyslotHandler "reencrypt" (Some reenc_keyslot_validate) None.

Definition keyslot_handlers : list keyslot_handler := [luks2_keyslot; reenc_keyslot].

Definition LUKS2_keyslot_handler_type (type : string) : option keyslot_handler :=
  List.find (fun h => bool_decide (kh_name h = type)) keyslot_handlers.

Definition LUKS2_keyslot_handler (hdr : luks2_hdr) (keyslot : Z) : option keyslot_handler :=
  jobj1 ← LUKS2_get_keyslot_jobj hdr keyslot;
  jobj2 ← json_object_object_get_ex jobj1 "type";
  LUKS2_keyslot_handler_type (json_object_get_string jobj2).

Definition LUKS2_get_keyslot_digests_count (hdr_jobj : json) (keyslot : Z) : Z :=
  match json_object_object_get_ex hdr_jobj "digests" with
  | None => 0
  | Some jobj_digests =>
      zlen (filter (fun kv => is_Some (LUKS2_array_jobj (json_get kv.2 "keyslots") (dec_u32 keyslot)))
              (json_object_entries jobj_digests))
  end.

(** The body of the loop of [LUKS2_keyslots_validate]. *)
Definition keyslot_ok (hdr_jobj : json) (slot : string) (val : json) : bool :=
  match LUKS2_keyslot_handler_type (json_object_get_string (json_get val "type")) with
  | None => true
  | Some h =>
      match kh_validate h with
      | Some v => v val =? 0
      | None => true
      end &&
      negb (bool_decide (kh_name h = "luks2"%string) &&
            negb (LUKS2_get_keyslot_digests_count hdr_jobj (atoi slot) =? 1))
  end.

Definition LUKS2_keyslots_validate (hdr_jobj : json) : Z :=
  match json_object_object_get_ex hdr_jobj "keyslots" with
  | None => - EINVAL
  | Some jobj_keyslots =>
      if forallb (fun kv => keyslot_ok hdr_jobj kv.1 kv.2) (json_object_entries jobj_keyslots)
      then 0 else - EINVAL
  end.

Definition keyslot_repair_one (val : json) : json :=
  if negb (json_object_is_type val json_type_object) then val
  else match json_contains val "type" json_type_string with
  | None => val
  | Some jobj_type =>
      match LUKS2_keyslot_handler_type (json_object_get_string jobj_type) with
      | Some h => match kh_repair h with Some f => f val | None => val end
      | None => val
      end
  end.

Definition LUKS2_keyslots_repair (jobj_keyslots : json) : json :=
  fold_left (fun ks kv => json_object_object_add ks kv.1 (keyslot_repair_one kv.2))
    (json_object_entries jobj_keyslots) jobj_keyslots.

Definition LUKS2_find_keyslot (hdr : luks2_hdr) (type : string) : Z :=
  default (- ENOENT)
    (List.find (fun i =>
       match LUKS2_get_keyslot_jobj hdr i with
       | None => false
       | Some jobj_keyslot =>
           bool_decide (json_object_get_string (json_get jobj_keyslot "type") = type)
       end) (seqZ 0 LUKS2_KEYSLOTS_MAX)).
End keyslot.
