(* ===== verification/Luks2Edit.v ===== *)
(** * Luks2Edit: changes of the JSON header

    Functions that modify the in-memory header: segments
    (lib/luks2/luks2_segment.c), assignment of keyslots and segments to
    digests (luks2_digest.c) and of keyslots to tokens (luks2_token.c),
    priorities and swapping of keyslots (luks2_keyslot.c). json-c objects are
    modified in place: here the object found at a path of the header is put
    back at its place. The optional commit ([LUKS2_hdr_write]) is the
    caller's, see [Luks2Commit]. *)

From S2P Require Import Prelude Cstd JsonC Luks2Json Luks2Keyslot.

Definition CRYPT_ANY_TOKEN : Z := -1.
Definition LUKS2_TOKENS_MAX : Z := 32.

Section edit.
Context `{JC : JsonC}.

Definition json_object_object_add_by_uint (j : json) (key : Z) (jobj_val : json) : json :=
  json_object_object_add j (dec_u32 key) jobj_val.

Definition json_object_object_del_by_uint (j : json) (key : Z) : json :=
  json_object_object_del j (dec_u32 key).

Definition update_section (hdr : luks2_hdr) (section : string) (f : json -> json) : luks2_hdr :=
  match json_object_object_get_ex (jobj hdr) section with
  | None => hdr
  | Some s => set_jobj hdr (json_object_object_add (jobj hdr) section (f s))
  end.

Definition set_member (hdr : luks2_hdr) (section : string) (id : Z) (v : json) : luks2_hdr :=
  update_section hdr section (fun s => json_object_object_add_by_uint s id v).

(** ** Segments *)

Definition LUKS2_segment_set_flag (jobj_segment : json) (flag : string) : json :=
  match json_object_object_get_ex jobj_segment "flags" with
  | None =>
      json_object_object_add jobj_segment "flags"
        (json_object_array_add json_object_new_array (json_object_new_string flag))
  | Some jobj_flags =>
      match LUKS2_array_jobj jobj_flags flag with
      | Some _ => jobj_segment
      | None => json_object_object_add jobj_segment "flags"
                  (json_object_array_add jobj_flags (json_object_new_string flag))
      end
  end.

Definition json_segment_remove_flag (jobj_segment : json) (flag : string) : json :=
  match json_segment_get_flags jobj_segment with
  | None => jobj_segment
  | Some jobj_flags =>
      match LUKS2_array_remove jobj_flags flag with
      | None => jobj_segment
      | Some jobj_flags_new =>
          if json_object_array_length jobj_flags_new <=? 0
          then json_object_object_del jobj_segment "flags"
          else json_object_object_add jobj_segment "flags" jobj_flags_new
      end
  end.

(** [length = None] is the NULL pointer. *)
Definition _segment_create_generic (type : string) (offset : Z) (length : option Z) : json :=
  let j := json_object_new_object in
  let j := json_object_object_add j "type" (json_object_new_string type) in
  let j := json_object_object_add j "offset" (crypt_jobj_new_uint64 offset) in
  json_object_object_add j "size"
    (match length with
     | Some n => crypt_jobj_new_uint64 n
     | None => json_object_new_string "dynamic"
     end).

Definition json_segment_create_linear (offset : Z) (length : option Z) (reencryption : bool) : json :=
  let j := _segment_create_generic "linear" offset length in
  if reencryption then LUKS2_segment_set_flag j "in-reencryption" else j.

Definition json_segment_create_crypt (offset iv_offset : Z) (length : option Z) (cipher : string)
    (sector_size : Z) (reencryption : bool) : json :=
  let j := _segment_create_generic "crypt" offset length in
  let j := json_object_object_add j "iv_tweak" (crypt_jobj_new_uint64 iv_offset) in
  let j := json_object_object_add j "encryption" (json_object_new_string cipher) in
  let j := json_object_object_add j "sector_size" (json_object_new_int sector_size) in
  if reencryption then LUKS2_segment_set_flag j "in-reencryption" else j.

Definition LUKS2_segments_set_jobj (hdr : luks2_hdr) (jobj_segments : json) : luks2_hdr :=
  set_jobj hdr (json_object_object_add (jobj hdr) "segments" jobj_segments).

(** ** Assignment *)

(** The array [key] of [j] gets or loses [num]; [None] when there is none. *)
Definition assign_in (j : json) (key num : string) (assign : bool) : option json :=
  match json_get_ptr j key with
  | None => None
  | Some arr =>
      Some (if assign then
              match LUKS2_array_jobj arr num with
              | Some _ => j
              | None => json_object_object_add j key
                          (json_object_array_add arr (json_object_new_string num))
              end
            else
              match LUKS2_array_remove arr num with
              | Some jobj1 => json_object_object_add j key jobj1
              | None => j
              end)
  end.

(** What [assign_one_digest], [assign_one_segment] and [assign_one_keyslot]
    do with the object they find. *)
Definition assign_one (member : option json) (hdr : luks2_hdr) (section key : string) (id : Z)
    (num : string) (assign : bool) : Z * luks2_hdr :=
  match member ≫= (fun j => assign_in j key num assign) with
  | None => (- EINVAL, hdr)
  | Some j => (0, set_member hdr section id j)
  end.

Definition assign_one_digest (hdr : luks2_hdr) (keyslot digest : Z) (assign : bool) : Z * luks2_hdr :=
  assign_one (LUKS2_get_digest_jobj hdr digest) hdr "digests" "keyslots" digest (dec_i32 keyslot) assign.

Definition assign_one_segment (hdr : luks2_hdr) (segment digest : Z) (assign : bool) : Z * luks2_hdr :=
  assign_one (LUKS2_get_digest_jobj hdr digest) hdr "digests" "segments" digest (dec_i32 segment) assign.

Definition assign_one_keyslot (hdr : luks2_hdr) (token keyslot : Z) (assign : bool) : Z * luks2_hdr :=
  assign_one (LUKS2_get_token_jobj hdr token) hdr "tokens" "keyslots" token (dec_i32 keyslot) assign.

(** The loops over the members of a section that end at the first error. *)
Fixpoint for_members (l : list (string * json)) (hdr : luks2_hdr)
    (f : luks2_hdr -> Z -> Z * luks2_hdr) : Z * luks2_hdr :=
  match l with
  | [] => (0, hdr)
  | (key, _) :: l' =>
      let '(r, hdr') := f hdr (atoi key) in
      if r <? 0 then (r, hdr') else for_members l' hdr' f
  end.

Definition LUKS2_digest_assign_jobj (hdr : luks2_hdr) (keyslot digest : Z) (assign : bool) : Z * luks2_hdr :=
  if digest =? CRYPT_ANY_DIGEST then
    for_members (json_object_entries (json_get (jobj hdr) "digests")) hdr
      (fun hdr d => assign_one_digest hdr keyslot d assign)
  else assign_one_digest hdr keyslot digest assign.

Definition assign_all_segments (hdr : luks2_hdr) (digest : Z) (assign : bool) : Z * luks2_hdr :=
  match LUKS2_get_digest_jobj hdr digest with
  | None => (- EINVAL, hdr)
  | Some jobj_digest =>
      match json_get_ptr jobj_digest "segments" with
      | None => (- EINVAL, hdr)
      | Some jobj_digest_segments =>
          let jobj1 :=
            if assign then
              fold_left (fun a kv => match LUKS2_array_jobj a kv.1 with
                                     | Some _ => a
                                     | None => json_object_array_add a (json_object_new_string kv.1)
                                     end)
                (json_object_entries (json_get (jobj hdr) "segments")) jobj_digest_segments
            else json_object_new_array in
          (0, set_member hdr "digests" digest (json_object_object_add jobj_digest "segments" jobj1))
      end
  end.

Definition LUKS2_digest_segment_assign_jobj (hdr : luks2_hdr) (segment digest : Z) (assign : bool)
    : Z * luks2_hdr :=
  let segment := if segment =? CRYPT_DEFAULT_SEGMENT then LUKS2_get_default_segment hdr else segment in
  let one hdr d := if segment =? CRYPT_ANY_SEGMENT then assign_all_segments hdr d assign
                   else assign_one_segment hdr segment d assign in
  if digest =? CRYPT_ANY_DIGEST then
    for_members (json_object_entries (json_get (jobj hdr) "digests")) hdr one
  else one hdr digest.

(** ** Tokens *)

Definition assign_one_token (hdr : luks2_hdr) (keyslot token : Z) (assign : bool) : Z * luks2_hdr :=
  match LUKS2_get_token_jobj hdr token with
  | None => (- EINVAL, hdr)
  | Some _ =>
      if keyslot =? CRYPT_ANY_SLOT then
        for_members (json_object_entries (json_get (jobj hdr) "keyslots")) hdr
          (fun hdr k => assign_one_keyslot hdr token k assign)
      else assign_one_keyslot hdr token keyslot assign
  end.

Definition LUKS2_token_assign_jobj (hdr : luks2_hdr) (keyslot token : Z) (assign : bool) : Z * luks2_hdr :=
  let '(r, hdr) :=
    if token =? CRYPT_ANY_TOKEN then
      for_members (json_object_entries (json_get (jobj hdr) "tokens")) hdr
        (fun hdr t => assign_one_token hdr keyslot t assign)
    else assign_one_token hdr keyslot token assign in
  if r <? 0 then (r, hdr) else (token, hdr).

Definition token_is_assigned (hdr : luks2_hdr) (keyslot token : Z) : Z :=
  match LUKS2_get_token_jobj hdr token with
  | None => - ENOENT
  | Some jobj_token =>
      if existsb (fun j => keyslot =? atoi (json_object_get_string j))
           (json_object_array_elems (json_get jobj_token "keyslots"))
      then 0 else - ENOENT
  end.

Definition LUKS2_token_is_assigned (hdr : luks2_hdr) (keyslot token : Z) : Z :=
  if (keyslot <? 0) || (LUKS2_KEYSLOTS_MAX <=? keyslot) || (token <? 0) || (LUKS2_TOKENS_MAX <=? token)
  then - EINVAL else token_is_assigned hdr keyslot token.

Definition LUKS2_tokens_count (hdr : luks2_hdr) : Z :=
  match LUKS2_get_tokens_jobj hdr with
  | None => - EINVAL
  | Some jobj_tokens => json_object_object_length jobj_tokens
  end.

(** The loop over all tokens of [LUKS2_token_assignment_copy]. *)
Fixpoint assignment_copy_loop (n : nat) (hdr : luks2_hdr) (keyslot_from keyslot_to i : Z) : Z * luks2_hdr :=
  match n with
  | O => (0, hdr)
  | S n' =>
      if token_is_assigned hdr keyslot_from i =? 0 then
        let '(r, hdr') := assign_one_token hdr keyslot_to i true in
        if negb (r =? 0) then (r, hdr') else assignment_copy_loop n' hdr' keyslot_from keyslot_to (i + 1)
      else assignment_copy_loop n' hdr keyslot_from keyslot_to (i + 1)
  end.

Definition LUKS2_token_assignment_copy_jobj (hdr : luks2_hdr) (keyslot_from keyslot_to : Z) : Z * luks2_hdr :=
  if (keyslot_from <? 0) || (LUKS2_KEYSLOTS_MAX <=? keyslot_from) ||
     (keyslot_to <? 0) || (LUKS2_KEYSLOTS_MAX <=? keyslot_to) then (- EINVAL, hdr)
  else
    let r := LUKS2_tokens_count hdr in
    if r <=? 0 then (r, hdr)
    else assignment_copy_loop (Z.to_nat LUKS2_TOKENS_MAX) hdr keyslot_from keyslot_to 0.

Definition LUKS2_token_find_free (hdr : luks2_hdr) : Z :=
  default (- EINVAL)
    (List.find (fun i => negb (bool_decide (is_Some (LUKS2_get_token_jobj hdr i)))) (seqZ 0 LUKS2_TOKENS_MAX)).

(** ** Keyslots *)

Definition CRYPT_SLOT_PRIORITY_INVALID : Z := -1.
Definition CRYPT_SLOT_PRIORITY_IGNORE : Z := 0.
Definition CRYPT_SLOT_PRIORITY_NORMAL : Z := 1.
Definition CRYPT_SLOT_PRIORITY_PREFER : Z := 2.

Definition LUKS2_keyslot_priority_get (hdr : luks2_hdr) (keyslot : Z) : Z :=
  match LUKS2_get_keyslot_jobj hdr keyslot with
  | None => CRYPT_SLOT_PRIORITY_INVALID
  | Some jobj_keyslot =>
      match json_object_object_get_ex jobj_keyslot "priority" with
      | None => CRYPT_SLOT_PRIORITY_NORMAL
      | Some jobj_priority => json_object_get_int jobj_priority
      end
  end.

Definition LUKS2_keyslot_priority_set_jobj (hdr : luks2_hdr) (keyslot priority : Z) : Z * luks2_hdr :=
  match LUKS2_get_keyslot_jobj hdr keyslot with
  | None => (- EINVAL, hdr)
  | Some jobj_keyslot =>
      (0, set_member hdr "keyslots" keyslot
            (if priority =? CRYPT_SLOT_PRIORITY_NORMAL
             then json_object_object_del jobj_keyslot "priority"
             else json_object_object_add jobj_keyslot "priority" (json_object_new_int priority)))
  end.

Definition LUKS2_keyslot_swap (hdr : luks2_hdr) (keyslot keyslot2 : Z) : Z * luks2_hdr :=
  match json_object_object_get_ex (jobj hdr) "keyslots", LUKS2_get_keyslot_jobj hdr keyslot,
        LUKS2_get_keyslot_jobj hdr keyslot2 with
  | Some jobj_keyslots, Some jobj_keyslot, Some jobj_keyslot2 =>
      let ks := json_object_object_del_by_uint jobj_keyslots keyslot in
      let ks := json_object_object_add_by_uint ks keyslot jobj_keyslot2 in
      let ks := json_object_object_del_by_uint ks keyslot2 in
      let ks := json_object_object_add_by_uint ks keyslot2 jobj_keyslot in
      (0, set_jobj hdr (json_object_object_add (jobj hdr) "keyslots" ks))
  | _, _, _ => (- EINVAL, hdr)
  end.

(** [luks2_keyslot_wipe]: the keyslot leaves all digests and tokens; the
    results are not checked. *)
Definition luks2_keyslot_wipe (hdr : luks2_hdr) (keyslot : Z) : luks2_hdr :=
  let hdr := (LUKS2_digest_assign_jobj hdr keyslot CRYPT_ANY_DIGEST false).2 in
  (LUKS2_token_assign_jobj hdr keyslot CRYPT_ANY_TOKEN false).2.

(** The JSON part of [LUKS2_keyslot_wipe]: the handler's part, if there is a
    handler with one, and the removal of the keyslot. *)
Definition keyslot_remove (hdr : luks2_hdr) (keyslot : Z) : luks2_hdr :=
  let hdr1 :=
    match LUKS2_keyslot_handler hdr keyslot with
    | Some h => if bool_decide (kh_name h = "luks2"%string) then luks2_keyslot_wipe hdr keyslot else hdr
    | None => hdr
    end in
  update_section hdr1 "keyslots" (fun s => json_object_object_del_by_uint s keyslot).
End edit.
