(* ===== verification/Luks2Areas.v ===== *)
(** * Luks2Areas: allocation of keyslot areas (lib/luks2/luks2_json_format.c)

    [LUKS2_find_area_gap] and [LUKS2_find_area_max_gap] search the binary
    keyslots area for free space: the table of the areas of all keyslots is
    sorted by offset and scanned. The theorems show that the area returned is
    free, lies between the metadata and the end of the keyslots area, and is
    aligned; for the largest gap, that no gap is larger. *)

From S2P Require Import Prelude Cstd JsonC Luks2Json Luks2Keyslot.
From Stdlib Require Import Sorted.

Record area := Area { a_offset : Z; a_length : Z }.

(** lib/utils_device.c:916, on [size_t] *)
Definition size_round_up (size block : Z) : Z :=
  let s := (size +64 (block -64 1)) / block in s *64 block.

Definition get_area_size (keylength : Z) : Z := size_round_up (keylength *64 4000) 4096.

Definition LUKS2_check_metadata_area_size (metadata_size : Z) : bool :=
  negb (bool_decide (metadata_size ∈
    [0x004000; 0x008000; 0x010000; 0x020000; 0x040000; 0x080000; 0x100000; 0x200000; 0x400000])).

Definition LUKS2_MAX_KEYSLOTS_SIZE : Z := 0x8000000.

Definition LUKS2_check_keyslots_area_size (keyslots_size : Z) : bool :=
  negb (MISALIGNED_4K keyslots_size =? 0) || (LUKS2_MAX_KEYSLOTS_SIZE <? keyslots_size).

(** ** The sorted table *)

(** [for (j ...) if (areas[j].offset && areas[j].offset <= offset)]: the index
    of the smallest offset, the last one among equals. *)
Fixpoint min_loop (l : list area) (j : nat) (offset : Z) (area_i : option nat) : option nat :=
  match l with
  | [] => area_i
  | a :: l' =>
      if negb (a_offset a =? 0) && (a_offset a <=? offset)
      then min_loop l' (S j) (a_offset a) (Some j)
      else min_loop l' (S j) offset area_i
  end.

Fixpoint sort_loop (n : nat) (areas : list area) (bound : Z) : list area :=
  match n with
  | O => []
  | S n' =>
      match min_loop areas 0 bound None with
      | None => sort_loop n' areas bound
      | Some i =>
          match areas !! i with
          | None => sort_loop n' areas bound
          | Some a => a :: sort_loop n' (<[i := Area 0 0]> areas) bound
          end
      end
  end.

(** The array [sorted_areas]: the sorted areas and unused, zero entries. *)
Definition sorted_table (areas : list area) (max_offset : Z) : list area :=
  let bound := if max_offset =? 0 then UINT64_MAX else max_offset in
  let s := sort_loop (Z.to_nat LUKS2_KEYSLOTS_MAX) areas bound in
  s ++ replicate (Z.to_nat LUKS2_KEYSLOTS_MAX - length s) (Area 0 0).

Definition is_empty_area (a : area) : bool := (a_offset a =? 0) || (a_length a =? 0).

(** ** Searching *)

Fixpoint gap_loop (sorted : list area) (offset length : Z) : Z :=
  match sorted with
  | [] => offset
  | a :: sorted' =>
      if is_empty_area a then gap_loop sorted' offset length
      else if (offset <? a_offset a) && (offset +64 length <=? a_offset a) then offset
      else gap_loop sorted' (a_offset a +64 a_length a) length
  end.

Fixpoint max_gap_loop (sorted : list area) (offset length valid_offset : Z) : Z * Z :=
  match sorted with
  | [] => (valid_offset, length)
  | a :: sorted' =>
      if is_empty_area a then max_gap_loop sorted' offset length valid_offset
      else
        let '(valid_offset, length) :=
          if (offset <? a_offset a) && (length <? a_offset a - offset)
          then (offset, a_offset a - offset) else (valid_offset, length) in
        max_gap_loop sorted' (a_offset a +64 a_length a) length valid_offset
  end.

Section header.
Context `{JC : JsonC}.

Definition get_min_offset (hdr : luks2_hdr) : Z := 2 *64 hdr_size hdr.
Definition get_max_offset (hdr : luks2_hdr) : Z := LUKS2_hdr_and_areas_size hdr.

Definition areas_table (hdr : luks2_hdr) : list area :=
  (fun i => let '(r, offset, length) := LUKS2_keyslot_area hdr i in
            if r =? 0 then Area offset length else Area 0 0) <$> seqZ 0 LUKS2_KEYSLOTS_MAX.

(** Result code, offset and length. *)
Definition LUKS2_find_area_gap (hdr : luks2_hdr) (keylength : Z) : Z * Z * Z :=
  let sorted := sorted_table (areas_table hdr) (get_max_offset hdr) in
  let length := get_area_size keylength in
  let offset := gap_loop sorted (get_min_offset hdr) length in
  if get_max_offset hdr <? offset +64 length then (- EINVAL, 0, 0) else (0, offset, length).

Definition LUKS2_find_area_max_gap (hdr : luks2_hdr) : Z * Z * Z :=
  let sorted := sorted_table (areas_table hdr) (get_max_offset hdr) ++ [Area (get_max_offset hdr) 1] in
  let '(valid_offset, length) := max_gap_loop sorted (get_min_offset hdr) 0 0 in
  if length =? 0 then (- EINVAL, 0, 0) else (0, valid_offset, length).

Definition LUKS2_keyslot_find_empty (hdr : luks2_hdr) (keylength : Z) : Z :=
  match List.find (fun i => negb (bool_decide (is_Some (LUKS2_get_keyslot_jobj hdr i))))
          (seqZ 0 LUKS2_KEYSLOTS_MAX) with
  | None => - EINVAL
  | Some i =>
      if negb (keylength =? 0) && ((LUKS2_find_area_gap hdr keylength).1.1 <? 0) then - ENOSPC else i
  end.

Definition LUKS2_set_keyslots_size_jobj (hdr : luks2_hdr) (data_offset : Z) : Z * luks2_hdr :=
  if data_offset <? get_min_offset hdr then (1, hdr)
  else
    let keyslots_size := data_offset - get_min_offset hdr in
    let keyslots_size := if LUKS2_MAX_KEYSLOTS_SIZE <? keyslots_size
                         then LUKS2_MAX_KEYSLOTS_SIZE else keyslots_size in
    let keyslots_size := keyslots_size - keyslots_size mod 4096 in
    match json_object_object_get_ex (jobj hdr) "config" with
    | None => (1, hdr)
    | Some jobj_config =>
        (0, set_jobj hdr (json_object_object_add (jobj hdr) "config"
              (json_object_object_add jobj_config "keyslots_size"
                 (crypt_jobj_new_uint64 keyslots_size))))
    end.
End header.

(** ** Rounding *)

Lemma size_round_up_spec size block :
  0 < block -> 0 <= size -> size + block < 2 ^ 64 ->
  size <= size_round_up size block < size + block /\ size_round_up size block mod block = 0.
Proof.
  intros Hb Hs Hlt. unfold size_round_up.
  rewrite (u64_id (block - 1)) by lia. rewrite (u64_id (size + (block - 1))) by lia.
  pose proof (Z.div_mod (size + (block - 1)) block ltac:(lia)) as E.
  pose proof (Z.mod_pos_bound (size + (block - 1)) block Hb) as B.
  assert (0 <= (size + (block - 1)) / block) by (apply Z.div_pos; lia).
  rewrite u64_id by nia. split; [nia|]. apply Z.mod_mul; lia.
Qed.

(** ** Well-formed tables

    What validation establishes for the areas of the keyslots: [0] entries are
    unused; a used area ends before the bound and areas do not overlap. *)

Definition used (a : area) : Prop := a_offset a <> 0.
Definition a_end (a : area) : Z := a_offset a + a_length a.
Definition disjoint_areas (a b : area) : Prop := a_end a <= a_offset b \/ a_end b <= a_offset a.

Record wf_areas (areas : list area) (lo hi : Z) : Prop := {
  wf_range : forall i a, areas !! i = Some a -> used a ->
    lo <= a_offset a /\ 0 < a_length a /\ a_end a <= hi;
  wf_disjoint : forall i j a b, areas !! i = Some a -> areas !! j = Some b -> i <> j ->
    used a -> used b -> disjoint_areas a b;
}.

(** *** [min_loop] finds a used area of smallest offset *)

Lemma min_loop_spec l j offset area_i :
  match min_loop l j offset area_i with
  | None => area_i = None /\ forall i a, l !! i = Some a -> used a -> offset < a_offset a
  | Some r =>
      (area_i = Some r /\ forall i a, l !! i = Some a -> used a -> offset < a_offset a) \/
      (exists k a, r = (j + k)%nat /\ l !! k = Some a /\ used a /\ a_offset a <= offset /\
         forall i b, l !! i = Some b -> used b -> a_offset a <= a_offset b)
  end.
Proof.
  revert j offset area_i. induction l as [|a l IH]; intros j offset area_i; simpl.
  - destruct area_i; [left|]; (split; [done|]); intros i a; by rewrite lookup_nil.
  - destruct (Z.eqb_spec (a_offset a) 0) as [E0|E0]; cbn [negb andb].
    + specialize (IH (S j) offset area_i). destruct (min_loop l (S j) offset area_i) as [r|].
      * destruct IH as [[-> IH]|(k & b & -> & Hk & Hu & Hle & Hmin)]; [left|right].
        -- split; [done|]. intros [|i] b Hb Hu; simpl in Hb; [congruence|eauto].
        -- exists (S k), b. repeat split; auto; try lia.
           intros [|i] c Hc Huc; simpl in Hc; [congruence|eauto].
      * destruct IH as [-> IH]. split; [done|].
        intros [|i] b Hb Hu; simpl in Hb; [congruence|eauto].
    + destruct (Z.leb_spec (a_offset a) offset) as [Hle|Hgt].
      * specialize (IH (S j) (a_offset a) (Some j)).
        destruct (min_loop l (S j) (a_offset a) (Some j)) as [r|]; [|by destruct IH].
        right. destruct IH as [[[= <-] IH]|(k & b & -> & Hk & Hu & Hle2 & Hmin)].
        -- exists 0%nat, a. repeat split; auto; try lia.
           intros [|i] b Hb Hub; simpl in Hb; [injection Hb as ->; lia|]. specialize (IH i b Hb Hub). lia.
        -- exists (S k), b. repeat split; auto; try lia.
           intros [|i] c Hc Huc; simpl in Hc; [injection Hc as ->; lia|eauto].
      * specialize (IH (S j) offset area_i). destruct (min_loop l (S j) offset area_i) as [r|].
        -- destruct IH as [[-> IH]|(k & b & -> & Hk & Hu & Hle & Hmin)]; [left|right].
           ++ split; [done|]. intros [|i] b Hb Hu; simpl in Hb; [injection Hb as ->; lia|eauto].
           ++ exists (S k), b. repeat split; auto; try lia.
              intros [|i] c Hc Huc; simpl in Hc; [injection Hc as ->; lia|eauto].
        -- destruct IH as [-> IH]. split; [done|].
           intros [|i] b Hb Hu; simpl in Hb; [injection Hb as ->; lia|eauto].
Qed.

(** *** Sorting *)

#[export] Instance used_dec a : Decision (used a) := decide (a_offset a <> 0).

Definition count_used (l : list area) : nat := length (filter used l).

Lemma count_used_insert (l : list area) (i : nat) a :
  l !! i = Some a -> used a -> S (count_used (<[i := Area 0 0]> l)) = count_used l.
Proof.
  unfold count_used. revert i. induction l as [|b l IH]; intros i Hi Hu; [by rewrite lookup_nil in Hi|].
  destruct i as [|i]; simpl in Hi.
  - injection Hi as ->. simpl. rewrite !filter_cons, decide_False by (unfold used; simpl; lia).
    by rewrite decide_True.
  - simpl. rewrite !filter_cons. specialize (IH i Hi Hu). case_decide; simpl; lia.
Qed.

Lemma lookup_unused_insert (l : list area) i j a :
  <[i := Area 0 0]> l !! j = Some a -> used a -> l !! j = Some a /\ i <> j.
Proof.
  intros Hj Hu. destruct (decide (i = j)) as [->|Hne].
  - destruct (decide (j < length l)%nat) as [Hlt|Hge].
    + rewrite list_lookup_insert_eq in Hj by done. injection Hj as <-. by destruct Hu.
    + rewrite list_insert_ge in Hj by lia. by rewrite lookup_ge_None_2 in Hj by lia.
  - by rewrite list_lookup_insert_ne in Hj.
Qed.

Lemma wf_areas_insert (l : list area) lo hi (i : nat) : wf_areas l lo hi -> wf_areas (<[i := Area 0 0]> l) lo hi.
Proof.
  intros [Hr Hd]. split.
  - intros j a Hj Hu. apply lookup_unused_insert in Hj as [Hj _]; eauto.
  - intros j k a b Hj Hk Hne Hua Hub.
    apply lookup_unused_insert in Hj as [Hj _]; auto. apply lookup_unused_insert in Hk as [Hk _]; eauto.
Qed.

(** The areas that follow start after this one ends. *)
Definition before (a b : area) : Prop := a_end a <= a_offset b.

Record sorted_of (areas s : list area) : Prop := {
  so_sorted : StronglySorted before s;
  so_sound : forall a, a ∈ s -> used a /\ exists i, areas !! i = Some a;
  so_complete : forall i a, areas !! i = Some a -> used a -> a ∈ s;
}.

Lemma sort_loop_unused n areas bound :
  (forall i a, areas !! i = Some a -> ~ used a) -> sort_loop n areas bound = [].
Proof.
  intros Hun. induction n as [|n IH]; [done|]. cbn [sort_loop].
  pose proof (min_loop_spec areas 0 bound None) as Hm.
  destruct (min_loop areas 0 bound None) as [r|]; [|done].
  destruct Hm as [[? _]|(k & a & -> & Hk & Hu & _)]; [done|]. by destruct (Hun k a).
Qed.

Lemma sort_loop_spec n areas lo hi bound :
  wf_areas areas lo hi -> hi <= bound -> (count_used areas <= n)%nat ->
  sorted_of areas (sort_loop n areas bound).
Proof.
  revert areas. induction n as [|n IH]; intros areas Hwf Hb Hc.
  - simpl. split; [constructor|by intros a ?%elem_of_nil|].
    intros i a Hi Hu. exfalso. pose proof (count_used_insert areas i a Hi Hu). lia.
  - cbn [sort_loop]. pose proof (min_loop_spec areas 0 bound None) as Hm.
    destruct (min_loop areas 0 bound None) as [r|].
    + destruct Hm as [[? _]|(k & a & -> & Hk & Hu & Hle & Hmin)]; [done|].
      cbn [Nat.add]. rewrite Hk.
      destruct (IH (<[k := Area 0 0]> areas)) as [Hs Hso Hco];
        [by apply wf_areas_insert|done|pose proof (count_used_insert _ _ _ Hk Hu); lia|].
      split.
      * constructor; [done|]. apply Forall_forall. intros b Hin.
        destruct (Hso b Hin) as (Hub & j & Hj).
        apply lookup_unused_insert in Hj as [Hj Hne]; [|done].
        destruct (wf_disjoint _ _ _ Hwf k j a b Hk Hj Hne Hu Hub) as [H|H]; [exact H|].
        pose proof (Hmin j b Hj Hub). pose proof (wf_range _ _ _ Hwf j b Hj Hub).
        unfold before, a_end in *. lia.
      * intros b [->|Hin]%elem_of_cons; [eauto|]. destruct (Hso b Hin) as (Hub & j & Hj).
        apply lookup_unused_insert in Hj as [Hj _]; eauto.
      * intros i b Hi Hub. apply elem_of_cons. destruct (decide (i = k)) as [->|Hne]; [left; congruence|].
        right. apply (Hco i); [|done]. by rewrite list_lookup_insert_ne.
    + destruct Hm as [_ Hm].
      assert (Hun : forall i a, areas !! i = Some a -> ~ used a).
      { intros i a Hi Hu. pose proof (Hm i a Hi Hu). pose proof (wf_range _ _ _ Hwf i a Hi Hu).
        unfold a_end in *. lia. }
      rewrite sort_loop_unused by done.
      split; [constructor|by intros a ?%elem_of_nil|]. intros i a Hi Hu. by destruct (Hun i a).
Qed.

Lemma count_used_le l : (count_used l <= length l)%nat.
Proof. unfold count_used. apply length_filter. Qed.

Lemma gap_loop_pad n s offset length :
  gap_loop (s ++ replicate n (Area 0 0)) offset length = gap_loop s offset length.
Proof.
  revert offset. induction s as [|a s IH]; intros offset; cbn [app gap_loop].
  - induction n; [done|]. exact IHn.
  - by rewrite !IH.
Qed.

Lemma max_gap_loop_pad n s rest offset length valid :
  max_gap_loop (s ++ replicate n (Area 0 0) ++ rest) offset length valid =
  max_gap_loop (s ++ rest) offset length valid.
Proof.
  revert offset length valid. induction s as [|a s IH]; intros; cbn [app max_gap_loop].
  - induction n; [done|]. exact IHn.
  - rewrite IH. destruct (is_empty_area a); [done|]. by case_match.
Qed.

(** *** The first fit *)

(** [o, o + n) does not meet the area. *)
Definition free_of (o n : Z) (a : area) : Prop := a_end a <= o \/ o + n <= a_offset a.

Definition scan_ok (lo hi : Z) (s : list area) : Prop :=
  StronglySorted before s /\
  forall a, a ∈ s -> used a /\ 0 < a_length a /\ lo <= a_offset a /\ a_end a <= hi.

Lemma scan_ok_cons lo hi a s :
  0 <= lo -> scan_ok lo hi (a :: s) ->
  is_empty_area a = false /\ 0 < a_length a /\ lo <= a_offset a /\ a_end a <= hi /\
  scan_ok (a_end a) hi s.
Proof.
  intros Hlo [[Hs' Hf]%StronglySorted_inv Ha].
  destruct (Ha a) as (Hu & Hl & Hlo' & Hhi); [left|]. unfold used in Hu.
  split; [unfold is_empty_area; lia|]. do 3 (split; [done|]). split; [done|].
  rewrite Forall_forall in Hf. intros b Hb. destruct (Ha b) as (?&?&?&?); [by right|].
  repeat split; auto. by apply Hf.
Qed.

Lemma gap_loop_spec s offset length lo hi :
  scan_ok offset hi s -> lo <= offset -> 0 <= lo -> offset <= hi -> 0 < length -> hi + length < 2 ^ 64 ->
  let o := gap_loop s offset length in
  offset <= o <= hi /\ (forall a, a ∈ s -> free_of o length a) /\
  (o = offset \/ exists a, a ∈ s /\ o = a_end a) /\
  (forall o', offset <= o' -> (forall a, a ∈ s -> free_of o' length a) -> o <= o').
Proof.
  revert offset. induction s as [|a s IH]; intros offset Hok Hlo Hlo0 Hhi Hlen Hov; cbn [gap_loop].
  - simpl. repeat split; auto; try lia. by intros a ?%elem_of_nil.
  - apply scan_ok_cons in Hok as (He & Hla & Hoa & Hea & Hok); [|lia]. rewrite He.
    unfold a_end in *. rewrite !u64_id by lia.
    destruct (Z.ltb_spec offset (a_offset a)), (Z.leb_spec (offset + length) (a_offset a));
      cbn [andb].
    { repeat split; auto; try lia. intros b [->|Hb]%elem_of_cons; unfold free_of; [lia|].
      destruct Hok as [_ Hok]. destruct (Hok b Hb) as (_&_&?&_). lia. }
    all: destruct (IH (a_offset a + a_length a)) as (H1 & H2 & H3 & H4); auto; try lia.
    all: split; [lia|]; split; [|split].
    all: try (intros b [->|Hb]%elem_of_cons; [left; unfold a_end; lia|auto]).
    all: try (destruct H3 as [->|(b & Hb & ->)]; right; [exists a|exists b]; (split; [|done]); set_solver).
    all: intros o' Ho' Hf; apply H4; [|intros b Hb; apply Hf; set_solver];
      destruct (Hf a) as [Hx|Hx]; [left|unfold a_end in *; lia|lia].
Qed.

Lemma max_gap_loop_spec s offset length valid hi :
  scan_ok offset hi s -> 0 < offset <= hi -> 0 <= length -> hi < 2 ^ 64 ->
  let '(v, n) := max_gap_loop (s ++ [Area hi 1]) offset length valid in
  length <= n /\
  ((v, n) = (valid, length) \/
   (offset <= v /\ 0 < n /\ v + n <= hi /\ (forall a, a ∈ s -> free_of v n a) /\
    (v = offset \/ exists a, a ∈ s /\ v = a_end a) /\
    (v + n = hi \/ exists a, a ∈ s /\ v + n = a_offset a))) /\
  (forall o' n', offset <= o' -> 0 < n' -> o' + n' <= hi ->
     (forall a, a ∈ s -> free_of o' n' a) -> n' <= n).
Proof.
  revert offset length valid.
  induction s as [|a s IH]; intros offset length valid Hok Hoff Hlen Hhi; cbn [app max_gap_loop].
  - unfold is_empty_area. cbn [a_offset a_length]. destruct (Z.eqb_spec hi 0); [lia|]. cbn [orb Z.eqb].
    destruct (Z.ltb_spec offset hi), (Z.ltb_spec length (hi - offset)); cbn [andb];
      (split; [lia|]); (split; [|intros; lia]); auto.
    right. repeat split; try lia. intros a ?%elem_of_nil; done.
  - apply scan_ok_cons in Hok as (He & Hla & Hoa & Hea & Hok); [|lia]. rewrite He.
    unfold a_end in *. rewrite (u64_id (a_offset a + a_length a)) by lia.
    set (better := (offset <? a_offset a) && (length <? a_offset a - offset)).
    set (st := if better then (offset, a_offset a - offset) else (valid, length)).
    destruct st as [v1 n1] eqn:Est.
    assert (Hn1 : length <= n1 /\ a_offset a - offset <= n1).
    { subst st better. destruct (Z.ltb_spec offset (a_offset a)),
        (Z.ltb_spec length (a_offset a - offset)); cbn [andb] in Est; injection Est as <- <-; lia. }
    specialize (IH (a_offset a + a_length a) n1 v1 Hok ltac:(lia) ltac:(lia) Hhi).
    destruct (max_gap_loop _ _ _ _) as [v n]. destruct IH as (Hle & Hres & Hmax).
    split; [lia|]. split.
    + destruct Hres as [[= -> ->]|(Hv & Hn & Hvn & Hfree & Hst & Hen)].
      * subst st better. destruct (Z.ltb_spec offset (a_offset a)),
          (Z.ltb_spec length (a_offset a - offset)); cbn [andb] in Est; injection Est as <- <-; auto.
        right. split; [lia|]. split; [lia|]. split; [lia|]. split; [|split; [by left|]].
        -- intros b [->|Hb]%elem_of_cons; unfold free_of; [lia|].
           destruct Hok as [_ Hok]. destruct (Hok b Hb) as (_&_&?&_). lia.
        -- right. exists a. split; [set_solver|lia].
      * right. split; [lia|]. split; [lia|]. split; [lia|]. split; [|split].
        -- intros b [->|Hb]%elem_of_cons; [left; unfold a_end; lia|auto].
        -- right. destruct Hst as [->|(b & Hb & ->)]; [exists a|exists b]; (split; [set_solver|done]).
        -- destruct Hen as [?|(b & Hb & ?)]; [by left|right; exists b; split; [set_solver|done]].
    + intros o' n' Ho' Hn' Hin Hf. destruct (Hf a) as [Hx|Hx]; [left|..]; unfold a_end in *.
      * apply (Hmax o' n'); auto. intros b Hb. apply Hf. by right.
      * lia.
Qed.

(** ** The allocator *)

Section theorems.
Context `{JC : JsonC}.

(** What a validated header guarantees (see [Luks2Validate]): the areas of
    its keyslots do not overlap and lie between the metadata copies and the
    end of the binary area. *)
Record areas_valid (hdr : luks2_hdr) : Prop := {
  av_min : 0 < get_min_offset hdr;
  av_min_max : get_min_offset hdr <= get_max_offset hdr;
  av_max : get_max_offset hdr < 2 ^ 63;
  av_wf : wf_areas (areas_table hdr) (get_min_offset hdr) (get_max_offset hdr);
}.

Lemma length_areas_table hdr : length (areas_table hdr) = Z.to_nat LUKS2_KEYSLOTS_MAX.
Proof. unfold areas_table. rewrite length_fmap, length_seqZ. done. Qed.

Lemma areas_table_lookup hdr i off n :
  0 <= i < LUKS2_KEYSLOTS_MAX -> LUKS2_keyslot_area hdr i = (0, off, n) ->
  areas_table hdr !! Z.to_nat i = Some (Area off n).
Proof.
  intros Hi Ha. unfold areas_table. rewrite list_lookup_fmap, lookup_seqZ_lt by lia.
  cbn [fmap option_fmap option_map]. replace (0 + Z.of_nat (Z.to_nat i)) with i by lia. rewrite Ha. done.
Qed.

(** The table the searches scan: all the areas in use, in order. *)
Lemma sorted_table_spec hdr :
  areas_valid hdr ->
  exists s k, sorted_table (areas_table hdr) (get_max_offset hdr) = s ++ replicate k (Area 0 0) /\
    sorted_of (areas_table hdr) s /\ scan_ok (get_min_offset hdr) (get_max_offset hdr) s.
Proof.
  intros [H0 H1 H2 Hwf]. unfold sorted_table. destruct (Z.eqb_spec (get_max_offset hdr) 0); [lia|].
  set (s := sort_loop _ _ _). exists s, (Z.to_nat LUKS2_KEYSLOTS_MAX - length s)%nat. split; [done|].
  assert (Hso : sorted_of (areas_table hdr) s).
  { eapply sort_loop_spec; [exact Hwf|lia|]. rewrite <-length_areas_table with (hdr := hdr).
    apply count_used_le. }
  split; [done|]. split; [by apply so_sorted in Hso|]. intros a Hin.
  destruct (so_sound _ _ Hso a Hin) as (Hu & i & Hi).
  pose proof (wf_range _ _ _ Hwf i a Hi Hu). split; [done|]. lia.
Qed.

Definition area_free (hdr : luks2_hdr) (o n : Z) : Prop :=
  forall i off len, 0 <= i < LUKS2_KEYSLOTS_MAX -> LUKS2_keyslot_area hdr i = (0, off, len) -> off <> 0 ->
    off + len <= o \/ o + n <= off.

Lemma area_free_iff hdr s o n :
  sorted_of (areas_table hdr) s -> area_free hdr o n <-> (forall a, a ∈ s -> free_of o n a).
Proof.
  intros Hso. split.
  - intros Hf a Hin. destruct (so_sound _ _ Hso a Hin) as (Hu & i & Hi).
    unfold areas_table in Hi. rewrite list_lookup_fmap in Hi.
    destruct (seqZ 0 LUKS2_KEYSLOTS_MAX !! i) as [z|] eqn:Ez; [|done].
    apply lookup_seqZ in Ez as [-> Hlt]. cbn [fmap option_fmap option_map] in Hi. injection Hi as <-.
    destruct (LUKS2_keyslot_area hdr (0 + Z.of_nat i)) as [[r off] len] eqn:Ea.
    destruct (Z.eqb_spec r 0) as [->|]; [|by destruct Hu].
    unfold free_of, a_end. simpl. eapply (Hf (0 + Z.of_nat i)); eauto; lia.
  - intros Hf i off len Hi Ha Hoff. pose proof (areas_table_lookup hdr i off len Hi Ha) as Hl.
    exact (Hf (Area off len) (so_complete _ _ Hso _ _ Hl Hoff)).
Qed.

Definition keylength_ok (k : Z) : Prop := 0 < k /\ k * 4000 + 4096 < 2 ^ 63.

Lemma get_area_size_spec k :
  keylength_ok k ->
  k * 4000 <= get_area_size k < k * 4000 + 4096 /\ get_area_size k mod 4096 = 0 /\
  0 < get_area_size k < 2 ^ 63.
Proof.
  intros [Hk Hb]. unfold get_area_size. rewrite (u64_id (k * 4000)) by lia.
  destruct (size_round_up_spec (k * 4000) 4096) as [H1 H2]; lia.
Qed.

(** The scan of a valid header: the first offset, from the start of the
    keyslots area on, where the area fits before the next used area. *)
Lemma find_area_gap_scan hdr k :
  areas_valid hdr -> keylength_ok k ->
  exists o, get_min_offset hdr <= o <= get_max_offset hdr /\
    area_free hdr o (get_area_size k) /\
    (o = get_min_offset hdr \/ exists i off len,
       0 <= i < LUKS2_KEYSLOTS_MAX /\ LUKS2_keyslot_area hdr i = (0, off, len) /\ o = off + len) /\
    (forall o', get_min_offset hdr <= o' -> area_free hdr o' (get_area_size k) -> o <= o') /\
    LUKS2_find_area_gap hdr k =
      if get_max_offset hdr <? o + get_area_size k then (- EINVAL, 0, 0) else (0, o, get_area_size k).
Proof.
  intros Hv Hk. destruct (get_area_size_spec k Hk) as (_ & _ & Hn).
  destruct (sorted_table_spec hdr Hv) as (s & p & Hs & Hso & Hok). destruct Hv as [H0 H1 H2 _].
  unfold LUKS2_find_area_gap. rewrite Hs, gap_loop_pad.
  destruct (gap_loop_spec s (get_min_offset hdr) (get_area_size k) (get_min_offset hdr)
    (get_max_offset hdr)) as (Ho & Hfree & Hst & Hfirst); auto; try lia.
  eexists. split; [exact Ho|]. split; [by apply (area_free_iff hdr s)|]. split; [|split].
  - destruct Hst as [?|(a & Ha & ->)]; [by left|right]. destruct (so_sound _ _ Hso a Ha) as (Hu & i & Hi).
    unfold areas_table in Hi. rewrite list_lookup_fmap in Hi.
    destruct (seqZ 0 LUKS2_KEYSLOTS_MAX !! i) as [z|] eqn:Ez; [|done].
    apply lookup_seqZ in Ez as [-> Hlt]. cbn [fmap option_fmap option_map] in Hi. injection Hi as <-.
    destruct (LUKS2_keyslot_area hdr (0 + Z.of_nat i)) as [[r off] len] eqn:Ea.
    destruct (Z.eqb_spec r 0) as [->|]; [|by destruct Hu].
    exists (0 + Z.of_nat i), off, len. split; [lia|]. done.
  - intros o' Ho' Hf. apply Hfirst; [done|]. by apply (area_free_iff hdr s).
  - rewrite u64_id by lia. done.
Qed.

(** The scan for the largest gap. *)
Lemma find_area_max_gap_scan hdr :
  areas_valid hdr ->
  exists v n, LUKS2_find_area_max_gap hdr = (if n =? 0 then (- EINVAL, 0, 0) else (0, v, n)) /\
    0 <= n /\
    (n = 0 \/ (get_min_offset hdr <= v /\ v + n <= get_max_offset hdr /\ area_free hdr v n)) /\
    forall o' n', get_min_offset hdr <= o' -> 0 < n' -> o' + n' <= get_max_offset hdr ->
      area_free hdr o' n' -> n' <= n.
Proof.
  intros Hv. destruct (sorted_table_spec hdr Hv) as (s & p & Hs & Hso & Hok). destruct Hv as [H0 H1 H2 _].
  unfold LUKS2_find_area_max_gap. rewrite Hs, <-app_assoc, max_gap_loop_pad.
  pose proof (max_gap_loop_spec s (get_min_offset hdr) 0 0 (get_max_offset hdr) Hok
    ltac:(lia) ltac:(lia) ltac:(lia)) as Hg.
  destruct (max_gap_loop _ _ _ _) as [v n]. destruct Hg as (Hn & Hres & Hmax). exists v, n.
  split; [done|]. split; [done|]. split.
  - destruct Hres as [[= -> ->]|(H3 & H4 & H5 & H6 & _)]; [by left|right].
    do 2 (split; [done|]). by apply (area_free_iff hdr s).
  - intros o' n' Ho' Hn' Hin Hf. apply (Hmax o' n'); auto. by apply (area_free_iff hdr s).
Qed.

(** ** Properties *)

(** C23: In a header whose areas are in order ([areas_valid]: every keyslot area
    lies between the metadata copies and the end of the keyslots area, which is
    below 2^63, none ends beyond 2^64, and no two overlap), for a key that is
    not empty and whose stripes fit 63 bits ([keylength_ok]), an area that
    [LUKS2_find_area_gap] returns is large enough for the anti-forensic split of
    the key, lies between the metadata copies and the end of the keyslots area
    and meets no area in use; its size is a multiple of 4096, and so is its
    offset when the first one and the ends of all areas are such multiples.
    [LUKS2_hdr_validate] alone does not put the areas in order: it accepts one
    that wraps around 2^64 ([validate_accepts_wrapping_area]). *)
Theorem find_area_gap_sound hdr k off len :
  areas_valid hdr -> keylength_ok k -> LUKS2_find_area_gap hdr k = (0, off, len) ->
  k * 4000 <= len /\ get_min_offset hdr <= off /\ off + len <= get_max_offset hdr /\
  area_free hdr off len /\ len mod 4096 = 0 /\
  (get_min_offset hdr mod 4096 = 0 ->
   (forall i o n, LUKS2_keyslot_area hdr i = (0, o, n) -> (o + n) mod 4096 = 0) -> off mod 4096 = 0).
Proof.
  intros Hv Hk Hr. destruct (find_area_gap_scan hdr k Hv Hk) as (o & Ho & Hf & Hst & _ & E).
  destruct (get_area_size_spec k Hk) as (H1 & H2 & H3). rewrite E in Hr.
  destruct (Z.ltb_spec (get_max_offset hdr) (o + get_area_size k)); [discriminate Hr|].
  injection Hr as <- <-. repeat split; auto; try lia.
  intros Hm Hal. destruct Hst as [->|(i & o' & n & _ & Ha & ->)]; [done|]. exact (Hal _ _ _ Ha).
Qed.

(** [LUKS2_find_area_gap] is a complete first-fit search: it fails, with
    -EINVAL, only when no free area of the size exists in the keyslots area,
    and what it returns is the free area with the smallest offset. *)
Theorem find_area_gap_complete hdr k :
  areas_valid hdr -> keylength_ok k ->
  let fits o := get_min_offset hdr <= o /\ o + get_area_size k <= get_max_offset hdr /\
                area_free hdr o (get_area_size k) in
  (LUKS2_find_area_gap hdr k = (- EINVAL, 0, 0) /\ forall o, ~ fits o) \/
  (exists o, LUKS2_find_area_gap hdr k = (0, o, get_area_size k) /\ fits o /\
     forall o', fits o' -> o <= o').
Proof.
  intros Hv Hk fits. destruct (find_area_gap_scan hdr k Hv Hk) as (o & Ho & Hf & _ & Hfirst & E).
  rewrite E. subst fits. destruct (Z.ltb_spec (get_max_offset hdr) (o + get_area_size k)) as [Hlt|Hge].
  - left. split; [done|]. intros o' (H1 & H2 & H3). specialize (Hfirst o' H1 H3). lia.
  - right. exists o. repeat split; auto; try lia. intros o' (H1 & H2 & H3). auto.
Qed.

(** [LUKS2_find_area_max_gap] returns a free part of the keyslots area such
    that no free part is larger; it fails, with -EINVAL, only when the area is
    full. *)
Theorem find_area_max_gap_largest hdr :
  areas_valid hdr ->
  let fits o n := get_min_offset hdr <= o /\ 0 < n /\ o + n <= get_max_offset hdr /\ area_free hdr o n in
  (LUKS2_find_area_max_gap hdr = (- EINVAL, 0, 0) /\ forall o n, ~ fits o n) \/
  (exists o n, LUKS2_find_area_max_gap hdr = (0, o, n) /\ fits o n /\
     forall o' n', fits o' n' -> n' <= n).
Proof.
  intros Hv fits. destruct (find_area_max_gap_scan hdr Hv) as (v & n & E & Hn & Hres & Hmax).
  rewrite E. subst fits. destruct (Z.eqb_spec n 0) as [Hz|Hnz].
  - left. split; [done|]. intros o n' (H1 & H2 & H3 & H4). specialize (Hmax o n' H1 H2 H3 H4). lia.
  - right. exists v, n. destruct Hres as [?|(H1 & H2 & H3)]; [done|]. repeat split; auto; try lia.
    intros o' n' (? & ? & ? & ?). eauto.
Qed.
End theorems.

(** ** Witnesses *)

(** Two keyslots that are not adjacent. *)
Lemma fx_two_valid : areas_valid (fx_hdr [] 1 fx_two).
Proof.
  assert (Hu : forall i a, areas_table (fx_hdr [] 1 fx_two) !! i = Some a -> used a ->
    (i = 0%nat /\ a = Area 32768 258048) \/ (i = 1%nat /\ a = Area 294912 258048)).
  { assert (E : areas_table (fx_hdr [] 1 fx_two) =
      Area 32768 258048 :: Area 294912 258048 :: replicate 30 (Area 0 0)) by (vm_compute; reflexivity).
    rewrite E. intros [|[|i]] a Hl Hus; [left; split; [done|by injection Hl]|right; split; [done|by injection Hl]|].
    change (replicate 30 (Area 0 0) !! i = Some a) in Hl. apply lookup_replicate_1 in Hl as [-> _].
    by destruct Hus. }
  split; [reflexivity|vm_compute; congruence|reflexivity|]. split.
  - intros i a Hl Hus. change (get_max_offset (fx_hdr [] 1 fx_two)) with 16777216.
    change (get_min_offset (fx_hdr [] 1 fx_two)) with 32768.
    destruct (Hu i a Hl Hus) as [[-> ->]|[-> ->]]; unfold a_end; cbn; lia.
  - intros i j a b Hi Hj Hne Ha Hb. unfold disjoint_areas, a_end.
    destruct (Hu i a Hi Ha) as [[-> ->]|[-> ->]], (Hu j b Hj Hb) as [[-> ->]|[-> ->]]; cbn; lia.
Qed.

Lemma find_area_gap_sound_witness : area_free (fx_hdr [] 1 fx_two) 290816 4096.
Proof.
  apply (find_area_gap_sound (fx_hdr [] 1 fx_two) 1 290816 4096);
    [exact fx_two_valid|split; reflexivity|vm_compute; reflexivity].
Defined.

Lemma find_area_gap_complete_witness :
  exists o, LUKS2_find_area_gap (fx_hdr [] 1 fx_two) 64 = (0, o, get_area_size 64).
Proof.
  destruct (find_area_gap_complete (fx_hdr [] 1 fx_two) 64 fx_two_valid) as [[E _]|(o & E & _)].
  - split; reflexivity.
  - vm_compute in E. discriminate E.
  - exists o. exact E.
Defined.

Lemma find_area_max_gap_largest_witness :
  exists o n, LUKS2_find_area_max_gap (fx_hdr [] 1 fx_two) = (0, o, n).
Proof.
  destruct (find_area_max_gap_largest (fx_hdr [] 1 fx_two) fx_two_valid) as [[E _]|(o & n & E & _)].
  - vm_compute in E. discriminate E.
  - exists o, n. exact E.
Defined.
