(* ===== verification/KeyEncryption.v ===== *)
(** * KeyEncryption: keyslot areas on the device (lib/luks1/keyencryption.c)

    A keyslot's material is encrypted in user space and written at its sector;
    when the back end does not know the cipher, a temporary dm-crypt device is
    used, which is what the kernel shows of the device ([dm_view]). The product
    of a sector number and the sector size is computed in 32 bits, as the code
    does. *)

From S2P Require Import Prelude UtilsIO CryptBackend UtilsCrypt CryptStorage StorageWrapper Luks2Json Luks2Areas Device.
From Stdlib Require Import Strings.Byte.

Definition EACCES : Z := 13.
Definition LUKS_ALIGN_KEYSLOTS : Z := 4096.

(** What the fallback asks of the kernel. *)
Record dm_env := {
  (** [device_info]: code, read-only flag, size in sectors *)
  de_device_info : Z * bool * Z;
  (** code of [dm_crypt_target_set] *)
  de_target_set : Z;
  (** [dm_create_device] of the target: cipher, key, sector, size
      and read-only flag: the view, or an error *)
  de_create : string -> bytes -> Z -> Z -> bool -> Z + dm_view;
  (** descriptor of the temporary device, -1 when it cannot be opened *)
  de_open : Z;
}.

(** lib/utils_device.c, with a given size: code and the read-only flag. *)
Definition device_block_adjust (dm : dm_env) (device_offset size : Z) (readonly : bool) : Z * bool :=
  let '(r, real_readonly, real_size) := de_device_info dm in
  if negb (r =? 0) then (r, readonly)
  else if real_size <=? device_offset then (- EINVAL, readonly)
  else
    let size := if size =? 0 then real_size -64 device_offset else size in
    if real_size -64 device_offset <? size then (- EINVAL, readonly) else (0, readonly || real_readonly).

Inductive transfer :=
| WriteBlocks (src : bytes)
| ReadBlocks.

Section storage.
Context `{CH : CryptHash} `{CC : CryptCipher}.
Variables (env : os_env) (dm : dm_env).

(** Code and, for a read, the bytes. *)
Definition LUKS_endec_template (t : transfer) (srcLength : Z) (cipher cipher_mode : string) (vk : bytes) (sector : Z)
    : M (Z * bytes) :=
  let bsize := env_block_size env in
  let alignment := env_alignment env in
  if (bsize =? 0) || (alignment =? 0) then mret (- EINVAL, [])
  else
    let keyslot_alignment := if LUKS_ALIGN_KEYSLOTS <? bsize then LUKS_ALIGN_KEYSLOTS else bsize in
    let size := size_round_up srcLength keyslot_alignment / SECTOR_SIZE in
    let rdonly := match t with ReadBlocks => true | WriteBlocks _ => false end in
    (* MAX_CIPHER_LEN * 3 *)
    let cipher_spec := String.substring 0 95 (cipher +:+ "-" +:+ cipher_mode) in
    let '(r, readonly) := device_block_adjust dm sector size rdonly in
    if r <? 0 then mret (- EIO, [])
    else if negb rdonly && readonly then mret (- EACCES, [])
    else if negb (de_target_set dm =? 0) then mret (de_target_set dm, [])
    else match de_create dm cipher_spec vk sector size readonly with
    | inl r => mret (- EIO, [])
    | inr view =>
        if de_open dm =? -1 then mret (- EIO, [])
        else
          fun d =>
            let f := dm_get view (d_file d) in
            match t with
            | WriteBlocks src =>
                let '(r, f) := write_blockwise (de_open dm) bsize alignment src srcLength f in
                Some ((if r <? 0 then - EIO else 0, []), set_file (dm_put view f (d_file d)) d)
            | ReadBlocks =>
                let '(r, buf, f) := read_blockwise (de_open dm) bsize alignment srcLength f in
                Some ((if r <? 0 then - EIO else 0, buf), set_file (dm_put view f (d_file d)) d)
            end
    end.

(** The offset of a sector in the file, an unsigned int. *)
Definition sector_offset (sector : Z) : Z := u32 (sector * SECTOR_SIZE).

Definition is_fallback (r : Z) : bool := (r =? - ENOTSUP) || (r =? - ENOENT).

Definition LUKS_encrypt_to_storage (src : bytes) (srcLength : Z) (cipher cipher_mode : string) (vk : bytes) (sector : Z) : M Z :=
  if negb (MISALIGNED_512 srcLength =? 0) then mret (- EINVAL)
  else match crypt_storage_init SECTOR_SIZE cipher cipher_mode vk false with
  | inl r =>
      if is_fallback r then
        '(r, _) ← LUKS_endec_template (WriteBlocks src) srcLength cipher cipher_mode vk sector;
        mret r
      else mret r
  | inr s =>
      let '(r, src) := crypt_storage_encrypt s 0 srcLength src in
      if negb (r =? 0) then mret r
      else
        locked ← device_is_locked;
        devfd ← (if locked : bool then device_open_locked env O_RDWR else device_open env O_RDWR);
        if devfd <? 0 then
          _ ← device_sync;
          mret (- EIO)
        else
          w ← dev_write env devfd src srcLength (sector_offset sector);
          _ ← device_sync;
          mret (if w <? 0 then - EIO else 0)
  end.

Definition LUKS_decrypt_from_storage (dstLength : Z) (cipher cipher_mode : string) (vk : bytes) (sector : Z) : M (Z * bytes) :=
  if negb (MISALIGNED_512 dstLength =? 0) then mret (- EINVAL, [])
  else match crypt_storage_init SECTOR_SIZE cipher cipher_mode vk false with
  | inl r =>
      if is_fallback r then LUKS_endec_template ReadBlocks dstLength cipher cipher_mode vk sector
      else mret (r, [])
  | inr s =>
      locked ← device_is_locked;
      devfd ← (if locked : bool then device_open_locked env O_RDONLY else device_open env O_RDONLY);
      if devfd <? 0 then mret (- EIO, [])
      else
        '(n, dst) ← dev_read env devfd dstLength (sector_offset sector);
        if n <? 0 then mret (- EIO, [])
        else mret (crypt_storage_decrypt s 0 dstLength dst)
  end.
End storage.
