(* ===== verification/Luks1.v ===== *)
(** * Luks1: the LUKS1 header and its keyslots (lib/luks1/keymanage.c)

    The packed [struct luks_phdr] is a record of byte fields and host integers.
    On the disk the integers are big-endian; a host is little-endian, so that
    the header as it is read has its integers with the bytes swapped until
    [_check_and_convert_hdr] converts them. Operations run in the monad of
    [Device]; a header passed by pointer is part of the result. Key derivation
    is the class [CryptPbkdf]. *)

From S2P Require Import Prelude UtilsIO CryptBackend UtilsCrypt CryptStorage StorageWrapper Pbkdf Luks2Json Device Wipe AF Luks2Keyslot Luks2Areas KeyEncryption Cstd.
From Stdlib Require Import Strings.Byte.

Definition LUKS_CIPHERNAME_L : Z := 32.
Definition LUKS_CIPHERMODE_L : Z := 32.
Definition LUKS_HASHSPEC_L : Z := 32.
Definition LUKS_DIGESTSIZE : Z := 20.
Definition LUKS_SALTSIZE : Z := 32.
Definition LUKS_NUMKEYS : Z := 8.
Definition LUKS_MKD_ITERATIONS_MIN : Z := 1000.
Definition LUKS_SLOT_ITERATIONS_MIN : Z := 1000.
Definition LUKS_MKD_ITERATIONS_MS : Z := 125.
Definition LUKS_KEY_DISABLED : Z := 0x0000DEAD.
Definition LUKS_KEY_ENABLED : Z := 0x00AC71F3.
Definition LUKS_STRIPES : Z := 4000.
Definition LUKS_MAGIC : bytes := bytes_of_string "LUKS" ++ [xba; xbe].
Definition LUKS_MAGIC_L : Z := 6.
Definition UUID_STRING_L : Z := 40.
Definition LUKS_MAX_KEYSLOT_SIZE : Z := 0x1000000.

(** An element of [keyblock] and the header. *)
Record luks_keyblock := Keyblock {
  kb_active : Z;
  passwordIterations : Z;
  passwordSalt : bytes;
  keyMaterialOffset : Z;
  stripes : Z;
}.

Record luks_phdr := Phdr {
  magic : bytes;
  ph_version : Z;
  cipherName : bytes;
  cipherMode : bytes;
  hashSpec : bytes;
  payloadOffset : Z;
  keyBytes : Z;
  mkDigest : bytes;
  mkDigestSalt : bytes;
  mkDigestIterations : Z;
  ph_uuid : bytes;
  keyblock : list luks_keyblock;
  _padding : bytes;
}.

(** sizeof(struct luks_phdr) *)
Definition PHDR_SIZE : Z := 1024.

(** *** The bytes of the struct in memory *)

Definition keyblock_bytes (k : luks_keyblock) : bytes :=
  mjoin [ le_encode 4 (kb_active k); le_encode 4 (passwordIterations k); passwordSalt k;
          le_encode 4 (keyMaterialOffset k); le_encode 4 (stripes k) ].

Definition keyblock_of_bytes (b : bytes) : luks_keyblock :=
  Keyblock (le_decode (slice 0 4 b)) (le_decode (slice 4 4 b)) (slice 8 32 b) (le_decode (slice 40 4 b)) (le_decode (slice 44 4 b)).

Definition phdr_bytes (h : luks_phdr) : bytes :=
  mjoin [ magic h; le_encode 2 (ph_version h); cipherName h; cipherMode h; hashSpec h; le_encode 4 (payloadOffset h);
          le_encode 4 (keyBytes h); mkDigest h; mkDigestSalt h; le_encode 4 (mkDigestIterations h); ph_uuid h;
          mjoin (keyblock_bytes <$> keyblock h); _padding h ].

Definition phdr_of_bytes (b : bytes) : luks_phdr :=
  Phdr (slice 0 6 b) (le_decode (slice 6 2 b)) (slice 8 32 b) (slice 40 32 b) (slice 72 32 b) (le_decode (slice 104 4 b))
    (le_decode (slice 108 4 b)) (slice 112 20 b) (slice 132 32 b) (le_decode (slice 164 4 b)) (slice 168 40 b)
    ((fun i => keyblock_of_bytes (slice (208 + 48 * i) 48 b)) <$> seqZ 0 8) (slice 592 432 b).

(** *** Byte order *)

Definition be16_to_cpu (x : Z) : Z := be_decode (le_encode 2 x).
Definition be32_to_cpu (x : Z) : Z := be_decode (le_encode 4 x).
Definition cpu_to_be16 (x : Z) : Z := le_decode (be_encode 2 x).
Definition cpu_to_be32 (x : Z) : Z := le_decode (be_encode 4 x).

(** The fields the code converts, with the given function for 32 bits. *)
Definition convert_keyblock (c32 : Z -> Z) (k : luks_keyblock) : luks_keyblock :=
  Keyblock (c32 (kb_active k)) (c32 (passwordIterations k)) (passwordSalt k) (c32 (keyMaterialOffset k)) (c32 (stripes k)).

Definition convert_ints (c32 : Z -> Z) (h : luks_phdr) : luks_phdr :=
  Phdr (magic h) (ph_version h) (cipherName h) (cipherMode h) (hashSpec h) (c32 (payloadOffset h)) (c32 (keyBytes h))
    (mkDigest h) (mkDigestSalt h) (c32 (mkDigestIterations h)) (ph_uuid h) (convert_keyblock c32 <$> keyblock h) (_padding h).

(** *** Assignments *)

Definition set_version (v : Z) (h : luks_phdr) : luks_phdr :=
  Phdr (magic h) v (cipherName h) (cipherMode h) (hashSpec h) (payloadOffset h) (keyBytes h)
    (mkDigest h) (mkDigestSalt h) (mkDigestIterations h) (ph_uuid h) (keyblock h) (_padding h).
Definition set_cipher (name mode : bytes) (h : luks_phdr) : luks_phdr :=
  Phdr (magic h) (ph_version h) name mode (hashSpec h) (payloadOffset h) (keyBytes h)
    (mkDigest h) (mkDigestSalt h) (mkDigestIterations h) (ph_uuid h) (keyblock h) (_padding h).
Definition set_hashSpec (v : bytes) (h : luks_phdr) : luks_phdr :=
  Phdr (magic h) (ph_version h) (cipherName h) (cipherMode h) v (payloadOffset h) (keyBytes h)
    (mkDigest h) (mkDigestSalt h) (mkDigestIterations h) (ph_uuid h) (keyblock h) (_padding h).
Definition set_digest (digest salt : bytes) (iterations : Z) (h : luks_phdr) : luks_phdr :=
  Phdr (magic h) (ph_version h) (cipherName h) (cipherMode h) (hashSpec h) (payloadOffset h) (keyBytes h)
    digest salt iterations (ph_uuid h) (keyblock h) (_padding h).
Definition set_phdr_uuid (v : bytes) (h : luks_phdr) : luks_phdr :=
  Phdr (magic h) (ph_version h) (cipherName h) (cipherMode h) (hashSpec h) (payloadOffset h) (keyBytes h)
    (mkDigest h) (mkDigestSalt h) (mkDigestIterations h) v (keyblock h) (_padding h).
Definition set_keyblocks (v : list luks_keyblock) (h : luks_phdr) : luks_phdr :=
  Phdr (magic h) (ph_version h) (cipherName h) (cipherMode h) (hashSpec h) (payloadOffset h) (keyBytes h)
    (mkDigest h) (mkDigestSalt h) (mkDigestIterations h) (ph_uuid h) v (_padding h).
Definition set_padding (v : bytes) (h : luks_phdr) : luks_phdr :=
  Phdr (magic h) (ph_version h) (cipherName h) (cipherMode h) (hashSpec h) (payloadOffset h) (keyBytes h)
    (mkDigest h) (mkDigestSalt h) (mkDigestIterations h) (ph_uuid h) (keyblock h) v.

Definition zero_keyblock : luks_keyblock := Keyblock 0 0 (zeros 32) 0 0.

(** [hdr->keyblock[i]] and its update; [i] is in range. *)
Definition kb (h : luks_phdr) (i : Z) : luks_keyblock := default zero_keyblock (keyblock h !! Z.to_nat i).
Definition upd_kb (i : Z) (f : luks_keyblock -> luks_keyblock) (h : luks_phdr) : luks_phdr :=
  set_keyblocks (alter f (Z.to_nat i) (keyblock h)) h.

Definition set_active (v : Z) (k : luks_keyblock) : luks_keyblock :=
  Keyblock v (passwordIterations k) (passwordSalt k) (keyMaterialOffset k) (stripes k).
Definition set_password (iterations : Z) (salt : bytes) (k : luks_keyblock) : luks_keyblock :=
  Keyblock (kb_active k) iterations salt (keyMaterialOffset k) (stripes k).
Definition set_material (offset nstripes : Z) (k : luks_keyblock) : luks_keyblock :=
  Keyblock (kb_active k) (passwordIterations k) (passwordSalt k) offset nstripes.

(** ** Keyslot areas *)

(** Code, offset and length in bytes. *)
Definition LUKS_keyslot_area (hdr : luks_phdr) (keyslot : Z) : Z * Z * Z :=
  if (LUKS_NUMKEYS <=? keyslot) || (keyslot <? 0) then (- EINVAL, 0, 0)
  else (0, keyMaterialOffset (kb hdr keyslot) *64 SECTOR_SIZE, AF_split_sectors (keyBytes hdr) LUKS_STRIPES *64 SECTOR_SIZE).

(** [while (j > 0 && ...)] swaps element [j] towards the front. *)
Fixpoint sift_down (off : Z -> Z) (j : nat) (array : list Z) : list Z :=
  match j with
  | O => array
  | S j' =>
      let a := default 0 (array !! j') in
      let b := default 0 (array !! j) in
      if off b <? off a then sift_down off j' (<[j := a]> (<[j' := b]> array)) else array
  end.

(** The insertion sort of the slots by their offset. *)
Fixpoint sort_from (off : Z -> Z) (n i : nat) (array : list Z) : list Z :=
  match n with
  | O => array
  | S n' => sort_from off n' (S i) (sift_down off i array)
  end.

Definition LUKS_sort_keyslots (hdr : luks_phdr) (array : list Z) : list Z :=
  sort_from (fun i => keyMaterialOffset (kb hdr i)) 7 1 array.

Definition sorted_areas (hdr : luks_phdr) : list Z := LUKS_sort_keyslots hdr (seqZ 0 8).

Definition LUKS_device_sectors (hdr : luks_phdr) : Z :=
  keyMaterialOffset (kb hdr (default 0 (sorted_areas hdr !! 7%nat))) +64 AF_split_sectors (keyBytes hdr) LUKS_STRIPES.

Definition LUKS_keyslots_offset (hdr : luks_phdr) : Z :=
  keyMaterialOffset (kb hdr (default 0 (sorted_areas hdr !! 0%nat))).

(** One keyslot against the header and the data area. *)
Definition keyslot_placed (phdr : luks_phdr) (secs_per_stripes i : Z) : bool :=
  let k := kb phdr i in
  if negb (stripes k =? LUKS_STRIPES) then false
  else if u32 (keyMaterialOffset k * SECTOR_SIZE) <? PHDR_SIZE then false
  else if payloadOffset phdr =? 0 then true
  else if payloadOffset phdr <=? keyMaterialOffset k then false
  else negb (payloadOffset phdr <? u32 (keyMaterialOffset k + secs_per_stripes)).

(** 0 or -1 *)
Definition LUKS_check_keyslots (phdr : luks_phdr) : Z :=
  let secs_per_stripes := u32 (AF_split_sectors (keyBytes phdr) LUKS_STRIPES) in
  let sorted := sorted_areas phdr in
  let off i := keyMaterialOffset (kb phdr (default 0 (sorted !! i))) in
  if negb (forallb (keyslot_placed phdr secs_per_stripes) (seqZ 0 8)) then -1
  else if existsb (fun i => off i <? u32 (off (i - 1)%nat + secs_per_stripes)) (seq 1 7) then -1
  else 0.

(** ** Keyslot states *)

Definition is_enabled (k : luks_keyblock) : bool := kb_active k =? LUKS_KEY_ENABLED.

Definition LUKS_keyslot_info (hdr : luks_phdr) (keyslot : Z) : crypt_keyslot_info :=
  if (LUKS_NUMKEYS <=? keyslot) || (keyslot <? 0) then CRYPT_SLOT_INVALID
  else if kb_active (kb hdr keyslot) =? LUKS_KEY_DISABLED then CRYPT_SLOT_INACTIVE
  else if negb (kb_active (kb hdr keyslot) =? LUKS_KEY_ENABLED) then CRYPT_SLOT_INVALID
  else if existsb (fun i => negb (i =? keyslot) && is_enabled (kb hdr i)) (seqZ 0 8) then CRYPT_SLOT_ACTIVE
  else CRYPT_SLOT_ACTIVE_LAST.

(** [ki < CRYPT_SLOT_ACTIVE] *)
Definition slot_not_active (ki : crypt_keyslot_info) : bool :=
  match ki with CRYPT_SLOT_INVALID | CRYPT_SLOT_INACTIVE => true | _ => false end.

Definition LUKS_keyslot_find_empty (hdr : luks_phdr) : Z :=
  default (- EINVAL) (head (filter (fun i => kb_active (kb hdr i) = LUKS_KEY_DISABLED) (seqZ 0 8))).

Definition LUKS_keyslot_active_count (hdr : luks_phdr) : Z :=
  zlen (filter (fun i => kb_active (kb hdr i) = LUKS_KEY_ENABLED) (seqZ 0 8)).

Definition LUKS_keyslot_set (hdr : luks_phdr) (keyslot : Z) (enable : bool) : Z * luks_phdr :=
  if bool_decide (LUKS_keyslot_info hdr keyslot = CRYPT_SLOT_INVALID) then (- EINVAL, hdr)
  else (0, upd_kb keyslot (set_active (if enable then LUKS_KEY_ENABLED else LUKS_KEY_DISABLED)) hdr).

Definition LUKS_keyslot_pbkdf (hdr : luks_phdr) (keyslot : Z) (pbkdf : crypt_pbkdf_type) : Z * crypt_pbkdf_type :=
  if slot_not_active (LUKS_keyslot_info hdr keyslot) then (- EINVAL, pbkdf)
  else (0, PbkdfType (Some CRYPT_KDF_PBKDF2) (Some (string_of_bytes (cstr (hashSpec hdr))))
             0 (passwordIterations (kb hdr keyslot)) 0 0 0).

(** ** Strings of the header *)

(** [_to_lower], at most [max_len] characters. *)
Fixpoint _to_lower (str : bytes) (max_len : nat) : bytes :=
  match str, max_len with
  | c :: str', S n => if bool_decide (c = x00) then str else (if isupper c then tolower c else c) :: _to_lower str' n
  | _, _ => str
  end.

(** memset and strcpy of "ecb" *)
Definition ecb_mode : bytes := strncpy LUKS_CIPHERMODE_L (bytes_of_string "ecb").

Definition LUKS_fix_header_compatible (header : luks_phdr) : luks_phdr :=
  let header := set_hashSpec (_to_lower (hashSpec header) (Z.to_nat LUKS_HASHSPEC_L)) header in
  if bool_decide (slice 0 4 (cipherMode header) = bytes_of_string "ecb-")
  then set_cipher (cipherName header) ecb_mode header else header.

(** [field[n - 1] = 0] *)
Definition terminate (field : bytes) : bytes := splice (zlen field - 1) [x00] field.

(** The C string of a field as the back end takes it. *)
Definition c_string (field : bytes) : string := string_of_bytes (cstr field).

(** ** The environment *)

(** What the operations of one context draw from outside. *)
Record luks1_env := {
  le_wipe : wipe_env;
  le_dm : dm_env;
  (** measurements of the benchmark *)
  le_samples : samples;
  (** [crypt_random_get] of a salt, of the stripes and of the key of a check *)
  le_salt : Z * bytes;
  le_stripes : random_source;
  le_key : Z -> Z * bytes;
  (** uuid_generate(3) *)
  le_uuid : bytes;
  (** [crypt_confirm] *)
  le_confirm : bool;
  (** creation of a backup file, and the bytes a write of the given size stores *)
  le_create_file : bool;
  le_store_file : Z -> Z;
}.

Section luks1.
Context `{CH : CryptHash} `{CM : CryptHmac} `{CC : CryptCipher} `{CP : CryptPbkdf} `{LU : LibUuid}.
Variable env : luks1_env.
Let os : os_env := we_os (le_wipe env).

(** malloc(3) and the allocators of keys and buffers *)
Definition benchmark (pbkdf : crypt_pbkdf_type) (keylength : Z) : M (Z * crypt_pbkdf_type) :=
  match crypt_benchmark_pbkdf_internal (le_samples env) pbkdf keylength with
  | Returns res => mret res
  | _ => fun _ => None
  end.

(** ** Reading and writing the header *)

Definition LUKS_check_device_size (hdr : luks_phdr) (falloc : bool) : M Z :=
  if keyBytes hdr =? 0 then mret (- EINVAL)
  else
    '(r, dev_size) ← device_size os;
    if negb (r =? 0) then mret (- EIO)
    else
      let dev_sectors := Z.shiftr dev_size SECTOR_SHIFT in
      let hdr_sectors := LUKS_device_sectors hdr in
      if dev_sectors <? hdr_sectors then
        r ← (if falloc then device_fallocate (u64 (Z.shiftl hdr_sectors SECTOR_SHIFT)) else mret (-1));
        mret (if falloc && (r =? 0) then 0 else - EINVAL)
      else mret 0.

(** [_check_and_convert_hdr] up to the repair: [None] for an early return. *)
Definition convert_hdr (hdr : luks_phdr) : Z * luks_phdr * bool :=
  let hdr := set_version (be16_to_cpu (ph_version hdr)) hdr in
  if negb (bool_decide (magic hdr = LUKS_MAGIC)) then (- EINVAL, hdr, false)
  else if negb (ph_version hdr =? 1) then (- EINVAL, hdr, false)
  else
    let hdr := set_hashSpec (terminate (hashSpec hdr)) hdr in
    if crypt_hmac_size (cstr (hashSpec hdr)) <? LUKS_DIGESTSIZE then (- EINVAL, hdr, false)
    else
      let hdr := convert_ints be32_to_cpu hdr in
      let r := if negb (LUKS_check_keyslots hdr =? 0) then - EINVAL else 0 in
      let hdr := set_cipher (terminate (cipherName hdr)) (terminate (cipherMode hdr)) hdr in
      (r, set_phdr_uuid (terminate (ph_uuid hdr)) hdr, true).

(** The repair is a parameter here, since it writes the header and reads it
    again, without a repair. *)
Definition _check_and_convert_hdr (keyslot_repair : luks_phdr -> M (Z * luks_phdr)) (hdr : luks_phdr) (repair : bool)
    : M (Z * luks_phdr) :=
  let '(r, hdr, converted) := convert_hdr hdr in
  if (converted : bool) && repair && (r =? - EINVAL) then keyslot_repair hdr else mret (r, hdr).

Definition LUKS_read_phdr_with (keyslot_repair : luks_phdr -> M (Z * luks_phdr)) (hdr : luks_phdr)
    (require_luks_device repair : bool) : M (Z * luks_phdr) :=
  if repair && negb require_luks_device then mret (- EINVAL, hdr)
  else
    devfd ← device_open os O_RDONLY;
    if devfd <? 0 then mret (- EINVAL, hdr)
    else
      '(n, buf) ← dev_read os devfd PHDR_SIZE 0;
      '(r, hdr) ← (if n <? PHDR_SIZE then mret (- EIO, hdr)
                   else _check_and_convert_hdr keyslot_repair (phdr_of_bytes buf) repair);
      r ← (if r =? 0 then LUKS_check_device_size hdr false else mret r);
      (* device_disable_direct_io for unaligned keyslots does not change what is read *)
      mret (r, hdr).

(** Without a repair. *)
Definition LUKS_reread_phdr (hdr : luks_phdr) (require_luks_device : bool) : M (Z * luks_phdr) :=
  LUKS_read_phdr_with (fun hdr => mret (- EINVAL, hdr)) hdr require_luks_device false.

Definition hdr_to_disk (hdr : luks_phdr) : luks_phdr :=
  set_version (cpu_to_be16 (ph_version hdr)) (convert_ints cpu_to_be32 (set_padding (zeros 432) hdr)).

Definition LUKS_write_phdr (hdr : luks_phdr) : M (Z * luks_phdr) :=
  r ← LUKS_check_device_size hdr true;
  if negb (r =? 0) then mret (r, hdr)
  else
    devfd ← device_open os O_RDWR;
    if devfd <? 0 then mret (- EINVAL, hdr)
    else
      w ← dev_write os devfd (phdr_bytes (hdr_to_disk hdr)) PHDR_SIZE 0;
      let r := if w <? PHDR_SIZE then - EIO else 0 in
      _ ← device_sync;
      if r =? 0 then LUKS_reread_phdr hdr true else mret (r, hdr).

(** ** New headers *)

Definition LUKS_check_cipher (keylength : Z) (cipher cipher_mode : string) : M Z :=
  if alloc_fails os keylength then mret (- ENOMEM)
  else
    let '(r, key) := le_key env keylength in
    if negb (r =? 0) then mret r
    else
      '(r, _) ← LUKS_decrypt_from_storage os (le_dm env) SECTOR_SIZE cipher cipher_mode key 0;
      mret r.

(** The offsets of [n] keyslots from sector [header_sectors], and the sector
    behind the last one. *)
Fixpoint place_keyslots (n : nat) (keyslot_sectors header_sectors : Z) : list luks_keyblock * Z :=
  match n with
  | O => ([], header_sectors)
  | S n' =>
      let k := Keyblock LUKS_KEY_DISABLED 0 (zeros 32) (u32 header_sectors) LUKS_STRIPES in
      let '(ks, e) := place_keyslots n' keyslot_sectors
                        (size_round_up (header_sectors +64 keyslot_sectors) (LUKS_ALIGN_KEYSLOTS / SECTOR_SIZE)) in
      (k :: ks, e)
  end.

(** The iterations of the digest, [None] when they do not fit; a quotient of a
    double is exact here. A division by zero is infinite. *)
Definition digest_iterations (pbkdf : crypt_pbkdf_type) : option Z :=
  if has_flag (p_flags pbkdf) CRYPT_PBKDF_NO_BENCHMARK && (p_time_ms pbkdf =? 0) then Some LUKS_MKD_ITERATIONS_MIN
  else if p_time_ms pbkdf =? 0 then None
  else if UINT32_MAX * p_time_ms pbkdf <? p_iterations pbkdf * LUKS_MKD_ITERATIONS_MS then None
  else Some (Z.max (p_iterations pbkdf * LUKS_MKD_ITERATIONS_MS / p_time_ms pbkdf) LUKS_MKD_ITERATIONS_MIN).

(** Checks and layout, before the digest. *)
Definition layout_phdr (keylength : Z) (cipher mode hash : bytes)
    (data_offset align_offset required_alignment : Z) : Z + luks_phdr :=
  if negb (data_offset mod SECTOR_SIZE =? 0) || negb (align_offset mod SECTOR_SIZE =? 0) ||
     negb (required_alignment mod SECTOR_SIZE =? 0) then inl (- EINVAL)
  else
    let '(ks, header_sectors) := place_keyslots 8 (AF_split_sectors keylength LUKS_STRIPES) (LUKS_ALIGN_KEYSLOTS / SECTOR_SIZE) in
    let payload :=
      if negb (data_offset =? 0) then u32 (data_offset / SECTOR_SIZE)
      else if negb (required_alignment =? 0) then
        u32 (u32 (size_round_up header_sectors (required_alignment / SECTOR_SIZE)) + align_offset / SECTOR_SIZE)
      else 0 in
    if negb (payload =? 0) && (payload <? header_sectors) then inl (- EINVAL)
    else if crypt_hmac_size hash <? LUKS_DIGESTSIZE then inl (- EINVAL)
    else
      inr (LUKS_fix_header_compatible
             (Phdr LUKS_MAGIC 1 (strncpy (LUKS_CIPHERNAME_L - 1) cipher ++ [x00]) (strncpy (LUKS_CIPHERMODE_L - 1) mode ++ [x00])
                (strncpy (LUKS_HASHSPEC_L - 1) hash ++ [x00]) payload (u32 keylength) (zeros 20) (zeros 32) 0 (zeros 40) ks (zeros 432))).

(** The UUID of the header: the one given, or a new one. *)
Definition choose_uuid (uuid : option bytes) : option bytes :=
  match uuid with Some s => uuid_parse s | None => Some (le_uuid env) end.

(** uuid_unparse(3) writes the text and a NUL. *)
Definition write_uuid (u : bytes) (field : bytes) : bytes := splice 0 (uuid_unparse u ++ [x00]) field.

(** Code, header and the parameters of the context. Only a complete header is
    used by the callers; [header] is what there was. *)
Definition LUKS_generate_phdr (header : luks_phdr) (pbkdf : crypt_pbkdf_type) (vk cipher mode hash : bytes) (uuid : option bytes)
    (data_offset align_offset required_alignment : Z) : M (Z * luks_phdr * crypt_pbkdf_type) :=
  match layout_phdr (zlen vk) cipher mode hash data_offset align_offset required_alignment with
  | inl r => mret (r, header, pbkdf)
  | inr h =>
      match choose_uuid uuid with
      | None => mret (- EINVAL, header, pbkdf)
      | Some u =>
          let '(r, salt) := le_salt env in
          if r <? 0 then mret (r, h, pbkdf)
          else
            '(r, pbkdf) ← benchmark pbkdf (zlen vk);
            if r <? 0 then mret (r, h, pbkdf)
            else
              _ ← assert (negb (p_iterations pbkdf =? 0));
              match digest_iterations pbkdf with
              | None => mret (- EINVAL, h, pbkdf)
              | Some iterations =>
                  let '(r, digest) := crypt_pbkdf CRYPT_KDF_PBKDF2 (cstr (hashSpec h)) vk salt LUKS_DIGESTSIZE iterations 0 0 in
                  if r <? 0 then mret (r, h, pbkdf)
                  else mret (0, set_phdr_uuid (write_uuid u (ph_uuid h)) (set_digest digest salt iterations h), pbkdf)
              end
      end
  end.

Definition LUKS_hdr_uuid_set (hdr : luks_phdr) (uuid : option bytes) : M (Z * luks_phdr) :=
  match choose_uuid uuid with
  | None => mret (- EINVAL, hdr)
  | Some u => LUKS_write_phdr (set_phdr_uuid (write_uuid u (ph_uuid hdr)) hdr)
  end.

(** ** Repair *)

(** The repair of slot [i] after the regenerated header: the slot, and whether
    it was bad. The bytes 0x1fe and 0x1ff of the header are bytes 6 and 7 of
    the salt of slot 6. *)
Definition repair_keyblock (i : Z) (k temp : luks_keyblock) : luks_keyblock * bool :=
  if kb_active k =? LUKS_KEY_ENABLED then (k, false)
  else
    let bad_offset := negb (keyMaterialOffset k =? keyMaterialOffset temp) in
    let bad_stripes := negb (stripes k =? stripes temp) in
    let signature := (i =? 6) && bool_decide (slice 6 2 (passwordSalt k) = [x55; xaa]) in
    let k := set_material (keyMaterialOffset temp) (stripes temp) k in
    if bad_offset || bad_stripes || signature
    then (set_password 0 (zeros 32) (set_active LUKS_KEY_DISABLED k), true) else (k, false).

Definition repair_keyblocks (phdr temp : luks_phdr) : list (luks_keyblock * bool) :=
  (fun i => repair_keyblock i (kb phdr i) (kb temp i)) <$> seqZ 0 8.

Definition _keyslot_repair (pbkdf : crypt_pbkdf_type) (phdr : luks_phdr) : M (Z * luks_phdr) :=
  if negb (bool_decide (keyBytes phdr ∈ [16; 32; 64])) then mret (- EINVAL, phdr)
  else if keyMaterialOffset (kb phdr 0) <? LUKS_ALIGN_KEYSLOTS / SECTOR_SIZE then mret (- EINVAL, phdr)
  else
    r ← LUKS_check_cipher (keyBytes phdr) (c_string (cipherName phdr)) (c_string (cipherMode phdr));
    if r <? 0 then mret (- EINVAL, phdr)
    else if alloc_fails os (keyBytes phdr) then mret (- ENOMEM, phdr)
    else
      '(r, temp_phdr, _) ← LUKS_generate_phdr phdr pbkdf (zeros (Z.to_nat (keyBytes phdr))) (cstr (cipherName phdr))
                             (cstr (cipherMode phdr)) (cstr (hashSpec phdr)) (Some (cstr (ph_uuid phdr)))
                             (u32 (payloadOffset phdr * SECTOR_SIZE)) 0 0;
      if r <? 0 then mret (r, phdr)
      else
        let repaired := repair_keyblocks phdr temp_phdr in
        let phdr := set_keyblocks (fst <$> repaired) phdr in
        if negb (LUKS_check_keyslots phdr =? 0) then mret (- EINVAL, phdr)
        else if existsb snd repaired then LUKS_write_phdr phdr
        else mret (r, phdr).

Definition LUKS_read_phdr (pbkdf : crypt_pbkdf_type) (hdr : luks_phdr) (require_luks_device repair : bool) : M (Z * luks_phdr) :=
  LUKS_read_phdr_with (_keyslot_repair pbkdf) hdr require_luks_device repair.

(** ** Keyslots *)

(** Code, header and the parameters of the context. [keyIndex] is a slot. *)
Definition LUKS_set_key (pbkdf : crypt_pbkdf_type) (keyIndex : Z) (password : bytes) (hdr : luks_phdr) (vk : bytes)
    : M (Z * luks_phdr * crypt_pbkdf_type) :=
  if negb (kb_active (kb hdr keyIndex) =? LUKS_KEY_DISABLED) then mret (- EINVAL, hdr, pbkdf)
  else if stripes (kb hdr keyIndex) <? 4000 then mret (- EINVAL, hdr, pbkdf)
  else
    '(r, pbkdf) ← benchmark pbkdf (zlen vk);
    if r <? 0 then mret (r, hdr, pbkdf)
    else
      _ ← assert (negb (p_iterations pbkdf =? 0));
      let iterations := Z.max (p_iterations pbkdf) LUKS_SLOT_ITERATIONS_MIN in
      let hdr := upd_kb keyIndex (set_password iterations (passwordSalt (kb hdr keyIndex))) hdr in
      if alloc_fails os (keyBytes hdr) then mret (- ENOMEM, hdr, pbkdf)
      else
        let '(r, salt) := le_salt env in
        if r <? 0 then mret (r, hdr, pbkdf)
        else
          let hdr := upd_kb keyIndex (set_password iterations salt) hdr in
          let hash := cstr (hashSpec hdr) in
          let '(r, derived_key) := crypt_pbkdf CRYPT_KDF_PBKDF2 hash password salt (keyBytes hdr) iterations 0 0 in
          if r <? 0 then mret (r, hdr, pbkdf)
          else
            _ ← assert (zlen vk =? keyBytes hdr);
            let k := kb hdr keyIndex in
            let AFEKSize := AF_split_sectors (zlen vk) (stripes k) *64 SECTOR_SIZE in
            if safe_alloc_fails os AFEKSize then mret (- ENOMEM, hdr, pbkdf)
            else
              let '(r, AfKey) := AF_split (le_stripes env) vk (zeros (Z.to_nat AFEKSize)) (zlen vk) (stripes k) hash in
              if r <? 0 then mret (r, hdr, pbkdf)
              else
                r ← LUKS_encrypt_to_storage os (le_dm env) AfKey AFEKSize (c_string (cipherName hdr)) (c_string (cipherMode hdr))
                      derived_key (keyMaterialOffset k);
                if r <? 0 then mret (r, hdr, pbkdf)
                else
                  let '(r, hdr) := LUKS_keyslot_set hdr keyIndex true in
                  if r <? 0 then mret (r, hdr, pbkdf)
                  else
                    '(r, hdr) ← LUKS_write_phdr hdr;
                    mret (if r <? 0 then r else 0, hdr, pbkdf).

Definition LUKS_verify_volume_key (hdr : luks_phdr) (vk : bytes) : Z :=
  let '(r, checkHashBuf) :=
    crypt_pbkdf CRYPT_KDF_PBKDF2 (cstr (hashSpec hdr)) vk (mkDigestSalt hdr) LUKS_DIGESTSIZE (mkDigestIterations hdr) 0 0 in
  if r <? 0 then - EINVAL
  else if negb (bool_decide (checkHashBuf = mkDigest hdr)) then - EPERM else 0.

(** Code and the volume key, which is freed on an error. *)
Definition LUKS_open_key (keyIndex : Z) (password : bytes) (hdr : luks_phdr) : M (Z * bytes) :=
  if slot_not_active (LUKS_keyslot_info hdr keyIndex) then mret (- ENOENT, [])
  else if alloc_fails os (keyBytes hdr) then mret (- ENOMEM, [])
  else
    let k := kb hdr keyIndex in
    let hash := cstr (hashSpec hdr) in
    let AFEKSize := AF_split_sectors (keyBytes hdr) (stripes k) *64 SECTOR_SIZE in
    if safe_alloc_fails os AFEKSize then mret (- ENOMEM, [])
    else
      let '(r, derived_key) :=
        crypt_pbkdf CRYPT_KDF_PBKDF2 hash password (passwordSalt k) (keyBytes hdr) (passwordIterations k) 0 0 in
      if r <? 0 then mret (r, [])
      else
        '(r, AfKey) ← LUKS_decrypt_from_storage os (le_dm env) AFEKSize (c_string (cipherName hdr)) (c_string (cipherMode hdr))
                        derived_key (keyMaterialOffset k);
        if r <? 0 then mret (r, [])
        else
          let '(r, vk) := AF_merge AfKey (zeros (Z.to_nat (keyBytes hdr))) (keyBytes hdr) (stripes k) hash in
          if r <? 0 then mret (r, [])
          else
            let r := LUKS_verify_volume_key hdr vk in
            let r := if (r =? 0) && crypt_is_cipher_null (Some (c_string (cipherName hdr))) && negb (zlen password =? 0)
                     then - EPERM else r in
            mret (if r <? 0 then (r, []) else (r, vk)).

(** The slots from [i] on; [tried] when a password was wrong. *)
Fixpoint open_any (n : nat) (i : Z) (tried : bool) (password : bytes) (hdr : luks_phdr) : M (Z * bytes) :=
  match n with
  | O => mret (if tried then - EPERM else - ENOENT, [])
  | S n' =>
      '(r, vk) ← LUKS_open_key i password hdr;
      if r =? 0 then mret (i, vk)
      else if negb (r =? - EPERM) && negb (r =? - ENOENT) then mret (r, vk)
      else open_any n' (i + 1) (tried || (r =? - EPERM)) password hdr
  end.

Definition LUKS_open_key_with_hdr (keyIndex : Z) (password : bytes) (hdr : luks_phdr) : M (Z * bytes) :=
  if 0 <=? keyIndex then
    '(r, vk) ← LUKS_open_key keyIndex password hdr;
    mret (if r <? 0 then r else keyIndex, vk)
  else open_any 8 0 false password hdr.

Definition LUKS_del_key (keyIndex : Z) (hdr : luks_phdr) : M (Z * luks_phdr) :=
  '(r, hdr) ← LUKS_reread_phdr hdr true;
  if negb (r =? 0) then mret (r, hdr)
  else
    let '(r, hdr) := LUKS_keyslot_set hdr (i32 keyIndex) false in
    if negb (r =? 0) then mret (r, hdr)
    else
      let k := kb hdr keyIndex in
      let startOffset := keyMaterialOffset k in
      let endOffset := u32 (startOffset + AF_split_sectors (keyBytes hdr) (stripes k)) in
      let length := u32 (u32 (endOffset - startOffset) * SECTOR_SIZE) in
      r ← crypt_wipe_device (le_wipe env) CRYPT_WIPE_SPECIAL (u32 (startOffset * SECTOR_SIZE)) length length;
      if negb (r =? 0) then mret (if r =? - EACCES then - EINVAL else r, hdr)
      else LUKS_write_phdr (upd_kb keyIndex (set_password 0 (zeros 32)) hdr).

(** [n] keyslots from [i]; [r] is the code of the last wipe. *)
Fixpoint wipe_keyslots (n : nat) (i r : Z) (hdr : luks_phdr) : M Z :=
  match n with
  | O => mret r
  | S n' =>
      let '(r1, offset, length) := LUKS_keyslot_area hdr i in
      if r1 <? 0 then mret r1
      else if (LUKS_MAX_KEYSLOT_SIZE <? length) || (LUKS_MAX_KEYSLOT_SIZE -64 length <? offset)
      then wipe_keyslots n' (i + 1) r1 hdr
      else if (length =? 0) || (offset <? 4096) then mret (- EINVAL)
      else
        r ← crypt_wipe_device (le_wipe env) CRYPT_WIPE_RANDOM offset length (1024 * 1024);
        if r <? 0 then mret r else wipe_keyslots n' (i + 1) r hdr
  end.

Definition LUKS_wipe_header_areas (hdr : luks_phdr) : M Z :=
  let length := payloadOffset hdr *64 SECTOR_SIZE in
  let '(length, wipe_block) :=
    if (length =? 0) || (LUKS_MAX_KEYSLOT_SIZE * LUKS_NUMKEYS <? length) then (4096, 4096) else (length, 1024 * 1024) in
  r ← crypt_wipe_device (le_wipe env) CRYPT_WIPE_ZERO 0 length wipe_block;
  if r <? 0 then mret r else wipe_keyslots 8 0 r hdr.

(** ** Backup and restore *)

(** Code and the contents of the new file. *)
Definition LUKS_hdr_backup (pagesize : Z) : M (Z * option bytes) :=
  '(r, hdr) ← LUKS_reread_phdr (phdr_of_bytes []) true;
  if negb (r =? 0) then mret (r, None)
  else
    let hdr_size := u64 (Z.shiftl (LUKS_device_sectors hdr) SECTOR_SHIFT) in
    let buffer_size := size_round_up hdr_size pagesize in
    if safe_alloc_fails os buffer_size || (hdr_size <? LUKS_ALIGN_KEYSLOTS) || (buffer_size <? hdr_size) then mret (- ENOMEM, None)
    else
      devfd ← device_open os O_RDONLY;
      if devfd <? 0 then mret (- EINVAL, None)
      else
        '(n, buf) ← dev_read os devfd hdr_size 0;
        if n <? i64 hdr_size then mret (- EIO, None)
        else
          let buffer := buf ++ zeros (Z.to_nat (buffer_size - hdr_size)) in
          let buffer :=
            if u32 (keyMaterialOffset (kb hdr 0) * SECTOR_SIZE) =? LUKS_ALIGN_KEYSLOTS
            then splice PHDR_SIZE (zeros (Z.to_nat (LUKS_ALIGN_KEYSLOTS - PHDR_SIZE))) buffer else buffer in
          if negb (le_create_file env) then mret (- EINVAL, None)
          else
            let ret := le_store_file env buffer_size in
            mret (if ret <? i64 buffer_size then - EIO else 0, Some (take (Z.to_nat ret) buffer)).

(** The file as it is opened: [None] when it cannot be. *)
Definition LUKS_read_phdr_backup (backup_file : option file) (hdr : luks_phdr) : Z * luks_phdr :=
  match backup_file with
  | None => (- ENOENT, hdr)
  | Some f =>
      let '(n, buf, _) := read_buffer 0 PHDR_SIZE f in
      if n <? PHDR_SIZE then (- EIO, hdr)
      else
        let '(r, hdr, _) := convert_hdr (LUKS_fix_header_compatible (phdr_of_bytes buf)) in
        (r, hdr)
  end.

Definition LUKS_hdr_restore (backup_file : option file) (hdr : luks_phdr) : M (Z * luks_phdr) :=
  let '(r, hdr_file) := LUKS_read_phdr_backup backup_file (phdr_of_bytes []) in
  if r =? - ENOENT then mret (r, hdr)
  else
    let out r hdr := _ ← device_sync; mret (r, hdr) in
    let buffer_size := if r =? 0 then i64 (Z.shiftl (LUKS_device_sectors hdr_file) SECTOR_SHIFT) else 0 in
    if negb (r =? 0) || (buffer_size <? LUKS_ALIGN_KEYSLOTS) then out (- EINVAL) hdr
    else if safe_alloc_fails os buffer_size then out (- ENOMEM) hdr
    else match backup_file with
    | None => out (- EINVAL) hdr
    | Some f =>
        let '(n, buffer, _) := read_buffer 0 buffer_size f in
        if n <? buffer_size then out (- EIO) hdr
        else
          '(r, hdr) ← LUKS_reread_phdr hdr false;
          if (r =? 0) && (negb (payloadOffset hdr =? payloadOffset hdr_file) || negb (keyBytes hdr =? keyBytes hdr_file))
          then out (- EINVAL) hdr
          else if negb (le_confirm env) then out (- EINVAL) hdr
          else
            devfd ← device_open os O_RDWR;
            if devfd <? 0 then out (- EINVAL) hdr
            else
              w ← dev_write os devfd buffer buffer_size 0;
              if w <? buffer_size then out (- EIO) hdr
              else
                '(r, hdr) ← LUKS_reread_phdr hdr true;
                out r hdr
    end.
End luks1.
