(* ===== verification/Luks1Facts.v ===== *)
(** * Luks1Facts: facts about keyslot material and the LUKS1 header

    The stripes of a key and the areas that hold them, shared with LUKS2; the struct and its bytes, byte order, the insertion sort of the keyslots
    and what the check of the keyslots means for their areas. *)

From S2P Require Import Prelude UtilsIO CryptBackend UtilsCrypt CryptStorage StorageWrapper Pbkdf Luks2Json Device Wipe WipeProps AF Luks2Keyslot Luks2Areas KeyEncryption Cstd Luks1.
From Stdlib Require Import Permutation Strings.Byte.

(** * Facts about the material of a keyslot *)

(** ** Sizes *)

Lemma AF_split_sectors_range bs n : 0 <= AF_split_sectors bs n < 2 ^ 55.
Proof.
  unfold AF_split_sectors, SECTOR_SIZE. pose proof (u64_range (u64 (bs * n) + (512 - 1))) as H. unfold in_u in H.
  split; [apply Z.div_pos; lia|apply Z.div_lt_upper_bound; lia].
Qed.

(** Bytes of the stripes of a key of [bs] bytes, in whole sectors. *)
Definition material_bytes (bs : Z) : Z := AF_split_sectors bs LUKS_STRIPES * SECTOR_SIZE.

Lemma material_bytes_size bs : AF_split_sectors bs LUKS_STRIPES *64 SECTOR_SIZE = material_bytes bs.
Proof.
  unfold material_bytes. apply u64_id. unfold SECTOR_SIZE.
  pose proof (AF_split_sectors_range bs LUKS_STRIPES). lia.
Qed.

Lemma material_bytes_fits bs : in_u 32 bs -> bs * LUKS_STRIPES <= material_bytes bs.
Proof.
  unfold in_u. intros Hk. unfold material_bytes, AF_split_sectors, LUKS_STRIPES, SECTOR_SIZE.
  rewrite (u64_id (bs * 4000)) by lia. rewrite u64_id by lia.
  pose proof (Z.div_mod (bs * 4000 + (512 - 1)) 512 ltac:(lia)).
  pose proof (Z.mod_pos_bound (bs * 4000 + (512 - 1)) 512 ltac:(lia)). lia.
Qed.

Lemma material_bytes_sectors bs : 0 <= material_bytes bs /\ (512 | material_bytes bs).
Proof.
  unfold material_bytes, SECTOR_SIZE. pose proof (AF_split_sectors_range bs LUKS_STRIPES). split; [lia|]. by apply Z.divide_factor_r.
Qed.

Lemma aligned_512 len : (512 | len) -> (MISALIGNED_512 len =? 0) = true.
Proof. apply misaligned_512_divide. Qed.

(** The memory that a key and its stripes need. *)
Lemma key_memory os bs :
  in_u 32 bs -> 0 < bs -> material_bytes bs <= mem_limit os -> safe_alloc_fails os (material_bytes bs) = false.
Proof.
  intros Hbs Hp Hm. unfold safe_alloc_fails, alloc_fails. rewrite (proj2 (Z.ltb_ge _ _) Hm), orb_false_r. apply Z.eqb_neq.
  pose proof (material_bytes_fits bs Hbs) as Ha. unfold LUKS_STRIPES in Ha. lia.
Qed.

(** ** Stripes of a key *)

Section stripes.
Context `{CHL : CryptHashLaws}.

Lemma split_key_material rnd vk hash :
  in_u 32 (zlen vk) -> 0 < zlen vk -> 0 < crypt_hash_size hash -> random_ok rnd (zlen vk) -> LUKS_STRIPES - 1 <= zlen rnd ->
  exists st, AF_split rnd vk (zeros (Z.to_nat (material_bytes (zlen vk)))) (zlen vk) LUKS_STRIPES hash = (0, st) /\
    zlen st = material_bytes (zlen vk) /\ forall dst, AF_merge st dst (zlen vk) LUKS_STRIPES hash = (0, vk).
Proof.
  intros Hk Hk0 Hh Hr Hn. pose proof (material_bytes_fits (zlen vk) Hk) as Hf. unfold in_u in Hk.
  set (area := material_bytes (zlen vk)) in *.
  assert (Hzz : zlen (zeros (Z.to_nat area)) = area).
  { unfold zlen, zeros. rewrite length_replicate. unfold LUKS_STRIPES in Hf. lia. }
  assert (Hm : forall dst, exists st, AF_split rnd vk (zeros (Z.to_nat area)) (zlen vk) LUKS_STRIPES hash = (0, st) /\
    zlen st = area /\ AF_merge st dst (zlen vk) LUKS_STRIPES hash = (0, vk)).
  { intros dst. destruct (merge_split rnd vk (zeros (Z.to_nat area)) dst (zlen vk) LUKS_STRIPES hash)
      as (st & E & Hs & M); try done; [lia|lia|]. exists st. by rewrite Hs. }
  destruct (Hm []) as (st & E & Hs & _). exists st. split; [done|]. split; [done|]. intros dst.
  destruct (Hm dst) as (st' & E' & _ & M). congruence.
Qed.
End stripes.

(** ** Areas on the device *)

(** The area of [len] bytes from a sector: whole sectors of the device, in its
    first 4 GiB. *)
Record area_at (sector len : Z) (d : device) : Prop := {
  aa_sector : 0 <= sector;
  aa_len : 0 <= len /\ (512 | len);
  aa_device : sector * SECTOR_SIZE + len <= f_size (d_file d);
  aa_wrap : sector * SECTOR_SIZE < 2 ^ 32;
}.

Lemma sector_offset_id sector len d : area_at sector len d -> sector_offset sector = sector * SECTOR_SIZE.
Proof. intros [H1 H2 H3 H4]. unfold sector_offset, SECTOR_SIZE in *. apply u32_id. lia. Qed.

(** ** The struct *)

Record keyblock_ok (k : luks_keyblock) : Prop := {
  ko_active : in_u 32 (kb_active k);
  ko_iterations : in_u 32 (passwordIterations k);
  ko_salt : zlen (passwordSalt k) = 32;
  ko_offset : in_u 32 (keyMaterialOffset k);
  ko_stripes : in_u 32 (stripes k);
}.

(** The sizes of the fields and the ranges of the integers. *)
Record phdr_ok (h : luks_phdr) : Prop := {
  po_magic : zlen (magic h) = 6;
  po_version : in_u 16 (ph_version h);
  po_cipherName : zlen (cipherName h) = 32;
  po_cipherMode : zlen (cipherMode h) = 32;
  po_hashSpec : zlen (hashSpec h) = 32;
  po_payload : in_u 32 (payloadOffset h);
  po_keyBytes : in_u 32 (keyBytes h);
  po_digest : zlen (mkDigest h) = 20;
  po_salt : zlen (mkDigestSalt h) = 32;
  po_iterations : in_u 32 (mkDigestIterations h);
  po_uuid : zlen (ph_uuid h) = 40;
  po_length : length (keyblock h) = 8%nat;
  po_keyblock : Forall keyblock_ok (keyblock h);
  po_padding : zlen (_padding h) = 432;
}.

Lemma zlen_le_encode n z : zlen (le_encode n z) = Z.of_nat n.
Proof. unfold zlen. by rewrite length_le_encode. Qed.

Lemma zlen_join_cons (a : bytes) l : zlen (mjoin (a :: l)) = zlen a + zlen (mjoin l).
Proof. apply (zlen_app a (mjoin l)). Qed.

Lemma le_decode_encode_id n z : in_u (8 * Z.of_nat n) z -> le_decode (le_encode n z) = z.
Proof.
  intros Hz. rewrite le_decode_encode. by apply wrap_id.
Qed.

Lemma zlen_keyblock_bytes k : zlen (passwordSalt k) = 32 -> zlen (keyblock_bytes k) = 48.
Proof.
  intros Hs. unfold keyblock_bytes. rewrite !zlen_join_cons, !zlen_le_encode. change (zlen (mjoin [])) with 0. lia.
Qed.

Lemma keyblock_of_keyblock_bytes k : keyblock_ok k -> keyblock_of_bytes (keyblock_bytes k) = k.
Proof.
  intros [H1 H2 H3 H4 H5]. unfold keyblock_of_bytes, keyblock_bytes. destruct k as [a it salt off st]. cbn [kb_active passwordIterations passwordSalt keyMaterialOffset stripes] in *.
  f_equal; repeat (erewrite slice_join_tail; [|first [apply zlen_le_encode|eassumption]|lia]);
    rewrite slice_join_head by first [apply zlen_le_encode|assumption];
    first [by apply le_decode_encode_id|done].
Qed.

(** Field [i] of an array of records of the same size. *)
Lemma slice_join_nth n (ls : list bytes) i x :
  Forall (fun l => zlen l = n) ls -> ls !! i = Some x -> 0 <= n -> slice (n * Z.of_nat i) n (mjoin ls) = x.
Proof.
  intros Hall. revert i. induction Hall as [|l ls Hl Hall IH]; intros i Hi Hn; [done|].
  destruct i as [|i]; cbn in Hi.
  - simplify_eq. rewrite Z.mul_0_r. by apply slice_join_head.
  - rewrite (slice_join_tail _ _ _ _ n) by (try done; lia).
    replace (n * Z.of_nat (S i) - n) with (n * Z.of_nat i) by lia. by apply IH.
Qed.

Lemma zlen_join_const n (ls : list bytes) : Forall (fun l => zlen l = n) ls -> zlen (mjoin ls) = n * zlen ls.
Proof.
  induction 1 as [|l ls Hl _ IH]; [by rewrite Z.mul_0_r|].
  rewrite zlen_join_cons, IH, Hl. unfold zlen. cbn [length]. lia.
Qed.

Lemma phdr_keyblocks h :
  phdr_ok h -> Forall (fun l => zlen l = 48) (keyblock_bytes <$> keyblock h) /\
  zlen (mjoin (keyblock_bytes <$> keyblock h)) = 384.
Proof.
  intros Hok. assert (Hf : Forall (fun l => zlen l = 48) (keyblock_bytes <$> keyblock h)).
  { apply Forall_fmap. eapply Forall_impl; [apply (po_keyblock _ Hok)|]. intros k Hk. apply zlen_keyblock_bytes, Hk. }
  split; [done|]. rewrite (zlen_join_const 48) by done. unfold zlen. rewrite length_fmap, (po_length _ Hok). done.
Qed.

(** The keyblocks that the code finds at their offsets. *)
Lemma keyblocks_at (ks : list luks_keyblock) (f : Z -> luks_keyblock) :
  length ks = 8%nat -> (forall i k, ks !! i = Some k -> f (Z.of_nat i) = k) -> f <$> seqZ 0 8 = ks.
Proof.
  intros Hl Hf. apply list_eq_same_length with 8%nat; [done|by rewrite length_fmap, length_seqZ|].
  intros i x y Hi Hx Hy. apply list_lookup_fmap_Some in Hx as (z & -> & Hz).
  apply lookup_seqZ in Hz as [-> _]. rewrite Z.add_0_l. by apply Hf.
Qed.

Lemma phdr_of_phdr_bytes h : phdr_ok h -> phdr_of_bytes (phdr_bytes h) = h.
Proof.
  intros Hok. destruct (phdr_keyblocks h Hok) as [Hkb Hkz].
  destruct Hok as [H1 H2 H3 H4 H5 H6 H7 H8 H9 H10 H11 H12 H13 H14].
  unfold phdr_of_bytes, phdr_bytes. destruct h as [m v cn cm hs po kbs md ms mi uu ks pad].
  cbn [magic ph_version cipherName cipherMode hashSpec payloadOffset keyBytes mkDigest mkDigestSalt mkDigestIterations
       ph_uuid keyblock _padding] in *.
  f_equal; [..|]; try (repeat (erewrite slice_join_tail; [|first [apply zlen_le_encode|eassumption]|lia]);
    rewrite slice_join_head by first [apply zlen_le_encode|assumption];
    first [by apply le_decode_encode_id|done]).
  apply keyblocks_at; [done|]. intros i k Hi.
  assert (Hi8 : (i < 8)%nat) by (rewrite <-H12; by eapply lookup_lt_Some).
  repeat (erewrite slice_join_tail; [|first [apply zlen_le_encode|eassumption]|lia]).
  match goal with |- keyblock_of_bytes (slice ?o _ _) = _ => replace o with (48 * Z.of_nat i) by lia end.
  change (mjoin (mjoin (keyblock_bytes <$> ks) :: ?l)) with (mjoin (keyblock_bytes <$> ks) ++ mjoin l).
  rewrite slice_app_l by lia. rewrite (slice_join_nth 48 _ _ (keyblock_bytes k)); [|done|by rewrite list_lookup_fmap, Hi|lia].
  apply keyblock_of_keyblock_bytes. by eapply Forall_lookup_1.
Qed.

Lemma zlen_phdr_bytes h : phdr_ok h -> zlen (phdr_bytes h) = PHDR_SIZE.
Proof.
  intros Hok. destruct (phdr_keyblocks h Hok) as [_ Hkz].
  destruct Hok as [H1 H2 H3 H4 H5 H6 H7 H8 H9 H10 H11 H12 H13 H14]. unfold phdr_bytes.
  rewrite !zlen_join_cons, !zlen_le_encode, Hkz. change (zlen (mjoin [])) with 0. unfold PHDR_SIZE. lia.
Qed.

(** ** Byte order *)

Lemma be32_of_cpu x : in_u 32 x -> be32_to_cpu (cpu_to_be32 x) = x.
Proof.
  intros Hx. unfold be32_to_cpu, cpu_to_be32.
  replace (le_encode 4 (le_decode (be_encode 4 x))) with (be_encode 4 x).
  - rewrite be_decode_encode. by apply wrap_id.
  - rewrite <-(le_encode_decode (be_encode 4 x)) at 1. by rewrite length_be_encode.
Qed.

Lemma be16_of_cpu x : in_u 16 x -> be16_to_cpu (cpu_to_be16 x) = x.
Proof.
  intros Hx. unfold be16_to_cpu, cpu_to_be16.
  replace (le_encode 2 (le_decode (be_encode 2 x))) with (be_encode 2 x).
  - rewrite be_decode_encode. by apply wrap_id.
  - rewrite <-(le_encode_decode (be_encode 2 x)) at 1. by rewrite length_be_encode.
Qed.

Lemma cpu_to_be32_range x : in_u 32 (cpu_to_be32 x).
Proof.
  unfold cpu_to_be32, in_u. pose proof (le_decode_range (be_encode 4 x)) as H.
  rewrite length_be_encode in H. change (256 ^ Z.of_nat 4) with (2 ^ 32) in H. done.
Qed.

Lemma cpu_to_be16_range x : in_u 16 (cpu_to_be16 x).
Proof.
  unfold cpu_to_be16, in_u. pose proof (le_decode_range (be_encode 2 x)) as H.
  rewrite length_be_encode in H. change (256 ^ Z.of_nat 2) with (2 ^ 16) in H. done.
Qed.

Lemma keyblock_convert_back k : keyblock_ok k -> convert_keyblock be32_to_cpu (convert_keyblock cpu_to_be32 k) = k.
Proof.
  intros []. destruct k as [a it sa off st]. unfold convert_keyblock. cbn [kb_active passwordIterations passwordSalt keyMaterialOffset stripes] in *.
  by rewrite !be32_of_cpu. Qed.

Lemma convert_back h : phdr_ok h -> convert_ints be32_to_cpu (convert_ints cpu_to_be32 h) = h.
Proof.
  intros Hok. pose proof (po_keyblock _ Hok) as Hk. destruct Hok.
  destruct h as [m v cn cm hs po kbs md ms mi uu ks pad]. unfold convert_ints.
  cbn [magic ph_version cipherName cipherMode hashSpec payloadOffset keyBytes mkDigest mkDigestSalt mkDigestIterations
    ph_uuid keyblock _padding] in *. rewrite !be32_of_cpu by done.
  f_equal. rewrite <-list_fmap_compose. rewrite <-(list_fmap_id ks) at 2.
  apply list_fmap_ext. intros i k Hi. cbn. apply keyblock_convert_back. by eapply Forall_lookup_1.
Qed.

Lemma hdr_to_disk_ok h : phdr_ok h -> phdr_ok (hdr_to_disk h).
Proof.
  intros []. unfold hdr_to_disk. split; cbn -[zeros]; try assumption; try apply cpu_to_be32_range; try apply cpu_to_be16_range; try reflexivity.
  - by rewrite length_fmap.
  - apply Forall_fmap. eapply Forall_impl; [eassumption|]. intros k []. split; cbn; try assumption; apply cpu_to_be32_range.
Qed.

(** ** The insertion sort *)

Section sort.
Variable off : Z -> Z.

(** The offset of the slot at a position of the array. *)
Definition at_pos (array : list Z) (p : nat) : Z := off (default 0 (array !! p)).

Lemma swap_adjacent {A} j (l : list A) a b : l !! j = Some a -> l !! S j = Some b -> <[S j := a]> (<[j := b]> l) ≡ₚ l.
Proof.
  revert j. induction l as [|x l IH]; intros j Ha Hb; [done|]. destruct j as [|j]; cbn in *.
  - simplify_eq. destruct l as [|y l]; [done|]. cbn in *. simplify_eq. apply perm_swap.
  - apply perm_skip. by apply IH.
Qed.

(** Positions up to [m] but [j] are in order, and [j] is not above those
    behind it: the element that moves to the front. *)
Definition sorted_but (m j : nat) (array : list Z) : Prop :=
  (forall p q, (p < q <= m)%nat -> p <> j -> q <> j -> at_pos array p <= at_pos array q) /\
  (forall q, (j < q <= m)%nat -> at_pos array j <= at_pos array q).

Definition sorted_upto (m : nat) (array : list Z) : Prop :=
  forall p q, (p < q <= m)%nat -> at_pos array p <= at_pos array q.

Lemma sift_down_spec m j array :
  (j <= m < length array)%nat -> sorted_but m j array ->
  sift_down off j array ≡ₚ array /\ sorted_upto m (sift_down off j array).
Proof.
  revert array. induction j as [|j IH]; intros array Hm [H1 H2]; cbn [sift_down].
  { split; [done|]. intros p q Hpq. destruct p as [|p]; [by apply H2|]. apply H1; lia. }
  destruct (lookup_lt_is_Some_2 array j ltac:(lia)) as [a Ha]. destruct (lookup_lt_is_Some_2 array (S j) ltac:(lia)) as [b Hb].
  rewrite Ha, Hb. cbn [default]. assert (Ea : at_pos array j = off a) by (unfold at_pos; by rewrite Ha).
  assert (Eb : at_pos array (S j) = off b) by (unfold at_pos; by rewrite Hb). unfold id.
  destruct (Z.ltb_spec (off b) (off a)) as [Hlt|Hge].
  - set (array1 := <[S j:=a]> (<[j:=b]> array)).
    assert (Hp : array1 ≡ₚ array) by by apply swap_adjacent.
    assert (G1 : at_pos array1 (S j) = off a).
    { unfold at_pos, array1. by rewrite list_lookup_insert_eq by (rewrite length_insert; lia). }
    assert (G2 : at_pos array1 j = off b).
    { unfold at_pos, array1. rewrite list_lookup_insert_ne by lia. by rewrite list_lookup_insert_eq by lia. }
    assert (G3 : forall p, p <> j -> p <> S j -> at_pos array1 p = at_pos array p).
    { intros p P1 P2. unfold at_pos, array1. by rewrite !list_lookup_insert_ne by lia. }
    destruct (IH array1) as [P S']; [unfold array1; rewrite !length_insert; lia| |].
    + split.
      * intros p q Hpq Pp Pq. destruct (decide (q = S j)) as [->|]; [|destruct (decide (p = S j)) as [->|]].
        -- rewrite G1, G3, <-Ea by lia. apply H1; lia.
        -- rewrite G1, G3, <-Ea by lia. apply H1; lia.
        -- rewrite !G3 by lia. apply H1; lia.
      * intros q Hq. rewrite G2. destruct (decide (q = S j)) as [->|]; [rewrite G1; lia|].
        rewrite G3, <-Eb by lia. apply H2; lia.
    + split; [by rewrite P|done].
  - split; [done|]. intros p q Hpq. destruct (decide (p = S j)) as [->|Hp]; [apply H2; lia|].
    destruct (decide (q = S j)) as [->|Hq]; [|apply H1; lia].
    destruct (decide (p = j)) as [->|]; [lia|]. transitivity (at_pos array j); [apply H1; lia|lia].
Qed.

Lemma sort_from_spec n i array :
  (1 <= i)%nat -> length array = (i + n)%nat -> sorted_upto (i - 1) array ->
  sort_from off n i array ≡ₚ array /\ sorted_upto (i + n - 1) (sort_from off n i array).
Proof.
  revert i array. induction n as [|n IH]; intros i array Hi Hl Hs; cbn [sort_from].
  { split; [done|]. by rewrite Nat.add_0_r. }
  destruct (sift_down_spec i i array) as [P So]; [lia| |].
  { split; [intros p q Hpq Hp Hq; apply Hs; lia|intros q; lia]. }
  destruct (IH (S i) (sift_down off i array)) as [P' So']; [lia|rewrite P; lia|by replace (S i - 1)%nat with i by lia|].
  split; [by rewrite P'|]. by replace (i + S n - 1)%nat with (S i + n - 1)%nat by lia.
Qed.
End sort.

Lemma sorted_areas_spec h :
  sorted_areas h ≡ₚ seqZ 0 8 /\ sorted_upto (fun i => keyMaterialOffset (kb h i)) 7 (sorted_areas h).
Proof.
  unfold sorted_areas, LUKS_sort_keyslots.
  apply (sort_from_spec (fun i => keyMaterialOffset (kb h i)) 7 1); [lia|done|]. intros p q. lia.
Qed.

(** Every slot has a position, and the last one is the highest. *)
Lemma sorted_position h i : 0 <= i < 8 -> exists p, (p <= 7)%nat /\ sorted_areas h !! p = Some i.
Proof.
  intros Hi. destruct (sorted_areas_spec h) as [P _].
  assert (Hin : i ∈ sorted_areas h) by (rewrite P; apply elem_of_seqZ; lia).
  apply list_elem_of_lookup in Hin as [p Hp]. exists p. split; [|done].
  apply lookup_lt_Some in Hp. rewrite P, length_seqZ in Hp. lia.
Qed.

Lemma kb_offset_range h i : phdr_ok h -> in_u 32 (keyMaterialOffset (kb h i)).
Proof.
  intros Hok. unfold kb. destruct (keyblock h !! Z.to_nat i) as [k|] eqn:E; cbn; [|unfold in_u; lia].
  apply (Forall_lookup_1 _ _ _ _ (po_keyblock _ Hok) E).
Qed.

Lemma last_sorted_max h i : 0 <= i < 8 ->
  keyMaterialOffset (kb h i) <= keyMaterialOffset (kb h (default 0 (sorted_areas h !! 7%nat))).
Proof.
  intros Hi. destruct (sorted_position h i Hi) as (p & Hp & E). destruct (sorted_areas_spec h) as [_ S].
  destruct (decide (p = 7%nat)) as [->|]; [by rewrite E|].
  specialize (S p 7%nat ltac:(lia)). unfold at_pos in S. by rewrite E in S.
Qed.

(** ** Keyslot areas *)

(** Sectors of a keyslot area. *)
Definition area_sectors (h : luks_phdr) : Z := AF_split_sectors (keyBytes h) LUKS_STRIPES.

Lemma device_sectors_bound h i :
  phdr_ok h -> 0 <= i < 8 -> keyMaterialOffset (kb h i) + area_sectors h <= LUKS_device_sectors h.
Proof.
  intros Hok Hi. unfold LUKS_device_sectors. pose proof (last_sorted_max h i Hi) as Hm.
  pose proof (kb_offset_range h (default 0 (sorted_areas h !! 7%nat)) Hok) as Hr. unfold in_u in Hr.
  pose proof (AF_split_sectors_range (keyBytes h) LUKS_STRIPES). fold (area_sectors h) in *. rewrite add64_id by lia. lia.
Qed.

(** What the check of the keyslots guarantees. *)
Record areas_ok (h : luks_phdr) : Prop := {
  ar_stripes : forall i, 0 <= i < 8 -> stripes (kb h i) = LUKS_STRIPES;
  ar_header : forall i, 0 <= i < 8 -> PHDR_SIZE <= keyMaterialOffset (kb h i) * SECTOR_SIZE;
  ar_payload : forall i, 0 <= i < 8 -> payloadOffset h <> 0 -> keyMaterialOffset (kb h i) + area_sectors h <= payloadOffset h;
  ar_disjoint : forall i j, 0 <= i < 8 -> 0 <= j < 8 -> i <> j ->
    keyMaterialOffset (kb h i) + area_sectors h <= keyMaterialOffset (kb h j) \/
    keyMaterialOffset (kb h j) + area_sectors h <= keyMaterialOffset (kb h i);
}.

Lemma check_keyslots_inv h :
  LUKS_check_keyslots h = 0 ->
  (forall i, 0 <= i < 8 -> keyslot_placed h (u32 (area_sectors h)) i = true) /\
  (forall p, (p < 7)%nat ->
     u32 (at_pos (fun i => keyMaterialOffset (kb h i)) (sorted_areas h) p + u32 (area_sectors h)) <=
     at_pos (fun i => keyMaterialOffset (kb h i)) (sorted_areas h) (S p)).
Proof.
  unfold LUKS_check_keyslots. fold (area_sectors h). destruct (forallb _ _) eqn:E1; [|done]. cbn [negb].
  destruct (existsb _ _) eqn:E2; [done|]. intros _. split.
  - intros i Hi. rewrite forallb_forall in E1. apply E1. apply list_elem_of_In, elem_of_seqZ. lia.
  - intros p Hp. destruct (Z.ltb_spec (at_pos (fun i => keyMaterialOffset (kb h i)) (sorted_areas h) (S p))
      (u32 (at_pos (fun i => keyMaterialOffset (kb h i)) (sorted_areas h) p + u32 (area_sectors h)))) as [Hlt|]; [|lia].
    exfalso. revert E2. apply not_false_iff_true. apply existsb_exists. exists (S p). split; [apply in_seq; lia|].
    apply Z.ltb_lt. replace (S p - 1)%nat with p by lia. exact Hlt.
Qed.

Lemma check_keyslots_areas h :
  phdr_ok h -> LUKS_check_keyslots h = 0 -> LUKS_device_sectors h < 2 ^ 32 -> areas_ok h.
Proof.
  intros Hok Hc Hd. apply check_keyslots_inv in Hc as [Hp Hs]. pose proof (AF_split_sectors_range (keyBytes h) LUKS_STRIPES) as Ha.
  fold (area_sectors h) in Ha.
  assert (Hb : forall i, 0 <= i < 8 -> 0 <= keyMaterialOffset (kb h i) /\ keyMaterialOffset (kb h i) + area_sectors h < 2 ^ 32).
  { intros i Hi. pose proof (device_sectors_bound h i Hok Hi). pose proof (kb_offset_range h i Hok). unfold in_u in *. lia. }
  pose proof (Hb 0 ltac:(lia)) as Hb0. rewrite u32_id in Hp, Hs by lia.
  assert (Hpl : forall i, 0 <= i < 8 -> stripes (kb h i) = LUKS_STRIPES /\ PHDR_SIZE <= keyMaterialOffset (kb h i) * SECTOR_SIZE /\
    (payloadOffset h <> 0 -> keyMaterialOffset (kb h i) + area_sectors h <= payloadOffset h)).
  { intros i Hi. specialize (Hp i Hi). specialize (Hb i Hi). unfold keyslot_placed in Hp.
    destruct (Z.eqb_spec (stripes (kb h i)) LUKS_STRIPES); [|done]. cbn [negb] in Hp. split; [done|].
    destruct (Z.ltb_spec (u32 (keyMaterialOffset (kb h i) * SECTOR_SIZE)) PHDR_SIZE) as [|Hh]; [done|].
    split.
    { unfold PHDR_SIZE, SECTOR_SIZE in *. destruct (Z.lt_ge_cases (keyMaterialOffset (kb h i)) 2) as [Hl|Hl]; [|clear - Hl; lia].
      rewrite u32_id in Hh by (clear - Hb Hl; lia). exact Hh. }
    destruct (Z.eqb_spec (payloadOffset h) 0); [done|]. intros _. destruct (_ <=? _); [done|].
    rewrite u32_id in Hp by lia. destruct (Z.ltb_spec (payloadOffset h) (keyMaterialOffset (kb h i) + area_sectors h)); [done|lia]. }
  assert (Hord : forall i j p q, sorted_areas h !! p = Some i -> sorted_areas h !! q = Some j -> 0 <= i < 8 -> 0 <= j < 8 ->
    (p < q)%nat -> (q <= 7)%nat -> keyMaterialOffset (kb h i) + area_sectors h <= keyMaterialOffset (kb h j)).
  { intros i j p q Ei Ej Hi Hj Hpq Hq. specialize (Hs p ltac:(lia)). unfold at_pos in Hs at 1. rewrite Ei in Hs. cbn [default] in Hs. unfold id in Hs.
    rewrite u32_id in Hs by (specialize (Hb i Hi); lia). destruct (sorted_areas_spec h) as [_ S].
    assert (Hle : at_pos (fun i => keyMaterialOffset (kb h i)) (sorted_areas h) (Datatypes.S p) <= keyMaterialOffset (kb h j)).
    { destruct (decide (q = Datatypes.S p)) as [->|]; [unfold at_pos; by rewrite Ej|].
      specialize (S (Datatypes.S p) q ltac:(lia)). unfold at_pos in S at 2. by rewrite Ej in S. }
    lia. }
  split; [intros i Hi; by apply Hpl..|].
  intros i j Hi Hj Hij. destruct (sorted_position h i Hi) as (p & Hp7 & Ei). destruct (sorted_position h j Hj) as (q & Hq7 & Ej).
  destruct (lt_eq_lt_dec p q) as [[Hlt| ->]|Hlt]; [left; by apply (Hord i j p q)|congruence|right; by apply (Hord j i q p)].
Qed.
