(* ===== verification/Luks1Io.v ===== *)
(** * Luks1Io: the LUKS1 header on a device

    Opening, reading and writing in the monad of [Device], as single steps; a
    header that is written is the header that is read, and the rest of the
    device does not change. *)

From S2P Require Import Prelude UtilsIO CryptBackend UtilsCrypt CryptStorage StorageWrapper Pbkdf Luks2Json Device Wipe WipeProps AF Luks2Keyslot Luks2Areas KeyEncryption Cstd Luks1 Luks1Facts.
From Stdlib Require Import Strings.Byte.

(** ** Steps on a device that is not locked *)

Section steps.
Variable env : os_env.

Definition plain_ready (d : device) : Prop :=
  dev_ready env d /\ d_lh d = None /\ f_size (d_file d) < 2 ^ 63.

Lemma plain_next d d' : dev_next d d' -> plain_ready d -> plain_ready d'.
Proof.
  intros (Hd & Hl & _) (Hr & Hn & Hs). assert (E : f_size (d_file d') = f_size (d_file d)) by (by apply size_eq).
  split; [by apply (dev_ready_size _ d)|]. split; [by rewrite Hl|lia].
Qed.

Lemma plain_confined o n d d' : confined o n (d_file d) (d_file d') -> d_lh d' = d_lh d -> plain_ready d -> plain_ready d'.
Proof.
  intros [E _ _] Hl (Hr & Hn & Hs). split; [by apply (dev_ready_size _ d)|]. split; [by rewrite Hl|lia].
Qed.

Lemma device_open_step d m :
  plain_ready d -> m = O_RDONLY \/ m = O_RDWR ->
  exists fd d', (forall B (k : Z -> M B), (device_open env m ≫= k) d = k fd d') /\ 0 <= fd /\ dev_next d d'.
Proof.
  intros (Hr & Hn & _) Hm. assert (Hw : writable d) by (unfold writable; by rewrite Hn).
  destruct (open_internal_opens env d m (dev_ready_opens _ _ Hr)) as (fd & d' & E & Hfd & Hf & Hl); [tauto|].
  exists fd, d'. split; [|split; [done|by apply dev_next_file]]. intros B k.
  apply bind_run. unfold device_open. erewrite bind_run by reflexivity. rewrite Hn. cbn [device_locked negb].
  by erewrite bind_run by reflexivity.
Qed.

Lemma device_size_step d :
  plain_ready d -> forall B (k : Z * Z -> M B), (device_size env ≫= k) d = k (0, f_size (d_file d)) d.
Proof.
  intros (Hr & _ & _) B k. apply bind_run. unfold device_size. erewrite bind_run by reflexivity. by rewrite (do_size _ _ Hr).
Qed.

End steps.

(** ** Headers *)

Section headers.
Context `{CH : CryptHash} `{CM : CryptHmac} `{CC : CryptCipher} `{CP : CryptPbkdf} `{LU : LibUuid}.
Variable env : luks1_env.
Let os : os_env := we_os (le_wipe env).

(** A header in memory that the code accepts when it reads it. *)
Record phdr_valid (h : luks_phdr) : Prop := {
  pv_ok : phdr_ok h;
  pv_magic : magic h = LUKS_MAGIC;
  pv_version : ph_version h = 1;
  pv_hash : LUKS_DIGESTSIZE <= crypt_hmac_size (cstr (hashSpec h));
  pv_hashSpec : terminate (hashSpec h) = hashSpec h;
  pv_cipherName : terminate (cipherName h) = cipherName h;
  pv_cipherMode : terminate (cipherMode h) = cipherMode h;
  pv_uuid : terminate (ph_uuid h) = ph_uuid h;
  pv_keyslots : LUKS_check_keyslots h = 0;
  pv_keyBytes : keyBytes h <> 0;
  pv_padding : _padding h = zeros 432;
}.

Definition hdr_fits (h : luks_phdr) (d : device) : Prop := LUKS_device_sectors h * SECTOR_SIZE <= f_size (d_file d).

(** The header is the one on the device. *)
Definition hdr_on_disk (h : luks_phdr) (d : device) : Prop :=
  slice 0 PHDR_SIZE (f_data (d_file d)) = phdr_bytes (hdr_to_disk h).

Lemma convert_hdr_to_disk h : phdr_valid h -> convert_hdr (hdr_to_disk h) = (0, h, true).
Proof.
  intros Hv. unfold convert_hdr, hdr_to_disk.
  assert (E : set_version (be16_to_cpu (ph_version (set_version (cpu_to_be16 (ph_version h)) (convert_ints cpu_to_be32 (set_padding (zeros 432) h)))))
      (set_version (cpu_to_be16 (ph_version h)) (convert_ints cpu_to_be32 (set_padding (zeros 432) h))) = convert_ints cpu_to_be32 h).
  { rewrite <-(pv_padding _ Hv). change (ph_version (set_version ?v _)) with v.
    rewrite be16_of_cpu by apply (po_version _ (pv_ok _ Hv)). by destruct h. }
  rewrite E. change (magic (convert_ints _ h)) with (magic h). change (ph_version (convert_ints _ h)) with (ph_version h).
  rewrite (bool_decide_true (magic h = LUKS_MAGIC)) by apply Hv. rewrite (pv_version _ Hv). cbn [negb Z.eqb Pos.eqb].
  assert (E2 : set_hashSpec (terminate (hashSpec (convert_ints cpu_to_be32 h))) (convert_ints cpu_to_be32 h) = convert_ints cpu_to_be32 h).
  { change (hashSpec (convert_ints _ h)) with (hashSpec h). rewrite (pv_hashSpec _ Hv). by destruct h. }
  rewrite E2. change (hashSpec (convert_ints _ h)) with (hashSpec h).
  rewrite (proj2 (Z.ltb_ge (crypt_hmac_size (cstr (hashSpec h))) LUKS_DIGESTSIZE)) by apply Hv. rewrite convert_back by apply Hv.
  rewrite (pv_keyslots _ Hv). cbn [negb Z.eqb]. rewrite (pv_cipherName _ Hv), (pv_cipherMode _ Hv).
  change (ph_uuid (set_cipher _ _ h)) with (ph_uuid h). rewrite (pv_uuid _ Hv). by destruct h.
Qed.

Lemma check_device_size_run h falloc d :
  plain_ready os d -> keyBytes h <> 0 -> hdr_fits h d -> LUKS_check_device_size env h falloc d = Some (0, d).
Proof.
  intros Hr Hk Hf. unfold LUKS_check_device_size. rewrite (proj2 (Z.eqb_neq _ _)) by done.
  rewrite (device_size_step os d Hr). cbn beta match. rewrite Z.eqb_refl. cbn [negb].
  unfold hdr_fits, SECTOR_SIZE in Hf. change (Z.shiftr (f_size (d_file d)) SECTOR_SHIFT) with (Z.shiftr (f_size (d_file d)) 9).
  rewrite Z.shiftr_div_pow2 by lia. change (2 ^ 9) with 512.
  assert (LUKS_device_sectors h <= f_size (d_file d) / 512) by (apply Z.div_le_lower_bound; lia).
  by rewrite (proj2 (Z.ltb_ge _ _)) by lia.
Qed.

Lemma hdr_fits_size h d : phdr_ok h -> hdr_fits h d -> LUKS_check_keyslots h = 0 -> PHDR_SIZE <= f_size (d_file d).
Proof.
  intros Hok Hf Hc. unfold hdr_fits in Hf. apply check_keyslots_inv in Hc as [Hp _]. specialize (Hp 0 ltac:(lia)).
  pose proof (device_sectors_bound h 0 Hok ltac:(lia)) as Hb. pose proof (AF_split_sectors_range (keyBytes h) LUKS_STRIPES) as Ha.
  fold (area_sectors h) in Ha. pose proof (kb_offset_range h 0 Hok) as [Ho _].
  unfold keyslot_placed in Hp. destruct (negb _); [done|]. unfold PHDR_SIZE, SECTOR_SIZE in *.
  destruct (Z.lt_ge_cases (keyMaterialOffset (kb h 0)) 2) as [Hl|Hl]; [|lia].
  rewrite u32_id in Hp by lia. destruct (Z.ltb_spec (keyMaterialOffset (kb h 0) * 512) 1024); [done|lia].
Qed.

(** Reading a header that is on the device: that header, unless a transfer
    fails. *)
Lemma read_phdr_run kr h h0 require repair d :
  (repair = true -> require = true) -> plain_ready os d -> phdr_valid h -> hdr_fits h d -> hdr_on_disk h d ->
  exists r h' d', LUKS_read_phdr_with env kr h0 require repair d = Some ((r, h'), d') /\ dev_next d d' /\
    ((r = 0 /\ h' = h) \/ (r < 0 /\ ~ benign (f_sched (d_file d)))).
Proof.
  intros Hrep Hr Hv Hf Hon. pose proof (hdr_fits_size h d (pv_ok _ Hv) Hf (pv_keyslots _ Hv)) as Hsz.
  unfold LUKS_read_phdr_with.
  assert (Er : repair && negb require = false) by (destruct repair; [by rewrite Hrep|done]). rewrite Er.
  destruct (device_open_step os d O_RDONLY Hr) as (fd & d1 & E & Hfd & N1); [by left|]. fold os. rewrite E. clear E.
  rewrite (proj2 (Z.ltb_ge fd 0) Hfd). pose proof (plain_next _ _ _ N1 Hr) as Hr1.
  destruct (dev_read_step os d1 fd PHDR_SIZE 0 (proj1 Hr1) Hfd) as (r & buf & d2 & E & N2 & C); [done|lia|]. rewrite E. clear E.
  pose proof (plain_next _ _ _ N2 Hr1) as Hr2. destruct N1 as (D1 & L1 & S1). pose proof (size_eq _ _ D1) as Z1.
  assert (N : dev_next d d2) by (transitivity d1; [by split|done]). cbn beta match.
  destruct C as [[-> ->]|[-> C]].
  - rewrite Z.ltb_irrefl. rewrite D1, Hon.
    assert (Hb : phdr_of_bytes (phdr_bytes (hdr_to_disk h)) = hdr_to_disk h) by (apply phdr_of_phdr_bytes, hdr_to_disk_ok, Hv).
    rewrite Hb. unfold _check_and_convert_hdr. rewrite convert_hdr_to_disk by done. rewrite andb_false_r.
    rewrite ret_step. cbn beta match. rewrite Z.eqb_refl.
    exists 0, h, d2. split; [|split; [done|by left]].
    assert (Hc : LUKS_check_device_size env h false d2 = Some (0, d2)).
    { apply check_device_size_run; [done|apply Hv|]. unfold hdr_fits in *. destruct N as (D & _). by rewrite (size_eq _ _ D). }
    by rewrite (bind_run _ _ _ _ _ Hc).
  - change (-1 <? PHDR_SIZE) with true. cbn match. rewrite ret_step. cbn beta match. change (- EIO =? 0) with false. cbn match.
    rewrite ret_step. exists (- EIO), h0, d2. split; [done|]. split; [done|]. right. split; [done|].
    destruct C as [C|C]; [|lia]. intros B. apply C. by apply (S1 _ B).
Qed.

(** Writing a valid header: only the bytes of the header change, and on success
    the header is on the device and the one in memory. *)
Lemma write_phdr_run h d :
  plain_ready os d -> phdr_valid h -> hdr_fits h d ->
  exists r h' d', LUKS_write_phdr env h d = Some ((r, h'), d') /\
    confined 0 PHDR_SIZE (d_file d) (d_file d') /\ d_lh d' = d_lh d /\
    ((r = 0 /\ h' = h /\ hdr_on_disk h d') \/ (r < 0 /\ ~ benign (f_sched (d_file d)))).
Proof.
  intros Hr Hv Hf. pose proof (hdr_fits_size h d (pv_ok _ Hv) Hf (pv_keyslots _ Hv)) as Hsz.
  unfold LUKS_write_phdr. erewrite bind_run by (apply check_device_size_run; [done|apply Hv|done]).
  rewrite Z.eqb_refl. cbn [negb]. fold os.
  destruct (device_open_step os d O_RDWR Hr) as (fd & d1 & E & Hfd & N1); [by right|]. rewrite E. clear E.
  rewrite (proj2 (Z.ltb_ge fd 0) Hfd). pose proof (plain_next _ _ _ N1 Hr) as Hr1. destruct N1 as (D1 & L1 & S1).
  pose proof (size_eq _ _ D1) as Z1. pose proof (zlen_phdr_bytes _ (hdr_to_disk_ok _ (pv_ok _ Hv))) as Hz.
  destruct (dev_write_step os d1 fd (phdr_bytes (hdr_to_disk h)) 0 (proj1 Hr1) Hfd) as (w & d2 & E & C & L2 & R); [lia|lia|].
  rewrite Hz in *. rewrite E. clear E. unfold device_sync. rewrite ret_step.
  assert (C0 : confined 0 PHDR_SIZE (d_file d) (d_file d2)).
  { eapply confined_trans; [by apply confined_same|done]. }
  pose proof (plain_confined _ _ _ _ _ C0 ltac:(congruence) Hr) as Hr2.
  destruct R as [[-> Hs]|[-> Hs]].
  - rewrite Z.ltb_irrefl, Z.eqb_refl. change (slice 0 PHDR_SIZE _ = _) with (hdr_on_disk h d2) in Hs.
    destruct (read_phdr_run (fun hdr => mret (- EINVAL, hdr)) h h true false d2 ltac:(done) Hr2 Hv) as (r & h' & d3 & E & (D3 & L3 & S3) & C3); [|done|].
    { unfold hdr_fits in *. by rewrite (cf_size _ _ _ _ C0). }
    exists r, h', d3. split; [done|]. split; [eapply confined_trans; [done|by apply confined_same]|]. split; [congruence|].
    destruct C3 as [[-> ->]|[Hlt Hn]]; [left; split; [done|]; split; [done|]; unfold hdr_on_disk in *; by rewrite D3|].
    right. split; [done|]. intros B. apply Hn. by apply (cf_sched _ _ _ _ C0 _ B).
  - change (-1 <? PHDR_SIZE) with true. cbn match. change (- EIO =? 0) with false. cbn match.
    exists (- EIO), h, d2. split; [done|]. split; [done|]. split; [congruence|]. right. split; [done|].
    intros B. apply Hs. by apply (S1 _ B).
Qed.
End headers.
