(* ===== verification/Luks1Props.v ===== *)
(** * Luks1Props: properties of LUKS1 headers

    A header written is the header read; the keyslots of a header that was read
    have areas of their own; generated headers are valid; and the two places
    where 32-bit arithmetic breaks this. *)

From S2P Require Import Prelude UtilsIO CryptBackend UtilsCrypt CryptStorage StorageWrapper Pbkdf Luks2Json Device Wipe WipeProps AF Luks2Keyslot Luks2Areas KeyEncryption Cstd Luks1 Luks1Facts Luks1Io.
From Stdlib Require Import Strings.Byte.

(** ** Headers that were read *)

Lemma le_decode_u n bs : length bs = n -> in_u (8 * Z.of_nat n) (le_decode bs).
Proof. intros <-. apply le_decode_range. Qed.

Lemma be_decode_u n bs : length bs = n -> in_u (8 * Z.of_nat n) (be_decode bs).
Proof. intros <-. apply be_decode_range. Qed.

Lemma be32_to_cpu_range x : in_u 32 (be32_to_cpu x).
Proof. apply (be_decode_u 4), length_le_encode. Qed.

Lemma be16_to_cpu_range x : in_u 16 (be16_to_cpu x).
Proof. apply (be_decode_u 2), length_le_encode. Qed.

Lemma slice_length {A} off n (b : list A) : 0 <= off -> 0 <= n -> off + n <= zlen b -> length (slice off n b) = Z.to_nat n.
Proof. intros H1 H2 H3. pose proof (zlen_slice off n b H1 H2 H3). unfold zlen in *. lia. Qed.

Lemma phdr_of_bytes_ok b : zlen b = PHDR_SIZE -> phdr_ok (phdr_of_bytes b).
Proof.
  intros Hb. unfold PHDR_SIZE in Hb. unfold phdr_of_bytes.
  split; cbn [magic ph_version cipherName cipherMode hashSpec payloadOffset keyBytes mkDigest mkDigestSalt mkDigestIterations
    ph_uuid keyblock _padding]; try (apply zlen_slice; lia); try (apply (le_decode_u 4), slice_length; lia).
  - apply (le_decode_u 2), slice_length; lia.
  - by rewrite length_fmap, length_seqZ.
  - apply Forall_fmap, Forall_forall. intros i Hi. apply elem_of_seqZ in Hi. cbn [compose].
    assert (Hs : zlen (slice (208 + 48 * i) 48 b) = 48) by (apply zlen_slice; lia).
    unfold keyblock_of_bytes. split; cbn [kb_active passwordIterations passwordSalt keyMaterialOffset stripes];
      try (apply (le_decode_u 4), slice_length; lia). apply zlen_slice; lia.
Qed.

(** Fields of an updated header. *)
Ltac phdr_fields :=
  cbn [magic ph_version cipherName cipherMode hashSpec payloadOffset keyBytes mkDigest mkDigestSalt mkDigestIterations
    ph_uuid keyblock _padding set_version set_hashSpec set_cipher set_phdr_uuid set_keyblocks set_padding set_digest convert_ints] in *.

Lemma zlen_terminate b : 0 < zlen b -> zlen (terminate b) = zlen b.
Proof. intros H. unfold terminate. apply zlen_splice; [lia|]. change (zlen [x00]) with 1. lia. Qed.

Section read.
Context `{CH : CryptHash} `{CM : CryptHmac} `{CC : CryptCipher} `{CP : CryptPbkdf} `{LU : LibUuid}.
Variable env : luks1_env.
Let os : os_env := we_os (le_wipe env).

(** What an accepted header satisfies. *)
Definition phdr_accepted (h : luks_phdr) : Prop := phdr_ok h /\ LUKS_check_keyslots h = 0.

Lemma convert_hdr_ok h r h' c : phdr_ok h -> convert_hdr h = (r, h', c) -> phdr_ok h'.
Proof.
  intros Hok. assert (Hok1 : phdr_ok (set_version (be16_to_cpu (ph_version h)) h)).
  { destruct Hok. split; try assumption. apply be16_to_cpu_range. }
  clear Hok. unfold convert_hdr. destruct (negb _); [by intros [= <- <- <-]|]. destruct (negb _); [by intros [= <- <- <-]|].
  destruct Hok1. destruct (_ <? _); intros [= <- <- <-];
  split; phdr_fields;
    try assumption; try apply be32_to_cpu_range; try apply be16_to_cpu_range; try (rewrite zlen_terminate; lia).
  - by rewrite length_fmap.
  - apply Forall_fmap. eapply Forall_impl; [eassumption|]. intros k []. split; cbn; try assumption; apply be32_to_cpu_range.
Qed.

Lemma convert_hdr_accepted h h' c : phdr_ok h -> convert_hdr h = (0, h', c) -> phdr_accepted h'.
Proof.
  intros Hok E. pose proof (convert_hdr_ok _ _ _ _ Hok E) as Hok'. split; [done|]. revert E. unfold convert_hdr.
  destruct (negb _); [done|]. destruct (negb _); [done|]. destruct (_ <? _); [done|].
  destruct (LUKS_check_keyslots (convert_ints be32_to_cpu _) =? 0) eqn:Ec; [|done]. intros [= <- _]. by apply Z.eqb_eq in Ec.
Qed.

Lemma check_device_size_inv h falloc d d' :
  LUKS_check_device_size env h falloc d = Some (0, d') ->
  d' = d /\ keyBytes h <> 0 /\ LUKS_device_sectors h <= f_size (d_file d) / 512.
Proof.
  unfold LUKS_check_device_size. destruct (Z.eqb_spec (keyBytes h) 0); [by intros [= ]|]. intros E.
  apply bind_inv in E as ([r sz] & d1 & E1 & E). unfold device_size in E1.
  apply bind_inv in E1 as (d2 & d3 & [= <- <-] & E1). destruct (size_known _); injection E1 as <- <- <-; [|by injection E].
  rewrite Z.eqb_refl in E. cbn [negb] in E. change (Z.shiftr (f_size (d_file d)) SECTOR_SHIFT) with (Z.shiftr (f_size (d_file d)) 9) in E.
  rewrite Z.shiftr_div_pow2 in E by lia. change (2 ^ 9) with 512 in E.
  destruct (Z.ltb_spec (f_size (d_file d) / 512) (LUKS_device_sectors h)) as [Hlt|]; [|by injection E as <-].
  apply bind_inv in E as (r1 & d4 & E1 & E). injection E as E _. destruct falloc; cbn in E1; injection E1 as <- <-; done.
Qed.

Hypothesis Hb : 0 < env_block_size os.

(** A read that returned 0 read an accepted header, if its repair did. *)
Lemma read_phdr_accepted kr h0 require repair d h' d' :
  (forall h d1 h1 d2, phdr_ok h -> kr h d1 = Some ((0, h1), d2) -> phdr_accepted h1) ->
  LUKS_read_phdr_with env kr h0 require repair d = Some ((0, h'), d') ->
  phdr_accepted h' /\ keyBytes h' <> 0 /\ LUKS_device_sectors h' <= f_size (d_file d') / 512.
Proof.
  intros Hkr. unfold LUKS_read_phdr_with. destruct (repair && negb require); [by intros [= ]|]. intros E.
  apply bind_inv in E as (fd & d1 & _ & E). destruct (Z.ltb_spec fd 0) as [|Hfd]; [by injection E|].
  apply bind_inv in E as ([n buf] & d2 & E1 & E). apply bind_inv in E as ([r h1] & d3 & E2 & E).
  apply bind_inv in E as (r1 & d4 & E3 & E). injection E as -> -> ->.
  destruct (Z.eqb_spec r 0) as [->|]; [|by injection E3 as ->].
  assert (Ha : phdr_accepted h').
  { destruct (Z.ltb_spec n PHDR_SIZE) as [|Hn]; [by injection E2|].
    unfold dev_read in E1. destruct (read_lseek_blockwise _ _ _ _ _ _) as [[r b] f] eqn:El. injection E1 as ? ? ?. subst n buf d2.
    apply read_lseek_blockwise_length in El as [-> Hz]; [|done|exact Hb|done|done|unfold PHDR_SIZE in Hn; lia].
    unfold _check_and_convert_hdr in E2. destruct (convert_hdr (phdr_of_bytes b)) as [[rc hc] conv] eqn:Ec.
    assert (Hok : phdr_ok hc).
    { revert Ec. apply convert_hdr_ok. by apply phdr_of_bytes_ok. }
    destruct (_ && _); [by apply (Hkr hc _ _ _ Hok) in E2|]. injection E2 as ? ? _. subst rc hc.
    apply convert_hdr_accepted in Ec; [done|]. by apply phdr_of_bytes_ok. }
  split; [done|]. apply check_device_size_inv in E3 as (-> & Hk & Hs). done.
Qed.

Lemma write_phdr_accepted h d h' d' : LUKS_write_phdr env h d = Some ((0, h'), d') -> phdr_accepted h'.
Proof.
  unfold LUKS_write_phdr. intros E. apply bind_inv in E as (r & d1 & _ & E).
  destruct (Z.eqb_spec r 0); [|by injection E]. cbn [negb] in E. apply bind_inv in E as (fd & d2 & _ & E).
  destruct (fd <? 0); [by injection E|]. apply bind_inv in E as (w & d3 & _ & E). apply bind_inv in E as (u & d4 & _ & E).
  destruct (w <? PHDR_SIZE); [by injection E|]. rewrite Z.eqb_refl in E. unfold LUKS_reread_phdr in E.
  apply read_phdr_accepted in E as [Ha _]; [done|]. intros ? ? ? ? _ F. by injection F.
Qed.

(** ** New headers *)

Lemma place_keyslots_ok n ks hs : Forall keyblock_ok (place_keyslots n ks hs).1 /\ length (place_keyslots n ks hs).1 = n.
Proof.
  revert hs. induction n as [|n IH]; intros hs; cbn [place_keyslots]; [done|].
  destruct (IH (size_round_up (hs +64 ks) (LUKS_ALIGN_KEYSLOTS / SECTOR_SIZE))) as [Hf Hl].
  destruct (place_keyslots n ks _) as [l e]. cbn [fst] in *. split; [|by cbn [length]; rewrite Hl]. constructor; [|done].
  split; cbn; try done. by apply (wrap_range 32).
Qed.

Lemma layout_keyblocks n c m hs d a q h :
  layout_phdr n c m hs d a q = inr h ->
  keyblock h = (place_keyslots 8 (AF_split_sectors n LUKS_STRIPES) (LUKS_ALIGN_KEYSLOTS / SECTOR_SIZE)).1.
Proof.
  unfold layout_phdr. destruct (_ || _); [done|]. destruct (place_keyslots _ _ _) as [ks e]. cbn [fst].
  destruct (_ && _); [done|]. destruct (_ <? _); [done|]. intros [= <-]. unfold LUKS_fix_header_compatible.
  by case_bool_decide.
Qed.

(** A header that was generated: the layout with its digest and UUID. *)
Lemma generate_phdr_inv h0 pbkdf vk c m hs uu da al rq d r h p d' :
  LUKS_generate_phdr env h0 pbkdf vk c m hs uu da al rq d = Some ((r, h, p), d') -> 0 <= r ->
  exists l u digest it, r = 0 /\ layout_phdr (zlen vk) c m hs da al rq = inr l /\ choose_uuid env uu = Some u /\ d' = d /\
    digest_iterations p = Some it /\
    crypt_pbkdf CRYPT_KDF_PBKDF2 (cstr (hashSpec l)) vk (le_salt env).2 LUKS_DIGESTSIZE it 0 0 = digest /\ 0 <= digest.1 /\
    h = set_phdr_uuid (write_uuid u (ph_uuid l)) (set_digest digest.2 (le_salt env).2 it l).
Proof.
  unfold LUKS_generate_phdr. destruct (layout_phdr _ _ _ _ _ _ _) as [e|l] eqn:El.
  { intros [= <- <- <- <-] Hr. exfalso. revert El. unfold layout_phdr. destruct (_ || _); [intros [= <-]; done|].
    destruct (place_keyslots _ _ _). destruct (_ && _); [intros [= <-]; done|]. destruct (_ <? _); [intros [= <-]; done|done]. }
  destruct (choose_uuid env uu) as [u|]; [|by intros [= <- <- <- <-]]. destruct (le_salt env) as [rs salt].
  destruct (Z.ltb_spec rs 0); [intros [= <- <- <- <-]; lia|]. intros E Hr. apply bind_inv in E as ([rb p1] & d1 & E1 & E).
  assert (d1 = d) as -> by (unfold benchmark in E1; destruct (crypt_benchmark_pbkdf_internal _ _ _); by inversion E1).
  destruct (Z.ltb_spec rb 0); [injection E as <- <- <- <-; lia|]. apply bind_inv in E as ([] & d2 & E2 & E).
  assert (d2 = d) as -> by (unfold assert in E2; destruct (negb _); by inversion E2).
  destruct (digest_iterations p1) as [it|] eqn:Ei; [|by injection E as <- <- <- <-].
  destruct (crypt_pbkdf _ _ _ _ _ _ _ _) as [rd digest] eqn:Ed. destruct (Z.ltb_spec rd 0); [injection E as <- <- <- <-; lia|].
  injection E as <- <- <- <-. exists l, u, (rd, digest), it. cbn [fst snd]. auto 10.
Qed.

(** ** Repair *)

Lemma repair_accepted pbkdf h d h' d' :
  phdr_ok h -> _keyslot_repair env pbkdf h d = Some ((0, h'), d') -> phdr_accepted h'.
Proof.
  intros Hok. unfold _keyslot_repair. destruct (negb _); [done|]. destruct (_ <? _); [done|]. intros E.
  apply bind_inv in E as (r & d1 & _ & E). destruct (r <? 0); [by injection E|]. destruct (alloc_fails _ _); [by injection E|].
  apply bind_inv in E as ([[rg temp] p] & d2 & Eg & E). destruct (Z.ltb_spec rg 0); [injection E; lia|].
  apply generate_phdr_inv in Eg as (l & u & dg & it & -> & El & _ & _ & _ & _ & _ & ->); [|done].
  apply layout_keyblocks in El. set (temp := set_phdr_uuid _ _) in *.
  assert (Et : Forall keyblock_ok (keyblock temp)).
  { unfold temp. phdr_fields. rewrite El. apply place_keyslots_ok. }
  assert (Hkb : forall h i, Forall keyblock_ok (keyblock h) -> keyblock_ok (kb h i)).
  { intros h1 i Hf. unfold kb. destruct (keyblock h1 !! Z.to_nat i) as [k|] eqn:Ek; [by eapply Forall_lookup_1|]. by split. }
  set (h1 := set_keyblocks _ h) in *.
  assert (Hok1 : phdr_ok h1).
  { unfold h1. destruct Hok. split; phdr_fields; try assumption.
    - unfold repair_keyblocks. by rewrite !length_fmap, length_seqZ.
    - unfold repair_keyblocks. rewrite <-list_fmap_compose. apply Forall_fmap, Forall_true. intros i. cbn [compose].
      pose proof (Hkb h i ltac:(done)) as [K1 K2 K3 K4 K5]. pose proof (Hkb temp i Et) as [T1 T2 T3 T4 T5].
      unfold repair_keyblock. destruct (kb_active (kb h i) =? LUKS_KEY_ENABLED); [by split|]. cbv zeta. destruct (_ || _); split; cbn; done. }
  destruct (Z.eqb_spec (LUKS_check_keyslots h1) 0) as [Ec|]; [|by injection E]. cbn [negb] in E.
  destruct (existsb _ _); [by apply write_phdr_accepted in E|]. injection E as <- _. by split.
Qed.

(** What the header's bounds mean for the areas, on devices below 2 TiB. *)
Lemma accepted_areas h d :
  phdr_accepted h -> LUKS_device_sectors h <= f_size (d_file d) / 512 -> f_size (d_file d) < 2 ^ 41 ->
  areas_ok h /\ forall i, 0 <= i < 8 -> (keyMaterialOffset (kb h i) + area_sectors h) * SECTOR_SIZE <= f_size (d_file d).
Proof.
  intros [Hok Hc] Hs Hsz. pose proof (Z.mul_div_le (f_size (d_file d)) 512 ltac:(lia)) as Hm.
  split; [apply check_keyslots_areas; [done|done|lia]|]. intros i Hi.
  pose proof (device_sectors_bound h i Hok Hi). unfold SECTOR_SIZE. lia.
Qed.
End read.

(** ** Generated headers are valid *)

Lemma zlen_strncpy n src : 0 <= n -> zlen (strncpy n src) = n.
Proof.
  intros Hn. unfold strncpy, zeros, zlen. rewrite length_app, length_replicate, length_take. lia.
Qed.

(** A field whose last byte is NUL. *)
Definition nul_ended (b : bytes) : Prop := exists a, b = a ++ [x00].

Lemma nul_ended_terminate b : nul_ended b -> terminate b = b.
Proof.
  intros [a ->]. unfold terminate, splice. rewrite zlen_app. change (zlen [x00]) with 1.
  replace (Z.to_nat (zlen a + 1 - 1)) with (length a) by (unfold zlen; lia).
  rewrite take_app_length, drop_ge by (rewrite length_app; cbn; lia). done.
Qed.

Lemma to_lower_nul str n : nul_ended str -> nul_ended (_to_lower str n).
Proof.
  intros [a ->]. revert n. induction a as [|c a IH]; intros n.
  - destruct n; cbn; by exists [].
  - destruct n; cbn; [by exists (c :: a)|]. case_bool_decide; [by exists (c :: a)|]. destruct (IH n) as [b Hb].
    exists ((if isupper c then tolower c else c) :: b). by rewrite Hb.
Qed.

Lemma length_to_lower str n : length (_to_lower str n) = length str.
Proof.
  revert n. induction str as [|c str IH]; intros n; [by destruct n|]. destruct n; cbn; [done|]. case_bool_decide; cbn; [done|]. by rewrite IH.
Qed.

Lemma zlen_to_lower str n : zlen (_to_lower str n) = zlen str.
Proof. unfold zlen. by rewrite length_to_lower. Qed.

Lemma ecb_mode_ended : zlen ecb_mode = 32 /\ nul_ended ecb_mode.
Proof. split; [by vm_compute|]. exists (strncpy 31 (bytes_of_string "ecb")). by vm_compute. Qed.

(** Each keyslot begins behind the end of the one before. *)
Lemma place_keyslots_order n ks hs i j ki kj :
  0 <= ks < 2 ^ 26 -> 0 <= hs -> hs + Z.of_nat n * (ks + 8) < 2 ^ 32 ->
  (place_keyslots n ks hs).1 !! i = Some ki -> (place_keyslots n ks hs).1 !! j = Some kj ->
  hs <= keyMaterialOffset ki /\ ((i < j)%nat -> keyMaterialOffset ki + ks <= keyMaterialOffset kj) /\
  keyMaterialOffset ki + ks <= (place_keyslots n ks hs).2 < hs + Z.of_nat n * (ks + 8) + 1 /\ stripes ki = LUKS_STRIPES.
Proof.
  intros Hks. revert hs i j ki kj. induction n as [|n IH]; intros hs i j ki kj Hhs Hlt; [done|].
  cbn [place_keyslots]. rewrite add64_id by lia. change (LUKS_ALIGN_KEYSLOTS / SECTOR_SIZE) with 8.
  destruct (size_round_up_spec (hs + ks) 8) as [Hs1 _]; [lia|lia|lia|]. set (hs1 := size_round_up (hs + ks) 8) in *.
  specialize (IH hs1). destruct (place_keyslots n ks hs1) as [l e] eqn:El. cbn [fst snd] in *.
  assert (He : n <> O -> hs1 + ks <= e /\ e < hs1 + Z.of_nat n * (ks + 8) + 1).
  { intros Hn. destruct (lookup_lt_is_Some_2 l 0) as [k Hk].
    - pose proof (place_keyslots_ok n ks hs1) as [_ Hl]. rewrite El in Hl. cbn in Hl. lia.
    - destruct (IH O O k k ltac:(lia) ltac:(lia) Hk Hk) as (H1 & _ & H3 & _). lia. }
  assert (He0 : n = O -> e = hs1) by (intros ->; cbn in El; by simplify_eq).
  intros Hi Hj. destruct i as [|i].
  - cbn in Hi. simplify_eq. cbn [keyMaterialOffset stripes]. rewrite u32_id by lia. split; [lia|]. split; [|split; [|done]].
    + intros Hij. destruct j as [|j]; [lia|]. cbn in Hj. destruct (IH j j kj kj ltac:(lia) ltac:(lia) Hj Hj) as (H1 & _). lia.
    + destruct n; [rewrite He0 by done|specialize (He ltac:(done))]; lia.
  - cbn in Hi. destruct (IH i i ki ki ltac:(lia) ltac:(lia) Hi Hi) as (H1 & _ & H3 & H4). split; [lia|]. split; [|split; [lia|done]].
    intros Hij. destruct j as [|j]; [lia|]. cbn in Hj. destruct (IH i j ki kj ltac:(lia) ltac:(lia) Hi Hj) as (_ & H2 & _). apply H2. lia.
Qed.

Lemma place_keyslots_disabled n ks hs i k : (place_keyslots n ks hs).1 !! i = Some k -> kb_active k = LUKS_KEY_DISABLED.
Proof.
  revert hs i. induction n as [|n IH]; intros hs i; [done|]. cbn [place_keyslots].
  specialize (IH (size_round_up (hs +64 ks) (LUKS_ALIGN_KEYSLOTS / SECTOR_SIZE))). destruct (place_keyslots n ks _) as [l e].
  cbn [fst] in *. destruct i as [|i]; [by intros [= <-]|]. apply IH.
Qed.

(** Keyslots in order of their areas pass the check. *)
Lemma ordered_keyslots_pass h :
  phdr_ok h -> 0 < area_sectors h ->
  (forall i, 0 <= i < 8 -> stripes (kb h i) = LUKS_STRIPES /\ 2 <= keyMaterialOffset (kb h i) /\
     keyMaterialOffset (kb h i) + area_sectors h < 2 ^ 32 /\ keyMaterialOffset (kb h i) * SECTOR_SIZE < 2 ^ 32 /\
     (payloadOffset h <> 0 -> keyMaterialOffset (kb h i) + area_sectors h <= payloadOffset h)) ->
  (forall i j, 0 <= i < j -> j < 8 -> keyMaterialOffset (kb h i) + area_sectors h <= keyMaterialOffset (kb h j)) ->
  LUKS_check_keyslots h = 0.
Proof.
  intros Hok Ha Hk Hord. unfold LUKS_check_keyslots. fold (area_sectors h). pose proof (Hk 0 ltac:(lia)) as K0.
  pose proof (kb_offset_range h 0 Hok) as R0. unfold in_u in R0. rewrite (u32_id (area_sectors h)) by lia.
  assert (E1 : forallb (keyslot_placed h (area_sectors h)) (seqZ 0 8) = true).
  { apply forallb_forall. intros i Hi. apply list_elem_of_In, elem_of_seqZ in Hi. destruct (Hk i ltac:(lia)) as (K1 & K2 & K3 & K4 & K5).
    unfold keyslot_placed, PHDR_SIZE, SECTOR_SIZE in *. rewrite K1, Z.eqb_refl. cbn [negb]. rewrite u32_id by lia.
    rewrite (proj2 (Z.ltb_ge (keyMaterialOffset (kb h i) * 512) 1024)) by lia. destruct (Z.eqb_spec (payloadOffset h) 0) as [|Hp]; [done|].
    specialize (K5 Hp). rewrite (proj2 (Z.leb_gt _ _)) by lia. rewrite u32_id by lia. by rewrite (proj2 (Z.ltb_ge _ _)) by lia. }
  rewrite E1. cbn [negb]. destruct (existsb _ _) eqn:E2; [|done]. exfalso. apply existsb_exists in E2 as (p & Hp & E2).
  apply in_seq in Hp. apply Z.ltb_lt in E2. destruct (sorted_areas_spec h) as [P So].
  assert (Hl : length (sorted_areas h) = 8%nat) by (by rewrite P).
  assert (Hnd : NoDup (sorted_areas h)) by (rewrite P; apply NoDup_seqZ).
  destruct (lookup_lt_is_Some_2 (sorted_areas h) (p - 1)) as [a Ea]; [lia|].
  destruct (lookup_lt_is_Some_2 (sorted_areas h) p) as [b Eb]; [lia|].
  assert (Hin : forall q x, sorted_areas h !! q = Some x -> 0 <= x < 8).
  { intros q x Hx. apply list_elem_of_lookup_2 in Hx. rewrite P in Hx. apply elem_of_seqZ in Hx. lia. }
  rewrite Ea, Eb in E2. cbn [default] in E2. unfold id in E2. pose proof (Hin _ _ Ea) as Ra. pose proof (Hin _ _ Eb) as Rb.
  pose proof (Hk a Ra) as (_ & A2 & A3 & _). pose proof (kb_offset_range h a Hok) as Oa. unfold in_u in Oa. rewrite u32_id in E2 by lia.
  specialize (So (p - 1)%nat p ltac:(lia)). unfold at_pos in So. rewrite Ea, Eb in So. cbn [default] in So. unfold id in So.
  destruct (Z.lt_trichotomy a b) as [Hab|[Hab|Hab]].
  - specialize (Hord a b ltac:(lia) ltac:(lia)). lia.
  - subst b. pose proof (NoDup_lookup _ _ _ _ Hnd Ea Eb). lia.
  - specialize (Hord b a ltac:(lia) ltac:(lia)). lia.
Qed.

(** What [layout_phdr] lays out, for keys below 64 KiB. *)
Record layout_ok (n : Z) (l : luks_phdr) : Prop := {
  lo_ok : phdr_ok l;
  lo_magic : magic l = LUKS_MAGIC;
  lo_version : ph_version l = 1;
  lo_strings : nul_ended (hashSpec l) /\ nul_ended (cipherName l) /\ nul_ended (cipherMode l);
  lo_uuid : ph_uuid l = zeros 40;
  lo_padding : _padding l = zeros 432;
  lo_keyBytes : keyBytes l = n;
  lo_keyslots : LUKS_check_keyslots l = 0;
  lo_inactive : forall i, 0 <= i < 8 -> kb_active (kb l i) = LUKS_KEY_DISABLED;
}.

Lemma AF_sectors_small n : 0 < n < 2 ^ 16 -> 0 < AF_split_sectors n LUKS_STRIPES < 2 ^ 19.
Proof.
  intros Hn. unfold AF_split_sectors, LUKS_STRIPES, SECTOR_SIZE. rewrite (u64_id (n * 4000)) by lia. rewrite u64_id by lia.
  split; [apply Z.div_str_pos; lia|apply Z.div_lt_upper_bound; lia].
Qed.

Section layout.
Context `{CM : CryptHmac}.

Lemma layout_phdr_ok n c m hs da al rq l :
  0 < n < 2 ^ 16 -> layout_phdr n c m hs da al rq = inr l ->
  layout_ok n l /\ (da <> 0 -> payloadOffset l = u32 (da / SECTOR_SIZE)).
Proof.
  intros Hn E. pose proof (AF_sectors_small n Hn) as Hks. pose proof (layout_keyblocks n c m hs da al rq l E) as Hkb.
  revert E. unfold layout_phdr. destruct (_ || _); [done|]. change (LUKS_ALIGN_KEYSLOTS / SECTOR_SIZE) with 8 in *.
  set (ks := AF_split_sectors n LUKS_STRIPES) in *. destruct (place_keyslots 8 ks 8) as [kbs e] eqn:Ep. cbn [fst] in Hkb.
  set (payload := if negb (da =? 0) then _ else _).
  assert (Hpr : in_u 32 payload).
  { unfold payload. destruct (negb _); [by apply (wrap_range 32)|]. destruct (negb _); [by apply (wrap_range 32)|done]. }
  destruct (negb (payload =? 0) && (payload <? e)) eqn:Ec; [done|]. destruct (crypt_hmac_size hs <? LUKS_DIGESTSIZE); [done|]. intros [= <-].
  set (l := LUKS_fix_header_compatible _) in *. destruct (place_keyslots_ok 8 ks 8) as [Hf Hl]. rewrite Ep in Hf, Hl. cbn [fst] in Hf, Hl.
  assert (Hfx : l = set_hashSpec (hashSpec l) (set_cipher (cipherName l) (cipherMode l)
      (Phdr LUKS_MAGIC 1 [] [] [] payload (u32 n) (zeros 20) (zeros 32) 0 (zeros 40) kbs (zeros 432))) /\
    zlen (hashSpec l) = 32 /\ zlen (cipherName l) = 32 /\ zlen (cipherMode l) = 32 /\
    nul_ended (hashSpec l) /\ nul_ended (cipherName l) /\ nul_ended (cipherMode l)).
  { unfold l, LUKS_fix_header_compatible. destruct ecb_mode_ended as [Z1 Z2].
    assert (Hfield : forall s, zlen (strncpy (32 - 1) s ++ [x00]) = 32 /\ nul_ended (strncpy (32 - 1) s ++ [x00])).
    { intros s0. split; [rewrite zlen_app, zlen_strncpy by lia; done|by eexists]. }
    destruct (Hfield c), (Hfield m), (Hfield hs). unfold LUKS_CIPHERNAME_L, LUKS_CIPHERMODE_L, LUKS_HASHSPEC_L in *.
    case_bool_decide; phdr_fields; (split; [done|]); rewrite zlen_to_lower; auto 10 using to_lower_nul. }
  destruct Hfx as (Hfx & F1 & F2 & F3 & F4 & F5 & F6).
  assert (Hok : phdr_ok l).
  { rewrite Hfx. split; phdr_fields; try done; by apply (wrap_range 32). }
  assert (Hkl : forall i, 0 <= i < 8 -> exists k, kbs !! Z.to_nat i = Some k /\ kb l i = k).
  { intros i Hi. destruct (lookup_lt_is_Some_2 kbs (Z.to_nat i)) as [k Hk]; [lia|]. exists k. split; [done|]. unfold kb. by rewrite Hkb, Hk. }
  assert (Hpl : payloadOffset l = payload) by by rewrite Hfx.
  assert (Hkn : keyBytes l = n) by (rewrite Hfx; phdr_fields; apply u32_id; lia).
  assert (Har : area_sectors l = ks) by (unfold area_sectors; by rewrite Hkn).
  pose proof (fun i j ki kj => place_keyslots_order 8 ks 8 i j ki kj ltac:(lia) ltac:(lia) ltac:(lia)) as Hord.
  rewrite Ep in Hord. cbn [fst snd] in Hord.
  split; [|intros Hda; rewrite Hpl; unfold payload; by rewrite (proj2 (Z.eqb_neq da 0) Hda)].
  split; try done; try by rewrite Hfx.
  - apply ordered_keyslots_pass; [done|lia| |].
    + intros i Hi. destruct (Hkl i Hi) as (k & Hk & ->). destruct (Hord _ _ _ _ Hk Hk) as (O1 & _ & O3 & O4). rewrite Har, Hpl.
      unfold SECTOR_SIZE. split; [done|]. split; [lia|]. split; [lia|]. split; [|].
      * lia.
      * intros Hp. rewrite (proj2 (Z.eqb_neq payload 0) Hp) in Ec. cbn [negb andb] in Ec. apply Z.ltb_ge in Ec. lia.
    + intros i j Hij Hj. destruct (Hkl i ltac:(lia)) as (k & Hk & ->). destruct (Hkl j ltac:(lia)) as (k' & Hk' & ->).
      destruct (Hord _ _ _ _ Hk Hk') as (_ & O2 & _). rewrite Har. apply O2. lia.
  - intros i Hi. destruct (Hkl i Hi) as (k & Hk & ->). apply (place_keyslots_disabled 8 ks 8 (Z.to_nat i)). by rewrite Ep.
Qed.
End layout.

Lemma filter_none {A} (P : A -> Prop) `{forall x, Decision (P x)} l : (forall x, x ∈ l -> ~ P x) -> filter P l = [].
Proof.
  intros HP. induction l as [|x l IH]; [done|]. rewrite filter_cons_False by (apply HP; by left). apply IH. intros y Hy. apply HP. by right.
Qed.

Lemma digest_iterations_range p it :
  0 <= p_time_ms p -> 0 <= p_iterations p -> digest_iterations p = Some it -> in_u 32 it.
Proof.
  intros Ht Hi. unfold digest_iterations. destruct (_ && _); [by intros [= <-]|].
  destruct (Z.eqb_spec (p_time_ms p) 0); [done|]. destruct (Z.ltb_spec (UINT32_MAX * p_time_ms p) (p_iterations p * LUKS_MKD_ITERATIONS_MS)); [done|].
  intros [= <-]. unfold LUKS_MKD_ITERATIONS_MIN, in_u.
  assert (p_iterations p * LUKS_MKD_ITERATIONS_MS / p_time_ms p <= UINT32_MAX) by (apply Z.div_le_upper_bound; lia).
  unfold UINT32_MAX in *. lia.
Qed.

Lemma write_uuid_ok `{LUL : LibUuidLaws} u : zlen (write_uuid u (zeros 40)) = 40 /\ nul_ended (write_uuid u (zeros 40)).
Proof.
  destruct (uuid_unparse_text u) as [Hz _]. unfold write_uuid.
  assert (Hl : length (uuid_unparse u ++ [x00]) = 37%nat) by (rewrite length_app; unfold zlen in Hz; cbn; lia).
  split; [apply zlen_splice; unfold zlen; rewrite ?Hl; cbn; lia|].
  exists (uuid_unparse u ++ [x00] ++ [x00; x00]). unfold splice. rewrite Hl. change (take (Z.to_nat 0) (zeros 40)) with (@nil byte).
  change (drop (Z.to_nat 0 + 37) (zeros 40)) with [x00; x00; x00]. rewrite app_nil_l, <-!app_assoc. done.
Qed.

Lemma generate_valid `{CH : CryptHash} `{CM : CryptHmac} `{CPL : CryptPbkdfLaws} `{LUL : LibUuidLaws}
    env h0 pbkdf vk cipher mode hash uuid data_offset align_offset required_alignment d h p d' :
  0 < zlen vk < 2 ^ 16 -> zlen (le_salt env).2 = 32 ->
  LUKS_generate_phdr env h0 pbkdf vk cipher mode hash uuid data_offset align_offset required_alignment d = Some ((0, h, p), d') ->
  0 <= p_time_ms p -> 0 <= p_iterations p -> LUKS_DIGESTSIZE <= crypt_hmac_size (cstr (hashSpec h)) ->
  phdr_valid h /\ d' = d /\ LUKS_verify_volume_key h vk = 0 /\ LUKS_keyslot_active_count h = 0 /\ LUKS_keyslot_find_empty h = 0 /\
  (0 < data_offset < 2 ^ 41 -> payloadOffset h * SECTOR_SIZE <= data_offset < (payloadOffset h + 1) * SECTOR_SIZE).
Proof.
  intros Hn Hsalt E Ht Hi Hmac. apply generate_phdr_inv in E as (l & u & dg & it & _ & El & _ & -> & Eit & <- & Hdg & ->); [|done].
  destruct (layout_phdr_ok _ _ _ _ _ _ _ l Hn El) as [[L1 L2 L3 (L4 & L5 & L6) L7 L8 L9 L10 L11] Hpay].
  pose proof (digest_iterations_range _ _ Ht Hi Eit) as Hit. destruct (write_uuid_ok u) as [Hu1 Hu2]. rewrite L7 in Hmac |- *.
  assert (Hd20 : zlen (crypt_pbkdf CRYPT_KDF_PBKDF2 (cstr (hashSpec l)) vk (le_salt env).2 LUKS_DIGESTSIZE it 0 0).2 = 20)
    by (by apply pbkdf_length).
  set (h := set_phdr_uuid _ _) in *. assert (Hkb : forall i, kb h i = kb l i) by done.
  split; [|split; [done|split; [|split; [|split]]]].
  - split; try done; try (by apply nul_ended_terminate).
    + destruct L1. unfold h. split; phdr_fields; done.
    + change (keyBytes l <> 0). lia.
  - unfold LUKS_verify_volume_key, h. cbn [hashSpec mkDigestSalt mkDigestIterations mkDigest set_phdr_uuid set_digest].
    destruct (crypt_pbkdf _ _ _ _ _ _ _ _) as [rd dgb]. cbn [fst snd] in *. rewrite (proj2 (Z.ltb_ge rd 0)) by lia.
    by rewrite bool_decide_true.
  - unfold LUKS_keyslot_active_count. rewrite filter_none; [done|]. intros i Hin. apply elem_of_seqZ in Hin.
    intros Hc. cbn beta in Hc. rewrite Hkb, L11 in Hc by lia. done.
  - unfold LUKS_keyslot_find_empty. change (seqZ 0 8) with (0 :: seqZ 1 7). rewrite filter_cons_True; [done|]. rewrite Hkb. apply L11. lia.
  - intros Hda. specialize (Hpay ltac:(lia)). change (payloadOffset l) with (payloadOffset h) in Hpay. fold h. rewrite Hpay. unfold SECTOR_SIZE.
    pose proof (Z.div_mod data_offset 512 ltac:(lia)). pose proof (Z.mod_pos_bound data_offset 512 ltac:(lia)).
    assert (0 <= data_offset / 512) by (apply Z.div_pos; lia). rewrite u32_id by lia. lia.
Qed.

(** ** Properties of headers that were read *)

(** C28: A valid LUKS1 header that fits the device, written without I/O errors,
    is the one that [LUKS_read_phdr] then reads, with or without a repair; no
    byte behind the header changes. *)
Theorem luks1_header_roundtrip `{CH : CryptHash} `{CM : CryptHmac} `{CC : CryptCipher} `{CP : CryptPbkdf} `{LU : LibUuid}
    env pbkdf h d :
  plain_ready (we_os (le_wipe env)) d -> phdr_valid h -> hdr_fits h d -> benign (f_sched (d_file d)) ->
  exists d1, LUKS_write_phdr env h d = Some ((0, h), d1) /\ f_size (d_file d1) = f_size (d_file d) /\
    (forall o n, PHDR_SIZE <= o -> 0 <= n -> slice o n (f_data (d_file d1)) = slice o n (f_data (d_file d))) /\
    forall h0 require repair, (repair = true -> require = true) ->
      exists d2, LUKS_read_phdr env pbkdf h0 require repair d1 = Some ((0, h), d2) /\ f_data (d_file d2) = f_data (d_file d1).
Proof.
  intros Hr Hv Hf Hbn. destruct (write_phdr_run env h d Hr Hv Hf) as (r & h' & d1 & E & C & L & [(-> & -> & On)|[_ []]]); [|done].
  exists d1. split; [done|]. split; [apply C|]. split; [intros o n Ho Hn; unfold PHDR_SIZE in *; apply C; lia|].
  intros h0 require repair Hrep.
  destruct (read_phdr_run env (_keyslot_repair env pbkdf) h h0 require repair d1 Hrep) as (r & h' & d2 & E2 & N & C2); try done.
  { by apply (plain_confined _ _ _ _ _ C L). }
  { unfold hdr_fits in *. by rewrite (cf_size _ _ _ _ C). }
  destruct C2 as [[-> ->]|[_ []]]; [exists d2; split; [done|apply N]|]. by apply (cf_sched _ _ _ _ C _ Hbn).
Qed.


(** C27: A header that [LUKS_generate_phdr] generates for a key below 64 KiB is
    valid: it passes the checks of a read, so that it can be written and read
    back; its keyslots are free, its digest is the one of the key, and a data
    offset below 2 TiB is the one requested. *)
Theorem luks1_generate_valid `{CH : CryptHash} `{CM : CryptHmac} `{CPL : CryptPbkdfLaws} `{LUL : LibUuidLaws}
    env h0 pbkdf vk cipher mode hash uuid data_offset align_offset required_alignment d h p d' :
  0 < zlen vk < 2 ^ 16 -> zlen (le_salt env).2 = 32 ->
  LUKS_generate_phdr env h0 pbkdf vk cipher mode hash uuid data_offset align_offset required_alignment d = Some ((0, h, p), d') ->
  0 <= p_time_ms p -> 0 <= p_iterations p -> LUKS_DIGESTSIZE <= crypt_hmac_size (cstr (hashSpec h)) ->
  phdr_valid h /\ d' = d /\ LUKS_verify_volume_key h vk = 0 /\ LUKS_keyslot_active_count h = 0 /\ LUKS_keyslot_find_empty h = 0 /\
  (0 < data_offset < 2 ^ 41 -> payloadOffset h * SECTOR_SIZE <= data_offset < (payloadOffset h + 1) * SECTOR_SIZE).
Proof. apply generate_valid. Qed.

(** C26: A LUKS1 header that [LUKS_read_phdr] accepts, with or without a repair,
    from a device smaller than 2 TiB: every keyslot has 4000 stripes, its area
    lies behind the header, ends before the data area and within the device,
    and the areas of two keyslots are disjoint. *)
Theorem luks1_read_areas_disjoint `{CH : CryptHash} `{CM : CryptHmac} `{CC : CryptCipher} `{CP : CryptPbkdf} `{LU : LibUuid}
    env pbkdf h0 require repair d h d' :
  0 < env_block_size (we_os (le_wipe env)) ->
  LUKS_read_phdr env pbkdf h0 require repair d = Some ((0, h), d') -> f_size (d_file d') < 2 ^ 41 ->
  forall i, 0 <= i < 8 ->
    let '(r, offset, length) := LUKS_keyslot_area h i in
    r = 0 /\ PHDR_SIZE <= offset /\ offset + length <= f_size (d_file d') /\
    (payloadOffset h <> 0 -> offset + length <= payloadOffset h * SECTOR_SIZE) /\
    stripes (kb h i) = LUKS_STRIPES /\
    forall j, 0 <= j < 8 -> i <> j ->
      let '(_, offset', length') := LUKS_keyslot_area h j in offset + length <= offset' \/ offset' + length' <= offset.
Proof.
  intros Hb E Hsz i Hi. apply read_phdr_accepted in E as (Ha & _ & Hs); [|done|intros; by eapply repair_accepted].
  destruct (accepted_areas h d' Ha Hs Hsz) as [Har Hin]. pose proof (AF_split_sectors_range (keyBytes h) LUKS_STRIPES) as Hr.
  fold (area_sectors h) in Hr.
  assert (Hk : forall k, 0 <= k < 8 -> LUKS_keyslot_area h k = (0, keyMaterialOffset (kb h k) * SECTOR_SIZE, area_sectors h * SECTOR_SIZE) /\
    0 <= keyMaterialOffset (kb h k)).
  { intros k Hk. pose proof (kb_offset_range h k (proj1 Ha)) as Ho. unfold in_u in Ho. unfold LUKS_keyslot_area, LUKS_NUMKEYS.
    rewrite (proj2 (Z.leb_gt 8 k)), (proj2 (Z.ltb_ge k 0)) by lia. cbn [orb]. fold (area_sectors h).
    specialize (Hin k Hk). unfold SECTOR_SIZE in *. rewrite !u64_id by lia. split; [done|lia]. }
  destruct (Hk i Hi) as [-> Hi0]. split; [done|]. unfold SECTOR_SIZE in *. split; [by apply (ar_header _ Har i)|].
  split; [specialize (Hin i Hi); lia|]. split; [intros Hp; pose proof (ar_payload _ Har i Hi Hp); lia|].
  split; [by apply (ar_stripes _ Har)|]. intros j Hj Hij. destruct (Hk j Hj) as [-> _].
  destruct (ar_disjoint _ Har i j Hi Hj Hij); [left|right]; lia.
Qed.
