(* ===== verification/Luks1Keys.v ===== *)
(** * Luks1Keys: keyslots of LUKS1

    The material of a keyslot that was stored is the material that is read, a
    key set under a password is the key opened with it, and a deleted keyslot
    is wiped on the device; each operation changes the header and its own
    keyslot's area only. *)

From S2P Require Import Prelude UtilsIO CryptBackend UtilsCrypt CryptStorage StorageWrapper Pbkdf Luks2Json Device Wipe WipeProps AF Luks2Keyslot Luks2Areas KeyEncryption Cstd Luks1 Luks1Facts Luks1Io Luks1Props.
From Stdlib Require Import Strings.Byte.

(** ** Keyslot areas on the device *)

Section storage.
Context `{CHL : CryptHashLaws} `{CCL : CryptCipherLaws}.
Variables (env : os_env) (dm : dm_env).

Lemma encrypt_to_storage_run src len c m key sector s d :
  plain_ready env d -> crypt_storage_init SECTOR_SIZE c m key false = inr s -> storage_total s -> zlen src = len ->
  area_at sector len d ->
  exists r d' enc, LUKS_encrypt_to_storage env dm src len c m key sector d = Some (r, d') /\
    confined (sector * SECTOR_SIZE) len (d_file d) (d_file d') /\ d_lh d' = d_lh d /\
    crypt_storage_encrypt s 0 len src = (0, enc) /\ zlen enc = len /\
    ((r = 0 /\ slice (sector * SECTOR_SIZE) len (f_data (d_file d')) = enc) \/ (r < 0 /\ ~ benign (f_sched (d_file d)))).
Proof.
  intros Hr Hi Ht Hz Ha. pose proof Ha as [Hs [Hl Hd] Hin Hw].
  destruct (storage_init_ok SECTOR_SIZE c m key false s ltac:(unfold SECTOR_SIZE; lia) Hi) as (Hok & Hss & _).
  destruct (storage_encrypt_total s len src Hok Ht ltac:(lia)) as [enc He]; [by rewrite Hss|].
  destruct (storage_decrypt_encrypt s 0 len src enc Hok ltac:(lia) He) as (_ & Hze & _). rewrite Hz in Hze.
  unfold LUKS_encrypt_to_storage. rewrite aligned_512 by done. cbn [negb]. rewrite Hi, He. cbn [negb Z.eqb].
  destruct Hr as (Hr & Hn & Hlt). assert (Hwr : writable d) by (unfold writable; by rewrite Hn).
  destruct (open_either_ok env d O_RDWR (dev_ready_opens _ _ Hr)) as (fd & d1 & E & Hfd & Hf & Hlh); [tauto|].
  rewrite E. clear E. rewrite (proj2 (Z.ltb_ge fd 0) Hfd). pose proof (dev_next_file d d1 Hf Hlh) as N1.
  assert (Hr1 : plain_ready env d1) by (apply (plain_next _ d); done).
  rewrite (sector_offset_id _ _ _ Ha), <-Hze.
  destruct (dev_write_step env d1 fd enc (sector * SECTOR_SIZE) (proj1 Hr1) Hfd) as (w & d2 & E & C & L2 & R).
  { unfold SECTOR_SIZE; lia. } { rewrite Hf. lia. }
  rewrite E. clear E. unfold device_sync. rewrite ret_step. rewrite Hf in C, R. rewrite Hze in *.
  exists (if w <? 0 then - EIO else 0), d2, enc. split; [done|]. split; [done|]. split; [congruence|]. split; [done|]. split; [done|].
  destruct R as [[-> R]|[-> R]].
  - rewrite (proj2 (Z.ltb_ge len 0)) by lia. by left.
  - by right.
Qed.

Lemma decrypt_from_storage_run src enc len c m key sector s d :
  plain_ready env d -> crypt_storage_init SECTOR_SIZE c m key false = inr s -> zlen src = len ->
  crypt_storage_encrypt s 0 len src = (0, enc) -> area_at sector len d ->
  slice (sector * SECTOR_SIZE) len (f_data (d_file d)) = enc ->
  exists r buf d', LUKS_decrypt_from_storage env dm len c m key sector d = Some ((r, buf), d') /\ dev_next d d' /\
    ((r = 0 /\ buf = src) \/ (r < 0 /\ ~ benign (f_sched (d_file d)))).
Proof.
  intros Hr Hi Hz He Ha Hsl. pose proof Ha as [Hs [Hl Hd] Hin Hw].
  destruct (storage_init_ok SECTOR_SIZE c m key false s ltac:(unfold SECTOR_SIZE; lia) Hi) as (Hok & Hss & _).
  destruct (storage_decrypt_encrypt s 0 len src enc Hok ltac:(lia) He) as (Hdec & _ & _).
  unfold LUKS_decrypt_from_storage. rewrite aligned_512 by done. cbn [negb]. rewrite Hi.
  destruct Hr as (Hr & Hn & Hlt).
  destruct (open_either_ok env d O_RDONLY (dev_ready_opens _ _ Hr)) as (fd & d1 & E & Hfd & Hf & Hlh); [tauto|].
  rewrite E. clear E. rewrite (proj2 (Z.ltb_ge fd 0) Hfd). pose proof (dev_next_file d d1 Hf Hlh) as N1.
  assert (Hr1 : plain_ready env d1) by (apply (plain_next _ d); done).
  rewrite (sector_offset_id _ _ _ Ha).
  destruct (dev_read_step env d1 fd len (sector * SECTOR_SIZE) (proj1 Hr1) Hfd Hl) as (n & buf & d2 & E & N2 & R).
  { unfold SECTOR_SIZE; lia. }
  rewrite E. clear E. cbn beta match. rewrite Hf in R. destruct R as [[-> ->]|[-> R]].
  - rewrite (proj2 (Z.ltb_ge len 0)) by lia. rewrite Hsl, Hdec. exists 0, src, d2. split; [done|].
    split; [by transitivity d1|by left].
  - exists (- EIO), [], d2. split; [done|]. split; [by transitivity d1|]. right. split; [done|].
    destruct R as [R|R]; [done|lia].
Qed.
End storage.

(** ** Changes of a keyslot in the header *)

(** The parts of the header that place the areas. *)
Definition same_areas (h h' : luks_phdr) : Prop :=
  (forall i, keyMaterialOffset (kb h' i) = keyMaterialOffset (kb h i) /\ stripes (kb h' i) = stripes (kb h i)) /\
  payloadOffset h' = payloadOffset h /\ keyBytes h' = keyBytes h.

Lemma sift_down_ext off off' j a : (forall i, off' i = off i) -> sift_down off' j a = sift_down off j a.
Proof.
  intros He. revert a. induction j as [|j IH]; intros a; cbn [sift_down]; [done|]. rewrite !He. by destruct (_ <? _).
Qed.

Lemma sort_from_ext off off' n i a : (forall i, off' i = off i) -> sort_from off' n i a = sort_from off n i a.
Proof.
  intros He. revert i a. induction n as [|n IH]; intros i a; cbn [sort_from]; [done|]. by rewrite (sift_down_ext off off'), IH.
Qed.

Lemma same_areas_sorted h h' : same_areas h h' -> sorted_areas h' = sorted_areas h.
Proof. intros [Hk _]. apply sort_from_ext. intros i. apply Hk. Qed.

Lemma same_areas_sectors h h' : same_areas h h' -> LUKS_device_sectors h' = LUKS_device_sectors h.
Proof.
  intros Hs. unfold LUKS_device_sectors. rewrite (same_areas_sorted _ _ Hs). destruct Hs as (Hk & _ & Hb).
  by rewrite Hb, (proj1 (Hk _)).
Qed.

Lemma forallb_ext' {A} (f g : A -> bool) l : (forall x, f x = g x) -> forallb f l = forallb g l.
Proof. intros He. induction l as [|x l IH]; cbn; [done|]. by rewrite He, IH. Qed.
Lemma existsb_ext' {A} (f g : A -> bool) l : (forall x, f x = g x) -> existsb f l = existsb g l.
Proof. intros He. induction l as [|x l IH]; cbn; [done|]. by rewrite He, IH. Qed.

Lemma same_areas_check h h' : same_areas h h' -> LUKS_check_keyslots h' = LUKS_check_keyslots h.
Proof.
  intros Hs. unfold LUKS_check_keyslots. rewrite (same_areas_sorted _ _ Hs). destruct Hs as (Hk & Hp & Hb). rewrite Hb.
  set (secs := u32 _). rewrite (forallb_ext' (keyslot_placed h' secs) (keyslot_placed h secs)).
  - destruct (negb _); [done|]. erewrite existsb_ext'; [done|]. intros p. cbn beta. by rewrite !(proj1 (Hk _)).
  - intros i. unfold keyslot_placed. rewrite Hp. destruct (Hk i) as [-> ->]. done.
Qed.

Lemma kb_upd i f h j :
  kb (upd_kb i f h) j = if decide (Z.to_nat i = Z.to_nat j /\ (Z.to_nat i < length (keyblock h))%nat) then f (kb h j) else kb h j.
Proof.
  unfold kb, upd_kb, set_keyblocks. cbn [keyblock]. case_decide as Hd.
  - destruct Hd as [<- Hl]. rewrite list_lookup_alter_eq. by destruct (lookup_lt_is_Some_2 _ _ Hl) as [k ->].
  - destruct (decide (Z.to_nat i = Z.to_nat j)) as [He|He]; [|by rewrite list_lookup_alter_ne].
    rewrite He, list_lookup_alter_eq, lookup_ge_None_2; [done|]. lia.
Qed.

Lemma kb_upd_eq i f h : phdr_ok h -> 0 <= i < 8 -> kb (upd_kb i f h) i = f (kb h i).
Proof. intros Hok Hi. rewrite kb_upd, decide_True; [done|]. rewrite (po_length _ Hok). lia. Qed.

Lemma upd_kb_compose i f g h : upd_kb i f (upd_kb i g h) = upd_kb i (fun k => f (g k)) h.
Proof.
  unfold upd_kb, set_keyblocks. cbn [keyblock magic ph_version cipherName cipherMode hashSpec payloadOffset keyBytes mkDigest
    mkDigestSalt mkDigestIterations ph_uuid _padding]. by rewrite list_alter_alter_eq.
Qed.

(** Updates of a keyslot that leave its area alone. *)
Definition keeps_area (f : luks_keyblock -> luks_keyblock) : Prop :=
  forall k, keyMaterialOffset (f k) = keyMaterialOffset k /\ stripes (f k) = stripes k.

Lemma upd_kb_same_areas i f h : keeps_area f -> same_areas h (upd_kb i f h).
Proof. intros Hf. split; [|done]. intros j. rewrite kb_upd. case_decide; [apply Hf|done]. Qed.

Lemma upd_kb_ok i f h : phdr_ok h -> (forall k, keyblock_ok k -> keyblock_ok (f k)) -> phdr_ok (upd_kb i f h).
Proof.
  intros [] Hf. unfold upd_kb. split; phdr_fields; try assumption.
  - by rewrite length_alter.
  - apply Forall_alter; [done|]. intros k _. apply Hf.
Qed.

(** The memory and device requirements of a keyslot do not depend on its
    password. *)
Section valid.
Context `{CM : CryptHmac}.

Lemma upd_kb_valid i f h :
  phdr_valid h -> keeps_area f -> (forall k, keyblock_ok k -> keyblock_ok (f k)) -> phdr_valid (upd_kb i f h).
Proof.
  intros [] Hf Hk. pose proof (upd_kb_same_areas i f h Hf) as Hs. split; try done; [by apply upd_kb_ok|].
  by rewrite (same_areas_check _ _ Hs).
Qed.

Lemma upd_kb_fits i f h d : keeps_area f -> hdr_fits h d -> hdr_fits (upd_kb i f h) d.
Proof. intros Hf. unfold hdr_fits. by rewrite (same_areas_sectors _ _ (upd_kb_same_areas i f h Hf)). Qed.

Lemma valid_stripes h i : phdr_valid h -> 0 <= i < 8 -> stripes (kb h i) = LUKS_STRIPES.
Proof.
  intros Hv Hi. destruct (check_keyslots_inv h (pv_keyslots _ Hv)) as [Hp _]. specialize (Hp i Hi). unfold keyslot_placed in Hp.
  by destruct (Z.eqb_spec (stripes (kb h i)) LUKS_STRIPES).
Qed.
End valid.

(** Nothing changed but the header and the area of a keyslot. *)
Definition keyslot_only (h : luks_phdr) (i : Z) (f f' : file) : Prop :=
  f_size f' = f_size f /\ sched_le f f' /\
  forall o n, PHDR_SIZE <= o -> 0 <= n ->
    o + n <= keyMaterialOffset (kb h i) * SECTOR_SIZE \/ (keyMaterialOffset (kb h i) + area_sectors h) * SECTOR_SIZE <= o ->
    slice o n (f_data f') = slice o n (f_data f).

Lemma keyslot_only_refl h i f f' : f_data f' = f_data f -> sched_le f f' -> keyslot_only h i f f'.
Proof. intros Hd Hs. split; [by apply size_eq|]. split; [done|]. intros. by rewrite Hd. Qed.

Lemma keyslot_only_trans h i f g k : keyslot_only h i f g -> keyslot_only h i g k -> keyslot_only h i f k.
Proof.
  intros (S1 & L1 & C1) (S2 & L2 & C2). split; [congruence|]. split; [by transitivity g|]. intros. by rewrite C2, C1.
Qed.

Lemma keyslot_only_header h i f f' : confined 0 PHDR_SIZE f f' -> keyslot_only h i f f'.
Proof. intros [S L C]. split; [done|]. split; [done|]. intros o n Ho Hn _. unfold PHDR_SIZE in *. apply C; lia. Qed.

Lemma keyslot_only_area h i f f' :
  confined (keyMaterialOffset (kb h i) * SECTOR_SIZE) (area_sectors h * SECTOR_SIZE) f f' -> keyslot_only h i f f'.
Proof.
  intros [S L C]. split; [done|]. split; [done|]. intros o n Ho Hn Hd. unfold PHDR_SIZE in *. apply C; lia.
Qed.

(** ** Setting and opening a key *)

Section keys.
Context `{CHL : CryptHashLaws} `{CM : CryptHmac} `{CCL : CryptCipherLaws} `{CPL : CryptPbkdfLaws} `{LU : LibUuid}.
Variable env : luks1_env.
Let os : os_env := we_os (le_wipe env).

Definition area_bytes (h : luks_phdr) : Z := area_sectors h * SECTOR_SIZE.

Lemma area_bytes_material h : area_bytes h = material_bytes (keyBytes h).
Proof. done. Qed.

Lemma area_bytes_size h bs : bs = keyBytes h -> AF_split_sectors bs LUKS_STRIPES *64 SECTOR_SIZE = area_bytes h.
Proof. intros ->. apply material_bytes_size. Qed.

(** What a keyslot needs of the context: memory for the key and its stripes, an
    area in the first 4 GiB, a hash that is known. *)
Record keyslot_usable (h : luks_phdr) (i : Z) : Prop := {
  ku_slot : 0 <= i < 8;
  ku_memory : keyBytes h <= mem_limit os /\ area_bytes h <= mem_limit os;
  ku_wrap : keyMaterialOffset (kb h i) * SECTOR_SIZE < 2 ^ 32;
  ku_hash : 0 < crypt_hash_size (cstr (hashSpec h));
}.

Lemma usable_area h i d : phdr_valid h -> hdr_fits h d -> keyslot_usable h i -> area_at (keyMaterialOffset (kb h i)) (area_bytes h) d.
Proof.
  intros Hv Hf [Hi Hm Hw Hh]. pose proof (kb_offset_range h i (pv_ok _ Hv)) as Ho. unfold in_u in Ho.
  pose proof (device_sectors_bound h i (pv_ok _ Hv) Hi) as Hs. unfold hdr_fits, area_bytes, SECTOR_SIZE in *.
  pose proof (AF_split_sectors_range (keyBytes h) LUKS_STRIPES) as Ha. fold (area_sectors h) in Ha.
  split; unfold SECTOR_SIZE; [lia| |lia|done]. split; [lia|]. by apply Z.divide_factor_r.
Qed.

Lemma usable_alloc h i : phdr_valid h -> keyslot_usable h i ->
  alloc_fails os (keyBytes h) = false /\ safe_alloc_fails os (area_bytes h) = false.
Proof.
  intros Hv [_ [H1 H2] _ _]. split; [by apply Z.ltb_ge|]. pose proof (po_keyBytes _ (pv_ok _ Hv)) as Hk. pose proof (pv_keyBytes _ Hv).
  apply key_memory; [done|unfold in_u in Hk; lia|done].
Qed.

Definition iterations_of (p : crypt_pbkdf_type) : Z := Z.max (p_iterations p) LUKS_SLOT_ITERATIONS_MIN.

(** The keyslot when its key is set. *)
Definition enabled_keyblock (it : Z) (salt : bytes) (k : luks_keyblock) : luks_keyblock :=
  Keyblock LUKS_KEY_ENABLED it salt (keyMaterialOffset k) (stripes k).

Lemma enabled_keeps_area it salt : keeps_area (enabled_keyblock it salt).
Proof. by intros k. Qed.

(** The key that the password gives for a keyslot. *)
Definition slot_key (h : luks_phdr) (password salt : bytes) (it : Z) : Z * bytes :=
  crypt_pbkdf CRYPT_KDF_PBKDF2 (cstr (hashSpec h)) password salt (keyBytes h) it 0 0.

(** The key derivation, the back end and the generator succeed for a key. *)
Record set_key_works (pbkdf p : crypt_pbkdf_type) (i : Z) (password vk : bytes) (h : luks_phdr) (s : crypt_storage) : Prop := {
  sk_free : kb_active (kb h i) = LUKS_KEY_DISABLED;
  sk_key : zlen vk = keyBytes h;
  sk_benchmark : crypt_benchmark_pbkdf_internal (le_samples env) pbkdf (zlen vk) = Returns (0, p);
  sk_iterations : 0 < p_iterations p < 2 ^ 32;
  sk_salt : 0 <= (le_salt env).1 /\ zlen (le_salt env).2 = 32;
  sk_stripes : random_ok (le_stripes env) (keyBytes h) /\ LUKS_STRIPES - 1 <= zlen (le_stripes env);
  sk_derived : 0 <= (slot_key h password (le_salt env).2 (iterations_of p)).1;
  sk_storage : crypt_storage_init SECTOR_SIZE (c_string (cipherName h)) (c_string (cipherMode h))
    (slot_key h password (le_salt env).2 (iterations_of p)).2 false = inr s;
  sk_total : storage_total s;
}.

Lemma iterations_range p : 0 < p_iterations p < 2 ^ 32 -> in_u 32 (iterations_of p).
Proof. unfold iterations_of, LUKS_SLOT_ITERATIONS_MIN, in_u. lia. Qed.

(** The header after the key was set. *)
Definition key_set (p : crypt_pbkdf_type) (i : Z) (h : luks_phdr) : luks_phdr :=
  upd_kb i (enabled_keyblock (iterations_of p) (le_salt env).2) h.

Lemma key_set_steps p i h :
  let h1 := upd_kb i (set_password (iterations_of p) (passwordSalt (kb h i))) h in
  let h2 := upd_kb i (set_password (iterations_of p) (le_salt env).2) h1 in
  upd_kb i (set_active LUKS_KEY_ENABLED) h2 = key_set p i h.
Proof. cbv zeta. unfold key_set. by rewrite !upd_kb_compose. Qed.

Lemma key_set_valid p i h : phdr_valid h -> 0 < p_iterations p < 2 ^ 32 -> zlen (le_salt env).2 = 32 -> phdr_valid (key_set p i h).
Proof.
  intros Hv Hp Hs. apply upd_kb_valid; [done|apply enabled_keeps_area|]. intros k []. split; cbn; try done. by apply iterations_range.
Qed.

Lemma keyslot_info_disabled h i : 0 <= i < 8 -> kb_active (kb h i) = LUKS_KEY_DISABLED -> LUKS_keyslot_info h i = CRYPT_SLOT_INACTIVE.
Proof.
  intros Hi Ha. unfold LUKS_keyslot_info, LUKS_NUMKEYS. rewrite (proj2 (Z.leb_gt 8 i)), (proj2 (Z.ltb_ge i 0)) by lia.
  cbn [orb]. by rewrite Ha.
Qed.

Lemma keyslot_info_enabled h i : 0 <= i < 8 -> kb_active (kb h i) = LUKS_KEY_ENABLED -> slot_not_active (LUKS_keyslot_info h i) = false.
Proof.
  intros Hi Ha. unfold LUKS_keyslot_info, LUKS_NUMKEYS. rewrite (proj2 (Z.leb_gt 8 i)), (proj2 (Z.ltb_ge i 0)) by lia.
  cbn [orb]. rewrite Ha. change (LUKS_KEY_ENABLED =? LUKS_KEY_DISABLED) with false. rewrite Z.eqb_refl. cbn [negb]. by destruct (existsb _ _).
Qed.

(** What a set key leaves on the device: the encrypted stripes of the key. *)
Definition material_of (h : luks_phdr) (vk : bytes) (s : crypt_storage) (i : Z) (d : device) : Prop :=
  exists stripes enc, zlen stripes = area_bytes h /\
    (forall dst, AF_merge stripes dst (keyBytes h) LUKS_STRIPES (cstr (hashSpec h)) = (0, vk)) /\
    crypt_storage_encrypt s 0 (area_bytes h) stripes = (0, enc) /\ zlen enc = area_bytes h /\
    slice (keyMaterialOffset (kb h i) * SECTOR_SIZE) (area_bytes h) (f_data (d_file d)) = enc.

Lemma split_key h vk :
  phdr_valid h -> zlen vk = keyBytes h -> 0 < crypt_hash_size (cstr (hashSpec h)) ->
  random_ok (le_stripes env) (keyBytes h) -> LUKS_STRIPES - 1 <= zlen (le_stripes env) ->
  exists st, AF_split (le_stripes env) vk (zeros (Z.to_nat (area_bytes h))) (keyBytes h) LUKS_STRIPES (cstr (hashSpec h)) = (0, st) /\
    zlen st = area_bytes h /\ forall dst, AF_merge st dst (keyBytes h) LUKS_STRIPES (cstr (hashSpec h)) = (0, vk).
Proof.
  intros Hv Hz. pose proof (po_keyBytes _ (pv_ok _ Hv)) as Hk. pose proof (pv_keyBytes _ Hv). rewrite area_bytes_material, <-Hz in *.
  intros Hh Hr Hn. apply split_key_material; try done. unfold in_u in Hk. lia.
Qed.

Lemma set_key_run pbkdf p i password h vk s d :
  plain_ready os d -> phdr_valid h -> hdr_fits h d -> keyslot_usable h i -> set_key_works pbkdf p i password vk h s ->
  exists r h' d', LUKS_set_key env pbkdf i password h vk d = Some ((r, h', p), d') /\
    keyslot_only h i (d_file d) (d_file d') /\ d_lh d' = d_lh d /\
    ((r = 0 /\ h' = key_set p i h /\ hdr_on_disk h' d' /\ material_of h vk s i d') \/ (r < 0 /\ ~ benign (f_sched (d_file d)))).
Proof.
  intros Hr Hv Hf Hu [K1 K2 K3 K4 K5 K6 K7 K8 K9]. pose proof (ku_slot _ _ Hu) as Hi.
  pose proof (valid_stripes h i Hv Hi) as Hst. destruct (usable_alloc h i Hv Hu) as [A1 A2].
  unfold LUKS_set_key. rewrite K1, Z.eqb_refl, Hst. cbn [negb]. change (LUKS_STRIPES <? 4000) with false. cbn match.
  unfold benchmark. rewrite K3, ret_step. cbn beta match. change (0 <? 0) with false. cbn match.
  rewrite (proj2 (Z.eqb_neq (p_iterations p) 0)) by lia. cbn [negb]. erewrite bind_run by reflexivity.
  fold (iterations_of p). set (h1 := upd_kb i (set_password (iterations_of p) (passwordSalt (kb h i))) h).
  change (keyBytes h1) with (keyBytes h). fold os. rewrite A1. destruct (le_salt env) as [rs salt] eqn:Es. cbn [fst snd] in *.
  destruct K5 as [K5 K5']. rewrite (proj2 (Z.ltb_ge rs 0) K5). set (h2 := upd_kb i (set_password (iterations_of p) salt) h1).
  change (hashSpec h2) with (hashSpec h). change (keyBytes h2) with (keyBytes h).
  change (crypt_pbkdf CRYPT_KDF_PBKDF2 (cstr (hashSpec h)) password salt (keyBytes h) (iterations_of p) 0 0) with (slot_key h password salt (iterations_of p)).
  destruct (slot_key h password salt (iterations_of p)) as [rd dk] eqn:Ed. cbn [fst snd] in *.
  rewrite (proj2 (Z.ltb_ge rd 0) K7). rewrite (proj2 (Z.eqb_eq (zlen vk) (keyBytes h)) K2). erewrite bind_run by reflexivity.
  assert (Hkb2 : keyMaterialOffset (kb h2 i) = keyMaterialOffset (kb h i) /\ stripes (kb h2 i) = LUKS_STRIPES).
  { rewrite <-Hst. unfold h2, h1. rewrite upd_kb_compose.
    apply (proj1 (upd_kb_same_areas i (fun k => set_password (iterations_of p) salt (set_password (iterations_of p) (passwordSalt (kb h i)) k)) h
      (fun k => conj eq_refl eq_refl)) i). }
  destruct Hkb2 as [Hko Hks]. rewrite Hks, Hko, (area_bytes_size h (zlen vk) K2), A2, K2.
  destruct (split_key h vk Hv K2 (ku_hash _ _ Hu) (proj1 K6) (proj2 K6)) as (st & Esp & Hzs & Hm). rewrite Esp.
  change (0 <? 0) with false. cbn match. change (cipherName h2) with (cipherName h). change (cipherMode h2) with (cipherMode h).
  destruct (encrypt_to_storage_run os (le_dm env) st (area_bytes h) _ _ dk (keyMaterialOffset (kb h i)) s d Hr K8 K9 Hzs
    (usable_area h i d Hv Hf Hu)) as (r1 & d1 & enc & E1 & C1 & L1 & Henc & Hze & R1).
  fold os. erewrite bind_run by exact E1. clear E1.
  pose proof (keyslot_only_area h i _ _ C1) as O1. pose proof (plain_confined _ _ _ _ _ C1 L1 Hr) as Hr1.
  destruct R1 as [[-> R1]|[Hlt R1]].
  2: { rewrite (proj2 (Z.ltb_lt r1 0) Hlt). eexists _, _, _. split; [reflexivity|]. split; [done|]. split; [done|]. by right. }
  change (0 <? 0) with false. cbn match. unfold LUKS_keyslot_set.
  assert (Hinfo : LUKS_keyslot_info h2 i = CRYPT_SLOT_INACTIVE).
  { apply keyslot_info_disabled; [done|]. unfold h2, h1. rewrite upd_kb_compose, kb_upd_eq by (try apply Hv; done). done. }
  rewrite Hinfo. rewrite bool_decide_false by done. change (0 <? 0) with false. cbn match.
  assert (Hset : upd_kb i (set_active LUKS_KEY_ENABLED) h2 = key_set p i h).
  { rewrite <-key_set_steps. unfold h2, h1. by rewrite Es. }
  rewrite Hset. assert (Hv' : phdr_valid (key_set p i h)) by (apply key_set_valid; [done|done|by rewrite Es]).
  destruct (write_phdr_run env (key_set p i h) d1 Hr1 Hv') as (r2 & h' & d2 & E2 & C2 & L2 & R2).
  { apply upd_kb_fits; [apply enabled_keeps_area|]. unfold hdr_fits in *. by rewrite (cf_size _ _ _ _ C1). }
  erewrite bind_run by exact E2. clear E2. cbn beta match.
  eexists _, h', d2. split; [reflexivity|]. split; [eapply keyslot_only_trans; [done|by apply keyslot_only_header]|]. split; [congruence|].
  destruct R2 as [(-> & -> & On)|[Hlt R2]].
  - left. split; [done|]. split; [done|]. split; [done|]. exists st, enc. split; [done|]. split; [done|]. split; [done|]. split; [done|].
    rewrite <-R1. destruct (usable_area h i d Hv Hf Hu) as [Q1 [Q2 _] Q3 _].
    apply (cf_slice _ _ _ _ C2); [unfold SECTOR_SIZE; lia|done|]. right.
    pose proof (proj1 (check_keyslots_inv h (pv_keyslots _ Hv)) i Hi) as Hp. unfold keyslot_placed in Hp.
    destruct (negb _); [done|]. destruct (Z.ltb_spec (u32 (keyMaterialOffset (kb h i) * SECTOR_SIZE)) PHDR_SIZE); [done|].
    rewrite u32_id in * by (pose proof (ku_wrap _ _ Hu); unfold SECTOR_SIZE in *; lia). lia.
  - rewrite (proj2 (Z.ltb_lt r2 0) Hlt). right. split; [done|]. intros B. apply R2. by apply (cf_sched _ _ _ _ C1 _ B).
Qed.

(** A password that opens a keyslot whose material is on the device. *)
Record open_key_works (i : Z) (password vk : bytes) (h : luks_phdr) (s : crypt_storage) : Prop := {
  ok_enabled : kb_active (kb h i) = LUKS_KEY_ENABLED;
  ok_derived : 0 <= (slot_key h password (passwordSalt (kb h i)) (passwordIterations (kb h i))).1;
  ok_storage : crypt_storage_init SECTOR_SIZE (c_string (cipherName h)) (c_string (cipherMode h))
    (slot_key h password (passwordSalt (kb h i)) (passwordIterations (kb h i))).2 false = inr s;
  ok_digest : LUKS_verify_volume_key h vk = 0;
  ok_null : crypt_is_cipher_null (Some (c_string (cipherName h))) = true -> password = [];
}.

Lemma open_key_run i password h vk s d :
  plain_ready os d -> phdr_valid h -> hdr_fits h d -> keyslot_usable h i -> open_key_works i password vk h s -> material_of h vk s i d ->
  exists r vk' d', LUKS_open_key env i password h d = Some ((r, vk'), d') /\ dev_next d d' /\
    ((r = 0 /\ vk' = vk) \/ (r < 0 /\ ~ benign (f_sched (d_file d)))).
Proof.
  intros Hr Hv Hf Hu [O1 O2 O3 O4 O5] (st & enc & Hz & Hm & Henc & Hze & Hsl). pose proof (ku_slot _ _ Hu) as Hi.
  destruct (usable_alloc h i Hv Hu) as [A1 A2]. unfold LUKS_open_key. rewrite keyslot_info_enabled by done. fold os. rewrite A1.
  rewrite (valid_stripes h i Hv Hi), (area_bytes_size h _ eq_refl), A2.
  change (crypt_pbkdf CRYPT_KDF_PBKDF2 (cstr (hashSpec h)) password (passwordSalt (kb h i)) (keyBytes h) (passwordIterations (kb h i)) 0 0)
    with (slot_key h password (passwordSalt (kb h i)) (passwordIterations (kb h i))).
  destruct (slot_key _ _ _ _) as [rd dk]. cbn [fst snd] in *. rewrite (proj2 (Z.ltb_ge rd 0) O2).
  destruct (decrypt_from_storage_run os (le_dm env) st enc (area_bytes h) _ _ dk (keyMaterialOffset (kb h i)) s d Hr O3 Hz Henc
    (usable_area h i d Hv Hf Hu) Hsl) as (r & buf & d1 & E & N & C).
  fold os. erewrite bind_run by exact E. clear E. cbn beta match. destruct C as [[-> ->]|[Hlt C]].
  - change (0 <? 0) with false. cbn match. rewrite Hm. change (0 <? 0) with false. cbn match. rewrite O4. cbn [Z.eqb andb].
    exists 0, vk, d1. split; [|split; [done|by left]].
    destruct (crypt_is_cipher_null _) eqn:En; [|done]. by rewrite (O5 eq_refl).
  - rewrite (proj2 (Z.ltb_lt r 0) Hlt). exists r, [], d1. split; [done|]. split; [done|]. by right.
Qed.

(** The header after the key was set has the same material. *)
Lemma material_key_set p i h vk s d : 0 <= i < 8 -> material_of h vk s i d -> material_of (key_set p i h) vk s i d.
Proof.
  intros Hi (st & enc & H1 & H2 & H3 & H4 & H5). exists st, enc.
  destruct (upd_kb_same_areas i _ h (enabled_keeps_area (iterations_of p) (le_salt env).2)) as [Hk _].
  unfold key_set. rewrite (proj1 (Hk i)). done.
Qed.

(** ** Deleting a key *)

Definition disabled_keyblock (k : luks_keyblock) : luks_keyblock :=
  Keyblock LUKS_KEY_DISABLED 0 (zeros 32) (keyMaterialOffset k) (stripes k).

(** The header after the key was deleted. *)
Definition key_deleted (i : Z) (h : luks_phdr) : luks_phdr := upd_kb i disabled_keyblock h.

Lemma key_deleted_valid i h : phdr_valid h -> phdr_valid (key_deleted i h).
Proof. intros Hv. apply upd_kb_valid; [done|by intros k|]. intros k []. by split. Qed.

(** The area of the keyslot ends within the first 4 GiB and starts at a block
    of the device. *)
Record keyslot_wipeable (h : luks_phdr) (i : Z) : Prop := {
  kw_wrap : (keyMaterialOffset (kb h i) + area_sectors h) * SECTOR_SIZE < 2 ^ 32;
  kw_block : (env_block_size os | keyMaterialOffset (kb h i) * SECTOR_SIZE);
}.

Lemma wipe_ranges h i :
  phdr_ok h -> keyslot_wipeable h i -> stripes (kb h i) = LUKS_STRIPES ->
  let start := keyMaterialOffset (kb h i) in
  u32 (start * SECTOR_SIZE) = start * SECTOR_SIZE /\
  u32 (u32 (u32 (start + AF_split_sectors (keyBytes h) (stripes (kb h i))) - start) * SECTOR_SIZE) = area_bytes h.
Proof.
  intros Hok [W _] ->. fold (area_sectors h). cbv zeta. pose proof (kb_offset_range h i Hok) as Ho. unfold in_u in Ho.
  pose proof (AF_split_sectors_range (keyBytes h) LUKS_STRIPES) as Ha. fold (area_sectors h) in Ha. unfold SECTOR_SIZE in *.
  rewrite (u32_id (_ * 512)) by lia. split; [done|]. rewrite (u32_id (_ + area_sectors h)) by lia.
  replace (keyMaterialOffset (kb h i) + area_sectors h - keyMaterialOffset (kb h i)) with (area_sectors h) by lia.
  rewrite (u32_id (area_sectors h)) by lia. rewrite u32_id by lia. done.
Qed.

Lemma del_key_run i h h0 d :
  plain_ready os d -> oracle_ok (we_random (le_wipe env)) -> phdr_valid h -> hdr_fits h d -> hdr_on_disk h d ->
  keyslot_usable h i -> keyslot_wipeable h i -> LUKS_keyslot_info h i <> CRYPT_SLOT_INVALID ->
  exists r h' d', LUKS_del_key env i h0 d = Some ((r, h'), d') /\ keyslot_only h i (d_file d) (d_file d') /\ d_lh d' = d_lh d /\
    (r = 0 -> h' = key_deleted i h /\ hdr_on_disk h' d' /\
       wiped (we_random (le_wipe env)) CRYPT_WIPE_RANDOM
         (slice (keyMaterialOffset (kb h i) * SECTOR_SIZE) (area_bytes h) (f_data (d_file d')))) /\
    (wipe_works (le_wipe env) d -> r = 0).
Proof.
  intros Hr Hor Hv Hf On Hu Hw Hinfo. pose proof (ku_slot _ _ Hu) as Hi. unfold LUKS_del_key.
  destruct (read_phdr_run env (fun hdr => mret (- EINVAL, hdr)) h h0 true false d ltac:(done) Hr Hv Hf On) as (r & h1 & d1 & E & N1 & C).
  erewrite bind_run by exact E. clear E. cbn beta match. pose proof (plain_next _ _ _ N1 Hr) as Hr1. destruct N1 as (D1 & L1 & S1).
  destruct C as [[-> ->]|[Hlt C]].
  2: { rewrite (proj2 (Z.eqb_neq r 0)) by lia. cbn [negb]. exists r, h1, d1. split; [done|]. split; [by apply keyslot_only_refl|].
       split; [done|]. split; [lia|]. intros (B & _). by destruct C. }
  cbn [negb Z.eqb]. unfold LUKS_keyslot_set. rewrite i32_id by lia. rewrite bool_decide_false by done. cbn [negb Z.eqb].
  set (h2 := upd_kb i (set_active LUKS_KEY_DISABLED) h). change (keyBytes h2) with (keyBytes h).
  assert (Hk2 : keyMaterialOffset (kb h2 i) = keyMaterialOffset (kb h i) /\ stripes (kb h2 i) = stripes (kb h i)).
  { apply (proj1 (upd_kb_same_areas i (set_active LUKS_KEY_DISABLED) h (fun k => conj eq_refl eq_refl)) i). }
  destruct Hk2 as [-> ->]. destruct (wipe_ranges h i (pv_ok _ Hv) Hw (valid_stripes h i Hv Hi)) as [-> ->].
  destruct (usable_area h i d Hv Hf Hu) as [Q1 [Q2 Q2'] Q3 Q4]. pose proof (size_eq _ _ D1) as Z1.
  pose proof (proj2 (usable_alloc h i Hv Hu)) as Hal. unfold safe_alloc_fails in Hal. apply orb_false_iff in Hal as [Hal _].
  apply Z.eqb_neq in Hal. destruct Hr1 as (Hrdy & Hn1 & Hsz1).
  destruct (wipe_device_spec (le_wipe env) CRYPT_WIPE_SPECIAL (keyMaterialOffset (kb h i) * SECTOR_SIZE) (area_bytes h) (area_bytes h) d1)
    as (rw & d2 & E & [Cw Lw Ww Kw]).
  { split; [done|]. split; [unfold writable; by rewrite Hn1|]. done. }
  { split.
    - unfold SECTOR_SIZE. split; [lia|]. split; [apply Z.divide_factor_r|apply Hw].
    - rewrite Z1. split; [lia|]. done.
    - pose proof (kw_wrap _ _ Hw). unfold area_bytes in *. unfold SECTOR_SIZE in *. split; [lia|]. split; [done|]. by left. }
  erewrite bind_run by exact E. clear E. pose proof (keyslot_only_area h i _ _ Cw) as O2.
  assert (O1 : keyslot_only h i (d_file d) (d_file d2)).
  { eapply keyslot_only_trans; [by apply keyslot_only_refl|done]. }
  assert (Hww : wipe_works (le_wipe env) d -> wipe_works (le_wipe env) d1).
  { intros (B & X). split; [by apply (S1 _ B)|done]. }
  destruct (Z.eqb_spec rw 0) as [->|Hrw]; cbn [negb].
  2: { eexists _, h2, d2. split; [reflexivity|]. split; [done|]. split; [congruence|]. split.
       - destruct (Z.eqb_spec rw (- EACCES)); [done|]. intros ->. done.
       - intros X. by apply Hww, Kw in X. }
  assert (Hr2 : plain_ready os d2) by (apply (plain_confined os _ _ d1 d2 Cw Lw); split; [done|]; split; done).
  assert (Hd : upd_kb i (set_password 0 (zeros 32)) h2 = key_deleted i h) by (unfold h2, key_deleted; by rewrite upd_kb_compose).
  rewrite Hd. pose proof (key_deleted_valid i h Hv) as Hv'.
  destruct (write_phdr_run env (key_deleted i h) d2 Hr2 Hv') as (r3 & h' & d3 & E & C3 & L3 & R3).
  { apply upd_kb_fits; [by intros k|]. unfold hdr_fits in *. rewrite (cf_size _ _ _ _ Cw). lia. }
  exists r3, h', d3. split; [done|]. split; [eapply keyslot_only_trans; [done|by apply keyslot_only_header]|]. split; [congruence|]. split.
  - intros ->. destruct R3 as [(_ & -> & On')|[? _]]; [|lia]. split; [done|]. split; [done|].
    rewrite (cf_slice _ _ _ _ C3); [by apply Ww|unfold SECTOR_SIZE; lia|lia|]. right.
    pose proof (proj1 (check_keyslots_inv h (pv_keyslots _ Hv)) i Hi) as Hp. unfold keyslot_placed in Hp.
    destruct (negb _); [done|]. destruct (Z.ltb_spec (u32 (keyMaterialOffset (kb h i) * SECTOR_SIZE)) PHDR_SIZE); [done|].
    rewrite u32_id in * by (pose proof (ku_wrap _ _ Hu); unfold SECTOR_SIZE in *; lia). lia.
  - intros X. destruct R3 as [(? & _)|[_ R3]]; [done|]. exfalso. apply R3. destruct (Hww X) as [B _]. by apply (cf_sched _ _ _ _ Cw _ B).
Qed.
End keys.
