(* ===== verification/Luks1KeysProps.v ===== *)
(** * Luks1KeysProps: properties of LUKS1 keyslots

    Setting, opening and deleting keys, on the lemmas of [Luks1Keys]; where the
    32-bit arithmetic of the code breaks; and a concrete header on which the
    theorems of the LUKS1 files are applied. *)

From S2P Require Import Prelude UtilsIO CryptBackend UtilsCrypt CryptStorage StorageWrapper Pbkdf Luks2Json Device Wipe WipeProps AF Luks2Keyslot Luks2Areas KeyEncryption Cstd Luks1 Luks1Facts Luks1Io Luks1Props Luks1Keys.
From Stdlib Require Import Strings.Byte.

(** ** Properties *)

Section theorems.
Context `{CHL : CryptHashLaws} `{CM : CryptHmac} `{CCL : CryptCipherLaws} `{CPL : CryptPbkdfLaws} `{LU : LibUuid}.
Variable env : luks1_env.
Let os : os_env := we_os (le_wipe env).

(** C24: A volume key set under a password in a free keyslot of a valid header is
    opened with that password: without I/O errors [LUKS_set_key] returns 0 and
    [LUKS_open_key_with_hdr] on the header and device it leaves returns the
    keyslot and the key. Nothing changed but the header and the area of the
    keyslot. *)
Theorem luks1_key_roundtrip pbkdf p i password h vk s d :
  plain_ready os d -> phdr_valid h -> hdr_fits h d -> keyslot_usable env h i -> set_key_works env pbkdf p i password vk h s ->
  LUKS_verify_volume_key h vk = 0 -> (crypt_is_cipher_null (Some (c_string (cipherName h))) = true -> password = []) ->
  benign (f_sched (d_file d)) ->
  exists h1 d1 d2, LUKS_set_key env pbkdf i password h vk d = Some ((0, h1, p), d1) /\
    LUKS_open_key_with_hdr env i password h1 d1 = Some ((i, vk), d2) /\
    hdr_on_disk h1 d1 /\ keyslot_only h i (d_file d) (d_file d1).
Proof.
  intros Hr Hv Hf Hu Hw Hver Hnull Hbn. pose proof (ku_slot _ _ _ Hu) as Hi.
  destruct (set_key_run env pbkdf p i password h vk s d Hr Hv Hf Hu Hw) as (r & h1 & d1 & E & O & L & [(-> & -> & On & Hm)|[_ []]]); [|done].
  assert (Hv1 : phdr_valid (key_set env p i h)) by (apply key_set_valid; [done|apply Hw|apply Hw]).
  assert (Hkb : kb (key_set env p i h) i = enabled_keyblock (iterations_of p) (le_salt env).2 (kb h i)) by (apply kb_upd_eq; [apply Hv|done]).
  destruct O as (Sz & Sc & Oc).
  destruct (open_key_run env i password (key_set env p i h) vk s d1) as (r & vk' & d2 & E2 & N & [[-> ->]|[_ []]]).
  - destruct Hr as (R1 & R2 & R3). split; [by apply (dev_ready_size _ d)|]. split; [congruence|lia].
  - done.
  - apply upd_kb_fits; [apply enabled_keeps_area|]. unfold hdr_fits in *. lia.
  - destruct Hu as [U1 U2 U3 U4]. split; [done|done| |done]. rewrite Hkb. done.
  - destruct Hw. split; rewrite ?Hkb; done.
  - by apply material_key_set.
  - exists (key_set env p i h), d1, d2. split; [done|]. split; [|done].
    unfold LUKS_open_key_with_hdr. rewrite (proj2 (Z.leb_le 0 i)) by lia. erewrite bind_run by exact E2. done.
  - by apply (Sc _ Hbn).
Qed.

(** C25: [LUKS_del_key] on an active or inactive keyslot of a valid header: when
    it reports success the header on the device and in memory has the keyslot
    disabled, without salt and iterations; the keyslot's area holds random bytes
    only; nothing else on the device changed; the keyslot does not open any more.
    It succeeds when the transfers and the generator do. *)
Theorem luks1_del_key_wipes i h h0 d :
  plain_ready os d -> oracle_ok (we_random (le_wipe env)) -> phdr_valid h -> hdr_fits h d -> hdr_on_disk h d ->
  keyslot_usable env h i -> keyslot_wipeable env h i -> LUKS_keyslot_info h i <> CRYPT_SLOT_INVALID ->
  exists r h' d', LUKS_del_key env i h0 d = Some ((r, h'), d') /\ keyslot_only h i (d_file d) (d_file d') /\
    (r = 0 -> h' = key_deleted i h /\ phdr_valid h' /\ hdr_on_disk h' d' /\
       wiped (we_random (le_wipe env)) CRYPT_WIPE_RANDOM
         (slice (keyMaterialOffset (kb h i) * SECTOR_SIZE) (area_bytes h) (f_data (d_file d'))) /\
       forall password d1, LUKS_open_key env i password h' d1 = Some ((- ENOENT, []), d1)) /\
    (wipe_works (le_wipe env) d -> r = 0).
Proof.
  intros Hr Hor Hv Hf On Hu Hw Hinfo. pose proof (ku_slot _ _ _ Hu) as Hi.
  destruct (del_key_run env i h h0 d Hr Hor Hv Hf On Hu Hw Hinfo) as (r & h' & d' & E & O & _ & D & K).
  exists r, h', d'. split; [done|]. split; [done|]. split; [|done]. intros R. destruct (D R) as (-> & On' & W).
  split; [done|]. split; [by apply key_deleted_valid|]. split; [done|]. split; [done|]. intros password d1.
  unfold LUKS_open_key. rewrite keyslot_info_disabled; [done|done|]. unfold key_deleted. by rewrite kb_upd_eq by (try apply Hv; done).
Qed.
End theorems.

(** ** Where 32 bits do not suffice *)

(** Two keyslots whose sectors differ by 2^23 share their bytes on the device:
    [LUKS_keyslot_area] has disjoint areas, but the offset at which keyslots are
    read, written and wiped is the same. *)
Theorem luks1_keyslots_alias sector : sector_offset (sector + 2 ^ 23) = sector_offset sector.
Proof.
  unfold sector_offset, SECTOR_SIZE, wrap. replace ((sector + 2 ^ 23) * 512) with (sector * 512 + 1 * 2 ^ 32) by lia. apply Z_mod_plus_full.
Qed.

#[local] Existing Instances fx_hash fx_hash_laws fx_hmac fx_cipher fx_cipher_laws fx_crypt_pbkdf fx_pbkdf_laws fx_uuid fx_uuid_laws.

(** A data offset of 2 TiB is stored as 0, which means a detached header. *)
Theorem luks1_data_offset_truncated :
  exists l, layout_phdr 1 (bytes_of_string "aes") (bytes_of_string "xts-plain64") fx_alg (2 ^ 41) 0 0 = inr l /\ payloadOffset l = 0.
Proof. eexists. split; [vm_compute; reflexivity|]. by vm_compute. Qed.

(** ** An example *)

Definition fx_luks1_env : luks1_env := {|
  le_wipe := fx_wipe_env 512;
  le_dm := {| de_device_info := (0, false, 0); de_target_set := 0; de_create := fun _ _ _ _ _ => inl (- ENOTSUP); de_open := -1 |};
  le_samples := []; le_salt := (0, replicate 32 x11); le_stripes := replicate 3999 (0, [x07]); le_key := fun n => (0, zeros (Z.to_nat n));
  le_uuid := replicate 16 x61; le_confirm := true; le_create_file := true; le_store_file := fun n => n;
|}.

Definition fx_luks1_pbkdf : crypt_pbkdf_type :=
  PbkdfType (Some CRYPT_KDF_PBKDF2) (Some "sha256"%string) 0 1200 0 0 CRYPT_PBKDF_NO_BENCHMARK.
Definition fx_luks1_key : bytes := [x2a].
Definition fx_luks1_password : bytes := bytes_of_string "pw".
Definition fx_luks1_device (sched : list xfer) : device := Device (File (zeros (512 * 80)) 0 sched) None (-1) (-1).

Abbreviation fx_generated := (LUKS_generate_phdr fx_luks1_env (phdr_of_bytes []) fx_luks1_pbkdf fx_luks1_key (bytes_of_string "aes")
  (bytes_of_string "xts-plain64") fx_alg None 36864 0 0).

Definition fx_luks1_hdr : luks_phdr :=
  match fx_generated (fx_luks1_device []) with Some ((_, h, _), _) => h | None => phdr_of_bytes [] end.

Lemma fx_luks1_generated d : fx_generated d = Some ((0, fx_luks1_hdr, fx_luks1_pbkdf), d).
Proof. vm_compute. reflexivity. Qed.

Lemma fx_luks1_ready sched : plain_ready (we_os (le_wipe fx_luks1_env)) (fx_luks1_device sched).
Proof.
  assert (Hs : f_size (d_file (fx_luks1_device sched)) = 40960) by (unfold f_size, fx_luks1_device, zlen, zeros; cbn [d_file f_data]; rewrite length_replicate; lia).
  split; [|split; [done|rewrite Hs; lia]]. split; try done; cbn [env_block_size env_alignment we_os le_wipe fx_luks1_env fx_wipe_env d_file].
  - split; [lia|]. split; [by exists 1|by exists 8].
  - change (512 | f_size (d_file (fx_luks1_device sched))). rewrite Hs. by exists 80.
Qed.

Lemma fx_luks1_valid : phdr_valid fx_luks1_hdr /\ LUKS_verify_volume_key fx_luks1_hdr fx_luks1_key = 0.
Proof.
  destruct (generate_valid fx_luks1_env (phdr_of_bytes []) fx_luks1_pbkdf fx_luks1_key (bytes_of_string "aes") (bytes_of_string "xts-plain64")
    fx_alg None 36864 0 0 (fx_luks1_device []) fx_luks1_hdr fx_luks1_pbkdf (fx_luks1_device [])) as (V & _ & W & _).
  - done.
  - done.
  - apply fx_luks1_generated.
  - done.
  - done.
  - by vm_compute.
  - by split.
Qed.

Lemma fx_luks1_fits sched : hdr_fits fx_luks1_hdr (fx_luks1_device sched).
Proof.
  unfold hdr_fits. assert (E : LUKS_device_sectors fx_luks1_hdr = 72) by by vm_compute. rewrite E.
  unfold f_size, fx_luks1_device, zlen, zeros, SECTOR_SIZE. cbn [d_file f_data]. rewrite length_replicate. lia.
Qed.

Lemma luks1_generate_valid_witness :
  phdr_valid fx_luks1_hdr /\ payloadOffset fx_luks1_hdr * SECTOR_SIZE <= 36864 < (payloadOffset fx_luks1_hdr + 1) * SECTOR_SIZE.
Proof.
  destruct (luks1_generate_valid fx_luks1_env (phdr_of_bytes []) fx_luks1_pbkdf fx_luks1_key (bytes_of_string "aes") (bytes_of_string "xts-plain64")
    fx_alg None 36864 0 0 (fx_luks1_device []) fx_luks1_hdr fx_luks1_pbkdf (fx_luks1_device [])) as (V & _ & _ & _ & _ & P).
  - done.
  - done.
  - apply fx_luks1_generated.
  - done.
  - done.
  - by vm_compute.
  - split; [exact V|]. apply P. lia.
Defined.

Lemma luks1_header_roundtrip_witness :
  exists d1 d2, LUKS_write_phdr fx_luks1_env fx_luks1_hdr (fx_luks1_device [Xfer 100; Xerr EINTR]) = Some ((0, fx_luks1_hdr), d1) /\
    LUKS_read_phdr fx_luks1_env fx_luks1_pbkdf (phdr_of_bytes []) true true d1 = Some ((0, fx_luks1_hdr), d2).
Proof.
  destruct (luks1_header_roundtrip fx_luks1_env fx_luks1_pbkdf fx_luks1_hdr (fx_luks1_device [Xfer 100; Xerr EINTR])) as (d1 & E & _ & _ & R).
  - apply fx_luks1_ready.
  - apply fx_luks1_valid.
  - apply fx_luks1_fits.
  - by repeat constructor.
  - destruct (R (phdr_of_bytes []) true true) as (d2 & E2 & _); [done|]. exists d1, d2. split; [exact E|exact E2].
Defined.

Abbreviation fx_luks1_read := (LUKS_read_phdr fx_luks1_env fx_luks1_pbkdf (phdr_of_bytes []) true false
  (Device (File (phdr_bytes (hdr_to_disk fx_luks1_hdr) ++ zeros (512 * 78)) 1024 []) None 3 3)).

Lemma luks1_read_areas_disjoint_witness :
  exists h d, fx_luks1_read = Some ((0, h), d) /\ f_size (d_file d) = 40960 /\
    LUKS_keyslot_area h 2 = (0, 12288, 4096) /\ LUKS_keyslot_area h 3 = (0, 16384, 4096) /\ stripes (kb h 2) = LUKS_STRIPES.
Proof.
  assert (T : match fx_luks1_read with
      | Some ((r, h), d) => (r =? 0) && (f_size (d_file d) =? 40960) && bool_decide (LUKS_keyslot_area h 2 = (0, 12288, 4096)) &&
          bool_decide (LUKS_keyslot_area h 3 = (0, 16384, 4096))
      | None => false
      end = true) by (vm_compute; reflexivity).
  destruct fx_luks1_read as [[[r h] d]|] eqn:E; [|discriminate T].
  apply andb_prop in T as [T B]. apply andb_prop in T as [T A]. apply andb_prop in T as [R Sz].
  apply bool_decide_eq_true_1 in A, B. apply Z.eqb_eq in R, Sz. subst r.
  exists h, d. split; [done|]. split; [exact Sz|]. split; [exact A|]. split; [exact B|].
  pose proof (luks1_read_areas_disjoint fx_luks1_env fx_luks1_pbkdf (phdr_of_bytes []) true false _ h d
    ltac:(done) E ltac:(rewrite Sz; done) 2 ltac:(lia)) as W.
  rewrite A in W. apply W.
Defined.

Lemma fx_luks1_usable i : 0 <= i < 8 -> keyslot_usable fx_luks1_env fx_luks1_hdr i.
Proof.
  intros Hi. split; [done|split; vm_compute; discriminate| |by vm_compute].
  assert (Hk : forallb (fun i => keyMaterialOffset (kb fx_luks1_hdr i) * SECTOR_SIZE <? 2 ^ 32) (seqZ 0 8) = true) by by vm_compute.
  rewrite forallb_forall in Hk. apply Z.ltb_lt, Hk, list_elem_of_In, elem_of_seqZ. lia.
Qed.

Lemma fx_slot_key : slot_key fx_luks1_hdr fx_luks1_password (le_salt fx_luks1_env).2 (iterations_of fx_luks1_pbkdf) = (0, [x07]).
Proof. by vm_compute. Qed.

Definition fx_storage : crypt_storage := {|
  sector_size := 512; iv_shift := 0; s_cipher := fx_cipher_ctx [x07];
  cipher_iv := {| type := IV_PLAIN64; iv_size := 16; iv_cipher := None; shift := 0 |};
|}.

Lemma fx_luks1_works : set_key_works fx_luks1_env fx_luks1_pbkdf fx_luks1_pbkdf 1 fx_luks1_password fx_luks1_key fx_luks1_hdr fx_storage.
Proof.
  split; [by vm_compute|by vm_compute|by vm_compute|by vm_compute|split; [done|by vm_compute]| | | |].
  - split; [|by vm_compute]. unfold random_ok. cbn [le_stripes fx_luks1_env]. apply Forall_replicate. by vm_compute.
  - by rewrite fx_slot_key.
  - rewrite fx_slot_key. assert (C1 : c_string (cipherName fx_luks1_hdr) = "aes"%string) by by vm_compute.
    assert (C2 : c_string (cipherMode fx_luks1_hdr) = "xts-plain64"%string) by by vm_compute. rewrite C1, C2. vm_compute. reflexivity.
  - split; [intros sec|intros iv d]; eexists; [|by apply (eq_refl : cipher_encrypt (fx_cipher_ctx [x07]) iv d = _)].
    unfold crypt_sector_iv_generate. cbn [cipher_iv fx_storage type]. reflexivity.
Qed.

Lemma luks1_key_roundtrip_witness :
  exists h1 d1 d2, LUKS_set_key fx_luks1_env fx_luks1_pbkdf 1 fx_luks1_password fx_luks1_hdr fx_luks1_key (fx_luks1_device [Xerr EINTR]) =
      Some ((0, h1, fx_luks1_pbkdf), d1) /\
    LUKS_open_key_with_hdr fx_luks1_env 1 fx_luks1_password h1 d1 = Some ((1, fx_luks1_key), d2).
Proof.
  destruct (luks1_key_roundtrip fx_luks1_env fx_luks1_pbkdf fx_luks1_pbkdf 1 fx_luks1_password fx_luks1_hdr fx_luks1_key fx_storage
    (fx_luks1_device [Xerr EINTR])) as (h1 & d1 & d2 & E1 & E2 & _).
  - apply fx_luks1_ready.
  - apply fx_luks1_valid.
  - apply fx_luks1_fits.
  - apply fx_luks1_usable. lia.
  - apply fx_luks1_works.
  - apply fx_luks1_valid.
  - by vm_compute.
  - by repeat constructor.
  - exists h1, d1, d2. split; [exact E1|exact E2].
Defined.

Lemma luks1_del_key_wipes_witness :
  exists h d', LUKS_del_key fx_luks1_env 1 fx_luks1_hdr
      (Device (File (phdr_bytes (hdr_to_disk fx_luks1_hdr) ++ zeros (512 * 78)) 0 [Xfer 700]) None (-1) (-1)) = Some ((0, h), d') /\
    hdr_on_disk h d' /\ kb_active (kb h 1) = LUKS_KEY_DISABLED.
Proof.
  set (d := Device _ _ _ _).
  assert (Hs : f_size (d_file d) = 40960) by by vm_compute.
  destruct (luks1_del_key_wipes fx_luks1_env 1 fx_luks1_hdr fx_luks1_hdr d) as (r & h' & d' & E & _ & D & K).
  - split; [|split; [done|rewrite Hs; lia]]. split; try done; cbn [env_block_size env_alignment we_os le_wipe fx_luks1_env fx_wipe_env d_file].
    + split; [lia|]. split; [by exists 1|by exists 8].
    + change (512 | f_size (d_file d)). rewrite Hs. by exists 80.
  - intros k n Hn _. cbn. unfold zlen. rewrite length_replicate. lia.
  - apply fx_luks1_valid.
  - unfold hdr_fits. rewrite Hs. by vm_compute.
  - by vm_compute.
  - apply fx_luks1_usable. lia.
  - split; [by vm_compute|]. apply Z.divide_factor_r.
  - by vm_compute.
  - assert (R : r = 0) by (apply K; split; [by repeat constructor|split; [intros k n; reflexivity|split; [reflexivity|intros; reflexivity]]]).
    destruct (D R) as (-> & _ & O & _). rewrite R in E. exists (key_deleted 1 fx_luks1_hdr), d'.
    split; [exact E|]. split; [exact O|]. by vm_compute.
Defined.
