(* ===== verification/Luks2Validate.v ===== *)
(** * Luks2Validate: validation of the JSON header

    The validators of lib/luks2/luks2_json_metadata.c, from the sections to
    [LUKS2_hdr_validate] and [LUKS2_hdr_repair]. A validator returns the C
    code's value: 0 when the section is valid. *)

From S2P Require Import Prelude Cstd JsonC Luks2Json Luks2Keyslot Luks2Areas.

Record interval := Interval { i_offset : Z; i_length : Z }.

(** ** Intervals *)

Definition interval_at (ix : list interval) (i : nat) : interval := default (Interval 0 0) (ix !! i).

(** The [j] loop of [validate_intervals] finds an overlap. *)
Definition overlaps_any (ix : list interval) (i : nat) : bool :=
  existsb (fun j =>
      negb (Nat.eqb i j) &&
      (i_offset (interval_at ix j) <=? i_offset (interval_at ix i)) &&
      (i_offset (interval_at ix i) <?
         i_offset (interval_at ix j) +64 i_length (interval_at ix j)))
    (seq 0 (length ix)).

Definition validate_intervals (ix : list interval) (metadata_size keyslots_area_end : Z) : bool :=
  forallb (fun i =>
      let x := interval_at ix i in
      negb (i_offset x <? 2 *64 metadata_size) &&
      negb (i_length x =? 0) &&
      negb (keyslots_area_end <? i_offset x +64 i_length x) &&
      negb (overlaps_any ix i))
    (seq 0 (length ix)).

Definition overlaps_any_segment (ix : list interval) (i : nat) : bool :=
  existsb (fun j =>
      negb (Nat.eqb i j) &&
      (i_offset (interval_at ix j) <=? i_offset (interval_at ix i)) &&
      ((i_length (interval_at ix j) =? UINT64_MAX) ||
       (i_offset (interval_at ix i) <?
          i_offset (interval_at ix j) +64 i_length (interval_at ix j))))
    (seq 0 (length ix)).

Definition validate_segment_intervals (ix : list interval) : bool :=
  forallb (fun i =>
      negb ((i_length (interval_at ix i) =? UINT64_MAX) && negb (Nat.eqb i (length ix - 1))) &&
      negb (overlaps_any_segment ix i))
    (seq 0 (length ix)).

Section validate.
Context `{JC : JsonC}.

(** ** References between sections *)

(** [validate_keyslots_array] and [validate_segments_array]: the array holds
    strings that name objects of the section. *)
Definition validate_ref_array (jarr section : json) : bool :=
  forallb (fun j =>
      json_object_is_type j json_type_string &&
      has section (json_object_get_string j) json_type_object)
    (json_object_array_elems jarr).
Definition validate_keyslots_array (jarr jobj_keys : json) : bool := validate_ref_array jarr jobj_keys.
Definition validate_segments_array (jarr jobj_segments : json) : bool :=
  validate_ref_array jarr jobj_segments.

Definition segment_has_digest (segment_name : string) (jobj_digests : json) : bool :=
  existsb (fun kv => bool_decide (is_Some (LUKS2_array_jobj (json_get kv.2 "segments") segment_name)))
    (json_object_entries jobj_digests).

(** ** Keyslots and tokens *)

Definition LUKS2_keyslot_validate (hdr_keyslot : json) : Z :=
  if negb (has hdr_keyslot "type" json_type_string) then 1
  else match json_contains hdr_keyslot "key_size" json_type_int with
  | None => 1
  | Some jobj_key_size => if validate_json_uint32 jobj_key_size then 0 else 1
  end.

Definition LUKS2_token_validate (hdr_jobj jobj_token : json) : Z :=
  match json_object_object_get_ex hdr_jobj "keyslots" with
  | None => 1
  | Some jobj_keyslots =>
      if negb (has jobj_token "type" json_type_string) then 1
      else match json_contains jobj_token "keyslots" json_type_array with
      | None => 1
      | Some jarr => if validate_keyslots_array jarr jobj_keyslots then 0 else 1
      end
  end.

(** Every member of an object passes [f]: the loops that return 1 at the
    first bad member. *)
Definition for_all_members (j : json) (f : string -> json -> bool) : bool :=
  forallb (fun kv => f kv.1 kv.2) (json_object_entries j).

Definition hdr_validate_keyslots (hdr_jobj : json) : Z :=
  match json_object_object_get_ex hdr_jobj "keyslots" with
  | None => 1
  | Some j =>
      if for_all_members j (fun key val => numbered key && (LUKS2_keyslot_validate val =? 0))
      then 0 else 1
  end.

Definition hdr_validate_tokens (hdr_jobj : json) : Z :=
  match json_object_object_get_ex hdr_jobj "tokens" with
  | None => 1
  | Some j =>
      if for_all_members j (fun key val => numbered key && (LUKS2_token_validate hdr_jobj val =? 0))
      then 0 else 1
  end.

(** ** Digests *)

Definition digest_ok (jobj_keyslots jobj_segments : json) (key : string) (val : json) : bool :=
  numbered key &&
  has val "type" json_type_string &&
  match json_contains val "keyslots" json_type_array, json_contains val "segments" json_type_array with
  | Some jarr_keys, Some jarr_segs =>
      validate_keyslots_array jarr_keys jobj_keyslots && validate_segments_array jarr_segs jobj_segments
  | _, _ => false
  end.

Definition hdr_validate_digests (hdr_jobj : json) : Z :=
  match json_object_object_get_ex hdr_jobj "digests", json_object_object_get_ex hdr_jobj "keyslots",
        json_object_object_get_ex hdr_jobj "segments" with
  | Some j, Some jobj_keyslots, Some jobj_segments =>
      if for_all_members j (digest_ok jobj_keyslots jobj_segments) then 0 else 1
  | _, _, _ => 1
  end.

(** ** Segments *)

Definition integrity_ok (j : json) : bool :=
  match json_object_object_get_ex j "integrity" with
  | None => true
  | Some jobj_integrity =>
      has j "integrity" json_type_object &&
      has jobj_integrity "type" json_type_string &&
      has jobj_integrity "journal_encryption" json_type_string &&
      has jobj_integrity "journal_integrity" json_type_string
  end.

Definition hdr_validate_crypt_segment (j : json) (key : string) (jobj_digests : json) (size : Z) : Z :=
  match json_contains j "iv_tweak" json_type_string, json_contains j "encryption" json_type_string,
        json_contains j "sector_size" json_type_int with
  | Some jobj_ivoffset, Some _, Some jobj_sector_size =>
      if negb (integrity_ok j) then 1
      else if negb (validate_json_uint32 jobj_sector_size) then 1
      else
        let sector_size := crypt_jobj_get_uint32 jobj_sector_size in
        if (sector_size =? 0) || negb (MISALIGNED_512 sector_size =? 0) then 1
        else if negb (numbered (json_object_get_string jobj_ivoffset)) ||
                negb (fst (json_str_to_uint64 jobj_ivoffset)) then 1
        else if negb (size mod sector_size =? 0) then 1
        else if segment_has_digest key jobj_digests then 0 else 1
  | _, _, _ => 1
  end.

(** The size member: "dynamic" is 0, otherwise a number that is not 0. *)
Definition segment_size_field (jobj_size : json) : option Z :=
  if bool_decide (json_object_get_string jobj_size = "dynamic") then Some 0
  else if negb (numbered (json_object_get_string jobj_size)) then None
  else let '(ok, size) := json_str_to_uint64 jobj_size in
       if negb ok || (size =? 0) then None else Some size.

Definition strings_only (jarr : json) : bool :=
  forallb (fun j => json_object_is_type j json_type_string) (json_object_array_elems jarr).

Definition segment_flags_ok (val : json) : bool :=
  match json_object_object_get_ex val "flags" with
  | None => true
  | Some _ =>
      match json_contains val "flags" json_type_array with
      | None => false
      | Some jobj_flags => strings_only jobj_flags
      end
  end.

(** One iteration of the loop over the segments: the new [first_backup],
    [None] for [return 1]. *)
Definition segment_step (jobj_digests : json) (first_backup : Z) (key : string) (val : json) : option Z :=
  if negb (numbered key) then None
  else match json_contains val "type" json_type_string, json_contains val "offset" json_type_string,
             json_contains val "size" json_type_string with
  | Some jobj_type, Some jobj_offset, Some jobj_size =>
      if negb (numbered (json_object_get_string jobj_offset)) then None
      else
        let '(ok, offset) := json_str_to_uint64 jobj_offset in
        if negb ok then None
        else match segment_size_field jobj_size with
        | None => None
        | Some size =>
            if negb (MISALIGNED_512 offset =? 0) then None
            else if negb (MISALIGNED_512 size =? 0) then None
            else if negb (segment_flags_ok val) then None
            else
              let i := atoi key in
              let backup := json_segment_is_backup val in
              if negb backup && (0 <=? first_backup) && (first_backup <=? i) then None
              else if bool_decide (json_object_get_string jobj_type = "crypt") &&
                      negb (hdr_validate_crypt_segment val key jobj_digests size =? 0)
              then None
              else Some (if backup && ((first_backup <? 0) || (i <? first_backup))
                         then i else first_backup)
        end
  | _, _, _ => None
  end.

Fixpoint segments_loop (jobj_digests : json) (first_backup : Z) (l : list (string * json)) : option Z :=
  match l with
  | [] => Some first_backup
  | (key, val) :: l' =>
      match segment_step jobj_digests first_backup key val with
      | None => None
      | Some first_backup => segments_loop jobj_digests first_backup l'
      end
  end.

Definition segment_interval (jobj_segments : json) (i : Z) : option interval :=
  j ← json_segments_get_segment jobj_segments i;
  Some (Interval (json_segment_get_offset (Some j) false)
          (let n := json_segment_get_size (Some j) false in if n =? 0 then UINT64_MAX else n)).

Definition hdr_validate_segments (hdr_jobj : json) : Z :=
  match json_object_object_get_ex hdr_jobj "segments" with
  | None => 1
  | Some jobj_segments =>
      let count := json_object_object_length jobj_segments in
      if count <? 1 then 1
      else match json_object_object_get_ex hdr_jobj "digests" with
      | None => 1
      | Some jobj_digests =>
          match segments_loop jobj_digests (-1) (json_object_entries jobj_segments) with
          | None => 1
          | Some first_backup =>
              if first_backup =? 0 then 1
              else if count <=? first_backup then 1
              else
                let first_backup := if first_backup <? 0 then count else first_backup in
                match mapM (segment_interval jobj_segments) (seqZ 0 first_backup) with
                | None => 1
                | Some intervals =>
                    if negb (validate_segment_intervals intervals) then 1
                    else if forallb (fun i => bool_decide (is_Some (json_segments_get_segment jobj_segments i)))
                              (seqZ first_backup (count - first_backup))
                    then 0 else 1
                end
          end
      end
  end.

(** ** Keyslot areas *)

Definition area_interval (val : json) : option interval :=
  jobj_area ← json_contains val "area" json_type_object;
  _ ← json_contains jobj_area "type" json_type_string;
  jobj_offset ← json_contains jobj_area "offset" json_type_string;
  jobj_length ← json_contains jobj_area "size" json_type_string;
  if negb (numbered (json_object_get_string jobj_offset)) ||
     negb (numbered (json_object_get_string jobj_length)) then None
  else
    let '(ok1, offset) := json_str_to_uint64 jobj_offset in
    let '(ok2, length) := json_str_to_uint64 jobj_length in
    if ok1 && ok2 then Some (Interval offset length) else None.

Definition hdr_validate_areas (hdr_jobj : json) : Z :=
  match json_object_object_get_ex hdr_jobj "keyslots", json_object_object_get_ex hdr_jobj "segments" with
  | Some jobj_keyslots, Some _ =>
      if json_object_object_length jobj_keyslots =? 0 then 0
      else match mapM (fun kv => area_interval kv.2) (json_object_entries jobj_keyslots) with
      | None => 1
      | Some intervals =>
          if validate_intervals intervals (LUKS2_metadata_size_jobj hdr_jobj)
               (LUKS2_hdr_and_areas_size_jobj hdr_jobj)
          then 0 else 1
      end
  | _, _ => 1
  end.

(** ** Config *)

Definition config_flags_ok (jobj_config : json) : bool :=
  match json_object_object_get_ex jobj_config "flags" with
  | None => true
  | Some j => has jobj_config "flags" json_type_array && strings_only j
  end.

Definition config_requirements_ok (jobj_config : json) : bool :=
  match json_object_object_get_ex jobj_config "requirements" with
  | None => true
  | Some j =>
      has jobj_config "requirements" json_type_object &&
      match json_object_object_get_ex j "mandatory" with
      | None => true
      | Some jobj1 => has j "mandatory" json_type_array && strings_only jobj1
      end
  end.

Definition hdr_validate_config (hdr_jobj : json) : Z :=
  match json_object_object_get_ex hdr_jobj "config" with
  | None => 1
  | Some jobj_config =>
      match json_contains jobj_config "json_size" json_type_string,
            json_contains jobj_config "keyslots_size" json_type_string with
      | Some jobj, Some jobj' =>
          let '(ok1, json_size) := json_str_to_uint64 jobj in
          let '(ok2, keyslots_size) := json_str_to_uint64 jobj' in
          if negb ok1 || negb ok2 then 1
          else
            let metadata_size := json_size +64 LUKS2_HDR_BIN_LEN in
            if LUKS2_check_metadata_area_size metadata_size then 1
            else if LUKS2_check_keyslots_area_size keyslots_size then 1
            else
              let segment_offset :=
                json_segments_get_minimal_offset (json_get_segments_jobj hdr_jobj) false in
              if negb (segment_offset =? 0) &&
                 ((segment_offset <? keyslots_size) ||
                  (segment_offset - keyslots_size <? 2 *64 metadata_size))
              then 1
              else if negb (config_flags_ok jobj_config) then 1
              else if negb (config_requirements_ok jobj_config) then 1
              else 0
      | _, _ => 1
      end
  end.

(** ** The whole header *)

Definition hdr_validate_json_size (hdr_jobj : json) (hdr_json_size : Z) : Z :=
  let json_area_size := crypt_jobj_get_uint64 (json_get (json_get hdr_jobj "config") "json_size") in
  let json_size := zlen (json_object_to_json_string_ext hdr_jobj) in
  if negb (hdr_json_size =? json_area_size) then 1
  else if json_area_size <? json_size then 1 else 0.

Definition LUKS2_check_json_size (hdr : luks2_hdr) : Z :=
  hdr_validate_json_size (jobj hdr) (hdr_size hdr -64 LUKS2_HDR_BIN_LEN).

Definition checks : list (json -> Z) :=
  [ hdr_validate_tokens; hdr_validate_digests; hdr_validate_segments;
    hdr_validate_keyslots; hdr_validate_config; hdr_validate_areas ].

Definition LUKS2_hdr_validate (hdr_jobj : json) (json_size : Z) : Z :=
  if json_is_null hdr_jobj then 1
  else if existsb (fun validate => negb (validate hdr_jobj =? 0)) checks then 1
  else if negb (hdr_validate_json_size hdr_jobj json_size =? 0) then 1
  else if negb (LUKS2_keyslots_validate hdr_jobj =? 0) then 1
  else 0.

Definition LUKS2_hdr_repair (hdr_jobj : json) : json :=
  match json_object_object_get_ex hdr_jobj "keyslots" with
  | None => hdr_jobj
  | Some jobj_keyslots =>
      if negb (json_object_is_type jobj_keyslots json_type_object) then hdr_jobj
      else json_object_object_add hdr_jobj "keyslots" (LUKS2_keyslots_repair jobj_keyslots)
  end.

(** [validate_luks2_json_object] of luks2_disk_metadata.c: the code and the
    object, repaired when the first validation failed. *)
Definition validate_luks2_json_object (jobj_hdr : json) (length : Z) : Z * json :=
  if negb (json_object_is_type jobj_hdr json_type_object) then (1, jobj_hdr)
  else if LUKS2_hdr_validate jobj_hdr length =? 0 then (0, jobj_hdr)
  else
    let jobj_hdr := LUKS2_hdr_repair jobj_hdr in
    (LUKS2_hdr_validate jobj_hdr length, jobj_hdr).
End validate.

(** ** Interval checks *)

Definition no_wrap (x : interval) : Prop :=
  in_u 64 (i_offset x) /\ in_u 64 (i_length x) /\ i_offset x + i_length x < 2 ^ 64.
Definition i_end (x : interval) : Z := i_offset x + i_length x.
Definition disjoint_intervals (x y : interval) : Prop := i_end x <= i_offset y \/ i_end y <= i_offset x.

Lemma interval_at_lookup ix i x : ix !! i = Some x -> interval_at ix i = x.
Proof. unfold interval_at. by intros ->. Qed.

Lemma forallb_seq n (f : nat -> bool) :
  forallb f (seq 0 n) = true <-> forall i, (i < n)%nat -> f i = true.
Proof.
  rewrite forallb_forall. split.
  - intros H i Hi. apply H, in_seq. lia.
  - intros H i Hi%in_seq. apply H. lia.
Qed.

Lemma existsb_seq_false n (f : nat -> bool) :
  existsb f (seq 0 n) = false <-> forall i, (i < n)%nat -> f i = false.
Proof.
  rewrite <-Bool.not_true_iff_false, existsb_exists. split.
  - intros H i Hi. apply Bool.not_true_iff_false. intros Hf. apply H. exists i.
    split; [apply in_seq; lia|done].
  - intros H (i & Hi%in_seq & Hf). rewrite H in Hf by lia. done.
Qed.

Lemma overlaps_any_false ix i x :
  ix !! i = Some x -> overlaps_any ix i = false ->
  forall j y, ix !! j = Some y -> i <> j ->
    i_offset x < i_offset y \/ i_offset y +64 i_length y <= i_offset x.
Proof.
  intros Hx Hov j y Hy Hne. unfold overlaps_any in Hov. rewrite existsb_seq_false in Hov.
  specialize (Hov j ltac:(by eapply lookup_lt_Some)).
  rewrite (interval_at_lookup _ _ _ Hx), (interval_at_lookup _ _ _ Hy) in Hov.
  destruct (Nat.eqb_spec i j); [done|]. cbn [negb andb] in Hov. lia.
Qed.

(** What [validate_intervals] checks, with the machine's wrap-around. *)
Lemma validate_intervals_sound ix m e :
  validate_intervals ix m e = true ->
  forall i x, ix !! i = Some x ->
    2 *64 m <= i_offset x /\ i_length x <> 0 /\ i_offset x +64 i_length x <= e /\
    forall j y, ix !! j = Some y -> i <> j ->
      i_offset x < i_offset y \/ i_offset y +64 i_length y <= i_offset x.
Proof.
  intros Hv i x Hx. unfold validate_intervals in Hv. rewrite forallb_seq in Hv.
  specialize (Hv i ltac:(by eapply lookup_lt_Some)). rewrite (interval_at_lookup _ _ _ Hx) in Hv.
  rewrite !andb_true_iff, !negb_true_iff in Hv. destruct Hv as (((H1 & H2) & H3) & H4).
  repeat split; try lia. eapply overlaps_any_false; eauto.
Qed.

Lemma validate_intervals_disjoint ix m e i j x y :
  validate_intervals ix m e = true -> ix !! i = Some x -> ix !! j = Some y -> i <> j ->
  no_wrap x -> no_wrap y -> disjoint_intervals x y.
Proof.
  intros Hv Hx Hy Hne (Hx1 & Hx2 & Hx3) (Hy1 & Hy2 & Hy3).
  destruct (validate_intervals_sound _ _ _ Hv i x Hx) as (_ & _ & _ & Hxy).
  destruct (validate_intervals_sound _ _ _ Hv j y Hy) as (_ & _ & _ & Hyx).
  specialize (Hxy j y Hy Hne). specialize (Hyx i x Hx ltac:(done)).
  unfold in_u in *. rewrite u64_id in Hxy, Hyx by lia. unfold disjoint_intervals, i_end. lia.
Qed.

Lemma mapM_lookup {A B} (f : A -> option B) l k n x :
  mapM f l = Some k -> l !! n = Some x -> exists y, f x = Some y /\ k !! n = Some y.
Proof.
  intros Hm Hn. apply mapM_Some_1 in Hm. by eapply Forall2_lookup_l in Hm as (y & Hy & Hf); eauto.
Qed.

Section validate_theorems.
Context `{JL : JsonCLaws}.

Lemma existsb_checks hdr_jobj :
  existsb (fun validate => negb (validate hdr_jobj =? 0)) checks = false ->
  hdr_validate_tokens hdr_jobj = 0 /\ hdr_validate_digests hdr_jobj = 0 /\
  hdr_validate_segments hdr_jobj = 0 /\ hdr_validate_keyslots hdr_jobj = 0 /\
  hdr_validate_config hdr_jobj = 0 /\ hdr_validate_areas hdr_jobj = 0.
Proof.
  unfold checks. cbn [existsb]. rewrite !orb_false_iff, !negb_false_iff, !Z.eqb_eq. tauto.
Qed.

(** A header is valid when all of its parts are. *)
Lemma LUKS2_hdr_validate_inv hdr_jobj n :
  LUKS2_hdr_validate hdr_jobj n = 0 ->
  hdr_validate_tokens hdr_jobj = 0 /\ hdr_validate_digests hdr_jobj = 0 /\
  hdr_validate_segments hdr_jobj = 0 /\ hdr_validate_keyslots hdr_jobj = 0 /\
  hdr_validate_config hdr_jobj = 0 /\ hdr_validate_areas hdr_jobj = 0 /\
  hdr_validate_json_size hdr_jobj n = 0 /\ LUKS2_keyslots_validate hdr_jobj = 0.
Proof.
  unfold LUKS2_hdr_validate. destruct (json_is_null hdr_jobj); [done|].
  destruct (existsb _ checks) eqn:E; [done|]. apply existsb_checks in E.
  destruct (Z.eqb_spec (hdr_validate_json_size hdr_jobj n) 0); [|done].
  destruct (Z.eqb_spec (LUKS2_keyslots_validate hdr_jobj) 0); [|done]. tauto.
Qed.

Lemma json_contains_get j k t v :
  json_contains j k t = Some v -> json_object_object_get_ex j k = Some v /\ json_object_get_type v = t.
Proof.
  unfold json_contains. destruct (json_object_object_get_ex j k) as [s|]; [|done].
  destruct (json_object_is_type s t) eqn:E; [|done]. intros [= ->]. by apply is_type_spec in E.
Qed.

Lemma get_ptr_get j k v : json_get_ptr j k = Some v -> json_object_object_get_ex j k = Some v.
Proof.
  unfold json_get_ptr. destruct (json_object_object_get_ex j k); [|done]. simpl.
  by destruct (json_is_null j0).
Qed.

(** The area of a keyslot, read from a member that passed the check. *)
Lemma keyslot_area_interval hdr i x val :
  0 <= i < LUKS2_KEYSLOTS_MAX -> LUKS2_get_keyslot_jobj hdr i = Some val ->
  area_interval val = Some x -> LUKS2_keyslot_area hdr i = (0, i_offset x, i_length x).
Proof.
  intros Hi Hj Ha. unfold LUKS2_keyslot_area.
  rewrite bool_decide_false.
  2: { unfold LUKS2_keyslot_info. rewrite (proj2 (Z.leb_gt _ _)), (proj2 (Z.ltb_ge _ _)) by lia.
       cbn [orb]. rewrite Hj. repeat case_match; done. }
  rewrite Hj. unfold area_interval in Ha.
  destruct (json_contains val "area" json_type_object) as [ja|] eqn:E1; [|done]. cbn [mbind option_bind] in Ha.
  destruct (json_contains ja "type" json_type_string) as [jt|]; [|done]. cbn [mbind option_bind] in Ha.
  destruct (json_contains ja "offset" json_type_string) as [jo|] eqn:E2; [|done]. cbn [mbind option_bind] in Ha.
  destruct (json_contains ja "size" json_type_string) as [jl|] eqn:E3; [|done]. cbn [mbind option_bind] in Ha.
  apply json_contains_get in E1 as [-> _]. apply json_contains_get in E2 as [-> _].
  apply json_contains_get in E3 as [-> _].
  destruct (_ || _); [done|]. unfold crypt_jobj_get_uint64.
  destruct (json_str_to_uint64 jo) as [ok1 o]. destruct (json_str_to_uint64 jl) as [ok2 l].
  destruct (ok1 && ok2); [|done]. injection Ha as <-. done.
Qed.

Lemma dec_u32_inj i j : 0 <= i < 2 ^ 32 -> 0 <= j < 2 ^ 32 -> dec_u32 i = dec_u32 j -> i = j.
Proof.
  intros Hi Hj E. unfold dec_u32 in E. rewrite !u32_id in E by done.
  change (2 ^ 32) with 4294967296 in *. change (10 ^ 20) with 100000000000000000000 in *.
  apply dec_u_inj in E; [done|change (10 ^ 20) with 100000000000000000000; lia..].
Qed.

Definition areas_no_wrap (hdr : luks2_hdr) : Prop :=
  forall i off len, 0 <= i < LUKS2_KEYSLOTS_MAX -> LUKS2_keyslot_area hdr i = (0, off, len) ->
    off + len < 2 ^ 64.

Lemma strtoull_range s v rest e : strtoull s = (v, rest, e) -> in_u 64 v.
Proof.
  unfold strtoull, in_u. destruct (parse_number s) as [[[neg m] r]|] eqn:E.
  - destruct (Z.ltb_spec UINT64_MAX m) as [H|H]; unfold UINT64_MAX in *.
    + intros [= <- _ _]. lia.
    + intros [= <- _ _]. destruct neg; [apply u64_range|].
      assert (0 <= m); [|lia]. clear -E. revert E. unfold parse_number.
      destruct (match skip_space s with EmptyString => _ | _ => _ end) as [n t].
      destruct t as [|c t]; [done|]. destruct (isdigit c) eqn:Ec; [|done].
      destruct (parse_digits (String c t) 0) as [v' r'] eqn:Ep. intros [= _ <- _].
      assert (Hp : forall s acc v r, 0 <= acc -> parse_digits s acc = (v, r) -> 0 <= v).
      { clear. induction s as [|c s IH]; simpl; intros acc v r Ha; [intros [= <- _]; done|].
        destruct (isdigit c) eqn:Ec; [|intros [= <- _]; done]. apply IH.
        unfold isdigit in Ec. lia. }
      eapply Hp; [|exact Ep]. lia.
  - intros [= <- _ _]. lia.
Qed.

Lemma str_to_uint64_range j : in_u 64 (snd (json_str_to_uint64 j)).
Proof.
  unfold json_str_to_uint64. destruct (strtoull (json_object_get_string j)) as [[v r] e] eqn:E.
  apply strtoull_range in E. destruct (_ || _); [split; simpl; lia|exact E].
Qed.

Lemma area_interval_range val x : area_interval val = Some x -> in_u 64 (i_offset x) /\ in_u 64 (i_length x).
Proof.
  unfold area_interval. intros Ha.
  repeat match type of Ha with (mbind _ ?m = _) => destruct m; [|done]; cbn [mbind option_bind] in Ha end.
  destruct (_ || _); [done|].
  match type of Ha with context [json_str_to_uint64 ?a] => pose proof (str_to_uint64_range a) as R1;
    destruct (json_str_to_uint64 a) as [ok1 o] end.
  match type of Ha with context [json_str_to_uint64 ?a] => pose proof (str_to_uint64_range a) as R2;
    destruct (json_str_to_uint64 a) as [ok2 l] end.
  destruct (ok1 && ok2); [|done]. injection Ha as <-. done.
Qed.

(** ** The sizes of a valid header *)

Lemma check_metadata_area_size_ok n :
  LUKS2_check_metadata_area_size n = false -> 0x4000 <= n <= 0x400000 /\ n mod 0x4000 = 0.
Proof.
  unfold LUKS2_check_metadata_area_size. rewrite negb_false_iff, bool_decide_eq_true.
  intros H. repeat (apply elem_of_cons in H as [->|H]; [split; [lia|reflexivity]|]).
  by apply elem_of_nil in H.
Qed.

Lemma check_keyslots_area_size_ok n :
  LUKS2_check_keyslots_area_size n = false -> n <= LUKS2_MAX_KEYSLOTS_SIZE /\ n mod 4096 = 0.
Proof.
  unfold LUKS2_check_keyslots_area_size. autorewrite with cs_bits. rewrite orb_false_iff. lia.
Qed.

Lemma json_get_contains j k t v : json_contains j k t = Some v -> json_get j k = v.
Proof. intros [H _]%json_contains_get. unfold json_get. by rewrite H. Qed.

(** What [hdr_validate_config] establishes. *)
Lemma hdr_validate_config_inv hdr_jobj :
  hdr_validate_config hdr_jobj = 0 ->
  LUKS2_check_metadata_area_size (LUKS2_metadata_size_jobj hdr_jobj) = false /\
  LUKS2_check_keyslots_area_size (LUKS2_keyslots_size_jobj hdr_jobj) = false /\
  let segment_offset := json_segments_get_minimal_offset (json_get_segments_jobj hdr_jobj) false in
  segment_offset = 0 \/ 2 *64 LUKS2_metadata_size_jobj hdr_jobj + LUKS2_keyslots_size_jobj hdr_jobj <= segment_offset.
Proof.
  unfold hdr_validate_config, LUKS2_metadata_size_jobj, LUKS2_keyslots_size_jobj.
  destruct (json_object_object_get_ex hdr_jobj "config") as [jc|] eqn:Ec; [|done].
  replace (json_get hdr_jobj "config") with jc by (unfold json_get; by rewrite Ec).
  destruct (json_contains jc "json_size" json_type_string) as [js|] eqn:E1; [|done].
  destruct (json_contains jc "keyslots_size" json_type_string) as [jk|] eqn:E2; [|done].
  rewrite (json_get_contains _ _ _ _ E1), (json_get_contains _ _ _ _ E2). unfold crypt_jobj_get_uint64.
  destruct (json_str_to_uint64 js) as [ok1 m]. destruct (json_str_to_uint64 jk) as [ok2 k].
  cbn [snd]. set (so := json_segments_get_minimal_offset _ _).
  destruct (negb ok1 || negb ok2); [done|].
  destruct (LUKS2_check_metadata_area_size _) eqn:Em; [done|].
  destruct (LUKS2_check_keyslots_area_size k) eqn:Ek; [done|].
  destruct (negb (so =? 0) && _) eqn:Es; [done|]. intros _. split; [done|]. split; [done|].
  cbv zeta. lia.
Qed.

(** The sizes that the header and its JSON agree on. *)
Lemma valid_sizes hdr :
  LUKS2_hdr_validate (jobj hdr) (hdr_size hdr -64 LUKS2_HDR_BIN_LEN) = 0 -> in_u 64 (hdr_size hdr) ->
  LUKS2_metadata_size hdr = hdr_size hdr /\
  0x4000 <= hdr_size hdr <= 0x400000 /\ hdr_size hdr mod 0x4000 = 0 /\
  0 <= LUKS2_keyslots_size hdr <= LUKS2_MAX_KEYSLOTS_SIZE /\ LUKS2_keyslots_size hdr mod 4096 = 0 /\
  get_min_offset hdr = 2 * hdr_size hdr /\
  get_max_offset hdr = 2 * hdr_size hdr + LUKS2_keyslots_size hdr.
Proof.
  intros (_ & _ & _ & _ & Hc & _ & Hs & _)%LUKS2_hdr_validate_inv Hu.
  apply hdr_validate_config_inv in Hc as (H1%check_metadata_area_size_ok & H2%check_keyslots_area_size_ok & _).
  assert (E : LUKS2_metadata_size_jobj (jobj hdr) = hdr_size hdr).
  { unfold hdr_validate_json_size in Hs. unfold LUKS2_metadata_size_jobj.
    destruct (Z.eqb_spec (hdr_size hdr -64 LUKS2_HDR_BIN_LEN)
      (crypt_jobj_get_uint64 (json_get (json_get (jobj hdr) "config") "json_size"))) as [<-|]; [|done].
    unfold wrap, LUKS2_HDR_BIN_LEN. rewrite Zplus_mod_idemp_l.
    replace (hdr_size hdr - 4096 + 4096) with (hdr_size hdr) by lia. by apply Z.mod_small. }
  unfold LUKS2_metadata_size, get_min_offset, get_max_offset, LUKS2_hdr_and_areas_size,
    LUKS2_hdr_and_areas_size_jobj, LUKS2_keyslots_size. rewrite E in *.
  assert (0 <= LUKS2_keyslots_size_jobj (jobj hdr)) by apply str_to_uint64_range.
  unfold LUKS2_MAX_KEYSLOTS_SIZE in *. rewrite (u64_id (2 * hdr_size hdr)) by lia.
  rewrite u64_id by lia. repeat split; lia.
Qed.

(** ** The areas of a valid header *)

(** A keyslot with an area is a member of the section, and its area is the
    interval that [hdr_validate_areas] checked for that member. *)
Lemma keyslot_area_checked hdr i off len :
  hdr_validate_areas (jobj hdr) = 0 ->
  0 <= i < LUKS2_KEYSLOTS_MAX -> LUKS2_keyslot_area hdr i = (0, off, len) ->
  exists ks ix n val, json_object_object_get_ex (jobj hdr) "keyslots" = Some ks /\
    validate_intervals ix (LUKS2_metadata_size_jobj (jobj hdr))
      (LUKS2_hdr_and_areas_size_jobj (jobj hdr)) = true /\
    mapM (fun kv => area_interval kv.2) (json_object_entries ks) = Some ix /\
    json_object_entries ks !! n = Some (dec_u32 i, val) /\
    ix !! n = Some (Interval off len) /\ in_u 64 off /\ in_u 64 len.
Proof.
  intros Hv Hi Ha.
  assert (Hj : exists val, LUKS2_get_keyslot_jobj hdr i = Some val).
  { unfold LUKS2_keyslot_area in Ha. case_bool_decide; [done|].
    destruct (LUKS2_get_keyslot_jobj hdr i); eauto; done. }
  destruct Hj as [val Hj]. pose proof Hj as Hj'. unfold LUKS2_get_keyslot_jobj in Hj'.
  rewrite (proj2 (Z.ltb_ge i 0)) in Hj' by lia. unfold hdr_validate_areas in Hv.
  destruct (json_object_object_get_ex (jobj hdr) "keyslots") as [ks|]; [|done].
  cbn [mbind option_bind] in Hj'. apply get_ptr_get, entries_lookup, list_elem_of_lookup in Hj' as [n Hn].
  destruct (json_object_object_get_ex (jobj hdr) "segments"); [|done].
  destruct (Z.eqb_spec (json_object_object_length ks) 0) as [E|E].
  { apply zlen_0_nil in E. by rewrite E in Hn. }
  destruct (mapM _ _) as [ix|] eqn:Em; [|done].
  destruct (validate_intervals _ _ _) eqn:Ev; [|done].
  destruct (mapM_lookup _ _ _ _ _ Em Hn) as (x & Hx & Hix). cbn in Hx.
  pose proof (area_interval_range _ _ Hx) as [R1 R2].
  rewrite (keyslot_area_interval hdr i x val Hi Hj Hx) in Ha. injection Ha as <- <-.
  exists ks, ix, n, val. destruct x. auto 7.
Qed.

Lemma areas_table_used hdr n a :
  areas_table hdr !! n = Some a -> used a ->
  exists i, n = Z.to_nat i /\ 0 <= i < LUKS2_KEYSLOTS_MAX /\
    LUKS2_keyslot_area hdr i = (0, a_offset a, a_length a).
Proof.
  intros Hi Hu. unfold areas_table in Hi. rewrite list_lookup_fmap in Hi.
  destruct (seqZ 0 LUKS2_KEYSLOTS_MAX !! n) as [z|] eqn:Ez; [|done].
  apply lookup_seqZ in Ez as [-> Hlt]. cbn [fmap option_fmap option_map] in Hi. injection Hi as <-.
  exists (0 + Z.of_nat n). split; [lia|]. split; [lia|].
  destruct (LUKS2_keyslot_area hdr (0 + Z.of_nat n)) as [[r off] len].
  destruct (Z.eqb_spec r 0) as [->|]; [done|by destruct Hu].
Qed.

(** Validation establishes the invariant of the area allocator. *)
Lemma validate_areas_valid hdr :
  LUKS2_hdr_validate (jobj hdr) (hdr_size hdr -64 LUKS2_HDR_BIN_LEN) = 0 -> in_u 64 (hdr_size hdr) ->
  areas_no_wrap hdr -> areas_valid hdr.
Proof.
  intros Hv Hu Hnw. destruct (valid_sizes hdr Hv Hu) as (Em & Hm & _ & Hk & _ & Emin & Emax).
  apply LUKS2_hdr_validate_inv in Hv as (_ & _ & _ & _ & _ & Hv & _).
  unfold LUKS2_MAX_KEYSLOTS_SIZE in *.
  split; [lia..|]. unfold LUKS2_metadata_size in Em. split.
  - intros n a Hn Hus. destruct (areas_table_used _ _ _ Hn Hus) as (i & -> & Hi & Ha).
    pose proof (Hnw i _ _ Hi Ha) as Hw.
    destruct (keyslot_area_checked _ _ _ _ Hv Hi Ha) as (ks & ix & m & val & _ & Hval & _ & _ & Hx & R1 & R2).
    destruct (validate_intervals_sound _ _ _ Hval _ _ Hx) as (H1 & H2 & H3 & _). cbn in *.
    unfold in_u in *. rewrite u64_id in H3 by lia. rewrite Em, u64_id in H1 by lia.
    change (LUKS2_hdr_and_areas_size_jobj (jobj hdr)) with (get_max_offset hdr) in H3.
    unfold a_end. lia.
  - intros n1 n2 a b Hn1 Hn2 Hne Hua Hub.
    destruct (areas_table_used _ _ _ Hn1 Hua) as (i & -> & Hi & Ha).
    destruct (areas_table_used _ _ _ Hn2 Hub) as (j & -> & Hj & Hb).
    destruct (keyslot_area_checked _ _ _ _ Hv Hi Ha) as (ks & ix & m1 & v1 & K1 & Hval & M1 & E1 & Hx & R1 & R2).
    destruct (keyslot_area_checked _ _ _ _ Hv Hj Hb) as (ks' & ix' & m2 & v2 & K2 & _ & M2 & E2 & Hy & R3 & R4).
    assert (ks' = ks) as -> by congruence. assert (ix' = ix) as -> by congruence.
    apply (validate_intervals_disjoint _ _ _ m1 m2 _ _ Hval Hx Hy);
      [|exact (conj R1 (conj R2 (Hnw i _ _ Hi Ha)))|exact (conj R3 (conj R4 (Hnw j _ _ Hj Hb)))].
    intros ->. rewrite E1 in E2. injection E2 as E2 _.
    unfold LUKS2_KEYSLOTS_MAX in *. apply dec_u32_inj in E2; lia.
Qed.

(** ** Segments *)

Definition segment_dynamic (segs : json) (i : Z) : Prop :=
  json_segment_get_size (json_segments_get_segment segs i) false = 0.
Definition segment_start (segs : json) (i : Z) : Z :=
  json_segment_get_offset (json_segments_get_segment segs i) false.
Definition segment_end (segs : json) (i : Z) : Z :=
  segment_start segs i + json_segment_get_size (json_segments_get_segment segs i) false.

(** Segment [i] has a size and ends before [j] starts. *)
Definition segment_before (segs : json) (i j : Z) : Prop :=
  ~ segment_dynamic segs i /\ segment_end segs i <= segment_start segs j.

Lemma validate_segment_intervals_sound ix :
  validate_segment_intervals ix = true ->
  forall i x, ix !! i = Some x ->
    (i_length x = UINT64_MAX -> S i = length ix) /\
    forall j y, ix !! j = Some y -> i <> j ->
      i_offset x < i_offset y \/
      (i_length y <> UINT64_MAX /\ i_offset y +64 i_length y <= i_offset x).
Proof.
  intros Hv i x Hx. unfold validate_segment_intervals in Hv. rewrite forallb_seq in Hv.
  pose proof (lookup_lt_Some _ _ _ Hx) as Hlt. specialize (Hv i Hlt).
  rewrite (interval_at_lookup _ _ _ Hx), andb_true_iff, !negb_true_iff in Hv. destruct Hv as [H1 H2].
  split.
  - intros E. rewrite E in H1. destruct (Nat.eqb_spec i (length ix - 1)); [lia|done].
  - intros j y Hy Hne. unfold overlaps_any_segment in H2. rewrite existsb_seq_false in H2.
    specialize (H2 j ltac:(by eapply lookup_lt_Some)).
    rewrite (interval_at_lookup _ _ _ Hx), (interval_at_lookup _ _ _ Hy) in H2.
    destruct (Nat.eqb_spec i j); [done|]. cbn [negb andb] in H2. lia.
Qed.

Lemma mapM_seqZ_lookup {B} (f : Z -> option B) n l i :
  mapM f (seqZ 0 n) = Some l -> 0 <= i < n -> exists y, f i = Some y /\ l !! Z.to_nat i = Some y.
Proof.
  intros Hm Hi. eapply mapM_lookup; [exact Hm|]. rewrite lookup_seqZ_lt by lia. f_equal. lia.
Qed.

Lemma mapM_seqZ_length {B} (f : Z -> option B) n l : mapM f (seqZ 0 n) = Some l -> length l = Z.to_nat n.
Proof. intros Hm%mapM_Some_1%Forall2_length. by rewrite length_seqZ in Hm. Qed.

Lemma forallb_seqZ_true f a n : forallb f (seqZ a n) = true -> forall i, a <= i < a + n -> f i = true.
Proof.
  intros H i Hi. rewrite forallb_forall in H. apply H, list_elem_of_In, elem_of_seqZ. lia.
Qed.

(** The id of the first backup segment, or the number of segments when there
    is none: the segments before it are the data segments. *)
Definition first_backup_segment (segs : json) (m : Z) : Prop :=
  1 <= m <= json_object_object_length segs /\
  (forall i, 0 <= i < m -> exists val, json_segments_get_segment segs i = Some val /\ json_segment_is_backup val = false) /\
  (m < json_object_object_length segs ->
     exists val, json_segments_get_segment segs m = Some val /\ json_segment_is_backup val = true).

Lemma atoi_dec_u32 z : 0 <= z < 2 ^ 31 -> atoi (dec_u32 z) = z.
Proof. intros Hz. unfold dec_u32. rewrite u32_id by lia. by apply atoi_dec. Qed.

Lemma segment_step_backup d fb key val fb' :
  segment_step d fb key val = Some fb' ->
  fb' = if json_segment_is_backup val && ((fb <? 0) || (atoi key <? fb)) then atoi key else fb.
Proof.
  unfold segment_step. destruct (negb _); [done|].
  do 3 (destruct (json_contains _ _ _); [|done]).
  destruct (negb _); [done|]. destruct (json_str_to_uint64 _) as [ok off]. destruct (negb ok); [done|].
  destruct (segment_size_field _); [|done]. do 5 (destruct (_ : bool); [done|]). by intros [= <-].
Qed.

(** The loop finds the least id of a backup segment, -1 when there is none. *)
Lemma segments_loop_backup d l fb fb' :
  segments_loop d fb l = Some fb' -> (forall key val, (key, val) ∈ l -> 0 <= atoi key) ->
  (forall key val, (key, val) ∈ l -> json_segment_is_backup val = true -> 0 <= fb' <= atoi key) /\
  (0 <= fb -> 0 <= fb' <= fb) /\
  (fb' = fb \/ exists key val, (key, val) ∈ l /\ json_segment_is_backup val = true /\ fb' = atoi key).
Proof.
  revert fb. induction l as [|[k v] l IH]; intros fb; cbn [segments_loop].
  { intros [= <-] _. split; [by intros ?? ?%elem_of_nil|]. split; [lia|by left]. }
  destruct (segment_step d fb k v) as [fb1|] eqn:E; [|done]. apply segment_step_backup in E.
  intros Hl Hk. destruct (IH fb1 Hl) as (H1 & H2 & H3); [intros; eapply Hk; by right|].
  pose proof (Hk k v ltac:(left)) as Hkv.
  assert (Hfb : (json_segment_is_backup v = true -> 0 <= fb' <= atoi k) /\ (0 <= fb -> 0 <= fb' <= fb)).
  { destruct (json_segment_is_backup v), (Z.ltb_spec fb 0), (Z.ltb_spec (atoi k) fb); cbn in E; subst fb1; split; try done; lia. }
  destruct Hfb as [Hv Hfb]. split; [|split; [done|]].
  - intros key val [[= -> ->]|Hin]%elem_of_cons; [done|by apply H1].
  - destruct H3 as [->|(key & val & Hin & Hb & ->)]; [|right; exists key, val; split; [by right|done]].
    destruct (json_segment_is_backup v) eqn:Eb; [|by left]. cbn in E.
    destruct (_ || _); [|by left]. right. exists k, v. split; [left|done].
Qed.

(** What [hdr_validate_segments] checks: [first_backup] segments with ids from
    0 whose intervals pass, and no gap in the ids of all the segments. *)
Lemma hdr_validate_segments_inv hdr_jobj segs :
  hdr_validate_segments hdr_jobj = 0 -> json_object_object_get_ex hdr_jobj "segments" = Some segs ->
  exists d fb ix, let count := json_object_object_length segs in let m := if fb <? 0 then count else fb in
    segments_loop d (-1) (json_object_entries segs) = Some fb /\
    1 <= m <= count /\ mapM (segment_interval segs) (seqZ 0 m) = Some ix /\
    validate_segment_intervals ix = true /\
    forall i, 0 <= i < count -> is_Some (json_segments_get_segment segs i).
Proof.
  intros Hv Hs. unfold hdr_validate_segments in Hv. rewrite Hs in Hv. cbv zeta in Hv |- *.
  set (count := json_object_object_length segs) in *.
  destruct (Z.ltb_spec count 1); [done|].
  destruct (json_object_object_get_ex hdr_jobj "digests") as [d|]; [|done].
  destruct (segments_loop _ _ _) as [fb|] eqn:El; [|done].
  destruct (Z.eqb_spec fb 0); [done|]. destruct (Z.leb_spec count fb); [done|].
  exists d, fb. set (m := if fb <? 0 then count else fb) in *.
  assert (Hm : 1 <= m <= count) by (subst m; destruct (Z.ltb_spec fb 0); lia).
  destruct (mapM _ _) as [ix|] eqn:Em; [|done].
  destruct (validate_segment_intervals ix) eqn:Ei; [|done]. cbn [negb] in Hv.
  destruct (forallb _ _) eqn:Ef; [|done]. exists ix. do 4 (split; [done|]).
  intros i Hi. destruct (decide (i < m)) as [Hlt|Hge].
  - destruct (mapM_seqZ_lookup _ _ _ i Em ltac:(lia)) as (y & Hy & _). unfold segment_interval in Hy.
    destruct (json_segments_get_segment segs i); [eauto|done].
  - eapply forallb_seqZ_true in Ef; [by apply bool_decide_eq_true in Ef|lia].
Qed.

Lemma segment_interval_of segs i x :
  segment_interval segs i = Some x ->
  i_offset x = segment_start segs i /\
  i_length x = (let n := json_segment_get_size (json_segments_get_segment segs i) false in
                if n =? 0 then UINT64_MAX else n).
Proof.
  unfold segment_interval, segment_start. destruct (json_segments_get_segment segs i); [|done].
  cbn [mbind option_bind]. by intros [= <-].
Qed.

Lemma segment_size_range o : in_u 64 (json_segment_get_size o false).
Proof.
  unfold json_segment_get_size. destruct (_ ≫= _); [apply str_to_uint64_range|split; lia].
Qed.

Lemma segment_offset_range o : in_u 64 (json_segment_get_offset o false).
Proof.
  unfold json_segment_get_offset. destruct (_ ≫= _); [apply str_to_uint64_range|split; lia].
Qed.

(** The ids of the segments are exactly 0, ..., count - 1, in plain decimal. *)
Lemma segment_keys segs key :
  json_object_object_length segs < 2 ^ 32 ->
  (forall i, 0 <= i < json_object_object_length segs -> is_Some (json_segments_get_segment segs i)) ->
  key ∈ (json_object_entries segs).*1 <->
  exists i, 0 <= i < json_object_object_length segs /\ key = dec_u32 i.
Proof.
  intros Hc Hall. set (n := json_object_object_length segs) in *.
  assert (Hin : forall i, 0 <= i < n -> dec_u32 i ∈ (json_object_entries segs).*1).
  { intros i Hi. destruct (Hall i Hi) as [v Hv]. apply get_ptr_get, entries_lookup in Hv.
    apply list_elem_of_fmap. by exists (dec_u32 i, v). }
  assert (Hsub : (dec_u32 <$> seqZ 0 n) ⊆+ (json_object_entries segs).*1).
  { apply NoDup_submseteq.
    - apply NoDup_fmap_2_strong; [|apply NoDup_seqZ]. intros x y Hx%elem_of_seqZ Hy%elem_of_seqZ.
      apply dec_u32_inj; lia.
    - intros x (i & -> & Hi%elem_of_seqZ)%list_elem_of_fmap. apply Hin. lia. }
  apply submseteq_length_Permutation in Hsub.
  2: { rewrite !length_fmap, length_seqZ. unfold n, json_object_object_length, zlen. lia. }
  rewrite <-Hsub, list_elem_of_fmap. split.
  - intros (i & -> & Hi%elem_of_seqZ). exists i. split; [lia|done].
  - intros (i & Hi & ->). exists i. split; [done|]. apply elem_of_seqZ. lia.
Qed.

Lemma get_segment_entry segs i val :
  json_segments_get_segment segs i = Some val -> (dec_u32 i, val) ∈ json_object_entries segs.
Proof. intros H. by apply get_ptr_get, entries_lookup in H. Qed.

(** The segments whose intervals are checked are those before the first backup
    segment. *)
Lemma segments_first_backup segs d fb :
  let count := json_object_object_length segs in let m := if fb <? 0 then count else fb in
  segments_loop d (-1) (json_object_entries segs) = Some fb -> count < 2 ^ 31 -> 1 <= m <= count ->
  (forall i, 0 <= i < count -> is_Some (json_segments_get_segment segs i)) -> first_backup_segment segs m.
Proof.
  intros count m Hl Hc Hm Hall.
  assert (Hkeys : forall key val, (key, val) ∈ json_object_entries segs ->
    exists i, 0 <= i < count /\ key = dec_u32 i /\ atoi key = i /\ json_segments_get_segment segs i = Some val).
  { intros key val Hin. assert (Hk : key ∈ (json_object_entries segs).*1) by (apply list_elem_of_fmap; by exists (key, val)).
    apply segment_keys in Hk as (i & Hi & ->); [|fold count; lia|done]. exists i.
    rewrite atoi_dec_u32 by (fold count in Hi; lia). split; [done|]. split; [done|]. split; [done|].
    destruct (Hall i Hi) as [val' Hv']. apply entries_lookup in Hin. pose proof Hv' as Hg. apply get_ptr_get in Hg. congruence. }
  destruct (segments_loop_backup _ _ _ _ Hl) as (H1 & _ & H3).
  { intros key val (i & Hi & _ & -> & _)%Hkeys. lia. }
  split; [done|]. split.
  - intros i Hi. destruct (Hall i ltac:(lia)) as [val Hv]. exists val. split; [done|].
    destruct (json_segment_is_backup val) eqn:Eb; [|done]. apply get_segment_entry in Hv.
    specialize (H1 _ _ Hv Eb). rewrite atoi_dec_u32 in H1 by lia.
    unfold m in Hi. destruct (Z.ltb_spec fb 0); lia.
  - intros Hlt. unfold m in *. destruct (Z.ltb_spec fb 0); [fold count in Hlt; lia|].
    destruct H3 as [->|(key & val & Hin & Hb & ->)]; [lia|].
    apply Hkeys in Hin as (i & Hi & -> & -> & Hv). by exists val.
Qed.

(** *** Data segments and the metadata *)

Lemma minimal_offset_loop_le l min :
  let r := minimal_offset_loop false l min in
  r = 0 \/ (r <= min /\ forall key val, (key, val) ∈ l -> json_segment_is_backup val = false ->
                   r <= json_segment_get_offset (Some val) false).
Proof.
  cbv zeta. revert min. induction l as [|[k v] l IH]; intros min; cbn [minimal_offset_loop].
  - right. split; [done|]. by intros ?? ?%elem_of_nil.
  - destruct (json_segment_is_backup v) eqn:Eb.
    + destruct (IH min) as [?|[H1 H2]]; [by left|right]. split; [done|].
      intros key val [[= -> ->]|Hin]%elem_of_cons Hb; [congruence|eauto].
    + set (tmp := json_segment_get_offset (Some v) false).
      destruct (Z.eqb_spec tmp 0); [by left|].
      destruct (IH (if tmp <? min then tmp else min)) as [?|[H1 H2]]; [by left|right].
      split; [destruct (Z.ltb_spec tmp min); lia|].
      intros key val [[= -> ->]|Hin]%elem_of_cons Hb; [|eauto].
      fold tmp. destruct (Z.ltb_spec tmp min); lia.
Qed.

(** ** Digests *)

Lemma filter_singleton_find {A} (P : A -> Prop) `{!forall x, Decision (P x)} (f : A -> bool) l :
  (forall x, f x = true <-> P x) -> zlen (filter P l) = 1 ->
  exists x, List.find f l = Some x /\ x ∈ l /\ P x /\ forall y, y ∈ l -> P y -> y = x.
Proof.
  intros Hf. unfold zlen. induction l as [|a l IH]; [done|]. rewrite filter_cons. cbn [List.find].
  case_decide as Ha.
  - intros Hl. exists a. rewrite (proj2 (Hf a) Ha). split; [done|]. split; [left|]. split; [done|].
    intros y [->|Hy]%elem_of_cons HP; [done|]. cbn [length] in Hl.
    assert (E : filter P l = []) by (apply nil_length_inv; lia).
    assert (Hyf : y ∈ filter P l) by (by apply list_elem_of_filter).
    rewrite E in Hyf. by apply elem_of_nil in Hyf.
  - intros Hl. destruct (IH Hl) as (x & H1 & H2 & H3 & H4). exists x.
    destruct (f a) eqn:Efa; [by apply Hf in Efa|]. split; [done|]. split; [by right|]. split; [done|].
    intros y [->|Hy]%elem_of_cons HP; [done|eauto].
Qed.

Lemma forallb_elem {A} (f : A -> bool) l x : forallb f l = true -> x ∈ l -> f x = true.
Proof. intros H Hin. rewrite forallb_forall in H. by apply H, list_elem_of_In. Qed.

Lemma keyslot_ok_luks2 hdr_jobj slot val :
  json_object_get_string (json_get val "type") = "luks2"%string -> keyslot_ok hdr_jobj slot val = true ->
  LUKS2_get_keyslot_digests_count hdr_jobj (atoi slot) = 1.
Proof.
  intros Ht Hok. unfold keyslot_ok in Hok. rewrite Ht in Hok.
  change (LUKS2_keyslot_handler_type "luks2") with (Some luks2_keyslot) in Hok.
  cbn [kh_validate kh_name luks2_keyslot] in Hok. rewrite bool_decide_true in Hok by done. lia.
Qed.

(** ** Properties *)

(** C22: The keyslot areas of a header that passes [LUKS2_hdr_validate] lie
    between the two metadata copies and the end of the keyslots area, are not
    empty and do not overlap, provided no area ends beyond 2^64 (the code does
    not check that; see [validate_accepts_wrapping_area]). *)
Theorem validate_areas_disjoint hdr i j off1 len1 off2 len2 :
  LUKS2_hdr_validate (jobj hdr) (hdr_size hdr -64 LUKS2_HDR_BIN_LEN) = 0 -> in_u 64 (hdr_size hdr) ->
  areas_no_wrap hdr ->
  0 <= i < LUKS2_KEYSLOTS_MAX -> 0 <= j < LUKS2_KEYSLOTS_MAX ->
  LUKS2_keyslot_area hdr i = (0, off1, len1) -> LUKS2_keyslot_area hdr j = (0, off2, len2) ->
  (2 * hdr_size hdr <= off1 /\ 0 < len1 /\
   off1 + len1 <= 2 * hdr_size hdr + LUKS2_keyslots_size hdr) /\
  (i <> j -> off1 + len1 <= off2 \/ off2 + len2 <= off1).
Proof.
  intros Hv Hu Hnw Hi Hj Ha Hb. destruct (valid_sizes hdr Hv Hu) as (Em & Hm & _ & _ & _ & Emin & Emax).
  destruct (validate_areas_valid hdr Hv Hu Hnw) as [_ _ _ Hwf].
  apply LUKS2_hdr_validate_inv in Hv as (_ & _ & _ & _ & _ & Hv & _).
  assert (Hused : forall k off len, 0 <= k < LUKS2_KEYSLOTS_MAX ->
    LUKS2_keyslot_area hdr k = (0, off, len) -> used (Area off len)).
  { intros k off len Hk Hkl.
    destruct (keyslot_area_checked _ _ _ _ Hv Hk Hkl) as (ks & ix & n & val & _ & Hval & _ & _ & Hx & _).
    destruct (validate_intervals_sound _ _ _ Hval _ _ Hx) as (H1 & _). cbn in H1. unfold used. cbn.
    change (LUKS2_metadata_size_jobj (jobj hdr)) with (LUKS2_metadata_size hdr) in H1.
    rewrite Em, u64_id in H1 by lia. lia. }
  pose proof (areas_table_lookup _ _ _ _ Hi Ha) as La. pose proof (areas_table_lookup _ _ _ _ Hj Hb) as Lb.
  pose proof (wf_range _ _ _ Hwf _ _ La (Hused _ _ _ Hi Ha)) as Hr. unfold a_end in Hr. cbn in Hr.
  split; [lia|]. intros Hne.
  apply (wf_disjoint _ _ _ Hwf _ _ _ _ La Lb); [lia|exact (Hused _ _ _ Hi Ha)|exact (Hused _ _ _ Hj Hb)].
Qed.

(** C32: In a header that passes validation the ids of the segments are exactly
    0 ... count-1 in plain decimal. Of the data segments, which are those before
    the first backup segment ([first_backup_segment]; all of them when there is
    none), only the last one may be [dynamic], and no two that end below 2^64
    share a sector. What follows the first backup segment is not compared with
    them (see [validate_accepts_late_backup]). Fewer than 2^31 segments. *)
Theorem validate_segments_disjoint hdr_jobj n segs :
  LUKS2_hdr_validate hdr_jobj n = 0 -> json_object_object_get_ex hdr_jobj "segments" = Some segs ->
  json_object_object_length segs < 2 ^ 31 ->
  (forall key, key ∈ (json_object_entries segs).*1 <->
     exists i, 0 <= i < json_object_object_length segs /\ key = dec_u32 i) /\
  exists m, first_backup_segment segs m /\
    (forall i, 0 <= i < m -> segment_dynamic segs i -> i = m - 1) /\
    (forall i j, 0 <= i < m -> 0 <= j < m -> i <> j ->
       segment_end segs i < 2 ^ 64 -> segment_end segs j < 2 ^ 64 ->
       ~ json_segment_get_size (json_segments_get_segment segs i) false = UINT64_MAX ->
       ~ json_segment_get_size (json_segments_get_segment segs j) false = UINT64_MAX ->
       segment_before segs i j \/ segment_before segs j i).
Proof.
  intros (_ & _ & Hv & _)%LUKS2_hdr_validate_inv Hs Hc.
  destruct (hdr_validate_segments_inv _ _ Hv Hs) as (d & fb & ix & Hloop & Hm & Em & Hix & Hall). cbv zeta in *.
  split; [intros key; apply segment_keys; [lia|done]|]. eexists. split; [by eapply segments_first_backup|].
  set (m := if fb <? 0 then json_object_object_length segs else fb) in *.
  pose proof (validate_segment_intervals_sound _ Hix) as Hsound.
  pose proof (mapM_seqZ_length _ _ _ Em) as Hlen. split.
  - intros i Hi Hd. destruct (mapM_seqZ_lookup _ _ _ i Em Hi) as (x & Hx & Hl).
    apply segment_interval_of in Hx as [_ Hx]. unfold segment_dynamic in Hd. rewrite Hd in Hx.
    destruct (Hsound _ _ Hl) as [H1 _]. specialize (H1 Hx). lia.
  - intros i j Hi Hj Hne Hwi Hwj Hmi Hmj.
    destruct (mapM_seqZ_lookup _ _ _ i Em Hi) as (x & Hx & Hlx).
    destruct (mapM_seqZ_lookup _ _ _ j Em Hj) as (y & Hy & Hly).
    apply segment_interval_of in Hx as [Ox Lx]. apply segment_interval_of in Hy as [Oy Ly].
    destruct (Hsound _ _ Hlx) as [_ H1]. specialize (H1 _ _ Hly ltac:(lia)).
    destruct (Hsound _ _ Hly) as [_ H2]. specialize (H2 _ _ Hlx ltac:(lia)).
    unfold segment_before, segment_dynamic, segment_end in *. rewrite Ox, Oy, Lx, Ly in *.
    pose proof (segment_size_range (json_segments_get_segment segs i)).
    pose proof (segment_size_range (json_segments_get_segment segs j)).
    pose proof (segment_offset_range (json_segments_get_segment segs i)).
    pose proof (segment_offset_range (json_segments_get_segment segs j)).
    change (json_segment_get_offset (json_segments_get_segment segs i) false) with (segment_start segs i) in *.
    change (json_segment_get_offset (json_segments_get_segment segs j) false) with (segment_start segs j) in *.
    cbv zeta in *. unfold in_u in *.
    destruct (Z.eqb_spec (json_segment_get_size (json_segments_get_segment segs i) false) 0),
      (Z.eqb_spec (json_segment_get_size (json_segments_get_segment segs j) false) 0);
      rewrite ?u64_id in H1 by lia; rewrite ?u64_id in H2 by lia; lia.
Qed.

(** In a header that passes validation every data segment either lies behind
    both metadata copies and the whole keyslots area, or some data segment has
    offset 0, which is a detached header. *)
Theorem validate_data_behind_metadata hdr segs :
  LUKS2_hdr_validate (jobj hdr) (hdr_size hdr -64 LUKS2_HDR_BIN_LEN) = 0 -> in_u 64 (hdr_size hdr) ->
  json_segments_get_minimal_offset (LUKS2_get_segments_jobj hdr) false <> 0 ->
  LUKS2_get_segments_jobj hdr = Some segs ->
  forall key val, (key, val) ∈ json_object_entries segs -> json_segment_is_backup val = false ->
    2 * hdr_size hdr + LUKS2_keyslots_size hdr <= json_segment_get_offset (Some val) false.
Proof.
  intros Hv Hu Hnz Hs key val Hin Hb.
  destruct (valid_sizes hdr Hv Hu) as (Em & Hm & _ & _ & _ & _ & _).
  apply LUKS2_hdr_validate_inv in Hv as (_ & _ & _ & _ & Hc & _).
  apply hdr_validate_config_inv in Hc as (_ & _ & Hc). cbv zeta in Hc.
  unfold LUKS2_get_segments_jobj in *. destruct Hc as [Hc|Hc]; [done|].
  unfold LUKS2_metadata_size, LUKS2_keyslots_size in *. rewrite Em, u64_id in Hc by lia.
  rewrite Hs in Hc, Hnz. cbn [json_segments_get_minimal_offset] in Hc, Hnz.
  destruct (minimal_offset_loop_le (json_object_entries segs) (blockwise_shift false UINT64_MAX))
    as [?|[_ Hle]]; [done|]. specialize (Hle key val Hin Hb). lia.
Qed.

(** In a header that passes validation every keyslot of type luks2 belongs
    to exactly one digest, and [LUKS2_digest_by_keyslot] finds that one. *)
Theorem validate_keyslot_digest hdr n i val :
  LUKS2_hdr_validate (jobj hdr) n = 0 -> 0 <= i < LUKS2_KEYSLOTS_MAX ->
  LUKS2_get_keyslot_jobj hdr i = Some val -> json_object_get_string (json_get val "type") = "luks2"%string ->
  exists key jdigest,
    (key, jdigest) ∈ json_object_entries (json_get (jobj hdr) "digests") /\
    is_Some (LUKS2_array_jobj (json_get jdigest "keyslots") (dec_u32 i)) /\
    LUKS2_digest_by_keyslot hdr i = atoi key /\
    forall key' jdigest',
      (key', jdigest') ∈ json_object_entries (json_get (jobj hdr) "digests") ->
      is_Some (LUKS2_array_jobj (json_get jdigest' "keyslots") (dec_u32 i)) -> key' = key.
Proof.
  intros (_ & Hd & _ & _ & _ & _ & _ & Hv)%LUKS2_hdr_validate_inv Hi Hj Ht.
  unfold LUKS2_keyslots_validate in Hv. unfold LUKS2_get_keyslot_jobj in Hj.
  rewrite (proj2 (Z.ltb_ge i 0)) in Hj by lia.
  destruct (json_object_object_get_ex (jobj hdr) "keyslots") as [ks|]; [|done]. cbn [mbind option_bind] in Hj.
  apply get_ptr_get, entries_lookup in Hj. destruct (forallb _ _) eqn:Ef; [|done].
  pose proof (forallb_elem _ _ _ Ef Hj) as Hok. apply (keyslot_ok_luks2 _ _ _ Ht) in Hok. cbn [fst] in Hok.
  unfold dec_u32 in Hok at 1. unfold LUKS2_KEYSLOTS_MAX in Hi.
  rewrite u32_id, atoi_dec in Hok by lia. unfold LUKS2_get_keyslot_digests_count in Hok.
  unfold LUKS2_digest_by_keyslot, digest_by.
  destruct (json_object_object_get_ex (jobj hdr) "digests") as [jd|] eqn:Ed; [|done].
  replace (json_get (jobj hdr) "digests") with jd by (unfold json_get; by rewrite Ed).
  eapply filter_singleton_find with (f := fun kv => bool_decide (is_Some
    (LUKS2_array_jobj (json_get kv.2 "keyslots") (dec_u32 i)))) in Hok
    as ([key jdigest] & Hfind & Hin & Hp & Huniq); [|intros; apply bool_decide_eq_true].
  exists key, jdigest. rewrite Hfind. split; [done|]. split; [exact Hp|]. split; [done|].
  intros key' jd' Hin' Hp'. specialize (Huniq (key', jd') Hin' Hp'). congruence.
Qed.
End validate_theorems.

(** ** Witnesses and concrete headers *)

Definition area_no_wrap_b `{JC : JsonC} (hdr : luks2_hdr) : bool :=
  forallb (fun i => let '(r, off, len) := LUKS2_keyslot_area hdr i in
                    negb (r =? 0) || (off + len <? 2 ^ 64)) (seqZ 0 LUKS2_KEYSLOTS_MAX).

Lemma area_no_wrap_b_ok `{JC : JsonC} hdr : area_no_wrap_b hdr = true -> areas_no_wrap hdr.
Proof.
  intros H i off len Hi Ha. unfold area_no_wrap_b in H.
  apply forallb_seqZ_true with (i := i) in H; [|lia]. rewrite Ha in H. cbn in H. lia.
Qed.

Lemma validate_areas_disjoint_witness :
  let hdr := fx_hdr [] 1 fx_two in
  LUKS2_keyslot_area hdr 0 = (0, 32768, 258048) /\ LUKS2_keyslot_area hdr 1 = (0, 294912, 258048) /\
  (0 <> 1 -> 32768 + 258048 <= 294912 \/ 294912 + 258048 <= 32768).
Proof.
  split; [vm_compute; reflexivity|]. split; [vm_compute; reflexivity|].
  apply (validate_areas_disjoint (fx_hdr [] 1 fx_two) 0 1 32768 258048 294912 258048);
    [vm_compute; reflexivity|split; vm_compute; congruence|apply area_no_wrap_b_ok; vm_compute; reflexivity
    |split; vm_compute; congruence|split; vm_compute; congruence|vm_compute; reflexivity|vm_compute; reflexivity].
Defined.

Lemma validate_segments_disjoint_witness :
  let segs := @json_get (jtree_json []) fx_segments "segments" in
  exists m, @first_backup_segment (jtree_json []) segs m /\
    (forall i, 0 <= i < m -> segment_dynamic segs i -> i = m - 1).
Proof.
  destruct (validate_segments_disjoint (JC := jtree_json []) fx_segments 12288 (@json_get (jtree_json []) fx_segments "segments"))
    as [_ (m & Hm & Hd & _)]; [vm_compute; reflexivity|vm_compute; reflexivity|vm_compute; reflexivity|].
  exists m. split; [exact Hm|exact Hd].
Defined.

Lemma validate_data_behind_metadata_witness :
  2 * 16384 + 16744448 <= 16777216.
Proof.
  apply (validate_data_behind_metadata (fx_hdr [] 1 fx_segments)
    (@json_get (jtree_json []) fx_segments "segments")) with (key := "0"%string)
    (val := fx_segment 16777216 "1048576");
    [vm_compute; reflexivity|split; vm_compute; congruence|vm_compute; congruence|vm_compute; reflexivity
    |vm_compute; left|vm_compute; reflexivity].
Defined.

Lemma validate_keyslot_digest_witness :
  exists key, LUKS2_digest_by_keyslot (fx_hdr [] 1 fx_two) 1 = atoi key.
Proof.
  destruct (validate_keyslot_digest (fx_hdr [] 1 fx_two) 12288 1 (fx_keyslot 294912 258048))
    as (key & _ & _ & _ & Hk & _);
    [vm_compute; reflexivity|split; vm_compute; congruence|vm_compute; reflexivity|vm_compute; reflexivity|].
  exists key. exact Hk.
Defined.

(** The overflow checks of [validate_intervals] are missing: a header whose
    keyslot area runs over the end of the 64-bit range, and so over the whole
    metadata and data, passes [LUKS2_hdr_validate]. *)
Theorem validate_accepts_wrapping_area :
  let hdr := fx_hdr [] 1 fx_wrap in
  LUKS2_hdr_validate (jobj hdr) (hdr_size hdr -64 LUKS2_HDR_BIN_LEN) = 0 /\
  LUKS2_keyslot_area hdr 0 = (0, 32768, 2 ^ 64 - 32768) /\
  get_max_offset hdr < 32768 + (2 ^ 64 - 32768).
Proof. repeat split; vm_compute; reflexivity. Qed.

(** The check that data segments precede backup segments depends on the order
    of the document: a header with a data segment behind the backup segment,
    which overlaps another data segment, passes [LUKS2_hdr_validate]. *)
Theorem validate_accepts_late_backup :
  let segs := @json_get (jtree_json []) fx_order "segments" in
  @LUKS2_hdr_validate (jtree_json []) fx_order 12288 = 0 /\
  json_segment_is_backup <$> json_segments_get_segment segs 1 = Some true /\
  json_segment_is_backup <$> json_segments_get_segment segs 2 = Some false /\
  segment_start segs 0 < segment_start segs 2 < segment_end segs 0.
Proof. repeat split; vm_compute; reflexivity. Qed.
