(* ===== verification/Luks2EditFacts.v ===== *)
(** * Luks2EditFacts: how changes of the header affect its sections

    Lookups after each change, and how the validators of [Luks2Validate]
    depend on the sections of the header. *)

From S2P Require Import Prelude Cstd JsonC Luks2Json Luks2Keyslot Luks2Edit Luks2Areas Luks2Validate.
From Stdlib Require Import Sorted.

(** ** Numbers in decimal *)

Lemma dec_i32_u32 z : 0 <= z < 2 ^ 31 -> dec_i32 z = dec_u32 z.
Proof.
  intros Hz. unfold dec_i32, dec_u32. rewrite i32_id, u32_id by lia.
  by rewrite (proj2 (Z.ltb_ge z 0)) by lia.
Qed.

Lemma numbered_dec_u32 z : numbered (dec_u32 z) = true.
Proof. apply all_digits_dec. pose proof (wrap_range 32 z). unfold in_u in *. lia. Qed.

(** ** Objects *)

Section objects.
Context `{JL : JsonCLaws}.

Lemma entries_get j k v : (k, v) ∈ json_object_entries j -> json_object_object_get_ex j k = Some v.
Proof. intros H. by apply entries_lookup. Qed.

Lemma get_ptr_object j k v :
  json_object_object_get_ex j k = Some v -> json_object_get_type v <> json_type_null ->
  json_get_ptr j k = Some v.
Proof.
  intros H Ht. unfold json_get_ptr. rewrite H. cbn [mbind option_bind].
  unfold json_is_null. destruct (json_object_is_type v json_type_null) eqn:E; [|done].
  by apply is_type_spec in E.
Qed.

Lemma get_json_get j k v : json_object_object_get_ex j k = Some v -> json_get j k = v.
Proof. intros H. unfold json_get. by rewrite H. Qed.

Lemma new_array_from l :
  let a := fold_left json_object_array_add l json_object_new_array in
  json_object_get_type a = json_type_array /\ json_object_array_elems a = l.
Proof.
  cbv zeta.
  assert (H : forall a, json_object_get_type a = json_type_array ->
    json_object_get_type (fold_left json_object_array_add l a) = json_type_array /\
    json_object_array_elems (fold_left json_object_array_add l a) = json_object_array_elems a ++ l).
  { induction l as [|x l IH]; intros a Ha; cbn [fold_left]; [by rewrite app_nil_r|].
    destruct (IH (json_object_array_add a x)) as [H1 H2]; [by apply array_add_type|].
    split; [done|]. rewrite H2, array_add_elems by done. by rewrite <-app_assoc. }
  destruct (H json_object_new_array new_array_type) as [H1 H2]. split; [done|].
  by rewrite H2, new_array_elems.
Qed.

Lemma entries_length_add_new j k v :
  json_object_get_type j = json_type_object -> json_object_object_get_ex j k = None ->
  json_object_object_length (json_object_object_add j k v) = json_object_object_length j + 1.
Proof.
  intros Hj Hk. unfold json_object_object_length. rewrite object_add_entries_new by done.
  unfold zlen. rewrite length_app. simpl. lia.
Qed.

(** An object made by adding members is determined by its lookups. *)
Lemma has_get j k t : has j k t = true <-> exists v, json_object_object_get_ex j k = Some v /\ json_object_get_type v = t.
Proof.
  unfold has. rewrite bool_decide_eq_true. split.
  - intros [v Hv]. apply json_contains_get in Hv. eauto.
  - intros (v & Hg & Ht). exists v. unfold json_contains. rewrite Hg.
    by rewrite (proj2 (is_type_spec v t) Ht).
Qed.

Lemma contains_get j k t v :
  json_object_object_get_ex j k = Some v -> json_object_get_type v = t -> json_contains j k t = Some v.
Proof. intros Hg Ht. unfold json_contains. rewrite Hg. by rewrite (proj2 (is_type_spec v t) Ht). Qed.

Lemma contains_ext j j' k t :
  json_object_object_get_ex j' k = json_object_object_get_ex j k -> json_contains j' k t = json_contains j k t.
Proof. intros H. unfold json_contains. by rewrite H. Qed.

Lemma has_ext j j' k t :
  json_object_object_get_ex j' k = json_object_object_get_ex j k -> has j' k t = has j k t.
Proof. intros H. unfold has. by rewrite (contains_ext j j'). Qed.
End objects.

(** ** Arrays of references *)

Section refs.
Context `{JL : JsonCLaws}.

Definition refs (arr : json) : list string := json_object_get_string <$> json_object_array_elems arr.

Lemma array_jobj_refs arr num : is_Some (LUKS2_array_jobj arr num) <-> num ∈ refs arr.
Proof.
  unfold LUKS2_array_jobj, refs. rewrite list_elem_of_fmap. split.
  - intros [j Hj]. apply List.find_some in Hj as [Hin Hn]. apply bool_decide_eq_true in Hn.
    exists j. split; [done|]. by apply list_elem_of_In.
  - intros (j & Hn & Hin). destruct (List.find _ _) eqn:E; [eauto|].
    eapply List.find_none in E; [|by apply list_elem_of_In]. cbv beta in E.
    by apply bool_decide_eq_false in E.
Qed.

Lemma remove_first_elems num l j :
  j ∈ remove_first num l -> j ∈ l.
Proof.
  induction l as [|x l IH]; cbn [remove_first]; [done|]. case_bool_decide; set_solver.
Qed.

Lemma remove_first_keeps num l j :
  j ∈ l -> json_object_get_string j <> num -> j ∈ remove_first num l.
Proof.
  induction l as [|x l IH]; cbn [remove_first]; [done|]. intros [->|Hin]%elem_of_cons Hne.
  - rewrite bool_decide_false by congruence. by left.
  - case_bool_decide; [done|]. right. auto.
Qed.

Lemma remove_first_gone num l :
  NoDup (json_object_get_string <$> l) -> num ∉ json_object_get_string <$> remove_first num l.
Proof.
  induction l as [|x l IH]; cbn [remove_first fmap list_fmap]; intros Hnd; [by apply not_elem_of_nil|].
  inversion Hnd; subst. case_bool_decide as E; [by subst|]. cbn [fmap list_fmap].
  intros [?|Hin]%elem_of_cons; [done|]. by apply IH in Hin.
Qed.

(** The two results of an assignment. *)
Definition assigned (j j' : json) (key num : string) : Prop :=
  json_object_get_type j' = json_type_object /\
  (forall k, k <> key -> json_object_object_get_ex j' k = json_object_object_get_ex j k) /\
  exists arr arr', json_object_object_get_ex j key = Some arr /\
    json_object_object_get_ex j' key = Some arr' /\ json_object_get_type arr' = json_type_array /\
    (forall x, x ∈ json_object_array_elems arr' ->
       x ∈ json_object_array_elems arr \/
       (json_object_get_type x = json_type_string /\ json_object_get_string x = num)) /\
    (forall x, x ∈ refs arr' <-> x = num \/ x ∈ refs arr).

Definition unassigned (j j' : json) (key num : string) : Prop :=
  json_object_get_type j' = json_type_object /\
  (forall k, k <> key -> json_object_object_get_ex j' k = json_object_object_get_ex j k) /\
  exists arr arr', json_object_object_get_ex j key = Some arr /\
    json_object_object_get_ex j' key = Some arr' /\ json_object_get_type arr' = json_type_array /\
    (forall x, x ∈ json_object_array_elems arr' -> x ∈ json_object_array_elems arr) /\
    (forall x, x <> num -> x ∈ refs arr' <-> x ∈ refs arr) /\
    (NoDup (refs arr) -> num ∉ refs arr').

Lemma assign_in_true j key num arr :
  json_object_object_get_ex j key = Some arr -> json_object_get_type arr = json_type_array ->
  exists j', assign_in j key num true = Some j' /\ assigned j j' key num.
Proof.
  intros Hg Ht. unfold assign_in. rewrite (get_ptr_object j key arr Hg) by congruence.
  pose proof (get_ex_type _ _ _ Hg) as Hj. destruct (LUKS2_array_jobj arr num) as [x|] eqn:E.
  - exists j. split; [done|]. split; [done|]. split; [done|]. exists arr, arr.
    do 3 (split; [done|]). split; [auto|]. intros y. split; [auto|]. intros [->|?]; [|done].
    apply array_jobj_refs. eauto.
  - eexists. split; [done|]. split; [by apply object_add_type|].
    split; [intros k Hk; by apply get_ex_add_other|].
    exists arr. eexists. split; [done|]. split; [by apply get_ex_add_same|].
    split; [by apply array_add_type|]. unfold refs. rewrite array_add_elems by done.
    split.
    + intros y [?|Hy]%elem_of_app; [auto|]. apply list_elem_of_singleton in Hy as ->.
      right. by rewrite new_string_type, new_string_get.
    + intros y. rewrite fmap_app, elem_of_app. cbn [fmap list_fmap].
      rewrite new_string_get, list_elem_of_singleton. tauto.
Qed.

Lemma assign_in_false j key num arr :
  json_object_object_get_ex j key = Some arr -> json_object_get_type arr = json_type_array ->
  exists j', assign_in j key num false = Some j' /\ unassigned j j' key num.
Proof.
  intros Hg Ht. unfold assign_in. rewrite (get_ptr_object j key arr Hg) by congruence.
  pose proof (get_ex_type _ _ _ Hg) as Hj. unfold LUKS2_array_remove.
  destruct (LUKS2_array_jobj arr num) as [x|] eqn:E.
  - destruct (new_array_from (remove_first num (json_object_array_elems arr))) as [Ha He].
    eexists. split; [done|]. split; [by apply object_add_type|].
    split; [intros k Hk; by apply get_ex_add_other|].
    exists arr. eexists. split; [done|]. split; [by apply get_ex_add_same|]. split; [done|].
    unfold refs. rewrite He. split; [apply remove_first_elems|]. split; [|apply remove_first_gone].
    intros y Hy. rewrite !list_elem_of_fmap. split; intros (z & -> & Hz); exists z; (split; [done|]).
    + by apply remove_first_elems in Hz.
    + by apply remove_first_keeps.
  - exists j. split; [done|]. split; [done|]. split; [done|]. exists arr, arr.
    do 3 (split; [done|]). split; [auto|]. split; [done|]. intros _ Hin.
    apply array_jobj_refs in Hin as [? ?]. congruence.
Qed.
End refs.

(** ** Sections *)

(** Keys as the code prints them. *)
Definition canonical_key (key : string) : Prop := key = dec_u32 (atoi key) /\ 0 <= atoi key < 2 ^ 31.

Section sections.
Context `{JL : JsonCLaws}.

Definition canonical (j : json) : Prop := forall kv, kv ∈ json_object_entries j -> canonical_key kv.1.

(** The sections of [hdr'] other than [section] are those of [hdr]. *)
Definition same_but (section : string) (hdr hdr' : luks2_hdr) : Prop :=
  hdr' = set_jobj hdr (jobj hdr') /\ json_object_get_type (jobj hdr') = json_type_object /\
  forall s, s <> section -> json_object_object_get_ex (jobj hdr') s = json_object_object_get_ex (jobj hdr) s.

Lemma same_but_trans section h1 h2 h3 : same_but section h1 h2 -> same_but section h2 h3 -> same_but section h1 h3.
Proof.
  intros (E1 & T1 & G1) (E2 & T2 & G2). split; [by rewrite E2, E1 at 1|]. split; [done|].
  intros s Hs. by rewrite G2, G1.
Qed.

Lemma same_but_refl section hdr : json_object_get_type (jobj hdr) = json_type_object -> same_but section hdr hdr.
Proof. intros H. split; [by destruct hdr|done]. Qed.

Lemma update_section_spec hdr section f S :
  json_object_object_get_ex (jobj hdr) section = Some S ->
  same_but section hdr (update_section hdr section f) /\
  json_object_object_get_ex (jobj (update_section hdr section f)) section = Some (f S).
Proof.
  intros Hs. unfold update_section. rewrite Hs. pose proof (get_ex_type _ _ _ Hs) as Hj.
  split; [|by apply get_ex_add_same]. split; [done|]. split; [by apply object_add_type|].
  intros s Hne. by apply get_ex_add_other.
Qed.

(** [l'] is [l] with some of its values changed. *)
Definition changed (R : string -> json -> json -> Prop) (l l' : list (string * json)) : Prop :=
  Forall2 (fun kv kv' => kv'.1 = kv.1 /\ R kv.1 kv.2 kv'.2) l l'.

Lemma changed_keys R l l' : changed R l l' -> l'.*1 = l.*1.
Proof. unfold changed. induction 1 as [|kv kv' l l' [H _] _ IH]; [done|]. rewrite !fmap_cons. by rewrite H, IH. Qed.

Lemma changed_in R l l' key v' :
  changed R l l' -> (key, v') ∈ l' -> exists v, (key, v) ∈ l /\ R key v v'.
Proof.
  induction 1 as [|kv kv' l l' [H1 H2] _ IH]; [by intros ?%elem_of_nil|].
  intros [<-|Hin]%elem_of_cons.
  - destruct kv as [k v]. simpl in *. subst k. exists v. split; [by left|done].
  - destruct (IH Hin) as (v & ? & ?). exists v. split; [by right|done].
Qed.

Lemma changed_out R l l' key v :
  changed R l l' -> (key, v) ∈ l -> exists v', (key, v') ∈ l' /\ R key v v'.
Proof.
  induction 1 as [|kv kv' l l' [H1 H2] _ IH]; [by intros ?%elem_of_nil|].
  intros [<-|Hin]%elem_of_cons.
  - destruct kv' as [k v']. simpl in *. subst k. exists v'. split; [by left|done].
  - destruct (IH Hin) as (v' & ? & ?). exists v'. split; [by right|done].
Qed.

Lemma changed_impl (R R' : string -> json -> json -> Prop) l l' :
  (forall k v v', (k, v) ∈ l -> R k v v' -> R' k v v') -> changed R l l' -> changed R' l l'.
Proof.
  intros H Hc. unfold changed in *. induction Hc as [|kv kv' l l' [H1 H2] Hc IH]; constructor.
  - split; [done|]. apply H; [destruct kv; left|done].
  - apply IH. intros k v v' Hin. apply H. by right.
Qed.

Lemma changed_trans (R1 R2 R3 : string -> json -> json -> Prop) l1 l2 l3 :
  (forall k a b c, R1 k a b -> R2 k b c -> R3 k a c) -> changed R1 l1 l2 -> changed R2 l2 l3 -> changed R3 l1 l3.
Proof.
  intros H H1. revert l3. induction H1 as [|x y l1 l2 [E1 A] _ IH]; intros l3 H2; inversion H2; subst; constructor.
  - destruct H3 as [E2 B]. split; [congruence|]. rewrite E1 in B. eauto.
  - by apply IH.
Qed.

Lemma changed_refl (R : string -> json -> json -> Prop) l : (forall k v, R k v v) -> changed R l l.
Proof. intros H. induction l; constructor; auto. Qed.

(** Replacing one member. *)
Lemma add_changed S key v v' :
  json_object_object_get_ex S key = Some v ->
  changed (fun k a b => (k = key /\ b = v') \/ (k <> key /\ b = a))
    (json_object_entries S) (json_object_entries (json_object_object_add S key v')).
Proof.
  intros Hg. rewrite (object_add_entries_old S key v' v Hg). unfold changed.
  induction (json_object_entries S) as [|[k a] l IH]; [constructor|]. constructor; [|exact IH]. simpl.
  case_decide; subst; simpl; auto.
Qed.

Lemma set_member_spec hdr section S id v v' :
  json_object_object_get_ex (jobj hdr) section = Some S -> json_object_object_get_ex S (dec_u32 id) = Some v ->
  let hdr' := set_member hdr section id v' in
  same_but section hdr hdr' /\
  exists S', json_object_object_get_ex (jobj hdr') section = Some S' /\
    json_object_get_type S' = json_type_object /\
    json_object_object_get_ex S' (dec_u32 id) = Some v' /\
    changed (fun k a b => (k = dec_u32 id /\ b = v') \/ (k <> dec_u32 id /\ b = a))
      (json_object_entries S) (json_object_entries S').
Proof.
  intros Hs Hv hdr'. unfold hdr', set_member.
  destruct (update_section_spec hdr section (fun s => json_object_object_add_by_uint s id v') S Hs) as [H1 H2].
  split; [done|]. pose proof (get_ex_type _ _ _ Hv) as HS. eexists. split; [exact H2|].
  unfold json_object_object_add_by_uint. split; [by apply object_add_type|].
  split; [by apply get_ex_add_same|]. by eapply add_changed.
Qed.

(** A loop over members each of which is replaced by a related one. *)
Lemma for_members_spec section (R : json -> json -> Prop) (Q : json -> Prop) f :
  (forall hdr S d v, json_object_object_get_ex (jobj hdr) section = Some S -> 0 <= d < 2 ^ 31 ->
     json_object_object_get_ex S (dec_u32 d) = Some v -> Q v ->
     exists v', f hdr d = (0, set_member hdr section d v') /\ R v v') ->
  forall l hdr S,
    json_object_object_get_ex (jobj hdr) section = Some S -> NoDup l.*1 ->
    (forall kv, kv ∈ l -> kv ∈ json_object_entries S /\ canonical_key kv.1 /\ Q kv.2) ->
    exists hdr' S', for_members l hdr f = (0, hdr') /\ same_but section hdr hdr' /\
      json_object_object_get_ex (jobj hdr') section = Some S' /\
      changed (fun k a b => (k ∈ l.*1 /\ R a b) \/ (k ∉ l.*1 /\ b = a))
        (json_object_entries S) (json_object_entries S').
Proof.
  intros Hf l. induction l as [|[key v] l IH]; intros hdr S Hs Hnd Hl; cbn [for_members].
  - exists hdr, S. split; [done|]. split; [apply same_but_refl; by eapply get_ex_type|]. split; [done|].
    apply changed_refl. intros. right. split; [by apply not_elem_of_nil|done].
  - destruct (Hl (key, v)) as (Hin & [Hk Hd] & HQ); [by left|]. simpl in *.
    apply entries_get in Hin. rewrite Hk in Hin. inversion Hnd as [|? ? Hnk Hnd']; subst.
    destruct (Hf hdr S (atoi key) v Hs Hd Hin HQ) as (v' & E & HR). rewrite E.
    rewrite (proj2 (Z.ltb_ge 0 0)) by lia.
    destruct (set_member_spec hdr section S (atoi key) v v' Hs Hin) as (HJ & S1 & HS1 & _ & _ & Hc1).
    rewrite <-Hk in Hc1.
    destruct (IH (set_member hdr section (atoi key) v') S1 HS1 Hnd') as (hdr' & S' & E' & HJ' & HS' & Hc').
    { intros kv Hkv. destruct (Hl kv) as (Hi & Hc & HQ'); [by right|]. split; [|done].
      destruct kv as [k a]. destruct (changed_out _ _ _ _ _ Hc1 Hi) as (b & Hb & [[-> _]|[_ ->]]); [|done].
      destruct Hnk. apply list_elem_of_fmap. by exists (key, a). }
    exists hdr', S'. split; [done|]. split; [by eapply same_but_trans|]. split; [done|].
    apply changed_impl with (R' := fun k a b => (k = key /\ a = v /\ b = v') \/ (k <> key /\ b = a)) in Hc1.
    2: { intros k a b Hi [[-> ->]|?]; [left|by right]. apply entries_get in Hi.
         split; [done|]. split; [|done]. rewrite Hk in Hi. congruence. }
    eapply changed_trans; [|exact Hc1|exact Hc']. intros k a b c [(-> & -> & ->)|[Hne ->]] [[Hin' HR']|[Hni ->]].
    + done.
    + left. split; [by left|done].
    + left. split; [by right|done].
    + right. split; [|done]. by intros [?|?]%elem_of_cons.
Qed.

(** Over all members of a section. *)
Lemma for_all_members_spec section (R : json -> json -> Prop) (Q : json -> Prop) f hdr S :
  (forall hdr S d v, json_object_object_get_ex (jobj hdr) section = Some S -> 0 <= d < 2 ^ 31 ->
     json_object_object_get_ex S (dec_u32 d) = Some v -> Q v ->
     exists v', f hdr d = (0, set_member hdr section d v') /\ R v v') ->
  json_object_object_get_ex (jobj hdr) section = Some S -> canonical S ->
  (forall kv, kv ∈ json_object_entries S -> Q kv.2) ->
  exists hdr' S', for_members (json_object_entries S) hdr f = (0, hdr') /\ same_but section hdr hdr' /\
    json_object_object_get_ex (jobj hdr') section = Some S' /\
    changed (fun _ => R) (json_object_entries S) (json_object_entries S').
Proof.
  intros Hf Hs Hc HQ.
  destruct (for_members_spec section R Q f Hf (json_object_entries S) hdr S Hs (entries_nodup S))
    as (hdr' & S' & H1 & H2 & H3 & H4); [by auto|].
  exists hdr', S'. do 3 (split; [done|]). eapply changed_impl; [|exact H4].
  intros k a b Hin [[_ HR]|[Hni _]]; [done|]. destruct Hni. apply list_elem_of_fmap. by exists (k, a).
Qed.
End sections.
