(* ===== verification/Luks2EditProps.v ===== *)
(** * Luks2EditProps: changes preserve validity

    Removing a keyslot, and allocating one after its assignment to a digest,
    take valid headers to valid headers. *)

From S2P Require Import Prelude Cstd JsonC Luks2Json Luks2Keyslot Luks2Edit Luks2Areas Luks2Validate Luks2EditFacts.
From Stdlib Require Import Sorted.

(** ** The validators as predicates *)

Section valid.
Context `{JL : JsonCLaws}.

Lemma code_iff (b : bool) : (if b then 0 else 1) = 0 <-> b = true.
Proof. by destruct b. Qed.

Lemma forallb_iff {A} (f : A -> bool) l : forallb f l = true <-> forall x, x ∈ l -> f x = true.
Proof.
  rewrite forallb_forall. split; intros H x Hx; apply H; by apply list_elem_of_In.
Qed.

(** The references of an array name objects of the section. *)
Definition refs_ok (arr section : json) : Prop :=
  forall x, x ∈ json_object_array_elems arr ->
    json_object_get_type x = json_type_string /\
    exists o, json_object_object_get_ex section (json_object_get_string x) = Some o /\
      json_object_get_type o = json_type_object.

Lemma validate_ref_array_iff arr section : validate_ref_array arr section = true <-> refs_ok arr section.
Proof.
  unfold validate_ref_array, refs_ok. rewrite forallb_iff. split; intros H x Hx; specialize (H x Hx).
  - apply andb_true_iff in H as [H1 H2]. split; [by apply is_type_spec|]. by apply has_get.
  - apply andb_true_iff. destruct H as [H1 H2]. split; [by apply is_type_spec|]. by apply has_get.
Qed.

Definition array_at (j : json) (key : string) (arr : json) : Prop :=
  json_object_object_get_ex j key = Some arr /\ json_object_get_type arr = json_type_array.

(** A token, or a digest without its segments. *)
Definition refers_to (val K : json) : Prop :=
  has val "type" json_type_string = true /\ exists arr, array_at val "keyslots" arr /\ refs_ok arr K.

Lemma hdr_validate_tokens_iff J K :
  json_object_object_get_ex J "keyslots" = Some K ->
  hdr_validate_tokens J = 0 <->
  exists T, json_object_object_get_ex J "tokens" = Some T /\
    forall k v, (k, v) ∈ json_object_entries T -> numbered k = true /\ refers_to v K.
Proof.
  intros HK. unfold hdr_validate_tokens. destruct (json_object_object_get_ex J "tokens") as [T|]; [|by split; [|intros (?&?&?)]].
  rewrite code_iff. unfold for_all_members. rewrite forallb_iff.
  assert (E : forall v, LUKS2_token_validate J v = 0 <-> refers_to v K).
  { intros v. unfold LUKS2_token_validate, refers_to. rewrite HK. destruct (has v "type" json_type_string); [|by split; [|intros [? _]]].
    cbn [negb]. destruct (json_contains v "keyslots" json_type_array) as [arr|] eqn:Ea.
    - apply json_contains_get in Ea as [E1 E2]. rewrite code_iff. unfold validate_keyslots_array.
      rewrite validate_ref_array_iff. split.
      + intros H. split; [done|]. by exists arr.
      + intros (_ & arr' & [Ha _] & Hr). by assert (arr' = arr) as -> by congruence.
    - split; [done|]. intros (_ & arr & [Ha Ht] & _). by rewrite (contains_get _ _ _ _ Ha Ht) in Ea. }
  split.
  - intros H. exists T. split; [done|]. intros k v Hin. specialize (H (k, v) Hin). simpl in H.
    apply andb_true_iff in H as [H1 H2]. split; [done|]. apply E. by apply Z.eqb_eq.
  - intros (T' & [= <-] & H) [k v] Hin. destruct (H k v Hin) as [H1 H2]. simpl. rewrite H1.
    apply Z.eqb_eq. by apply E.
Qed.

Lemma hdr_validate_digests_iff J K S :
  json_object_object_get_ex J "keyslots" = Some K -> json_object_object_get_ex J "segments" = Some S ->
  hdr_validate_digests J = 0 <->
  exists D, json_object_object_get_ex J "digests" = Some D /\
    forall k v, (k, v) ∈ json_object_entries D -> numbered k = true /\ refers_to v K /\
      exists arr, array_at v "segments" arr /\ refs_ok arr S.
Proof.
  intros HK HS. unfold hdr_validate_digests. rewrite HK, HS.
  destruct (json_object_object_get_ex J "digests") as [D|]; [|by split; [|intros (?&?&?)]].
  rewrite code_iff. unfold for_all_members. rewrite forallb_iff.
  assert (E : forall k v, digest_ok K S k v = true <-> numbered k = true /\ refers_to v K /\
      exists arr, array_at v "segments" arr /\ refs_ok arr S).
  { intros k v. unfold digest_ok, refers_to. rewrite !andb_true_iff.
    destruct (json_contains v "keyslots" json_type_array) as [a|] eqn:Ea;
      [destruct (json_contains v "segments" json_type_array) as [b|] eqn:Eb|].
    - apply json_contains_get in Ea, Eb. unfold validate_keyslots_array, validate_segments_array.
      rewrite andb_true_iff, !validate_ref_array_iff. split.
      + intros ((H1 & H2) & H3 & H4). repeat split; eauto.
      + intros (H1 & (H2 & a' & [Ha' _] & H3) & b' & [Hb' _] & H4).
        assert (a' = a) as -> by (destruct Ea; congruence). assert (b' = b) as -> by (destruct Eb; congruence). done.
    - split; [by intros [_ ?]|]. intros (_ & _ & b & [Hb Hb'] & _). by rewrite (contains_get _ _ _ _ Hb Hb') in Eb.
    - split; [by intros [_ ?]|]. intros (_ & (_ & a & [Ha Ha'] & _) & _). by rewrite (contains_get _ _ _ _ Ha Ha') in Ea. }
  split.
  - intros H. exists D. split; [done|]. intros k v Hin. apply E. exact (H (k, v) Hin).
  - intros (D' & [= <-] & H) [k v] Hin. simpl. by apply E, H.
Qed.

Lemma hdr_validate_keyslots_iff J K :
  json_object_object_get_ex J "keyslots" = Some K ->
  hdr_validate_keyslots J = 0 <->
  forall k v, (k, v) ∈ json_object_entries K -> numbered k = true /\ LUKS2_keyslot_validate v = 0.
Proof.
  intros HK. unfold hdr_validate_keyslots. rewrite HK, code_iff. unfold for_all_members. rewrite forallb_iff.
  split.
  - intros H k v Hin. specialize (H (k, v) Hin). simpl in H. apply andb_true_iff in H as [H1 H2].
    split; [done|]. by apply Z.eqb_eq.
  - intros H [k v] Hin. destruct (H k v Hin) as [H1 H2]. simpl. rewrite H1. by apply Z.eqb_eq.
Qed.

Lemma LUKS2_keyslots_validate_iff J K :
  json_object_object_get_ex J "keyslots" = Some K ->
  LUKS2_keyslots_validate J = 0 <-> forall k v, (k, v) ∈ json_object_entries K -> keyslot_ok J k v = true.
Proof.
  intros HK. unfold LUKS2_keyslots_validate. rewrite HK.
  destruct (forallb _ _) eqn:E.
  - split; [|done]. intros _ k v Hin. rewrite forallb_iff in E. exact (E (k, v) Hin).
  - split; [done|]. intros H. apply not_true_iff_false in E. destruct E. apply forallb_iff. intros [k v] Hin. by apply H.
Qed.

Lemma LUKS2_hdr_validate_intro J n :
  json_object_get_type J = json_type_object ->
  hdr_validate_tokens J = 0 -> hdr_validate_digests J = 0 -> hdr_validate_segments J = 0 ->
  hdr_validate_keyslots J = 0 -> hdr_validate_config J = 0 -> hdr_validate_areas J = 0 ->
  hdr_validate_json_size J n = 0 -> LUKS2_keyslots_validate J = 0 -> LUKS2_hdr_validate J n = 0.
Proof.
  intros Ht H1 H2 H3 H4 H5 H6 H7 H8. unfold LUKS2_hdr_validate, json_is_null.
  destruct (json_object_is_type J json_type_null) eqn:E; [apply is_type_spec in E; congruence|].
  unfold checks. cbn [existsb]. rewrite H1, H2, H3, H4, H5, H6, H7, H8. done.
Qed.

(** ** What each validator reads *)

Lemma crypt_segment_mono v key D D' size :
  (segment_has_digest key D = true -> segment_has_digest key D' = true) ->
  hdr_validate_crypt_segment v key D size = 0 -> hdr_validate_crypt_segment v key D' size = 0.
Proof.
  intros Hd. unfold hdr_validate_crypt_segment.
  destruct (json_contains v "iv_tweak" json_type_string); [|done].
  destruct (json_contains v "encryption" json_type_string); [|done].
  destruct (json_contains v "sector_size" json_type_int); [|done].
  destruct (negb _); [done|]. destruct (negb _); [done|]. destruct (_ || _); [done|].
  destruct (_ || _); [done|]. destruct (negb _); [done|].
  destruct (segment_has_digest key D); [|done]. by rewrite Hd.
Qed.

Lemma segment_step_mono D D' fb key v fb' :
  (segment_has_digest key D = true -> segment_has_digest key D' = true) ->
  segment_step D fb key v = Some fb' -> segment_step D' fb key v = Some fb'.
Proof.
  intros Hd. unfold segment_step. destruct (negb (numbered key)); [done|].
  destruct (json_contains v "type" json_type_string) as [jt|]; [|done].
  destruct (json_contains v "offset" json_type_string) as [jo|]; [|done].
  destruct (json_contains v "size" json_type_string) as [js|]; [|done].
  destruct (negb _); [done|]. destruct (json_str_to_uint64 jo) as [ok offset].
  destruct (negb ok); [done|]. destruct (segment_size_field js) as [size|]; [|done].
  destruct (negb _); [done|]. destruct (negb _); [done|]. destruct (negb _); [done|]. cbv zeta.
  destruct (_ && _); [done|]. destruct (bool_decide _); [|done]. cbn [andb].
  destruct (Z.eqb_spec (hdr_validate_crypt_segment v key D size) 0) as [E|]; [|done].
  by rewrite (crypt_segment_mono _ _ _ _ _ Hd E).
Qed.

Lemma segments_loop_mono D D' fb l fb' :
  (forall key, key ∈ l.*1 -> segment_has_digest key D = true -> segment_has_digest key D' = true) ->
  segments_loop D fb l = Some fb' -> segments_loop D' fb l = Some fb'.
Proof.
  revert fb. induction l as [|[key v] l IH]; intros fb Hd; [done|]. cbn [segments_loop].
  destruct (segment_step D fb key v) as [fb1|] eqn:E; [|done]. intros Hl.
  rewrite (segment_step_mono D D' fb key v fb1); [|apply Hd; by left|done].
  apply IH; [|done]. intros k Hk. apply Hd. by right.
Qed.

Lemma hdr_validate_segments_mono J J' D D' :
  json_object_object_get_ex J' "segments" = json_object_object_get_ex J "segments" ->
  json_object_object_get_ex J "digests" = Some D -> json_object_object_get_ex J' "digests" = Some D' ->
  (forall key, segment_has_digest key D = true -> segment_has_digest key D' = true) ->
  hdr_validate_segments J = 0 -> hdr_validate_segments J' = 0.
Proof.
  intros HS HD HD' Hd. unfold hdr_validate_segments. rewrite HS, HD, HD'.
  destruct (json_object_object_get_ex J "segments") as [S|]; [|done]. cbv zeta.
  destruct (_ <? 1); [done|]. destruct (segments_loop D (-1) _) as [fb|] eqn:E; [|done].
  by rewrite (segments_loop_mono D D' (-1) _ fb) by (auto; done).
Qed.

Lemma hdr_validate_config_ext J J' :
  json_object_object_get_ex J' "config" = json_object_object_get_ex J "config" ->
  json_object_object_get_ex J' "segments" = json_object_object_get_ex J "segments" ->
  hdr_validate_config J' = hdr_validate_config J.
Proof.
  intros HC HS. unfold hdr_validate_config, json_get_segments_jobj, json_get_ptr. by rewrite HC, HS.
Qed.

Lemma sizes_ext J J' :
  json_object_object_get_ex J' "config" = json_object_object_get_ex J "config" ->
  LUKS2_metadata_size_jobj J' = LUKS2_metadata_size_jobj J /\
  LUKS2_hdr_and_areas_size_jobj J' = LUKS2_hdr_and_areas_size_jobj J.
Proof.
  intros HC. unfold LUKS2_hdr_and_areas_size_jobj, LUKS2_metadata_size_jobj, LUKS2_keyslots_size_jobj, json_get.
  by rewrite HC.
Qed.

(** ** Areas *)

(** Two areas that [validate_intervals] lets coexist. *)
Definition apart (x y : interval) : Prop :=
  (i_offset x < i_offset y \/ i_offset y +64 i_length y <= i_offset x) /\
  (i_offset y < i_offset x \/ i_offset x +64 i_length x <= i_offset y).

Definition area_in (m e : Z) (x : interval) : Prop :=
  2 *64 m <= i_offset x /\ i_length x <> 0 /\ i_offset x +64 i_length x <= e.

Lemma StronglySorted_pairs {A} (R : A -> A -> Prop) l :
  StronglySorted R l <-> forall i j x y, (i < j)%nat -> l !! i = Some x -> l !! j = Some y -> R x y.
Proof.
  split.
  - induction 1 as [|a l Hs IH Hf]; intros i j x y Hij Hx Hy; [done|].
    destruct j as [|j]; [lia|]. destruct i as [|i].
    + injection Hx as ->. rewrite Forall_forall in Hf. apply Hf. by eapply list_elem_of_lookup_2.
    + apply (IH i j); [lia|done|done].
  - induction l as [|a l IH]; intros H; constructor.
    + apply IH. intros i j x y Hij. apply (H (S i) (S j)). lia.
    + apply Forall_forall. intros y Hy. apply list_elem_of_lookup in Hy as [j Hj].
      apply (H 0%nat (S j)); [lia|done|done].
Qed.

Lemma validate_intervals_iff ix m e :
  validate_intervals ix m e = true <-> Forall (area_in m e) ix /\ StronglySorted apart ix.
Proof.
  rewrite Forall_lookup, StronglySorted_pairs. split.
  - intros H. split.
    + intros i x Hx. by destruct (validate_intervals_sound _ _ _ H i x Hx) as (? & ? & ? & _).
    + intros i j x y Hij Hx Hy.
      destruct (validate_intervals_sound _ _ _ H i x Hx) as (_ & _ & _ & H1).
      destruct (validate_intervals_sound _ _ _ H j y Hy) as (_ & _ & _ & H2).
      split; [apply (H1 j y Hy)|apply (H2 i x Hx)]; lia.
  - intros [Hin Hap]. unfold validate_intervals. apply forallb_seq. intros i Hi.
    destruct (lookup_lt_is_Some_2 ix i Hi) as [x Hx]. rewrite (interval_at_lookup _ _ _ Hx).
    destruct (Hin i x Hx) as (H1 & H2 & H3).
    assert (Ho : overlaps_any ix i = false); [|rewrite Ho; lia].
    unfold overlaps_any. apply existsb_seq_false. intros j Hj.
    destruct (lookup_lt_is_Some_2 ix j Hj) as [y Hy].
    rewrite (interval_at_lookup _ _ _ Hx), (interval_at_lookup _ _ _ Hy).
    destruct (Nat.eqb_spec i j) as [->|Hne]; [done|]. cbn [negb andb].
    destruct (Nat.lt_gt_cases i j) as [[Hlt|Hlt] _]; [done|..].
    + destruct (Hap i j x y Hlt Hx Hy) as [? _]. lia.
    + destruct (Hap j i y x Hlt Hy Hx) as [_ ?]. lia.
Qed.

Lemma Forall_sub {A} (P : A -> Prop) l k : sublist l k -> Forall P k -> Forall P l.
Proof. induction 1; intros Hk; [done|..]; inversion Hk; subst; [constructor|]; auto. Qed.

Lemma StronglySorted_sublist {A} (R : A -> A -> Prop) l k :
  sublist l k -> StronglySorted R k -> StronglySorted R l.
Proof.
  induction 1 as [|x l k Hs IH|x l k Hs IH]; intros Hk; [done|..]; inversion Hk; subst; [|auto].
  constructor; [auto|]. eapply Forall_sub; eauto.
Qed.

Lemma mapM_filter {A B} (f : A -> option B) (P : A -> Prop) `{!forall x, Decision (P x)} l k :
  mapM f l = Some k -> exists k', mapM f (filter P l) = Some k' /\ sublist k' k.
Proof.
  revert k. induction l as [|a l IH]; intros k Hm; [injection Hm as <-; exists []; split; [done|constructor]|].
  apply mapM_Some in Hm. inversion Hm as [|? b ? k0 Hb Hk0]; subst. apply mapM_Some in Hk0.
  destruct (IH k0 Hk0) as (k' & E & Hs). rewrite filter_cons. case_decide.
  - exists (b :: k'). split; [|by constructor]. apply mapM_Some. constructor; [done|]. by apply mapM_Some.
  - exists k'. split; [done|]. by constructor.
Qed.

Definition areas_ok (J K : json) : Prop :=
  exists ix, mapM (fun kv => area_interval kv.2) (json_object_entries K) = Some ix /\
    Forall (area_in (LUKS2_metadata_size_jobj J) (LUKS2_hdr_and_areas_size_jobj J)) ix /\
    StronglySorted apart ix.

Lemma hdr_validate_areas_iff J K :
  json_object_object_get_ex J "keyslots" = Some K -> is_Some (json_object_object_get_ex J "segments") ->
  hdr_validate_areas J = 0 <-> areas_ok J K.
Proof.
  intros HK [S HS]. unfold hdr_validate_areas. rewrite HK, HS. unfold areas_ok.
  destruct (Z.eqb_spec (json_object_object_length K) 0) as [E|E].
  - split; [|done]. intros _. apply zlen_0_nil in E. rewrite E. exists []. split; [done|]. split; constructor.
  - destruct (mapM _ _) as [ix|]; [|by split; [|intros (?&?&?)]]. rewrite code_iff, validate_intervals_iff.
    split; [intros H; by exists ix|]. by intros (ix' & [= <-] & H).
Qed.

Lemma areas_ok_filter J J' K K' (P : string * json -> Prop) `{!forall x, Decision (P x)} :
  json_object_object_get_ex J' "config" = json_object_object_get_ex J "config" ->
  json_object_entries K' = filter P (json_object_entries K) -> areas_ok J K -> areas_ok J' K'.
Proof.
  intros HC HK (ix & Hm & Hf & Hs). destruct (sizes_ext J J' HC) as [E1 E2]. unfold areas_ok.
  rewrite E1, E2, HK. destruct (mapM_filter _ P _ _ Hm) as (ix' & Hm' & Hsub).
  exists ix'. split; [done|]. split; [by eapply Forall_sub|by eapply StronglySorted_sublist].
Qed.
End valid.

(** ** Removing a keyslot *)

Section remove.
Context `{JL : JsonCLaws}.

(** The ids are printed in plain decimal (validation lets leading zeros pass,
    and the code then looks for another key). *)
Definition ids_canonical (J : json) : Prop :=
  forall s S, s ∈ ["keyslots"; "tokens"; "digests"]%string ->
    json_object_object_get_ex J s = Some S -> canonical S.

(** No array of a token or digest names a keyslot twice. *)
Definition refs_once (J : json) : Prop :=
  forall s S key v arr, s ∈ ["tokens"; "digests"]%string ->
    json_object_object_get_ex J s = Some S -> (key, v) ∈ json_object_entries S ->
    json_object_object_get_ex v "keyslots" = Some arr -> NoDup (refs arr).

Lemma get_digest_member hdr S d v :
  json_object_object_get_ex (jobj hdr) "digests" = Some S -> 0 <= d ->
  json_object_object_get_ex S (dec_u32 d) = Some v -> json_object_get_type v = json_type_object ->
  LUKS2_get_digest_jobj hdr d = Some v.
Proof.
  intros HS Hd Hv Ht. unfold LUKS2_get_digest_jobj. rewrite (proj2 (Z.ltb_ge d 0)), HS by lia.
  cbn [mbind option_bind]. apply get_ptr_object; [done|congruence].
Qed.

Lemma get_token_member hdr S d v :
  json_object_object_get_ex (jobj hdr) "tokens" = Some S -> 0 <= d ->
  json_object_object_get_ex S (dec_u32 d) = Some v -> json_object_get_type v = json_type_object ->
  LUKS2_get_token_jobj hdr d = Some v.
Proof.
  intros HS Hd Hv Ht. unfold LUKS2_get_token_jobj, LUKS2_get_tokens_jobj.
  rewrite (proj2 (Z.ltb_ge d 0)) by lia. pose proof (get_ex_type _ _ _ Hv).
  rewrite (get_ptr_object _ _ S HS) by congruence. cbn [mbind option_bind].
  apply get_ptr_object; [done|congruence].
Qed.

Lemma unassign_one member hdr section d v arr num :
  member = Some v -> array_at v "keyslots" arr ->
  exists v', assign_one member hdr section "keyslots" d num false = (0, set_member hdr section d v') /\
    unassigned v v' "keyslots" num.
Proof.
  intros -> [Ha Ht]. destruct (assign_in_false v "keyslots" num arr Ha Ht) as (v' & E & H).
  exists v'. split; [|done]. unfold assign_one. cbn [mbind option_bind]. by rewrite E.
Qed.

Definition has_refs (v : json) : Prop := exists arr, array_at v "keyslots" arr.

Lemma has_refs_object v : has_refs v -> json_object_get_type v = json_type_object.
Proof. intros (arr & Ha & _). by eapply get_ex_type. Qed.

(** The keyslot leaves all members of the section. *)
Lemma unassign_digests hdr D k :
  json_object_object_get_ex (jobj hdr) "digests" = Some D -> canonical D ->
  (forall kv, kv ∈ json_object_entries D -> has_refs kv.2) ->
  exists hdr' D', LUKS2_digest_assign_jobj hdr k CRYPT_ANY_DIGEST false = (0, hdr') /\
    same_but "digests" hdr hdr' /\ json_object_object_get_ex (jobj hdr') "digests" = Some D' /\
    changed (fun _ v v' => unassigned v v' "keyslots" (dec_i32 k)) (json_object_entries D) (json_object_entries D').
Proof.
  intros HD Hc HQ. unfold LUKS2_digest_assign_jobj. cbn [Z.eqb CRYPT_ANY_DIGEST Pos.eqb].
  rewrite (get_json_get _ _ _ HD). apply for_all_members_spec with (Q := has_refs); try done.
  intros h S d v HS Hd Hv [arr Ha]. eapply unassign_one; [|exact Ha].
  eapply get_digest_member; eauto; [lia|]. apply has_refs_object. by exists arr.
Qed.

Lemma unassign_tokens hdr T k :
  json_object_object_get_ex (jobj hdr) "tokens" = Some T -> canonical T -> k <> CRYPT_ANY_SLOT ->
  (forall kv, kv ∈ json_object_entries T -> has_refs kv.2) ->
  exists r hdr' T', LUKS2_token_assign_jobj hdr k CRYPT_ANY_TOKEN false = (r, hdr') /\
    same_but "tokens" hdr hdr' /\ json_object_object_get_ex (jobj hdr') "tokens" = Some T' /\
    changed (fun _ v v' => unassigned v v' "keyslots" (dec_i32 k)) (json_object_entries T) (json_object_entries T').
Proof.
  intros HT Hc Hk HQ. unfold LUKS2_token_assign_jobj. cbn [Z.eqb CRYPT_ANY_TOKEN Pos.eqb].
  rewrite (get_json_get _ _ _ HT).
  edestruct (for_all_members_spec "tokens" (fun v v' => unassigned v v' "keyslots" (dec_i32 k)) has_refs
    (fun h t => assign_one_token h k t false) hdr T) as (hdr' & T' & E & H); [|done..|].
  - intros h S d v HS Hd Hv [arr Ha]. unfold assign_one_token.
    assert (Hm : LUKS2_get_token_jobj h d = Some v).
    { eapply get_token_member; eauto; [lia|]. apply has_refs_object. by exists arr. }
    rewrite Hm. destruct (Z.eqb_spec k CRYPT_ANY_SLOT); [done|]. unfold assign_one_keyslot.
    by eapply unassign_one.
  - rewrite E. exists CRYPT_ANY_TOKEN, hdr', T'. done.
Qed.

(** References that are left name keyslots that are left. *)
Lemma refers_to_unassigned v v' K K' num :
  unassigned v v' "keyslots" num -> refers_to v K ->
  (forall arr, json_object_object_get_ex v "keyslots" = Some arr -> NoDup (refs arr)) ->
  (forall s, s <> num -> json_object_object_get_ex K' s = json_object_object_get_ex K s) ->
  refers_to v' K'.
Proof.
  intros (_ & Hother & arr & arr' & Ha & Ha' & Ht & Hin & _ & Hgone) (Hty & a & [Ea _] & Hr) Hnd HK.
  assert (a = arr) as -> by congruence. split; [by rewrite (has_ext v v') by (by apply Hother)|].
  exists arr'. split; [done|]. intros x Hx. destruct (Hr x (Hin x Hx)) as (H1 & o & H2 & H3).
  split; [done|]. exists o. split; [|done]. rewrite HK; [done|]. intros Heq.
  apply (Hgone (Hnd _ Ha)). apply list_elem_of_fmap. by exists x.
Qed.

(** What the changed digests mean for the rest of the header. *)
Lemma changed_has_digest D D' num key :
  changed (fun _ v v' => unassigned v v' "keyslots" num) (json_object_entries D) (json_object_entries D') ->
  segment_has_digest key D = true -> segment_has_digest key D' = true.
Proof.
  intros Hc. unfold segment_has_digest. rewrite !existsb_exists. intros ([k v] & Hin & Hv).
  apply list_elem_of_In in Hin. destruct (changed_out _ _ _ _ _ Hc Hin) as (v' & Hin' & _ & Hother & _).
  exists (k, v'). split; [by apply list_elem_of_In|]. cbn [snd] in *. unfold json_get in *.
  by rewrite Hother.
Qed.

Lemma filter_changed {R} (P P' : string * json -> Prop) `{!forall x, Decision (P x)} `{!forall x, Decision (P' x)} l l' :
  changed R l l' -> (forall k v v', R k v v' -> P (k, v) <-> P' (k, v')) ->
  length (filter P' l') = length (filter P l).
Proof.
  intros Hc HP. induction Hc as [|[k v] [k' v'] l l' [H1 H2] _ IH]; [done|]. simpl in *. subst k'.
  specialize (HP k v v' H2). rewrite !filter_cons. repeat case_decide; simpl; try lia; tauto.
Qed.

Lemma count_unassigned J J' D D' num i :
  json_object_object_get_ex J "digests" = Some D -> json_object_object_get_ex J' "digests" = Some D' ->
  changed (fun _ v v' => unassigned v v' "keyslots" num) (json_object_entries D) (json_object_entries D') ->
  dec_u32 i <> num -> LUKS2_get_keyslot_digests_count J' i = LUKS2_get_keyslot_digests_count J i.
Proof.
  intros HD HD' Hc Hi. unfold LUKS2_get_keyslot_digests_count. rewrite HD, HD'. unfold zlen. f_equal.
  eapply filter_changed; [exact Hc|]. intros k v v' (_ & _ & arr & arr' & Ha & Ha' & _ & _ & Hr & _).
  cbn [snd]. rewrite (get_json_get _ _ _ Ha), (get_json_get _ _ _ Ha'), !array_jobj_refs.
  symmetry. by apply Hr.
Qed.

Lemma keyslot_ok_ext J J' k v :
  LUKS2_get_keyslot_digests_count J' (atoi k) = LUKS2_get_keyslot_digests_count J (atoi k) ->
  keyslot_ok J' k v = keyslot_ok J k v.
Proof. intros H. unfold keyslot_ok. by rewrite H. Qed.

(** The sections of a valid header. *)
Record sections (J K T S D C : json) : Prop := {
  sc_type : json_object_get_type J = json_type_object;
  sc_keyslots : json_object_object_get_ex J "keyslots" = Some K;
  sc_tokens : json_object_object_get_ex J "tokens" = Some T;
  sc_segments : json_object_object_get_ex J "segments" = Some S;
  sc_digests : json_object_object_get_ex J "digests" = Some D;
  sc_config : json_object_object_get_ex J "config" = Some C;
}.

Record valid_parts (J K T S D : json) (n : Z) : Prop := {
  vp_tokens : forall k v, (k, v) ∈ json_object_entries T -> numbered k = true /\ refers_to v K;
  vp_digests : forall k v, (k, v) ∈ json_object_entries D -> numbered k = true /\ refers_to v K /\
    exists arr, array_at v "segments" arr /\ refs_ok arr S;
  vp_segments : hdr_validate_segments J = 0;
  vp_keyslots : forall k v, (k, v) ∈ json_object_entries K -> numbered k = true /\ LUKS2_keyslot_validate v = 0;
  vp_config : hdr_validate_config J = 0;
  vp_areas : areas_ok J K;
  vp_size : hdr_validate_json_size J n = 0;
  vp_handlers : forall k v, (k, v) ∈ json_object_entries K -> keyslot_ok J k v = true;
}.

Lemma valid_parts_intro J K T S D C n :
  sections J K T S D C -> valid_parts J K T S D n -> LUKS2_hdr_validate J n = 0.
Proof.
  intros [Ht HK HT HS HD HC] [V1 V2 V3 V4 V5 V6 V7 V8]. apply LUKS2_hdr_validate_intro; try done.
  - apply (hdr_validate_tokens_iff J K HK). by exists T.
  - apply (hdr_validate_digests_iff J K S HK HS). by exists D.
  - by apply (hdr_validate_keyslots_iff J K HK).
  - apply (hdr_validate_areas_iff J K HK); [by rewrite HS|done].
  - by apply (LUKS2_keyslots_validate_iff J K HK).
Qed.

Lemma valid_parts_inv J n :
  LUKS2_hdr_validate J n = 0 -> exists K T S D C, sections J K T S D C /\ valid_parts J K T S D n.
Proof.
  intros (H1 & H2 & H3 & H4 & H5 & H6 & H7 & H8)%LUKS2_hdr_validate_inv.
  destruct (json_object_object_get_ex J "keyslots") as [K|] eqn:HK.
  2: { unfold hdr_validate_keyslots in H4. by rewrite HK in H4. }
  destruct (json_object_object_get_ex J "segments") as [S|] eqn:HS.
  2: { unfold hdr_validate_segments in H3. by rewrite HS in H3. }
  destruct (json_object_object_get_ex J "config") as [C|] eqn:HC.
  2: { unfold hdr_validate_config in H5. by rewrite HC in H5. }
  apply (hdr_validate_tokens_iff J K HK) in H1 as (T & HT & H1).
  apply (hdr_validate_digests_iff J K S HK HS) in H2 as (D & HD & H2).
  exists K, T, S, D, C. split; [split; try done; by eapply get_ex_type|].
  split; try done.
  - by apply (hdr_validate_keyslots_iff J K HK).
  - apply (hdr_validate_areas_iff J K HK); [by rewrite HS|done].
  - by apply (LUKS2_keyslots_validate_iff J K HK).
Qed.

Lemma keyslot_remove_sections hdr n k val K T S D C :
  sections (jobj hdr) K T S D C -> valid_parts (jobj hdr) K T S D n -> ids_canonical (jobj hdr) ->
  0 <= k < LUKS2_KEYSLOTS_MAX -> LUKS2_get_keyslot_jobj hdr k = Some val ->
  json_object_get_string (json_get val "type") = "luks2"%string ->
  is_Some (json_object_object_get_ex val "type") ->
  exists T' D', sections (jobj (keyslot_remove hdr k)) (json_object_object_del K (dec_u32 k)) T' S D' C /\
    changed (fun _ v v' => unassigned v v' "keyslots" (dec_i32 k)) (json_object_entries T) (json_object_entries T') /\
    changed (fun _ v v' => unassigned v v' "keyslots" (dec_i32 k)) (json_object_entries D) (json_object_entries D').
Proof.
  intros [Ht HK HT HS HD HC] V Hid Hk Hv Hty [ty Hty'].
  destruct (unassign_digests hdr D k HD) as (h1 & D' & E1 & B1 & G1 & C1).
  { apply (Hid "digests"%string D); [do 2 right; left|done]. }
  { intros [key v] Hin. destruct (vp_digests _ _ _ _ _ _ V key v Hin) as (_ & (_ & arr & Ha & _) & _). by exists arr. }
  assert (HT1 : json_object_object_get_ex (jobj h1) "tokens" = Some T).
  { destruct B1 as (_ & _ & ->); done. }
  destruct (unassign_tokens h1 T k HT1) as (r & h2 & T' & E2 & B2 & G2 & C2).
  { apply (Hid "tokens"%string T); [right; left|done]. }
  { unfold CRYPT_ANY_SLOT. lia. }
  { intros [key v] Hin. destruct (vp_tokens _ _ _ _ _ _ V key v Hin) as (_ & _ & arr & Ha & _). by exists arr. }
  assert (Hs : forall s, s <> "digests"%string -> s <> "tokens"%string ->
    json_object_object_get_ex (jobj h2) s = json_object_object_get_ex (jobj hdr) s).
  { intros s N1 N2. destruct B1 as (_ & _ & G). destruct B2 as (_ & _ & G'). by rewrite G', G. }
  exists T', D'. split; [|done]. unfold keyslot_remove, LUKS2_keyslot_handler. rewrite Hv. cbn [mbind option_bind].
  rewrite Hty'. cbn [mbind option_bind]. rewrite (get_json_get _ _ _ Hty') in Hty. rewrite Hty.
  change (LUKS2_keyslot_handler_type "luks2") with (Some luks2_keyslot).
  cbv iota. rewrite (bool_decide_true (kh_name luks2_keyslot = "luks2"%string)) by done.
  unfold luks2_keyslot_wipe. rewrite E1. cbn [snd]. rewrite E2. cbn [snd].
  destruct (update_section_spec h2 "keyslots" (fun s => json_object_object_del_by_uint s k) K)
    as [(_ & B3 & G3) G4]; [by rewrite Hs|].
  split; [done|exact G4|..]; rewrite G3 by done; try (by rewrite Hs); [done|].
  destruct B2 as (_ & _ & ->); done.
Qed.

Lemma del_other K key s :
  json_object_get_type K = json_type_object -> s <> key ->
  json_object_object_get_ex (json_object_object_del K key) s = json_object_object_get_ex K s.
Proof. intros HK Hs. rewrite object_del_get by done. by rewrite decide_False. Qed.

Lemma keyslot_remove_valid_parts J J' K T T' S D D' C n n' k :
  sections J K T S D C -> valid_parts J K T S D n -> ids_canonical J -> refs_once J ->
  json_object_get_type K = json_type_object -> 0 <= k < 2 ^ 31 ->
  sections J' (json_object_object_del K (dec_u32 k)) T' S D' C ->
  changed (fun _ v v' => unassigned v v' "keyslots" (dec_i32 k)) (json_object_entries T) (json_object_entries T') ->
  changed (fun _ v v' => unassigned v v' "keyslots" (dec_i32 k)) (json_object_entries D) (json_object_entries D') ->
  hdr_validate_json_size J' n' = 0 ->
  valid_parts J' (json_object_object_del K (dec_u32 k)) T' S D' n'.
Proof.
  intros [Ht HK HT HS HD HC] V Hid Honce HtK Hk [Ht' HK' HT' HS' HD' HC'] CT CD Hsz.
  rewrite dec_i32_u32 in CT, CD by done.
  assert (Hsub : forall key v, (key, v) ∈ json_object_entries (json_object_object_del K (dec_u32 k)) ->
    key <> dec_u32 k /\ (key, v) ∈ json_object_entries K).
  { intros key v. rewrite object_del_entries by done. by intros [? ?]%list_elem_of_filter. }
  assert (Hex : J' = J' /\ json_object_object_get_ex J' "segments" = json_object_object_get_ex J "segments" /\
    json_object_object_get_ex J' "config" = json_object_object_get_ex J "config") by (split; [done|]; split; congruence).
  destruct Hex as (_ & ES & EC). split.
  - intros key v' Hin. destruct (changed_in _ _ _ _ _ CT Hin) as (v & Hin0 & Hu).
    destruct (vp_tokens _ _ _ _ _ _ V key v Hin0) as [H1 H2]. split; [done|].
    eapply refers_to_unassigned; [exact Hu|exact H2| |intros; by apply del_other].
    intros arr Ha. eapply (Honce "tokens"%string T key v arr); try done. left.
  - intros key v' Hin. destruct (changed_in _ _ _ _ _ CD Hin) as (v & Hin0 & Hu).
    destruct (vp_digests _ _ _ _ _ _ V key v Hin0) as (H1 & H2 & arr & [Ha Hta] & Hr). split; [done|]. split.
    + eapply refers_to_unassigned; [exact Hu|exact H2| |intros; by apply del_other].
      intros arr' Ha'. eapply (Honce "digests"%string D key v arr'); try done. right; left.
    + exists arr. destruct Hu as (_ & Hother & _). split; [|done]. split; [by rewrite Hother|done].
  - eapply hdr_validate_segments_mono; [exact ES|exact HD|exact HD'| |exact (vp_segments _ _ _ _ _ _ V)].
    intros key. by apply changed_has_digest with (num := dec_u32 k).
  - intros key v [_ Hin]%Hsub. exact (vp_keyslots _ _ _ _ _ _ V key v Hin).
  - rewrite (hdr_validate_config_ext J J' EC ES). exact (vp_config _ _ _ _ _ _ V).
  - eapply areas_ok_filter; [exact EC| |exact (vp_areas _ _ _ _ _ _ V)]. by apply object_del_entries.
  - done.
  - intros key v [Hne Hin]%Hsub. rewrite (keyslot_ok_ext J J').
    + exact (vp_handlers _ _ _ _ _ _ V key v Hin).
    + eapply count_unassigned; [exact HD|exact HD'|exact CD|].
      destruct (Hid "keyslots"%string K ltac:(left) HK (key, v) Hin) as [Hkey _]. cbn [fst] in Hkey. congruence.
Qed.

Lemma digest_by_changed R section name D D' :
  changed R (json_object_entries D) (json_object_entries D') ->
  (forall k v v', R k v v' -> is_Some (LUKS2_array_jobj (json_get v section) name) <->
                              is_Some (LUKS2_array_jobj (json_get v' section) name)) ->
  digest_by section name D' = digest_by section name D.
Proof.
  intros Hc HR. unfold digest_by. induction Hc as [|[k v] [k' v'] l l' [H1 H2] _ IH]; [done|].
  simpl in *. subst k'. specialize (HR k v v' H2).
  destruct (decide (is_Some (LUKS2_array_jobj (json_get v section) name))) as [Hs|Hs].
  - rewrite (bool_decide_true _ Hs). by rewrite (bool_decide_true (is_Some _) (proj1 HR Hs)).
  - rewrite (bool_decide_false _ Hs), (bool_decide_false (is_Some _)); [done|tauto].
Qed.

Lemma get_keyslot_sections hdr K T S D C i :
  sections (jobj hdr) K T S D C -> 0 <= i -> LUKS2_get_keyslot_jobj hdr i = json_get_ptr K (dec_u32 i).
Proof.
  intros HJ Hi. unfold LUKS2_get_keyslot_jobj. rewrite (proj2 (Z.ltb_ge i 0)) by lia.
  by rewrite (sc_keyslots _ _ _ _ _ _ HJ).
Qed.

Lemma digest_by_keyslot_sections hdr K T S D C i :
  sections (jobj hdr) K T S D C ->
  LUKS2_digest_by_keyslot hdr i = digest_by "keyslots" (dec_u32 i) D.
Proof.
  intros HJ. unfold LUKS2_digest_by_keyslot. by rewrite (get_json_get _ _ _ (sc_digests _ _ _ _ _ _ HJ)).
Qed.

(** ** Properties *)

(** C20: Removing a keyslot of type luks2 from a valid header (its references in
    digests and tokens, then the keyslot) leaves a valid header, if the text
    still fits its area, in which the keyslot is gone and every other keyslot
    is unchanged and in the same digest. Ids are in plain decimal and no array
    names a keyslot twice: the code removes one reference per array. *)
Theorem keyslot_remove_valid hdr n k val :
  LUKS2_hdr_validate (jobj hdr) n = 0 -> ids_canonical (jobj hdr) -> refs_once (jobj hdr) ->
  0 <= k < LUKS2_KEYSLOTS_MAX -> LUKS2_get_keyslot_jobj hdr k = Some val ->
  json_object_get_string (json_get val "type") = "luks2"%string ->
  let hdr' := keyslot_remove hdr k in
  hdr_validate_json_size (jobj hdr') n = 0 ->
  LUKS2_hdr_validate (jobj hdr') n = 0 /\ LUKS2_get_keyslot_jobj hdr' k = None /\
  forall i, 0 <= i < LUKS2_KEYSLOTS_MAX -> i <> k ->
    LUKS2_get_keyslot_jobj hdr' i = LUKS2_get_keyslot_jobj hdr i /\
    LUKS2_digest_by_keyslot hdr' i = LUKS2_digest_by_keyslot hdr i.
Proof.
  intros Hv Hid Honce Hk Hval Hty hdr' Hsz. unfold LUKS2_KEYSLOTS_MAX in *.
  destruct (valid_parts_inv _ _ Hv) as (K & T & S & D & C & HJ & V).
  assert (HtK : json_object_get_type K = json_type_object).
  { rewrite (get_keyslot_sections hdr K T S D C k HJ) in Hval by lia. by eapply get_ex_type, get_ptr_get. }
  assert (Hex : is_Some (json_object_object_get_ex val "type")).
  { rewrite (get_keyslot_sections hdr K T S D C k HJ) in Hval by lia.
    apply get_ptr_get, entries_lookup in Hval. destruct (vp_keyslots _ _ _ _ _ _ V _ _ Hval) as [_ E].
    unfold LUKS2_keyslot_validate in E. destruct (has val "type" json_type_string) eqn:Eh; [|done].
    apply has_get in Eh as (o & -> & _). eauto. }
  destruct (keyslot_remove_sections hdr n k val K T S D C HJ V Hid Hk Hval Hty Hex) as (T' & D' & HJ' & CT & CD).
  fold hdr' in HJ'. split.
  { eapply valid_parts_intro; [exact HJ'|].
    eapply (keyslot_remove_valid_parts (jobj hdr) (jobj hdr') K T T' S D D' C n n k); [done..|lia|done|done|done|done]. }
  split.
  { rewrite (get_keyslot_sections hdr' _ _ _ _ _ k HJ') by lia. unfold json_get_ptr.
    by rewrite object_del_get, decide_True. }
  intros i Hi Hne. assert (Hdec : dec_u32 i <> dec_u32 k) by (intros E%dec_u32_inj; lia). split.
  - rewrite (get_keyslot_sections hdr' _ _ _ _ _ i HJ'), (get_keyslot_sections hdr _ _ _ _ _ i HJ) by lia.
    unfold json_get_ptr. by rewrite del_other.
  - rewrite (digest_by_keyslot_sections hdr' _ _ _ _ _ i HJ'), (digest_by_keyslot_sections hdr _ _ _ _ _ i HJ).
    rewrite dec_i32_u32 in CD by lia. eapply digest_by_changed; [exact CD|].
    intros key v v' (_ & _ & arr & arr' & Ha & Ha' & _ & _ & Hr & _).
    rewrite (get_json_get _ _ _ Ha), (get_json_get _ _ _ Ha'), !array_jobj_refs. symmetry. by apply Hr.
Qed.
End remove.

Definition ids_canonical_b `{JC : JsonC} (J : json) : bool :=
  forallb (fun s => forallb (fun kv => bool_decide (kv.1 = dec_u32 (atoi kv.1)) && (0 <=? atoi kv.1) && (atoi kv.1 <? 2 ^ 31))
             (json_object_entries (json_get J s))) ["keyslots"; "tokens"; "digests"]%string.

Lemma ids_canonical_b_ok `{JC : JsonC} J : ids_canonical_b J = true -> ids_canonical J.
Proof.
  intros H s S Hs HS kv Hin. unfold ids_canonical_b in H. eapply forallb_elem in H; [|exact Hs].
  cbv beta in H. rewrite (get_json_get _ _ _ HS) in H. eapply forallb_elem in H; [|exact Hin].
  rewrite !andb_true_iff in H. destruct H as ((H1%bool_decide_eq_true & H2) & H3). split; [done|lia].
Qed.

Definition refs_once_b `{JC : JsonC} (J : json) : bool :=
  forallb (fun s => forallb (fun kv => bool_decide (NoDup (refs (json_get kv.2 "keyslots"))))
             (json_object_entries (json_get J s))) ["tokens"; "digests"]%string.

Lemma refs_once_b_ok `{JC : JsonC} J : refs_once_b J = true -> refs_once J.
Proof.
  intros H s S key v arr Hs HS Hin Ha. unfold refs_once_b in H. eapply forallb_elem in H; [|exact Hs].
  cbv beta in H. rewrite (get_json_get _ _ _ HS) in H. eapply forallb_elem in H; [|exact Hin].
  cbn [snd] in H. rewrite (get_json_get _ _ _ Ha) in H. by apply bool_decide_eq_true in H.
Qed.

Lemma keyslot_remove_valid_witness :
  let hdr := fx_hdr [] 1 fx_two in
  LUKS2_hdr_validate (jobj (keyslot_remove hdr 0)) 12288 = 0 /\ LUKS2_get_keyslot_jobj (keyslot_remove hdr 0) 0 = None.
Proof.
  destruct (keyslot_remove_valid (fx_hdr [] 1 fx_two) 12288 0 (fx_keyslot 32768 258048)) as (H1 & H2 & _).
  - vm_compute. reflexivity.
  - apply ids_canonical_b_ok. vm_compute. reflexivity.
  - apply refs_once_b_ok. vm_compute. reflexivity.
  - split; vm_compute; congruence.
  - vm_compute. reflexivity.
  - vm_compute. reflexivity.
  - vm_compute. reflexivity.
  - exact (conj H1 H2).
Defined.
