(* ===== verification/Luks2Format.v ===== *)
(** * Luks2Format: new keyslots, digests and headers

    The JSON that the code creates: keyslots (lib/luks2/luks2_keyslot_luks2.c,
    luks2_keyslot_reenc.c), digests (luks2_digest_pbkdf2.c, luks2_digest.c) and
    whole headers ([LUKS2_generate_hdr] of luks2_json_format.c). Random
    numbers, key derivation and the device's answers are inputs. [None] means
    that the benchmark of the key derivation function does not return (see
    [Pbkdf]). *)

From S2P Require Import Prelude CryptBackend Base64 Cstd Pbkdf JsonC Luks2Json Luks2Keyslot Luks2Edit Luks2Areas Luks2Validate.
From Stdlib Require Import Strings.Byte.

Definition LUKS_SALTSIZE : Z := 32.
Definition LUKS_MKD_ITERATIONS_MS : Z := 125.
Definition LUKS2_HDR_16K_LEN : Z := 0x4000.
Definition LUKS2_DEFAULT_HDR_SIZE : Z := 0x1000000.
Definition LUKS2_HDR_OFFSET_MAX : Z := 0x400000.

(** [struct luks2_keyslot_params] *)
Record luks2_keyslot_params := KeyslotParams {
  af_type : Z; area_type : Z;
  af_luks1_hash : string; af_luks1_stripes : Z;
  area_raw_encryption : string; area_raw_key_size : Z;
}.

Definition LUKS2_KEYSLOT_AF_LUKS1 : Z := 0.
Definition LUKS2_KEYSLOT_AREA_RAW : Z := 0.

(** What an operation draws from outside: the context's parameters, the
    measurements of the benchmark, and the random salt with its result code. *)
Record kdf_env := KdfEnv {
  ke_pbkdf : crypt_pbkdf_type;
  ke_samples : samples;
  ke_salt : Z * bytes;
}.

Section format.
Context `{JC : JsonC}.

(** ** Keyslots *)

(** The object [kdf] without its salt. *)
Definition kdf_object (pbkdf : crypt_pbkdf_type) : json :=
  let type := default EmptyString (p_type pbkdf) in
  let j := json_object_object_add json_object_new_object "type" (json_object_new_string type) in
  if bool_decide (type = CRYPT_KDF_PBKDF2) then
    let j := json_object_object_add j "hash" (json_object_new_string (default EmptyString (p_hash pbkdf))) in
    json_object_object_add j "iterations" (json_object_new_int (p_iterations pbkdf))
  else
    let j := json_object_object_add j "time" (json_object_new_int (p_iterations pbkdf)) in
    let j := json_object_object_add j "memory" (json_object_new_int (p_max_memory_kb pbkdf)) in
    json_object_object_add j "cpus" (json_object_new_int (p_parallel_threads pbkdf)).

(** Result code, the keyslot and the context's parameters. *)
Definition luks2_keyslot_update_json (env : kdf_env) (jobj_keyslot : json) (params : luks2_keyslot_params)
    : option (Z * json * crypt_pbkdf_type) :=
  match json_object_object_get_ex jobj_keyslot "af", json_object_object_get_ex jobj_keyslot "area" with
  | Some jobj_af, Some jobj_area =>
      let jobj_area := json_object_object_add jobj_area "encryption"
                         (json_object_new_string (area_raw_encryption params)) in
      let jobj_area := json_object_object_add jobj_area "key_size"
                         (json_object_new_int (area_raw_key_size params)) in
      let ks := json_object_object_add jobj_keyslot "area" jobj_area in
      match crypt_get_pbkdf_type (ke_pbkdf env) with
      | None => Some (- EINVAL, ks, ke_pbkdf env)
      | Some pbkdf =>
          match crypt_benchmark_pbkdf_internal (ke_samples env) pbkdf (area_raw_key_size params) with
          | Returns (r, pbkdf) =>
              if r <? 0 then Some (r, ks, pbkdf)
              else
                let jobj_kdf := kdf_object pbkdf in
                let '(r, salt) := ke_salt env in
                if r <? 0 then Some (r, json_object_object_add ks "kdf" jobj_kdf, pbkdf)
                else match base64_encode_alloc salt with
                | None => Some (- ENOMEM, json_object_object_add ks "kdf" jobj_kdf, pbkdf)
                | Some salt_base64 =>
                    let jobj_kdf := json_object_object_add jobj_kdf "salt"
                                      (json_object_new_string (string_of_bytes salt_base64)) in
                    let ks := json_object_object_add ks "kdf" jobj_kdf in
                    Some (0, json_object_object_add ks "af"
                               (json_object_object_add jobj_af "hash"
                                  (json_object_new_string (af_luks1_hash params))), pbkdf)
                end
          | _ => None
          end
      end
  | _, _ => Some (- EINVAL, jobj_keyslot, ke_pbkdf env)
  end.

(** The keyslot before [luks2_keyslot_update_json]. *)
Definition luks2_keyslot_new (volume_key_len area_offset area_length : Z) (params : luks2_keyslot_params) : json :=
  let ks := json_object_object_add json_object_new_object "type" (json_object_new_string "luks2") in
  let ks := json_object_object_add ks "key_size" (json_object_new_int volume_key_len) in
  let af := json_object_object_add json_object_new_object "type" (json_object_new_string "luks1") in
  let af := json_object_object_add af "stripes" (json_object_new_int (af_luks1_stripes params)) in
  let ks := json_object_object_add ks "af" af in
  let area := json_object_object_add json_object_new_object "type" (json_object_new_string "raw") in
  let area := json_object_object_add area "offset" (crypt_jobj_new_uint64 area_offset) in
  let area := json_object_object_add area "size" (crypt_jobj_new_uint64 area_length) in
  json_object_object_add ks "area" area.

Definition luks2_keyslot_alloc (env : kdf_env) (hdr : luks2_hdr) (keyslot volume_key_len : Z)
    (params : option luks2_keyslot_params) : option (Z * luks2_hdr * crypt_pbkdf_type) :=
  match params with
  | None => Some (- EINVAL, hdr, ke_pbkdf env)
  | Some params =>
      if negb (area_type params =? LUKS2_KEYSLOT_AREA_RAW) || negb (af_type params =? LUKS2_KEYSLOT_AF_LUKS1)
      then Some (- EINVAL, hdr, ke_pbkdf env)
      else
        let keyslot := if keyslot =? CRYPT_ANY_SLOT then LUKS2_keyslot_find_empty hdr 0 else keyslot in
        if (keyslot <? 0) || (LUKS2_KEYSLOTS_MAX <=? keyslot) then Some (- ENOMEM, hdr, ke_pbkdf env)
        else if bool_decide (is_Some (LUKS2_get_keyslot_jobj hdr keyslot)) then Some (- EINVAL, hdr, ke_pbkdf env)
        else if negb (bool_decide (is_Some (json_object_object_get_ex (jobj hdr) "keyslots")))
        then Some (- EINVAL, hdr, ke_pbkdf env)
        else
          let '(r, area_offset, area_length) := LUKS2_find_area_gap hdr volume_key_len in
          if r <? 0 then Some (r, hdr, ke_pbkdf env)
          else
            '(r, ks, pbkdf) ←
              luks2_keyslot_update_json env (luks2_keyslot_new volume_key_len area_offset area_length params) params;
            let hdr1 := set_member hdr "keyslots" keyslot ks in
            let r := if (r =? 0) && negb (LUKS2_check_json_size hdr1 =? 0) then - ENOSPC else r in
            let hdr2 := if negb (r =? 0)
                        then update_section hdr1 "keyslots" (fun s => json_object_object_del_by_uint s keyslot)
                        else hdr1 in
            Some (r, hdr2, pbkdf)
  end.

Definition luks2_keyslot_update (env : kdf_env) (hdr : luks2_hdr) (keyslot : Z) (params : luks2_keyslot_params)
    : option (Z * luks2_hdr * crypt_pbkdf_type) :=
  match LUKS2_get_keyslot_jobj hdr keyslot with
  | None => Some (- EINVAL, hdr, ke_pbkdf env)
  | Some jobj_keyslot =>
      '(r, ks, pbkdf) ← luks2_keyslot_update_json env jobj_keyslot params;
      let hdr1 := set_member hdr "keyslots" keyslot ks in
      Some (if (r =? 0) && negb (LUKS2_check_json_size hdr1 =? 0) then - ENOSPC else r, hdr1, pbkdf)
  end.

(** [LUKS2_keyslot_store] up to the call of the handler's [store]: allocate or
    update, then validate the keyslot and the header. *)
Definition LUKS2_keyslot_store_jobj (env : kdf_env) (hdr : luks2_hdr) (keyslot volume_key_len : Z)
    (params : luks2_keyslot_params) : option (Z * luks2_hdr * crypt_pbkdf_type) :=
  let finish (h : keyslot_handler) (st : Z * luks2_hdr * crypt_pbkdf_type) :=
    let '(r, hdr, pbkdf) := st in
    if negb (r =? 0) then st
    else
      let r := match kh_validate h, LUKS2_get_keyslot_jobj hdr keyslot with
               | Some v, Some ks => v ks
               | Some _, None => - EINVAL
               | None, _ => 0
               end in
      if negb (r =? 0) then (r, hdr, pbkdf)
      else if negb (LUKS2_hdr_validate (jobj hdr) (hdr_size hdr -64 LUKS2_HDR_BIN_LEN) =? 0)
      then (- EINVAL, hdr, pbkdf) else (0, hdr, pbkdf) in
  if keyslot =? CRYPT_ANY_SLOT then Some (- EINVAL, hdr, ke_pbkdf env)
  else match LUKS2_get_keyslot_jobj hdr keyslot with
  | None => finish luks2_keyslot <$> luks2_keyslot_alloc env hdr keyslot volume_key_len (Some params)
  | Some _ =>
      match LUKS2_keyslot_handler hdr keyslot with
      | None => Some (- EINVAL, hdr, ke_pbkdf env)
      | Some h => finish h <$> luks2_keyslot_update env hdr keyslot params
      end
  end.

(** ** Reencryption keyslots *)

Inductive crypt_reencrypt_mode_info := CRYPT_REENCRYPT_REENCRYPT | CRYPT_REENCRYPT_ENCRYPT | CRYPT_REENCRYPT_DECRYPT.
Inductive crypt_reencrypt_direction_info := CRYPT_REENCRYPT_FORWARD | CRYPT_REENCRYPT_BACKWARD.

Definition crypt_reencrypt_mode_to_str (mi : crypt_reencrypt_mode_info) : string :=
  match mi with
  | CRYPT_REENCRYPT_REENCRYPT => "reencrypt"
  | CRYPT_REENCRYPT_ENCRYPT => "encrypt"
  | CRYPT_REENCRYPT_DECRYPT => "decrypt"
  end.

Definition reenc_keyslot_alloc (hdr : luks2_hdr) (keyslot data_shift : Z) (mode : crypt_reencrypt_mode_info)
    (direction : crypt_reencrypt_direction_info) : Z * luks2_hdr :=
  if (keyslot <? 0) || (LUKS2_KEYSLOTS_MAX <=? keyslot) then (- ENOMEM, hdr)
  else if negb (bool_decide (is_Some (json_object_object_get_ex (jobj hdr) "keyslots"))) then (- EINVAL, hdr)
  else
    let '(r, area_offset, area_length) :=
      if data_shift =? 0 then LUKS2_find_area_max_gap hdr else LUKS2_find_area_gap hdr 1 in
    if r <? 0 then (r, hdr)
    else
      let area :=
        if negb (data_shift =? 0) then
          json_object_object_add
            (json_object_object_add json_object_new_object "type" (json_object_new_string "datashift"))
            "shift_size" (crypt_jobj_new_uint64 (u64 (Z.shiftl data_shift SECTOR_SHIFT)))
        else json_object_object_add json_object_new_object "type" (json_object_new_string "none") in
      let area := json_object_object_add area "offset" (crypt_jobj_new_uint64 area_offset) in
      let area := json_object_object_add area "size" (crypt_jobj_new_uint64 area_length) in
      let ks := json_object_object_add json_object_new_object "type" (json_object_new_string "reencrypt") in
      let ks := json_object_object_add ks "key_size" (json_object_new_int 1) in
      let ks := json_object_object_add ks "mode" (json_object_new_string (crypt_reencrypt_mode_to_str mode)) in
      let ks := json_object_object_add ks "direction"
                  (json_object_new_string (match direction with CRYPT_REENCRYPT_FORWARD => "forward"
                                           | CRYPT_REENCRYPT_BACKWARD => "backward" end)) in
      let ks := json_object_object_add ks "area" area in
      let hdr1 := set_member hdr "keyslots" keyslot ks in
      if negb (LUKS2_check_json_size hdr1 =? 0)
      then (- ENOSPC, update_section hdr1 "keyslots" (fun s => json_object_object_del_by_uint s keyslot))
      else (0, hdr1).

(** The temporary keyslot of the conversion to LUKS1. *)
Definition placeholder_keyslot_alloc (hdr : luks2_hdr) (keyslot area_offset area_length : Z) : Z * luks2_hdr :=
  if (keyslot <? 0) || (LUKS2_KEYSLOTS_MAX <=? keyslot) then (- EINVAL, hdr)
  else if bool_decide (is_Some (LUKS2_get_keyslot_jobj hdr keyslot)) then (- EINVAL, hdr)
  else if negb (bool_decide (is_Some (json_object_object_get_ex (jobj hdr) "keyslots"))) then (- EINVAL, hdr)
  else
    let ks := json_object_object_add json_object_new_object "type" (json_object_new_string "placeholder") in
    let ks := json_object_object_add ks "key_size" (json_object_new_int (-1)) in
    let area := json_object_object_add json_object_new_object "offset" (crypt_jobj_new_uint64 area_offset) in
    let area := json_object_object_add area "size" (crypt_jobj_new_uint64 area_length) in
    (0, set_member hdr "keyslots" keyslot (json_object_object_add ks "area" area)).

(** ** Digests *)

(** Key derivation and sizes of the crypto back end, for the digest. *)
Record digest_env := DigestEnv {
  de_kdf : kdf_env;
  de_hmac_size : string -> Z;
  de_min_iterations : Z;
  (** hash, key, salt, iterations and size of the result *)
  de_pbkdf2 : string -> bytes -> bytes -> Z -> Z -> Z * bytes;
}.

(** The digest's members, the keyslots and segments empty. *)
Definition digest_object (jobj_digest : json) (hash : string) (iterations : Z) (salt digest : bytes) : json :=
  let j := json_object_object_add jobj_digest "type" (json_object_new_string "pbkdf2") in
  let j := json_object_object_add j "keyslots" json_object_new_array in
  let j := json_object_object_add j "segments" json_object_new_array in
  let j := json_object_object_add j "hash" (json_object_new_string hash) in
  let j := json_object_object_add j "iterations" (json_object_new_int iterations) in
  let j := json_object_object_add j "salt" (json_object_new_string (string_of_bytes salt)) in
  json_object_object_add j "digest" (json_object_new_string (string_of_bytes digest)).

(** The end of [PBKDF2_digest_store], once the iterations are known. *)
Definition PBKDF2_digest_finish (env : digest_env) (hdr : luks2_hdr) (digest : Z) (volume_key salt : bytes)
    (hash : string) (r iterations : Z) : Z * luks2_hdr :=
  if r <? 0 then (r, hdr)
  else
    let hmac_size := de_hmac_size env hash in
    if (hmac_size <? 0) || (128 <? hmac_size) then (- EINVAL, hdr)
    else
      let '(r, digest_raw) := de_pbkdf2 env hash volume_key salt iterations hmac_size in
      if r <? 0 then (r, hdr)
      else match base64_encode_alloc salt, base64_encode_alloc digest_raw with
      | Some salt64, Some digest64 =>
          let jobj_digest := default json_object_new_object (LUKS2_get_digest_jobj hdr digest) in
          (0, set_member hdr "digests" digest (digest_object jobj_digest hash iterations salt64 digest64))
      | _, _ => (- ENOMEM, hdr)
      end.

Definition PBKDF2_digest_store (env : digest_env) (hdr : luks2_hdr) (digest : Z) (volume_key : bytes)
    : option (Z * luks2_hdr) :=
  let cd_pbkdf := ke_pbkdf (de_kdf env) in
  let hash :=
    default DEFAULT_LUKS1_HASH (match crypt_get_pbkdf_type cd_pbkdf with Some p => p_hash p | None => None end) in
  let '(r, salt) := ke_salt (de_kdf env) in
  if r <? 0 then Some (r, hdr)
  else if has_flag (p_flags cd_pbkdf) CRYPT_PBKDF_NO_BENCHMARK
  then Some (PBKDF2_digest_finish env hdr digest volume_key salt hash 0 1000)
  else
    match crypt_benchmark_pbkdf_internal (ke_samples (de_kdf env))
            (PbkdfType (Some CRYPT_KDF_PBKDF2) (Some hash) LUKS_MKD_ITERATIONS_MS 0 0 0 0) (zlen volume_key) with
    | Returns (r, pbkdf) =>
        Some (PBKDF2_digest_finish env hdr digest volume_key salt hash r (p_iterations pbkdf))
    | _ => None
    end.

(** The only handler is pbkdf2. *)
Definition LUKS2_digest_create (env : digest_env) (hdr : luks2_hdr) (type : string) (vk : bytes)
    : option (Z * luks2_hdr) :=
  if negb (bool_decide (type = CRYPT_KDF_PBKDF2)) then Some (- EINVAL, hdr)
  else
    let digest := LUKS2_digest_find_free hdr in
    if digest <? 0 then Some (- EINVAL, hdr)
    else
      '(r, hdr) ← PBKDF2_digest_store env hdr digest vk;
      Some (if r =? 0 then digest else r, hdr).

(** ** Headers *)

Record format_env := FormatEnv {
  fe_digest : digest_env;
  (** [device_size] of the metadata device, [None] when it fails *)
  fe_mdev_size : option Z;
  (** [device_fallocate] returns an error *)
  fe_fallocate_fails : bool;
  fe_salt1 : bytes;
  fe_salt2 : bytes;
  (** the text of the UUID parsed or generated, [None] when it does not parse *)
  fe_uuid : option bytes;
}.

(** The keyslots area: its size after all adjustments. [min_offset]: the end
    of the two header copies. *)
Definition generate_keyslots_size (env : format_env) (min_offset data_offset keyslots_size : Z) : Z :=
  let k := if (keyslots_size =? 0) && negb (data_offset =? 0)
           then data_offset -64 min_offset else keyslots_size in
  let k := k - k mod 4096 in
  let k := if LUKS2_MAX_KEYSLOTS_SIZE <? k then LUKS2_MAX_KEYSLOTS_SIZE else k in
  let k :=
    if k =? 0 then
      let k := LUKS2_DEFAULT_HDR_SIZE -64 min_offset in
      match fe_mdev_size env with
      | Some mdev_size =>
          if (mdev_size <? k +64 min_offset) && fe_fallocate_fails env && (min_offset <=? mdev_size)
          then mdev_size -64 min_offset else k
      | None => k
      end
    else k in
  if negb (data_offset =? 0) && (data_offset <? k +64 min_offset) then data_offset -64 min_offset else k.

Definition generate_data_offset (min_offset keyslots_size data_offset align_offset required_alignment : Z) : Z :=
  if (data_offset =? 0) && negb (required_alignment =? 0)
  then size_round_up (min_offset +64 keyslots_size) required_alignment +64 align_offset
  else data_offset.

Definition integrity_object (integrity : string) : json :=
  let j := json_object_object_add json_object_new_object "type" (json_object_new_string integrity) in
  let j := json_object_object_add j "journal_encryption" (json_object_new_string "none") in
  json_object_object_add j "journal_integrity" (json_object_new_string "none").

(** [snprintf(cipher, sizeof(cipher), ...)] into 128 bytes. *)
Definition generate_cipher (cipherName cipherMode : string) : string :=
  String.substring 0 127
    (if bool_decide (cipherMode = EmptyString) then cipherName else cipherName +:+ "-" +:+ cipherMode).

Definition empty_sections : json :=
  let j := json_object_object_add json_object_new_object "keyslots" json_object_new_object in
  let j := json_object_object_add j "tokens" json_object_new_object in
  let j := json_object_object_add j "segments" json_object_new_object in
  let j := json_object_object_add j "digests" json_object_new_object in
  json_object_object_add j "config" json_object_new_object.

(** Fields of the header that survive are the subsystem and the UUID until the
    latter is set; an error after the objects were created drops them. *)
Definition LUKS2_generate_hdr (env : format_env) (hdr : luks2_hdr) (vk : bytes) (cipherName cipherMode : string)
    (integrity : option string) (sector_size data_offset align_offset required_alignment
    metadata_size keyslots_size : Z) : option (Z * luks2_hdr) :=
  let metadata_size := if metadata_size =? 0 then LUKS2_HDR_16K_LEN else metadata_size in
  let min_offset := 2 *64 metadata_size in
  let hdr_ size seq ver lab alg s1 s2 uu j :=
    Luks2Hdr _ size seq ver lab (subsystem hdr) alg s1 s2 uu j in
  if negb (data_offset =? 0) && (data_offset <? min_offset)
  then Some (- EINVAL, hdr_ metadata_size (seqid hdr) (version hdr) (label hdr) (checksum_alg hdr)
               (salt1 hdr) (salt2 hdr) (uuid hdr) (jobj hdr))
  else
    let keyslots_size := generate_keyslots_size env min_offset data_offset keyslots_size in
    let data_offset := generate_data_offset min_offset keyslots_size data_offset align_offset required_alignment in
    let alg := bytes_of_string "sha256" ++ [x00] ++ drop 7 (checksum_alg hdr) in
    match fe_uuid env with
    | None => Some (- EINVAL, hdr_ metadata_size 1 2 (zeros 48) alg (fe_salt1 env) (fe_salt2 env) (uuid hdr) (jobj hdr))
    | Some uu =>
        let uu := uu ++ drop (length uu) (uuid hdr) in
        let hdr1 := hdr_ metadata_size 1 2 (zeros 48) alg (fe_salt1 env) (fe_salt2 env) uu empty_sections in
        let err := (- EINVAL, set_jobj hdr1 json_null) in
        '(digest, hdr2) ← LUKS2_digest_create (fe_digest env) hdr1 "pbkdf2" vk;
        if digest <? 0 then Some err
        else
          let '(r, hdr3) := LUKS2_digest_segment_assign_jobj hdr2 0 digest true in
          if r <? 0 then Some err
          else
            let seg := json_segment_create_crypt data_offset 0 None (generate_cipher cipherName cipherMode)
                         sector_size false in
            let seg := match integrity with
                       | Some s => json_object_object_add seg "integrity" (integrity_object s)
                       | None => seg
                       end in
            let hdr4 := set_member hdr3 "segments" 0 seg in
            let hdr5 :=
              update_section hdr4 "config" (fun c =>
                let c := json_object_object_add c "json_size"
                           (crypt_jobj_new_uint64 (metadata_size -64 LUKS2_HDR_BIN_LEN)) in
                json_object_object_add c "keyslots_size" (crypt_jobj_new_uint64 keyslots_size)) in
            Some (0, hdr5)
    end.
End format.
