(* ===== verification/Luks2FormatProps.v ===== *)
(** * Luks2FormatProps: new keyslots and headers are valid *)

From S2P Require Import Prelude CryptBackend Base64 Cstd Pbkdf JsonC Luks2Json Luks2Keyslot Luks2Edit Luks2Areas Luks2Validate Luks2EditFacts Luks2EditProps Luks2Format.
From Stdlib Require Import Sorted Strings.Byte.

(** Lookups in objects made by adding members. *)
Ltac obj := solve [repeat first [apply object_add_type | apply new_object_type | assumption]].
Ltac get_add :=
  repeat first [ rewrite get_ex_add_same by obj
               | rewrite get_ex_add_other by first [discriminate | obj]
               | rewrite new_object_get ].

Section facts.
Context `{JL : JsonCLaws}.

Lemma new_uint64_get z : in_u 64 z -> json_str_to_uint64 (crypt_jobj_new_uint64 z) = (true, z).
Proof.
  intros Hz. unfold json_str_to_uint64, crypt_jobj_new_uint64. rewrite new_string_get, strtoull_dec by done. done.
Qed.

Lemma new_uint64_type z : json_object_get_type (crypt_jobj_new_uint64 z) = json_type_string.
Proof. apply new_string_type. Qed.

Lemma new_uint64_numbered z : 0 <= z -> numbered (json_object_get_string (crypt_jobj_new_uint64 z)) = true.
Proof. intros Hz. unfold crypt_jobj_new_uint64. rewrite new_string_get. by apply all_digits_dec. Qed.

Lemma new_int_uint32 z : 0 <= z < 2 ^ 31 -> validate_json_uint32 (json_object_new_int z) = true.
Proof.
  intros Hz. unfold validate_json_uint32. rewrite new_int_get64, i32_id by lia.
  unfold UINT32_MAX. cbn [Z.eqb negb orb]. lia.
Qed.

Lemma new_int_uint32_get z : 0 <= z < 2 ^ 31 -> crypt_jobj_get_uint32 (json_object_new_int z) = z.
Proof. intros Hz. unfold crypt_jobj_get_uint32. rewrite new_int_get64. cbn [fst]. rewrite i32_id, u32_id by lia. done. Qed.

(** An entry of an object that was empty. *)
Lemma entries_add_first k v :
  json_object_entries (json_object_object_add json_object_new_object k v) = [(k, v)].
Proof.
  rewrite object_add_entries_new; [by rewrite new_object_entries|apply new_object_type|apply new_object_get].
Qed.

(** ** The segment of a new header *)

Definition crypt_segment (offset : Z) (cipher : string) (sector_size : Z) (integrity : option string) : json :=
  let seg := json_segment_create_crypt offset 0 None cipher sector_size false in
  match integrity with
  | Some s => json_object_object_add seg "integrity" (integrity_object s)
  | None => seg
  end.

Lemma create_crypt_type offset cipher sector_size :
  json_object_get_type (json_segment_create_crypt offset 0 None cipher sector_size false) = json_type_object.
Proof. unfold json_segment_create_crypt, _segment_create_generic. obj. Qed.

Lemma crypt_segment_get offset cipher sector_size integrity k :
  k <> "integrity"%string ->
  json_object_object_get_ex (crypt_segment offset cipher sector_size integrity) k =
  json_object_object_get_ex (json_segment_create_crypt offset 0 None cipher sector_size false) k.
Proof.
  intros Hk. unfold crypt_segment. destruct integrity; [|done].
  apply get_ex_add_other; [apply create_crypt_type|done].
Qed.

Lemma crypt_segment_members offset cipher sector_size integrity :
  let seg := crypt_segment offset cipher sector_size integrity in
  json_object_object_get_ex seg "type" = Some (json_object_new_string "crypt") /\
  json_object_object_get_ex seg "offset" = Some (crypt_jobj_new_uint64 offset) /\
  json_object_object_get_ex seg "size" = Some (json_object_new_string "dynamic") /\
  json_object_object_get_ex seg "iv_tweak" = Some (crypt_jobj_new_uint64 0) /\
  json_object_object_get_ex seg "encryption" = Some (json_object_new_string cipher) /\
  json_object_object_get_ex seg "sector_size" = Some (json_object_new_int sector_size) /\
  json_object_object_get_ex seg "flags" = None.
Proof.
  cbv zeta. rewrite !crypt_segment_get by discriminate.
  unfold json_segment_create_crypt, _segment_create_generic. get_add. done.
Qed.

Lemma crypt_segment_integrity offset cipher sector_size integrity :
  integrity_ok (crypt_segment offset cipher sector_size integrity) = true.
Proof.
  unfold integrity_ok, crypt_segment. destruct integrity as [s|].
  - rewrite get_ex_add_same by apply create_crypt_type.
    assert (Ht : json_object_get_type (integrity_object s) = json_type_object) by (unfold integrity_object; obj).
    assert (Hs : forall k, k ∈ ["type"; "journal_encryption"; "journal_integrity"]%string ->
      has (integrity_object s) k json_type_string = true).
    { intros k Hk. apply has_get. unfold integrity_object.
      repeat (apply elem_of_cons in Hk as [->|Hk]; [get_add; eexists; split; [done|apply new_string_type]|]).
      by apply elem_of_nil in Hk. }
    rewrite !Hs by (repeat first [left | right]). rewrite andb_true_r, !andb_true_r. apply has_get.
    eexists. split; [apply get_ex_add_same, create_crypt_type|done].
  - unfold json_segment_create_crypt, _segment_create_generic. get_add. done.
Qed.

Definition sector_size_ok (sector_size : Z) : Prop :=
  0 < sector_size < 2 ^ 31 /\ sector_size mod 512 = 0.

Lemma crypt_segment_validates offset cipher sector_size integrity key D :
  sector_size_ok sector_size -> segment_has_digest key D = true ->
  hdr_validate_crypt_segment (crypt_segment offset cipher sector_size integrity) key D 0 = 0.
Proof.
  intros [Hs Hm] Hd.
  destruct (crypt_segment_members offset cipher sector_size integrity) as (_ & _ & _ & H4 & H5 & H6 & _).
  unfold hdr_validate_crypt_segment.
  rewrite (contains_get _ _ _ _ H4), (contains_get _ _ _ _ H5), (contains_get _ _ _ _ H6)
    by first [apply new_int_type | apply new_string_type].
  rewrite crypt_segment_integrity, new_int_uint32, new_int_uint32_get by lia. cbn [negb].
  destruct (Z.eqb_spec sector_size 0); [lia|]. autorewrite with cs_bits. rewrite Hm. cbn [Z.eqb negb orb].
  rewrite new_uint64_numbered, new_uint64_get by (unfold in_u; lia). cbn [negb orb fst].
  rewrite Z.mod_0_l by lia. cbn [Z.eqb negb]. by rewrite Hd.
Qed.

Lemma crypt_segment_step offset cipher sector_size integrity D :
  sector_size_ok sector_size -> in_u 64 offset -> offset mod 512 = 0 -> segment_has_digest "0" D = true ->
  segment_step D (-1) "0" (crypt_segment offset cipher sector_size integrity) = Some (-1) /\
  json_segment_is_backup (crypt_segment offset cipher sector_size integrity) = false.
Proof.
  intros Hs Ho Hm Hd.
  destruct (crypt_segment_members offset cipher sector_size integrity) as (H1 & H2 & H3 & _ & _ & _ & H7).
  assert (Hb : json_segment_is_backup (crypt_segment offset cipher sector_size integrity) = false).
  { unfold json_segment_is_backup, json_segment_contains_flag, json_segment_get_flags, json_get_ptr. by rewrite H7. }
  split; [|done]. unfold segment_step. change (negb (numbered "0")) with false. cbv iota.
  rewrite (contains_get _ _ _ _ H1), (contains_get _ _ _ _ H2), (contains_get _ _ _ _ H3)
    by apply new_string_type.
  rewrite new_uint64_numbered by (unfold in_u in *; lia). rewrite new_uint64_get by done. cbn [negb].
  unfold segment_size_field. rewrite !new_string_get, bool_decide_true by done.
  autorewrite with cs_bits. rewrite Hm. cbn [Z.eqb negb].
  change (negb (0 mod 512 =? 0)) with false. cbv iota.
  unfold segment_flags_ok. rewrite H7. cbn [negb]. rewrite Hb. cbn [negb andb Z.leb Z.compare].
  rewrite bool_decide_true by done. by rewrite crypt_segment_validates.
Qed.

(** A section of one segment of unlimited size. *)
Lemma one_segment_validates J S D offset cipher sector_size integrity :
  sector_size_ok sector_size -> in_u 64 offset -> offset mod 512 = 0 ->
  json_object_object_get_ex J "segments" = Some S -> json_object_object_get_ex J "digests" = Some D ->
  json_object_entries S = [("0"%string, crypt_segment offset cipher sector_size integrity)] ->
  segment_has_digest "0" D = true -> hdr_validate_segments J = 0.
Proof.
  intros Hs Ho Hm HS HD HE Hd. set (seg := crypt_segment offset cipher sector_size integrity) in *.
  unfold hdr_validate_segments. rewrite HS, HD. unfold json_object_object_length. rewrite HE.
  change (zlen [("0"%string, seg)]) with 1. change (1 <? 1) with false. cbv iota. cbn [segments_loop].
  destruct (crypt_segment_step offset cipher sector_size integrity D Hs Ho Hm Hd) as [E _].
  fold seg in E. rewrite E. change (-1 =? 0) with false. change (1 <=? -1) with false.
  change (-1 <? 0) with true. cbv beta iota zeta. change (seqZ 0 1) with [0]. change (seqZ 1 (1 - 1)) with (@nil Z).
  assert (Hg : json_segments_get_segment S 0 = Some seg).
  { unfold json_segments_get_segment. change (dec_u32 0) with "0"%string. apply get_ptr_object.
    - apply entries_get. rewrite HE. left.
    - destruct (crypt_segment_members offset cipher sector_size integrity) as (H1 & _). fold seg in H1.
      by rewrite (get_ex_type _ _ _ H1). }
  cbn [mapM]. unfold segment_interval. rewrite Hg. cbn [mbind option_bind mret option_ret].
  assert (Hv : forall x, validate_segment_intervals [x] = true).
  { intros x. unfold validate_segment_intervals, overlaps_any_segment. cbn. by rewrite andb_false_r. }
  by rewrite Hv.
Qed.

Lemma one_segment_minimal_offset S offset cipher sector_size integrity :
  sector_size_ok sector_size -> in_u 64 offset ->
  json_object_entries S = [("0"%string, crypt_segment offset cipher sector_size integrity)] ->
  json_segments_get_minimal_offset (Some S) false = offset.
Proof.
  intros Hs Ho HE. unfold json_segments_get_minimal_offset. rewrite HE. cbn [minimal_offset_loop].
  destruct (crypt_segment_members offset cipher sector_size integrity) as (_ & H2 & _ & _ & _ & _ & H7).
  assert (Hb : json_segment_is_backup (crypt_segment offset cipher sector_size integrity) = false).
  { unfold json_segment_is_backup, json_segment_contains_flag, json_segment_get_flags, json_get_ptr. by rewrite H7. }
  rewrite Hb. unfold json_segment_get_offset. cbn [mbind option_bind]. rewrite H2. cbn [blockwise_shift].
  unfold crypt_jobj_get_uint64. rewrite new_uint64_get by done. cbn [snd].
  destruct (Z.eqb_spec offset 0); [done|]. unfold in_u, UINT64_MAX in *.
  destruct (Z.ltb_spec offset (2 ^ 64 - 1)); lia.
Qed.

(** ** The sizes of a new header *)

Lemma metadata_size_range m :
  LUKS2_check_metadata_area_size m = false -> 16384 <= m <= 4194304 /\ m mod 4096 = 0.
Proof.
  unfold LUKS2_check_metadata_area_size. rewrite negb_false_iff, bool_decide_eq_true. intros Hm.
  repeat (apply elem_of_cons in Hm as [->|Hm]; [by split|]). by apply elem_of_nil in Hm.
Qed.

Definition mult4K (z : Z) : Prop := z mod 4096 = 0.

Lemma mult4K_sub a b : mult4K a -> mult4K b -> mult4K (a - b).
Proof. unfold mult4K. intros Ha Hb. by rewrite Zminus_mod, Ha, Hb. Qed.

Lemma mult4K_round a : mult4K (a - a mod 4096).
Proof. unfold mult4K. rewrite Zminus_mod, Z.mod_mod, Z.sub_diag by lia. done. Qed.

(** What the device reports, when it decides the size of the keyslots area. *)
Definition mdev_ok (env : format_env) : Prop :=
  forall z, fe_mdev_size env = Some z -> 0 <= z /\ mult4K z.

Lemma generate_keyslots_size_ok env m data_offset keyslots_size :
  LUKS2_check_metadata_area_size m = false -> mdev_ok env -> in_u 64 keyslots_size ->
  in_u 64 data_offset -> mult4K data_offset -> data_offset = 0 \/ 2 * m <= data_offset ->
  let k := generate_keyslots_size env (2 *64 m) data_offset keyslots_size in
  0 <= k <= LUKS2_MAX_KEYSLOTS_SIZE /\ mult4K k /\ (data_offset <> 0 -> k + 2 * m <= data_offset).
Proof.
  intros [Hm Hm4]%metadata_size_range Hdev Hks Hd Hd4 Hmin. unfold in_u in *. rewrite u64_id by lia.
  assert (Hm2 : mult4K (2 * m)) by (unfold mult4K; by rewrite Z.mul_mod, Hm4 by lia).
  unfold generate_keyslots_size.
  set (k0 := if (keyslots_size =? 0) && negb (data_offset =? 0) then _ else keyslots_size).
  set (k1 := k0 - k0 mod 4096). set (k2 := if LUKS2_MAX_KEYSLOTS_SIZE <? k1 then _ else k1).
  set (k3 := if k2 =? 0 then _ else k2). cbv zeta.
  assert (H0 : 0 <= k0).
  { unfold k0. destruct (_ && _); [|lia]. pose proof (wrap_range 64 (data_offset - 2 * m)). unfold in_u in *. lia. }
  assert (H1 : 0 <= k1 /\ mult4K k1).
  { split; [|apply mult4K_round]. unfold k1. pose proof (Z.mod_le k0 4096). lia. }
  assert (H2 : 0 <= k2 <= LUKS2_MAX_KEYSLOTS_SIZE /\ mult4K k2).
  { unfold k2. destruct (Z.ltb_spec LUKS2_MAX_KEYSLOTS_SIZE k1); [split; [unfold LUKS2_MAX_KEYSLOTS_SIZE; lia|done]|].
    split; [lia|apply H1]. }
  assert (H3 : 0 <= k3 <= LUKS2_MAX_KEYSLOTS_SIZE /\ mult4K k3).
  { unfold k3. destruct (Z.eqb_spec k2 0); [|done]. cbv zeta.
    assert (E : LUKS2_DEFAULT_HDR_SIZE -64 2 * m = 16777216 - 2 * m).
    { unfold LUKS2_DEFAULT_HDR_SIZE. rewrite u64_id; lia. }
    rewrite E. assert (Hdef : 0 <= 16777216 - 2 * m <= LUKS2_MAX_KEYSLOTS_SIZE /\ mult4K (16777216 - 2 * m)).
    { split; [unfold LUKS2_MAX_KEYSLOTS_SIZE; lia|by apply mult4K_sub]. }
    destruct (fe_mdev_size env) as [z|] eqn:Ez; [|done]. destruct (Hdev z Ez) as [Hz Hz4].
    destruct (Z.ltb_spec z (16777216 - 2 * m +64 2 * m)) as [Hlt|]; [|done].
    rewrite u64_id in Hlt by lia. destruct (fe_fallocate_fails env); [|done].
    destruct (Z.leb_spec (2 * m) z); [|done]. cbn [andb]. rewrite u64_id by lia.
    split; [unfold LUKS2_MAX_KEYSLOTS_SIZE; lia|by apply mult4K_sub]. }
  destruct H3 as [H3 H3']. unfold LUKS2_MAX_KEYSLOTS_SIZE in *. rewrite (u64_id (k3 + 2 * m)) by lia.
  destruct (Z.eqb_spec data_offset 0); cbn [negb andb]; [split; [lia|by split]|].
  destruct (Z.ltb_spec data_offset (k3 + 2 * m)); [|split; [lia|split; [done|lia]]].
  rewrite u64_id by lia. split; [lia|]. split; [by apply mult4K_sub|lia].
Qed.

(** The alignment of the data that the caller asks for. *)
Definition alignment_ok (align_offset required_alignment : Z) : Prop :=
  0 <= align_offset /\ 0 <= required_alignment /\ align_offset + 2 * required_alignment < 2 ^ 63 /\
  align_offset mod 512 = 0 /\ required_alignment mod 512 = 0.

Lemma generate_data_offset_ok m k data_offset align_offset required_alignment :
  16384 <= m <= 4194304 -> 0 <= k <= LUKS2_MAX_KEYSLOTS_SIZE ->
  in_u 64 data_offset -> mult4K data_offset -> (data_offset <> 0 -> k + 2 * m <= data_offset) ->
  alignment_ok align_offset required_alignment ->
  let d := generate_data_offset (2 *64 m) k data_offset align_offset required_alignment in
  in_u 64 d /\ d mod 512 = 0 /\ (d = 0 \/ k + 2 * m <= d).
Proof.
  intros Hm Hk Hd Hd4 Hmin (Ha & Hr & Hsum & Ha5 & Hr5). unfold in_u, LUKS2_MAX_KEYSLOTS_SIZE in *.
  rewrite u64_id by lia. unfold generate_data_offset.
  destruct (Z.eqb_spec data_offset 0) as [->|Hne]; cbn [andb].
  - destruct (Z.eqb_spec required_alignment 0) as [->|Hr0]; cbn [negb]; [split; [lia|split; [done|by left]]|].
    rewrite (u64_id (2 * m + k)) by lia.
    destruct (size_round_up_spec (2 * m + k) required_alignment) as [Hs Hs5]; [lia..|].
    rewrite u64_id by lia. split; [lia|]. split; [|lia].
    apply Z.mod_divide in Hs5; [|lia]. destruct Hs5 as [q Hq]. apply Z.mod_divide in Hr5; [|lia].
    destruct Hr5 as [p Hp]. rewrite Z.add_mod, Ha5, Z.add_0_r, Z.mod_mod by lia.
    apply Z.mod_divide; [lia|]. exists (q * p). rewrite Hq, Hp. ring.
  - split; [lia|]. split; [|lia]. unfold mult4K in Hd4. apply Z.mod_divide in Hd4; [|lia].
    destruct Hd4 as [q ->]. apply Z.mod_divide; [lia|]. exists (q * 8). ring.
Qed.

(** ** The digest of a new header *)

Lemma empty_sections_ok :
  let o := json_object_new_object in sections empty_sections o o o o o.
Proof. unfold empty_sections. split; get_add; first [done | obj]. Qed.

Lemma digest_object_members hash iterations salt digest :
  let dg := digest_object json_object_new_object hash iterations salt digest in
  json_object_get_type dg = json_type_object /\
  json_object_object_get_ex dg "type" = Some (json_object_new_string "pbkdf2") /\
  json_object_object_get_ex dg "keyslots" = Some json_object_new_array /\
  json_object_object_get_ex dg "segments" = Some json_object_new_array.
Proof. unfold digest_object. split; [obj|]. get_add. done. Qed.

Definition empty_digests (hdr : luks2_hdr) : Prop :=
  json_object_object_get_ex (jobj hdr) "digests" = Some json_object_new_object.

Lemma empty_digests_get hdr d : empty_digests hdr -> LUKS2_get_digest_jobj hdr d = None.
Proof.
  intros H. unfold LUKS2_get_digest_jobj. rewrite H. destruct (d <? 0); [done|]. cbn [mbind option_bind].
  unfold json_get_ptr. by rewrite new_object_get.
Qed.

(** A new digest is stored, or there is an error. *)
Lemma PBKDF2_digest_store_new env hdr vk r hdr2 :
  empty_digests hdr -> PBKDF2_digest_store env hdr 0 vk = Some (r, hdr2) ->
  r < 0 \/ (r = 0 /\ exists hash iterations salt digest,
    hdr2 = set_member hdr "digests" 0 (digest_object json_object_new_object hash iterations salt digest)).
Proof.
  intros He. unfold PBKDF2_digest_store. set (hash := default DEFAULT_LUKS1_HASH _).
  destruct (ke_salt (de_kdf env)) as [rs salt].
  assert (Hfin : forall rb iter, PBKDF2_digest_finish env hdr 0 vk salt hash rb iter = (r, hdr2) ->
    r < 0 \/ (r = 0 /\ exists hash iterations salt digest,
      hdr2 = set_member hdr "digests" 0 (digest_object json_object_new_object hash iterations salt digest))).
  { intros rb iter. unfold PBKDF2_digest_finish. destruct (Z.ltb_spec rb 0); [intros [= -> _]; by left|].
    cbv zeta. destruct (_ || _); [intros [= <- _]; by left|]. destruct (de_pbkdf2 _ _ _ _ _ _) as [r0 raw].
    destruct (Z.ltb_spec r0 0); [intros [= -> _]; by left|].
    destruct (base64_encode_alloc salt); [|intros [= <- _]; by left].
    destruct (base64_encode_alloc raw); [|intros [= <- _]; by left].
    rewrite empty_digests_get by done. intros [= <- <-]. right. split; [done|]. cbn [default]. eauto. }
  destruct (Z.ltb_spec rs 0); [intros [= -> _]; by left|].
  destruct (has_flag _ _); [intros [= E]; by eapply Hfin|].
  destruct (crypt_benchmark_pbkdf_internal _ _ _) as [[rb p]| |]; [|done..].
  intros [= E]. by eapply Hfin.
Qed.

Lemma digest_create_new env hdr type vk d hdr2 :
  empty_digests hdr -> LUKS2_digest_create env hdr type vk = Some (d, hdr2) -> 0 <= d ->
  d = 0 /\ exists hash iterations salt digest,
    hdr2 = set_member hdr "digests" 0 (digest_object json_object_new_object hash iterations salt digest).
Proof.
  intros He Hc Hd. unfold LUKS2_digest_create in Hc. destruct (negb _); [injection Hc as <- <-; done|].
  assert (E : LUKS2_digest_find_free hdr = 0).
  { unfold LUKS2_digest_find_free. change (Z.to_nat LUKS2_DIGEST_MAX) with 8%nat. cbn [digest_find_free_from].
    by rewrite empty_digests_get. }
  rewrite E in Hc. change (0 <? 0) with false in Hc. cbv iota zeta in Hc.
  destruct (PBKDF2_digest_store env hdr 0 vk) as [[r h]|] eqn:Es; [|done]. cbn [mbind option_bind] in Hc.
  injection Hc as Hr <-. destruct (PBKDF2_digest_store_new _ _ _ _ _ He Es) as [Hneg|[-> H]]; [|by subst d].
  destruct (Z.eqb_spec r 0); lia.
Qed.

(** The digest and its assignment to the segment. *)
Lemma digest_assign_new hdr dg K T S C :
  sections (jobj hdr) K T S json_object_new_object C ->
  json_object_object_get_ex dg "segments" = Some json_object_new_array ->
  exists hdr' dg',
    LUKS2_digest_segment_assign_jobj (set_member hdr "digests" 0 dg) 0 0 true = (0, hdr') /\
    assigned dg dg' "segments" "0" /\ hdr' = set_jobj hdr (jobj hdr') /\
    sections (jobj hdr') K T S
      (json_object_object_add (json_object_object_add json_object_new_object "0" dg) "0" dg') C.
Proof.
  intros [Ht HK HT HS HD HC] Hseg.
  destruct (update_section_spec hdr "digests" (fun s => json_object_object_add_by_uint s 0 dg) _ HD) as [B1 G1].
  change (update_section _ _ _) with (set_member hdr "digests" 0 dg) in B1, G1.
  unfold json_object_object_add_by_uint in G1. change (dec_u32 0) with "0"%string in G1.
  set (h1 := set_member hdr "digests" 0 dg) in *.
  destruct (assign_in_true dg "segments" "0" _ Hseg new_array_type) as (dg' & E & Ha).
  assert (Hg : LUKS2_get_digest_jobj h1 0 = Some dg).
  { eapply get_digest_member; [exact G1|lia|apply get_ex_add_same, new_object_type|by eapply get_ex_type]. }
  destruct (update_section_spec h1 "digests" (fun s => json_object_object_add_by_uint s 0 dg') _ G1) as [B2 G2].
  unfold json_object_object_add_by_uint in G2. change (dec_u32 0) with "0"%string in G2.
  exists (set_member h1 "digests" 0 dg'), dg'. split.
  { unfold LUKS2_digest_segment_assign_jobj. change (0 =? CRYPT_DEFAULT_SEGMENT) with false.
    change (0 =? CRYPT_ANY_SEGMENT) with false. change (0 =? CRYPT_ANY_DIGEST) with false. cbv zeta iota.
    unfold assign_one_segment, assign_one. rewrite Hg. cbn [mbind option_bind].
    change (dec_i32 0) with "0"%string. by rewrite E. }
  split; [done|]. destruct (same_but_trans _ _ _ _ B1 B2) as (Hj & Ht' & Ho). split; [exact Hj|].
  split; [exact Ht'|..]; try exact G2; rewrite Ho by discriminate; done.
Qed.

Definition config_of (C : json) (json_size keyslots_size : Z) : Prop :=
  json_object_object_get_ex C "json_size" = Some (crypt_jobj_new_uint64 json_size) /\
  json_object_object_get_ex C "keyslots_size" = Some (crypt_jobj_new_uint64 keyslots_size) /\
  json_object_object_get_ex C "flags" = None /\ json_object_object_get_ex C "requirements" = None.

Lemma config_validates J S C m k :
  json_object_object_get_ex J "config" = Some C -> json_object_object_get_ex J "segments" = Some S ->
  json_object_get_type S = json_type_object -> config_of C (m - 4096) k ->
  LUKS2_check_metadata_area_size m = false -> 0 <= k <= LUKS2_MAX_KEYSLOTS_SIZE -> mult4K k ->
  (let d := json_segments_get_minimal_offset (Some S) false in d = 0 \/ k + 2 * m <= d) ->
  hdr_validate_config J = 0.
Proof.
  intros HC HS HtS (H1 & H2 & H3 & H4) Hm Hk Hk4 Hd. pose proof (metadata_size_range m Hm) as [Hr _].
  unfold hdr_validate_config. rewrite HC. unfold LUKS2_MAX_KEYSLOTS_SIZE in *.
  rewrite (contains_get _ _ _ _ H1), (contains_get _ _ _ _ H2) by apply new_uint64_type.
  rewrite !new_uint64_get by (unfold in_u; lia). cbn [negb orb]. unfold LUKS2_HDR_BIN_LEN.
  rewrite Z.sub_add, u64_id by lia. rewrite Hm. unfold LUKS2_check_keyslots_area_size.
  autorewrite with cs_bits. rewrite Hk4. cbn [Z.eqb negb orb]. unfold LUKS2_MAX_KEYSLOTS_SIZE.
  destruct (Z.ltb_spec 0x8000000 k); [lia|]. unfold json_get_segments_jobj.
  rewrite (get_ptr_object _ _ _ HS) by congruence. cbv zeta.
  set (d := json_segments_get_minimal_offset (Some S) false) in *. rewrite u64_id by lia.
  assert (E : negb (d =? 0) && ((d <? k) || (d - k <? 2 * m)) = false) by lia. rewrite E.
  unfold config_flags_ok, config_requirements_ok. by rewrite H3, H4.
Qed.

Lemma new_digest_ok dg dg' seg :
  json_object_get_type seg = json_type_object ->
  json_object_object_get_ex dg "type" = Some (json_object_new_string "pbkdf2") ->
  json_object_object_get_ex dg "keyslots" = Some json_object_new_array ->
  json_object_object_get_ex dg "segments" = Some json_object_new_array ->
  assigned dg dg' "segments" "0" ->
  refers_to dg' json_object_new_object /\
  exists arr, array_at dg' "segments" arr /\ refs_ok arr (json_object_object_add json_object_new_object "0" seg).
Proof.
  intros Hs H1 H2 H3 (_ & Ho & arr & arr' & Ha & Ha' & Ht & Hin & _). split; [split|].
  - apply has_get. eexists. rewrite Ho by discriminate. split; [done|apply new_string_type].
  - exists json_object_new_array. split; [split; [by rewrite Ho|apply new_array_type]|].
    intros x Hx. rewrite new_array_elems in Hx. by apply elem_of_nil in Hx.
  - exists arr'. split; [done|]. intros x Hx. assert (arr = json_object_new_array) as -> by congruence.
    destruct (Hin x Hx) as [Hx'|[Htx ->]]; [rewrite new_array_elems in Hx'; by apply elem_of_nil in Hx'|].
    split; [done|]. exists seg. split; [apply get_ex_add_same, new_object_type|done].
Qed.

Lemma new_header_valid J C dg dg' m k offset cipher sector_size integrity :
  let o := json_object_new_object in
  let seg := crypt_segment offset cipher sector_size integrity in
  sections J o o (json_object_object_add o "0" seg) (json_object_object_add (json_object_object_add o "0" dg) "0" dg') C ->
  json_object_object_get_ex dg "type" = Some (json_object_new_string "pbkdf2") ->
  json_object_object_get_ex dg "keyslots" = Some json_object_new_array ->
  json_object_object_get_ex dg "segments" = Some json_object_new_array ->
  assigned dg dg' "segments" "0" ->
  config_of C (m - 4096) k -> LUKS2_check_metadata_area_size m = false ->
  0 <= k <= LUKS2_MAX_KEYSLOTS_SIZE -> mult4K k ->
  sector_size_ok sector_size -> in_u 64 offset -> offset mod 512 = 0 -> (offset = 0 \/ k + 2 * m <= offset) ->
  hdr_validate_json_size J (m - 4096) = 0 -> LUKS2_hdr_validate J (m - 4096) = 0.
Proof.
  intros o seg HJ Hd1 Hd2 Hd3 Ha HC Hm Hk Hk4 Hsec Hoff Hoff5 Hmin Hsz.
  set (S := json_object_object_add o "0" seg) in *.
  assert (HES : json_object_entries S = [("0"%string, seg)]) by apply entries_add_first.
  set (D := json_object_object_add (json_object_object_add o "0" dg) "0" dg') in *.
  assert (HED : json_object_entries D = [("0"%string, dg')]).
  { unfold D. rewrite (object_add_entries_old _ _ _ dg) by apply get_ex_add_same, new_object_type.
    unfold o. rewrite entries_add_first. cbn [fmap list_fmap]. by rewrite decide_True. }
  assert (Hseg : json_object_get_type seg = json_type_object).
  { destruct (crypt_segment_members offset cipher sector_size integrity) as (H1 & _). by eapply get_ex_type. }
  destruct (new_digest_ok dg dg' seg Hseg Hd1 Hd2 Hd3 Ha) as [Hr1 Hr2].
  assert (Hnil : forall key v, (key, v) ∈ json_object_entries o -> False).
  { intros key v Hin. unfold o in Hin. rewrite new_object_entries in Hin. by apply elem_of_nil in Hin. }
  assert (Hhas : segment_has_digest "0" D = true).
  { unfold segment_has_digest. rewrite HED. cbn [existsb snd]. rewrite orb_false_r. apply bool_decide_eq_true.
    destruct Ha as (_ & _ & arr & arr' & _ & Ha' & _ & _ & Hin). rewrite (get_json_get _ _ _ Ha').
    apply array_jobj_refs, Hin. by left. }
  eapply valid_parts_intro; [exact HJ|]. destruct HJ as [Ht HK HT HS HD HCf]. split.
  - by intros key v ?%Hnil.
  - intros key v Hin. rewrite HED in Hin. apply list_elem_of_singleton in Hin. injection Hin as -> ->. done.
  - by eapply one_segment_validates.
  - by intros key v ?%Hnil.
  - eapply config_validates; [exact HCf|exact HS|unfold S, o; obj|exact HC|done..|].
    cbv zeta. by rewrite (one_segment_minimal_offset S offset cipher sector_size integrity).
  - exists []. unfold o. rewrite new_object_entries. split; [done|]. split; constructor.
  - done.
  - by intros key v ?%Hnil.
Qed.

Definition format_args_ok (env : format_env) (sector_size data_offset align_offset required_alignment
    metadata_size keyslots_size : Z) : Prop :=
  (metadata_size = 0 \/ LUKS2_check_metadata_area_size metadata_size = false) /\
  in_u 64 data_offset /\ mult4K data_offset /\ in_u 64 keyslots_size /\ mdev_ok env /\
  alignment_ok align_offset required_alignment /\ sector_size_ok sector_size.

(** The header that a successful call makes. *)
Lemma generate_hdr_sections env hdr vk cipherName cipherMode integrity sector_size data_offset align_offset
    required_alignment metadata_size keyslots_size hdr' :
  LUKS2_generate_hdr env hdr vk cipherName cipherMode integrity sector_size data_offset align_offset
    required_alignment metadata_size keyslots_size = Some (0, hdr') ->
  let m := if metadata_size =? 0 then LUKS2_HDR_16K_LEN else metadata_size in
  let k := generate_keyslots_size env (2 *64 m) data_offset keyslots_size in
  let offset := generate_data_offset (2 *64 m) k data_offset align_offset required_alignment in
  let o := json_object_new_object in
  hdr_size hdr' = m /\ seqid hdr' = 1 /\ version hdr' = 2 /\ (data_offset = 0 \/ 2 *64 m <= data_offset) /\
  exists hash iterations salt digest dg' C,
    let dg := digest_object o hash iterations salt digest in
    assigned dg dg' "segments" "0" /\ config_of C (m -64 4096) k /\
    sections (jobj hdr') o o
      (json_object_object_add o "0"
         (crypt_segment offset (generate_cipher cipherName cipherMode) sector_size integrity))
      (json_object_object_add (json_object_object_add o "0" dg) "0" dg') C.
Proof.
  intros Hg m k offset o. unfold LUKS2_generate_hdr in Hg. fold m k offset in Hg.
  destruct (negb (data_offset =? 0) && (data_offset <? 2 *64 m)) eqn:Eo; [done|].
  destruct (fe_uuid env) as [uu|]; [|done].
  set (hdr1 := Luks2Hdr _ m 1 2 _ _ _ _ _ _ empty_sections) in Hg.
  pose proof empty_sections_ok as HJ1. change empty_sections with (jobj hdr1) in HJ1. cbv zeta in HJ1. fold o in HJ1.
  destruct (LUKS2_digest_create (fe_digest env) hdr1 "pbkdf2" vk) as [[d hdr2]|] eqn:Ec; [|done].
  cbn [mbind option_bind] in Hg. destruct (Z.ltb_spec d 0); [done|].
  destruct (digest_create_new _ hdr1 _ _ _ _ (sc_digests _ _ _ _ _ _ HJ1) Ec) as (-> & hash & it & sa & di & ->); [done|].
  set (dg := digest_object _ hash it sa di) in *.
  destruct (digest_assign_new hdr1 dg o o o o HJ1) as (hdr3 & dg' & E3 & Ha & H3 & HJ3).
  { by destruct (digest_object_members hash it sa di) as (_ & _ & _ & ?). }
  rewrite E3 in Hg. change (0 <? 0) with false in Hg. cbv iota zeta in Hg.
  set (hdr4 := set_member hdr3 "segments" 0 _) in Hg. set (hdr5 := update_section hdr4 "config" _) in Hg.
  injection Hg as <-. destruct HJ3 as [Ht HK HT HS HD HC].
  destruct (update_section_spec hdr3 "segments" (fun s => json_object_object_add_by_uint s 0
      (crypt_segment offset (generate_cipher cipherName cipherMode) sector_size integrity)) _ HS) as [(B4 & T4 & O4) G4].
  change (update_section hdr3 "segments" _) with hdr4 in B4, T4, O4, G4.
  pose proof (O4 "config"%string ltac:(discriminate)) as HC4. rewrite HC in HC4.
  destruct (update_section_spec hdr4 "config" (fun c => json_object_object_add
      (json_object_object_add c "json_size" (crypt_jobj_new_uint64 (m -64 LUKS2_HDR_BIN_LEN)))
      "keyslots_size" (crypt_jobj_new_uint64 k)) o HC4) as [(B5 & T5 & O5) G5].
  change (update_section hdr4 "config" _) with hdr5 in B5, T5, O5, G5.
  rewrite B5, B4, H3. do 3 (split; [done|]). split; [unfold hdr1 in *; lia|].
  exists hash, it, sa, di, dg'. eexists. split; [exact Ha|]. split; [|].
  2: { split; [exact T5|..]; try exact G5; rewrite O5 by discriminate; try exact G4; rewrite O4 by discriminate; done. }
  unfold config_of, o, LUKS2_HDR_BIN_LEN. get_add. done.
Qed.

(** C21: [LUKS2_generate_hdr] with a supported metadata size, a sector size and
    alignments that are multiples of 512, a data offset and a device size that
    are multiples of 4096: when it succeeds and the text fits its area, the
    new header passes [LUKS2_hdr_validate] (whatever was asked for the keyslots
    area), the keyslots area lies behind both header copies and before the
    data, and the sequence id is 1. *)
Theorem generate_hdr_valid env hdr vk cipherName cipherMode integrity sector_size data_offset align_offset
    required_alignment metadata_size keyslots_size hdr' :
  format_args_ok env sector_size data_offset align_offset required_alignment metadata_size keyslots_size ->
  LUKS2_generate_hdr env hdr vk cipherName cipherMode integrity sector_size data_offset align_offset
    required_alignment metadata_size keyslots_size = Some (0, hdr') ->
  let n := hdr_size hdr' - 4096 in
  zlen (json_object_to_json_string_ext (jobj hdr')) <= n ->
  LUKS2_hdr_validate (jobj hdr') n = 0 /\ seqid hdr' = 1 /\ version hdr' = 2 /\
  LUKS2_metadata_size hdr' = hdr_size hdr' /\
  (let d := json_segments_get_minimal_offset (LUKS2_get_segments_jobj hdr') false in
   d = 0 \/ LUKS2_hdr_and_areas_size hdr' <= d).
Proof.
  intros (Hm0 & Hd & Hd4 & Hks & Hdev & Hal & Hsec) Hg n Hlen.
  destruct (generate_hdr_sections _ _ _ _ _ _ _ _ _ _ _ _ _ Hg) as
    (Hn & Hs & Hv & Hmin & hash & it & sa & di & dg' & C & Ha & HC & HJ).
  set (m := if metadata_size =? 0 then LUKS2_HDR_16K_LEN else metadata_size) in *.
  assert (Hm : LUKS2_check_metadata_area_size m = false).
  { unfold m. destruct (Z.eqb_spec metadata_size 0); [done|]. destruct Hm0; done. }
  pose proof (metadata_size_range m Hm) as [Hmr _]. rewrite (u64_id (m - 4096)) in HC by lia.
  assert (Hmin' : data_offset = 0 \/ 2 * m <= data_offset) by (rewrite u64_id in Hmin by lia; done).
  destruct (generate_keyslots_size_ok env m data_offset keyslots_size Hm Hdev Hks Hd Hd4 Hmin') as (Hk & Hk4 & Hkd).
  set (k := generate_keyslots_size _ _ _ _) in *.
  destruct (generate_data_offset_ok m k data_offset align_offset required_alignment Hmr Hk Hd Hd4 Hkd Hal)
    as (Ho & Ho5 & Hod).
  set (offset := generate_data_offset _ _ _ _ _) in *.
  destruct (digest_object_members hash it sa di) as (_ & D1 & D2 & D3).
  destruct HC as (C1 & C2 & C3 & C4). unfold n in *. rewrite Hn in *.
  assert (HJC : json_get (json_get (jobj hdr') "config") "json_size" = crypt_jobj_new_uint64 (m - 4096)).
  { by rewrite (get_json_get _ _ _ (sc_config _ _ _ _ _ _ HJ)), (get_json_get _ _ _ C1). }
  assert (HKC : json_get (json_get (jobj hdr') "config") "keyslots_size" = crypt_jobj_new_uint64 k).
  { by rewrite (get_json_get _ _ _ (sc_config _ _ _ _ _ _ HJ)), (get_json_get _ _ _ C2). }
  assert (Hu : forall z, in_u 64 z -> crypt_jobj_get_uint64 (crypt_jobj_new_uint64 z) = z).
  { intros z Hz. unfold crypt_jobj_get_uint64. by rewrite new_uint64_get. }
  assert (HM : LUKS2_metadata_size hdr' = m).
  { unfold LUKS2_metadata_size, LUKS2_metadata_size_jobj. rewrite HJC, Hu by (unfold in_u; lia).
    unfold LUKS2_HDR_BIN_LEN. rewrite u64_id by lia. lia. }
  unfold LUKS2_MAX_KEYSLOTS_SIZE in Hk.
  split; [|do 2 (split; [done|]); split; [done|]].
  - eapply new_header_valid; try exact HJ; try done.
    unfold hdr_validate_json_size. rewrite HJC, Hu, Z.eqb_refl by (unfold in_u; lia). cbn [negb]. cbv zeta.
    by rewrite (proj2 (Z.ltb_ge _ _)) by lia.
  - unfold LUKS2_get_segments_jobj, json_get_segments_jobj.
    rewrite (get_ptr_object _ _ _ (sc_segments _ _ _ _ _ _ HJ)) by (rewrite object_add_type; [done|apply new_object_type]).
    cbv zeta. rewrite (one_segment_minimal_offset _ _ _ _ _ Hsec Ho) by apply entries_add_first.
    destruct Hod as [?|Hod]; [by left|right]. unfold LUKS2_hdr_and_areas_size, LUKS2_hdr_and_areas_size_jobj.
    fold (LUKS2_metadata_size hdr'). rewrite HM. unfold LUKS2_keyslots_size_jobj. rewrite HKC, Hu by (unfold in_u; lia).
    rewrite (u64_id (2 * m)), u64_id by lia. lia.
Qed.

(** On a metadata device too small for the default header whose size is not
    a multiple of 4096, when the space cannot be allocated, the keyslots area
    is shrunk to what is left without being aligned again: the header that a
    successful [LUKS2_generate_hdr] makes never passes [LUKS2_hdr_validate]. *)
Theorem small_device_header_invalid env hdr vk cipherName cipherMode integrity sector_size align_offset
    required_alignment metadata_size mdev_size hdr' n :
  LUKS2_check_metadata_area_size metadata_size = false ->
  fe_mdev_size env = Some mdev_size -> fe_fallocate_fails env = true ->
  2 * metadata_size <= mdev_size < LUKS2_DEFAULT_HDR_SIZE -> mdev_size mod 4096 <> 0 ->
  LUKS2_generate_hdr env hdr vk cipherName cipherMode integrity sector_size 0 align_offset
    required_alignment metadata_size 0 = Some (0, hdr') ->
  LUKS2_hdr_validate (jobj hdr') n <> 0.
Proof.
  intros Hm Hz Hf Hr Hmis Hg Hv. pose proof (metadata_size_range _ Hm) as [Hmr Hm4].
  destruct (generate_hdr_sections _ _ _ _ _ _ _ _ _ _ _ _ _ Hg) as (_ & _ & _ & _ & ? & ? & ? & ? & ? & C & _ & HC & HJ).
  destruct (Z.eqb_spec metadata_size 0) as [E0|_]; [lia|].
  assert (Hk : generate_keyslots_size env (2 *64 metadata_size) 0 0 = mdev_size - 2 * metadata_size).
  { unfold generate_keyslots_size, LUKS2_DEFAULT_HDR_SIZE, LUKS2_MAX_KEYSLOTS_SIZE in *.
    rewrite (u64_id (2 * metadata_size)) by lia. change (0 mod 4096) with 0.
    change ((0 =? 0) && negb (0 =? 0)) with false. cbv iota zeta. change (0 - 0) with 0.
    change (0x8000000 <? 0) with false. cbv iota. change (0 =? 0) with true. cbv iota. rewrite Hz, Hf.
    rewrite (u64_id (0x1000000 - 2 * metadata_size)), (u64_id (0x1000000 - 2 * metadata_size + 2 * metadata_size)) by lia.
    destruct (Z.ltb_spec mdev_size (0x1000000 - 2 * metadata_size + 2 * metadata_size)); [|lia].
    destruct (Z.leb_spec (2 * metadata_size) mdev_size); [|lia]. cbn [andb negb]. rewrite u64_id by lia. done. }
  rewrite Hk in HC. apply LUKS2_hdr_validate_inv in Hv as (_ & _ & _ & _ & Hc & _).
  unfold hdr_validate_config in Hc. rewrite (sc_config _ _ _ _ _ _ HJ) in Hc.
  destruct HC as (C1 & C2 & _). rewrite (u64_id (metadata_size - 4096)) in C1 by lia.
  rewrite (contains_get _ _ _ _ C1), (contains_get _ _ _ _ C2) in Hc by apply new_uint64_type.
  unfold LUKS2_DEFAULT_HDR_SIZE in *. rewrite !new_uint64_get in Hc by (unfold in_u; lia). cbn [negb orb] in Hc.
  cbv zeta in Hc. unfold LUKS2_HDR_BIN_LEN in Hc. rewrite Z.sub_add, (u64_id metadata_size), Hm in Hc by lia.
  unfold LUKS2_check_keyslots_area_size in Hc. autorewrite with cs_bits in Hc.
  assert (Hm2 : mult4K (2 * metadata_size)) by (unfold mult4K; by rewrite Z.mul_mod, Hm4 by lia).
  destruct (Z.eqb_spec ((mdev_size - 2 * metadata_size) mod 4096) 0) as [E|]; [|done].
  apply Hmis. replace mdev_size with (mdev_size - 2 * metadata_size + 2 * metadata_size) by lia.
  by rewrite Z.add_mod, E, Hm2 by lia.
Qed.
End facts.

(** ** Examples *)

(** No benchmark, salts and keys of zeros. *)
Definition fx_format_env (mdev_size : option Z) : format_env :=
  FormatEnv
    (DigestEnv (KdfEnv (PbkdfType (Some "pbkdf2") (Some "sha256") 0 1000 0 0 CRYPT_PBKDF_NO_BENCHMARK)
                  [] (0, zeros 32))
       (fun _ => 32) 1000 (fun _ _ _ _ n => (0, zeros (Z.to_nat n))))
    mdev_size true (zeros 64) (zeros 64) (Some (zeros 40)).

Definition fx_generate (mdev_size : option Z) :=
  LUKS2_generate_hdr (JC := jtree_json []) (fx_format_env mdev_size) (fx_hdr [] 7 fx_two) (zeros 64) "aes" "xts-plain64"
    (Some "hmac(sha256)") 4096 0 0 1048576 16384 0.

Definition fx_generated (mdev_size : option Z) : luks2_hdr (JC := jtree_json []) :=
  default (fx_hdr [] 7 fx_two) (snd <$> fx_generate mdev_size).

Lemma fx_generate_some mdev_size :
  fst <$> fx_generate mdev_size = Some 0 -> fx_generate mdev_size = Some (0, fx_generated mdev_size).
Proof.
  unfold fx_generated. destruct (fx_generate mdev_size) as [[r h]|]; [|done]. intros [= ->]. done.
Qed.

Lemma generate_hdr_valid_witness :
  LUKS2_hdr_validate (JC := jtree_json []) (jobj (fx_generated None)) 12288 = 0 /\ seqid (fx_generated None) = 1.
Proof.
  destruct (generate_hdr_valid (JC := jtree_json []) (fx_format_env None) (fx_hdr [] 7 fx_two) (zeros 64) "aes"
    "xts-plain64" (Some "hmac(sha256)") 4096 0 0 1048576 16384 0 (fx_generated None)) as (H1 & H2 & _).
  - split; [by right; vm_compute|]. repeat split; first [by vm_compute | discriminate].
  - apply fx_generate_some. vm_compute. reflexivity.
  - vm_compute. congruence.
  - exact (conj H1 H2).
Defined.

Lemma small_device_header_invalid_witness :
  fst <$> fx_generate (Some 1049088) = Some 0 /\
  LUKS2_hdr_validate (JC := jtree_json []) (jobj (fx_generated (Some 1049088))) 12288 <> 0.
Proof.
  split; [vm_compute; reflexivity|].
  apply (small_device_header_invalid (JC := jtree_json []) (fx_format_env (Some 1049088)) (fx_hdr [] 7 fx_two) (zeros 64)
    "aes" "xts-plain64" (Some "hmac(sha256)") 4096 0 1048576 16384 1049088 (fx_generated (Some 1049088)) 12288).
  - vm_compute. reflexivity.
  - reflexivity.
  - reflexivity.
  - split; vm_compute; congruence.
  - vm_compute. congruence.
  - apply fx_generate_some. vm_compute. reflexivity.
Defined.
