(* ===== verification/Luks2AllocProps.v ===== *)
(** * Luks2AllocProps: a new keyslot keeps the header valid

    [luks2_keyslot_alloc] after the assignment of the keyslot to a digest, as
    [LUKS2_keyslot_store] and its callers do it. *)

From S2P Require Import Prelude CryptBackend Base64 Cstd Pbkdf JsonC Luks2Json Luks2Keyslot Luks2Edit Luks2Areas Luks2Validate Luks2EditFacts Luks2EditProps Luks2Format Luks2FormatProps.
From Stdlib Require Import Sorted Strings.Byte.

(** ** The new keyslot *)

Section keyslot.
Context `{JL : JsonCLaws}.

Lemma keyslot_new_members klen offset len params :
  let ks := luks2_keyslot_new klen offset len params in
  exists af area, json_object_get_type ks = json_type_object /\
    json_object_object_get_ex ks "type" = Some (json_object_new_string "luks2") /\
    json_object_object_get_ex ks "key_size" = Some (json_object_new_int klen) /\
    json_object_object_get_ex ks "af" = Some af /\ json_object_object_get_ex ks "area" = Some area /\
    json_object_get_type af = json_type_object /\ json_object_get_type area = json_type_object /\
    json_object_object_get_ex af "type" = Some (json_object_new_string "luks1") /\
    json_object_object_get_ex af "stripes" = Some (json_object_new_int (af_luks1_stripes params)) /\
    json_object_object_get_ex area "type" = Some (json_object_new_string "raw") /\
    json_object_object_get_ex area "offset" = Some (crypt_jobj_new_uint64 offset) /\
    json_object_object_get_ex area "size" = Some (crypt_jobj_new_uint64 len).
Proof.
  cbv zeta. unfold luks2_keyslot_new. eexists _, _. split; [obj|].
  do 4 (split; [get_add; reflexivity|]). split; [obj|]. split; [obj|]. get_add. done.
Qed.

(** The object [kdf] with its salt passes the check of its type. *)
Lemma kdf_object_validates pbkdf salt :
  let kdf := json_object_object_add (kdf_object pbkdf) "salt" (json_object_new_string salt) in
  json_object_object_get_ex kdf "type" = Some (json_object_new_string (default EmptyString (p_type pbkdf))) /\
  kdf_validate kdf (default EmptyString (p_type pbkdf)) = 0.
Proof.
  cbv zeta. set (type := default EmptyString (p_type pbkdf)).
  assert (L0 : json_object_object_length json_object_new_object = 0).
  { unfold json_object_object_length. by rewrite new_object_entries. }
  assert (Hhas : forall j k t v, json_object_object_get_ex j k = Some v -> json_object_get_type v = t ->
    has j k t = true) by (intros; apply has_get; eauto).
  unfold kdf_object. fold type. cbv zeta. unfold kdf_validate. cbv zeta.
  case_bool_decide as E1; (split; [get_add; done|]); [|destruct (_ || _); [|done]].
  all: erewrite !Hhas by (get_add; first [reflexivity | apply new_string_type | apply new_int_type]).
  all: repeat (rewrite entries_length_add_new; [|obj|get_add; done]); by rewrite L0.
Qed.

(** What validation reads of a keyslot. *)
Record keyslot_fine (ks : json) (klen offset len : Z) : Prop := {
  kf_type : json_object_object_get_ex ks "type" = Some (json_object_new_string "luks2");
  kf_key_size : json_object_object_get_ex ks "key_size" = Some (json_object_new_int klen);
  kf_valid : luks2_keyslot_validate ks = 0;
  kf_area : area_interval ks = Some (Interval offset len);
}.

Lemma keyslot_update_json_new env klen offset len params ks pbkdf :
  in_u 64 offset -> in_u 64 len ->
  luks2_keyslot_update_json env (luks2_keyslot_new klen offset len params) params = Some (0, ks, pbkdf) ->
  keyslot_fine ks klen offset len.
Proof.
  intros Ho Hl. destruct (keyslot_new_members klen offset len params)
    as (af & area & Ht & Hty & Hks & Haf & Har & Taf & Tar & A1 & A2 & R1 & R2 & R3).
  set (k0 := luks2_keyslot_new klen offset len params) in *.
  unfold luks2_keyslot_update_json. rewrite Haf, Har. cbv zeta.
  destruct (crypt_get_pbkdf_type (ke_pbkdf env)) as [p|]; [|done].
  destruct (crypt_benchmark_pbkdf_internal _ _ _) as [[r p']| |]; [|done..].
  destruct (Z.ltb_spec r 0); [intros [= -> _ _]; lia|]. destruct (ke_salt env) as [rs salt].
  destruct (Z.ltb_spec rs 0); [intros [= -> _ _]; lia|].
  destruct (base64_encode_alloc salt) as [s64|]; [|done]. intros [= <- _].
  destruct (kdf_object_validates p' (string_of_bytes s64)) as [K1 K2].
  set (kdf := json_object_object_add (kdf_object p') "salt" _) in *.
  set (area' := json_object_object_add (json_object_object_add area "encryption" _) "key_size" _).
  set (af' := json_object_object_add af "hash" _).
  assert (Hhas : forall j k t v, json_object_object_get_ex j k = Some v -> json_object_get_type v = t ->
    has j k t = true) by (intros; apply has_get; eauto).
  assert (Tar' : json_object_get_type area' = json_type_object) by (unfold area'; obj).
  split.
  - by get_add.
  - by get_add.
  - unfold luks2_keyslot_validate. get_add.
    rewrite (contains_get _ _ _ _ K1) by apply new_string_type. rewrite new_string_get, K2. cbn [Z.eqb negb].
    unfold af', area'. get_add. rewrite A1, R1, !new_string_get, !bool_decide_true by done. cbn [negb orb].
    erewrite !Hhas by (get_add; first [eassumption | reflexivity | apply new_string_type | apply new_int_type]).
    done.
  - unfold area_interval. erewrite contains_get; [|by get_add|done]. cbn [mbind option_bind].
    assert (G : forall k v, k <> "encryption"%string -> k <> "key_size"%string ->
      json_object_object_get_ex area k = Some v -> json_object_object_get_ex area' k = Some v).
    { intros k v N1 N2 Hv. unfold area'. rewrite !get_ex_add_other by first [done | obj]. done. }
    rewrite (contains_get area' "type" _ _ (G "type"%string _ ltac:(done) ltac:(done) R1)) by apply new_string_type.
    rewrite (contains_get area' "offset" _ _ (G "offset"%string _ ltac:(done) ltac:(done) R2)) by apply new_uint64_type.
    rewrite (contains_get area' "size" _ _ (G "size"%string _ ltac:(done) ltac:(done) R3)) by apply new_uint64_type.
    cbn [mbind option_bind]. rewrite !new_uint64_numbered, !new_uint64_get by (unfold in_u in *; lia). done.
Qed.

(** The successful allocation. *)
Lemma keyslot_alloc_inv env hdr k klen params hdr' pbkdf :
  0 <= k < LUKS2_KEYSLOTS_MAX ->
  luks2_keyslot_alloc env hdr k klen (Some params) = Some (0, hdr', pbkdf) ->
  exists r offset len ks, LUKS2_find_area_gap hdr klen = (r, offset, len) /\ 0 <= r /\
    luks2_keyslot_update_json env (luks2_keyslot_new klen offset len params) params = Some (0, ks, pbkdf) /\
    hdr' = set_member hdr "keyslots" k ks /\ LUKS2_check_json_size hdr' = 0 /\
    LUKS2_get_keyslot_jobj hdr k = None.
Proof.
  intros Hk. unfold luks2_keyslot_alloc. destruct (_ || _); [done|].
  destruct (Z.eqb_spec k CRYPT_ANY_SLOT) as [->|_]; [unfold CRYPT_ANY_SLOT in Hk; lia|]. cbv zeta.
  rewrite (proj2 (Z.ltb_ge k 0)), (proj2 (Z.leb_gt LUKS2_KEYSLOTS_MAX k)) by lia. cbn [orb].
  case_bool_decide as Hex; [done|]. destruct (negb _); [done|].
  destruct (LUKS2_find_area_gap hdr klen) as [[r offset] len]. destruct (Z.ltb_spec r 0); [intros [= -> _ _]; lia|].
  destruct (luks2_keyslot_update_json _ _ _) as [[[r' ks] p]|] eqn:Eu; [|done]. cbn [mbind option_bind].
  set (hdr1 := set_member hdr "keyslots" k ks).
  destruct (Z.eqb_spec r' 0) as [->|Hr]; cbn [andb].
  - destruct (Z.eqb_spec (LUKS2_check_json_size hdr1) 0) as [Es|]; cbn; [|intros [=]].
    intros [= <- <-].
    exists r, offset, len, ks. do 5 (split; [done|]). destruct (LUKS2_get_keyslot_jobj hdr k); [by destruct Hex|done].
  - intros [= E _ _]. done.
Qed.
End keyslot.

(** ** The header with the new keyslot *)

Section alloc.
Context `{JL : JsonCLaws}.

Lemma keyslot_info_invalid hdr i :
  LUKS2_keyslot_info hdr i = CRYPT_SLOT_INVALID <-> (LUKS2_KEYSLOTS_MAX <=? i) || (i <? 0) = true.
Proof. unfold LUKS2_keyslot_info. destruct (_ || _); [done|]. by repeat case_match. Qed.

Lemma keyslot_area_ext hdr hdr' i :
  json_object_object_get_ex (jobj hdr') "keyslots" = json_object_object_get_ex (jobj hdr) "keyslots" ->
  LUKS2_keyslot_area hdr' i = LUKS2_keyslot_area hdr i.
Proof.
  intros HK. unfold LUKS2_keyslot_area. rewrite (bool_decide_ext _ (LUKS2_keyslot_info hdr i = CRYPT_SLOT_INVALID)).
  2: { by rewrite !keyslot_info_invalid. }
  case_bool_decide; [done|]. unfold LUKS2_get_keyslot_jobj. by rewrite HK.
Qed.

Lemma find_area_gap_ext hdr hdr' k :
  json_object_object_get_ex (jobj hdr') "keyslots" = json_object_object_get_ex (jobj hdr) "keyslots" ->
  json_object_object_get_ex (jobj hdr') "config" = json_object_object_get_ex (jobj hdr) "config" ->
  hdr_size hdr' = hdr_size hdr -> LUKS2_find_area_gap hdr' k = LUKS2_find_area_gap hdr k.
Proof.
  intros HK HC Hs. unfold LUKS2_find_area_gap, get_min_offset, get_max_offset, LUKS2_hdr_and_areas_size, areas_table.
  rewrite Hs. destruct (sizes_ext (jobj hdr) (jobj hdr') HC) as [_ ->].
  assert (E : (fun i => let '(r, offset, length) := LUKS2_keyslot_area hdr' i in if r =? 0 then Area offset length else Area 0 0)
    <$> seqZ 0 LUKS2_KEYSLOTS_MAX = (fun i => let '(r, offset, length) := LUKS2_keyslot_area hdr i in
      if r =? 0 then Area offset length else Area 0 0) <$> seqZ 0 LUKS2_KEYSLOTS_MAX); [|by rewrite E].
  apply list_fmap_ext. intros i x _. by rewrite (keyslot_area_ext hdr hdr').
Qed.

Lemma refs_ok_mono arr K K' :
  (forall s o, json_object_object_get_ex K s = Some o -> json_object_object_get_ex K' s = Some o) ->
  refs_ok arr K -> refs_ok arr K'.
Proof. intros HK H x Hx. destruct (H x Hx) as (Ht & o & Ho & Hto). eauto. Qed.

Lemma refers_to_mono v K K' :
  (forall s o, json_object_object_get_ex K s = Some o -> json_object_object_get_ex K' s = Some o) ->
  refers_to v K -> refers_to v K'.
Proof. intros HK [Ht (arr & Ha & Hr)]. split; [done|]. exists arr. split; [done|]. by eapply refs_ok_mono. Qed.

(** The member that gets the reference. *)
Lemma refers_to_assigned v v' K K' num o :
  (forall s o, json_object_object_get_ex K s = Some o -> json_object_object_get_ex K' s = Some o) ->
  json_object_object_get_ex K' num = Some o -> json_object_get_type o = json_type_object ->
  assigned v v' "keyslots" num -> refers_to v K -> refers_to v' K'.
Proof.
  intros HK Ho Hto (_ & Hother & arr & arr' & Ha & Ha' & Ht & Hin & _) [Hty (a & [Ea _] & Hr)].
  assert (a = arr) as -> by congruence. split; [by rewrite (has_ext v v') by (by apply Hother)|].
  exists arr'. split; [done|]. intros x Hx. destruct (Hin x Hx) as [Hx'|[Htx ->]].
  - destruct (Hr x Hx') as (H1 & o' & H2 & H3). eauto.
  - split; [done|]. by exists o.
Qed.

Lemma filter_one {A} (P : string * A -> Prop) `{!forall x, Decision (P x)} (l : list (string * A)) key v :
  NoDup l.*1 -> (key, v) ∈ l -> (forall k a, (k, a) ∈ l -> P (k, a) <-> k = key) -> length (filter P l) = 1%nat.
Proof.
  induction l as [|[k a] l IH]; intros Hnd Hin HP; [by apply elem_of_nil in Hin|].
  inversion Hnd as [|? ? Hk Hnd']; subst. rewrite filter_cons.
  assert (HP' : forall k0 a0, (k0, a0) ∈ l -> P (k0, a0) <-> k0 = key) by (intros; apply HP; by right).
  case_decide as Hd.
  - apply (HP k a) in Hd; [subst k|by left]. cbn [length]. f_equal.
    destruct (filter P l) as [|[k1 a1] l1] eqn:E; [done|]. exfalso.
    assert (Hin1 : (k1, a1) ∈ filter P l) by (rewrite E; left).
    apply list_elem_of_filter in Hin1 as [H1 H2]. apply HP' in H1; [subst k1|done].
    apply Hk, list_elem_of_fmap. by exists (key, a1).
  - apply elem_of_cons in Hin as [[= -> ->]|Hin]; [destruct Hd; apply HP; [by left|done]|]. by apply IH.
Qed.

(** An object whose ids are those the code hands out. *)
Definition keyslot_ids (K : json) : Prop :=
  json_object_get_type K = json_type_object /\ forall key v, (key, v) ∈ json_object_entries K -> key = dec_u32 (atoi key) /\ 0 <= atoi key < LUKS2_KEYSLOTS_MAX.

Lemma new_area_apart x y m e :
  0 <= m -> area_in m e x -> in_u 64 (i_offset x) -> in_u 64 (i_length x) -> i_offset x + i_length x < 2 ^ 64 ->
  0 <= i_offset y -> 0 < i_length y -> i_offset y + i_length y < 2 ^ 64 ->
  i_offset x + i_length x <= i_offset y \/ i_offset y + i_length y <= i_offset x -> apart x y.
Proof.
  intros Hm (_ & Hl & _) Ho Hlen Hw Hyo Hyl Hyw Hfree. unfold apart, in_u in *. rewrite !u64_id by lia. lia.
Qed.

(** The areas after an area was added in a gap. *)
Lemma areas_ok_add hdr J' K k ks klen offset len :
  LUKS2_hdr_validate (jobj hdr) (hdr_size hdr -64 LUKS2_HDR_BIN_LEN) = 0 -> in_u 64 (hdr_size hdr) ->
  areas_no_wrap hdr -> keyslot_ids K -> keylength_ok klen ->
  json_object_object_get_ex (jobj hdr) "keyslots" = Some K -> areas_ok (jobj hdr) K ->
  json_object_object_get_ex J' "config" = json_object_object_get_ex (jobj hdr) "config" ->
  LUKS2_find_area_gap hdr klen = (0, offset, len) -> area_interval ks = Some (Interval offset len) ->
  json_object_object_get_ex K k = None ->
  areas_ok J' (json_object_object_add K k ks).
Proof.
  intros Hv Hu Hnw [HtK Hids] Hkl HK (ix & Hm & Hf & Hs) HC Hgap Hks Hnew.
  pose proof (validate_areas_valid hdr Hv Hu Hnw) as Hav.
  destruct (valid_sizes hdr Hv Hu) as (Emeta & Hmeta & _ & Hksz & _ & Emin & Emax).
  destruct (sizes_ext (jobj hdr) J' HC) as [E1 E2]. unfold areas_ok. rewrite E1, E2, object_add_entries_new by done.
  destruct (find_area_gap_scan hdr klen Hav Hkl) as (o & Ho & Hfree & _ & _ & E). rewrite Hgap in E.
  destruct (get_area_size_spec klen Hkl) as (_ & _ & Hlen).
  destruct (Z.ltb_spec (get_max_offset hdr) (o + get_area_size klen)) as [|Hin]; [discriminate E|].
  injection E as -> ->. set (len := get_area_size klen) in *. unfold LUKS2_MAX_KEYSLOTS_SIZE in *.
  change (LUKS2_metadata_size_jobj (jobj hdr)) with (LUKS2_metadata_size hdr) in *.
  change (LUKS2_hdr_and_areas_size_jobj (jobj hdr)) with (get_max_offset hdr) in *.
  rewrite Emeta in *. exists (ix ++ [Interval o len]). split; [|split].
  - apply mapM_Some. apply mapM_Some in Hm. apply Forall2_app; [done|]. by constructor.
  - apply Forall_app. split; [done|]. constructor; [|done]. unfold area_in. cbn [i_offset i_length].
    rewrite !u64_id by lia. lia.
  - apply StronglySorted_pairs. intros i j x y Hij Hx Hy. rewrite StronglySorted_pairs in Hs.
    assert (Hi : (i < length ix)%nat).
    { apply lookup_lt_Some in Hy. rewrite length_app in Hy. cbn in Hy. lia. }
    rewrite lookup_app_l in Hx by done. destruct (decide (j < length ix)%nat) as [Hj|Hj].
    { rewrite lookup_app_l in Hy by done. by apply (Hs i j). }
    rewrite lookup_app_r in Hy by lia. apply list_lookup_singleton_Some in Hy as [_ <-].
    apply mapM_Some in Hm. destruct (Forall2_lookup_r _ _ _ _ _ Hm Hx) as ([key v] & Hkv & Hxv).
    cbn [snd] in Hxv. destruct (Hids key v) as [Hkey Hid]; [by eapply list_elem_of_lookup_2|].
    assert (Hj' : LUKS2_get_keyslot_jobj hdr (atoi key) = Some v).
    { unfold LUKS2_get_keyslot_jobj. rewrite (proj2 (Z.ltb_ge _ 0)), HK by lia. cbn [mbind option_bind]. rewrite <-Hkey.
      apply get_ptr_object; [apply entries_get; by eapply list_elem_of_lookup_2|]. intros Ht.
      unfold area_interval in Hxv. destruct (json_contains v "area" json_type_object) as [a|] eqn:Ea; [|done].
      apply json_contains_get in Ea as [Ea _]. apply get_ex_type in Ea. congruence. }
    pose proof (keyslot_area_interval hdr _ _ _ Hid Hj' Hxv) as Ha.
    pose proof (Hnw _ _ _ Hid Ha) as Hw. destruct (area_interval_range _ _ Hxv) as [R1 R2].
    rewrite Forall_lookup in Hf. pose proof (Hf _ _ Hx) as Hax.
    apply (new_area_apart _ _ (hdr_size hdr) (get_max_offset hdr)); cbn [i_offset i_length]; [lia|done..|lia|lia|lia|].
    apply (Hfree _ _ _ Hid Ha). destruct Hax as (Hlo & _ & _). rewrite u64_id in Hlo by lia. lia.
Qed.

(** The digests after the assignment: one of them changed, by one reference. *)
Definition digest_assigned (num key : string) : string -> json -> json -> Prop :=
  fun k a b => (k = key /\ assigned a b "keyslots" num) \/ (k <> key /\ b = a).

Lemma digest_assign_sections hdr K T S D C k d hdr1 n :
  sections (jobj hdr) K T S D C -> valid_parts (jobj hdr) K T S D n -> 0 <= k < 2 ^ 31 -> 0 <= d ->
  LUKS2_digest_assign_jobj hdr k d true = (0, hdr1) ->
  exists D1, sections (jobj hdr1) K T S D1 C /\ hdr_size hdr1 = hdr_size hdr /\
    dec_u32 d ∈ (json_object_entries D).*1 /\
    changed (digest_assigned (dec_u32 k) (dec_u32 d)) (json_object_entries D) (json_object_entries D1).
Proof.
  intros [Ht HK HT HS HD HC] V Hk Hd. unfold LUKS2_digest_assign_jobj, CRYPT_ANY_DIGEST.
  destruct (Z.eqb_spec d (-1)); [lia|]. unfold assign_one_digest, assign_one. rewrite dec_i32_u32 by done.
  destruct (LUKS2_get_digest_jobj hdr d) as [dg|] eqn:Edg; [|done]. cbn [mbind option_bind].
  unfold LUKS2_get_digest_jobj in Edg. rewrite (proj2 (Z.ltb_ge d 0)), HD in Edg by lia.
  cbn [mbind option_bind] in Edg. apply get_ptr_get in Edg. pose proof Edg as Hin. apply entries_lookup in Hin.
  destruct (vp_digests _ _ _ _ _ _ V _ _ Hin) as (_ & (_ & arr & [Ha Hta] & _) & _).
  destruct (assign_in_true dg "keyslots" (dec_u32 k) arr Ha Hta) as (dg' & E & Has). rewrite E. intros [= <-].
  destruct (set_member_spec hdr "digests" D d dg dg' HD Edg) as ((B1 & B2 & B3) & D1 & HD1 & _ & _ & Hc).
  exists D1. split; [split; [exact B2|..]; try exact HD1; by rewrite B3|]. split; [by rewrite B1|].
  split; [apply list_elem_of_fmap; by exists (dec_u32 d, dg)|].
  eapply changed_impl; [|exact Hc]. intros key a b Hab [[-> ->]|?]; [left|by right].
  split; [done|]. apply entries_get in Hab. rewrite Edg in Hab. by injection Hab as <-.
Qed.

Lemma digest_assigned_same num key k a b arr arr' :
  digest_assigned num key k a b -> json_object_object_get_ex a "keyslots" = Some arr ->
  json_object_object_get_ex b "keyslots" = Some arr' -> forall x, x <> num -> x ∈ refs arr' <-> x ∈ refs arr.
Proof.
  intros [[-> (_ & _ & a1 & a2 & H1 & H2 & _ & _ & H3)]|[_ ->]] Ha Hb x Hx.
  - assert (a1 = arr) as -> by congruence. assert (a2 = arr') as -> by congruence. rewrite H3. naive_solver.
  - by assert (arr = arr') as -> by congruence.
Qed.

Lemma digest_assigned_has num key k a b arr :
  digest_assigned num key k a b -> json_object_object_get_ex a "keyslots" = Some arr ->
  exists arr', json_object_object_get_ex b "keyslots" = Some arr'.
Proof.
  intros [[-> (_ & _ & a1 & a2 & H1 & H2 & _)]|[_ ->]] Ha; eauto.
Qed.

(** A digest of the changed section, seen through its references. *)
Lemma assigned_member D D1 num key k b :
  changed (digest_assigned num key) (json_object_entries D) (json_object_entries D1) ->
  (forall k v, (k, v) ∈ json_object_entries D -> exists arr, array_at v "keyslots" arr /\ num ∉ refs arr) ->
  (k, b) ∈ json_object_entries D1 ->
  is_Some (LUKS2_array_jobj (json_get b "keyslots") num) <-> k = key.
Proof.
  intros Hc Hno Hin. destruct (changed_in _ _ _ _ _ Hc Hin) as (a & Ha & Hab).
  destruct (Hno k a Ha) as (arr & [Harr _] & Hn). destruct Hab as [[-> (_ & _ & a1 & a2 & H1 & H2 & _ & _ & H3)]|[Hne ->]].
  - rewrite (get_json_get _ _ _ H2), array_jobj_refs, H3. naive_solver.
  - rewrite (get_json_get _ _ _ Harr), array_jobj_refs. naive_solver.
Qed.

Lemma assigned_count J1 D D1 d num :
  json_object_object_get_ex J1 "digests" = Some D1 -> dec_u32 d ∈ (json_object_entries D).*1 ->
  changed (digest_assigned (dec_u32 num) (dec_u32 d)) (json_object_entries D) (json_object_entries D1) ->
  (forall k v, (k, v) ∈ json_object_entries D -> exists arr, array_at v "keyslots" arr /\ dec_u32 num ∉ refs arr) ->
  LUKS2_get_keyslot_digests_count J1 num = 1.
Proof.
  intros HD1 Hd Hc Hno. unfold LUKS2_get_keyslot_digests_count. rewrite HD1. unfold zlen.
  rewrite <-(changed_keys _ _ _ Hc) in Hd. apply list_elem_of_fmap in Hd as ([key b] & Hkey & Hin).
  cbn [fst] in Hkey. subst key. erewrite filter_one; [done|apply entries_nodup|exact Hin|]. intros k a Hka. cbn [fst snd].
  exact (assigned_member D D1 (dec_u32 num) (dec_u32 d) k a Hc Hno Hka).
Qed.

Lemma assigned_count_other J J1 D D1 d num i :
  json_object_object_get_ex J "digests" = Some D -> json_object_object_get_ex J1 "digests" = Some D1 ->
  changed (digest_assigned num (dec_u32 d)) (json_object_entries D) (json_object_entries D1) ->
  (forall k v, (k, v) ∈ json_object_entries D -> exists arr, array_at v "keyslots" arr) ->
  dec_u32 i <> num -> LUKS2_get_keyslot_digests_count J1 i = LUKS2_get_keyslot_digests_count J i.
Proof.
  intros HD HD1 Hc Hno Hi. unfold LUKS2_get_keyslot_digests_count. rewrite HD, HD1. unfold zlen. f_equal.
  apply (filter_changed (R := fun k a b => digest_assigned num (dec_u32 d) k a b /\ exists arr, array_at a "keyslots" arr)).
  - eapply changed_impl; [|exact Hc]. intros k a b Hin Hab. split; [done|]. by apply (Hno k).
  - intros k a b [Hab (arr & Ha & _)]. destruct (digest_assigned_has _ _ _ _ _ _ Hab Ha) as [arr' Hb]. cbn [snd].
    rewrite (get_json_get _ _ _ Ha), (get_json_get _ _ _ Hb), !array_jobj_refs. symmetry.
    by eapply digest_assigned_same.
Qed.

Lemma assigned_has_digest D D1 num key s :
  changed (digest_assigned num key) (json_object_entries D) (json_object_entries D1) ->
  segment_has_digest s D = true -> segment_has_digest s D1 = true.
Proof.
  intros Hc. unfold segment_has_digest. rewrite !existsb_exists. intros ([k v] & Hin & Hv).
  apply list_elem_of_In in Hin. destruct (changed_out _ _ _ _ _ Hc Hin) as (v' & Hin' & Hab).
  exists (k, v'). split; [by apply list_elem_of_In|]. cbn [snd] in *. unfold json_get in *.
  destruct Hab as [[_ (_ & Hother & _)]|[_ ->]]; [by rewrite Hother|done].
Qed.

Lemma digest_by_assigned D D1 d num :
  0 <= d < 2 ^ 31 -> dec_u32 d ∈ (json_object_entries D).*1 ->
  changed (digest_assigned num (dec_u32 d)) (json_object_entries D) (json_object_entries D1) ->
  (forall k v, (k, v) ∈ json_object_entries D -> exists arr, array_at v "keyslots" arr /\ num ∉ refs arr) ->
  digest_by "keyslots" num D1 = d.
Proof.
  intros Hd Hin Hc Hno. unfold digest_by. rewrite <-(changed_keys _ _ _ Hc) in Hin.
  apply list_elem_of_fmap in Hin as ([key b] & Hkey & Hin). cbn [fst] in Hkey. subst key.
  destruct (List.find _ (json_object_entries D1)) as [[k a]|] eqn:E.
  - apply List.find_some in E as [Hka Hs]. apply list_elem_of_In in Hka. apply bool_decide_eq_true in Hs. cbn [snd] in Hs.
    apply (assigned_member D D1 num (dec_u32 d) k a Hc Hno Hka) in Hs. subst k. by apply atoi_dec_u32.
  - eapply List.find_none in E; [|by apply list_elem_of_In]. cbv beta in E. apply bool_decide_eq_false in E.
    destruct E. by apply (assigned_member D D1 num (dec_u32 d) (dec_u32 d) b Hc Hno Hin).
Qed.

(** A keyslot that is not there is not referred to. *)
Lemma absent_keyslot hdr K T S D C k n :
  sections (jobj hdr) K T S D C -> valid_parts (jobj hdr) K T S D n -> 0 <= k ->
  LUKS2_get_keyslot_jobj hdr k = None ->
  json_object_object_get_ex K (dec_u32 k) = None /\
  forall key v, (key, v) ∈ json_object_entries D -> exists arr, array_at v "keyslots" arr /\ dec_u32 k ∉ refs arr.
Proof.
  intros HJ V Hk Hnone.
  assert (Hnew : json_object_object_get_ex K (dec_u32 k) = None).
  { rewrite (get_keyslot_sections hdr K T S D C k HJ) in Hnone by done.
    destruct (json_object_object_get_ex K (dec_u32 k)) as [v|] eqn:E; [|done]. exfalso.
    pose proof E as Hin. apply entries_lookup in Hin. destruct (vp_keyslots _ _ _ _ _ _ V _ _ Hin) as [_ Hv].
    unfold LUKS2_keyslot_validate in Hv. destruct (has v "type" json_type_string) eqn:Eh; [|done].
    apply has_get in Eh as (o & Ho & _). apply get_ex_type in Ho.
    rewrite (get_ptr_object K (dec_u32 k) v E) in Hnone by congruence. done. }
  split; [done|]. intros key v Hin. destruct (vp_digests _ _ _ _ _ _ V _ _ Hin) as (_ & (_ & arr & Ha & Hr) & _).
  exists arr. split; [done|]. intros Href. apply list_elem_of_fmap in Href as (x & Hx & Hx').
  destruct (Hr x Hx') as (_ & o & Ho & _). rewrite <-Hx in Ho. congruence.
Qed.

Lemma keyslot_alloc_parts hdr J2 K T S D D1 C n k d klen offset len ks :
  n = hdr_size hdr -64 LUKS2_HDR_BIN_LEN -> LUKS2_hdr_validate (jobj hdr) n = 0 ->
  in_u 64 (hdr_size hdr) -> areas_no_wrap hdr -> keyslot_ids K -> 0 <= k < LUKS2_KEYSLOTS_MAX ->
  0 < klen < 2 ^ 31 -> LUKS2_get_keyslot_jobj hdr k = None ->
  sections (jobj hdr) K T S D C -> valid_parts (jobj hdr) K T S D n ->
  dec_u32 d ∈ (json_object_entries D).*1 ->
  changed (digest_assigned (dec_u32 k) (dec_u32 d)) (json_object_entries D) (json_object_entries D1) ->
  LUKS2_find_area_gap hdr klen = (0, offset, len) -> keyslot_fine ks klen offset len ->
  sections J2 (json_object_object_add K (dec_u32 k) ks) T S D1 C -> hdr_validate_json_size J2 n = 0 ->
  valid_parts J2 (json_object_object_add K (dec_u32 k) ks) T S D1 n.
Proof.
  intros -> Hv Hu Hnw Hids Hk Hkl Hnone HJ V Hd Hc Hgap [F1 F2 F3 F4] HJ2 Hsz. destruct Hids as [HtK Hids']. unfold LUKS2_KEYSLOTS_MAX in *.
  destruct (absent_keyslot hdr K T S D C k _ HJ V ltac:(lia) Hnone) as [Hnew Hno].
  assert (Hks : json_object_get_type ks = json_type_object) by (by eapply get_ex_type).
  assert (Hmono : forall s o, json_object_object_get_ex K s = Some o ->
    json_object_object_get_ex (json_object_object_add K (dec_u32 k) ks) s = Some o).
  { intros s o Hs. rewrite get_ex_add_other; [done..|]. intros ->. congruence. }
  pose proof (get_ex_add_same K (dec_u32 k) ks HtK) as Hget.
  assert (Hin2 : forall key v, (key, v) ∈ json_object_entries (json_object_object_add K (dec_u32 k) ks) ->
    (key, v) ∈ json_object_entries K \/ (key = dec_u32 k /\ v = ks)).
  { intros key v Hin. rewrite object_add_entries_new in Hin by done. apply elem_of_app in Hin as [?|Hin]; [by left|].
    apply list_elem_of_singleton in Hin as [= -> ->]. by right. }
  destruct HJ as [Ht HK HT HS HD HC]. destruct HJ2 as [Ht2 HK2 HT2 HS2 HD2 HC2]. split.
  - intros key v Hin. destruct (vp_tokens _ _ _ _ _ _ V _ _ Hin) as [H1 H2]. split; [done|]. by eapply refers_to_mono.
  - intros key v' Hin. destruct (changed_in _ _ _ _ _ Hc Hin) as (v & Hin0 & Hab).
    destruct (vp_digests _ _ _ _ _ _ V _ _ Hin0) as (H1 & H2 & arr & [Ha Hta] & Hr). split; [done|].
    destruct Hab as [[_ Has]|[_ ->]].
    + split; [by eapply refers_to_assigned|]. exists arr. destruct Has as (_ & Hother & _). split; [|done].
      split; [by rewrite Hother|done].
    + split; [by eapply refers_to_mono|]. by exists arr.
  - eapply (hdr_validate_segments_mono (jobj hdr) J2); [by rewrite HS2|exact HD|exact HD2| |exact (vp_segments _ _ _ _ _ _ V)].
    intros key. by eapply assigned_has_digest.
  - intros key v [Hin|[-> ->]]%Hin2; [exact (vp_keyslots _ _ _ _ _ _ V _ _ Hin)|]. split; [apply numbered_dec_u32|].
    unfold LUKS2_keyslot_validate. rewrite (proj2 (has_get ks "type" json_type_string)) by (eexists; split; [exact F1|apply new_string_type]).
    cbn [negb]. rewrite (contains_get _ _ _ _ F2) by apply new_int_type. by rewrite new_int_uint32 by lia.
  - rewrite (hdr_validate_config_ext (jobj hdr)) by congruence. exact (vp_config _ _ _ _ _ _ V).
  - eapply (areas_ok_add hdr); try done; [split; lia|exact (vp_areas _ _ _ _ _ _ V)|by rewrite HC2].
  - done.
  - intros key v [Hin|[-> ->]]%Hin2.
    + rewrite (keyslot_ok_ext (jobj hdr)); [exact (vp_handlers _ _ _ _ _ _ V _ _ Hin)|].
      eapply assigned_count_other; [exact HD|exact HD2|exact Hc|..].
      * intros k' v' Hin'. destruct (Hno k' v' Hin') as (arr & ? & _). by exists arr.
      * destruct (Hids' _ _ Hin) as [Hkey _]. rewrite <-Hkey. intros ->. apply entries_get in Hin. congruence.
    + unfold keyslot_ok. rewrite (get_json_get _ _ _ F1), new_string_get.
      change (LUKS2_keyslot_handler_type "luks2") with (Some luks2_keyslot). cbn [kh_validate luks2_keyslot].
      rewrite F3, atoi_dec_u32 by lia. rewrite (assigned_count J2 D D1 d k HD2 Hd Hc Hno). by rewrite andb_false_r.
Qed.

(** C19: Allocating a keyslot in a valid header, after its assignment to an
    existing digest (as the callers of [LUKS2_keyslot_store] do): when both
    succeed, the header is valid again, the keyslot belongs to that digest and
    no other keyslot changed. The area found does not meet the others because
    the ids of all keyslots are below [LUKS2_KEYSLOTS_MAX] and no area wraps. *)
Theorem keyslot_alloc_valid env hdr hdr1 hdr2 k d klen params pbkdf :
  let n := hdr_size hdr -64 LUKS2_HDR_BIN_LEN in
  LUKS2_hdr_validate (jobj hdr) n = 0 -> in_u 64 (hdr_size hdr) -> areas_no_wrap hdr ->
  keyslot_ids (json_get (jobj hdr) "keyslots") ->
  0 <= k < LUKS2_KEYSLOTS_MAX -> 0 <= d < LUKS2_DIGEST_MAX -> 0 < klen < 2 ^ 31 ->
  LUKS2_get_keyslot_jobj hdr k = None ->
  LUKS2_digest_assign_jobj hdr k d true = (0, hdr1) ->
  luks2_keyslot_alloc env hdr1 k klen (Some params) = Some (0, hdr2, pbkdf) ->
  LUKS2_hdr_validate (jobj hdr2) n = 0 /\ LUKS2_digest_by_keyslot hdr2 k = d /\
  is_Some (LUKS2_get_keyslot_jobj hdr2 k) /\
  forall i, 0 <= i < LUKS2_KEYSLOTS_MAX -> i <> k -> LUKS2_get_keyslot_jobj hdr2 i = LUKS2_get_keyslot_jobj hdr i.
Proof.
  intros n Hv Hu Hnw Hids Hk Hd Hkl Hnone Has Hal. unfold LUKS2_KEYSLOTS_MAX, LUKS2_DIGEST_MAX in *.
  destruct (valid_parts_inv _ _ Hv) as (K & T & S & D & C & HJ & V).
  destruct (digest_assign_sections hdr K T S D C k d hdr1 n HJ V ltac:(lia) ltac:(lia) Has) as (D1 & HJ1 & Hsz1 & Hin & Hc).
  rewrite (get_json_get _ _ _ (sc_keyslots _ _ _ _ _ _ HJ)) in Hids.
  destruct (keyslot_alloc_inv env hdr1 k klen params hdr2 pbkdf Hk Hal) as (r & offset & len & ks & Hgap & Hr & Hup & Hh2 & Hsz & _).
  pose proof HJ as HJ'. destruct HJ as [Ht HK HT HS HD HC]. pose proof HJ1 as HJ1'. destruct HJ1 as [Ht1 HK1 HT1 HS1 HD1 HC1].
  rewrite (find_area_gap_ext hdr hdr1) in Hgap by congruence.
  pose proof (validate_areas_valid hdr Hv Hu Hnw) as Hav.
  assert (Hkl' : keylength_ok klen) by (split; lia).
  destruct (find_area_gap_scan hdr klen Hav Hkl') as (o & Ho & _ & _ & _ & E). rewrite E in Hgap.
  destruct (get_area_size_spec klen Hkl') as (_ & _ & Hlen). pose proof (av_min hdr Hav). pose proof (av_max hdr Hav).
  destruct (Z.ltb_spec (get_max_offset hdr) (o + get_area_size klen)); [injection Hgap as <- _ _; done|].
  injection Hgap as <- <- <-.
  pose proof (keyslot_update_json_new env klen o (get_area_size klen) params ks pbkdf ltac:(unfold in_u; lia) ltac:(unfold in_u; lia) Hup) as Hfine.
  destruct (absent_keyslot hdr K T S D C k _ HJ' V ltac:(lia) Hnone) as [Hnew Hno].
  pose proof Hids as [HtK _].
  destruct (update_section_spec hdr1 "keyslots" (fun s => json_object_object_add_by_uint s k ks) K HK1) as [(B1 & B2 & B3) B4].
  change (update_section hdr1 "keyslots" _) with (set_member hdr1 "keyslots" k ks) in B1, B2, B3, B4.
  rewrite <-Hh2 in B1, B2, B3, B4. unfold json_object_object_add_by_uint in B4.
  assert (HJ2 : sections (jobj hdr2) (json_object_object_add K (dec_u32 k) ks) T S D1 C).
  { split; [exact B2|exact B4|..]; rewrite B3 by done; done. }
  assert (Hn2 : hdr_validate_json_size (jobj hdr2) n = 0).
  { assert (Es : hdr_size hdr2 = hdr_size hdr) by (rewrite B1; exact Hsz1).
    unfold LUKS2_check_json_size in Hsz. rewrite Es in Hsz. exact Hsz. }
  split; [|split; [|split]].
  - eapply valid_parts_intro; [exact HJ2|]. eapply keyslot_alloc_parts; done.
  - rewrite (digest_by_keyslot_sections _ _ _ _ _ _ _ HJ2). eapply digest_by_assigned; [lia|exact Hin|exact Hc|exact Hno].
  - rewrite (get_keyslot_sections _ _ _ _ _ _ k HJ2) by lia. exists ks. apply get_ptr_object.
    + by apply get_ex_add_same.
    + pose proof (get_ex_type _ _ _ (kf_type _ _ _ _ Hfine)). congruence.
  - intros i Hi Hne. unfold LUKS2_KEYSLOTS_MAX in Hi. rewrite (get_keyslot_sections _ _ _ _ _ _ i HJ2), (get_keyslot_sections _ _ _ _ _ _ i HJ') by lia.
    unfold json_get_ptr. rewrite get_ex_add_other; [done..|]. intros Ei%dec_u32_inj; lia.
Qed.
End alloc.

(** ** Example *)

Definition fx_kdf_env : kdf_env :=
  KdfEnv (PbkdfType (Some "pbkdf2") (Some "sha256") 0 1000 0 0 CRYPT_PBKDF_NO_BENCHMARK) [] (0, zeros 32).
Definition fx_params : luks2_keyslot_params := KeyslotParams 0 0 "sha256" 4000 "aes-xts-plain64" 64.
Definition fx_assigned := LUKS2_digest_assign_jobj (fx_hdr [] 1 fx_two) 2 0 true.
Definition fx_alloc := luks2_keyslot_alloc fx_kdf_env (snd fx_assigned) 2 64 (Some fx_params).
Definition fx_alloc_hdr : @luks2_hdr (jtree_json []) :=
  match fx_alloc with Some (_, h, _) => h | None => fx_hdr [] 1 fx_two end.
Definition fx_alloc_pbkdf : crypt_pbkdf_type :=
  match fx_alloc with Some (_, _, p) => p | None => ke_pbkdf fx_kdf_env end.

Lemma fx_alloc_some :
  (fun x => fst (fst x)) <$> fx_alloc = Some 0 -> fx_alloc = Some (0, fx_alloc_hdr, fx_alloc_pbkdf).
Proof. unfold fx_alloc_hdr, fx_alloc_pbkdf. destruct fx_alloc as [[[r h] p]|]; [|done]. intros [= ->]. done. Qed.

Lemma fx_assigned_pair : fst fx_assigned = 0 -> fx_assigned = (0, snd fx_assigned).
Proof. destruct fx_assigned as [r h]. by intros [= ->]. Qed.

Lemma keyslot_alloc_valid_witness :
  LUKS2_hdr_validate (jobj fx_alloc_hdr) 12288 = 0 /\ LUKS2_digest_by_keyslot fx_alloc_hdr 2 = 0.
Proof.
  destruct (keyslot_alloc_valid fx_kdf_env (fx_hdr [] 1 fx_two) (snd fx_assigned) fx_alloc_hdr 2 0 64 fx_params fx_alloc_pbkdf)
    as (H1 & H2 & _).
  - vm_compute. reflexivity.
  - split; vm_compute; congruence.
  - apply area_no_wrap_b_ok. vm_compute. reflexivity.
  - split; [vm_compute; reflexivity|]. intros key v Hin. vm_compute in Hin.
    repeat (apply elem_of_cons in Hin as [[= -> ->]|Hin]; [split; [reflexivity|split; vm_compute; congruence]|]).
    apply elem_of_nil in Hin. destruct Hin.
  - split; vm_compute; congruence.
  - split; vm_compute; congruence.
  - split; vm_compute; congruence.
  - vm_compute. reflexivity.
  - apply fx_assigned_pair. vm_compute. reflexivity.
  - apply fx_alloc_some. vm_compute. reflexivity.
  - exact (conj H1 H2).
Defined.
