(* ===== verification/Luks2Reencrypt.v ===== *)
(** * Luks2Reencrypt: metadata of the online reencryption
    (lib/luks2/luks2_reencrypt.c)

    A reencryption walks over the data in hotzones. Before a hotzone is
    rewritten the header names it in its "hot" segments; when it is done the
    "post" segments take their place. This file has the context
    [luks2_reencrypt], the segments of every step, the choice of offset and
    length, and the changes of the JSON header; [Luks2ReencryptData] moves the
    data. A pointer that may be NULL is an option; json-c objects shared
    between the context and the header are values, since no shared segment is
    modified in place. *)

From S2P Require Import Prelude Cstd JsonC Luks2Json Luks2Keyslot Luks2Edit Luks2Areas Luks2Format.

Definition LUKS2_DEFAULT_NONE_REENCRYPTION_LENGTH : Z := 0x1400000.
Definition LUKS2_REENCRYPT_MAX_HOTZONE_LENGTH : Z := 0x40000000.
Definition LUKS2_CHECKSUM_ALG_L : Z := 32.

Inductive reenc_protection :=
| REENC_PROTECTION_NONE
| REENC_PROTECTION_CHECKSUM (hash : string) (hash_size : Z)
| REENC_PROTECTION_JOURNAL
| REENC_PROTECTION_DATASHIFT.

Definition is_checksum (rp : reenc_protection) : bool :=
  match rp with REENC_PROTECTION_CHECKSUM _ _ => true | _ => false end.
Definition is_none_protection (rp : reenc_protection) : bool :=
  match rp with REENC_PROTECTION_NONE => true | _ => false end.

Record luks2_reencrypt `{JC : JsonC} := {
  rh_offset : Z;
  rh_progress : Z;
  rh_length : Z;
  rh_data_shift : Z;
  rh_alignment : Z;
  rh_device_size : Z;
  rh_fixed_length : bool;
  rh_direction : crypt_reencrypt_direction_info;
  rh_mode : crypt_reencrypt_mode_info;
  rh_rp : reenc_protection;
  rh_reenc_keyslot : Z;
  rh_segs_hot : option json;
  rh_segs_post : option json;
  rh_segment_new : option json;
  rh_digest_new : Z;
  rh_segment_old : option json;
  rh_digest_old : Z;
  rh_segment_moved : option json;
  rh_read : Z;
}.

#[export] Instance direction_eq_dec : EqDecision crypt_reencrypt_direction_info.
Proof. solve_decision. Defined.
#[export] Instance mode_eq_dec : EqDecision crypt_reencrypt_mode_info.
Proof. solve_decision. Defined.

(** What the functions ask of the device and the system. *)
Record reenc_env := {
  re_iv_offset : Z;            (** crypt_get_iv_offset, in sectors *)
  re_block_size : Z;           (** device_block_size of the data device *)
  re_physmemory_kb : Z;        (** crypt_getphysmemory_kb *)
  re_optimal_alignment : Z -> Z; (** device_topology_alignment for a length *)
  re_crypt_hash_size : string -> Z;
  re_header_attached : bool;   (** metadata and data device are the same *)
}.

Section reencrypt.
Context `{JC : JsonC}.
Implicit Types hdr : luks2_hdr.
Implicit Types rh : luks2_reencrypt.

(** ** The keyslot and the backup segments in the header *)

(** Only the keyslot's area is changed, in memory. *)
Definition reencrypt_keyslot_update hdr rh : Z * luks2_hdr :=
  match LUKS2_get_keyslot_jobj hdr (rh_reenc_keyslot rh) with
  | None => (- EINVAL, hdr)
  | Some jobj_keyslot =>
      let area := json_get jobj_keyslot "area" in
      let put area := set_member hdr "keyslots" (rh_reenc_keyslot rh)
                        (json_object_object_add jobj_keyslot "area" area) in
      match rh_rp rh with
      | REENC_PROTECTION_CHECKSUM hash _ =>
          let area := json_object_object_add area "type" (json_object_new_string "checksum") in
          let area := json_object_object_add area "hash" (json_object_new_string hash) in
          (0, put (json_object_object_add area "sector_size" (json_object_new_int64 (rh_alignment rh))))
      | REENC_PROTECTION_NONE =>
          let area := json_object_object_add area "type" (json_object_new_string "none") in
          (0, put (json_object_object_del area "hash"))
      | REENC_PROTECTION_JOURNAL =>
          let area := json_object_object_add area "type" (json_object_new_string "journal") in
          (0, put (json_object_object_del area "hash"))
      | REENC_PROTECTION_DATASHIFT => (0, hdr)
      end
  end.

Definition reencrypt_segment hdr (new : bool) : option json :=
  LUKS2_get_segment_by_flag hdr (if new then "backup-final" else "backup-previous").

Definition reencrypt_segment_cipher_new hdr : string := json_segment_get_cipher (reencrypt_segment hdr true).
Definition reencrypt_segment_cipher_old hdr : string := json_segment_get_cipher (reencrypt_segment hdr false).
Definition reencrypt_get_sector_size_new hdr : Z := json_segment_get_sector_size (reencrypt_segment hdr true).
Definition reencrypt_get_sector_size_old hdr : Z := json_segment_get_sector_size (reencrypt_segment hdr false).

Definition reencrypt_data_offset hdr (new : bool) : Z :=
  match reencrypt_segment hdr new with
  | Some j => json_segment_get_offset (Some j) false
  | None => u64 (Z.shiftl (LUKS2_get_data_offset hdr) SECTOR_SHIFT)
  end.

Definition LUKS2_reencrypt_get_data_offset_moved hdr : Z :=
  match LUKS2_get_segment_by_flag hdr "backup-moved-segment" with
  | None => 0
  | Some j => json_segment_get_offset (Some j) false
  end.

Definition reencrypt_get_data_offset_new hdr : Z := reencrypt_data_offset hdr true.
Definition reencrypt_get_data_offset_old hdr : Z := reencrypt_data_offset hdr false.

Definition reencrypt_digest hdr (new : bool) : Z :=
  let segment := LUKS2_get_segment_id_by_flag hdr (if new then "backup-final" else "backup-previous") in
  if segment <? 0 then segment else LUKS2_digest_by_segment hdr segment.

Definition LUKS2_reencrypt_digest_new hdr : Z := reencrypt_digest hdr true.
Definition LUKS2_reencrypt_digest_old hdr : Z := reencrypt_digest hdr false.

(** The area of the keyslot of type "reencrypt". *)
Definition reencrypt_area hdr : option json :=
  let ks := LUKS2_find_keyslot hdr "reencrypt" in
  if ks <? 0 then None
  else jobj_keyslot ← LUKS2_get_keyslot_jobj hdr ks; Some (json_get jobj_keyslot "area").

Definition reencrypt_resilience_type hdr : option string :=
  area ← reencrypt_area hdr;
  json_object_get_string <$> json_object_object_get_ex area "type".

Definition reencrypt_resilience_hash hdr : option string :=
  area ← reencrypt_area hdr;
  type ← json_object_object_get_ex area "type";
  if bool_decide (json_object_get_string type = "checksum"%string)
  then json_object_get_string <$> json_object_object_get_ex area "hash" else None.

Definition reencrypt_alignment hdr : Z :=
  match reencrypt_area hdr with
  | None => 0
  | Some area =>
      match json_object_object_get_ex area "type", json_object_object_get_ex area "hash",
            json_object_object_get_ex area "sector_size" with
      | Some type, Some _, Some sector_size =>
          if bool_decide (json_object_get_string type = "checksum"%string)
          then crypt_jobj_get_uint32 sector_size else 0
      | _, _, _ => 0
      end
  end.

Definition reencrypt_data_shift hdr : Z :=
  match reencrypt_area hdr ≫= (fun area => json_object_object_get_ex area "shift_size") with
  | None => 0
  | Some j => crypt_jobj_get_uint64 j
  end.

Definition reencrypt_mode hdr : crypt_reencrypt_mode_info :=
  match LUKS2_get_keyslot_jobj hdr (LUKS2_find_keyslot hdr "reencrypt") with
  | None => CRYPT_REENCRYPT_REENCRYPT
  | Some jobj_keyslot =>
      let mode := json_object_get_string (json_get jobj_keyslot "mode") in
      if bool_decide (mode = "encrypt"%string) then CRYPT_REENCRYPT_ENCRYPT
      else if bool_decide (mode = "decrypt"%string) then CRYPT_REENCRYPT_DECRYPT
      else CRYPT_REENCRYPT_REENCRYPT
  end.

Definition reencrypt_direction hdr : crypt_reencrypt_direction_info :=
  match LUKS2_get_keyslot_jobj hdr (LUKS2_find_keyslot hdr "reencrypt") with
  | None => CRYPT_REENCRYPT_FORWARD
  | Some jobj_keyslot =>
      if bool_decide (json_object_get_string (json_get jobj_keyslot "direction") = "forward"%string)
      then CRYPT_REENCRYPT_FORWARD else CRYPT_REENCRYPT_BACKWARD
  end.

(** ** The segments of a step *)

Definition set_segs_hot rh (j : option json) : luks2_reencrypt := {|
  rh_offset := rh_offset rh; rh_progress := rh_progress rh; rh_length := rh_length rh;
  rh_data_shift := rh_data_shift rh; rh_alignment := rh_alignment rh;
  rh_device_size := rh_device_size rh; rh_fixed_length := rh_fixed_length rh;
  rh_direction := rh_direction rh; rh_mode := rh_mode rh; rh_rp := rh_rp rh;
  rh_reenc_keyslot := rh_reenc_keyslot rh; rh_segs_hot := j; rh_segs_post := rh_segs_post rh;
  rh_segment_new := rh_segment_new rh; rh_digest_new := rh_digest_new rh;
  rh_segment_old := rh_segment_old rh; rh_digest_old := rh_digest_old rh;
  rh_segment_moved := rh_segment_moved rh; rh_read := rh_read rh |}.

Definition set_segs_post rh (j : option json) : luks2_reencrypt := {|
  rh_offset := rh_offset rh; rh_progress := rh_progress rh; rh_length := rh_length rh;
  rh_data_shift := rh_data_shift rh; rh_alignment := rh_alignment rh;
  rh_device_size := rh_device_size rh; rh_fixed_length := rh_fixed_length rh;
  rh_direction := rh_direction rh; rh_mode := rh_mode rh; rh_rp := rh_rp rh;
  rh_reenc_keyslot := rh_reenc_keyslot rh; rh_segs_hot := rh_segs_hot rh; rh_segs_post := j;
  rh_segment_new := rh_segment_new rh; rh_digest_new := rh_digest_new rh;
  rh_segment_old := rh_segment_old rh; rh_digest_old := rh_digest_old rh;
  rh_segment_moved := rh_segment_moved rh; rh_read := rh_read rh |}.

Definition set_window rh (offset length progress : Z) : luks2_reencrypt := {|
  rh_offset := offset; rh_progress := progress; rh_length := length;
  rh_data_shift := rh_data_shift rh; rh_alignment := rh_alignment rh;
  rh_device_size := rh_device_size rh; rh_fixed_length := rh_fixed_length rh;
  rh_direction := rh_direction rh; rh_mode := rh_mode rh; rh_rp := rh_rp rh;
  rh_reenc_keyslot := rh_reenc_keyslot rh; rh_segs_hot := rh_segs_hot rh; rh_segs_post := rh_segs_post rh;
  rh_segment_new := rh_segment_new rh; rh_digest_new := rh_digest_new rh;
  rh_segment_old := rh_segment_old rh; rh_digest_old := rh_digest_old rh;
  rh_segment_moved := rh_segment_moved rh; rh_read := rh_read rh |}.

Definition set_read rh (read : Z) : luks2_reencrypt := {|
  rh_offset := rh_offset rh; rh_progress := rh_progress rh; rh_length := rh_length rh;
  rh_data_shift := rh_data_shift rh; rh_alignment := rh_alignment rh;
  rh_device_size := rh_device_size rh; rh_fixed_length := rh_fixed_length rh;
  rh_direction := rh_direction rh; rh_mode := rh_mode rh; rh_rp := rh_rp rh;
  rh_reenc_keyslot := rh_reenc_keyslot rh; rh_segs_hot := rh_segs_hot rh; rh_segs_post := rh_segs_post rh;
  rh_segment_new := rh_segment_new rh; rh_digest_new := rh_digest_new rh;
  rh_segment_old := rh_segment_old rh; rh_digest_old := rh_digest_old rh;
  rh_segment_moved := rh_segment_moved rh; rh_read := read |}.

Definition set_alignment rh (alignment : Z) : luks2_reencrypt := {|
  rh_offset := rh_offset rh; rh_progress := rh_progress rh; rh_length := rh_length rh;
  rh_data_shift := rh_data_shift rh; rh_alignment := alignment;
  rh_device_size := rh_device_size rh; rh_fixed_length := rh_fixed_length rh;
  rh_direction := rh_direction rh; rh_mode := rh_mode rh; rh_rp := rh_rp rh;
  rh_reenc_keyslot := rh_reenc_keyslot rh; rh_segs_hot := rh_segs_hot rh; rh_segs_post := rh_segs_post rh;
  rh_segment_new := rh_segment_new rh; rh_digest_new := rh_digest_new rh;
  rh_segment_old := rh_segment_old rh; rh_digest_old := rh_digest_old rh;
  rh_segment_moved := rh_segment_moved rh; rh_read := rh_read rh |}.

(** The segments [i], [i + 1], ... ([n] of them), put into [segs] under their
    numbers; [None] when one is missing. *)
Fixpoint copy_segments (n : nat) (i : Z) (get : Z -> option json) (segs : json) : option json :=
  match n with
  | O => Some segs
  | S n' =>
      j ← get i;
      copy_segments n' (i + 1) get (json_object_object_add_by_uint segs i j)
  end.

Definition _enc_create_segments_shift_after rh (data_offset : Z) : option json :=
  hot ← rh_segs_hot rh;
  if json_segments_count (Some hot) =? 0 then Some json_object_new_object
  else
    let reenc_seg := json_segments_segment_in_reencrypt hot in
    if reenc_seg <? 0 then None
    else
      post ← copy_segments (Z.to_nat reenc_seg) 0 (json_segments_get_segment hot) json_object_new_object;
      '(seg, tmp) ←
        match json_segments_get_segment hot (reenc_seg + 1) with
        | None =>
            j ← json_segments_get_segment hot reenc_seg;
            Some (json_segment_remove_flag j "in-reencryption", rh_length rh)
        | Some j =>
            let seg := json_object_object_add j "offset"
                         (crypt_jobj_new_uint64 (rh_offset rh +64 data_offset)) in
            let seg := json_object_object_add seg "iv_tweak"
                         (crypt_jobj_new_uint64 (Z.shiftr (rh_offset rh) SECTOR_SHIFT)) in
            Some (seg, json_segment_get_size (Some seg) false +64 rh_length rh)
        end;
      let seg := json_object_object_add seg "size"
                   (if 0 <? reenc_seg then crypt_jobj_new_uint64 tmp
                    else json_object_new_string "dynamic") in
      Some (json_object_object_add_by_uint post reenc_seg seg).

Definition reencrypt_make_hot_segments_encrypt_shift hdr rh (data_offset : Z) : option json :=
  let crypt_seg := LUKS2_segment_by_type hdr "crypt" in
  let sg := LUKS2_last_segment_by_type hdr "linear" in
  if negb (rh_offset rh =? 0) && (sg <? 0) then None
  else if sg <? 0 then Some json_object_new_object
  else
    let enc_seg := json_segment_create_crypt (data_offset +64 rh_offset rh)
                     (Z.shiftr (rh_offset rh) SECTOR_SHIFT) (Some (rh_length rh))
                     (reencrypt_segment_cipher_new hdr) (reencrypt_get_sector_size_new hdr) true in
    hot ← copy_segments (Z.to_nat sg) 0 (LUKS2_get_segment_jobj hdr) json_object_new_object;
    let segment_size := LUKS2_segment_size hdr sg false in
    '(hot, sg) ←
      (if rh_length rh <? segment_size then
         j ← LUKS2_get_segment_jobj hdr sg;
         let shrunk := json_object_object_add j "size"
                         (crypt_jobj_new_uint64 (segment_size -64 rh_length rh)) in
         Some (json_object_object_add_by_uint hot sg shrunk, sg + 1)
       else Some (hot, sg));
    let hot := json_object_object_add_by_uint hot sg enc_seg in
    let sg := sg + 1 in
    if 0 <=? crypt_seg then
      j ← LUKS2_get_segment_jobj hdr crypt_seg;
      Some (json_object_object_add_by_uint hot sg j)
    else Some hot.

Section env.
Variable env : reenc_env.

(** [reencrypt_make_segment_new] and [_reencrypt]: the segment with the new
    encryption, marked when it is the hotzone. *)
Definition make_new hdr rh (data_offset segment_offset iv_offset : Z) (segment_length : option Z)
    (in_reencryption : bool) : json :=
  match rh_mode rh with
  | CRYPT_REENCRYPT_REENCRYPT | CRYPT_REENCRYPT_ENCRYPT =>
      json_segment_create_crypt (data_offset +64 segment_offset)
        (re_iv_offset env +64 Z.shiftr iv_offset SECTOR_SHIFT) segment_length
        (reencrypt_segment_cipher_new hdr) (reencrypt_get_sector_size_new hdr) in_reencryption
  | CRYPT_REENCRYPT_DECRYPT =>
      json_segment_create_linear (data_offset +64 segment_offset) segment_length in_reencryption
  end.

Definition reencrypt_make_segment_new hdr rh data_offset segment_offset iv_offset segment_length : json :=
  make_new hdr rh data_offset segment_offset iv_offset segment_length false.
Definition reencrypt_make_segment_reencrypt hdr rh data_offset segment_offset iv_offset segment_length : json :=
  make_new hdr rh data_offset segment_offset iv_offset segment_length true.

Definition reencrypt_make_segment_old hdr rh (data_offset segment_offset : Z) (segment_length : option Z) : json :=
  match rh_mode rh with
  | CRYPT_REENCRYPT_REENCRYPT | CRYPT_REENCRYPT_DECRYPT =>
      json_segment_create_crypt (data_offset +64 segment_offset)
        (re_iv_offset env +64 Z.shiftr segment_offset SECTOR_SHIFT) segment_length
        (reencrypt_segment_cipher_old hdr) (reencrypt_get_sector_size_old hdr) false
  | CRYPT_REENCRYPT_ENCRYPT =>
      json_segment_create_linear (data_offset +64 segment_offset) segment_length false
  end.

Definition reencrypt_make_hot_segments_forward hdr rh (device_size data_offset : Z) : option json :=
  let tmp := rh_offset rh +64 rh_length rh in
  let '(hot, sg) :=
    if negb (rh_offset rh =? 0) then
      (json_object_object_add_by_uint json_object_new_object 0
         (reencrypt_make_segment_new hdr rh data_offset 0 0 (Some (rh_offset rh))), 1)
    else (json_object_new_object, 0) in
  let hot := json_object_object_add_by_uint hot sg
    (reencrypt_make_segment_reencrypt hdr rh data_offset (rh_offset rh) (rh_offset rh) (Some (rh_length rh))) in
  if tmp <? device_size then
    let fixed_length := device_size -64 tmp in
    Some (json_object_object_add_by_uint hot (sg + 1)
      (reencrypt_make_segment_old hdr rh (data_offset +64 rh_data_shift rh) (rh_offset rh +64 rh_length rh)
         (if rh_fixed_length rh then Some fixed_length else None)))
  else Some hot.

Definition reencrypt_make_hot_segments_backward hdr rh (device_size data_offset : Z) : option json :=
  let tmp := rh_offset rh +64 rh_length rh in
  '(hot, sg) ←
    (if negb (rh_offset rh =? 0) then
       j ← LUKS2_get_segment_jobj hdr 0;
       let old := json_object_object_add j "size" (crypt_jobj_new_uint64 (rh_offset rh)) in
       Some (json_object_object_add_by_uint json_object_new_object 0 old, 1)
     else Some (json_object_new_object, 0));
  let hot := json_object_object_add_by_uint hot sg
    (reencrypt_make_segment_reencrypt hdr rh data_offset (rh_offset rh) (rh_offset rh) (Some (rh_length rh))) in
  if tmp <? device_size then
    let fixed_length := device_size -64 tmp in
    Some (json_object_object_add_by_uint hot (sg + 1)
      (reencrypt_make_segment_new hdr rh data_offset (rh_offset rh +64 rh_length rh)
         (rh_offset rh +64 rh_length rh) (if rh_fixed_length rh then Some fixed_length else None)))
  else Some hot.

Definition reencrypt_make_post_segments_forward hdr rh (data_offset : Z) : option json :=
  hot ← rh_segs_hot rh;
  let reenc_seg := json_segments_segment_in_reencrypt hot in
  if reenc_seg <? 0 then None
  else
    let fixed_length := rh_offset rh +64 rh_length rh in
    let old := json_segments_get_segment hot (reenc_seg + 1) in
    let post := json_object_object_add_by_uint json_object_new_object 0
      (reencrypt_make_segment_new hdr rh data_offset 0 0
         (match old with Some _ => Some fixed_length | None => None end)) in
    match old with
    | None => Some post
    | Some j =>
        let j := if rh_fixed_length rh
                 then json_object_object_add j "size" (crypt_jobj_new_uint64 (rh_device_size rh -64 fixed_length))
                 else j in
        Some (json_object_object_add_by_uint post 1 j)
    end.

Definition reencrypt_make_post_segments_backward hdr rh (data_offset : Z) : option json :=
  hot ← rh_segs_hot rh;
  let reenc_seg := json_segments_segment_in_reencrypt hot in
  if reenc_seg <? 0 then None
  else
    let post :=
      match json_segments_get_segment hot (reenc_seg - 1) with
      | Some j => json_object_object_add_by_uint json_object_new_object (reenc_seg - 1) j
      | None => json_object_new_object
      end in
    let length := if rh_fixed_length rh && negb (rh_offset rh =? 0)
                  then Some (rh_device_size rh -64 rh_offset rh) else None in
    Some (json_object_object_add_by_uint post reenc_seg
            (reencrypt_make_segment_new hdr rh data_offset (rh_offset rh) (rh_offset rh) length)).

(** Encryption that moves the head of the data. *)
Definition encrypt_with_move rh : bool :=
  bool_decide (rh_mode rh = CRYPT_REENCRYPT_ENCRYPT) &&
  bool_decide (rh_direction rh = CRYPT_REENCRYPT_BACKWARD) &&
  negb (rh_data_shift rh =? 0) && bool_decide (is_Some (rh_segment_moved rh)).

Definition reencrypt_make_hot_segments hdr rh (device_size data_offset : Z) : Z * luks2_reencrypt :=
  let hot :=
    if encrypt_with_move rh then reencrypt_make_hot_segments_encrypt_shift hdr rh data_offset
    else match rh_direction rh with
         | CRYPT_REENCRYPT_FORWARD => reencrypt_make_hot_segments_forward hdr rh device_size data_offset
         | CRYPT_REENCRYPT_BACKWARD => reencrypt_make_hot_segments_backward hdr rh device_size data_offset
         end in
  (match hot with Some _ => 0 | None => - EINVAL end, set_segs_hot rh hot).

Definition reencrypt_make_post_segments hdr rh (data_offset : Z) : Z * luks2_reencrypt :=
  let post :=
    if encrypt_with_move rh then _enc_create_segments_shift_after rh data_offset
    else match rh_direction rh with
         | CRYPT_REENCRYPT_FORWARD => reencrypt_make_post_segments_forward hdr rh data_offset
         | CRYPT_REENCRYPT_BACKWARD => reencrypt_make_post_segments_backward hdr rh data_offset
         end in
  (match post with Some _ => 0 | None => - EINVAL end, set_segs_post rh post).

Definition reencrypt_make_segments hdr rh (device_size : Z) : Z * luks2_reencrypt :=
  let data_offset := reencrypt_get_data_offset_new hdr in
  let '(r, rh) := reencrypt_make_hot_segments hdr rh device_size data_offset in
  if r =? 0 then reencrypt_make_post_segments hdr rh data_offset else (r, rh).

(** [data_offset] is crypt_get_data_offset, in bytes. *)
Definition reencrypt_make_segments_crashed hdr rh (data_offset : Z) : Z * luks2_reencrypt :=
  let hot :=
    match LUKS2_get_segments_jobj hdr with
    | None => json_object_new_object
    | Some segs =>
        fold_left (fun hot kv =>
            if json_segment_is_backup kv.2 then hot else json_object_object_add hot kv.1 kv.2)
          (json_object_entries segs) json_object_new_object
    end in
  let '(r, rh) := reencrypt_make_post_segments hdr (set_segs_hot rh (Some hot)) data_offset in
  (r, if r =? 0 then rh else set_segs_hot rh None).

(** ** Offset and length of the window *)

(** Loop over the segments [sg], [sg + 1], ... of the header. *)
Fixpoint linear_length_loop (n : nat) hdr (sg acc : Z) : Z :=
  match n with
  | O => acc
  | S n' =>
      linear_length_loop n' hdr (sg + 1)
        (if LUKS2_segment_is_type hdr sg "linear" then acc +64 LUKS2_segment_size hdr sg false else acc)
  end.

(** [inl] is the error; otherwise offset and length. *)
Definition reencrypt_offset_backward_moved hdr (jobj_segments : json) (reencrypt_length data_shift : Z) : Z + Z * Z :=
  let segs := json_segments_count (Some jobj_segments) in
  let linear_length := linear_length_loop (Z.to_nat segs) hdr 0 0 in
  if negb (linear_length =? 0) then
    if linear_length <? data_shift then inl (- EINVAL)
    else
      let tmp := linear_length -64 data_shift in
      if negb (tmp =? 0) && (tmp <? data_shift) then inr (data_shift, tmp)
      else inr (tmp, reencrypt_length)
  else if segs =? 1 then inr (0, reencrypt_length)
  else inl (- EINVAL).

Definition _offset_forward (jobj_segments : json) : Z + Z :=
  let segs := json_segments_count (Some jobj_segments) in
  if segs =? 1 then inr 0
  else if segs =? 2 then
    let offset := json_segment_get_size (json_segments_get_segment jobj_segments 0) false in
    if offset =? 0 then inl (- EINVAL) else inr offset
  else inl (- EINVAL).

Definition _offset_backward (jobj_segments : json) (device_size length : Z) : Z + Z * Z :=
  let segs := json_segments_count (Some jobj_segments) in
  if segs =? 1 then
    let length := if device_size <? length then device_size else length in
    inr (device_size -64 length, length)
  else if segs =? 2 then
    let tmp := json_segment_get_size (json_segments_get_segment jobj_segments 0) false in
    let length := if tmp <? length then tmp else length in
    inr (tmp -64 length, length)
  else inl (- EINVAL).

Definition reencrypt_offset hdr (di : crypt_reencrypt_direction_info) (device_size reencrypt_length : Z) : Z + Z * Z :=
  let jobj_segments := json_get (jobj hdr) "segments" in
  let sg := json_segments_segment_in_reencrypt jobj_segments in
  if 0 <=? sg then
    inr (LUKS2_segment_offset hdr sg false -64 reencrypt_get_data_offset_new hdr, reencrypt_length)
  else match di with
  | CRYPT_REENCRYPT_FORWARD =>
      match _offset_forward jobj_segments with
      | inl r => inl r
      | inr offset => inr (offset, reencrypt_length)
      end
  | CRYPT_REENCRYPT_BACKWARD =>
      if bool_decide (reencrypt_mode hdr = CRYPT_REENCRYPT_ENCRYPT) &&
         (0 <=? LUKS2_get_segment_id_by_flag hdr "backup-moved-segment")
      then reencrypt_offset_backward_moved hdr jobj_segments reencrypt_length (reencrypt_data_shift hdr)
      else _offset_backward jobj_segments device_size reencrypt_length
  end.

Definition reencrypt_length hdr (rp : reenc_protection) (alignment keyslot_area_length length_max : Z) : Z :=
  match rp with
  | REENC_PROTECTION_DATASHIFT => reencrypt_data_shift hdr
  | _ =>
      let length :=
        match rp with
        | REENC_PROTECTION_NONE =>
            if length_max =? 0 then LUKS2_DEFAULT_NONE_REENCRYPTION_LENGTH else length_max
        | REENC_PROTECTION_CHECKSUM _ hash_size => (keyslot_area_length / hash_size) *64 alignment
        | _ => keyslot_area_length
        end in
      let length := if LUKS2_REENCRYPT_MAX_HOTZONE_LENGTH <? length
                    then LUKS2_REENCRYPT_MAX_HOTZONE_LENGTH else length in
      let soft_mem_limit := u64 (Z.shiftl (re_physmemory_kb env) 8) in
      let length := if negb (soft_mem_limit =? 0) && (soft_mem_limit <? length)
                    then soft_mem_limit else length in
      let length := if negb (length_max =? 0) && (length_max <? length) then length_max else length in
      let length := length - length mod alignment in
      if length =? 0 then length
      else
        let optimal_alignment := re_optimal_alignment env length in
        if negb (optimal_alignment mod alignment =? 0) then length
        else if optimal_alignment <? length then length - length mod optimal_alignment
        else length
  end.

Definition reencrypt_get_alignment hdr : Z :=
  let alignment := re_block_size env in
  let old := reencrypt_get_sector_size_old hdr in
  let alignment := if (0 <? old) && (alignment <? old) then old else alignment in
  let new := reencrypt_get_sector_size_new hdr in
  if (0 <? new) && (alignment <? new) then new else alignment.

(** ** The context *)

(** The parameters the functions use; sizes in sectors. *)
Record crypt_params_reencrypt := {
  p_resilience : option string;
  p_hash : option string;
  p_max_hotzone_size : Z;
  p_device_size : Z;
}.

Definition segment_by_flag hdr (flag : string) : option json * Z :=
  let segment := LUKS2_get_segment_id_by_flag hdr flag in
  if 0 <=? segment then (LUKS2_get_segment_jobj hdr segment, LUKS2_digest_by_segment hdr segment)
  else (None, - ENOENT).

(** The protection a resilience mode asks for. *)
Definition protection_of (params : crypt_params_reencrypt) : Z + reenc_protection :=
  match p_resilience params with
  | Some "datashift"%string => inr REENC_PROTECTION_DATASHIFT
  | Some "journal"%string => inr REENC_PROTECTION_JOURNAL
  | Some "checksum"%string =>
      let hash := default ""%string (p_hash params) in
      if LUKS2_CHECKSUM_ALG_L <=? Z.of_nat (String.length hash) then inl (- EINVAL)
      else if re_crypt_hash_size env hash <? 1 then inl (- EINVAL)
      else inr (REENC_PROTECTION_CHECKSUM hash (re_crypt_hash_size env hash))
  | Some "none"%string => inr REENC_PROTECTION_NONE
  | _ => inl (- EINVAL)
  end.

Definition reencrypt_context_init hdr (device_size : Z) (params : crypt_params_reencrypt) : Z + luks2_reencrypt :=
  let keyslot := LUKS2_find_keyslot hdr "reencrypt" in
  if keyslot <? 0 then inl (- EINVAL)
  else
    let '(r, _, area_length) := LUKS2_keyslot_area hdr keyslot in
    if r <? 0 then inl (- EINVAL)
    else
      let alignment := reencrypt_get_alignment hdr in
      if alignment =? 0 then inl (- EINVAL)
      else if negb (u64 (Z.shiftl (p_max_hotzone_size params) SECTOR_SHIFT) mod alignment =? 0) then inl (- EINVAL)
      else if negb (u64 (Z.shiftl (p_device_size params) SECTOR_SHIFT) mod alignment =? 0) then inl (- EINVAL)
      else
        let direction := reencrypt_direction hdr in
        match protection_of params with
        | inl r => inl r
        | inr rp =>
            let data_shift := match rp with REENC_PROTECTION_DATASHIFT => reencrypt_data_shift hdr | _ => 0 end in
            let fixed_length := negb (p_device_size params =? 0) in
            let device_size := if fixed_length then u64 (Z.shiftl (p_device_size params) SECTOR_SHIFT)
                               else device_size in
            let length := reencrypt_length hdr rp alignment area_length
                            (u64 (Z.shiftl (p_max_hotzone_size params) SECTOR_SHIFT)) in
            if length =? 0 then inl (- EINVAL)
            else match reencrypt_offset hdr direction device_size length with
            | inl _ => inl (- EINVAL)
            | inr (offset, length) =>
                if device_size <? offset then inl (- EINVAL)
                else
                  let length := if device_size - offset <? length then device_size - offset else length in
                  let '(seg_new, digest_new) := segment_by_flag hdr "backup-final" in
                  let '(seg_old, digest_old) := segment_by_flag hdr "backup-previous" in
                  let '(seg_moved, _) := segment_by_flag hdr "backup-moved-segment" in
                  let progress := match direction with
                                  | CRYPT_REENCRYPT_BACKWARD => device_size -64 offset -64 length
                                  | CRYPT_REENCRYPT_FORWARD => offset
                                  end in
                  if length <? 512 then inl (- EINVAL)
                  else inr {|
                    rh_offset := offset; rh_progress := progress; rh_length := length;
                    rh_data_shift := data_shift; rh_alignment := alignment; rh_device_size := device_size;
                    rh_fixed_length := fixed_length; rh_direction := direction; rh_mode := reencrypt_mode hdr;
                    rh_rp := rp; rh_reenc_keyslot := keyslot; rh_segs_hot := None; rh_segs_post := None;
                    rh_segment_new := seg_new; rh_digest_new := digest_new;
                    rh_segment_old := seg_old; rh_digest_old := digest_old;
                    rh_segment_moved := seg_moved; rh_read := 0 |}
            end
        end.

Definition reencrypt_load_clean hdr (device_size : Z) (params : option crypt_params_reencrypt) : Z + luks2_reencrypt :=
  let hdr_reenc_params := {|
    p_resilience := reencrypt_resilience_type hdr; p_hash := reencrypt_resilience_hash hdr;
    p_max_hotzone_size := 0;
    p_device_size := match params with Some p => p_device_size p | None => 0 end |} in
  match p_resilience hdr_reenc_params with
  | None => inl (- EINVAL)
  | Some resilience =>
      let params := if bool_decide (resilience = "datashift"%string) then None else params in
      reencrypt_context_init hdr device_size
        (match params with
         | Some p => if bool_decide (p_resilience p = None) then hdr_reenc_params else p
         | None => hdr_reenc_params
         end)
  end.

(** [data_offset] is crypt_get_data_offset in bytes. *)
Definition reencrypt_load_crashed hdr (device_size data_offset : Z) : Z + luks2_reencrypt :=
  let '(r, minimal_size, dynamic) := LUKS2_get_data_size hdr in
  if negb (r =? 0) then inl (- EINVAL)
  else
    let params := {| p_resilience := None; p_hash := None; p_max_hotzone_size := 0;
                     p_device_size := if dynamic then 0 else Z.shiftr minimal_size SECTOR_SHIFT |} in
    match reencrypt_load_clean hdr device_size (Some params) with
    | inl r => inl r
    | inr rh =>
        let reenc_seg := json_segments_segment_in_reencrypt (json_get (jobj hdr) "segments") in
        if reenc_seg <? 0 then inl (- EINVAL)
        else
          let rh := set_window rh (rh_offset rh) (LUKS2_segment_size hdr reenc_seg false) (rh_progress rh) in
          let alignment := if is_checksum (rh_rp rh) then reencrypt_alignment hdr else rh_alignment rh in
          if is_checksum (rh_rp rh) && (alignment =? 0) then inl (- EINVAL)
          else
            let '(r, rh) := reencrypt_make_segments_crashed hdr (set_alignment rh alignment) data_offset in
            if r =? 0 then inr rh else inl r
    end.

Definition reencrypt_load hdr (device_size data_offset : Z) (params : option crypt_params_reencrypt) : Z + luks2_reencrypt :=
  match LUKS2_reencrypt_status hdr with
  | CRYPT_REENCRYPT_CLEAN => reencrypt_load_clean hdr device_size params
  | CRYPT_REENCRYPT_CRASH => reencrypt_load_crashed hdr device_size data_offset
  | _ => inl (- EINVAL)
  end.

(** The window after a hotzone was done; [inl] is the error. *)
Definition reencrypt_context_update rh : Z + luks2_reencrypt :=
  if rh_read rh <? 0 then inl (- EINVAL)
  else
    let '(offset, length) :=
      match rh_direction rh with
      | CRYPT_REENCRYPT_BACKWARD =>
          if negb (rh_data_shift rh =? 0) && bool_decide (rh_mode rh = CRYPT_REENCRYPT_ENCRYPT) then
            let offset := if negb (rh_offset rh =? 0) then rh_offset rh -64 rh_data_shift rh else rh_offset rh in
            let '(offset, length) :=
              if negb (offset =? 0) && (offset <? rh_data_shift rh) then (rh_data_shift rh, offset)
              else (offset, rh_length rh) in
            (offset, if offset =? 0 then rh_data_shift rh else length)
          else
            let length := if rh_offset rh <? rh_length rh then rh_offset rh else rh_length rh in
            (rh_offset rh -64 length, length)
      | CRYPT_REENCRYPT_FORWARD =>
          let offset := rh_offset rh +64 rh_read rh in
          (offset, if rh_device_size rh -64 offset <? rh_length rh then rh_device_size rh -64 offset
                   else rh_length rh)
      end in
    if rh_device_size rh <? offset then inl (- EINVAL)
    else inr (set_window rh offset length (rh_progress rh +64 rh_read rh)).

Definition modify_offset (offset data_shift : Z) (di : crypt_reencrypt_direction_info) : option Z :=
  match di with
  | CRYPT_REENCRYPT_FORWARD => if data_shift <=? offset then Some (offset - data_shift) else None
  | CRYPT_REENCRYPT_BACKWARD => Some (offset +64 data_shift)
  end.
End env.

(** ** Changes of the header *)

(** A flag of the requirements; [None] is an error. The commit is the caller's. *)
Definition reencrypt_update_flag_jobj hdr (enable : bool) : Z * luks2_hdr :=
  let reqs := LUKS2_config_get_requirements hdr in
  let online := reqs_reencrypt_online reqs in
  if Bool.eqb enable online then (- EINVAL, hdr)
  else LUKS2_config_set_requirements_jobj hdr
         (if enable then Z.lor reqs CRYPT_REQUIREMENT_ONLINE_REENCRYPT
          else Z.land reqs (u32 (Z.lnot CRYPT_REQUIREMENT_ONLINE_REENCRYPT))).

Definition reencrypt_add_moved_segment hdr rh : Z * luks2_hdr :=
  match rh_segment_moved rh with
  | None => (0, hdr)
  | Some moved =>
      let s := LUKS2_segment_first_unused_id hdr in
      if s <? 0 then (s, hdr) else (0, set_member hdr "segments" s moved)
  end.

Definition reencrypt_add_backup_segment hdr rh (final : bool) : Z * luks2_hdr :=
  let s := LUKS2_segment_first_unused_id hdr in
  if s <? 0 then (s, hdr)
  else
    let digest := if final then rh_digest_new rh else rh_digest_old rh in
    match (if final then rh_segment_new rh else rh_segment_old rh) with
    | None => (- EINVAL, hdr)
    | Some j =>
        let hdr := set_member hdr "segments" s j in
        if bool_decide (json_segment_type (Some j) = Some "crypt"%string)
        then LUKS2_digest_segment_assign_jobj hdr s digest true
        else (0, hdr)
    end.

(** The digest of every crypt segment, from segment [sg] on. *)
Fixpoint assign_crypt_segments (n : nat) hdr (sg digest : Z) : Z * luks2_hdr :=
  match n with
  | O => (0, hdr)
  | S n' =>
      if LUKS2_segment_is_type hdr sg "crypt" then
        let '(r, hdr) := LUKS2_digest_segment_assign_jobj hdr sg digest true in
        if negb (r =? 0) then (- EINVAL, hdr) else assign_crypt_segments n' hdr (sg + 1) digest
      else assign_crypt_segments n' hdr (sg + 1) digest
  end.

(** The hot or the post segments become the header's. *)
Definition set_step_segments hdr rh (hot : bool) : option (luks2_hdr * luks2_reencrypt) :=
  if hot then
    j ← rh_segs_hot rh; Some (LUKS2_segments_set_jobj hdr j, set_segs_hot rh None)
  else
    j ← rh_segs_post rh; Some (LUKS2_segments_set_jobj hdr j, set_segs_post rh None).

Definition reencrypt_assign_segments_simple hdr rh (hot : bool) : Z * luks2_hdr * luks2_reencrypt :=
  if json_segments_count (if hot then rh_segs_hot rh else rh_segs_post rh) <=? 0 then (- EINVAL, hdr, rh)
  else match set_step_segments hdr rh hot with
  | None => (- EINVAL, hdr, rh)
  | Some (hdr, rh) =>
      let '(r, hdr) := reencrypt_add_backup_segment hdr rh false in
      if negb (r =? 0) then (r, hdr, rh)
      else
        let '(r, hdr) := reencrypt_add_backup_segment hdr rh true in
        if negb (r =? 0) then (r, hdr, rh)
        else
          let '(r, hdr) := reencrypt_add_moved_segment hdr rh in
          if negb (r =? 0) then (r, hdr, rh)
          else
            let digest := match rh_mode rh with
                          | CRYPT_REENCRYPT_ENCRYPT => rh_digest_new rh
                          | _ => rh_digest_old rh
                          end in
            let '(r, hdr) := assign_crypt_segments (Z.to_nat (LUKS2_segments_count hdr)) hdr 0 digest in
            (r, hdr, rh)
  end.

(** An assignment whose result the code ignores. *)
Definition assign_ignored hdr (segment digest : Z) : luks2_hdr :=
  (LUKS2_digest_segment_assign_jobj hdr segment digest true).2.

Definition reencrypt_assign_segments hdr rh (hot : bool) : Z * luks2_hdr * luks2_reencrypt :=
  if (rh_digest_new rh <? 0) && negb (bool_decide (rh_mode rh = CRYPT_REENCRYPT_DECRYPT))
  then (- EINVAL, hdr, rh)
  else
    let '(r, hdr) := LUKS2_digest_segment_assign_jobj hdr CRYPT_ANY_SEGMENT CRYPT_ANY_DIGEST false in
    if negb (r =? 0) then (- EINVAL, hdr, rh)
    else match rh_mode rh with
    | CRYPT_REENCRYPT_ENCRYPT | CRYPT_REENCRYPT_DECRYPT => reencrypt_assign_segments_simple hdr rh hot
    | CRYPT_REENCRYPT_REENCRYPT =>
        match set_step_segments hdr rh hot with
        | None => (- EINVAL, hdr, rh)
        | Some (hdr, rh) =>
            let scount := LUKS2_segments_count hdr in
            let rseg := json_segments_segment_in_reencrypt (json_get (jobj hdr) "segments") in
            if (rseg <? 0) && hot then (- EINVAL, hdr, rh)
            else
              let old := rh_digest_old rh in
              let new := rh_digest_new rh in
              let forward := bool_decide (rh_direction rh = CRYPT_REENCRYPT_FORWARD) in
              let hdr := if 0 <=? rseg
                         then assign_ignored (assign_ignored hdr rseg new) rseg old else hdr in
              let hdr :=
                if hot then
                  let hdr := if 0 <? rseg then assign_ignored hdr 0 (if forward then new else old) else hdr in
                  if rseg + 1 <? scount then assign_ignored hdr (rseg + 1) (if forward then old else new) else hdr
                else
                  let hdr := assign_ignored hdr 0 (if forward || (scount =? 1) then new else old) in
                  if 1 <? scount then assign_ignored hdr 1 (if forward then old else new) else hdr in
              let '(r, hdr) := reencrypt_add_backup_segment hdr rh false in
              if negb (r =? 0) then (r, hdr, rh)
              else
                let '(r, hdr) := reencrypt_add_backup_segment hdr rh true in
                (r, hdr, rh)
        end
    end.

(** The segments of a device that is to be encrypted; sizes in bytes. *)
Definition reencrypt_set_encrypt_segments hdr (dev_size data_shift : Z) (move_first_segment : bool)
    (di : crypt_reencrypt_direction_info) : Z * luks2_hdr :=
  let data_offset := u64 (Z.shiftl (LUKS2_get_data_offset hdr) SECTOR_SHIFT) in
  if dev_size <? data_shift then (- EINVAL, hdr)
  else if negb (data_shift =? 0) && bool_decide (di = CRYPT_REENCRYPT_FORWARD) then (- ENOTSUP, hdr)
  else
    let '(first_offset, first_length) :=
      if move_first_segment then (dev_size, data_shift)
      else if negb (data_shift =? 0) then (data_offset, dev_size) else (data_offset, 0) in
    let second_length := dev_size -64 (2 *64 data_shift) in
    let first := json_segment_create_linear first_offset
                   (if move_first_segment || negb (first_length =? 0) then Some first_length else None) false in
    let segs := json_object_object_add json_object_new_object "0" first in
    let segs :=
      if move_first_segment && negb (second_length =? 0)
      then json_object_object_add segs "1" (json_segment_create_linear data_shift (Some second_length) false)
      else segs in
    let '(r, hdr) := LUKS2_digest_segment_assign_jobj hdr CRYPT_ANY_SEGMENT CRYPT_ANY_DIGEST false in
    if negb (r =? 0) then (r, hdr) else (0, LUKS2_segments_set_jobj hdr segs).

Definition erase_backup_segment hdr (flag : string) : option luks2_hdr :=
  let segment := LUKS2_get_segment_id_by_flag hdr flag in
  if segment <? 0 then Some hdr
  else
    let '(r, hdr) := LUKS2_digest_segment_assign_jobj hdr segment CRYPT_ANY_DIGEST false in
    if negb (r =? 0) then None
    else Some (update_section hdr "segments" (fun s => json_object_object_del_by_uint s segment)).

(** [None] is the error; the code then leaves the header half changed. *)
Definition reencrypt_erase_backup_segments hdr : option luks2_hdr :=
  hdr ← erase_backup_segment hdr "backup-previous";
  hdr ← erase_backup_segment hdr "backup-final";
  erase_backup_segment hdr "backup-moved-segment".

(** Parameters of a new reencryption; the data shift is in sectors. *)
Record reencrypt_init_params := {
  i_mode : crypt_reencrypt_mode_info;
  i_direction : crypt_reencrypt_direction_info;
  i_data_shift : Z;
  i_move_first_segment : bool;
  i_sector_size : option Z;   (** of [params->luks2], when given *)
}.

(** The new member [segment] with its flag, and its digest if it has one. *)
Definition add_flagged_segment hdr (segment : Z) (j : json) (flag : string) (digest : Z) : luks2_hdr :=
  let hdr := set_member hdr "segments" segment (LUKS2_segment_set_flag j flag) in
  if 0 <=? digest then assign_ignored hdr segment digest else hdr.

Definition reencrypt_make_backup_segments (env : reenc_env) hdr (keyslot_new : Z) (cipher : string) (data_offset : Z)
    (params : reencrypt_init_params) : Z * luks2_hdr :=
  let sector_size := default SECTOR_SIZE (i_sector_size params) in
  let data_shift := u64 (Z.shiftl (i_data_shift params) SECTOR_SHIFT) in
  let mode := i_mode params in
  let digest_new := match mode with
                    | CRYPT_REENCRYPT_DECRYPT => -1
                    | _ => LUKS2_digest_by_keyslot hdr keyslot_new
                    end in
  let digest_old := match mode with
                    | CRYPT_REENCRYPT_ENCRYPT => -1
                    | _ => LUKS2_digest_by_segment hdr CRYPT_DEFAULT_SEGMENT
                    end in
  if (digest_new <? 0) && negb (bool_decide (mode = CRYPT_REENCRYPT_DECRYPT)) then (- EINVAL, hdr)
  else if (digest_old <? 0) && negb (bool_decide (mode = CRYPT_REENCRYPT_ENCRYPT)) then (- EINVAL, hdr)
  else
    let segment := LUKS2_segment_first_unused_id hdr in
    if segment <? 0 then (- EINVAL, hdr)
    else
      let moved := bool_decide (mode = CRYPT_REENCRYPT_ENCRYPT) && i_move_first_segment params in
      match (if moved then
               j ← LUKS2_get_segment_jobj hdr 0;
               Some (add_flagged_segment hdr segment j "backup-moved-segment" (-1), segment + 1)
             else Some (hdr, segment)) with
      | None => (- EINVAL, hdr)
      | Some (hdr, segment) =>
          let old :=
            if 0 <=? digest_old then LUKS2_get_segment_jobj hdr CRYPT_DEFAULT_SEGMENT
            else
              let '(r, tmp, _) := LUKS2_get_data_size hdr in
              if r =? 0 then Some (json_segment_create_linear 0 (if tmp =? 0 then None else Some tmp) false)
              else None in
          match old with
          | None => (- EINVAL, hdr)
          | Some old =>
              let hdr := add_flagged_segment hdr segment old "backup-previous" digest_old in
              let segment := segment + 1 in
              let shifted := modify_offset data_offset data_shift (i_direction params) in
              let new :=
                match mode with
                | CRYPT_REENCRYPT_ENCRYPT =>
                    Some (json_segment_create_crypt data_offset (re_iv_offset env) None cipher sector_size false)
                | CRYPT_REENCRYPT_REENCRYPT =>
                    o ← shifted; Some (json_segment_create_crypt o (re_iv_offset env) None cipher sector_size false)
                | CRYPT_REENCRYPT_DECRYPT => o ← shifted; Some (json_segment_create_linear o None false)
                end in
              match new with
              | None => (- EINVAL, hdr)
              | Some new =>
                  let hdr := add_flagged_segment hdr segment new "backup-final" digest_new in
                  if bool_decide (i_direction params = CRYPT_REENCRYPT_FORWARD) && negb (data_shift =? 0) &&
                     re_header_attached env then
                    let '(r, hdr') := LUKS2_set_keyslots_size_jobj hdr
                                        (json_segment_get_offset (reencrypt_segment hdr true) false) in
                    if negb (r =? 0) then (- EINVAL, hdr) else (0, hdr')
                  else (0, hdr)
              end
          end
      end.
End reencrypt.
