(* ===== verification/Luks2ReencryptStorage.v ===== *)
(** * Luks2ReencryptStorage: what the storage wrappers do to blocks of data

    For wrappers without a dm-crypt device: encryption and decryption as
    functions on data at an offset, their decomposition into blocks, and what
    an interrupted write leaves on the device. *)

From S2P Require Import Prelude CryptBackend UtilsIO CryptStorage StorageWrapper.

Section direct.
Context `{CH : CryptHash} `{CCL : CryptCipherLaws}.
Implicit Types cw : crypt_storage_wrapper.

Definition convert_with (conv : crypt_storage -> Z -> Z -> bytes -> Z * bytes) cw (offset : Z) (d : bytes) : option bytes :=
  match w_type cw with
  | NONE => Some d
  | USPACE s iv_start =>
      let '(r, b) := conv s (iv_at iv_start offset) (zlen d) d in
      if r =? 0 then Some b else None
  | DMCRYPT _ _ => None
  end.

(** The plain data of [d] at [offset], and the stored data. *)
Definition decode := convert_with (fun s => storage_convert (cipher_decrypt (s_cipher s)) s).
Definition encode := convert_with (fun s => storage_convert (cipher_encrypt (s_cipher s)) s).

(** Bytes of a sector of the wrapper. *)
Definition unit_size cw : Z :=
  match w_type cw with USPACE s _ => sector_size s | _ => 512 end.

Lemma unit_size_ok cw : direct_ok cw -> 0 < unit_size cw /\ (512 | unit_size cw).
Proof.
  intros (_ & _ & _ & H). unfold unit_size. destruct (w_type cw) as [|s ?|]; [| |done].
  - split; [lia|by exists 1].
  - destruct H as (_ & _ & [E|[E|[E|E]]]); rewrite E; split; try lia;
      [by exists 1|by exists 2|by exists 4|by exists 8].
Qed.

(** The operations of the wrapper in terms of [decode] and [encode]. *)
Lemma decrypt_decode cw offset d f :
  direct_ok cw ->
  match decode cw offset d with
  | Some p => crypt_storage_wrapper_decrypt cw offset d (zlen d) f = (0, p, f)
  | None => exists r b, r <> 0 /\ crypt_storage_wrapper_decrypt cw offset d (zlen d) f = (r, b, f)
  end.
Proof.
  intros (_ & _ & _ & H). unfold decode, convert_with, crypt_storage_wrapper_decrypt, crypt_storage_decrypt.
  destruct (w_type cw) as [|s iv|]; [done| |done].
  destruct (storage_convert _ _ _ _ _) as [r b]. destruct (Z.eqb_spec r 0) as [->|Hr]; eauto.
Qed.

Lemma encrypt_write_encode cw offset d e f :
  encode cw offset d = Some e ->
  crypt_storage_wrapper_encrypt_write cw offset d (zlen d) f =
    let '(r, f') := crypt_storage_wrapper_write cw offset e (zlen d) f in (r, e, f').
Proof.
  unfold encode, convert_with, crypt_storage_wrapper_encrypt_write, crypt_storage_encrypt.
  destruct (w_type cw) as [|s iv|]; [by intros [= ->]| |done].
  destruct (storage_convert _ _ _ _ _) as [r b]. destruct (Z.eqb_spec r 0) as [->|Hr]; [|done]. by intros [= ->].
Qed.

(** ** Blocks *)

Lemma storage_convert_spec op s ivo d d' :
  storage_ok s -> keeps_size op -> (forall iv x, op iv x <> inl 0) ->
  storage_convert op s ivo (zlen d) d = (0, d') <->
  exists n, zlen d = Z.of_nat n * sector_size s /\ Z.land ivo (Z.shiftr (sector_size s) SECTOR_SHIFT - 1) = 0 /\
    storage_map n op s ivo 0 d = Some d'.
Proof.
  intros Hok Hop Her. pose proof (zlen_nonneg d) as Hd.
  rewrite <-(storage_convert_map op s ivo (zlen d) d d' Hok Hop Her) by lia. rewrite slice_all.
  assert (0 < sector_size s) as Hs by (destruct Hok as (_ & _ & ?); lia).
  split.
  - intros (n & out & Hn & Hi & Hm & ->). exists n. split; [done|]. split; [done|].
    apply zlen_storage_map in Hm as Hz; [|done..]. rewrite Hm. f_equal.
    rewrite <-(slice_all (splice 0 out d)), zlen_splice, <-Hz by lia. by rewrite slice_splice_same by lia.
  - intros (n & Hn & Hi & Hm). exists n, d'. apply zlen_storage_map in Hm as Hz; [|done..].
    repeat split; auto. rewrite <-(slice_all (splice 0 d' d)), zlen_splice, <-Hz by lia.
    by rewrite slice_splice_same by lia.
Qed.

Lemma iv_at_shift ivs off n : 0 <= off -> 0 <= n -> iv_at ivs (off + n * 512) = iv_at ivs off +64 n.
Proof.
  intros. unfold iv_at. rewrite !Z.shiftr_div_pow2 by (unfold SECTOR_SHIFT; lia). change (2 ^ SECTOR_SHIFT) with 512.
  rewrite Z.div_add by lia. unfold wrap. rewrite Zplus_mod_idemp_l. f_equal. lia.
Qed.

Lemma sector_mask s : storage_ok s ->
  exists k, 0 <= k <= 3 /\ sector_size s = 2 ^ k * 512 /\ Z.shiftr (sector_size s) SECTOR_SHIFT - 1 = 2 ^ k - 1.
Proof.
  intros (_ & _ & [E|[E|[E|E]]]); rewrite E; [exists 0|exists 1|exists 2|exists 3]; repeat split; lia.
Qed.

(** Vectors of aligned sectors stay aligned. *)
Lemma iv_land s ivs off n :
  storage_ok s -> 0 <= off -> 0 <= n ->
  Z.land (iv_at ivs off) (Z.shiftr (sector_size s) SECTOR_SHIFT - 1) = 0 ->
  Z.land (iv_at ivs (off + n * sector_size s)) (Z.shiftr (sector_size s) SECTOR_SHIFT - 1) = 0.
Proof.
  intros Hs Ho Hn. destruct (sector_mask s Hs) as (k & Hk & -> & ->). rewrite !land_pred_pow2 by lia.
  rewrite Z.mul_assoc, iv_at_shift by nia. intros H. unfold wrap.
  assert (2 ^ 64 = 2 ^ k * 2 ^ (64 - k)) as -> by (rewrite <-Z.pow_add_r by lia; f_equal; lia).
  assert (0 < 2 ^ k) by lia. assert (0 < 2 ^ (64 - k)) by lia.
  rewrite Z.rem_mul_r by lia. rewrite (Z.mul_comm (2 ^ k) (_ mod _)), Z.mod_add, Zmod_mod by lia.
  by rewrite Z.mod_add by lia.
Qed.

Lemma convert_app op s ivs off x y z :
  storage_ok s -> keeps_size op -> (forall iv x, op iv x <> inl 0) -> 0 <= off -> (sector_size s | zlen x) ->
  storage_convert op s (iv_at ivs off) (zlen (x ++ y)) (x ++ y) = (0, z) ->
  exists a b, z = a ++ b /\ zlen a = zlen x /\ zlen b = zlen y /\
    storage_convert op s (iv_at ivs off) (zlen x) x = (0, a) /\
    storage_convert op s (iv_at ivs (off + zlen x)) (zlen y) y = (0, b).
Proof.
  intros Hok Hop Her Ho [m Hm] H. pose proof (zlen_nonneg x). pose proof (zlen_nonneg y).
  assert (0 < sector_size s) as Hs by (destruct Hok as (_ & _ & ?); lia).
  apply storage_convert_spec in H as (n & Hn & Hi & Hmap); [|done..]. rewrite zlen_app in Hn.
  assert (n = (Z.to_nat m + Z.to_nat (Z.of_nat n - m))%nat) as En by nia.
  rewrite En in Hmap. rewrite storage_map_app in Hmap by (done || nia).
  destruct (storage_map (Z.to_nat m) _ _ _ _ _) as [u|] eqn:Eu; [|done]. cbn in Hmap.
  destruct (storage_map (Z.to_nat (Z.of_nat n - m)) _ _ _ _ _) as [v|] eqn:Ev; [|done]. cbn in Hmap.
  injection Hmap as <-. exists u, v. split; [done|].
  destruct (sector_mask s Hok) as (k & Hk & Ek & _). rewrite Z2Nat.id in Ev by nia.
  rewrite Ek, Z.mul_assoc, storage_map_shift in Ev by (done || nia).
  apply zlen_storage_map in Eu as Hzu; [|done|done|nia]. apply zlen_storage_map in Ev as Hzv; [|done|done|nia].
  split; [done|]. split; [done|]. split; apply storage_convert_spec; try done.
  - exists (Z.to_nat m). split; [nia|]. done.
  - exists (Z.to_nat (Z.of_nat n - m)). split; [nia|]. split.
    + rewrite Hm. apply iv_land; auto; nia.
    + rewrite Hm, Ek, Z.mul_assoc, iv_at_shift by nia. done.
Qed.

(** A conversion that keeps sizes and reports its errors. *)
Definition sound_op (opf : crypt_storage -> bytes -> bytes -> Z + bytes) : Prop :=
  forall s, storage_ok s -> keeps_size (opf s) /\ forall iv x, opf s iv x <> inl 0.

Lemma sound_encrypt : sound_op (fun s => cipher_encrypt (s_cipher s)).
Proof. intros s (Hc & _). split; [by apply encrypt_keeps_size|by apply encrypt_error]. Qed.
Lemma sound_decrypt : sound_op (fun s => cipher_decrypt (s_cipher s)).
Proof. intros s (Hc & _). split; [exact (decrypt_size _ Hc)|by apply decrypt_error]. Qed.

Section generic.
Variable opf : crypt_storage -> bytes -> bytes -> Z + bytes.
Hypothesis Hopf : sound_op opf.
Notation conv := (convert_with (fun s => storage_convert (opf s) s)).

Lemma conv_zlen cw off d p : direct_ok cw -> conv cw off d = Some p -> zlen p = zlen d.
Proof.
  intros (_ & _ & _ & H). unfold convert_with. destruct (w_type cw) as [|s iv|]; [by intros [= ->]| |done].
  destruct (Hopf s H) as [Hop Her]. destruct (storage_convert _ _ _ _ _) as [r b] eqn:E.
  destruct (Z.eqb_spec r 0) as [->|]; [|done]. intros [= ->].
  apply storage_convert_spec in E as (n & Hn & _ & Hm); [|done..].
  eapply zlen_storage_map; [..|exact Hm]; [done|destruct H as (_ & _ & ?); lia|done].
Qed.

Lemma conv_app cw off x y z :
  direct_ok cw -> 0 <= off -> (unit_size cw | zlen x) -> conv cw off (x ++ y) = Some z ->
  exists a b, z = a ++ b /\ zlen a = zlen x /\ conv cw off x = Some a /\ conv cw (off + zlen x) y = Some b.
Proof.
  intros (_ & _ & _ & H) Ho. unfold convert_with, unit_size. destruct (w_type cw) as [|s iv|]; [| |done].
  { intros _ [= <-]. by exists x, y. }
  destruct (Hopf s H) as [Hop Her]. intros Hd. destruct (storage_convert _ _ _ (zlen (x ++ y)) _) as [r b] eqn:E.
  destruct (Z.eqb_spec r 0) as [->|]; [|done]. intros [= ->].
  apply convert_app in E as (u & v & -> & Hu & Hv & E1 & E2); [|done..].
  exists u, v. rewrite E1, E2. done.
Qed.

Lemma conv_slice cw off d p i n :
  direct_ok cw -> 0 <= off -> 0 <= i -> 0 <= n -> i + n <= zlen d -> (unit_size cw | i) -> (unit_size cw | n) ->
  conv cw off d = Some p -> conv cw (off + i) (slice i n d) = Some (slice i n p).
Proof.
  intros Hok Ho Hi Hn Hin Hdi Hdn H. apply conv_zlen in H as Hz; [|done].
  assert (Ed : d = slice 0 i d ++ slice i n d ++ slice (i + n) (zlen d - i - n) d).
  { rewrite <-(slice_all d) at 1. replace (zlen d) with (i + (n + (zlen d - i - n))) at 1 by lia.
    rewrite !slice_app_split by lia. done. }
  rewrite Ed in H. apply conv_app in H as (a & b & -> & Ha & _ & H); [|done|done|by rewrite zlen_slice by lia].
  rewrite zlen_slice in Ha, H by lia.
  apply conv_app in H as (a' & b' & -> & Ha' & H & _); [|done|lia|by rewrite zlen_slice by lia].
  rewrite zlen_slice in Ha' by lia. rewrite H. f_equal.
  rewrite slice_app_r by lia. rewrite Ha, Z.sub_diag, slice_app_l, <-Ha' by lia. symmetry. apply slice_all.
Qed.
End generic.

Definition decode_zlen := conv_zlen _ sound_decrypt.
Definition encode_zlen := conv_zlen _ sound_encrypt.
Definition decode_slice := conv_slice _ sound_decrypt.
Definition encode_slice := conv_slice _ sound_encrypt.

(** What is stored is the data encrypted. *)
Lemma decode_encode cw off d e : direct_ok cw -> encode cw off d = Some e -> decode cw off e = Some d.
Proof.
  intros (_ & _ & _ & H). unfold encode, decode, convert_with. destruct (w_type cw) as [|s iv|]; [by intros [= ->]| |done].
  destruct (storage_convert _ _ _ _ _) as [r b] eqn:E. destruct (Z.eqb_spec r 0) as [->|]; [|done]. intros [= ->].
  pose proof (zlen_nonneg d). apply storage_decrypt_encrypt in E as (E & Hz & _); [|done|lia].
  unfold crypt_storage_decrypt in E. by rewrite Hz, E.
Qed.

(** [cw'] converts at 0 as [cw] does at [offset]. *)
Definition converts_at cw cw' (offset : Z) : Prop :=
  match w_type cw, w_type cw' with
  | NONE, NONE => True
  | USPACE s iv, USPACE s' iv' => s' = s /\ iv' = iv_at iv offset
  | _, _ => False
  end.

Lemma convert_at conv cw cw' offset d i :
  converts_at cw cw' offset -> 0 <= offset -> 0 <= i -> (512 | i) ->
  convert_with conv cw' i d = convert_with conv cw (offset + i) d.
Proof.
  unfold converts_at. intros H Ho Hi [k ->]. unfold convert_with.
  destruct (w_type cw) as [|s iv|], (w_type cw') as [|s' iv'|]; try done.
  destruct H as [-> ->]. rewrite iv_at_shift by lia. unfold iv_at at 1.
  rewrite Z.shiftr_div_pow2 by (unfold SECTOR_SHIFT; lia). change (2 ^ SECTOR_SHIFT) with 512.
  by rewrite Z.div_mul by lia.
Qed.

Lemma convert_at_0 conv cw cw' offset d :
  converts_at cw cw' offset -> 0 <= offset -> convert_with conv cw' 0 d = convert_with conv cw offset d.
Proof. intros. rewrite (convert_at conv cw cw' offset d 0) by (done || by exists 0). by rewrite Z.add_0_r. Qed.

Lemma unit_size_at cw cw' offset : converts_at cw cw' offset -> unit_size cw' = unit_size cw.
Proof.
  unfold converts_at, unit_size. destruct (w_type cw), (w_type cw'); try done. by intros [-> _].
Qed.

(** ** An interrupted write *)

Lemma encrypt_write_spec cw offset d e f g :
  direct_ok cw -> 0 < w_block_size cw -> (w_block_size cw | f_size f) -> 0 <= offset -> 0 <= data_offset cw ->
  encode cw offset d = Some e -> 0 < zlen d -> data_offset cw + offset + zlen d <= f_size f -> f_size f < 2 ^ 63 ->
  (w_block_size cw | data_offset cw + offset) -> (w_block_size cw | zlen d) -> (g | zlen d) ->
  granular g (f_sched f) ->
  exists r b f' k, crypt_storage_wrapper_encrypt_write cw offset d (zlen d) f = (r, b, f') /\ sched_le f f' /\
    0 <= k <= zlen d /\ (g | k) /\ f_data f' = splice (data_offset cw + offset) (take (Z.to_nat k) e) (f_data f) /\
    ((r = zlen d /\ k = zlen d) \/ (r = -1 /\ ~ benign (f_sched f))).
Proof.
  intros Hok Hb Hdb Ho Hdo He Hz Hin Hsz Hbo Hbd Hg Hgr. rewrite (encrypt_write_encode _ _ _ _ _ He).
  apply encode_zlen in He; [|done]. destruct Hok as (Hfd & _ & Ha & _). unfold crypt_storage_wrapper_write.
  rewrite u64_id by lia.
  pose proof (write_lseek_blockwise_aligned (dev_fd cw) (w_block_size cw) (mem_alignment cw) e (zlen d)
    (data_offset cw + offset) f g) as Hw.
  destruct (write_lseek_blockwise _ _ _ _ _ _ _) as [r f'].
  destruct Hw as (Hs & k & Hk & Hgk & Hd & Hr); try done; [lia|].
  exists r, e, f', k. auto 10.
Qed.

Lemma wrapper_read_any cw offset n f :
  direct_ok cw -> 0 < w_block_size cw -> 0 <= offset -> 0 <= n -> 0 <= data_offset cw ->
  data_offset cw + offset + n <= f_size f -> f_size f < 2 ^ 63 ->
  exists r b f', crypt_storage_wrapper_read cw offset n f = (r, b, f') /\ sched_le f f' /\ f_data f' = f_data f /\
    ((r = n /\ b = slice (data_offset cw + offset) n (f_data f)) \/ (r = -1 /\ ~ benign (f_sched f))).
Proof.
  intros (Hfd & _ & Ha & _) Hb Ho Hn Hdo Hin Hsz. unfold crypt_storage_wrapper_read. rewrite u64_id by lia.
  pose proof (read_lseek_blockwise_spec (dev_fd cw) (w_block_size cw) (mem_alignment cw) n (data_offset cw + offset) f
    Hfd Hb Ha Hn ltac:(lia)) as Hr.
  destruct (read_lseek_blockwise _ _ _ _ _ _) as [[r b] f']. destruct Hr as (Hs & Hd & Hr).
  exists r, b, f'. split; [done|]. split; [done|]. split; [done|].
  destruct Hr as [?|[? [?|?]]]; [by left|by right|lia].
Qed.
End direct.
