(* ===== verification/Luks2ReencryptData.v ===== *)
(** * Luks2ReencryptData: moving the data of a hotzone
    (lib/luks2/luks2_reencrypt.c, lib/luks2/luks2_keyslot_reenc.c)

    One step of a reencryption reads a hotzone, stores what its recovery needs
    in the area of the reencryption keyslot, commits the header that names the
    hotzone, writes the reencrypted data, and commits the header of the next
    state. [reencrypt_recover_segment] finishes a hotzone an interrupted step
    left behind.

    The state is the data device and the metadata device, which may be the
    same ([meta_dev] is then [None]); both are [file]s with a schedule, so that
    a step may fail, or the machine stop, at any transfer. How a header is
    written is the interface [HdrStore]. The steps here are those of an offline
    reencryption: the device-mapper stack of an online one ([rh->online]) only
    adds calls to the kernel. A buffer that is freed is not wiped in the model. *)

From S2P Require Import Prelude CryptBackend UtilsIO CryptStorage StorageWrapper JsonC Luks2Json Luks2Keyslot Luks2Format Luks2Reencrypt.

Record store := Store { data_dev : file; meta_dev : option file }.

Definition meta_file (s : store) : file := default (data_dev s) (meta_dev s).
Definition set_data (f : file) (s : store) : store := Store f (meta_dev s).
Definition set_meta (f : file) (s : store) : store :=
  match meta_dev s with
  | None => Store f None
  | Some _ => Store (data_dev s) (Some f)
  end.

(** Headers on the metadata device: [LUKS2_device_write_lock], which may read
    the sequence id, [LUKS2_hdr_write], and what [LUKS2_hdr_read] finds when no
    transfer fails. *)
Class HdrStore `{JC : JsonC} := {
  hdr_write_lock : luks2_hdr -> file -> Z * file;
  LUKS2_hdr_write : luks2_hdr -> file -> Z * luks2_hdr * file;
  LUKS2_hdr_read : bytes -> option luks2_hdr;
}.

(** What the reencryption relies on. The headers take the first [hdr_end]
    bytes; [follows old hdr size] says that [hdr] may be written over [old];
    a device is [ready] for the next update when an update ended well, and
    [holds] a header otherwise. *)
Class HdrStoreLaws `{HS : HdrStore} := {
  hdr_end : Z;
  ready : luks2_hdr -> bytes -> Prop;
  holds : luks2_hdr -> bytes -> Prop;
  follows : luks2_hdr -> luks2_hdr -> Z -> Prop;
  next_header : luks2_hdr -> luks2_hdr;
  hdr_end_nonneg : 0 <= hdr_end;
  ready_holds : forall h D, ready h D -> holds h D;
  holds_read : forall h D, holds h D -> jobj <$> LUKS2_hdr_read D = Some (jobj h);
  holds_frame : forall h D D', holds h D -> zlen D' = zlen D -> slice 0 hdr_end D' = slice 0 hdr_end D -> holds h D';
  ready_frame : forall h D D', ready h D -> zlen D' = zlen D -> slice 0 hdr_end D' = slice 0 hdr_end D -> ready h D';
  write_lock_spec : forall old hdr f r f',
    ready old (f_data f) -> follows old hdr (f_size f) -> hdr_write_lock hdr f = (r, f') ->
    f_data f' = f_data f /\ sched_le f f' /\ r <= 0 /\ (benign (f_sched f) -> r = 0);
  hdr_write_spec : forall old hdr f r hdr' f',
    ready old (f_data f) -> follows old hdr (f_size f) -> granular 512 (f_sched f) ->
    LUKS2_hdr_write hdr f = (r, hdr', f') ->
    sched_le f f' /\ zlen (f_data f') = zlen (f_data f) /\
    (forall o n, hdr_end <= o -> 0 <= n -> slice o n (f_data f') = slice o n (f_data f)) /\
    r <= 0 /\ (benign (f_sched f) -> r = 0) /\
    (r = 0 -> hdr' = next_header hdr /\ ready hdr' (f_data f')) /\
    (holds old (f_data f') \/ holds (next_header hdr) (f_data f'));
}.

(** Results of lib/utils_device.c and of system calls. *)
Record reenc_io := {
  io_data_fd : Z; io_data_block : Z; io_data_alignment : Z;
  io_meta_fd : Z; io_meta_rw_fd : Z; io_meta_wrapper_fd : Z;
  io_meta_block : Z; io_meta_alignment : Z;
  io_datasync : Z;
  io_dmcrypt : Z + wrapper_type;       (** a temporary dm-crypt device *)
  io_vk : Z -> option bytes;           (** crypt_volume_key_by_id *)
  io_wrapper_flags : Z;                (** DISABLE_KCAPI for root *)
}.

Inductive reenc_status_t := REENC_OK | REENC_ERR | REENC_ROLLBACK | REENC_FATAL.

Section data.
Context `{JC : JsonC} `{!HdrStore} `{CH : CryptHash} `{CC : CryptCipher}.
Variable env : reenc_env.
Variable io : reenc_io.
Implicit Types hdr : luks2_hdr.
Implicit Types rh : luks2_reencrypt.
Implicit Types cw : crypt_storage_wrapper.

Definition hdr_write hdr (s : store) : Z * luks2_hdr * store :=
  let '(r, hdr, f) := LUKS2_hdr_write hdr (meta_file s) in (r, hdr, set_meta f s).

(** A wrapper of the data device. *)
Definition data_wrapper (data_offset iv_start sector_size : Z) (cipher : string) (vk : option bytes)
    (flags : Z) : Z + crypt_storage_wrapper :=
  crypt_storage_wrapper_init (io_data_block io) (io_data_alignment io) (io_data_fd io) (io_dmcrypt io)
    data_offset iv_start sector_size cipher vk flags.

(** A function on a file that runs on the data device. *)
Definition on_data {A} (m : file -> A * file) (s : store) : A * store :=
  let '(a, f) := m (data_dev s) in (a, set_data f s).
Definition on_meta {A} (m : file -> A * file) (s : store) : A * store :=
  let '(a, f) := m (meta_file s) in (a, set_meta f s).

(** ** The keyslot's area *)

Definition reenc_keyslot_store_data (jobj_keyslot : json) (buffer : bytes) (buffer_len : Z) (s : store) : Z * store :=
  match json_object_object_get_ex jobj_keyslot "area" with
  | None => (- EINVAL, s)
  | Some jobj_area =>
      match json_object_object_get_ex jobj_area "offset", json_object_object_get_ex jobj_area "size" with
      | Some jobj_offset, Some jobj_length =>
          let area_offset := crypt_jobj_get_uint64 jobj_offset in
          let area_length := crypt_jobj_get_uint64 jobj_length in
          if (area_offset =? 0) || (area_length =? 0) || (area_length <? buffer_len) then (- EINVAL, s)
          else if 0 <=? io_meta_rw_fd io then
            let '(r, s) := on_meta (write_lseek_blockwise (io_meta_rw_fd io) (io_meta_block io)
                             (io_meta_alignment io) buffer buffer_len area_offset) s in
            (if r <? 0 then - EIO else 0, s)
          else (- EINVAL, s)
      | _, _ => (- EINVAL, s)
      end
  end.

Definition reenc_keyslot_store hdr (keyslot : Z) (buffer : bytes) (buffer_len : Z) (s : store)
    : Z * luks2_hdr * store :=
  if buffer_len =? 0 then (- EINVAL, hdr, s)
  else match LUKS2_get_keyslot_jobj hdr keyslot with
  | None => (- EINVAL, hdr, s)
  | Some jobj_keyslot =>
      let '(r, s) := on_meta (hdr_write_lock hdr) s in
      if negb (r =? 0) then (r, hdr, s)
      else
        let '(r, s) := reenc_keyslot_store_data jobj_keyslot buffer buffer_len s in
        if r <? 0 then (r, hdr, s)
        else
          let '(r, hdr, s) := hdr_write hdr s in
          (if r <? 0 then r else keyslot, hdr, s)
  end.

Definition LUKS2_keyslot_reencrypt_store hdr (keyslot : Z) (buffer : bytes) (buffer_length : Z) (s : store)
    : Z * luks2_hdr * store :=
  match LUKS2_keyslot_handler hdr keyslot with
  | None => (- EINVAL, hdr, s)
  | Some h =>
      if negb (bool_decide (kh_name h = "reencrypt"%string)) then (- EINVAL, hdr, s)
      else
        let r := match kh_validate h, LUKS2_get_keyslot_jobj hdr keyslot with
                 | Some v, Some j => v j
                 | _, _ => - EINVAL
                 end in
        if negb (r =? 0) then (r, hdr, s) else reenc_keyslot_store hdr keyslot buffer buffer_length s
  end.

(** ** Protection of a hotzone *)

(** crypt_hash_write and crypt_hash_final; a back end refuses a digest longer
    than its hash. *)
Definition hash_block (hash : string) (hash_size : Z) (block : bytes) : option bytes :=
  if crypt_hash_size (bytes_of_string hash) <? hash_size then None
  else Some (crypt_hash_final (bytes_of_string hash) block hash_size).

(** The loop over [data_offset]; [n] blocks are left. *)
Fixpoint csum_loop (n : nat) (hash : string) (hash_size alignment data_offset : Z) (buffer : bytes) : option bytes :=
  match n with
  | O => Some []
  | S n' =>
      c ← hash_block hash hash_size (slice data_offset alignment buffer);
      app c <$> csum_loop n' hash hash_size alignment (data_offset + alignment) buffer
  end.

(** The number of blocks the loop visits. *)
Definition csum_count (buffer_len alignment : Z) : nat :=
  Z.to_nat ((buffer_len + alignment - 1) / alignment).

Definition reencrypt_hotzone_protect_final hdr rh (buffer : bytes) (buffer_len : Z) (s : store)
    : Z * luks2_hdr * store :=
  let finish '(r, hdr, s) := (if 0 <? r then 0 else r, hdr, s) in
  match rh_rp rh with
  | REENC_PROTECTION_NONE => (0, hdr, s)
  | REENC_PROTECTION_CHECKSUM hash hash_size =>
      match csum_loop (csum_count buffer_len (rh_alignment rh)) hash hash_size (rh_alignment rh) 0 buffer with
      | None => (- EINVAL, hdr, s)
      | Some checksums =>
          finish (LUKS2_keyslot_reencrypt_store hdr (rh_reenc_keyslot rh) checksums (zlen checksums) s)
      end
  | REENC_PROTECTION_JOURNAL =>
      finish (LUKS2_keyslot_reencrypt_store hdr (rh_reenc_keyslot rh) buffer buffer_len s)
  | REENC_PROTECTION_DATASHIFT => hdr_write hdr s
  end.

(** ** One step *)

Definition crypt_data_offset hdr : Z := u64 (Z.shiftl (LUKS2_get_data_offset hdr) SECTOR_SHIFT).

Definition reencrypt_init_storage_wrappers hdr rh : Z + crypt_storage_wrapper * crypt_storage_wrapper :=
  match data_wrapper (reencrypt_get_data_offset_old hdr) (re_iv_offset env) (reencrypt_get_sector_size_old hdr)
          (reencrypt_segment_cipher_old hdr) (io_vk io (rh_digest_old rh)) (io_wrapper_flags io) with
  | inl r => inl r
  | inr cw1 =>
      match data_wrapper (reencrypt_get_data_offset_new hdr) (re_iv_offset env) (reencrypt_get_sector_size_new hdr)
              (reencrypt_segment_cipher_new hdr) (io_vk io (rh_digest_new rh)) (io_wrapper_flags io) with
      | inl r => inl r
      | inr cw2 => inr (cw1, cw2)
      end
  end.

(** The moved head of the data is read at its own place. *)
Definition old_wrapper hdr rh cw1 : Z + crypt_storage_wrapper :=
  if (rh_offset rh =? 0) && bool_decide (rh_mode rh = CRYPT_REENCRYPT_ENCRYPT) && negb (rh_data_shift rh =? 0)
     && bool_decide (is_Some (rh_segment_moved rh))
  then data_wrapper (LUKS2_reencrypt_get_data_offset_moved hdr) (re_iv_offset env)
         (reencrypt_get_sector_size_old hdr) (reencrypt_segment_cipher_old hdr)
         (io_vk io (rh_digest_old rh)) (io_wrapper_flags io)
  else inr cw1.

(** The data: read, protect, decrypt, encrypt and write. *)
Definition reencrypt_hotzone hdr rh cw1 cw2 (s : store)
    : reenc_status_t * luks2_hdr * luks2_reencrypt * store :=
  let '(read, buffer, s) := (fun '(r, b, f) => (r, b, set_data f s))
    (crypt_storage_wrapper_read cw1 (rh_offset rh) (rh_length rh) (data_dev s)) in
  let rh := set_read rh read in
  if read <? 0 then (REENC_ROLLBACK, hdr, rh, s)
  else
    let '(r, hdr, s) := reencrypt_hotzone_protect_final hdr rh buffer read s in
    if r <? 0 then (REENC_ROLLBACK, hdr, rh, s)
    else
      let '(r, buffer, s) := (fun '(r, b, f) => (r, b, set_data f s))
        (crypt_storage_wrapper_decrypt cw1 (rh_offset rh) buffer read (data_dev s)) in
      if negb (r =? 0) then (REENC_ROLLBACK, hdr, rh, s)
      else
        let '(w, _, s) := (fun '(r, b, f) => (r, b, set_data f s))
          (crypt_storage_wrapper_encrypt_write cw2 (rh_offset rh) buffer read (data_dev s)) in
        if negb (read =? w) then (REENC_FATAL, hdr, rh, s)
        else if negb (is_none_protection (rh_rp rh)) && negb (io_datasync io =? 0)
        then (REENC_FATAL, hdr, rh, s)
        else (REENC_OK, hdr, rh, s).

Definition reencrypt_step hdr rh cw1 cw2 (device_size : Z) (s : store)
    : reenc_status_t * luks2_hdr * luks2_reencrypt * crypt_storage_wrapper * store :=
  let '(r, hdr) := reencrypt_keyslot_update hdr rh in
  if r <? 0 then (REENC_ERR, hdr, rh, cw1, s)
  else
    let '(r, rh) := reencrypt_make_segments env hdr rh device_size in
    if negb (r =? 0) then (REENC_ERR, hdr, rh, cw1, s)
    else
      let '(r, hdr, rh) := reencrypt_assign_segments hdr rh true in
      if negb (r =? 0) then (REENC_ERR, hdr, rh, cw1, s)
      else match old_wrapper hdr rh cw1 with
      | inl _ => (REENC_ROLLBACK, hdr, rh, cw1, s)
      | inr cw1 =>
          let '(rs, hdr, rh, s) := reencrypt_hotzone hdr rh cw1 cw2 s in
          match rs with
          | REENC_OK =>
              let '(r, hdr, rh) := reencrypt_assign_segments hdr rh false in
              if negb (r =? 0) then (REENC_FATAL, hdr, rh, cw1, s)
              else if negb (is_none_protection (rh_rp rh)) then
                let '(r, hdr, s) := hdr_write hdr s in
                if negb (r =? 0) then (REENC_FATAL, hdr, rh, cw1, s) else (REENC_OK, hdr, rh, cw1, s)
              else (REENC_OK, hdr, rh, cw1, s)
          | rs => (rs, hdr, rh, cw1, s)
          end
      end.

(** The loop of [crypt_reencrypt]. [quit] is what the progress callback
    answers after each step; the callback, and the fuel, are the only
    reasons to stop early. *)
Fixpoint reencrypt_loop (fuel : nat) (quit : list bool) (rs : reenc_status_t) hdr rh cw1 cw2 (s : store)
    : option (reenc_status_t * luks2_hdr * luks2_reencrypt * store) :=
  if rh_device_size rh <=? rh_progress rh then Some (rs, hdr, rh, s)
  else match fuel with
  | O => None
  | S fuel' =>
      let '(rs, hdr, rh, cw1, s) := reencrypt_step hdr rh cw1 cw2 (rh_device_size rh) s in
      match rs with
      | REENC_OK =>
          match reencrypt_context_update rh with
          | inl _ => Some (REENC_ERR, hdr, rh, s)
          | inr rh =>
              if default false (head quit) then Some (REENC_OK, hdr, rh, s)
              else reencrypt_loop fuel' (tail quit) rs hdr rh cw1 cw2 s
          end
      | _ => Some (rs, hdr, rh, s)
      end
  end.

(** ** Recovery *)

(** Where the recovery finds the hotzone, and its first vector. *)
Definition hot_segment rh : Z :=
  match rh_segs_hot rh with Some hot => json_segments_segment_in_reencrypt hot | None => - 1 end.
Definition crash_window hdr rh : Z := crypt_data_offset hdr +64 rh_offset rh.
Definition crash_iv_offset rh : Z :=
  if bool_decide (rh_mode rh = CRYPT_REENCRYPT_DECRYPT) then Z.shiftr (rh_offset rh) SECTOR_SHIFT
  else json_segment_get_iv_offset (rh_segs_hot rh ≫= fun hot => json_segments_get_segment hot (hot_segment rh)).

Definition recover_new_wrapper hdr rh : Z + crypt_storage_wrapper :=
  data_wrapper (crash_window hdr rh) (crash_iv_offset rh)
    (json_segment_get_sector_size (reencrypt_segment hdr true)) (reencrypt_segment_cipher_new hdr)
    (io_vk io (rh_digest_new rh)) 0.

(** Where the old data is read: in place, in the journal, or where the shift
    left it. *)
Definition recover_old_wrapper hdr rh (area_offset : Z) : Z + crypt_storage_wrapper :=
  let old_sector_size := json_segment_get_sector_size (reencrypt_segment hdr false) in
  let cipher := reencrypt_segment_cipher_old hdr in
  let vk_old := io_vk io (rh_digest_old rh) in
  match rh_rp rh with
  | REENC_PROTECTION_CHECKSUM _ _ =>
      data_wrapper (crash_window hdr rh) (crash_iv_offset rh) old_sector_size cipher vk_old 0
  | REENC_PROTECTION_JOURNAL =>
      crypt_storage_wrapper_init (io_meta_block io) (io_meta_alignment io) (io_meta_wrapper_fd io) (io_dmcrypt io)
        area_offset (crash_iv_offset rh) old_sector_size cipher vk_old 0
  | REENC_PROTECTION_DATASHIFT =>
      data_wrapper (if hot_segment rh =? 0 then json_segment_get_offset (rh_segment_moved rh) false
                    else crash_window hdr rh -64 rh_data_shift rh) 0 0 cipher None 0
  | REENC_PROTECTION_NONE => inl (- EINVAL)
  end.

(** Blocks [i], [i + 1], ... ([n] of them) whose checksum is the stored one
    still hold the old data: they are reencrypted. *)
Fixpoint recover_blocks (n : nat) (i : Z) (hash : string) (hash_size alignment : Z) cw1 cw2
    (checksums data : bytes) (s : store) : Z * store :=
  match n with
  | O => (0, s)
  | S n' =>
      match hash_block hash hash_size (slice (i * alignment) alignment data) with
      | None => (EINVAL, s)
      | Some c =>
          if bool_decide (c = slice (i * hash_size) hash_size checksums) then
            let '(r, block, s) := (fun '(r, b, f) => (r, b, set_data f s))
              (crypt_storage_wrapper_decrypt cw1 (i * alignment) (slice (i * alignment) alignment data)
                 alignment (data_dev s)) in
            if negb (r =? 0) then (- EINVAL, s)
            else
              let '(w, _, s) := (fun '(r, b, f) => (r, b, set_data f s))
                (crypt_storage_wrapper_encrypt_write cw2 (i * alignment) block alignment (data_dev s)) in
              if (w <? 0) || negb (w =? alignment) then (- EINVAL, s)
              else recover_blocks n' (i + 1) hash hash_size alignment cw1 cw2 checksums data s
          else recover_blocks n' (i + 1) hash hash_size alignment cw1 cw2 checksums data s
      end
  end.

(** The old data is read from where a copy of it is, and written again. *)
Definition recover_copy cw1 cw2 (from_meta : bool) (length : Z) (s : store) : Z * store :=
  let '(read, buffer, s) :=
    if from_meta
    then (fun '(r, b, f) => (r, b, set_meta f s)) (crypt_storage_wrapper_read_decrypt cw1 0 length (meta_file s))
    else (fun '(r, b, f) => (r, b, set_data f s)) (crypt_storage_wrapper_read_decrypt cw1 0 length (data_dev s)) in
  if (read <? 0) || negb (read =? length) then (- EIO, s)
  else
    let '(w, _, s) := (fun '(r, b, f) => (r, b, set_data f s))
      (crypt_storage_wrapper_encrypt_write cw2 0 buffer length (data_dev s)) in
    if (w <? 0) || negb (w =? length) then (- EINVAL, s) else (0, s).

(** A key that is needed must be known. *)
Definition recover_keys rh : bool :=
  (bool_decide (is_Some (io_vk io (rh_digest_new rh))) || bool_decide (rh_mode rh = CRYPT_REENCRYPT_DECRYPT)) &&
  (bool_decide (is_Some (io_vk io (rh_digest_old rh))) || bool_decide (rh_mode rh = CRYPT_REENCRYPT_ENCRYPT)).

Definition reencrypt_recover_segment hdr rh (s : store) : Z * luks2_reencrypt * store :=
  if (hot_segment rh <? 0) || (rh_length rh <? 512) then (- EINVAL, rh, s)
  else if negb (recover_keys rh) then (- EINVAL, rh, s)
  else match recover_new_wrapper hdr rh with
  | inl r => (r, rh, s)
  | inr cw2 =>
      let '(r, area_offset, area_length) := LUKS2_keyslot_area hdr (rh_reenc_keyslot rh) in
      let out r s := (r, rh, s) in
      let finish '(r, s) := (r, if r =? 0 then set_read rh (rh_length rh) else rh, s) in
      if negb (r =? 0) then out (- EINVAL) s
      else match rh_rp rh with
      | REENC_PROTECTION_CHECKSUM hash hash_size =>
          match recover_old_wrapper hdr rh area_offset with
          | inl r => out r s
          | inr cw1 =>
              let count := rh_length rh / rh_alignment rh in
              let area_length_read := count *64 hash_size in
              if area_length <? area_length_read then out (- EINVAL) s
              else if io_meta_fd io <? 0 then out 0 s
              else
                let '(read, checksums, s) := (fun '(r, b, f) => (r, b, set_meta f s))
                  (read_lseek_blockwise (io_meta_fd io) (io_meta_block io) (io_meta_alignment io)
                     area_length_read area_offset (meta_file s)) in
                if (read <? 0) || negb (read =? area_length_read) then out (- EINVAL) s
                else
                  let '(read, data, s) := (fun '(r, b, f) => (r, b, set_data f s))
                    (crypt_storage_wrapper_read cw2 0 (rh_length rh) (data_dev s)) in
                  if (read <? 0) || negb (read =? rh_length rh) then out (- EINVAL) s
                  else finish (recover_blocks (Z.to_nat count) 0 hash hash_size (rh_alignment rh)
                                 cw1 cw2 checksums data s)
          end
      | REENC_PROTECTION_JOURNAL =>
          if area_length <? rh_length rh then out (- EINVAL) s
          else match recover_old_wrapper hdr rh area_offset with
               | inl r => out r s
               | inr cw1 => finish (recover_copy cw1 cw2 true (rh_length rh) s)
               end
      | REENC_PROTECTION_DATASHIFT =>
          match recover_old_wrapper hdr rh area_offset with
          | inl r => out r s
          | inr cw1 => finish (recover_copy cw1 cw2 false (rh_length rh) s)
          end
      | REENC_PROTECTION_NONE => out (- EINVAL) s
      end
  end.
End data.
