(* ===== verification/Luks2ReencryptProps.v ===== *)
(** * Luks2ReencryptProps: the windows and the segments of a reencryption

    The windows a reencryption goes through tile the device; the segments of
    every step map each byte to one place; an interrupted reencryption resumes
    at the window that is next. *)

From S2P Require Import Prelude CryptBackend UtilsIO CryptStorage StorageWrapper Cstd JsonC Luks2Json Luks2Keyslot Luks2Edit Luks2Validate Luks2EditFacts Luks2Format Luks2Reencrypt Luks2ReencryptData.

(** ** Windows *)

(** Consecutive ranges from [a] to [b], none of them empty. *)
Fixpoint tiles (a b : Z) (ws : list (Z * Z)) : Prop :=
  match ws with
  | [] => a = b
  | (o, n) :: ws' => o = a /\ 0 < n /\ tiles (a + n) b ws'
  end.

Lemma tiles_app a b c ws ws' : tiles a b ws -> tiles b c ws' -> tiles a c (ws ++ ws').
Proof.
  revert a. induction ws as [|[o n] ws IH]; intros a; cbn; [by intros ->|].
  intros (-> & Hn & H) H'. auto.
Qed.

Section windows.
Context `{JC : JsonC}.
Implicit Types rh : luks2_reencrypt.

(** The loop of [crypt_reencrypt] when every hotzone is read in full. *)
Fixpoint reencrypt_windows (fuel : nat) rh : option (list (Z * Z)) :=
  if rh_progress rh <? rh_device_size rh then
    match fuel with
    | O => None
    | S fuel' =>
        match reencrypt_context_update (set_read rh (rh_length rh)) with
        | inl _ => None
        | inr rh' => cons (rh_offset rh, rh_length rh) <$> reencrypt_windows fuel' rh'
        end
    end
  else Some [].

(** Backwards with a data shift, the head of the data comes last. *)
Definition moves_data rh : bool :=
  negb (rh_data_shift rh =? 0) && bool_decide (rh_mode rh = CRYPT_REENCRYPT_ENCRYPT).

Definition window_ok rh : Prop :=
  0 <= rh_offset rh /\ 0 < rh_length rh /\ rh_offset rh + rh_length rh <= rh_device_size rh < 2 ^ 63 /\
  match rh_direction rh with
  | CRYPT_REENCRYPT_FORWARD => rh_progress rh = rh_offset rh
  | CRYPT_REENCRYPT_BACKWARD =>
      rh_progress rh = rh_device_size rh - rh_offset rh - rh_length rh /\
      (moves_data rh = true ->
       rh_offset rh = 0 \/
       (0 < rh_data_shift rh <= rh_offset rh /\
        (rh_length rh = rh_data_shift rh \/
         (rh_offset rh = rh_data_shift rh /\ rh_length rh < rh_data_shift rh))))
  end.

(** What is left after the window of [rh]. *)
Definition done_after rh rh' : Prop :=
  rh_device_size rh' = rh_device_size rh /\ rh_progress rh' = rh_progress rh + rh_length rh /\
  rh_direction rh' = rh_direction rh /\
  (rh_progress rh' < rh_device_size rh -> window_ok rh') /\
  match rh_direction rh with
  | CRYPT_REENCRYPT_FORWARD => rh_offset rh' = rh_offset rh + rh_length rh
  | CRYPT_REENCRYPT_BACKWARD =>
      rh_progress rh' < rh_device_size rh -> rh_offset rh' + rh_length rh' = rh_offset rh
  end.

Lemma update_forward rh :
  window_ok rh -> rh_direction rh = CRYPT_REENCRYPT_FORWARD ->
  exists rh', reencrypt_context_update (set_read rh (rh_length rh)) = inr rh' /\ done_after rh rh'.
Proof.
  intros (Ho & Hl & Hd & Hp) Hdir. unfold reencrypt_context_update, done_after. rewrite Hdir in *.
  cbn [rh_read rh_direction rh_offset rh_device_size rh_length rh_progress set_read].
  rewrite (proj2 (Z.ltb_ge _ 0)), Hdir by lia.
  rewrite (add64_id (rh_offset rh)), (sub64_id (rh_device_size rh)), (add64_id (rh_progress rh)) by lia.
  rewrite (proj2 (Z.ltb_ge _ _)) by lia. eexists. split; [done|]. unfold window_ok. cbn.
  rewrite Hdir. repeat split; try lia; destruct (Z.ltb_spec (rh_device_size rh - (rh_offset rh + rh_length rh)) (rh_length rh)); lia.
Qed.

Lemma update_backward rh :
  window_ok rh -> rh_direction rh = CRYPT_REENCRYPT_BACKWARD -> moves_data rh = false ->
  exists rh', reencrypt_context_update (set_read rh (rh_length rh)) = inr rh' /\ done_after rh rh'.
Proof.
  intros (Ho & Hl & Hd & Hp) Hdir Hm. unfold reencrypt_context_update, done_after. rewrite Hdir in *.
  destruct Hp as [Hp _].
  cbn [rh_read rh_direction rh_offset rh_device_size rh_length rh_progress rh_data_shift rh_mode set_read].
  rewrite (proj2 (Z.ltb_ge _ 0)), Hdir by lia. fold (moves_data rh). rewrite Hm.
  set (n := if rh_offset rh <? rh_length rh then _ else _).
  assert (0 <= n <= rh_offset rh /\ (0 < rh_offset rh -> 0 < n)) as Hn
    by (unfold n; destruct (Z.ltb_spec (rh_offset rh) (rh_length rh)); lia).
  rewrite sub64_id, (add64_id (rh_progress rh)) by lia. rewrite (proj2 (Z.ltb_ge _ _)) by lia.
  eexists. split; [done|]. unfold window_ok, moves_data in *. cbn. rewrite Hdir, Hm.
  split; [done|]. split; [done|]. split; [done|]. split; [|lia]. intros. repeat split; lia || done.
Qed.

Lemma update_moved rh :
  window_ok rh -> rh_direction rh = CRYPT_REENCRYPT_BACKWARD -> moves_data rh = true ->
  exists rh', reencrypt_context_update (set_read rh (rh_length rh)) = inr rh' /\ done_after rh rh'.
Proof.
  intros (Ho & Hl & Hd & Hp) Hdir Hm. unfold reencrypt_context_update, done_after. rewrite Hdir in *.
  destruct Hp as [Hp Hsh]. specialize (Hsh Hm).
  cbn [rh_read rh_direction rh_offset rh_device_size rh_length rh_progress rh_data_shift rh_mode set_read].
  rewrite (proj2 (Z.ltb_ge _ 0)), Hdir by lia. fold (moves_data rh). rewrite Hm.
  rewrite (add64_id (rh_progress rh)) by lia.
  destruct (Z.eqb_spec (rh_offset rh) 0) as [E0|E0]; cbn [negb].
  - rewrite E0. cbn [Z.eqb negb andb]. rewrite (proj2 (Z.ltb_ge _ _)) by lia.
    eexists. split; [done|]. cbn. repeat split; try lia; done.
  - destruct Hsh as [|(Hs & Hls)]; [done|]. rewrite sub64_id by lia.
    unfold window_ok, moves_data in *.
    destruct (Z.eqb_spec (rh_offset rh - rh_data_shift rh) 0) as [E1|E1]; cbn [negb andb].
    + rewrite E1. cbn [Z.eqb]. rewrite (proj2 (Z.ltb_ge _ _)) by lia.
      eexists. split; [done|]. cbn. rewrite Hdir, Hm. repeat split; try lia; done.
    + destruct (Z.ltb_spec (rh_offset rh - rh_data_shift rh) (rh_data_shift rh)).
      * rewrite (proj2 (Z.eqb_neq (rh_data_shift rh) 0)) by lia. rewrite (proj2 (Z.ltb_ge _ _)) by lia.
        eexists. split; [done|]. cbn. rewrite Hdir, Hm. repeat split; try lia; done.
      * rewrite (proj2 (Z.eqb_neq (rh_offset rh - rh_data_shift rh) 0)) by lia.
        rewrite (proj2 (Z.ltb_ge _ _)) by lia.
        eexists. split; [done|]. cbn. rewrite Hdir, Hm. repeat split; try lia; done.
Qed.

Lemma update_done rh :
  window_ok rh ->
  exists rh', reencrypt_context_update (set_read rh (rh_length rh)) = inr rh' /\ done_after rh rh'.
Proof.
  intros H. destruct (rh_direction rh) eqn:Hdir; [by apply update_forward|].
  destruct (moves_data rh) eqn:Hm; [by apply update_moved|by apply update_backward].
Qed.

Lemma windows_tile rh fuel :
  window_ok rh -> (Z.to_nat (rh_device_size rh - rh_progress rh) <= fuel)%nat ->
  exists ws, reencrypt_windows fuel rh = Some ws /\
    match rh_direction rh with
    | CRYPT_REENCRYPT_FORWARD => tiles (rh_offset rh) (rh_device_size rh) ws
    | CRYPT_REENCRYPT_BACKWARD => tiles 0 (rh_offset rh + rh_length rh) (reverse ws)
    end.
Proof.
  revert rh. induction fuel as [|fuel IH]; intros rh Hok Hf; pose proof Hok as (Ho & Hl & Hd & Hp).
  { exfalso. destruct (rh_direction rh); lia. }
  cbn [reencrypt_windows].
  assert (rh_progress rh < rh_device_size rh) as Hlt by (destruct (rh_direction rh); lia).
  rewrite (proj2 (Z.ltb_lt _ _)) by done.
  destruct (update_done rh Hok) as (rh' & -> & Hdev & Hpr & Hdir & Hnext & Hwin).
  destruct (decide (rh_progress rh' < rh_device_size rh)) as [Hmore|Hend].
  - destruct (IH rh' (Hnext Hmore)) as (ws & Hws & Ht); [lia|]. rewrite Hws.
    exists ((rh_offset rh, rh_length rh) :: ws). split; [done|]. rewrite Hdir in Ht.
    destruct (rh_direction rh).
    + cbn. rewrite Hdev, Hwin in Ht. auto.
    + rewrite (Hwin Hmore) in Ht. rewrite reverse_cons. eapply tiles_app; [done|]. cbn. auto.
  - exists [(rh_offset rh, rh_length rh)]. split.
    + destruct fuel; cbn [reencrypt_windows]; rewrite (proj2 (Z.ltb_ge _ _)) by lia; done.
    + destruct (rh_direction rh); cbn; lia.
Qed.
End windows.

(** ** The first window *)

Section first_window.
Context `{JC : JsonC} (env : reenc_env).

Lemma moved_offset hdr segs length shift o l :
  in_u 64 shift -> 0 <= length -> reencrypt_offset_backward_moved hdr segs length shift = inr (o, l) ->
  0 <= o /\ 0 <= l /\ (o = 0 \/ (shift <= o /\ l = length) \/ (o = shift /\ l < shift)).
Proof.
  unfold reencrypt_offset_backward_moved. set (n := linear_length_loop _ _ _ _). intros Hs Hl.
  destruct (Z.eqb_spec n 0); cbn [negb].
  - destruct (_ =? 1); [|done]. intros [= <- <-]. lia.
  - destruct (Z.ltb_spec n shift); [done|].
    assert (0 <= n -64 shift) by (apply (wrap_range 64); lia). revert H0.
    generalize (n -64 shift). intros t Ht.
    destruct (Z.eqb_spec t 0); cbn [negb andb]; [intros [= <- <-]; lia|].
    destruct (Z.ltb_spec t shift); intros [= <- <-]; unfold in_u in Hs; lia.
Qed.

Lemma backward_offset segs device_size length o l :
  0 <= device_size < 2 ^ 64 -> 0 <= length -> _offset_backward segs device_size length = inr (o, l) ->
  0 <= o /\ 0 <= l <= length.
Proof.
  unfold _offset_backward. intros Hd Hl.
  pose proof (segment_size_range (json_segments_get_segment segs 0)) as Hr. unfold in_u in Hr.
  destruct (_ =? 1).
  - destruct (Z.ltb_spec device_size length); intros [= <- <-]; rewrite sub64_id by lia; lia.
  - destruct (_ =? 2); [|done].
    destruct (Z.ltb_spec (json_segment_get_size (json_segments_get_segment segs 0) false) length);
      intros [= <- <-]; rewrite sub64_id by lia; lia.
Qed.

Lemma forward_offset segs o : _offset_forward segs = inr o -> 0 <= o.
Proof.
  unfold _offset_forward. pose proof (segment_size_range (json_segments_get_segment segs 0)) as Hr.
  unfold in_u in Hr. destruct (_ =? 1); [intros [= <-]; lia|].
  destruct (_ =? 2); [|done]. destruct (Z.eqb_spec (json_segment_get_size (json_segments_get_segment segs 0) false) 0);
    [done|]. intros [= <-]. lia.
Qed.

(** The state of a header that no reencryption left in the middle of a
    hotzone. *)
Definition clean (hdr : luks2_hdr) : Prop :=
  json_segments_segment_in_reencrypt (json_get (jobj hdr) "segments") < 0.

Lemma data_shift_range hdr : in_u 64 (reencrypt_data_shift hdr).
Proof.
  unfold reencrypt_data_shift. destruct (_ ≫= _); [apply str_to_uint64_range|split; lia].
Qed.

Lemma area_length_nonneg hdr ks r ao al : LUKS2_keyslot_area hdr ks = (r, ao, al) -> 0 <= al.
Proof.
  unfold LUKS2_keyslot_area. intros H. repeat case_match; injection H as <- <- <-; try lia.
  apply str_to_uint64_range.
Qed.

(** The parts of a context that was loaded. *)
Lemma context_init_parts hdr dev params rh :
  reencrypt_context_init env hdr dev params = inr rh ->
  exists rp ks area_length o l,
    let alignment := reencrypt_get_alignment env hdr in
    let fixed := negb (p_device_size params =? 0) in
    let D := if fixed then u64 (Z.shiftl (p_device_size params) SECTOR_SHIFT) else dev in
    let len := reencrypt_length env hdr rp alignment area_length
                 (u64 (Z.shiftl (p_max_hotzone_size params) SECTOR_SHIFT)) in
    protection_of env params = inr rp /\ alignment <> 0 /\ 0 <= area_length /\
    reencrypt_offset hdr (reencrypt_direction hdr) D len = inr (o, l) /\
    o <= D /\ rh_offset rh = o /\ rh_length rh = (if D - o <? l then D - o else l) /\ 512 <= rh_length rh /\
    rh_device_size rh = D /\ rh_direction rh = reencrypt_direction hdr /\ rh_mode rh = reencrypt_mode hdr /\
    rh_rp rh = rp /\ rh_alignment rh = alignment /\ rh_reenc_keyslot rh = ks /\ rh_fixed_length rh = fixed /\
    rh_data_shift rh = (match rp with REENC_PROTECTION_DATASHIFT => reencrypt_data_shift hdr | _ => 0 end) /\
    rh_progress rh = (match reencrypt_direction hdr with
                      | CRYPT_REENCRYPT_BACKWARD => D -64 o -64 rh_length rh
                      | CRYPT_REENCRYPT_FORWARD => o
                      end).
Proof.
  unfold reencrypt_context_init. cbv zeta.
  destruct (LUKS2_find_keyslot hdr "reencrypt" <? 0); [done|].
  destruct (LUKS2_keyslot_area hdr _) as [[r ao] al] eqn:Ea. destruct (r <? 0); [done|].
  apply area_length_nonneg in Ea.
  destruct (Z.eqb_spec (reencrypt_get_alignment env hdr) 0); [done|]. destruct (negb _) at 1; [done|]. destruct (negb _) at 1; [done|].
  destruct (protection_of env params) as [|rp]; [done|].
  destruct (_ =? 0) at 1; [done|].
  destruct (reencrypt_offset _ _ _ _) as [|[o l]] eqn:Eo; [done|].
  destruct (Z.ltb_spec (if negb (p_device_size params =? 0) then u64 (Z.shiftl (p_device_size params) SECTOR_SHIFT) else dev) o); [done|].
  destruct (segment_by_flag hdr "backup-final") as [sn dnew].
  destruct (segment_by_flag hdr "backup-previous") as [so dold].
  destruct (segment_by_flag hdr "backup-moved-segment") as [sm dmov].
  match goal with |- context [?x <? 512] => destruct (Z.ltb_spec x 512) end; [done|]. intros [= <-].
  exists rp, (LUKS2_find_keyslot hdr "reencrypt"), al, o, l. cbn. by repeat split.
Qed.
End first_window.

Section first_window_theorem.
Context `{JC : JsonC} (env : reenc_env).

Lemma clip_nonneg b m n : 0 <= m -> 0 <= n -> 0 <= (if (b : bool) then m else n).
Proof. by destruct b. Qed.

Lemma reencrypt_length_nonneg hdr rp alignment area max :
  0 < alignment -> 0 <= area -> 0 <= max -> (forall n, 0 <= re_optimal_alignment env n) ->
  0 <= reencrypt_length env hdr rp alignment area max.
Proof.
  intros Ha Har Hm Hopt. unfold reencrypt_length.
  assert (Htail : forall n, 0 <= n ->
    0 <= (if n - n mod alignment =? 0 then n - n mod alignment
          else if negb (re_optimal_alignment env (n - n mod alignment) mod alignment =? 0)
               then n - n mod alignment
               else if re_optimal_alignment env (n - n mod alignment) <? n - n mod alignment
                    then n - n mod alignment
                         - (n - n mod alignment) mod re_optimal_alignment env (n - n mod alignment)
                    else n - n mod alignment)).
  { intros n Hn. pose proof (Z.mod_le n alignment Hn Ha). set (k := n - n mod alignment) in *.
    specialize (Hopt k). apply clip_nonneg; [lia|]. apply clip_nonneg; [lia|]. apply clip_nonneg; [|lia].
    destruct (decide (re_optimal_alignment env k = 0)) as [->|]; [rewrite Z.mod_0_r; lia|].
    pose proof (Z.mod_le k (re_optimal_alignment env k)). lia. }
  assert (0 <= u64 (Z.shiftl (re_physmemory_kb env) 8)) by (apply (wrap_range 64); lia).
  assert (0 <= area / match rp with REENC_PROTECTION_CHECKSUM _ n => n | _ => 1 end *64 alignment)
    by (apply (wrap_range 64); lia).
  destruct rp; try apply data_shift_range; cbv zeta; apply Htail; repeat apply clip_nonneg;
    unfold LUKS2_REENCRYPT_MAX_HOTZONE_LENGTH, LUKS2_DEFAULT_NONE_REENCRYPTION_LENGTH; lia.
Qed.

Lemma reencrypt_offset_parts hdr D len o l :
  clean hdr -> 0 <= D < 2 ^ 64 -> 0 <= len ->
  reencrypt_offset hdr (reencrypt_direction hdr) D len = inr (o, l) ->
  0 <= o /\ (reencrypt_direction hdr = CRYPT_REENCRYPT_BACKWARD ->
    reencrypt_mode hdr = CRYPT_REENCRYPT_ENCRYPT ->
    0 <= LUKS2_get_segment_id_by_flag hdr "backup-moved-segment" ->
    0 <= l /\ let shift := reencrypt_data_shift hdr in
    (o = 0 \/ (shift <= o /\ l = len) \/ (o = shift /\ l < shift))).
Proof.
  unfold clean, reencrypt_offset. intros Hc HD Hlen. rewrite (proj2 (Z.leb_gt 0 _)) by done.
  destruct (reencrypt_direction hdr).
  - destruct (_offset_forward _) as [|o'] eqn:Ef; [done|]. intros [= <- <-].
    apply forward_offset in Ef. by split.
  - destruct (Z.leb_spec 0 (LUKS2_get_segment_id_by_flag hdr "backup-moved-segment")).
    + destruct (bool_decide_reflect (reencrypt_mode hdr = CRYPT_REENCRYPT_ENCRYPT)); cbn [andb].
      * intros H'. apply moved_offset in H' as (? & ? & ?); [|apply data_shift_range|done]. done.
      * intros H'. apply backward_offset in H' as (? & ?); [|done..]. by split.
    + rewrite andb_false_r. intros H'. apply backward_offset in H' as (? & ?); [|done..]. split; [done|lia].
Qed.

(** A context loaded from a header that is not in the middle of a hotzone
    starts with a good window. *)
Lemma context_init_window hdr dev params rh :
  clean hdr -> 0 <= dev < 2 ^ 63 -> rh_device_size rh < 2 ^ 63 ->
  reencrypt_context_init env hdr dev params = inr rh ->
  0 <= re_block_size env -> (forall n, 0 <= re_optimal_alignment env n) ->
  (moves_data rh = true -> 0 <= LUKS2_get_segment_id_by_flag hdr "backup-moved-segment" /\
     (rh_offset rh <= rh_data_shift rh \/ rh_data_shift rh <= rh_device_size rh - rh_offset rh)) ->
  window_ok rh.
Proof.
  intros Hclean Hdev HD Hinit Hbs Hopt Hmov.
  apply context_init_parts in Hinit as (rp & ks & al & o & l & Hp). cbv zeta in Hp.
  destruct Hp as (_ & Hal & Hral & Hoff & HoD & Eo & El & H512 & ED & Edir & Emode & _ & _ & _ & _ & Esh & Epr).
  assert (0 <= (if negb (p_device_size params =? 0) then u64 (Z.shiftl (p_device_size params) SECTOR_SHIFT) else dev)) as HD0
    by (apply clip_nonneg; [apply (wrap_range 64)|]; lia).
  set (D := if negb (p_device_size params =? 0) then u64 _ else dev) in *. clearbody D. subst D.
  assert (0 < reencrypt_get_alignment env hdr).
  { assert (0 <= reencrypt_get_alignment env hdr); [|lia]. unfold reencrypt_get_alignment.
    repeat match goal with |- context [if ?b then _ else _] => destruct b eqn:?; rewrite ?andb_true_iff in * end; lia. }
  set (len := reencrypt_length _ _ _ _ _ _) in Hoff.
  assert (Hlen : 0 <= len) by (apply reencrypt_length_nonneg; try done; apply (wrap_range 64); lia).
  apply (reencrypt_offset_parts hdr (rh_device_size rh)) in Hoff as (Ho & Hm); [|done|lia|done].
  split; [lia|]. split; [lia|]. split; [destruct (Z.ltb_spec (rh_device_size rh - o) l); lia|].
  rewrite Edir. destruct (reencrypt_direction hdr) eqn:Ed; [lia|].
  assert (Hn : rh_length rh <= rh_device_size rh - o)
    by (rewrite El; destruct (Z.ltb_spec (rh_device_size rh - o) l); lia).
  split; [by rewrite Epr, Eo, (sub64_id _ o), sub64_id by lia|].
  intros Hmd. destruct (Hmov Hmd) as [Hflag Hfit]. unfold moves_data in Hmd. rewrite Esh, Emode in Hmd.
  apply andb_true_iff in Hmd as [Hs0 Hmd]. apply bool_decide_eq_true_1 in Hmd.
  destruct (Hm eq_refl Hmd Hflag) as (Hl & Hc). rewrite Eo, Esh in *.
  destruct rp; cbn in Hs0; try done. cbn in len. unfold reencrypt_length in len. subst len.
  pose proof (data_shift_range hdr) as Hr. unfold in_u in Hr. rewrite El.
  apply negb_true_iff, Z.eqb_neq in Hs0. cbv zeta in Hc.
  destruct (Z.ltb_spec (rh_device_size rh - o) l); lia.
Qed.
End first_window_theorem.

(** ** A reencryption on a concrete header *)

Local Open Scope string_scope.
Local Open Scope Z_scope.

Definition fx_reencrypt_keyslot (mode direction : string) (area : jtree) : jtree :=
  JObject [ ("type", JString "reencrypt"); ("key_size", JInt 1); ("mode", JString mode);
            ("direction", JString direction); ("area", area) ].

Definition fx_checksum_area (offset size : Z) : jtree :=
  JObject [ ("type", JString "checksum"); ("offset", JString (dec_u offset)); ("size", JString (dec_u size));
            ("hash", JString "sha256"); ("sector_size", JInt 512) ].

Definition fx_flagged (flag : string) (s : jtree) : jtree :=
  match s with JObject l => JObject (l ++ [("flags", JArray [JString flag])]) | j => j end.

(** A header that just began a reencryption: the data in segment 0, the two
    backup segments 1 and 2. *)
Definition fx_reencrypt (direction : string) : jtree :=
  JObject [
    ("keyslots", JObject [("0", fx_keyslot 32768 258048); ("1", fx_keyslot 290816 258048);
                          ("2", fx_reencrypt_keyslot "reencrypt" direction (fx_checksum_area 548864 4096))]);
    ("tokens", JObject []);
    ("segments", JObject [("0", fx_segment 16777216 "dynamic");
                          ("1", fx_flagged "backup-previous" (fx_segment 16777216 "dynamic"));
                          ("2", fx_flagged "backup-final" (fx_segment 16777216 "dynamic"))]);
    ("digests", JObject [("0", fx_digest ["0"] ["0"; "1"]); ("1", fx_digest ["1"; "2"] ["2"])]);
    ("config", JObject [("json_size", JString "12288"); ("keyslots_size", JString "16744448");
                        ("requirements", JObject [("mandatory", JArray [JString "online-reencrypt"])])]) ].

Definition fx_reenc_env : reenc_env :=
  {| re_iv_offset := 0; re_block_size := 512; re_physmemory_kb := 8388608;
     re_optimal_alignment := fun _ => 4096; re_crypt_hash_size := fun _ => 32;
     re_header_attached := true |}.

Definition fx_reenc_params : crypt_params_reencrypt :=
  {| p_resilience := Some "checksum"%string; p_hash := Some "sha256"%string;
     p_max_hotzone_size := 32; p_device_size := 0 |}.

(** ** The windows of the loop *)

Section loop.
Context `{JC : JsonC} `{!HdrStore} `{CH : CryptHash} `{CC : CryptCipher}.
Variables (env : reenc_env) (io : reenc_io).
Implicit Types (hdr : luks2_hdr) (rh : luks2_reencrypt).

(** Offset and length of every step of [reencrypt_loop] that was carried out,
    and how much of its hotzone was read. *)
Fixpoint loop_windows (fuel : nat) (quit : list bool) hdr rh cw1 cw2 (s : store) : list (Z * Z * Z) :=
  if rh_device_size rh <=? rh_progress rh then []
  else match fuel with
  | O => []
  | S fuel' =>
      let '(rs, hdr, rh1, cw1, s) := reencrypt_step env io hdr rh cw1 cw2 (rh_device_size rh) s in
      match rs with
      | REENC_OK =>
          (rh_offset rh, rh_length rh, rh_read rh1) ::
          match reencrypt_context_update rh1 with
          | inl _ => []
          | inr rh => if default false (head quit) then [] else loop_windows fuel' (tail quit) hdr rh cw1 cw2 s
          end
      | _ => []
      end
  end.

(** What the windows depend on. *)
Definition window_fields rh :=
  (rh_offset rh, rh_progress rh, rh_length rh, rh_data_shift rh, rh_device_size rh, rh_direction rh, rh_mode rh).

Lemma assign_keeps hdr rh hot r hdr' rh' :
  reencrypt_assign_segments hdr rh hot = (r, hdr', rh') -> window_fields rh' = window_fields rh.
Proof.
  assert (Hset : forall hdr rh hdr' rh', set_step_segments hdr rh hot = Some (hdr', rh') -> window_fields rh' = window_fields rh).
  { intros h q h' q'. unfold set_step_segments. destruct hot; [destruct (rh_segs_hot q)|destruct (rh_segs_post q)]; cbn; by intros [= <- <-]. }
  unfold reencrypt_assign_segments, reencrypt_assign_segments_simple. intros Ha.
  repeat case_match; simplify_eq; try done; by eapply Hset.
Qed.

Lemma make_keeps hdr rh dev r rh' : reencrypt_make_segments env hdr rh dev = (r, rh') -> window_fields rh' = window_fields rh.
Proof. unfold reencrypt_make_segments. destruct (reencrypt_make_hot_segments _ _ _ _ _) as [r1 rh1] eqn:E. unfold reencrypt_make_hot_segments in E.
  injection E as _ <-. case_match; [|by intros [= _ <-]]. unfold reencrypt_make_post_segments. by intros [= _ <-]. Qed.

Lemma hotzone_keeps hdr rh cw1 cw2 s rs hdr' rh' s' :
  reencrypt_hotzone io hdr rh cw1 cw2 s = (rs, hdr', rh', s') -> window_fields rh' = window_fields rh.
Proof. unfold reencrypt_hotzone. intros Ha. repeat case_match; by simplify_eq. Qed.

Lemma step_keeps hdr rh cw1 cw2 dev s rs hdr' rh' cw' s' :
  reencrypt_step env io hdr rh cw1 cw2 dev s = (rs, hdr', rh', cw', s') -> window_fields rh' = window_fields rh.
Proof.
  unfold reencrypt_step. destruct (reencrypt_keyslot_update hdr rh) as [r hdr1]. destruct (r <? 0); [by intros [= _ _ <-]|].
  destruct (reencrypt_make_segments _ _ _ _) as [r1 rh1] eqn:E1. apply make_keeps in E1 as <-. destruct (negb _); [by intros [= _ _ <-]|].
  destruct (reencrypt_assign_segments hdr1 rh1 true) as [[r2 hdr2] rh2] eqn:E2. apply assign_keeps in E2 as <-. destruct (negb _); [by intros [= _ _ <-]|].
  destruct (old_wrapper _ _ _ _ _); [by intros [= _ _ <-]|].
  destruct (reencrypt_hotzone _ _ _ _ _ _) as [[[rs3 hdr3] rh3] s3] eqn:E3. apply hotzone_keeps in E3 as <-.
  destruct rs3; try (by intros [= _ _ <-]).
  destruct (reencrypt_assign_segments hdr3 rh3 false) as [[r4 hdr4] rh4] eqn:E4. apply assign_keeps in E4 as <-.
  intros Ha. repeat case_match; by simplify_eq.
Qed.

Lemma update_same rh rh2 rh' :
  window_fields rh = window_fields rh2 -> rh_read rh = rh_read rh2 -> reencrypt_context_update rh2 = inr rh' ->
  exists rh1, reencrypt_context_update rh = inr rh1 /\ window_fields rh1 = window_fields rh'.
Proof.
  unfold window_fields. intros [= E1 E2 E3 E4 E5 E6 E7] Er. unfold reencrypt_context_update. rewrite E1, E2, E3, E4, E5, E6, E7, Er.
  destruct (rh_read rh2 <? 0); [done|].
  match goal with |- (let '(_, _) := ?x in _) = _ -> _ => destruct x as [o l] end.
  destruct (rh_device_size rh2 <? o); [done|]. intros [= <-].
  eexists. split; [done|]. cbn. congruence.
Qed.

(** The loop goes through the windows that [reencrypt_windows] lists. *)
Lemma loop_follows_windows fuel quit rs hdr rh rh0 cw1 cw2 s n ws :
  window_fields rh = window_fields rh0 -> reencrypt_windows n rh0 = Some ws ->
  let done := loop_windows fuel quit hdr rh cw1 cw2 s in let result := reencrypt_loop env io fuel quit rs hdr rh cw1 cw2 s in
  Forall (fun '(_, len, read) => read = len) done ->
  done.*1 `prefix_of` ws /\ ((n <= fuel)%nat -> result <> None) /\
  forall hdr' rh' s', result = Some (REENC_OK, hdr', rh', s') -> rh_device_size rh' <= rh_progress rh' -> done.*1 = ws.
Proof.
  cbv zeta. revert quit rs hdr rh rh0 cw1 s n ws. induction fuel as [|fuel IH]; intros quit rs hdr rh rh0 cw1 s n ws Hf Hw;
    pose proof Hf as [= E1 E2 E3 _ E5 _ _].
  - cbn. rewrite E2, E5. destruct n; cbn [reencrypt_windows] in Hw; destruct (Z.ltb_spec (rh_progress rh0) (rh_device_size rh0)); try done.
    + injection Hw as <-. rewrite (proj2 (Z.leb_le _ _)) by lia. done.
    + rewrite (proj2 (Z.leb_gt _ _)) by lia. intros _. split; [apply prefix_nil|]. split; [lia|done].
    + injection Hw as <-. rewrite (proj2 (Z.leb_le _ _)) by lia. done.
  - cbn [loop_windows reencrypt_loop]. rewrite E2, E5.
    destruct (Z.leb_spec (rh_device_size rh0) (rh_progress rh0)) as [Hend|Hmore].
    { destruct n; cbn [reencrypt_windows] in Hw; rewrite (proj2 (Z.ltb_ge _ _)) in Hw by lia; injection Hw as <-; done. }
    destruct n as [|n]; cbn [reencrypt_windows] in Hw; rewrite (proj2 (Z.ltb_lt _ _)) in Hw by lia; [done|].
    destruct (reencrypt_context_update (set_read rh0 _)) as [|rh0'] eqn:Eu; [done|].
    apply fmap_Some in Hw as (ws' & Hw & ->).
    destruct (reencrypt_step _ _ _ _ _ _ _ _) as [[[[rs1 hdr1] rh1] cw1'] s1] eqn:Es. apply step_keeps in Es.
    destruct rs1; try (intros _; split; [apply prefix_nil|done]).
    intros [Hr HF]%Forall_cons. destruct (update_same rh1 (set_read rh0 (rh_length rh0)) rh0') as (rh2 & Eu2 & Hf2);
      [by rewrite Es|cbn; by rewrite Hr|done|].
    rewrite Eu2 in *. rewrite E1, E3. destruct (default false (head quit)).
    + cbn. split; [apply prefix_cons, prefix_nil|]. split; [done|]. intros ? ? ? [= _ <- _] Hd.
      pose proof Hf2 as [= _ F2 _ _ F5 _ _]. destruct n; cbn [reencrypt_windows] in Hw; rewrite (proj2 (Z.ltb_ge _ _)) in Hw by lia; by injection Hw as <-.
    + rewrite fmap_cons. cbn [fst]. destruct (IH (tail quit) REENC_OK hdr1 rh2 rh0' cw1' s1 n ws' Hf2 Hw HF) as (Hp & Ht & Hd).
      split; [by apply prefix_cons|]. split; [intros; apply Ht; lia|]. intros ? ? ? H1 H2. f_equal. by eapply Hd.
Qed.
End loop.

(** ** The properties *)

Section reencrypt_properties.
Context `{JC : JsonC} `{!HdrStore} `{CH : CryptHash} `{CC : CryptCipher} (env : reenc_env).

(** C36: Reencryption covers the device, window by window. The context is the
    one [reencrypt_context_init] makes of a header that is not inside a
    hotzone, for sizes below 2^63; when it moves data, the moved segment is
    there and the shift is not below the offset or not above what is left
    behind it. Then there are windows that tile the device, forwards from the
    first offset to the end, backwards from the end of the first window down to
    0, none of them empty, none overlapping another, at most one per byte left;
    and any run of the loop of [crypt_reencrypt] ([reencrypt_loop], on any
    devices and transfers) in which each hotzone that was carried out was read
    in full carried out an initial part of them, in this order. Such a run ends
    when it may take a step per byte left, and if it ends without an error
    behind the end of the device, it carried out all of them. *)
Theorem reencryption_windows_tile hdr dev params rh :
  clean hdr -> 0 <= dev < 2 ^ 63 -> rh_device_size rh < 2 ^ 63 ->
  reencrypt_context_init env hdr dev params = inr rh ->
  0 <= re_block_size env -> (forall n, 0 <= re_optimal_alignment env n) ->
  (moves_data rh = true -> 0 <= LUKS2_get_segment_id_by_flag hdr "backup-moved-segment" /\
     (rh_offset rh <= rh_data_shift rh \/ rh_data_shift rh <= rh_device_size rh - rh_offset rh)) ->
  let left := Z.to_nat (rh_device_size rh - rh_progress rh) in
  exists ws, reencrypt_windows left rh = Some ws /\
    match rh_direction rh with
    | CRYPT_REENCRYPT_FORWARD => tiles (rh_offset rh) (rh_device_size rh) ws
    | CRYPT_REENCRYPT_BACKWARD => tiles 0 (rh_offset rh + rh_length rh) (reverse ws)
    end /\
    forall io fuel quit rs hdr1 cw1 cw2 s,
      let done := loop_windows env io fuel quit hdr1 rh cw1 cw2 s in
      let result := reencrypt_loop env io fuel quit rs hdr1 rh cw1 cw2 s in
      Forall (fun '(_, len, read) => read = len) done ->
      done.*1 `prefix_of` ws /\ ((left <= fuel)%nat -> result <> None) /\
      forall hdr' rh' s', result = Some (REENC_OK, hdr', rh', s') -> rh_device_size rh' <= rh_progress rh' -> done.*1 = ws.
Proof.
  intros ? ? ? ? ? ? ? left. destruct (windows_tile rh left) as (ws & Hw & Ht); [by eapply context_init_window|done|].
  exists ws. split; [done|]. split; [done|]. intros. by eapply loop_follows_windows.
Qed.
End reencrypt_properties.

Definition fx_reencrypt_hdr (direction : string) : @luks2_hdr (jtree_json []) := fx_hdr [] 3 (fx_reencrypt direction).

(** The context of a reencryption backwards over 64 KiB. *)
Definition fx_context : Z + @luks2_reencrypt (jtree_json []) :=
  reencrypt_context_init fx_reenc_env (fx_reencrypt_hdr "backward") 65536 fx_reenc_params.

Definition fx_context_is (f : @luks2_reencrypt (jtree_json []) -> bool) : bool :=
  match fx_context with inr rh => f rh | inl _ => false end.
