(* ===== verification/Luks2ReencryptRecovery.v ===== *)
(** * Luks2ReencryptRecovery: a hotzone survives a crash

    The window of a step holds a mix of old and new blocks until the step is
    done; the checksums, the journal or the shifted copy of the old data make
    the new data from any mix. *)

From S2P Require Import Prelude CryptBackend UtilsIO CryptStorage StorageWrapper JsonC Luks2Json Luks2Keyslot Luks2Format Luks2Reencrypt Luks2ReencryptStorage Luks2ReencryptData.

(** ** Mixes of blocks *)

Definition block (a i : Z) (X : bytes) : bytes := slice (i * a) a X.

(** Every block of [M] is the block of [O] or the block of [N]. *)
Definition mix (a : Z) (O N M : bytes) : Prop :=
  zlen M = zlen O /\
  forall i, 0 <= i -> (i + 1) * a <= zlen O -> block a i M = block a i O \/ block a i M = block a i N.

Section mix.
Variable a : Z.
Hypothesis Ha : 0 < a.

Lemma mix_old O N : mix a O N O.
Proof. split; [done|]. by left. Qed.

Lemma block_splice i j e M :
  0 <= i -> 0 <= j -> zlen e = a -> (i + 1) * a <= zlen M -> (j + 1) * a <= zlen M ->
  block a i (splice (j * a) e M) = if decide (i = j) then e else block a i M.
Proof.
  intros Hi Hj He HM HjM. unfold block. destruct (decide (i = j)) as [->|Hne].
  - rewrite <-He at 2. apply slice_splice_same; nia.
  - apply slice_splice_disj; nia.
Qed.

Lemma mix_block O N M i :
  zlen N = zlen O -> 0 <= i -> (i + 1) * a <= zlen O -> mix a O N M ->
  mix a O N (splice (i * a) (block a i N) M).
Proof.
  intros HN Hi Hin [HM H]. assert (Hz : zlen (block a i N) = a) by (apply zlen_slice; nia).
  split; [rewrite zlen_splice; nia|]. intros j Hj Hjn. rewrite block_splice by nia.
  destruct (decide (j = i)) as [->|]; [by right|auto].
Qed.

(** A prefix of whole blocks of the new data. *)
Lemma block_prefix N M k i :
  zlen N = zlen M -> (a | k) -> 0 <= k <= zlen M -> 0 <= i -> (i + 1) * a <= zlen M ->
  block a i (splice 0 (take (Z.to_nat k) N) M) = block a i (if decide (i * a < k) then N else M).
Proof.
  intros HN [q ->] Hk Hi Hin. unfold block. assert (Hz : zlen (take (Z.to_nat (q * a)) N) = q * a) by (apply zlen_take; lia).
  destruct (decide (i * a < q * a)) as [Hlt|Hge].
  - assert (i < q) by nia. unfold splice. change (Z.to_nat 0) with 0%nat. rewrite take_0. cbn [app].
    rewrite slice_app_l by nia. unfold slice. rewrite skipn_firstn_comm, take_take. f_equal. nia.
  - apply slice_splice_disj; nia.
Qed.

Lemma mix_prefix O N M k :
  zlen N = zlen O -> (a | k) -> 0 <= k <= zlen O -> mix a O N M ->
  mix a O N (splice 0 (take (Z.to_nat k) N) M).
Proof.
  intros HN Hk Hin [HM H]. split; [rewrite zlen_splice; rewrite ?zlen_take; lia|].
  intros i Hi Hi2. rewrite block_prefix by (done || lia). destruct (decide _); [by right|auto].
Qed.

(** Blocks determine the data. *)
Lemma blocks_eq X Y n :
  zlen X = n * a -> zlen Y = n * a -> (forall i, 0 <= i < n -> block a i X = block a i Y) -> X = Y.
Proof.
  intros HX HY H. pose proof (zlen_nonneg X). assert (0 <= n) as Hn by nia.
  assert (forall m, 0 <= m -> m <= n -> slice 0 (m * a) X = slice 0 (m * a) Y) as Hall.
  { intros m Hm. pattern m. apply natlike_ind; [done| |done]. intros k Hk IH Hkn.
    replace (Z.succ k * a) with (k * a + a) by lia. rewrite !slice_app_split by nia. f_equal; [apply IH; lia|].
    apply (H k). lia. }
  rewrite <-(slice_all X), <-(slice_all Y), HX, HY. by apply Hall.
Qed.
End mix.

(** ** The devices *)

Notation data_bytes s := (f_data (data_dev s)).
Notation meta_bytes s := (f_data (meta_file s)).

Definition attached (s : store) : bool := bool_decide (meta_dev s = None).

(** Sectors of [g] bytes are written whole, on both devices. *)
Definition granular_store (g : Z) (s : store) : Prop :=
  granular g (f_sched (data_dev s)) /\ granular 512 (f_sched (meta_file s)).
Definition benign_store (s : store) : Prop :=
  benign (f_sched (data_dev s)) /\ benign (f_sched (meta_file s)).

(** What an operation on the store leaves of the schedules. *)
Definition store_le (s s' : store) : Prop :=
  attached s' = attached s /\ sched_le (data_dev s) (data_dev s') /\ sched_le (meta_file s) (meta_file s').

#[export] Instance store_le_preorder : PreOrder store_le.
Proof.
  split; [done|]. intros s1 s2 s3 (E1 & A1 & B1) (E2 & A2 & B2).
  split; [congruence|]. split; etransitivity; eauto.
Qed.

Lemma store_le_benign s s' : store_le s s' -> benign_store s -> benign_store s'.
Proof. intros (_ & H1 & H2) [B1 B2]. split; [by apply H1|by apply H2]. Qed.
Lemma store_le_granular g s s' : store_le s s' -> granular_store g s -> granular_store g s'.
Proof. intros (_ & H1 & H2) [B1 B2]. split; [by apply H1|by apply H2]. Qed.

Lemma set_data_le s f : sched_le (data_dev s) f -> store_le s (set_data f s).
Proof.
  intros H. unfold store_le, attached, set_data, meta_file. cbn. split; [done|]. split; [done|].
  destruct (meta_dev s); [done|exact H].
Qed.
Lemma set_meta_le s f : sched_le (meta_file s) f -> store_le s (set_meta f s).
Proof.
  unfold store_le, attached, set_meta, meta_file. intros H. destruct (meta_dev s) eqn:E; cbn in *; done.
Qed.

(** A splice inside a slice. *)
Lemma slice_splice_inner o n i e (l : bytes) :
  0 <= o -> 0 <= i -> i + zlen e <= n -> o + n <= zlen l ->
  slice o n (splice (o + i) e l) = splice i e (slice o n l).
Proof.
  intros Ho Hi Hin Hz. pose proof (zlen_nonneg e).
  assert (Hzs : zlen (slice o n l) = n) by (apply zlen_slice; lia).
  assert (Hzl : zlen (slice o n (splice (o + i) e l)) = n) by (apply zlen_slice; rewrite ?zlen_splice; lia).
  apply list_eq_zlen; [rewrite zlen_splice; lia|]. intros j Hj.
  rewrite lookup_slice, !lookup_splice, lookup_slice by (unfold zlen in *; lia).
  unfold zlen in *. repeat case_decide; try lia; f_equal; lia.
Qed.

Section region.
(** The window on the data device, and the end of the metadata when it is on
    the same device. *)
Variables (woff len area_end : Z) (D0 : bytes).
Hypothesis Hwin : 0 <= woff /\ 0 <= len /\ woff + len <= zlen D0.
Hypothesis Hend : 0 <= area_end <= woff.

Definition meta_limit (s : store) : Z := if attached s then area_end else 0.

(** The window holds [M], the rest of the data is that of [D0]. *)
Definition data_state (M : bytes) (s : store) : Prop :=
  zlen (data_bytes s) = zlen D0 /\ slice woff len (data_bytes s) = M /\
  forall o n, meta_limit s <= o -> 0 <= n -> o + n <= woff \/ woff + len <= o ->
    slice o n (data_bytes s) = slice o n D0.

(** Nothing of the metadata changed. *)
Definition meta_kept (s s' : store) : Prop :=
  zlen (meta_bytes s') = zlen (meta_bytes s) /\
  forall o n, 0 <= o -> 0 <= n -> (attached s = true -> o + n <= area_end) ->
    slice o n (meta_bytes s') = slice o n (meta_bytes s).

#[local] Instance meta_kept_refl : Reflexive meta_kept.
Proof. intros s. by split. Qed.

Lemma meta_kept_trans s1 s2 s3 : store_le s1 s2 -> meta_kept s1 s2 -> meta_kept s2 s3 -> meta_kept s1 s3.
Proof.
  intros (E & _) [Z1 H1] [Z2 H2]. split; [congruence|]. intros o n Ho Hn Hin.
  rewrite H2, H1; auto. by rewrite E.
Qed.

Lemma data_state_zlen M s : data_state M s -> zlen M = len.
Proof. intros (Hz & <- & _). apply zlen_slice; lia. Qed.

(** A write inside the window. *)
Lemma window_write M s f i e :
  data_state M s -> f_data f = splice (woff + i) e (data_bytes s) -> 0 <= i -> i + zlen e <= len ->
  data_state (splice i e M) (set_data f s) /\ meta_kept s (set_data f s).
Proof.
  intros (Hz & <- & Hrest) Hf Hi Hin. pose proof (zlen_nonneg e).
  assert (Hzf : zlen (f_data f) = zlen D0) by (rewrite Hf, zlen_splice; lia).
  split; [split; [exact Hzf|split]|].
  - cbn. rewrite Hf. apply slice_splice_inner; lia.
  - cbn. intros o n Ho Hn Hor. rewrite Hf. assert (0 <= o).
    { revert Ho. unfold meta_limit. destruct (attached _); lia. }
    rewrite slice_splice_disj by lia. by apply Hrest.
  - unfold meta_kept, attached, set_data, meta_file. destruct (meta_dev s) eqn:E; cbn; [done|].
    split; [lia|]. intros o n Ho Hn Hlim. rewrite Hf. specialize (Hlim eq_refl).
    apply slice_splice_disj; lia.
Qed.

(** A change of the metadata. *)
Lemma meta_write M s f :
  data_state M s -> zlen (f_data f) = zlen (meta_bytes s) ->
  (attached s = true -> forall o n, area_end <= o -> 0 <= n -> slice o n (f_data f) = slice o n (meta_bytes s)) ->
  data_state M (set_meta f s).
Proof.
  unfold data_state, meta_limit, attached, set_meta, meta_file. intros (Hz & HM & Hr) Hzf Hf.
  destruct (meta_dev s) eqn:E; cbn in *.
  - done.
  - specialize (Hf eq_refl).
    split; [lia|]. split; [rewrite Hf by lia; done|].
    intros o n Ho Hn Hor. rewrite Hf by lia. auto.
Qed.

(** Reads change nothing. *)
Lemma data_state_same M s f : f_data f = data_bytes s -> data_state M s -> data_state M (set_data f s).
Proof. intros E H. unfold data_state. cbn. rewrite E. exact H. Qed.
Lemma meta_kept_same s f : f_data f = data_bytes s -> meta_kept s (set_data f s).
Proof.
  intros E. unfold meta_kept, attached, meta_file. cbn. destruct (meta_dev s); cbn; [done|]. by rewrite E.
Qed.
Lemma set_meta_same s f : f_data f = meta_bytes s -> meta_kept s (set_meta f s).
Proof.
  intros E. unfold meta_kept. assert (meta_file (set_meta f s) = f) as ->.
  { unfold set_meta, meta_file. by destruct (meta_dev s). }
  by rewrite E.
Qed.

Section wrappers.
Context `{CH : CryptHash} `{CCL : CryptCipherLaws}.

(** A wrapper whose device the window fits. *)
Record wrapper_fits (cw : crypt_storage_wrapper) : Prop := {
  wf_direct : direct_ok cw;
  wf_block : 0 < w_block_size cw;
  wf_device : (w_block_size cw | zlen D0);
  wf_offset : 0 <= data_offset cw;
  wf_size : zlen D0 < 2 ^ 63;
}.

Lemma store_encrypt_write cw off i d e M s g :
  wrapper_fits cw -> 0 <= off -> data_offset cw + off = woff + i -> 0 <= i -> i + zlen d <= len -> 0 < zlen d ->
  encode cw off d = Some e -> (w_block_size cw | woff + i) -> (w_block_size cw | zlen d) -> (g | zlen d) ->
  granular_store g s -> data_state M s ->
  exists r b f k, crypt_storage_wrapper_encrypt_write cw off d (zlen d) (data_dev s) = (r, b, f) /\
    store_le s (set_data f s) /\ meta_kept s (set_data f s) /\ 0 <= k <= zlen d /\ (g | k) /\
    data_state (splice i (take (Z.to_nat k) e) M) (set_data f s) /\
    ((r = zlen d /\ k = zlen d) \/ (r = -1 /\ ~ benign_store s)).
Proof.
  intros [Hok Hb Hdv Hdo Hsz] Hoff Hi Hi0 Hin Hz He Hbo Hbd Hg [Hgr _] HM.
  pose proof (proj1 HM) as Hzd. apply encode_zlen in He as Hze; [|done].
  destruct (encrypt_write_spec cw off d e (data_dev s) g Hok Hb) as (r & b & f & k & -> & Hs & Hk & Hgk & Hd & Hr);
    try done; unfold f_size; rewrite ?Hzd, ?Hi; try done; try lia.
  exists r, b, f, k. split; [done|]. split; [by apply set_data_le|]. rewrite Hi in Hd.
  destruct (window_write M s f i (take (Z.to_nat k) e) HM Hd Hi0) as [H1 H2]; [rewrite zlen_take; lia|].
  split; [done|]. split; [done|]. split; [done|]. split; [done|].
  destruct Hr as [?|[-> Hn]]; [by left|right]. split; [done|]. intros [Hbn _]. auto.
Qed.

(** ** Recovery by checksums *)

Section checksums.
Variables (cw1 cw2 : crypt_storage_wrapper) (hash : string) (hash_size a n : Z) (O P N : bytes).
Hypothesis Ha : 0 < a.
Hypothesis Hlen : len = n * a.
Hypothesis HO : zlen O = len.
Hypothesis Hcw1 : direct_ok cw1.
Hypothesis Hcw2 : wrapper_fits cw2.
Hypothesis Hat : data_offset cw2 = woff.
Hypothesis Hblock : (w_block_size cw2 | woff) /\ (w_block_size cw2 | a).
Hypothesis Hunit1 : (unit_size cw1 | a).
Hypothesis Hunit2 : (unit_size cw2 | a).
Hypothesis HP : decode cw1 0 O = Some P.
Hypothesis HN : encode cw2 0 P = Some N.
Hypothesis Hhash : 0 < hash_size <= crypt_hash_size (bytes_of_string hash).

(** No block of the new data has the checksum of the different old one. *)
Definition no_collision : Prop :=
  forall i, 0 <= i < n -> crypt_hash_final (bytes_of_string hash) (block a i N) hash_size =
                          crypt_hash_final (bytes_of_string hash) (block a i O) hash_size ->
    block a i N = block a i O.

Hypothesis Hcoll : no_collision.
Variable checksums : bytes.
Hypothesis Hcsum : forall i, 0 <= i < n ->
  slice (i * hash_size) hash_size checksums = crypt_hash_final (bytes_of_string hash) (block a i O) hash_size.

Lemma recover_zlen : zlen P = len /\ zlen N = len.
Proof.
  apply decode_zlen in HP as Hz1; [|done]. apply encode_zlen in HN as Hz2; [|apply Hcw2]. lia.
Qed.

Lemma block_decode i : 0 <= i < n -> decode cw1 (i * a) (block a i O) = Some (block a i P).
Proof.
  intros Hi. apply (decode_slice cw1 0 O P (i * a) a); auto; try nia. by apply Z.divide_mul_r.
Qed.
Lemma block_encode i : 0 <= i < n -> encode cw2 (i * a) (block a i P) = Some (block a i N).
Proof.
  intros Hi. destruct recover_zlen as [Hz _].
  apply (encode_slice cw2 0 P N (i * a) a); auto; try nia; [apply Hcw2|by apply Z.divide_mul_r].
Qed.

Lemma recover_blocks_spec m i (X M : bytes) s :
  0 <= i -> Z.of_nat m = n - i -> granular_store a s -> mix a O N M -> data_state M s -> zlen X = len ->
  (forall j, 0 <= j < i -> block a j M = block a j N) -> (forall j, i <= j < n -> block a j X = block a j M) ->
  exists r s' M', recover_blocks m i hash hash_size a cw1 cw2 checksums X s = (r, s') /\
    store_le s s' /\ meta_kept s s' /\ mix a O N M' /\ data_state M' s' /\
    (r = 0 -> M' = N) /\ (benign_store s -> r = 0).
Proof.
  destruct recover_zlen as [HzP HzN]. revert i M s.
  induction m as [|m IH]; intros i M s Hi Hm Hg Hmix Hst HzX Hdone Hrest; cbn [recover_blocks].
  { exists 0, s, M. split; [done|]. split; [done|]. split; [apply meta_kept_refl|]. split; [done|]. split; [done|].
    split; [|done]. intros _. destruct Hmix as [Hz _]. apply (blocks_eq a Ha M N n); try lia.
    intros j Hj. apply Hdone. lia. }
  assert (Hin : 0 <= i < n) by lia. unfold hash_block. destruct (Z.ltb_spec (crypt_hash_size (bytes_of_string hash)) hash_size); [lia|].
  change (slice (i * a) a X) with (block a i X). rewrite Hrest, Hcsum by lia.
  assert (Hstep : forall s1 M1, store_le s s1 -> meta_kept s s1 -> mix a O N M1 -> data_state M1 s1 ->
    (forall j, 0 <= j < i + 1 -> block a j M1 = block a j N) -> (forall j, i + 1 <= j < n -> block a j X = block a j M1) ->
    exists r s' M', recover_blocks m (i + 1) hash hash_size a cw1 cw2 checksums X s1 = (r, s') /\
      store_le s s' /\ meta_kept s s' /\ mix a O N M' /\ data_state M' s' /\
      (r = 0 -> M' = N) /\ (benign_store s -> r = 0)).
  { intros s1 M1 Hle Hk Hmx Hst1 Hd1 Hr1.
    destruct (IH (i + 1) M1 s1) as (r & s' & M' & E & Hle' & Hk' & Hm' & Hs' & Hr & Hbn); try done; try lia.
    { by eapply store_le_granular. }
    exists r, s', M'. split; [done|]. split; [by etransitivity|]. split; [by eapply meta_kept_trans|].
    split; [done|]. split; [done|]. split; [done|]. intros Hb. apply Hbn. by eapply store_le_benign. }
  destruct Hmix as [HzM Hor]. destruct (bool_decide_reflect (crypt_hash_final (bytes_of_string hash) (block a i M) hash_size =
    crypt_hash_final (bytes_of_string hash) (block a i O) hash_size)) as [Heq|Hne].
  - assert (HbO : block a i M = block a i O).
    { destruct (Hor i) as [->| HbN]; [lia|nia|done|]. rewrite HbN in *. by apply Hcoll. }
    assert (Hzb : zlen (block a i O) = a) by (apply zlen_slice; nia).
    assert (HzbP : zlen (block a i P) = a) by (apply zlen_slice; nia).
    assert (HzbN : zlen (block a i N) = a) by (apply zlen_slice; nia).
    pose proof (decrypt_decode cw1 (i * a) (block a i O) (data_dev s) Hcw1) as Hdec.
    rewrite block_decode, Hzb in Hdec by done. rewrite HbO, Hdec. cbn [Z.eqb negb].
    assert (set_data (data_dev s) s = s) as -> by (by destruct s).
    destruct Hblock as [Hb1 Hb2].
    destruct (store_encrypt_write cw2 (i * a) (i * a) (block a i P) (block a i N) M s a)
      as (r & b & f & k & E & Hle & Hk & Hkb & Hgk & Hst1 & Hr); try done; try nia; rewrite ?HzbP; try done; try nia.
    { by apply block_encode. }
    { apply Z.divide_add_r; [done|]. by apply Z.divide_mul_r. }
    rewrite HzbP in E, Hkb, Hr. rewrite E. destruct Hr as [[-> ->]|[-> Hnb]].
    + destruct (Z.ltb_spec a 0); [lia|]. rewrite Z.eqb_refl. cbn [negb orb].
      rewrite take_ge in Hst1 by (unfold zlen in *; lia). apply (Hstep _ (splice (i * a) (block a i N) M)); auto.
      * apply mix_block; auto; try nia. by split.
      * intros j Hj. rewrite block_splice by nia. destruct (decide (j = i)) as [->|]; [done|]. apply Hdone. lia.
      * intros j Hj. rewrite block_splice by nia. destruct (decide (j = i)); [lia|]. apply Hrest. lia.
    + assert (k = 0 \/ k = a) as Hk0 by (destruct Hgk as [q ->]; assert (0 <= q) by nia; assert (q <= 1) by nia; assert (q = 0 \/ q = 1) as [->| ->] by lia; lia). cbn [Z.ltb Z.compare orb].
      exists (- EINVAL), (set_data f s), (splice (i * a) (take (Z.to_nat k) (block a i N)) M).
      split; [done|]. split; [done|]. split; [done|]. split.
      { destruct Hk0 as [->|Hk0]; [change (Z.to_nat 0) with 0%nat; rewrite take_0, splice_nil; by split|]. subst k. rewrite take_ge by (unfold zlen in *; lia).
        apply mix_block; auto; try nia. by split. }
      split; [done|]. split; [done|]. intros Hb. by destruct (Hnb Hb).
  - apply (Hstep s M); [done|apply meta_kept_refl|by split|done| |].
    + intros j Hj. destruct (decide (j = i)) as [->|]; [|apply Hdone; lia].
      destruct (Hor i) as [HbO|]; [lia|nia| |done]. by rewrite HbO in Hne.
    + intros j Hj. apply Hrest. lia.
Qed.
End checksums.

(** ** Recovery from a copy *)

Lemma read_decrypt_spec cw off n f P :
  direct_ok cw -> 0 < w_block_size cw -> 0 <= off -> 0 <= n -> 0 <= data_offset cw ->
  data_offset cw + off + n <= f_size f -> f_size f < 2 ^ 63 ->
  decode cw off (slice (data_offset cw + off) n (f_data f)) = Some P ->
  exists r b f', crypt_storage_wrapper_read_decrypt cw off n f = (r, b, f') /\ sched_le f f' /\ f_data f' = f_data f /\
    ((r = n /\ b = P) \/ (r = -1 /\ ~ benign (f_sched f))).
Proof.
  intros Hok Hb Ho Hn Hdo Hin Hsz HP.
  destruct (wrapper_read_any cw off n f Hok Hb Ho Hn Hdo Hin Hsz) as (r & b & f' & E & Hs & Hd & Hr).
  assert (Hz : zlen (slice (data_offset cw + off) n (f_data f)) = n) by (apply zlen_slice; unfold f_size in *; lia).
  unfold crypt_storage_wrapper_read_decrypt. rewrite E. destruct Hok as (_ & _ & _ & Hok).
  unfold decode, convert_with in HP. destruct (w_type cw) as [|st iv|]; [| |done].
  - injection HP as <-. exists r, b, f'. auto.
  - destruct Hr as [[-> ->]|[-> Hnb]]; [|exists (-1), b, f'; auto 10].
    destruct (Z.ltb_spec n 0); [lia|]. rewrite Hz in HP. unfold crypt_storage_decrypt.
    destruct (storage_convert _ _ _ _ _) as [r b]. destruct (Z.eqb_spec r 0) as [->|]; [|done].
    injection HP as <-. cbn [negb]. exists n, b, f'. auto 10.
Qed.

Lemma recover_copy_spec (from_meta : bool) cw1 cw2 a W O P N M s :
  0 < a -> (a | len) -> 0 < len -> zlen W = len -> zlen O = len -> zlen N = len -> direct_ok cw1 -> 0 < w_block_size cw1 -> 0 <= data_offset cw1 ->
  zlen (f_data (if from_meta then meta_file s else data_dev s)) < 2 ^ 63 ->
  data_offset cw1 + len <= zlen (f_data (if from_meta then meta_file s else data_dev s)) ->
  slice (data_offset cw1) len (f_data (if from_meta then meta_file s else data_dev s)) = O ->
  wrapper_fits cw2 -> data_offset cw2 = woff -> (w_block_size cw2 | woff) -> (w_block_size cw2 | len) ->
  decode cw1 0 O = Some P -> encode cw2 0 P = Some N ->
  granular_store a s -> mix a W N M -> data_state M s ->
  exists r s' M', recover_copy cw1 cw2 from_meta len s = (r, s') /\
    store_le s s' /\ meta_kept s s' /\ mix a W N M' /\ data_state M' s' /\
    (r = 0 -> M' = N) /\ (benign_store s -> r = 0).
Proof.
  intros Ha Hal Hlen HzW HzO HzN Hcw1 Hb1 Ho1 Hs1 Hin1 HO Hcw2 Hat Hbo Hbl HP HN Hg Hmix Hst.
  apply decode_zlen in HP as HzP; [|done]. unfold recover_copy.
  assert (Hread : exists r b s1,
    (if from_meta
     then (fun '(r, b, f) => (r, b, set_meta f s)) (crypt_storage_wrapper_read_decrypt cw1 0 len (meta_file s))
     else (fun '(r, b, f) => (r, b, set_data f s)) (crypt_storage_wrapper_read_decrypt cw1 0 len (data_dev s))) = (r, b, s1) /\
    store_le s s1 /\ meta_kept s s1 /\ data_state M s1 /\ ((r = len /\ b = P) \/ (r = -1 /\ ~ benign_store s))).
  { destruct from_meta.
    - destruct (read_decrypt_spec cw1 0 len (meta_file s) P) as (r & b & f & -> & Hs & Hd & Hr);
        rewrite ?Z.add_0_r, ?HO; try done; try lia.
      exists r, b, (set_meta f s). split; [done|]. split; [by apply set_meta_le|]. split; [by apply set_meta_same|].
      split; [by apply meta_write; [|rewrite Hd|intros _ ? ? _ _; rewrite Hd]|].
      destruct Hr as [?|[? Hn]]; [by left|right]. split; [done|]. intros [_ ?]. auto.
    - destruct (read_decrypt_spec cw1 0 len (data_dev s) P) as (r & b & f & -> & Hs & Hd & Hr);
        rewrite ?Z.add_0_r, ?HO; try done; try lia.
      exists r, b, (set_data f s). split; [done|]. split; [by apply set_data_le|]. split; [by apply meta_kept_same|].
      split; [by apply data_state_same|].
      destruct Hr as [?|[? Hn]]; [by left|right]. split; [done|]. intros [? _]. auto. }
  destruct Hread as (r & b & s1 & -> & Hle & Hk & Hst1 & [[-> ->]|[-> Hn]]).
  2: { exists (- EIO), s1, M. cbn [Z.ltb Z.compare orb]. repeat (split; [done|]). done. }
  destruct (Z.ltb_spec len 0); [lia|]. rewrite Z.eqb_refl. cbn [negb orb].
  destruct (store_encrypt_write cw2 0 0 P N M s1 a) as (r & b & f & k & E & Hle2 & Hk2 & Hkb & Hgk & Hst2 & Hr);
    rewrite ?HzP, ?HzO, ?Z.add_0_r; try done; try lia.
  { by eapply store_le_granular. }
  rewrite HzP, HzO in E, Hkb, Hr. rewrite E.
  assert (Hm : mix a W N (splice 0 (take (Z.to_nat k) N) M)) by (apply mix_prefix; auto; lia).
  exists (if r =? len then 0 else - EINVAL), (set_data f s1), (splice 0 (take (Z.to_nat k) N) M).
  split.
  { destruct Hr as [[-> _]|[-> _]]; [|by destruct (Z.eqb_spec (-1) len); [lia|]]. destruct (Z.ltb_spec len 0); [lia|]. by rewrite Z.eqb_refl. }
  split; [by etransitivity|]. split; [by eapply meta_kept_trans|]. split; [done|]. split; [done|].
  destruct Hr as [[-> ->]|[-> Hn]].
  - rewrite Z.eqb_refl. split; [|done]. intros _. rewrite take_ge by (unfold zlen in *; lia).
    destruct Hmix as [HzM _]. rewrite <-(slice_all (splice 0 N M)), zlen_splice, HzM, HzW, <-HzN by lia.
    apply slice_splice_same; lia.
  - destruct (Z.eqb_spec (-1) len); [lia|]. split; [done|]. intros Hb. exfalso. apply Hn. by eapply store_le_benign.
Qed.
End wrappers.
End region.
