(* ===== verification/Luks2ReencryptSafety.v ===== *)
(** * Luks2ReencryptSafety: a step of the reencryption and its recovery

    What a step leaves on the devices wherever it is stopped, what the
    recovery makes of that, and the two together: the data of a hotzone is
    never lost. *)

From S2P Require Import Prelude CryptBackend UtilsIO CryptStorage StorageWrapper JsonC Luks2Json Luks2Keyslot Luks2Format Luks2Reencrypt Luks2ReencryptStorage Luks2ReencryptData Luks2ReencryptRecovery.

Notation data_bytes s := (f_data (data_dev s)).
Notation meta_bytes s := (f_data (meta_file s)).

Section headers.
Context `{HSL : HdrStoreLaws}.
Variable env : reenc_env.

(** The header a step commits before it writes data, and the one after. *)
Definition hot_header (hdr : luks2_hdr) (rh : luks2_reencrypt) (device_size : Z) : option (luks2_hdr * luks2_reencrypt) :=
  let '(r, hdr) := reencrypt_keyslot_update hdr rh in
  if r <? 0 then None
  else
    let '(r, rh) := reencrypt_make_segments env hdr rh device_size in
    if negb (r =? 0) then None
    else
      let '(r, hdr, rh) := reencrypt_assign_segments hdr rh true in
      if negb (r =? 0) then None else Some (hdr, rh).

Definition post_header (hdr : luks2_hdr) (rh : luks2_reencrypt) : option (luks2_hdr * luks2_reencrypt) :=
  let '(r, hdr, rh) := reencrypt_assign_segments (next_header hdr) (set_read rh (rh_length rh)) false in
  if negb (r =? 0) then None else Some (hdr, rh).
End headers.

(** ** The area of the keyslot *)

Section area.
Context `{HSL : HdrStoreLaws}.
Variables (io : reenc_io) (old hot : luks2_hdr) (ks ao al : Z).

Record area_ok (meta_size : Z) : Prop := {
  ar_area : LUKS2_keyslot_area hot ks = (0, ao, al);
  ar_handler : LUKS2_keyslot_handler hot ks = Some reenc_keyslot;
  ar_valid : exists j, LUKS2_get_keyslot_jobj hot ks = Some j /\ reenc_keyslot_validate j = 0;
  ar_bounds : hdr_end <= ao /\ 0 < ao /\ 0 < al /\ ao + al <= meta_size < 2 ^ 63;
  ar_follows : follows old hot meta_size;
  ar_keyslot : 0 <= ks;
  ar_fd : 0 <= io_meta_rw_fd io;
  ar_block : 0 < io_meta_block io /\ (io_meta_block io | meta_size);
  ar_alignment : io_meta_alignment io <> 0;
}.

Variable s : store.
Hypothesis Har : area_ok (zlen (meta_bytes s)).
Hypothesis Hready : ready old (meta_bytes s).
Hypothesis Hgr : granular 512 (f_sched (meta_file s)).

Lemma meta_file_set f s1 : meta_file (set_meta f s1) = f.
Proof. unfold meta_file, set_meta. by destruct (meta_dev s1). Qed.

Lemma area_json : exists j area o l, LUKS2_get_keyslot_jobj hot ks = Some j /\ json_object_object_get_ex j "area" = Some area /\
  json_object_object_get_ex area "offset" = Some o /\ json_object_object_get_ex area "size" = Some l /\
  crypt_jobj_get_uint64 o = ao /\ crypt_jobj_get_uint64 l = al.
Proof.
  pose proof (ar_area _ Har) as H. revert H. unfold LUKS2_keyslot_area.
  destruct (bool_decide _); [done|]. destruct (LUKS2_get_keyslot_jobj hot ks) as [j|]; [|done].
  destruct (json_object_object_get_ex j "area") as [area|] eqn:Ea; [|done].
  destruct (json_object_object_get_ex area "offset") as [o|] eqn:Eo; [|done].
  destruct (json_object_object_get_ex area "size") as [l|] eqn:El; [|done].
  intros [= <- <-]. by exists j, area, o, l.
Qed.

(** A commit of [hot] over [old] by a device that changed outside the headers. *)
Lemma commit_spec s1 r hdr' s' :
  ready old (meta_bytes s1) -> zlen (meta_bytes s1) = zlen (meta_bytes s) -> granular 512 (f_sched (meta_file s1)) ->
  hdr_write hot s1 = (r, hdr', s') ->
  store_le s1 s' /\ zlen (meta_bytes s') = zlen (meta_bytes s1) /\
  (forall o n, hdr_end <= o -> 0 <= n -> slice o n (meta_bytes s') = slice o n (meta_bytes s1)) /\
  (exists f, s' = set_meta f s1) /\
  r <= 0 /\ (benign (f_sched (meta_file s1)) -> r = 0) /\ (r = 0 -> hdr' = next_header hot /\ ready hdr' (meta_bytes s')) /\
  (holds old (meta_bytes s') \/ holds (next_header hot) (meta_bytes s')).
Proof.
  intros Hr1 Hz1 Hg1. unfold hdr_write. destruct (LUKS2_hdr_write hot (meta_file s1)) as [[r1 h1] f1] eqn:E.
  intros [= <- <- <-]. rewrite meta_file_set.
  destruct (hdr_write_spec old hot (meta_file s1) r1 h1 f1) as (Hs & Hz & Hk & Hle & Hb & Hok & Hh); try done.
  { unfold f_size. rewrite Hz1. apply (ar_follows _ Har). }
  split; [by apply set_meta_le|]. eauto 10.
Qed.

Lemma set_meta_twice f g s1 : set_meta g (set_meta f s1) = set_meta g s1.
Proof. unfold set_meta. by destruct (meta_dev s1). Qed.

(** Writing the area, interrupted anywhere. *)
Lemma store_data_spec j s1 buf r s' :
  LUKS2_get_keyslot_jobj hot ks = Some j -> f_data (meta_file s1) = meta_bytes s -> 0 < zlen buf <= al ->
  reenc_keyslot_store_data io j buf (zlen buf) s1 = (r, s') ->
  store_le s1 s' /\ zlen (meta_bytes s') = zlen (meta_bytes s) /\ (exists f, s' = set_meta f s1) /\
  (forall o n, 0 <= o -> 0 <= n -> o + n <= ao \/ ao + al <= o -> slice o n (meta_bytes s') = slice o n (meta_bytes s)) /\
  r <= 0 /\ (benign (f_sched (meta_file s1)) -> r = 0) /\ (0 <= r -> slice ao (zlen buf) (meta_bytes s') = buf).
Proof.
  intros Hj Hd Hz. destruct area_json as (j' & area & o & l & Hj' & E1 & E2 & E3 & Eo & El).
  rewrite Hj in Hj'. injection Hj' as <-. unfold reenc_keyslot_store_data. rewrite E1, E2, E3, Eo, El.
  destruct Har as [_ _ _ (Hb1 & Hb2 & Hb3 & Hb4) _ _ Hfd (Hbs & Hbd) Hal]. pose proof hdr_end_nonneg.
  destruct (Z.eqb_spec ao 0); [lia|]. destruct (Z.eqb_spec al 0); [lia|]. destruct (Z.ltb_spec al (zlen buf)); [lia|].
  cbn [orb]. destruct (Z.leb_spec 0 (io_meta_rw_fd io)); [|lia]. unfold on_meta.
  pose proof (write_lseek_blockwise_spec (io_meta_rw_fd io) (io_meta_block io) (io_meta_alignment io) buf (zlen buf)
    ao (meta_file s1)) as Hw.
  destruct (write_lseek_blockwise _ _ _ _ _ _ _) as [w f]. unfold f_size in Hw. rewrite Hd in Hw.
  destruct Hw as (Hs & k & Hk & Hdt & Hr); try done; try lia. intros [= <- <-]. rewrite meta_file_set.
  assert (Hzk : zlen (take (Z.to_nat k) buf) = k) by (apply zlen_take; lia).
  rewrite Hd in Hdt.
  split; [by apply set_meta_le|]. split; [rewrite Hdt, zlen_splice; lia|]. split; [by eexists|]. split.
  { intros o' n' Ho Hn Hor. rewrite Hdt. apply slice_splice_disj; lia. }
  destruct Hr as [[-> ->]|[-> Hnb]].
  - destruct (Z.ltb_spec (zlen buf) 0); [lia|]. split; [lia|]. split; [done|]. intros _. rewrite Hdt.
    rewrite take_ge by (unfold zlen in *; lia). apply slice_splice_same; lia.
  - cbn [Z.ltb Z.compare]. unfold EIO. split; [lia|]. split; [|lia]. intros Hb. by destruct (Hnb Hb).
Qed.

Lemma keyslot_store_spec buf r hdr' s' :
  0 < zlen buf <= al -> LUKS2_keyslot_reencrypt_store io hot ks buf (zlen buf) s = (r, hdr', s') ->
  store_le s s' /\ zlen (meta_bytes s') = zlen (meta_bytes s) /\ (exists f, s' = set_meta f s) /\
  (forall o n, ao + al <= o -> 0 <= n -> slice o n (meta_bytes s') = slice o n (meta_bytes s)) /\
  (benign (f_sched (meta_file s)) -> 0 <= r) /\
  (0 <= r -> hdr' = next_header hot /\ ready hdr' (meta_bytes s') /\ slice ao (zlen buf) (meta_bytes s') = buf) /\
  (holds old (meta_bytes s') \/ (holds (next_header hot) (meta_bytes s') /\ slice ao (zlen buf) (meta_bytes s') = buf)).
Proof.
  intros Hz. unfold LUKS2_keyslot_reencrypt_store. rewrite (ar_handler _ Har). cbn [kh_name kh_validate reenc_keyslot].
  destruct (ar_valid _ Har) as (j & Hj & Hv). rewrite Hj, Hv. rewrite bool_decide_true by done. cbn [negb Z.eqb].
  unfold reenc_keyslot_store. destruct (Z.eqb_spec (zlen buf) 0); [lia|]. rewrite Hj. unfold on_meta.
  destruct (hdr_write_lock hot (meta_file s)) as [r0 f0] eqn:E0.
  destruct (write_lock_spec old _ _ _ _ Hready (ar_follows _ Har) E0) as (Hd0 & Hs0 & Hle0 & Hb0).
  assert (Hh0 : holds old (f_data f0)) by (rewrite Hd0; by apply ready_holds).
  destruct (Z.eqb_spec r0 0) as [->|Hne]; cbn [negb].
  2: { intros [= <- <- <-]. rewrite meta_file_set, Hd0. split; [by apply set_meta_le|]. split; [done|]. split; [by eexists|].
       split; [done|]. split; [|split; [lia|left; by apply ready_holds]].
       intros Hb. by rewrite Hb0 in Hne. }
  destruct (reenc_keyslot_store_data io j buf (zlen buf) (set_meta f0 s)) as [r1 s1] eqn:E1.
  apply store_data_spec in E1 as (Hle1 & Hz1 & [f1 ->] & Hk1 & Hr1 & Hb1 & Ha1); [|done|by rewrite meta_file_set|done].
  rewrite set_meta_twice in *. assert (Hle : store_le s (set_meta f1 s)).
  { etransitivity; [|exact Hle1]. by apply set_meta_le. }
  assert (Hsm : sched_le (meta_file s) f1) by (destruct Hle as (_ & _ & H); by rewrite meta_file_set in H).
  pose proof (ar_bounds _ Har) as Hbd. pose proof hdr_end_nonneg as He0. rewrite !meta_file_set in *.
  assert (Hr : ready old (f_data f1)) by (apply (ready_frame old (meta_bytes s)); [done|done|apply Hk1; lia]).
  destruct (Z.ltb_spec r1 0).
  { intros [= <- <- <-]. rewrite meta_file_set. split; [done|]. split; [done|]. split; [by eexists|].
    split; [intros; apply Hk1; lia|]. split; [|split; [lia|left; by apply ready_holds]].
    intros Hb. assert (r1 = 0) by (apply Hb1; by apply Hs0). lia. }
  assert (r1 = 0) as -> by lia.
  destruct (hdr_write hot (set_meta f1 s)) as [[r2 h2] s2] eqn:E2.
  apply commit_spec in E2 as (Hle2 & Hz2 & Hk2 & [f2 ->] & Hr2 & Hb2 & Hok2 & Hh2); rewrite ?meta_file_set in *;
    [|done|done|by apply Hsm].
  rewrite set_meta_twice in *. intros [= <- <- <-]. rewrite meta_file_set in *.
  assert (Hsl : slice ao (zlen buf) (f_data f2) = buf) by (rewrite Hk2 by lia; apply Ha1; lia).
  split; [by etransitivity|]. split; [congruence|]. split; [by eexists|].
  split; [intros; rewrite Hk2 by lia; apply Hk1; lia|].
  pose proof (ar_keyslot _ Har). split; [|split].
  - intros Hb. rewrite Hb2; [destruct (Z.ltb_spec 0 0); lia|]. by apply Hsm.
  - intros Hpos. destruct (Z.ltb_spec r2 0); [lia|]. destruct Hok2 as [-> ?]; [lia|]. done.
  - destruct Hh2; [by left|by right].
Qed.
End area.

(** ** Protecting a hotzone *)

Lemma csum_loop_spec `{CHL : CryptHashLaws} n hash hash_size a off buf :
  0 < hash_size <= crypt_hash_size (bytes_of_string hash) ->
  exists c, csum_loop n hash hash_size a off buf = Some c /\ zlen c = Z.of_nat n * hash_size /\
    forall i, 0 <= i < Z.of_nat n ->
      slice (i * hash_size) hash_size c = crypt_hash_final (bytes_of_string hash) (slice (off + i * a) a buf) hash_size.
Proof.
  intros Hh. revert off. induction n as [|n IH]; intros off; cbn [csum_loop].
  { exists []. split; [done|]. split; [unfold zlen; cbn; lia|]. lia. }
  unfold hash_block at 1. destruct (Z.ltb_spec (crypt_hash_size (bytes_of_string hash)) hash_size); [lia|].
  destruct (IH (off + a)) as (c & -> & Hz & Hs). eexists. split; [reflexivity|].
  assert (Hzh : zlen (crypt_hash_final (bytes_of_string hash) (slice off a buf) hash_size) = hash_size)
    by (apply zlen_hash_final; lia).
  split; [rewrite zlen_app, Hzh, Hz; lia|]. intros i Hi. destruct (decide (i = 0)) as [->|].
  - rewrite slice_app_l by lia. rewrite Z.mul_0_l, Z.add_0_r. rewrite <-Hzh at 1. apply slice_all.
  - rewrite slice_app_r by nia. rewrite Hzh. replace (i * hash_size - hash_size) with ((i - 1) * hash_size) by lia.
    rewrite Hs by lia. f_equal. f_equal. lia.
Qed.

Lemma csum_count_exact n a : 0 < a -> 0 <= n -> csum_count (n * a) a = Z.to_nat n.
Proof.
  intros. unfold csum_count. f_equal. replace (n * a + a - 1) with (a - 1 + n * a) by lia.
  rewrite Z.div_add, Z.div_small by lia. lia.
Qed.

Section hotzone.
Context `{HSL : HdrStoreLaws} `{CHL : CryptHashLaws} `{CCL : CryptCipherLaws}.
Variables (io : reenc_io) (s0 : store) (old hot : luks2_hdr) (rh : luks2_reencrypt).
Variables (cw1 cw2 : crypt_storage_wrapper) (ao al : Z) (P N : bytes).

Definition woff : Z := data_offset cw2 + rh_offset rh.
Definition ooff : Z := data_offset cw1 + rh_offset rh.
(** The end of the metadata when it is on the data device. *)
Definition metadata_end : Z := if attached s0 then ao + al else 0.
Definition old_data : bytes := slice ooff (rh_length rh) (data_bytes s0).
Definition window_data : bytes := slice woff (rh_length rh) (data_bytes s0).

Notation state := (data_state woff (rh_length rh) metadata_end (data_bytes s0)).

(** The area, or the shifted data, from which a hotzone is recovered. *)
Definition protected (s : store) : Prop :=
  match rh_rp rh with
  | REENC_PROTECTION_NONE => False
  | REENC_PROTECTION_CHECKSUM hash hash_size =>
      forall i, 0 <= i < rh_length rh / rh_alignment rh ->
        slice (ao + i * hash_size) hash_size (meta_bytes s) =
          crypt_hash_final (bytes_of_string hash) (block (rh_alignment rh) i old_data) hash_size
  | REENC_PROTECTION_JOURNAL => slice ao (rh_length rh) (meta_bytes s) = old_data
  | REENC_PROTECTION_DATASHIFT => slice ooff (rh_length rh) (data_bytes s) = old_data
  end.

(** Room for the protection; for checksums the window is rewritten in place
    and no new block has the checksum of a different old one; for a data shift
    the old data is outside the window. *)
Definition protection_ok : Prop :=
  match rh_rp rh with
  | REENC_PROTECTION_NONE => False
  | REENC_PROTECTION_CHECKSUM hash hash_size =>
      0 < hash_size <= crypt_hash_size (bytes_of_string hash) /\
      rh_length rh / rh_alignment rh * hash_size <= al /\ data_offset cw1 = data_offset cw2 /\
      no_collision hash hash_size (rh_alignment rh) (rh_length rh / rh_alignment rh) old_data N
  | REENC_PROTECTION_JOURNAL => rh_length rh <= al
  | REENC_PROTECTION_DATASHIFT => ooff + rh_length rh <= woff \/ woff + rh_length rh <= ooff
  end.

Record hotzone_ok : Prop := {
  hz_area : area_ok io old hot (rh_reenc_keyslot rh) ao al (zlen (meta_bytes s0));
  hz_ready : ready old (meta_bytes s0);
  hz_end : attached s0 = true -> ao + al <= woff;
  hz_window : 0 <= rh_offset rh /\ 0 < rh_length rh /\ woff + rh_length rh <= zlen (data_bytes s0);
  hz_old : metadata_end <= ooff /\ ooff + rh_length rh <= zlen (data_bytes s0);
  hz_fits1 : wrapper_fits (data_bytes s0) cw1;
  hz_fits2 : wrapper_fits (data_bytes s0) cw2;
  hz_align : 0 < rh_alignment rh /\ (rh_alignment rh | rh_length rh);
  hz_block : (w_block_size cw2 | woff) /\ (w_block_size cw2 | rh_alignment rh);
  hz_units : (unit_size cw1 | rh_alignment rh) /\ (unit_size cw2 | rh_alignment rh);
  hz_decode : decode cw1 (rh_offset rh) old_data = Some P;
  hz_encode : encode cw2 (rh_offset rh) P = Some N;
  hz_protection : protection_ok;
}.

Hypothesis Hz : hotzone_ok.

Lemma hz_blocks : rh_length rh = rh_length rh / rh_alignment rh * rh_alignment rh /\ 0 < rh_length rh / rh_alignment rh.
Proof.
  destruct (hz_align Hz) as [Ha [q Hq]]. destruct (hz_window Hz) as (_ & Hl & _). rewrite Hq, Z.div_mul by lia. nia.
Qed.

Lemma hz_metadata : 0 <= metadata_end <= woff.
Proof.
  pose proof (hz_end Hz). destruct (hz_window Hz) as (Ho & _). pose proof (wf_offset _ _ (hz_fits2 Hz)).
  destruct (ar_bounds _ _ _ _ _ _ _ (hz_area Hz)) as (? & ? & ? & _).
  unfold metadata_end, woff in *. destruct (attached s0); intuition lia.
Qed.

Lemma hz_region : 0 <= woff /\ 0 <= rh_length rh /\ woff + rh_length rh <= zlen (data_bytes s0).
Proof. pose proof hz_metadata. destruct (hz_window Hz) as (_ & ? & ?). lia. Qed.

Lemma hz_source : 0 <= ooff /\ zlen old_data = rh_length rh.
Proof.
  destruct (hz_window Hz) as (Ho & Hl & _). pose proof (wf_offset _ _ (hz_fits1 Hz)). destruct (hz_old Hz).
  unfold old_data, ooff in *. split; [lia|]. apply zlen_slice; lia.
Qed.

Lemma hz_zlen : zlen P = rh_length rh /\ zlen N = rh_length rh.
Proof.
  pose proof (decode_zlen _ _ _ _ (wf_direct _ _ (hz_fits1 Hz)) (hz_decode Hz)).
  pose proof (encode_zlen _ _ _ _ (wf_direct _ _ (hz_fits2 Hz)) (hz_encode Hz)).
  destruct hz_source. lia.
Qed.

(** A state of the devices before the step, with any schedule. *)
Definition fresh (s : store) : Prop :=
  attached s = attached s0 /\ data_bytes s = data_bytes s0 /\ meta_bytes s = meta_bytes s0 /\
  granular_store (rh_alignment rh) s.

Lemma fresh_state s : fresh s -> state window_data s.
Proof. intros (_ & E & _). unfold data_state. rewrite E. done. Qed.

(** Where the metadata changed only below the data, the data is what it was. *)
Lemma meta_change_state M s f :
  attached s = attached s0 -> state M s -> zlen (f_data f) = zlen (meta_bytes s) ->
  (forall o n, ao + al <= o -> 0 <= n -> slice o n (f_data f) = slice o n (meta_bytes s)) ->
  state M (set_meta f s).
Proof.
  intros Ea HM Hzf Hf. pose proof hz_metadata. apply meta_write; auto using hz_region.
  - intros Hat o n Ho Hn. apply Hf; [|done]. unfold metadata_end in Ho. rewrite <-Ea, Hat in Ho. done.
Qed.

(** Storing a buffer in the area. *)
Lemma store_protect_spec s buf r hdr' s' :
  fresh s -> 0 < zlen buf <= al ->
  (forall s1, slice ao (zlen buf) (meta_bytes s1) = buf -> protected s1) ->
  (let '(r, hdr, s) := LUKS2_keyslot_reencrypt_store io hot (rh_reenc_keyslot rh) buf (zlen buf) s in
   (if 0 <? r then 0 else r, hdr, s)) = (r, hdr', s') ->
  store_le s s' /\ (exists f, s' = set_meta f s) /\ zlen (meta_bytes s') = zlen (meta_bytes s) /\ state window_data s' /\
  (benign (f_sched (meta_file s)) -> 0 <= r) /\
  (0 <= r -> hdr' = next_header hot /\ ready hdr' (meta_bytes s') /\ protected s') /\
  (holds old (meta_bytes s') \/ (holds (next_header hot) (meta_bytes s') /\ protected s')).
Proof.
  intros Hf Hb Hprot. pose proof Hf as (Ea & Ed & Em & Hg).
  destruct (LUKS2_keyslot_reencrypt_store _ _ _ _ _ _) as [[r1 h1] s1] eqn:E.
  eapply (keyslot_store_spec io old) in E as (Hle & Hzm & [f ->] & Hk & Hbn & Hok & Hh);
    [|rewrite Em; apply hz_area, Hz|rewrite Em; apply hz_ready, Hz|apply Hg|done].
  intros [= <- <- <-]. split; [done|]. split; [by eexists|]. split; [done|].
  rewrite !meta_file_set in *. split.
  { apply meta_change_state; auto. by apply fresh_state. }
  split; [|split].
  - intros Hbb. specialize (Hbn Hbb). destruct (Z.ltb_spec 0 r1); lia.
  - intros Hr. destruct Hok as (-> & Hr1 & Hs); [destruct (Z.ltb_spec 0 r1); lia|].
    split; [done|]. split; [done|]. apply Hprot. by rewrite meta_file_set.
  - destruct Hh as [|[Hh Hs]]; [by left|right]. split; [done|]. apply Hprot. by rewrite meta_file_set.
Qed.

Lemma protect_spec s r hdr' s' :
  fresh s -> reencrypt_hotzone_protect_final io hot rh old_data (rh_length rh) s = (r, hdr', s') ->
  store_le s s' /\ (exists f, s' = set_meta f s) /\ zlen (meta_bytes s') = zlen (meta_bytes s) /\ state window_data s' /\
  (benign (f_sched (meta_file s)) -> 0 <= r) /\
  (0 <= r -> hdr' = next_header hot /\ ready hdr' (meta_bytes s') /\ protected s') /\
  (holds old (meta_bytes s') \/ (holds (next_header hot) (meta_bytes s') /\ protected s')).
Proof.
  intros Hf. destruct hz_source as [Ho HzO]. destruct hz_blocks as [Hbl Hn]. destruct (hz_window Hz) as (_ & Hl & _).
  pose proof (hz_protection Hz) as Hp. pose proof (ar_bounds _ _ _ _ _ _ _ (hz_area Hz)) as Har.
  unfold reencrypt_hotzone_protect_final, protection_ok in *. destruct (rh_rp rh) as [|hash hash_size| |] eqn:Erp; [done|..].
  - destruct Hp as (Hh & Hal & _). rewrite Hbl at 1. rewrite csum_count_exact by (apply hz_align in Hz; lia).
    destruct (csum_loop_spec (Z.to_nat (rh_length rh / rh_alignment rh)) hash hash_size (rh_alignment rh) 0 old_data Hh)
      as (c & -> & Hzc & Hs). rewrite Z2Nat.id in Hzc, Hs by lia.
    apply store_protect_spec; [done|nia|]. intros s1 H1. unfold protected. rewrite Erp. intros i Hi.
    rewrite <-(slice_slice (i * hash_size) hash_size ao (zlen c)), H1, Hs by nia. done.
  - rewrite <-HzO at 1. apply store_protect_spec; [done|lia|]. intros s1 H1. unfold protected. by rewrite Erp, <-HzO.
  - pose proof Hf as (Ea & Ed & Em & Hg). intros E.
    eapply (commit_spec io old hot (rh_reenc_keyslot rh) ao al s) in E as (Hle & Hzm & Hk & [f ->] & Hr & Hbn & Hok & Hh);
      [|rewrite Em; apply hz_area, Hz|rewrite Em; apply hz_ready, Hz|done|apply Hg].
    assert (Hst : state window_data (set_meta f s)).
    { apply meta_change_state; auto; rewrite ?meta_file_set in *; [by apply fresh_state|done|].
      intros o n Hoo Hnn. apply Hk; lia. }
    assert (Hpr : protected (set_meta f s)).
    { unfold protected. rewrite Erp. destruct Hst as (_ & _ & Hst). apply Hst; [|lia|].
      - destruct (hz_old Hz) as [Hmo _]. revert Hmo. unfold meta_limit, metadata_end.
        destruct Hle as (-> & _). rewrite Ea. destruct (attached s0); lia.
      - lia. }
    split; [done|]. split; [by eexists|]. split; [done|]. split; [done|].
    split; [intros Hb; rewrite Hbn; [lia|done]|]. split.
    + intros Hr0. destruct Hok as [-> ?]; [lia|]. done.
    + destruct Hh; [by left|by right].
Qed.

(** ** The phases of a step *)

Notation kept := (meta_kept metadata_end).
Notation blocks := (mix (rh_alignment rh) window_data N).

Definition before (s : store) : Prop := holds old (meta_bytes s) /\ state window_data s.
Definition during (s : store) : Prop :=
  holds (next_header hot) (meta_bytes s) /\ protected s /\ exists M, blocks M /\ state M s.

Lemma kept_limit s1 s2 o n :
  attached s1 = attached s0 -> kept s1 s2 -> 0 <= o -> 0 <= n -> o + n <= ao + al ->
  slice o n (meta_bytes s2) = slice o n (meta_bytes s1).
Proof.
  intros Ea [_ H] Ho Hn Hin. apply H; [done..|]. unfold metadata_end. rewrite Ea. intros ->. lia.
Qed.

Lemma protected_area s1 s2 M :
  attached s2 = attached s0 ->
  (forall o n, ao <= o -> 0 <= n -> o + n <= ao + al -> slice o n (meta_bytes s2) = slice o n (meta_bytes s1)) ->
  state M s2 -> protected s1 -> protected s2.
Proof.
  intros Ea2 Hk Hst. destruct hz_source as [Ho HzO]. destruct hz_blocks as [Hbl Hn].
  pose proof (ar_bounds _ _ _ _ _ _ _ (hz_area Hz)) as (_ & Har & _). destruct (hz_window Hz) as (_ & Hl & _).
  pose proof (hz_protection Hz) as Hp. unfold protected, protection_ok in *. destruct (rh_rp rh) as [|hash hash_size| |]; [done|..].
  - intros H i Hi. rewrite <-H by done. destruct Hp as (? & ? & _). apply Hk; nia.
  - intros <-. apply Hk; lia.
  - intros _. destruct Hst as (_ & _ & Hst). destruct (hz_old Hz) as [Hmo _].
    apply Hst; [|lia..]. revert Hmo. unfold meta_limit, metadata_end. rewrite Ea2. destruct (attached s0); lia.
Qed.

Lemma protected_kept s1 s2 M :
  attached s1 = attached s0 -> attached s2 = attached s0 -> kept s1 s2 -> state M s2 -> protected s1 -> protected s2.
Proof.
  intros Ea Ea2 Hk. pose proof (ar_bounds _ _ _ _ _ _ _ (hz_area Hz)) as (_ & Har & _).
  apply protected_area; [done|]. intros o n Ho Hn Hin. apply kept_limit; auto; lia.
Qed.

Lemma headers_kept s1 s2 : attached s1 = attached s0 -> kept s1 s2 ->
  zlen (meta_bytes s2) = zlen (meta_bytes s1) /\ slice 0 hdr_end (meta_bytes s2) = slice 0 hdr_end (meta_bytes s1).
Proof.
  intros Ea Hk. pose proof (ar_bounds _ _ _ _ _ _ _ (hz_area Hz)). pose proof hdr_end_nonneg.
  split; [apply Hk|apply kept_limit; [done..|lia|lia|lia]].
Qed.

Lemma window_zlen : zlen window_data = rh_length rh.
Proof. pose proof hz_region. apply zlen_slice; lia. Qed.

(** Moving the data of the hotzone. *)
Lemma hotzone_spec s rs hdr' rh' s' :
  fresh s -> reencrypt_hotzone io hot rh cw1 cw2 s = (rs, hdr', rh', s') ->
  store_le s s' /\ zlen (meta_bytes s') = zlen (meta_bytes s0) /\ (before s' \/ during s') /\
  (rs = REENC_OK -> hdr' = next_header hot /\ rh' = set_read rh (rh_length rh) /\ ready hdr' (meta_bytes s') /\
     protected s' /\ state N s') /\
  (benign_store s -> io_datasync io = 0 -> rs = REENC_OK).
Proof.
  intros Hf. pose proof Hf as (Ea & Ed & Em & Hg). unfold reencrypt_hotzone.
  destruct (hz_window Hz) as (Ho & Hl & Hin). pose proof (hz_fits1 Hz) as [Hd1 Hb1 Hv1 Hdo1 Hsz].
  destruct hz_source as [Hoo HzO]. destruct hz_zlen as [HzP HzN]. pose proof hz_region as Hreg. pose proof hz_metadata as Hmd.
  pose proof (proj2 (hz_old Hz)) as Hold. unfold ooff in Hoo, Hold.
  assert (Hbefore : forall f, f_data f = data_bytes s -> before (set_data f s)).
  { intros f E. assert (Hk : kept s (set_data f s)) by (by apply meta_kept_same). split.
    - destruct (headers_kept s _ Ea Hk) as [Hzm Hsl].
      apply (holds_frame old (meta_bytes s)); [rewrite Em; apply ready_holds, hz_ready, Hz|done|done].
    - apply data_state_same; [done|by apply fresh_state]. }
  destruct (wrapper_read_any cw1 (rh_offset rh) (rh_length rh) (data_dev s) Hd1 Hb1) as (r & b & f & -> & Hs & Hfd & Hr);
    unfold f_size; rewrite ?Ed; try done; try lia.
  rewrite Ed in Hr. fold ooff old_data in Hr. destruct Hr as [[-> ->]|[-> Hnb]].
  2: { cbn [Z.ltb Z.compare]. intros [= <- <- <- <-]. split; [by apply set_data_le|].
       split; [rewrite <-Em; apply (headers_kept s); [done|by apply meta_kept_same]|]. split; [left; by apply Hbefore|]. split; [done|]. intros [? _]. by destruct Hnb. }
  destruct (Z.ltb_spec (rh_length rh) 0); [lia|].
  assert (Hf1 : fresh (set_data f s)).
  { split; [done|]. split; [cbn; congruence|].
    assert (meta_bytes (set_data f s) = meta_bytes s) as -> by (unfold meta_file; cbn; destruct (meta_dev s); cbn; congruence).
    split; [done|]. eapply store_le_granular; [by apply set_data_le|done]. }
  assert (Hle1 : store_le s (set_data f s)) by (by apply set_data_le).
  destruct (reencrypt_hotzone_protect_final io hot (set_read rh (rh_length rh)) old_data (rh_length rh) (set_data f s))
    as [[r1 h1] s1] eqn:Ep.
  change (reencrypt_hotzone_protect_final io hot rh old_data (rh_length rh) (set_data f s) = (r1, h1, s1)) in Ep.
  apply protect_spec in Ep as (Hle2 & [f1 Es1] & Hzm & Hst1 & Hbn1 & Hok1 & Hh1); [|done].
  assert (Hph : before s1 \/ during s1).
  { destruct Hh1 as [|[Hh Hp]]; [left; by split|right]. split; [done|]. split; [done|].
    exists window_data. split; [apply mix_old|done]. }
  assert (Hle : store_le s s1) by (by etransitivity).
  assert (Hzm1 : zlen (meta_bytes s1) = zlen (meta_bytes s0)) by (rewrite Hzm; by destruct Hf1 as (_ & _ & -> & _)).
  destruct (Z.ltb_spec r1 0).
  { intros [= <- <- <- <-]. split; [done|]. split; [done|]. split; [done|]. split; [done|]. intros Hb _. exfalso.
    assert (0 <= r1); [|lia]. apply Hbn1. by apply (store_le_benign s). }
  destruct Hok1 as (-> & Hready & Hprot); [done|].
  pose proof (decrypt_decode cw1 (rh_offset rh) old_data (data_dev s1) Hd1) as Hdec.
  rewrite (hz_decode Hz), HzO in Hdec. cbn [rh_offset set_read]. rewrite Hdec. cbn [Z.eqb negb].
  assert (set_data (data_dev s1) s1 = s1) as -> by (by destruct s1).
  assert (Ea1 : attached s1 = attached s0) by (destruct Hle as (-> & _); done).
  destruct (store_encrypt_write woff (rh_length rh) metadata_end (data_bytes s0) Hreg Hmd cw2 (rh_offset rh) 0 P N
    window_data s1 (rh_alignment rh) (hz_fits2 Hz)) as (w & e & f2 & k & Ew & Hle3 & Hk3 & Hkb & Hgk & Hst3 & Hw);
    rewrite ?HzP; try done; try (unfold woff; lia); rewrite ?Z.add_0_r.
  { exact (hz_encode Hz). }
  { apply (hz_block Hz). }
  { destruct (hz_block Hz). destruct (hz_align Hz). by etransitivity. }
  { apply (hz_align Hz). }
  { by eapply store_le_granular. }
  rewrite HzP in Ew, Hkb, Hw. rewrite Ew.
  assert (Hp3 : protected (set_data f2 s1)) by (by eapply protected_kept).
  destruct (headers_kept s1 (set_data f2 s1) Ea1 Hk3) as [Hzm3 Hsl3].
  assert (Hready3 : ready (next_header hot) (meta_bytes (set_data f2 s1))) by (by apply (ready_frame _ (meta_bytes s1))).
  assert (Hdur : during (set_data f2 s1)).
  { split; [by apply ready_holds|]. split; [done|]. eexists. split; [|exact Hst3].
    apply mix_prefix; rewrite ?window_zlen; auto using mix_old; try lia. apply (hz_align Hz). }
  assert (Hle' : store_le s (set_data f2 s1)) by (by etransitivity).
  destruct Hw as [[-> ->]|[-> Hnb]].
  2: { destruct (Z.eqb_spec (rh_length rh) (-1)); [lia|]. cbn [negb]. intros [= <- <- <- <-].
       split; [done|]. split; [congruence|]. split; [by right|]. split; [done|]. intros Hb _. destruct Hnb. by apply (store_le_benign s). }
  rewrite Z.eqb_refl. cbn [negb].
  rewrite take_ge in Hst3 by (unfold zlen in *; lia).
  assert (HN : splice 0 N window_data = N).
  { pose proof window_zlen. rewrite <-(slice_all (splice 0 N window_data)), zlen_splice by lia.
    replace (zlen window_data) with (zlen N) by lia. apply slice_splice_same; lia. }
  rewrite HN in Hst3. cbn [rh_rp set_read].
  destruct (negb (is_none_protection (rh_rp rh)) && negb (io_datasync io =? 0)) eqn:Esync; intros [= <- <- <- <-].
  - split; [done|]. split; [congruence|]. split; [by right|]. split; [done|]. intros _ E0. rewrite E0 in Esync. by rewrite andb_false_r in Esync.
  - split; [done|]. split; [congruence|]. split; [by right|]. split; [|done]. done.
Qed.

(** ** Recovery *)

(** What the recovery computes from the header and the context it loaded
    agrees with the step that was interrupted. *)
Record recovery_ok (hdrc : luks2_hdr) (rhc : luks2_reencrypt) (cwo cwn : crypt_storage_wrapper) : Prop := {
  rc_hot : 0 <= hot_segment rhc;
  rc_keys : recover_keys io rhc = true;
  rc_length : rh_length rhc = rh_length rh;
  rc_alignment : rh_alignment rhc = rh_alignment rh;
  rc_rp : rh_rp rhc = rh_rp rh;
  rc_sector : 512 <= rh_length rh;
  rc_area : LUKS2_keyslot_area hdrc (rh_reenc_keyslot rhc) = (0, ao, al);
  rc_new : recover_new_wrapper io hdrc rhc = inr cwn;
  rc_old : recover_old_wrapper io hdrc rhc ao = inr cwo;
  rc_new_at : converts_at cw2 cwn (rh_offset rh) /\ data_offset cwn = woff;
  rc_old_at : converts_at cw1 cwo (rh_offset rh) /\
              data_offset cwo = (match rh_rp rh with REENC_PROTECTION_JOURNAL => ao | _ => ooff end);
  rc_new_fits : wrapper_fits (data_bytes s0) cwn /\ w_block_size cwn = w_block_size cw2;
  rc_old_direct : direct_ok cwo /\ 0 < w_block_size cwo;
  rc_fd : 0 <= io_meta_fd io;
}.

Lemma recover_segment_spec hdrc rhc cwo cwn s r rh' s' :
  recovery_ok hdrc rhc cwo cwn -> attached s = attached s0 -> granular_store (rh_alignment rh) s -> during s ->
  zlen (meta_bytes s) = zlen (meta_bytes s0) ->
  reencrypt_recover_segment io hdrc rhc s = (r, rh', s') ->
  store_le s s' /\ zlen (meta_bytes s') = zlen (meta_bytes s0) /\ during s' /\
  (r = 0 -> state N s' /\ rh' = set_read rhc (rh_length rh)) /\ (benign_store s -> r = 0).
Proof.
  intros [Hhot Hkeys El Ea Erp H512 Harea Hnew Hold (Hcn & Hon) (Hco & Hoo) [Hfn Hbs] [Hdo Hbo] Hfd] Eat Hg Hdur Hzm.
  destruct Hdur as (Hh & Hprot & M & Hmix & Hst).
  pose proof hz_region as Hreg. pose proof hz_metadata as Hmd. destruct hz_blocks as [Hbl Hn].
  destruct hz_source as [Hoo0 HzO]. destruct hz_zlen as [HzP HzN]. destruct (hz_window Hz) as (Ho & Hl & _).
  destruct (hz_align Hz) as [Ha Had]. destruct (hz_block Hz) as [Hb1 Hb2]. destruct (hz_units Hz) as [Hu1 Hu2].
  assert (HP : decode cwo 0 old_data = Some P).
  { unfold decode. rewrite (convert_at_0 _ cw1) with (offset := rh_offset rh) by done. apply (hz_decode Hz). }
  assert (HN : encode cwn 0 P = Some N).
  { unfold encode. rewrite (convert_at_0 _ cw2) with (offset := rh_offset rh) by done. apply (hz_encode Hz). }
  pose proof (ar_bounds _ _ _ _ _ _ _ (hz_area Hz)) as (Hb0 & Hao & Hal & Hsz).
  destruct (ar_block _ _ _ _ _ _ _ (hz_area Hz)) as (Hmb & _). pose proof (ar_alignment _ _ _ _ _ _ _ (hz_area Hz)) as Hma.
  pose proof (hz_protection Hz) as Hpok.
  (* how the two ways of recovery end *)
  assert (Hend : forall (t : Z * store) s1,
    store_le s s1 -> kept s s1 ->
    (exists r s' M', t = (r, s') /\ store_le s1 s' /\ kept s1 s' /\ blocks M' /\ state M' s' /\
       (r = 0 -> M' = N) /\ (benign_store s1 -> r = 0)) ->
    (let '(r, s) := t in (r, if r =? 0 then set_read rhc (rh_length rh) else rhc, s)) = (r, rh', s') ->
    store_le s s' /\ zlen (meta_bytes s') = zlen (meta_bytes s0) /\ during s' /\
    (r = 0 -> state N s' /\ rh' = set_read rhc (rh_length rh)) /\ (benign_store s -> r = 0)).
  { intros t s1 Hle Hk (r1 & s2 & M' & -> & Hle2 & Hk2 & Hm & Hst2 & HN' & Hb) [= <- <- <-].
    assert (store_le s s2) as Hle' by (by etransitivity). assert (kept s s2) as Hk' by (eapply meta_kept_trans; [exact Hle|exact Hk|exact Hk2]).
    assert (attached s2 = attached s0) as Eat2 by (by destruct Hle' as (-> & _)).
    destruct (headers_kept s s2 Eat Hk') as [Hz2 Hsl].
    split; [done|]. split; [congruence|]. split.
    - split; [by apply (holds_frame _ (meta_bytes s))|]. split; [by apply (protected_kept s s2 M')|]. by exists M'.
    - split; [|intros Hbn; apply Hb; by eapply store_le_benign].
      intros ->. rewrite HN' in Hst2 by done. done. }
  assert (Hstop : forall r1 s1, store_le s s1 -> kept s s1 -> state M s1 -> r1 <> 0 -> ~ benign_store s ->
    (r1, rhc, s1) = (r, rh', s') ->
    store_le s s' /\ zlen (meta_bytes s') = zlen (meta_bytes s0) /\ during s' /\
    (r = 0 -> state N s' /\ rh' = set_read rhc (rh_length rh)) /\ (benign_store s -> r = 0)).
  { intros r1 s1 Hle Hk Hst1 Hr Hnb [= <- <- <-]. assert (attached s1 = attached s0) as Eat1 by (by destruct Hle as (-> & _)).
    destruct (headers_kept s s1 Eat Hk) as [Hz2 Hsl]. split; [done|]. split; [congruence|]. split; [|done].
    split; [by apply (holds_frame _ (meta_bytes s))|]. split; [by apply (protected_kept s s1 M)|]. by exists M. }
  unfold reencrypt_recover_segment. rewrite El, Ea, Erp, Hkeys, Hnew, Harea, Hold.
  destruct (Z.ltb_spec (hot_segment rhc) 0); [lia|]. destruct (Z.ltb_spec (rh_length rh) 512); [lia|]. cbn [orb negb Z.eqb].
  pose proof (proj1 Hst) as HzD. unfold protected, protection_ok in *.
  destruct (rh_rp rh) as [|hash hash_size| |] eqn:Ep; [done|..].
  - destruct Hpok as (Hhs & Hfit & Hdoff & Hcoll).
    assert (window_data = old_data) as EW by (unfold window_data, old_data, woff, ooff; by rewrite Hdoff).
    rewrite u64_id by nia. destruct (Z.ltb_spec al (rh_length rh / rh_alignment rh * hash_size)); [lia|].
    destruct (Z.ltb_spec (io_meta_fd io) 0); [lia|].
    pose proof (read_lseek_blockwise_spec (io_meta_fd io) (io_meta_block io) (io_meta_alignment io)
      (rh_length rh / rh_alignment rh * hash_size) ao (meta_file s) Hfd Hmb Hma ltac:(nia) ltac:(lia)) as Hr.
    destruct (read_lseek_blockwise _ _ _ _ _ _) as [[r1 c] f1]. destruct Hr as (Hs1 & Hd1 & Hr).
    assert (Hle1 : store_le s (set_meta f1 s)) by (by apply set_meta_le).
    assert (Hk1 : kept s (set_meta f1 s)) by (by apply set_meta_same).
    assert (Hst1 : state M (set_meta f1 s)) by (apply meta_change_state; [done|done|by rewrite Hd1|intros; by rewrite Hd1]).
    destruct Hr as [[-> Hc]|[-> [Hnb|?]]]; [| |unfold f_size in *; nia].
    2: { cbn [Z.ltb Z.compare orb]. apply Hstop; try done. intros [_ ?]. by apply Hnb. }
    destruct (Z.ltb_spec (rh_length rh / rh_alignment rh * hash_size) 0); [nia|]. rewrite Z.eqb_refl. cbn [negb orb].
    destruct Hfn as [Hdn Hbn Hvn Hofn Hszn].
    destruct (wrapper_read_any cwn 0 (rh_length rh) (data_dev (set_meta f1 s)) Hdn Hbn) as (r2 & X & f2 & -> & Hs2 & Hd2 & Hr2);
      unfold f_size; rewrite ?(proj1 Hst1), ?Z.add_0_r; try done; try lia.
    rewrite Z.add_0_r, Hon in Hr2. assert (Hle2 : store_le s (set_data f2 (set_meta f1 s)))
      by (etransitivity; [exact Hle1|by apply set_data_le]).
    assert (Hk2 : kept s (set_data f2 (set_meta f1 s))) by (eapply meta_kept_trans; [exact Hle1|done|by apply meta_kept_same]).
    assert (Hst2 : state M (set_data f2 (set_meta f1 s))) by (by apply data_state_same).
    destruct Hr2 as [[-> HX]|[-> Hnb]].
    2: { cbn [Z.ltb Z.compare orb]. apply Hstop; try done. intros Hb. apply Hnb. by apply (store_le_benign s). }
    destruct (Z.ltb_spec (rh_length rh) 0); [lia|]. rewrite Z.eqb_refl. cbn [negb orb].
    apply Hend with (s1 := set_data f2 (set_meta f1 s)); [done|done|].
    assert (X = M) as -> by (rewrite HX; apply Hst1).
    destruct (recover_blocks_spec woff (rh_length rh) metadata_end (data_bytes s0) Hreg Hmd cwo cwn hash hash_size
      (rh_alignment rh) (rh_length rh / rh_alignment rh) old_data P N Ha Hbl HzO Hdo) with
      (m := Z.to_nat (rh_length rh / rh_alignment rh)) (i := 0) (X := M) (M := M) (checksums := c)
      (s := set_data f2 (set_meta f1 s)) as (r3 & s3 & M3 & E3 & Hres); try done; rewrite ?Hbs, ?EW in *; try done; try lia.
    + rewrite (unit_size_at cw1 cwo (rh_offset rh)); done.
    + rewrite (unit_size_at cw2 cwn (rh_offset rh)); done.
    + intros i Hi. rewrite Hc, slice_slice by nia. by apply Hprot.
    + by eapply store_le_granular.
    + by rewrite (proj1 Hmix).
    + exists r3, s3, M3. done.
  - destruct (Z.ltb_spec al (rh_length rh)); [lia|]. apply Hend with (s1 := s); [done|by apply meta_kept_refl|].
    apply (recover_copy_spec woff (rh_length rh) metadata_end (data_bytes s0) Hreg Hmd true cwo cwn (rh_alignment rh)
      window_data old_data P N M s); try done; rewrite ?Hoo, ?Hbs, ?Hzm; try done; try lia.
    + apply window_zlen.
    + by etransitivity.
  - apply Hend with (s1 := s); [done|by apply meta_kept_refl|].
    destruct (hz_old Hz). pose proof (wf_size _ _ Hfn).
    apply (recover_copy_spec woff (rh_length rh) metadata_end (data_bytes s0) Hreg Hmd false cwo cwn (rh_alignment rh)
      window_data old_data P N M s); try done; rewrite ?Hoo, ?Hbs, ?HzD; try done; try lia.
    + apply window_zlen.
    + by etransitivity.
Qed.

(** ** The whole step *)

Lemma before_data s o n :
  attached s = attached s0 -> state window_data s -> metadata_end <= o -> 0 <= n ->
  slice o n (data_bytes s) = slice o n (data_bytes s0).
Proof.
  intros Ea (Hzd & Hw & Hr) Ho Hn. pose proof hz_metadata as Hmd. pose proof hz_region as (Hw0 & Hl & Hin).
  assert (Hlim : meta_limit metadata_end s <= metadata_end).
  { unfold meta_limit. destruct (attached s); lia. }
  apply list_eq. intros i. destruct (decide (i < Z.to_nat n)%nat) as [Hi|Hi].
  2: { rewrite !lookup_ge_None_2; [done|..]; unfold slice; rewrite length_take; lia. }
  rewrite !lookup_slice by lia.
  set (k := (Z.to_nat o + i)%nat). destruct (decide (woff <= Z.of_nat k < woff + rh_length rh)) as [Hk|Hk].
  - unfold window_data in Hw. assert (Hj : (k - Z.to_nat woff < Z.to_nat (rh_length rh))%nat) by lia.
    pose proof (f_equal (fun l => l !! (k - Z.to_nat woff)%nat) Hw) as E. cbn in E.
    rewrite !lookup_slice in E by lia. by replace (Z.to_nat woff + (k - Z.to_nat woff))%nat with k in E by lia.
  - pose proof (f_equal (fun l => l !! 0%nat) (Hr (Z.of_nat k) 1 ltac:(lia) ltac:(lia) ltac:(lia))) as E. cbn beta in E.
    rewrite !lookup_slice in E by lia. by rewrite Nat2Z.id, Nat.add_0_r in E.
Qed.

Section step.
Variables (env : reenc_env) (hdr : luks2_hdr) (rh0 : luks2_reencrypt) (cw : crypt_storage_wrapper) (device_size : Z).
Variables (post : luks2_hdr) (rhp : luks2_reencrypt).

(** The headers of the step, and the wrapper of the old data. *)
Record step_ok : Prop := {
  st_hot : hot_header env hdr rh0 device_size = Some (hot, rh);
  st_old : old_wrapper env io hot rh cw = inr cw1;
  st_post : post_header hot rh = Some (post, rhp);
  st_follows : follows (next_header hot) post (zlen (meta_bytes s0));
}.

Hypothesis Hstep : step_ok.

Definition after (s : store) : Prop := holds (next_header post) (meta_bytes s) /\ state N s.

Lemma assign_segments_rp h r (b : bool) res h' r' : reencrypt_assign_segments h r b = (res, h', r') -> rh_rp r' = rh_rp r.
Proof.
  assert (Hset : forall h r b h' r', set_step_segments h r b = Some (h', r') -> rh_rp r' = rh_rp r).
  { intros h1 r1 [] h2 r2; unfold set_step_segments; [destruct (rh_segs_hot r1)|destruct (rh_segs_post r1)];
      cbn; by intros [= <- <-]. }
  unfold reencrypt_assign_segments, reencrypt_assign_segments_simple. intros H.
  repeat case_match; simplify_eq; try done; by eapply Hset.
Qed.

Lemma step_spec s rs hdr' rh' cw' s' :
  fresh s -> reencrypt_step env io hdr rh0 cw cw2 device_size s = (rs, hdr', rh', cw', s') ->
  store_le s s' /\ zlen (meta_bytes s') = zlen (meta_bytes s0) /\ (before s' \/ during s' \/ after s') /\
  (rs = REENC_OK -> after s') /\
  (benign_store s -> io_datasync io = 0 -> rs = REENC_OK).
Proof.
  intros Hf. destruct Hstep as [Hh Ho Hp Hfw]. unfold hot_header in Hh. unfold reencrypt_step.
  destruct (reencrypt_keyslot_update hdr rh0) as [r1 h1]. destruct (r1 <? 0); [done|].
  destruct (reencrypt_make_segments env h1 rh0 device_size) as [r2 rh2]. destruct (negb (r2 =? 0)); [done|].
  destruct (reencrypt_assign_segments h1 rh2 true) as [[r3 h3] rh3]. destruct (negb (r3 =? 0)); [done|].
  injection Hh as -> ->. rewrite Ho.
  destruct (reencrypt_hotzone io hot rh cw1 cw2 s) as [[[rs1 h4] rh4] s1] eqn:E.
  apply hotzone_spec in E as (Hle & Hz1 & Hph & Hok & Hbn); [|done].
  assert (Hph' : before s1 \/ during s1 \/ after s1) by (destruct Hph; auto).
  destruct rs1; try (intros [= <- <- <- <- <-]; repeat (split; [done|]); exact Hbn).
  destruct (Hok eq_refl) as (-> & -> & Hready & Hprot & HstN). unfold post_header in Hp.
  destruct (reencrypt_assign_segments (next_header hot) (set_read rh (rh_length rh)) false) as [[r5 h5] rh5] eqn:E5.
  apply assign_segments_rp in E5. cbn in E5. destruct (negb (r5 =? 0)); [done|]. injection Hp as -> ->.
  rewrite E5. pose proof (hz_protection Hz) as Hpr. unfold protection_ok in Hpr.
  destruct (is_none_protection (rh_rp rh)) eqn:En; [by destruct (rh_rp rh)|]. cbn [negb].
  destruct (hdr_write post s1) as [[r6 h6] s2] eqn:E6. unfold hdr_write in E6.
  destruct (LUKS2_hdr_write post (meta_file s1)) as [[r7 h7] f7] eqn:E7. injection E6 as -> -> <-.
  pose proof (store_le_granular _ _ _ Hle (proj2 (proj2 (proj2 Hf)))) as [_ Hg].
  assert (Ea : attached s1 = attached s0) by (destruct Hle as (-> & _); apply Hf).
  destruct (hdr_write_spec (next_header hot) post (meta_file s1) r6 h6 f7) as (Hs7 & Hz7 & Hk7 & Hle7 & Hb7 & Hok7 & Hh7); try done.
  { unfold f_size. rewrite Hz1. apply (st_follows Hstep). }
  assert (Hle2 : store_le s (set_meta f7 s1)) by (etransitivity; [exact Hle|by apply set_meta_le]).
  pose proof (ar_bounds _ _ _ _ _ _ _ (hz_area Hz)) as Har.
  assert (Hst2 : state N (set_meta f7 s1)) by (apply meta_change_state; auto; intros; apply Hk7; lia).
  assert (Hph2 : during (set_meta f7 s1) \/ after (set_meta f7 s1)).
  { rewrite <-(meta_file_set f7 s1) in Hh7. destruct Hh7 as [Hh7|Hh7]; [left|by right].
    split; [done|]. split.
    - apply (protected_area s1 _ N); auto; [by destruct Hle2 as (-> & _); apply Hf|].
      intros o n Hoo Hn Hin. rewrite meta_file_set. apply Hk7; lia.
    - exists N. split; [|done]. split; [rewrite window_zlen; apply hz_zlen|]. by right. }
  destruct (Z.eqb_spec r6 0) as [->|Hne]; intros [= <- <- <- <- <-].
  - destruct (Hok7 eq_refl) as [-> Hr7].
    assert (after (set_meta f7 s1)) by (split; [rewrite meta_file_set; by apply ready_holds|done]).
    split; [done|]. split; [rewrite meta_file_set; congruence|]. split; [by right; right|]. by split.
  - split; [done|]. split; [rewrite meta_file_set; congruence|]. split; [by right|]. split; [done|]. intros Hb _. destruct Hne. apply Hb7.
    by apply (store_le_benign s).
Qed.

(** ** Crashes *)

Variables (hdrc : luks2_hdr) (rhc : luks2_reencrypt) (cwo cwn : crypt_storage_wrapper).

(** The same contents, and new schedules. *)
Definition rebooted (s s1 : store) : Prop :=
  attached s1 = attached s /\ data_bytes s1 = data_bytes s /\ meta_bytes s1 = meta_bytes s /\
  granular_store (rh_alignment rh) s1.

Definition header_is (h : luks2_hdr) (s : store) : Prop :=
  jobj <$> LUKS2_hdr_read (meta_bytes s) = Some (jobj h).

(** What the devices hold after the step ran, to its end or not, and after
    any number of recoveries that were interrupted or not. *)
Inductive interrupted : store -> Prop :=
| interrupted_step s :
    fresh s -> interrupted (reencrypt_step env io hdr rh0 cw cw2 device_size s).2
| interrupted_recovery s s1 :
    interrupted s -> rebooted s s1 -> header_is (next_header hot) s1 ->
    interrupted (reencrypt_recover_segment io hdrc rhc s1).2.

(** The plain data a user has in the hotzone, by the header that is found. *)
Definition plaintext_is (s : store) (X : bytes) : Prop :=
  let new_plaintext s := decode cw2 (rh_offset rh) (slice woff (rh_length rh) (data_bytes s)) in
  (header_is old s /\ decode cw1 (rh_offset rh) (slice ooff (rh_length rh) (data_bytes s)) = Some X) \/
  (header_is (next_header hot) s /\ exists rh' s', reencrypt_recover_segment io hdrc rhc s = (0, rh', s') /\
     new_plaintext s' = Some X) \/
  (header_is (next_header post) s /\ new_plaintext s = Some X).

Hypothesis Hrec : recovery_ok hdrc rhc cwo cwn.
Hypothesis Hdistinct : jobj old <> jobj (next_header hot) /\ jobj (next_header post) <> jobj (next_header hot).

Definition phase (s : store) : Prop :=
  attached s = attached s0 /\ zlen (meta_bytes s) = zlen (meta_bytes s0) /\ (before s \/ during s \/ after s).

Lemma rebooted_state M s s1 : rebooted s s1 -> state M s -> state M s1.
Proof. intros (Ea & Ed & _) H. unfold data_state, meta_limit in *. by rewrite Ea, Ed. Qed.

Lemma rebooted_phase s s1 : rebooted s s1 -> phase s -> phase s1.
Proof.
  intros Hr (Ea & Hzm & Hph). pose proof Hr as (Ea1 & Ed & Em & _). split; [congruence|]. rewrite Em.
  split; [done|]. unfold before, during, after, protected. rewrite Em, Ed.
  destruct Hph as [[? ?]|[(? & ? & M & ? & ?)|[? ?]]]; [left|right; left|right; right].
  - eauto using rebooted_state.
  - split; [done|]. split; [done|]. exists M. eauto using rebooted_state.
  - eauto using rebooted_state.
Qed.

Lemma hot_header_during s : phase s -> header_is (next_header hot) s -> during s.
Proof.
  intros (_ & _ & Hph) Hh. destruct Hdistinct as [H1 H2]. unfold header_is in Hh.
  destruct Hph as [[Hb _]|[Hd|[Ha _]]]; [|done|].
  - apply holds_read in Hb. congruence.
  - apply holds_read in Ha. congruence.
Qed.

Lemma interrupted_phase s : interrupted s -> phase s.
Proof.
  induction 1 as [s Hf|s s1 _ IH Hr Hh].
  - destruct (reencrypt_step env io hdr rh0 cw cw2 device_size s) as [[[[rs h'] r'] c'] s'] eqn:E.
    apply step_spec in E as (Hle & Hzm & Hph & _); [|done]. pose proof Hf as (Ea & _).
    destruct Hle as (Ea' & _). split; [cbn; congruence|]. done.
  - pose proof (rebooted_phase _ _ Hr IH) as Hp. pose proof (hot_header_during _ Hp Hh) as Hd.
    destruct (reencrypt_recover_segment io hdrc rhc s1) as [[r rh'] s'] eqn:E.
    destruct Hp as (Ea & Hzm & _). destruct Hr as (_ & _ & _ & Hg).
    apply (recover_segment_spec hdrc rhc cwo cwn) in E as (Hle & Hzm' & Hd' & _); try done.
    destruct Hle as (Ea' & _). split; [cbn; congruence|]. split; [done|]. by right; left.
Qed.

Lemma new_plaintext s : state N s -> decode cw2 (rh_offset rh) (slice woff (rh_length rh) (data_bytes s)) = Some P.
Proof.
  intros (_ & -> & _). apply decode_encode; [apply (hz_fits2 Hz)|apply (hz_encode Hz)].
Qed.

(** C3: No crash loses data. [reencrypt_step] runs on a hotzone protected by
    checksums, a journal or a data shift; it, and any number of recoveries
    after it ([reencrypt_recover_segment]), stop at any transfer of either
    device, transferring any number of blocks before. Whatever is then on the
    devices, the header found is the one before the step, the one that names
    the hotzone, or the one after it, and the plain data of the hotzone is what
    it was before the step: read with the old key, after a recovery that no
    longer fails, or read with the new key. The data outside the window is
    never touched. *)
Theorem hotzone_survives_crash s s1 :
  interrupted s -> rebooted s s1 -> benign_store s1 ->
  plaintext_is s1 P /\
  forall o n, metadata_end <= o -> 0 <= n -> o + n <= woff \/ woff + rh_length rh <= o ->
    slice o n (data_bytes s1) = slice o n (data_bytes s0).
Proof.
  intros Hi Hr Hb. apply interrupted_phase in Hi. apply (rebooted_phase _ _ Hr) in Hi as (Ea & Hzm & Hph).
  destruct Hr as (_ & _ & _ & Hg). split.
  - destruct Hph as [[Hh Hst]|[Hd|[Hh Hst]]].
    + left. split; [by apply holds_read|]. rewrite before_data; [apply (hz_decode Hz)|done|done|apply (hz_old Hz)|].
      destruct (hz_window Hz). lia.
    + right. left. split; [apply holds_read, Hd|].
      destruct (reencrypt_recover_segment io hdrc rhc s1) as [[r rh'] s'] eqn:E.
      apply (recover_segment_spec hdrc rhc cwo cwn) in E as (_ & _ & _ & Hok & Hbn); try done.
      assert (r = 0) as -> by auto. exists rh', s'. split; [done|]. apply new_plaintext, Hok. done.
    + right. right. split; [by apply holds_read|]. by apply new_plaintext.
  - assert (exists M, state M s1) as [M (_ & _ & Hrest)]
      by (destruct Hph as [[_ ?]|[(_ & _ & M & _ & ?)|[_ ?]]]; eauto).
    intros o n Ho. apply Hrest. revert Ho. unfold meta_limit, metadata_end. rewrite Ea. destruct (attached s0); lia.
Qed.

(** C4: Without failing transfers [reencrypt_step] succeeds: the header of
    the next state is on the device, the window holds the data encrypted with
    the new key, and nothing else of the data changed. *)
Theorem reencrypt_step_done s rs hdr' rh' cw' s' :
  fresh s -> benign_store s -> io_datasync io = 0 ->
  reencrypt_step env io hdr rh0 cw cw2 device_size s = (rs, hdr', rh', cw', s') ->
  rs = REENC_OK /\ header_is (next_header post) s' /\
  slice woff (rh_length rh) (data_bytes s') = N /\
  decode cw2 (rh_offset rh) (slice woff (rh_length rh) (data_bytes s')) = Some P /\
  forall o n, metadata_end <= o -> 0 <= n -> o + n <= woff \/ woff + rh_length rh <= o ->
    slice o n (data_bytes s') = slice o n (data_bytes s0).
Proof.
  intros Hf Hb Hsync E. apply step_spec in E as ((Ea & _) & _ & _ & Hok & Hbn); [|done].
  specialize (Hbn Hb Hsync). destruct (Hok Hbn) as [Hh Hst]. split; [done|]. split; [by apply holds_read|].
  split; [apply Hst|]. split; [by apply new_plaintext|]. destruct Hst as (_ & _ & Hrest).
  intros o n Ho. apply Hrest. revert Ho. unfold meta_limit, metadata_end. rewrite Ea.
  destruct Hf as (-> & _). destruct (attached s0); lia.
Qed.
End step.
End hotzone.
