(* ===== verification/Luks2Disk.v ===== *)
(** * Luks2Disk: the LUKS2 header on disk (lib/luks2/luks2_disk_metadata.c)

    Two copies of the header, each a 4096-byte binary header [luks2_hdr_disk]
    followed by a JSON area, are written one after the other with an increased
    sequence id; reading picks the newer valid copy and may rewrite the other.
    The functions run in the monad [M] of [Device]. Hash functions, the random
    generator and the blkid probe are parameters ([CryptHash], [disk_env]). *)

From S2P Require Import Prelude UtilsIO CryptBackend Cstd JsonC Luks2Json Luks2Keyslot Luks2Areas Luks2Validate Device.
From Stdlib Require Import Strings.Byte.

(** ** The binary header *)

Definition LUKS2_MAGIC_1ST : bytes := bytes_of_string "LUKS" ++ [xba; xbe].
Definition LUKS2_MAGIC_2ND : bytes := bytes_of_string "SKUL" ++ [xba; xbe].
Definition LUKS2_MAGIC_L : Z := 6.
Definition LUKS2_UUID_L : Z := 40.
Definition LUKS2_LABEL_L : Z := 48.
Definition LUKS2_SALT_L : Z := 64.
Definition LUKS2_CHECKSUM_ALG_L : Z := 32.
Definition LUKS2_CHECKSUM_L : Z := 64.
Definition LUKS2_HDR2_OFFSETS : list Z :=
  [0x04000; 0x008000; 0x010000; 0x020000; 0x40000; 0x080000; 0x100000; 0x200000; 0x400000].

(** The packed struct; integers are big-endian byte fields. *)
Record luks2_hdr_disk := HdrDisk {
  dk_magic : bytes;
  dk_version : bytes;
  dk_hdr_size : bytes;
  dk_seqid : bytes;
  dk_label : bytes;
  dk_checksum_alg : bytes;
  dk_salt : bytes;
  dk_uuid : bytes;
  dk_subsystem : bytes;
  dk_hdr_offset : bytes;
  dk_padding : bytes;
  dk_csum : bytes;
  dk_padding4096 : bytes;
}.

Definition hdr_disk_fields (h : luks2_hdr_disk) : list bytes :=
  [ dk_magic h; dk_version h; dk_hdr_size h; dk_seqid h; dk_label h; dk_checksum_alg h; dk_salt h;
    dk_uuid h; dk_subsystem h; dk_hdr_offset h; dk_padding h; dk_csum h; dk_padding4096 h ].

(** The 4096 bytes of the struct, and the struct that bytes represent. *)
Definition hdr_disk_bytes (h : luks2_hdr_disk) : bytes := mjoin (hdr_disk_fields h).

Definition hdr_disk_of_bytes (b : bytes) : luks2_hdr_disk :=
  HdrDisk (slice 0 6 b) (slice 6 2 b) (slice 8 8 b) (slice 16 8 b) (slice 24 48 b) (slice 72 32 b)
    (slice 104 64 b) (slice 168 40 b) (slice 208 48 b) (slice 256 8 b) (slice 264 184 b)
    (slice 448 64 b) (slice 512 3584 b).

Definition set_csum (h : luks2_hdr_disk) (csum : bytes) : luks2_hdr_disk :=
  HdrDisk (dk_magic h) (dk_version h) (dk_hdr_size h) (dk_seqid h) (dk_label h) (dk_checksum_alg h)
    (dk_salt h) (dk_uuid h) (dk_subsystem h) (dk_hdr_offset h) (dk_padding h) csum (dk_padding4096 h).

Definition set_salt (h : luks2_hdr_disk) (salt : bytes) : luks2_hdr_disk :=
  HdrDisk (dk_magic h) (dk_version h) (dk_hdr_size h) (dk_seqid h) (dk_label h) (dk_checksum_alg h)
    salt (dk_uuid h) (dk_subsystem h) (dk_hdr_offset h) (dk_padding h) (dk_csum h) (dk_padding4096 h).

(** C strings that start in a field run on into the following ones. *)
Definition dk_checksum_alg_cstr (h : luks2_hdr_disk) : bytes :=
  cstr (mjoin (drop 5 (hdr_disk_fields h))).
Definition dk_uuid_cstr (h : luks2_hdr_disk) : bytes :=
  cstr (mjoin (drop 7 (hdr_disk_fields h))).

(** ** The environment *)

Record disk_env := DiskEnv {
  os : os_env;
  (** [crypt_get_luks2_reencrypt(cd)] is not NULL *)
  in_reencryption : bool;
  (** [crypt_random_get] of a salt: code and bytes *)
  random_salt : Z * bytes;
  (** [detect_device_signatures] *)
  blkprobe : Z;
  (** contents of a [struct luks2_hdr_disk] on the stack *)
  uninit : luks2_hdr_disk;
}.

Section disk.
Context `{JC : JsonC} `{CH : CryptHash}.
Variable env : disk_env.

(** ** Checksums *)

Definition hdr_checksum_calculate (alg : bytes) (hdr_disk : luks2_hdr_disk) (json_area : bytes)
    : Z * luks2_hdr_disk :=
  let hash_size := crypt_hash_size alg in
  if hash_size <=? 0 then (- EINVAL, hdr_disk)
  else (0, set_csum hdr_disk
             (splice 0 (crypt_hash alg (hdr_disk_bytes hdr_disk ++ json_area)) (dk_csum hdr_disk))).

Definition hdr_checksum_check (alg : bytes) (hdr_disk : luks2_hdr_disk) (json_area : bytes) : Z :=
  let hash_size := crypt_hash_size alg in
  if hash_size <=? 0 then - EINVAL
  else
    let hdr_tmp := set_csum hdr_disk (zeros (Z.to_nat LUKS2_CHECKSUM_L)) in
    let '(r, hdr_tmp) := hdr_checksum_calculate alg hdr_tmp json_area in
    if r <? 0 then r
    else if bool_decide (slice 0 hash_size (dk_csum hdr_tmp) = slice 0 hash_size (dk_csum hdr_disk))
    then 0 else - EINVAL.

(** ** Conversions *)

(** [memcpy] of a field and the terminating NUL in its last byte *)
Definition terminated (b : bytes) : bytes := splice (zlen b - 1) [x00] b.

Definition hdr_from_disk (hdr_disk1 hdr_disk2 : luks2_hdr_disk) (hdr : luks2_hdr) (secondary : bool)
    : luks2_hdr :=
  Luks2Hdr _
    (be_decode (dk_hdr_size hdr_disk1)) (be_decode (dk_seqid hdr_disk1)) (be_decode (dk_version hdr_disk1))
    (terminated (dk_label hdr_disk1)) (terminated (dk_subsystem hdr_disk1))
    (terminated (dk_checksum_alg hdr_disk1))
    (dk_salt (if secondary then hdr_disk2 else hdr_disk1))
    (dk_salt (if secondary then hdr_disk1 else hdr_disk2))
    (terminated (dk_uuid hdr_disk1)) (jobj hdr).

(** A zeroed field of [n] bytes, a C string copied into it, terminated. *)
Definition string_field (n : Z) (s : bytes) : bytes :=
  terminated (splice 0 (take (Z.to_nat n) (cstr s)) (zeros (Z.to_nat n))).

Definition hdr_to_disk (hdr : luks2_hdr) (secondary : bool) (offset : Z) : luks2_hdr_disk :=
  HdrDisk (if secondary then LUKS2_MAGIC_2ND else LUKS2_MAGIC_1ST)
    (be_encode 2 (version hdr)) (be_encode 8 (hdr_size hdr)) (be_encode 8 (seqid hdr))
    (string_field LUKS2_LABEL_L (label hdr)) (string_field LUKS2_CHECKSUM_ALG_L (checksum_alg hdr))
    (if secondary then salt2 hdr else salt1 hdr)
    (string_field LUKS2_UUID_L (uuid hdr)) (string_field LUKS2_LABEL_L (subsystem hdr))
    (be_encode 8 offset) (zeros 184) (zeros (Z.to_nat LUKS2_CHECKSUM_L)) (zeros 3584).

(** ** Reading one copy *)

(** Code and [hdr_json_size]. *)
Definition hdr_disk_sanity_check_pre (hdr : luks2_hdr_disk) (secondary : bool) (offset : Z) : Z * Z :=
  if negb (bool_decide (dk_magic hdr = if secondary then LUKS2_MAGIC_2ND else LUKS2_MAGIC_1ST))
  then (- EINVAL, 0)
  else if negb (be_decode (dk_version hdr) =? 2) then (- EINVAL, 0)
  else if negb (offset =? be_decode (dk_hdr_offset hdr)) then (- EINVAL, 0)
  else if secondary && negb (offset =? be_decode (dk_hdr_size hdr)) then (- EINVAL, 0)
  else (0, be_decode (dk_hdr_size hdr) -64 LUKS2_HDR_BIN_LEN).

(** Code, binary header (with its checksum cleared) and JSON area. *)
Definition hdr_read_disk (hdr_disk : luks2_hdr_disk) (offset : Z) (secondary : bool)
    : M (Z * luks2_hdr_disk * option bytes) :=
  devfd ← device_open_locked (os env) O_RDONLY;
  if devfd <? 0 then mret ((if devfd =? -1 then - EIO else devfd), hdr_disk, None)
  else
    '(n, buf) ← dev_read (os env) devfd LUKS2_HDR_BIN_LEN offset;
    if negb (n =? LUKS2_HDR_BIN_LEN) then mret (- EIO, hdr_disk, None)
    else
      let hdr_disk := hdr_disk_of_bytes buf in
      let '(r, hdr_json_size) := hdr_disk_sanity_check_pre hdr_disk secondary offset in
      if r <? 0 then mret (r, hdr_disk, None)
      else if mem_limit (os env) <? hdr_json_size then mret (- ENOMEM, hdr_disk, None)
      else
        '(n, json_area) ← dev_read (os env) devfd hdr_json_size (offset +64 LUKS2_HDR_BIN_LEN);
        if negb (n =? i64 hdr_json_size) then mret (- EIO, hdr_disk, None)
        else
          let r := if hdr_checksum_check (dk_checksum_alg_cstr hdr_disk) hdr_disk json_area =? 0
                   then r else - EINVAL in
          mret (r, set_csum hdr_disk (zeros (Z.to_nat LUKS2_CHECKSUM_L)), Some json_area).

(** ** Writing one copy *)

Definition hdr_write_disk (hdr : luks2_hdr) (json_area : bytes) (secondary : bool) : M Z :=
  let offset := if secondary then hdr_size hdr else 0 in
  devfd ← device_open_locked (os env) O_RDWR;
  if devfd <? 0 then mret (if devfd =? -1 then - EINVAL else devfd)
  else
    let hdr_json_len := hdr_size hdr -64 LUKS2_HDR_BIN_LEN in
    let hdr_disk := hdr_to_disk hdr secondary offset in
    w ← dev_write (os env) devfd (hdr_disk_bytes hdr_disk) LUKS2_HDR_BIN_LEN offset;
    if w <? LUKS2_HDR_BIN_LEN then mret (- EIO)
    else
      w ← dev_write (os env) devfd json_area hdr_json_len (LUKS2_HDR_BIN_LEN +64 offset);
      if w <? i64 hdr_json_len then mret (- EIO)
      else
        let '(r, hdr_disk) := hdr_checksum_calculate (dk_checksum_alg_cstr hdr_disk) hdr_disk json_area in
        if r <? 0 then mret r
        else
          w ← dev_write (os env) devfd (hdr_disk_bytes hdr_disk) LUKS2_HDR_BIN_LEN offset;
          let r := if w <? LUKS2_HDR_BIN_LEN then - EIO else r in
          _ ← device_sync;
          mret r.

(** ** Locking *)

(** 0, 1 (the ids differ) or an error. *)
Definition LUKS2_check_sequence_id (hdr : luks2_hdr) : M Z :=
  devfd ← device_open_locked (os env) O_RDONLY;
  if devfd <? 0 then mret (if devfd =? -1 then - EINVAL else devfd)
  else
    '(n, buf) ← dev_read (os env) devfd 512 0;
    if negb (n =? 512) then mret (- EIO)
    else
      let dhdr := hdr_disk_of_bytes buf in
      if negb (be_decode (dk_version dhdr) =? 2) || negb (bool_decide (dk_magic dhdr = LUKS2_MAGIC_1ST)) ||
         negb (bool_decide (dk_uuid_cstr dhdr = cstr (uuid hdr)))
      then mret 0
      else mret (if seqid hdr =? be_decode (dk_seqid dhdr) then 0 else 1).

Definition LUKS2_device_write_lock (hdr : luks2_hdr) : M Z :=
  r ← device_write_lock (os env);
  if r <? 0 then mret r
  else if (r =? 1) && negb (in_reencryption env) then
    c ← LUKS2_check_sequence_id hdr;
    if negb (c =? 0) then
      _ ← device_write_unlock (os env);
      mret (- EINVAL)
    else mret 0
  else mret 0.

(** ** Writing both copies *)

Definition set_seqid (hdr : luks2_hdr) (s : Z) : luks2_hdr :=
  Luks2Hdr _ (hdr_size hdr) s (version hdr) (label hdr) (subsystem hdr) (checksum_alg hdr)
    (salt1 hdr) (salt2 hdr) (uuid hdr) (jobj hdr).

(** The zeroed area with the text of the object. *)
Definition json_area_of (hdr : luks2_hdr) : bytes :=
  splice 0 (json_object_to_json_string_ext (jobj hdr)) (zeros (Z.to_nat (hdr_size hdr -64 LUKS2_HDR_BIN_LEN))).

(** Code and the header with its new sequence id. *)
Definition LUKS2_disk_hdr_write (hdr : luks2_hdr) (seqid_check : bool) : M (Z * luks2_hdr) :=
  if negb (version hdr =? 2) then mret (- EINVAL, hdr)
  else
    r ← device_check_size (os env) (LUKS2_hdr_and_areas_size hdr) true;
    if negb (r =? 0) then mret (r, hdr)
    else
      let json_area_len := hdr_size hdr -64 LUKS2_HDR_BIN_LEN in
      if mem_limit (os env) <? json_area_len then mret (- ENOMEM, hdr)
      else
        let json_text := json_object_to_json_string_ext (jobj hdr) in
        if zlen json_text =? 0 then mret (- ENOMEM, hdr)
        else if json_area_len -64 1 <? zlen json_text then mret (- EINVAL, hdr)
        else
          let json_area := json_area_of hdr in
          r ← (if seqid_check then LUKS2_device_write_lock hdr else device_write_lock (os env));
          if r <? 0 then mret (r, hdr)
          else
            let hdr := set_seqid hdr (seqid hdr +64 1) in
            r ← hdr_write_disk hdr json_area false;
            r ← (if r =? 0 then hdr_write_disk hdr json_area true else mret r);
            _ ← device_write_unlock (os env);
            mret (r, hdr).

(** ** Parsing the JSON area *)

(** The [do ... while] loop: every byte from [json_len] on is NUL. *)
Definition validate_json_area (json_area : bytes) (json_len max_length : Z) : Z :=
  if negb (bool_decide (head json_area = Some x7b)) then - EINVAL
  else if max_length <=? json_len then - EINVAL
  else if forallb (fun c => bool_decide (c = x00)) (slice json_len (max_length - json_len) json_area)
  then 0 else - EINVAL.

Definition parse_json_len (json_area : bytes) (max_length : Z) : option (json * Z) :=
  if INT32_MAX <? max_length then None
  else json_tokener_parse_ex (take (Z.to_nat max_length) json_area).

Definition parse_and_validate_json (json_area : bytes) (max_length : Z) : option json :=
  '(jobj, json_len) ← parse_json_len json_area max_length;
  let r := validate_json_area json_area json_len max_length in
  let '(r, jobj) := if r =? 0 then validate_luks2_json_object jobj max_length else (r, jobj) in
  if r =? 0 then Some jobj else None.

(** ** Reading both copies *)

Inductive hdr_state := HDR_OK | HDR_OBSOLETE | HDR_FAIL | HDR_FAIL_IO.

#[export] Instance hdr_state_eq_dec : EqDecision hdr_state.
Proof. solve_decision. Defined.

(** State and object of a copy from the result of [hdr_read_disk]. *)
Definition hdr_state_of (r : Z) (hdr_disk : luks2_hdr_disk) (json_area : option bytes)
    : hdr_state * option json :=
  if r =? 0 then
    match parse_and_validate_json (default [] json_area)
            (be_decode (dk_hdr_size hdr_disk) -64 LUKS2_HDR_BIN_LEN) with
    | Some j => (HDR_OK, Some j)
    | None => (HDR_OBSOLETE, None)
    end
  else if r =? - EIO then (HDR_FAIL_IO, None) else (HDR_FAIL, None).

(** The search over the known offsets; stops at the first success. *)
Fixpoint scan_offsets (offsets : list Z) (r : Z) (hdr_disk : luks2_hdr_disk) (json_area : option bytes)
    : M (Z * luks2_hdr_disk * option bytes) :=
  match offsets with
  | [] => mret (r, hdr_disk, json_area)
  | o :: offsets' =>
      if r <? 0 then
        '(r, hdr_disk, json_area) ← hdr_read_disk hdr_disk o true;
        scan_offsets offsets' r hdr_disk json_area
      else mret (r, hdr_disk, json_area)
  end.

(** Both copies read correctly: the one with the smaller id is obsolete. *)
Definition order_by_seqid (state_hdr1 state_hdr2 : hdr_state) (hdr_disk1 hdr_disk2 : luks2_hdr_disk)
    : hdr_state * hdr_state :=
  if bool_decide (state_hdr1 = HDR_OK) && bool_decide (state_hdr2 = HDR_OK) then
    if be_decode (dk_seqid hdr_disk2) <? be_decode (dk_seqid hdr_disk1) then (state_hdr1, HDR_OBSOLETE)
    else if be_decode (dk_seqid hdr_disk1) <? be_decode (dk_seqid hdr_disk2) then (HDR_OBSOLETE, state_hdr2)
    else (state_hdr1, state_hdr2)
  else (state_hdr1, state_hdr2).

(** Recovery of the bad copy: [None] for [goto err], otherwise the code left
    in [r] and the bad copy's header in memory. *)
Definition recover (hdr : luks2_hdr) (good bad : luks2_hdr_disk) (json_area : bytes) (secondary_bad : bool)
    (do_recovery : bool) (r : Z) : M (Z * luks2_hdr_disk) :=
  if do_recovery then
    let '(r, salt) := random_salt env in
    let bad := set_salt good salt in
    if negb (r =? 0) then mret (r, bad)
    else
      r ← hdr_write_disk (hdr_from_disk good bad hdr (negb secondary_bad)) json_area secondary_bad;
      mret (r, bad)
  else mret (r, bad).

(** Code and header; on an error the header's object is NULL. *)
Definition LUKS2_disk_hdr_read (hdr : luks2_hdr) (do_recovery do_blkprobe : bool) : M (Z * luks2_hdr) :=
  let do_recovery :=
    if do_recovery && do_blkprobe && negb (locking_enabled (os env)) then false else do_recovery in
  '(r, hdr_disk1, json_area1) ← hdr_read_disk (uninit env) 0 false;
  let '(state_hdr1, jobj_hdr1) := hdr_state_of r hdr_disk1 json_area1 in
  '(r, hdr_disk2, json_area2) ←
    (if negb (bool_decide (state_hdr1 = HDR_FAIL)) && negb (bool_decide (state_hdr1 = HDR_FAIL_IO))
     then hdr_read_disk (uninit env) (be_decode (dk_hdr_size hdr_disk1)) true
     else scan_offsets LUKS2_HDR2_OFFSETS (- EINVAL) (uninit env) None);
  let '(state_hdr2, jobj_hdr2) := hdr_state_of r hdr_disk2 json_area2 in
  let '(state_hdr1, state_hdr2) := order_by_seqid state_hdr1 state_hdr2 hdr_disk1 hdr_disk2 in
  let fail r := mret (r, set_jobj hdr json_null) in
  match (if bool_decide (state_hdr1 = HDR_OK) then jobj_hdr1
         else if bool_decide (state_hdr2 = HDR_OK) then jobj_hdr2 else None) with
  | None =>
      fail (if bool_decide (state_hdr1 = HDR_FAIL_IO) && bool_decide (state_hdr2 = HDR_FAIL_IO)
            then - EIO else - EINVAL)
  | Some jobj_hdr =>
      r ← device_check_size (os env) (LUKS2_hdr_and_areas_size_jobj jobj_hdr) false;
      if negb (r =? 0) then fail r
      else
        let bad1 := negb (bool_decide (state_hdr1 = HDR_OK)) in
        let bad2 := negb (bool_decide (state_hdr2 = HDR_OK)) in
        if (bad1 || bad2) && do_blkprobe && negb (blkprobe env =? 0) then fail (blkprobe env)
        else
          '(r, hdr_disk1, hdr_disk2) ←
            (if bad2 then
               '(r, hdr_disk2) ← recover hdr hdr_disk1 hdr_disk2 (default [] json_area1) true do_recovery r;
               mret (r, hdr_disk1, hdr_disk2)
             else if bad1 then
               '(r, hdr_disk1) ← recover hdr hdr_disk2 hdr_disk1 (default [] json_area2) false do_recovery r;
               mret (r, hdr_disk1, hdr_disk2)
             else mret (r, hdr_disk1, hdr_disk2));
          if r =? - EAGAIN then fail r
          else if negb bad1 then mret (0, set_jobj (hdr_from_disk hdr_disk1 hdr_disk2 hdr false) jobj_hdr)
          else mret (0, set_jobj (hdr_from_disk hdr_disk2 hdr_disk1 hdr true) jobj_hdr)
  end.
End disk.
