(* ===== verification/Luks2DiskFacts.v ===== *)
(** * Luks2DiskFacts: what the bytes of a header copy mean

    Facts on the binary header and on one copy: the struct and its bytes, the
    result of [hdr_read_disk] as a function of the bytes, and what
    [hdr_write_disk] leaves on the device when transfers fail. *)

From S2P Require Import Prelude UtilsIO CryptBackend Cstd JsonC Luks2Json Luks2Keyslot Luks2Areas Luks2Validate Device Luks2Disk.
From Stdlib Require Import Strings.Byte.

(** ** Concatenated fields *)

Lemma slice_mjoin (l : list bytes) k x :
  l !! k = Some x -> slice (zlen (mjoin (take k l))) (zlen x) (mjoin l) = x.
Proof.
  intros Hk. pose proof (zlen_nonneg (mjoin (take k l))).
  replace (mjoin l) with (mjoin (take k l) ++ x ++ mjoin (drop (S k) l)).
  - rewrite slice_app_r by lia. rewrite Z.sub_diag, slice_app_l by lia. apply slice_all.
  - rewrite <-(take_drop_middle l k x Hk) at 3. by rewrite join_app.
Qed.

Lemma zlen_mjoin (l : list bytes) : zlen (mjoin l) = foldr (fun b n => zlen b + n) 0 l.
Proof. induction l as [|b l IH]; [done|]. cbn [foldr]. rewrite <-IH. apply zlen_app. Qed.

Definition field_lens : list Z := [6; 2; 8; 8; 48; 32; 64; 40; 48; 8; 184; 64; 3584].
Definition wf_disk (h : luks2_hdr_disk) : Prop :=
  Forall2 (fun f n => zlen f = n) (hdr_disk_fields h) field_lens.

Lemma wf_disk_inv h :
  wf_disk h ->
  zlen (dk_magic h) = 6 /\ zlen (dk_version h) = 2 /\ zlen (dk_hdr_size h) = 8 /\ zlen (dk_seqid h) = 8 /\
  zlen (dk_label h) = 48 /\ zlen (dk_checksum_alg h) = 32 /\ zlen (dk_salt h) = 64 /\
  zlen (dk_uuid h) = 40 /\ zlen (dk_subsystem h) = 48 /\ zlen (dk_hdr_offset h) = 8 /\
  zlen (dk_padding h) = 184 /\ zlen (dk_csum h) = 64 /\ zlen (dk_padding4096 h) = 3584.
Proof.
  unfold wf_disk, hdr_disk_fields, field_lens. intros H.
  repeat (apply Forall2_cons in H as [? H]). auto 20.
Qed.

Lemma zlen_hdr_disk_bytes h : wf_disk h -> zlen (hdr_disk_bytes h) = LUKS2_HDR_BIN_LEN.
Proof.
  intros H%wf_disk_inv. unfold hdr_disk_bytes. rewrite zlen_mjoin. cbn [hdr_disk_fields foldr].
  unfold LUKS2_HDR_BIN_LEN. lia.
Qed.

(** Reading the struct back from its bytes. *)
Lemma hdr_disk_of_bytes_id h : wf_disk h -> hdr_disk_of_bytes (hdr_disk_bytes h) = h.
Proof.
  intros H. apply wf_disk_inv in H as H'.
  assert (Hf : forall k x off n, hdr_disk_fields h !! k = Some x ->
    zlen (mjoin (take k (hdr_disk_fields h))) = off -> zlen x = n ->
    slice off n (hdr_disk_bytes h) = x).
  { intros k x off n Hk <- <-. by apply slice_mjoin. }
  assert (Hz : forall k, zlen (mjoin (take k (hdr_disk_fields h))) =
    foldr (fun b n => zlen b + n) 0 (take k (hdr_disk_fields h))) by (intros; apply zlen_mjoin).
  destruct h. cbn in H'. unfold hdr_disk_of_bytes.
  f_equal; [eapply (Hf 0%nat)|eapply (Hf 1%nat)|eapply (Hf 2%nat)|eapply (Hf 3%nat)|eapply (Hf 4%nat)
    |eapply (Hf 5%nat)|eapply (Hf 6%nat)|eapply (Hf 7%nat)|eapply (Hf 8%nat)|eapply (Hf 9%nat)
    |eapply (Hf 10%nat)|eapply (Hf 11%nat)|eapply (Hf 12%nat)]; try reflexivity;
    rewrite ?Hz; cbn; lia.
Qed.

(** The first sector holds all fields but the padding. *)
Lemma hdr_disk_of_sector b :
  512 <= zlen b -> hdr_disk_of_bytes b = hdr_disk_of_bytes (slice 0 512 b ++ slice 512 3584 b).
Proof.
  intros Hb. assert (E : zlen (slice 0 512 b) = 512) by (apply zlen_slice; lia).
  unfold hdr_disk_of_bytes.
  rewrite !(fun o n H1 H2 => slice_app_l o n (slice 0 512 b) (slice 512 3584 b) H1 H2)
    by (rewrite ?E; lia).
  rewrite (slice_app_r 512) by lia. rewrite E.
  rewrite !slice_slice by lia. done.
Qed.

(** ** C strings in fields *)

Lemma cstr_app_cases b rest :
  cstr (b ++ rest) = if decide (x00 ∈ b) then cstr b else b ++ cstr rest.
Proof.
  induction b as [|c b IH]; [done|]. cbn [app cstr]. destruct (decide (c = x00)) as [->|Hc].
  - rewrite decide_True by (left). done.
  - rewrite IH. repeat case_decide; try done; set_solver.
Qed.

Lemma cstr_zeros b n : no_nul b -> (0 < n)%nat -> cstr (b ++ zeros n) = b.
Proof. intros Hb Hn. destruct n; [lia|]. by apply cstr_app_nul. Qed.

Lemma zlen_zeros n : zlen (zeros n) = Z.of_nat n.
Proof. unfold zlen, zeros. by rewrite length_replicate. Qed.

Lemma splice_zeros s n : zlen s <= Z.of_nat n -> splice 0 s (zeros n) = s ++ zeros (n - length s).
Proof. intros Hs. unfold splice, zeros. simpl. by rewrite drop_replicate. Qed.

Lemma string_field_spec n s :
  0 < n -> zlen (cstr s) < n -> string_field n s = cstr s ++ zeros (Z.to_nat (n - zlen (cstr s))).
Proof.
  intros Hn Hs. unfold string_field, terminated. rewrite take_ge by (unfold zlen in *; lia).
  rewrite splice_zeros by (unfold zlen in *; lia).
  set (m := (Z.to_nat n - length (cstr s))%nat). assert (Hm : (0 < m)%nat) by (unfold zlen in *; lia).
  replace (Z.to_nat (n - zlen (cstr s))) with m by (unfold zlen in *; lia).
  unfold splice. rewrite zlen_app, zlen_zeros. rewrite drop_ge.
  2: { rewrite length_app. unfold zeros. rewrite length_replicate. unfold zlen. simpl. lia. }
  rewrite app_nil_r. replace (Z.to_nat (zlen (cstr s) + Z.of_nat m - 1)) with (length (cstr s) + (m - 1))%nat
    by (unfold zlen in *; lia).
  rewrite take_app_add. rewrite <-app_assoc. f_equal. unfold zeros.
  rewrite take_replicate, Nat.min_l by lia. rewrite <-replicate_S_end. f_equal. lia.
Qed.

Lemma zlen_string_field n s : 0 < n -> zlen (cstr s) < n -> zlen (string_field n s) = n.
Proof.
  intros Hn Hs. rewrite string_field_spec by done. rewrite zlen_app, zlen_zeros. lia.
Qed.

Lemma cstr_string_field n s rest : 0 < n -> zlen (cstr s) < n -> cstr (string_field n s ++ rest) = cstr s.
Proof.
  intros Hn Hs. rewrite string_field_spec by done. rewrite <-app_assoc.
  destruct (Z.to_nat (n - zlen (cstr s))) as [|k] eqn:E; [lia|]. apply cstr_app_nul, cstr_no_nul.
Qed.

Lemma cstr_terminated_string_field n s :
  0 < n -> zlen (cstr s) < n -> cstr (terminated (string_field n s)) = cstr s.
Proof.
  intros Hn Hs. rewrite string_field_spec by done. unfold terminated, splice.
  set (k := Z.to_nat (n - zlen (cstr s))). rewrite zlen_app, zlen_zeros.
  rewrite drop_ge.
  2: { rewrite length_app. unfold zeros. rewrite length_replicate. unfold zlen in *. simpl. lia. }
  rewrite app_nil_r.
  replace (Z.to_nat (zlen (cstr s) + Z.of_nat k - 1)) with (length (cstr s) + (k - 1))%nat
    by (unfold zlen in *; lia).
  rewrite take_app_add. unfold zeros. rewrite take_replicate, Nat.min_l by lia.
  rewrite <-app_assoc, <-replicate_S_end.
  apply (cstr_zeros (cstr s) (S (k - 1))); [apply cstr_no_nul|lia].
Qed.

(** ** Headers that can be stored *)

Section facts.
Context `{JL : JsonCLaws} `{CHL : CryptHashLaws}.

(** A header in memory that the library may write: it is valid, its text
    parses back to its object, and its fields are terminated C strings. *)
Record storable (hdr : luks2_hdr) : Prop := {
  st_version : version hdr = 2;
  st_seqid : in_u 64 (seqid hdr);
  st_hdr_size : hdr_size hdr ∈ LUKS2_HDR2_OFFSETS;
  st_label : zlen (cstr (label hdr)) < LUKS2_LABEL_L;
  st_subsystem : zlen (cstr (subsystem hdr)) < LUKS2_LABEL_L;
  st_uuid : zlen (cstr (uuid hdr)) < LUKS2_UUID_L;
  st_alg : zlen (cstr (checksum_alg hdr)) < LUKS2_CHECKSUM_ALG_L;
  st_salt1 : zlen (salt1 hdr) = LUKS2_SALT_L;
  st_salt2 : zlen (salt2 hdr) = LUKS2_SALT_L;
  st_hash : 0 < crypt_hash_size (cstr (checksum_alg hdr));
  st_text : let text := json_object_to_json_string_ext (jobj hdr) in
    no_nul text /\ head text = Some x7b /\ zlen text < hdr_size hdr - LUKS2_HDR_BIN_LEN;
  st_parse : json_tokener_parse_ex (json_area_of hdr) =
    Some (jobj hdr, zlen (json_object_to_json_string_ext (jobj hdr)));
  st_valid : LUKS2_hdr_validate (jobj hdr) (hdr_size hdr - LUKS2_HDR_BIN_LEN) = 0;
}.

Lemma hdr2_offsets_bounds o : o ∈ LUKS2_HDR2_OFFSETS -> 0x4000 <= o <= 0x400000 /\ (4096 | o).
Proof.
  unfold LUKS2_HDR2_OFFSETS. intros H.
  repeat (apply elem_of_cons in H as [->|H]; [split; [lia|]|]); try (by apply elem_of_nil in H);
    [by exists 4|by exists 8|by exists 16|by exists 32|by exists 64|by exists 128|by exists 256
    |by exists 512|by exists 1024].
Qed.

Lemma storable_size hdr :
  storable hdr -> 0x4000 <= hdr_size hdr <= 0x400000 /\ (4096 | hdr_size hdr) /\
    hdr_size hdr -64 LUKS2_HDR_BIN_LEN = hdr_size hdr - LUKS2_HDR_BIN_LEN.
Proof.
  intros H. destruct (hdr2_offsets_bounds _ (st_hdr_size _ H)) as [H1 H2]. split; [done|]. split; [done|].
  unfold LUKS2_HDR_BIN_LEN. apply u64_id. lia.
Qed.

Lemma zlen_json_area hdr : storable hdr -> zlen (json_area_of hdr) = hdr_size hdr - LUKS2_HDR_BIN_LEN.
Proof.
  intros H. destruct (storable_size _ H) as (Hs & _ & E). destruct (st_text _ H) as (_ & _ & Ht).
  unfold json_area_of. rewrite E. unfold LUKS2_HDR_BIN_LEN in *. rewrite zlen_splice; rewrite ?zlen_zeros; lia.
Qed.

(** The parsed and validated object of the area the writer made. *)
Lemma parse_json_area hdr :
  storable hdr ->
  parse_and_validate_json (json_area_of hdr) (hdr_size hdr - LUKS2_HDR_BIN_LEN) = Some (jobj hdr).
Proof.
  intros H. destruct (storable_size _ H) as (Hs & _ & E). destruct (st_text _ H) as (Hn & Hh & Ht).
  pose proof (zlen_json_area _ H) as Hz.
  unfold parse_and_validate_json, parse_json_len. unfold LUKS2_HDR_BIN_LEN, INT32_MAX in *.
  destruct (Z.ltb_spec (2 ^ 31 - 1) (hdr_size hdr - 4096)); [lia|].
  rewrite take_ge by (unfold zlen in *; lia). rewrite (st_parse _ H). cbn [mbind option_bind].
  set (text := json_object_to_json_string_ext (jobj hdr)) in *.
  assert (Ea : json_area_of hdr = text ++ zeros (Z.to_nat (hdr_size hdr - 4096) - length text)).
  { unfold json_area_of, LUKS2_HDR_BIN_LEN. rewrite E. apply splice_zeros. fold text. lia. }
  assert (Hv : validate_json_area (json_area_of hdr) (zlen text) (hdr_size hdr - 4096) = 0).
  { unfold validate_json_area. rewrite bool_decide_true.
    2: { rewrite Ea. destruct text; [done|]. exact Hh. }
    destruct (Z.leb_spec (hdr_size hdr - 4096) (zlen text)); [lia|]. cbn [negb].
    rewrite (proj2 (forallb_forall _ _)); [done|].
    intros c Hc%list_elem_of_In. apply bool_decide_eq_true. rewrite Ea in Hc.
    rewrite slice_app_r, Z.sub_diag in Hc by lia. unfold slice in Hc.
    apply elem_of_take in Hc as (i & Hi & _). rewrite drop_0 in Hi. unfold zeros in Hi.
    by apply lookup_replicate_1 in Hi as [-> _]. }
  rewrite Hv. cbn [Z.eqb]. unfold validate_luks2_json_object.
  assert (Ht' : json_object_is_type (jobj hdr) json_type_object = true).
  { apply is_type_spec. pose proof (st_valid _ H) as Hval.
    apply LUKS2_hdr_validate_inv in Hval as (_ & _ & _ & Hk & _). unfold hdr_validate_keyslots in Hk.
    destruct (json_object_object_get_ex (jobj hdr) "keyslots") eqn:Ek; [|done]. by eapply get_ex_type. }
  rewrite Ht'. cbn [negb]. pose proof (st_valid _ H) as Hval. unfold LUKS2_HDR_BIN_LEN in Hval.
  rewrite Hval. done.
Qed.

(** ** The copies *)

Definition copy_offset (hdr : luks2_hdr) (secondary : bool) : Z := if secondary then hdr_size hdr else 0.

(** The binary header without its checksum, and with it. *)
Definition bare_disk (hdr : luks2_hdr) (secondary : bool) : luks2_hdr_disk :=
  hdr_to_disk hdr secondary (copy_offset hdr secondary).
Definition full_disk (hdr : luks2_hdr) (secondary : bool) : luks2_hdr_disk :=
  (hdr_checksum_calculate (cstr (checksum_alg hdr)) (bare_disk hdr secondary) (json_area_of hdr)).2.

Definition copy_bytes (hdr : luks2_hdr) (secondary : bool) : bytes :=
  hdr_disk_bytes (full_disk hdr secondary) ++ json_area_of hdr.

Lemma zlen_be_encode n z : zlen (be_encode n z) = Z.of_nat n.
Proof. unfold zlen. by rewrite length_be_encode. Qed.

Lemma wf_bare_disk hdr sec : storable hdr -> wf_disk (bare_disk hdr sec).
Proof.
  intros []. unfold wf_disk, field_lens, bare_disk, hdr_to_disk, hdr_disk_fields.
  cbn -[be_encode string_field zeros].
  repeat constructor; rewrite ?zlen_be_encode, ?zlen_string_field, ?zlen_zeros; auto; try lia;
    by destruct sec.
Qed.

Lemma wf_set_csum h c : wf_disk h -> zlen c = 64 -> wf_disk (set_csum h c).
Proof.
  intros H%wf_disk_inv Hc. unfold wf_disk, field_lens, hdr_disk_fields, set_csum. cbn.
  repeat constructor; tauto.
Qed.

Lemma full_disk_eq hdr sec :
  storable hdr ->
  full_disk hdr sec = set_csum (bare_disk hdr sec)
    (splice 0 (crypt_hash (cstr (checksum_alg hdr)) (hdr_disk_bytes (bare_disk hdr sec) ++ json_area_of hdr))
       (zeros 64)).
Proof.
  intros H. unfold full_disk, hdr_checksum_calculate. pose proof (st_hash _ H).
  destruct (Z.leb_spec (crypt_hash_size (cstr (checksum_alg hdr))) 0); [lia|]. done.
Qed.

Lemma zlen_digest_field alg m :
  0 < crypt_hash_size alg -> zlen (splice 0 (crypt_hash alg m) (zeros 64)) = 64.
Proof.
  intros Hh. pose proof (hash_length alg m Hh) as Hl. pose proof (hash_size_max alg).
  unfold LUKS2_CHECKSUM_L, MAX_DIGEST in *. rewrite zlen_splice; rewrite ?zlen_zeros; lia.
Qed.

Lemma wf_full_disk hdr sec : storable hdr -> wf_disk (full_disk hdr sec).
Proof.
  intros H. rewrite full_disk_eq by done. apply wf_set_csum; [by apply wf_bare_disk|].
  apply zlen_digest_field. by apply st_hash.
Qed.

Lemma zlen_copy_bytes hdr sec : storable hdr -> zlen (copy_bytes hdr sec) = hdr_size hdr.
Proof.
  intros H. unfold copy_bytes. rewrite zlen_app, zlen_hdr_disk_bytes, zlen_json_area by
    (done || by apply wf_full_disk). lia.
Qed.

(** A binary header whose leading fields are those of the stored header. *)
Record looks_like (h : luks2_hdr_disk) (hdr : luks2_hdr) (secondary : bool) : Prop := {
  ll_magic : dk_magic h = dk_magic (bare_disk hdr secondary);
  ll_version : dk_version h = dk_version (bare_disk hdr secondary);
  ll_hdr_size : dk_hdr_size h = dk_hdr_size (bare_disk hdr secondary);
  ll_seqid : dk_seqid h = dk_seqid (bare_disk hdr secondary);
  ll_alg : dk_checksum_alg h = dk_checksum_alg (bare_disk hdr secondary);
  ll_offset : dk_hdr_offset h = dk_hdr_offset (bare_disk hdr secondary);
}.

Lemma bare_looks hdr sec c : looks_like (set_csum (bare_disk hdr sec) c) hdr sec.
Proof. by split. Qed.

Lemma string_field_nul n s : 0 < n -> zlen (cstr s) < n -> x00 ∈ string_field n s.
Proof.
  intros Hn Hs. rewrite string_field_spec by done. apply elem_of_app. right.
  destruct (Z.to_nat (n - zlen (cstr s))) as [|k] eqn:E; [lia|]. left.
Qed.

Lemma looks_alg h hdr sec :
  storable hdr -> looks_like h hdr sec -> dk_checksum_alg_cstr h = cstr (checksum_alg hdr).
Proof.
  intros H Hl. unfold dk_checksum_alg_cstr. cbn [hdr_disk_fields drop mjoin list_join].
  rewrite (ll_alg _ _ _ Hl). cbn [bare_disk hdr_to_disk dk_checksum_alg].
  apply cstr_string_field; [done|]. by apply st_alg.
Qed.

Lemma looks_sanity h hdr sec :
  storable hdr -> looks_like h hdr sec ->
  hdr_disk_sanity_check_pre h sec (copy_offset hdr sec) = (0, hdr_size hdr - LUKS2_HDR_BIN_LEN).
Proof.
  intros H [Lm Lv Ls _ _ Lo]. destruct (storable_size _ H) as (Hs & _ & E). pose proof (st_version _ H) as Hv.
  unfold hdr_disk_sanity_check_pre. rewrite Lm, Lv, Ls, Lo. unfold bare_disk, hdr_to_disk.
  cbn [dk_magic dk_version dk_hdr_offset dk_hdr_size]. rewrite bool_decide_true by (by destruct sec).
  rewrite !be_decode_encode, Hv. change (wrap (8 * Z.of_nat 2) 2 =? 2) with true.
  change (8 * Z.of_nat 8) with 64. unfold copy_offset.
  rewrite (u64_id (hdr_size hdr)), E by lia.
  destruct sec; cbn [negb andb]; rewrite ?(u64_id (hdr_size hdr)), ?Z.eqb_refl by lia; done.
Qed.

(** The checksum of a complete copy is right; a copy whose checksum field is
    still zero is rejected. *)
Lemma checksum_ok hdr sec :
  storable hdr -> hdr_checksum_check (cstr (checksum_alg hdr)) (full_disk hdr sec) (json_area_of hdr) = 0.
Proof.
  intros H. pose proof (st_hash _ H) as Hh. unfold hdr_checksum_check.
  destruct (Z.leb_spec (crypt_hash_size (cstr (checksum_alg hdr))) 0); [lia|].
  assert (E : set_csum (full_disk hdr sec) (zeros (Z.to_nat LUKS2_CHECKSUM_L)) = bare_disk hdr sec)
    by (by rewrite full_disk_eq).
  rewrite E. unfold full_disk, hdr_checksum_calculate.
  destruct (Z.leb_spec (crypt_hash_size (cstr (checksum_alg hdr))) 0); [lia|]. cbn [Z.ltb].
  by rewrite bool_decide_true.
Qed.

Lemma checksum_zero alg h json_area :
  0 < crypt_hash_size alg -> dk_csum h = zeros 64 ->
  (forall m, crypt_hash alg m <> zeros (Z.to_nat (crypt_hash_size alg))) ->
  hdr_checksum_check alg h json_area = - EINVAL.
Proof.
  intros Hh Hc Hnz. unfold hdr_checksum_check, hdr_checksum_calculate.
  destruct (Z.leb_spec (crypt_hash_size alg) 0); [lia|]. cbn [Z.ltb].
  pose proof (hash_size_max alg) as Hm. unfold LUKS2_CHECKSUM_L, MAX_DIGEST in *.
  set (m := hdr_disk_bytes _ ++ json_area). pose proof (hash_length alg m Hh) as Hl.
  rewrite bool_decide_false; [done|]. cbn [dk_csum set_csum]. rewrite Hc. intros E.
  rewrite <-Hl in E at 1. change (Z.to_nat 64) with 64%nat in E.
  rewrite slice_splice_same in E by (rewrite ?zlen_zeros; lia).
  apply (Hnz m). rewrite E. unfold slice, zeros. rewrite drop_0, take_replicate. f_equal. lia.
Qed.

(** A first sector of the stored header is enough for it to look like it. *)
Lemma sector_looks b hdr sec :
  storable hdr -> 512 <= zlen b -> slice 0 512 b = slice 0 512 (hdr_disk_bytes (bare_disk hdr sec)) ->
  looks_like (hdr_disk_of_bytes b) hdr sec /\ dk_csum (hdr_disk_of_bytes b) = zeros 64 /\
  dk_salt (hdr_disk_of_bytes b) = dk_salt (bare_disk hdr sec).
Proof.
  intros H Hb E. pose proof (wf_bare_disk _ sec H) as Hw. rewrite <-(hdr_disk_of_bytes_id _ Hw).
  rewrite (hdr_disk_of_sector b), (hdr_disk_of_sector (hdr_disk_bytes (bare_disk hdr sec)))
    by (rewrite ?zlen_hdr_disk_bytes; done). rewrite E.
  set (s := slice 0 512 (hdr_disk_bytes (bare_disk hdr sec))).
  assert (Hz : zlen s = 512) by (apply zlen_slice; rewrite ?zlen_hdr_disk_bytes; done).
  assert (Hcs : slice 448 64 s = zeros 64).
  { subst s. rewrite slice_slice by lia. change (slice (0 + 448) 64 (hdr_disk_bytes (bare_disk hdr sec)))
      with (dk_csum (hdr_disk_of_bytes (hdr_disk_bytes (bare_disk hdr sec)))).
    by rewrite hdr_disk_of_bytes_id. }
  assert (Hl : forall o n r, 0 <= o -> o + n <= 512 -> slice o n (s ++ r) = slice o n s)
    by (intros; apply slice_app_l; lia).
  assert (Heq : forall r, slice 104 64 (s ++ r) = slice 104 64 s) by (intros; apply Hl; lia).
  split; [|split].
  - assert (Hid : bare_disk hdr sec = hdr_disk_of_bytes (s ++ slice 512 3584 (hdr_disk_bytes (bare_disk hdr sec)))).
    { rewrite <-(hdr_disk_of_bytes_id _ Hw) at 1. apply hdr_disk_of_sector.
      rewrite zlen_hdr_disk_bytes by done. done. }
    split; rewrite Hid; unfold hdr_disk_of_bytes;
      cbn [dk_magic dk_version dk_hdr_size dk_seqid dk_checksum_alg dk_hdr_offset];
      rewrite !Hl by lia; done.
  - cbn. by rewrite Hl by lia.
  - cbn. by rewrite !Heq.
Qed.
End facts.

(** ** Running a read of one copy *)

Section read.
Context `{JL : JsonCLaws} `{CHL : CryptHashLaws}.
Variable env : disk_env.

Definition mem_ok : Prop := 0x400000 <= mem_limit (os env) < 2 ^ 62.

(** Bytes that do not start with the secondary magic are not a copy. *)
Lemma hdr_read_disk_reject d old o :
  dev_ok (os env) d -> benign (f_sched (d_file d)) -> 0 <= o ->
  slice o 6 (f_data (d_file d)) <> LUKS2_MAGIC_2ND ->
  exists r h j d', hdr_read_disk env old o true d = Some ((r, h, j), d') /\ r < 0 /\ dev_next d d'.
Proof.
  intros Hok Hb Ho Hm. unfold hdr_read_disk.
  destruct (open_locked_ok (os env) d O_RDONLY Hok ltac:(auto)) as (fd & d1 & Hr1 & Hfd & Hok1 & Hf1 & Hl1).
  erewrite bind_run by exact Hr1. destruct (Z.ltb_spec fd 0); [lia|].
  destruct (dev_read_ok (os env) d1 fd LUKS2_HDR_BIN_LEN o Hok1) as (n & buf & d2 & Hr2 & Hn2 & Hc); auto;
    [by rewrite Hf1|done|]. erewrite bind_run by exact Hr2. cbn beta match.
  assert (Hnext : dev_next d d2).
  { transitivity d1; [|done]. split; [by rewrite Hf1|]. split; [done|]. by rewrite Hf1. }
  destruct (Z.eqb_spec n LUKS2_HDR_BIN_LEN) as [->|]; cbn [negb].
  2: { eexists _, _, _, _. split; [reflexivity|]. done. }
  assert (Hbuf : buf = slice o LUKS2_HDR_BIN_LEN (f_data (d_file d1)))
    by (destruct Hc as [(_ & _ & ->)|[(_ & ?)|(_ & _ & ->)]]; done).
  unfold hdr_disk_sanity_check_pre. rewrite bool_decide_false.
  { eexists _, _, _, _. split; [reflexivity|]. done. }
  cbn [hdr_disk_of_bytes dk_magic]. rewrite Hbuf, Hf1, slice_slice by done. by rewrite Z.add_0_r.
Qed.

(** A region that looks like a copy of [hdr] up to its checksum. *)
Lemma hdr_read_disk_region d old hdr sec :
  let o := copy_offset hdr sec in
  let h := hdr_disk_of_bytes (slice o LUKS2_HDR_BIN_LEN (f_data (d_file d))) in
  let json_area := slice (o + LUKS2_HDR_BIN_LEN) (hdr_size hdr - LUKS2_HDR_BIN_LEN) (f_data (d_file d)) in
  storable hdr -> mem_ok -> dev_ok (os env) d -> benign (f_sched (d_file d)) ->
  o + hdr_size hdr <= f_size (d_file d) -> looks_like h hdr sec ->
  exists d', dev_next d d' /\
    hdr_read_disk env old o sec d =
      Some ((if hdr_checksum_check (cstr (checksum_alg hdr)) h json_area =? 0 then 0 else - EINVAL,
             set_csum h (zeros 64), Some json_area), d').
Proof.
  intros o h json_area H Hm Hok Hb Hsz Hl. destruct (storable_size _ H) as (Hs & _ & _).
  assert (Ho : 0 <= o <= 0x400000) by (subst o; destruct sec; cbn; lia).
  unfold hdr_read_disk, mem_ok, LUKS2_HDR_BIN_LEN in *.
  destruct (open_locked_ok (os env) d O_RDONLY Hok ltac:(auto)) as (fd & d1 & Hr1 & Hfd & Hok1 & Hf1 & Hl1).
  erewrite bind_run by exact Hr1. destruct (Z.ltb_spec fd 0); [lia|].
  destruct (dev_read_ok (os env) d1 fd 4096 o Hok1) as (n & buf & d2 & Hr2 & Hn2 & Hc); try lia; [by rewrite Hf1|].
  erewrite bind_run by exact Hr2. cbn beta match. rewrite Hf1 in Hc.
  destruct Hc as [(_ & -> & ->)|[[? _]|[? _]]]; [|lia..]. rewrite Z.eqb_refl. cbn [negb]. fold h.
  pose proof (looks_sanity h hdr sec H Hl) as Hsan. unfold LUKS2_HDR_BIN_LEN in Hsan. fold o in Hsan.
  rewrite Hsan, Z.ltb_irrefl. destruct (Z.ltb_spec (mem_limit (os env)) (hdr_size hdr - 4096)); [lia|].
  rewrite (u64_id (o + 4096)) by lia.
  assert (Hok2 : dev_ok (os env) d2) by (by apply (dev_next_ok _ d1)).
  assert (Hd2 : f_data (d_file d2) = f_data (d_file d)) by (rewrite (proj1 Hn2); by rewrite Hf1).
  assert (Hb2 : benign (f_sched (d_file d2))).
  { destruct Hn2 as (_ & _ & Hle). apply Hle. by rewrite Hf1. }
  destruct (dev_read_ok (os env) d2 fd (hdr_size hdr - 4096) (o + 4096) Hok2)
    as (n & buf & d3 & Hr3 & Hn3 & Hc); try lia; [done|].
  erewrite bind_run by exact Hr3. cbn beta match. unfold f_size in Hc, Hsz. rewrite Hd2 in Hc.
  destruct Hc as [(_ & -> & ->)|[[? _]|[? _]]]; [|lia..].
  assert (Ei : i64 (hdr_size hdr - 4096) = hdr_size hdr - 4096) by (apply swrap_id; lia).
  rewrite Ei, Z.eqb_refl. cbn [negb]. rewrite (looks_alg h hdr sec H Hl).
  exists d3. split; [|reflexivity].
  transitivity d2; [|done]. transitivity d1; [|done]. split; [by rewrite Hf1|]. split; [done|]. by rewrite Hf1.
Qed.

(** The result for a complete copy and for a torn one. *)
Lemma hdr_read_disk_complete d old hdr sec :
  storable hdr -> mem_ok -> dev_ok (os env) d -> benign (f_sched (d_file d)) ->
  copy_offset hdr sec + hdr_size hdr <= f_size (d_file d) ->
  slice (copy_offset hdr sec) (hdr_size hdr) (f_data (d_file d)) = copy_bytes hdr sec ->
  exists d', dev_next d d' /\
    hdr_read_disk env old (copy_offset hdr sec) sec d =
      Some ((0, bare_disk hdr sec, Some (json_area_of hdr)), d').
Proof.
  intros H Hm Hok Hb Hsz Hc. destruct (storable_size _ H) as (Hs & _ & _).
  pose proof (wf_full_disk _ sec H) as Hw. pose proof (zlen_hdr_disk_bytes _ Hw) as Hz.
  assert (Ho : 0 <= copy_offset hdr sec) by (destruct sec; cbn; lia). unfold LUKS2_HDR_BIN_LEN in *.
  assert (E1 : slice (copy_offset hdr sec) 4096 (f_data (d_file d)) = hdr_disk_bytes (full_disk hdr sec)).
  { rewrite <-(Z.add_0_r (copy_offset hdr sec)), <-(slice_slice 0 4096 _ (hdr_size hdr)), Hc by lia.
    unfold copy_bytes. rewrite slice_app_l by lia. rewrite <-Hz. apply slice_all. }
  assert (E2 : slice (copy_offset hdr sec + 4096) (hdr_size hdr - 4096) (f_data (d_file d)) = json_area_of hdr).
  { rewrite <-(slice_slice 4096 (hdr_size hdr - 4096) _ (hdr_size hdr)), Hc by lia.
    unfold copy_bytes. rewrite slice_app_r by lia. rewrite Hz, Z.sub_diag.
    rewrite <-(zlen_json_area _ H : _ = hdr_size hdr - 4096). apply slice_all. }
  assert (Eh : hdr_disk_of_bytes (slice (copy_offset hdr sec) 4096 (f_data (d_file d))) = full_disk hdr sec)
    by (rewrite E1; by apply hdr_disk_of_bytes_id).
  destruct (hdr_read_disk_region d old hdr sec H Hm Hok Hb Hsz) as (d' & Hn & Hr).
  { unfold LUKS2_HDR_BIN_LEN. rewrite Eh, full_disk_eq by done. apply bare_looks. }
  exists d'. split; [done|]. rewrite Hr. unfold LUKS2_HDR_BIN_LEN. rewrite Eh, E2, checksum_ok by done.
  cbn [Z.eqb]. by rewrite full_disk_eq.
Qed.

Definition digest_nonzero (alg : bytes) : Prop :=
  forall m, crypt_hash alg m <> zeros (Z.to_nat (crypt_hash_size alg)).

Lemma hdr_read_disk_torn d old hdr sec :
  storable hdr -> mem_ok -> dev_ok (os env) d -> benign (f_sched (d_file d)) ->
  digest_nonzero (cstr (checksum_alg hdr)) ->
  copy_offset hdr sec + hdr_size hdr <= f_size (d_file d) ->
  slice (copy_offset hdr sec) 512 (f_data (d_file d)) = slice 0 512 (hdr_disk_bytes (bare_disk hdr sec)) ->
  exists d' h j, dev_next d d' /\
    hdr_read_disk env old (copy_offset hdr sec) sec d = Some ((- EINVAL, h, j), d').
Proof.
  intros H Hm Hok Hb Hnz Hsz Hc. destruct (storable_size _ H) as (Hs & _ & _).
  assert (Ho : 0 <= copy_offset hdr sec) by (destruct sec; cbn; lia). unfold LUKS2_HDR_BIN_LEN in *.
  set (b := slice (copy_offset hdr sec) 4096 (f_data (d_file d))).
  assert (Hz : zlen b = 4096) by (apply zlen_slice; unfold f_size in *; lia).
  destruct (sector_looks b hdr sec H) as (Hl & Hcs & _); [lia| |].
  { subst b. rewrite slice_slice by lia. by rewrite Z.add_0_r. }
  destruct (hdr_read_disk_region d old hdr sec H Hm Hok Hb Hsz Hl) as (d' & Hn & Hr).
  eexists d', _, _. split; [done|]. rewrite Hr. unfold LUKS2_HDR_BIN_LEN. fold b.
  rewrite checksum_zero; [reflexivity|by apply st_hash|done|done].
Qed.
End read.
