(* ===== verification/Luks2DiskWrite.v ===== *)
(** * Luks2DiskWrite: what a write of the header leaves on the device

    [hdr_write_disk] writes one copy in three steps: the binary header without
    its checksum, the JSON area, the binary header with its checksum. If the
    device writes sectors atomically, a failure at any point leaves the copy
    either as it was, or complete, or torn: with a zero checksum. *)

From S2P Require Import Prelude UtilsIO CryptBackend Cstd JsonC Luks2Json Luks2Keyslot Luks2Areas Luks2Validate Device Luks2Disk Luks2DiskFacts.
From Stdlib Require Import Strings.Byte.

Section write.
Context `{JL : JsonCLaws} `{CHL : CryptHashLaws}.
Variable env : disk_env.

(** The padding behind the first sector is the same with and without checksum. *)
Lemma drop_full_bare hdr sec k :
  storable hdr -> 512 <= k ->
  drop (Z.to_nat k) (hdr_disk_bytes (full_disk hdr sec)) = drop (Z.to_nat k) (hdr_disk_bytes (bare_disk hdr sec)).
Proof.
  intros H Hk. pose proof (wf_full_disk hdr sec H) as Hf. pose proof (wf_bare_disk hdr sec H) as Hb.
  assert (E : forall h, wf_disk h -> drop (Z.to_nat k) (hdr_disk_bytes h) =
    drop (Z.to_nat (k - 512)) (dk_padding4096 h)).
  { intros h Hw. pose proof (zlen_hdr_disk_bytes h Hw) as Hz. unfold LUKS2_HDR_BIN_LEN in Hz.
    rewrite <-(hdr_disk_of_bytes_id h Hw) at 2. cbn [hdr_disk_of_bytes dk_padding4096].
    unfold slice. rewrite (take_ge (drop _ _)) by (rewrite length_drop; unfold zlen in Hz; lia).
    rewrite drop_drop. f_equal. lia. }
  rewrite !E by done. by rewrite full_disk_eq.
Qed.

Definition json_region (hdr : luks2_hdr) (secondary : bool) (D : bytes) : bytes :=
  slice (copy_offset hdr secondary + LUKS2_HDR_BIN_LEN) (hdr_size hdr - LUKS2_HDR_BIN_LEN) D.

(** The copy on [D'] is neither the old one nor complete. *)
Definition torn (hdr : luks2_hdr) (secondary : bool) (D D' : bytes) : Prop :=
  slice (copy_offset hdr secondary) 512 D' = slice 0 512 (hdr_disk_bytes (bare_disk hdr secondary)) /\
  exists k, json_region hdr secondary D' =
    take k (json_area_of hdr) ++ drop k (json_region hdr secondary D).

Definition complete (hdr : luks2_hdr) (secondary : bool) (D : bytes) : Prop :=
  slice (copy_offset hdr secondary) (hdr_size hdr) D = copy_bytes hdr secondary.

(** Only the region of the copy changed. *)
Definition frame (hdr : luks2_hdr) (secondary : bool) (D D' : bytes) : Prop :=
  zlen D' = zlen D /\
  forall o n, 0 <= o -> 0 <= n ->
    o + n <= copy_offset hdr secondary \/ copy_offset hdr secondary + hdr_size hdr <= o ->
    slice o n D' = slice o n D.

Lemma frame_splice hdr sec off new D :
  0 <= copy_offset hdr sec <= off -> off + zlen new <= copy_offset hdr sec + hdr_size hdr -> off + zlen new <= zlen D ->
  frame hdr sec D (splice off new D).
Proof.
  intros Ho Hn Hz. split; [apply zlen_splice; lia|].
  intros o n H1 H2 H3. apply slice_splice_disj; lia.
Qed.

Lemma frame_trans hdr sec D1 D2 D3 : frame hdr sec D1 D2 -> frame hdr sec D2 D3 -> frame hdr sec D1 D3.
Proof.
  intros [H1 H2] [H3 H4]. split; [congruence|]. intros o n Ho Hn Hd. rewrite H4, H2; done.
Qed.

Definition write_result (hdr : luks2_hdr) (secondary : bool) (D D' : bytes) (r : Z) : Prop :=
  frame hdr secondary D D' /\
  ((r <> 0 /\ D' = D) \/ (r <> 0 /\ torn hdr secondary D D') \/ complete hdr secondary D').

Lemma copy_offset_bounds hdr sec : storable hdr -> 0 <= copy_offset hdr sec <= 0x400000.
Proof. intros H. destruct (storable_size _ H). destruct sec; cbn; lia. Qed.

Section data.
Variables (hdr : luks2_hdr) (sec : bool) (D : bytes).
Hypothesis Hst : storable hdr.
Hypothesis Hsize : copy_offset hdr sec + hdr_size hdr <= zlen D.

(** Step 1 wrote [k] bytes. *)
Lemma step1_data k :
  0 < k <= 4096 -> (512 | k) ->
  let D1 := splice (copy_offset hdr sec) (take (Z.to_nat k) (hdr_disk_bytes (bare_disk hdr sec))) D in
  frame hdr sec D D1 /\ torn hdr sec D D1 /\
  (k = 4096 -> slice (copy_offset hdr sec) 4096 D1 = hdr_disk_bytes (bare_disk hdr sec)).
Proof.
  intros Hk [q Hq] D1. pose proof (copy_offset_bounds hdr sec Hst) as Ho. destruct (storable_size _ Hst) as (Hs & _ & _).
  set (b := hdr_disk_bytes (bare_disk hdr sec)) in *.
  assert (Hb : zlen b = 4096) by (apply zlen_hdr_disk_bytes; by apply wf_bare_disk).
  assert (Hkz : zlen (take (Z.to_nat k) b) = k) by (apply zlen_take; lia).
  assert (Hsl : forall n, 0 <= n <= k -> slice (copy_offset hdr sec) n D1 = slice 0 n b).
  { intros n Hn. rewrite <-(Z.add_0_r (copy_offset hdr sec)), <-(slice_slice 0 n _ k) by lia.
    subst D1. rewrite <-Hkz at 1. rewrite slice_splice_same by lia.
    unfold slice. rewrite !drop_0, take_take. f_equal. lia. }
  split; [|split; [split|]].
  - apply frame_splice; lia.
  - apply Hsl. lia.
  - exists 0%nat. rewrite drop_0. cbn [take app]. unfold json_region, LUKS2_HDR_BIN_LEN.
    apply slice_splice_disj; lia.
  - intros ->. rewrite Hsl by lia. rewrite <-Hb. apply slice_all.
Qed.

(** Step 2 wrote [k] bytes of the JSON area. *)
Lemma step2_data D1 k :
  zlen D1 = zlen D -> frame hdr sec D D1 -> json_region hdr sec D1 = json_region hdr sec D ->
  slice (copy_offset hdr sec) 4096 D1 = hdr_disk_bytes (bare_disk hdr sec) ->
  0 <= k <= zlen (json_area_of hdr) ->
  let D2 := splice (copy_offset hdr sec + 4096) (take (Z.to_nat k) (json_area_of hdr)) D1 in
  frame hdr sec D D2 /\ torn hdr sec D D2 /\
  slice (copy_offset hdr sec) 4096 D2 = hdr_disk_bytes (bare_disk hdr sec) /\
  (k = zlen (json_area_of hdr) -> json_region hdr sec D2 = json_area_of hdr).
Proof.
  intros Hz Hf Hj Hb Hk D2. pose proof (copy_offset_bounds hdr sec Hst) as Ho. destruct (storable_size _ Hst) as (Hs & _ & _).
  pose proof (zlen_json_area _ Hst) as Hja. unfold LUKS2_HDR_BIN_LEN in Hja.
  assert (Hkz : zlen (take (Z.to_nat k) (json_area_of hdr)) = k) by (apply zlen_take; lia).
  assert (Hh : slice (copy_offset hdr sec) 4096 D2 = hdr_disk_bytes (bare_disk hdr sec))
    by (rewrite <-Hb; apply slice_splice_disj; lia).
  assert (Hreg : json_region hdr sec D2 =
    take (Z.to_nat k) (json_area_of hdr) ++ drop (Z.to_nat k) (json_region hdr sec D)).
  { rewrite <-Hj. unfold json_region, LUKS2_HDR_BIN_LEN. rewrite <-Hja. apply slice_splice_take; lia. }
  split; [|split; [split; [|eauto]|split; [done|]]].
  - eapply frame_trans; [exact Hf|]. apply frame_splice; lia.
  - rewrite <-Hh, slice_slice by lia. by rewrite Z.add_0_r.
  - intros ->. rewrite Hreg, take_ge, drop_ge, app_nil_r; [done|..]; unfold zlen in *; [|lia].
    unfold json_region, slice. rewrite length_take. unfold LUKS2_HDR_BIN_LEN. lia.
Qed.

(** Step 3 wrote [k] bytes of the complete binary header. *)
Lemma step3_data D2 k :
  frame hdr sec D D2 -> torn hdr sec D D2 ->
  slice (copy_offset hdr sec) 4096 D2 = hdr_disk_bytes (bare_disk hdr sec) ->
  json_region hdr sec D2 = json_area_of hdr -> 0 <= k <= 4096 -> (512 | k) ->
  let D3 := splice (copy_offset hdr sec) (take (Z.to_nat k) (hdr_disk_bytes (full_disk hdr sec))) D2 in
  frame hdr sec D D3 /\ ((k < 4096 /\ torn hdr sec D D3) \/ complete hdr sec D3).
Proof.
  intros Hf Ht Hb Hj Hk [q Hq] D3. pose proof (copy_offset_bounds hdr sec Hst) as Ho. destruct (storable_size _ Hst) as (Hs & _ & _).
  pose proof (zlen_hdr_disk_bytes _ (wf_full_disk hdr sec Hst)) as Hz. unfold LUKS2_HDR_BIN_LEN in Hz.
  destruct Hf as [Hzd Hf].
  assert (Hkz : zlen (take (Z.to_nat k) (hdr_disk_bytes (full_disk hdr sec))) = k) by (apply zlen_take; lia).
  split. { eapply frame_trans; [by split|]. apply frame_splice; lia. }
  destruct (decide (k = 0)) as [->|Hnz]; [left; split; [lia|]|right].
  { subst D3. change (take (Z.to_nat 0) _) with (@nil byte). by rewrite splice_nil. }
  unfold complete, copy_bytes. replace (hdr_size hdr) with (4096 + (hdr_size hdr - 4096)) by lia.
  rewrite slice_app_split by lia. f_equal.
  - subst D3. rewrite <-Hz at 1. rewrite slice_splice_take by lia. rewrite Hz, Hb.
    rewrite <-drop_full_bare by (done || lia). apply take_drop.
  - rewrite <-Hj. subst D3. unfold json_region, LUKS2_HDR_BIN_LEN. apply slice_splice_disj; lia.
Qed.
End data.

Lemma granular_le g f f' : sched_le f f' -> granular g (f_sched f) -> granular g (f_sched f').
Proof. intros H. apply H. Qed.

Lemma json_region_frame hdr sec D k :
  storable hdr -> copy_offset hdr sec + hdr_size hdr <= zlen D -> 0 <= k <= 4096 ->
  json_region hdr sec (splice (copy_offset hdr sec) (take (Z.to_nat k) (hdr_disk_bytes (bare_disk hdr sec))) D) =
  json_region hdr sec D.
Proof.
  intros H Hs Hk. pose proof (copy_offset_bounds hdr sec H) as Ho. destruct (storable_size _ H) as (Hs' & _ & _).
  pose proof (zlen_hdr_disk_bytes _ (wf_bare_disk hdr sec H)) as Hz. unfold LUKS2_HDR_BIN_LEN in Hz.
  unfold json_region, LUKS2_HDR_BIN_LEN.
  apply slice_splice_disj; rewrite ?zlen_take by lia; lia.
Qed.

(** ** The three steps on a device *)

(** After a write to the device: it works, only its contents changed. *)
Definition written (d d' : device) : Prop :=
  dev_ok (os env) d' /\ d_lh d' = d_lh d /\ sched_le (d_file d) (d_file d') /\
  f_size (d_file d') = f_size (d_file d).

Lemma written_trans d1 d2 d3 : written d1 d2 -> written d2 d3 -> written d1 d3.
Proof.
  intros (H1 & H2 & H3 & H4) (H5 & H6 & H7 & H8). split; [done|]. split; [congruence|].
  split; [by transitivity (d_file d2)|congruence].
Qed.

Lemma written_benign d d' : written d d' -> benign (f_sched (d_file d)) -> benign (f_sched (d_file d')).
Proof. intros (_ & _ & H & _). apply H. Qed.

Lemma written_granular d d' : written d d' -> granular 512 (f_sched (d_file d)) -> granular 512 (f_sched (d_file d')).
Proof. intros (_ & _ & H & _). apply H. Qed.

Lemma dev_write_written d fd buf offset :
  dev_ok (os env) d -> granular 512 (f_sched (d_file d)) -> 0 <= fd -> 0 < zlen buf -> 0 <= offset ->
  offset + zlen buf <= f_size (d_file d) -> (4096 | offset) -> (4096 | zlen buf) ->
  exists w d' k, dev_write (os env) fd buf (zlen buf) offset d = Some (w, d') /\ written d d' /\
    0 <= k <= zlen buf /\ (512 | k) /\
    f_data (d_file d') = splice offset (take (Z.to_nat k) buf) (f_data (d_file d)) /\
    ((w = zlen buf /\ k = zlen buf) \/ (w = -1 /\ ~ benign (f_sched (d_file d)))).
Proof.
  intros Hok Hg Hfd Hz Ho Hin Hdo Hdz.
  destruct (dev_write_ok (os env) d fd buf offset) as (w & d' & k & Hr & Hok' & Hl & Hs & Hk & Hgk & Hd & Hc); auto.
  exists w, d', k. split; [done|]. split; [|auto].
  split; [done|]. split; [done|]. split; [done|]. unfold f_size in *. rewrite Hd, zlen_splice; [done|done|].
  rewrite zlen_take by lia. lia.
Qed.

Definition after1 (hdr : luks2_hdr) (sec : bool) (D D' : bytes) : Prop :=
  frame hdr sec D D' /\ torn hdr sec D D' /\
  slice (copy_offset hdr sec) 4096 D' = hdr_disk_bytes (bare_disk hdr sec) /\
  json_region hdr sec D' = json_region hdr sec D.

Definition after2 (hdr : luks2_hdr) (sec : bool) (D D' : bytes) : Prop :=
  frame hdr sec D D' /\ torn hdr sec D D' /\
  slice (copy_offset hdr sec) 4096 D' = hdr_disk_bytes (bare_disk hdr sec) /\
  json_region hdr sec D' = json_area_of hdr.

Section steps.
Variables (hdr : luks2_hdr) (sec : bool) (D : bytes) (fd : Z).
Hypothesis Hst : storable hdr.
Hypothesis Hsize : copy_offset hdr sec + hdr_size hdr <= zlen D.
Hypothesis Hfd : 0 <= fd.

Lemma copy_offset_divide : (4096 | copy_offset hdr sec) /\ (4096 | hdr_size hdr - 4096).
Proof.
  destruct (storable_size _ Hst) as (_ & Hdiv & _).
  split; [destruct sec; [exact Hdiv|by exists 0]|apply Z.divide_sub_r; [done|by exists 1]].
Qed.

Lemma write_step1 d :
  dev_ok (os env) d -> granular 512 (f_sched (d_file d)) -> f_data (d_file d) = D ->
  exists w d', dev_write (os env) fd (hdr_disk_bytes (bare_disk hdr sec)) 4096 (copy_offset hdr sec) d = Some (w, d') /\
    written d d' /\
    ((w = 4096 /\ after1 hdr sec D (f_data (d_file d'))) \/
     (w = -1 /\ ~ benign (f_sched (d_file d)) /\ write_result hdr sec D (f_data (d_file d')) (- EIO))).
Proof.
  intros Hok Hg HD. pose proof (copy_offset_bounds hdr sec Hst) as Ho. destruct copy_offset_divide as [Hdo _].
  destruct (storable_size _ Hst) as (Hs & _ & _).
  pose proof (zlen_hdr_disk_bytes _ (wf_bare_disk hdr sec Hst)) as Hzb. unfold LUKS2_HDR_BIN_LEN in Hzb.
  destruct (dev_write_written d fd (hdr_disk_bytes (bare_disk hdr sec)) (copy_offset hdr sec))
    as (w & d' & k & R & Hwr & Hk & Hgk & Hd & Hc); auto; try (unfold f_size; rewrite ?HD); try lia.
  { rewrite Hzb. by exists 1. }
  rewrite Hzb in *. rewrite HD in Hd. exists w, d'. split; [done|]. split; [done|].
  destruct (decide (k = 0)) as [->|Hnz].
  - right. destruct Hc as [[_ ?]|[-> Hn]]; [lia|]. split; [done|]. split; [done|].
    change (take (Z.to_nat 0) _) with (@nil byte) in Hd. rewrite splice_nil in Hd. rewrite Hd.
    split; [by split|left; done].
  - destruct (step1_data hdr sec D Hst Hsize k ltac:(lia) Hgk) as (Hf & Ht & Hb).
    pose proof (json_region_frame hdr sec D k Hst Hsize ltac:(lia)) as Hj. rewrite <-Hd in Hf, Ht, Hb, Hj.
    destruct Hc as [[-> ->]|[-> Hn]]; [left|right]; (split; [done|]).
    + repeat (split; [by auto|]). done.
    + split; [done|]. split; [done|]. right; left. done.
Qed.

Lemma write_step2 d :
  dev_ok (os env) d -> granular 512 (f_sched (d_file d)) -> after1 hdr sec D (f_data (d_file d)) ->
  exists w d', dev_write (os env) fd (json_area_of hdr) (hdr_size hdr - 4096) (copy_offset hdr sec + 4096) d = Some (w, d') /\
    written d d' /\
    ((w = hdr_size hdr - 4096 /\ after2 hdr sec D (f_data (d_file d'))) \/
     (w = -1 /\ ~ benign (f_sched (d_file d)) /\ write_result hdr sec D (f_data (d_file d')) (- EIO))).
Proof.
  intros Hok Hg ([Hz Hf] & Ht & Hb & Hj). pose proof (copy_offset_bounds hdr sec Hst) as Ho.
  destruct copy_offset_divide as [Hdo Hdj]. destruct (storable_size _ Hst) as (Hs & _ & _).
  pose proof (zlen_json_area _ Hst) as Hja. unfold LUKS2_HDR_BIN_LEN in Hja.
  destruct (dev_write_written d fd (json_area_of hdr) (copy_offset hdr sec + 4096))
    as (w & d' & k & R & Hwr & Hk & Hgk & Hd & Hc); auto; try (unfold f_size; rewrite ?Hz); try lia.
  { apply Z.divide_add_r; [done|by exists 1]. }
  { by rewrite Hja. }
  destruct (step2_data hdr sec D Hst Hsize (f_data (d_file d)) k) as (Hf' & Ht' & Hb' & Hj'); auto; [by split|].
  rewrite <-Hd in Hf', Ht', Hb', Hj'. rewrite Hja in *. exists w, d'. split; [done|]. split; [done|].
  destruct Hc as [[-> ->]|[-> Hn]]; [left|right]; (split; [done|]).
  - split; [done|]. split; [done|]. split; [done|]. by apply Hj'.
  - split; [done|]. split; [done|]. right; left. done.
Qed.

Lemma write_step3 d :
  dev_ok (os env) d -> granular 512 (f_sched (d_file d)) -> after2 hdr sec D (f_data (d_file d)) ->
  exists w d', dev_write (os env) fd (hdr_disk_bytes (full_disk hdr sec)) 4096 (copy_offset hdr sec) d = Some (w, d') /\
    written d d' /\
    ((w = 4096 /\ frame hdr sec D (f_data (d_file d')) /\ complete hdr sec (f_data (d_file d'))) \/
     (w = -1 /\ ~ benign (f_sched (d_file d)) /\ write_result hdr sec D (f_data (d_file d')) (- EIO))).
Proof.
  intros Hok Hg (Hf & Ht & Hb & Hj). pose proof (copy_offset_bounds hdr sec Hst) as Ho.
  destruct copy_offset_divide as [Hdo _]. destruct (storable_size _ Hst) as (Hs & _ & _).
  pose proof (zlen_hdr_disk_bytes _ (wf_full_disk hdr sec Hst)) as Hzf. unfold LUKS2_HDR_BIN_LEN in Hzf.
  destruct (dev_write_written d fd (hdr_disk_bytes (full_disk hdr sec)) (copy_offset hdr sec))
    as (w & d' & k & R & Hwr & Hk & Hgk & Hd & Hc); auto;
    try (unfold f_size; rewrite ?(proj1 Hf)); try lia.
  { rewrite Hzf. by exists 1. }
  rewrite Hzf in *.
  destruct (step3_data hdr sec D Hst Hsize (f_data (d_file d)) k Hf Ht Hb Hj ltac:(lia) Hgk) as (Hf3 & Hres).
  rewrite <-Hd in Hf3, Hres. exists w, d'. split; [done|]. split; [done|].
  destruct Hc as [[-> ->]|[-> Hn]]; [left|right]; (split; [done|]).
  - split; [done|]. destruct Hres as [[? _]|Hcm]; [lia|done].
  - split; [done|]. split; [done|]. destruct Hres as [[_ Ht3]|Hcm]; [right; left; done|by right; right].
Qed.
End steps.

(** The three writes of [hdr_write_disk], whatever the schedule. *)
Lemma hdr_write_disk_run hdr sec d :
  storable hdr -> dev_ok (os env) d -> writable d -> granular 512 (f_sched (d_file d)) ->
  copy_offset hdr sec + hdr_size hdr <= f_size (d_file d) ->
  exists r d', hdr_write_disk env hdr (json_area_of hdr) sec d = Some (r, d') /\ written d d' /\
    write_result hdr sec (f_data (d_file d)) (f_data (d_file d')) r /\
    (r = 0 -> complete hdr sec (f_data (d_file d'))) /\ (benign (f_sched (d_file d)) -> r = 0).
Proof.
  intros H Hok Hw Hg Hsz. pose proof (copy_offset_bounds hdr sec H) as Ho.
  destruct (storable_size _ H) as (Hs & _ & E64).
  unfold hdr_write_disk. fold (copy_offset hdr sec). fold (bare_disk hdr sec). unfold LUKS2_HDR_BIN_LEN in *.
  destruct (open_locked_ok (os env) d O_RDWR Hok ltac:(auto)) as (fd & d0 & R0 & Hfd & Hok0 & F0 & L0).
  erewrite bind_run by exact R0. destruct (Z.ltb_spec fd 0); [lia|].
  rewrite E64, (u64_id (4096 + copy_offset hdr sec)), (Z.add_comm 4096) by lia.
  assert (Ei : i64 (hdr_size hdr - 4096) = hdr_size hdr - 4096) by (apply swrap_id; lia). rewrite Ei.
  rewrite (looks_alg (bare_disk hdr sec) hdr sec H) by by split.
  assert (Ec : hdr_checksum_calculate (cstr (checksum_alg hdr)) (bare_disk hdr sec) (json_area_of hdr) =
    (0, full_disk hdr sec)).
  { unfold full_disk, hdr_checksum_calculate. pose proof (st_hash _ H).
    destruct (Z.leb_spec (crypt_hash_size (cstr (checksum_alg hdr))) 0); [lia|done]. }
  rewrite Ec, Z.ltb_irrefl. set (D := f_data (d_file d)) in *.
  assert (W0 : written d d0) by (split; [done|]; split; [done|]; rewrite F0; done).
  destruct (write_step1 hdr sec D fd H Hsz Hfd d0 Hok0) as (w1 & d1 & R1 & W1 & C1); [by rewrite F0|by rewrite F0|].
  erewrite bind_run by exact R1. pose proof (written_trans _ _ _ W0 W1) as W01.
  destruct C1 as [[-> A1]|(-> & N1 & Res)].
  2: { exists (- EIO), d1. split; [done|]. split; [done|]. split; [done|]. split; [done|].
       intros Hb. destruct N1. by rewrite F0. }
  rewrite Z.ltb_irrefl.
  destruct (write_step2 hdr sec D fd H Hsz Hfd d1) as (w2 & d2 & R2 & W2 & C2); [apply W1|by apply (written_granular d)|done|].
  erewrite bind_run by exact R2. pose proof (written_trans _ _ _ W01 W2) as W02.
  destruct C2 as [[-> A2]|(-> & N2 & Res)].
  2: { destruct (Z.ltb_spec (-1) (hdr_size hdr - 4096)); [|lia].
       exists (- EIO), d2. split; [done|]. split; [done|]. split; [done|]. split; [done|].
       intros Hb. destruct N2. by apply (written_benign d). }
  rewrite Z.ltb_irrefl.
  destruct (write_step3 hdr sec D fd H Hsz Hfd d2) as (w3 & d3 & R3 & W3 & C3); [apply W2|by apply (written_granular d)|done|].
  erewrite bind_run by exact R3. pose proof (written_trans _ _ _ W02 W3) as W03.
  destruct C3 as [(-> & Hf & Hcm)|(-> & N3 & Res)].
  - exists 0, d3. split; [done|]. split; [done|]. split; [split; auto|done].
  - exists (- EIO), d3. split; [done|]. split; [done|]. split; [done|]. split; [done|].
    intros Hb. destruct N3. by apply (written_benign d).
Qed.
End write.
