(* ===== verification/Luks2DiskAtomic.v ===== *)
(** * Luks2DiskAtomic: updates of the on-disk header are atomic

    [LUKS2_disk_hdr_write] runs the two copies' writes under the write lock.
    If it stops at any transfer, a later [LUKS2_disk_hdr_read] finds the old
    header or the new one; if it reports success, the new one. *)

From S2P Require Import Prelude UtilsIO CryptBackend Cstd JsonC Luks2Json Luks2Keyslot Luks2Areas Luks2Validate Device Luks2Disk Luks2DiskFacts Luks2DiskWrite.
From Stdlib Require Import Strings.Byte Sorted.

Section write.
Context `{JL : JsonCLaws} `{CHL : CryptHashLaws}.
Variable env : disk_env.

(** The sequence id of the primary copy is the one of the header in memory. *)
Definition seqid_current (hdr : luks2_hdr) (D : bytes) : Prop :=
  be_decode (slice 16 8 D) = seqid hdr.

Lemma check_sequence_id_run hdr d :
  dev_ok (os env) d ->
  exists c d', LUKS2_check_sequence_id env hdr d = Some (c, d') /\ dev_next d d' /\
    (benign (f_sched (d_file d)) -> 512 <= f_size (d_file d) -> seqid_current hdr (f_data (d_file d)) -> c = 0).
Proof.
  intros Hok. unfold LUKS2_check_sequence_id.
  destruct (open_locked_ok (os env) d O_RDONLY Hok ltac:(auto)) as (fd & d1 & Hr1 & Hfd & Hok1 & Hf1 & Hl1).
  erewrite bind_run by exact Hr1. destruct (Z.ltb_spec fd 0); [lia|].
  destruct (do_block _ _ Hok1) as (Hbs & _).
  pose proof (read_lseek_blockwise_spec fd (env_block_size (os env)) (env_alignment (os env)) 512 0 (d_file d1)
    Hfd Hbs (do_align _ _ Hok1) ltac:(lia) ltac:(lia)) as Hr.
  destruct (read_lseek_blockwise fd (env_block_size (os env)) (env_alignment (os env)) 512 0 (d_file d1))
    as [[n buf] f] eqn:Er. destruct Hr as (Hs & Hd & Hc). rewrite Hf1 in Hs, Hd, Hc.
  assert (R2 : dev_read (os env) fd 512 0 d1 = Some ((n, buf), set_file f d1)) by (unfold dev_read; by rewrite Er).
  erewrite bind_run by exact R2. cbn beta match.
  assert (Hn : dev_next d (set_file f d1)) by (split; [done|]; split; [done|done]).
  destruct (Z.eqb_spec n 512) as [->|Hne]; cbn [negb].
  - destruct (_ || _); [eexists _, _; split; [reflexivity|]; done|].
    eexists _, _. split; [reflexivity|]. split; [done|]. intros Hb Hsz Hseq.
    destruct Hc as [[_ ->]|[? _]]; [|done]. cbn [hdr_disk_of_bytes dk_seqid].
    rewrite slice_slice by lia. change (0 + 16) with 16. unfold seqid_current in Hseq.
    rewrite Hseq, Z.eqb_refl. done.
  - eexists _, _. split; [reflexivity|]. split; [done|]. intros Hb Hsz _.
    destruct Hc as [[-> _]|[_ [Hnb|Hlt]]]; [done|by destruct Hnb|lia].
Qed.

(** Taking the lock for an update, with or without the check of the id. *)
Lemma lock_for_update_run (check : bool) hdr d :
  dev_ready (os env) d -> write_lockable d ->
  exists r d', (if check then LUKS2_device_write_lock env hdr else device_write_lock (os env)) d = Some (r, d') /\
    f_data (d_file d') = f_data (d_file d) /\ sched_le (d_file d) (d_file d') /\
    ((r < 0 /\ d_lh d' = d_lh d) \/ (0 <= r /\ d_lh d' = lock_inc (os env) (d_lh d))) /\
    (benign (f_sched (d_file d)) -> 512 <= f_size (d_file d) -> seqid_current hdr (f_data (d_file d)) ->
     0 <= acquire_result (os env) DEV_LOCK_WRITE -> 0 <= r).
Proof.
  intros Hrd Hlk.
  destruct (device_write_lock_run (os env) d Hlk) as (r1 & d1 & R1 & F1 & _ & _ & C1).
  assert (H0 : sched_le (d_file d) (d_file d1)) by (by rewrite F1).
  destruct C1 as [(Hneg & He & Hnone & Hl)|(Hpos & Hl & H1)].
  { exists r1, d1. split.
    - destruct check; [|done]. unfold LUKS2_device_write_lock. erewrite bind_run by exact R1.
      destruct (Z.ltb_spec r1 0); [done|lia].
    - rewrite F1. split; [done|]. split; [done|]. split; [left; done|]. intros _ _ _ Hacq.
      unfold device_write_lock in R1. rewrite He in R1. cbn [negb] in R1.
      erewrite bind_run in R1 by reflexivity. rewrite Hnone in R1. cbn [device_locked negb orb] in R1.
      erewrite bind_run in R1 by reflexivity. unfold device_write_lock_internal in R1.
      erewrite bind_run in R1 by reflexivity. rewrite Hnone in R1.
      destruct (Z.ltb_spec (acquire_result (os env) DEV_LOCK_WRITE) 0); [lia|].
      erewrite bind_run in R1 by reflexivity. injection R1 as <- _. lia. }
  destruct check.
  2: { exists r1, d1. split; [done|]. rewrite F1. split; [done|]. split; [done|]. split; [right; done|auto]. }
  unfold LUKS2_device_write_lock. erewrite bind_run by exact R1. destruct (Z.ltb_spec r1 0); [lia|].
  destruct (Z.eqb_spec r1 1) as [E1|E1]; cbn [andb].
  2: { exists 0, d1. split; [done|]. rewrite F1. split; [done|]. split; [done|]. split; [right; split; [lia|done]|lia]. }
  destruct (in_reencryption env); cbn [negb].
  { exists 0, d1. split; [done|]. rewrite F1. split; [done|]. split; [done|]. split; [right; split; [lia|done]|lia]. }
  destruct (proj1 H1 E1) as [He Hnone].
  assert (Hok1 : dev_ok (os env) d1).
  { apply dev_ready_ok; [apply (dev_ready_size _ d); [done|by rewrite F1]|].
    intros _. rewrite Hl. by apply lock_inc_some. }
  destruct (check_sequence_id_run hdr d1 Hok1) as (c & d2 & R2 & (Hd2 & Hl2 & Hs2) & Hc).
  erewrite bind_run by exact R2. rewrite F1 in Hd2, Hs2, Hc. destruct (Z.eqb_spec c 0) as [->|Hc0]; cbn [negb].
  - exists 0, d2. split; [done|]. split; [done|]. split; [done|]. split; [right; split; [lia|congruence]|lia].
  - rewrite Hnone in Hl. destruct (device_write_unlock_run (os env) d2 None I) as (d3 & R3 & F3 & Hl3).
    { by rewrite Hl2. }
    erewrite bind_run by exact R3. exists (- EINVAL), d3. split; [done|]. rewrite F3. split; [done|].
    split; [done|]. split; [left; split; [done|congruence]|]. intros Hb Hsz Hq _. destruct Hc0. auto.
Qed.

(** ** The two copies *)

(** What the two writes made of the contents [D]: stopped while writing the
    first copy, or wrote it and went on with the second. *)
Definition update_result (hdr : luks2_hdr) (D D' : bytes) (r : Z) : Prop :=
  (r <> 0 /\ write_result hdr false D D' r) \/
  (exists D1, write_result hdr false D D1 0 /\ complete hdr false D1 /\
     write_result hdr true D1 D' r /\ (r = 0 -> complete hdr true D')).

Definition next_hdr (hdr : luks2_hdr) : luks2_hdr := set_seqid hdr (seqid hdr +64 1).

Lemma write_both_run hdr d :
  storable hdr -> dev_ok (os env) d -> writable d -> granular 512 (f_sched (d_file d)) ->
  2 * hdr_size hdr <= f_size (d_file d) ->
  exists r1 d1 r d', hdr_write_disk env hdr (json_area_of hdr) false d = Some (r1, d1) /\
    (if r1 =? 0 then hdr_write_disk env hdr (json_area_of hdr) true else mret r1) d1 = Some (r, d') /\
    written env d d' /\ update_result hdr (f_data (d_file d)) (f_data (d_file d')) r /\
    (benign (f_sched (d_file d)) -> r = 0).
Proof.
  intros H Hok Hw Hg Hsz. destruct (storable_size _ H) as (Hs & _ & _).
  destruct (hdr_write_disk_run env hdr false d H Hok Hw Hg) as (r1 & d1 & R1 & W1 & Res1 & C1 & B1); [cbn; lia|].
  exists r1, d1. destruct (Z.eqb_spec r1 0) as [->|Hne].
  - destruct W1 as (Hok1 & Hl1 & Hs1 & Hz1).
    destruct (hdr_write_disk_run env hdr true d1 H Hok1) as (r & d2 & R2 & W2 & Res2 & C2 & B2);
      [unfold writable; by rewrite Hl1|by apply Hs1|cbn; lia|].
    exists r, d2. split; [done|]. split; [done|].
    split; [apply (written_trans _ _ d1); [by split|done]|]. split; [right; exists (f_data (d_file d1)); auto|].
    intros Hb. apply B2. by apply Hs1.
  - exists r1, d1. split; [done|]. split; [done|]. split; [done|]. split; [left; done|done].
Qed.

Lemma storable_json_size hdr : storable hdr -> get_max_offset hdr = LUKS2_hdr_and_areas_size hdr.
Proof. done. Qed.

(** The whole update: it never fails an assertion, it gives back the lock, and
    the device holds what the interrupted or finished writes left. *)
Lemma disk_hdr_write_run hdr check d :
  storable (next_hdr hdr) -> mem_ok env -> dev_ready (os env) d -> write_lockable d ->
  granular 512 (f_sched (d_file d)) -> LUKS2_hdr_and_areas_size hdr <= f_size (d_file d) ->
  2 * hdr_size hdr <= f_size (d_file d) ->
  exists r hdr' d', LUKS2_disk_hdr_write env hdr check d = Some ((r, hdr'), d') /\
    d_lh d' = d_lh d /\
    ((r <> 0 /\ hdr' = hdr /\ f_data (d_file d') = f_data (d_file d)) \/
     (hdr' = next_hdr hdr /\ update_result (next_hdr hdr) (f_data (d_file d)) (f_data (d_file d')) r)) /\
    (benign (f_sched (d_file d)) -> seqid_current hdr (f_data (d_file d)) ->
     0 <= acquire_result (os env) DEV_LOCK_WRITE -> r = 0 /\ hdr' = next_hdr hdr) /\
    sched_le (d_file d) (d_file d').
Proof.
  intros H Hm Hrd Hlk Hg Har Hsz. destruct (storable_size _ H) as (Hs & _ & E64).
  destruct (st_text _ H) as (_ & Hh & Ht). pose proof (st_version _ H) as Hv. cbn in Hs, E64, Ht, Hv, Hh.
  unfold mem_ok in Hm. unfold LUKS2_disk_hdr_write. rewrite Hv. cbn [Z.eqb Pos.eqb negb].
  erewrite bind_run by (apply device_check_size_run; [apply (do_size _ _ Hrd)|done]).
  rewrite E64. unfold LUKS2_HDR_BIN_LEN in *. rewrite (u64_id (hdr_size hdr - 4096 - 1)) by lia.
  cbn [Z.eqb negb]. destruct (Z.ltb_spec (mem_limit (os env)) (hdr_size hdr - 4096)); [lia|].
  destruct (Z.eqb_spec (zlen (json_object_to_json_string_ext (jobj hdr))) 0) as [Ez|_].
  { apply zlen_0_nil in Ez. by rewrite Ez in Hh. }
  destruct (Z.ltb_spec (hdr_size hdr - 4096 - 1) (zlen (json_object_to_json_string_ext (jobj hdr)))); [lia|].
  destruct (lock_for_update_run check hdr d Hrd Hlk) as (r0 & d0 & R0 & F0 & S0 & C0 & B0).
  erewrite bind_run by exact R0. assert (Hz0 : f_size (d_file d0) = f_size (d_file d)) by (unfold f_size; by rewrite F0).
  destruct C0 as [[Hneg Hl0]|[Hpos Hl0]].
  { destruct (Z.ltb_spec r0 0); [|lia]. exists r0, hdr, d0. split; [done|]. split; [done|].
    split; [left; split; [lia|done]|]. split; [|done]. intros Hb Hq Ha. specialize (B0 Hb ltac:(lia) Hq Ha). lia. }
  destruct (Z.ltb_spec r0 0); [lia|]. progress fold (next_hdr hdr).
  change (json_area_of hdr) with (json_area_of (next_hdr hdr)).
  assert (Hok0 : dev_ok (os env) d0).
  { apply dev_ready_ok; [by apply (dev_ready_size _ d)|]. intros He. rewrite Hl0. by apply lock_inc_some. }
  destruct (write_both_run (next_hdr hdr) d0 H Hok0) as (r1 & d1 & r & d2 & R1 & R2 & W2 & U & B2).
  { eapply lock_inc_writable; [exact Hlk|exact Hl0]. } { by apply S0. } { cbn. lia. }
  erewrite bind_run by exact R1. erewrite bind_run by exact R2. destruct W2 as (_ & Hl2 & S2 & _).
  destruct (device_write_unlock_run (os env) d2 (d_lh d) Hlk) as (d3 & R3 & F3 & Hl3); [congruence|].
  erewrite bind_run by exact R3. exists r, (next_hdr hdr), d3. split; [done|]. split; [done|].
  rewrite F3, <-F0. split; [right; done|]. split; [|by transitivity (d_file d0)].
  intros Hb _ _. split; [|done]. apply B2. by apply S0.
Qed.
End write.

(** ** Reading *)

Section read.
Context `{JL : JsonCLaws} `{CHL : CryptHashLaws}.
Variable env : disk_env.

(** The same header, up to the salts (the salt of the other copy may be lost
    with it) and to what follows the terminating NUL of the C strings. *)
Record same_header (h1 h2 : luks2_hdr) : Prop := {
  sh_version : version h1 = version h2;
  sh_hdr_size : hdr_size h1 = hdr_size h2;
  sh_seqid : seqid h1 = seqid h2;
  sh_label : cstr (label h1) = cstr (label h2);
  sh_subsystem : cstr (subsystem h1) = cstr (subsystem h2);
  sh_alg : cstr (checksum_alg h1) = cstr (checksum_alg h2);
  sh_uuid : cstr (uuid h1) = cstr (uuid h2);
  sh_jobj : jobj h1 = jobj h2;
}.

Lemma bare_disk_numbers hdr sec :
  storable hdr ->
  be_decode (dk_version (bare_disk hdr sec)) = version hdr /\
  be_decode (dk_hdr_size (bare_disk hdr sec)) = hdr_size hdr /\
  be_decode (dk_seqid (bare_disk hdr sec)) = seqid hdr.
Proof.
  intros H. destruct (storable_size _ H) as (Hs & _ & _). pose proof (st_version _ H) as Hv.
  pose proof (st_seqid _ H) as Hq. unfold in_u in Hq. cbn [bare_disk hdr_to_disk dk_version dk_hdr_size dk_seqid].
  rewrite !be_decode_encode. change (8 * Z.of_nat 8) with 64. rewrite !u64_id by lia.
  rewrite Hv. done.
Qed.

Lemma from_disk_same hdr sec other hdr0 sec' j :
  storable hdr -> j = jobj hdr ->
  same_header (set_jobj (hdr_from_disk (bare_disk hdr sec) other hdr0 sec') j) hdr.
Proof.
  intros H ->. destruct (bare_disk_numbers hdr sec H) as (H1 & H2 & H3). destruct H.
  split; cbn -[string_field terminated]; try done; apply cstr_terminated_string_field; done.
Qed.

(** The state of a copy that was read completely. *)
Lemma hdr_state_complete hdr sec :
  storable hdr -> hdr_state_of 0 (bare_disk hdr sec) (Some (json_area_of hdr)) = (HDR_OK, Some (jobj hdr)).
Proof.
  intros H. unfold hdr_state_of. cbn [Z.eqb].
  change (default [] (Some (json_area_of hdr))) with (json_area_of hdr). destruct (storable_size _ H) as (_ & _ & E).
  rewrite (proj1 (proj2 (bare_disk_numbers hdr sec H))), E, parse_json_area by done. done.
Qed.

Lemma benign_next d d' : dev_next d d' -> benign (f_sched (d_file d)) -> benign (f_sched (d_file d')).
Proof. intros (_ & _ & H). apply H. Qed.

Lemma read_only_recovery : (if false && false && negb (locking_enabled (os env)) then false else false) = false.
Proof. done. Qed.

(** *** The primary copy is complete and not older *)

Lemma read_primary hdr hdr0 d r2 h2 j2 d1 d2 :
  storable hdr ->
  hdr_read_disk env (uninit env) 0 false d = Some ((0, bare_disk hdr false, Some (json_area_of hdr)), d1) ->
  hdr_read_disk env (uninit env) (hdr_size hdr) true d1 = Some ((r2, h2, j2), d2) ->
  (r2 = 0 -> be_decode (dk_seqid h2) <= seqid hdr) ->
  size_known (os env) = true -> LUKS2_hdr_and_areas_size_jobj (jobj hdr) <= f_size (d_file d2) ->
  exists hr, LUKS2_disk_hdr_read env hdr0 false false d = Some ((0, hr), d2) /\ same_header hr hdr.
Proof.
  intros H R1 R2 Hseq Hk Hsz. unfold LUKS2_disk_hdr_read. cbn [andb]. erewrite bind_run by exact R1.
  cbn beta match. rewrite hdr_state_complete by done. cbn beta match.
  rewrite (proj1 (proj2 (bare_disk_numbers hdr false H))).
  rewrite !bool_decide_false by done. cbn [negb andb]. erewrite bind_run by exact R2. cbn beta match.
  destruct (hdr_state_of r2 h2 j2) as [s2 o2] eqn:Es2.
  assert (Ho : exists s2', order_by_seqid HDR_OK s2 (bare_disk hdr false) h2 = (HDR_OK, s2')).
  { unfold order_by_seqid. rewrite bool_decide_true by done. cbn [andb].
    destruct (decide (s2 = HDR_OK)) as [->|Hne]; [|rewrite bool_decide_false by done; eauto].
    rewrite bool_decide_true by done.
    assert (Er : r2 = 0).
    { unfold hdr_state_of in Es2. destruct (Z.eqb_spec r2 0); [done|]. by destruct (r2 =? - EIO). }
    specialize (Hseq Er). rewrite (proj2 (proj2 (bare_disk_numbers hdr false H))).
    destruct (Z.ltb_spec (be_decode (dk_seqid h2)) (seqid hdr)); [eauto|].
    destruct (Z.ltb_spec (seqid hdr) (be_decode (dk_seqid h2))); [lia|eauto]. }
  destruct Ho as [s2' ->]. rewrite (bool_decide_true (HDR_OK = HDR_OK)) by done. cbn [negb orb andb].
  erewrite bind_run by (by apply device_check_size_run). cbn [Z.eqb negb].
  rewrite andb_false_r. cbn [andb].
  eexists. split; [|].
  { destruct (negb (bool_decide (s2' = HDR_OK))); reflexivity. }
  by apply from_disk_same.
Qed.

(** *** The primary copy is bad, the secondary complete *)

Lemma scan_done offsets r h j d : 0 <= r -> scan_offsets env offsets r h j d = Some ((r, h, j), d).
Proof. intros Hr. destruct offsets; cbn; [done|]. destruct (Z.ltb_spec r 0); [lia|done]. Qed.

Lemma scan_found offsets hdr r h j d :
  StronglySorted Z.lt offsets -> hdr_size hdr ∈ offsets -> Forall (fun o => 0 <= o) offsets -> r < 0 ->
  storable hdr -> mem_ok env -> dev_ok (os env) d -> benign (f_sched (d_file d)) ->
  2 * hdr_size hdr <= f_size (d_file d) -> complete hdr true (f_data (d_file d)) ->
  (forall o, o ∈ offsets -> o < hdr_size hdr -> slice o 6 (f_data (d_file d)) <> LUKS2_MAGIC_2ND) ->
  exists d', dev_next d d' /\
    scan_offsets env offsets r h j d = Some ((0, bare_disk hdr true, Some (json_area_of hdr)), d').
Proof.
  intros Hso Hin Hpos. revert r h j d.
  induction offsets as [|o offsets IH]; intros r h j d Hr H Hm Hok Hb Hsz Hc Hno; [by apply elem_of_nil in Hin|].
  apply StronglySorted_inv in Hso as [Hso Hlt]. apply Forall_cons in Hpos as [Ho Hpos].
  cbn [scan_offsets]. destruct (Z.ltb_spec r 0); [|lia].
  destruct (decide (o = hdr_size hdr)) as [->|Hne].
  - destruct (hdr_read_disk_complete env d h hdr true H Hm Hok Hb) as (d' & Hn & Hrd); [cbn; lia|exact Hc|].
    cbn [copy_offset] in Hrd. exists d'. split; [done|]. erewrite bind_run by exact Hrd. cbn beta match.
    by apply scan_done.
  - apply elem_of_cons in Hin as [?|Hin]; [done|]. rewrite Forall_forall in Hlt.
    pose proof (Hlt _ Hin) as Hlto.
    destruct (hdr_read_disk_reject env d h o Hok Hb Ho) as (r1 & h1 & j1 & d1 & R1 & Hr1 & Hn1).
    { apply Hno; [left|lia]. }
    erewrite bind_run by exact R1. cbn beta match. pose proof Hn1 as (Hd1 & _ & _).
    destruct (IH Hso Hin Hpos r1 h1 j1 d1) as (d' & Hn' & Hs'); auto.
    + by apply (dev_next_ok _ d).
    + by apply (benign_next d).
    + unfold f_size in *. by rewrite Hd1.
    + by rewrite Hd1.
    + intros o' Ho' Hl'. rewrite Hd1. apply Hno; [by right|done].
    + exists d'. split; [by transitivity d1|done].
Qed.

Lemma hdr2_offsets_sorted : StronglySorted Z.lt LUKS2_HDR2_OFFSETS /\ Forall (fun o => 0 <= o) LUKS2_HDR2_OFFSETS.
Proof. unfold LUKS2_HDR2_OFFSETS. split; repeat constructor; lia. Qed.

Lemma read_secondary hdr hdr0 d r1 h1 j1 d1 :
  storable hdr -> r1 < 0 -> r1 <> - EIO ->
  hdr_read_disk env (uninit env) 0 false d = Some ((r1, h1, j1), d1) ->
  mem_ok env -> dev_ok (os env) d1 -> benign (f_sched (d_file d1)) ->
  2 * hdr_size hdr <= f_size (d_file d1) -> complete hdr true (f_data (d_file d1)) ->
  (forall o, o ∈ LUKS2_HDR2_OFFSETS -> o < hdr_size hdr -> slice o 6 (f_data (d_file d1)) <> LUKS2_MAGIC_2ND) ->
  LUKS2_hdr_and_areas_size_jobj (jobj hdr) <= f_size (d_file d1) ->
  exists hr d2, LUKS2_disk_hdr_read env hdr0 false false d = Some ((0, hr), d2) /\ same_header hr hdr.
Proof.
  intros H Hr1 Hne R1 Hm Hok Hb Hsz Hc Hno Har. destruct hdr2_offsets_sorted as [Hso Hpos].
  destruct (scan_found LUKS2_HDR2_OFFSETS hdr (- EINVAL) (uninit env) None d1) as (d2 & Hn2 & R2); auto;
    [by apply st_hdr_size|done|].
  unfold LUKS2_disk_hdr_read. cbn [andb]. erewrite bind_run by exact R1. cbn beta match.
  assert (Es : hdr_state_of r1 h1 j1 = (HDR_FAIL, None)).
  { unfold hdr_state_of. destruct (Z.eqb_spec r1 0); [lia|]. by destruct (Z.eqb_spec r1 (- EIO)). }
  rewrite Es. cbn beta match. rewrite (bool_decide_true (HDR_FAIL = HDR_FAIL)) by done. cbn [negb andb].
  erewrite bind_run by exact R2. cbn beta match. rewrite hdr_state_complete by done. cbn beta match.
  assert (Eo : order_by_seqid HDR_FAIL HDR_OK h1 (bare_disk hdr true) = (HDR_FAIL, HDR_OK)).
  { unfold order_by_seqid. by rewrite bool_decide_false. }
  rewrite Eo. cbn beta match. rewrite (bool_decide_false (HDR_FAIL = HDR_OK)), (bool_decide_true (HDR_OK = HDR_OK)) by done.
  erewrite bind_run by (apply device_check_size_run; [apply (do_size _ _ Hok)|unfold f_size in *; by rewrite (proj1 Hn2)]).
  cbn [Z.eqb negb orb andb]. eexists _, d2. split; [reflexivity|]. by apply from_disk_same.
Qed.
End read.

(** ** Reading after an update *)

Section update.
Context `{JL : JsonCLaws} `{CHL : CryptHashLaws}.
Variables (env : disk_env) (old new : luks2_hdr).
Hypothesis Hmem : mem_ok env.
Hypothesis Hold : storable old.
Hypothesis Hnew : storable new.
Hypothesis Hsame : hdr_size new = hdr_size old.
Hypothesis Hseq : seqid old < seqid new.
Hypothesis Hnz : digest_nonzero (cstr (checksum_alg new)).

(** The byte 0xba of the magic does not occur in the text of the header. *)
Definition no_magic_byte (hdr : luks2_hdr) : Prop := xba ∉ json_object_to_json_string_ext (jobj hdr).

Definition fits (hdr : luks2_hdr) (D : bytes) : Prop :=
  2 * hdr_size hdr <= zlen D /\ LUKS2_hdr_and_areas_size_jobj (jobj hdr) <= zlen D.

Lemma no_magic_in_area hdr : storable hdr -> no_magic_byte hdr -> xba ∉ json_area_of hdr.
Proof.
  intros H Hn. destruct (storable_size _ H) as (Hs & _ & E). destruct (st_text _ H) as (_ & _ & Ht).
  unfold json_area_of. rewrite E. unfold LUKS2_HDR_BIN_LEN in *. rewrite splice_zeros by lia.
  rewrite not_elem_of_app. split; [done|]. intros Hin.
  apply list_elem_of_lookup in Hin as [i Hi]. unfold zeros in Hi. by apply lookup_replicate_1 in Hi as [? _].
Qed.

Lemma complete_json hdr sec D :
  storable hdr -> copy_offset hdr sec + hdr_size hdr <= zlen D -> complete hdr sec D ->
  json_region hdr sec D = json_area_of hdr.
Proof.
  intros H Hz Hc. destruct (storable_size _ H) as (Hs & _ & _). pose proof (copy_offset_bounds hdr sec H).
  pose proof (zlen_hdr_disk_bytes _ (wf_full_disk hdr sec H)) as Hzf.
  pose proof (zlen_json_area _ H) as Hja. unfold json_region, complete, LUKS2_HDR_BIN_LEN in *.
  rewrite <-(slice_slice 4096 (hdr_size hdr - 4096) _ (hdr_size hdr)), Hc by lia.
  unfold copy_bytes. rewrite slice_app_r by lia. rewrite Hzf, Z.sub_diag, <-Hja. apply slice_all.
Qed.

(** Inside a torn primary copy there is nothing that starts like a copy. *)
Lemma torn_no_magic D D' o :
  no_magic_byte old -> no_magic_byte new -> fits old D -> complete old false D -> torn new false D D' ->
  o ∈ LUKS2_HDR2_OFFSETS -> o < hdr_size new -> slice o 6 D' <> LUKS2_MAGIC_2ND.
Proof.
  intros Ho Hn [Hz _] Hc [_ [k Hk]] Hin Hlt. destruct (hdr2_offsets_bounds o Hin) as [Hb Hdiv].
  destruct (storable_size _ Hnew) as (Hs & Hdiv' & _).
  assert (Hreg : json_region new false D = json_area_of old).
  { rewrite <-(complete_json old false D) by (done || cbn; lia). unfold json_region. cbn. by rewrite Hsame. }
  rewrite Hreg in Hk.
  assert (Hno : xba ∉ json_region new false D').
  { rewrite Hk, not_elem_of_app. split; intros Hx.
    - apply (no_magic_in_area new Hnew Hn). apply elem_of_take in Hx as (i & Hi & _). by eapply list_elem_of_lookup_2.
    - apply (no_magic_in_area old Hold Ho). apply list_elem_of_lookup in Hx as [i Hi]. rewrite lookup_drop in Hi.
      by eapply list_elem_of_lookup_2. }
  destruct Hdiv as [a Ha], Hdiv' as [b Hb'].
  intros E. apply Hno. unfold json_region, LUKS2_HDR_BIN_LEN. cbn [copy_offset].
  assert (E' : slice (o - 4096) 6 (slice (0 + 4096) (hdr_size new - 4096) D') = LUKS2_MAGIC_2ND).
  { rewrite slice_slice by lia. rewrite <-E. f_equal. lia. }
  assert (Hx : xba ∈ slice (o - 4096) 6 (slice (0 + 4096) (hdr_size new - 4096) D')).
  { rewrite E'. unfold LUKS2_MAGIC_2ND. apply elem_of_app. right. left. }
  unfold slice at 1 in Hx. apply elem_of_take in Hx as (i & Hi & _). rewrite lookup_drop in Hi.
  by eapply list_elem_of_lookup_2.
Qed.

Lemma frame_complete hdr hdr' sec sec' D D' :
  hdr_size hdr = hdr_size hdr' -> storable hdr -> sec <> sec' -> frame hdr sec D D' -> complete hdr' sec' D ->
  complete hdr' sec' D'.
Proof.
  intros E H Hne [_ Hf] Hc. destruct (storable_size _ H) as (Hs & _ & _). unfold complete in *. rewrite <-Hc.
  apply Hf; destruct sec, sec'; cbn in *; try done; lia.
Qed.

(** A device whose primary copy is the new one. *)
Lemma read_new d hdr0 :
  dev_ok (os env) d -> benign (f_sched (d_file d)) -> fits new (f_data (d_file d)) ->
  complete new false (f_data (d_file d)) ->
  (complete old true (f_data (d_file d)) \/ complete new true (f_data (d_file d)) \/
   slice (hdr_size new) 512 (f_data (d_file d)) = slice 0 512 (hdr_disk_bytes (bare_disk new true))) ->
  exists hr d', LUKS2_disk_hdr_read env hdr0 false false d = Some ((0, hr), d') /\ same_header hr new.
Proof.
  intros Hok Hb [Hz Har] Hc Hsec. destruct (storable_size _ Hnew) as (Hs & _ & _).
  destruct (hdr_read_disk_complete env d (uninit env) new false Hnew Hmem Hok Hb) as (d1 & Hn1 & R1);
    [cbn; unfold f_size; lia|exact Hc|].
  pose proof (dev_next_ok _ _ _ Hn1 Hok) as Hok1. pose proof (benign_next _ _ Hn1 Hb) as Hb1.
  destruct Hn1 as (Hd1 & _ & _).
  assert (Hsz1 : forall s, copy_offset new s + hdr_size new <= f_size (d_file d1))
    by (intros s; unfold f_size; rewrite Hd1; destruct s; cbn; lia).
  assert (R2 : exists r2 h2 j2 d2, dev_next d1 d2 /\
    hdr_read_disk env (uninit env) (hdr_size new) true d1 = Some ((r2, h2, j2), d2) /\
    (r2 = 0 -> be_decode (dk_seqid h2) <= seqid new)).
  { destruct Hsec as [Hsec|[Hsec|Hsec]].
    - destruct (hdr_read_disk_complete env d1 (uninit env) old true Hold Hmem Hok1 Hb1) as (d2 & Hn2 & R2);
        [cbn; unfold f_size; rewrite Hd1; lia|by rewrite Hd1|].
      cbn [copy_offset] in R2. rewrite <-Hsame in R2. eexists _, _, _, d2. split; [done|]. split; [exact R2|].
      intros _. rewrite (proj2 (proj2 (bare_disk_numbers old true Hold))). lia.
    - destruct (hdr_read_disk_complete env d1 (uninit env) new true Hnew Hmem Hok1 Hb1) as (d2 & Hn2 & R2);
        [apply Hsz1|by rewrite Hd1|].
      eexists _, _, _, d2. split; [done|]. split; [exact R2|].
      intros _. rewrite (proj2 (proj2 (bare_disk_numbers new true Hnew))). lia.
    - destruct (hdr_read_disk_torn env d1 (uninit env) new true Hnew Hmem Hok1 Hb1 Hnz) as (d2 & h2 & j2 & Hn2 & R2);
        [apply Hsz1|by rewrite Hd1|].
      eexists _, _, _, d2. split; [done|]. split; [exact R2|]. done. }
  destruct R2 as (r2 & h2 & j2 & d2 & Hn2 & R2 & Hq).
  destruct (read_primary env new hdr0 d r2 h2 j2 d1 d2 Hnew R1 R2 Hq) as (hr & Hr & Hsm); [apply (do_size _ _ Hok)| |].
  { unfold f_size. rewrite (proj1 Hn2), Hd1. exact Har. }
  by exists hr, d2.
Qed.

(** A device that still holds both old copies. *)
Lemma read_old d hdr0 :
  dev_ok (os env) d -> benign (f_sched (d_file d)) -> fits old (f_data (d_file d)) ->
  complete old false (f_data (d_file d)) -> complete old true (f_data (d_file d)) ->
  exists hr d', LUKS2_disk_hdr_read env hdr0 false false d = Some ((0, hr), d') /\ same_header hr old.
Proof.
  intros Hok Hb [Hz Har] Hc1 Hc2. destruct (storable_size _ Hold) as (Hs & _ & _).
  destruct (hdr_read_disk_complete env d (uninit env) old false Hold Hmem Hok Hb) as (d1 & Hn1 & R1);
    [cbn; unfold f_size; lia|exact Hc1|].
  destruct (hdr_read_disk_complete env d1 (uninit env) old true Hold Hmem) as (d2 & Hn2 & R2);
    [by apply (dev_next_ok _ d)|by apply (benign_next d)|unfold f_size; rewrite (proj1 Hn1); cbn; lia
    |by rewrite (proj1 Hn1)|].
  destruct (read_primary env old hdr0 d _ _ _ d1 d2 Hold R1 R2) as (hr & Hr & Hsm).
  - intros _. rewrite (proj2 (proj2 (bare_disk_numbers old true Hold))). lia.
  - apply (do_size _ _ Hok).
  - unfold f_size. rewrite (proj1 Hn2), (proj1 Hn1). exact Har.
  - by exists hr, d2.
Qed.

(** A device whose primary copy is torn and whose secondary one is old. *)
Lemma read_torn D d hdr0 :
  dev_ok (os env) d -> benign (f_sched (d_file d)) -> fits old (f_data (d_file d)) -> fits old D ->
  no_magic_byte old -> no_magic_byte new -> complete old false D -> torn new false D (f_data (d_file d)) ->
  complete old true (f_data (d_file d)) ->
  exists hr d', LUKS2_disk_hdr_read env hdr0 false false d = Some ((0, hr), d') /\ same_header hr old.
Proof.
  intros Hok Hb [Hz Har] HfD Hm1 Hm2 Hc1 Ht Hc2. destruct (storable_size _ Hold) as (Hs & _ & _).
  destruct (hdr_read_disk_torn env d (uninit env) new false Hnew Hmem Hok Hb Hnz) as (d1 & h1 & j1 & Hn1 & R1);
    [cbn; unfold f_size; lia|apply Ht|].
  destruct (read_secondary env old hdr0 d (- EINVAL) h1 j1 d1 Hold) as (hr & d2 & Hr & Hsm); auto; try done.
  - by apply (dev_next_ok _ d).
  - by apply (benign_next d).
  - unfold f_size. rewrite (proj1 Hn1). exact Hz.
  - by rewrite (proj1 Hn1).
  - intros o Ho Hlt. rewrite (proj1 Hn1). apply (torn_no_magic D); auto. by rewrite Hsame.
  - unfold f_size. rewrite (proj1 Hn1). exact Har.
  - by exists hr, d2.
Qed.

(** Whatever the update left, the header is the old or the new one. *)
Lemma read_after_update D d hdr0 r :
  dev_ok (os env) d -> benign (f_sched (d_file d)) -> fits old D -> fits new D ->
  no_magic_byte old -> no_magic_byte new -> complete old false D -> complete old true D ->
  update_result new D (f_data (d_file d)) r ->
  exists hr d', LUKS2_disk_hdr_read env hdr0 false false d = Some ((0, hr), d') /\
    (same_header hr new \/ (r <> 0 /\ same_header hr old)).
Proof.
  intros Hok Hb Hfo Hfn Hm1 Hm2 Hc1 Hc2 Hu.
  assert (Hfits : forall h s D1 D2, fits h D1 -> frame new s D1 D2 -> fits h D2)
    by (intros h s D1 D2 [? ?] [Hz _]; split; lia).
  destruct Hu as [(Hr & Hf & Hres)|(D1 & (Hf1 & _) & Hcm & (Hf2 & Hres) & _)].
  - destruct Hres as [[_ E]|[[_ Ht]|Hcm]].
    + destruct (read_old d hdr0) as (hr & d' & R & S); rewrite ?E; auto. exists hr, d'. auto.
    + destruct (read_torn D d hdr0) as (hr & d' & R & S); eauto.
      * by eapply (frame_complete new old false true).
      * exists hr, d'. auto.
    + destruct (read_new d hdr0) as (hr & d' & R & S); eauto.
      left. by eapply (frame_complete new old false true).
  - assert (Hp : complete new false (f_data (d_file d))) by (by eapply (frame_complete new new true false)).
    destruct (read_new d hdr0) as (hr & d' & R & S); eauto.
    destruct Hres as [[_ ->]|[[_ [Ht _]]|Hc']]; [left|by right; right|by right; left].
    by eapply (frame_complete new old false true).
Qed.
End update.
