(* ===== verification/Luks2DiskProps.v ===== *)
(** * Luks2DiskProps: the theorems on the header on disk

    Round trip, atomicity under interrupted updates, locking, and recovery of
    a damaged copy, with witnesses on a 32 KiB device. *)

From S2P Require Import Prelude UtilsIO CryptBackend Cstd JsonC Luks2Json Luks2Keyslot Luks2Areas Luks2Validate Device Luks2Disk Luks2DiskFacts Luks2DiskWrite Luks2DiskAtomic.
From Stdlib Require Import Sorted Strings.Byte.

Section props.
Context `{JL : JsonCLaws} `{CHL : CryptHashLaws}.

Lemma complete_seqid hdr D :
  storable hdr -> hdr_size hdr <= zlen D -> complete hdr false D -> be_decode (slice 16 8 D) = seqid hdr.
Proof.
  intros H Hz Hc. destruct (storable_size _ H) as (Hs & _ & _). pose proof (wf_full_disk hdr false H) as Hw.
  pose proof (zlen_hdr_disk_bytes _ Hw) as Hzf. unfold complete, LUKS2_HDR_BIN_LEN in *. cbn [copy_offset] in Hc.
  change 16 with (0 + 16) at 1. rewrite <-(slice_slice 16 8 0 (hdr_size hdr)), Hc by lia.
  unfold copy_bytes. rewrite slice_app_l by lia.
  change (slice 16 8 (hdr_disk_bytes (full_disk hdr false)))
    with (dk_seqid (hdr_disk_of_bytes (hdr_disk_bytes (full_disk hdr false)))).
  rewrite hdr_disk_of_bytes_id, full_disk_eq by done.
  apply (proj2 (proj2 (bare_disk_numbers hdr false H))).
Qed.

Lemma next_hdr_seqid hdr : in_u 64 (seqid hdr) -> seqid hdr + 1 < 2 ^ 64 -> seqid (next_hdr hdr) = seqid hdr + 1.
Proof. unfold in_u. intros. cbn. apply u64_id. lia. Qed.

Lemma update_frame new D D' r :
  storable new -> update_result new D D' r ->
  zlen D' = zlen D /\ forall o n, 2 * hdr_size new <= o -> 0 <= n -> slice o n D' = slice o n D.
Proof.
  intros H Hu. destruct (storable_size _ H) as (Hs & _ & _).
  destruct Hu as [(_ & [Hz Hf] & _)|(D1 & ([Hz1 Hf1] & _) & _ & ([Hz Hf] & _) & _)].
  - split; [done|]. intros o n Ho Hn. apply Hf; cbn; lia.
  - split; [congruence|]. intros o n Ho Hn. rewrite Hf, Hf1; cbn; try lia; done.
Qed.

(** ** Properties *)

(** C1: Updates are atomic. The device holds two complete copies of [old];
    [LUKS2_disk_hdr_write] of [hdr] runs with any schedule of short, failing
    and interrupted transfers in which sectors of 512 bytes are written whole,
    so that it may stop at any sector. Then [LUKS2_disk_hdr_read] of what the
    device holds succeeds and returns the old header or the new one, and the
    new one if the write reported success. The hash is assumed not to produce
    an all-zero digest, and the text of the headers not to contain the byte
    0xba of the magic. *)
Theorem disk_hdr_write_atomic envw envr old hdr check dw :
  storable old -> storable (next_hdr hdr) -> hdr_size hdr = hdr_size old -> seqid hdr = seqid old ->
  seqid old + 1 < 2 ^ 64 -> digest_nonzero (cstr (checksum_alg hdr)) ->
  no_magic_byte old -> no_magic_byte hdr ->
  complete old false (f_data (d_file dw)) -> complete old true (f_data (d_file dw)) ->
  fits old (f_data (d_file dw)) -> fits hdr (f_data (d_file dw)) ->
  mem_ok envw -> dev_ready (os envw) dw -> write_lockable dw -> granular 512 (f_sched (d_file dw)) ->
  exists r hdr' dw', LUKS2_disk_hdr_write envw hdr check dw = Some ((r, hdr'), dw') /\
    forall dr hdr0, f_data (d_file dr) = f_data (d_file dw') -> mem_ok envr -> dev_ok (os envr) dr ->
      benign (f_sched (d_file dr)) ->
      exists hr dr', LUKS2_disk_hdr_read envr hdr0 false false dr = Some ((0, hr), dr') /\
        (same_header hr (next_hdr hdr) \/ (r <> 0 /\ same_header hr old)).
Proof.
  intros Ho Hn Hsz Hq Hqm Hnz Hm1 Hm2 Hc1 Hc2 Hf1 Hf2 Hmw Hrd Hlk Hg.
  destruct (disk_hdr_write_run envw hdr check dw Hn Hmw Hrd Hlk Hg) as (r & hdr' & dw' & Hw & _ & Hres & _);
    [apply Hf2|apply Hf2|].
  exists r, hdr', dw'. split; [done|]. intros dr hdr0 Hd Hmr Hok Hb.
  assert (Hlt : seqid old < seqid (next_hdr hdr)).
  { rewrite next_hdr_seqid; [lia|..]; rewrite Hq; [by apply st_seqid|done]. }
  destruct Hres as [(Hr & _ & E)|[_ Hu]].
  - destruct (read_old envr old Hmr Ho dr hdr0 Hok Hb) as (hr & dr' & R & S); rewrite ?Hd, ?E; auto.
    exists hr, dr'. auto.
  - rewrite <-Hd in Hu. by apply (read_after_update envr old (next_hdr hdr) Hmr Ho Hn Hsz Hlt Hnz
      (f_data (d_file dw)) dr hdr0 r).
Qed.

(** C2: Without hard errors [LUKS2_disk_hdr_write] returns 0, increments the
    sequence id, leaves two complete copies of the header on the device, and
    [LUKS2_disk_hdr_read] reads it back. *)
Theorem disk_hdr_write_then_read envw envr old hdr check dw :
  storable old -> storable (next_hdr hdr) -> seqid hdr = seqid old -> seqid old + 1 < 2 ^ 64 ->
  complete old false (f_data (d_file dw)) -> fits old (f_data (d_file dw)) -> fits hdr (f_data (d_file dw)) ->
  mem_ok envw -> dev_ready (os envw) dw -> write_lockable dw -> 0 <= acquire_result (os envw) DEV_LOCK_WRITE ->
  granular 512 (f_sched (d_file dw)) -> benign (f_sched (d_file dw)) ->
  exists hdr' dw', LUKS2_disk_hdr_write envw hdr check dw = Some ((0, hdr'), dw') /\
    seqid hdr' = seqid hdr + 1 /\ jobj hdr' = jobj hdr /\
    complete hdr' false (f_data (d_file dw')) /\ complete hdr' true (f_data (d_file dw')) /\
    forall dr hdr0, f_data (d_file dr) = f_data (d_file dw') -> mem_ok envr -> dev_ok (os envr) dr ->
      benign (f_sched (d_file dr)) ->
      exists hr dr', LUKS2_disk_hdr_read envr hdr0 false false dr = Some ((0, hr), dr') /\ same_header hr hdr'.
Proof.
  intros Ho Hn Hq Hqm Hc Hf1 Hf2 Hmw Hrd Hlk Hacq Hg Hb.
  destruct (disk_hdr_write_run envw hdr check dw Hn Hmw Hrd Hlk Hg) as (r & hdr' & dw' & Hw & _ & Hres & Hok & _);
    [apply Hf2|apply Hf2|].
  destruct Hok as [-> ->]; auto.
  { unfold seqid_current. destruct (storable_size _ Ho). rewrite (complete_seqid old), Hq; auto.
    destruct Hf1. lia. }
  destruct Hres as [(? & _)|[_ [[? _]|(D1 & (Hfr1 & _) & Hc1 & (Hfr2 & _) & Hc2)]]]; [done..|].
  specialize (Hc2 eq_refl).
  assert (Hp : complete (next_hdr hdr) false (f_data (d_file dw')))
    by (by eapply (frame_complete (next_hdr hdr) (next_hdr hdr) true false)).
  exists (next_hdr hdr), dw'. split; [done|].
  split; [apply next_hdr_seqid; rewrite Hq; [by apply st_seqid|done]|]. do 3 (split; [done|]).
  intros dr hdr0 Hd Hmr Hokr Hbr. apply (read_old envr (next_hdr hdr)); rewrite ?Hd; auto.
  destruct Hfr1 as [Hz1 _], Hfr2 as [Hz2 _], Hf2. split; cbn; lia.
Qed.

(** Whatever fails, [LUKS2_disk_hdr_write] violates none of the locking
    assertions, gives the write lock back exactly as it found it (nested locks
    included), and touches nothing behind the two copies of the header. *)
Theorem disk_hdr_write_lock_balance env hdr check d :
  storable (next_hdr hdr) -> mem_ok env -> dev_ready (os env) d -> write_lockable d ->
  granular 512 (f_sched (d_file d)) -> fits hdr (f_data (d_file d)) ->
  exists r hdr' d', LUKS2_disk_hdr_write env hdr check d = Some ((r, hdr'), d') /\
    d_lh d' = d_lh d /\ f_size (d_file d') = f_size (d_file d) /\
    forall o n, 2 * hdr_size hdr <= o -> 0 <= n ->
      slice o n (f_data (d_file d')) = slice o n (f_data (d_file d)).
Proof.
  intros Hn Hm Hrd Hlk Hg Hf.
  destruct (disk_hdr_write_run env hdr check d Hn Hm Hrd Hlk Hg) as (r & hdr' & d' & Hw & Hl & Hres & _);
    [apply Hf|apply Hf|].
  exists r, hdr', d'. split; [done|]. split; [done|]. unfold f_size.
  destruct Hres as [(_ & _ & E)|[_ Hu]]; [rewrite E; done|].
  exact (update_frame _ _ _ _ Hn Hu).
Qed.
End props.

(** ** A concrete device *)

#[local] Existing Instances fx_hash fx_hash_laws.

Lemma fx_digest_nonzero : digest_nonzero fx_alg.
Proof. intros m. cbn. discriminate. Qed.

Definition fx_os : os_env := OsEnv true (fun _ => 0) (fun _ => (3, 0)) false true 512 1 0x400000.
Definition fx_env : disk_env := DiskEnv fx_os false (0, zeros 64) 0 (hdr_disk_of_bytes (zeros 4096)).

Abbreviation fx_json_lib := (jtree_json [fx_small]).
Definition fx_old : @luks2_hdr fx_json_lib := fx_hdr [fx_small] 7 fx_small.

Definition fx_disk : bytes := copy_bytes fx_old false ++ copy_bytes fx_old true.
Definition fx_device (sched : list xfer) (lh : option crypt_lock_handle) : device :=
  Device (File fx_disk 0 sched) lh (-1) (-1).

Definition fx_text : bytes := bytes_of_string (jtree_print fx_small).

Ltac fx_eval := vm_compute; reflexivity.

Lemma fx_storable seqid : 0 <= seqid < 2 ^ 64 -> storable (fx_hdr [fx_small] seqid fx_small).
Proof.
  intros Hs. split;
    [reflexivity|exact Hs|left|fx_eval|fx_eval|fx_eval|fx_eval|fx_eval|fx_eval|fx_eval| |fx_eval|fx_eval].
  change (json_object_to_json_string_ext (jobj (fx_hdr [fx_small] seqid fx_small))) with fx_text.
  split; [|split; vm_compute; reflexivity]. 
  unfold no_nul. apply (bool_decide_eq_true_1 _). fx_eval.
Qed.

Lemma fx_no_magic s : no_magic_byte (fx_hdr [fx_small] s fx_small).
Proof.
  unfold no_magic_byte. change (xba ∉ fx_text). assert (E : bool_decide (xba ∈ fx_text) = false) by (vm_compute; reflexivity).
  by apply bool_decide_eq_false in E.
Qed.

Lemma fx_fits s sched lh : fits (fx_hdr [fx_small] s fx_small) (f_data (d_file (fx_device sched lh))).
Proof. split; vm_compute; discriminate. Qed.

Lemma fx_ready sched lh : dev_ready (os fx_env) (fx_device sched lh).
Proof.
  split; try reflexivity; cbn.
  - eauto.
  - discriminate.
  - split; [reflexivity|]. split; [by exists 1|by exists 8].
  - discriminate.
  - exists 64. vm_compute. reflexivity.
Qed.

Lemma fx_mem : mem_ok fx_env.
Proof. split; [discriminate|reflexivity]. Qed.

Lemma fx_complete sec sched lh : complete fx_old sec (f_data (d_file (fx_device sched lh))).
Proof. destruct sec; vm_compute; reflexivity. Qed.

(** An update that stops in the middle of the JSON area of the first copy. *)
Definition fx_crash : list xfer := [Xfer 512; Xfer 4096; Xfer 1024; Xerr EIO].

Lemma fx_crash_granular : granular 512 fx_crash.
Proof. repeat constructor; [by exists 1|by exists 8|by exists 2]. Qed.

Lemma disk_hdr_write_atomic_witness :
  exists r hdr' d', LUKS2_disk_hdr_write fx_env fx_old true (fx_device fx_crash None) = Some ((r, hdr'), d').
Proof.
  destruct (disk_hdr_write_atomic fx_env fx_env fx_old fx_old true (fx_device fx_crash None))
    as (r & hdr' & d' & Hw & _).
  - apply fx_storable. lia.
  - apply (fx_storable 8). lia.
  - reflexivity.
  - reflexivity.
  - reflexivity.
  - exact fx_digest_nonzero.
  - apply fx_no_magic.
  - apply fx_no_magic.
  - apply fx_complete.
  - apply fx_complete.
  - apply fx_fits.
  - apply fx_fits.
  - exact fx_mem.
  - apply fx_ready.
  - exact I.
  - exact fx_crash_granular.
  - exists r, hdr', d'. exact Hw.
Defined.

Lemma disk_hdr_write_then_read_witness :
  exists hdr' d', LUKS2_disk_hdr_write fx_env fx_old true (fx_device [Xfer 512] None) = Some ((0, hdr'), d') /\
    seqid hdr' = 8.
Proof.
  destruct (disk_hdr_write_then_read fx_env fx_env fx_old fx_old true (fx_device [Xfer 512] None))
    as (hdr' & d' & Hw & Hq & _).
  - apply fx_storable. lia.
  - apply (fx_storable 8). lia.
  - reflexivity.
  - reflexivity.
  - apply fx_complete.
  - apply fx_fits.
  - apply fx_fits.
  - exact fx_mem.
  - apply fx_ready.
  - exact I.
  - discriminate.
  - repeat constructor. by exists 1.
  - repeat constructor.
  - exists hdr', d'. split; [exact Hw|exact Hq].
Defined.

Lemma disk_hdr_write_lock_balance_witness :
  exists r hdr' d',
    LUKS2_disk_hdr_write fx_env fx_old false (fx_device fx_crash (Some (LockHandle 2 DEV_LOCK_WRITE))) =
      Some ((r, hdr'), d') /\ d_lh d' = Some (LockHandle 2 DEV_LOCK_WRITE).
Proof.
  destruct (disk_hdr_write_lock_balance fx_env fx_old false (fx_device fx_crash (Some (LockHandle 2 DEV_LOCK_WRITE))))
    as (r & hdr' & d' & Hw & Hl & _).
  - apply (fx_storable 8). lia.
  - exact fx_mem.
  - apply fx_ready.
  - cbn. split; [reflexivity|lia].
  - exact fx_crash_granular.
  - apply fx_fits.
  - exists r, hdr', d'. split; [exact Hw|exact Hl].
Defined.

(** * Repair of a damaged copy *)

Section recovery.
Context `{JL : JsonCLaws} `{CHL : CryptHashLaws}.
Variables (env : disk_env) (hdr hdr0 : luks2_hdr) (salt : bytes).
Hypothesis Hmem : mem_ok env.
Hypothesis Hst : storable hdr.
Hypothesis Hrandom : random_salt env = (0, salt).
Hypothesis Hsalt : zlen salt = LUKS2_SALT_L.

(** The header in memory after recovery from the good copy [good]. *)
Definition recovered (good : bool) : luks2_hdr :=
  set_jobj (hdr_from_disk (bare_disk hdr good) (set_salt (bare_disk hdr good) salt) hdr0 good) (jobj hdr).

Lemma terminated_string_field n s :
  0 < n -> zlen (cstr s) < n -> string_field n (terminated (string_field n s)) = string_field n s.
Proof.
  intros Hn Hs. pose proof (cstr_terminated_string_field n s Hn Hs) as E.
  rewrite (string_field_spec n (terminated (string_field n s))) by (rewrite ?E; done).
  rewrite E. by rewrite string_field_spec.
Qed.

Lemma recovered_same good : same_header (recovered good) hdr.
Proof. by apply from_disk_same. Qed.

Lemma recovered_storable good : storable (recovered good).
Proof.
  destruct (recovered_same good) as [E1 E2 E3 E4 E5 E6 E7 E8].
  assert (Ea : json_area_of (recovered good) = json_area_of hdr) by (unfold json_area_of; by rewrite E2, E8).
  destruct Hst. split; rewrite ?E1, ?E2, ?E3, ?E4, ?E5, ?E6, ?E7, ?E8, ?Ea; try done; by destruct good.
Qed.

(** The good copy is already the one of the recovered header. *)
Lemma recovered_bare good : bare_disk (recovered good) good = bare_disk hdr good.
Proof.
  destruct (recovered_same good) as [E1 E2 E3 _ _ _ _ _]. unfold bare_disk at 1, hdr_to_disk at 1.
  rewrite E1, E2, E3. unfold copy_offset. rewrite E2. unfold recovered, set_jobj, hdr_from_disk.
  cbn [label checksum_alg uuid subsystem salt1 salt2]. destruct Hst.
  unfold bare_disk, hdr_to_disk, copy_offset.
  cbn [dk_label dk_checksum_alg dk_uuid dk_subsystem dk_salt].
  rewrite !terminated_string_field by done. by destruct good.
Qed.

Lemma recovered_complete good D : complete hdr good D -> complete (recovered good) good D.
Proof.
  destruct (recovered_same good) as [_ E2 _ _ _ E6 _ E8].
  assert (Ea : json_area_of (recovered good) = json_area_of hdr) by (unfold json_area_of; by rewrite E2, E8).
  unfold complete, copy_bytes, full_disk, copy_offset. by rewrite recovered_bare, E2, E6, Ea.
Qed.

(** Recovery of the bad copy on a device that works. *)
Lemma recover_run good h d :
  dev_ok (os env) d -> writable d -> benign (f_sched (d_file d)) -> granular 512 (f_sched (d_file d)) ->
  2 * hdr_size hdr <= f_size (d_file d) -> complete hdr good (f_data (d_file d)) ->
  exists d', recover env hdr0 (bare_disk hdr good) h (json_area_of hdr) (negb good) true 0 d =
      Some ((0, set_salt (bare_disk hdr good) salt), d') /\
    written env d d' /\
    complete (recovered good) false (f_data (d_file d')) /\ complete (recovered good) true (f_data (d_file d')).
Proof.
  intros Hok Hw Hb Hg Hz Hc. destruct (recovered_same good) as [_ E2 _ _ _ _ _ E8].
  assert (Ea : json_area_of (recovered good) = json_area_of hdr) by (unfold json_area_of; by rewrite E2, E8).
  pose proof (recovered_storable good) as Hr. destruct (storable_size _ Hr) as (Hs & _ & _).
  destruct (hdr_write_disk_run env (recovered good) (negb good) d Hr Hok Hw Hg) as (r & d' & R & W & (Hf & _) & C & B).
  { rewrite E2. unfold copy_offset. rewrite E2. destruct good; cbn; lia. }
  specialize (B Hb) as ->. exists d'. unfold recover. rewrite Hrandom. cbn [Z.eqb negb].
  rewrite negb_involutive.
  split.
  { rewrite <-Ea. erewrite bind_run by exact R. done. }
  split; [done|]. specialize (C eq_refl). apply recovered_complete in Hc.
  assert (Hc' : complete (recovered good) good (f_data (d_file d')))
    by (eapply (frame_complete (recovered good) (recovered good) (negb good) good); [done|done|by destruct good|done|done]).
  destruct good; [exact (conj C Hc')|exact (conj Hc' C)].
Qed.

(** Reading copy [sec] of a device with these contents fails, but not with an
    I/O error. *)
Definition unreadable (sec : bool) (D : bytes) : Prop :=
  forall d old, f_data (d_file d) = D -> dev_ok (os env) d -> benign (f_sched (d_file d)) ->
    exists r h j d', hdr_read_disk env old (copy_offset hdr sec) sec d = Some ((r, h, j), d') /\
      r < 0 /\ r <> - EIO /\ dev_next d d'.

Lemma torn_unreadable other sec D :
  storable other -> hdr_size other = hdr_size hdr -> digest_nonzero (cstr (checksum_alg other)) ->
  copy_offset hdr sec + hdr_size hdr <= zlen D ->
  slice (copy_offset hdr sec) 512 D = slice 0 512 (hdr_disk_bytes (bare_disk other sec)) ->
  unreadable sec D.
Proof.
  intros Ho E Hnz Hz Hs d old HD Hok Hb.
  assert (Eo : copy_offset hdr sec = copy_offset other sec) by (unfold copy_offset; by rewrite E).
  rewrite Eo in *. rewrite <-E, <-HD in Hz. rewrite <-HD in Hs.
  destruct (hdr_read_disk_torn env d old other sec Ho Hmem Hok Hb Hnz Hz Hs) as (d' & h & j & Hn & R).
  exists (- EINVAL), h, j, d'. by repeat split; try apply Hn.
Qed.

Lemma fail_state r h j : r < 0 -> r <> - EIO -> hdr_state_of r h j = (HDR_FAIL, None).
Proof.
  intros H1 H2. unfold hdr_state_of. destruct (Z.eqb_spec r 0); [lia|]. by destruct (Z.eqb_spec r (- EIO)).
Qed.

Lemma order_fail_l s h1 h2 : order_by_seqid HDR_FAIL s h1 h2 = (HDR_FAIL, s).
Proof. unfold order_by_seqid. by rewrite bool_decide_false. Qed.

Lemma order_fail_r s h1 h2 : order_by_seqid s HDR_FAIL h1 h2 = (s, HDR_FAIL).
Proof.
  unfold order_by_seqid. rewrite (bool_decide_false (HDR_FAIL = HDR_OK)) by done. by rewrite andb_false_r.
Qed.

(** The secondary copy is bad. *)
Lemma read_recovers_secondary d :
  dev_ok (os env) d -> writable d -> benign (f_sched (d_file d)) -> granular 512 (f_sched (d_file d)) ->
  fits hdr (f_data (d_file d)) -> complete hdr false (f_data (d_file d)) -> unreadable true (f_data (d_file d)) ->
  exists d', LUKS2_disk_hdr_read env hdr0 true false d = Some ((0, recovered false), d') /\
    d_lh d' = d_lh d /\
    complete (recovered false) false (f_data (d_file d')) /\ complete (recovered false) true (f_data (d_file d')).
Proof.
  intros Hok Hw Hb Hg [Hz Har] Hc Hu.
  destruct (hdr_read_disk_complete env d (uninit env) hdr false Hst Hmem Hok Hb) as (d1 & Hn1 & R1);
    [destruct (storable_size _ Hst); cbn; unfold f_size; lia|exact Hc|].
  pose proof (dev_next_ok _ _ _ Hn1 Hok) as Hok1. pose proof (benign_next _ _ Hn1 Hb) as Hb1.
  destruct (Hu d1 (uninit env) (proj1 Hn1) Hok1 Hb1) as (r2 & h2 & j2 & d2 & R2 & Hr2 & Hne & Hn2).
  assert (Hn : dev_next d d2) by (by transitivity d1). destruct (Hn) as (Hd2 & Hl2 & Hs2).
  destruct (recover_run false h2 d2) as (d3 & R3 & W3 & C1 & C2).
  { by apply (dev_next_ok _ d). } { unfold writable. by rewrite Hl2. } { by apply Hs2. } { by apply Hs2. }
  { unfold f_size. by rewrite Hd2. } { by rewrite Hd2. }
  exists d3. split; [|split; [destruct W3 as (_ & -> & _); done|exact (conj C1 C2)]].
  unfold LUKS2_disk_hdr_read. cbn [andb]. cbn [copy_offset] in R1, R2.
  erewrite bind_run by exact R1. cbn beta match. rewrite hdr_state_complete by done. cbn beta match.
  rewrite (proj1 (proj2 (bare_disk_numbers hdr false Hst))).
  rewrite (bool_decide_false (HDR_OK = HDR_FAIL)), (bool_decide_false (HDR_OK = HDR_FAIL_IO)) by done.
  cbn [negb andb]. erewrite bind_run by exact R2. cbn beta match. rewrite fail_state by done. cbn beta match.
  rewrite order_fail_r. cbn beta match.
  rewrite (bool_decide_false (HDR_FAIL = HDR_OK)), (bool_decide_true (HDR_OK = HDR_OK)) by done.
  erewrite bind_run by (apply device_check_size_run; [apply (do_size _ _ Hok)|unfold f_size in *; by rewrite Hd2]).
  cbn [Z.eqb negb orb andb]. erewrite bind_run by (erewrite bind_run by exact R3; reflexivity). done.
Qed.

(** The primary copy is bad; nothing before the secondary one looks like it. *)
Lemma read_recovers_primary d :
  dev_ok (os env) d -> writable d -> benign (f_sched (d_file d)) -> granular 512 (f_sched (d_file d)) ->
  fits hdr (f_data (d_file d)) -> complete hdr true (f_data (d_file d)) -> unreadable false (f_data (d_file d)) ->
  (forall o, o ∈ LUKS2_HDR2_OFFSETS -> o < hdr_size hdr -> slice o 6 (f_data (d_file d)) <> LUKS2_MAGIC_2ND) ->
  exists d', LUKS2_disk_hdr_read env hdr0 true false d = Some ((0, recovered true), d') /\
    d_lh d' = d_lh d /\
    complete (recovered true) false (f_data (d_file d')) /\ complete (recovered true) true (f_data (d_file d')).
Proof.
  intros Hok Hw Hb Hg [Hz Har] Hc Hu Hno.
  destruct (Hu d (uninit env) eq_refl Hok Hb) as (r1 & h1 & j1 & d1 & R1 & Hr1 & Hne & Hn1).
  pose proof (dev_next_ok _ _ _ Hn1 Hok) as Hok1. pose proof (benign_next _ _ Hn1 Hb) as Hb1.
  destruct hdr2_offsets_sorted as [Hso Hpos].
  destruct (scan_found env LUKS2_HDR2_OFFSETS hdr (- EINVAL) (uninit env) None d1) as (d2 & Hn2 & R2);
    rewrite ?(proj1 Hn1); auto; [by apply st_hdr_size|done|unfold f_size; by rewrite (proj1 Hn1)|].
  assert (Hn : dev_next d d2) by (by transitivity d1). destruct (Hn) as (Hd2 & Hl2 & Hs2).
  destruct (recover_run true h1 d2) as (d3 & R3 & W3 & C1 & C2).
  { by apply (dev_next_ok _ d). } { unfold writable. by rewrite Hl2. } { by apply Hs2. } { by apply Hs2. }
  { unfold f_size. by rewrite Hd2. } { by rewrite Hd2. }
  exists d3. split; [|split; [destruct W3 as (_ & -> & _); done|exact (conj C1 C2)]].
  unfold LUKS2_disk_hdr_read. cbn [andb]. cbn [copy_offset] in R1.
  erewrite bind_run by exact R1. cbn beta match. rewrite fail_state by done. cbn beta match.
  rewrite (bool_decide_true (HDR_FAIL = HDR_FAIL)) by done. cbn [negb andb].
  erewrite bind_run by exact R2. cbn beta match. rewrite hdr_state_complete by done. cbn beta match.
  rewrite order_fail_l. cbn beta match.
  rewrite (bool_decide_false (HDR_FAIL = HDR_OK)), (bool_decide_true (HDR_OK = HDR_OK)) by done.
  erewrite bind_run by (apply device_check_size_run; [apply (do_size _ _ Hok)|unfold f_size in *; by rewrite Hd2]).
  cbn [Z.eqb negb orb andb]. erewrite bind_run by (erewrite bind_run by exact R3; reflexivity). done.
Qed.

(** C8: Recovery, when nothing fails. One copy cannot be read, the other one is
    complete; the device is held under the write lock and is large enough for
    both copies; no transfer fails for good, and they end at whole sectors of
    512 bytes; the random generator gives a new salt; there is memory for the
    header. libblkid is not asked for other signatures ([do_blkprobe] is off),
    and no place where a second copy is looked for below the size of the header
    holds its magic by accident. Then [LUKS2_disk_hdr_read] with [do_recovery]
    returns 0 and the header of the good copy, and rewrites the bad one:
    afterwards both copies are complete and are those of the header returned.
    Without these conditions the return code does not tell: the code also
    returns 0 when the second copy could not be written again. *)
Theorem disk_hdr_read_recovers good d :
  dev_ok (os env) d -> writable d -> benign (f_sched (d_file d)) -> granular 512 (f_sched (d_file d)) ->
  fits hdr (f_data (d_file d)) -> complete hdr good (f_data (d_file d)) ->
  unreadable (negb good) (f_data (d_file d)) ->
  (forall o, o ∈ LUKS2_HDR2_OFFSETS -> o < hdr_size hdr -> slice o 6 (f_data (d_file d)) <> LUKS2_MAGIC_2ND) ->
  exists hr d', LUKS2_disk_hdr_read env hdr0 true false d = Some ((0, hr), d') /\
    d_lh d' = d_lh d /\ same_header hr hdr /\
    complete hr false (f_data (d_file d')) /\ complete hr true (f_data (d_file d')).
Proof.
  intros Hok Hw Hb Hg Hf Hc Hu Hno. exists (recovered good). pose proof (recovered_same good) as Hs.
  destruct good.
  - destruct (read_recovers_primary d Hok Hw Hb Hg Hf Hc Hu Hno) as (d' & R & Hl & C1 & C2).
    exists d'. auto.
  - destruct (read_recovers_secondary d Hok Hw Hb Hg Hf Hc Hu) as (d' & R & Hl & C1 & C2). exists d'. auto.
Qed.
End recovery.

(** ** A torn first copy on the concrete device *)

#[local] Existing Instances fx_hash fx_hash_laws.

Definition fx_torn_disk : bytes := splice 0 (take 512 (hdr_disk_bytes (bare_disk fx_old false))) fx_disk.
Definition fx_torn_device : device :=
  Device (File fx_torn_disk 0 []) (Some (LockHandle 1 DEV_LOCK_WRITE)) (-1) (-1).

Lemma disk_hdr_read_recovers_witness :
  exists hr d', LUKS2_disk_hdr_read fx_env fx_old true false fx_torn_device = Some ((0, hr), d') /\
    same_header hr fx_old.
Proof.
  destruct (disk_hdr_read_recovers fx_env fx_old fx_old (zeros 64) fx_mem
    (fx_storable 7 ltac:(lia)) eq_refl eq_refl true fx_torn_device) as (hr & d' & R & _ & S & _).
  - apply dev_ready_ok; [|intros _; eexists; reflexivity].
    apply (dev_ready_size fx_os (fx_device [] (Some (LockHandle 1 DEV_LOCK_WRITE)))); [apply fx_ready|fx_eval].
  - reflexivity.
  - constructor.
  - constructor.
  - split; vm_compute; discriminate.
  - fx_eval.
  - apply (torn_unreadable fx_env fx_old fx_mem fx_old false);
      [apply fx_storable; lia|reflexivity|exact fx_digest_nonzero|vm_compute; discriminate|fx_eval].
  - intros o Ho Hlt. destruct (hdr2_offsets_bounds o Ho) as [Hb _]. cbn in Hlt. lia.
  - exists hr, d'. split; [exact R|exact S].
Defined.
