(* ===== verification/Luks2HdrStore.v ===== *)
(** * Luks2HdrStore: the headers on disk, as the reencryption sees them

    [Luks2Disk] writes and reads headers on a device; here it is the instance
    of the interface [HdrStore] of the reencryption, and its theorems are the
    laws [HdrStoreLaws]: a commit leaves the old or the new header to be found,
    and touches nothing behind the headers. *)

From S2P Require Import Prelude CryptBackend UtilsIO JsonC Luks2Json Luks2Keyslot Luks2Validate Device Luks2Disk Luks2DiskFacts Luks2DiskWrite Luks2DiskAtomic Luks2DiskProps Luks2ReencryptData.

Section instance.
Context `{JC : JsonC} `{CH : CryptHash}.
Variable env : disk_env.

(** A device that is not locked or open yet, and one that is locked. *)
Definition closed (f : file) : device := Device f None (-1) (-1).
Definition locked_read (f : file) : device := Device f (Some (LockHandle 1 DEV_LOCK_READ)) (-1) (-1).

(** What [LUKS2_hdr_read] fills in is determined when it succeeds; the header
    it starts from is not initialised. *)
Definition blank_hdr : luks2_hdr := Luks2Hdr _ 0 0 0 [] [] [] [] [] [] json_object_new_object.

(** The operations on a file whose device is not open; [None] is a failed
    assertion: not reached ([write_lock_spec], [hdr_write_spec]). *)
Definition device_write_lock_hdr (hdr : luks2_hdr) (f : file) : Z * file :=
  match LUKS2_device_write_lock env hdr (closed f) with
  | Some (r, d) => (r, d_file d)
  | None => (- EINVAL, f)
  end.

Definition LUKS2_hdr_write (hdr : luks2_hdr) (f : file) : Z * luks2_hdr * file :=
  let hdr := LUKS2_digests_erase_unused hdr in
  if negb (LUKS2_hdr_validate (jobj hdr) (hdr_size hdr -64 LUKS2_HDR_BIN_LEN) =? 0) then (- EINVAL, hdr, f)
  else match LUKS2_disk_hdr_write env hdr true (closed f) with
       | Some ((r, hdr), d) => (r, hdr, d_file d)
       | None => (- EINVAL, hdr, f)
       end.

Definition LUKS2_hdr_read (D : bytes) : option luks2_hdr :=
  match LUKS2_disk_hdr_read env blank_hdr false false (locked_read (File D 0 [])) with
  | Some ((r, hdr), _) => if r =? 0 then Some hdr else None
  | None => None
  end.

#[export] Instance disk_store : HdrStore := {
  Luks2ReencryptData.hdr_write_lock := device_write_lock_hdr;
  Luks2ReencryptData.LUKS2_hdr_write := LUKS2_hdr_write;
  Luks2ReencryptData.LUKS2_hdr_read := LUKS2_hdr_read;
}.
End instance.

(** ** Results are never positive *)

Definition nonpos (m : M Z) : Prop := forall d r d', m d = Some (r, d') -> r <= 0.

Section nonpos.
Context `{JC : JsonC} `{CH : CryptHash}.
Variable env : disk_env.

Lemma write_lock_nonpos hdr : nonpos (LUKS2_device_write_lock env hdr).
Proof.
  intros d r d'. unfold LUKS2_device_write_lock. intros (r0 & d0 & _ & H)%bind_inv.
  destruct (Z.ltb_spec r0 0); [injection H as <- _; lia|].
  destruct (_ && _); [|by injection H as <- _]. apply bind_inv in H as (c & d1 & _ & H).
  destruct (negb _); [|by injection H as <- _]. apply bind_inv in H as (u & d2 & _ & H). injection H as <- _.
  unfold EINVAL. lia.
Qed.

Lemma hdr_write_disk_nonpos hdr area sec : nonpos (hdr_write_disk env hdr area sec).
Proof.
  intros d r d'. unfold hdr_write_disk. intros (fd & d0 & _ & H)%bind_inv.
  destruct (Z.ltb_spec fd 0).
  { injection H as <- _. destruct (fd =? -1); unfold EINVAL; lia. }
  apply bind_inv in H as (w & d1 & _ & H). destruct (w <? _); [injection H as <- _; unfold EIO; lia|].
  apply bind_inv in H as (w2 & d2 & _ & H). destruct (w2 <? _); [injection H as <- _; unfold EIO; lia|].
  unfold hdr_checksum_calculate in H. destruct (_ <=? 0); [injection H as <- _; unfold EINVAL; lia|].
  cbn [Z.ltb Z.compare] in H. apply bind_inv in H as (w3 & d3 & _ & H). apply bind_inv in H as (u & d4 & _ & H).
  injection H as <- _. destruct (_ <? _); unfold EIO; lia.
Qed.

Lemma disk_hdr_write_nonpos hdr d r h d' : LUKS2_disk_hdr_write env hdr true d = Some ((r, h), d') -> r <= 0.
Proof.
  unfold LUKS2_disk_hdr_write. destruct (negb _); [intros [= <- _ _]; unfold EINVAL; lia|].
  intros (r0 & d0 & H0 & H)%bind_inv. destruct (Z.eqb_spec r0 0); cbn [negb] in H.
  2: { injection H as <- _ _. unfold device_check_size in H0. apply bind_inv in H0 as ([r1 s1] & d1 & _ & H0).
       destruct (negb _); [injection H0 as <- _; unfold EIO; lia|]. destruct (_ <? _); [|by injection H0 as <- _].
       apply bind_inv in H0 as (r2 & d2 & _ & H0). destruct (_ =? _); injection H0 as <- _; unfold EINVAL; lia. }
  destruct (_ <? _); [injection H as <- _ _; unfold ENOMEM; lia|].
  destruct (_ =? _); [injection H as <- _ _; unfold ENOMEM; lia|].
  destruct (_ <? _); [injection H as <- _ _; unfold EINVAL; lia|].
  apply bind_inv in H as (r1 & d1 & H1 & H). destruct (Z.ltb_spec r1 0); [injection H as <- _ _; lia|].
  apply bind_inv in H as (r2 & d2 & G2 & H). apply bind_inv in H as (r3 & d3 & G3 & H).
  apply bind_inv in H as (u & d4 & _ & H). injection H as <- _ _.
  destruct (Z.eqb_spec r2 0); [by eapply hdr_write_disk_nonpos|]. injection G3 as <- _. by eapply hdr_write_disk_nonpos.
Qed.
End nonpos.

(** ** The laws *)

Section laws.
Context `{JL : JsonCLaws} `{CHL : CryptHashLaws}.
Variables (env : disk_env) (hs : Z).

(** The device works: transfers may still fail. *)
Record env_ok : Prop := {
  eo_mem : mem_ok env;
  eo_open : forall m, 0 <= fst (open_result (os env) m);
  eo_verify : verify_fails (os env) = false;
  eo_size : size_known (os env) = true;
  eo_block : 0 < env_block_size (os env) /\ (512 | env_block_size (os env)) /\ (env_block_size (os env) | 4096);
  eo_align : env_alignment (os env) <> 0;
  eo_lock : 0 <= acquire_result (os env) DEV_LOCK_WRITE;
}.
Hypothesis Henv : env_ok.

Lemma env_dev_ok f lh : (locking_enabled (os env) = true -> is_Some lh) -> (env_block_size (os env) | f_size f) ->
  dev_ok (os env) (Device f lh (-1) (-1)).
Proof. destruct Henv. intros Hl Hd. by split. Qed.

Lemma env_dev_ready f : (env_block_size (os env) | f_size f) -> dev_ready (os env) (closed f).
Proof. intros. apply env_dev_ok; cbn; eauto. Qed.

(** A header that can be stored and found again. *)
Record good_hdr (h : luks2_hdr) (size : Z) : Prop := {
  gh_storable : storable h;
  gh_size : hdr_size h = hs;
  gh_magic : no_magic_byte h;
  gh_nonzero : digest_nonzero (cstr (checksum_alg h));
  gh_fits : 2 * hdr_size h <= size /\ LUKS2_hdr_and_areas_size_jobj (jobj h) <= size;
  gh_blocks : (env_block_size (os env) | size);
}.

Definition disk_ready (h : luks2_hdr) (D : bytes) : Prop :=
  good_hdr h (zlen D) /\ complete h false D /\ complete h true D.

Definition successor (old new : luks2_hdr) (size : Z) : Prop :=
  good_hdr old size /\ good_hdr new size /\ seqid old < seqid new.

(** Both copies are there, or the first is torn and the second the old one,
    or the first is new. *)
Definition disk_holds (h : luks2_hdr) (D : bytes) : Prop :=
  disk_ready h D \/
  (exists new D0, successor h new (zlen D) /\ zlen D0 = zlen D /\ complete h false D0 /\ torn new false D0 D /\ complete h true D) \/
  (exists old, successor old h (zlen D) /\ complete h false D /\
     (complete old true D \/ complete h true D \/
      slice (hdr_size h) 512 D = slice 0 512 (hdr_disk_bytes (bare_disk h true)))).

Definition disk_next (hdr : luks2_hdr) : luks2_hdr := next_hdr (LUKS2_digests_erase_unused hdr).

Definition disk_follows (old hdr : luks2_hdr) (size : Z) : Prop :=
  seqid hdr = seqid old /\ seqid old + 1 < 2 ^ 64 /\ good_hdr (disk_next hdr) size.

Lemma local_slice (D D' : bytes) o n :
  slice 0 (2 * hs) D' = slice 0 (2 * hs) D -> 0 <= o -> 0 <= n -> o + n <= 2 * hs -> slice o n D' = slice o n D.
Proof.
  intros E Ho Hn Hin. pose proof (slice_slice o n 0 (2 * hs) D' Ho Hn ltac:(lia) Hin) as H.
  rewrite E, slice_slice in H by lia. by rewrite Z.add_0_l in H.
Qed.

Lemma complete_local h sec D D' size :
  good_hdr h size -> slice 0 (2 * hs) D' = slice 0 (2 * hs) D -> complete h sec D -> complete h sec D'.
Proof.
  intros Hg E. unfold complete. destruct (storable_size _ (gh_storable _ _ Hg)). pose proof (gh_size _ _ Hg).
  rewrite (local_slice D D'); [done|done|destruct sec; cbn; lia..].
Qed.

Lemma holds_local h D D' :
  disk_holds h D -> zlen D' = zlen D -> slice 0 (2 * hs) D' = slice 0 (2 * hs) D -> disk_holds h D'.
Proof.
  intros H Hz E. unfold disk_holds, disk_ready. rewrite Hz. destruct H as [(Hg & H1 & H2)|[(new & D0 & Hs & Hz0 & Hc0 & Ht & Hc)|(old & Hs & Hc & Ho)]].
  - left. split; [done|]. split; by eapply complete_local.
  - right. left. exists new, D0. pose proof Hs as (Hgh & Hgn & _). split; [done|]. split; [done|]. split; [done|].
    split; [|by eapply complete_local].
    destruct (storable_size _ (gh_storable _ _ Hgn)). pose proof (gh_size _ _ Hgn).
    destruct Ht as [Ht1 [k Ht2]]. unfold torn, json_region, LUKS2_HDR_BIN_LEN in *. cbn [copy_offset] in *.
    rewrite !(local_slice D D') by (done || lia). split; [done|]. by exists k.
  - right. right. exists old. pose proof Hs as (Hgo & Hgh & _). split; [done|].
    split; [by eapply complete_local|]. destruct Ho as [Ho|[Ho|Ho]]; [left|right; left|right; right].
    + by eapply complete_local.
    + by eapply complete_local.
    + destruct (storable_size _ (gh_storable _ _ Hgh)). pose proof (gh_size _ _ Hgh).
      by rewrite (local_slice D D') by (done || lia).
Qed.

(** What is held is found. *)
Lemma holds_found h D : disk_holds h D ->
  exists hr d, LUKS2_disk_hdr_read env blank_hdr false false (locked_read (File D 0 [])) = Some ((0, hr), d) /\ same_header hr h.
Proof.
  assert (Hok : (env_block_size (os env) | zlen D) -> dev_ok (os env) (locked_read (File D 0 [])))
    by (intros; apply env_dev_ok; eauto).
  assert (Hb : benign (f_sched (d_file (locked_read (File D 0 []))))) by constructor.
  intros [(Hg & H1 & H2)|[(new & D0 & (Hgh & Hgn & Hlt) & Hz0 & Hc0 & Ht & Hc)|(old & (Hgo & Hgh & Hlt) & Hc & Ho)]].
  - destruct (read_old env h (eo_mem Henv) (gh_storable _ _ Hg) (locked_read (File D 0 [])) blank_hdr) as (hr & d & R & S);
      try done; [apply Hok, Hg|apply Hg|]. eauto.
  - destruct (read_torn env h new (eo_mem Henv) (gh_storable _ _ Hgh) (gh_storable _ _ Hgn)) with (D := D0)
      (d := locked_read (File D 0 [])) (hdr0 := blank_hdr) as (hr & d & R & S); try done; try apply Hgh; try apply Hgn; eauto.
    + by rewrite (gh_size _ _ Hgh), (gh_size _ _ Hgn).
    + apply Hok, Hgh.
    + split; rewrite Hz0; apply Hgh.
  - destruct (read_new env old h (eo_mem Henv) (gh_storable _ _ Hgo) (gh_storable _ _ Hgh)) with
      (d := locked_read (File D 0 [])) (hdr0 := blank_hdr) as (hr & d & R & S); try done; try apply Hgh; try apply Hgo; eauto.
    + by rewrite (gh_size _ _ Hgh), (gh_size _ _ Hgo).
    + apply Hok, Hgh.
Qed.

Lemma disk_next_seqid old hdr size :
  good_hdr old size -> disk_follows old hdr size -> seqid old < seqid (disk_next hdr).
Proof.
  intros Hg (Hq & Hlt & _). pose proof (st_seqid _ (gh_storable _ _ Hg)) as Hs. unfold disk_next.
  assert (Eq : seqid (LUKS2_digests_erase_unused hdr) = seqid hdr).
  { unfold LUKS2_digests_erase_unused. repeat case_match; done. }
  rewrite next_hdr_seqid; rewrite Eq, Hq; [lia|done|done].
Qed.

Lemma ready_seqid old hdr D :
  disk_ready old D -> disk_follows old hdr (zlen D) -> seqid_current (LUKS2_digests_erase_unused hdr) D.
Proof.
  intros (Hg & Hc & _) (Hq & _). unfold seqid_current. destruct (storable_size _ (gh_storable _ _ Hg)).
  destruct (gh_fits _ _ Hg) as [Hf _]. rewrite (complete_seqid old); [|apply Hg|lia|done].
  unfold LUKS2_digests_erase_unused. repeat case_match; done.
Qed.

(** What an update leaves holds the old or the new header. *)
Lemma update_holds old new D D' r :
  disk_ready old D -> good_hdr new (zlen D) -> seqid old < seqid new -> update_result new D D' r ->
  zlen D' = zlen D /\ (r = 0 -> disk_ready new D') /\ (disk_holds old D' \/ disk_holds new D').
Proof.
  intros (Hgo & Hc1 & Hc2) Hgn Hlt Hu. destruct (update_frame _ _ _ _ (gh_storable _ _ Hgn) Hu) as [Hz _].
  split; [done|]. assert (Hsz : hdr_size new = hdr_size old) by (by rewrite (gh_size _ _ Hgn), (gh_size _ _ Hgo)).
  pose proof (gh_storable _ _ Hgn) as Hsn.
  assert (Hsucc : successor old new (zlen D')) by (unfold successor; rewrite Hz; done).
  destruct Hu as [(Hr & Hf & Hres)|(D1 & (Hf1 & _) & Hcm & (Hf2 & Hres) & H0)].
  - split; [lia|]. destruct Hres as [[_ ->]|[[_ Ht]|Hcm]].
    + left. left. done.
    + left. right. left. exists new, D. repeat (split; [done|]). by eapply (frame_complete new old false true).
    + right. right. right. exists old. split; [done|]. split; [done|]. left.
      by eapply (frame_complete new old false true).
  - assert (Hp : complete new false D') by (by eapply (frame_complete new new true false)).
    split; [intros E; split; [by rewrite Hz|auto]|]. right. right. right. exists old. split; [done|]. split; [done|].
    destruct Hres as [[_ ->]|[[_ [Ht _]]|Hc']]; [left|by right; right|by right; left].
    by eapply (frame_complete new old false true).
Qed.

Lemma disk_write_lock_spec old hdr f r f' :
  disk_ready old (f_data f) -> disk_follows old hdr (f_size f) -> device_write_lock_hdr env hdr f = (r, f') ->
  f_data f' = f_data f /\ sched_le f f' /\ r <= 0 /\ (benign (f_sched f) -> r = 0).
Proof.
  intros Hr Hf. unfold device_write_lock_hdr. destruct (lock_for_update_run env true hdr (closed f)) as (r1 & d' & R & Hd & Hs & _ & Hb);
    [apply env_dev_ready; apply Hr|exact I|]. cbn beta match in R. rewrite R. intros [= <- <-].
  split; [done|]. split; [done|]. pose proof (write_lock_nonpos env hdr _ _ _ R). split; [done|]. intros Hbn.
  assert (0 <= r1); [|lia]. pose proof (eo_lock Henv). apply Hb; auto; cbn.
  - destruct Hr as (Hg & _). destruct (storable_size _ (gh_storable _ _ Hg)). destruct (gh_fits _ _ Hg). unfold f_size. lia.
  - pose proof (ready_seqid _ _ _ Hr Hf) as Hq. unfold seqid_current in *.
    unfold LUKS2_digests_erase_unused in Hq. repeat case_match; done.
Qed.

Lemma disk_hdr_write_spec old hdr f r hdr' f' :
  disk_ready old (f_data f) -> disk_follows old hdr (f_size f) -> granular 512 (f_sched f) ->
  LUKS2_hdr_write env hdr f = (r, hdr', f') ->
  sched_le f f' /\ zlen (f_data f') = zlen (f_data f) /\
  (forall o n, 2 * hs <= o -> 0 <= n -> slice o n (f_data f') = slice o n (f_data f)) /\
  r <= 0 /\ (benign (f_sched f) -> r = 0) /\
  (r = 0 -> hdr' = disk_next hdr /\ disk_ready hdr' (f_data f')) /\
  (disk_holds old (f_data f') \/ disk_holds (disk_next hdr) (f_data f')).
Proof.
  intros Hr Hf Hg. pose proof Hf as (Hq & Hlt & Hgn). pose proof Hr as (Hgo & _). unfold LUKS2_hdr_write.
  destruct (storable_size _ (gh_storable _ _ Hgn)) as (_ & _ & E64). pose proof (st_valid _ (gh_storable _ _ Hgn)) as Hv.
  unfold disk_next in E64, Hv. cbn [next_hdr set_seqid hdr_size jobj] in E64, Hv. rewrite E64, Hv. cbn [Z.eqb negb].
  destruct (disk_hdr_write_run env (LUKS2_digests_erase_unused hdr) true (closed f)) as (r1 & h1 & d1 & R & _ & Hres & Hb & Hs);
    [apply Hgn|apply Henv|apply env_dev_ready, Hr|exact I|exact Hg|apply Hgn|apply Hgn|].
  rewrite R. intros [= <- <- <-]. cbn [d_file closed] in *. split; [done|].
  assert (Hbn : benign (f_sched f) -> r1 = 0).
  { intros Hbn. apply Hb; [done|by apply (ready_seqid old)|apply Henv]. }
  pose proof (disk_hdr_write_nonpos env _ _ _ _ _ R) as Hnp. destruct Hres as [(Hne & _ & ->)|[-> Hu]].
  - split; [done|]. split; [done|]. split; [done|]. split; [done|]. split; [done|]. left. by left.
  - pose proof (update_frame _ _ _ _ (gh_storable _ _ Hgn) Hu) as [Hz Hk].
    destruct (update_holds old (disk_next hdr) _ _ r1 Hr Hgn (disk_next_seqid _ _ _ Hgo Hf) Hu) as (_ & Hok & Hh).
    split; [done|]. split; [intros; apply Hk; rewrite ?(gh_size _ _ Hgn); lia|]. split; [done|]. split; [done|].
    split; [|done]. intros E. split; [done|]. by apply Hok.
Qed.

Definition disk_store_laws (Hhs : 0 <= hs) : @HdrStoreLaws _ (disk_store env).
Proof.
  refine {| hdr_end := 2 * hs; ready := disk_ready; holds := disk_holds; follows := disk_follows; next_header := disk_next |}.
  - lia.
  - intros h D H. by left.
  - intros h D H. destruct (holds_found h D H) as (hr & d & R & S). cbn. unfold LUKS2_hdr_read. rewrite R. cbn. by rewrite (sh_jobj _ _ S).
  - exact holds_local.
  - intros h D D' (Hg & H1 & H2) Hz E. split; [by rewrite Hz|]. split; by eapply complete_local.
  - exact disk_write_lock_spec.
  - exact disk_hdr_write_spec.
Defined.
End laws.
