(* ===== verification/Luks2KeyslotIo.v ===== *)
(** * Luks2KeyslotIo: keys in LUKS2 keyslots

    Storing and opening volume keys: the keyslot's area
    (lib/luks2/luks2_keyslot_luks2.c), the choice of a keyslot, its opening
    with the check of the digest, storing and wiping (luks2_keyslot.c), the
    verification of digests (luks2_digest.c, luks2_digest_pbkdf2.c), and the
    header's reading and writing with its locks (luks2_json_metadata.c). The
    build uses the kernel's or the back end's ciphers (ENABLE_AF_ALG). Key
    derivation is the class [CryptPbkdf]. *)

From S2P Require Import Prelude UtilsIO CryptBackend UtilsCrypt CryptStorage Base64 Cstd JsonC Luks2Json Luks2Keyslot Luks2Edit Luks2Areas Luks2Validate Device Wipe AF KeyEncryption Luks1 Luks2Format Luks2Reencrypt Luks2Disk Pbkdf.
From Stdlib Require Import Strings.Byte.

#[local] Notation LUKS_SALTSIZE := Luks2Format.LUKS_SALTSIZE.

Definition MIN_MEMORY_FOR_SERIALIZE_LOCK_KB : Z := 32 * 1024.

(** [if (!o) return e;] *)
Notation "'need' x 'from' o 'else' e 'in' k" := (match o with Some x => k | None => e end)
  (at level 200, x binder, o at level 100, e at level 100, k at level 200, only parsing) : cs_scope.
#[local] Open Scope cs_scope.

(** What the operations of one context draw from outside. *)
Record keys_env := KeysEnv {
  ky_disk : disk_env;
  ky_wipe : wipe_env;
  ky_kdf : kdf_env;
  (** random bytes for the anti-forensic stripes *)
  ky_stripes : random_source;
  (** [crypt_serialize_lock] *)
  ky_serialize : Z;
}.

Section keys.
Context `{JC : JsonC} `{CH : CryptHash} `{CC : CryptCipher} `{CP : CryptPbkdf}.

(** json-c: 0 for what is not a string *)
Definition json_object_get_string_len (j : json) : Z :=
  if json_object_is_type j json_type_string then Z.of_nat (String.length (json_object_get_string j)) else 0.

(** The characters of a string of JSON, as the decoder is given them. *)
Definition json_text (j : json) : bytes :=
  take (Z.to_nat (json_object_get_string_len j)) (bytes_of_string (json_object_get_string j)).

Section io.
Variable env : keys_env.
Let os : os_env := os (ky_disk env).

(** ** Headers with their locks *)

Definition hdr_cleanup_and_validate (hdr : luks2_hdr) : Z * luks2_hdr :=
  let hdr := LUKS2_digests_erase_unused hdr in
  (LUKS2_hdr_validate (jobj hdr) (hdr_size hdr -64 LUKS2_HDR_BIN_LEN), hdr).

Definition LUKS2_hdr_write_force (hdr : luks2_hdr) : M (Z * luks2_hdr) :=
  let '(r, hdr) := hdr_cleanup_and_validate hdr in
  if negb (r =? 0) then mret (- EINVAL, hdr) else LUKS2_disk_hdr_write (ky_disk env) hdr false.

Definition LUKS2_hdr_write (hdr : luks2_hdr) : M (Z * luks2_hdr) :=
  let '(r, hdr) := hdr_cleanup_and_validate hdr in
  if negb (r =? 0) then mret (- EINVAL, hdr) else LUKS2_disk_hdr_write (ky_disk env) hdr true.

Definition LUKS2_hdr_read (hdr : luks2_hdr) (repair : bool) : M (Z * luks2_hdr) :=
  r ← device_read_lock os;
  if negb (r =? 0) then mret (r, hdr)
  else
    '(r, hdr) ← LUKS2_disk_hdr_read (ky_disk env) hdr true (negb repair);
    if r =? - EAGAIN then
      _ ← device_read_unlock os;
      r ← device_write_lock os;
      if r <? 0 then mret (r, hdr)
      else
        '(r, hdr) ← LUKS2_disk_hdr_read (ky_disk env) hdr true (negb repair);
        _ ← device_write_unlock os;
        mret (r, hdr)
    else
      _ ← device_read_unlock os;
      mret (r, hdr).

(** ** The key material on the device *)

Definition luks2_encrypt_to_storage (src : bytes) (srcLength : Z) (cipher cipher_mode : string) (vk : bytes) (sector : Z) : M Z :=
  if negb (MISALIGNED_512 srcLength =? 0) then mret (- EINVAL)
  else match crypt_storage_init SECTOR_SIZE cipher cipher_mode vk false with
  | inl r => mret r
  | inr s =>
      let '(r, src) := crypt_storage_encrypt s 0 srcLength src in
      if negb (r =? 0) then mret r
      else
        devfd ← device_open_locked os O_RDWR;
        if 0 <=? devfd then
          w ← dev_write os devfd src srcLength (sector_offset sector);
          _ ← device_sync;
          mret (if w <? 0 then - EIO else 0)
        else mret (- EIO)
  end.

Definition luks2_decrypt_from_storage (dstLength : Z) (cipher cipher_mode : string) (vk : bytes) (sector : Z) : M (Z * bytes) :=
  if negb (MISALIGNED_512 dstLength =? 0) then mret (- EINVAL, [])
  else match crypt_storage_init SECTOR_SIZE cipher cipher_mode vk false with
  | inl r => mret (r, [])
  | inr s =>
      r ← device_read_lock os;
      if negb (r =? 0) then mret (r, [])
      else
        devfd ← device_open_locked os O_RDONLY;
        '(r, dst) ← (if 0 <=? devfd then
                       '(n, dst) ← dev_read os devfd dstLength (sector_offset sector);
                       mret (if n <? 0 then - EIO else 0, dst)
                     else mret (- EIO, []));
        _ ← device_read_unlock os;
        mret (if r =? 0 then crypt_storage_decrypt s 0 dstLength dst else (r, dst))
  end.

(** ** Keys in keyslots *)

(** Salts and digests are base64 in the header. *)
Definition decode_salt (j : json) : option bytes :=
  let '(ok, salt) := base64_decode (json_text j) LUKS_SALTSIZE in
  if ok && (zlen salt =? LUKS_SALTSIZE) then Some salt else None.

Definition kdf_int (jobj_kdf : json) (key : string) : option Z :=
  json_object_get_int <$> json_object_object_get_ex jobj_kdf key.

(** The parameters of a keyslot's derivation without its salt. *)
Definition kdf_params (jobj_kdf : json) : option crypt_pbkdf_type :=
  jobj1 ← json_object_object_get_ex jobj_kdf "type";
  let type := json_object_get_string jobj1 in
  if bool_decide (type = CRYPT_KDF_PBKDF2) then
    jobj2 ← json_object_object_get_ex jobj_kdf "hash";
    iterations ← kdf_int jobj_kdf "iterations";
    Some (PbkdfType (Some type) (Some (json_object_get_string jobj2)) 0 (u32 iterations) 0 0 0)
  else
    time ← kdf_int jobj_kdf "time";
    memory ← kdf_int jobj_kdf "memory";
    cpus ← kdf_int jobj_kdf "cpus";
    Some (PbkdfType (Some type) None 0 (u32 time) (u32 memory) (u32 cpus) 0).

(** [None] is the error -EINVAL. *)
Definition luks2_keyslot_get_pbkdf_params (jobj_keyslot : json) : option (crypt_pbkdf_type * bytes) :=
  jobj_kdf ← json_object_object_get_ex jobj_keyslot "kdf";
  pbkdf ← kdf_params jobj_kdf;
  jobj2 ← json_object_object_get_ex jobj_kdf "salt";
  salt ← decode_salt jobj2;
  Some (pbkdf, salt).

(** crypt_pbkdf with the parameters of a keyslot *)
Definition derive_key (pbkdf : crypt_pbkdf_type) (password salt : bytes) (keylength : Z) : Z * bytes :=
  crypt_pbkdf (default EmptyString (p_type pbkdf)) (bytes_of_string (default EmptyString (p_hash pbkdf))) password salt keylength
    (p_iterations pbkdf) (p_max_memory_kb pbkdf) (p_parallel_threads pbkdf).

Definition luks2_keyslot_set_key (jobj_keyslot : json) (password volume_key : bytes) : M Z :=
  let volume_key_len := zlen volume_key in
  need jobj_kdf from json_object_object_get_ex jobj_keyslot "kdf" else mret (- EINVAL) in
  need jobj_af from json_object_object_get_ex jobj_keyslot "af" else mret (- EINVAL) in
  need jobj_area from json_object_object_get_ex jobj_keyslot "area" else mret (- EINVAL) in
  need jobj2 from json_object_object_get_ex jobj_keyslot "key_size" else mret (- EINVAL) in
  if negb (json_object_get_int jobj2 =? i32 volume_key_len) then mret (- EINVAL)
  else
    need jobj2 from json_object_object_get_ex jobj_area "offset" else mret (- EINVAL) in
    let area_offset := crypt_jobj_get_uint64 jobj2 in
    need jobj2 from json_object_object_get_ex jobj_area "encryption" else mret (- EINVAL) in
    match crypt_parse_name_and_mode (json_object_get_string jobj2) false with
    | inl r => mret r
    | inr c =>
        need jobj2 from json_object_object_get_ex jobj_area "key_size" else mret (- EINVAL) in
        let keyslot_key_len := u64 (json_object_get_int jobj2) in
        need jobj2 from json_object_object_get_ex jobj_af "hash" else mret (- EINVAL) in
        let af_hash := bytes_of_string (json_object_get_string jobj2) in
        need params from luks2_keyslot_get_pbkdf_params jobj_keyslot else mret (- EINVAL) in
        let '(pbkdf, salt) := params in
        if alloc_fails os keyslot_key_len then mret (- ENOMEM)
        else
          let '(r, derived_key) := derive_key pbkdf password salt keyslot_key_len in
          if r <? 0 then mret r
          else
            let AFEKSize := AF_split_sectors volume_key_len LUKS_STRIPES *64 SECTOR_SIZE in
            if safe_alloc_fails os AFEKSize then mret (- ENOMEM)
            else
              let '(r, AfKey) := AF_split (ky_stripes env) volume_key (zeros (Z.to_nat AFEKSize)) volume_key_len LUKS_STRIPES af_hash in
              r ← (if r =? 0 then
                     luks2_encrypt_to_storage AfKey AFEKSize (cipher c) (cipher_mode c) derived_key (u32 (area_offset / SECTOR_SIZE))
                   else mret r);
              mret (if r <? 0 then r else 0)
    end.

(** Code and volume key. The lock that serialises memory-hard derivations is
    not part of the state. *)
Definition luks2_keyslot_get_key (jobj_keyslot : json) (password : bytes) (volume_key_len : Z) : M (Z * bytes) :=
  let err r := mret (r, []) in
  need jobj_af from json_object_object_get_ex jobj_keyslot "af" else err (- EINVAL) in
  need jobj_area from json_object_object_get_ex jobj_keyslot "area" else err (- EINVAL) in
  need params from luks2_keyslot_get_pbkdf_params jobj_keyslot else err (- EINVAL) in
  let '(pbkdf, salt) := params in
  need jobj2 from json_object_object_get_ex jobj_af "hash" else err (- EINVAL) in
  let af_hash := bytes_of_string (json_object_get_string jobj2) in
  need jobj2 from json_object_object_get_ex jobj_area "offset" else err (- EINVAL) in
  let area_offset := crypt_jobj_get_uint64 jobj2 in
  need jobj2 from json_object_object_get_ex jobj_area "encryption" else err (- EINVAL) in
  match crypt_parse_name_and_mode (json_object_get_string jobj2) false with
  | inl r => err r
  | inr c =>
      need jobj2 from json_object_object_get_ex jobj_area "key_size" else err (- EINVAL) in
      let keyslot_key_len := u64 (json_object_get_int jobj2) in
      let try_serialize_lock := MIN_MEMORY_FOR_SERIALIZE_LOCK_KB <? p_max_memory_kb pbkdf in
      if try_serialize_lock && negb (ky_serialize env =? 0) then err (- EINVAL)
      else if alloc_fails os keyslot_key_len then err (- ENOMEM)
      else
        let AFEKSize := AF_split_sectors volume_key_len LUKS_STRIPES *64 SECTOR_SIZE in
        if safe_alloc_fails os AFEKSize then err (- ENOMEM)
        else
          let '(r, derived_key) := derive_key pbkdf password salt keyslot_key_len in
          '(r, AfKey) ← (if r =? 0 then
                           luks2_decrypt_from_storage AFEKSize (cipher c) (cipher_mode c) derived_key (u32 (area_offset / SECTOR_SIZE))
                         else mret (r, []));
          mret (if r =? 0 then AF_merge AfKey (zeros (Z.to_nat volume_key_len)) volume_key_len LUKS_STRIPES af_hash else (r, []))
  end.

Definition luks2_keyslot_open (hdr : luks2_hdr) (keyslot : Z) (password : bytes) (volume_key_len : Z) : M (Z * bytes) :=
  need jobj_keyslot from LUKS2_get_keyslot_jobj hdr keyslot else mret (- EINVAL, []) in
  luks2_keyslot_get_key jobj_keyslot password volume_key_len.

Definition luks2_keyslot_store (hdr : luks2_hdr) (keyslot : Z) (password volume_key : bytes) : M (Z * luks2_hdr) :=
  need jobj_keyslot from LUKS2_get_keyslot_jobj hdr keyslot else mret (- EINVAL, hdr) in
  r ← LUKS2_device_write_lock (ky_disk env) hdr;
  if negb (r =? 0) then mret (r, hdr)
  else
    r ← luks2_keyslot_set_key jobj_keyslot password volume_key;
    '(r, hdr) ← (if r =? 0 then LUKS2_hdr_write hdr else mret (r, hdr));
    _ ← device_write_unlock os;
    mret (if r <? 0 then r else keyslot, hdr).
End io.

(** ** Digests *)

(** The only handler is pbkdf2. *)
Definition LUKS2_digest_handler (hdr : luks2_hdr) (digest : Z) : bool :=
  if digest <? 0 then false
  else match LUKS2_get_digest_jobj hdr digest with
  | None => false
  | Some jobj1 =>
      match json_object_object_get_ex jobj1 "type" with
      | None => false
      | Some jobj2 => bool_decide (json_object_get_string jobj2 = "pbkdf2"%string)
      end
  end.

Definition PBKDF2_digest_verify (hdr : luks2_hdr) (digest : Z) (volume_key : bytes) : Z :=
  need jobj_digest from LUKS2_get_digest_jobj hdr digest else - EINVAL in
  need jobj1 from json_object_object_get_ex jobj_digest "hash" else - EINVAL in
  let hashSpec := bytes_of_string (json_object_get_string jobj1) in
  need jobj1 from json_object_object_get_ex jobj_digest "iterations" else - EINVAL in
  let mkDigestIterations := u32 (json_object_get_int64 jobj1).1 in
  need jobj1 from json_object_object_get_ex jobj_digest "salt" else - EINVAL in
  need mkDigestSalt from decode_salt jobj1 else - EINVAL in
  need jobj1 from json_object_object_get_ex jobj_digest "digest" else - EINVAL in
  need mkDigest from base64_decode_alloc (json_text jobj1) else - EINVAL in
  let len := zlen mkDigest in
  if (len <? LUKS_DIGESTSIZE) || (64 <? len) ||
     (negb (len =? LUKS_DIGESTSIZE) && negb (len =? u64 (crypt_hash_size hashSpec)))
  then - EINVAL
  else
    let '(r, checkHashBuf) := crypt_pbkdf CRYPT_KDF_PBKDF2 hashSpec volume_key mkDigestSalt len mkDigestIterations 0 0 in
    if r <? 0 then - EINVAL
    else if bool_decide (checkHashBuf = mkDigest) then 0 else - EPERM.

Definition LUKS2_digest_verify_by_digest (hdr : luks2_hdr) (digest : Z) (vk : bytes) : Z :=
  if negb (LUKS2_digest_handler hdr digest) then - EINVAL
  else
    let r := PBKDF2_digest_verify hdr digest vk in
    if r <? 0 then r else digest.

Definition LUKS2_digest_verify (hdr : luks2_hdr) (vk : bytes) (keyslot : Z) : Z :=
  let digest := LUKS2_digest_by_keyslot hdr keyslot in
  if digest <? 0 then digest else LUKS2_digest_verify_by_digest hdr digest vk.

Definition LUKS2_digest_verify_by_segment (hdr : luks2_hdr) (segment : Z) (vk : bytes) : Z :=
  LUKS2_digest_verify_by_digest hdr (LUKS2_digest_by_segment hdr segment) vk.

Definition LUKS2_digest_any_matching (hdr : luks2_hdr) (vk : bytes) : Z :=
  default (- ENOENT) (List.find (fun digest => LUKS2_digest_verify_by_digest hdr digest vk =? digest) (seqZ 0 LUKS2_DIGEST_MAX)).

(** ** Sizes of keys *)

Definition LUKS2_keyslot_get_volume_key_size (hdr : luks2_hdr) (keyslot : string) : Z :=
  need jobj1 from json_object_object_get_ex (jobj hdr) "keyslots" else -1 in
  need jobj2 from json_object_object_get_ex jobj1 keyslot else -1 in
  need jobj3 from json_object_object_get_ex jobj2 "key_size" else -1 in
  json_object_get_int jobj3.

Definition LUKS2_get_keyslot_stored_key_size (hdr : luks2_hdr) (keyslot : Z) : Z :=
  LUKS2_keyslot_get_volume_key_size hdr (dec_u32 keyslot).

Definition LUKS2_get_volume_key_size (hdr : luks2_hdr) (segment : Z) : Z :=
  let segment := if segment =? CRYPT_DEFAULT_SEGMENT then LUKS2_get_default_segment hdr else segment in
  match List.find (fun kv => bool_decide (is_Some (LUKS2_array_jobj (json_get kv.2 "segments") (dec_u32 segment))) &&
                             negb (json_object_array_length (json_get kv.2 "keyslots") <=? 0))
          (json_object_entries (json_get (jobj hdr) "digests")) with
  | Some kv =>
      LUKS2_keyslot_get_volume_key_size hdr (json_object_get_string (json_object_array_get_idx (json_get kv.2 "keyslots") 0))
  | None => -1
  end.

(** Cipher and key size of a keyslot's area. *)
Definition LUKS2_get_keyslot_cipher (hdr : luks2_hdr) (keyslot : Z) : option (string * Z) :=
  jobj_keyslot ← LUKS2_get_keyslot_jobj hdr keyslot;
  jobj_area ← json_object_object_get_ex jobj_keyslot "area";
  if negb (bool_decide (json_object_get_string (json_get jobj_area "type") = "raw"%string)) then None
  else
    jobj1 ← json_object_object_get_ex jobj_area "key_size";
    jobj2 ← json_object_object_get_ex jobj_area "encryption";
    Some (json_object_get_string jobj2, u64 (json_object_get_int jobj1)).

(** Code and parameters. *)
Definition LUKS2_keyslot_pbkdf (hdr : luks2_hdr) (keyslot : Z) (pbkdf : crypt_pbkdf_type) : Z * crypt_pbkdf_type :=
  if bool_decide (LUKS2_keyslot_info hdr keyslot = CRYPT_SLOT_INVALID) then (- EINVAL, pbkdf)
  else
    need jobj_keyslot from LUKS2_get_keyslot_jobj hdr keyslot else (- ENOENT, pbkdf) in
    need jobj_kdf from json_object_object_get_ex jobj_keyslot "kdf" else (- EINVAL, pbkdf) in
    need jobj1 from json_object_object_get_ex jobj_kdf "type" else (- EINVAL, pbkdf) in
    let number key := u32 <$> kdf_int jobj_kdf key in
    (0, PbkdfType (Some (json_object_get_string jobj1)) (json_object_get_string <$> json_object_object_get_ex jobj_kdf "hash") 0
          (default (default 0 (number "iterations")) (number "time")) (default 0 (number "memory")) (default 0 (number "cpus")) 0).

(** ** Opening *)

Section opening.
Variable env : keys_env.
Let os : os_env := os (ky_disk env).

(** An open key: the digest that verified it, and its bytes. *)
Definition volume_key : Type := Z * bytes.

(** [h->open] *)
Definition handler_open (h : keyslot_handler) (hdr : luks2_hdr) (keyslot : Z) (password : bytes) (len : Z) : M (Z * bytes) :=
  if bool_decide (kh_name h = "luks2"%string) then luks2_keyslot_open env hdr keyslot password len
  else mret (- ENOENT, []).

(** [h->validate]; both handlers have one. *)
Definition handler_validate (h : keyslot_handler) (jobj_keyslot : option json) : Z :=
  match kh_validate h, jobj_keyslot with
  | Some v, Some ks => v ks
  | Some _, None => - EINVAL
  | None, _ => 0
  end.

(** The keyslot or an error, and the key; [None] is NULL. *)
Definition _open_and_verify (hdr : luks2_hdr) (h : keyslot_handler) (keyslot : Z) (password : bytes) : M (Z * option volume_key) :=
  let key_size := LUKS2_get_keyslot_stored_key_size hdr keyslot in
  if key_size <? 0 then mret (- EINVAL, None)
  else if alloc_fails os key_size then mret (- ENOMEM, None)
  else
    '(r, vk) ← handler_open h hdr keyslot password key_size;
    let r := if r <? 0 then r else LUKS2_digest_verify hdr vk keyslot in
    mret (if r <? 0 then (r, None) else (keyslot, Some (r, vk))).

Definition LUKS2_open_and_verify_by_digest (hdr : luks2_hdr) (keyslot digest : Z) (password : bytes) : M (Z * option volume_key) :=
  need h from (if keyslot <? 0 then None else LUKS2_keyslot_handler hdr keyslot) else mret (- ENOENT, None) in
  let r := handler_validate h (LUKS2_get_keyslot_jobj hdr keyslot) in
  if negb (r =? 0) then mret (r, None)
  else
    let r := _keyslot_for_digest hdr keyslot digest in
    if negb (r =? 0) then mret (r, None) else _open_and_verify hdr h keyslot password.

Definition LUKS2_open_and_verify (hdr : luks2_hdr) (keyslot segment : Z) (password : bytes) : M (Z * option volume_key) :=
  need h from (if keyslot <? 0 then None else LUKS2_keyslot_handler hdr keyslot) else mret (- ENOENT, None) in
  let r := handler_validate h (LUKS2_get_keyslot_jobj hdr keyslot) in
  if negb (r =? 0) then mret (r, None)
  else
    let r := LUKS2_keyslot_for_segment hdr keyslot segment in
    if negb (r =? 0) then mret (r, None) else _open_and_verify hdr h keyslot password.

Definition slot_priority (val : json) : Z :=
  match json_object_object_get_ex val "priority" with
  | None => CRYPT_SLOT_PRIORITY_NORMAL
  | Some jobj => json_object_get_int jobj
  end.

(** A wrong password, or a keyslot that cannot be used: the next one is tried. *)
Definition try_next (r : Z) : bool := (r =? - EPERM) || (r =? - ENOENT).

(** The keyslots of a priority in the order of the header. *)
Fixpoint open_priority (slots : list (string * json)) (open : Z -> M (Z * option volume_key)) (priority r : Z)
    : M (Z * option volume_key) :=
  match slots with
  | [] => mret (r, None)
  | (slot, val) :: slots =>
      if negb (slot_priority val =? priority) then open_priority slots open priority r
      else
        '(r, vk) ← open (atoi slot);
        if try_next r then open_priority slots open priority r else mret (r, vk)
  end.

Definition LUKS2_keyslot_open_priority_digest (hdr : luks2_hdr) (priority digest : Z) (password : bytes) : M (Z * option volume_key) :=
  open_priority (json_object_entries (json_get (jobj hdr) "keyslots"))
    (fun keyslot => LUKS2_open_and_verify_by_digest hdr keyslot digest password) priority (- ENOENT).

Definition LUKS2_keyslot_open_priority (hdr : luks2_hdr) (priority segment : Z) (password : bytes) : M (Z * option volume_key) :=
  open_priority (json_object_entries (json_get (jobj hdr) "keyslots"))
    (fun keyslot => LUKS2_open_and_verify hdr keyslot segment password) priority (- ENOENT).

(** Preferred keyslots first; a wrong password is preferred to no keyslot. *)
Definition open_any_priority (by_priority : Z -> M (Z * option volume_key)) : M (Z * option volume_key) :=
  '(r_prio, vk) ← by_priority CRYPT_SLOT_PRIORITY_PREFER;
  if (0 <=? r_prio) || negb (try_next r_prio) then mret (r_prio, vk)
  else
    '(r, vk) ← by_priority CRYPT_SLOT_PRIORITY_NORMAL;
    mret (if (r_prio =? - EPERM) && (r =? - ENOENT) then r_prio else r, vk).

Definition LUKS2_keyslot_open_by_digest (hdr : luks2_hdr) (keyslot digest : Z) (password : bytes) : M (Z * option volume_key) :=
  if digest <? 0 then mret (- EINVAL, None)
  else if keyslot =? CRYPT_ANY_SLOT then open_any_priority (fun p => LUKS2_keyslot_open_priority_digest hdr p digest password)
  else LUKS2_open_and_verify_by_digest hdr keyslot digest password.

Definition LUKS2_keyslot_open (hdr : luks2_hdr) (keyslot segment : Z) (password : bytes) : M (Z * option volume_key) :=
  if keyslot =? CRYPT_ANY_SLOT then open_any_priority (fun p => LUKS2_keyslot_open_priority hdr p segment password)
  else LUKS2_open_and_verify hdr keyslot segment password.

(** The keys of a reencryption, the old one first; an error leaves none. *)
Definition LUKS2_keyslot_open_all_segments (hdr : luks2_hdr) (keyslot_old keyslot_new : Z) (password : bytes)
    : M (Z * list volume_key) :=
  let digest_old := LUKS2_reencrypt_digest_old hdr in
  '(r, vks) ← (if 0 <=? digest_old then
                 '(r, vk) ← LUKS2_keyslot_open_by_digest hdr keyslot_old digest_old password;
                 mret (r, option_list vk)
               else mret (- EINVAL, []));
  if (0 <=? digest_old) && (r <? 0) then mret (r, [])
  else
    let digest_new := LUKS2_reencrypt_digest_new hdr in
    if (0 <=? digest_new) && negb (digest_old =? digest_new) then
      '(r, vk) ← LUKS2_keyslot_open_by_digest hdr keyslot_new digest_new password;
      mret (if r <? 0 then (r, []) else (r, vks ++ option_list vk))
    else mret (if r <? 0 then (r, []) else (r, vks)).

(** ** Storing and wiping *)

(** Code, header and the context's parameters; no result when the benchmark has
    none. The handler of the keyslot is luks2: no other has an update. *)
Definition LUKS2_keyslot_store (hdr : luks2_hdr) (keyslot : Z) (password vk : bytes) (params : luks2_keyslot_params)
    : M (Z * luks2_hdr * crypt_pbkdf_type) :=
  match LUKS2_keyslot_store_jobj (ky_kdf env) hdr keyslot (zlen vk) params with
  | None => fun _ => None
  | Some (r, hdr, pbkdf) =>
      if negb (r =? 0) then mret (r, hdr, pbkdf)
      else
        '(r, hdr) ← luks2_keyslot_store env hdr keyslot password vk;
        mret (r, hdr, pbkdf)
  end.

Definition LUKS2_keyslot_wipe (hdr : luks2_hdr) (keyslot : Z) (wipe_area_only : bool) : M (Z * luks2_hdr) :=
  if negb (bool_decide (is_Some (json_object_object_get_ex (jobj hdr) "keyslots"))) then mret (- EINVAL, hdr)
  else if negb (bool_decide (is_Some (LUKS2_get_keyslot_jobj hdr keyslot))) then mret (- ENOENT, hdr)
  else
    r ← LUKS2_device_write_lock (ky_disk env) hdr;
    if negb (r =? 0) then mret (r, hdr)
    else
      let '(r, area_offset, area_length) := LUKS2_keyslot_area hdr keyslot in
      '(r, hdr) ←
        (if negb (r =? 0) && negb (r =? - ENOENT) then mret (r, hdr)
         else
           r ← (if r =? 0 then crypt_wipe_device (ky_wipe env) CRYPT_WIPE_SPECIAL area_offset area_length area_length
                else mret 0);
           if negb (r =? 0) then mret (if r =? - EACCES then - EINVAL else r, hdr)
           else if wipe_area_only then mret (r, hdr)
           else LUKS2_hdr_write env (keyslot_remove hdr keyslot));
      _ ← device_write_unlock os;
      mret (r, hdr).

Definition LUKS2_wipe_header_areas (hdr : luks2_hdr) (detached_header : bool) : M Z :=
  let length := LUKS2_get_data_offset hdr *64 SECTOR_SIZE in
  if negb (LUKS2_hdr_validate (jobj hdr) (hdr_size hdr -64 LUKS2_HDR_BIN_LEN) =? 0) then mret (- EINVAL)
  else
    let '(length, wipe_block) := if detached_header then (4096, 4096) else (length, 1024 * 1024) in
    r ← crypt_wipe_device (ky_wipe env) CRYPT_WIPE_ZERO 0 length wipe_block;
    if r <? 0 then mret r
    else crypt_wipe_device (ky_wipe env) CRYPT_WIPE_RANDOM (get_min_offset hdr) (LUKS2_keyslots_size hdr) (1024 * 1024).
End opening.
End keys.
