(* ===== verification/Luks2KeyslotRun.v ===== *)
(** * Luks2KeyslotRun: storing and reading keys of LUKS2, step by step

    The JSON of a keyslot as one record ([slot_view]), what the operations on
    its area do on a device that works, and what the header keeps when it is
    written. *)

From S2P Require Import Prelude UtilsIO CryptBackend UtilsCrypt CryptStorage Base64 Cstd JsonC Luks2Json Luks2Keyslot Luks2Edit Luks2Areas Luks2Validate Device Wipe WipeProps AF KeyEncryption Luks1 Luks1Facts Luks2Format Luks2Reencrypt Luks2Disk Luks2DiskFacts Luks2DiskWrite Luks2DiskAtomic Luks2DiskProps Luks2ReencryptData Luks2HdrStore Luks2KeyslotIo Pbkdf.
From Stdlib Require Import Strings.Byte.

Section run.
Context `{JL : JsonCLaws} `{CHL : CryptHashLaws} `{CCL : CryptCipherLaws} `{CP : CryptPbkdf}.

(** ** The keyslot's JSON *)

Record slot_view := SlotView {
  sv_key_size : Z;
  sv_offset : Z;
  sv_cipher : string;
  sv_mode : string;
  sv_area_key_size : Z;
  sv_af_hash : bytes;
  sv_pbkdf : crypt_pbkdf_type;
  sv_salt : bytes;
}.

Definition view_of (ks : json) : option slot_view :=
  _ ← json_object_object_get_ex ks "kdf";
  af ← json_object_object_get_ex ks "af";
  area ← json_object_object_get_ex ks "area";
  key_size ← json_object_object_get_ex ks "key_size";
  offset ← json_object_object_get_ex area "offset";
  encryption ← json_object_object_get_ex area "encryption";
  c ← (match crypt_parse_name_and_mode (json_object_get_string encryption) false with inl _ => None | inr c => Some c end);
  area_key_size ← json_object_object_get_ex area "key_size";
  hash ← json_object_object_get_ex af "hash";
  '(pbkdf, salt) ← luks2_keyslot_get_pbkdf_params ks;
  Some (SlotView (json_object_get_int key_size) (crypt_jobj_get_uint64 offset) (cipher c) (cipher_mode c)
          (u64 (json_object_get_int area_key_size)) (bytes_of_string (json_object_get_string hash)) pbkdf salt).


(** Goes through the members that a view was read from. *)
Ltac open_view H :=
  unfold view_of in H;
  repeat match type of H with
  | context [match crypt_parse_name_and_mode ?a ?b with inl _ => _ | inr _ => _ end] =>
      destruct (crypt_parse_name_and_mode a b); [discriminate H|cbn in H]
  | (let '(_, _) := ?p in _) = Some _ => destruct p
  | (match ?o with Some _ => _ | None => _ end) = Some _ => destruct o; [cbn in H|discriminate H]
  | (?o ≫= _) = Some _ => destruct o as [?|]; [cbn in H|discriminate H]
  end.

(** The key that the password gives for the keyslot's area. *)
Definition area_key (v : slot_view) (password : bytes) : Z * bytes :=
  derive_key (sv_pbkdf v) password (sv_salt v) (sv_area_key_size v).

Definition slot_sector (v : slot_view) : Z := u32 (sv_offset v / SECTOR_SIZE).

Section device.
Variable env : keys_env.
Let os : os_env := os (ky_disk env).

Lemma set_key_view ks v password vk :
  view_of ks = Some v -> sv_key_size v = zlen vk -> i32 (zlen vk) = zlen vk ->
  luks2_keyslot_set_key env ks password vk =
    (if alloc_fails os (sv_area_key_size v) then mret (- ENOMEM)
     else
       let '(r, derived_key) := area_key v password in
       if r <? 0 then mret r
       else if safe_alloc_fails os (material_bytes (zlen vk)) then mret (- ENOMEM)
       else
         let '(r, AfKey) := AF_split (ky_stripes env) vk (zeros (Z.to_nat (material_bytes (zlen vk)))) (zlen vk) LUKS_STRIPES (sv_af_hash v) in
         r ← (if r =? 0 then luks2_encrypt_to_storage env AfKey (material_bytes (zlen vk)) (sv_cipher v) (sv_mode v) derived_key (slot_sector v)
              else mret r);
         mret (if r <? 0 then r else 0)).
Proof.
  intros H Hk Hi. unfold luks2_keyslot_set_key. rewrite Hi, material_bytes_size. open_view H.
  injection H as <-. cbn in Hk. rewrite Hk, Z.eqb_refl. done.
Qed.

Lemma get_key_view ks v password len :
  view_of ks = Some v ->
  luks2_keyslot_get_key env ks password len =
    (if (MIN_MEMORY_FOR_SERIALIZE_LOCK_KB <? p_max_memory_kb (sv_pbkdf v)) && negb (ky_serialize env =? 0) then mret (- EINVAL, [])
     else if alloc_fails os (sv_area_key_size v) then mret (- ENOMEM, [])
     else if safe_alloc_fails os (material_bytes len) then mret (- ENOMEM, [])
     else
       let '(r, derived_key) := area_key v password in
       '(r, AfKey) ← (if r =? 0 then luks2_decrypt_from_storage env (material_bytes len) (sv_cipher v) (sv_mode v) derived_key (slot_sector v)
                      else mret (r, []));
       mret (if r =? 0 then AF_merge AfKey (zeros (Z.to_nat len)) len LUKS_STRIPES (sv_af_hash v) else (r, []))).
Proof.
  intros H. unfold luks2_keyslot_get_key. rewrite material_bytes_size. open_view H.
  by injection H as <-.
Qed.
(** ** The keyslot's area *)

Lemma luks2_encrypt_run src len c m key sector s d :
  dev_ready os d -> (locking_enabled os = true -> is_Some (d_lh d)) -> writable d ->
  crypt_storage_init SECTOR_SIZE c m key false = inr s -> storage_total s -> zlen src = len -> area_at sector len d ->
  exists r d' enc, (forall B (k : Z -> M B), (luks2_encrypt_to_storage env src len c m key sector ≫= k) d = k r d') /\
    confined (sector * SECTOR_SIZE) len (d_file d) (d_file d') /\ d_lh d' = d_lh d /\
    crypt_storage_encrypt s 0 len src = (0, enc) /\ zlen enc = len /\
    ((r = 0 /\ slice (sector * SECTOR_SIZE) len (f_data (d_file d')) = enc) \/ (r < 0 /\ ~ benign (f_sched (d_file d)))).
Proof.
  intros Hr Hl Hwr Hi Ht Hz Ha. pose proof Ha as [Hs [Hn Hd] Hin Hw].
  destruct (storage_init_ok SECTOR_SIZE c m key false s ltac:(unfold SECTOR_SIZE; lia) Hi) as (Hok & Hss & _).
  destruct (storage_encrypt_total s len src Hok Ht ltac:(lia)) as [enc He]; [by rewrite Hss|].
  destruct (storage_decrypt_encrypt s 0 len src enc Hok ltac:(lia) He) as (_ & Hze & _). rewrite Hz in Hze.
  destruct (open_locked_step os d O_RDWR Hr Hl) as (fd & d1 & E & Hfd & Hf & Hlh); [by right|].
  destruct (dev_write_step os d1 fd enc (sector * SECTOR_SIZE)) as (w & d2 & E2 & C & L2 & R).
  { by apply (dev_ready_size _ d); rewrite ?Hf. } { done. } { unfold SECTOR_SIZE; lia. } { rewrite Hf. lia. }
  exists (if w <? 0 then - EIO else 0), d2, enc. rewrite Hf, Hze in *. split.
  { intros B k. apply bind_run. unfold luks2_encrypt_to_storage. rewrite aligned_512 by done. cbn [negb]. rewrite Hi, He.
    cbn [negb Z.eqb]. fold os. rewrite E, (proj2 (Z.leb_le 0 fd) Hfd), (sector_offset_id _ _ _ Ha), E2. done. }
  split; [done|]. split; [congruence|]. split; [done|]. split; [done|]. destruct R as [[-> R]|[-> R]].
  - rewrite (proj2 (Z.ltb_ge len 0)) by lia. by left.
  - by right.
Qed.

Lemma luks2_decrypt_run src enc len c m key sector s d :
  dev_ready os d -> d_lh d = None -> 0 <= acquire_result os DEV_LOCK_READ ->
  crypt_storage_init SECTOR_SIZE c m key false = inr s -> zlen src = len ->
  crypt_storage_encrypt s 0 len src = (0, enc) -> area_at sector len d ->
  slice (sector * SECTOR_SIZE) len (f_data (d_file d)) = enc ->
  exists r buf d', (forall B (k : Z * bytes -> M B), (luks2_decrypt_from_storage env len c m key sector ≫= k) d = k (r, buf) d') /\
    f_data (d_file d') = f_data (d_file d) /\ d_lh d' = None /\
    (benign (f_sched (d_file d)) -> r = 0 /\ buf = src).
Proof.
  intros Hr Hl Hacq Hi Hz He Ha Hsl. pose proof Ha as [Hs [Hn Hd] Hin Hw].
  destruct (storage_init_ok SECTOR_SIZE c m key false s ltac:(unfold SECTOR_SIZE; lia) Hi) as (Hok & Hss & _).
  destruct (storage_decrypt_encrypt s 0 len src enc Hok ltac:(lia) He) as (Hdec & _ & _).
  destruct (read_lock_step os d Hl Hacq) as (d1 & E1 & F1 & L1).
  assert (Hr1 : dev_ready os d1) by (by apply (dev_ready_size _ d); rewrite ?F1).
  destruct (open_locked_step os d1 O_RDONLY Hr1) as (fd & d2 & E2 & Hfd & F2 & L2); [rewrite L1; by intros ->|by left|].
  destruct (dev_read_step os d2 fd len (sector * SECTOR_SIZE)) as (n & buf & d3 & E3 & (D3 & L3 & S3) & C3).
  { by apply (dev_ready_size _ d1); rewrite ?F2. } { done. } { done. } { unfold SECTOR_SIZE; lia. }
  destruct (read_unlock_step os d3) as (d4 & E4 & F4 & L4); [congruence|].
  eexists _, _, d4. rewrite F2, F1 in *. split.
  { intros B k. apply bind_run. unfold luks2_decrypt_from_storage. rewrite aligned_512 by done. cbn [negb]. rewrite Hi.
    fold os. rewrite E1. cbn [negb Z.eqb]. rewrite E2, (proj2 (Z.leb_le 0 fd) Hfd), (sector_offset_id _ _ _ Ha).
    erewrite bind_run by (rewrite E3; reflexivity). cbn beta match. rewrite E4. cbn [mret M_ret].
    instantiate (2 := (if (if n <? 0 then - EIO else 0) =? 0 then crypt_storage_decrypt s 0 len buf else (if n <? 0 then - EIO else 0, buf)).1).
    instantiate (1 := (if (if n <? 0 then - EIO else 0) =? 0 then crypt_storage_decrypt s 0 len buf else (if n <? 0 then - EIO else 0, buf)).2).
    unfold mret, M_ret. by rewrite <-surjective_pairing. }
  split; [by rewrite F4|]. split; [done|]. intros Hb. destruct C3 as [[-> ->]|[-> [C|C]]]; [|done|lia].
  rewrite (proj2 (Z.ltb_ge len 0)) by lia. cbn [Z.eqb]. by rewrite Hsl, Hdec.
Qed.
(** ** Setting and getting a key *)

(** A key and a password that a keyslot can take: the derivation and the back
    end work for it, and there is memory. *)
Record key_works (v : slot_view) (password vk : bytes) (s : crypt_storage) : Prop := {
  kw_size : sv_key_size v = zlen vk /\ 0 < zlen vk < 2 ^ 31;
  kw_memory : sv_area_key_size v <= mem_limit os /\ material_bytes (zlen vk) <= mem_limit os;
  kw_hash : 0 < crypt_hash_size (sv_af_hash v);
  kw_stripes : random_ok (ky_stripes env) (zlen vk) /\ LUKS_STRIPES - 1 <= zlen (ky_stripes env);
  kw_serialize : p_max_memory_kb (sv_pbkdf v) <= MIN_MEMORY_FOR_SERIALIZE_LOCK_KB \/ ky_serialize env = 0;
  kw_derived : (area_key v password).1 = 0;
  kw_storage : crypt_storage_init SECTOR_SIZE (sv_cipher v) (sv_mode v) (area_key v password).2 false = inr s;
  kw_total : storage_total s;
}.

(** What a set key leaves on the device: the encrypted stripes of the key. *)
Definition material_on (v : slot_view) (vk : bytes) (s : crypt_storage) (d : device) : Prop :=
  exists stripes enc, zlen stripes = material_bytes (zlen vk) /\
    (forall dst, AF_merge stripes dst (zlen vk) LUKS_STRIPES (sv_af_hash v) = (0, vk)) /\
    crypt_storage_encrypt s 0 (material_bytes (zlen vk)) stripes = (0, enc) /\ zlen enc = material_bytes (zlen vk) /\
    slice (slot_sector v * SECTOR_SIZE) (material_bytes (zlen vk)) (f_data (d_file d)) = enc.

Lemma slot_set_key_run ks v password vk s d :
  view_of ks = Some v -> key_works v password vk s ->
  dev_ready os d -> (locking_enabled os = true -> is_Some (d_lh d)) -> writable d ->
  area_at (slot_sector v) (material_bytes (zlen vk)) d ->
  exists r d', (forall B (k : Z -> M B), (luks2_keyslot_set_key env ks password vk ≫= k) d = k r d') /\
    confined (slot_sector v * SECTOR_SIZE) (material_bytes (zlen vk)) (d_file d) (d_file d') /\ d_lh d' = d_lh d /\
    ((r = 0 /\ material_on v vk s d') \/ (r < 0 /\ ~ benign (f_sched (d_file d)))).
Proof.
  intros Hv [[K1 K1'] [K2 K2'] K3 [K4 K4'] K5 K6 K7 K8] Hr Hl Hw Ha.
  assert (Hu : in_u 32 (zlen vk)) by (unfold in_u; lia).
  destruct (split_key_material (ky_stripes env) vk (sv_af_hash v)) as (st & Esp & Hzs & Hm); [done|lia|done..|].
  destruct (luks2_encrypt_run st (material_bytes (zlen vk)) (sv_cipher v) (sv_mode v) (area_key v password).2 (slot_sector v) s d)
    as (r & d' & enc & E & C & L & Henc & Hze & R); try done.
  exists (if r <? 0 then r else 0), d'. split.
  { intros B k. apply bind_run. rewrite (set_key_view ks v password vk); [|done|done|by apply i32_id; lia]. fold os.
    unfold alloc_fails. rewrite (proj2 (Z.ltb_ge _ _) K2), key_memory by (done || lia).
    destruct (area_key v password) as [ra dk]. cbn [fst snd] in *. subst ra. cbn [Z.ltb Z.compare]. rewrite Esp. cbn [Z.eqb]. by rewrite E. }
  split; [done|]. split; [done|]. destruct R as [[-> R]|[R B]]; [left|right].
  - split; [done|]. by exists st, enc.
  - by rewrite (proj2 (Z.ltb_lt r 0) R).
Qed.

Lemma slot_get_key_run ks v password vk s d :
  view_of ks = Some v -> key_works v password vk s ->
  dev_ready os d -> d_lh d = None -> 0 <= acquire_result os DEV_LOCK_READ ->
  area_at (slot_sector v) (material_bytes (zlen vk)) d -> material_on v vk s d ->
  exists r vk' d', (forall B (k : Z * bytes -> M B), (luks2_keyslot_get_key env ks password (zlen vk) ≫= k) d = k (r, vk') d') /\
    f_data (d_file d') = f_data (d_file d) /\ d_lh d' = None /\ (benign (f_sched (d_file d)) -> r = 0 /\ vk' = vk).
Proof.
  intros Hv [[K1 K1'] [K2 K2'] K3 [K4 K4'] K5 K6 K7 K8] Hr Hl Hacq Ha (st & enc & Hzs & Hm & Henc & Hze & Hsl).
  assert (Hu : in_u 32 (zlen vk)) by (unfold in_u; lia).
  destruct (luks2_decrypt_run st enc (material_bytes (zlen vk)) (sv_cipher v) (sv_mode v) (area_key v password).2 (slot_sector v) s d)
    as (r & buf & d' & E & D & L & B); try done.
  pose (res := if r =? 0 then AF_merge buf (zeros (Z.to_nat (zlen vk))) (zlen vk) LUKS_STRIPES (sv_af_hash v) else (r, [])).
  exists res.1, res.2, d'. split.
  { intros B' k. apply bind_run. rewrite (get_key_view ks v password) by done. fold os.
    assert (Hs : (MIN_MEMORY_FOR_SERIALIZE_LOCK_KB <? p_max_memory_kb (sv_pbkdf v)) && negb (ky_serialize env =? 0) = false).
    { destruct K5 as [K5|K5]; [by rewrite (proj2 (Z.ltb_ge _ _) K5)|]. rewrite K5. by rewrite andb_false_r. }
    rewrite Hs. unfold alloc_fails. rewrite (proj2 (Z.ltb_ge _ _) K2), key_memory by (done || lia).
    destruct (area_key v password) as [ra dk]. cbn [fst snd] in *. subst ra. cbn [Z.eqb]. rewrite E. cbn beta match.
    fold res. unfold mret, M_ret. by rewrite <-surjective_pairing. }
  split; [done|]. split; [done|]. intros Hb. destruct (B Hb) as [-> ->]. unfold res. cbn [Z.eqb]. by rewrite Hm.
Qed.

Lemma material_kept v vk s d d' :
  slice (slot_sector v * SECTOR_SIZE) (material_bytes (zlen vk)) (f_data (d_file d')) =
    slice (slot_sector v * SECTOR_SIZE) (material_bytes (zlen vk)) (f_data (d_file d)) ->
  material_on v vk s d -> material_on v vk s d'.
Proof. intros E (st & enc & H1 & H2 & H3 & H4 & H5). exists st, enc. by rewrite E. Qed.
End device.
(** ** Writing the header *)

Lemma erase_unused_fields hdr :
  let hdr' := LUKS2_digests_erase_unused hdr in
  hdr_size hdr' = hdr_size hdr /\ seqid hdr' = seqid hdr /\
  forall k, k <> "digests"%string -> json_object_object_get_ex (jobj hdr') k = json_object_object_get_ex (jobj hdr) k.
Proof.
  cbv zeta. unfold LUKS2_digests_erase_unused. destruct (json_get_ptr (jobj hdr) "digests") as [j|] eqn:E; [|done].
  destruct (negb _); [done|]. split; [done|]. split; [done|]. intros k Hk. cbn [jobj set_jobj].
  rewrite object_add_get; [by rewrite decide_False|]. unfold json_get_ptr in E.
  destruct (json_object_object_get_ex (jobj hdr) "digests") as [v|] eqn:G; [|done]. by eapply get_ex_type.
Qed.
(** The keyslots of a header that was written are those of the header. *)
Lemma disk_next_keyslot hdr keyslot :
  LUKS2_get_keyslot_jobj (disk_next hdr) keyslot = LUKS2_get_keyslot_jobj hdr keyslot /\
  LUKS2_keyslot_handler (disk_next hdr) keyslot = LUKS2_keyslot_handler hdr keyslot.
Proof.
  destruct (erase_unused_fields hdr) as (_ & _ & Hk). unfold disk_next.
  assert (E : LUKS2_get_keyslot_jobj (next_hdr (LUKS2_digests_erase_unused hdr)) keyslot = LUKS2_get_keyslot_jobj hdr keyslot).
  { unfold LUKS2_get_keyslot_jobj. cbn [jobj next_hdr set_seqid]. by rewrite Hk. }
  split; [done|]. unfold LUKS2_keyslot_handler. by rewrite E.
Qed.

Section write.
Variable env : keys_env.
Let os : os_env := os (ky_disk env).

(** The device and the header when a change is committed. *)
Record commit_ready (hdr : luks2_hdr) (d : device) : Prop := {
  cr_device : dev_ready os d;
  cr_granular : granular 512 (f_sched (d_file d));
  cr_memory : mem_ok (ky_disk env);
  cr_storable : storable (disk_next hdr);
  cr_fits : 2 * hdr_size hdr <= f_size (d_file d);
  cr_areas : LUKS2_hdr_and_areas_size (LUKS2_digests_erase_unused hdr) <= f_size (d_file d);
}.

Lemma commit_ready_confined hdr off len d d' :
  confined off len (d_file d) (d_file d') -> commit_ready hdr d -> commit_ready hdr d'.
Proof.
  intros [E S _] [H1 H2 H3 H4 H5 H6]. split; rewrite ?E; try done; [by apply (dev_ready_size _ d)|by apply S].
Qed.

Lemma hdr_write_run hdr d :
  commit_ready hdr d -> write_lockable d ->
  exists r hdr' d', (forall B (k : Z * luks2_hdr -> M B), (LUKS2_hdr_write env hdr ≫= k) d = k (r, hdr') d') /\
    d_lh d' = d_lh d /\ confined 0 (2 * hdr_size hdr) (d_file d) (d_file d') /\
    (benign (f_sched (d_file d)) -> seqid_current hdr (f_data (d_file d)) -> 0 <= acquire_result os DEV_LOCK_WRITE ->
       r = 0 /\ hdr' = disk_next hdr).
Proof.
  intros [H1 H2 H3 H4 H5 H6] Hlk. destruct (erase_unused_fields hdr) as (Es & Eq & _).
  destruct (disk_hdr_write_run (ky_disk env) (LUKS2_digests_erase_unused hdr) true d) as (r & hdr' & d' & E & L & C & B & S);
    try done; [by rewrite Es|].
  exists r, hdr', d'. split.
  { intros B' k. apply bind_run. unfold LUKS2_hdr_write, hdr_cleanup_and_validate.
    destruct (storable_size _ H4) as (_ & _ & E64). cbn [hdr_size disk_next next_hdr set_seqid] in E64. rewrite E64.
    pose proof (st_valid _ H4) as Hv. cbn [hdr_size jobj disk_next next_hdr set_seqid] in Hv. by rewrite Hv. }
  split; [done|]. split.
  { destruct C as [(_ & _ & D)|[_ U]]; [by apply confined_same|].
    destruct (update_frame _ _ _ _ H4 U) as [Z F]. cbn [hdr_size disk_next next_hdr set_seqid] in F. rewrite Es in F.
    split; [done|done|]. destruct (storable_size _ H4) as (Hs & _). cbn [hdr_size disk_next next_hdr set_seqid] in Hs. rewrite Es in Hs.
    intros o n Ho Hn [Hle|Hle]; [|by apply F; lia]. assert (o = 0 /\ n = 0) as [-> ->] by lia. by rewrite !slice_0. }
  intros Hb Hq Ha. apply B; [done|unfold seqid_current in *; by rewrite Eq|done].
Qed.
End write.
(** ** Storing and opening *)

(** Nothing changed but the two copies of the header and the area of a
    keyslot. *)
Definition slot_only (hdr : luks2_hdr) (v : slot_view) (len : Z) (f f' : file) : Prop :=
  f_size f' = f_size f /\ sched_le f f' /\
  forall o n, 2 * hdr_size hdr <= o -> 0 <= n ->
    o + n <= slot_sector v * SECTOR_SIZE \/ slot_sector v * SECTOR_SIZE + len <= o ->
    slice o n (f_data f') = slice o n (f_data f).

Lemma slot_only_trans hdr v len f g k : slot_only hdr v len f g -> slot_only hdr v len g k -> slot_only hdr v len f k.
Proof. intros (S1 & L1 & C1) (S2 & L2 & C2). split; [congruence|]. split; [by transitivity g|]. intros. by rewrite C2, C1. Qed.

Lemma slot_only_same hdr v len f f' : f_data f' = f_data f -> sched_le f f' -> slot_only hdr v len f f'.
Proof. intros Hd Hs. split; [by apply size_eq|]. split; [done|]. intros. by rewrite Hd. Qed.

Lemma slot_only_area hdr v len f f' :
  0 <= hdr_size hdr -> confined (slot_sector v * SECTOR_SIZE) len f f' -> slot_only hdr v len f f'.
Proof. intros Hh [S L C]. split; [done|]. split; [done|]. intros. apply C; lia. Qed.

Lemma slot_only_header hdr v len f f' :
  0 <= hdr_size hdr -> confined 0 (2 * hdr_size hdr) f f' -> slot_only hdr v len f f'.
Proof. intros Hh [S L C]. split; [done|]. split; [done|]. intros. apply C; lia. Qed.

(** A keyslot of a header whose area is on the device, behind the header. *)
Record slot_on (hdr : luks2_hdr) (keyslot : Z) (ks : json) (v : slot_view) (vk : bytes) (d : device) : Prop := {
  so_jobj : LUKS2_get_keyslot_jobj hdr keyslot = Some ks;
  so_view : view_of ks = Some v;
  so_area : area_at (slot_sector v) (material_bytes (zlen vk)) d;
  so_behind : 2 * hdr_size hdr <= slot_sector v * SECTOR_SIZE;
}.

Section store.
Variable env : keys_env.
Let os : os_env := os (ky_disk env).

Lemma lock_inc_none_lockable d : d_lh d = lock_inc os None -> write_lockable d.
Proof. unfold write_lockable, lock_inc. intros ->. by destruct (locking_enabled os). Qed.

Lemma luks2_store_run hdr keyslot ks v password vk s d :
  slot_on hdr keyslot ks v vk d -> key_works env v password vk s -> commit_ready env hdr d -> d_lh d = None ->
  exists r hdr' d', luks2_keyslot_store env hdr keyslot password vk d = Some ((r, hdr'), d') /\ d_lh d' = None /\
    slot_only hdr v (material_bytes (zlen vk)) (d_file d) (d_file d') /\
    (benign (f_sched (d_file d)) -> seqid_current hdr (f_data (d_file d)) -> 0 <= acquire_result os DEV_LOCK_WRITE ->
       r = keyslot /\ hdr' = disk_next hdr /\ material_on v vk s d').
Proof.
  intros [J V A P] Hk Hc Hl. unfold luks2_keyslot_store. rewrite J.
  destruct (storable_size _ (cr_storable _ _ _ Hc)) as (Hs & _). destruct (erase_unused_fields hdr) as (Es & Eq & _).
  cbn [hdr_size disk_next next_hdr set_seqid] in Hs. rewrite Es in Hs.
  destruct (lock_for_update_run (ky_disk env) true hdr d (cr_device _ _ _ Hc)) as (r0 & d0 & R0 & F0 & S0 & C0 & B0); [unfold write_lockable; by rewrite Hl|].
  cbn beta match in R0. pose proof (write_lock_nonpos (ky_disk env) hdr _ _ _ R0) as N0. erewrite bind_run by exact R0.
  assert (O0 : forall len, slot_only hdr v len (d_file d) (d_file d0)) by (intros; by apply slot_only_same).
  rewrite Hl in C0. destruct (Z.eqb_spec r0 0) as [->|Hr0]; cbn [negb].
  2: { exists r0, hdr, d0. split; [done|]. split; [destruct C0 as [[_ C0]|[C0 _]]; [done|lia]|]. split; [done|].
       intros Hb Hq Ha. specialize (B0 Hb ltac:(pose proof (cr_fits _ _ _ Hc); lia) Hq Ha). lia. }
  destruct C0 as [[C0 _]|[_ C0]]; [lia|]. fold os in C0.
  pose proof (commit_ready_confined env hdr 0 0 d d0 ltac:(by apply confined_same) Hc) as Hc0.
  destruct (slot_set_key_run env ks v password vk s d0) as (r1 & d1 & R1 & C1 & L1 & K1); try done.
  { apply Hc0. } { fold os. intros He. rewrite C0. by apply lock_inc_some. }
  { apply (lock_inc_writable os d0 None); done. }
  { destruct A. split; try done. by rewrite (size_eq _ _ F0). }
  rewrite R1. pose proof (commit_ready_confined _ _ _ _ _ _ C1 Hc0) as Hc1.
  assert (O1 : slot_only hdr v (material_bytes (zlen vk)) (d_file d) (d_file d1)).
  { eapply slot_only_trans; [apply O0|apply slot_only_area; [lia|done]]. }
  assert (L1' : d_lh d1 = lock_inc os None) by congruence.
  destruct K1 as [[-> M1]|[Hlt B1]].
  2: { rewrite (proj2 (Z.eqb_neq r1 0)) by lia. rewrite ret_step. cbn beta match.
       destruct (device_write_unlock_run os d1 None I L1') as (d2 & R2 & F2 & L2). fold os. erewrite bind_run by exact R2.
       rewrite (proj2 (Z.ltb_lt r1 0) Hlt). exists r1, hdr, d2. split; [done|]. split; [done|]. split; [by rewrite F2|].
       intros Hb _ _. destruct B1. by apply (S0 _ Hb). }
  cbn [Z.eqb]. destruct (hdr_write_run env hdr d1 Hc1 (lock_inc_none_lockable _ L1')) as (r2 & hdr' & d2 & R2 & L2 & C2 & B2).
  rewrite R2. cbn beta match. destruct (device_write_unlock_run os d2 None I) as (d3 & R3 & F3 & L3); [congruence|].
  fold os. erewrite bind_run by exact R3. exists (if r2 <? 0 then r2 else keyslot), hdr', d3. split; [done|]. split; [done|].
  rewrite F3. split; [eapply slot_only_trans; [done|apply slot_only_header; [lia|done]]|].
  intros Hb Hq Ha. pose proof (S0 _ Hb) as Hb0. destruct C1 as [S1 T1 F1]. destruct B2 as [-> ->]; [by apply (T1 _ Hb0)| |done|].
  { unfold seqid_current in *. rewrite <-Hq, <-F0. f_equal. apply F1; lia. }
  cbn [Z.ltb Z.compare]. split; [done|]. split; [done|]. apply (material_kept v vk s d1); [|done]. rewrite F3.
  destruct A as [A1 [A2 _] A3 _]. apply C2; unfold SECTOR_SIZE in *; lia.
Qed.

Lemma luks2_open_run hdr keyslot ks v password vk s d :
  slot_on hdr keyslot ks v vk d -> key_works env v password vk s -> dev_ready os d -> d_lh d = None ->
  0 <= acquire_result os DEV_LOCK_READ -> material_on v vk s d ->
  exists r vk' d', (forall B (k : Z * bytes -> M B), (luks2_keyslot_open env hdr keyslot password (zlen vk) ≫= k) d = k (r, vk') d') /\
    f_data (d_file d') = f_data (d_file d) /\ d_lh d' = None /\ (benign (f_sched (d_file d)) -> r = 0 /\ vk' = vk).
Proof.
  intros [J V A P] Hk Hr Hl Ha Hm. unfold luks2_keyslot_open. rewrite J.
  by apply (slot_get_key_run env ks v password vk s d).
Qed.

(** The size of the key is read from the header again. *)
Lemma stored_key_size hdr keyslot ks v :
  LUKS2_get_keyslot_jobj hdr keyslot = Some ks -> view_of ks = Some v -> LUKS2_get_keyslot_stored_key_size hdr keyslot = sv_key_size v.
Proof.
  unfold LUKS2_get_keyslot_jobj, LUKS2_get_keyslot_stored_key_size, LUKS2_keyslot_get_volume_key_size.
  destruct (keyslot <? 0); [done|]. generalize (dec_u32 keyslot). intros name.
  destruct (json_object_object_get_ex (jobj hdr) "keyslots") as [slots|]; [cbn|done].
  unfold json_get_ptr. destruct (json_object_object_get_ex slots name) as [k|]; [cbn|done].
  destruct (json_is_null k); [done|]. intros [= ->] H. open_view H.
  by injection H as <-.
Qed.
End store.
End run.
