(* ===== verification/Luks2KeyslotProps.v ===== *)
(** * Luks2KeyslotProps: properties of keys in LUKS2 keyslots

    A stored key is the key that is opened; whatever is opened has been
    verified by a digest of the header; and a concrete device on which the
    theorems are applied. *)

From S2P Require Import Prelude UtilsIO CryptBackend UtilsCrypt CryptStorage Base64 Cstd JsonC Luks2Json Luks2Keyslot Luks2Edit Luks2Areas Luks2Validate Device Wipe WipeProps AF KeyEncryption Luks1 Luks1Facts Luks2Format Luks2AllocProps Luks2Reencrypt Luks2Disk Luks2DiskFacts Luks2DiskWrite Luks2DiskAtomic Luks2DiskProps Luks2HdrStore Luks2KeyslotIo Luks2KeyslotRun Pbkdf.
From Stdlib Require Import Strings.Byte.

Section props.
Context `{JL : JsonCLaws} `{CHL : CryptHashLaws} `{CCL : CryptCipherLaws} `{CP : CryptPbkdf}.
Variable env : keys_env.
Let os : os_env := os (ky_disk env).

(** ** Opening is verified *)

(** A key that was opened: its digest is that of the keyslot, the keyslot
    belongs to the segment, and the digest in the header is the one derived
    from the key. An error leaves no key. *)
Definition opened (hdr : luks2_hdr) (segment r : Z) (vk : option volume_key) : Prop :=
  (r < 0 -> vk = None) /\
  (0 <= r -> exists key, vk = Some (LUKS2_digest_by_keyslot hdr r, key) /\
     0 <= LUKS2_digest_by_keyslot hdr r /\ LUKS2_keyslot_for_segment hdr r segment = 0 /\
     PBKDF2_digest_verify hdr (LUKS2_digest_by_keyslot hdr r) key = 0).

Lemma pbkdf2_verify_nonpos hdr digest key : PBKDF2_digest_verify hdr digest key <= 0.
Proof. unfold PBKDF2_digest_verify, EINVAL, EPERM. repeat case_match; lia. Qed.

Lemma digest_verify_ok hdr key keyslot :
  0 <= LUKS2_digest_verify hdr key keyslot ->
  LUKS2_digest_verify hdr key keyslot = LUKS2_digest_by_keyslot hdr keyslot /\
  PBKDF2_digest_verify hdr (LUKS2_digest_by_keyslot hdr keyslot) key = 0.
Proof.
  unfold LUKS2_digest_verify, LUKS2_digest_verify_by_digest. destruct (Z.ltb_spec (LUKS2_digest_by_keyslot hdr keyslot) 0); [lia|].
  destruct (LUKS2_digest_handler _ _); cbn [negb]; [|unfold EINVAL; lia].
  pose proof (pbkdf2_verify_nonpos hdr (LUKS2_digest_by_keyslot hdr keyslot) key).
  destruct (Z.ltb_spec (PBKDF2_digest_verify hdr (LUKS2_digest_by_keyslot hdr keyslot) key) 0); [lia|]. intros _. split; [done|lia].
Qed.

Lemma open_and_verify_opened hdr keyslot segment password d r vk d' :
  LUKS2_open_and_verify env hdr keyslot segment password d = Some ((r, vk), d') ->
  opened hdr segment r vk /\ (0 <= r -> r = keyslot).
Proof.
  assert (Hfail : forall e, e < 0 -> opened hdr segment e None /\ (0 <= e -> e = keyslot)) by (intros; split; [by split; [|lia]|lia]).
  assert (Hneg : forall e, e <= 0 -> negb (e =? 0) = true -> e < 0) by (intros e ? ?%negb_true_iff%Z.eqb_neq; lia).
  unfold LUKS2_open_and_verify. destruct (Z.ltb_spec keyslot 0); [intros [= <- <- <-]; by apply Hfail|].
  destruct (LUKS2_keyslot_handler hdr keyslot) as [h|] eqn:Eh; [|intros [= <- <- <-]; by apply Hfail].
  destruct (negb (handler_validate _ _ =? 0)) eqn:Ev.
  { intros [= <- <- <-]. apply Hfail, Hneg; [|done]. unfold handler_validate.
    destruct (kh_validate h) as [f|] eqn:Ef; [|done]. destruct (LUKS2_get_keyslot_jobj hdr keyslot); [|unfold EINVAL; lia].
    unfold LUKS2_keyslot_handler in Eh. repeat (apply bind_Some in Eh as (? & _ & Eh)). unfold LUKS2_keyslot_handler_type in Eh.
    apply List.find_some in Eh as [[<-|[<-|[]]] _]; cbn in Ef; injection Ef as <-.
    - unfold luks2_keyslot_validate, EINVAL. repeat case_match; lia.
    - unfold reenc_keyslot_validate, reenc_area_validate, EINVAL. repeat case_match; lia. }
  destruct (negb (LUKS2_keyslot_for_segment hdr keyslot segment =? 0)) eqn:Es.
  { intros [= <- <- <-]. apply Hfail, Hneg; [|done]. unfold LUKS2_keyslot_for_segment, ENOENT. repeat case_match; lia. }
  apply negb_false_iff, Z.eqb_eq in Es. unfold _open_and_verify.
  destruct (_ <? 0); [intros [= <- <- <-]; by apply Hfail|].
  destruct (alloc_fails _ _); [intros [= <- <- <-]; by apply Hfail|]. intros ([r0 key] & d0 & _ & E)%bind_inv.
  cbn beta match in E. injection E as E ->. destruct (Z.ltb_spec r0 0).
  - rewrite (proj2 (Z.ltb_lt r0 0)) in E by done. injection E as <- <-. by apply Hfail.
  - destruct (Z.ltb_spec (LUKS2_digest_verify hdr key keyslot) 0); injection E as <- <-; [by apply Hfail|].
    destruct (digest_verify_ok hdr key keyslot) as [-> Hp]; [done|]. split; [|done]. split; [lia|]. intros _.
    exists key. split; [done|]. split; [|done]. unfold LUKS2_digest_verify in *.
    destruct (Z.ltb_spec (LUKS2_digest_by_keyslot hdr keyslot) 0); lia.
Qed.

Lemma open_priority_opened hdr slots segment password priority r0 d r vk d' :
  r0 < 0 ->
  open_priority slots (fun keyslot => LUKS2_open_and_verify env hdr keyslot segment password) priority r0 d = Some ((r, vk), d') ->
  opened hdr segment r vk.
Proof.
  revert r0 d. induction slots as [|[slot val] slots IH]; intros r0 d Hr; cbn [open_priority].
  { intros [= <- <- <-]. split; [done|lia]. }
  destruct (negb _); [by apply IH|]. intros ([r1 vk1] & d1 & E1 & E)%bind_inv. cbn beta match in E.
  destruct (try_next r1) eqn:Et; [|injection E as -> -> ->; by eapply open_and_verify_opened].
  eapply IH; [|done]. unfold try_next, EPERM, ENOENT in Et. lia.
Qed.

Lemma keyslot_open_opened hdr keyslot segment password d r vk d' :
  LUKS2_keyslot_open env hdr keyslot segment password d = Some ((r, vk), d') -> opened hdr segment r vk.
Proof.
  unfold LUKS2_keyslot_open. destruct (Z.eqb_spec keyslot CRYPT_ANY_SLOT); intros E; [|by apply open_and_verify_opened in E as [H1 _]].
  unfold open_any_priority in E. apply bind_inv in E as ([r1 vk1] & d1 & E1 & E).
  apply open_priority_opened in E1 as H1; [|done]. cbn beta match in E.
  destruct (Z.leb_spec 0 r1); cbn [orb] in E; [by injection E as <- <- <-|].
  destruct (try_next r1); cbn [negb] in E; [|by injection E as <- <- <-].
  apply bind_inv in E as ([r2 vk2] & d2 & E2 & E). apply open_priority_opened in E2; [|done]. cbn beta match in E.
  destruct ((r1 =? - EPERM) && (r2 =? - ENOENT)) eqn:Ep; injection E as <- <- <-; [|done].
  split; [|lia]. intros _. apply E2. apply andb_true_iff in Ep as [_ Ep%Z.eqb_eq]. rewrite Ep. done.
Qed.

(** C7: A key is only ever returned when it was verified: whatever the device
    holds and the derivation gives, when [LUKS2_keyslot_open] (one keyslot, or
    all of them by priority) reports a keyslot, the digest assigned to that
    keyslot matches the key that is returned, the keyslot belongs to the
    segment, and it is the keyslot that was asked for. An error comes with no
    key. *)
Theorem luks2_open_verified hdr keyslot segment password d r vk d' :
  LUKS2_keyslot_open env hdr keyslot segment password d = Some ((r, vk), d') ->
  opened hdr segment r vk /\ (0 <= r -> keyslot <> CRYPT_ANY_SLOT -> r = keyslot).
Proof.
  intros E. split; [by eapply keyslot_open_opened|]. intros Hr Hk. unfold LUKS2_keyslot_open in E.
  rewrite (proj2 (Z.eqb_neq _ _) Hk) in E. by apply open_and_verify_opened in E as [_ H2]; apply H2.
Qed.

Lemma stored_key_opens hdr0 hdr p params keyslot segment ks v password vk s d :
  0 <= keyslot -> LUKS2_keyslot_store_jobj (ky_kdf env) hdr0 keyslot (zlen vk) params = Some (0, hdr, p) ->
  slot_on hdr keyslot ks v vk d -> key_works env v password vk s -> commit_ready env hdr d -> d_lh d = None ->
  (forall m, 0 <= acquire_result os m) ->
  LUKS2_keyslot_handler hdr keyslot = Some luks2_keyslot -> luks2_keyslot_validate ks = 0 ->
  0 <= LUKS2_digest_verify (disk_next hdr) vk keyslot -> LUKS2_keyslot_for_segment (disk_next hdr) keyslot segment = 0 ->
  benign (f_sched (d_file d)) -> seqid_current hdr (f_data (d_file d)) ->
  exists d1 d2, LUKS2_keyslot_store env hdr0 keyslot password vk params d = Some ((keyslot, disk_next hdr, p), d1) /\
    LUKS2_keyslot_open env (disk_next hdr) keyslot segment password d1 =
      Some ((keyslot, Some (LUKS2_digest_by_keyslot (disk_next hdr) keyslot, vk)), d2) /\
    slot_only hdr v (material_bytes (zlen vk)) (d_file d) (d_file d1).
Proof.
  intros Hi Hs Ho Hk Hc Hl Ha Hh Hval Hd Hseg Hb Hq.
  destruct (luks2_store_run env hdr keyslot ks v password vk s d Ho Hk Hc Hl) as (r & hdr' & d1 & E1 & L1 & O1 & B1).
  destruct (B1 Hb Hq (Ha _)) as (-> & -> & M1). destruct (disk_next_keyslot hdr keyslot) as [Kj Kh].
  assert (Ho1 : slot_on (disk_next hdr) keyslot ks v vk d1).
  { destruct Ho as [J V A P], O1 as (S1 & _). destruct (erase_unused_fields hdr) as (Es & _). split; try done; [congruence| |].
    - destruct A. split; try done. by rewrite S1.
    - cbn [hdr_size disk_next next_hdr set_seqid]. by rewrite Es. }
  destruct (luks2_open_run env (disk_next hdr) keyslot ks v password vk s d1) as (r & vk' & d2 & E2 & _ & _ & B2); try done.
  { destruct O1 as (S1 & _). apply (dev_ready_size _ d); [apply Hc|done]. }
  exists d1, d2. split; [|split; [|done]].
  { unfold LUKS2_keyslot_store. rewrite Hs. cbn [negb Z.eqb]. by erewrite bind_run by exact E1. }
  destruct B2 as [-> ->]; [by apply O1|]. destruct (kw_size _ _ _ _ _ Hk) as [K1 K2].
  unfold LUKS2_keyslot_open, CRYPT_ANY_SLOT. rewrite (proj2 (Z.eqb_neq keyslot (-1))) by lia.
  unfold LUKS2_open_and_verify. rewrite (proj2 (Z.ltb_ge keyslot 0)) by lia. rewrite Kh, Hh.
  unfold handler_validate. cbn [kh_validate luks2_keyslot]. rewrite Kj, (so_jobj _ _ _ _ _ _ Ho), Hval. cbn [negb Z.eqb].
  rewrite Hseg. cbn [negb Z.eqb]. unfold _open_and_verify.
  rewrite (stored_key_size (disk_next hdr) keyslot ks v), K1 by (apply Ho1). rewrite (proj2 (Z.ltb_ge (zlen vk) 0)) by lia.
  fold os. assert (Hm : alloc_fails os (zlen vk) = false).
  { apply Z.ltb_ge. pose proof (material_bytes_fits (zlen vk) ltac:(unfold in_u; lia)) as F. unfold LUKS_STRIPES in F.
    pose proof (proj2 (kw_memory _ _ _ _ _ Hk)) as Km. fold os in Km. lia. }
  rewrite Hm. unfold handler_open. cbn [kh_name luks2_keyslot]. rewrite bool_decide_true by done. rewrite E2. cbn beta match.
  cbn [Z.ltb Z.compare]. destruct (digest_verify_ok (disk_next hdr) vk keyslot Hd) as [Hv _]. rewrite Hv in *.
  by rewrite (proj2 (Z.ltb_ge _ 0) Hd).
Qed.
(** C5: A volume key that is stored in a keyslot is opened with its password: for
    a keyslot whose JSON was made by [LUKS2_keyslot_store_jobj], with its area
    behind the header and on the device, and a digest that matches the key,
    [LUKS2_keyslot_store] without I/O errors returns the keyslot and commits the
    header, and [LUKS2_keyslot_open] on what it leaves returns the keyslot, the
    digest and the key. Nothing changed but the copies of the header and the
    area of the keyslot. *)
Theorem luks2_key_roundtrip hdr0 hdr p params keyslot segment ks v password vk s d :
  0 <= keyslot -> LUKS2_keyslot_store_jobj (ky_kdf env) hdr0 keyslot (zlen vk) params = Some (0, hdr, p) ->
  slot_on hdr keyslot ks v vk d -> key_works env v password vk s -> commit_ready env hdr d -> d_lh d = None ->
  (forall m, 0 <= acquire_result os m) ->
  LUKS2_keyslot_handler hdr keyslot = Some luks2_keyslot -> luks2_keyslot_validate ks = 0 ->
  0 <= LUKS2_digest_verify (disk_next hdr) vk keyslot -> LUKS2_keyslot_for_segment (disk_next hdr) keyslot segment = 0 ->
  benign (f_sched (d_file d)) -> seqid_current hdr (f_data (d_file d)) ->
  exists d1 d2, LUKS2_keyslot_store env hdr0 keyslot password vk params d = Some ((keyslot, disk_next hdr, p), d1) /\
    LUKS2_keyslot_open env (disk_next hdr) keyslot segment password d1 =
      Some ((keyslot, Some (LUKS2_digest_by_keyslot (disk_next hdr) keyslot, vk)), d2) /\
    slot_only hdr v (material_bytes (zlen vk)) (d_file d) (d_file d1).
Proof. apply stored_key_opens. Qed.
End props.

(** ** An example *)

#[local] Existing Instances fx_hash fx_hash_laws fx_hmac fx_cipher fx_cipher_laws fx_crypt_pbkdf fx_pbkdf_laws.

Section example.
Local Open Scope string_scope.

Definition fx_32_zeros : string := "AAAAAAAAAAAAAAAAAAAAAAAAAAAAAAAAAAAAAAAAAAA=".

(** A header without keyslots; its digest is that of [fx_volume_key]. *)
Definition fx_key_doc : jtree :=
  JObject [
    ("keyslots", JObject []); ("tokens", JObject []); ("segments", JObject [("0", fx_segment 294912 "dynamic")]);
    ("digests", JObject [("0", JObject [
      ("type", JString "pbkdf2"); ("keyslots", JArray []); ("segments", JArray [JString "0"]); ("hash", JString "sha256");
      ("iterations", JInt 1000); ("salt", JString fx_32_zeros); ("digest", JString fx_32_zeros) ])]);
    ("config", JObject [("json_size", JString "12288"); ("keyslots_size", JString "262144")]) ].
End example.

Definition fx_volume_key : bytes := replicate 64 x04.
Definition fx_password : bytes := bytes_of_string "pw".

Definition fx_key_hdr0 (known : list jtree) : @luks2_hdr (jtree_json known) :=
  snd (LUKS2_digest_assign_jobj (fx_hdr known 0 fx_key_doc) 2 0 true).
Definition fx_key_store (known : list jtree) := LUKS2_keyslot_store_jobj fx_kdf_env (fx_key_hdr0 known) 2 64 fx_params.
Definition fx_key_stored (known : list jtree) : @luks2_hdr (jtree_json known) :=
  match fx_key_store known with Some (_, h, _) => h | None => fx_key_hdr0 known end.
Definition fx_key_pbkdf : crypt_pbkdf_type :=
  match fx_key_store [] with Some (_, _, p) => p | None => ke_pbkdf fx_kdf_env end.

Definition fx_key_tree : jtree := jobj (fx_key_stored []).
Abbreviation fx_key_json := (jtree_json [fx_key_tree]).
Definition fx_key_hdr : @luks2_hdr fx_key_json := fx_key_stored [fx_key_tree].

Definition fx_keys_env : keys_env :=
  KeysEnv fx_env (fx_wipe_env 512) fx_kdf_env (replicate 3999 (0, replicate 64 x07)) 0.
Definition fx_key_device (sched : list xfer) : device := Device (File (zeros (512 * 576)) 0 sched) None (-1) (-1).

Definition fx_key_ks : jtree := default JNull (LUKS2_get_keyslot_jobj fx_key_hdr 2).
Definition fx_key_view : slot_view :=
  default (SlotView 0 0 EmptyString EmptyString 0 [] fx_key_pbkdf []) (view_of (JC := fx_key_json) fx_key_ks).
Definition fx_area_key : bytes := replicate 64 xe7.
Definition fx_key_storage : crypt_storage := {|
  sector_size := 512; iv_shift := 0; s_cipher := fx_cipher_ctx fx_area_key;
  cipher_iv := {| type := IV_PLAIN64; iv_size := 16; iv_cipher := None; shift := 0 |};
|}.

Lemma stored_some {A} (x : option (Z * A * crypt_pbkdf_type)) (h0 : A) (p : crypt_pbkdf_type) :
  (fun y => (y.1.1, y.2)) <$> x = Some (0, p) -> x = Some (0, match x with Some (_, h, _) => h | None => h0 end, p).
Proof. destruct x as [[[r h] q]|]; [|done]. intros [= -> ->]. done. Qed.

Lemma fx_key_store_some : fx_key_store [fx_key_tree] = Some (0, fx_key_hdr, fx_key_pbkdf).
Proof. apply stored_some. vm_compute. reflexivity. Qed.

Lemma fx_key_size sched : f_size (d_file (fx_key_device sched)) = 294912.
Proof. unfold f_size, fx_key_device, zlen, zeros. cbn [d_file f_data]. rewrite length_replicate. lia. Qed.

Lemma fx_key_fields : slot_sector fx_key_view = 64 /\ material_bytes (zlen fx_volume_key) = 256000 /\ hdr_size fx_key_hdr = 16384.
Proof. split; [by vm_compute|]. split; by vm_compute. Qed.

Lemma hdr_ext `{JC : JsonC} (a b : luks2_hdr) :
  hdr_size a = hdr_size b -> seqid a = seqid b -> version a = version b -> label a = label b -> subsystem a = subsystem b ->
  checksum_alg a = checksum_alg b -> salt1 a = salt1 b -> salt2 a = salt2 b -> uuid a = uuid b -> jobj a = jobj b -> a = b.
Proof. destruct a, b. cbn. intros. by subst. Qed.

Lemma fx_key_next : disk_next fx_key_hdr = fx_hdr [fx_key_tree] 1 fx_key_tree.
Proof. apply hdr_ext; vm_compute; reflexivity. Qed.

Definition fx_key_text : bytes := bytes_of_string (jtree_print fx_key_tree).

Lemma fx_key_storable : storable (fx_hdr [fx_key_tree] 1 fx_key_tree).
Proof.
  split; [reflexivity|by vm_compute|left|fx_eval|fx_eval|fx_eval|fx_eval|fx_eval|fx_eval|fx_eval| |fx_eval|fx_eval].
  change (json_object_to_json_string_ext (jobj (fx_hdr [fx_key_tree] 1 fx_key_tree))) with fx_key_text.
  split; [|split; vm_compute; reflexivity]. unfold no_nul. apply (bool_decide_eq_true_1 _). fx_eval.
Qed.

Lemma fx_key_ready sched : granular 512 sched -> commit_ready fx_keys_env fx_key_hdr (fx_key_device sched).
Proof.
  intros Hg. pose proof (fx_key_size sched) as Hs. split.
  - split; try done; cbn [env_block_size env_alignment Luks2Disk.os ky_disk fx_keys_env fx_env fx_os d_file d_lh].
    + split; [lia|]. split; [by exists 1|by exists 8].
    + change (512 | f_size (d_file (fx_key_device sched))). rewrite Hs. by exists 576.
  - done.
  - apply fx_mem.
  - rewrite fx_key_next. apply fx_key_storable.
  - rewrite Hs, (proj2 (proj2 fx_key_fields)). lia.
  - rewrite Hs. vm_compute. congruence.
Qed.

Lemma fx_key_works : key_works fx_keys_env fx_key_view fx_password fx_volume_key fx_key_storage.
Proof.
  split.
  - split; [by vm_compute|]. unfold fx_volume_key, zlen. rewrite length_replicate. lia.
  - split; vm_compute; congruence.
  - by vm_compute.
  - split; [|by vm_compute]. apply Forall_replicate. split; [done|by vm_compute].
  - right. done.
  - by vm_compute.
  - assert (E : area_key fx_key_view fx_password = (0, fx_area_key)) by by vm_compute.
    assert (C1 : sv_cipher fx_key_view = "aes"%string) by by vm_compute.
    assert (C2 : sv_mode fx_key_view = "xts-plain64"%string) by by vm_compute. rewrite E, C1, C2. vm_compute. reflexivity.
  - split; [intros sec|intros iv data]; eexists; [|by apply (eq_refl : cipher_encrypt (fx_cipher_ctx fx_area_key) iv data = _)].
    unfold crypt_sector_iv_generate. cbn [cipher_iv fx_key_storage CryptStorage.type]. reflexivity.
Qed.

Lemma fx_key_slot sched : slot_on fx_key_hdr 2 fx_key_ks fx_key_view fx_volume_key (fx_key_device sched).
Proof.
  destruct fx_key_fields as (Es & Em & Eh). split.
  - vm_compute. reflexivity.
  - vm_compute. reflexivity.
  - rewrite Es, Em. split; rewrite ?fx_key_size; unfold SECTOR_SIZE; try lia. split; [lia|by exists 500].
  - rewrite Es, Eh. unfold SECTOR_SIZE. lia.
Qed.

Lemma fx_key_handler : LUKS2_keyslot_handler fx_key_hdr 2 = Some luks2_keyslot.
Proof.
  unfold LUKS2_keyslot_handler. assert (E1 : LUKS2_get_keyslot_jobj fx_key_hdr 2 = Some fx_key_ks) by by vm_compute.
  assert (E2 : assoc (jtree_entries fx_key_ks) "type" = Some (JString "luks2")) by by vm_compute.
  rewrite E1. cbn [mbind option_bind json_object_object_get_ex jtree_json]. by rewrite E2.
Qed.

Lemma luks2_key_roundtrip_witness :
  exists d1 d2, LUKS2_keyslot_store fx_keys_env (fx_key_hdr0 [fx_key_tree]) 2 fx_password fx_volume_key fx_params (fx_key_device [Xfer 512]) =
      Some ((2, disk_next fx_key_hdr, fx_key_pbkdf), d1) /\
    LUKS2_keyslot_open fx_keys_env (disk_next fx_key_hdr) 2 0 fx_password d1 = Some ((2, Some (0, fx_volume_key)), d2).
Proof.
  destruct (luks2_key_roundtrip fx_keys_env (fx_key_hdr0 [fx_key_tree]) fx_key_hdr fx_key_pbkdf fx_params 2 0 fx_key_ks fx_key_view fx_password
    fx_volume_key fx_key_storage (fx_key_device [Xfer 512])) as (d1 & d2 & E1 & E2 & _).
  - lia.
  - apply fx_key_store_some.
  - apply fx_key_slot.
  - exact fx_key_works.
  - apply fx_key_ready. repeat constructor. by exists 1.
  - done.
  - done.
  - apply fx_key_handler.
  - by vm_compute.
  - by vm_compute.
  - by vm_compute.
  - repeat constructor.
  - by vm_compute.
  - exists d1, d2. split; [exact E1|exact E2].
Defined.

Lemma fx_key_opens :
  exists d1 d2, LUKS2_keyslot_store fx_keys_env (fx_key_hdr0 [fx_key_tree]) 2 fx_password fx_volume_key fx_params (fx_key_device [Xfer 512]) =
      Some ((2, disk_next fx_key_hdr, fx_key_pbkdf), d1) /\
    LUKS2_keyslot_open fx_keys_env (disk_next fx_key_hdr) 2 0 fx_password d1 = Some ((2, Some (0, fx_volume_key)), d2).
Proof.
  destruct (stored_key_opens fx_keys_env (fx_key_hdr0 [fx_key_tree]) fx_key_hdr fx_key_pbkdf fx_params 2 0 fx_key_ks fx_key_view fx_password
    fx_volume_key fx_key_storage (fx_key_device [Xfer 512])) as (d1 & d2 & E1 & E2 & _).
  - lia.
  - apply fx_key_store_some.
  - apply fx_key_slot.
  - exact fx_key_works.
  - apply fx_key_ready. repeat constructor. by exists 1.
  - done.
  - done.
  - apply fx_key_handler.
  - by vm_compute.
  - by vm_compute.
  - by vm_compute.
  - repeat constructor.
  - by vm_compute.
  - exists d1, d2. split; [exact E1|exact E2].
Qed.

Lemma luks2_open_verified_witness :
  exists d1 d2, LUKS2_keyslot_open fx_keys_env (disk_next fx_key_hdr) 2 0 fx_password d1 = Some ((2, Some (0, fx_volume_key)), d2) /\
    PBKDF2_digest_verify (disk_next fx_key_hdr) (LUKS2_digest_by_keyslot (disk_next fx_key_hdr) 2) fx_volume_key = 0.
Proof.
  destruct fx_key_opens as (d1 & d2 & _ & E). exists d1, d2. split; [exact E|].
  destruct (luks2_open_verified fx_keys_env (disk_next fx_key_hdr) 2 0 fx_password d1 2 (Some (0, fx_volume_key)) d2 E) as [[_ H] _].
  destruct (H ltac:(lia)) as (key & K & _ & _ & V). 
  apply (f_equal (fun o => match o with Some (_, k) => k | None => [] end)) in K. change (fx_volume_key = key) in K. rewrite K. exact V.
Defined.
