(* ===== verification/Luks2Info.v ===== *)
(** * Luks2Info: what a LUKS2 header tells, and its backup

    The getters of lib/luks2/luks2_json_metadata.c, changes of the UUID and of
    the labels, the backup of a header to a file and its restoration; and the
    defaults of a new keyslot (luks2_keyslot.c). *)

From S2P Require Import Prelude UtilsIO CryptBackend UtilsCrypt CryptStorage Cstd JsonC Luks2Json Luks2Keyslot Luks2Edit Luks2Areas Luks2Validate Device Wipe Luks2Format Luks2Disk Luks2KeyslotIo Pbkdf.
From Stdlib Require Import Strings.Byte.

Section info.
Context `{JC : JsonC} `{CH : CryptHash} `{CC : CryptCipher} `{CP : CryptPbkdf} `{LU : LibUuid}.

(** ** Getters *)

(** [None] is NULL. *)
Definition LUKS2_get_cipher (hdr : luks2_hdr) (segment : Z) : option string :=
  let segment := if segment =? CRYPT_DEFAULT_SEGMENT then LUKS2_get_default_segment hdr else segment in
  match json_get_segments_jobj (jobj hdr) ≫= (fun j => json_segments_get_segment j segment) with
  | None => None
  | Some jobj_segment => Some (json_segment_get_cipher (Some jobj_segment))
  end.

Definition LUKS2_get_integrity (hdr : luks2_hdr) (segment : Z) : option string :=
  jobj1 ← LUKS2_get_segment_jobj hdr segment;
  jobj2 ← json_object_object_get_ex jobj1 "integrity";
  jobj3 ← json_object_object_get_ex jobj2 "type";
  Some (json_object_get_string jobj3).

Definition LUKS2_integrity_compatible (hdr : luks2_hdr) : bool :=
  let none jobj3 key :=
    match json_object_object_get_ex jobj3 key with
    | Some jobj4 => bool_decide (json_object_get_string jobj4 = "none"%string)
    | None => false
    end in
  match json_object_object_get_ex (jobj hdr) "segments", LUKS2_get_segment_jobj hdr CRYPT_DEFAULT_SEGMENT with
  | Some _, Some jobj2 =>
      match json_object_object_get_ex jobj2 "integrity" with
      | None => false
      | Some jobj3 => none jobj3 "journal_encryption"%string && none jobj3 "journal_integrity"%string
      end
  | _, _ => false
  end.

Definition LUKS2_get_sector_size (hdr : luks2_hdr) : Z :=
  match LUKS2_get_segment_jobj hdr CRYPT_DEFAULT_SEGMENT with
  | None => SECTOR_SIZE
  | Some jobj_segment =>
      let s := json_segment_get_sector_size (Some jobj_segment) in
      if s =? 0 then SECTOR_SIZE else s
  end.

(** ** Defaults of a keyslot *)

(** [tag_size] is [crypt_get_integrity_tag_size] of the context. *)
Definition LUKS2_keyslot_cipher_incompatible (tag_size : Z) (cipher_spec : option string) : bool :=
  match cipher_spec with
  | None => true
  | Some spec =>
      crypt_is_cipher_null cipher_spec ||
      match crypt_parse_name_and_mode spec false with
      | inl _ => true
      | inr c =>
          negb (tag_size =? 0) || crypt_cipher_wrapped_key (cipher c) (Some (cipher_mode c)) ||
          (crypt_cipher_ivsize (cipher c) (Some (cipher_mode c)) <? 0)
      end
  end.

(** The encryption of the keyslots of the context is an argument. *)
Definition LUKS2_keyslot_params_default (cd_pbkdf : crypt_pbkdf_type) (encryption : option (string * Z)) : Z + luks2_keyslot_params :=
  match crypt_get_pbkdf_type cd_pbkdf, encryption with
  | Some pbkdf, Some (cipher_spec, key_size) =>
      let hash := default DEFAULT_LUKS1_HASH (p_hash pbkdf) in
      if (key_size =? 0) || (65 <=? Z.of_nat (String.length cipher_spec)) || (LUKS2_CHECKSUM_ALG_L <=? Z.of_nat (String.length hash))
      then inl (- EINVAL)
      else inr (KeyslotParams LUKS2_KEYSLOT_AF_LUKS1 LUKS2_KEYSLOT_AREA_RAW hash 4000 cipher_spec key_size)
  | _, _ => inl (- EINVAL)
  end.

Definition LUKS2_keyslot_reencrypt_create (hdr : luks2_hdr) (keyslot data_shift : Z) (mode : crypt_reencrypt_mode_info)
    (direction : crypt_reencrypt_direction_info) : Z * luks2_hdr :=
  if keyslot =? CRYPT_ANY_SLOT then (- EINVAL, hdr)
  else
    let '(r, hdr) := reenc_keyslot_alloc hdr keyslot data_shift mode direction in
    if r <? 0 then (r, hdr)
    else
      let '(r, hdr) := LUKS2_keyslot_priority_set_jobj hdr keyslot CRYPT_SLOT_PRIORITY_IGNORE in
      if r <? 0 then (r, hdr)
      else
        let r := handler_validate reenc_keyslot (LUKS2_get_keyslot_jobj hdr keyslot) in
        if negb (r =? 0) then (r, hdr)
        else if negb (LUKS2_hdr_validate (jobj hdr) (hdr_size hdr -64 LUKS2_HDR_BIN_LEN) =? 0) then (- EINVAL, hdr)
        else (0, hdr).

(** ** UUID and labels *)

Definition set_uuid (hdr : luks2_hdr) (u : bytes) : luks2_hdr :=
  Luks2Hdr _ (hdr_size hdr) (seqid hdr) (version hdr) (label hdr) (subsystem hdr) (checksum_alg hdr) (salt1 hdr) (salt2 hdr) u (jobj hdr).

Definition set_labels (hdr : luks2_hdr) (l s : bytes) : luks2_hdr :=
  Luks2Hdr _ (hdr_size hdr) (seqid hdr) (version hdr) l s (checksum_alg hdr) (salt1 hdr) (salt2 hdr) (uuid hdr) (jobj hdr).

Section io.
Variable env : keys_env.
Let os : os_env := os (ky_disk env).

(** [generated] is uuid_generate(3). *)
Definition LUKS2_hdr_uuid (generated : bytes) (hdr : luks2_hdr) (uuid_arg : option bytes) : M (Z * luks2_hdr) :=
  match (match uuid_arg with Some u => uuid_parse u | None => Some generated end) with
  | None => mret (- EINVAL, hdr)
  | Some partitionUuid => LUKS2_hdr_write env (set_uuid hdr (splice 0 (uuid_unparse partitionUuid ++ [x00]) (uuid hdr)))
  end.

(** A zeroed field with at most [LUKS2_LABEL_L - 1] bytes of a string. *)
Definition label_field (s : option bytes) : bytes :=
  match s with
  | Some s => strncpy (LUKS2_LABEL_L - 1) s ++ [x00]
  | None => zeros (Z.to_nat LUKS2_LABEL_L)
  end.

Definition LUKS2_hdr_labels (hdr : luks2_hdr) (label_arg subsystem_arg : option bytes) (commit : bool) : M (Z * luks2_hdr) :=
  let hdr := set_labels hdr (label_field label_arg) (label_field subsystem_arg) in
  if commit then LUKS2_hdr_write env hdr else mret (0, hdr).

(** ** Backup and restore *)

(** Files: the creation of a backup, the bytes a write of a size stores, and
    for a restoration the file as a device (with the result of its allocation),
    as it is opened (or not), the user's confirmation, and whether the message
    for it fits its buffer. *)
Record backup_env := BackupEnv {
  bk_create_file : bool;
  bk_store_file : Z -> Z;
  bk_alloc : Z;
  bk_disk : disk_env;
  bk_device : device;
  bk_open : option file;
  bk_confirm : bool;
  bk_message_fits : bool;
}.

Variable bk : backup_env.

(** Code and the contents of the new file. *)
Definition LUKS2_hdr_backup (pagesize : Z) (hdr : luks2_hdr) : M (Z * option bytes) :=
  let hdr_size := i64 (LUKS2_hdr_and_areas_size hdr) in
  let buffer_size := i64 (size_round_up (u64 hdr_size) pagesize) in
  if safe_alloc_fails os (u64 buffer_size) then mret (- ENOMEM, None)
  else
    r ← device_read_lock os;
    if negb (r =? 0) then mret (r, None)
    else
      devfd ← device_open_locked os O_RDONLY;
      if devfd <? 0 then
        _ ← device_read_unlock os;
        mret (if devfd =? -1 then - EINVAL else devfd, None)
      else
        '(n, buf) ← dev_read os devfd hdr_size 0;
        if n <? hdr_size then
          _ ← device_read_unlock os;
          mret (- EIO, None)
        else
          _ ← device_read_unlock os;
          if negb (bk_create_file bk) then mret (- EINVAL, None)
          else
            let buffer := buf ++ zeros (Z.to_nat (buffer_size - hdr_size)) in
            let ret := bk_store_file bk buffer_size in
            mret (if ret <? buffer_size then - EIO else 0, Some (take (Z.to_nat ret) buffer)).

(** The header in the backup file: the error of its lock, or code and header. *)
Definition read_backup_hdr (hdr_file : luks2_hdr) : option (Z + Z * luks2_hdr) :=
  let os := Luks2Disk.os (bk_disk bk) in
  fst <$> (r ← device_read_lock os;
           if negb (r =? 0) then mret (inl r)
           else
             '(r, hdr_file) ← LUKS2_disk_hdr_read (bk_disk bk) hdr_file false false;
             _ ← device_read_unlock os;
             mret (inr (r, hdr_file))) (bk_device bk).

(** A header in zeroed memory. *)
Definition empty_hdr : luks2_hdr :=
  Luks2Hdr _ 0 0 0 (zeros 48) (zeros 48) (zeros 32) (zeros 64) (zeros 64) (zeros 40) json_null.

(** What the header on the device, if there is one, demands of the backup's. *)
Definition restore_compatible (tmp_hdr hdr_file : luks2_hdr) (buffer_size : Z) : bool :=
  reqs_reencrypt (LUKS2_config_get_requirements tmp_hdr) ||
  ((LUKS2_get_data_offset tmp_hdr =? LUKS2_get_data_offset hdr_file) && (buffer_size =? i64 (LUKS2_hdr_and_areas_size tmp_hdr))).

(** The write of the restored bytes. *)
Definition restore_write (buffer : bytes) (buffer_size : Z) : M Z :=
  r ← device_write_lock os;
  if r <? 0 then mret r
  else
    devfd ← device_open_locked os O_RDWR;
    if devfd <? 0 then
      _ ← device_write_unlock os;
      mret (- EINVAL)
    else
      w ← dev_write os devfd buffer buffer_size 0;
      _ ← device_write_unlock os;
      mret (if w <? buffer_size then - EIO else 0).

(** Code and header, whose object is freed once the backup was read. *)
Definition LUKS2_hdr_restore (hdr : luks2_hdr) : M (Z * luks2_hdr) :=
  if bk_alloc bk <? 0 then mret (bk_alloc bk, hdr)
  else
    let out r := _ ← device_sync; mret (r, set_jobj hdr json_null) in
    match read_backup_hdr empty_hdr with
    | None => fun _ => None
    | Some (inl r) => mret (r, hdr)
    | Some (inr (r, hdr_file)) =>
        if r <? 0 then out r
        else if negb (LUKS2_unmet_requirements hdr_file CRYPT_REQUIREMENT_ONLINE_REENCRYPT =? 0) then out (- ETXTBSY)
        else
          let buffer_size := i64 (LUKS2_hdr_and_areas_size hdr_file) in
          if safe_alloc_fails os (u64 buffer_size) then out (- ENOMEM)
          else match bk_open bk with
          | None => out (- EINVAL)
          | Some f =>
              let '(n, buffer, _) := read_buffer 0 buffer_size f in
              if n <? buffer_size then out (- EIO)
              else
                '(r, tmp_hdr) ← LUKS2_hdr_read env empty_hdr false;
                if (r =? 0) && negb (restore_compatible tmp_hdr hdr_file buffer_size) then out (- EINVAL)
                else if negb (bk_message_fits bk) then out (- ENOMEM)
                else if negb (bk_confirm bk) then out (- EINVAL)
                else
                  r ← restore_write buffer buffer_size;
                  out r
          end
    end.
End io.
End info.
