(* ===== verification/Luks2Token.v ===== *)
(** * Luks2Token: tokens of a LUKS2 header (lib/luks2/luks2_token.c)

    The table of token handlers of the process, to which plug-ins are added
    when they are first needed; creating, removing and opening tokens. The
    kernel's keyring and the plug-ins are parameters; the built-in handler is
    luks2_token_keyring.c. *)

From S2P Require Import Prelude UtilsIO CryptBackend UtilsCrypt CryptStorage Cstd JsonC Luks2Json Luks2Keyslot Luks2Edit Luks2Areas Luks2Validate Device Wipe Luks2Format Luks2Disk Luks2KeyslotIo Pbkdf.
From Stdlib Require Import Strings.Byte Ascii.

Local Open Scope string_scope.
Local Open Scope Z_scope.

Definition LUKS2_BUILTIN_TOKEN_PREFIX : string := "luks2-".
Definition LUKS2_TOKEN_KEYRING : string := "luks2-keyring".
Definition LUKS2_TOKEN_NAME_MAX : Z := 64.
Definition CRYPT_ACTIVATE_ALLOW_UNBOUND_KEY : Z := Z.shiftl 1 16.

Inductive crypt_token_info :=
| CRYPT_TOKEN_INVALID | CRYPT_TOKEN_INACTIVE | CRYPT_TOKEN_INTERNAL | CRYPT_TOKEN_INTERNAL_UNKNOWN
| CRYPT_TOKEN_EXTERNAL | CRYPT_TOKEN_EXTERNAL_UNKNOWN.

#[export] Instance crypt_token_info_eq_dec : EqDecision crypt_token_info.
Proof. solve_decision. Defined.

(** isalnum(3) in the C locale *)
Definition isalnum (c : Ascii.ascii) : bool :=
  isdigit c || ((65 <=? ascii_val c) && (ascii_val c <=? 90)) || ((97 <=? ascii_val c) && (ascii_val c <=? 122)).

Definition external_token_name_valid (name : string) : bool :=
  negb (bool_decide (name = "")) && (Z.of_nat (String.length name) <=? LUKS2_TOKEN_NAME_MAX) &&
  forallb (fun c => isalnum c || Ascii.eqb c "-" || Ascii.eqb c "_") (String.list_ascii_of_string name).

Definition is_builtin_candidate (type : string) : bool := String.prefix LUKS2_BUILTIN_TOKEN_PREFIX type.

Section token.
Context `{JC : JsonC} `{CH : CryptHash} `{CC : CryptCipher} `{CP : CryptPbkdf}.

(** ** Handlers *)

(** [crypt_token_handler]: opening gives a code and a buffer. A handler
    without name or open is not registered. *)
Record token_handler := TokenHandler {
  th_name : option string;
  th_open : option (luks2_hdr -> Z -> Z * bytes);
  th_open_pin : option (luks2_hdr -> Z -> bytes -> Z * bytes);
  th_validate : option (bytes -> Z);
}.

Definition token_json_to_string (jobj_token : json) : bytes := json_object_to_json_string_ext jobj_token.

(** [keyring_get_passphrase] of a description, which may be NULL *)
Definition keyring : Type := option string -> Z * bytes.

Definition keyring_open (k : keyring) (hdr : luks2_hdr) (token : Z) : Z * bytes :=
  match LUKS2_get_token_jobj hdr token with
  | None => (- EINVAL, [])
  | Some jobj_token =>
      let '(r, buffer) := k (json_object_get_string <$> json_object_object_get_ex jobj_token "key_description") in
      if r =? - ENOTSUP then (- ENOENT, buffer) else if r <? 0 then (- EPERM, buffer) else (0, buffer)
  end.

Definition keyring_validate (text : bytes) : Z :=
  match json_tokener_parse_ex text with
  | None => 1
  | Some (jobj_token, _) =>
      if negb (json_object_object_length jobj_token =? 3) then 1
      else match json_object_object_get_ex jobj_token "key_description" with
      | None => 1
      | Some jobj_key =>
          if negb (json_object_is_type jobj_key json_type_string) then 1
          else if bool_decide (json_object_get_string jobj_key = "") then 1 else 0
      end
  end.

(** What [snprintf] leaves in a buffer of the given size. *)
Definition LUKS2_token_keyring_json (buffer_size : Z) (key_description : string) : bytes :=
  let q := String (Ascii.ascii_of_nat 34) "" in
  take (Z.to_nat (buffer_size - 1))
    (bytes_of_string ("{ " ++ q ++ "type" ++ q ++ ": " ++ q ++ LUKS2_TOKEN_KEYRING ++ q ++ ", " ++ q ++ "keyslots" ++ q ++ ":[]," ++
       q ++ "key_description" ++ q ++ ":" ++ q ++ key_description ++ q ++ "}")).

Definition keyring_handler (k : keyring) : token_handler :=
  TokenHandler (Some LUKS2_TOKEN_KEYRING) (Some (keyring_open k)) None (Some keyring_validate).

Definition token_validate_v1 (h : token_handler) : bool :=
  bool_decide (is_Some (th_name h)) && bool_decide (is_Some (th_open h)).

(** The used part of [token_handlers]; slot 0 is the keyring's. *)
Definition token_table : Type := list token_handler.

Definition crypt_token_find_free (table : token_table) (name : string) : Z + Z :=
  if is_builtin_candidate name then inl (- EINVAL)
  else if existsb (fun h => bool_decide (th_name h = Some name)) table then inl (- EINVAL)
  else if Z.of_nat (length table) =? LUKS2_TOKENS_MAX then inl (- EINVAL)
  else inr (Z.of_nat (length table)).

Definition crypt_token_register (table : token_table) (handler : token_handler) : Z * token_table :=
  if negb (token_validate_v1 handler) then (- EINVAL, table)
  else match crypt_token_find_free table (default "" (th_name handler)) with
  | inl r => (r, table)
  | inr _ => (0, (table ++ [handler])%list)
  end.

(** The plug-in with a name, if its library has what is needed. *)
Definition plugins : Type := string -> option token_handler.

Definition crypt_token_load_external (dl : plugins) (name : string) : option token_handler :=
  if negb (external_token_name_valid name) then None
  else match dl name with
  | Some h => if token_validate_v1 h then Some h else None
  | None => None
  end.

(** The handler of a type; a plug-in that was loaded stays in the table. *)
Definition LUKS2_token_handler_type (dl : plugins) (table : token_table) (type : string) : option token_handler * token_table :=
  match List.find (fun h => bool_decide (th_name h = Some type)) table with
  | Some h => (Some h, table)
  | None =>
      if LUKS2_TOKENS_MAX <=? Z.of_nat (length table) then (None, table)
      else if is_builtin_candidate type then (None, table)
      else match crypt_token_load_external dl type with
      | None => (None, table)
      | Some h => (Some h, (table ++ [h])%list)
      end
  end.

Definition LUKS2_token_handler (dl : plugins) (table : token_table) (hdr : luks2_hdr) (token : Z) : option token_handler * token_table :=
  if token <? 0 then (None, table)
  else match LUKS2_get_token_jobj hdr token ≫= (fun jobj1 => json_object_object_get_ex jobj1 "type") with
  | None => (None, table)
  | Some jobj2 => LUKS2_token_handler_type dl table (json_object_get_string jobj2)
  end.

(** ** Tokens in the header *)

(** The change of the header in memory: code or token, header, table. *)
Definition LUKS2_token_create_jobj (dl : plugins) (table : token_table) (hdr : luks2_hdr) (token : Z) (text : option bytes)
    : Z * luks2_hdr * token_table :=
  if (token =? CRYPT_ANY_TOKEN) && negb (bool_decide (is_Some text)) then (- EINVAL, hdr, table)
  else
    let token := if token =? CRYPT_ANY_TOKEN then LUKS2_token_find_free hdr else token in
    if (token <? 0) || (LUKS2_TOKENS_MAX <=? token) then (- EINVAL, hdr, table)
    else if negb (bool_decide (is_Some (json_object_object_get_ex (jobj hdr) "tokens"))) then (- EINVAL, hdr, table)
    else
      let num := dec_u token in
      let remove hdr := update_section hdr "tokens" (fun s => json_object_object_del s num) in
      match text with
      | None => (token, remove hdr, table)
      | Some text =>
          match json_tokener_parse_ex text with
          | None => (- EINVAL, hdr, table)
          | Some (jobj_token, _) =>
              if negb (LUKS2_token_validate (jobj hdr) jobj_token =? 0) then (- EINVAL, hdr, table)
              else
                let type := json_object_get_string (json_get jobj_token "type") in
                let '(h, table) := LUKS2_token_handler_type dl table type in
                if is_builtin_candidate type && negb (bool_decide (is_Some h)) then (- EINVAL, hdr, table)
                else if match h with
                        | Some h => match th_validate h with Some v => negb (v text =? 0) | None => false end
                        | None => false
                        end then (- EINVAL, hdr, table)
                else
                  let hdr := update_section hdr "tokens" (fun s => json_object_object_add s num jobj_token) in
                  if negb (LUKS2_check_json_size hdr =? 0) then (- ENOSPC, remove hdr, table)
                  else (token, hdr, table)
          end
      end.

(** Status and the name of the type. *)
Definition LUKS2_token_status (dl : plugins) (table : token_table) (hdr : luks2_hdr) (token : Z)
    : crypt_token_info * option string * token_table :=
  if (token <? 0) || (LUKS2_TOKENS_MAX <=? token) then (CRYPT_TOKEN_INVALID, None, table)
  else match LUKS2_get_token_jobj hdr token with
  | None => (CRYPT_TOKEN_INACTIVE, None, table)
  | Some jobj_token =>
      let tmp := json_object_get_string (json_get jobj_token "type") in
      match LUKS2_token_handler_type dl table tmp with
      | (Some th, table) =>
          (if is_builtin_candidate tmp then CRYPT_TOKEN_INTERNAL else CRYPT_TOKEN_EXTERNAL, th_name th, table)
      | (None, table) =>
          (if is_builtin_candidate tmp then CRYPT_TOKEN_INTERNAL_UNKNOWN else CRYPT_TOKEN_EXTERNAL_UNKNOWN, Some tmp, table)
      end
  end.

Definition LUKS2_token_json_get (hdr : luks2_hdr) (token : Z) : Z + bytes :=
  match LUKS2_get_token_jobj hdr token with
  | None => inl (- EINVAL)
  | Some jobj_token => inr (token_json_to_string jobj_token)
  end.

(** ** Opening *)

(** The first keyslot whose answer is not -ENOENT decides. *)
Fixpoint first_keyslot_for (hdr : luks2_hdr) (segment : Z) (l : list json) : Z :=
  match l with
  | [] => - ENOENT
  | j :: l =>
      let r := LUKS2_keyslot_for_segment hdr (atoi (json_object_get_string j)) segment in
      if negb (r =? - ENOENT) then r else first_keyslot_for hdr segment l
  end.

Definition token_for_segment (hdr : luks2_hdr) (jobj_token : option json) (segment : Z) : Z :=
  match jobj_token ≫= (fun t => json_object_object_get_ex t "keyslots") with
  | None => - EINVAL
  | Some jobj_array =>
      if (segment <? 0) && negb (segment =? CRYPT_ANY_SEGMENT) then - EINVAL
      else if json_object_array_length jobj_array <=? 0 then - ENOENT
      else if segment =? CRYPT_ANY_SEGMENT then 0
      else first_keyslot_for hdr segment (json_object_array_elems jobj_array)
  end.

Definition translate_errno (ret_val : Z) (type : string) : Z :=
  if ((0 <? ret_val) || (ret_val =? - EINVAL) || (ret_val =? - ENOENT)) && negb (is_builtin_candidate type) then - EPERM else ret_val.

(** Code, buffer and table; callers pass a token that is there. *)
Definition LUKS2_token_open (dl : plugins) (table : token_table) (hdr : luks2_hdr) (token : Z) (jobj_token : json)
    (type : option string) (segment : Z) (pin : option bytes) : Z * bytes * token_table :=
  let wrong :=
    match type with
    | None => 0
    | Some type =>
        match json_object_object_get_ex jobj_token "type" with
        | None => - EINVAL
        | Some jobj_type => if bool_decide (type = json_object_get_string jobj_type) then 0 else - ENOENT
        end
    end in
  if negb (wrong =? 0) then (wrong, [], table)
  else
    let r := token_for_segment hdr (Some jobj_token) segment in
    if r <? 0 then (r, [], table)
    else match LUKS2_token_handler dl table hdr token with
    | (None, table) => (- ENOENT, [], table)
    | (Some h, table) =>
        if match th_validate h with Some v => negb (v (token_json_to_string jobj_token) =? 0) | None => false end
        then (- ENOENT, [], table)
        else
          let run := match pin with
                     | Some pin => (fun open => open hdr token pin) <$> th_open_pin h
                     | None => (fun open => open hdr token) <$> th_open h
                     end in
          match run with
          | None => (- ENOENT, [], table)
          | Some (r, buffer) => (translate_errno r (default "" (th_name h)), buffer, table)
          end
    end.

Section open.
Variable env : keys_env.

(** The keyslots of a token in turn, until one opens. *)
Fixpoint open_keyslots (hdr : luks2_hdr) (segment : Z) (buffer : bytes) (l : list json) (num r : Z) : M (Z * option volume_key) :=
  match l with
  | [] => mret (if r <? 0 then r else num, None)
  | j :: l =>
      let num := atoi (json_object_get_string j) in
      '(r, vk) ← LUKS2_keyslot_open env hdr num segment buffer;
      if r <? 0 then open_keyslots hdr segment buffer l num r else mret (num, vk)
  end.

Definition LUKS2_keyslot_open_by_token (hdr : luks2_hdr) (token segment : Z) (buffer : bytes) : M (Z * option volume_key) :=
  match LUKS2_get_token_jobj hdr token with
  | None => mret (- EINVAL, None)
  | Some jobj_token =>
      match json_object_object_get_ex jobj_token "type", json_get_ptr jobj_token "keyslots" with
      | Some _, Some jobj_token_keyslots =>
          open_keyslots hdr segment buffer (json_object_array_elems jobj_token_keyslots) 0 (- ENOENT)
      | _, _ => mret (- EINVAL, None)
      end
  end.

(** A token, and the keyslot that its buffer opens. *)
Definition open_one_token (dl : plugins) (table : token_table) (hdr : luks2_hdr) (token : Z) (jobj_token : json)
    (type : option string) (segment : Z) (pin : option bytes) : M (Z * option volume_key * token_table) :=
  let '(r, buffer, table) := LUKS2_token_open dl table hdr token jobj_token type segment pin in
  if r =? 0 then
    '(r, vk) ← LUKS2_keyslot_open_by_token hdr token segment buffer;
    mret (r, vk, table)
  else mret (r, None, table).

Fixpoint open_tokens (dl : plugins) (table : token_table) (hdr : luks2_hdr) (type : option string) (segment : Z)
    (pin : option bytes) (l : list (string * json)) (r : Z) (vk : option volume_key) : M (Z * option volume_key * token_table) :=
  match l with
  | [] => mret (r, vk, table)
  | (slot, val) :: l =>
      '(r, vk, table) ← open_one_token dl table hdr (atoi slot) val type segment pin;
      if negb (r =? - ENOENT) && negb (r =? - EPERM) then mret (r, vk, table)
      else open_tokens dl table hdr type segment pin l r vk
  end.

(** The part of [LUKS2_token_open_and_activate] that opens a keyslot: the
    keyslot or an error, the key and the table. *)
Definition token_open_keyslot (dl : plugins) (table : token_table) (hdr : luks2_hdr) (token : Z) (type : option string)
    (pin : option bytes) (flags : Z) : M (Z * option volume_key * token_table) :=
  let unbound := negb (Z.land flags CRYPT_ACTIVATE_ALLOW_UNBOUND_KEY =? 0) in
  let segment := if unbound then CRYPT_ANY_SEGMENT else LUKS2_get_default_segment hdr in
  if negb unbound && (segment <? 0) then mret (- EINVAL, None, table)
  else if (0 <=? token) && (token <? LUKS2_TOKENS_MAX) then
    match LUKS2_get_token_jobj hdr token with
    | None => mret (- ENOENT, None, table)
    | Some jobj_token => open_one_token dl table hdr token jobj_token type segment pin
    end
  else if token =? CRYPT_ANY_TOKEN then
    open_tokens dl table hdr type segment pin (json_object_entries (json_get (jobj hdr) "tokens")) (- ENOENT) None
  else mret (- EINVAL, None, table).

Definition LUKS2_token_create (dl : plugins) (table : token_table) (hdr : luks2_hdr) (token : Z) (text : option bytes) (commit : bool)
    : M (Z * luks2_hdr * token_table) :=
  let '(r, hdr, table) := LUKS2_token_create_jobj dl table hdr token text in
  if (r <? 0) || negb commit then mret (r, hdr, table)
  else
    '(w, hdr) ← LUKS2_hdr_write env hdr;
    mret (if w =? 0 then r else w, hdr, table).

Definition LUKS2_token_assign (hdr : luks2_hdr) (keyslot token : Z) (assign commit : bool) : M (Z * luks2_hdr) :=
  let '(r, hdr) := LUKS2_token_assign_jobj hdr keyslot token assign in
  if (r <? 0) || negb commit then mret (r, hdr)
  else
    '(w, hdr) ← LUKS2_hdr_write env hdr;
    mret (if w =? 0 then r else w, hdr).
End open.
End token.
