(* ===== verification/Luks2Convert.v ===== *)
(** * Luks2Convert: conversion between LUKS1 and LUKS2 (lib/luks2/luks2_luks1_convert.c)

    The metadata of one format built from the other's, and the move of the
    keyslot areas. Both headers are on the metadata device of the context. *)

From S2P Require Import Prelude UtilsIO CryptBackend UtilsCrypt CryptStorage Cstd JsonC Luks2Json Luks2Keyslot Luks2Edit Luks2Areas Luks2Validate Device Wipe AF Base64 KeyEncryption Luks1 Luks2Format Luks2Disk Luks2KeyslotIo Luks2Info Pbkdf.
From Stdlib Require Import Strings.Byte.

Local Open Scope string_scope.
Local Open Scope Z_scope.


(** ** LUKS1 metadata as JSON *)

Section json.
Context `{JC : JsonC}.

(** "name-mode" in a buffer of 64 bytes, or the name alone. *)
Definition luks1_cipher (hdr_v1 : luks_phdr) : string :=
  if bool_decide (cstr (Luks1.cipherMode hdr_v1) = []) then c_string (cipherName hdr_v1)
  else String.substring 0 63 (c_string (cipherName hdr_v1) ++ "-" ++ c_string (Luks1.cipherMode hdr_v1)).

Definition base64_field (b : bytes) : option json := json_object_new_string ∘ string_of_bytes <$> base64_encode_alloc b.

(** An object of the given fields, added in order. *)
Definition json_object_of (l : list (string * json)) : json :=
  foldl (fun j kv => json_object_object_add j kv.1 kv.2) json_object_new_object l.

Definition json_luks1_keyslot (hdr_v1 : luks_phdr) (keyslot : Z) : Z + json :=
  let hash := json_object_new_string (c_string (hashSpec hdr_v1)) in
  need field from base64_field (passwordSalt (kb hdr_v1 keyslot)) else inl (- EINVAL) in
  let jobj_kdf := json_object_of [
    ("type", json_object_new_string CRYPT_KDF_PBKDF2); ("hash", hash);
    ("iterations", json_object_new_int64 (passwordIterations (kb hdr_v1 keyslot))); ("salt", field) ] in
  let jobj_af := json_object_of [ ("type", json_object_new_string "luks1"); ("hash", hash); ("stripes", json_object_new_int 4000) ] in
  let '(r0, offs_a, _) := LUKS_keyslot_area hdr_v1 0 in
  let '(r1, offs_b, _) := LUKS_keyslot_area hdr_v1 1 in
  let '(r, offset, _) := LUKS_keyslot_area hdr_v1 keyslot in
  if negb (r0 =? 0) || negb (r1 =? 0) || negb (r =? 0) then inl (- EINVAL)
  else
    let area_size := offs_b -64 offs_a in
    let jobj_area := json_object_of [
      ("type", json_object_new_string "raw"); ("encryption", json_object_new_string (luks1_cipher hdr_v1));
      ("key_size", json_object_new_int (i32 (keyBytes hdr_v1))); ("offset", crypt_jobj_new_uint64 offset);
      ("size", crypt_jobj_new_uint64 area_size) ] in
    inr (json_object_of [
      ("type", json_object_new_string "luks2"); ("key_size", json_object_new_int64 (keyBytes hdr_v1)); ("kdf", jobj_kdf);
      ("af", jobj_af); ("area", jobj_area) ]).

(** The enabled keyslots among the given ones are added. *)
Fixpoint add_luks1_keyslots (hdr_v1 : luks_phdr) (l : list Z) (keyslot_obj : json) : Z + json :=
  match l with
  | [] => inr keyslot_obj
  | keyslot :: l =>
      if negb (is_enabled (kb hdr_v1 keyslot)) then add_luks1_keyslots hdr_v1 l keyslot_obj
      else match json_luks1_keyslot hdr_v1 keyslot with
      | inl r => inl r
      | inr field => add_luks1_keyslots hdr_v1 l (json_object_object_add_by_uint keyslot_obj keyslot field)
      end
  end.

Definition json_luks1_keyslots (hdr_v1 : luks_phdr) : Z + json :=
  add_luks1_keyslots hdr_v1 (seqZ 0 LUKS_NUMKEYS) json_object_new_object.

Definition json_luks1_segment (hdr_v1 : luks_phdr) : json :=
  json_object_of [
    ("type", json_object_new_string "crypt"); ("offset", crypt_jobj_new_uint64 (payloadOffset hdr_v1 *64 SECTOR_SIZE));
    ("iv_tweak", json_object_new_string "0"); ("size", json_object_new_string "dynamic");
    ("encryption", json_object_new_string (luks1_cipher hdr_v1)); ("sector_size", json_object_new_int SECTOR_SIZE) ].

Definition json_luks1_segments (hdr_v1 : luks_phdr) : json :=
  json_object_object_add_by_uint json_object_new_object 0 (json_luks1_segment hdr_v1).

Definition json_luks1_digest (hdr_v1 : luks_phdr) : Z + json :=
  let enabled := List.filter (fun ks => is_enabled (kb hdr_v1 ks)) (seqZ 0 LUKS_NUMKEYS) in
  let keyslots := foldl (fun a ks => json_object_array_add a (json_object_new_string (dec_i32 ks))) json_object_new_array enabled in
  let segments := json_object_array_add json_object_new_array (json_object_new_string "0") in
  need salt from base64_field (mkDigestSalt hdr_v1) else inl (- EINVAL) in
  need digest from base64_field (mkDigest hdr_v1) else inl (- EINVAL) in
  inr (json_object_of [
    ("type", json_object_new_string "pbkdf2"); ("keyslots", keyslots); ("segments", segments);
    ("hash", json_object_new_string (c_string (hashSpec hdr_v1))); ("salt", salt); ("digest", digest);
    ("iterations", json_object_new_int64 (mkDigestIterations hdr_v1)) ]).

Definition json_luks1_digests (hdr_v1 : luks_phdr) : Z + json :=
  match json_luks1_digest hdr_v1 with
  | inl r => inl r
  | inr field => inr (json_object_of [ ("0", field) ])
  end.

Definition json_luks1_object (hdr_v1 : luks_phdr) (keyslots_size : Z) : Z + json :=
  match json_luks1_keyslots hdr_v1, json_luks1_digests hdr_v1 with
  | inl r, _ => inl r
  | _, inl r => inl r
  | inr keyslots, inr digests =>
      let config := json_object_of [
        ("json_size", crypt_jobj_new_uint64 (LUKS2_HDR_16K_LEN - LUKS2_HDR_BIN_LEN));
        ("keyslots_size", crypt_jobj_new_uint64 (keyslots_size - keyslots_size `mod` 4096)) ] in
      inr (json_object_of [
        ("keyslots", keyslots); ("tokens", json_object_new_object); ("segments", json_luks1_segments hdr_v1);
        ("digests", digests); ("config", config) ])
  end.

(** A keyslot with its area moved. *)
Definition move_offset (offset_add : Z) (val : json) : json :=
  let jobj_area := json_get val "area" in
  let offset := crypt_jobj_get_uint64 (json_get jobj_area "offset") +64 offset_add in
  json_object_object_add val "area" (json_object_object_add jobj_area "offset" (crypt_jobj_new_uint64 offset)).

Definition move_keyslot_offset (j : json) (offset_add : Z) : json :=
  let jobj1 := json_get j "keyslots" in
  json_object_object_add j "keyslots"
    (foldl (fun ks kv => json_object_object_add ks kv.1 (move_offset offset_add kv.2)) jobj1 (json_object_entries jobj1)).
End json.

(** ** Moving keyslot areas *)

(** The context's devices and derivations, the random salts of the new header,
    whether its device is in use (a code), and the size of a page. *)
Record convert_env := ConvertEnv {
  cv_keys : keys_env;
  cv_luks1 : luks1_env;
  cv_salt1 : bytes;
  cv_salt2 : bytes;
  cv_in_use : Z;
  cv_pagesize : Z;
}.

Section convert.
Context `{JC : JsonC} `{CH : CryptHash} `{CM : CryptHmac} `{CC : CryptCipher} `{CP : CryptPbkdf} `{LU : LibUuid}.
Variable env : convert_env.
Let os : os_env := os (ky_disk (cv_keys env)).

(** posix_fallocate(3) only reserves space, and may fail. *)
Definition move_keyslot_areas (offset_from offset_to buf_size : Z) : M Z :=
  if negb (we_memalign (ky_wipe (cv_keys env)) (cv_pagesize env) buf_size =? 0) then mret (- ENOMEM)
  else
    devfd ← device_open os O_RDWR;
    if devfd <? 0 then mret (- EIO)
    else
      '(n, _) ← dev_read os devfd buf_size offset_to;
      if negb (n =? i64 buf_size) then mret (- EIO)
      else
        '(n, buf) ← dev_read os devfd buf_size offset_from;
        if negb (n =? i64 buf_size) then mret (- EIO)
        else
          w ← dev_write os devfd buf buf_size offset_to;
          _ ← device_sync;
          mret (if negb (w =? i64 buf_size) then - EIO else 0).

Definition luks_header_in_use : Z := cv_in_use env.

Definition LM_MAGIC : bytes := bytes_of_string "LUKSMETA".

Definition luksmeta_header_present (luks1_size : Z) : M Z :=
  if negb (we_memalign (ky_wipe (cv_keys env)) (cv_pagesize env) 8 =? 0) then mret (- ENOMEM)
  else
    devfd ← device_open os O_RDONLY;
    if devfd <? 0 then mret (- EIO)
    else
      '(n, buf) ← dev_read os devfd 8 luks1_size;
      mret (if (n =? 8) && bool_decide (buf = LM_MAGIC) then - EBUSY else 0).

(** ** LUKS1 to LUKS2 *)

Definition luks1_shift : Z := 2 * LUKS2_HDR_16K_LEN - LUKS_ALIGN_KEYSLOTS.

(** The new header around the moved metadata. *)
Definition converted_hdr (hdr1 : luks_phdr) (j : json) : luks2_hdr :=
  Luks2Hdr _ LUKS2_HDR_16K_LEN 1 2 (zeros (Z.to_nat LUKS2_LABEL_L)) (zeros (Z.to_nat LUKS2_LABEL_L))
    (strncpy LUKS2_CHECKSUM_ALG_L (bytes_of_string "sha256")) (cv_salt1 env) (cv_salt2 env)
    (strncpy (LUKS2_UUID_L - 1) (ph_uuid hdr1) ++ [x00])%list j.

(** From the metadata on: checks of the header to be, the move of the areas
    and the write. *)
Definition convert_to_luks2 (hdr2 : luks2_hdr) (max_size luks1_size : Z) : M Z :=
  if max_size <? LUKS2_hdr_and_areas_size hdr2 then mret (- EINVAL)
  else if negb (LUKS2_hdr_validate (jobj hdr2) (hdr_size hdr2 -64 LUKS2_HDR_BIN_LEN) =? 0) then mret (- EINVAL)
  else if negb (luks_header_in_use =? 0) then mret (if 0 <? luks_header_in_use then - EBUSY else luks_header_in_use)
  else
    let buf_offset := 2 * LUKS2_HDR_16K_LEN in
    let buf_size := luks1_size -64 LUKS_ALIGN_KEYSLOTS in
    if LUKS2_keyslots_size hdr2 <? buf_size then mret (- EINVAL)
    else
      r ← move_keyslot_areas (8 * SECTOR_SIZE) buf_offset buf_size;
      if r <? 0 then mret r
      else
        '(r, _) ← LUKS2_hdr_write (cv_keys env) hdr2;
        mret r.

(** The header made is freed again; the caller reads it from the device. *)
Definition LUKS2_luks1_to_luks2 (hdr1 : luks_phdr) : M Z :=
  '(r, max_size) ← (let s := payloadOffset hdr1 *64 SECTOR_SIZE in
                    if s =? 0 then device_size os else mret (0, s));
  if negb (r =? 0) then mret r
  else
    let luks1_size := size_round_up (u64 (Z.shiftl (LUKS_device_sectors hdr1) 9)) LUKS_ALIGN_KEYSLOTS in
    if luks1_size =? 0 then mret (- EINVAL)
    else if negb (LUKS_keyslots_offset hdr1 =? LUKS_ALIGN_KEYSLOTS / SECTOR_SIZE) then mret (- EINVAL)
    else
      r ← luksmeta_header_present (i64 luks1_size);
      if negb (r =? 0) then mret (- EINVAL)
      else
        let required_size := luks1_size +64 luks1_shift in
        r ← (if max_size <? required_size then device_fallocate required_size else mret 0);
        if negb (r =? 0) then mret (- EINVAL)
        else
          let max_size := if max_size <? required_size then required_size else max_size in
          match json_luks1_object hdr1 (max_size -64 2 * LUKS2_HDR_16K_LEN) with
          | inl r => mret r
          | inr j => convert_to_luks2 (converted_hdr hdr1 (move_keyslot_offset j luks1_shift)) max_size luks1_size
          end.

(** ** LUKS2 to LUKS1 *)

Definition keyslot_LUKS1_compatible (hdr : luks2_hdr) (keyslot key_size : Z) (hash : string) : bool :=
  match LUKS2_get_keyslot_jobj hdr keyslot with
  | None => true
  | Some jobj_keyslot =>
      let value_is j key s := match json_object_object_get_ex j key with
                        | Some v => bool_decide (json_object_get_string v = s)
                        | None => false
                        end in
      value_is jobj_keyslot "type" "luks2" &&
      match json_object_object_get_ex jobj_keyslot "kdf", json_object_object_get_ex jobj_keyslot "af" with
      | Some jobj_kdf, Some jobj_af =>
          value_is jobj_kdf "type" CRYPT_KDF_PBKDF2 && value_is jobj_kdf "hash" hash &&
          match json_object_object_get_ex jobj_af "stripes" with
          | Some stripes => json_object_get_int stripes =? LUKS_STRIPES
          | None => false
          end && value_is jobj_af "hash" hash && negb (crypt_hash_size (bytes_of_string hash) <? 0) &&
          match LUKS2_get_keyslot_cipher hdr keyslot, LUKS2_get_cipher hdr CRYPT_DEFAULT_SEGMENT with
          | Some (ks_cipher, ks_key_size), Some data_cipher =>
              (key_size =? ks_key_size) && bool_decide (ks_cipher = data_cipher)
          | _, _ => false
          end &&
          let '(r, _, l2_length) := LUKS2_keyslot_area hdr keyslot in
          (r =? 0) && (l2_length =? size_round_up (AF_split_sectors key_size LUKS_STRIPES *64 SECTOR_SIZE) 4096)
      | _, _ => false
      end
  end.

(** Every keyslot in use is one LUKS1 can have. *)
Definition keyslots_compatible (hdr2 : luks2_hdr) (key_size : Z) (hash : string) : bool :=
  forallb (fun i =>
    match LUKS2_keyslot_info hdr2 i with
    | CRYPT_SLOT_INACTIVE => true
    | CRYPT_SLOT_INVALID => false
    | _ => (i <? LUKS_NUMKEYS) && keyslot_LUKS1_compatible hdr2 i key_size hash
    end) (seqZ 0 LUKS2_KEYSLOTS_MAX).

(** The area of a keyslot, which is reserved for one that is not there: its
    offset and the header. *)
Definition keyslot_offset (hdr2 : luks2_hdr) (i key_size : Z) : option (Z * luks2_hdr) :=
  match LUKS2_get_keyslot_jobj hdr2 i with
  | Some jobj_keyslot =>
      jobj_area ← json_object_object_get_ex jobj_keyslot "area";
      jobj1 ← json_object_object_get_ex jobj_area "offset";
      Some (crypt_jobj_get_uint64 jobj1, hdr2)
  | None =>
      let '(r, offset, area_length) := LUKS2_find_area_gap hdr2 key_size in
      if negb (r =? 0) then None
      else
        let '(r, hdr2) := placeholder_keyslot_alloc hdr2 i offset area_length in
        if negb (r =? 0) then None else Some (offset, hdr2)
  end.

(** Iterations and salt, as far as they can be read. *)
Definition luks1_password (jobj_keyslot : json) (k : luks_keyblock) : luks_keyblock :=
  need jobj_kdf from json_object_object_get_ex jobj_keyslot "kdf" else k in
  need jobj1 from json_object_object_get_ex jobj_kdf "iterations" else k in
  let k := set_password (crypt_jobj_get_uint32 jobj1) (passwordSalt k) k in
  need jobj1 from json_object_object_get_ex jobj_kdf "salt" else k in
  let '(ok, buf) := base64_decode (json_text jobj1) 256 in
  if negb ok then k
  else if (0 <? zlen buf) && negb (zlen buf =? LUKS_SALTSIZE) then k
  else set_password (passwordIterations k) (take (Z.to_nat LUKS_SALTSIZE) (buf ++ zeros 256)%list) k.

(** Keyslots from [i] on: the keyblocks, the last that is active, and the
    header with the reserved areas; [None] stands for -EINVAL. *)
Fixpoint luks1_keyblocks (n : nat) (i : Z) (hdr2 : luks2_hdr) (key_size last_active : Z)
    : option (list luks_keyblock) * Z * luks2_hdr :=
  match n with
  | O => (Some [], last_active, hdr2)
  | S n =>
      let jobj_keyslot := LUKS2_get_keyslot_jobj hdr2 i in
      match keyslot_offset hdr2 i key_size with
      | None => (None, last_active, hdr2)
      | Some (offset, hdr2) =>
          let offset := offset / SECTOR_SIZE in
          if UINT32_MAX <? offset then (None, last_active, hdr2)
          else
            let k := Keyblock LUKS_KEY_DISABLED 0 (zeros (Z.to_nat LUKS_SALTSIZE)) (u32 (offset - luks1_shift / SECTOR_SIZE)) LUKS_STRIPES in
            let '(k, last_active) := match jobj_keyslot with
                                     | None => (k, last_active)
                                     | Some j => (luks1_password j (set_active LUKS_KEY_ENABLED k), i)
                                     end in
            let '(ks, last_active, hdr2) := luks1_keyblocks n (i + 1) hdr2 key_size last_active in
            ((k ::.) <$> ks, last_active, hdr2)
      end
  end.

(** Digest and salt of the volume key, with their checks. *)
Definition luks1_digest (jobj_digest : json) : option (bytes * bytes * Z) :=
  iterations ← json_object_object_get_ex jobj_digest "iterations";
  jobj_value ← json_object_object_get_ex jobj_digest "digest";
  let '(ok, digest) := base64_decode (json_text jobj_value) LUKS_DIGESTSIZE in
  if negb ok || (zlen digest <? LUKS_DIGESTSIZE) then None
  else
    jobj_salt ← json_object_object_get_ex jobj_digest "salt";
    salt ← decode_salt jobj_salt;
    Some (digest, salt, crypt_jobj_get_uint32 iterations).

(** The cipher and hash of the keyslot the header's fields come from. *)
Definition luks1_specs (jobj_keyslot : json) : Z + (bytes * bytes * bytes) :=
  need jobj_area from json_object_object_get_ex jobj_keyslot "area" else inl (- EINVAL) in
  need jobj1 from json_object_object_get_ex jobj_area "encryption" else inl (- EINVAL) in
  match crypt_parse_name_and_mode (json_object_get_string jobj1) false with
  | inl r => inl r
  | inr c =>
      need jobj_kdf from json_object_object_get_ex jobj_keyslot "kdf" else inl (- EINVAL) in
      need jobj1 from json_object_object_get_ex jobj_kdf "hash" else inl (- EINVAL) in
      let field n s := (strncpy (n - 1) (bytes_of_string s) ++ [x00])%list in
      inr (field LUKS_CIPHERNAME_L (cipher c), field LUKS_CIPHERMODE_L (UtilsCrypt.cipher_mode c),
           field LUKS_HASHSPEC_L (json_object_get_string jobj1))
  end.

(** What LUKS1 demands of a LUKS2 header: the size of the volume key. *)
Definition luks1_convertible (hdr2 : luks2_hdr) (jobj_digest jobj_segment : json) : Z + Z :=
  if negb (json_segment_get_sector_size (Some jobj_segment) =? SECTOR_SIZE) then inl (- EINVAL)
  else
    let pbkdf2 := match json_object_object_get_ex jobj_digest "type" with
                  | Some t => bool_decide (json_object_get_string t = "pbkdf2")
                  | None => false
                  end in
    if negb pbkdf2 || negb (json_object_object_length (json_get (jobj hdr2) "digests") =? 1) then inl (- EINVAL)
    else
      need jobj2 from json_object_object_get_ex jobj_digest "hash" else inl (- EINVAL) in
      let hash := json_object_get_string jobj2 in
      need spec from LUKS2_get_cipher hdr2 CRYPT_DEFAULT_SEGMENT else inl (- EINVAL) in
      match crypt_parse_name_and_mode spec false with
      | inl r => inl r
      | inr c =>
          if crypt_cipher_wrapped_key (cipher c) (Some (UtilsCrypt.cipher_mode c)) then inl (- EINVAL)
          else
            let r := LUKS2_tokens_count hdr2 in
            if r <? 0 then inl r
            else if 0 <? r then inl (- EINVAL)
            else
              let key_size := LUKS2_get_volume_key_size hdr2 0 in
              if key_size <? 0 then inl (- EINVAL)
              else if keyslots_compatible hdr2 (u32 key_size) hash then inr (u32 key_size) else inl (- EINVAL)
      end.

(** The LUKS1 header, or the error, and the LUKS2 header with the areas that
    were reserved in it. *)
Definition luks1_of_luks2 (hdr2 : luks2_hdr) : (Z + luks_phdr) * luks2_hdr :=
  need jobj_digest from LUKS2_get_digest_jobj hdr2 0 else (inl (- EINVAL), hdr2) in
  need jobj_segment from LUKS2_get_segment_jobj hdr2 CRYPT_DEFAULT_SEGMENT else (inl (- EINVAL), hdr2) in
  match luks1_convertible hdr2 jobj_digest jobj_segment with
  | inl r => (inl r, hdr2)
  | inr key_size =>
      let last_keyslot := LUKS2_get_keyslot_jobj hdr2 (LUKS_NUMKEYS - 1) in
      let '(ks, last_active, hdr2') := luks1_keyblocks 8 0 hdr2 key_size 0 in
      let fail r := (inl r, hdr2') in
      need ks from ks else fail (- EINVAL) in
      need jobj_keyslot from (match last_keyslot with Some j => Some j | None => LUKS2_get_keyslot_jobj hdr2' last_active end)
        else fail (- EINVAL) in
      match luks1_specs jobj_keyslot with
      | inl r => fail r
      | inr (name, mode, hash) =>
          need digest from luks1_digest jobj_digest else fail (- EINVAL) in
          let '(mkDigest, mkDigestSalt, mkDigestIterations) := digest in
          need jobj1 from json_object_object_get_ex jobj_segment "offset" else fail (- EINVAL) in
          let offset := crypt_jobj_get_uint64 jobj1 / SECTOR_SIZE in
          if UINT32_MAX <? offset then fail (- EINVAL)
          else
            let uuid := (take 39 (strncpy UUID_STRING_L (uuid hdr2)) ++ [x00])%list in
            (inr (Phdr LUKS_MAGIC 1 name mode hash offset key_size mkDigest mkDigestSalt mkDigestIterations uuid ks (zeros 432)), hdr2')
      end
  end.

(** Code and both headers; the LUKS1 header is made unless an error came
    before. The result of the wipe is not looked at. *)
Definition LUKS2_luks2_to_luks1 (hdr2 : luks2_hdr) : M (Z * option luks_phdr * luks2_hdr) :=
  match luks1_of_luks2 hdr2 with
  | (inl r, hdr2) => mret (r, None, hdr2)
  | (inr hdr1, hdr2) =>
      let r := luks_header_in_use in
      if negb (r =? 0) then mret (if 0 <? r then - EBUSY else r, Some hdr1, hdr2)
      else
        let buf_offset := 2 * LUKS2_HDR_16K_LEN in
        let buf_size := LUKS2_keyslots_size hdr2 in
        r ← move_keyslot_areas buf_offset (8 * SECTOR_SIZE) buf_size;
        if r <? 0 then mret (r, Some hdr1, hdr2)
        else
          _ ← crypt_wipe_device (ky_wipe (cv_keys env)) CRYPT_WIPE_ZERO 0 (8 * SECTOR_SIZE) (8 * SECTOR_SIZE);
          '(r, hdr1) ← LUKS_write_phdr (cv_luks1 env) hdr1;
          mret (r, Some hdr1, hdr2)
  end.
End convert.
