(* ===== verification/Setup.v ===== *)
(** * Setup: the context of the library and its getters (lib/setup.c)

    A [crypt_device] has a type and, with it, the metadata of one of the
    formats. Operations on its metadata device run in the monad of [Device];
    [SetupKeyslot] has those that change it. *)

From S2P Require Import Prelude UtilsIO Keyfile CryptBackend UtilsCrypt CryptPlain CryptStorage Cstd JsonC Luks2Json Luks2Keyslot Luks2Edit Luks2Areas Device Integrity Wipe KeyEncryption Luks1 Luks2Format Luks2Disk Luks2KeyslotIo Luks2Info Luks2Convert Pbkdf.
From Stdlib Require Import Strings.Byte Ascii.

Local Open Scope string_scope.
Local Open Scope Z_scope.

Definition CRYPT_PLAIN : string := "PLAIN".
Definition CRYPT_LUKS1 : string := "LUKS1".
Definition CRYPT_LUKS2 : string := "LUKS2".
Definition CRYPT_LOOPAES : string := "LOOPAES".
Definition CRYPT_VERITY : string := "VERITY".
Definition CRYPT_TCRYPT : string := "TCRYPT".
Definition CRYPT_INTEGRITY : string := "INTEGRITY".
Definition CRYPT_BITLK : string := "BITLK".

Definition DEFAULT_LUKS2_KEYSLOT_CIPHER : string := "aes-xts-plain64".
Definition DEFAULT_LUKS2_KEYSLOT_KEYBITS : Z := 512.
Definition MAX_SECTOR_SIZE : Z := 4096.
Definition LUKS2_UUID_L : Z := 40.

Definition type_is (expected : string) (type : option string) : bool := bool_decide (type = Some expected).
Definition isPLAIN := type_is CRYPT_PLAIN.
Definition isLUKS1 := type_is CRYPT_LUKS1.
Definition isLUKS2 := type_is CRYPT_LUKS2.
Definition isLUKS (type : option string) : bool := isLUKS2 type || isLUKS1 type.
Definition isLOOPAES := type_is CRYPT_LOOPAES.
Definition isVERITY := type_is CRYPT_VERITY.
Definition isTCRYPT := type_is CRYPT_TCRYPT.
Definition isINTEGRITY := type_is CRYPT_INTEGRITY.
Definition isBITLK := type_is CRYPT_BITLK.

(** *** UUIDs of device-mapper *)

(** [i] runs over the UUID of the header, [j] over what follows the first dash. *)
Fixpoint uuid_prefix (hdr_uuid str : string) : bool :=
  match hdr_uuid with
  | EmptyString => true
  | String c hdr_uuid' =>
      if Ascii.eqb c "-"%char then uuid_prefix hdr_uuid' str
      else match str with
           | EmptyString => false
           | String d str' => negb (Ascii.eqb d "-"%char) && Ascii.eqb d c && uuid_prefix hdr_uuid' str'
           end
  end.

Definition crypt_uuid_cmp (dm_uuid hdr_uuid : option string) : Z :=
  match dm_uuid, hdr_uuid with
  | Some dm_uuid, Some hdr_uuid =>
      match strchr dm_uuid "-"%char with
      | Some (String _ str) => if uuid_prefix hdr_uuid str then 0 else - EINVAL
      | _ => - EINVAL
      end
  | _, _ => - EINVAL
  end.

Section setup.
Context `{JC : JsonC} `{CH : CryptHash} `{CC : CryptCipher}.

(** ** The context *)

(** Cipher of a mapping: specification, cipher, mode and size of the key. *)
Record cipher_info := CipherInfo { ci_spec : string; ci_cipher : string; ci_mode : string; ci_key_size : Z }.

(** [crypt_params_plain] and [crypt_params_loopaes] *)
Record plain_params := PlainParams { pl_hash : option string; pl_offset : Z; pl_skip : Z; pl_size : Z; pl_sector_size : Z }.

Record luks2_context := Luks2Context {
  l2_hdr : luks2_hdr;
  keyslot_cipher : option string;
  keyslot_key_size : Z;
  (** [rh] is not NULL *)
  l2_reencrypt : bool;
}.

(** The union, with the type as its tag. A context without type was perhaps
    initialised by the name of an active mapping (its cipher, if it is
    dm-crypt's). Of TrueCrypt and BitLocker there is what the getters give. *)
Inductive crypt_u :=
| U_none (none : option cipher_info)
| U_luks1 (hdr : luks_phdr) (cipher_spec : option string)
| U_luks2 (luks2 : luks2_context)
| U_plain (hdr : plain_params) (cipher : cipher_info)
| U_loopaes (hdr : plain_params) (cipher : cipher_info)
| U_verity (root_hash : option bytes) (root_hash_size : Z) (uuid : option bytes)
| U_tcrypt (cipher : cipher_info) (data_offset iv_offset : Z)
| U_integrity (integrity : option string) (tag_size sector_size : Z)
| U_bitlk (cipher : cipher_info) (key_bits volume_header_size : Z) (guid : bytes).

Record crypt_device := CryptDevice {
  cd_u : crypt_u;
  cd_volume_key : option bytes;
  cd_pbkdf : crypt_pbkdf_type;
  cd_data_offset : Z;
  cd_metadata_size : Z;
  cd_keyslots_size : Z;
}.

Definition cd_type (cd : crypt_device) : option string :=
  match cd_u cd with
  | U_none _ => None
  | U_luks1 _ _ => Some CRYPT_LUKS1
  | U_luks2 _ => Some CRYPT_LUKS2
  | U_plain _ _ => Some CRYPT_PLAIN
  | U_loopaes _ _ => Some CRYPT_LOOPAES
  | U_verity _ _ _ => Some CRYPT_VERITY
  | U_tcrypt _ _ _ => Some CRYPT_TCRYPT
  | U_integrity _ _ _ => Some CRYPT_INTEGRITY
  | U_bitlk _ _ _ _ => Some CRYPT_BITLK
  end.

Definition set_u (u : crypt_u) (cd : crypt_device) : crypt_device :=
  CryptDevice u (cd_volume_key cd) (cd_pbkdf cd) (cd_data_offset cd) (cd_metadata_size cd) (cd_keyslots_size cd).
Definition set_pbkdf (p : crypt_pbkdf_type) (cd : crypt_device) : crypt_device :=
  CryptDevice (cd_u cd) (cd_volume_key cd) p (cd_data_offset cd) (cd_metadata_size cd) (cd_keyslots_size cd).
Definition set_sizes (data_offset metadata_size keyslots_size : Z) (cd : crypt_device) : crypt_device :=
  CryptDevice (cd_u cd) (cd_volume_key cd) (cd_pbkdf cd) data_offset metadata_size keyslots_size.

(** The header in a context changed. *)
Definition set_luks1 (hdr : luks_phdr) (cd : crypt_device) : crypt_device :=
  match cd_u cd with U_luks1 _ spec => set_u (U_luks1 hdr spec) cd | _ => cd end.
Definition set_luks2 (hdr : luks2_hdr) (cd : crypt_device) : crypt_device :=
  match cd_u cd with
  | U_luks2 l => set_u (U_luks2 (Luks2Context hdr (keyslot_cipher l) (keyslot_key_size l) (l2_reencrypt l))) cd
  | _ => cd
  end.

Definition crypt_set_null_type (cd : crypt_device) : crypt_device :=
  match cd_u cd with U_none _ => cd | _ => set_sizes 0 0 0 (set_u (U_none None) cd) end.

(** *** Guards: messages are not modelled, [mask] are requirements that are met. *)

Definition _onlyLUKS (cd : crypt_device) (unrestricted : bool) : Z :=
  match cd_u cd with
  | U_luks1 _ _ => 0
  | U_luks2 l => if unrestricted then 0 else LUKS2_unmet_requirements (l2_hdr l) 0
  | _ => - EINVAL
  end.

Definition onlyLUKS (cd : crypt_device) : Z := _onlyLUKS cd false.

Definition _onlyLUKS2 (cd : crypt_device) (unrestricted : bool) (mask : Z) : Z :=
  match cd_u cd with
  | U_luks2 l => if unrestricted then 0 else LUKS2_unmet_requirements (l2_hdr l) mask
  | _ => - EINVAL
  end.

Definition onlyLUKS2 (cd : crypt_device) : Z := _onlyLUKS2 cd false 0.
Definition onlyLUKS2mask (cd : crypt_device) (mask : Z) : Z := _onlyLUKS2 cd false mask.

(** ** Getters *)

Definition crypt_get_type (cd : crypt_device) : option string := cd_type cd.

Definition crypt_get_cipher_spec (cd : crypt_device) : option string :=
  match cd_u cd with
  | U_luks2 l => LUKS2_get_cipher (l2_hdr l) CRYPT_DEFAULT_SEGMENT
  | U_luks1 _ spec => spec
  | U_plain _ c | U_loopaes _ c | U_bitlk c _ _ _ | U_none (Some c) => Some (ci_spec c)
  | _ => None
  end.

(** Cipher and mode of a LUKS2 device. *)
Definition luks2_cipher (hdr : luks2_hdr) : option name_and_mode :=
  match LUKS2_get_cipher hdr CRYPT_DEFAULT_SEGMENT with
  | Some spec => match crypt_parse_name_and_mode spec false with inl _ => None | inr c => Some c end
  | None => None
  end.

Definition crypt_get_cipher (cd : crypt_device) : option string :=
  match cd_u cd with
  | U_luks1 hdr _ => Some (c_string (cipherName hdr))
  | U_luks2 l => cipher <$> luks2_cipher (l2_hdr l)
  | U_plain _ c | U_loopaes _ c | U_tcrypt c _ _ | U_bitlk c _ _ _ | U_none (Some c) => Some (ci_cipher c)
  | _ => None
  end.

Definition crypt_get_cipher_mode (cd : crypt_device) : option string :=
  match cd_u cd with
  | U_luks1 hdr _ => Some (c_string (Luks1.cipherMode hdr))
  | U_luks2 l => UtilsCrypt.cipher_mode <$> luks2_cipher (l2_hdr l)
  | U_plain _ c | U_loopaes _ c | U_tcrypt c _ _ | U_bitlk c _ _ _ | U_none (Some c) => Some (ci_mode c)
  | _ => None
  end.

Definition crypt_get_integrity (cd : crypt_device) : option string :=
  match cd_u cd with
  | U_integrity integrity _ _ => integrity
  | U_luks2 l => LUKS2_get_integrity (l2_hdr l) CRYPT_DEFAULT_SEGMENT
  | _ => None
  end.

Definition crypt_get_integrity_key_size (cd : crypt_device) : Z :=
  if isINTEGRITY (cd_type cd) || isLUKS2 (cd_type cd) then INTEGRITY_key_size (crypt_get_integrity cd) else 0.

Definition crypt_get_integrity_tag_size (cd : crypt_device) : Z :=
  match cd_u cd with
  | U_integrity _ tag_size _ => tag_size
  | U_luks2 _ => INTEGRITY_tag_size (crypt_get_integrity cd) (default "" (crypt_get_cipher cd)) (crypt_get_cipher_mode cd)
  | _ => 0
  end.

Definition crypt_get_sector_size (cd : crypt_device) : Z :=
  match cd_u cd with
  | U_plain hdr _ => pl_sector_size hdr
  | U_integrity _ _ sector_size => sector_size
  | U_luks2 l => LUKS2_get_sector_size (l2_hdr l)
  | _ => SECTOR_SIZE
  end.

Definition crypt_get_uuid (cd : crypt_device) : option bytes :=
  match cd_u cd with
  | U_luks1 hdr _ => Some (ph_uuid hdr)
  | U_luks2 l => Some (uuid (l2_hdr l))
  | U_verity _ _ u => u
  | U_bitlk _ _ _ guid => Some guid
  | _ => None
  end.

Definition crypt_get_volume_key_size (cd : crypt_device) : Z :=
  match cd_u cd with
  | U_plain _ c | U_loopaes _ c | U_tcrypt c _ _ | U_none (Some c) => ci_key_size c
  | U_luks1 hdr _ => keyBytes hdr
  | U_luks2 l =>
      let r := LUKS2_get_volume_key_size (l2_hdr l) CRYPT_DEFAULT_SEGMENT in
      let r := match cd_volume_key cd with Some k => if r <? 0 then zlen k else r | None => r end in
      if r <? 0 then 0 else r
  | U_verity _ root_hash_size _ => root_hash_size
  | U_bitlk _ key_bits _ _ => key_bits / 8
  | _ => 0
  end.

Definition crypt_keyslot_max (type : option string) : Z :=
  if isLUKS1 type then LUKS_NUMKEYS else if isLUKS2 type then LUKS2_KEYSLOTS_MAX else - EINVAL.

Definition crypt_keyslot_get_key_size (cd : crypt_device) (keyslot : Z) : Z :=
  if negb (isLUKS (cd_type cd)) then - EINVAL
  else if (keyslot <? 0) || (crypt_keyslot_max (cd_type cd) <=? keyslot) then - EINVAL
  else match cd_u cd with
  | U_luks1 hdr _ => keyBytes hdr
  | U_luks2 l => LUKS2_get_keyslot_stored_key_size (l2_hdr l) keyslot
  | _ => - EINVAL
  end.

Definition crypt_keyslot_set_encryption (cd : crypt_device) (cipher : option string) (key_size : Z) : Z * crypt_device :=
  match cipher, cd_u cd with
  | Some c, U_luks2 l =>
      if key_size =? 0 then (- EINVAL, cd)
      else if LUKS2_keyslot_cipher_incompatible (crypt_get_integrity_tag_size cd) (Some c) then (- EINVAL, cd)
      else (0, set_u (U_luks2 (Luks2Context (l2_hdr l) (Some c) (u32 key_size) (l2_reencrypt l))) cd)
  | _, _ => (- EINVAL, cd)
  end.

(** A keyslot that LUKS1 calls active *)
Definition at_least_active (ki : crypt_keyslot_info) : bool :=
  match ki with CRYPT_SLOT_INVALID | CRYPT_SLOT_INACTIVE => false | _ => true end.

(** Cipher and size of the key *)
Definition crypt_keyslot_get_encryption (cd : crypt_device) (keyslot : Z) : option (string * Z) :=
  match cd_u cd with
  | U_luks1 hdr spec =>
      if negb (keyslot =? CRYPT_ANY_SLOT) && negb (at_least_active (LUKS_keyslot_info hdr keyslot)) then None
      else (fun s => (s, crypt_get_volume_key_size cd)) <$> spec
  | U_luks2 l =>
      if negb (keyslot =? CRYPT_ANY_SLOT) then LUKS2_get_keyslot_cipher (l2_hdr l) keyslot
      else match keyslot_cipher l with
      | Some c => Some (c, keyslot_key_size l)
      | None =>
          let cipher := LUKS2_get_cipher (l2_hdr l) CRYPT_DEFAULT_SEGMENT in
          let key_size := crypt_get_volume_key_size cd in
          match cipher with
          | Some c =>
              if negb (LUKS2_keyslot_cipher_incompatible (crypt_get_integrity_tag_size cd) cipher) && negb (key_size =? 0)
              then Some (c, key_size)
              else Some (DEFAULT_LUKS2_KEYSLOT_CIPHER, DEFAULT_LUKS2_KEYSLOT_KEYBITS / 8)
          | None => Some (DEFAULT_LUKS2_KEYSLOT_CIPHER, DEFAULT_LUKS2_KEYSLOT_KEYBITS / 8)
          end
      end
  | _ => None
  end.

Definition crypt_keyslot_get_pbkdf (cd : crypt_device) (keyslot : Z) (pbkdf : crypt_pbkdf_type) : Z * crypt_pbkdf_type :=
  if keyslot =? CRYPT_ANY_SLOT then (- EINVAL, pbkdf)
  else match cd_u cd with
  | U_luks1 hdr _ => LUKS_keyslot_pbkdf hdr keyslot pbkdf
  | U_luks2 l => LUKS2_keyslot_pbkdf (l2_hdr l) keyslot pbkdf
  | _ => (- EINVAL, pbkdf)
  end.

Definition crypt_get_data_offset (cd : crypt_device) : Z :=
  match cd_u cd with
  | U_plain hdr _ | U_loopaes hdr _ => pl_offset hdr
  | U_luks1 hdr _ => payloadOffset hdr
  | U_luks2 l => LUKS2_get_data_offset (l2_hdr l)
  | U_tcrypt _ data_offset _ => data_offset
  | U_bitlk _ _ volume_header_size _ => volume_header_size / SECTOR_SIZE
  | _ => cd_data_offset cd
  end.

Definition crypt_get_iv_offset (cd : crypt_device) : Z :=
  match cd_u cd with
  | U_plain hdr _ | U_loopaes hdr _ => pl_skip hdr
  | U_tcrypt _ _ iv_offset => iv_offset
  | _ => 0
  end.

Definition crypt_set_data_offset (cd : crypt_device) (data_offset : Z) : Z * crypt_device :=
  if negb (data_offset `mod` (MAX_SECTOR_SIZE / SECTOR_SIZE) =? 0) then (- EINVAL, cd)
  else (0, set_sizes data_offset (cd_metadata_size cd) (cd_keyslots_size cd) cd).

Definition crypt_set_metadata_size (cd : crypt_device) (metadata_size keyslots_size : Z) : Z * crypt_device :=
  if bool_decide (is_Some (cd_type cd)) && negb (isLUKS2 (cd_type cd)) then (- EINVAL, cd)
  else if negb (metadata_size =? 0) && LUKS2_check_metadata_area_size metadata_size then (- EINVAL, cd)
  else if negb (keyslots_size =? 0) && LUKS2_check_keyslots_area_size keyslots_size then (- EINVAL, cd)
  else (0, set_sizes (cd_data_offset cd) metadata_size keyslots_size cd).

(** An error, or both sizes *)
Definition crypt_get_metadata_size (cd : crypt_device) : Z + Z * Z :=
  match cd_u cd with
  | U_none _ => inr (cd_metadata_size cd, cd_keyslots_size cd)
  | U_luks1 hdr _ => inr (LUKS_ALIGN_KEYSLOTS, LUKS_device_sectors hdr *64 SECTOR_SIZE -64 LUKS_ALIGN_KEYSLOTS)
  | U_luks2 l => inr (LUKS2_metadata_size (l2_hdr l), LUKS2_keyslots_size (l2_hdr l))
  | _ => inl (- EINVAL)
  end.

Definition crypt_keyslot_status (cd : crypt_device) (keyslot : Z) : crypt_keyslot_info :=
  match cd_u cd with
  | U_luks1 hdr _ => LUKS_keyslot_info hdr keyslot
  | U_luks2 l => LUKS2_keyslot_info (l2_hdr l) keyslot
  | _ => CRYPT_SLOT_INVALID
  end.

Definition crypt_keyslot_area (cd : crypt_device) (keyslot : Z) : Z * Z * Z :=
  match cd_u cd with
  | U_luks2 l => LUKS2_keyslot_area (l2_hdr l) keyslot
  | U_luks1 hdr _ => LUKS_keyslot_area hdr keyslot
  | _ => (- EINVAL, 0, 0)
  end.

Definition crypt_keyslot_get_priority (cd : crypt_device) (keyslot : Z) : Z :=
  match cd_u cd with
  | U_luks1 _ _ | U_luks2 _ =>
      if (keyslot <? 0) || (crypt_keyslot_max (cd_type cd) <=? keyslot) then CRYPT_SLOT_PRIORITY_INVALID
      else match cd_u cd with
      | U_luks2 l => LUKS2_keyslot_priority_get (l2_hdr l) keyslot
      | _ => CRYPT_SLOT_PRIORITY_NORMAL
      end
  | _ => CRYPT_SLOT_PRIORITY_INVALID
  end.

(** ** Keys of plain devices *)

(** The buffer is zeroed; only an error below 0 is one (the back end's own
    failure gives 1, which the model of hashing does not have). *)
Definition process_key (hash_name : option string) (key_size : Z) (pass : bytes) : Z + bytes :=
  if key_size =? 0 then inl (- EINVAL)
  else match hash_name with
  | Some h =>
      match crypt_plain_hash h key_size pass with
      | inl r => if r <? 0 then inl (- EINVAL) else inr (zeros (Z.to_nat key_size))
      | inr key => inr key
      end
  | None =>
      if key_size <? zlen pass then inr (take (Z.to_nat key_size) pass)
      else inr (pass ++ zeros (Z.to_nat (key_size - zlen pass)))%list
  end.
End setup.
