(* ===== verification/SetupKeyslot.v ===== *)
(** * SetupKeyslot: operations of the library on LUKS devices (lib/setup.c)

    Loading, keyslots, keys, backup, conversion, tokens and flags, for LUKS1
    and LUKS2 alike: each picks the component of the context's type. After a
    failure that may have changed the LUKS2 header in memory it is loaded
    again. *)

From S2P Require Import Prelude UtilsIO Keyfile CryptBackend UtilsCrypt CryptPlain CryptStorage Cstd JsonC Luks2Json Luks2Keyslot Luks2Edit Luks2Areas Device Integrity Wipe KeyEncryption Luks1 Luks2Format Luks2Disk Luks2KeyslotIo Luks2Info Luks2Token Luks2Convert Setup Pbkdf.
From Stdlib Require Import Strings.Byte Ascii.

Local Open Scope string_scope.
Local Open Scope Z_scope.

Definition CRYPT_VOLUME_KEY_NO_SEGMENT : Z := Z.shiftl 1 0.
Definition CRYPT_VOLUME_KEY_SET : Z := Z.shiftl 1 1.
Definition CRYPT_VOLUME_KEY_DIGEST_REUSE : Z := Z.shiftl 1 2.

Definition CRYPT_ACTIVATE_KEYRING_KEY : Z := Z.shiftl 1 11.

Inductive crypt_flags_type := CRYPT_FLAGS_ACTIVATION | CRYPT_FLAGS_REQUIREMENTS.

(** What the operations of a context draw from outside: the environments of the
    components, [crypt_confirm], a generated key ([None]: no memory or no random
    bytes) and UUID, the size of the data device with the result of asking for
    it, and the backup file. *)
Record setup_env := SetupEnv {
  se_convert : convert_env;
  se_pbkdf : pbkdf_env;
  se_digest : digest_env;
  se_confirm : bool;
  se_generate_key : Z -> option bytes;
  se_uuid : bytes;
  se_data_size : Z * Z;
  se_backup : backup_env;
}.

Section setup.
Context `{JC : JsonC} `{CH : CryptHash} `{CM : CryptHmac} `{CC : CryptCipher} `{CP : CryptPbkdf} `{LU : LibUuid}.
Variable env : setup_env.
Let cv : convert_env := se_convert env.
Let os : os_env := os (ky_disk (cv_keys cv)).
Let env1 : luks1_env := cv_luks1 cv.

(** The environments with the key derivation of the context. *)
Definition kdf_of (e : kdf_env) (cd : crypt_device) : kdf_env := KdfEnv (cd_pbkdf cd) (ke_samples e) (ke_salt e).
Definition keys_of (cd : crypt_device) : keys_env :=
  let k := cv_keys cv in KeysEnv (ky_disk k) (ky_wipe k) (kdf_of (ky_kdf k) cd) (ky_stripes k) (ky_serialize k).
Definition digest_of (cd : crypt_device) : digest_env :=
  let e := se_digest env in DigestEnv (kdf_of (de_kdf e) cd) (de_hmac_size e) (de_min_iterations e) (de_pbkdf2 e).

(** ** Loading *)

(** The version behind the primary magic, 0 when there is none. *)
Definition version_of (n : Z) (buf : bytes) : Z :=
  if (n =? 8) && bool_decide (slice 0 6 buf = LUKS2_MAGIC_1ST) then be_decode (slice 6 2 buf) else 0.

Definition LUKS2_hdr_version_unlocked : M Z :=
  let '(devfd, _) := open_result os O_RDONLY in
  if devfd =? -1 then mret 0
  else
    '(n, buf) ← dev_read os devfd 8 0;
    mret (version_of n buf).

(** Of a backup file *)
Definition backup_version : Z :=
  match bk_open (se_backup env) with
  | None => 0
  | Some f =>
      let o := Luks2Disk.os (bk_disk (se_backup env)) in
      let '(n, buf, _) := read_lseek_blockwise 0 (env_block_size o) (env_alignment o) 8 0 f in
      version_of n buf
  end.

(** The context's parameters of key derivation, when the present ones do not
    do. *)
Definition load_pbkdf (cd : crypt_device) (type : string) : Z * crypt_device :=
  if verify_pbkdf_params (se_pbkdf env) (cd_type cd) (cd_pbkdf cd) =? 0 then (0, cd)
  else
    let '(r, p) := init_pbkdf_type (se_pbkdf env) (cd_pbkdf cd) (cd_type cd) None (Some type) in
    (r, set_pbkdf p cd).

Definition _crypt_load_luks2 (cd : crypt_device) (repair : bool) : M (Z * crypt_device) :=
  '(r, hdr2) ← LUKS2_hdr_read (keys_of cd) empty_hdr repair;
  if negb (r =? 0) then mret (r, cd)
  else
    let '(r, cd) := load_pbkdf cd CRYPT_LUKS2 in
    if negb (r =? 0) then mret (r, cd)
    else
      let key_size := match cd_u cd with U_luks2 l => keyslot_key_size l | _ => 0 end in
      mret (0, set_u (U_luks2 (Luks2Context hdr2 None key_size false)) cd).

Definition _luks2_reload (cd : crypt_device) : M crypt_device :=
  match cd_u cd with
  | U_luks2 _ => '(_, cd) ← _crypt_load_luks2 cd false; mret cd
  | _ => mret cd
  end.

(** The hash of the header is that of the context. *)
Definition set_hash (h : string) (p : crypt_pbkdf_type) : crypt_pbkdf_type :=
  PbkdfType (p_type p) (Some h) (p_time_ms p) (p_iterations p) (p_max_memory_kb p) (p_parallel_threads p) (p_flags p).

Definition load_luks1 (cd : crypt_device) (require_header repair : bool) : M (Z * crypt_device) :=
  if isLUKS2 (cd_type cd) then mret (- EINVAL, cd)
  else
    let '(r, cd) := load_pbkdf cd CRYPT_LUKS1 in
    if negb (r =? 0) then mret (r, cd)
    else
      '(r, hdr) ← LUKS_read_phdr env1 (cd_pbkdf cd) (phdr_of_bytes []) require_header repair;
      if negb (r =? 0) then mret (r, cd)
      else
        let cd := set_pbkdf (set_hash (c_string (hashSpec hdr)) (cd_pbkdf cd)) cd in
        let cipher_spec := c_string (cipherName hdr) ++ "-" ++ c_string (Luks1.cipherMode hdr) in
        mret (0, set_u (U_luks1 hdr (Some cipher_spec)) cd).

(** The block size of the data device is not modelled. *)
Definition _crypt_load_luks (cd : crypt_device) (requested_type : option string) (require_header repair : bool)
    : M (Z * crypt_device) :=
  if pe_init_crypto (se_pbkdf env) <? 0 then mret (pe_init_crypto (se_pbkdf env), cd)
  else
    version ← LUKS2_hdr_version_unlocked;
    if (isLUKS1 requested_type && (version =? 2)) || (isLUKS2 requested_type && (version =? 1)) then mret (- EINVAL, cd)
    else
      let version := if bool_decide (is_Some requested_type) then 0 else version in
      if isLUKS1 requested_type || (version =? 1) then load_luks1 cd require_header repair
      else if isLUKS2 requested_type || (version =? 2) || (version =? 0) then
        if isLUKS1 (cd_type cd) then mret (- EINVAL, cd) else _crypt_load_luks2 cd repair
      else mret (- EINVAL, cd).

(** [crypt_load] of any type of LUKS *)
Definition crypt_load_luks (cd : crypt_device) (requested_type : option string) : M (Z * crypt_device) :=
  let cd := set_sizes 0 0 0 cd in
  if bool_decide (is_Some (cd_type cd)) && negb (isLUKS (cd_type cd)) then mret (- EINVAL, cd)
  else _crypt_load_luks cd requested_type true false.

Definition crypt_check_data_device_size (cd : crypt_device) : Z :=
  let s := u64 (Z.shiftl (crypt_get_data_offset cd) 9) in
  let size_min := if s =? 0 then SECTOR_SIZE else s in
  let '(r, size) := se_data_size env in
  if r <? 0 then r else if size <? size_min then - EINVAL else r.

Definition crypt_repair (cd : crypt_device) (requested_type : option string) : M (Z * crypt_device) :=
  if bool_decide (is_Some requested_type) && negb (isLUKS requested_type) then mret (- EINVAL, cd)
  else
    '(r, cd) ← _crypt_load_luks cd requested_type true true;
    if r <? 0 then mret (r, cd)
    else
      let r := crypt_check_data_device_size cd in
      mret (r, if r <? 0 then crypt_set_null_type cd else cd).

(** ** Keyslots *)

Definition keyslot_verify_or_find_empty (cd : crypt_device) (keyslot : Z) : Z * Z :=
  let found :=
    match cd_u cd with
    | U_luks1 hdr _ => LUKS_keyslot_find_empty hdr
    | U_luks2 l => LUKS2_keyslot_find_empty (l2_hdr l) 0
    | _ => - EINVAL
    end in
  let keyslot' := if keyslot =? CRYPT_ANY_SLOT then found else keyslot in
  if (keyslot =? CRYPT_ANY_SLOT) && (found <? 0) then (- EINVAL, found)
  else match crypt_keyslot_status cd keyslot' with
  | CRYPT_SLOT_INACTIVE => (0, keyslot')
  | _ => (- EINVAL, keyslot')
  end.

Definition active_slots (cd : crypt_device) : Z :=
  match cd_u cd with
  | U_luks1 hdr _ => LUKS_keyslot_active_count hdr
  | U_luks2 l => LUKS2_keyslot_active_count (l2_hdr l) CRYPT_DEFAULT_SEGMENT
  | _ => 0
  end.

(** The key of a copy, [None] without memory. *)
Definition alloc_key (key : bytes) : option bytes := if alloc_fails os (zlen key) then None else Some key.

(** A keyslot is opened: the keyslot or an error, and the key. *)
Definition open_keyslot (cd : crypt_device) (keyslot segment : Z) (passphrase : bytes) : M (Z * bytes) :=
  match cd_u cd with
  | U_luks1 hdr _ => LUKS_open_key_with_hdr env1 keyslot passphrase hdr
  | U_luks2 l =>
      '(r, vk) ← LUKS2_keyslot_open (keys_of cd) (l2_hdr l) keyslot segment passphrase;
      mret (r, match vk with Some (_, key) => key | None => [] end)
  | _ => mret (- EINVAL, [])
  end.

(** The volume key: that of the context when no keyslot is in use. *)
Definition existing_key (cd : crypt_device) (passphrase : Z + bytes) : M (Z * bytes) :=
  if active_slots cd =? 0 then
    mret (match cd_volume_key cd with
          | None => (- EINVAL, [])
          | Some key => match alloc_key key with Some key => (0, key) | None => (- ENOMEM, []) end
          end)
  else match passphrase with
  | inl r => mret (r, [])
  | inr passphrase => open_keyslot cd CRYPT_ANY_SLOT CRYPT_DEFAULT_SEGMENT passphrase
  end.

(** A keyslot of LUKS2 is filled with a key of a digest. *)
Definition store_luks2 (cd : crypt_device) (l : luks2_context) (keyslot digest : Z) (passphrase vk : bytes) : M (Z * crypt_device) :=
  match LUKS2_keyslot_params_default (cd_pbkdf cd) (crypt_keyslot_get_encryption cd CRYPT_ANY_SLOT) with
  | inl r => mret (r, cd)
  | inr params =>
      let '(r, hdr) := LUKS2_digest_assign_jobj (l2_hdr l) keyslot digest true in
      if r <? 0 then mret (r, set_luks2 hdr cd)
      else
        '(r, hdr, p) ← LUKS2_keyslot_store (keys_of cd) hdr keyslot passphrase vk params;
        mret (r, set_luks2 hdr (set_pbkdf p cd))
  end.

(** A new keyslot for the volume key. *)
Definition store_key (cd : crypt_device) (keyslot : Z) (passphrase vk : bytes) : M (Z * crypt_device) :=
  match cd_u cd with
  | U_luks1 hdr _ =>
      '(r, hdr, p) ← LUKS_set_key env1 (cd_pbkdf cd) keyslot passphrase hdr vk;
      mret (r, set_luks1 hdr (set_pbkdf p cd))
  | U_luks2 l =>
      let digest := LUKS2_digest_verify_by_segment (l2_hdr l) CRYPT_DEFAULT_SEGMENT vk in
      if digest <? 0 then mret (digest, cd) else store_luks2 cd l keyslot digest passphrase vk
  | _ => mret (- EINVAL, cd)
  end.

(** The end of an operation: the keyslot, or the error and the header again. *)
Definition finish (keyslot : Z) (res : Z * crypt_device) : M (Z * crypt_device) :=
  let '(r, cd) := res in
  if r <? 0 then
    cd ← _luks2_reload cd;
    mret (r, cd)
  else mret (keyslot, cd).

(** [None] is NULL. *)
Definition crypt_keyslot_add_by_passphrase (cd : crypt_device) (keyslot : Z) (passphrase new_passphrase : option bytes)
    : M (Z * crypt_device) :=
  if negb (onlyLUKS cd =? 0) then mret (onlyLUKS cd, cd)
  else match passphrase, new_passphrase with
  | Some passphrase, Some new_passphrase =>
      let '(r, keyslot) := keyslot_verify_or_find_empty cd keyslot in
      if negb (r =? 0) then mret (r, cd)
      else if (active_slots cd =? 0) && negb (bool_decide (is_Some (cd_volume_key cd))) then mret (- EINVAL, cd)
      else if active_slots cd <? 0 then mret (- EINVAL, cd)
      else
        '(r, vk) ← existing_key cd (inr passphrase);
        res ← (if r <? 0 then mret (r, cd) else store_key cd keyslot new_passphrase vk);
        finish keyslot res
  | _, _ => mret (- EINVAL, cd)
  end.

(** Key files are given with their offset and size. *)
Definition crypt_keyslot_add_by_keyfile_device_offset (cd : crypt_device) (keyslot : Z) (keyfile : key_input)
    (keyfile_size keyfile_offset : Z) (new_keyfile : key_input) (new_keyfile_size new_keyfile_offset : Z) : M (Z * crypt_device) :=
  if negb (onlyLUKS cd =? 0) then mret (onlyLUKS cd, cd)
  else
    let '(r, keyslot) := keyslot_verify_or_find_empty cd keyslot in
    if negb (r =? 0) then mret (r, cd)
    else if (active_slots cd =? 0) && negb (bool_decide (is_Some (cd_volume_key cd))) then mret (- EINVAL, cd)
    else
      '(r, vk) ← existing_key cd (crypt_keyfile_device_read keyfile keyfile_offset keyfile_size 0);
      res ← (if r <? 0 then mret (r, cd)
             else match crypt_keyfile_device_read new_keyfile new_keyfile_offset new_keyfile_size 0 with
             | inl r => mret (r, cd)
             | inr new_password => store_key cd keyslot new_password vk
             end);
      finish keyslot res.

Definition crypt_keyslot_destroy (cd : crypt_device) (keyslot : Z) : M (Z * crypt_device) :=
  let r := _onlyLUKS cd true in
  if negb (r =? 0) then mret (r, cd)
  else match cd_u cd, crypt_keyslot_status cd keyslot with
  | _, CRYPT_SLOT_INVALID => mret (- EINVAL, cd)
  | U_luks1 _ _, CRYPT_SLOT_INACTIVE => mret (- EINVAL, cd)
  | U_luks1 hdr _, _ =>
      '(r, hdr) ← LUKS_del_key env1 keyslot hdr;
      mret (r, set_luks1 hdr cd)
  | U_luks2 l, _ =>
      '(r, hdr) ← LUKS2_keyslot_wipe (keys_of cd) (l2_hdr l) keyslot false;
      mret (r, set_luks2 hdr cd)
  | _, _ => mret (- EINVAL, cd)
  end.

(** *** Change of a passphrase *)

(** The keyslot for the new passphrase: the given one, else a free one, else
    the old one. *)
Definition choose_keyslot (cd : crypt_device) (keyslot_old keyslot_new vk_length : Z) : Z :=
  if keyslot_new =? CRYPT_ANY_SLOT then
    let found := match cd_u cd with
                 | U_luks1 hdr _ => LUKS_keyslot_find_empty hdr
                 | U_luks2 l => LUKS2_keyslot_find_empty (l2_hdr l) vk_length
                 | _ => keyslot_new
                 end in
    if found <? 0 then keyslot_old else found
  else keyslot_new.

(** LUKS1: code and context, before the old keyslot is destroyed. *)
Definition change_luks1 (cd : crypt_device) (keyslot_old keyslot_new : Z) (new_passphrase vk : bytes) : M (Z * crypt_device) :=
  cd ← (if keyslot_old =? keyslot_new then '(_, cd) ← crypt_keyslot_destroy cd keyslot_old; mret cd else mret cd);
  store_key cd keyslot_new new_passphrase vk.

(** The keyslot gets the digest and the tokens of the old one, or it is the old
    one, whose area is wiped. *)
Definition prepare_keyslot (cd : crypt_device) (hdr : luks2_hdr) (digest keyslot_old keyslot_new : Z) : M (Z * luks2_hdr) :=
  if negb (keyslot_old =? keyslot_new) then
    let '(r, hdr) := LUKS2_digest_assign_jobj hdr keyslot_new digest true in
    mret (if r <? 0 then (r, hdr) else LUKS2_token_assignment_copy_jobj hdr keyslot_old keyslot_new)
  else
    '(r, hdr) ← LUKS2_keyslot_wipe (keys_of cd) hdr keyslot_old true;
    mret (if negb (r =? 0) then - EINVAL else 0, hdr).

(** LUKS2: code and context; a swap of the keyslots is the caller's. *)
Definition change_luks2 (cd : crypt_device) (l : luks2_context) (digest keyslot_old keyslot_new : Z) (new_passphrase vk : bytes)
    : M (Z * crypt_device) :=
  match LUKS2_keyslot_params_default (cd_pbkdf cd) (crypt_keyslot_get_encryption cd CRYPT_ANY_SLOT) with
  | inl r => mret (r, cd)
  | inr params =>
      '(r, hdr) ← prepare_keyslot cd (l2_hdr l) digest keyslot_old keyslot_new;
      if r <? 0 then mret (r, set_luks2 hdr cd)
      else
        '(r, hdr, p) ← LUKS2_keyslot_store (keys_of cd) hdr keyslot_new new_passphrase vk params;
        mret (r, set_luks2 hdr (set_pbkdf p cd))
  end.

(** After the new keyslot was stored: code, context and the numbers of the
    keyslots, which are swapped when the new one was not given. *)
Definition swap_luks2 (cd : crypt_device) (r keyslot_old keyslot_new keyslot_new_orig : Z) : Z * crypt_device * Z * Z :=
  match cd_u cd with
  | U_luks2 l =>
      if (keyslot_new_orig =? CRYPT_ANY_SLOT) && negb (keyslot_old =? keyslot_new) then
        let '(r, hdr) := LUKS2_keyslot_swap (l2_hdr l) keyslot_old keyslot_new in
        if r <? 0 then (r, set_luks2 hdr cd, keyslot_old, keyslot_new)
        else (keyslot_old, set_luks2 hdr cd, keyslot_new, keyslot_old)
      else (r, cd, keyslot_old, keyslot_new)
  | _ => (r, cd, keyslot_old, keyslot_new)
  end.

(** The digest of an opened keyslot, or an error. *)
Definition digest_of_keyslot (cd : crypt_device) (keyslot : Z) : Z :=
  match cd_u cd with
  | U_luks2 l => let digest := LUKS2_digest_by_keyslot (l2_hdr l) keyslot in if digest <? 0 then - EINVAL else digest
  | _ => 0
  end.

Definition crypt_keyslot_change_by_passphrase (cd : crypt_device) (keyslot_old keyslot_new : Z) (passphrase new_passphrase : option bytes)
    : M (Z * crypt_device) :=
  match passphrase, new_passphrase with
  | Some passphrase, Some new_passphrase =>
      if negb (onlyLUKS cd =? 0) then mret (onlyLUKS cd, cd)
      else
        '(r, vk) ← open_keyslot cd keyslot_old CRYPT_ANY_SEGMENT passphrase;
        let digest := digest_of_keyslot cd r in
        let r := if (0 <=? r) && (digest <? 0) then digest else r in
        if r <? 0 then finish keyslot_new (r, cd)
        else if negb (keyslot_old =? CRYPT_ANY_SLOT) && negb (keyslot_old =? r) then finish keyslot_new (r, cd)
        else
          let keyslot_old := r in
          let keyslot_new_orig := keyslot_new in
          let keyslot_new := choose_keyslot cd keyslot_old keyslot_new (zlen vk) in
          '(r, cd) ← match cd_u cd with
                     | U_luks2 l => change_luks2 cd l digest keyslot_old keyslot_new new_passphrase vk
                     | _ => change_luks1 cd keyslot_old keyslot_new new_passphrase vk
                     end;
          let '(r, cd, keyslot_old, keyslot_new) :=
            if r <? 0 then (r, cd, keyslot_old, keyslot_new) else swap_luks2 cd r keyslot_old keyslot_new keyslot_new_orig in
          res ← (if (0 <=? r) && negb (keyslot_old =? keyslot_new) then crypt_keyslot_destroy cd keyslot_old else mret (r, cd));
          finish keyslot_new res
  | _, _ => mret (- EINVAL, cd)
  end.

(** *** Keyslots by volume key *)

Definition commit_luks2 (cd : crypt_device) (res : Z * luks2_hdr) : M (Z * crypt_device) :=
  let '(r, hdr) := res in
  if r <? 0 then mret (r, set_luks2 hdr cd)
  else
    '(r, hdr) ← LUKS2_hdr_write (keys_of cd) hdr;
    mret (r, set_luks2 hdr cd).

(** The default segment belongs to the digest and to no other. *)
Definition update_volume_key_segment_digest (cd : crypt_device) (hdr : luks2_hdr) (digest : Z) : M (Z * crypt_device) :=
  let '(r, hdr) := LUKS2_digest_segment_assign_jobj hdr CRYPT_DEFAULT_SEGMENT CRYPT_ANY_DIGEST false in
  if r <? 0 then mret (r, set_luks2 hdr cd)
  else commit_luks2 cd (LUKS2_digest_segment_assign_jobj hdr CRYPT_DEFAULT_SEGMENT digest true).

(** The header is not loaded again after an error. *)
Definition verify_and_update_segment_digest (cd : crypt_device) (hdr : luks2_hdr) (keyslot : Z) (volume_key : option bytes) (password : bytes)
    : M (Z * crypt_device) :=
  if (keyslot <? 0) || match volume_key with Some k => zlen k =? 0 | None => false end then mret (- EINVAL, cd)
  else
    '(r, vk) ← match volume_key with
              | Some k => mret (match alloc_key k with Some k => (0, k) | None => (- ENOMEM, []) end)
              | None =>
                  '(r, vk) ← open_keyslot cd keyslot CRYPT_ANY_SEGMENT password;
                  mret (if negb (r =? keyslot) then (- EINVAL, []) else (0, vk))
              end;
    if r <? 0 then mret (r, cd)
    else
      let digest := LUKS2_digest_verify hdr vk keyslot in
      if digest <? 0 then mret (digest, cd)
      else if 0 <=? LUKS2_digest_verify_by_segment hdr CRYPT_DEFAULT_SEGMENT vk then mret (keyslot, cd)
      else
        '(r, cd) ← update_volume_key_segment_digest cd hdr digest;
        mret (if r <? 0 then r else keyslot, cd).

(** The digest for a new keyslot: one that matches the key, or a new one; no
    result when the benchmark has none. *)
Definition digest_for_key (cd : crypt_device) (hdr : luks2_hdr) (flags : Z) (vk : bytes) : option (Z * luks2_hdr * Z) :=
  let digest := LUKS2_digest_verify_by_segment hdr CRYPT_DEFAULT_SEGMENT vk in
  let flags := if 0 <=? digest then Z.land flags (u32 (Z.lnot CRYPT_VOLUME_KEY_SET)) else flags in
  let reuse := has_flag flags CRYPT_VOLUME_KEY_DIGEST_REUSE in
  let digest := if (digest <? 0) && reuse then LUKS2_digest_any_matching hdr vk else digest in
  if (has_flag flags CRYPT_VOLUME_KEY_NO_SEGMENT || has_flag flags CRYPT_VOLUME_KEY_SET) && ((digest <? 0) || negb reuse)
  then (fun dh => (dh.1, dh.2, flags)) <$> LUKS2_digest_create (digest_of cd) hdr "pbkdf2" vk
  else Some (digest, hdr, flags).

(** [volume_key] is the key, or the size of one to be made. *)
Definition crypt_keyslot_add_by_key (cd : crypt_device) (keyslot : Z) (volume_key : Z + bytes) (passphrase : option bytes) (flags : Z)
    : M (Z * crypt_device) :=
  match passphrase, cd_u cd with
  | None, _ => mret (- EINVAL, cd)
  | Some passphrase, u =>
      if has_flag flags CRYPT_VOLUME_KEY_NO_SEGMENT && has_flag flags CRYPT_VOLUME_KEY_SET then mret (- EINVAL, cd)
      else match u with
      | U_luks2 l =>
          let hdr := l2_hdr l in
          let given := match volume_key with inr k => Some k | inl _ => None end in
          if negb (onlyLUKS2 cd =? 0) then mret (onlyLUKS2 cd, cd)
          else if has_flag flags CRYPT_VOLUME_KEY_SET && at_least_active (crypt_keyslot_status cd keyslot)
          then verify_and_update_segment_digest cd hdr keyslot given passphrase
          else
            let '(r, keyslot) := keyslot_verify_or_find_empty cd keyslot in
            if r <? 0 then mret (r, cd)
            else
              let no_key := match given, cd_volume_key cd with
                            | None, None => negb (has_flag flags CRYPT_VOLUME_KEY_NO_SEGMENT)
                            | _, _ => false
                            end in
              let vk := match volume_key, cd_volume_key cd with
                        | inr k, _ => alloc_key k
                        | inl n, Some k => if has_flag flags CRYPT_VOLUME_KEY_NO_SEGMENT then se_generate_key env n else alloc_key k
                        | inl n, None => se_generate_key env n
                        end in
              if no_key then mret (- EINVAL, cd)
              else match vk with
              | None => mret (- ENOMEM, cd)
              | Some vk =>
                  match digest_for_key cd hdr flags vk with
                  | None => fun _ => None
                  | Some (digest, hdr, flags) =>
                      let cd := set_luks2 hdr cd in
                      if digest <? 0 then finish keyslot (digest, cd)
                      else
                        '(r, cd) ← store_luks2 cd (Luks2Context hdr (keyslot_cipher l) (keyslot_key_size l) (l2_reencrypt l))
                                     keyslot digest passphrase vk;
                        res ← (match cd_u cd with
                               | U_luks2 l' =>
                                   if (0 <=? r) && has_flag flags CRYPT_VOLUME_KEY_SET
                                   then update_volume_key_segment_digest cd (l2_hdr l') digest else mret (r, cd)
                               | _ => mret (r, cd)
                               end);
                        finish keyslot res
                  end
              end
      | _ => mret (- EINVAL, cd)
      end
  end.

Definition crypt_keyslot_add_by_volume_key (cd : crypt_device) (keyslot : Z) (volume_key : Z + bytes) (passphrase : option bytes)
    : M (Z * crypt_device) :=
  match passphrase with
  | None => mret (- EINVAL, cd)
  | Some pass =>
      if negb (onlyLUKS cd =? 0) then mret (onlyLUKS cd, cd)
      else match cd_u cd with
      | U_luks1 hdr _ =>
          let '(r, keyslot) := keyslot_verify_or_find_empty cd keyslot in
          if r <? 0 then mret (r, cd)
          else
            let vk := match volume_key, cd_volume_key cd with
                      | inr k, _ => alloc_key k
                      | _, Some k => alloc_key k
                      | _, None => None
                      end in
            match vk with
            | None => mret (- ENOMEM, cd)
            | Some vk =>
                let r := LUKS_verify_volume_key hdr vk in
                '(r, cd) ← (if r <? 0 then mret (r, cd) else store_key cd keyslot pass vk);
                mret (if r <? 0 then r else keyslot, cd)
            end
      | _ => crypt_keyslot_add_by_key cd keyslot volume_key passphrase 0
      end
  end.

Definition crypt_keyslot_set_priority (cd : crypt_device) (keyslot priority : Z) : M (Z * crypt_device) :=
  if priority =? CRYPT_SLOT_PRIORITY_INVALID then mret (- EINVAL, cd)
  else if (keyslot <? 0) || (crypt_keyslot_max (cd_type cd) <=? keyslot) then mret (- EINVAL, cd)
  else match cd_u cd with
  | U_luks2 l =>
      if negb (onlyLUKS2 cd =? 0) then mret (onlyLUKS2 cd, cd)
      else commit_luks2 cd (LUKS2_keyslot_priority_set_jobj (l2_hdr l) keyslot priority)
  | _ => mret (- EINVAL, cd)
  end.

(** ** Volume keys *)

(** For LUKS, plain and verity devices: code and key; the size of the caller's
    buffer is given. *)
Definition crypt_volume_key_get (cd : crypt_device) (keyslot volume_key_size : Z) (passphrase : option bytes) : M (Z * option bytes) :=
  if negb (isTCRYPT (cd_type cd)) && negb (isVERITY (cd_type cd)) && negb (bool_decide (is_Some passphrase)) then mret (- EINVAL, None)
  else
    let pass := default [] passphrase in
    let key_len := match cd_u cd with
                   | U_luks2 l => if negb (keyslot =? CRYPT_ANY_SLOT) then LUKS2_get_keyslot_stored_key_size (l2_hdr l) keyslot
                                  else crypt_get_volume_key_size cd
                   | _ => i32 (crypt_get_volume_key_size cd)
                   end in
    if key_len <? 0 then mret (- EINVAL, None)
    else if i32 volume_key_size <? key_len then mret (- ENOMEM, None)
    else match cd_u cd with
    | U_plain hdr _ =>
        mret (match pl_hash hdr with
              | None => (- EINVAL, None)
              | Some _ => match process_key (pl_hash hdr) key_len pass with inl r => (r, None) | inr key => (0, Some key) end
              end)
    | U_luks1 _ _ | U_luks2 _ =>
        let segment := if keyslot =? CRYPT_ANY_SLOT then CRYPT_DEFAULT_SEGMENT else CRYPT_ANY_SEGMENT in
        '(r, vk) ← open_keyslot cd keyslot segment pass;
        mret (r, if 0 <=? r then Some vk else None)
    | U_verity root_hash size _ =>
        mret (match root_hash with Some h => (0, Some (take (Z.to_nat size) h)) | None => (- EINVAL, None) end)
    | _ => mret (- EINVAL, None)
    end.

Definition crypt_volume_key_verify (cd : crypt_device) (volume_key : bytes) : Z :=
  let r := _onlyLUKS cd true in
  if negb (r =? 0) then r
  else match alloc_key volume_key with
  | None => - ENOMEM
  | Some vk =>
      let r := match cd_u cd with
               | U_luks1 hdr _ => LUKS_verify_volume_key hdr vk
               | U_luks2 l => LUKS2_digest_verify_by_segment (l2_hdr l) CRYPT_DEFAULT_SEGMENT vk
               | _ => - EINVAL
               end in
      if 0 <=? r then 0 else r
  end.

(** ** Header *)

Definition crypt_set_uuid (cd : crypt_device) (uuid_arg : option bytes) : M (Z * crypt_device) :=
  if negb (onlyLUKS cd =? 0) then mret (onlyLUKS cd, cd)
  else
    let same := match uuid_arg, crypt_get_uuid cd with
                | Some u, Some active => bool_decide (take 40 (cstr u) = take 40 (cstr active))
                | _, _ => false
                end in
    if same then mret (0, cd)
    else if negb (se_confirm env) then mret (- EPERM, cd)
    else match cd_u cd with
    | U_luks1 hdr _ => '(r, hdr) ← LUKS_hdr_uuid_set env1 hdr uuid_arg; mret (r, set_luks1 hdr cd)
    | U_luks2 l => '(r, hdr) ← LUKS2_hdr_uuid (keys_of cd) (se_uuid env) (l2_hdr l) uuid_arg; mret (r, set_luks2 hdr cd)
    | _ => mret (- EINVAL, cd)
    end.

Definition crypt_set_label (cd : crypt_device) (label subsystem : option bytes) : M (Z * crypt_device) :=
  match cd_u cd with
  | U_luks2 l =>
      if negb (onlyLUKS2 cd =? 0) then mret (onlyLUKS2 cd, cd)
      else '(r, hdr) ← LUKS2_hdr_labels (keys_of cd) (l2_hdr l) label subsystem true; mret (r, set_luks2 hdr cd)
  | _ => mret (- EINVAL, cd)
  end.

(** Code, the contents of the file and the context. *)
Definition crypt_header_backup (cd : crypt_device) (requested_type : option string) : M (Z * option bytes * crypt_device) :=
  if bool_decide (is_Some requested_type) && negb (isLUKS requested_type) then mret (- EINVAL, None, cd)
  else
    '(r, cd) ← _crypt_load_luks cd requested_type true false;
    if r <? 0 then mret (r, None, cd)
    else
      let any := negb (bool_decide (is_Some requested_type)) in
      '(r, file) ← match cd_u cd with
                  | U_luks1 _ _ => if any || isLUKS1 requested_type then LUKS_hdr_backup env1 (cv_pagesize cv) else mret (- EINVAL, None)
                  | U_luks2 l =>
                      if any || isLUKS2 requested_type
                      then LUKS2_hdr_backup (keys_of cd) (se_backup env) (cv_pagesize cv) (l2_hdr l) else mret (- EINVAL, None)
                  | _ => mret (- EINVAL, None)
                  end;
      mret (r, file, cd).

Definition crypt_header_restore (cd : crypt_device) (requested_type : option string) : M (Z * crypt_device) :=
  let any := negb (bool_decide (is_Some requested_type)) in
  let file := bk_open (se_backup env) in
  if negb any && negb (isLUKS requested_type) then mret (- EINVAL, cd)
  else if bool_decide (is_Some (cd_type cd)) && negb (isLUKS (cd_type cd)) then mret (- EINVAL, cd)
  else if pe_init_crypto (se_pbkdf env) <? 0 then mret (pe_init_crypto (se_pbkdf env), cd)
  else
    let version := backup_version in
    if (version =? 0) || (negb any && (version =? 1) && negb (isLUKS1 requested_type)) ||
       (negb any && (version =? 2) && negb (isLUKS2 requested_type)) then mret (- EINVAL, cd)
    else
      '(r, cd) ← match cd_u cd with
                | U_none _ =>
                    if version =? 1 then '(r, _) ← LUKS_hdr_restore env1 file (phdr_of_bytes []); mret (r, cd)
                    else '(r, _) ← LUKS2_hdr_restore (keys_of cd) (se_backup env) empty_hdr; mret (r, cd)
                | U_luks2 l =>
                    if any || isLUKS2 requested_type then
                      '(r, hdr) ← LUKS2_hdr_restore (keys_of cd) (se_backup env) (l2_hdr l);
                      let cd := set_luks2 hdr cd in
                      cd ← (if negb (r =? 0) then _luks2_reload cd else mret cd);
                      mret (r, cd)
                    else mret (- EINVAL, cd)
                | U_luks1 hdr _ =>
                    if any || isLUKS1 requested_type then
                      '(r, hdr) ← LUKS_hdr_restore env1 file hdr; mret (r, set_luks1 hdr cd)
                    else mret (- EINVAL, cd)
                | _ => mret (- EINVAL, cd)
                end;
      if r =? 0 then _crypt_load_luks cd (Some (if version =? 1 then CRYPT_LUKS1 else CRYPT_LUKS2)) true true else mret (r, cd).

(** After a conversion the context is loaded anew. *)
Definition crypt_convert (cd : crypt_device) (type : string) : M (Z * crypt_device) :=
  if negb (onlyLUKS cd =? 0) then mret (onlyLUKS cd, cd)
  else
    '(r, cd') ← match cd_u cd with
               | U_luks1 hdr1 _ =>
                   if isLUKS2 (Some type) then r ← LUKS2_luks1_to_luks2 cv hdr1; mret (Some r, cd) else mret (None, cd)
               | U_luks2 l =>
                   if isLUKS1 (Some type) then
                     '(r, _, hdr2) ← LUKS2_luks2_to_luks1 cv (l2_hdr l);
                     mret (Some r, set_luks2 hdr2 cd)
                   else mret (None, cd)
               | _ => mret (None, cd)
               end;
    match r with
    | None => mret (- EINVAL, cd')
    | Some r =>
        if r <? 0 then cd' ← _luks2_reload cd'; mret (r, cd')
        else crypt_load_luks (set_u (U_none None) cd') (Some type)
    end.

(** ** Tokens *)

Section tokens.
Variable dl : plugins.

(** Code, context and table of handlers. *)
Definition crypt_token_json_set (cd : crypt_device) (table : token_table) (token : Z) (text : option bytes)
    : M (Z * crypt_device * token_table) :=
  match cd_u cd with
  | U_luks2 l =>
      if negb (onlyLUKS2 cd =? 0) then mret (onlyLUKS2 cd, cd, table)
      else
        '(r, hdr, table) ← LUKS2_token_create (keys_of cd) dl table (l2_hdr l) token text true;
        mret (r, set_luks2 hdr cd, table)
  | _ => mret (- EINVAL, cd, table)
  end.

Definition crypt_token_luks2_keyring_set (cd : crypt_device) (table : token_table) (token : Z) (key_description : string)
    : M (Z * crypt_device * token_table) :=
  crypt_token_json_set cd table token (Some (LUKS2_token_keyring_json 4096 key_description)).

Definition crypt_token_status (cd : crypt_device) (table : token_table) (token : Z) : crypt_token_info * option string * token_table :=
  match cd_u cd with
  | U_luks2 l => LUKS2_token_status dl table (l2_hdr l) token
  | _ => (CRYPT_TOKEN_INVALID, None, table)
  end.

(** The token, or an error, and the description *)
Definition crypt_token_luks2_keyring_get (cd : crypt_device) (table : token_table) (token : Z) : Z * option string * token_table :=
  match cd_u cd with
  | U_luks2 l =>
      let '(info, type, table) := LUKS2_token_status dl table (l2_hdr l) token in
      if bool_decide (info = CRYPT_TOKEN_INTERNAL) && bool_decide (type = Some LUKS2_TOKEN_KEYRING) then
        let jobj_token := LUKS2_get_token_jobj (l2_hdr l) token in
        (token, json_object_get_string <$> (jobj_token ≫= (fun t => json_object_object_get_ex t "key_description")), table)
      else (- EINVAL, None, table)
  | _ => (- EINVAL, None, table)
  end.

(** [crypt_activate_by_token_pin] up to the activation; [keyring]: the kernel
    can take the key in a keyring. *)
Definition crypt_activate_by_token_pin (cd : crypt_device) (table : token_table) (keyring : bool) (name type : option string) (token : Z)
    (pin : option bytes) (flags : Z) : M (Z * option volume_key * token_table) :=
  match cd_u cd with
  | U_luks2 l =>
      if has_flag flags CRYPT_ACTIVATE_KEYRING_KEY && negb keyring then mret (- EINVAL, None, table)
      else if has_flag flags CRYPT_ACTIVATE_ALLOW_UNBOUND_KEY && bool_decide (is_Some name) then mret (- EINVAL, None, table)
      else token_open_keyslot (keys_of cd) dl table (l2_hdr l) token type pin flags
  | _ => mret (- EINVAL, None, table)
  end.
End tokens.

Definition crypt_token_json_get (cd : crypt_device) (token : Z) : Z + Z * bytes :=
  match cd_u cd with
  | U_luks2 l => match LUKS2_token_json_get (l2_hdr l) token with inl r => inl r | inr text => inr (token, text) end
  | _ => inl (- EINVAL)
  end.

Definition crypt_token_max (type : string) : Z := if isLUKS2 (Some type) then LUKS2_TOKENS_MAX else - EINVAL.

Definition token_assign (assign : bool) (cd : crypt_device) (token keyslot : Z) : M (Z * crypt_device) :=
  match cd_u cd with
  | U_luks2 l =>
      if negb (onlyLUKS2 cd =? 0) then mret (onlyLUKS2 cd, cd)
      else '(r, hdr) ← LUKS2_token_assign (keys_of cd) (l2_hdr l) keyslot token assign true; mret (r, set_luks2 hdr cd)
  | _ => mret (- EINVAL, cd)
  end.
Definition crypt_token_assign_keyslot := token_assign true.
Definition crypt_token_unassign_keyslot := token_assign false.

Definition crypt_token_is_assigned (cd : crypt_device) (token keyslot : Z) : Z :=
  match cd_u cd with
  | U_luks2 l => LUKS2_token_is_assigned (l2_hdr l) keyslot token
  | _ => - EINVAL
  end.

(** ** Persistent flags *)

Definition crypt_persistent_flags_set (cd : crypt_device) (type : crypt_flags_type) (flags : Z) : M (Z * crypt_device) :=
  match cd_u cd with
  | U_luks2 l =>
      if negb (onlyLUKS2 cd =? 0) then mret (onlyLUKS2 cd, cd)
      else match type with
      | CRYPT_FLAGS_ACTIVATION =>
          if bool_decide (is_Some (json_object_object_get_ex (jobj (l2_hdr l)) "config"))
          then commit_luks2 cd (0, LUKS2_config_set_flags_jobj (l2_hdr l) flags) else mret (0, cd)
      | CRYPT_FLAGS_REQUIREMENTS => commit_luks2 cd (LUKS2_config_set_requirements_jobj (l2_hdr l) flags)
      end
  | _ => mret (- EINVAL, cd)
  end.

Definition crypt_persistent_flags_get (cd : crypt_device) (type : crypt_flags_type) : Z + Z :=
  match cd_u cd with
  | U_luks2 l =>
      inr (match type with
           | CRYPT_FLAGS_ACTIVATION => LUKS2_config_get_flags (l2_hdr l)
           | CRYPT_FLAGS_REQUIREMENTS => LUKS2_config_get_requirements (l2_hdr l)
           end)
  | _ => inl (- EINVAL)
  end.

(** *** Metadata locks of the process *)

(** [_metadata_locking]: code and the new value; locks can only be turned off. *)
Definition crypt_metadata_locking (enabled enable : bool) : Z * bool :=
  if enable && negb enabled then (- EPERM, enabled) else (0, enable).
End setup.
