(* ===== verification/SetupProps.v ===== *)
(** * SetupProps: keyslots through the library's interface

    Opening a keyslot only reads the device, whatever the header says; with
    that, a passphrase that [crypt_keyslot_add_by_passphrase] added gives the
    volume key to [crypt_volume_key_get]. *)

From S2P Require Import Prelude UtilsIO CryptBackend UtilsCrypt CryptStorage Base64 Cstd JsonC Luks2Json Luks2Keyslot Luks2Edit Luks2Areas Luks2Validate Device Wipe WipeProps AF KeyEncryption Luks1 Luks1Facts Luks2Format Luks2AllocProps Luks2Reencrypt Luks2Disk Luks2DiskFacts Luks2DiskWrite Luks2DiskAtomic Luks2DiskProps Luks2HdrStore Luks2KeyslotIo Luks2KeyslotRun Luks1KeysProps Luks2KeyslotProps Luks2Info Luks2Token Luks2Convert Setup SetupKeyslot Pbkdf.
From Stdlib Require Import Strings.Byte.

(** ** Operations that only read *)

(** The file's contents stay, a part of its schedule is used. *)
Definition kept (f f' : file) : Prop := f_data f' = f_data f /\ sched_le f f'.

#[export] Instance kept_preorder : PreOrder kept.
Proof.
  split; [intros f; split; [done|reflexivity]|]. intros f g h [D1 S1] [D2 S2]. split; [congruence|by transitivity g].
Qed.

Lemma sys_read_kept len f : kept f (sr_file (sys_read len f)).
Proof.
  unfold sys_read, kept. destruct (f_sched f) as [|[n|e] s] eqn:E; cbn [sr_file f_data];
    (split; [done|]); intros P H; rewrite ?E in H; cbn [f_sched] in *; rewrite ?E; cbn [tail]; by inversion H.
Qed.

Lemma read_loop_kept fuel quit length acc f r acc' f' : read_loop fuel quit length acc f = Some (r, acc', f') -> kept f f'.
Proof.
  revert quit acc f. induction fuel as [|fuel IH]; intros quit acc f; [done|]. cbn [read_loop].
  pose proof (sys_read_kept (length - zlen acc) f) as Hk. repeat case_match; try (by intros [= <- <- <-]);
    intros H'; (etransitivity; [exact Hk|by eapply IH]).
Qed.

Lemma read_buffer_kept fd length f : kept f (read_buffer fd length f).2.
Proof.
  unfold read_buffer, _read_buffer. destruct (fd <? 0); [reflexivity|].
  destruct (read_loop _ _ _ _ _) as [[[r acc] f']|] eqn:E; [by eapply read_loop_kept|reflexivity].
Qed.

Ltac through_reads :=
  repeat match goal with
  | |- context [read_buffer ?fd ?n ?f] =>
      pose proof (read_buffer_kept fd n f); destruct (read_buffer fd n f) as [[? ?] ?]; cbn [snd] in *
  | |- context [if ?b then _ else _] => destruct b
  end; cbn [snd]; try reflexivity; try (by repeat (etransitivity; [eassumption|])); repeat first [eassumption|etransitivity; [eassumption|]].

Lemma read_blockwise_kept fd bsize alignment length f : kept f (read_blockwise fd bsize alignment length f).2.
Proof. unfold read_blockwise. through_reads. Qed.

Lemma sys_lseek_kept off w f : kept f (sys_lseek off w f).2.
Proof. unfold sys_lseek. destruct (_ <? 0); [reflexivity|]. split; [done|apply sched_le_same]. Qed.

Lemma read_lseek_blockwise_kept fd bsize alignment length offset f : kept f (read_lseek_blockwise fd bsize alignment length offset f).2.
Proof.
  unfold read_lseek_blockwise. destruct (_ || _); [reflexivity|].
  assert (H0 : kept f (if offset <? 0 then sys_lseek offset SEEK_END f else (offset, f)).2).
  { destruct (offset <? 0); [apply sys_lseek_kept|reflexivity]. }
  destruct (if offset <? 0 then _ else _) as [o g]. cbn [snd] in H0. destruct (o <? 0); [done|].
  pose proof (sys_lseek_kept (o - o `mod` bsize) SEEK_SET g) as H1. destruct (sys_lseek _ _ _) as [p h]. cbn [snd] in H1.
  transitivity h; [by transitivity g|]. clear H0 H1. destruct (p <? 0); [reflexivity|]. destruct (_ && _); [|apply read_blockwise_kept].
  destruct (alignment =? 0); [reflexivity|]. pose proof (read_buffer_kept fd bsize h) as H2.
  destruct (read_buffer _ _ _) as [[r b] h2]. cbn [snd] in H2. destruct (_ || _); [done|].
  pose proof (read_blockwise_kept fd bsize alignment (length - Z.min (bsize - o `mod` bsize) length) h2) as H3.
  destruct (read_blockwise _ _ _ _ _) as [[r2 b2] h3]. cbn [snd] in H3. destruct (_ <=? _); cbn [snd]; by transitivity h2.
Qed.

(** The device's contents stay, and a device that is not locked is not locked
    in the end. *)
Definition reads (d d' : device) : Prop := kept (d_file d) (d_file d') /\ (d_lh d = None -> d_lh d' = None).

#[export] Instance reads_preorder : PreOrder reads.
Proof. split; [intros d; split; [reflexivity|done]|]. intros a b c [K1 L1] [K2 L2]. split; [by transitivity (d_file b)|auto]. Qed.

Definition only_reads {A} (m : M A) : Prop := forall d x d', m d = Some (x, d') -> reads d d'.

Lemma only_reads_ret {A} (x : A) : only_reads (mret x).
Proof. intros d y d' [= <- <-]. reflexivity. Qed.

Lemma only_reads_bind {A B} (m : M A) (k : A -> M B) : only_reads m -> (forall a, only_reads (k a)) -> only_reads (m ≫= k).
Proof. intros Hm Hk d x d' (a & d1 & E1 & E2)%bind_inv. transitivity d1; [by eapply Hm|by eapply Hk]. Qed.

Create HintDb cs_reads.
#[export] Hint Resolve only_reads_ret only_reads_bind : cs_reads.

(** Splits a computation into its steps. *)
Ltac only_reads_step :=
  match goal with
  | |- only_reads (mret _) => apply only_reads_ret
  | |- only_reads (mbind _ _) => apply only_reads_bind; [|intros ?]
  | |- only_reads (let '(_, _) := ?p in _) => destruct p
  | |- only_reads (if ?b then _ else _) => destruct b
  | |- only_reads (match ?o with Some _ => _ | None => _ end) => destruct o
  | |- only_reads (match ?o with inl _ => _ | inr _ => _ end) => destruct o
  | |- only_reads _ => solve [eauto with cs_reads]
  end.

Section reads.
Variable os : os_env.

(** Files and locks as they were. *)
Lemma open_locked_same m d fd d' : device_open_locked os m d = Some (fd, d') -> d_file d' = d_file d /\ d_lh d' = d_lh d.
Proof.
  unfold device_open_locked, device_open_internal, _open_locked, set_ro_dev_fd, set_dev_fd, get_device, assert, mbind, M_bind, mret, M_ret.
  intros E. repeat case_match; simplify_eq/=; done.
Qed.

Lemma dev_read_same fd length offset d x d' : dev_read os fd length offset d = Some (x, d') -> kept (d_file d) (d_file d') /\ d_lh d' = d_lh d.
Proof.
  unfold dev_read. pose proof (read_lseek_blockwise_kept fd (env_block_size os) (env_alignment os) length offset (d_file d)) as H.
  destruct (read_lseek_blockwise _ _ _ _ _ _) as [[r b] f]. intros [= _ <-]. by split.
Qed.

Lemma read_lock_fresh d r d' :
  device_read_lock os d = Some (r, d') -> d_lh d = None ->
  d_file d' = d_file d /\ d_lh d' = (if locking_enabled os && (r =? 0) then Some (LockHandle 1 DEV_LOCK_READ) else None).
Proof.
  intros E H. revert E. unfold device_read_lock, device_read_lock_internal, get_device, set_lh, mbind, M_bind, mret, M_ret.
  destruct (locking_enabled os); cbn [negb andb]; [|by intros [= <- <-]]. rewrite H.
  destruct (acquire_result os DEV_LOCK_READ <? 0) eqn:Ea; [|by intros [= <- <-]].
  destruct (Z.eqb_spec (acquire_result os DEV_LOCK_READ) 0); [lia|]. by intros [= <- <-].
Qed.
End reads.

Section open.
Context `{JL : JsonCLaws} `{CHL : CryptHashLaws} `{CCL : CryptCipherLaws} `{CP : CryptPbkdf}.
Variable env : keys_env.
Let os : os_env := os (ky_disk env).

Lemma read_unlock_keeps d x d' : device_read_unlock os d = Some (x, d') -> d_file d' = d_file d.
Proof.
  unfold device_read_unlock, device_unlock_internal, device_lock_dec, get_device, set_lh, assert, mbind, M_bind, mret, M_ret.
  intros E. repeat case_match; simplify_eq/=; done.
Qed.

(** A lock taken by a read is released. *)
Lemma read_unlock_fresh d d1 r x d' :
  d_lh d = None -> d_lh d1 = (if locking_enabled os && (r =? 0) then Some (LockHandle 1 DEV_LOCK_READ) else None) -> r = 0 ->
  device_read_unlock os d1 = Some (x, d') -> d_lh d' = None.
Proof.
  intros _ H1 -> . rewrite Z.eqb_refl, andb_true_r in H1.
  unfold device_read_unlock, device_unlock_internal, device_lock_dec, get_device, set_lh, assert, mbind, M_bind, mret, M_ret.
  destruct (locking_enabled os); cbn [negb]; [|by intros [= _ <-]]. rewrite H1, device_locked_some. cbn beta match.
  rewrite H1. cbn [refcnt lh_type]. change (u32 (1 - 1)) with 0. cbn. by intros [= _ <-].
Qed.

Lemma decrypt_reads len c m key sector : only_reads (luks2_decrypt_from_storage env len c m key sector).
Proof.
  unfold luks2_decrypt_from_storage. only_reads_step; [apply only_reads_ret|]. only_reads_step; [apply only_reads_ret|].
  intros d x d'. intros (r & d1 & E1 & E)%bind_inv.
  assert (K1 : d_file d1 = d_file d).
  { revert E1. unfold device_read_lock, device_read_lock_internal, device_lock_inc, get_device, set_lh, mbind, M_bind, mret, M_ret.
    intros E1. repeat case_match; simplify_eq/=; done. }
  destruct (Z.eqb_spec r 0) as [->|Hr]; cbn [negb] in E.
  2: { injection E as <- <-. split; [by rewrite K1|]. intros Hn. apply (read_lock_fresh _ _ _ _ E1) in Hn as [_ ->].
       rewrite (proj2 (Z.eqb_neq r 0) Hr), andb_false_r. done. }
  apply bind_inv in E as (fd & d2 & E2 & E). apply open_locked_same in E2 as [F2 L2].
  apply bind_inv in E as ([r3 b] & d3 & E3 & E). cbn beta match in E.
  assert (K3 : kept (d_file d2) (d_file d3) /\ d_lh d3 = d_lh d2).
  { destruct (0 <=? fd); [|injection E3 as <- <- <-; by split]. apply bind_inv in E3 as ([n dst] & d3' & E3 & E3').
    apply dev_read_same in E3. cbn beta match in E3'. by injection E3' as _ _ <-. }
  destruct K3 as [K3 L3]. apply bind_inv in E as (u & d4 & E4 & E). injection E as _ <-.
  split; [rewrite (read_unlock_keeps _ _ _ E4); by rewrite <-K1, <-F2|]. intros Hn.
  destruct (read_lock_fresh _ _ _ _ E1 Hn) as [_ Hl]. eapply (read_unlock_fresh d d3 0); [done| |done|exact E4]. rewrite L3, L2. exact Hl.
Qed.

Lemma get_key_reads ks password len : only_reads (luks2_keyslot_get_key env ks password len).
Proof. unfold luks2_keyslot_get_key. repeat only_reads_step; apply decrypt_reads. Qed.

Lemma open_and_verify_reads hdr keyslot segment password : only_reads (LUKS2_open_and_verify env hdr keyslot segment password).
Proof.
  unfold LUKS2_open_and_verify, _open_and_verify, handler_open, luks2_keyslot_open.
  repeat first [only_reads_step|apply get_key_reads].
Qed.

Lemma open_priority_reads slots f priority r : (forall k, only_reads (f k)) -> only_reads (open_priority slots f priority r).
Proof.
  intros Hf. revert r. induction slots as [|[slot val] slots IH]; intros r; cbn [open_priority]; repeat first [only_reads_step|apply IH|apply Hf].
Qed.

(** Opening a keyslot changes nothing on the device. *)
Lemma keyslot_open_reads hdr keyslot segment password : only_reads (LUKS2_keyslot_open env hdr keyslot segment password).
Proof.
  unfold LUKS2_keyslot_open, open_any_priority, LUKS2_keyslot_open_priority.
  repeat first [only_reads_step|apply open_and_verify_reads|apply open_priority_reads; intros].
Qed.
End open.

(** ** A new passphrase opens *)

Section add.
Context `{JL : JsonCLaws} `{CHL : CryptHashLaws} `{CM : CryptHmac} `{CCL : CryptCipherLaws} `{CP : CryptPbkdf} `{LU : LibUuid}.
Variable env : setup_env.
Let os : os_env := os (ky_disk (cv_keys (se_convert env))).

Lemma alloc_key_some key k : alloc_key env key = Some k -> k = key.
Proof. unfold alloc_key. case_match; congruence. Qed.

Lemma existing_key_reads cd l pass : cd_u cd = U_luks2 l -> only_reads (existing_key env cd pass).
Proof.
  intros E. unfold existing_key, open_keyslot. rewrite E. repeat first [only_reads_step|apply keyslot_open_reads].
Qed.

(** The context after a keyslot was stored. *)
Definition stored_context (cd : crypt_device) (hdr : luks2_hdr) (p : crypt_pbkdf_type) : crypt_device := set_luks2 (disk_next hdr) (set_pbkdf p cd).

(** What the new keyslot needs: the header with the keyslot, bound to the digest
    of the key, is [hdr]; its area is behind the header and on the device; the
    key and the passphrase work with the back end; the digest matches. *)
Record new_keyslot (cd : crypt_device) (l : luks2_context) (keyslot : Z) (passphrase vk : bytes) (hdr : luks2_hdr) (p : crypt_pbkdf_type)
    (ks : json) (v : slot_view) (s : crypt_storage) (d : device) : Prop := {
  nk_context : cd_u cd = U_luks2 l /\ onlyLUKS cd = 0;
  nk_digest : 0 <= LUKS2_digest_verify_by_segment (l2_hdr l) CRYPT_DEFAULT_SEGMENT vk;
  nk_json : exists params hdr0,
    LUKS2_keyslot_params_default (cd_pbkdf cd) (crypt_keyslot_get_encryption cd CRYPT_ANY_SLOT) = inr params /\
    LUKS2_digest_assign_jobj (l2_hdr l) keyslot (LUKS2_digest_verify_by_segment (l2_hdr l) CRYPT_DEFAULT_SEGMENT vk) true = (0, hdr0) /\
    LUKS2_keyslot_store_jobj (ky_kdf (keys_of env cd)) hdr0 keyslot (zlen vk) params = Some (0, hdr, p);
  nk_slot : 0 <= keyslot /\ slot_on hdr keyslot ks v vk d;
  nk_works : key_works (keys_of env cd) v passphrase vk s;
  nk_commit : commit_ready (keys_of env cd) hdr d;
  nk_locks : d_lh d = None /\ forall m, 0 <= acquire_result os m;
  nk_handler : LUKS2_keyslot_handler hdr keyslot = Some luks2_keyslot /\ luks2_keyslot_validate ks = 0;
  nk_verifies : 0 <= LUKS2_digest_verify (disk_next hdr) vk keyslot;
  nk_seqid : seqid_current hdr (f_data (d_file d));
}.

Lemma new_keyslot_reads cd l keyslot pass vk hdr p ks v s d d' :
  reads d d' -> new_keyslot cd l keyslot pass vk hdr p ks v s d -> new_keyslot cd l keyslot pass vk hdr p ks v s d'.
Proof.
  intros [[K S] L] [H1 H2 H3 [H4 [A1 A2 A3 A4]] H5 H6 [H7 H7'] H8 H9 H10]. split; try done.
  - split; [done|]. split; try done. destruct A3. split; try done. by rewrite (size_eq _ _ K).
  - by apply (commit_ready_confined _ _ 0 0 d), H6; apply confined_same.
  - split; [auto|done].
  - by rewrite K.
Qed.

(** The keyslot is stored and gives the key, with either context. *)
Lemma store_luks2_opens cd l keyslot pass vk hdr p ks v s d :
  new_keyslot cd l keyslot pass vk hdr p ks v s d -> benign (f_sched (d_file d)) ->
  exists d1 d2,
    store_luks2 env cd l keyslot (LUKS2_digest_verify_by_segment (l2_hdr l) CRYPT_DEFAULT_SEGMENT vk) pass vk d =
      Some ((keyslot, stored_context cd hdr p), d1) /\
    LUKS2_keyslot_open (keys_of env (stored_context cd hdr p)) (disk_next hdr) keyslot CRYPT_ANY_SEGMENT pass d1 =
      Some ((keyslot, Some (LUKS2_digest_by_keyslot (disk_next hdr) keyslot, vk)), d2) /\
    slot_only hdr v (material_bytes (zlen vk)) (d_file d) (d_file d1).
Proof.
  intros [[H1 H1'] H2 (params & hdr0 & Hp & Ha & Hs) [H4 H4'] H5 H6 [H7 H7'] [H8 H8'] H9 H10] Hb.
  destruct (stored_key_opens (keys_of env cd) hdr0 hdr p params keyslot CRYPT_ANY_SEGMENT ks v pass vk s d) as (d1 & d2 & E1 & E2 & F);
    try done.
  exists d1, d2. split; [|split; [exact E2|done]]. unfold store_luks2. rewrite Hp, Ha. cbn [Z.ltb Z.compare].
  by erewrite bind_run by exact E1.
Qed.

(** C6: A passphrase that was added opens the volume: when
    [crypt_keyslot_add_by_passphrase] of a LUKS2 context finds the volume key
    (with the given passphrase, or in the context when there are no keyslots)
    and no call fails for good, it returns the keyslot it chose, and
    [crypt_volume_key_get] of the context and device it leaves, with that
    keyslot and the new passphrase, gives that volume key. On the device only
    the header's copies and the area of the new keyslot changed. *)
Theorem added_passphrase_opens cd l slot keyslot pass new r0 vk hdr p ks v s d d0 size :
  keyslot_verify_or_find_empty cd slot = (0, keyslot) ->
  existing_key env cd (inr pass) d = Some ((r0, vk), d0) -> 0 <= r0 ->
  new_keyslot cd l keyslot new vk hdr p ks v s d -> benign (f_sched (d_file d)) -> zlen vk <= i32 size ->
  exists cd1 d1 d2,
    crypt_keyslot_add_by_passphrase env cd slot (Some pass) (Some new) d = Some ((keyslot, cd1), d1) /\
    crypt_volume_key_get env cd1 keyslot size (Some new) d1 = Some ((keyslot, Some vk), d2) /\
    slot_only hdr v (material_bytes (zlen vk)) (d_file d) (d_file d1).
Proof.
  intros Hf He Hr Hn Hb Hsz. destruct (nk_context _ _ _ _ _ _ _ _ _ _ _ Hn) as [Hu Ho].
  pose proof (existing_key_reads cd l (inr pass) Hu _ _ _ He) as Hk. pose proof Hk as [[K S] _].
  apply (new_keyslot_reads _ _ _ _ _ _ _ _ _ _ _ _ Hk) in Hn.
  destruct (store_luks2_opens cd l keyslot new vk hdr p ks v s d0 Hn (S _ Hb)) as (d1 & d2 & E1 & E2 & F).
  destruct Hn as [_ H2 _ [H4 [A1 A2 A3 A4]] [[W1 W2] _ _ _ _ _ _ _] _ _ _ _ _].
  exists (stored_context cd hdr p), d1, d2. split; [|split].
  - unfold crypt_keyslot_add_by_passphrase. rewrite Ho, Hf. cbn [negb Z.eqb].
    assert (Ha : 0 <= active_slots cd) by (unfold active_slots, LUKS2_keyslot_active_count; rewrite Hu; apply zlen_nonneg).
    assert (Hx : (active_slots cd =? 0) && negb (bool_decide (is_Some (cd_volume_key cd))) = false).
    { destruct (Z.eqb_spec (active_slots cd) 0) as [Ez|]; [|done]. unfold existing_key in He. rewrite Ez in He. cbn [Z.eqb] in He.
      destruct (cd_volume_key cd); [by rewrite bool_decide_true by done|]. injection He as <- <- <-. unfold EINVAL in Hr. lia. }
    rewrite Hx, (proj2 (Z.ltb_ge _ 0) Ha). erewrite bind_run by exact He. cbn beta match.
    rewrite (proj2 (Z.ltb_ge r0 0) Hr). unfold store_key. rewrite Hu, (proj2 (Z.ltb_ge _ 0) H2).
    erewrite bind_run by exact E1. unfold finish. by rewrite (proj2 (Z.ltb_ge keyslot 0) H4).
  - assert (Hu1 : cd_u (stored_context cd hdr p) = U_luks2 (Luks2Context (disk_next hdr) (keyslot_cipher l) (keyslot_key_size l) (l2_reencrypt l))).
    { unfold stored_context, set_luks2, set_pbkdf, set_u. cbn [cd_u]. by rewrite Hu. }
    unfold crypt_volume_key_get, cd_type, open_keyslot. rewrite Hu1. cbn [negb andb l2_hdr default].
    rewrite (proj2 (Z.eqb_neq keyslot CRYPT_ANY_SLOT)) by (unfold CRYPT_ANY_SLOT; lia). cbn [negb].
    destruct (disk_next_keyslot hdr keyslot) as [Kj _].
    rewrite (stored_key_size (disk_next hdr) keyslot ks v), W1 by congruence.
    rewrite (proj2 (Z.ltb_ge (zlen vk) 0)), (proj2 (Z.ltb_ge (i32 size) (zlen vk))) by lia.
    rewrite bool_decide_true by done. cbn [negb]. rewrite andb_false_r.
    erewrite bind_run by (erewrite bind_run by exact E2; reflexivity). cbn beta match.
    by rewrite (proj2 (Z.leb_le 0 keyslot) H4).
  - destruct F as (F1 & F2 & F3). split; [by rewrite F1; apply size_eq|]. split; [by transitivity (d_file d0)|].
    intros o n Ho' Hn' Hd'. rewrite F3 by done. by rewrite K.
Qed.
End add.

(** ** An example: the first keyslot of a new header *)

#[local] Existing Instances fx_hash fx_hash_laws fx_hmac fx_cipher fx_cipher_laws fx_crypt_pbkdf fx_pbkdf_laws fx_uuid fx_uuid_laws.

Definition fx_setup_env : setup_env := {|
  se_convert := ConvertEnv fx_keys_env fx_luks1_env (zeros 64) (zeros 64) 0 4096;
  se_pbkdf := PbkdfEnv 0 (fun _ => 32) 4 4194304 false;
  se_digest := DigestEnv fx_kdf_env (fun _ => 32) 1000 (fun _ _ _ _ n => (0, zeros (Z.to_nat n)));
  se_confirm := true;
  se_generate_key := fun n => Some (zeros (Z.to_nat n));
  se_uuid := zeros 40;
  se_data_size := (0, 2 ^ 20);
  se_backup := BackupEnv true (fun _ => 0) 0 fx_env (fx_key_device []) None true true;
|}.

Definition fx_context_hdr : @luks2_hdr fx_key_json := fx_hdr [fx_key_tree] 0 fx_key_doc.
Definition fx_context : @crypt_device fx_key_json :=
  CryptDevice (U_luks2 (Luks2Context fx_context_hdr (Some "aes-xts-plain64"%string) 64 false)) (Some fx_volume_key) (ke_pbkdf fx_kdf_env) 0 0 0.

Lemma fx_new_keyslot sched :
  granular 512 sched ->
  new_keyslot fx_setup_env fx_context (Luks2Context fx_context_hdr (Some "aes-xts-plain64"%string) 64 false) 2 fx_password fx_volume_key
    fx_key_hdr fx_key_pbkdf fx_key_ks fx_key_view fx_key_storage (fx_key_device sched).
Proof.
  intros Hg. split.
  - split; [reflexivity|by vm_compute].
  - by vm_compute.
  - exists fx_params, (fx_key_hdr0 [fx_key_tree]). split; [by vm_compute|]. split; [|exact fx_key_store_some].
    unfold fx_key_hdr0. rewrite (surjective_pairing (LUKS2_digest_assign_jobj _ _ _ _)). f_equal.
  - split; [lia|apply fx_key_slot].
  - exact fx_key_works.
  - by apply fx_key_ready.
  - done.
  - split; [apply fx_key_handler|by vm_compute].
  - by vm_compute.
  - by vm_compute.
Qed.

Lemma added_passphrase_opens_witness :
  exists cd1 d1 d2,
    crypt_keyslot_add_by_passphrase fx_setup_env fx_context 2 (Some []) (Some fx_password) (fx_key_device [Xfer 512]) = Some ((2, cd1), d1) /\
    crypt_volume_key_get fx_setup_env cd1 2 64 (Some fx_password) d1 = Some ((2, Some fx_volume_key), d2).
Proof.
  destruct (added_passphrase_opens fx_setup_env fx_context (Luks2Context fx_context_hdr (Some "aes-xts-plain64"%string) 64 false) 2 2 [] fx_password
    0 fx_volume_key fx_key_hdr fx_key_pbkdf fx_key_ks fx_key_view fx_key_storage (fx_key_device [Xfer 512]) (fx_key_device [Xfer 512]) 64)
    as (cd1 & d1 & d2 & E1 & E2 & _).
  - by vm_compute.
  - reflexivity.
  - done.
  - apply fx_new_keyslot. repeat constructor. by exists 1.
  - repeat constructor.
  - by vm_compute.
  - exists cd1, d1, d2. split; [exact E1|exact E2].
Defined.
