(* ===== verification/Luks2ReencryptExample.v ===== *)
(** * Luks2ReencryptExample: a hotzone on concrete devices

    A detached header of 16 KiB copies that began a reencryption protected by
    checksums, a data device of four sectors, and a hotzone of two of them, on
    the header store of [Luks2HdrStore]. *)

From S2P Require Import Prelude Cstd CryptBackend UtilsIO CryptStorage StorageWrapper JsonC Luks2Json Luks2Keyslot Luks2Validate Luks2Format Luks2Reencrypt Luks2ReencryptProps Luks2ReencryptStorage Luks2ReencryptData Luks2ReencryptRecovery Luks2ReencryptSafety Device Luks2Disk Luks2DiskFacts Luks2DiskWrite Luks2DiskAtomic Luks2DiskProps Luks2HdrStore.
From Stdlib Require Import Strings.Byte.

Local Open Scope string_scope.
Local Open Scope Z_scope.

#[local] Existing Instances fx_hash fx_hash_laws fx_cipher fx_cipher_laws.

(** ** The headers *)

Definition fx_begun : jtree :=
  JObject [
    ("keyslots", JObject [("0", fx_keyslot 32768 4096);
                          ("1", fx_reencrypt_keyslot "reencrypt" "forward" (fx_checksum_area 36864 4096))]);
    ("tokens", JObject []);
    ("segments", JObject [("0", fx_segment 0 "dynamic");
                          ("1", fx_flagged "backup-previous" (fx_segment 0 "dynamic"));
                          ("2", fx_flagged "backup-final" (fx_segment 0 "dynamic"))]);
    ("digests", JObject [("0", fx_digest ["0"] ["0"; "1"]); ("1", fx_digest [] ["2"])]);
    ("config", JObject [("json_size", JString "12288"); ("keyslots_size", JString "8192");
                        ("requirements", JObject [("mandatory", JArray [JString "online-reencrypt"])])]) ].

Section computed.
Context (known : list jtree).
#[local] Instance computed_json : JsonC := jtree_json known.

Definition fx_old_hdr : luks2_hdr := fx_hdr known 3 fx_begun.

Definition fx_blank : luks2_reencrypt :=
  {| rh_offset := 0; rh_progress := 0; rh_length := 0; rh_data_shift := 0; rh_alignment := 0;
     rh_device_size := 0; rh_fixed_length := false; rh_direction := CRYPT_REENCRYPT_FORWARD;
     rh_mode := CRYPT_REENCRYPT_REENCRYPT; rh_rp := REENC_PROTECTION_NONE; rh_reenc_keyslot := 0;
     rh_segs_hot := None; rh_segs_post := None; rh_segment_new := None; rh_digest_new := 0;
     rh_segment_old := None; rh_digest_old := 0; rh_segment_moved := None; rh_read := 0 |}.

Definition fx_first : luks2_reencrypt :=
  match reencrypt_context_init fx_reenc_env fx_old_hdr 2048
          {| p_resilience := Some "checksum"; p_hash := Some "sha256"; p_max_hotzone_size := 2; p_device_size := 0 |} with
  | inr rh => rh
  | inl _ => fx_blank
  end.

Definition fx_hot : luks2_hdr * luks2_reencrypt :=
  default (fx_old_hdr, fx_blank) (hot_header fx_reenc_env fx_old_hdr fx_first 2048).

Definition fx_post : luks2_hdr :=
  let '(_, hdr, _) := reencrypt_assign_segments (disk_next fx_hot.1) (set_read fx_hot.2 1024) false in hdr.
End computed.

(** The documents the parser of the example knows. *)
Definition fx_known : list jtree :=
  [fx_begun; jobj (disk_next (JC := jtree_json []) (fx_hot []).1); jobj (disk_next (JC := jtree_json []) (fx_post []))].

#[local] Instance fx_json : JsonC := jtree_json fx_known.
#[local] Instance fx_json_laws : JsonCLaws := jtree_laws fx_known.

Definition old_hdr : luks2_hdr := fx_old_hdr fx_known.
Definition first_rh : luks2_reencrypt := fx_first fx_known.
Definition hot_hdr : luks2_hdr := (fx_hot fx_known).1.
Definition hot_rh : luks2_reencrypt := (fx_hot fx_known).2.

Lemma fx_env_ok : env_ok Luks2DiskProps.fx_env.
Proof.
  split.
  - exact fx_mem.
  - intros m. vm_compute. discriminate.
  - reflexivity.
  - reflexivity.
  - split; [reflexivity|]. split; [by exists 1|by exists 8].
  - discriminate.
  - vm_compute. discriminate.
Qed.

#[local] Instance fx_store : HdrStore := disk_store Luks2DiskProps.fx_env.
#[local] Instance fx_store_laws : HdrStoreLaws := disk_store_laws Luks2DiskProps.fx_env 16384 fx_env_ok ltac:(lia).

Definition post_hdr : luks2_hdr := match post_header hot_hdr hot_rh with Some (h, _) => h | None => hot_hdr end.

Lemma digest_nonzero_alg a : a = fx_alg -> digest_nonzero a.
Proof. intros ->. exact fx_digest_nonzero. Qed.

Ltac good_size := apply (bool_decide_eq_true_1 _); fx_eval.
Ltac good_storable :=
  split; [fx_eval|split; [vm_compute; discriminate|fx_eval]|good_size|fx_eval|fx_eval|fx_eval|fx_eval|fx_eval|fx_eval|fx_eval
         |split; [apply (bool_decide_eq_true_1 _); fx_eval|split; fx_eval]|fx_eval|fx_eval].
Ltac good_header :=
  split; [good_storable|fx_eval|apply (bool_decide_eq_true_1 _); fx_eval|apply digest_nonzero_alg; fx_eval
         |split; vm_compute; discriminate|by exists 80].

Lemma fx_old_good : good_hdr Luks2DiskProps.fx_env 16384 old_hdr 40960.
Proof. good_header. Qed.

Lemma fx_hot_good : good_hdr Luks2DiskProps.fx_env 16384 (disk_next hot_hdr) 40960.
Proof. good_header. Qed.

Lemma fx_post_good : good_hdr Luks2DiskProps.fx_env 16384 (disk_next post_hdr) 40960.
Proof. good_header. Qed.

(** ** The devices *)

Definition fx_io : reenc_io :=
  {| io_data_fd := 3; io_data_block := 512; io_data_alignment := 1;
     io_meta_fd := 4; io_meta_rw_fd := 5; io_meta_wrapper_fd := 4; io_meta_block := 512; io_meta_alignment := 1;
     io_datasync := 0; io_dmcrypt := inl (- EINVAL);
     io_vk digest := Some (replicate 64 (if digest =? 0 then x21 else x43)); io_wrapper_flags := 0 |}.

Definition fx_data : bytes := replicate 2048 x5a.
Definition fx_meta : bytes := copy_bytes old_hdr false ++ copy_bytes old_hdr true ++ zeros 8192.

(** The step on devices whose transfers follow the schedules. *)
Definition fx_devices (data_sched meta_sched : list xfer) : store :=
  Store (File fx_data 0 data_sched) (Some (File fx_meta 0 meta_sched)).
Definition fx_s0 : store := fx_devices [] [].

(** The wrapper of the key of digest [d]. *)
Definition fx_init (d : Z) : Z + crypt_storage_wrapper :=
  data_wrapper fx_io 0 0 512 "aes-xts-plain64" (io_vk fx_io d) 0.
Definition fx_cw (d : Z) : crypt_storage_wrapper :=
  match fx_init d with inr cw => cw | inl _ => Build_crypt_storage_wrapper NONE 0 0 0 0 end.

(** A computed property of both wrappers. *)
Lemma fx_cw_check (f : crypt_storage_wrapper -> bool) d :
  (forall b : bool, match data_wrapper fx_io 0 0 512 "aes-xts-plain64" (Some (replicate 64 (if b then x21 else x43))) 0 with
                    | inr cw => f cw
                    | inl _ => false
                    end = true) ->
  fx_init d = inr (fx_cw d) /\ f (fx_cw d) = true.
Proof.
  intros H. specialize (H (d =? 0)). unfold fx_cw, fx_init, io_vk, fx_io. unfold fx_io in H.
  by destruct (data_wrapper _ _ _ _ _ _ _).
Qed.

Lemma fx_init_is d : fx_init d = inr (fx_cw d).
Proof. apply (fx_cw_check (fun _ => true)). intros []; fx_eval. Qed.

Lemma fx_cw_direct d : is_dmcrypt (w_type (fx_cw d)) = false.
Proof. apply negb_true_iff, (fx_cw_check (fun cw => negb (is_dmcrypt (w_type cw)))). intros []; fx_eval. Qed.

Lemma fx_unit d : unit_size (fx_cw d) = 512.
Proof. apply Z.eqb_eq, (fx_cw_check (fun cw => unit_size cw =? 512)). intros []; fx_eval. Qed.

Lemma fx_converts d : converts_at (fx_cw d) (fx_cw d) 0.
Proof.
  assert (H : match w_type (fx_cw d) with USPACE _ iv => iv =? 0 | _ => false end = true).
  { apply (fx_cw_check (fun cw => match w_type cw with USPACE _ iv => iv =? 0 | _ => false end)). intros []; fx_eval. }
  unfold converts_at. destruct (w_type (fx_cw d)) as [|s iv|]; [discriminate| |discriminate].
  apply Z.eqb_eq in H as ->. done.
Qed.

Lemma fx_cw_fits d : wrapper_fits fx_data (fx_cw d) /\ w_block_size (fx_cw d) = 512 /\ data_offset (fx_cw d) = 0.
Proof.
  pose proof (fx_init_is d) as H. apply wrapper_init_ok in H as (Hd & Ho & Hb & _); [|lia|apply fx_cw_direct|done].
  rewrite Ho. split; [|done]. change (io_data_block fx_io) with 512 in Hb.
  split; [done|lia|rewrite Hb; by exists 4|lia|vm_compute; reflexivity].
Qed.


(** ** The step and its recovery *)

Definition fx_P : bytes := default [] (decode (fx_cw 0) 0 (slice 0 1024 fx_data)).
Definition fx_N : bytes := default [] (encode (fx_cw 1) 0 fx_P).

(** The context loaded after a crash. *)
Definition fx_crashed : luks2_reencrypt :=
  match reencrypt_load_crashed fx_reenc_env (disk_next hot_hdr) 2048 0 with inr rh => rh | inl _ => fx_blank fx_known end.

Lemma fx_hot_is : hot_header fx_reenc_env old_hdr first_rh 2048 = Some (hot_hdr, hot_rh).
Proof.
  assert (H : match hot_header fx_reenc_env old_hdr first_rh 2048 with Some _ => true | None => false end = true)
    by fx_eval.
  unfold hot_hdr, hot_rh, fx_hot. change (hot_header fx_reenc_env (fx_old_hdr fx_known) (fx_first fx_known) 2048)
    with (hot_header fx_reenc_env old_hdr first_rh 2048).
  destruct (hot_header _ _ _ _) as [[h r]|]; [done|discriminate].
Qed.

Lemma fx_post_is : exists rhp, post_header hot_hdr hot_rh = Some (post_hdr, rhp).
Proof.
  assert (H : match post_header hot_hdr hot_rh with Some _ => true | None => false end = true) by fx_eval.
  unfold post_hdr. destruct (post_header hot_hdr hot_rh) as [[h rhp]|]; [by exists rhp|discriminate].
Qed.

Lemma fx_old_wrapper : old_wrapper fx_reenc_env fx_io hot_hdr hot_rh (fx_cw 0) = inr (fx_cw 0).
Proof.
  assert (E : bool_decide (rh_mode hot_rh = CRYPT_REENCRYPT_ENCRYPT) = false) by fx_eval.
  unfold old_wrapper. rewrite E, andb_false_r. done.
Qed.

Lemma fx_ready_old : disk_ready Luks2DiskProps.fx_env 16384 old_hdr fx_meta.
Proof.
  assert (E : zlen fx_meta = 40960) by fx_eval. unfold disk_ready. rewrite E.
  split; [exact fx_old_good|]. unfold complete. split; apply (bool_decide_eq_true_1 _); fx_eval.
Qed.

Lemma fx_follows_hot : disk_follows Luks2DiskProps.fx_env 16384 old_hdr hot_hdr 40960.
Proof. split; [fx_eval|]. split; [fx_eval|exact fx_hot_good]. Qed.

Lemma fx_follows_post : disk_follows Luks2DiskProps.fx_env 16384 (disk_next hot_hdr) post_hdr 40960.
Proof. split; [fx_eval|]. split; [fx_eval|exact fx_post_good]. Qed.

Lemma fx_hot_fields :
  rh_offset hot_rh = 0 /\ rh_length hot_rh = 1024 /\ rh_alignment hot_rh = 512 /\ rh_reenc_keyslot hot_rh = 1 /\
  rh_rp hot_rh = REENC_PROTECTION_CHECKSUM "sha256" 32.
Proof. repeat split; fx_eval. Qed.

Lemma fx_crashed_fields :
  rh_offset fx_crashed = 0 /\ rh_length fx_crashed = 1024 /\ rh_alignment fx_crashed = 512 /\
  rh_reenc_keyslot fx_crashed = 1 /\ rh_rp fx_crashed = REENC_PROTECTION_CHECKSUM "sha256" 32.
Proof. repeat split; fx_eval. Qed.

Lemma fx_decode : decode (fx_cw 0) 0 (slice 0 1024 fx_data) = Some fx_P.
Proof. apply (bool_decide_eq_true_1 _). fx_eval. Qed.

Lemma fx_encode : encode (fx_cw 1) 0 fx_P = Some fx_N.
Proof. apply (bool_decide_eq_true_1 _). fx_eval. Qed.

Lemma fx_no_collision : no_collision "sha256" 32 512 2 (slice 0 1024 fx_data) fx_N.
Proof.
  assert (H : forall i, i = 0 \/ i = 1 -> bool_decide (crypt_hash_final (bytes_of_string "sha256") (block 512 i fx_N) 32 =
    crypt_hash_final (bytes_of_string "sha256") (block 512 i (slice 0 1024 fx_data)) 32) = false) by (intros i [-> | ->]; fx_eval).
  intros i Hi E. specialize (H i ltac:(lia)). by apply bool_decide_eq_false in H.
Qed.

Lemma fx_keyslot_type :
  exists j t, LUKS2_get_keyslot_jobj hot_hdr 1 = Some j /\ json_object_object_get_ex j "type" = Some t /\
    json_object_get_string t = "reencrypt" /\ reenc_keyslot_validate j = 0.
Proof.
  assert (H : match LUKS2_get_keyslot_jobj hot_hdr 1 with
              | Some j => match json_object_object_get_ex j "type" with
                          | Some t => (json_object_get_string t =? "reencrypt")%string && (reenc_keyslot_validate j =? 0)
                          | None => false
                          end
              | None => false
              end = true) by fx_eval.
  destruct (LUKS2_get_keyslot_jobj hot_hdr 1) as [j|]; [|discriminate].
  destruct (json_object_object_get_ex j "type") as [t|] eqn:E; [|discriminate].
  apply andb_true_iff in H as [Hs Hv]. apply String.eqb_eq in Hs. apply Z.eqb_eq in Hv. by exists j, t.
Qed.

Lemma fx_area_ok : area_ok fx_io old_hdr hot_hdr 1 36864 4096 40960.
Proof.
  destruct fx_keyslot_type as (j & t & Hj & Ht & Es & Hv). split.
  - apply (bool_decide_eq_true_1 _). fx_eval.
  - unfold LUKS2_keyslot_handler. rewrite Hj. cbn [mbind option_bind]. rewrite Ht. cbn [mbind option_bind].
    rewrite Es. done.
  - exists j. split; [exact Hj|exact Hv].
  - cbn [hdr_end fx_store_laws disk_store_laws]. lia.
  - exact fx_follows_hot.
  - lia.
  - cbn. lia.
  - cbn. split; [lia|by exists 80].
  - cbn. lia.
Qed.

Lemma fx_hotzone_ok : hotzone_ok fx_io fx_s0 old_hdr hot_hdr hot_rh (fx_cw 0) (fx_cw 1) 36864 4096 fx_P fx_N.
Proof.
  destruct fx_hot_fields as (Eo & El & Ea & Ek & Er).
  destruct (fx_cw_fits 0) as (Hf0 & Hb0 & Hd0). destruct (fx_cw_fits 1) as (Hf1 & Hb1 & Hd1).
  assert (Em : zlen (f_data (meta_file fx_s0)) = 40960) by fx_eval.
  assert (Ed : zlen (f_data (data_dev fx_s0)) = 2048) by fx_eval.
  assert (EO : old_data fx_s0 hot_rh (fx_cw 0) = slice 0 1024 fx_data) by (unfold old_data, ooff; rewrite Hd0, Eo, El; done).
  split; unfold protection_ok, woff, ooff; rewrite ?EO, ?Er, ?Eo, ?El, ?Ea, ?Ek, ?Em, ?Ed, ?Hd0, ?Hd1, ?Hb1, ?fx_unit.
  - exact fx_area_ok.
  - exact fx_ready_old.
  - discriminate.
  - lia.
  - change (metadata_end fx_s0 36864 4096) with 0. lia.
  - exact Hf0.
  - exact Hf1.
  - split; [lia|by exists 2].
  - split; [by exists 0|by exists 1].
  - split; by exists 1.
  - exact fx_decode.
  - exact fx_encode.
  - assert (Eh : crypt_hash_size (bytes_of_string "sha256") = 32) by fx_eval.
    rewrite Eh. change (1024 / 512) with 2. split; [lia|]. split; [lia|]. split; [reflexivity|exact fx_no_collision].
Qed.

Lemma fx_step_ok rhp : post_header hot_hdr hot_rh = Some (post_hdr, rhp) ->
  step_ok fx_io fx_s0 hot_hdr hot_rh (fx_cw 0) fx_reenc_env old_hdr first_rh (fx_cw 0) 2048 post_hdr rhp.
Proof.
  intros Hp. split; [exact fx_hot_is|exact fx_old_wrapper|exact Hp|].
  assert (Em : zlen (f_data (meta_file fx_s0)) = 40960) by fx_eval. rewrite Em. exact fx_follows_post.
Qed.

(** What the recovery sets up is what the step had. *)
Lemma fx_recovery_wrappers :
  recover_new_wrapper fx_io (disk_next hot_hdr) fx_crashed = inr (fx_cw 1) /\
  recover_old_wrapper fx_io (disk_next hot_hdr) fx_crashed 36864 = inr (fx_cw 0).
Proof.
  destruct fx_crashed_fields as (_ & _ & _ & _ & Er).
  assert (E1 : crash_window (disk_next hot_hdr) fx_crashed = 0) by fx_eval.
  assert (E2 : crash_iv_offset fx_crashed = 0) by fx_eval.
  assert (E3 : json_segment_get_sector_size (reencrypt_segment (disk_next hot_hdr) true) = 512) by fx_eval.
  assert (E4 : json_segment_get_sector_size (reencrypt_segment (disk_next hot_hdr) false) = 512) by fx_eval.
  assert (E5 : reencrypt_segment_cipher_new (disk_next hot_hdr) = "aes-xts-plain64") by fx_eval.
  assert (E6 : reencrypt_segment_cipher_old (disk_next hot_hdr) = "aes-xts-plain64") by fx_eval.
  assert (E7 : rh_digest_new fx_crashed = 1) by fx_eval.
  assert (E8 : rh_digest_old fx_crashed = 0) by fx_eval.
  unfold recover_new_wrapper, recover_old_wrapper. rewrite Er, E1, E2, E3, E4, E5, E6, E7, E8.
  split; apply fx_init_is.
Qed.

Lemma fx_recovery_ok :
  recovery_ok fx_io fx_s0 hot_rh (fx_cw 0) (fx_cw 1) 36864 4096 (disk_next hot_hdr) fx_crashed (fx_cw 0) (fx_cw 1).
Proof.
  destruct fx_hot_fields as (Eo & El & Ea & Ek & Er). destruct fx_crashed_fields as (Fo & Fl & Fa & Fk & Fr).
  destruct fx_recovery_wrappers as [Hn Ho].
  destruct (fx_cw_fits 0) as (Hf0 & Hb0 & Hd0). destruct (fx_cw_fits 1) as (Hf1 & Hb1 & Hd1).
  split; unfold woff, ooff; rewrite ?Er, ?Eo, ?El, ?Ea, ?Fl, ?Fa, ?Fr, ?Fk, ?Hd0, ?Hd1, ?Hb1, ?Hb0.
  - vm_compute. discriminate.
  - fx_eval.
  - reflexivity.
  - reflexivity.
  - reflexivity.
  - lia.
  - apply (bool_decide_eq_true_1 _). fx_eval.
  - exact Hn.
  - exact Ho.
  - split; [apply fx_converts|reflexivity].
  - split; [apply fx_converts|reflexivity].
  - split; [exact Hf1|reflexivity].
  - split; [apply Hf0|lia].
  - change (0 <= 4). lia.
Qed.

Lemma fx_distinct : jobj old_hdr <> jobj (next_header hot_hdr) /\ jobj (next_header post_hdr) <> jobj (next_header hot_hdr).
Proof.
  assert (Hp : forall j j', (String.length (jtree_print j) =? String.length (jtree_print j'))%nat = false -> j <> j').
  { intros j j' H ->. by rewrite Nat.eqb_refl in H. }
  split; apply Hp; fx_eval.
Qed.

(** The machine stops after the first sector of the window was written. *)
Definition fx_before : store := fx_devices [Xfer 1024; Xfer 512; Xerr EIO] [].
Definition fx_interrupted : store :=
  (reencrypt_step fx_reenc_env fx_io old_hdr first_rh (fx_cw 0) (fx_cw 1) 2048 fx_before).2.
Definition fx_reboot (s : store) : store :=
  Store (File (f_data (data_dev s)) 0 []) (Some (File (f_data (meta_file s)) 0 [])).
Definition fx_rebooted : store := fx_reboot fx_interrupted.

Lemma fx_rebooted_is : rebooted hot_rh fx_interrupted fx_rebooted.
Proof.
  assert (H : forall s, attached s = false -> rebooted hot_rh s (fx_reboot s)).
  { intros s Ha. split; [rewrite Ha; reflexivity|]. split; [reflexivity|]. split; [reflexivity|]. split; constructor. }
  apply H. fx_eval.
Qed.

Lemma fx_before_fresh : fresh fx_s0 hot_rh fx_before.
Proof.
  destruct fx_hot_fields as (_ & _ & Ea & _). split; [reflexivity|]. split; [reflexivity|]. split; [reflexivity|].
  split; [|constructor]. rewrite Ea. repeat constructor; [by exists 2|by exists 1].
Qed.

(** Half of the window is new and half is old, and the data is not lost. *)
Lemma hotzone_survives_crash_witness :
  slice 0 512 (f_data (data_dev fx_rebooted)) = slice 0 512 fx_N /\
  slice 512 1536 (f_data (data_dev fx_rebooted)) = slice 512 1536 fx_data /\
  plaintext_is fx_io old_hdr hot_hdr hot_rh (fx_cw 0) (fx_cw 1) post_hdr (disk_next hot_hdr) fx_crashed fx_rebooted fx_P.
Proof.
  destruct fx_post_is as [rhp Hp].
  split; [apply (bool_decide_eq_true_1 _); fx_eval|]. split; [apply (bool_decide_eq_true_1 _); fx_eval|].
  refine (proj1 (hotzone_survives_crash fx_io fx_s0 old_hdr hot_hdr hot_rh (fx_cw 0) (fx_cw 1) 36864 4096 fx_P fx_N
    fx_hotzone_ok fx_reenc_env old_hdr first_rh (fx_cw 0) 2048 post_hdr rhp (fx_step_ok rhp Hp)
    (disk_next hot_hdr) fx_crashed (fx_cw 0) (fx_cw 1) fx_recovery_ok fx_distinct fx_interrupted fx_rebooted _ _ _)).
  - apply interrupted_step. exact fx_before_fresh.
  - exact fx_rebooted_is.
  - split; constructor.
Defined.

Lemma reencrypt_step_done_witness :
  exists hdr' rh' cw' s', 
    reencrypt_step fx_reenc_env fx_io old_hdr first_rh (fx_cw 0) (fx_cw 1) 2048 fx_s0 = (REENC_OK, hdr', rh', cw', s') /\
    slice 0 1024 (f_data (data_dev s')) = fx_N.
Proof.
  destruct fx_post_is as [rhp Hp].
  destruct (reencrypt_step fx_reenc_env fx_io old_hdr first_rh (fx_cw 0) (fx_cw 1) 2048 fx_s0) as [[[[rs hdr'] rh'] cw'] s'] eqn:E.
  exists hdr', rh', cw', s'.
  destruct (reencrypt_step_done fx_io fx_s0 old_hdr hot_hdr hot_rh (fx_cw 0) (fx_cw 1) 36864 4096 fx_P fx_N
    fx_hotzone_ok fx_reenc_env old_hdr first_rh (fx_cw 0) 2048 post_hdr rhp (fx_step_ok rhp Hp) fx_s0 rs hdr' rh' cw' s')
    as (Ers & _ & Hw & _).
  - split; [reflexivity|]. split; [reflexivity|]. split; [reflexivity|]. split; constructor.
  - split; constructor.
  - reflexivity.
  - exact E.
  - destruct fx_hot_fields as (Eo & El & _). destruct (fx_cw_fits 1) as (_ & _ & Hd1).
    split; [rewrite Ers; reflexivity|]. unfold woff in Hw. rewrite Hd1, Eo, El in Hw. exact Hw.
Defined.

(** The loop over both windows of the device. *)
Abbreviation fx_loop := (reencrypt_loop fx_reenc_env fx_io 2048 [] REENC_OK old_hdr first_rh (fx_cw 0) (fx_cw 1) fx_s0).
Abbreviation fx_windows := (loop_windows fx_reenc_env fx_io 2048 [] old_hdr first_rh (fx_cw 0) (fx_cw 1) fx_s0).

Definition fx_loop_ends (result : option (reenc_status_t * luks2_hdr * luks2_reencrypt * store)) : bool :=
  match result with Some (REENC_OK, _, rh, _) => rh_device_size rh <=? rh_progress rh | _ => false end.

Definition fx_first_params : crypt_params_reencrypt :=
  {| p_resilience := Some "checksum"; p_hash := Some "sha256"; p_max_hotzone_size := 2; p_device_size := 0 |}.

Lemma fx_first_init : reencrypt_context_init fx_reenc_env old_hdr 2048 fx_first_params = inr first_rh.
Proof.
  change first_rh with (match reencrypt_context_init fx_reenc_env old_hdr 2048 fx_first_params with inr rh => rh | inl _ => fx_blank fx_known end).
  assert (H : match reencrypt_context_init fx_reenc_env old_hdr 2048 fx_first_params with inl _ => false | inr _ => true end = true) by fx_eval.
  by destruct (reencrypt_context_init _ _ _ _).
Qed.

Lemma reencryption_windows_tile_witness :
  fx_windows.*1 = [(0, 1024); (1024, 1024)] /\ tiles 0 2048 fx_windows.*1.
Proof.
  assert (Hw : fx_windows = [(0, 1024, 1024); (1024, 1024, 1024)]) by fx_eval.
  assert (Hl : fx_loop_ends fx_loop = true) by fx_eval.
  assert (Hrh : rh_device_size first_rh = 2048 /\ rh_offset first_rh = 0 /\ rh_direction first_rh = CRYPT_REENCRYPT_FORWARD /\
    moves_data first_rh = false) by (split; [|split; [|split]]; fx_eval).
  destruct Hrh as (Hdev & Hoff & Hdir & Hmove).
  destruct (reencryption_windows_tile fx_reenc_env old_hdr 2048 fx_first_params first_rh) as (ws & _ & Ht & Hloop).
  - vm_compute. reflexivity.
  - lia.
  - rewrite Hdev. lia.
  - exact fx_first_init.
  - cbn [re_block_size fx_reenc_env]. lia.
  - intros n. cbn [re_optimal_alignment fx_reenc_env]. lia.
  - intros H. exfalso. rewrite H in Hmove. discriminate Hmove.
  - destruct (Hloop fx_io 2048%nat [] REENC_OK old_hdr (fx_cw 0) (fx_cw 1) fx_s0) as (_ & _ & Hall); [rewrite Hw; repeat constructor|].
    cbv zeta in Hall. revert Hl Hall. generalize fx_loop. unfold fx_loop_ends.
    intros [[[[rs hdr'] rh'] s']|] Hl Hall; [|discriminate Hl]. destruct rs; try discriminate Hl.
    specialize (Hall _ _ _ eq_refl (proj1 (Z.leb_le _ _) Hl)).
    rewrite Hdir, Hdev, Hoff in Ht. rewrite Hall. split; [|exact Ht]. rewrite <-Hall, Hw. reflexivity.
Defined.
