(* ===== verification/VerityHash.v ===== *)
(** * VerityHash: the hash tree of dm-verity (lib/verity/verity_hash.c)

    The tree is built and checked level by level: the blocks of a level are
    hashed into the blocks of the next one, up to a single block, whose digest
    is the root hash. The code works through stdio; a stream is a device and a
    position, and every call takes the next entry of a schedule that says
    whether it fails. A stream is flushed by the seek that begins each pass, so
    what a pass wrote is there for the next one to read. Streams do not extend
    a device. *)

From S2P Require Import Prelude CryptBackend.

(** struct crypt_params_verity; names of devices are not modelled, and the
    salt has [salt_size] bytes. *)
Record crypt_params_verity := {
  hash_name : bytes;
  salt : bytes;
  salt_size : Z;
  hash_type : Z;
  data_block_size : Z;
  hash_block_size : Z;
  data_size : Z;
  hash_area_offset : Z;
  fec_area_offset : Z;
  fec_roots : Z;
  flags : Z;
}.

Definition VERITY_MAX_LEVELS : Z := 63.
Definition VERITY_MAX_DIGEST_SIZE : Z := 1024.
Definition EFAULT : Z := 14.

(** ** Streams *)

(** The data device and the hash device ([None]: they are the same), and what
    happens to the next calls: [Some k] fails, a write after [k] bytes. *)
Record disks := Disks { dk_data : bytes; dk_hash : option bytes; dk_io : list (option Z) }.

Inductive which := DATA_FILE | HASH_FILE.

Definition dev_bytes (w : which) (d : disks) : bytes :=
  match w with DATA_FILE => dk_data d | HASH_FILE => default (dk_data d) (dk_hash d) end.

Definition set_hash_bytes (b : bytes) (d : disks) : disks :=
  match dk_hash d with
  | None => Disks b None (dk_io d)
  | Some _ => Disks (dk_data d) (Some b) (dk_io d)
  end.

Definition io_next (d : disks) : option Z * disks :=
  match dk_io d with
  | [] => (None, d)
  | e :: io => (e, Disks (dk_data d) (dk_hash d) io)
  end.

(** fopen and fseeko *)
Definition io_call (d : disks) : bool * disks :=
  let '(e, d) := io_next d in (bool_decide (e = None), d).

(** fread and fwrite of one item of [n] bytes *)
Definition fread (w : which) (pos n : Z) (d : disks) : option bytes * disks :=
  let '(e, d) := io_next d in
  match e with
  | None => (if (n =? 0) || (zlen (dev_bytes w d) <? pos + n) then None else Some (slice pos n (dev_bytes w d)), d)
  | Some _ => (None, d)
  end.

Definition fwrite (pos : Z) (b : bytes) (d : disks) : bool * disks :=
  let '(e, d) := io_next d in
  let size := zlen (dev_bytes HASH_FILE d) in
  match e with
  | None => if (zlen b =? 0) || (size <? pos + zlen b) then (false, d)
            else (true, set_hash_bytes (splice pos b (dev_bytes HASH_FILE d)) d)
  | Some k => (false, if size <? pos + zlen b then d
                      else set_hash_bytes (splice pos (take (Z.to_nat k) b) (dev_bytes HASH_FILE d)) d)
  end.

(** ** Sizes of the tree *)

Fixpoint bits_up_loop (fuel : nat) (i u : Z) : Z :=
  match fuel with
  | O => i
  | S fuel' => if u32 (Z.shiftl 1 i) <? u then bits_up_loop fuel' (i + 1) u else i
  end.
Definition get_bits_up (u : Z) : Z := bits_up_loop 32 0 u.

Fixpoint bits_down_loop (fuel : nat) (i u : Z) : Z :=
  match fuel with
  | O => i
  | S fuel' => if 1 <? Z.shiftr u i then bits_down_loop fuel' (i + 1) u else i
  end.
Definition get_bits_down (u : Z) : Z := bits_down_loop 64 0 u.

(** The levels above the data; they end where a shift leaves nothing. *)
Fixpoint count_levels (fuel : nat) (bits last levels : Z) : Z :=
  match fuel with
  | O => levels
  | S fuel' =>
      if (bits * levels <? 64) && negb (Z.shiftr last (bits * levels) =? 0)
      then count_levels fuel' bits last (levels + 1) else levels
  end.

(** Levels [n - 1], ..., 0 from [hash_position] on: the position after them
    and, for every level, its first block and its number of blocks. *)
Fixpoint place_levels (n : nat) (bits data_file_blocks hash_position : Z) (acc : list (Z * Z))
    : option (Z * list (Z * Z)) :=
  match n with
  | O => Some (hash_position, acc)
  | S i =>
      let s_shift := Z.of_nat (S i) * bits in
      if 63 <? s_shift then None
      else
        let s := Z.shiftr ((data_file_blocks +64 Z.shiftl 1 s_shift) -64 1) s_shift in
        if hash_position +64 s <? hash_position then None
        else place_levels i bits data_file_blocks (hash_position +64 s) ((hash_position, s) :: acc)
  end.

Definition hash_levels (hash_block_size digest_size data_file_blocks hash_position : Z)
    : option (Z * list (Z * Z)) :=
  if digest_size =? 0 then None
  else
    let bits := get_bits_down (hash_block_size / digest_size) in
    if bits =? 0 then None
    else
      let levels := count_levels 65 bits (data_file_blocks -64 1) 0 in
      if VERITY_MAX_LEVELS <? levels then None
      else place_levels (Z.to_nat levels) bits data_file_blocks hash_position [].

Definition uint64_mult_overflow (b size : Z) : bool * Z :=
  let u := u64 (b * size) in (negb (u / size =? b), u).

(** ** One level *)

Section verity.
Context `{CH : CryptHash}.

(** [None] is a failure of the back end. *)
Definition verify_hash_block (hash_name : bytes) (version : Z) (digest_size : Z) (data salt : bytes) : option bytes :=
  if crypt_hash_size hash_name <=? 0 then None
  else if crypt_hash_size hash_name <? digest_size then None
  else Some (crypt_hash_final hash_name
               ((if version =? 1 then salt else []) ++ data ++ (if version =? 0 then salt else [])) digest_size).

Record level_params := {
  lp_rd : which;              (** the stream [rd] *)
  lp_wr : bool;               (** there is a stream [wr], on the hash device *)
  lp_verify : bool;
  lp_data_block_size : Z;
  lp_hash_block_size : Z;
  lp_version : Z;
  lp_hash_name : bytes;
  lp_digest_size : Z;
  lp_salt : bytes;
}.

Variable p : level_params.

Record cstate := CState { c_rd : Z; c_wr : Z; c_digest : bytes; c_disks : disks }.

Definition verify_zero (n : Z) (st : cstate) : Z * cstate :=
  let '(b, d) := fread HASH_FILE (c_wr st) n (c_disks st) in
  match b with
  | None => (- EIO, CState (c_rd st) (c_wr st) (c_digest st) d)
  | Some block =>
      let st := CState (c_rd st) (c_wr st + n) (c_digest st) d in
      if bool_decide (block = zeros (Z.to_nat n)) then (0, st) else (- EPERM, st)
  end.

Definition write_hash (b : bytes) (st : cstate) : Z * cstate :=
  let '(ok, d) := fwrite (c_wr st) b (c_disks st) in
  if ok then (0, CState (c_rd st) (c_wr st + zlen b) (c_digest st) d)
  else (- EIO, CState (c_rd st) (c_wr st) (c_digest st) d).

(** [n] bytes of zeros: they are checked or written. *)
Definition spare (n : Z) (st : cstate) : Z * cstate :=
  if lp_verify p then verify_zero n st else write_hash (zeros (Z.to_nat n)) st.

(** The calculated digest: it is compared or written. *)
Definition digest_io (st : cstate) : Z * cstate :=
  if lp_verify p then
    let '(b, d) := fread HASH_FILE (c_wr st) (lp_digest_size p) (c_disks st) in
    match b with
    | None => (- EIO, CState (c_rd st) (c_wr st) (c_digest st) d)
    | Some read_digest =>
        let st := CState (c_rd st) (c_wr st + lp_digest_size p) (c_digest st) d in
        if bool_decide (read_digest = c_digest st) then (0, st) else (- EPERM, st)
    end
  else write_hash (c_digest st) st.

Definition hash_per_block : Z := Z.shiftl 1 (get_bits_down (lp_hash_block_size p / lp_digest_size p)).
Definition digest_size_full : Z := Z.shiftl 1 (get_bits_up (lp_digest_size p)).

(** A data block is read and hashed. *)
Definition hash_data (st : cstate) : Z * cstate :=
  let '(b, d) := fread (lp_rd p) (c_rd st) (lp_data_block_size p) (c_disks st) in
  match b with
  | None => (- EIO, CState (c_rd st) (c_wr st) (c_digest st) d)
  | Some data =>
      let rd := c_rd st + lp_data_block_size p in
      match verify_hash_block (lp_hash_name p) (lp_version p) (lp_digest_size p) data (lp_salt p) with
      | None => (- EINVAL, CState rd (c_wr st) (c_digest st) d)
      | Some digest => (0, CState rd (c_wr st) digest d)
      end
  end.

(** The [for] loop: up to [n] more digests of a hash block. The result has the
    blocks and bytes left. *)
Fixpoint group_loop (n : nat) (blocks left_bytes : Z) (st : cstate) : Z * Z * Z * cstate :=
  match n with
  | O => (0, blocks, left_bytes, st)
  | S n' =>
      if blocks =? 0 then (0, blocks, left_bytes, st)
      else
        let blocks := blocks - 1 in
        let '(r, st) := hash_data st in
        if negb (r =? 0) then (r, blocks, left_bytes, st)
        else if negb (lp_wr p) then (0, blocks, left_bytes, st)
        else
          let '(r, st) := digest_io st in
          if negb (r =? 0) then (r, blocks, left_bytes, st)
          else if lp_version p =? 0 then group_loop n' blocks (left_bytes -64 lp_digest_size p) st
          else
            let '(r, st) := if negb (digest_size_full - lp_digest_size p =? 0)
                            then spare (digest_size_full - lp_digest_size p) st else (0, st) in
            if negb (r =? 0) then (r, blocks, left_bytes, st)
            else group_loop n' blocks (left_bytes -64 digest_size_full) st
  end.

(** The [while] loop, [n] being [blocks_to_write]. *)
Fixpoint blocks_loop (n : nat) (blocks : Z) (st : cstate) : Z * cstate :=
  match n with
  | O => (0, st)
  | S n' =>
      let '(r, blocks, left_bytes, st) := group_loop (Z.to_nat hash_per_block) blocks (lp_hash_block_size p) st in
      if negb (r =? 0) then (r, st)
      else
        let '(r, st) := if lp_wr p && negb (left_bytes =? 0) then spare left_bytes st else (0, st) in
        if negb (r =? 0) then (r, st) else blocks_loop n' blocks st
  end.

Definition create_or_verify (data_block hash_block blocks : Z) (digest : bytes) (d : disks) : Z * bytes * disks :=
  let blocks_to_write := ((blocks +64 hash_per_block) -64 1) / hash_per_block in
  if VERITY_MAX_DIGEST_SIZE <? lp_digest_size p then (- EINVAL, digest, d)
  else
    let '(overflow_rd, seek_rd) := uint64_mult_overflow data_block (lp_data_block_size p) in
    let '(overflow_wr, seek_wr) := uint64_mult_overflow hash_block (lp_hash_block_size p) in
    if overflow_rd || overflow_wr then (- EINVAL, digest, d)
    else
      let '(ok, d) := io_call d in
      if negb ok then (- EIO, digest, d)
      else
        let '(ok, d) := if lp_wr p then io_call d else (true, d) in
        if negb ok then (- EIO, digest, d)
        else
          let '(r, st) := blocks_loop (Z.to_nat blocks_to_write) blocks (CState seek_rd seek_wr digest d) in
          (r, c_digest st, c_disks st).
End verity.

(** ** The tree *)

Definition VERITY_SB_SIZE : Z := 512.
Definition CRYPT_VERITY_NO_HEADER : Z := 1.

Definition VERITY_hash_offset_block (params : crypt_params_verity) : Z :=
  if negb (Z.land (flags params) CRYPT_VERITY_NO_HEADER =? 0)
  then hash_area_offset params / hash_block_size params
  else ((hash_area_offset params +64 VERITY_SB_SIZE) +64 (hash_block_size params - 1)) / hash_block_size params.

Section tree.
Context `{CH : CryptHash}.
Variable params : crypt_params_verity.
Variables (verify : bool) (digest_size : Z).

Definition level_of (rd : which) (wr : bool) (block_size : Z) : level_params :=
  {| lp_rd := rd; lp_wr := wr; lp_verify := verify; lp_data_block_size := block_size;
     lp_hash_block_size := hash_block_size params; lp_version := hash_type params;
     lp_hash_name := hash_name params; lp_digest_size := digest_size; lp_salt := salt params |}.

(** Levels above the first: [block] and [size] are those of the level below.
    [hash_file_2] is opened for each. *)
Fixpoint upper_levels (levels : list (Z * Z)) (block size : Z) (digest : bytes) (d : disks) : Z * bytes * disks :=
  match levels with
  | [] => (0, digest, d)
  | (next_block, next_size) :: levels' =>
      let '(ok, d) := io_call d in
      if negb ok then (- EIO, digest, d)
      else
        let '(r, digest, d) := create_or_verify (level_of HASH_FILE true (hash_block_size params))
                                 block next_block size digest d in
        if negb (r =? 0) then (r, digest, d) else upper_levels levels' next_block next_size digest d
  end.

(** The levels and the root. *)
Definition hash_tree (levels : list (Z * Z)) (data_file_blocks : Z) (d : disks) : Z * bytes * disks :=
  let digest := zeros (Z.to_nat digest_size) in
  match levels with
  | [] => create_or_verify (level_of DATA_FILE false (data_block_size params)) 0 0 data_file_blocks digest d
  | (block, size) :: levels' =>
      let '(r, digest, d) := create_or_verify (level_of DATA_FILE true (data_block_size params))
                               0 block data_file_blocks digest d in
      if negb (r =? 0) then (r, digest, d)
      else
        let '(r, digest, d) := upper_levels levels' block size digest d in
        if negb (r =? 0) then (r, digest, d)
        else
          let '(top, _) := List.last levels (0, 0) in
          create_or_verify (level_of HASH_FILE false (hash_block_size params)) top 0 1 digest d
  end.

(** [dev_size] is what [device_size] finds of the data device. The result has
    the root hash: the one given when the tree is verified. *)
Definition VERITY_create_or_verify_hash (dev_size : Z + Z) (root_hash : bytes) (d : disks) : Z * bytes * disks :=
  if VERITY_MAX_DIGEST_SIZE <? digest_size then (- EINVAL, root_hash, d)
  else match (if data_size params =? 0 then
                match dev_size with inl r => inl r | inr n => inr (n / data_block_size params) end
              else inr (data_size params)) with
  | inl r => (r, root_hash, d)
  | inr data_file_blocks =>
      if fst (uint64_mult_overflow (data_size params) (data_block_size params)) then (- EINVAL, root_hash, d)
      else match hash_levels (hash_block_size params) digest_size data_file_blocks (VERITY_hash_offset_block params) with
      | None => (- EINVAL, root_hash, d)
      | Some (hash_position, levels) =>
          if fst (uint64_mult_overflow hash_position (hash_block_size params)) then (- EINVAL, root_hash, d)
          else
            let '(ok, d) := io_call d in
            if negb ok then (- EIO, root_hash, d)
            else
              let '(ok, d) := io_call d in
              if negb ok then (- EIO, root_hash, d)
              else
                let '(r, digest, d) := hash_tree levels data_file_blocks d in
                if negb (r =? 0) then (r, root_hash, d)
                else if verify then (if bool_decide (root_hash = digest) then 0 else - EFAULT, root_hash, d)
                else (0, digest, d)
      end
  end.
End tree.

Section api.
Context `{CH : CryptHash}.

Definition VERITY_verify (params : crypt_params_verity) (root_hash : bytes) (dev_size : Z + Z) (d : disks)
    : Z * disks :=
  let '(r, _, d) := VERITY_create_or_verify_hash params true (zlen root_hash) dev_size root_hash d in (r, d).

(** The warning about the page size has no effect. *)
Definition VERITY_create (params : crypt_params_verity) (root_hash_size : Z) (dev_size : Z + Z) (d : disks)
    : Z * bytes * disks :=
  if 256 <? salt_size params then (- EINVAL, [], d)
  else VERITY_create_or_verify_hash params false root_hash_size dev_size [] d.

(** [volume_key_size] is the size of the root hash. *)
Definition VERITY_hash_blocks (params : crypt_params_verity) (volume_key_size : Z) : Z :=
  match hash_levels (hash_block_size params) volume_key_size (data_size params) 0 with
  | None => 0
  | Some (hash_position, _) => hash_position
  end.
End api.
