(* ===== verification/DmTable.v ===== *)
(** * DmTable: tables of device-mapper (lib/libdevmapper.c, lib/utils_dm.h)

    The parameters of a mapping are a string that the library prints for the
    kernel and parses when it queries a mapping. Devices are their paths; what
    is asked of the kernel itself is not modelled. snprintf(3) keeps what fits
    its buffer and returns the length of the whole. *)

From S2P Require Import Prelude Cstd UtilsCrypt VerityHash Pbkdf.
From Stdlib Require Import Strings.Byte Ascii.

Local Open Scope string_scope.
Local Open Scope Z_scope.

Definition CRYPT_ACTIVATE_READONLY : Z := Z.shiftl 1 0.
Definition CRYPT_ACTIVATE_NO_UUID : Z := Z.shiftl 1 1.
Definition CRYPT_ACTIVATE_ALLOW_DISCARDS : Z := Z.shiftl 1 3.
Definition CRYPT_ACTIVATE_CORRUPTED : Z := Z.shiftl 1 5.
Definition CRYPT_ACTIVATE_SAME_CPU_CRYPT : Z := Z.shiftl 1 6.
Definition CRYPT_ACTIVATE_SUBMIT_FROM_CRYPT_CPUS : Z := Z.shiftl 1 7.
Definition CRYPT_ACTIVATE_IGNORE_CORRUPTION : Z := Z.shiftl 1 8.
Definition CRYPT_ACTIVATE_RESTART_ON_CORRUPTION : Z := Z.shiftl 1 9.
Definition CRYPT_ACTIVATE_IGNORE_ZERO_BLOCKS : Z := Z.shiftl 1 10.
Definition CRYPT_ACTIVATE_KEYRING_KEY : Z := Z.shiftl 1 11.
Definition CRYPT_ACTIVATE_NO_JOURNAL : Z := Z.shiftl 1 12.
Definition CRYPT_ACTIVATE_RECOVERY : Z := Z.shiftl 1 13.
Definition CRYPT_ACTIVATE_CHECK_AT_MOST_ONCE : Z := Z.shiftl 1 15.
Definition CRYPT_ACTIVATE_RECALCULATE : Z := Z.shiftl 1 17.
Definition CRYPT_ACTIVATE_NO_JOURNAL_BITMAP : Z := Z.shiftl 1 20.
Definition CRYPT_ACTIVATE_SUSPENDED : Z := Z.shiftl 1 21.
Definition CRYPT_ACTIVATE_IV_LARGE_SECTORS : Z := Z.shiftl 1 22.
Definition CRYPT_ACTIVATE_PANIC_ON_CORRUPTION : Z := Z.shiftl 1 23.
Definition CRYPT_ACTIVATE_NO_READ_WORKQUEUE : Z := Z.shiftl 1 24.
Definition CRYPT_ACTIVATE_NO_WRITE_WORKQUEUE : Z := Z.shiftl 1 25.
Definition CRYPT_ACTIVATE_RECALCULATE_RESET : Z := Z.shiftl 1 26.

Definition DM_KEY_WIPE_SUPPORTED : Z := Z.shiftl 1 0.
Definition DM_LMK_SUPPORTED : Z := Z.shiftl 1 1.
Definition DM_SECURE_SUPPORTED : Z := Z.shiftl 1 2.
Definition DM_PLAIN64_SUPPORTED : Z := Z.shiftl 1 3.
Definition DM_DISCARDS_SUPPORTED : Z := Z.shiftl 1 4.
Definition DM_VERITY_SUPPORTED : Z := Z.shiftl 1 5.
Definition DM_TCW_SUPPORTED : Z := Z.shiftl 1 6.
Definition DM_SAME_CPU_CRYPT_SUPPORTED : Z := Z.shiftl 1 7.
Definition DM_SUBMIT_FROM_CRYPT_CPUS_SUPPORTED : Z := Z.shiftl 1 8.
Definition DM_VERITY_ON_CORRUPTION_SUPPORTED : Z := Z.shiftl 1 9.
Definition DM_VERITY_FEC_SUPPORTED : Z := Z.shiftl 1 10.
Definition DM_KERNEL_KEYRING_SUPPORTED : Z := Z.shiftl 1 11.
Definition DM_INTEGRITY_SUPPORTED : Z := Z.shiftl 1 12.
Definition DM_SECTOR_SIZE_SUPPORTED : Z := Z.shiftl 1 13.
Definition DM_CAPI_STRING_SUPPORTED : Z := Z.shiftl 1 14.
Definition DM_DEFERRED_SUPPORTED : Z := Z.shiftl 1 15.
Definition DM_INTEGRITY_RECALC_SUPPORTED : Z := Z.shiftl 1 16.
Definition DM_INTEGRITY_BITMAP_SUPPORTED : Z := Z.shiftl 1 17.
Definition DM_GET_TARGET_VERSION_SUPPORTED : Z := Z.shiftl 1 18.
Definition DM_INTEGRITY_FIX_PADDING_SUPPORTED : Z := Z.shiftl 1 19.
Definition DM_BITLK_EBOIV_SUPPORTED : Z := Z.shiftl 1 20.
Definition DM_BITLK_ELEPHANT_SUPPORTED : Z := Z.shiftl 1 21.
Definition DM_VERITY_SIGNATURE_SUPPORTED : Z := Z.shiftl 1 22.
Definition DM_INTEGRITY_DISCARDS_SUPPORTED : Z := Z.shiftl 1 23.
Definition DM_VERITY_PANIC_CORRUPTION_SUPPORTED : Z := Z.shiftl 1 24.
Definition DM_CRYPT_NO_WORKQUEUE_SUPPORTED : Z := Z.shiftl 1 25.
Definition DM_INTEGRITY_FIX_HMAC_SUPPORTED : Z := Z.shiftl 1 26.
Definition DM_INTEGRITY_RESET_RECALC_SUPPORTED : Z := Z.shiftl 1 27.

Definition DM_ACTIVE_DEVICE : Z := Z.shiftl 1 0.
Definition DM_ACTIVE_CRYPT_CIPHER : Z := Z.shiftl 1 3.
Definition DM_ACTIVE_CRYPT_KEYSIZE : Z := Z.shiftl 1 4.
Definition DM_ACTIVE_CRYPT_KEY : Z := Z.shiftl 1 5.
Definition DM_ACTIVE_VERITY_ROOT_HASH : Z := Z.shiftl 1 6.
Definition DM_ACTIVE_VERITY_HASH_DEVICE : Z := Z.shiftl 1 7.
Definition DM_ACTIVE_VERITY_PARAMS : Z := Z.shiftl 1 8.
Definition DM_ACTIVE_INTEGRITY_PARAMS : Z := Z.shiftl 1 9.

(** ** Versions of the targets *)

Definition version3 : Type := Z * Z * Z.

Definition _dm_satisfies_version (target actual : version3) : bool :=
  let '(target_maj, target_min, target_patch) := target in
  let '(actual_maj, actual_min, actual_patch) := actual in
  (target_maj <? actual_maj) || ((actual_maj =? target_maj) && (target_min <? actual_min)) ||
  ((actual_maj =? target_maj) && (actual_min =? target_min) && (target_patch <=? actual_patch)).

(** The flags known, and of which targets. *)
Record dm_compat := DmCompat { _dm_flags : Z; _dm_crypt_checked : bool; _dm_verity_checked : bool; _dm_integrity_checked : bool }.

(** The flags whose version is reached are added. *)
Definition add_flags (table : list (version3 * Z)) (actual : version3) (flags : Z) : Z :=
  foldl (fun flags row => if _dm_satisfies_version row.1 actual then Z.lor flags row.2 else flags) flags table.

Definition crypt_flags : list (version3 * Z) := [
  ((1, 2, 0), DM_KEY_WIPE_SUPPORTED); ((1, 10, 0), DM_LMK_SUPPORTED); ((1, 8, 0), DM_PLAIN64_SUPPORTED);
  ((1, 11, 0), DM_DISCARDS_SUPPORTED); ((1, 13, 0), DM_TCW_SUPPORTED);
  ((1, 14, 0), DM_SAME_CPU_CRYPT_SUPPORTED); ((1, 14, 0), DM_SUBMIT_FROM_CRYPT_CPUS_SUPPORTED);
  ((1, 18, 1), DM_KERNEL_KEYRING_SUPPORTED); ((1, 17, 0), DM_SECTOR_SIZE_SUPPORTED); ((1, 17, 0), DM_CAPI_STRING_SUPPORTED);
  ((1, 19, 0), DM_BITLK_EBOIV_SUPPORTED); ((1, 20, 0), DM_BITLK_ELEPHANT_SUPPORTED); ((1, 22, 0), DM_CRYPT_NO_WORKQUEUE_SUPPORTED) ].

Definition verity_flags : list (version3 * Z) := [
  ((1, 3, 0), DM_VERITY_ON_CORRUPTION_SUPPORTED); ((1, 3, 0), DM_VERITY_FEC_SUPPORTED);
  ((1, 5, 0), DM_VERITY_SIGNATURE_SUPPORTED); ((1, 7, 0), DM_VERITY_PANIC_CORRUPTION_SUPPORTED) ].

Definition integrity_flags : list (version3 * Z) := [
  ((1, 2, 0), DM_INTEGRITY_RECALC_SUPPORTED); ((1, 3, 0), DM_INTEGRITY_BITMAP_SUPPORTED);
  ((1, 4, 0), DM_INTEGRITY_FIX_PADDING_SUPPORTED); ((1, 6, 0), DM_INTEGRITY_DISCARDS_SUPPORTED);
  ((1, 7, 0), DM_INTEGRITY_FIX_HMAC_SUPPORTED); ((1, 8, 0), DM_INTEGRITY_RESET_RECALC_SUPPORTED) ].

Definition _dm_set_crypt_compat (v : version3) (c : dm_compat) : dm_compat :=
  if _dm_crypt_checked c || (v.1.1 =? 0) then c
  else DmCompat (add_flags crypt_flags v (_dm_flags c)) true (_dm_verity_checked c) (_dm_integrity_checked c).

Definition _dm_set_verity_compat (v : version3) (c : dm_compat) : dm_compat :=
  if _dm_verity_checked c || (v.1.1 =? 0) then c
  else DmCompat (add_flags verity_flags v (Z.lor (_dm_flags c) DM_VERITY_SUPPORTED)) (_dm_crypt_checked c) true (_dm_integrity_checked c).

Definition _dm_set_integrity_compat (v : version3) (c : dm_compat) : dm_compat :=
  if _dm_integrity_checked c || (v.1.1 =? 0) then c
  else DmCompat (add_flags integrity_flags v (Z.lor (_dm_flags c) DM_INTEGRITY_SUPPORTED)) (_dm_crypt_checked c) (_dm_verity_checked c) true.

(** The targets of the kernel in the order it lists them. *)
Definition set_compat (c : dm_compat) (target : string * version3) : dm_compat :=
  let '(name, v) := target in
  if (name =? "crypt")%string then _dm_set_crypt_compat v c
  else if (name =? "verity")%string then _dm_set_verity_compat v c
  else if (name =? "integrity")%string then _dm_set_integrity_compat v c else c.

(** What the ioctl interface of a version can do is known first. *)
Definition ioctl_flags : list (version3 * Z) := [
  ((4, 20, 0), DM_SECURE_SUPPORTED); ((4, 27, 0), DM_DEFERRED_SUPPORTED); ((4, 41, 0), DM_GET_TARGET_VERSION_SUPPORTED) ].

Inductive dm_target_type := DM_CRYPT | DM_VERITY | DM_INTEGRITY | DM_LINEAR | DM_ERROR | DM_ZERO | DM_UNKNOWN.

#[export] Instance dm_target_type_eq_dec : EqDecision dm_target_type.
Proof. solve_decision. Defined.

(** [_dm_ioctl_checked] and the flags; [kernel] is what it says: the version
    of the interface and of its targets, or nothing. *)
Definition _dm_check_versions (kernel : option (version3 * list (string * version3))) (target_type : dm_target_type) (ioctl : bool)
    (c : dm_compat) : bool * bool * dm_compat :=
  let known := match target_type with
               | DM_CRYPT => _dm_crypt_checked c
               | DM_VERITY => _dm_verity_checked c
               | DM_INTEGRITY => _dm_integrity_checked c
               | DM_LINEAR | DM_ZERO => true
               | _ => false
               end in
  if known || (_dm_crypt_checked c && _dm_verity_checked c && _dm_integrity_checked c) then (true, ioctl, c)
  else match kernel with
  | None => (false, ioctl, c)
  | Some (version, targets) =>
      let c := if ioctl then c
               else DmCompat (add_flags ioctl_flags version (_dm_flags c)) (_dm_crypt_checked c) (_dm_verity_checked c) (_dm_integrity_checked c) in
      (true, true, foldl set_compat c targets)
  end.

Definition ENODEV : Z := 19.
Definition ENOTBLK : Z := 15.

(** Code and flags, after the versions were checked. *)
Definition dm_flags (c : dm_compat) (target : dm_target_type) : Z * Z :=
  let known := match target with
               | DM_UNKNOWN => _dm_crypt_checked c && _dm_verity_checked c && _dm_integrity_checked c
               | DM_CRYPT => _dm_crypt_checked c
               | DM_VERITY => _dm_verity_checked c
               | DM_INTEGRITY => _dm_integrity_checked c
               | DM_LINEAR | DM_ZERO => true
               | DM_ERROR => false
               end in
  (if known then 0 else - ENODEV, _dm_flags c).

(** ** Targets *)

(** [volume_key]; a key may only have its size known, or its description. *)
Record dm_key := DmKey { keylength : Z; key : bytes; key_description : option string }.

(** A pointer that a query leaves unset is [None]; [dm_crypt_target_set] and
    [dm_verity_target_set] set the cipher and the hash device. *)
Record crypt_target := CryptTarget {
  ct_cipher : option string;
  ct_integrity : option string;
  ct_vk : option dm_key;
  ct_offset : Z;
  ct_iv_offset : Z;
  ct_tag_size : Z;
  ct_sector_size : Z;
}.

Record verity_target := VerityTarget {
  vt_hash_device : option string;
  vt_fec_device : option string;
  vt_root_hash : option bytes;
  vt_root_hash_size : Z;
  vt_root_hash_sig_key_desc : option string;
  vt_hash_offset : Z;
  vt_fec_offset : Z;
  vt_fec_blocks : Z;
  vt_vp : option crypt_params_verity;
}.

Record integrity_target := IntegrityTarget {
  it_journal_size : Z;
  it_journal_watermark : Z;
  it_journal_commit_time : Z;
  it_interleave_sectors : Z;
  it_tag_size : Z;
  it_offset : Z;
  it_sector_size : Z;
  it_buffer_sectors : Z;
  it_integrity : option string;
  it_vk : option dm_key;
  it_journal_integrity : option string;
  it_journal_integrity_key : option dm_key;
  it_journal_crypt : option string;
  it_journal_crypt_key : option dm_key;
  it_meta_device : option string;
  it_fix_padding : bool;
  it_fix_hmac : bool;
  it_legacy_recalc : bool;
}.

Inductive dm_target_u :=
| U_crypt (t : crypt_target)
| U_verity (t : verity_target)
| U_integrity (t : integrity_target)
| U_linear (offset : Z)
| U_error
| U_zero.

Record dm_target := DmTarget {
  t_offset : Z;
  t_size : Z;
  t_data_device : option string;
  t_u : dm_target_u;
}.

Definition t_type (t : dm_target) : dm_target_type :=
  match t_u t with
  | U_crypt _ => DM_CRYPT
  | U_verity _ => DM_VERITY
  | U_integrity _ => DM_INTEGRITY
  | U_linear _ => DM_LINEAR
  | U_error => DM_ERROR
  | U_zero => DM_ZERO
  end.

Definition dm_crypt_target_set (seg_offset seg_size : Z) (data_device : string) (vk : dm_key) (cipher : string) (iv_offset data_offset : Z)
    (integrity : option string) (tag_size sector_size : Z) : dm_target :=
  let dm_integrity := if tag_size =? 0 then None else Some (default "none" integrity) in
  DmTarget seg_offset seg_size (Some data_device) (U_crypt (CryptTarget (Some cipher) dm_integrity (Some vk) data_offset iv_offset tag_size sector_size)).

Definition dm_verity_target_set (seg_offset seg_size : Z) (data_device hash_device fec_device : option string) (root_hash : bytes)
    (root_hash_size : Z) (root_hash_sig_key_desc : option string) (hash_offset_block fec_blocks : Z) (vp : option crypt_params_verity)
    : Z + dm_target :=
  match data_device, hash_device, vp with
  | Some _, Some _, Some p =>
      inr (DmTarget seg_offset seg_size data_device
        (U_verity (VerityTarget hash_device fec_device (Some root_hash) root_hash_size root_hash_sig_key_desc hash_offset_block
           (fec_area_offset p / hash_block_size p) fec_blocks vp)))
  | _, _, _ => inl (- EINVAL)
  end.

Definition CRYPT_COMPAT_LEGACY_INTEGRITY_PADDING : Z := Z.shiftl 1 0.
Definition CRYPT_COMPAT_LEGACY_INTEGRITY_HMAC : Z := Z.shiftl 1 1.
Definition CRYPT_COMPAT_LEGACY_INTEGRITY_RECALC : Z := Z.shiftl 1 2.

(** The parameters of [crypt_params_integrity] that a target takes. *)
Record integrity_params := IntegrityParams {
  ip_journal_size : Z;
  ip_journal_watermark : Z;
  ip_journal_commit_time : Z;
  ip_interleave_sectors : Z;
  ip_buffer_sectors : Z;
  ip_journal_integrity : option string;
  ip_journal_crypt : option string;
  ip_integrity : option string;
}.

Definition no_integrity_params : integrity_params := IntegrityParams 0 0 0 0 0 None None None.

(** Device pointers are compared: the same path is the same device here. *)
Definition dm_integrity_target_set (c : dm_compat) (compatibility : Z) (seg_offset seg_size : Z) (meta_device data_device : option string)
    (tag_size offset sector_size : Z) (vk journal_crypt_key journal_mac_key : option dm_key) (ip : option integrity_params) : Z + dm_target :=
  match data_device with
  | None => inl (- EINVAL)
  | Some _ =>
      let '(r, dmi_flags) := dm_flags c DM_INTEGRITY in
      let supports f legacy := (r =? 0) && has_flag dmi_flags f && negb (has_flag compatibility legacy) in
      let p := default no_integrity_params ip in
      inr (DmTarget seg_offset seg_size data_device (U_integrity (IntegrityTarget
        (ip_journal_size p) (ip_journal_watermark p) (ip_journal_commit_time p) (ip_interleave_sectors p) (u32 tag_size) offset sector_size
        (ip_buffer_sectors p) (ip_integrity p) vk (ip_journal_integrity p) journal_mac_key (ip_journal_crypt p) journal_crypt_key
        (if bool_decide (meta_device = data_device) then None else meta_device)
        (supports DM_INTEGRITY_FIX_PADDING_SUPPORTED CRYPT_COMPAT_LEGACY_INTEGRITY_PADDING)
        (supports DM_INTEGRITY_FIX_HMAC_SUPPORTED CRYPT_COMPAT_LEGACY_INTEGRITY_HMAC)
        (has_flag compatibility CRYPT_COMPAT_LEGACY_INTEGRITY_RECALC))))
  end.

Definition dm_linear_target_set (seg_offset seg_size : Z) (data_device : option string) (data_offset : Z) : Z + dm_target :=
  match data_device with
  | None => inl (- EINVAL)
  | Some _ => inr (DmTarget seg_offset seg_size data_device (U_linear data_offset))
  end.

Definition dm_zero_target_set (seg_offset seg_size : Z) : dm_target := DmTarget seg_offset seg_size None U_zero.

(** ** Strings *)

(** What snprintf(3) leaves in a buffer of [n] bytes. *)
Definition cut (n : Z) (s : string) : string := String.substring 0 (Z.to_nat (n - 1)) s.
Definition strlen (s : string) : Z := Z.of_nat (String.length s).

Fixpoint log10_aux (fuel : nat) (x r : Z) : Z :=
  match fuel with
  | O => r
  | S fuel => if 0 <? x then log10_aux fuel (x / 10) (r + 1) else r
  end.
(** A 64-bit integer has at most 20 digits. *)
Definition int_log10 (x : Z) : Z := log10_aux 20 (x / 10) 0.

(** sscanf of "%n[^-]-%ns" *)
Definition scan_dash_n (n : nat) (s : string) : option string * option string :=
  match conv_set n not_dash s with
  | None => (None, None)
  | Some (a, String "-"%char rest) =>
      (Some a, match conv_set n not_space (skip_space rest) with Some (b, _) => Some b | None => None end)
  | Some (a, _) => (Some a, None)
  end.

Definition CLEN : Z := 64.
Definition CAPIL : Z := 144.

(** *** Cipher specifications of dm-crypt *)

(** The cipher for the crypto API, the mode and the initialisation vector of a
    specification. *)
Definition capi_parts (org_c : string) : option (string * string * string) :=
  match scan_dash_n 63 org_c with
  | (Some cipher, Some tmp) =>
      match scan_dash_n 63 tmp with
      | (Some mode, Some iv) => Some (cut CAPIL (mode ++ "(" ++ cipher ++ ")"), mode, iv)
      | (Some mode, None) => Some (cut CAPIL cipher, EmptyString, mode)
      | _ => None
      end
  | _ => None
  end.

(** The cipher and integrity arguments; both buffers have [size] bytes. *)
Definition cipher_c2dm (org_c : string) (org_i : option string) (tag_size size : Z) : Z + string * string :=
  match capi_parts org_c with
  | None => inl (- EINVAL)
  | Some (capi, mode, iv) =>
      let '(c, i) :=
        match org_i with
        | None => (org_c, EmptyString)
        | Some org_i =>
            let integrity what := " integrity:" ++ dec_u32 tag_size ++ ":" ++ what in
            if (org_i =? "none")%string then ("capi:" ++ capi ++ "-" ++ iv, integrity "none")
            else if (org_i =? "aead")%string && (mode =? "ccm")%string then ("capi:rfc4309(" ++ capi ++ ")-" ++ iv, integrity "aead")
            else if (org_i =? "aead")%string then ("capi:" ++ capi ++ "-" ++ iv, integrity "aead")
            else if (org_i =? "poly1305")%string then ("capi:rfc7539(" ++ capi ++ ",poly1305)-" ++ iv, integrity "aead")
            else ("capi:authenc(" ++ org_i ++ "," ++ capi ++ ")-" ++ iv, integrity "aead")
        end in
      if (strlen c =? size) || (strlen i =? size) then inl (- EINVAL) else inr (cut size c, cut size i)
  end.

(** The rest of a string behind a prefix. *)
Definition after (p s : string) : option string :=
  if String.prefix p s then Some (String.substring (String.length p) (String.length s - String.length p) s) else None.

Definition is_not (c d : ascii) : bool := negb (Ascii.eqb d c).

(** The conversions "%ns" and "%n[^c]" behind a prefix. *)
Definition scan_word (p : string) (n : nat) (s : string) : option string :=
  rest ← after p s; '(a, _) ← conv_set n not_space (skip_space rest); Some a.
Definition scan_until (p : string) (n : nat) (c : ascii) (s : string) : option (string * string) :=
  rest ← after p s; conv_set n (is_not c) rest.

(** Two conversions around a separator, as in "name(%n[^c],%ms": both must
    succeed. *)
Definition scan_pair (p : string) (n m : nat) (s : string) : option (string * string) :=
  '(a, rest) ← scan_until p n ","%char s;
  b ← scan_word "," m rest;
  Some (a, b).

(** A last closing parenthesis is dropped. *)
Definition drop_close (tmp : string) : string :=
  let n := (String.length tmp - 1)%nat in
  if bool_decide (String.get n tmp = Some ")"%char) then String.substring 0 n tmp else tmp.

(** The crypto API's name and the integrity. *)
Definition capi_of (tmp : string) (i_dm : option string) : string * option string :=
  match scan_word "rfc4309(" 143 tmp with
  | Some capi => (capi, Some "aead")
  | None =>
      match scan_pair "rfc7539(" 143 63 tmp with
      | Some (capi, auth) => (capi, Some auth)
      | None =>
          match scan_pair "authenc(" 63 143 tmp with
          | Some (auth, capi) => (capi, Some auth)
          | None => (String.substring 0 144 tmp, i_dm)
          end
      end
  end.

(** "%63[^(](%63[^)])": both conversions. *)
Definition capi_mode (capi : string) : option (string * string) :=
  '(mode, rest) ← conv_set 63 (is_not "("%char) capi;
  '(cipher, _) ← scan_until "(" 63 ")"%char rest;
  Some (mode, cipher).

(** Only the first four characters of "capi:" are compared. *)
Definition cipher_dm2c (c_dm : string) (i_dm : option string) : Z + string * option string :=
  if negb (String.prefix "capi" c_dm) then inr (c_dm, None)
  else
    let scanned := '(tmp, rest) ← scan_until "capi:" 143 "-"%char c_dm; iv ← scan_word "-" 63 rest; Some (tmp, iv) in
    match scanned with
    | None => inl (- EINVAL)
    | Some (tmp, iv) =>
        if strlen tmp <? 2 then inl (- EINVAL)
        else
          let '(capi, org_i) := capi_of (drop_close tmp) i_dm in
          inr (cut (CAPIL * 2) (match capi_mode capi with
                                | Some (mode, cipher) => cipher ++ "-" ++ mode ++ "-" ++ iv
                                | None => capi ++ "-" ++ iv
                                end), org_i)
    end.

(** ** Printing *)

Definition SECTOR_512 : Z := 512.

(** A word of a table when a flag is set. *)
Definition flag_word (flags f : Z) (word : string) : string := if has_flag flags f then " " ++ word else "".
Definition count_flags (flags : Z) (l : list Z) : Z := zlen (filter (fun f => has_flag flags f = true) l).

(** The key: "-" for the null cipher, else in hexadecimal or by its
    description in the kernel's keyring, whose buffer is sized for it. *)
Definition crypt_key_string (cipher_dm : string) (flags : Z) (vk : option dm_key) : option string :=
  if crypt_is_cipher_null (Some cipher_dm) then Some "-"
  else
    k ← vk;
    if has_flag flags CRYPT_ACTIVATE_KEYRING_KEY then
      d ← key_description k;
      let keystr_len := strlen d + int_log10 (keylength k) + 10 in
      let s := ":" ++ dec_u (keylength k) ++ ":logon:" ++ d in
      if keystr_len <=? strlen s then None else Some s
    else Some (hex_key (key k)).

Definition crypt_options : list Z := [
  CRYPT_ACTIVATE_ALLOW_DISCARDS; CRYPT_ACTIVATE_SAME_CPU_CRYPT; CRYPT_ACTIVATE_SUBMIT_FROM_CRYPT_CPUS;
  CRYPT_ACTIVATE_NO_READ_WORKQUEUE; CRYPT_ACTIVATE_NO_WRITE_WORKQUEUE; CRYPT_ACTIVATE_IV_LARGE_SECTORS ].

Definition crypt_features (t : crypt_target) (flags : Z) (integrity_dm : string) : string :=
  let other_sector := negb (ct_sector_size t =? SECTOR_512) in
  let num_options := count_flags flags crypt_options + (if ct_integrity t then 1 else 0) + (if other_sector then 1 else 0) in
  let sector_feature := if other_sector then cut 32 (" sector_size:" ++ dec_u32 (ct_sector_size t)) else "" in
  if num_options =? 0 then ""
  else cut 511 (" " ++ dec_i32 num_options ++
    flag_word flags CRYPT_ACTIVATE_ALLOW_DISCARDS "allow_discards" ++
    flag_word flags CRYPT_ACTIVATE_SAME_CPU_CRYPT "same_cpu_crypt" ++
    flag_word flags CRYPT_ACTIVATE_SUBMIT_FROM_CRYPT_CPUS "submit_from_crypt_cpus" ++
    flag_word flags CRYPT_ACTIVATE_NO_READ_WORKQUEUE "no_read_workqueue" ++
    flag_word flags CRYPT_ACTIVATE_NO_WRITE_WORKQUEUE "no_write_workqueue" ++
    flag_word flags CRYPT_ACTIVATE_IV_LARGE_SECTORS "iv_large_sectors" ++ sector_feature ++ integrity_dm).

(** [None] is NULL; memory is there. The device is its path. *)
Definition get_dm_crypt_params (device : string) (t : crypt_target) (flags : Z) : option string :=
  org_c ← ct_cipher t;
  match cipher_c2dm org_c (ct_integrity t) (ct_tag_size t) 256 with
  | inl _ => None
  | inr (cipher_dm, integrity_dm) =>
      let features := crypt_features t flags integrity_dm in
      hexkey ← crypt_key_string cipher_dm flags (ct_vk t);
      let max_size := strlen hexkey + strlen cipher_dm + strlen device + strlen features + 64 in
      let params := cipher_dm ++ " " ++ hexkey ++ " " ++ dec_u (ct_iv_offset t) ++ " " ++ device ++ " " ++ dec_u (ct_offset t) ++ features in
      if max_size <=? strlen params then None else Some params
  end.

(** Flags for corruption that exclude each other. *)
Definition corruption_flags (flags : Z) : Z :=
  let clear f flags := Z.land flags (u32 (Z.lnot f)) in
  let flags := if has_flag flags CRYPT_ACTIVATE_RESTART_ON_CORRUPTION && has_flag flags CRYPT_ACTIVATE_PANIC_ON_CORRUPTION
               then clear CRYPT_ACTIVATE_RESTART_ON_CORRUPTION flags else flags in
  if has_flag flags CRYPT_ACTIVATE_IGNORE_CORRUPTION &&
     has_flag flags (Z.lor CRYPT_ACTIVATE_RESTART_ON_CORRUPTION CRYPT_ACTIVATE_PANIC_ON_CORRUPTION)
  then clear CRYPT_ACTIVATE_IGNORE_CORRUPTION flags else flags.

Definition verity_options : list Z := [
  CRYPT_ACTIVATE_IGNORE_CORRUPTION; CRYPT_ACTIVATE_RESTART_ON_CORRUPTION; CRYPT_ACTIVATE_PANIC_ON_CORRUPTION;
  CRYPT_ACTIVATE_IGNORE_ZERO_BLOCKS; CRYPT_ACTIVATE_CHECK_AT_MOST_ONCE ].

Definition verity_features (t : verity_target) (flags : Z) : string :=
  let num_options := count_flags flags verity_options + (if vt_fec_device t then 8 else 0) +
                     (if vt_root_hash_sig_key_desc t then 2 else 0) in
  if num_options =? 0 then ""
  else cut 255 (" " ++ dec_i32 num_options ++
    flag_word flags CRYPT_ACTIVATE_IGNORE_CORRUPTION "ignore_corruption" ++
    flag_word flags CRYPT_ACTIVATE_RESTART_ON_CORRUPTION "restart_on_corruption" ++
    flag_word flags CRYPT_ACTIVATE_PANIC_ON_CORRUPTION "panic_on_corruption" ++
    flag_word flags CRYPT_ACTIVATE_IGNORE_ZERO_BLOCKS "ignore_zero_blocks" ++
    flag_word flags CRYPT_ACTIVATE_CHECK_AT_MOST_ONCE "check_at_most_once").

Definition get_dm_verity_params (device : string) (t : verity_target) (flags : Z) : option string :=
  vp ← vt_vp t;
  hash_device ← vt_hash_device t;
  let flags := corruption_flags flags in
  let fec_features :=
    match vt_fec_device t with
    | None => ""
    | Some fec => cut 255 (" use_fec_from_device " ++ fec ++ " fec_start " ++ dec_u (vt_fec_offset t) ++ " fec_blocks " ++
                           dec_u (vt_fec_blocks t) ++ " fec_roots " ++ dec_u32 (fec_roots vp))
    end in
  let verity_verify_args :=
    match vt_root_hash_sig_key_desc t with
    | None => ""
    | Some desc => cut 543 (" root_hash_sig_key_desc " ++ desc)
    end in
  let features := verity_features t flags in
  root_hash ← vt_root_hash t;
  let hexroot := hex_key (take (Z.to_nat (vt_root_hash_size t)) root_hash) in
  let hexsalt := if salt_size vp =? 0 then "-" else hex_key (take (Z.to_nat (salt_size vp)) (salt vp)) in
  let name := string_of_bytes (cstr (hash_name vp)) in
  let max_size := strlen hexroot + strlen hexsalt + strlen device + strlen hash_device + strlen name + strlen features +
                  strlen fec_features + 128 + strlen verity_verify_args in
  let params := dec_u32 (hash_type vp) ++ " " ++ device ++ " " ++ hash_device ++ " " ++ dec_u32 (data_block_size vp) ++ " " ++
    dec_u32 (hash_block_size vp) ++ " " ++ dec_u (data_size vp) ++ " " ++ dec_u (vt_hash_offset t) ++ " " ++ name ++ " " ++ hexroot ++ " " ++
    hexsalt ++ features ++ fec_features ++ verity_verify_args in
  if max_size <=? strlen params then None else Some params.

(** *** dm-integrity *)

(** A feature goes through a buffer of 256 bytes and is appended to one of
    512, of which strncat leaves the last byte. *)
Definition add_feature (b : bool) (feature : string) (st : Z * string) : Z * string :=
  if b then (st.1 + 1, cut 512 (st.2 ++ cut 256 feature)) else st.

(** "name:value" with the key behind it, if there is one. *)
Definition keyed (name : string) (value : option string) (k : option dm_key) : string :=
  name ++ default "" value ++ match k with Some k => ":" ++ hex_key (key k) | None => "" end ++ " ".

Definition integrity_features (t : integrity_target) (flags : Z) : Z * string :=
  let bitmap := has_flag flags CRYPT_ACTIVATE_NO_JOURNAL_BITMAP in
  let number name v := name ++ dec_u32 v ++ " " in
  let some (o : option string) := bool_decide (is_Some o) in
  let st := (0, "") in
  let st := add_feature (negb (it_journal_size t =? 0)) (number "journal_sectors:" (it_journal_size t / SECTOR_512)) st in
  let st := add_feature (negb (it_journal_watermark t =? 0))
              (number (if bitmap then "sectors_per_bit:" else "journal_watermark:") (it_journal_watermark t)) st in
  let st := add_feature (negb (it_journal_commit_time t =? 0))
              (number (if bitmap then "bitmap_flush_interval:" else "commit_time:") (it_journal_commit_time t)) st in
  let st := add_feature (negb (it_interleave_sectors t =? 0)) (number "interleave_sectors:" (it_interleave_sectors t)) st in
  let st := add_feature (negb (it_sector_size t =? 0)) (number "block_size:" (it_sector_size t)) st in
  let st := add_feature (negb (it_buffer_sectors t =? 0)) (number "buffer_sectors:" (it_buffer_sectors t)) st in
  let st := add_feature (some (it_integrity t)) (keyed "internal_hash:" (it_integrity t) (it_vk t)) st in
  let st := add_feature (some (it_journal_integrity t)) (keyed "journal_mac:" (it_journal_integrity t) (it_journal_integrity_key t)) st in
  let st := add_feature (some (it_journal_crypt t)) (keyed "journal_crypt:" (it_journal_crypt t) (it_journal_crypt_key t)) st in
  let st := add_feature (it_fix_padding t) "fix_padding " st in
  let st := add_feature (it_fix_hmac t) "fix_hmac " st in
  let st := add_feature (it_legacy_recalc t) "legacy_recalculate " st in
  let st := add_feature (has_flag flags CRYPT_ACTIVATE_RECALCULATE) "recalculate " st in
  let st := add_feature (has_flag flags CRYPT_ACTIVATE_RECALCULATE_RESET) "reset_recalculate " st in
  let st := add_feature (has_flag flags CRYPT_ACTIVATE_ALLOW_DISCARDS) "allow_discards " st in
  add_feature (some (it_meta_device t)) ("meta_device:" ++ default "" (it_meta_device t) ++ " ") st.

Definition integrity_mode (flags : Z) : string :=
  if has_flag flags CRYPT_ACTIVATE_NO_JOURNAL_BITMAP then "B"
  else if has_flag flags CRYPT_ACTIVATE_RECOVERY then "R"
  else if has_flag flags CRYPT_ACTIVATE_NO_JOURNAL then "D" else "J".

(** The keys count with two characters a byte, whichever are printed. *)
Definition get_dm_integrity_params (device : string) (t : integrity_target) (flags : Z) : option string :=
  let len (o : option string) := match o with Some s => strlen s | None => 0 end in
  let keylen (o : option dm_key) := match o with Some k => keylength k * 2 | None => 0 end in
  let max_size := strlen device + len (it_meta_device t) + keylen (it_vk t) + keylen (it_journal_integrity_key t) +
                  keylen (it_journal_crypt_key t) + len (it_integrity t) + len (it_journal_integrity t) + len (it_journal_crypt t) + 128 in
  let '(num_options, features) := integrity_features t flags in
  let params := device ++ " " ++ dec_u (it_offset t) ++ " " ++ dec_i32 (it_tag_size t) ++ " " ++ integrity_mode flags ++ " " ++
                dec_i32 num_options ++ " " ++ features in
  if max_size <=? strlen params then None else Some params.

Definition get_dm_linear_params (device : string) (offset : Z) : option string :=
  let max_size := strlen device + int_log10 offset + 3 in
  let params := device ++ " " ++ dec_u offset in
  if max_size <=? strlen params then None else Some params.

Definition get_dm_zero_params : option string := Some "".

(** [_create_dm_targets_params] of one target *)
Definition dm_target_params (t : dm_target) (flags : Z) : Z + string :=
  let device := default "" (t_data_device t) in
  let params := match t_u t with
                | U_crypt c => Some (get_dm_crypt_params device c flags)
                | U_verity v => Some (get_dm_verity_params device v flags)
                | U_integrity i => Some (get_dm_integrity_params device i flags)
                | U_linear offset => Some (get_dm_linear_params device offset)
                | U_zero => Some get_dm_zero_params
                | U_error => None
                end in
  match params with
  | None => inl (- ENOTSUP)
  | Some None => inl (- EINVAL)
  | Some (Some s) => inr s
  end.

Definition _create_dm_targets_params (l : list dm_target) (flags : Z) : Z + list string :=
  foldr (fun t acc => match dm_target_params t flags, acc with
                      | inl r, _ => inl r
                      | _, inl r => inl r
                      | inr s, inr l => inr (s :: l)
                      end) (inr []) l.
