(* ===== verification/DmQuery.v ===== *)
(** * DmQuery: mappings of device-mapper (lib/libdevmapper.c)

    The parser of the parameters that the kernel reports for a mapping.
    [lookup] is what crypt_lookup_dev and device_alloc make of the name of a
    device: a code and the device. A pointer into the parameters is the string
    behind it. The name of the device of the FEC data that a query also leaves
    in the parameters of dm-verity is not part of the record of those. Then names, creation,
    removal and queries of mappings around the requests to the kernel. *)

From S2P Require Import Prelude Cstd UtilsCrypt VerityHash DmTable Pbkdf.
From Stdlib Require Import Ascii.

Local Open Scope string_scope.
Local Open Scope Z_scope.

(** A query succeeds, fails with a code or dereferences NULL; [NoFuel] never
    happens ([dm_target_query_terminates]). *)
Inductive outcome (A : Type) := Ok (a : A) | Err (r : Z) | Crash | NoFuel.
Arguments Ok {A}. Arguments Err {A}. Arguments Crash {A}. Arguments NoFuel {A}.

#[export] Instance outcome_ret : MRet outcome := @Ok.
#[export] Instance outcome_bind : MBind outcome := fun A B k m =>
  match m with Ok a => k a | Err r => Err r | Crash => Crash | NoFuel => NoFuel end.

Definition require (b : bool) (r : Z) : outcome () := if b then Ok () else Err r.
(** A pointer that the code tests, and one that it does not. *)
Definition tested {A} (o : option A) (r : Z) : outcome A := match o with Some a => Ok a | None => Err r end.
Definition deref {A} (o : option A) : outcome A := match o with Some a => Ok a | None => Crash end.

(** ** Pieces of a line *)

Fixpoint split_space (s : string) : string * option string :=
  match s with
  | EmptyString => (EmptyString, None)
  | String c s' => if Ascii.eqb c " "%char then (EmptyString, Some s')
                   else let '(a, rest) := split_space s' in (String c a, rest)
  end.

(** strsep(&params, " ") *)
Definition strsep (params : option string) : option string * option string :=
  match params with
  | None => (None, None)
  | Some s => let '(a, rest) := split_space s in (Some a, rest)
  end.

(** [*params != ' '], and the step behind it. *)
Definition space (s : string) : outcome string :=
  match s with String " "%char rest => Ok rest | _ => Err (- EINVAL) end.

(** strtoull(params, &params, 10) *)
Definition number (s : string) : Z * string := (strtoull s).1.

(** sscanf(arg, "prefix%u", &val) == 1, and with PRIu64 or %zu *)
Definition scan_u64 (p s : string) : option Z := rest ← after p s; _ ← parse_number rest; Some (number rest).1.
Definition scan_u (p s : string) : option Z := u32 <$> scan_u64 p s.

(** The device behind a name, if it was asked for; a file that is no block
    device may be allocated later, and [old] stays. *)
Definition get_device (lookup : string -> Z * option string) (wanted : bool) (old : option string) (name : string)
    : outcome (option string) :=
  if wanted then
    let '(r, device) := lookup name in
    if 0 <=? r then Ok device else if r =? - ENOTBLK then Ok old else Err r
  else Ok old.

(** The loop over the [n] words of the features: [i] is unsigned int and a
    step may count further words of its own. *)
Fixpoint features_loop {S} (step : string -> option string -> S -> outcome (S * option string * Z)) (fuel : nat) (n i : Z)
    (params : option string) (st : S) : outcome (S * option string) :=
  if negb (i <? n) then Ok (st, params)
  else match fuel with
  | O => NoFuel
  | Datatypes.S fuel =>
      match strsep params with
      | (Some arg, params) =>
          '(st, params, k) ← step arg params st;
          features_loop step fuel n (u32 (i + 1 + k)) params st
      | (None, _) => Err (- EINVAL)
      end
  end.

(** Every step takes a word of the line, and one more step sees its end. *)
Definition line_fuel (params : option string) : nat :=
  match params with Some s => (2 + String.length s)%nat | None => 1%nat end.

(** ** dm-crypt *)

Record crypt_features_q := CryptFeatures {
  cf_flags : Z;
  cf_tag_size : Z;
  cf_rintegrity : option string;
  cf_sector_size : Z;
}.

Definition crypt_option (arg : string) (params : option string) (st : crypt_features_q)
    : outcome (crypt_features_q * option string * Z) :=
  let flag f := Ok (CryptFeatures (Z.lor (cf_flags st) f) (cf_tag_size st) (cf_rintegrity st) (cf_sector_size st), params, 0) in
  if strcaseeq arg "allow_discards" then flag CRYPT_ACTIVATE_ALLOW_DISCARDS
  else if strcaseeq arg "same_cpu_crypt" then flag CRYPT_ACTIVATE_SAME_CPU_CRYPT
  else if strcaseeq arg "submit_from_crypt_cpus" then flag CRYPT_ACTIVATE_SUBMIT_FROM_CRYPT_CPUS
  else if strcaseeq arg "no_read_workqueue" then flag CRYPT_ACTIVATE_NO_READ_WORKQUEUE
  else if strcaseeq arg "no_write_workqueue" then flag CRYPT_ACTIVATE_NO_WRITE_WORKQUEUE
  else if strcaseeq arg "iv_large_sectors" then flag CRYPT_ACTIVATE_IV_LARGE_SECTORS
  else match scan_u "integrity:" arg with
  | Some val =>
      match (rest ← after "integrity:" arg; strchr rest ":"%char) with
      | Some (String _ rintegrity) => Ok (CryptFeatures (cf_flags st) val (Some rintegrity) (cf_sector_size st), params, 0)
      | _ => Err (- EINVAL)
      end
  | None =>
      match scan_u "sector_size:" arg with
      | Some val => Ok (CryptFeatures (cf_flags st) (cf_tag_size st) (cf_rintegrity st) val, params, 0)
      | None => Err (- EINVAL)
      end
  end.

(** The optional words behind the offset; all of them must be processed. *)
Definition crypt_words (params : string) (st : crypt_features_q) : outcome crypt_features_q :=
  if (params =? "")%string then Ok st
  else
    params ← space params;
    let '(n, params) := number params in
    params ← space params;
    '(st, params) ← features_loop crypt_option (line_fuel (Some params)) n 0 (Some params) st;
    match params with None => Ok st | Some _ => Err (- EINVAL) end.

(** The key of a table: its size, and if asked for its bytes or its
    description. A description is of the form :<size>:<type>:<description>. *)
Definition query_key (get_flags : Z) (key_ : string) : outcome (option dm_key) :=
  if has_flag get_flags DM_ACTIVE_CRYPT_KEYSIZE then
    match after ":" key_ with
    | Some rest =>
        key_size ← tested (scan_u64 "" rest) (- EINVAL);
        if has_flag get_flags DM_ACTIVE_CRYPT_KEY then
          match strchr rest ":"%char with
          | Some (String _ endp) =>
              match strchr endp ":"%char with
              | Some (String _ key_desc) => Ok (Some (DmKey key_size (zeros (Z.to_nat key_size)) (Some key_desc)))
              | _ => Err (- ENOMEM)
              end
          | _ => Err (- ENOMEM)
          end
        else Ok (Some (DmKey key_size (zeros (Z.to_nat key_size)) None))
    | None =>
        let key_size := strlen key_ / 2 in
        if has_flag get_flags DM_ACTIVE_CRYPT_KEY then
          key ← tested (hex_pairs key_) (- EINVAL);
          Ok (Some (DmKey key_size key None))
        else Ok (Some (DmKey key_size (zeros (Z.to_nat key_size)) None))
    end
  else Ok None.

(** The target and the flags; a caller drops both after an error. *)
Definition _dm_target_query_crypt (lookup : string -> Z * option string) (get_flags : Z) (params : string) (act_flags : Z)
    : outcome (option string * crypt_target * Z) :=
  let '(rcipher, params) := strsep (Some params) in
  let '(key_, params) := strsep params in
  params ← tested params (- EINVAL);
  key_ ← deref key_;
  let '(iv_offset, params) := number params in
  params ← space params;
  let '(rdevice, params) := strsep (Some params) in
  rdevice ← deref rdevice;
  data_device ← get_device lookup (has_flag get_flags DM_ACTIVE_DEVICE) None rdevice;
  params ← tested params (- EINVAL);
  let '(offset, params) := number params in
  st ← crypt_words params (CryptFeatures act_flags 0 None SECTOR_512);
  rcipher ← deref rcipher;
  '(cipher, integrity) ←
    (if has_flag get_flags DM_ACTIVE_CRYPT_CIPHER then
       match cipher_dm2c rcipher (cf_rintegrity st) with
       | inl r => Err r
       | inr (c, i) => Ok (Some c, i)
       end
     else Ok (None, None));
  let act_flags := if String.prefix ":" key_ then Z.lor (cf_flags st) CRYPT_ACTIVATE_KEYRING_KEY else cf_flags st in
  vk ← query_key get_flags key_;
  Ok (data_device, CryptTarget cipher integrity vk offset iv_offset (cf_tag_size st) (cf_sector_size st), act_flags).

(** ** dm-verity *)

Definition CRYPT_VERITY_ROOT_HASH_SIGNATURE : Z := Z.shiftl 1 3.

(** What the features set: the flags, the device, start, blocks and roots of
    the FEC data, the area's offset in the parameters, and the description of
    the signature's key. *)
Record verity_features_q := VerityFeatures {
  vf_flags : Z;
  vf_fec_device : option string;
  vf_fec_offset : Z;
  vf_fec_area_offset : Z;
  vf_fec_blocks : Z;
  vf_fec_roots : Z;
  vf_sig_desc : option string;
}.

(** strtoull at a pointer that may be NULL, and one character more unless the
    line ends. *)
Definition number_word (params : option string) : outcome (Z * option string) :=
  s ← deref params;
  let '(v, rest) := number s in
  Ok (v, Some (match rest with String _ r => r | EmptyString => EmptyString end)).

(** [hash_block] is the size of the blocks in the parameters; after an error
    the state is dropped. *)
Definition verity_option (lookup : string -> Z * option string) (get_flags hash_block : Z) (arg : string) (params : option string)
    (st : verity_features_q) : outcome (verity_features_q * option string * Z) :=
  let '(VerityFeatures flags dev offset area blocks roots desc) := st in
  let flag f := Ok (VerityFeatures (Z.lor flags f) dev offset area blocks roots desc, params, 0) in
  if strcaseeq arg "ignore_corruption" then flag CRYPT_ACTIVATE_IGNORE_CORRUPTION
  else if strcaseeq arg "restart_on_corruption" then flag CRYPT_ACTIVATE_RESTART_ON_CORRUPTION
  else if strcaseeq arg "panic_on_corruption" then flag CRYPT_ACTIVATE_PANIC_ON_CORRUPTION
  else if strcaseeq arg "ignore_zero_blocks" then flag CRYPT_ACTIVATE_IGNORE_ZERO_BLOCKS
  else if strcaseeq arg "check_at_most_once" then flag CRYPT_ACTIVATE_CHECK_AT_MOST_ONCE
  else if strcaseeq arg "use_fec_from_device" then
    let '(str, params) := strsep params in
    str ← deref str;
    dev ← get_device lookup (has_flag get_flags DM_ACTIVE_VERITY_HASH_DEVICE) dev str;
    Ok (VerityFeatures flags dev offset area blocks roots desc, params, 1)
  else if strcaseeq arg "fec_start" then
    '(v, params) ← number_word params;
    Ok (VerityFeatures flags dev v (u64 (v * hash_block)) blocks roots desc, params, 1)
  else if strcaseeq arg "fec_blocks" then
    '(v, params) ← number_word params;
    Ok (VerityFeatures flags dev offset area v roots desc, params, 1)
  else if strcaseeq arg "fec_roots" then
    '(v, params) ← number_word params;
    Ok (VerityFeatures flags dev offset area blocks (u32 v) desc, params, 1)
  else if strcaseeq arg "root_hash_sig_key_desc" then
    let '(str, params) := strsep params in
    str ← tested str (- EINVAL);
    Ok (VerityFeatures flags dev offset area blocks roots (Some (default str desc)), params, 1)
  else Err (- EINVAL).

(** The rest of a line after the features must be empty or not there. *)
Definition ends (params : option string) : outcome () :=
  match params with Some (String _ _) => Err (- EINVAL) | _ => Ok () end.

Definition verity_words (lookup : string -> Z * option string) (get_flags hash_block : Z) (params : option string)
    (st : verity_features_q) : outcome verity_features_q :=
  match params with
  | None => Ok st
  | Some params =>
      let '(n, params) := number params in
      params ← space params;
      '(st, params) ← features_loop (verity_option lookup get_flags hash_block) (line_fuel (Some params)) (u32 n) 0 (Some params) st;
      _ ← ends params;
      Ok st
  end.

(** A number and the space behind it; a word, behind which the line goes on. *)
Definition number_space (params : string) : outcome (Z * string) :=
  let '(v, rest) := number params in rest ← space rest; Ok (v, rest).
Definition word_space (params : string) : outcome (string * string) :=
  let '(str, params) := strsep (Some params) in
  params ← tested params (- EINVAL); str ← deref str; Ok (str, params).

Definition of_hex (str : string) : outcome bytes :=
  match crypt_hex_to_bytes str false with inl r => Err r | inr b => Ok b end.

(** The parameters are filled in if asked for; so is the root hash. *)
Definition _dm_target_query_verity (lookup : string -> Z * option string) (get_flags : Z) (params : string) (act_flags : Z)
    : outcome (option string * verity_target * Z) :=
  let vp := has_flag get_flags DM_ACTIVE_VERITY_PARAMS in
  '(hash_type, params) ← number_space params;
  '(str, params) ← word_space params;
  data_device ← get_device lookup (has_flag get_flags DM_ACTIVE_DEVICE) None str;
  '(str, params) ← word_space params;
  hash_device ← get_device lookup (has_flag get_flags DM_ACTIVE_VERITY_HASH_DEVICE) None str;
  '(data_block, params) ← number_space params;
  '(hash_block, params) ← number_space params;
  '(data_size, params) ← number_space params;
  '(hash_offset, params) ← number_space params;
  '(hash_name, params) ← word_space params;
  '(str, params) ← word_space params;
  root_hash ← of_hex str;
  let '(str, params) := strsep (Some params) in
  str ← deref str;
  salt ← (if vp then if (str =? "-")%string then Ok [] else of_hex str else Ok []);
  st ← verity_words lookup get_flags (u32 hash_block) params (VerityFeatures act_flags None 0 0 0 0 None);
  let params_q :=
    {| hash_name := bytes_of_string hash_name; salt := salt; salt_size := u32 (zlen salt); hash_type := u32 hash_type;
       data_block_size := u32 data_block; hash_block_size := u32 hash_block; data_size := data_size; hash_area_offset := 0;
       fec_area_offset := vf_fec_area_offset st; fec_roots := vf_fec_roots st;
       flags := if vf_sig_desc st then CRYPT_VERITY_ROOT_HASH_SIGNATURE else 0 |} in
  Ok (data_device,
      VerityTarget hash_device (vf_fec_device st) (if has_flag get_flags DM_ACTIVE_VERITY_ROOT_HASH then Some root_hash else None)
        (u32 (zlen root_hash)) (vf_sig_desc st) hash_offset (vf_fec_offset st) (vf_fec_blocks st) (if vp then Some params_q else None),
      vf_flags st).

(** ** dm-integrity *)

Record integrity_q := IntegrityQ { iq_target : integrity_target; iq_flags : Z }.

Definition set_numbers (t : integrity_target) (journal watermark commit interleave sector buffer : Z) : integrity_target :=
  IntegrityTarget journal watermark commit interleave (it_tag_size t) (it_offset t) sector buffer (it_integrity t) (it_vk t)
    (it_journal_integrity t) (it_journal_integrity_key t) (it_journal_crypt t) (it_journal_crypt_key t) (it_meta_device t)
    (it_fix_padding t) (it_fix_hmac t) (it_legacy_recalc t).

Definition set_names (t : integrity_target) (integrity : option string) (vk : option dm_key) (mac crypt meta : option string)
    : integrity_target :=
  IntegrityTarget (it_journal_size t) (it_journal_watermark t) (it_journal_commit_time t) (it_interleave_sectors t) (it_tag_size t)
    (it_offset t) (it_sector_size t) (it_buffer_sectors t) integrity vk mac (it_journal_integrity_key t) crypt
    (it_journal_crypt_key t) meta (it_fix_padding t) (it_fix_hmac t) (it_legacy_recalc t).

Definition set_fixes (t : integrity_target) (padding hmac legacy : bool) : integrity_target :=
  IntegrityTarget (it_journal_size t) (it_journal_watermark t) (it_journal_commit_time t) (it_interleave_sectors t) (it_tag_size t)
    (it_offset t) (it_sector_size t) (it_buffer_sectors t) (it_integrity t) (it_vk t) (it_journal_integrity t)
    (it_journal_integrity_key t) (it_journal_crypt t) (it_journal_crypt_key t) (it_meta_device t) padding hmac legacy.

(** The options with a number: what they make of the target, the tests in
    order. Sectors of the journal are multiplied in 32 bits. *)
Definition integrity_number (arg : string) (t : integrity_target) : option (outcome integrity_target) :=
  let '(j, w, c, i, s, b) := (it_journal_size t, it_journal_watermark t, it_journal_commit_time t, it_interleave_sectors t,
                              it_sector_size t, it_buffer_sectors t) in
  match scan_u "journal_sectors:" arg with
  | Some v => Some (Ok (set_numbers t (u32 (v * SECTOR_512)) w c i s b))
  | None => match scan_u "journal_watermark:" arg with
  | Some v => Some (Ok (set_numbers t j v c i s b))
  | None => match scan_u64 "sectors_per_bit:" arg with
  | Some v => Some (if UINT32_MAX <? v then Err (- EINVAL) else Ok (set_numbers t j (u32 v) c i s b))
  | None => match scan_u "commit_time:" arg with
  | Some v => Some (Ok (set_numbers t j w v i s b))
  | None => match scan_u "bitmap_flush_interval:" arg with
  | Some v => Some (Ok (set_numbers t j w v i s b))
  | None => match scan_u "interleave_sectors:" arg with
  | Some v => Some (Ok (set_numbers t j w c v s b))
  | None => match scan_u "block_size:" arg with
  | Some v => Some (Ok (set_numbers t j w c i v b))
  | None => match scan_u "buffer_sectors:" arg with
  | Some v => Some (Ok (set_numbers t j w c i s v))
  | None => None
  end end end end end end end end.

(** strsep(&str, ":") *)
Fixpoint split_colon (s : string) : string * option string :=
  match s with
  | EmptyString => (EmptyString, None)
  | String c s' => if Ascii.eqb c ":"%char then (EmptyString, Some s')
                   else let '(a, rest) := split_colon s' in (String c a, rest)
  end.

(** The key of the internal hash, if the line has one. *)
Definition integrity_key (get_flags : Z) (str : option string) (vk : option dm_key) : outcome (option dm_key) :=
  match str with
  | None => Ok vk
  | Some str =>
      match crypt_hex_to_bytes str true with
      | inl r => Err r
      | inr key =>
          Ok (if has_flag get_flags DM_ACTIVE_CRYPT_KEY then Some (DmKey (zlen key) key None)
              else if has_flag get_flags DM_ACTIVE_CRYPT_KEYSIZE then Some (DmKey (zlen key) (zeros (Z.to_nat (zlen key))) None)
              else vk)
      end
  end.

(** The options with a name; one of them is taken once. *)
Definition integrity_name (lookup : string -> Z * option string) (get_flags : Z) (arg : string) (t : integrity_target)
    : option (outcome integrity_target) :=
  let '(hash, vk, mac, crypt, meta) := (it_integrity t, it_vk t, it_journal_integrity t, it_journal_crypt t, it_meta_device t) in
  let once (prefix : string) (o : option string) := match o with None => after prefix arg | Some _ => None end in
  let named (o : option string) (s : string) := if has_flag get_flags DM_ACTIVE_INTEGRITY_PARAMS then Some (split_colon s).1 else o in
  match once "internal_hash:" hash with
  | Some s => Some (vk ← integrity_key get_flags (split_colon s).2 vk; Ok (set_names t (named hash s) vk mac crypt meta))
  | None => match once "meta_device:" meta with
  | Some s => Some (meta ← get_device lookup (has_flag get_flags DM_ACTIVE_DEVICE) meta s; Ok (set_names t hash vk mac crypt meta))
  | None => match once "journal_crypt:" crypt with
  | Some s => Some (Ok (set_names t hash vk mac (named crypt s) meta))
  | None => match once "journal_mac:" mac with
  | Some s => Some (Ok (set_names t hash vk (named mac s) crypt meta))
  | None => None
  end end end end.

Definition integrity_option (lookup : string -> Z * option string) (get_flags : Z) (arg : string) (params : option string)
    (st : integrity_q) : outcome (integrity_q * option string * Z) :=
  let t := iq_target st in
  let flag f := Ok (IntegrityQ t (Z.lor (iq_flags st) f), params, 0) in
  let target t := Ok (IntegrityQ t (iq_flags st), params, 0) in
  match integrity_number arg t with
  | Some o => t ← o; target t
  | None =>
      match integrity_name lookup get_flags arg t with
      | Some o => t ← o; target t
      | None =>
          if (arg =? "recalculate")%string then flag CRYPT_ACTIVATE_RECALCULATE
          else if (arg =? "reset_recalculate")%string then flag CRYPT_ACTIVATE_RECALCULATE_RESET
          else if (arg =? "fix_padding")%string then target (set_fixes t true (it_fix_hmac t) (it_legacy_recalc t))
          else if (arg =? "fix_hmac")%string then target (set_fixes t (it_fix_padding t) true (it_legacy_recalc t))
          else if (arg =? "legacy_recalculate")%string then target (set_fixes t (it_fix_padding t) (it_fix_hmac t) true)
          else if (arg =? "allow_discards")%string then flag CRYPT_ACTIVATE_ALLOW_DISCARDS
          else Err (- EINVAL)
      end
  end.

(** The mode, in either case, and the flags it stands for. *)
Definition mode_flags (c : ascii) : option Z :=
  if Ascii.eqb (tolower_char c) "d"%char then Some CRYPT_ACTIVATE_NO_JOURNAL
  else if Ascii.eqb (tolower_char c) "r"%char then Some CRYPT_ACTIVATE_RECOVERY
  else if Ascii.eqb (tolower_char c) "b"%char then Some (Z.lor CRYPT_ACTIVATE_NO_JOURNAL CRYPT_ACTIVATE_NO_JOURNAL_BITMAP)
  else if Ascii.eqb (tolower_char c) "j"%char then Some 0 else None.

Definition _dm_target_query_integrity (lookup : string -> Z * option string) (get_flags : Z) (params : string) (act_flags : Z)
    : outcome (option string * integrity_target * Z) :=
  let '(str, params) := strsep (Some params) in
  str ← deref str;
  data_device ← get_device lookup (has_flag get_flags DM_ACTIVE_DEVICE) None str;
  params ← tested params (- EINVAL);
  let '(offset, params) := number params in
  rest ← space params;
  let '(tag, params) := number params in
  mode ← space params;
  match mode with
  | String c params =>
      _ ← space params;
      m ← tested (mode_flags c) (- EINVAL);
      let '(n, params) := number params in
      params ← space params;
      let t := IntegrityTarget 0 0 0 0 (u32 tag) offset SECTOR_512 0 None None None None None None None false false false in
      '(st, params) ← features_loop (integrity_option lookup get_flags) (line_fuel (Some params)) (u32 n) 0 (Some params)
                        (IntegrityQ t (Z.lor act_flags m));
      _ ← ends params;
      Ok (data_device, iq_target st, iq_flags st)
  | EmptyString => Err (- EINVAL)
  end.

(** ** The other targets *)

Definition _dm_target_query_linear (lookup : string -> Z * option string) (get_flags : Z) (params : string) : outcome (option string * Z) :=
  let '(rdevice, params) := strsep (Some params) in
  rdevice ← deref rdevice;
  device ← get_device lookup (has_flag get_flags DM_ACTIVE_DEVICE) None rdevice;
  params ← tested params (- EINVAL);
  let '(offset, params) := number params in
  _ ← ends (Some params);
  Ok (device, offset).

Definition dm_target_query (lookup : string -> Z * option string) (start length : Z) (target_type params : string) (get_flags act_flags : Z)
    : outcome (dm_target * Z) :=
  if (target_type =? "crypt")%string then
    '(d, t, f) ← _dm_target_query_crypt lookup get_flags params act_flags; Ok (DmTarget start length d (U_crypt t), f)
  else if (target_type =? "verity")%string then
    '(d, t, f) ← _dm_target_query_verity lookup get_flags params act_flags; Ok (DmTarget start length d (U_verity t), f)
  else if (target_type =? "integrity")%string then
    '(d, t, f) ← _dm_target_query_integrity lookup get_flags params act_flags; Ok (DmTarget start length d (U_integrity t), f)
  else if (target_type =? "linear")%string then
    '(d, offset) ← _dm_target_query_linear lookup get_flags params; Ok (DmTarget start length d (U_linear offset), act_flags)
  else if (target_type =? "error")%string then Ok (DmTarget start length None U_error, act_flags)
  else if (target_type =? "zero")%string then Ok (DmTarget start length None U_zero, act_flags)
  else Err (- ENOTSUP).

(** * Names, creation and removal of mappings *)

(** ** UUIDs of mappings *)

Definition DM_UUID_PREFIX : string := "CRYPT-".
Definition DM_UUID_LEN : Z := 129.
Definition UUID_LEN : Z := 37.

Fixpoint drop_dashes (s : string) : string :=
  match s with
  | EmptyString => EmptyString
  | String c s' => if Ascii.eqb c "-"%char then drop_dashes s' else String c (drop_dashes s')
  end.

(** [None] when the UUID is refused; a text that does not fit is cut. *)
Definition dm_prepare_uuid `{LibUuid} (name : string) (type uuid : option string) (buflen : Z) : option string :=
  uuid2 ← match uuid with
          | None => Some ""
          | Some u => _ ← uuid_parse (bytes_of_string u); Some (drop_dashes (cut UUID_LEN u))
          end;
  let type := match type with Some t => t ++ "-" | None => "" end in
  let uuid2 := if (uuid2 =? "")%string then "" else uuid2 ++ "-" in
  Some (cut buflen (DM_UUID_PREFIX ++ type ++ uuid2 ++ name)).

(** Up to the last character [c]. *)
Definition before_last (c : ascii) (s : string) : option string :=
  (fix go s := match s with
               | EmptyString => None
               | String d s' => match go s' with
                                | Some p => Some (String d p)
                                | None => if Ascii.eqb d c then Some EmptyString else None
                                end
               end) s.

Definition DM_BY_ID_PREFIX : string := "dm-uuid-".

(** The text that the links of udev or sysfs are searched for. *)
Definition lookup_key `{LibUuid} (uuid type : option string) : Z + string :=
  match dm_prepare_uuid "" type uuid DM_UUID_LEN with
  | None => inl (- EINVAL)
  | Some s => match before_last "-"%char (DM_BY_ID_PREFIX ++ s) with Some p => inr p | None => inl (- EINVAL) end
  end.

(** ** Creation *)

Definition clear_flags (f flags : Z) : Z := Z.land flags (u32 (Z.lnot f)).

(** Whether options that the kernel does not know were dropped. *)
Definition check_retry (dmd_flags dmt_flags : Z) : bool * Z :=
  foldl (fun '(ret, flags) '(options, supported) =>
           if has_flag flags options && negb (has_flag dmt_flags supported) then (true, clear_flags options flags) else (ret, flags))
    (false, dmd_flags)
    [ (CRYPT_ACTIVATE_ALLOW_DISCARDS, DM_DISCARDS_SUPPORTED);
      (CRYPT_ACTIVATE_KEYRING_KEY, DM_KERNEL_KEYRING_SUPPORTED);
      (Z.lor CRYPT_ACTIVATE_SAME_CPU_CRYPT CRYPT_ACTIVATE_SUBMIT_FROM_CRYPT_CPUS,
       Z.lor DM_SAME_CPU_CRYPT_SUPPORTED DM_SUBMIT_FROM_CRYPT_CPUS_SUPPORTED);
      (Z.lor CRYPT_ACTIVATE_NO_READ_WORKQUEUE CRYPT_ACTIVATE_NO_WRITE_WORKQUEUE, DM_CRYPT_NO_WORKQUEUE_SUPPORTED) ].

(** [create flags] is [_dm_create_device] with these flags: a code and what
    is known of the kernel then. The result has the flags left. *)
Definition dm_create_device (create : Z -> Z * dm_compat) (type : dm_target_type) (flags : Z) : Z * Z :=
  let '(r, c) := create flags in
  let '(code, known) := dm_flags c type in
  if (r <? 0) && negb (code =? 0) then (r, flags)
  else
    let dmt_flags := if r <? 0 then known else 0 in
    let retried := bool_decide (type = DM_CRYPT \/ type = DM_LINEAR \/ type = DM_ZERO) in
    if negb (r =? 0) && retried then
      let '(again, flags') := check_retry flags dmt_flags in
      if again then ((create flags').1, flags') else (r, flags')
    else (r, flags).

(** The message that gives a suspended mapping its key back. *)
Definition key_set_message (vk : dm_key) : string :=
  let msg_size := if keylength vk =? 0 then 11
                  else match key_description vk with
                       | Some d => strlen d + int_log10 (keylength vk) + 18
                       | None => keylength vk * 2 + 10
                       end in
  "key set " ++
  (if keylength vk =? 0 then cut (msg_size - 8) "-"
   else match key_description vk with
        | Some d => cut (msg_size - 8) (":" ++ dec_u (keylength vk) ++ ":logon:" ++ d)
        | None => hex_key (key vk)
        end).

(** ** Removal *)

Definition RETRY_COUNT : nat := 5.
Definition CRYPT_DEACTIVATE_DEFERRED : Z := Z.shiftl 1 0.
Definition CRYPT_DEACTIVATE_FORCE : Z := Z.shiftl 1 1.

(** The attempts from one on, of which [retries] are left: whether the kernel
    removes the mapping in it and what the query of the mapping returns. The
    table of errors is loaded once; the attempts made are counted. *)
Fixpoint remove_loop (removes : nat -> bool) (query : nat -> Z) (force : bool) (retries attempt : nat) (error_target : bool) : Z * bool * nat :=
  match retries with
  | O => (- EINVAL, error_target, attempt)
  | S retries =>
      if removes attempt then (0, error_target, S attempt)
      else
        let error_target := error_target || (negb (Nat.eqb retries 0) && force && (query attempt =? 0)) in
        remove_loop removes query force retries (S attempt) error_target
  end.

Definition dm_remove_device (removes : nat -> bool) (query : nat -> Z) (dmt : Z * Z) (flags : Z) : Z * bool * nat :=
  if has_flag flags CRYPT_DEACTIVATE_DEFERRED && (dmt.1 =? 0) && negb (has_flag dmt.2 DM_DEFERRED_SUPPORTED) then (- ENOTSUP, false, O)
  else
    let force := has_flag flags CRYPT_DEACTIVATE_FORCE in
    remove_loop removes query force (if force then RETRY_COUNT else 1%nat) 0 false.

(** ** Query *)

Definition DM_ACTIVE_UUID : Z := Z.shiftl 1 1.
Definition DM_ACTIVE_HOLDERS : Z := Z.shiftl 1 2.

(** The kernel's answer about a mapping that exists. *)
Record dm_info := DmInfo {
  in_target_count : Z;
  in_suspended : bool;
  in_read_only : bool;
  in_uuid : option string;
  in_open_count : Z;
  in_verity_ok : Z;
  in_holders : bool;
  (** the first line of the table and the rest *)
  in_table : (Z * Z * string * string) * list (Z * Z * string * string);
}.

Record crypt_dm_active_device := ActiveDevice {
  ad_size : Z;
  ad_flags : Z;
  ad_uuid : option string;
  ad_holders : bool;
  ad_segments : list dm_target;
}.

(** The lines of the table, for as many segments as were allocated. *)
Fixpoint query_segments (lookup : string -> Z * option string) (verity_ok get_flags : Z) (rows : list (Z * Z * string * string))
    (flags : Z) : outcome (list dm_target * Z * Z) :=
  match rows with
  | [] => Ok ([], 0, flags)
  | (start, length, target_type, params) :: rows =>
      '(t, flags) ← dm_target_query lookup start length target_type params get_flags flags;
      _ ← require (negb (bool_decide (t_type t = DM_VERITY)) || (0 <=? verity_ok)) verity_ok;
      let flags := if bool_decide (t_type t = DM_VERITY) && (verity_ok =? 0) then Z.lor flags CRYPT_ACTIVATE_CORRUPTED else flags in
      '(l, size, flags) ← query_segments lookup verity_ok get_flags rows flags;
      Ok (t :: l, u64 (length + size), flags)
  end.

(** [None] is a mapping that does not exist. Nothing of the result is left
    after an error. *)
Definition dm_query_device (lookup : string -> Z * option string) (get_flags : Z) (info : option dm_info)
    : outcome (Z * crypt_dm_active_device) :=
  info ← tested info (- ENODEV);
  _ ← require (0 <? in_target_count info) (- EINVAL);
  _ ← require (negb (has_flag get_flags DM_ACTIVE_CRYPT_KEY && in_suspended info)) (- EINVAL);
  let rows := take (Z.to_nat (in_target_count info)) ((in_table info).1 :: (in_table info).2) in
  '(segments, size, flags) ← query_segments lookup (in_verity_ok info) get_flags rows 0;
  let flags := if in_read_only info then Z.lor flags CRYPT_ACTIVATE_READONLY else flags in
  let flags := if in_suspended info then Z.lor flags CRYPT_ACTIVATE_SUSPENDED else flags in
  let flags := if in_uuid info then flags else Z.lor flags CRYPT_ACTIVATE_NO_UUID in
  let uuid := if has_flag get_flags DM_ACTIVE_UUID then u ← in_uuid info; after DM_UUID_PREFIX u else None in
  Ok (if 0 <? in_open_count info then 1 else 0,
      ActiveDevice size flags uuid (has_flag get_flags DM_ACTIVE_HOLDERS && in_holders info) segments).
