(* ===== verification/DmFacts.v ===== *)
(** * DmFacts: pieces of the lines of a table

    What the printing functions of DmTable write is read back by the scanners
    of DmQuery: words, decimal numbers, and the specifications of ciphers. *)

From S2P Require Import Prelude Cstd UtilsCrypt VerityHash DmTable DmQuery Pbkdf.
From Stdlib Require Import Ascii.

Local Open Scope string_scope.
Local Open Scope Z_scope.

(** ** Strings *)

Lemma string_app_assoc (a b c : string) : (a ++ b) ++ c = a ++ b ++ c.
Proof. induction a as [|x a IH]; [done|]. rewrite !string_append. by rewrite IH. Qed.

Lemma string_app_length (a b : string) : String.length (a ++ b) = (String.length a + String.length b)%nat.
Proof. induction a as [|x a IH]; [done|]. rewrite string_append. cbn. by rewrite IH. Qed.

Lemma substring_app (a b : string) : String.substring 0 (String.length a) (a ++ b) = a.
Proof. induction a as [|x a IH]; [by destruct b|]. rewrite string_append. cbn. by rewrite IH. Qed.

Lemma substring_full n s : (String.length s <= n)%nat -> String.substring 0 n s = s.
Proof. revert n. induction s as [|x s IH]; intros [|n] H; cbn in *; try done; try lia. by rewrite IH by lia. Qed.

Lemma substring_skip (a b : string) : String.substring (String.length a) (String.length b) (a ++ b) = b.
Proof. induction a as [|x a IH]; [by apply substring_full|]. rewrite string_append. done. Qed.

Lemma cut_fits n s : strlen s < n -> cut n s = s.
Proof. unfold strlen, cut. intros H. apply substring_full. lia. Qed.

Lemma prefix_app (p s : string) : String.prefix p (p ++ s) = true.
Proof. induction p as [|x p IH]; [by destruct s|]. rewrite string_append. cbn. destruct (ascii_dec x x); [done|congruence]. Qed.

Lemma after_app p s : after p (p ++ s) = Some s.
Proof.
  unfold after. rewrite prefix_app, string_app_length.
  replace (String.length p + String.length s - String.length p)%nat with (String.length s) by lia. by rewrite substring_skip.
Qed.

Lemma all_chars_app p (a b : string) : all_chars p (a ++ b) = all_chars p a && all_chars p b.
Proof. induction a as [|x a IH]; [done|]. rewrite string_append. cbn. by rewrite IH, andb_assoc. Qed.

Lemma all_chars_mono (p q : ascii -> bool) s : (forall c, p c = true -> q c = true) -> all_chars p s = true -> all_chars q s = true.
Proof. intros H. induction s as [|x s IH]; [done|]. cbn. intros [Hx Hs]%andb_true_iff. by rewrite H, IH. Qed.

(** ** Words *)

Definition nospace (s : string) : Prop := all_chars not_space s = true.

Lemma not_space_sp c : not_space c = true -> Ascii.eqb c " "%char = false.
Proof. intros H. apply Ascii.eqb_neq. intros ->. done. Qed.

Lemma nospace_app a b : nospace (a ++ b) <-> nospace a /\ nospace b.
Proof. unfold nospace. by rewrite all_chars_app, andb_true_iff. Qed.

Lemma split_space_word w rest : nospace w -> split_space (w ++ " " ++ rest) = (w, Some rest).
Proof.
  unfold nospace. induction w as [|c w IH]; [done|]. cbn [all_chars]. intros [Hc Hw]%andb_true_iff.
  rewrite string_append. cbn [split_space]. rewrite not_space_sp by done. by rewrite IH.
Qed.

Lemma split_space_last w : nospace w -> split_space w = (w, None).
Proof.
  unfold nospace. induction w as [|c w IH]; [done|]. cbn [all_chars split_space]. intros [Hc Hw]%andb_true_iff.
  rewrite not_space_sp by done. by rewrite IH.
Qed.

Lemma strsep_word w rest : nospace w -> strsep (Some (w ++ " " ++ rest)) = (Some w, Some rest).
Proof. intros H. cbn [strsep]. by rewrite split_space_word. Qed.

Lemma strsep_last w : nospace w -> strsep (Some w) = (Some w, None).
Proof. intros H. cbn [strsep]. by rewrite split_space_last. Qed.

(** ** Numbers *)

Lemma dec_aux_app fuel z acc rest : dec_aux fuel z acc ++ rest = dec_aux fuel z (acc ++ rest).
Proof.
  revert z acc. induction fuel as [|fuel IH]; intros z acc; [done|]. cbn [dec_aux].
  destruct (z <? 10); [done|]. by rewrite IH.
Qed.

Lemma parse_digits_stops rest z : stops isdigit rest -> parse_digits rest z = (z, rest).
Proof. destruct rest as [|c rest]; [done|]. cbn. by intros ->. Qed.

Lemma parse_number_app z rest : in_u 64 z -> stops isdigit rest -> parse_number (dec_u z ++ rest) = Some (false, z, rest).
Proof.
  unfold in_u, parse_number, dec_u. intros Hz Hr. rewrite dec_aux_app, empty_append.
  destruct (dec_aux_head 19 z rest ltac:(lia)) as (c & s & E & Hc). rewrite E. cbn [skip_space].
  destruct (isdigit_not_special c Hc) as (-> & -> & ->). rewrite Hc, <-E, parse_digits_dec.
  - by rewrite parse_digits_stops.
  - change (10 ^ Z.of_nat 20) with 100000000000000000000. lia.
Qed.

Lemma number_app z rest : in_u 64 z -> stops isdigit rest -> number (dec_u z ++ rest) = (z, rest).
Proof.
  intros Hz Hr. unfold number, strtoull. rewrite parse_number_app by done.
  unfold in_u, UINT64_MAX in *. destruct (Z.ltb_spec (2 ^ 64 - 1) z); [lia|done].
Qed.

Lemma number_end z : in_u 64 z -> number (dec_u z) = (z, "").
Proof. intros Hz. rewrite <-(append_empty_r (dec_u z)). by apply number_app. Qed.

Lemma scan_u64_app p z rest : in_u 64 z -> stops isdigit rest -> scan_u64 p (p ++ dec_u z ++ rest) = Some z.
Proof.
  intros Hz Hr. unfold scan_u64. rewrite after_app. cbn [mbind option_bind]. rewrite parse_number_app by done. cbn [mbind option_bind].
  by rewrite number_app.
Qed.

Lemma all_digits_nospace s : all_digits s = true -> nospace s.
Proof.
  unfold nospace. induction s as [|c s IH]; [done|]. cbn [all_digits all_chars]. intros [Hc Hs]%andb_true_iff.
  unfold not_space. destruct (isdigit_not_special c Hc) as (-> & _). apply IH, Hs.
Qed.

Lemma dec_u_nospace z : 0 <= z -> nospace (dec_u z).
Proof. intros. by apply all_digits_nospace, all_digits_dec. Qed.

Lemma u32_u64 z : in_u 64 (u32 z).
Proof. unfold in_u, u32, wrap. pose proof (Z.mod_pos_bound z (2 ^ 32) ltac:(lia)). lia. Qed.

Lemma dec_aux_short fuel z acc n : (Z.of_nat fuel <= n) -> 0 <= n -> strlen (dec_aux fuel z acc) <= n + strlen acc.
Proof.
  unfold strlen. revert z acc n. induction fuel as [|fuel IH]; intros z acc n H Hn; cbn [dec_aux]; [lia|].
  destruct (z <? 10); [cbn [String.length]; lia|]. specialize (IH (z / 10) (String (digit_char (z mod 10)) acc) (n - 1)).
  cbn [String.length] in IH. lia.
Qed.

Lemma dec_u_short z : strlen (dec_u z) <= 20.
Proof. unfold dec_u. pose proof (dec_aux_short 20 z "" 20 ltac:(lia) ltac:(lia)). cbn [strlen String.length] in *. unfold strlen in *. cbn in *. lia. Qed.

Lemma strlen_app (a b : string) : strlen (a ++ b) = strlen a + strlen b.
Proof. unfold strlen. rewrite string_app_length. lia. Qed.

(** ** Specifications of ciphers *)

(** A character of a name: none that the formats use themselves. *)
Definition plain (c : ascii) : bool :=
  not_space c && not_dash c && is_not "("%char c && is_not ")"%char c && is_not ","%char c.

(** cipher-mode-iv, or cipher-iv *)
Record cipher_spec := CipherSpec { sp_cipher : string; sp_mode : option string; sp_iv : string }.

Definition spec_string (sp : cipher_spec) : string :=
  sp_cipher sp ++ "-" ++ match sp_mode sp with Some m => m ++ "-" ++ sp_iv sp | None => sp_iv sp end.

Definition name_ok (s : string) : Prop := s <> "" /\ (String.length s <= 31)%nat /\ all_chars plain s = true.

Record spec_ok (sp : cipher_spec) : Prop := {
  so_cipher : name_ok (sp_cipher sp);
  so_two : (2 <= String.length (sp_cipher sp))%nat;
  so_mode : forall m, sp_mode sp = Some m -> name_ok m /\ m <> "rfc4309";
  so_iv : sp_iv sp <> "" /\ (String.length (sp_iv sp) <= 31)%nat /\ nospace (sp_iv sp);
  so_iv_dash : sp_mode sp = None -> all_chars not_dash (sp_iv sp) = true;
}.

(** The name of an algorithm for authentication, as "hmac(sha256)". *)
Definition auth_ok (s : string) : Prop :=
  s <> "" /\ (String.length s <= 40)%nat /\ all_chars (fun c => not_space c && not_dash c && is_not ","%char c) s = true.

(** As the kernel's crypto API has it, whole and without the last
    parenthesis. *)
Definition capi_open (sp : cipher_spec) : string :=
  match sp_mode sp with Some m => m ++ "(" ++ sp_cipher sp | None => sp_cipher sp end.
Definition capi_close (sp : cipher_spec) : string := match sp_mode sp with Some _ => ")" | None => "" end.

Lemma plain_parts c :
  plain c = true -> not_space c = true /\ not_dash c = true /\ is_not "("%char c = true /\ is_not ")"%char c = true /\ is_not ","%char c = true.
Proof. unfold plain. rewrite !andb_true_iff. tauto. Qed.

Lemma plain_all (q : ascii -> bool) s :
  (forall c, plain c = true -> q c = true) -> name_ok s -> all_chars q s = true.
Proof. intros Hq (_ & _ & H). by eapply all_chars_mono. Qed.

Ltac plain_solve := intros ? ?%plain_parts; tauto.

Lemma scan_dash_n_app n a b :
  a <> "" -> (String.length a <= n)%nat -> all_chars not_dash a = true -> b <> "" -> (String.length b <= n)%nat -> nospace b ->
  scan_dash_n n (a ++ "-" ++ b) = (Some a, Some b).
Proof.
  intros Ha La Da Hb Lb Sb. unfold scan_dash_n. rewrite conv_set_all by done.
  rewrite string_append, empty_append. rewrite skip_space_none by done. rewrite <-(append_empty_r b) at 1.
  by rewrite conv_set_all.
Qed.

Lemma scan_dash_n_alone n a :
  a <> "" -> (String.length a <= n)%nat -> all_chars not_dash a = true -> scan_dash_n n a = (Some a, None).
Proof.
  intros Ha La Da. unfold scan_dash_n. rewrite <-(append_empty_r a) at 1. by rewrite conv_set_all.
Qed.

Lemma not_dash_stop (s : string) : stops not_dash ("-" ++ s). Proof. done. Qed.

Lemma nospace_plain s : name_ok s -> nospace s.
Proof. intros H. unfold nospace. eapply plain_all; [plain_solve|done]. Qed.

Lemma string_empty_dec (a b : string) : a <> "" -> a ++ b <> "".
Proof. by destruct a. Qed.

(** The parts of a specification, whichever form it has. *)
Lemma capi_parts_spec sp :
  spec_ok sp ->
  capi_parts (spec_string sp) = Some (capi_open sp ++ capi_close sp, default "" (sp_mode sp), sp_iv sp).
Proof.
  intros [(Hc & Lc & Pc) _ Hm (Hi & Li & Si) Di]. unfold capi_parts, spec_string, capi_open, capi_close.
  assert (all_chars not_dash (sp_cipher sp) = true) as Dc by (eapply plain_all; [plain_solve|done]).
  destruct (sp_mode sp) as [m|] eqn:E.
  - destruct (Hm m eq_refl) as [(Hm0 & Lm & Pm) _].
    assert (all_chars not_dash m = true) as Dm by (eapply plain_all; [plain_solve|done]).
    rewrite scan_dash_n_app; try done; try lia; cycle 1.
    { by apply string_empty_dec. }
    { rewrite !string_app_length. cbn. lia. }
    { rewrite !nospace_app. repeat split; [|done]. by apply nospace_plain. }
    rewrite scan_dash_n_app by (done || lia). rewrite cut_fits; [by rewrite !string_app_assoc|].
    unfold strlen, CAPIL. rewrite !string_app_length. cbn. lia.
  - rewrite scan_dash_n_app by (done || lia). rewrite scan_dash_n_alone by (auto || lia).
    rewrite cut_fits; [by rewrite append_empty_r|]. unfold strlen, CAPIL. lia.
Qed.

Lemma last_char_app (a : string) c : String.get (String.length (a ++ String c "") - 1) (a ++ String c "") = Some c.
Proof.
  rewrite string_app_length. cbn [String.length]. replace (String.length a + 1 - 1)%nat with (String.length a) by lia.
  induction a as [|x a IH]; [done|]. exact IH.
Qed.

Lemma drop_close_drops a : drop_close (a ++ ")") = a.
Proof.
  unfold drop_close. rewrite last_char_app, bool_decide_eq_true_2 by done. rewrite string_app_length. cbn [String.length].
  replace (String.length a + 1 - 1)%nat with (String.length a) by lia. apply substring_app.
Qed.

Lemma get_all_chars p s n c : all_chars p s = true -> String.get n s = Some c -> p c = true.
Proof.
  revert n. induction s as [|x s IH]; intros [|n]; cbn; try done; intros [Hx Hs]%andb_true_iff; [by intros [= <-]|by apply IH].
Qed.

Lemma drop_close_plain s : all_chars plain s = true -> drop_close s = s.
Proof.
  intros H. unfold drop_close. case_bool_decide as E; [|done]. by pose proof (get_all_chars _ _ _ _ H E).
Qed.

Lemma drop_close_capi sp : spec_ok sp -> drop_close (capi_open sp ++ capi_close sp) = capi_open sp.
Proof.
  intros [(_ & _ & Pc) _ _ _ _]. unfold capi_open, capi_close. destruct (sp_mode sp); [apply drop_close_drops|].
  rewrite append_empty_r. by apply drop_close_plain.
Qed.

(** The kernel's form is taken apart at its only dash before the vector. *)
Lemma scan_capi tmp iv :
  tmp <> "" -> (String.length tmp <= 143)%nat -> all_chars not_dash tmp = true -> iv <> "" -> (String.length iv <= 63)%nat -> nospace iv ->
  ('(t, rest) ← scan_until "capi:" 143 "-"%char ("capi:" ++ tmp ++ "-" ++ iv); i ← scan_word "-" 63 rest; Some (t, i)) = Some (tmp, iv).
Proof.
  intros Ht Lt Dt Hi Li Si. unfold scan_until, scan_word. rewrite after_app. cbn [mbind option_bind].
  change (is_not "-"%char) with not_dash. rewrite conv_set_all by done. cbn [mbind option_bind].
  rewrite after_app. cbn [mbind option_bind]. rewrite skip_space_none by done. rewrite <-(append_empty_r iv) at 1.
  by rewrite conv_set_all.
Qed.

Lemma cipher_dm2c_capi tmp iv i_dm :
  (2 <= String.length tmp <= 143)%nat -> all_chars not_dash tmp = true -> iv <> "" -> (String.length iv <= 63)%nat -> nospace iv ->
  cipher_dm2c ("capi:" ++ tmp ++ "-" ++ iv) i_dm =
    let '(capi, org_i) := capi_of (drop_close tmp) i_dm in
    inr (cut (CAPIL * 2) (match capi_mode capi with
                          | Some (mode, cipher) => cipher ++ "-" ++ mode ++ "-" ++ iv
                          | None => capi ++ "-" ++ iv
                          end), org_i).
Proof.
  intros Lt Dt Hi Li Si. unfold cipher_dm2c. change (String.prefix "capi" ("capi:" ++ tmp ++ "-" ++ iv)) with true. cbn [negb].
  rewrite scan_capi; [|by intros ->; cbn in Lt; lia|lia|done..].
  unfold strlen. destruct (Z.ltb_spec (Z.of_nat (String.length tmp)) 2); [lia|]. by destruct (capi_of _ _).
Qed.

Lemma capi_mode_open m c (close : bool) :
  name_ok m -> name_ok c -> capi_mode (m ++ "(" ++ c ++ if close then ")" else "") = Some (m, c).
Proof.
  intros Hm Hc. assert (all_chars (is_not "("%char) m = true) as Am by (eapply plain_all; [plain_solve|done]).
  assert (all_chars (is_not ")"%char) c = true) as Ac by (eapply plain_all; [plain_solve|done]).
  destruct Hm as (Hm0 & Lm & _), Hc as (Hc0 & Lc & _). unfold capi_mode, scan_until.
  rewrite conv_set_all by (done || lia). cbn [mbind option_bind]. rewrite after_app. cbn [mbind option_bind].
  rewrite conv_set_all; [done|done|lia|done|by destruct close].
Qed.

Lemma capi_mode_none c : name_ok c -> capi_mode c = None.
Proof.
  intros Hc. assert (all_chars (is_not "("%char) c = true) as Ac by (eapply plain_all; [plain_solve|done]).
  destruct Hc as (Hc0 & Lc & _). unfold capi_mode. rewrite <-(append_empty_r c). rewrite conv_set_all by (done || lia). done.
Qed.

Lemma capi_open_short sp : spec_ok sp -> (String.length (capi_open sp ++ capi_close sp) <= 64)%nat.
Proof.
  intros [(_ & L & _) _ Hm _ _]. unfold capi_open, capi_close. destruct (sp_mode sp) as [m|]; rewrite !string_app_length; cbn; [|lia].
  destruct (Hm m eq_refl) as [(_ & Lm & _) _]. lia.
Qed.

(** With or without the parenthesis the specification comes back. *)
Lemma capi_mode_spec sp (close : bool) :
  spec_ok sp ->
  cut (CAPIL * 2) (match capi_mode (capi_open sp ++ if close then capi_close sp else "") with
                   | Some (mode, cipher) => cipher ++ "-" ++ mode ++ "-" ++ sp_iv sp
                   | None => (capi_open sp ++ if close then capi_close sp else "") ++ "-" ++ sp_iv sp
                   end) = spec_string sp.
Proof.
  intros H. pose proof H as [Hc _ Hm (_ & Li & _) _]. unfold spec_string, capi_open, capi_close.
  destruct (sp_mode sp) as [m|] eqn:E.
  - destruct (Hm m eq_refl) as [Hm' _]. rewrite string_app_assoc, string_app_assoc, capi_mode_open by done.
    apply cut_fits. unfold strlen, CAPIL. destruct Hc as (_ & Lc & _), Hm' as (_ & Lm & _). rewrite !string_app_length. cbn. lia.
  - assert ((if close then "" else "") = "") as -> by by destruct close. rewrite append_empty_r, capi_mode_none by done.
    apply cut_fits. unfold strlen, CAPIL. destruct Hc as (_ & Lc & _). rewrite !string_app_length. cbn. lia.
Qed.

Lemma after_some p s r : after p s = Some r -> s = p ++ r.
Proof.
  unfold after. destruct (String.prefix p s) eqn:E; [|done]. intros [= <-]. revert s E. induction p as [|x p IH]; intros s E.
  - cbn. rewrite Nat.sub_0_r. symmetry. by apply substring_full.
  - destruct s as [|y s]; [done|]. cbn in E. destruct (ascii_dec x y) as [->|]; [|done]. rewrite string_append. f_equal. by apply IH.
Qed.

Lemma span_max_app n p s a rest : span_max n p s = (a, rest) -> s = a ++ rest.
Proof.
  revert s a rest. induction n as [|n IH]; intros [|c s] a rest; cbn; try (by intros [= <- <-]).
  destruct (p c); [|by intros [= <- <-]]. destruct (span_max n p s) as [a' r'] eqn:E. intros [= <- <-].
  rewrite string_append. f_equal. by apply IH.
Qed.

Lemma conv_set_app n p s a rest : conv_set n p s = Some (a, rest) -> s = a ++ rest.
Proof.
  unfold conv_set. destruct (span_max n p s) as [a' r'] eqn:E. apply span_max_app in E. destruct a'; [done|]. by intros [= <- <-].
Qed.

Definition no_comma (s : string) : Prop := all_chars (is_not ","%char) s = true.

Lemma scan_pair_no_comma p n m s : no_comma s -> scan_pair p n m s = None.
Proof.
  unfold no_comma, scan_pair, scan_until, scan_word. intros H. destruct (after p s) as [r|] eqn:E; [|done]. cbn [mbind option_bind].
  apply after_some in E as ->. destruct (conv_set n _ r) as [[a rest]|] eqn:E; [|done]. cbn [mbind option_bind].
  apply conv_set_app in E as ->. destruct (after "," rest) as [r'|] eqn:E; [|done].
  apply after_some in E as ->. rewrite !all_chars_app in H. cbn in H. by rewrite !andb_false_r in H.
Qed.

Definition no_paren (s : string) : Prop := all_chars (is_not "("%char) s = true.

Lemma after_paren w m c r : no_paren w -> no_paren m -> after (w ++ "(") (m ++ "(" ++ c) = Some r -> w = m.
Proof.
  unfold no_paren. intros Hw Hm H%after_some. revert m Hm H. induction w as [|x w IH]; intros [|y m] Hm H; try done.
  - rewrite !string_append, !empty_append, !string_append in H. injection H as Hy _. subst y. discriminate Hm.
  - rewrite !string_append, !empty_append in H. injection H as Hy _. subst x. discriminate Hw.
  - rewrite !string_append in H. injection H as <- H. cbn in Hw, Hm. apply andb_true_iff in Hw as [_ Hw], Hm as [_ Hm]. f_equal. by apply IH.
Qed.

Lemma after_paren_none w c : no_paren c -> after (w ++ "(") c = None.
Proof.
  intros H. destruct (after _ c) as [r|] eqn:E; [|done]. apply after_some in E as ->. unfold no_paren in H.
  rewrite !all_chars_app in H. cbn in H. by rewrite !andb_false_r in H.
Qed.

Lemma no_paren_name s : name_ok s -> no_paren s.
Proof. intros. eapply plain_all; [plain_solve|done]. Qed.
Lemma no_comma_name s : name_ok s -> no_comma s.
Proof. intros. eapply plain_all; [plain_solve|done]. Qed.

Lemma no_comma_open sp : spec_ok sp -> no_comma (capi_open sp).
Proof.
  intros [Hc _ Hm _ _]. unfold capi_open. destruct (sp_mode sp) as [m|]; [|by apply no_comma_name].
  unfold no_comma. rewrite !all_chars_app. destruct (Hm m eq_refl) as [H _].
  by rewrite (no_comma_name m H), (no_comma_name _ Hc).
Qed.

Lemma no_comma_capi sp : spec_ok sp -> no_comma (capi_open sp ++ capi_close sp).
Proof.
  intros H. unfold no_comma. rewrite all_chars_app, (no_comma_open sp H). unfold capi_close. by destruct (sp_mode sp).
Qed.

Lemma capi_of_open sp i_dm : spec_ok sp -> capi_of (capi_open sp) i_dm = (capi_open sp, i_dm).
Proof.
  intros H. unfold capi_of. assert (scan_word "rfc4309(" 143 (capi_open sp) = None) as ->.
  { unfold scan_word. assert (after "rfc4309(" (capi_open sp) = None) as ->; [|done]. pose proof H as [Hc _ Hm _ _].
    unfold capi_open. destruct (sp_mode sp) as [m|].
    - destruct (Hm m eq_refl) as [Hm' Hne]. destruct (after _ _) as [r|] eqn:E; [|done].
      apply (after_paren "rfc4309") in E; [by subst|done|by apply no_paren_name].
    - apply (after_paren_none "rfc4309"). by apply no_paren_name. }
  rewrite !scan_pair_no_comma by by apply no_comma_open. rewrite substring_full; [done|].
  pose proof (capi_open_short sp H) as L. rewrite string_app_length in L. lia.
Qed.

Lemma nospace_capi sp : spec_ok sp -> nospace (capi_open sp ++ capi_close sp).
Proof.
  intros [Hc _ Hm _ _]. unfold capi_open, capi_close, nospace. destruct (sp_mode sp) as [m|]; rewrite !all_chars_app.
  - destruct (Hm m eq_refl) as [H _]. by rewrite (nospace_plain m H), (nospace_plain _ Hc).
  - by rewrite (nospace_plain _ Hc).
Qed.

Lemma not_dash_capi sp : spec_ok sp -> all_chars not_dash (capi_open sp ++ capi_close sp) = true.
Proof.
  intros [Hc _ Hm _ _]. unfold capi_open, capi_close.
  assert (forall s, name_ok s -> all_chars not_dash s = true) as D by (intros; eapply plain_all; [plain_solve|done]).
  destruct (sp_mode sp) as [m|]; rewrite !all_chars_app.
  - destruct (Hm m eq_refl) as [H _]. by rewrite (D m H), (D _ Hc).
  - by rewrite (D _ Hc).
Qed.

Lemma capi_nonempty sp : spec_ok sp -> capi_open sp ++ capi_close sp <> "".
Proof.
  intros [(Hc & _) _ Hm _ _]. unfold capi_open. destruct (sp_mode sp) as [m|]; rewrite ?string_app_assoc; apply string_empty_dec.
  - by destruct (Hm m eq_refl) as [(? & _) _].
  - done.
Qed.

Lemma capi_of_ccm capi i_dm :
  capi <> "" -> (String.length capi <= 143)%nat -> nospace capi -> capi_of ("rfc4309(" ++ capi) i_dm = (capi, Some "aead").
Proof.
  intros H L S. unfold capi_of, scan_word. rewrite after_app. cbn [mbind option_bind]. rewrite skip_space_none by done.
  rewrite <-(append_empty_r capi) at 1. by rewrite conv_set_all.
Qed.

Lemma scan_pair_app p n m a b :
  a <> "" -> (String.length a <= n)%nat -> no_comma a -> b <> "" -> (String.length b <= m)%nat -> nospace b ->
  scan_pair p n m (p ++ a ++ "," ++ b) = Some (a, b).
Proof.
  intros Ha La Ca Hb Lb Sb. unfold scan_pair, scan_until, scan_word. rewrite after_app. cbn [mbind option_bind].
  rewrite conv_set_all by done. cbn [mbind option_bind]. rewrite after_app. cbn [mbind option_bind].
  rewrite skip_space_none by done. rewrite <-(append_empty_r b) at 1. by rewrite conv_set_all.
Qed.

Lemma capi_of_poly capi i_dm :
  capi <> "" -> (String.length capi <= 143)%nat -> no_comma capi ->
  capi_of ("rfc7539(" ++ capi ++ ",poly1305") i_dm = (capi, Some "poly1305").
Proof.
  intros H L C. unfold capi_of. assert (scan_word "rfc4309(" 143 ("rfc7539(" ++ capi ++ ",poly1305") = None) as -> by done.
  change (capi ++ ",poly1305") with (capi ++ "," ++ "poly1305"). by rewrite scan_pair_app by (done || (cbn; lia)).
Qed.

Lemma capi_of_authenc auth capi i_dm :
  auth <> "" -> (String.length auth <= 63)%nat -> no_comma auth -> capi <> "" -> (String.length capi <= 143)%nat -> nospace capi ->
  capi_of ("authenc(" ++ auth ++ "," ++ capi) i_dm = (capi, Some auth).
Proof.
  intros Ha La Ca H L S. unfold capi_of.
  assert (scan_word "rfc4309(" 143 ("authenc(" ++ auth ++ "," ++ capi) = None) as -> by done.
  assert (scan_pair "rfc7539(" 143 63 ("authenc(" ++ auth ++ "," ++ capi) = None) as -> by done.
  by rewrite scan_pair_app.
Qed.

(** *** The round trip

    What dm-crypt calls the integrity: "none", or "aead" for the rest. *)
Definition integrity_what (i : string) : string := if (i =? "none")%string then "none" else "aead".

Definition integrity_ok (i : string) : Prop := i = "none" \/ i = "aead" \/ i = "poly1305" \/ auth_ok i.

(** The kernel's form around the crypto API's name. *)
Definition capi_wrap (mode i capi : string) : string :=
  if (i =? "none")%string then capi
  else if (i =? "aead")%string then if (mode =? "ccm")%string then "rfc4309(" ++ capi ++ ")" else capi
  else if (i =? "poly1305")%string then "rfc7539(" ++ capi ++ ",poly1305)"
  else "authenc(" ++ i ++ "," ++ capi ++ ")".

Lemma cipher_c2dm_wrap sp i tag :
  spec_ok sp -> integrity_ok i ->
  cipher_c2dm (spec_string sp) (Some i) tag 256 =
    inr ("capi:" ++ capi_wrap (default "" (sp_mode sp)) i (capi_open sp ++ capi_close sp) ++ "-" ++ sp_iv sp,
         " integrity:" ++ dec_u32 tag ++ ":" ++ integrity_what i).
Proof.
  intros H Hi. unfold cipher_c2dm. rewrite capi_parts_spec by done.
  set (capi := capi_open sp ++ capi_close sp). set (mode := default "" (sp_mode sp)).
  assert (strlen capi <= 64) as Lc by (pose proof (capi_open_short sp H); unfold strlen, capi; lia).
  assert (strlen (sp_iv sp) <= 31) as Li by (destruct H as [_ _ _ (_ & ? & _) _]; unfold strlen; lia).
  assert (strlen i <= 40) as La.
  { unfold strlen. destruct Hi as [->|[->|[->|(_ & ? & _)]]]; cbn; lia. }
  assert (strlen (dec_u32 tag) <= 20) as Ld by apply dec_u_short.
  assert (forall c what : string, strlen c <= 170 -> strlen what <= 10 ->
    (if (strlen c =? 256) || (strlen (" integrity:" ++ dec_u32 tag ++ ":" ++ what) =? 256) then inl (- EINVAL)
     else inr (cut 256 c, cut 256 (" integrity:" ++ dec_u32 tag ++ ":" ++ what))) =
    (inr (c, " integrity:" ++ dec_u32 tag ++ ":" ++ what) : Z + string * string)) as Hfit.
  { intros c what Hc Hw. rewrite !strlen_app. change (strlen " integrity:") with 11. change (strlen ":") with 1.
    rewrite !(proj2 (Z.eqb_neq _ _)) by lia. cbn [orb]. rewrite !cut_fits; [done| |lia].
    rewrite !strlen_app. change (strlen " integrity:") with 11. change (strlen ":") with 1. lia. }
  unfold capi_wrap, integrity_what.
  destruct (i =? "none")%string eqn:E1; [|destruct (i =? "aead")%string eqn:E2; [destruct (mode =? "ccm")%string eqn:E3|
    destruct (i =? "poly1305")%string eqn:E4]]; cbn [andb]; rewrite Hfit; rewrite ?string_app_assoc; try done;
    rewrite !strlen_app; unfold strlen at 1; cbn [String.length]; unfold strlen in *; cbn [String.length]; lia.
Qed.

Lemma capi_wrap_short sp i :
  spec_ok sp -> integrity_ok i ->
  (2 <= String.length (capi_wrap (default "" (sp_mode sp)) i (capi_open sp ++ capi_close sp)) <= 143)%nat.
Proof.
  intros H Hi. pose proof (capi_open_short sp H) as Lc.
  assert (2 <= String.length (capi_open sp ++ capi_close sp))%nat as L2.
  { destruct H as [_ L _ _ _]. rewrite string_app_length. unfold capi_open. destruct (sp_mode sp); rewrite ?string_app_length; lia. }
  assert (String.length i <= 40)%nat as La by (destruct Hi as [->|[->|[->|(_ & ? & _)]]]; cbn; lia).
  unfold capi_wrap. destruct (i =? "none")%string; [lia|]. destruct (i =? "aead")%string; [destruct (_ =? "ccm")%string|];
    [rewrite !string_app_length; cbn [String.length]; rewrite string_app_length in *; lia|lia|].
  destruct (i =? "poly1305")%string; rewrite !string_app_length in *; cbn [String.length]; lia.
Qed.

Lemma integrity_chars (q : ascii -> bool) i :
  integrity_ok i -> (forall c, not_space c && not_dash c && is_not ","%char c = true -> q c = true) -> all_chars q i = true.
Proof.
  intros [->|[->|[->|(_ & _ & H)]]] Hq; 
    (eapply (all_chars_mono (fun c => not_space c && not_dash c && is_not ","%char c)); [exact Hq|exact H || reflexivity]).
Qed.

Lemma capi_wrap_chars (q : ascii -> bool) mode i capi :
  integrity_ok i -> (forall c, not_space c && not_dash c && is_not ","%char c = true -> q c = true) ->
  q ","%char = true -> all_chars q capi = true -> all_chars q (capi_wrap mode i capi) = true.
Proof.
  intros Hi Hq Qc Hc. pose proof (integrity_chars q i Hi Hq) as Qi.
  assert (all_chars q "rfc4309(" = true /\ all_chars q "rfc7539(" = true /\ all_chars q "authenc(" = true /\
          all_chars q "poly1305" = true /\ all_chars q ")" = true /\ all_chars q "," = true) as (A & B & C & D & E & F).
  { repeat split; try (eapply (all_chars_mono (fun c => not_space c && not_dash c && is_not ","%char c)); [exact Hq|reflexivity]).
    cbn. by rewrite Qc. }
  unfold capi_wrap. destruct (i =? "none")%string; [done|]. destruct (i =? "aead")%string; [destruct (_ =? "ccm")%string; [|done]|].
  - by rewrite !all_chars_app, A, Hc, E.
  - destruct (i =? "poly1305")%string.
    + change ",poly1305)" with ("," ++ "poly1305" ++ ")"). by rewrite !all_chars_app, B, Hc, F, D, E.
    + by rewrite !all_chars_app, C, Qi, F, Hc, E.
Qed.

Lemma capi_of_wrap sp i :
  spec_ok sp -> integrity_ok i ->
  exists close : bool,
    capi_of (drop_close (capi_wrap (default "" (sp_mode sp)) i (capi_open sp ++ capi_close sp))) (Some (integrity_what i)) =
      (capi_open sp ++ (if close then capi_close sp else ""), Some i).
Proof.
  intros H Hi. pose proof (capi_open_short sp H) as L. pose proof (capi_nonempty sp H) as N. pose proof (nospace_capi sp H) as S.
  pose proof (no_comma_capi sp H) as C. unfold capi_wrap, integrity_what. destruct (String.eqb_spec i "none") as [->|N1].
  - exists false. by rewrite drop_close_capi, append_empty_r, capi_of_open.
  - destruct (String.eqb_spec i "aead") as [->|N2]; [destruct (_ =? "ccm")%string|].
    + exists true. set (capi := capi_open sp ++ capi_close sp) in *. rewrite <-string_app_assoc, drop_close_drops. apply capi_of_ccm; [done|lia|done].
    + exists false. by rewrite drop_close_capi, append_empty_r, capi_of_open.
    + exists true. set (capi := capi_open sp ++ capi_close sp) in *. destruct (String.eqb_spec i "poly1305") as [->|N3].
      * change ",poly1305)" with (",poly1305" ++ ")"). rewrite <-!string_app_assoc, drop_close_drops, !string_app_assoc.
        apply capi_of_poly; [done|lia|done].
      * destruct Hi as [?|[?|[?|(Ia & Ib & Ic)]]]; [done..|]. rewrite <-!string_app_assoc, drop_close_drops, !string_app_assoc.
        apply capi_of_authenc; [done|lia| |done|lia|done]. unfold no_comma. eapply all_chars_mono; [|exact Ic].
        intros c. rewrite !andb_true_iff. tauto.
Qed.

(** A specification printed for dm-crypt is read back. *)
Lemma cipher_roundtrip sp i tag :
  spec_ok sp -> integrity_ok i ->
  exists c_dm,
    cipher_c2dm (spec_string sp) (Some i) tag 256 = inr (c_dm, " integrity:" ++ dec_u32 tag ++ ":" ++ integrity_what i) /\
    cipher_dm2c c_dm (Some (integrity_what i)) = inr (spec_string sp, Some i) /\
    c_dm <> "" /\ nospace c_dm.
Proof.
  intros H Hi. eexists. split; [by apply cipher_c2dm_wrap|]. pose proof (capi_wrap_short sp i H Hi) as L.
  pose proof H as [_ _ _ (I0 & Li & Si) _].
  assert (forall c, not_space c && not_dash c && is_not ","%char c = true -> not_space c = true) as Q1 by (intros c; rewrite !andb_true_iff; tauto).
  assert (forall c, not_space c && not_dash c && is_not ","%char c = true -> not_dash c = true) as Q2 by (intros c; rewrite !andb_true_iff; tauto).
  split; [|split].
  - rewrite cipher_dm2c_capi; [|done| |done|lia|done].
    + destruct (capi_of_wrap sp i H Hi) as [close E]. rewrite E. f_equal. f_equal. by apply capi_mode_spec.
    + apply capi_wrap_chars; [done..|]. by apply not_dash_capi.
  - done.
  - rewrite !nospace_app. repeat split; [|done]. apply capi_wrap_chars; [done..|]. by apply nospace_capi.
Qed.

(** Without integrity the specification is left alone. *)
Lemma cipher_roundtrip_legacy sp :
  spec_ok sp -> String.prefix "capi" (spec_string sp) = false -> forall tag,
    cipher_c2dm (spec_string sp) None tag 256 = inr (spec_string sp, "") /\
    cipher_dm2c (spec_string sp) None = inr (spec_string sp, None) /\
    spec_string sp <> "" /\ nospace (spec_string sp).
Proof.
  intros H Hp tag. pose proof H as [Hc _ Hm (I0 & Li & Si) _]. pose proof (nospace_plain _ Hc) as Sc.
  assert (strlen (spec_string sp) < 256) as Hl.
  { unfold strlen, spec_string. destruct Hc as (_ & Lc & _). destruct (sp_mode sp) as [m|]; rewrite !string_app_length; cbn; [|lia].
    destruct (Hm m eq_refl) as [(_ & Lm & _) _]. lia. }
  unfold cipher_c2dm, cipher_dm2c. rewrite capi_parts_spec, Hp by done. cbn [negb]. rewrite !(proj2 (Z.eqb_neq _ _)) by (cbn; lia).
  cbn [orb]. rewrite cut_fits by done. repeat split; try done.
  - unfold spec_string. apply string_empty_dec. by destruct Hc.
  - unfold spec_string. rewrite !nospace_app. repeat split; [done|]. destruct (sp_mode sp) as [m|]; [|done].
    rewrite !nospace_app. repeat split; [|done]. apply nospace_plain. by destruct (Hm m eq_refl).
Qed.

(** A number below 10^k has at most [k] digits. *)
Lemma dec_aux_digits fuel k z acc : 0 <= z < 10 ^ (Z.of_nat k + 1) -> strlen (dec_aux fuel z acc) <= Z.of_nat k + 1 + strlen acc.
Proof.
  unfold strlen. revert k z acc. induction fuel as [|fuel IH]; intros k z acc Hz; cbn [dec_aux]; [lia|].
  destruct (Z.ltb_spec z 10); [cbn [String.length]; lia|]. destruct k as [|k]; [cbn in Hz; lia|].
  specialize (IH k (z / 10) (String (digit_char (z mod 10)) acc)). cbn [String.length] in IH.
  assert (0 <= z / 10 < 10 ^ (Z.of_nat k + 1)); [|lia]. split; [apply Z.div_pos; lia|]. apply Z.div_lt_upper_bound; [lia|].
  rewrite <-Z.pow_succ_r by lia. replace (Z.succ (Z.of_nat k + 1)) with (Z.of_nat (S k) + 1) by lia. lia.
Qed.

Lemma dec_u32_short z : strlen (dec_u32 z) <= 10.
Proof.
  unfold dec_u32, dec_u. pose proof (dec_aux_digits 20 9 (u32 z) "") as H. change (Z.of_nat 9 + 1) with 10 in H.
  change (strlen "") with 0 in H. pose proof (Z.mod_pos_bound z (2 ^ 32) ltac:(lia)). unfold u32, wrap in *. lia.
Qed.

Lemma log10_acc fuel x r : log10_aux fuel x r = log10_aux fuel x 0 + r.
Proof.
  revert x r. induction fuel as [|fuel IH]; intros x r; [done|]. cbn [log10_aux]. destruct (0 <? x); [|done].
  rewrite (IH _ (r + 1)), (IH _ (0 + 1)). lia.
Qed.

(** [int_log10] counts the digits but one. *)
Lemma dec_aux_log10 fuel z acc : 0 <= z < 10 ^ Z.of_nat fuel -> (0 < fuel)%nat ->
  strlen (dec_aux fuel z acc) = log10_aux fuel (z / 10) 0 + 1 + strlen acc.
Proof.
  unfold strlen. revert z acc. induction fuel as [|fuel IH]; intros z acc Hz Hf; [lia|]. cbn [dec_aux log10_aux].
  destruct (Z.ltb_spec z 10).
  - rewrite Z.div_small by lia. cbn [Z.ltb Z.compare String.length]. lia.
  - rewrite (proj2 (Z.ltb_lt _ _)) by (pose proof (Z.div_str_pos z 10); lia).
    destruct fuel as [|fuel]; [cbn in Hz; lia|]. rewrite IH; [|split; [apply Z.div_pos; lia|]|lia].
    + rewrite (log10_acc _ _ (0 + 1)). cbn [String.length]. lia.
    + apply Z.div_lt_upper_bound; [lia|]. rewrite <-Z.pow_succ_r by lia. replace (Z.succ (Z.of_nat (S fuel))) with (Z.of_nat (S (S fuel))) by lia. lia.
Qed.

Lemma dec_u_log10 z : in_u 64 z -> strlen (dec_u z) = int_log10 z + 1.
Proof.
  unfold in_u, dec_u, int_log10. intros Hz. rewrite dec_aux_log10; [change (strlen "") with 0; lia| |lia].
  change (10 ^ Z.of_nat 20) with 100000000000000000000. lia.
Qed.

(** ** Keys *)

Lemma hex_char_plain d : 0 <= d < 16 -> not_space (hex_char d) = true /\ is_not ":"%char (hex_char d) = true.
Proof.
  intros H. assert (forallb (fun d => not_space (hex_char d) && is_not ":"%char (hex_char d)) (map Z.of_nat (seq 0 16)) = true) as A by done.
  rewrite forallb_forall in A. specialize (A d). rewrite andb_true_iff in A. apply A. apply in_map_iff. exists (Z.to_nat d).
  split; [lia|]. apply in_seq. lia.
Qed.

Lemma hex_key_plain b : nospace (hex_key b) /\ all_chars (is_not ":"%char) (hex_key b) = true.
Proof.
  unfold nospace. induction b as [|c b [IH1 IH2]]; [done|]. cbn [hex_key all_chars]. pose proof (byte_val_range c) as R.
  assert (0 <= byte_val c / 16 < 16) as H1 by (split; [apply Z.div_pos; lia|apply Z.div_lt_upper_bound; lia]).
  pose proof (Z.mod_pos_bound (byte_val c) 16 ltac:(lia)) as H2.
  destruct (hex_char_plain _ H1) as [-> ->], (hex_char_plain _ H2) as [-> ->]. by rewrite IH1, IH2.
Qed.
