(* ===== verification/DmProps.v ===== *)
(** * DmProps: properties of the device-mapper interface

    The line that [get_dm_crypt_params] writes is read back by the query as
    the target it came from; every query ends; and what a forced removal does. *)

From S2P Require Import Prelude Cstd UtilsCrypt VerityHash DmTable DmQuery DmFacts Pbkdf.
From Stdlib Require Import Ascii.

Local Open Scope string_scope.
Local Open Scope Z_scope.

(** ** Words of a line *)

Definition words_string (ws : list string) : string := foldr (fun w s => " " ++ w ++ s) "" ws.

(** The pointer behind the first word. *)
Definition words_rest (ws : list string) : option string :=
  match ws with [] => None | w :: ws => Some (w ++ words_string ws) end.

Lemma words_string_app a b : words_string (a ++ b)%list = words_string a ++ words_string b.
Proof.
  induction a as [|w a IH]; [done|]. change (words_string ((w :: a) ++ b)%list) with (" " ++ w ++ words_string (a ++ b)%list).
  rewrite IH. by rewrite <-!string_app_assoc.
Qed.

Lemma strsep_words w ws : nospace w -> strsep (Some (w ++ words_string ws)) = (Some w, words_rest ws).
Proof.
  intros H. destruct ws as [|w' ws]; [rewrite append_empty_r; by apply strsep_last|]. by apply strsep_word.
Qed.

Lemma words_string_length ws : (length ws <= String.length (words_string ws))%nat.
Proof.
  induction ws as [|w ws IH]; [done|]. cbn [words_string foldr length]. rewrite !string_app_length. cbn [String.length].
  unfold words_string in IH. lia.
Qed.

(** A loop whose steps leave the rest of the line alone goes over all words. *)
Lemma features_loop_words {S} (step : string -> option string -> S -> outcome (S * option string * Z)) (eff : S -> string -> S)
    ws n i st (fuel : nat) :
  (forall w params st, w ∈ ws -> step w params st = Ok (eff st w, params, 0)) ->
  Forall nospace ws -> n = i + zlen ws -> 0 <= i -> n < 2 ^ 32 -> (length ws <= fuel)%nat ->
  features_loop step fuel n i (words_rest ws) st = Ok (foldl eff st ws, None).
Proof.
  revert n i st fuel. induction ws as [|w ws IH]; intros n i st fuel Hs Hw Hn Hi Hb Hf.
  - assert (features_loop step fuel n i (words_rest []) st = Ok (st, None)) as ->; [|done].
    destruct fuel; cbn [features_loop]; unfold zlen in Hn; cbn in Hn; by rewrite (proj2 (Z.ltb_ge _ _)) by lia.
  - inversion_clear Hw as [|? ? Hw1 Hw2]. unfold zlen in Hn. cbn [length] in Hn, Hf.
    destruct fuel as [|fuel]; [lia|]. cbn [features_loop]. rewrite (proj2 (Z.ltb_lt _ _)) by lia. cbn [negb words_rest].
    rewrite strsep_words by done. cbn [strsep]. rewrite Hs by apply list_elem_of_here. cbn [mbind outcome_bind foldl].
    replace (u32 (i + 1 + 0)) with (i + 1) by (symmetry; rewrite Z.add_0_r; apply wrap_id; unfold in_u; lia).
    apply IH; try done; try lia; [|unfold zlen; lia]. intros w' params st' Hin. apply Hs. by apply list_elem_of_further.
Qed.

(** ** Features of dm-crypt *)

Definition flag_table : list (Z * string) := [
  (CRYPT_ACTIVATE_ALLOW_DISCARDS, "allow_discards"); (CRYPT_ACTIVATE_SAME_CPU_CRYPT, "same_cpu_crypt");
  (CRYPT_ACTIVATE_SUBMIT_FROM_CRYPT_CPUS, "submit_from_crypt_cpus"); (CRYPT_ACTIVATE_NO_READ_WORKQUEUE, "no_read_workqueue");
  (CRYPT_ACTIVATE_NO_WRITE_WORKQUEUE, "no_write_workqueue"); (CRYPT_ACTIVATE_IV_LARGE_SECTORS, "iv_large_sectors") ].

Definition flag_words (flags : Z) : list string :=
  omap (fun row => if has_flag flags row.1 then Some row.2 else None) flag_table.

Definition sector_word (t : crypt_target) : list string :=
  if ct_sector_size t =? SECTOR_512 then [] else ["sector_size:" ++ dec_u32 (ct_sector_size t)].

Definition integrity_word (t : crypt_target) : list string :=
  match ct_integrity t with
  | None => []
  | Some i => ["integrity:" ++ dec_u32 (ct_tag_size t) ++ ":" ++ integrity_what i]
  end.

Definition crypt_word_list (t : crypt_target) (flags : Z) : list string := flag_words flags ++ sector_word t ++ integrity_word t.

Lemma flag_words_string flags :
  words_string (flag_words flags) =
    flag_word flags CRYPT_ACTIVATE_ALLOW_DISCARDS "allow_discards" ++
    flag_word flags CRYPT_ACTIVATE_SAME_CPU_CRYPT "same_cpu_crypt" ++
    flag_word flags CRYPT_ACTIVATE_SUBMIT_FROM_CRYPT_CPUS "submit_from_crypt_cpus" ++
    flag_word flags CRYPT_ACTIVATE_NO_READ_WORKQUEUE "no_read_workqueue" ++
    flag_word flags CRYPT_ACTIVATE_NO_WRITE_WORKQUEUE "no_write_workqueue" ++
    flag_word flags CRYPT_ACTIVATE_IV_LARGE_SECTORS "iv_large_sectors" /\
  zlen (flag_words flags) = count_flags flags crypt_options /\ strlen (words_string (flag_words flags)) <= 120 /\
  zlen (flag_words flags) <= 6.
Proof.
  unfold flag_words, flag_word, count_flags, crypt_options, flag_table.
  cbn [omap list_omap fst snd]. rewrite !filter_cons, filter_nil.
  destruct (has_flag flags CRYPT_ACTIVATE_ALLOW_DISCARDS), (has_flag flags CRYPT_ACTIVATE_SAME_CPU_CRYPT),
    (has_flag flags CRYPT_ACTIVATE_SUBMIT_FROM_CRYPT_CPUS), (has_flag flags CRYPT_ACTIVATE_NO_READ_WORKQUEUE),
    (has_flag flags CRYPT_ACTIVATE_NO_WRITE_WORKQUEUE), (has_flag flags CRYPT_ACTIVATE_IV_LARGE_SECTORS);
    (split; [reflexivity|split; [reflexivity|split; vm_compute; congruence]]).
Qed.

Lemma flag_words_nospace flags : Forall nospace (flag_words flags).
Proof.
  unfold flag_words. apply Forall_forall. intros w (row & Hrow & Hw)%list_elem_of_omap.
  destruct (has_flag flags row.1); [|done]. injection Hw as <-.
  assert (Forall (fun row : Z * string => nospace row.2) flag_table) as A by repeat constructor.
  by apply (proj1 (Forall_forall _ _) A).
Qed.

Lemma u32_nonneg z : 0 <= u32 z.
Proof. unfold u32, wrap. pose proof (Z.mod_pos_bound z (2 ^ 32) ltac:(lia)). lia. Qed.

Lemma word_list_nospace t flags : Forall nospace (crypt_word_list t flags).
Proof.
  unfold crypt_word_list, sector_word, integrity_word. rewrite !Forall_app. split; [apply flag_words_nospace|]. split.
  - destruct (_ =? _); [done|]. repeat constructor. apply nospace_app. split; [done|]. apply dec_u_nospace, u32_nonneg.
  - destruct (ct_integrity t) as [i|]; [|done]. repeat constructor. rewrite !nospace_app. repeat split.
    + apply dec_u_nospace, u32_nonneg.
    + unfold integrity_what. by destruct (_ =? _)%string.
Qed.

(** The features are the number of words and the words. *)
Lemma crypt_features_words t flags integrity_dm :
  integrity_dm = words_string (integrity_word t) ->
  crypt_features t flags integrity_dm =
    match crypt_word_list t flags with
    | [] => ""
    | _ => " " ++ dec_u (zlen (crypt_word_list t flags)) ++ words_string (crypt_word_list t flags)
    end /\ zlen (crypt_word_list t flags) <= 8 /\ strlen (words_string (crypt_word_list t flags)) < 300.
Proof.
  intros ->. destruct (flag_words_string flags) as (Hs & Hn & Hl & H6). unfold crypt_features.
  set (n := count_flags flags crypt_options + _ + _).
  assert (n = zlen (crypt_word_list t flags) /\ zlen (sector_word t) <= 1 /\ zlen (integrity_word t) <= 1) as (En & L1 & L2).
  { unfold n, crypt_word_list. rewrite <-Hn. unfold zlen. rewrite !length_app. unfold sector_word, integrity_word.
    destruct (_ =? _), (ct_integrity t); cbn; lia. }
  assert (strlen (words_string (sector_word t)) <= 40 /\ strlen (words_string (integrity_word t)) <= 60) as [S1 S2].
  { unfold sector_word, integrity_word, integrity_what, dec_u32. pose proof (dec_u_short (u32 (ct_sector_size t))).
    pose proof (dec_u_short (u32 (ct_tag_size t))).
    split; [destruct (_ =? _)|destruct (ct_integrity t) as [i|]; [destruct (i =? _)%string|]]; cbn [words_string foldr];
      rewrite ?strlen_app; unfold strlen in *; cbn [String.length]; lia. }
  assert (strlen (words_string (crypt_word_list t flags)) < 300) as Hlen.
  { unfold crypt_word_list. rewrite !words_string_app, !strlen_app. lia. }
  assert (zlen (crypt_word_list t flags) <= 8) as H8.
  { unfold crypt_word_list, zlen in *. rewrite !length_app. lia. }
  split; [|done]. rewrite En. destruct (crypt_word_list t flags) as [|w ws] eqn:E; [done|].
  rewrite (proj2 (Z.eqb_neq _ _)) by (unfold zlen; cbn [length]; lia).
  assert (dec_i32 (zlen (w :: ws)) = dec_u (zlen (w :: ws))) as ->.
  { unfold dec_i32. unfold zlen in *. rewrite i32_id by lia. by rewrite (proj2 (Z.ltb_ge _ _)) by lia. }
  rewrite <-E. unfold crypt_word_list. rewrite !words_string_app, Hs, !string_app_assoc.
  assert ((if negb (ct_sector_size t =? SECTOR_512) then cut 32 (" sector_size:" ++ dec_u32 (ct_sector_size t)) else "") =
          words_string (sector_word t)) as ->.
  { unfold sector_word. destruct (_ =? _); [done|]. cbn [negb words_string foldr]. rewrite append_empty_r. apply cut_fits.
    rewrite !strlen_app. pose proof (dec_u32_short (ct_sector_size t)). change (strlen " ") with 1. change (strlen "sector_size:") with 12. lia. }
  apply cut_fits. pose proof (dec_u_short (zlen (w :: ws))) as Ld. rewrite <-E in Hlen, Ld.
  unfold crypt_word_list in Hlen, Ld. rewrite !words_string_app, Hs, !string_app_assoc in Hlen.
  rewrite (strlen_app " "), (strlen_app (dec_u _)). change (strlen " ") with 1. lia.
Qed.

(** The flags a table carries. *)
Definition crypt_table_mask : Z := foldr Z.lor 0 (map fst flag_table).

Lemma land_bit flags n : 0 <= n -> (if has_flag flags (Z.shiftl 1 n) then Z.shiftl 1 n else 0) = Z.land flags (Z.shiftl 1 n).
Proof.
  intros Hn. unfold has_flag. rewrite Z.shiftl_1_l. assert (Z.land flags (2 ^ n) = if Z.testbit flags n then 2 ^ n else 0) as E.
  { apply Z.bits_inj'. intros k Hk. rewrite Z.land_spec, Z.pow2_bits_eqb by done. destruct (Z.eqb_spec n k) as [->|Hne].
    - destruct (Z.testbit flags k); [|by rewrite Z.bits_0]. by rewrite Z.pow2_bits_true.
    - rewrite andb_false_r. destruct (Z.testbit flags n); [by rewrite Z.pow2_bits_false|by rewrite Z.bits_0]. }
  rewrite E. destruct (Z.testbit flags n); [|done]. pose proof (Z.pow_pos_nonneg 2 n ltac:(lia) Hn).
  by rewrite (proj2 (Z.eqb_neq _ _)) by lia.
Qed.

Definition bit_flag (f : Z) : Prop := exists n, 0 <= n /\ f = Z.shiftl 1 n.

Lemma fold_flags flags (l : list Z) acc :
  Forall bit_flag l ->
  foldl (fun acc f => if has_flag flags f then Z.lor acc f else acc) acc l = Z.lor acc (Z.land flags (foldr Z.lor 0 l)).
Proof.
  intros H. revert acc. induction H as [|f l (n & Hn & ->) _ IH]; intros acc; cbn [foldl foldr]; [by rewrite Z.land_0_r, Z.lor_0_r|].
  rewrite IH, Z.land_lor_distr_r, Z.lor_assoc, <-land_bit by done. f_equal. destruct (has_flag _ _); [done|by rewrite Z.lor_0_r].
Qed.

Lemma flag_table_bits : Forall bit_flag (map fst flag_table).
Proof. repeat constructor; (eexists; split; [|reflexivity]; lia). Qed.

Definition word_effect (st : crypt_features_q) (w : string) : crypt_features_q :=
  match crypt_option w None st with Ok (st', _, _) => st' | _ => st end.

Definition set_flags (f : Z) (st : crypt_features_q) : crypt_features_q :=
  CryptFeatures f (cf_tag_size st) (cf_rintegrity st) (cf_sector_size st).

Lemma flag_option row params st :
  row ∈ flag_table ->
  crypt_option row.2 params st = Ok (set_flags (Z.lor (cf_flags st) row.1) st, params, 0).
Proof.
  revert row. apply Forall_forall. repeat constructor.
Qed.

Lemma fold_flag_words flags (table : list (Z * string)) st :
  Forall (fun row => row ∈ flag_table) table ->
  foldl word_effect st (omap (fun row => if has_flag flags row.1 then Some row.2 else None) table) =
    set_flags (foldl (fun acc f => if has_flag flags f then Z.lor acc f else acc) (cf_flags st) (map fst table)) st.
Proof.
  intros H. revert st. induction H as [|row table Hr _ IH]; intros st; [by destruct st|].
  cbn [omap list_omap map foldl]. destruct (has_flag flags row.1) eqn:E.
  - cbn [foldl]. unfold word_effect at 2. rewrite flag_option by done. rewrite IH. done.
  - apply IH.
Qed.

Lemma lowercase_app a b : lowercase (a ++ b) = lowercase a ++ lowercase b.
Proof. induction a as [|c a IH]; [done|]. rewrite string_append. cbn [lowercase]. by rewrite IH. Qed.

Lemma strcaseeq_differs a b c :
  String.prefix (lowercase a) (lowercase c) = false -> strcaseeq (a ++ b) c = false.
Proof.
  intros H. apply bool_decide_eq_false_2. rewrite lowercase_app. intros E. rewrite <-E, prefix_app in H. done.
Qed.

Lemma sector_option z params st :
  crypt_option ("sector_size:" ++ dec_u32 z) params st =
    Ok (CryptFeatures (cf_flags st) (cf_tag_size st) (cf_rintegrity st) (u32 z), params, 0).
Proof.
  unfold crypt_option. rewrite !strcaseeq_differs by done.
  assert (scan_u "integrity:" ("sector_size:" ++ dec_u32 z) = None) as -> by done.
  assert (scan_u "sector_size:" ("sector_size:" ++ dec_u32 z) = Some (u32 z)) as ->; [|done].
  unfold scan_u, dec_u32. rewrite <-(append_empty_r (dec_u (u32 z))), scan_u64_app by (done || apply u32_u64).
  cbn. f_equal. apply u32_id. apply Z.mod_pos_bound. lia.
Qed.

Lemma strchr_digits s rest : all_digits s = true -> strchr (s ++ ":" ++ rest) ":"%char = Some (":" ++ rest).
Proof.
  unfold strchr. induction s as [|c s IH]; [done|]. cbn [all_digits]. intros [Hc Hs]%andb_true_iff. rewrite string_append.
  destruct (Ascii.eqb_spec c ":"%char) as [->|]; [done|]. by apply IH.
Qed.

Lemma integrity_option_word z what params st :
  crypt_option ("integrity:" ++ dec_u32 z ++ ":" ++ what) params st =
    Ok (CryptFeatures (cf_flags st) (u32 z) (Some what) (cf_sector_size st), params, 0).
Proof.
  unfold crypt_option. rewrite !strcaseeq_differs by done. unfold scan_u, dec_u32.
  rewrite scan_u64_app by (done || apply u32_u64). cbn [fmap option_fmap option_map]. rewrite after_app. cbn [mbind option_bind].
  rewrite strchr_digits by (apply all_digits_dec, u32_nonneg). rewrite string_append, empty_append. do 4 f_equal.
  apply u32_id. apply Z.mod_pos_bound. lia.
Qed.

Lemma crypt_option_effect t flags w params st :
  w ∈ crypt_word_list t flags -> crypt_option w params st = Ok (word_effect st w, params, 0).
Proof.
  unfold crypt_word_list, word_effect. rewrite !elem_of_app. intros [(row & Hr & Hw)%list_elem_of_omap|[H|H]].
  - destruct (has_flag flags row.1); [|done]. injection Hw as <-. by rewrite !flag_option.
  - unfold sector_word in H. destruct (_ =? _); [by apply not_elem_of_nil in H|]. apply list_elem_of_singleton in H as ->. by rewrite !sector_option.
  - unfold integrity_word in H. destruct (ct_integrity t) as [i|]; [|by apply not_elem_of_nil in H].
    apply list_elem_of_singleton in H as ->. by rewrite !integrity_option_word.
Qed.

(** What a query finds in the words that were printed for a target. *)
Definition words_state (t : crypt_target) (flags : Z) : crypt_features_q :=
  CryptFeatures (Z.land flags crypt_table_mask) (match ct_integrity t with Some _ => ct_tag_size t | None => 0 end)
    (integrity_what <$> ct_integrity t) (ct_sector_size t).

Lemma words_fold t flags :
  in_u 32 (ct_tag_size t) -> in_u 32 (ct_sector_size t) ->
  foldl word_effect (CryptFeatures 0 0 None SECTOR_512) (crypt_word_list t flags) = words_state t flags.
Proof.
  intros Ht Hs. unfold crypt_word_list. rewrite !foldl_app. unfold flag_words. rewrite fold_flag_words by (apply Forall_forall; done).
  rewrite (fold_flags flags (map fst flag_table)) by apply flag_table_bits. rewrite Z.lor_0_l. unfold words_state, set_flags, crypt_table_mask.
  cbn [cf_tag_size cf_rintegrity cf_sector_size].
  assert (foldl word_effect (CryptFeatures (Z.land flags crypt_table_mask) 0 None SECTOR_512) (sector_word t) =
          CryptFeatures (Z.land flags crypt_table_mask) 0 None (ct_sector_size t)) as E.
  { unfold sector_word. destruct (Z.eqb_spec (ct_sector_size t) SECTOR_512) as [->|]; [done|]. cbn [foldl]. unfold word_effect.
    rewrite sector_option. cbn. f_equal. by apply u32_id. }
  unfold crypt_table_mask in E. rewrite E. unfold integrity_word. destruct (ct_integrity t) as [i|]; [|done].
  cbn [foldl]. unfold word_effect. rewrite integrity_option_word. cbn. f_equal. by apply u32_id.
Qed.

Lemma crypt_words_printed t flags integrity_dm :
  in_u 32 (ct_tag_size t) -> in_u 32 (ct_sector_size t) -> integrity_dm = words_string (integrity_word t) ->
  crypt_words (crypt_features t flags integrity_dm) (CryptFeatures 0 0 None SECTOR_512) = Ok (words_state t flags).
Proof.
  intros Ht Hs Hi. destruct (crypt_features_words t flags integrity_dm Hi) as (-> & H8 & _). rewrite <-words_fold by done.
  pose proof (word_list_nospace t flags) as Hn. pose proof (crypt_option_effect t flags) as He.
  destruct (crypt_word_list t flags) as [|w ws]; [done|]. set (l := w :: ws) in *. unfold crypt_words.
  change ((" " ++ dec_u (zlen l) ++ words_string l =? "")%string) with false. cbv iota. rewrite string_append, empty_append.
  cbn [space mbind outcome_bind]. assert (in_u 64 (zlen l)) as U by (unfold in_u, zlen in *; lia).
  rewrite number_app by done. change (words_string l) with (String " "%char (w ++ words_string ws)). cbn [space mbind outcome_bind].
  change (Some (w ++ words_string ws)) with (words_rest l).
  rewrite (features_loop_words crypt_option word_effect l); [done| |done|lia|lia|unfold zlen in *; lia|].
  - intros w' params st Hin. by apply He.
  - cbn [line_fuel]. pose proof (words_string_length l) as L. change (words_string l) with (String " "%char (w ++ words_string ws)) in L. cbn [String.length] in L.
    eapply Nat.le_trans; [exact L|]. cbn. lia.
Qed.

(** ** Keys *)

(** The key a table can carry: bytes, or the description of a key in the
    kernel, whose bytes stay behind. *)
Definition key_fits (flags : Z) (k : dm_key) : Prop :=
  in_u 64 (keylength k) /\
  if has_flag flags CRYPT_ACTIVATE_KEYRING_KEY
  then key k = zeros (Z.to_nat (keylength k)) /\ exists d, key_description k = Some d /\ nospace d
  else keylength k = zlen (key k) /\ key_description k = None.

Lemma hex_key_no_colon b : String.prefix ":" (hex_key b) = false.
Proof.
  destruct (hex_key_plain b) as [_ H]. destruct (hex_key b) as [|c s]; [done|]. cbn in H. apply andb_true_iff in H as [H _].
  cbn. unfold is_not in H. destruct (ascii_dec ":"%char c) as [<-|]; [done|]. destruct c as [[] [] [] [] [] [] [] []]; try done.
Qed.

Lemma query_key_hex get_flags b :
  has_flag get_flags DM_ACTIVE_CRYPT_KEYSIZE = true -> has_flag get_flags DM_ACTIVE_CRYPT_KEY = true ->
  query_key get_flags (hex_key b) = Ok (Some (DmKey (zlen b) b None)).
Proof.
  intros G1 G2. unfold query_key. rewrite G1, G2. pose proof (hex_key_no_colon b) as Hc.
  assert (strlen (hex_key b) / 2 = zlen b) as El.
  { unfold strlen. rewrite length_hex_key, Z.mul_comm. by apply Z.div_mul. }
  rewrite El, hex_pairs_key. cbn [tested mbind outcome_bind]. unfold after. by rewrite Hc.
Qed.

Lemma query_key_keyring get_flags n d :
  has_flag get_flags DM_ACTIVE_CRYPT_KEYSIZE = true -> has_flag get_flags DM_ACTIVE_CRYPT_KEY = true -> in_u 64 n ->
  query_key get_flags (":" ++ dec_u n ++ ":logon:" ++ d) = Ok (Some (DmKey n (zeros (Z.to_nat n)) (Some d))).
Proof.
  intros G1 G2 Hn. unfold query_key. rewrite G1, G2, after_app.
  assert (scan_u64 "" (dec_u n ++ ":logon:" ++ d) = Some n) as -> by by apply (scan_u64_app "").
  cbn [tested mbind outcome_bind]. change (":logon:" ++ d) with (":" ++ "logon:" ++ d).
  rewrite strchr_digits by (apply all_digits_dec; unfold in_u in Hn; lia). reflexivity.
Qed.

(** The text of a key, and that the query reads it. *)
Lemma key_string_query get_flags flags c k :
  has_flag get_flags DM_ACTIVE_CRYPT_KEYSIZE = true -> has_flag get_flags DM_ACTIVE_CRYPT_KEY = true ->
  crypt_is_cipher_null (Some c) = false -> key_fits flags k ->
  exists s, crypt_key_string c flags (Some k) = Some s /\ query_key get_flags s = Ok (Some k) /\ nospace s /\
    String.prefix ":" s = has_flag flags CRYPT_ACTIVATE_KEYRING_KEY.
Proof.
  intros G1 G2 Hc [Hu Hk]. unfold crypt_key_string. rewrite Hc. cbn [mbind option_bind]. destruct k as [n b o]. cbn [keylength key key_description] in *.
  destruct (has_flag flags CRYPT_ACTIVATE_KEYRING_KEY).
  - destruct Hk as [-> (d & -> & Sd)]. cbn [mbind option_bind].
    rewrite (proj2 (Z.leb_gt _ _)).
    2: { rewrite !strlen_app, dec_u_log10 by done. change (strlen ":") with 1. change (strlen ":logon:") with 7. lia. }
    eexists. split; [done|]. split; [by apply query_key_keyring|]. split; [|apply prefix_app].
    rewrite !nospace_app. split; [done|]. split; [|by split]. apply dec_u_nospace. unfold in_u in Hu. lia.
  - destruct Hk as [-> ->]. eexists. split; [done|]. split; [by apply query_key_hex|]. split; [apply hex_key_plain|apply hex_key_no_colon].
Qed.

(** ** The round trip of a table *)

(** A target whose line holds all of it: the cipher is not the null cipher,
    the numbers have their widths, names have no spaces. *)
Record table_fits (sp : cipher_spec) (t : crypt_target) (flags : Z) : Prop := {
  tf_cipher : ct_cipher t = Some (spec_string sp);
  tf_spec : spec_ok sp;
  tf_integrity : match ct_integrity t with
                 | Some i => integrity_ok i
                 | None => ct_tag_size t = 0 /\ String.prefix "capi" (spec_string sp) = false
                 end;
  tf_real : forall c i, cipher_c2dm (spec_string sp) (ct_integrity t) (ct_tag_size t) 256 = inr (c, i) ->
            crypt_is_cipher_null (Some c) = false;
  tf_key : exists k, ct_vk t = Some k /\ key_fits flags k;
  tf_offsets : in_u 64 (ct_offset t) /\ in_u 64 (ct_iv_offset t);
  tf_sizes : in_u 32 (ct_tag_size t) /\ in_u 32 (ct_sector_size t);
}.

(** The cipher's two texts, and that the query finds the specification. *)
Lemma table_cipher sp t flags :
  table_fits sp t flags ->
  exists c, cipher_c2dm (spec_string sp) (ct_integrity t) (ct_tag_size t) 256 = inr (c, words_string (integrity_word t)) /\
    cipher_dm2c c (integrity_what <$> ct_integrity t) = inr (spec_string sp, ct_integrity t) /\ c <> "" /\ nospace c.
Proof.
  intros [_ Hsp Hi _ _ _ _]. unfold integrity_word. destruct (ct_integrity t) as [i|].
  - destruct (cipher_roundtrip sp i (ct_tag_size t) Hsp Hi) as (c & E1 & E2 & H1 & H2). exists c. rewrite E1.
    split; [|done]. cbn [words_string foldr]. by rewrite append_empty_r.
  - destruct Hi as [_ Hp]. destruct (cipher_roundtrip_legacy sp Hsp Hp (ct_tag_size t)) as (E1 & E2 & H1 & H2). by exists (spec_string sp).
Qed.

Lemma features_end t flags integrity_dm :
  integrity_dm = words_string (integrity_word t) ->
  stops isdigit (crypt_features t flags integrity_dm) /\ strlen (crypt_features t flags integrity_dm) < 330.
Proof.
  intros Hi. destruct (crypt_features_words t flags integrity_dm Hi) as (-> & _ & Hl). split; [by destruct (crypt_word_list t flags)|].
  pose proof (dec_u_short (zlen (crypt_word_list t flags))) as Hd. destruct (crypt_word_list t flags); [done|].
  rewrite (strlen_app " "), (strlen_app (dec_u _)). change (strlen " ") with 1. lia.
Qed.

(** C11: The line that is printed for a dm-crypt target is always produced
    when the target fits it, and a query that asks for the device, the cipher and the
    key reads back the same target: cipher and integrity, key or its
    description, both offsets, the tag and the sector size; and of the flags
    those that a table carries. *)
Theorem crypt_table_roundtrip sp t flags d lookup get_flags :
  table_fits sp t flags -> nospace d -> lookup d = (0, Some d) ->
  Forall (fun f => has_flag get_flags f = true) [DM_ACTIVE_DEVICE; DM_ACTIVE_CRYPT_CIPHER; DM_ACTIVE_CRYPT_KEYSIZE; DM_ACTIVE_CRYPT_KEY] ->
  exists params,
    get_dm_crypt_params d t flags = Some params /\
    _dm_target_query_crypt lookup get_flags params 0 =
      Ok (Some d, t, Z.lor (Z.land flags crypt_table_mask) (Z.land flags CRYPT_ACTIVATE_KEYRING_KEY)).
Proof.
  intros H Sd Hd G. repeat rewrite Forall_cons in G. destruct G as (G1 & G2 & G3 & G4 & _).
  destruct (table_cipher sp t flags H) as (c & Ec & Eq & Hc0 & Sc). pose proof H as [E0 _ _ Hreal (k & Ek & Hk) [Ho Hv] [Ht Hs]].
  destruct (key_string_query get_flags flags c k G3 G4 (Hreal _ _ Ec) Hk) as (ks & Es & Qs & Ss & Ps).
  destruct (features_end t flags _ eq_refl) as [Hstop Hlen]. pose proof (crypt_words_printed t flags _ Ht Hs eq_refl) as Hw.
  unfold get_dm_crypt_params. rewrite E0. cbn [mbind option_bind]. rewrite Ec, Ek, Es. cbn [mbind option_bind].
  set (features := crypt_features t flags (words_string (integrity_word t))) in *.
  rewrite (proj2 (Z.leb_gt _ _)).
  2: { rewrite !strlen_app. pose proof (dec_u_short (ct_offset t)). pose proof (dec_u_short (ct_iv_offset t)). change (strlen " ") with 1. lia. }
  eexists. split; [done|]. unfold _dm_target_query_crypt. rewrite strsep_word by done. rewrite strsep_word by done.
  cbn [tested deref mbind outcome_bind]. rewrite number_app by done. rewrite string_append, empty_append. cbn [space mbind outcome_bind].
  rewrite strsep_word by done. cbn [tested deref mbind outcome_bind]. unfold get_device. rewrite G1, Hd. cbn [Z.leb Z.compare tested mbind outcome_bind].
  rewrite number_app by done. rewrite Hw. cbn [mbind outcome_bind]. rewrite G2. cbn [words_state cf_rintegrity]. rewrite Eq.
  cbn [mbind outcome_bind]. rewrite Qs. cbn [mbind outcome_bind cf_tag_size cf_sector_size cf_flags words_state]. rewrite Ps.
  assert (Z.land flags CRYPT_ACTIVATE_KEYRING_KEY = if has_flag flags CRYPT_ACTIVATE_KEYRING_KEY then CRYPT_ACTIVATE_KEYRING_KEY else 0) as ->
    by (symmetry; apply (land_bit flags 11); lia).
  destruct t as [ci int vk off iv tag sec]. cbn [ct_cipher ct_integrity ct_vk ct_offset ct_iv_offset ct_tag_size ct_sector_size] in *. subst.
  assert (match int with Some _ => tag | None => 0 end = tag) as -> .
  { destruct int; [done|]. destruct (tf_integrity _ _ _ H) as [Z0 _]. cbn in Z0. by rewrite Z0. }
  destruct (has_flag flags CRYPT_ACTIVATE_KEYRING_KEY); [done|by rewrite Z.lor_0_r].
Qed.

(** ** Every query ends *)

Lemma split_space_length s w r : split_space s = (w, Some r) -> (String.length r < String.length s)%nat.
Proof.
  revert w r. induction s as [|c s IH]; [done|]. intros w r. cbn. destruct (Ascii.eqb c " "); [intros [= <- <-]; lia|].
  destruct (split_space s) as [w' r'] eqn:E. intros [= <- ->]. specialize (IH w' r eq_refl). lia.
Qed.

Lemma strsep_fuel params w r : strsep params = (Some w, r) -> (line_fuel r < line_fuel params)%nat.
Proof.
  destruct params as [s|]; cbn [strsep]; [|done]. destruct (split_space s) as [w' [r'|]] eqn:E; intros [= <- <-]; cbn [line_fuel]; [|lia].
  apply split_space_length in E. lia.
Qed.

Lemma strsep_fuel_le params w r : strsep params = (w, r) -> (line_fuel r <= line_fuel params)%nat.
Proof.
  intros E. destruct params as [s|]; [|by injection E as <- <-].
  destruct w as [w|]; [apply strsep_fuel in E; lia|]. cbn in E. by destruct (split_space s).
Qed.

(** A step that ends and does not lengthen the line. *)
Definition step_ok {S} (step : string -> option string -> S -> outcome (S * option string * Z)) : Prop :=
  forall arg params st, match step arg params st with
                        | Ok (_, params', _) => (line_fuel params' <= line_fuel params)%nat
                        | NoFuel => False
                        | _ => True
                        end.

Lemma features_loop_ends {S} (step : string -> option string -> S -> outcome (S * option string * Z)) fuel n i params st :
  step_ok step -> (line_fuel params <= fuel)%nat -> features_loop step fuel n i params st <> NoFuel.
Proof.
  intros Hs. revert i params st. induction fuel as [|fuel IH]; intros i params st Hf.
  - destruct params; cbn in Hf; lia.
  - cbn [features_loop]. destruct (negb (i <? n)); [done|]. destruct (strsep params) as [[arg|] rest] eqn:E; [|done].
    apply strsep_fuel in E. specialize (Hs arg rest st). destruct (step arg rest st) as [[[st' rest'] k]| | |]; cbn; try done.
    apply IH. lia.
Qed.

Lemma parse_digits_length s acc : (String.length (parse_digits s acc).2 <= String.length s)%nat.
Proof. revert acc. induction s as [|c s IH]; intros acc; cbn; [lia|]. destruct (isdigit c); [specialize (IH (acc * 10 + (ascii_val c - 48))); lia|cbn; lia]. Qed.

Lemma skip_space_length s : (String.length (skip_space s) <= String.length s)%nat.
Proof. induction s as [|c s IH]; cbn; [lia|]. destruct (isspace c); cbn; lia. Qed.

Lemma number_length s : (String.length (number s).2 <= String.length s)%nat.
Proof.
  unfold number, strtoull. destruct (parse_number s) as [[[neg v] rest]|] eqn:E; [|cbn; lia].
  assert (String.length rest <= String.length s)%nat as L; [|by destruct (_ <? v); cbn].
  pose proof (skip_space_length s) as Hs. unfold parse_number in E. revert E.
  set (p := match skip_space s with EmptyString => _ | String c s' => _ end).
  assert (String.length p.2 <= String.length (skip_space s))%nat as Hp.
  { unfold p. destruct (skip_space s) as [|c s']; cbn; [lia|]. destruct (_ =? 45); cbn; [lia|]. destruct (_ =? 43); cbn; lia. }
  destruct p as [neg' s1]. destruct s1 as [|c s']; [done|]. destruct (isdigit c); [|done].
  pose proof (parse_digits_length (String c s') 0) as Hd. destruct (parse_digits _ _) as [v' r']. intros [= <- <- <-]. cbn in *. lia.
Qed.

Lemma crypt_option_ok : step_ok crypt_option.
Proof.
  intros arg params st. unfold crypt_option. repeat (destruct (strcaseeq _ _); [done|]).
  destruct (scan_u "integrity:" arg) as [v|].
  - destruct (after "integrity:" arg) as [rest|]; cbn; [|done]. by destruct (strchr rest _) as [[|]|].
  - by destruct (scan_u _ arg).
Qed.

Lemma bind_ends {A B} (m : outcome A) (k : A -> outcome B) : m <> NoFuel -> (forall a, k a <> NoFuel) -> (m ≫= k) <> NoFuel.
Proof. intros Hm Hk. destruct m; [apply Hk|done..]. Qed.
Lemma bind_ok {A B} (m : outcome A) (k : A -> outcome B) b : (m ≫= k) = Ok b -> exists a, m = Ok a /\ k a = Ok b.
Proof. destruct m; [|done..]. intros H. by eexists. Qed.
Lemma require_ends b r : require b r <> NoFuel. Proof. by destruct b. Qed.
Lemma tested_ends {A} (o : option A) r : tested o r <> NoFuel. Proof. by destruct o. Qed.
Lemma deref_ends {A} (o : option A) : deref o <> NoFuel. Proof. by destruct o. Qed.
Lemma space_ends s : space s <> NoFuel. Proof. destruct s as [|[[] [] [] [] [] [] [] []] s]; done. Qed.
Lemma get_device_ends lookup b old s : get_device lookup b old s <> NoFuel.
Proof. unfold get_device. destruct b; [|done]. destruct (lookup s) as [r d]. destruct (0 <=? r); [done|]. by destruct (r =? _). Qed.
Lemma ends_ends o : ends o <> NoFuel. Proof. by destruct o as [[|]|]. Qed.
Lemma of_hex_ends s : of_hex s <> NoFuel. Proof. unfold of_hex. by destruct (crypt_hex_to_bytes s false). Qed.
Lemma number_space_ends s : number_space s <> NoFuel.
Proof. unfold number_space. destruct (number s) as [v r]. apply bind_ends; [apply space_ends|done]. Qed.
Lemma word_space_ends s : word_space s <> NoFuel.
Proof. unfold word_space. destruct (strsep _) as [w r]. apply bind_ends; [apply tested_ends|]. intros a. apply bind_ends; [apply deref_ends|done]. Qed.

Create HintDb ends.
#[local] Hint Resolve require_ends tested_ends deref_ends space_ends get_device_ends ends_ends of_hex_ends number_space_ends word_space_ends : ends.
Ltac ends_tac :=
  repeat (match goal with
          | |- (let '(_, _) := ?p in _) <> NoFuel => destruct p
          | |- (_ ≫= _) <> NoFuel => apply bind_ends; [|intros]
          | |- (match ?p with (_, _) => _ end) <> NoFuel => destruct p
          | |- (if ?b then _ else _) <> NoFuel => destruct b
          | |- Ok _ <> NoFuel => done
          | |- Err _ <> NoFuel => done
          | |- Crash <> NoFuel => done
          end; auto with ends).

Lemma number_word_ok params :
  match number_word params with Ok (_, rest) => (line_fuel rest <= line_fuel params)%nat | NoFuel => False | _ => True end.
Proof.
  unfold number_word. destruct params as [s|]; cbn; [|done]. pose proof (number_length s). destruct (number s) as [v [|c r]]; cbn in *; lia.
Qed.

Lemma verity_option_ok lookup get_flags hash_block : step_ok (verity_option lookup get_flags hash_block).
Proof.
  intros arg params [flags dev offset area blocks roots desc]. unfold verity_option.
  do 5 (destruct (strcaseeq _ _); [done|]). destruct (strcaseeq _ _).
  { destruct (strsep params) as [w r] eqn:E. apply strsep_fuel_le in E. destruct w as [w|]; cbn; [|done].
    pose proof (get_device_ends lookup (has_flag get_flags DM_ACTIVE_VERITY_HASH_DEVICE) dev w). by destruct (get_device _ _ _ _). }
  do 3 (destruct (strcaseeq _ _); [pose proof (number_word_ok params) as N; by destruct (number_word params) as [[v r]| | |]|]).
  destruct (strcaseeq _ _); [|done]. destruct (strsep params) as [w r] eqn:E. apply strsep_fuel_le in E. by destruct w.
Qed.

Lemma integrity_option_ok lookup get_flags : step_ok (integrity_option lookup get_flags).
Proof.
  intros arg params st. unfold integrity_option.
  assert (forall o, integrity_number arg (iq_target st) = Some o -> o <> NoFuel) as Hn.
  { unfold integrity_number. intros o. repeat (case_match; try (intros [= <-]; done)); done. }
  assert (forall o, integrity_name lookup get_flags arg (iq_target st) = Some o -> o <> NoFuel) as Hm.
  { unfold integrity_name. intros o. repeat (case_match; try (intros [= <-]; ends_tac)); try done.
    all: unfold integrity_key; destruct (split_colon _).2; [|done]; destruct (crypt_hex_to_bytes _ _); [done|]; ends_tac. }
  destruct (integrity_number arg (iq_target st)) as [o|].
  { specialize (Hn o eq_refl). destruct o; cbn [mbind outcome_bind]; done. }
  destruct (integrity_name lookup get_flags arg (iq_target st)) as [o|].
  { specialize (Hm o eq_refl). destruct o; cbn [mbind outcome_bind]; done. }
  repeat (destruct (_ =? _)%string; [done|]). done.
Qed.

Lemma query_key_ends get_flags s : query_key get_flags s <> NoFuel.
Proof.
  unfold query_key. ends_tac. destruct (after _ _); ends_tac.
  destruct (strchr _ _) as [[|]|]; try done. destruct (strchr _ _) as [[|]|]; done.
Qed.

Lemma loop_ends {S} (step : string -> option string -> S -> outcome (S * option string * Z)) n i s st :
  step_ok step -> features_loop step (line_fuel (Some s)) n i (Some s) st <> NoFuel.
Proof. intros H. by apply features_loop_ends. Qed.

#[local] Hint Resolve query_key_ends crypt_option_ok verity_option_ok integrity_option_ok loop_ends : ends.

Lemma query_crypt_ends lookup get_flags params act : _dm_target_query_crypt lookup get_flags params act <> NoFuel.
Proof.
  unfold _dm_target_query_crypt, crypt_words. ends_tac.
  destruct (cipher_dm2c _ _) as [|[? ?]]; done.
Qed.

Lemma query_verity_ends lookup get_flags params act : _dm_target_query_verity lookup get_flags params act <> NoFuel.
Proof. unfold _dm_target_query_verity, verity_words. ends_tac. destruct (_ : option string); ends_tac. Qed.

Lemma query_integrity_ends lookup get_flags params act : _dm_target_query_integrity lookup get_flags params act <> NoFuel.
Proof. unfold _dm_target_query_integrity. ends_tac. destruct (_ : string); ends_tac. Qed.

(** A query of a mapping ends whatever the kernel reports: the loops over
    the words of a line stop with it, however many words the line announces. *)
Theorem dm_query_device_ends lookup get_flags info : dm_query_device lookup get_flags info <> NoFuel.
Proof.
  unfold dm_query_device. ends_tac. generalize 0 at 1. set (rows := take _ _). clearbody rows. induction rows as [|[[[start len] ty] params] rows IH]; intros fl.
  - done.
  - cbn [query_segments]. apply bind_ends.
    + unfold dm_target_query, _dm_target_query_linear. pose proof query_crypt_ends. pose proof query_verity_ends. pose proof query_integrity_ends. ends_tac.
    + intros [t fl']. ends_tac.
Qed.

(** ** Removal by force *)

Lemma remove_loop_bad (removes : nat -> bool) (query : nat -> Z) force retries attempt :
  (forall n, query n <> 0) -> exists r n, remove_loop removes query force retries attempt false = (r, false, n).
Proof.
  intros Hq. revert attempt. induction retries as [|retries IH]; intros attempt; cbn [remove_loop]; [eauto|].
  destruct (removes attempt); [eauto|]. rewrite (proj2 (Z.eqb_neq _ _)) by done. rewrite !andb_false_r. apply IH.
Qed.

(** A mapping that is in use is queried with 1, not 0, so that its table is
    never replaced by the error target, forced or not. *)
Lemma open_mapping_keeps_table lookup info removes dmt flags a :
  dm_query_device lookup 0 (Some info) = Ok a -> 0 < in_open_count info ->
  exists r n, dm_remove_device removes (fun _ => a.1) dmt flags = (r, false, n).
Proof.
  intros E Ho. assert (a.1 = 1) as E1.
  { unfold dm_query_device in E. apply bind_ok in E as (i & [= <-] & E). apply bind_ok in E as (_ & _ & E).
    apply bind_ok in E as (_ & _ & E). apply bind_ok in E as ([[segs size] fl] & _ & E). injection E as <-.
    cbn [fst]. by rewrite (proj2 (Z.ltb_lt _ _)). }
  unfold dm_remove_device. destruct (_ && _); [eauto|]. apply remove_loop_bad. intros _. by rewrite E1.
Qed.

Definition example_target : crypt_target :=
  CryptTarget (Some "aes-xts-plain64") (Some "hmac(sha256)") (Some (DmKey 2 (bytes_of_string "k1") None)) 4096 0 32 4096.
Definition example_spec : cipher_spec := CipherSpec "aes" (Some "xts") "plain64".
Definition example_get : Z := Z.lor (Z.lor DM_ACTIVE_DEVICE DM_ACTIVE_CRYPT_CIPHER) (Z.lor DM_ACTIVE_CRYPT_KEYSIZE DM_ACTIVE_CRYPT_KEY).

Lemma crypt_table_roundtrip_witness :
  get_dm_crypt_params "/dev/sda" example_target CRYPT_ACTIVATE_ALLOW_DISCARDS =
    Some "capi:authenc(hmac(sha256),xts(aes))-plain64 6b31 0 /dev/sda 4096 3 allow_discards sector_size:4096 integrity:32:aead" /\
  exists params,
    get_dm_crypt_params "/dev/sda" example_target CRYPT_ACTIVATE_ALLOW_DISCARDS = Some params /\
    _dm_target_query_crypt (fun d => (0, Some d)) example_get params 0 = Ok (Some "/dev/sda", example_target, 8).
Proof.
  split; [reflexivity|].
  apply (crypt_table_roundtrip example_spec example_target CRYPT_ACTIVATE_ALLOW_DISCARDS "/dev/sda" (fun d => (0, Some d)) example_get).
  - split.
    + reflexivity.
    + split; cbn [example_spec sp_cipher sp_mode sp_iv].
      * split; [done|split; [cbn; lia|reflexivity]].
      * cbn. lia.
      * intros m [= <-]. split; [|done]. split; [done|split; [cbn; lia|reflexivity]].
      * split; [done|split; [cbn; lia|reflexivity]].
      * done.
    + do 3 right. split; [done|split; [cbn; lia|reflexivity]].
    + intros c i. vm_compute. intros [= <- _]. reflexivity.
    + eexists. split; [reflexivity|]. split; [split; cbn; lia|]. by split.
    + split; split; cbn; lia.
    + split; split; cbn; lia.
  - reflexivity.
  - reflexivity.
  - repeat constructor.
Defined.
