(* ===== verification/VerityHashProps.v ===== *)
(** * VerityHashProps: what the hash tree promises

    One level in both modes: written, or compared ([emitted]); the sizes and
    places of levels; a tree that was created verifies, and one that verifies
    against a root hash has the data it was created from, or a collision of
    the hash was found. *)

From S2P Require Import Prelude CryptBackend VerityHash.

(** ** Streams *)

Definition hash_bytes (d : disks) : bytes := dev_bytes HASH_FILE d.
Definition quiet (d : disks) : Prop := Forall (fun e => e = None) (dk_io d).
(** The same bytes; the schedule moved on. *)
Definition same_bytes (d d' : disks) : Prop := dk_data d' = dk_data d /\ dk_hash d' = dk_hash d.
Definition io_moves (d d' : disks) : Prop := quiet d -> quiet d'.

Lemma io_next_spec d e d' : io_next d = (e, d') -> same_bytes d d' /\ io_moves d d' /\ (quiet d -> e = None).
Proof.
  unfold io_next, io_moves, quiet. destruct (dk_io d) as [|e0 io] eqn:E; intros [= <- <-].
  - rewrite E. done.
  - split; [done|]. cbn. split; intros H; by inversion H.
Qed.

Lemma io_call_spec d ok d' : io_call d = (ok, d') -> same_bytes d d' /\ io_moves d d' /\ (quiet d -> ok = true).
Proof.
  unfold io_call. destruct (io_next d) as [e d1] eqn:E. intros [= <- <-].
  apply io_next_spec in E as (Hs & Hm & Hq). split; [done|]. split; [done|]. intros H. by rewrite Hq, bool_decide_true.
Qed.

Lemma same_bytes_dev w d d' : same_bytes d d' -> dev_bytes w d' = dev_bytes w d.
Proof. intros [E1 E2]. unfold dev_bytes. by rewrite E1, E2. Qed.

Lemma fread_spec w pos n d b d' : fread w pos n d = (b, d') ->
  same_bytes d d' /\ io_moves d d' /\
  (forall x, b = Some x -> x = slice pos n (dev_bytes w d) /\ pos + n <= zlen (dev_bytes w d)) /\
  (quiet d -> n <> 0 -> pos + n <= zlen (dev_bytes w d) -> b = Some (slice pos n (dev_bytes w d))).
Proof.
  unfold fread. destruct (io_next d) as [e d1] eqn:E. apply io_next_spec in E as (Hs & Hm & Hq).
  rewrite (same_bytes_dev w d d1 Hs). destruct e as [k|].
  { intros [= <- <-]. split; [done|]. split; [done|]. split; [done|]. intros H. by specialize (Hq H). }
  intros [= <- <-]. split; [done|]. split; [done|].
  destruct (Z.eqb_spec n 0), (Z.ltb_spec (zlen (dev_bytes w d)) (pos + n)); cbn [orb]; split; try done; try lia.
  intros x [= <-]. done.
Qed.

Lemma hash_set_bytes b d : hash_bytes (set_hash_bytes b d) = b.
Proof. unfold hash_bytes, dev_bytes, set_hash_bytes. by destruct d as [x [y|] z]. Qed.

Lemma fwrite_spec pos b d ok d' : fwrite pos b d = (ok, d') ->
  io_moves d d' /\
  (ok = true -> pos + zlen b <= zlen (hash_bytes d) /\
     same_bytes (set_hash_bytes (splice pos b (hash_bytes d)) d) d') /\
  (quiet d -> zlen b <> 0 -> pos + zlen b <= zlen (hash_bytes d) -> ok = true).
Proof.
  unfold fwrite. destruct (io_next d) as [e d1] eqn:E. apply io_next_spec in E as (Hs & Hm & Hq).
  unfold hash_bytes. rewrite (same_bytes_dev HASH_FILE d d1 Hs). destruct Hs as [E1 E2].
  assert (Hset : forall x, io_moves d (set_hash_bytes x d1)).
  { intros x H. specialize (Hm H). unfold quiet, set_hash_bytes in *. by destruct (dk_hash d1). }
  destruct e as [k|].
  { intros [= <- <-]. split; [by destruct (_ <? _)|]. split; [done|]. intros H. by specialize (Hq H). }
  destruct (_ || _) eqn:Eb; intros [= <- <-].
  { split; [exact Hm|]. split; [done|]. intros _ Hn Hin. apply orb_true_iff in Eb as [?%Z.eqb_eq|?%Z.ltb_lt]; lia. }
  apply orb_false_iff in Eb as [_ ?%Z.ltb_ge]. split; [apply Hset|]. split; [|done].
  intros _. split; [done|]. unfold same_bytes, set_hash_bytes, dev_bytes. rewrite E1, E2. by destruct (dk_hash d).
Qed.

(** [n] blocks of [bsz] bytes. *)
Fixpoint blocks_of (n : nat) (pos bsz : Z) (D : bytes) : list bytes :=
  match n with
  | O => []
  | S n' => slice pos bsz D :: blocks_of n' (pos + bsz) bsz D
  end.

Lemma length_blocks_of n pos bsz D : length (blocks_of n pos bsz D) = n.
Proof. revert pos. induction n as [|n IH]; intros pos; cbn [blocks_of length]; [done|]. by rewrite IH. Qed.

Lemma blocks_of_app n m pos bsz D :
  blocks_of (n + m) pos bsz D = blocks_of n pos bsz D ++ blocks_of m (pos + Z.of_nat n * bsz) bsz D.
Proof.
  revert pos. induction n as [|n IH]; intros pos; cbn [Nat.add blocks_of app]; [f_equal; lia|].
  rewrite IH. do 3 f_equal. lia.
Qed.

(** Blocks depend only on the bytes they are read from. *)
Lemma blocks_of_ext n pos bsz D D' :
  0 <= pos -> 0 <= bsz -> slice pos (Z.of_nat n * bsz) D' = slice pos (Z.of_nat n * bsz) D ->
  blocks_of n pos bsz D' = blocks_of n pos bsz D.
Proof.
  revert pos. induction n as [|n IH]; intros pos Hp Hb H; cbn [blocks_of]; [done|].
  replace (Z.of_nat (S n) * bsz) with (bsz + Z.of_nat n * bsz) in H by lia.
  assert (0 <= Z.of_nat n * bsz) by nia. f_equal.
  - pose proof (slice_slice (A:=byte) 0 bsz pos (bsz + Z.of_nat n * bsz)) as E. rewrite Z.add_0_r in E.
    by rewrite <-(E D'), <-(E D), H by lia.
  - apply IH; [lia|done|]. pose proof (slice_slice (A:=byte) bsz (Z.of_nat n * bsz) pos (bsz + Z.of_nat n * bsz)) as E.
    by rewrite <-(E D'), <-(E D), H by lia.
Qed.

(** The blocks make up the bytes they are read from. *)
Lemma blocks_of_slice n pos bsz D :
  0 <= pos -> 0 <= bsz -> slice pos (Z.of_nat n * bsz) D = concat (blocks_of n pos bsz D).
Proof.
  revert pos. induction n as [|n IH]; intros pos Hp Hb; cbn [blocks_of concat]; [apply slice_0|].
  rewrite <-IH by lia. replace (Z.of_nat (S n) * bsz) with (bsz + Z.of_nat n * bsz) by lia. apply slice_app_split; nia.
Qed.

Lemma lookup_blocks_of n pos bsz D i x :
  blocks_of n pos bsz D !! i = Some x -> (i < n)%nat /\ slice (pos + Z.of_nat i * bsz) bsz D = x.
Proof.
  revert pos i. induction n as [|n IH]; intros pos [|i]; cbn [blocks_of]; try done.
  - intros [= <-]. split; [lia|]. f_equal. lia.
  - intros [? <-]%IH. split; [lia|]. f_equal. lia.
Qed.

(** ** Output of a level *)

Section level.
Context `{CHL : CryptHashLaws}.
Variable p : level_params.

(** [b] is written at [wr], or it is there already when the tree is verified. *)
Definition emitted (b : bytes) (wr : Z) (d d' : disks) : Prop :=
  wr + zlen b <= zlen (hash_bytes d) /\ io_moves d d' /\
  if lp_verify p then same_bytes d d' /\ slice wr (zlen b) (hash_bytes d) = b
  else same_bytes (set_hash_bytes (splice wr b (hash_bytes d)) d) d'.

(** Output of [b] succeeds. *)
Definition can_emit (b : bytes) (wr : Z) (d : disks) : Prop :=
  quiet d /\ wr + zlen b <= zlen (hash_bytes d) /\
  (lp_verify p = true -> slice wr (zlen b) (hash_bytes d) = b).

Lemma emitted_size b wr d d' : 0 <= wr -> emitted b wr d d' -> zlen (hash_bytes d') = zlen (hash_bytes d).
Proof.
  intros Hw (Hin & _ & H). destruct (lp_verify p).
  - destruct H as [H _]. unfold hash_bytes. by rewrite (same_bytes_dev _ _ _ H).
  - unfold hash_bytes at 1. rewrite (same_bytes_dev _ _ _ H). change (dev_bytes HASH_FILE) with hash_bytes.
    rewrite hash_set_bytes. by apply zlen_splice.
Qed.

Lemma emitted_nil wr d : wr <= zlen (hash_bytes d) -> 0 <= wr -> emitted [] wr d d.
Proof.
  intros H Hw. unfold emitted. split; [change (zlen []) with 0; lia|]. split; [by intros ?|].
  destruct (lp_verify p); [split; [done|apply slice_0]|]. rewrite splice_nil.
  unfold same_bytes, set_hash_bytes, hash_bytes, dev_bytes. by destruct d as [x [y|] z].
Qed.

Lemma emitted_app a b wr d d1 d2 :
  0 <= wr -> emitted a wr d d1 -> emitted b (wr + zlen a) d1 d2 -> emitted (a ++ b) wr d d2.
Proof.
  intros Hw Ha Hb. pose proof (emitted_size _ _ _ _ Hw Ha) as Hz. destruct Ha as (Ia & Ma & Ha), Hb as (Ib & Mb & Hb).
  pose proof (zlen_nonneg a). pose proof (zlen_nonneg b).
  unfold emitted. rewrite zlen_app. split; [lia|]. split; [intros Hq; by apply Mb, Ma|].
  destruct (lp_verify p).
  - destruct Ha as [Sa Ea], Hb as [Sb Eb]. split; [destruct Sa, Sb; split; congruence|].
    rewrite slice_app_split by lia. rewrite Ea. f_equal. unfold hash_bytes in Eb.
    by rewrite (same_bytes_dev _ _ _ Sa) in Eb.
  - unfold hash_bytes in Hb at 1. rewrite (same_bytes_dev _ _ _ Ha) in Hb. change (dev_bytes HASH_FILE) with hash_bytes in Hb.
    rewrite hash_set_bytes, splice_app in Hb by lia. unfold same_bytes, set_hash_bytes in *.
    destruct Ha as [Ha1 Ha2], Hb as [Hb1 Hb2]. destruct (dk_hash d); cbn in *; rewrite Ha2 in *; cbn in *; split; congruence.
Qed.

(** What is read apart from what is written does not change. *)
Definition apart (w : which) (a n wr m : Z) (d : disks) : Prop :=
  lp_verify p = true \/ (w = DATA_FILE /\ is_Some (dk_hash d)) \/ a + n <= wr \/ wr + m <= a.

Lemma emitted_read w a n b wr d d' :
  0 <= wr -> 0 <= a -> 0 <= n -> emitted b wr d d' -> apart w a n wr (zlen b) d ->
  slice a n (dev_bytes w d') = slice a n (dev_bytes w d) /\ zlen (dev_bytes w d') = zlen (dev_bytes w d).
Proof.
  intros Hw Ha Hn He Hap. pose proof (emitted_size _ _ _ _ Hw He) as Hz. destruct He as (Hin & _ & He).
  unfold apart in Hap. destruct (lp_verify p) eqn:Ev.
  { destruct He as [He _]. by rewrite (same_bytes_dev _ _ _ He). }
  rewrite (same_bytes_dev _ _ _ He). destruct w.
  - unfold dev_bytes, set_hash_bytes. destruct (dk_hash d) as [h|] eqn:Eh; cbn; [done|].
    unfold hash_bytes, dev_bytes in *. rewrite Eh in *. cbn in *.
    destruct Hap as [?|[[_ [? ?]]|Hap]]; [done..|]. split; [|by apply zlen_splice].
    apply slice_splice_disj; lia.
  - change (dev_bytes HASH_FILE) with hash_bytes. rewrite hash_set_bytes.
    destruct Hap as [?|[[? _]|Hap]]; [done..|]. split; [|by apply zlen_splice]. apply slice_splice_disj; lia.
Qed.

(** An operation that puts out [b]. *)
Definition emits (b : bytes) (st : cstate) (out : Z * cstate) : Prop :=
  let '(r, st') := out in
  c_rd st' = c_rd st /\ c_digest st' = c_digest st /\
  (r = 0 -> emitted b (c_wr st) (c_disks st) (c_disks st') /\ c_wr st' = c_wr st + zlen b) /\
  (can_emit b (c_wr st) (c_disks st) -> r = 0).

Lemma write_hash_emits b st : lp_verify p = false -> zlen b <> 0 -> emits b st (write_hash b st).
Proof.
  intros Hv Hb. unfold emits, write_hash. destruct (fwrite _ _ _) as [ok d] eqn:E.
  apply fwrite_spec in E as (Hm & Hok & Hq). destruct ok; cbn.
  - split; [done|]. split; [done|]. split; [|done]. intros _. split; [|done]. unfold emitted. rewrite Hv.
    destruct (Hok eq_refl). done.
  - split; [done|]. split; [done|]. split; [done|]. intros (Hquiet & Hin & _). by specialize (Hq Hquiet Hb Hin).
Qed.

Lemma compare_emits b st out :
  lp_verify p = true -> zlen b <> 0 ->
  out = (let '(x, d) := fread HASH_FILE (c_wr st) (zlen b) (c_disks st) in
         match x with
         | None => (- EIO, CState (c_rd st) (c_wr st) (c_digest st) d)
         | Some x => let st := CState (c_rd st) (c_wr st + zlen b) (c_digest st) d in
                     if bool_decide (x = b) then (0, st) else (- EPERM, st)
         end) -> emits b st out.
Proof.
  intros Hv Hb ->. unfold emits. destruct (fread _ _ _ _) as [x d] eqn:E.
  apply fread_spec in E as (Hs & Hm & Hx & Hq). destruct x as [x|]; cbn.
  2: { split; [done|]. split; [done|]. split; [done|]. intros (Hquiet & Hin & _). by specialize (Hq Hquiet Hb Hin). }
  destruct (Hx x eq_refl) as [-> Hin]. case_bool_decide as He.
  - split; [done|]. split; [done|]. split; [|done]. intros _. split; [|done]. unfold emitted. rewrite Hv. done.
  - split; [done|]. split; [done|]. split; [done|]. intros (_ & _ & Hc). by destruct He; apply Hc.
Qed.

Lemma spare_emits n st : 0 < n -> emits (zeros (Z.to_nat n)) st (spare p n st).
Proof.
  intros Hn. assert (Hz : zlen (zeros (Z.to_nat n)) = n) by (unfold zlen, zeros; rewrite length_replicate; lia).
  unfold spare. destruct (lp_verify p) eqn:Hv; [|apply write_hash_emits; [done|lia]].
  apply compare_emits; [done|lia|]. unfold verify_zero. by rewrite Hz.
Qed.

Lemma digest_emits st :
  0 < lp_digest_size p -> zlen (c_digest st) = lp_digest_size p -> emits (c_digest st) st (digest_io p st).
Proof.
  intros Hn Hz. unfold digest_io. destruct (lp_verify p) eqn:Hv; [|apply write_hash_emits; [done|lia]].
  apply compare_emits; [done|lia|]. by rewrite Hz.
Qed.

Lemma can_emit_app a b wr d : 0 <= wr -> can_emit (a ++ b) wr d -> can_emit a wr d.
Proof.
  intros Hw (Hq & Hin & Hv). rewrite zlen_app in *. pose proof (zlen_nonneg a). pose proof (zlen_nonneg b).
  split; [done|]. split; [lia|]. intros Hver. specialize (Hv Hver). rewrite slice_app_split in Hv by lia.
  apply app_inj_1 in Hv as [? _]; [done|]. apply Nat2Z.inj. change (zlen (slice wr (zlen a) (hash_bytes d)) = zlen a).
  apply zlen_slice; lia.
Qed.

Lemma can_emit_next a b wr d d1 :
  0 <= wr -> can_emit (a ++ b) wr d -> emitted a wr d d1 -> can_emit b (wr + zlen a) d1.
Proof.
  intros Hw (Hq & Hin & Hv) He. pose proof (emitted_size _ _ _ _ Hw He) as Hz. destruct He as (_ & Hm & He).
  rewrite zlen_app in *. pose proof (zlen_nonneg a). pose proof (zlen_nonneg b).
  split; [by apply Hm|]. split; [lia|]. intros Hver. rewrite Hver in He. destruct He as [Hs _].
  specialize (Hv Hver). rewrite slice_app_split in Hv by lia. unfold hash_bytes. rewrite (same_bytes_dev _ _ _ Hs).
  apply app_inj_1 in Hv as [_ ?]; [done|]. apply Nat2Z.inj. change (zlen (slice wr (zlen a) (hash_bytes d)) = zlen a).
  apply zlen_slice; lia.
Qed.

Lemma emits_seq a b st o1 f :
  0 <= c_wr st -> emits a st o1 -> (forall st1, o1 = (0, st1) -> emits b st1 (f st1)) ->
  emits (a ++ b) st (let '(r, st1) := o1 in if negb (r =? 0) then (r, st1) else f st1).
Proof.
  intros Hw. destruct o1 as [r st1]. intros (Hr & Hd & Hok & Hcan) Hf. destruct (Z.eqb_spec r 0) as [->|Hne]; cbn [negb].
  - destruct (Hok eq_refl) as [He Hw1]. specialize (Hf st1 eq_refl). unfold emits in *. destruct (f st1) as [r2 st2].
    destruct Hf as (Hr2 & Hd2 & Hok2 & Hcan2). split; [congruence|]. split; [congruence|]. split.
    + intros E. destruct (Hok2 E) as [He2 Hw2]. rewrite Hw1 in *. split; [by eapply emitted_app|].
      rewrite zlen_app. lia.
    + intros Hc. apply Hcan2. rewrite Hw1. by eapply can_emit_next.
  - split; [done|]. split; [done|]. split; [done|]. intros Hc. by apply can_emit_app, Hcan in Hc.
Qed.

Lemma emits_nil st : 0 <= c_wr st <= zlen (hash_bytes (c_disks st)) -> emits [] st (0, st).
Proof.
  intros H. split; [done|]. split; [done|]. split; [|done]. intros _. split; [|change (zlen []) with 0; lia].
  apply emitted_nil; lia.
Qed.

(** *** Digests and entries *)

Hypothesis Hds : 0 < lp_digest_size p <= crypt_hash_size (lp_hash_name p).

Definition block_digest (data : bytes) : bytes :=
  default [] (verify_hash_block (lp_hash_name p) (lp_version p) (lp_digest_size p) data (lp_salt p)).

Lemma verify_hash_block_ok data :
  verify_hash_block (lp_hash_name p) (lp_version p) (lp_digest_size p) data (lp_salt p) = Some (block_digest data) /\
  zlen (block_digest data) = lp_digest_size p.
Proof.
  unfold block_digest, verify_hash_block. destruct (Z.leb_spec (crypt_hash_size (lp_hash_name p)) 0); [lia|].
  destruct (Z.ltb_spec (crypt_hash_size (lp_hash_name p)) (lp_digest_size p)); [lia|]. split; [done|].
  cbn. apply zlen_hash_final; lia.
Qed.

(** Bytes of a digest with its padding. *)
Definition entry_size : Z := if lp_version p =? 0 then lp_digest_size p else digest_size_full p.
Definition entry (data : bytes) : bytes := block_digest data ++ zeros (Z.to_nat (entry_size - lp_digest_size p)).
Definition entries (datas : list bytes) : bytes := datas ≫= entry.

Hypothesis Hfull : lp_digest_size p <= digest_size_full p.

Lemma entry_size_bounds : lp_digest_size p <= entry_size.
Proof. unfold entry_size. destruct (_ =? 0); lia. Qed.

Lemma zlen_entry data : zlen (entry data) = entry_size.
Proof.
  pose proof entry_size_bounds. unfold entry. rewrite zlen_app, (proj2 (verify_hash_block_ok data)).
  unfold zlen, zeros. rewrite length_replicate. lia.
Qed.

Lemma zlen_entries datas : zlen (entries datas) = Z.of_nat (length datas) * entry_size.
Proof.
  induction datas as [|x datas IH]; [done|]. change (entries (x :: datas)) with (entry x ++ entries datas).
  rewrite zlen_app, zlen_entry, IH. cbn [length]. lia.
Qed.

(** The part of an iteration after the digest was calculated. *)
Definition entry_io (st : cstate) : Z * cstate :=
  let '(r, st) := digest_io p st in
  if negb (r =? 0) then (r, st)
  else if lp_version p =? 0 then (0, st)
  else if negb (digest_size_full p - lp_digest_size p =? 0)
       then spare p (digest_size_full p - lp_digest_size p) st else (0, st).

Lemma entry_io_emits data st :
  0 <= c_wr st -> c_digest st = block_digest data -> emits (entry data) st (entry_io st).
Proof.
  intros Hw Hd. pose proof (proj2 (verify_hash_block_ok data)) as Hz.
  assert (He : emits (c_digest st) st (digest_io p st)) by (apply digest_emits; [lia|by rewrite Hd]).
  unfold entry, entry_io. rewrite <-Hd. apply emits_seq; [done|done|].
  intros st1 E1. rewrite E1 in He. destruct He as (_ & _ & Hok & _). destruct (Hok eq_refl) as [He Hw1].
  pose proof (emitted_size _ _ _ _ Hw He) as Hs. destruct He as [Hin _]. pose proof (zlen_nonneg (c_digest st)).
  unfold entry_size. destruct (lp_version p =? 0).
  - rewrite Z.sub_diag. apply emits_nil. lia.
  - destruct (Z.eqb_spec (digest_size_full p - lp_digest_size p) 0) as [->|]; cbn [negb].
    + apply emits_nil. lia.
    + apply spare_emits. lia.
Qed.

Lemma group_loop_eq n blocks left_bytes st :
  lp_wr p = true ->
  group_loop p (S n) blocks left_bytes st =
    if blocks =? 0 then (0, blocks, left_bytes, st)
    else
      let '(r, st) := hash_data p st in
      if negb (r =? 0) then (r, blocks - 1, left_bytes, st)
      else
        let '(r, st) := entry_io st in
        if negb (r =? 0) then (r, blocks - 1, left_bytes, st)
        else group_loop p n (blocks - 1) (left_bytes -64 entry_size) st.
Proof.
  intros Hwr. cbn [group_loop]. rewrite Hwr. unfold entry_io, entry_size. destruct (blocks =? 0); [done|].
  destruct (hash_data p st) as [r st1]. destruct (negb (r =? 0)); [done|]. cbn [negb].
  destruct (digest_io p st1) as [r1 st2]. destruct (negb (r1 =? 0)) eqn:E; [by rewrite E|].
  by destruct (lp_version p =? 0).
Qed.

(** *** Reading and hashing *)

Abbreviation bsz := (lp_data_block_size p).
Definition rd_bytes (d : disks) : bytes := dev_bytes (lp_rd p) d.

Lemma hash_data_spec st r st' : 0 < bsz -> hash_data p st = (r, st') ->
  same_bytes (c_disks st) (c_disks st') /\ io_moves (c_disks st) (c_disks st') /\ c_wr st' = c_wr st /\
  (r = 0 -> c_rd st' = c_rd st + bsz /\ c_rd st + bsz <= zlen (rd_bytes (c_disks st)) /\
     c_digest st' = block_digest (slice (c_rd st) bsz (rd_bytes (c_disks st)))) /\
  (quiet (c_disks st) -> c_rd st + bsz <= zlen (rd_bytes (c_disks st)) -> r = 0).
Proof.
  intros Hb. unfold hash_data. destruct (fread _ _ _ _) as [x d] eqn:E.
  apply fread_spec in E as (Hs & Hm & Hx & Hq). destruct x as [x|].
  - destruct (verify_hash_block_ok x) as [-> _]. intros [= <- <-]. cbn. destruct (Hx x eq_refl) as [-> Hin].
    split; [done|]. split; [done|]. split; [done|]. done.
  - intros [= <- <-]. cbn. split; [done|]. split; [done|]. split; [done|]. split; [done|].
    intros Hqu Hin. by specialize (Hq Hqu ltac:(lia) Hin).
Qed.

Hypothesis Hbsz : 0 < bsz.
Hypothesis Hwr : lp_wr p = true.

(** The blocks that are read stay what they were while output goes elsewhere. *)
Lemma emitted_blocks n b a wr d d' :
  0 <= wr -> 0 <= a -> emitted b wr d d' -> apart (lp_rd p) a (Z.of_nat n * bsz) wr (zlen b) d ->
  blocks_of n a bsz (rd_bytes d') = blocks_of n a bsz (rd_bytes d) /\ zlen (rd_bytes d') = zlen (rd_bytes d).
Proof.
  intros Hw Ha He Hap. destruct (emitted_read (lp_rd p) a (Z.of_nat n * bsz) b wr d d') as [E Hz]; try done; [nia|].
  split; [|done]. apply blocks_of_ext; [done|lia|done].
Qed.

Lemma apart_emitted w a n wr m b wr0 d d' : emitted b wr0 d d' -> apart w a n wr m d -> apart w a n wr m d'.
Proof.
  unfold apart, emitted. intros (_ & _ & He) [?|[[? Hd]|?]]; [by left| |by right; right].
  right; left. split; [done|]. destruct (lp_verify p); [by destruct He as [[_ ->] _]|].
  destruct He as [_ ->]. unfold set_hash_bytes. destruct (dk_hash d); [by eexists|by destruct Hd].
Qed.

Lemma apart_part w a n wr m a' n' wr' m' d :
  a <= a' -> a' + n' <= a + n -> wr <= wr' -> wr' + m' <= wr + m -> apart w a n wr m d -> apart w a' n' wr' m' d.
Proof. unfold apart. intros ? ? ? ? [?|[?|?]]; [by left|by right; left|right; right; lia]. Qed.

Lemma same_bytes_emitted b wr d d1 d2 :
  same_bytes d d1 -> io_moves d d1 -> emitted b wr d1 d2 -> emitted b wr d d2.
Proof.
  intros Hs Hm (Hin & Hm2 & He). pose proof (same_bytes_dev HASH_FILE _ _ Hs) as E. unfold emitted, hash_bytes in *.
  rewrite E in *. split; [done|]. split; [intros H; by apply Hm2, Hm|]. destruct (lp_verify p).
  - destruct He as [He ?]. split; [|done]. destruct Hs, He; split; congruence.
  - destruct Hs as [H1 H2], He as [H3 H4]. unfold same_bytes, set_hash_bytes in *. rewrite H1, H2 in *.
    by destruct (dk_hash d).
Qed.

Lemma same_bytes_can b wr d d1 : same_bytes d d1 -> io_moves d d1 -> can_emit b wr d -> can_emit b wr d1.
Proof. intros Hs Hm (Hq & H). unfold can_emit, hash_bytes. rewrite (same_bytes_dev _ _ _ Hs). split; [by apply Hm|done]. Qed.

Lemma group_loop_spec n blocks left_bytes st r blocks' left' st' :
  let k := Nat.min n (Z.to_nat blocks) in
  let d := c_disks st in
  let bs := blocks_of k (c_rd st) bsz (rd_bytes d) in
  0 <= blocks -> 0 <= c_rd st -> 0 <= c_wr st -> Z.of_nat k * entry_size <= left_bytes < 2 ^ 64 ->
  apart (lp_rd p) (c_rd st) (Z.of_nat k * bsz) (c_wr st) (Z.of_nat k * entry_size) d ->
  group_loop p n blocks left_bytes st = (r, blocks', left', st') ->
  (r = 0 -> (0 < Z.of_nat k \/ c_wr st <= zlen (hash_bytes d)) ->
     emitted (entries bs) (c_wr st) d (c_disks st') /\ c_rd st' = c_rd st + Z.of_nat k * bsz /\
     c_wr st' = c_wr st + Z.of_nat k * entry_size /\ blocks' = blocks - Z.of_nat k /\
     left' = left_bytes - Z.of_nat k * entry_size /\ (k = 0%nat \/ c_rd st + Z.of_nat k * bsz <= zlen (rd_bytes d))) /\
  (can_emit (entries bs) (c_wr st) d -> c_rd st + Z.of_nat k * bsz <= zlen (rd_bytes d) -> r = 0).
Proof.
  revert blocks left_bytes st r blocks' left' st'. induction n as [|n IH]; intros blocks left_bytes st r blocks' left' st' k d bs Hb Hrd Hw Hleft Hap.
  { cbn [group_loop]. intros [= <- <- <- <-]. split; [|done]. intros _ Hin. subst bs k. cbn [Nat.min blocks_of] in *.
    split; [apply emitted_nil; [destruct Hin as [|]; [lia|done]|done]|]. repeat split; lia. }
  rewrite group_loop_eq by done. destruct (Z.eqb_spec blocks 0) as [->|Hne].
  { intros [= <- <- <- <-]. split; [|done]. intros _ Hin. subst bs k. rewrite Nat.min_0_r in *. cbn [blocks_of] in *.
    split; [apply emitted_nil; [destruct Hin as [|]; [lia|done]|done]|]. repeat split; lia. }
  set (k' := Nat.min n (Z.to_nat (blocks - 1))).
  assert (Ek : k = S k') by (subst k k'; lia). pose proof entry_size_bounds as Hes.
  assert (Ebs : bs = slice (c_rd st) bsz (rd_bytes d) :: blocks_of k' (c_rd st + bsz) bsz (rd_bytes d))
    by (subst bs; by rewrite Ek).
  clearbody bs. subst bs. change (entries (?x :: ?l)) with (entry x ++ entries l).
  assert (EkZ : Z.of_nat k = Z.of_nat k' + 1) by lia. rewrite EkZ in *. clearbody k. clear Ek.
  destruct (hash_data p st) as [r1 st1] eqn:E1.
  apply hash_data_spec in E1 as (Hs1 & Hm1 & Hw1 & Hok1 & Hcan1); [|done].
  destruct (Z.eqb_spec r1 0) as [->|Hr1]; cbn [negb].
  2: { intros [= <- _ _ _]. split; [done|]. intros (Hq & _) Hin. apply Hcan1; [done|]. fold d. nia. }
  destruct (Hok1 eq_refl) as (Erd1 & Hin1 & Ed1). fold d in Hin1, Ed1, Hs1, Hm1. set (b := slice (c_rd st) bsz (rd_bytes d)) in *.
  pose proof (zlen_entry b) as Hze.
  destruct (entry_io st1) as [r2 st2] eqn:E2. pose proof (entry_io_emits b st1 ltac:(lia) Ed1) as He2. rewrite E2 in He2.
  destruct He2 as (Erd2 & _ & Hok2 & Hcan2). rewrite Hw1 in *.
  destruct (Z.eqb_spec r2 0) as [->|Hr2]; cbn [negb].
  2: { intros [= <- _ _ _]. split; [done|]. intros Hc _. apply Hcan2, (same_bytes_can _ _ d); [done..|]. by eapply can_emit_app. }
  destruct (Hok2 eq_refl) as [He2 Hw2]. apply (same_bytes_emitted _ _ d) in He2; [|done..].
  pose proof (emitted_size _ _ _ _ Hw He2) as Hzs.
  destruct (emitted_blocks k' (entry b) (c_rd st + bsz) (c_wr st) d (c_disks st2)) as [Eb Hzr]; [done|lia|done| |].
  { eapply apart_part; [..|exact Hap]; lia || nia. }
  rewrite Hze in *. intros E3. specialize (IH (blocks - 1) (left_bytes -64 entry_size) st2 r blocks' left' st'). cbv zeta in IH. fold k' in IH.
  rewrite ?Erd2, ?Erd1, ?Hw2 in IH. destruct IH as [Hok3 Hcan3]; [lia|lia|lia| | |exact E3|].
  { rewrite sub64_id by nia. nia. }
  { eapply apart_part; [| | | |eapply apart_emitted; [exact He2|exact Hap]]; lia || nia. }
  rewrite Eb in *. split.
  - intros -> _. destruct Hok3 as (He3 & -> & -> & -> & -> & Hr3); [done| |].
    { right. rewrite Hzs. destruct He2 as [? _]. lia. }
    rewrite sub64_id by nia. split; [eapply emitted_app; [done|exact He2|by rewrite Hze]|].
    split; [lia|]. split; [lia|]. split; [lia|]. split; [lia|]. right. rewrite Hzr in Hr3. destruct Hr3 as [->|]; lia.
  - intros Hc Hin. apply Hcan3; [|rewrite Hzr; lia]. rewrite <-Hze. by eapply can_emit_next.
Qed.

(** *** A whole level *)

Abbreviation hbs := (lp_hash_block_size p).
Abbreviation per_block := (Z.to_nat (hash_per_block p)).
Hypothesis Hhbs : 0 < hash_per_block p /\ hash_per_block p * entry_size <= hbs < 2 ^ 64.

(** A hash block, and the hash blocks of a level. *)
Definition group_bytes (datas : list bytes) : bytes :=
  entries datas ++ zeros (Z.to_nat (hbs - Z.of_nat (length datas) * entry_size)).
Fixpoint level_bytes (n : nat) (datas : list bytes) : bytes :=
  match n with
  | O => []
  | S n' => group_bytes (take per_block datas) ++ level_bytes n' (drop per_block datas)
  end.

Lemma zlen_group datas : (length datas <= per_block)%nat -> zlen (group_bytes datas) = hbs.
Proof.
  intros H. unfold group_bytes. rewrite zlen_app, zlen_entries. unfold zlen, zeros. rewrite length_replicate.
  pose proof entry_size_bounds. assert (Z.of_nat (length datas) <= hash_per_block p) by lia. nia.
Qed.

Lemma zlen_level n datas : zlen (level_bytes n datas) = Z.of_nat n * hbs.
Proof.
  revert datas. induction n as [|n IH]; intros datas; [done|]. cbn [level_bytes].
  rewrite zlen_app, IH, zlen_group by (rewrite length_take; lia). lia.
Qed.

(** One iteration of the outer loop. *)
Definition group_io (blocks : Z) (st : cstate) : Z * Z * cstate :=
  let '(r, blocks, left_bytes, st) := group_loop p per_block blocks hbs st in
  if negb (r =? 0) then (r, blocks, st)
  else
    let '(r, st) := if lp_wr p && negb (left_bytes =? 0) then spare p left_bytes st else (0, st) in (r, blocks, st).

Lemma blocks_loop_eq n blocks st :
  blocks_loop p (S n) blocks st =
    let '(r, blocks, st) := group_io blocks st in if negb (r =? 0) then (r, st) else blocks_loop p n blocks st.
Proof.
  cbn [blocks_loop]. unfold group_io. destruct (group_loop _ _ _ _ _) as [[[r b] l] st1].
  destruct (negb (r =? 0)) eqn:E; [by rewrite E|]. by destruct (if _ && _ then _ else _).
Qed.

Lemma group_io_spec blocks st r blocks' st' :
  let k := Nat.min per_block (Z.to_nat blocks) in
  let d := c_disks st in
  let bs := blocks_of k (c_rd st) bsz (rd_bytes d) in
  0 < blocks -> 0 <= c_rd st -> 0 <= c_wr st ->
  apart (lp_rd p) (c_rd st) (Z.of_nat k * bsz) (c_wr st) hbs d ->
  group_io blocks st = (r, blocks', st') ->
  (r = 0 -> emitted (group_bytes bs) (c_wr st) d (c_disks st') /\ c_rd st' = c_rd st + Z.of_nat k * bsz /\
     c_wr st' = c_wr st + hbs /\ blocks' = blocks - Z.of_nat k /\ c_rd st + Z.of_nat k * bsz <= zlen (rd_bytes d)) /\
  (can_emit (group_bytes bs) (c_wr st) d -> c_rd st + Z.of_nat k * bsz <= zlen (rd_bytes d) -> r = 0).
Proof.
  intros k d bs Hb Hrd Hw Hap. pose proof entry_size_bounds. assert (Hk : (0 < k <= per_block)%nat) by lia.
  assert (Hlen : length bs = k) by apply length_blocks_of. assert (Hkz : Z.of_nat k <= hash_per_block p) by lia.
  unfold group_io. destruct (group_loop _ _ _ _ _) as [[[r1 b1] l1] st1] eqn:E1.
  apply group_loop_spec in E1 as [Hok1 Hcan1]; try lia; [|nia|].
  2: { eapply apart_part; [..|exact Hap]; try lia. fold k. nia. }
  fold k in Hok1, Hcan1. fold d in Hok1, Hcan1. fold bs in Hok1, Hcan1. unfold group_bytes. rewrite Hlen.
  destruct (Z.eqb_spec r1 0) as [->|Hne]; cbn [negb].
  2: { intros [= <- _ _]. split; [done|]. intros Hc Hin. apply Hcan1; [|done]. by eapply can_emit_app. }
  destruct Hok1 as (He1 & Erd & Ewr & -> & -> & Hr1); [done|lia|]. rewrite Hwr. cbn [andb].
  pose proof (zlen_entries bs) as Hze. rewrite Hlen in Hze. rewrite <-Hze in Ewr.
  pose proof (emitted_size _ _ _ _ Hw He1) as Hzs. pose proof He1 as [Hin1 _]. pose proof (zlen_nonneg (entries bs)).
  assert (Hsp : emits (zeros (Z.to_nat (hbs - Z.of_nat k * entry_size))) st1
    (if negb (hbs - Z.of_nat k * entry_size =? 0) then spare p (hbs - Z.of_nat k * entry_size) st1 else (0, st1))).
  { destruct (Z.eqb_spec (hbs - Z.of_nat k * entry_size) 0) as [->|]; cbn [negb]; [apply emits_nil; lia|].
    apply spare_emits. nia. }
  destruct (if negb _ then _ else _) as [r2 st2]. destruct Hsp as (Hrd2 & _ & Hok2 & Hcan2). intros [= <- <- <-]. rewrite Ewr in *.
  assert (Hzz : zlen (zeros (Z.to_nat (hbs - Z.of_nat k * entry_size))) = hbs - Z.of_nat k * entry_size)
    by (unfold zlen, zeros; rewrite length_replicate; nia).
  split.
  - intros E. destruct (Hok2 E) as [He2 Hw2]. split; [by eapply emitted_app|]. split; [congruence|].
    split; [lia|]. split; [done|]. destruct Hr1; [lia|done].
  - intros Hc Hin. apply Hcan2. by eapply can_emit_next.
Qed.

Lemma blocks_loop_spec n blocks st r st' :
  let d := c_disks st in
  let bs := blocks_of (Z.to_nat blocks) (c_rd st) bsz (rd_bytes d) in
  (Z.of_nat n - 1) * hash_per_block p < blocks <= Z.of_nat n * hash_per_block p -> 0 < blocks ->
  0 <= c_rd st -> 0 <= c_wr st ->
  apart (lp_rd p) (c_rd st) (blocks * bsz) (c_wr st) (Z.of_nat n * hbs) d ->
  blocks_loop p n blocks st = (r, st') ->
  (r = 0 -> emitted (level_bytes n bs) (c_wr st) d (c_disks st') /\ c_rd st + blocks * bsz <= zlen (rd_bytes d)) /\
  (can_emit (level_bytes n bs) (c_wr st) d -> c_rd st + blocks * bsz <= zlen (rd_bytes d) -> r = 0).
Proof.
  revert blocks st r st'. induction n as [|n IH]; intros blocks st r st' d bs Hn Hb Hrd Hw Hap; [lia|].
  rewrite blocks_loop_eq. set (k := Nat.min per_block (Z.to_nat blocks)).
  assert (Hk : (0 < k)%nat) by lia. assert (Hkb : Z.of_nat k <= blocks) by lia.
  pose proof entry_size_bounds. assert (0 < hbs) by nia. destruct (group_io blocks st) as [[r1 b1] st1] eqn:E1.
  apply group_io_spec in E1 as [Hok1 Hcan1]; [|lia..|]; fold k in Hok1, Hcan1 || fold k.
  2: { eapply apart_part; [..|exact Hap]; nia. }
  assert (Ebs : take per_block bs = blocks_of k (c_rd st) bsz (rd_bytes d) /\
    drop per_block bs = blocks_of (Z.to_nat (blocks - Z.of_nat k)) (c_rd st + Z.of_nat k * bsz) bsz (rd_bytes d)).
  { subst bs. replace (Z.to_nat blocks) with (k + Z.to_nat (blocks - Z.of_nat k))%nat by lia.
    rewrite blocks_of_app. destruct (decide (k = per_block)) as [Ekk|Hne].
    - rewrite <-Ekk, take_app_length', drop_app_length' by (by rewrite length_blocks_of). done.
    - replace (Z.to_nat (blocks - Z.of_nat k)) with 0%nat by lia. cbn [blocks_of]. rewrite app_nil_r.
      rewrite take_ge, drop_ge by (rewrite length_blocks_of; lia). done. }
  cbn [level_bytes]. destruct Ebs as [-> ->]. fold d in Hok1, Hcan1.
  set (g := blocks_of k (c_rd st) bsz (rd_bytes d)) in *.
  assert (Hzg : zlen (group_bytes g) = hbs) by (apply zlen_group; unfold g; rewrite length_blocks_of; lia).
  destruct (Z.eqb_spec r1 0) as [->|Hne]; cbn [negb].
  2: { intros [= <- _]. split; [done|]. intros Hc Hin. apply Hcan1; [by eapply can_emit_app|nia]. }
  destruct (Hok1 eq_refl) as (He1 & Erd & Ewr & -> & Hin1). pose proof (emitted_size _ _ _ _ Hw He1) as Hzs.
  destruct (decide (blocks = Z.of_nat k)) as [Ebk|Hmore].
  { assert (n = 0%nat) as -> by (destruct n; [done|]; assert (Z.of_nat k <= hash_per_block p) by lia; nia).
    cbn [blocks_loop]. intros [= <- <-]. rewrite Ebk, Z.sub_diag. cbn [Z.to_nat blocks_of level_bytes]. rewrite app_nil_r.
    split; [|done]. intros _. split; [done|lia]. }
  assert (Ek : k = per_block) by lia. assert (EkZ : Z.of_nat k = hash_per_block p) by lia.
  destruct (emitted_blocks (Z.to_nat (blocks - Z.of_nat k)) (group_bytes g) (c_rd st + Z.of_nat k * bsz) (c_wr st) d (c_disks st1))
    as [Eb Hzr]; [done|nia|done| |].
  { eapply apart_part; [..|exact Hap]; nia. }
  intros E2. apply IH in E2 as [Hok2 Hcan2]; [|nia|lia|nia|lia|].
  2: { eapply apart_part; [| | | |eapply apart_emitted; [exact He1|exact Hap]]; nia. }
  rewrite Erd, Ewr, Eb, Hzr in *. split.
  - intros ->. destruct (Hok2 eq_refl) as [He2 Hin2]. split; [|lia]. eapply emitted_app; [done|exact He1|by rewrite Hzg].
  - intros Hc Hin. apply Hcan2; [|lia]. rewrite <-Hzg. by eapply can_emit_next.
Qed.

Lemma mult_overflow_ok b size : 0 <= b -> 0 < size -> uint64_mult_overflow b size = (false, b * size) \/ 2 ^ 64 <= b * size.
Proof.
  intros Hb Hs. destruct (Z.le_gt_cases (2 ^ 64) (b * size)) as [|Hlt]; [by right|left].
  unfold uint64_mult_overflow. rewrite u64_id by nia. rewrite Z.div_mul, Z.eqb_refl by lia. done.
Qed.

Lemma mult_overflow_inv b size u : 0 <= b -> 0 < size -> uint64_mult_overflow b size = (false, u) ->
  u = b * size /\ b * size < 2 ^ 64.
Proof.
  intros Hb Hs. unfold uint64_mult_overflow. intros [= He <-]. apply negb_false_iff, Z.eqb_eq in He.
  assert (0 <= b * size) by nia. assert (Hr : 0 <= u64 (b * size) <= b * size).
  { unfold wrap. split; [by apply Z.mod_pos_bound|]. by apply Z.mod_le. }
  pose proof (Z.mul_div_le (u64 (b * size)) size Hs). rewrite He in *.
  assert (Hlt : u64 (b * size) < 2 ^ 64) by (unfold wrap; by apply Z.mod_pos_bound). nia.
Qed.

(** Hash blocks for [n] blocks. *)
Definition groups (n : Z) : Z := (n + hash_per_block p - 1) / hash_per_block p.

Lemma groups_bounds n : 0 < n -> (groups n - 1) * hash_per_block p < n <= groups n * hash_per_block p /\ 0 < groups n.
Proof.
  intros Hn. unfold groups. pose proof (Z.div_mod (n + hash_per_block p - 1) (hash_per_block p)).
  pose proof (Z.mod_pos_bound (n + hash_per_block p - 1) (hash_per_block p)). nia.
Qed.

Lemma create_or_verify_spec data_block hash_block blocks digest d r digest' d' :
  let bs := blocks_of (Z.to_nat blocks) (data_block * bsz) bsz (rd_bytes d) in
  let out := level_bytes (Z.to_nat (groups blocks)) bs in
  lp_digest_size p <= VERITY_MAX_DIGEST_SIZE -> 0 < blocks -> blocks + hash_per_block p < 2 ^ 64 ->
  0 <= data_block -> 0 <= hash_block ->
  apart (lp_rd p) (data_block * bsz) (blocks * bsz) (hash_block * hbs) (groups blocks * hbs) d ->
  create_or_verify p data_block hash_block blocks digest d = (r, digest', d') ->
  (r = 0 -> emitted out (hash_block * hbs) d d' /\ data_block * bsz + blocks * bsz <= zlen (rd_bytes d)) /\
  (can_emit out (hash_block * hbs) d -> data_block * bsz + blocks * bsz <= zlen (rd_bytes d) ->
     zlen (hash_bytes d) < 2 ^ 64 -> zlen (rd_bytes d) < 2 ^ 64 -> r = 0).
Proof.
  intros bs out Hmax Hb Hsum Hdb Hhb Hap. unfold create_or_verify.
  destruct (Z.ltb_spec VERITY_MAX_DIGEST_SIZE (lp_digest_size p)); [lia|]. pose proof entry_size_bounds.
  destruct (groups_bounds blocks Hb) as [Hg Hg0]. assert (0 < hbs) by nia.
  rewrite add64_id, sub64_id by lia. fold (groups blocks).
  destruct (uint64_mult_overflow data_block bsz) as [o1 seek_rd] eqn:E1.
  destruct (uint64_mult_overflow hash_block hbs) as [o2 seek_wr] eqn:E2.
  assert (Hzo : zlen out = groups blocks * hbs) by (unfold out; rewrite zlen_level; lia).
  assert (Hno : can_emit out (hash_block * hbs) d -> data_block * bsz + blocks * bsz <= zlen (rd_bytes d) ->
     zlen (hash_bytes d) < 2 ^ 64 -> zlen (rd_bytes d) < 2 ^ 64 -> o1 = false /\ o2 = false).
  { intros (_ & Hin & _) Hin2 Hz1 Hz2. split.
    - destruct (mult_overflow_ok data_block bsz) as [E|?]; [lia|lia| |nia]. rewrite E in E1. by injection E1.
    - destruct (mult_overflow_ok hash_block hbs) as [E|?]; [lia|lia| |nia]. rewrite E in E2. by injection E2. }
  destruct (o1 || o2) eqn:Eo.
  { intros [= <- _ _]. split; [done|]. intros. destruct Hno as [-> ->]; done. }
  apply orb_false_iff in Eo as [-> ->]. apply mult_overflow_inv in E1 as [-> Hlt1], E2 as [-> Hlt2]; try lia.
  destruct (io_call d) as [ok1 d1] eqn:E1. apply io_call_spec in E1 as (Hs1 & Hm1 & Hq1).
  destruct ok1; cbn [negb]; [|intros [= <- _ _]; split; [done|]; intros (Hq & _) _ _ _; by discriminate Hq1].
  rewrite Hwr. destruct (io_call d1) as [ok2 d2] eqn:E2. apply io_call_spec in E2 as (Hs2 & Hm2 & Hq2).
  assert (Hs : same_bytes d d2) by (destruct Hs1, Hs2; split; congruence).
  assert (Hm : io_moves d d2) by (intros Hq; by apply Hm2, Hm1).
  destruct ok2; cbn [negb]; [|intros [= <- _ _]; split; [done|]; intros (Hq & _) _ _ _; by discriminate (Hq2 (Hm1 Hq))].
  destruct (blocks_loop _ _ _ _) as [r0 st] eqn:E3. intros [= <- <- <-].
  apply blocks_loop_spec in E3 as [Hok Hcan]; cbn [c_rd c_wr c_disks] in *; rewrite ?Z2Nat.id by lia; [|lia|lia|nia|nia|].
  2: { unfold apart in *. destruct Hs as [_ ->]. done. }
  unfold rd_bytes in *. rewrite (same_bytes_dev _ _ _ Hs) in *. fold (rd_bytes d) in *. fold bs in Hok, Hcan. fold out in Hok, Hcan.
  split.
  - intros E. destruct (Hok E) as [He Hin]. split; [by apply (same_bytes_emitted _ _ d d2)|done].
  - intros Hc Hin _ _. apply Hcan; [|done]. by apply (same_bytes_can _ _ d d2).
Qed.
End level.

(** The block whose digest is the root. *)
Lemma create_or_verify_root `{CHL : CryptHashLaws} p data_block digest d r digest' d' :
  0 < lp_digest_size p <= crypt_hash_size (lp_hash_name p) -> lp_digest_size p <= VERITY_MAX_DIGEST_SIZE ->
  0 < lp_data_block_size p -> lp_wr p = false -> 0 < hash_per_block p < 2 ^ 64 - 1 -> 0 <= data_block ->
  create_or_verify p data_block 0 1 digest d = (r, digest', d') ->
  same_bytes d d' /\ io_moves d d' /\
  (r = 0 -> digest' = block_digest p (slice (data_block * lp_data_block_size p) (lp_data_block_size p) (rd_bytes p d)) /\
     data_block * lp_data_block_size p + lp_data_block_size p <= zlen (rd_bytes p d)) /\
  (quiet d -> data_block * lp_data_block_size p + lp_data_block_size p <= zlen (rd_bytes p d) < 2 ^ 64 -> r = 0).
Proof.
  intros Hds Hmax Hb Hwr Hh Hdb. unfold create_or_verify.
  destruct (Z.ltb_spec VERITY_MAX_DIGEST_SIZE (lp_digest_size p)); [lia|].
  rewrite add64_id, sub64_id by lia. replace ((1 + hash_per_block p - 1) / hash_per_block p) with 1
    by (replace (1 + hash_per_block p - 1) with (hash_per_block p) by lia; by rewrite Z.div_same by lia).
  destruct (uint64_mult_overflow data_block _) as [o1 seek_rd] eqn:E1.
  replace (uint64_mult_overflow 0 (lp_hash_block_size p)) with (false, 0)
    by (unfold uint64_mult_overflow; by destruct (lp_hash_block_size p)).
  rewrite orb_false_r. destruct o1.
  { intros [= <- _ <-]. split; [done|]. split; [by intros ?|]. split; [done|]. intros _ Hin.
    destruct (mult_overflow_ok data_block (lp_data_block_size p)) as [E|?]; [lia|lia| |nia]. by rewrite E in E1. }
  apply mult_overflow_inv in E1 as [-> Hlt]; try lia.
  destruct (io_call d) as [ok1 d1] eqn:E1. apply io_call_spec in E1 as (Hs1 & Hm1 & Hq1).
  destruct ok1; cbn [negb]; [|intros [= <- _ <-]; split; [done|]; split; [done|]; split; [done|]; intros Hq; by discriminate Hq1].
  rewrite Hwr. cbn [negb]. change (Z.to_nat 1) with 1%nat. cbn [blocks_loop]. rewrite Hwr. cbn [andb].
  destruct (Z.to_nat (hash_per_block p)) as [|n] eqn:En; [lia|]. cbn [group_loop]. rewrite Hwr. change (1 =? 0) with false. cbn [negb].
  destruct (hash_data p _) as [r1 st1] eqn:E2.
  apply hash_data_spec in E2 as (Hs2 & Hm2 & _ & Hok & Hcan); [|done..]. cbn [c_disks c_rd] in *.
  assert (Hs : same_bytes d (c_disks st1)) by (destruct Hs1, Hs2; split; congruence).
  assert (Hm : io_moves d (c_disks st1)) by (intros Hq; by apply Hm2, Hm1).
  assert (E : rd_bytes p d1 = rd_bytes p d) by (by apply same_bytes_dev). rewrite E in *.
  destruct (Z.eqb_spec r1 0) as [->|Hne]; cbn [negb Z.eqb].
  - intros [= <- <- <-]. split; [done|]. split; [done|]. split; [|done]. intros _. by destruct (Hok eq_refl) as (_ & ? & ?).
  - rewrite (proj2 (Z.eqb_neq r1 0)) by done. cbn [negb]. intros [= <- <- <-]. split; [done|]. split; [done|]. split; [done|].
    intros Hq Hin. apply Hcan; [by apply Hm1|lia].
Qed.

(** ** Sizes and places of levels *)

Lemma get_bits_down_log2 u : 0 < u < 2 ^ 64 -> get_bits_down u = Z.log2 u.
Proof.
  intros Hu. pose proof (Z.log2_spec u ltac:(lia)) as Hl. pose proof (Z.log2_nonneg u).
  assert (Hlt : Z.log2 u < 64) by (apply Z.log2_lt_pow2; lia).
  assert (Hloop : forall fuel i, 0 <= i <= Z.log2 u -> Z.log2 u - i <= Z.of_nat fuel -> bits_down_loop fuel i u = Z.log2 u).
  { induction fuel as [|fuel IH]; intros i Hi Hf; cbn [bits_down_loop]; [lia|].
    rewrite Z.shiftr_div_pow2 by lia. assert (Hpi : 0 < 2 ^ i) by (apply Z.pow_pos_nonneg; lia).
    destruct (Z.ltb_spec 1 (u / 2 ^ i)) as [H1|H1].
    - apply IH; [|lia]. split; [lia|]. apply Z.log2_le_pow2; [lia|].
      assert (2 <= u / 2 ^ i) by lia. pose proof (Z.mul_div_le u (2 ^ i) Hpi). rewrite Z.pow_add_r by lia. nia.
    - destruct (decide (i = Z.log2 u)); [done|]. exfalso.
      assert (Hp : 2 ^ (i + 1) <= 2 ^ Z.log2 u) by (apply Z.pow_le_mono_r; lia). rewrite Z.pow_add_r in Hp by lia.
      assert (2 <= u / 2 ^ i); [|lia]. apply Z.div_le_lower_bound; lia. }
  apply Hloop; lia.
Qed.

Lemma get_bits_up_log2 u : 0 < u <= 2 ^ 31 -> get_bits_up u = Z.log2_up u.
Proof.
  intros Hu. pose proof (Z.log2_up_nonneg u).
  assert (Hle : Z.log2_up u <= 31) by (apply Z.log2_up_le_pow2; lia).
  assert (Hpow : u <= 2 ^ Z.log2_up u) by (apply Z.log2_up_le_pow2; lia).
  assert (Hloop : forall fuel i, 0 <= i <= Z.log2_up u -> Z.log2_up u - i <= Z.of_nat fuel -> bits_up_loop fuel i u = Z.log2_up u).
  { induction fuel as [|fuel IH]; intros i Hi Hf; cbn [bits_up_loop]; [lia|].
    assert (2 ^ i <= 2 ^ 31) by (apply Z.pow_le_mono_r; lia).
    rewrite Z.shiftl_1_l, u32_id by lia. destruct (Z.ltb_spec (2 ^ i) u) as [H1|H1].
    - apply IH; [|lia]. split; [lia|]. apply Z.log2_up_lt_pow2 in H1; lia.
    - apply Z.log2_up_le_pow2 in H1; lia. }
  apply Hloop; lia.
Qed.

(** A hash block of a power of two of bytes has room for its digests. *)
Lemma digests_fit k ds :
  0 <= k < 64 -> 0 < ds <= 2 ^ 31 -> ds <= 2 ^ k ->
  2 ^ get_bits_down (2 ^ k / ds) * 2 ^ get_bits_up ds <= 2 ^ k /\ ds <= 2 ^ get_bits_up ds /\
  2 ^ get_bits_down (2 ^ k / ds) * ds <= 2 ^ k.
Proof.
  intros Hk Hds Hle. assert (Hq : 0 < 2 ^ k / ds) by (apply Z.div_str_pos; lia).
  assert (2 ^ k < 2 ^ 64) by (apply Z.pow_lt_mono_r; lia).
  assert (2 ^ k / ds <= 2 ^ k) by (apply Z.div_le_upper_bound; nia).
  rewrite get_bits_down_log2, get_bits_up_log2 by lia. set (m := Z.log2_up ds).
  assert (Hm0 : 0 <= m) by apply Z.log2_up_nonneg. assert (Hm : ds <= 2 ^ m) by (apply Z.log2_up_le_pow2; lia).
  assert (Hmk : m <= k) by (apply Z.log2_up_le_pow2; lia).
  assert (Hl : 2 ^ Z.log2 (2 ^ k / ds) <= 2 ^ k / ds) by (apply Z.log2_spec; lia).
  pose proof (Z.mul_div_le (2 ^ k) ds ltac:(lia)). split; [|split; [done|nia]].
  rewrite <-Z.pow_add_r by (apply Z.log2_nonneg || lia). apply Z.pow_le_mono_r; [lia|].
  assert (Z.log2 (2 ^ k / ds) < k - m + 1); [|lia]. apply Z.log2_lt_pow2; [lia|].
  apply Z.div_lt_upper_bound; [lia|]. destruct (decide (ds = 1)) as [->|].
  - change m with 0. rewrite Z.sub_0_r, Z.mul_1_l. apply Z.pow_lt_mono_r; lia.
  - assert (2 ^ (m - 1) < ds). { apply Z.log2_up_lt_pow2; [lia|]. fold m. lia. }
    assert (1 <= m) by (assert (0 < m); [apply Z.log2_up_pos; lia|lia]).
    replace (2 ^ k) with (2 ^ (m - 1) * 2 ^ (k - m + 1)) by (rewrite <-Z.pow_add_r by lia; f_equal; lia).
    assert (0 < 2 ^ (k - m + 1)) by (apply Z.pow_pos_nonneg; lia). nia.
Qed.

(** Levels of [sizes] that hold [2^bits] digests a block, above [n] blocks;
    each lies before the one below it. *)
Fixpoint placed (per : Z) (n lo hi : Z) (levels : list (Z * Z)) : Prop :=
  match levels with
  | [] => n = 1
  | (b, s) :: levels => s = (n + per - 1) / per /\ 0 < s /\ lo <= b /\ b + s <= hi /\ placed per s lo b levels
  end.

(** Rounding up twice is rounding up once. *)
Lemma ceil_ceil n a b : 0 < a -> 0 < b -> ((n + a - 1) / a + b - 1) / b = (n + a * b - 1) / (a * b).
Proof.
  intros Ha Hb. rewrite <-Z.div_div by lia. f_equal.
  replace (n + a * b - 1) with (n + a - 1 + (b - 1) * a) by ring. rewrite Z.div_add by lia. lia.
Qed.

Lemma ceil_pos n a : 0 < n -> 0 < a -> 0 < (n + a - 1) / a.
Proof. intros. apply Z.div_str_pos. lia. Qed.

Lemma place_levels_placed bits blocks n lo pos acc e levels :
  0 < blocks < 2 ^ 63 -> 0 < bits -> 0 <= lo <= pos -> pos < 2 ^ 64 ->
  placed (2 ^ bits) ((blocks + 2 ^ (Z.of_nat n * bits) - 1) / 2 ^ (Z.of_nat n * bits)) lo pos acc ->
  place_levels n bits blocks pos acc = Some (e, levels) ->
  placed (2 ^ bits) blocks lo e levels /\ pos <= e < 2 ^ 64.
Proof.
  revert pos acc. induction n as [|n IH]; intros pos acc Hb Hbits Hpos Hlt Hacc; cbn [place_levels].
  { intros [= <- <-]. change (Z.of_nat 0 * bits) with 0 in Hacc. rewrite Z.pow_0_r, Z.div_1_r in Hacc.
    replace (blocks + 1 - 1) with blocks in Hacc by lia. split; [done|lia]. }
  set (k := Z.of_nat (S n) * bits) in *. destruct (Z.ltb_spec 63 k) as [|Hk]; [done|].
  assert (Hk0 : 0 < k) by nia. assert (Hpk : 0 < 2 ^ k <= 2 ^ 63) by (split; [lia|apply Z.pow_le_mono_r; lia]).
  rewrite Z.shiftl_1_l, (add64_id blocks), (sub64_id (blocks + _)) by lia. rewrite Z.shiftr_div_pow2 by lia.
  set (s := (blocks + 2 ^ k - 1) / 2 ^ k) in *. assert (Hs : 0 < s) by (apply ceil_pos; lia).
  assert (Hs2 : s <= blocks + 2 ^ k - 1) by (apply Z.div_le_upper_bound; nia).
  destruct (Z.ltb_spec (pos +64 s) pos) as [|Hno]; [done|].
  assert (Hsum : pos + s < 2 ^ 64).
  { destruct (Z.lt_ge_cases (pos + s) (2 ^ 64)); [done|]. exfalso.
    assert (Hw : pos +64 s = pos + s - 2 ^ 64); [|lia]. unfold wrap. symmetry. apply Z.mod_unique with 1; lia. }
  rewrite add64_id in * by lia. intros H. apply IH in H as [H1 H2]; [split; [done|lia]|done|done|lia|done|].
  cbn [placed]. split; [|split; [done|split; [lia|split; [lia|done]]]]. subst s k.
  rewrite ceil_ceil by (apply Z.pow_pos_nonneg; lia). rewrite <-Z.pow_add_r by lia.
  by replace (Z.of_nat n * bits + bits) with (Z.of_nat (S n) * bits) by lia.
Qed.

Lemma count_levels_spec bits last : 0 < bits -> 
  let l := count_levels 65 bits last 0 in 0 <= l /\ (64 <= bits * l \/ Z.shiftr last (bits * l) = 0).
Proof.
  intros Hb. assert (Hloop : forall fuel l, 0 <= l -> 64 < l + Z.of_nat fuel ->
    let l' := count_levels fuel bits last l in 0 <= l' /\ (64 <= bits * l' \/ Z.shiftr last (bits * l') = 0)).
  { induction fuel as [|fuel IH]; intros l Hl Hf; cbn [count_levels]; [split; [done|left; nia]|].
    destruct (Z.ltb_spec (bits * l) 64); cbn [andb]; [|split; [done|left; lia]].
    destruct (Z.eqb_spec (Z.shiftr last (bits * l)) 0); cbn [negb]; [split; [done|by right]|]. apply IH; lia. }
  apply Hloop; lia.
Qed.

Lemma hash_levels_placed hbs ds blocks pos e levels :
  0 < ds <= hbs -> hbs < 2 ^ 64 -> 0 < blocks < 2 ^ 63 -> 0 <= pos < 2 ^ 64 ->
  hash_levels hbs ds blocks pos = Some (e, levels) ->
  placed (2 ^ get_bits_down (hbs / ds)) blocks pos e levels /\ pos <= e < 2 ^ 64.
Proof.
  intros Hds Hh Hb Hp. unfold hash_levels. destruct (Z.eqb_spec ds 0); [lia|].
  destruct (Z.eqb_spec (get_bits_down (hbs / ds)) 0) as [|Hne]; [done|].
  assert (Hbits : 0 < get_bits_down (hbs / ds)).
  { assert (0 < hbs / ds) by (apply Z.div_str_pos; lia). assert (hbs / ds <= hbs) by (apply Z.div_le_upper_bound; nia).
    rewrite get_bits_down_log2 in * by lia. pose proof (Z.log2_nonneg (hbs / ds)). lia. }
  rewrite sub64_id by lia. destruct (count_levels_spec (get_bits_down (hbs / ds)) (blocks - 1) Hbits) as [Hl Hlast].
  set (l := count_levels _ _ _ _) in *. clearbody l. destruct (VERITY_MAX_LEVELS <? l); [done|]. intros H.
  destruct Hlast as [Hbig|Hlast].
  - exfalso. destruct (Z.to_nat l) as [|m] eqn:En; [lia|]. cbn [place_levels] in H.
    destruct (Z.ltb_spec 63 (Z.of_nat (S m) * get_bits_down (hbs / ds))); [done|nia].
  - apply place_levels_placed with (lo := pos) in H; try done; try lia. rewrite Z2Nat.id by lia.
    rewrite Z.shiftr_div_pow2 in Hlast by nia. rewrite Z.mul_comm in Hlast. set (q := 2 ^ (l * _)) in *.
    assert (Hq : 0 < q) by (apply Z.pow_pos_nonneg; nia). apply Z.div_small_iff in Hlast; [|lia].
    cbn [placed]. symmetry. apply Z.div_unique with (blocks - 1); lia.
Qed.

(** An empty device has no tree: the levels do not end. *)
Lemma hash_levels_empty hbs ds pos : 0 < ds <= hbs -> hbs < 2 ^ 64 -> hash_levels hbs ds 0 pos = None.
Proof.
  intros Hds Hh. unfold hash_levels. destruct (Z.eqb_spec ds 0); [lia|].
  destruct (Z.eqb_spec (get_bits_down (hbs / ds)) 0) as [|Hne]; [done|].
  assert (Hbits : 0 < get_bits_down (hbs / ds)).
  { assert (0 < hbs / ds) by (apply Z.div_str_pos; lia). assert (hbs / ds <= hbs) by (apply Z.div_le_upper_bound; nia).
    rewrite get_bits_down_log2 in * by lia. pose proof (Z.log2_nonneg (hbs / ds)). lia. }
  change (0 -64 1) with (2 ^ 64 - 1). set (bits := get_bits_down _) in *.
  destruct (count_levels_spec bits (2 ^ 64 - 1) Hbits) as [Hl Hlast]. set (l := count_levels _ _ _ _) in *. clearbody l.
  destruct (VERITY_MAX_LEVELS <? l); [done|]. assert (Hbig : 64 <= bits * l).
  { destruct Hlast as [|Hlast]; [done|]. destruct (Z.le_gt_cases 64 (bits * l)); [done|]. exfalso.
    rewrite Z.shiftr_div_pow2 in Hlast by nia. apply Z.div_small_iff in Hlast; [|apply Z.pow_nonzero; nia].
    assert (2 ^ (bits * l) <= 2 ^ 63) by (apply Z.pow_le_mono_r; lia). lia. }
  destruct (Z.to_nat l) as [|m] eqn:En; [lia|]. cbn [place_levels].
  destruct (Z.ltb_spec 63 (Z.of_nat (S m) * bits)); [done|nia].
Qed.
