(* ===== verification/VerityTree.v ===== *)
(** * VerityTree: creating and verifying a whole hash tree

    A tree that was created verifies ([verity_create_verifies]); a device that
    verifies against the root hash of another one has the same data, or two
    different blocks with the same digest are at hand ([verity_verify_sound]). *)

From S2P Require Import Prelude CryptBackend VerityHash VerityHashProps.

Section tree.
Context `{CHL : CryptHashLaws}.
Variable params : crypt_params_verity.
Variable ds : Z.

Abbreviation hb := (hash_block_size params).
Abbreviation db := (data_block_size params).

(** The parameters of every level, but for the mode and the stream read. *)
Definition lp0 : level_params := level_of params false ds HASH_FILE true hb.
Definition per : Z := hash_per_block lp0.
Definition digest : bytes -> bytes := block_digest lp0.
Definition level (n : Z) (datas : list bytes) : bytes := level_bytes lp0 (Z.to_nat n) datas.

(** Parameters that [_crypt_format_verity] and [VERITY_read_sb] accept, and a
    digest the hash function gives. *)
Record params_ok : Prop := {
  po_block : exists k, hb = 2 ^ k /\ 9 <= k <= 19;
  po_data : 512 <= db;
  po_digest : 0 < ds <= crypt_hash_size (hash_name params);
  po_size : 0 <= data_size params;
  po_offset : 0 <= hash_area_offset params < 2 ^ 63;
}.
Hypothesis Hp : params_ok.

Lemma ds_bounds : 0 < ds <= 64.
Proof. pose proof (po_digest Hp). pose proof (hash_size_max (hash_name params)). unfold MAX_DIGEST in *. lia. Qed.

Lemma hb_bounds : 512 <= hb <= 524288.
Proof.
  destruct (po_block Hp) as (k & -> & Hk). change 512 with (2 ^ 9). change 524288 with (2 ^ 19).
  split; apply Z.pow_le_mono_r; lia.
Qed.

Lemma level_fits v rd wr bsz :
  let p := level_of params v ds rd wr bsz in
  0 < hash_per_block p /\ hash_per_block p * entry_size p <= hb < 2 ^ 64 /\ ds <= digest_size_full p /\
  hash_per_block p <= hb.
Proof.
  intros p. destruct (po_block Hp) as (k & Ek & Hk). pose proof ds_bounds. pose proof hb_bounds.
  destruct (digests_fit k ds) as (H1 & H2 & H3); [lia|lia|lia|].
  assert (Eh : hash_per_block p = 2 ^ get_bits_down (2 ^ k / ds)).
  { unfold hash_per_block. cbn. by rewrite Z.shiftl_1_l, Ek. }
  assert (Ef : digest_size_full p = 2 ^ get_bits_up ds).
  { unfold digest_size_full. cbn. by rewrite Z.shiftl_1_l. }
  assert (Hpos : 0 < 2 ^ get_bits_down (2 ^ k / ds)).
  { apply Z.pow_pos_nonneg; [lia|]. rewrite get_bits_down_log2; [apply Z.log2_nonneg|].
    split; [apply Z.div_str_pos; lia|]. apply Z.div_lt_upper_bound; nia. }
  unfold entry_size. rewrite Ef, Eh. change (lp_digest_size p) with ds.
  split; [done|]. split; [|split; [done|nia]]. split; [|lia]. destruct (lp_version p =? 0); rewrite ?Ek; lia.
Qed.

Lemma per_pos : 0 < per <= hb.
Proof. destruct (level_fits false HASH_FILE true hb) as (H1 & _ & _ & H2). done. Qed.

Lemma zlen_level_tree n datas : 0 <= n -> zlen (level n datas) = n * hb.
Proof.
  intros Hn. destruct (level_fits false HASH_FILE true hb) as (H1 & H2 & H3 & H4). unfold level.
  rewrite (zlen_level lp0); [rewrite Z2Nat.id by done; done|exact (po_digest Hp)|done|by split].
Qed.

(** Every level has the digests of the blocks below it; [lower] are the blocks
    below the first of [levels]. *)
Fixpoint tree_holds (levels : list (Z * Z)) (lower : list bytes) (H : bytes) : Prop :=
  match levels with
  | [] => True
  | (b, s) :: levels =>
      slice (b * hb) (s * hb) H = level s lower /\ tree_holds levels (blocks_of (Z.to_nat s) (b * hb) hb H) H
  end.

Fixpoint top_blocks (levels : list (Z * Z)) (lower : list bytes) (H : bytes) : list bytes :=
  match levels with
  | [] => lower
  | (b, s) :: levels => top_blocks levels (blocks_of (Z.to_nat s) (b * hb) hb H) H
  end.

Definition tree_root (levels : list (Z * Z)) (lower : list bytes) (H : bytes) : bytes :=
  digest (default [] (head (top_blocks levels lower H))).

Lemma tree_holds_frame per_ levels n lo hi lower H H' :
  0 <= lo -> placed per_ n lo hi levels -> (forall o m, lo * hb <= o -> 0 <= m -> o + m <= hi * hb -> slice o m H' = slice o m H) ->
  (tree_holds levels lower H -> tree_holds levels lower H') /\ top_blocks levels lower H' = top_blocks levels lower H.
Proof.
  intros Hlo. pose proof hb_bounds. revert n hi lower. induction levels as [|[b s] levels IH]; intros n hi lower; [done|].
  cbn [placed tree_holds top_blocks]. intros (_ & Hs & Hb & Hin & Hpl) Hf.
  assert (E : slice (b * hb) (s * hb) H' = slice (b * hb) (s * hb) H) by (apply Hf; nia).
  assert (Eb : blocks_of (Z.to_nat s) (b * hb) hb H' = blocks_of (Z.to_nat s) (b * hb) hb H)
    by (apply blocks_of_ext; [nia|lia|by rewrite Z2Nat.id by lia]).
  rewrite E, Eb. destruct (IH s b (blocks_of (Z.to_nat s) (b * hb) hb H) Hpl) as [IH1 IH2].
  { intros o m ? ? ?. apply Hf; nia. }
  split; [|done]. intros [? ?]. split; auto.
Qed.

(** A level of the code is a level of the tree. *)
Lemma level_spec v rd bsz data_block hash_block blocks dg d r dg' d' :
  let p := level_of params v ds rd true bsz in
  let lower := blocks_of (Z.to_nat blocks) (data_block * bsz) bsz (dev_bytes rd d) in
  let s := (blocks + per - 1) / per in
  0 < bsz -> 0 < blocks < 2 ^ 63 -> 0 <= data_block -> 0 <= hash_block ->
  apart p rd (data_block * bsz) (blocks * bsz) (hash_block * hb) (s * hb) d ->
  create_or_verify p data_block hash_block blocks dg d = (r, dg', d') ->
  (r = 0 -> emitted p (level s lower) (hash_block * hb) d d' /\
            data_block * bsz + blocks * bsz <= zlen (dev_bytes rd d)) /\
  (can_emit p (level s lower) (hash_block * hb) d -> data_block * bsz + blocks * bsz <= zlen (dev_bytes rd d) ->
     zlen (hash_bytes d) < 2 ^ 64 -> zlen (dev_bytes rd d) < 2 ^ 64 -> r = 0).
Proof.
  intros p lower s Hb Hblocks Hdb Hhb Hap E. destruct (level_fits v rd true bsz) as (H1 & H2 & H3 & H4).
  pose proof ds_bounds. pose proof hb_bounds.
  exact (create_or_verify_spec p (po_digest Hp) H3 Hb eq_refl (conj H1 H2) data_block hash_block blocks dg d r dg' d'
    ltac:(change (lp_digest_size p) with ds; unfold VERITY_MAX_DIGEST_SIZE; lia) (proj1 Hblocks)
    ltac:(change (hash_per_block p) with (hash_per_block p); fold p in H4; lia) Hdb Hhb Hap E).
Qed.

(** ** Frames *)

(** Only hash blocks [lo], ..., [hi - 1] may have changed. *)
Definition framed (lo hi : Z) (d d' : disks) : Prop :=
  io_moves d d' /\ zlen (hash_bytes d') = zlen (hash_bytes d) /\
  (forall o m, 0 <= o -> 0 <= m -> o + m <= lo * hb \/ hi * hb <= o -> slice o m (hash_bytes d') = slice o m (hash_bytes d)) /\
  (dk_hash d' = None <-> dk_hash d = None) /\ (is_Some (dk_hash d) -> dk_data d' = dk_data d).

Lemma same_framed lo hi d d' : same_bytes d d' -> io_moves d d' -> framed lo hi d d'.
Proof.
  intros Hs Hm. unfold framed, hash_bytes. rewrite (same_bytes_dev HASH_FILE _ _ Hs). destruct Hs as [E1 E2].
  rewrite E1, E2. done.
Qed.

Lemma framed_trans lo1 hi1 lo2 hi2 lo hi d d1 d2 :
  lo <= lo1 -> hi1 <= hi -> lo <= lo2 -> hi2 <= hi -> framed lo1 hi1 d d1 -> framed lo2 hi2 d1 d2 -> framed lo hi d d2.
Proof.
  intros ? ? ? ? (M1 & Z1 & S1 & N1 & D1) (M2 & Z2 & S2 & N2 & D2). pose proof hb_bounds. split; [|split; [|split; [|split]]].
  - intros Hq. by apply M2, M1.
  - congruence.
  - intros o m Ho Hm Hout. rewrite S2, S1 by (done || nia). done.
  - by rewrite N2.
  - intros Hd. rewrite D2, D1; [done..|]. destruct (dk_hash d1) eqn:E; [by eexists|].
    rewrite (proj1 N1 eq_refl) in Hd. by destruct Hd.
Qed.

Lemma emitted_framed p b h s d d' : 0 <= h -> zlen b = s * hb -> emitted p b (h * hb) d d' -> framed h (h + s) d d'.
Proof.
  intros Hh Hz He. pose proof hb_bounds. assert (Hw : 0 <= h * hb) by nia. pose proof (emitted_size _ _ _ _ _ Hw He) as Hzs.
  pose proof He as (Hin & Hm & _). split; [done|]. split; [done|]. split.
  - intros o m Ho Hm0 Hout. destruct (emitted_read p HASH_FILE o m b (h * hb) d d') as [E _]; try done.
    right; right. nia.
  - destruct He as (_ & _ & He). destruct (lp_verify p); [destruct He as [[E1 E2] _]|destruct He as [E1 E2]]; rewrite E1, E2; [done|].
    unfold set_hash_bytes. destruct (dk_hash d); split; done.
Qed.

Lemma emitted_there p b wr d d' : 0 <= wr -> emitted p b wr d d' -> slice wr (zlen b) (hash_bytes d') = b.
Proof.
  intros Hw (Hin & _ & He). destruct (lp_verify p).
  - destruct He as [Hs E]. unfold hash_bytes. by rewrite (same_bytes_dev _ _ _ Hs).
  - unfold hash_bytes. rewrite (same_bytes_dev _ _ _ He). change (dev_bytes HASH_FILE) with hash_bytes.
    rewrite hash_set_bytes. apply slice_splice_same; lia.
Qed.

(** The last level is one block. *)
Lemma top_last per_ n lo hi levels lower H :
  placed per_ n lo hi levels -> levels <> [] ->
  let b := (List.last levels (0, 0)).1 in
  top_blocks levels lower H = [slice (b * hb) hb H] /\ lo <= b /\ b + 1 <= hi.
Proof.
  revert n hi lower. induction levels as [|[b s] levels IH]; intros n hi lower Hpl Hne; [done|].
  cbn [placed] in Hpl. destruct Hpl as (_ & Hs & Hb & Hin & Hpl). destruct levels as [|[b2 s2] levels'].
  - cbn [placed] in Hpl. subst s. cbn [List.last top_blocks fst]. change (Z.to_nat 1) with 1%nat. cbn [blocks_of]. split; [done|lia].
  - destruct (IH s b (blocks_of (Z.to_nat s) (b * hb) hb H) Hpl) as (IH1 & IH2 & IH3); [done|].
    change (List.last ((b, s) :: (b2, s2) :: levels') (0, 0)) with (List.last ((b2, s2) :: levels') (0, 0)).
    cbn [top_blocks] in *. split; [done|lia].
Qed.

(** ** The levels *)

Lemma upper_levels_spec v levels block size lo dg d r dg' d' :
  let lower := blocks_of (Z.to_nat size) (block * hb) hb (hash_bytes d) in
  0 <= lo -> placed per size lo block levels -> 0 < size < 2 ^ 62 -> 0 <= block ->
  upper_levels params v ds levels block size dg d = (r, dg', d') ->
  (r = 0 -> tree_holds levels lower (hash_bytes d') /\ framed lo block d d' /\ (v = true -> same_bytes d d')) /\
  (quiet d -> block * hb + size * hb <= zlen (hash_bytes d) < 2 ^ 64 ->
     (v = true -> tree_holds levels lower (hash_bytes d)) -> r = 0).
Proof.
  pose proof hb_bounds. pose proof per_pos. revert block size dg d.
  induction levels as [|[b s] levels IH]; intros block size dg d lower Hlo Hpl Hs Hb; cbn [upper_levels].
  { intros [= <- <- <-]. split; [|done]. intros _. split; [done|]. split; [|done]. apply same_framed; [done|by intros ?]. }
  cbn [placed] in Hpl. destruct Hpl as (Es & Hs0 & Hlb & Hbs & Hpl).
  assert (Hss : s <= size) by (rewrite Es; apply Z.div_le_upper_bound; nia).
  assert (Hroom : b * hb + s * hb <= block * hb /\ 0 < size * hb) by nia.
  destruct (io_call d) as [ok d1] eqn:E1. apply io_call_spec in E1 as (Hs1 & Hm1 & Hq1).
  destruct ok; cbn [negb]; [|intros [= <- _ _]; split; [done|]; intros Hq; by discriminate Hq1].
  assert (Eh : hash_bytes d1 = hash_bytes d) by (by apply same_bytes_dev).
  destruct (create_or_verify _ _ _ _ _ _) as [[r2 dg2] d2] eqn:E2.
  apply level_spec in E2 as [Hok2 Hcan2]; try lia.
  2: { right; right. right. rewrite <-Es. nia. }
  rewrite <-Es in Hok2, Hcan2. change (dev_bytes HASH_FILE d1) with (hash_bytes d1) in Hok2, Hcan2.
  rewrite Eh in Hok2, Hcan2. fold lower in Hok2, Hcan2.
  destruct (Z.eqb_spec r2 0) as [->|Hne]; cbn [negb].
  2: { intros [= <- _ _]. split; [done|]. intros Hq Hin Hv. apply Hcan2; try lia. split; [by apply Hm1|].
       rewrite Eh, zlen_level_tree by lia. split; [lia|]. intros Hver. by apply Hv. }
  destruct (Hok2 eq_refl) as [He2 Hin2].
  assert (Hz : zlen (level s lower) = s * hb) by (apply zlen_level_tree; lia).
  assert (Hf2 : framed b (b + s) d1 d2) by (eapply emitted_framed; [lia|exact Hz|exact He2]).
  pose proof (emitted_there _ _ (b * hb) _ _ ltac:(nia) He2) as Hthere. rewrite Hz in Hthere.
  assert (Hsame : v = true -> same_bytes d d2).
  { intros ->. destruct He2 as (_ & _ & [He2 _]). destruct Hs1, He2. split; congruence. }
  intros E3. apply IH in E3 as [Hok3 Hcan3]; [|done|done|lia|lia].
  pose proof (framed_trans lo block b (b + s) lo block d d1 d2 ltac:(lia) ltac:(lia) ltac:(lia) ltac:(lia)
    (same_framed lo block d d1 Hs1 Hm1) Hf2) as Hf.
  split.
  - intros E. destruct (Hok3 E) as (Ht & Hf3 & Hv3). split; [|split].
    + cbn [tree_holds]. pose proof Hf3 as (_ & _ & Hs3 & _).
      assert (Esl : slice (b * hb) (s * hb) (hash_bytes d') = slice (b * hb) (s * hb) (hash_bytes d2))
        by (apply Hs3; [nia|nia|right; nia]).
      split; [by rewrite Esl|].
      assert (Eb : blocks_of (Z.to_nat s) (b * hb) hb (hash_bytes d') = blocks_of (Z.to_nat s) (b * hb) hb (hash_bytes d2))
        by (apply blocks_of_ext; [nia|lia|by rewrite Z2Nat.id by lia]).
      by rewrite Eb.
    + eapply framed_trans; [..|exact Hf|exact Hf3]; lia.
    + intros Hv. specialize (Hsame Hv). destruct Hsame, (Hv3 Hv). split; congruence.
  - intros Hq Hin Hv. apply Hcan3.
    + by apply Hf.
    + destruct Hf as (_ & -> & _). nia.
    + intros Hver. specialize (Hsame Hver). unfold hash_bytes. rewrite (same_bytes_dev _ _ _ Hsame).
      by apply Hv.
Qed.

Lemma root_spec v rd bsz data_block dg d r dg' d' :
  0 < bsz -> 0 <= data_block ->
  create_or_verify (level_of params v ds rd false bsz) data_block 0 1 dg d = (r, dg', d') ->
  same_bytes d d' /\ io_moves d d' /\
  (r = 0 -> dg' = digest (slice (data_block * bsz) bsz (dev_bytes rd d)) /\ data_block * bsz + bsz <= zlen (dev_bytes rd d)) /\
  (quiet d -> data_block * bsz + bsz <= zlen (dev_bytes rd d) < 2 ^ 64 -> r = 0).
Proof.
  intros Hb Hdb E. destruct (level_fits v rd false bsz) as (H1 & H2 & H3 & H4).
  pose proof ds_bounds. pose proof hb_bounds.
  exact (create_or_verify_root (level_of params v ds rd false bsz) data_block dg d r dg' d' (po_digest Hp)
    ltac:(change (lp_digest_size _) with ds; unfold VERITY_MAX_DIGEST_SIZE; lia) Hb eq_refl ltac:(lia) Hdb E).
Qed.

(** The tree is not built where the data is. *)
Definition separate (v : bool) (lo blocks : Z) (d : disks) : Prop :=
  v = true \/ is_Some (dk_hash d) \/ blocks * db <= lo * hb.

Lemma framed_data lo hi blocks d d' :
  0 <= lo -> is_Some (dk_hash d) \/ blocks * db <= lo * hb -> 0 <= blocks ->
  framed lo hi d d' -> slice 0 (blocks * db) (dk_data d') = slice 0 (blocks * db) (dk_data d).
Proof.
  intros Hlo Hsep Hb (_ & _ & Hs & Hn & Hd). pose proof (po_data Hp). destruct (dk_hash d) as [x|] eqn:E.
  { rewrite Hd; [done|by eexists]. }
  destruct Hsep as [[? ?]|Hsep]; [done|]. unfold hash_bytes, dev_bytes in Hs. rewrite E, (proj2 Hn eq_refl) in Hs. cbn in Hs.
  apply Hs; [lia|nia|left; lia].
Qed.

(** The hash device has room for the first level, which is the last one on it. *)
Definition fits (levels : list (Z * Z)) (d : disks) : Prop :=
  zlen (hash_bytes d) < 2 ^ 64 /\
  match levels with [] => True | (b, s) :: _ => b * hb + s * hb <= zlen (hash_bytes d) end.

Lemma hash_tree_spec v levels blocks lo hi d r dg' d' :
  let lower := blocks_of (Z.to_nat blocks) 0 db (dk_data d) in
  placed per blocks lo hi levels -> 0 < blocks < 2 ^ 62 -> 0 <= lo -> separate v lo blocks d ->
  hash_tree params v ds levels blocks d = (r, dg', d') ->
  (r = 0 -> tree_holds levels lower (hash_bytes d') /\ dg' = tree_root levels lower (hash_bytes d') /\
            framed lo hi d d' /\ (v = true -> same_bytes d d') /\ blocks * db <= zlen (dk_data d) /\
            (zlen (hash_bytes d) < 2 ^ 64 -> fits levels d)) /\
  (quiet d -> blocks * db <= zlen (dk_data d) < 2 ^ 64 -> fits levels d ->
     (v = true -> tree_holds levels lower (hash_bytes d)) -> r = 0).
Proof.
  intros lower Hpl Hbl Hlo Hsep. pose proof (po_data Hp). assert (Hdb0 : 0 < db) by lia. pose proof hb_bounds. pose proof per_pos.
  unfold hash_tree. destruct levels as [|[b s] levels].
  { cbn [placed] in Hpl. subst blocks. intros E. unfold lower. change (Z.to_nat 1) with 1%nat. cbn [blocks_of tree_holds].
    apply root_spec in E as (Hs & Hm & Hok & Hcan); [|done..].
    rewrite Z.mul_0_l, Z.add_0_l in *. change (dev_bytes DATA_FILE d) with (dk_data d) in *.
    split; [|intros Hq Hin _ _; apply Hcan; [done|lia]]. intros Er. destruct (Hok Er) as [-> ?]. split; [done|]. split; [done|].
    split; [by apply same_framed|]. split; [done|split; [lia|by split]]. }
  set (last := List.last ((b, s) :: levels) (0, 0)). pose proof Hpl as Hpl0.
  cbn [placed] in Hpl. destruct Hpl as (Es & Hs0 & Hlb & Hbs & Hpl).
  assert (Hlast : forall l H, top_blocks ((b, s) :: levels) l H = [slice (last.1 * hb) hb H] /\ lo <= last.1 /\ last.1 + 1 <= b + s).
  { intros. apply (top_last per blocks); [|done]. cbn [placed]. repeat (split; [done || lia|]). done. }
  assert (Hss : s <= blocks) by (rewrite Es; apply Z.div_le_upper_bound; nia).
  assert (Hroom : b * hb + s * hb <= hi * hb /\ 0 <= lo * hb <= b * hb) by nia.
  assert (Hz : zlen (level s lower) = s * hb) by (apply zlen_level_tree; lia).
  destruct (create_or_verify _ _ _ _ _ _) as [[r1 dg1] d1] eqn:E1.
  apply level_spec in E1 as [Hok1 Hcan1]; [|lia..|]; rewrite <-?Es in *.
  2: { unfold apart. destruct Hsep as [->|[?|?]]; [by left|right; by left|right; right; left; lia]. }
  rewrite Z.mul_0_l in *. change (dev_bytes DATA_FILE d) with (dk_data d) in *. fold lower in Hok1, Hcan1.
  destruct (Z.eqb_spec r1 0) as [->|Hne]; cbn [negb].
  2: { intros [= <- _ _]. split; [done|]. intros Hq Hin [Hz64 Hh] Hv. apply Hcan1; try lia. split; [done|]. rewrite Hz.
       split; [lia|]. intros Hver. by apply Hv. }
  destruct (Hok1 eq_refl) as [He1 Hin1].
  assert (Hf1 : framed b (b + s) d d1) by (eapply emitted_framed; [lia|exact Hz|exact He1]).
  pose proof (emitted_there _ _ (b * hb) _ _ ltac:(lia) He1) as Hthere. rewrite Hz in Hthere.
  assert (Hsame1 : v = true -> same_bytes d d1) by (intros ->; by destruct He1 as (_ & _ & [? _])).
  destruct (upper_levels _ _ _ _ _ _ _ _) as [[r2 dg2] d2] eqn:E2.
  apply (upper_levels_spec v levels b s lo) in E2 as [Hok2 Hcan2]; [|lia|done|lia|lia].
  assert (Hup : quiet d -> fits ((b, s) :: levels) d ->
     (v = true -> tree_holds ((b, s) :: levels) lower (hash_bytes d)) -> r2 = 0).
  { intros Hq [Hz64 Hh] Hv. apply Hcan2; [by apply Hf1|destruct Hf1 as (_ & -> & _); lia|].
    intros Hver. unfold hash_bytes. rewrite (same_bytes_dev _ _ _ (Hsame1 Hver)). by apply Hv. }
  destruct (Z.eqb_spec r2 0) as [->|Hne]; cbn [negb].
  2: { intros [= <- _ _]. split; [done|]. intros Hq _ Hh Hv. by apply Hup. }
  destruct (Hok2 eq_refl) as (Ht2 & Hf2 & Hv2). fold last. destruct last as [top ts] eqn:El. cbn [fst] in Hlast.
  intros E3. apply root_spec in E3 as (Hs3 & Hm3 & Hok3 & Hcan3); [|lia|destruct (Hlast [] []) as (_ & ? & _); lia]. pose proof (Hlast [] []) as (_ & Hlast1 & Hlast2).
  change (dev_bytes HASH_FILE d2) with (hash_bytes d2) in *.
  assert (Eh : hash_bytes d' = hash_bytes d2) by (by apply same_bytes_dev).
  pose proof (framed_trans b (b + s) lo b lo hi d d1 d2 ltac:(lia) ltac:(lia) ltac:(lia) ltac:(lia) Hf1 Hf2) as Hf.
  split.
  - intros Er. destruct (Hok3 Er) as [Edg _]. destruct He1 as [Hroom1 _]. rewrite Hz in Hroom1.
    split; [|split; [|split; [|split; [|split; [lia|by split]]]]].
    + cbn [tree_holds]. rewrite Eh. pose proof Hf2 as (_ & _ & Hs2 & _).
      assert (Esl : slice (b * hb) (s * hb) (hash_bytes d2) = slice (b * hb) (s * hb) (hash_bytes d1))
        by (apply Hs2; [lia|nia|right; lia]).
      split; [by rewrite Esl|].
      by rewrite (blocks_of_ext _ _ _ (hash_bytes d1)) by (lia || by rewrite Z2Nat.id by lia).
    + unfold tree_root. rewrite (proj1 (Hlast _ _)), Eh. exact Edg.
    + eapply framed_trans; [..|exact Hf|apply (same_framed lo hi); [exact Hs3|exact Hm3]]; lia.
    + intros Hver. destruct (Hsame1 Hver), (Hv2 Hver), Hs3. split; congruence.
  - intros Hq Hin [Hz64 Hh] Hv. apply Hcan3; [by apply Hf|]. destruct Hf as (_ & -> & _). nia.
Qed.

(** ** A tree determines its data *)

(** Different blocks at the same place of two lists have the same digest. *)
Definition collision (l1 l2 : list bytes) : Prop :=
  exists i x y, l1 !! i = Some x /\ l2 !! i = Some y /\ x <> y /\ digest x = digest y.

(** The same of two blocks of the same level, at the same place of two hash
    devices. *)
Definition level_collision (levels : list (Z * Z)) (H1 H2 : bytes) : Prop :=
  exists b s, In (b, s) levels /\ collision (blocks_of (Z.to_nat s) (b * hb) hb H1) (blocks_of (Z.to_nat s) (b * hb) hb H2).

Lemma digests_collision (l1 l2 : list bytes) : digest <$> l1 = digest <$> l2 -> l1 = l2 \/ collision l1 l2.
Proof.
  revert l2. induction l1 as [|x l1 IH]; intros [|y l2]; [by left|done|done|]. rewrite !fmap_cons. intros [= Ex El].
  destruct (decide (x = y)) as [->|Hne]; [|right; by exists 0%nat, x, y].
  apply IH in El as [->|(i & u & v & ?)]; [by left|right; by exists (S i), u, v].
Qed.

Lemma top_collision levels l1 l2 H1 H2 :
  collision (top_blocks levels l1 H1) (top_blocks levels l2 H2) -> collision l1 l2 \/ level_collision levels H1 H2.
Proof.
  revert l1 l2. induction levels as [|[b s] levels IH]; intros l1 l2; cbn [top_blocks]; [by left|].
  intros [Hc|(b' & s' & Hin & Hc)]%IH; right; [exists b, s|exists b', s']; (split; [|exact Hc]); [by left|by right].
Qed.

Lemma entries_inj (l1 l2 : list bytes) : entries lp0 l1 = entries lp0 l2 -> length l1 = length l2 -> digest <$> l1 = digest <$> l2.
Proof.
  destruct (level_fits false HASH_FILE true hb) as (_ & _ & Hf & _).
  revert l2. induction l1 as [|x l1 IH]; intros [|y l2]; try done. cbn [length].
  change (entries lp0 (?a :: ?l)) with (entry lp0 a ++ entries lp0 l). intros E [=Hl].
  assert (Hz : forall a, zlen (entry lp0 a) = entry_size lp0) by (intros; by apply zlen_entry; [exact (po_digest Hp)|]).
  apply app_inj_1 in E as [Ex El]; [|apply Nat2Z.inj; change (zlen (entry lp0 x) = zlen (entry lp0 y)); by rewrite !Hz].
  rewrite !fmap_cons. f_equal; [|by apply IH]. unfold entry in Ex. apply app_inj_1 in Ex as [Ex _]; [done|].
  apply Nat2Z.inj. change (zlen (digest x) = zlen (digest y)).
  unfold digest. by rewrite !(proj2 (verify_hash_block_ok lp0 (po_digest Hp) _)).
Qed.

Lemma level_inj n (l1 l2 : list bytes) :
  level_bytes lp0 n l1 = level_bytes lp0 n l2 -> length l1 = length l2 -> (length l1 <= n * Z.to_nat per)%nat ->
  digest <$> l1 = digest <$> l2.
Proof.
  destruct (level_fits false HASH_FILE true hb) as (H1 & H2 & Hf & H4).
  revert l1 l2. induction n as [|n IH]; intros l1 l2 E Hl Hn.
  { destruct l1; [|cbn in Hn; lia]. by destruct l2. }
  cbn [level_bytes] in E. change (hash_per_block lp0) with per in E.
  assert (Hz : forall l, zlen (group_bytes lp0 (take (Z.to_nat per) l)) = hb).
  { intros l. apply (zlen_group lp0); [exact (po_digest Hp)|exact Hf|by split|]. rewrite length_take. unfold per. lia. }
  apply app_inj_1 in E as [Eg El].
  2: { apply Nat2Z.inj. change (zlen (group_bytes lp0 (take (Z.to_nat per) l1)) = zlen (group_bytes lp0 (take (Z.to_nat per) l2))).
       by rewrite !Hz. }
  rewrite <-(take_drop (Z.to_nat per) l1), <-(take_drop (Z.to_nat per) l2), !fmap_app. f_equal.
  - unfold group_bytes in Eg. apply app_inj_1 in Eg as [Eg _].
    + apply entries_inj; [done|]. rewrite !length_take. lia.
    + apply Nat2Z.inj. change (zlen (entries lp0 (take (Z.to_nat per) l1)) = zlen (entries lp0 (take (Z.to_nat per) l2))).
      rewrite !(zlen_entries lp0 (po_digest Hp) Hf), !length_take. by rewrite Hl.
  - apply IH; [done|rewrite !length_drop; lia|rewrite length_drop; lia].
Qed.

Lemma tree_inj lo hi n levels l1 l2 H1 H2 :
  placed per n lo hi levels -> 0 <= lo -> 0 < n -> Z.of_nat (length l1) = n -> Z.of_nat (length l2) = n ->
  tree_holds levels l1 H1 -> tree_holds levels l2 H2 -> top_blocks levels l1 H1 = top_blocks levels l2 H2 ->
  l1 = l2 \/ collision l1 l2 \/ level_collision levels H1 H2.
Proof.
  intros Hpl Hlo. revert n hi l1 l2 Hpl. induction levels as [|[b s] levels IH]; intros n hi l1 l2 Hpl Hn Hl1 Hl2.
  { cbn. intros _ _ ->. by left. }
  cbn [placed tree_holds top_blocks] in *. destruct Hpl as (Es & Hs & Hlb & _ & Hpl). intros [E1 T1] [E2 T2] Etop.
  pose proof hb_bounds. pose proof per_pos as [Hper _].
  destruct (IH s b (blocks_of (Z.to_nat s) (b * hb) hb H1) (blocks_of (Z.to_nat s) (b * hb) hb H2) Hpl) as [Eb|[Hc|(b' & s' & Hin & Hc)]]; try done;
    [rewrite length_blocks_of; lia..| | |].
  2: { right. right. exists b, s. split; [by left|exact Hc]. }
  2: { right. right. exists b', s'. split; [by right|exact Hc]. }
  destruct (digests_collision l1 l2) as [?|?]; [|by left|by right; left]. apply level_inj with (Z.to_nat s); [|lia|].
  - fold (level s l1). fold (level s l2). rewrite <-E1, <-E2.
    assert (Esl : forall D, slice (b * hb) (s * hb) D = concat (blocks_of (Z.to_nat s) (b * hb) hb D)).
    { intros D. rewrite <-blocks_of_slice by nia. by rewrite Z2Nat.id by lia. }
    by rewrite !Esl, Eb.
  - assert (n <= s * per); [|lia]. rewrite Es.
    pose proof (Z.div_mod (n + per - 1) per). pose proof (Z.mod_pos_bound (n + per - 1) per). nia.
Qed.

Lemma root_inj lo hi n levels l1 l2 H1 H2 :
  placed per n lo hi levels -> 0 <= lo -> 0 < n -> Z.of_nat (length l1) = n -> Z.of_nat (length l2) = n ->
  tree_holds levels l1 H1 -> tree_holds levels l2 H2 -> tree_root levels l1 H1 = tree_root levels l2 H2 ->
  l1 = l2 \/ collision l1 l2 \/ level_collision levels H1 H2.
Proof.
  intros Hpl Hlo Hn Hl1 Hl2 T1 T2 Er.
  assert (Hone : forall l H, Z.of_nat (length l) = n -> exists x, top_blocks levels l H = [x]).
  { intros l H Hl. destruct levels as [|lv levels'].
    - cbn [placed top_blocks] in *. subst n. destruct l as [|x [|]]; cbn in Hl; try lia. by exists x.
    - eexists. by eapply (top_last per). }
  unfold tree_root in Er. destruct (Hone l1 H1 Hl1) as [x Ex], (Hone l2 H2 Hl2) as [y Ey]. rewrite Ex, Ey in Er. cbn in Er.
  destruct (decide (x = y)) as [->|Hne]; [eapply tree_inj; try done; by rewrite Ex, Ey|].
  right. apply top_collision. rewrite Ex, Ey. by exists 0%nat, x, y.
Qed.

(** ** The whole operation *)

(** The number of data blocks on a device of [dev_size] bytes. *)
Definition data_blocks (dev_size : Z) : Z :=
  if data_size params =? 0 then dev_size / db else data_size params.

Definition tree_layout (dev_size : Z) : option (Z * list (Z * Z)) :=
  hash_levels hb ds (data_blocks dev_size) (VERITY_hash_offset_block params).

Lemma hash_offset_bounds : 0 <= VERITY_hash_offset_block params < 2 ^ 64.
Proof.
  pose proof hb_bounds. pose proof (po_offset Hp). unfold VERITY_hash_offset_block, VERITY_SB_SIZE.
  destruct (negb _); [|rewrite (add64_id (hash_area_offset params)), add64_id by lia];
    (split; [apply Z.div_pos; lia|apply Z.div_lt_upper_bound; nia]).
Qed.

(** The layout of a tree that fits 64-bit offsets. *)
Lemma layout_placed dev_size hi levels :
  0 <= dev_size < 2 ^ 64 -> data_size params * db < 2 ^ 64 -> tree_layout dev_size = Some (hi, levels) ->
  0 < data_blocks dev_size < 2 ^ 62 /\ placed per (data_blocks dev_size) (VERITY_hash_offset_block params) hi levels /\
  VERITY_hash_offset_block params <= hi < 2 ^ 64.
Proof.
  intros Hdev Hds Hl. pose proof (po_data Hp). pose proof (po_size Hp). pose proof hb_bounds. pose proof ds_bounds.
  assert (Hn : 0 <= data_blocks dev_size < 2 ^ 62).
  { unfold data_blocks. destruct (Z.eqb_spec (data_size params) 0); [|nia].
    split; [apply Z.div_pos; lia|apply Z.div_lt_upper_bound; nia]. }
  unfold tree_layout in Hl. assert (Hn0 : data_blocks dev_size <> 0).
  { intros E. rewrite E, hash_levels_empty in Hl by lia. done. }
  split; [lia|]. apply hash_levels_placed in Hl as [Hpl ?]; [|lia|lia|lia|apply hash_offset_bounds]. split; [|done].
  unfold per, hash_per_block. cbn. rewrite Z.shiftl_1_l. done.
Qed.

Lemma whole_spec v dev_size root d r root' d' :
  0 <= dev_size < 2 ^ 64 -> separate v (VERITY_hash_offset_block params) (data_blocks dev_size) d ->
  VERITY_create_or_verify_hash params v ds (inr dev_size) root d = (r, root', d') ->
  let n := data_blocks dev_size in
  let lower := blocks_of (Z.to_nat n) 0 db (dk_data d) in
  (r = 0 -> exists hi levels, tree_layout dev_size = Some (hi, levels) /\ data_size params * db < 2 ^ 64 /\
     tree_holds levels lower (hash_bytes d') /\ root' = tree_root levels lower (hash_bytes d') /\
     framed (VERITY_hash_offset_block params) hi d d' /\ (v = true -> same_bytes d d' /\ root' = root) /\
     n * db <= zlen (dk_data d) /\ hi * hb < 2 ^ 64 /\ (zlen (hash_bytes d) < 2 ^ 64 -> fits levels d)) /\
  (forall hi levels, quiet d -> tree_layout dev_size = Some (hi, levels) -> data_size params * db < 2 ^ 64 ->
     n * db <= zlen (dk_data d) < 2 ^ 64 -> hi * hb < 2 ^ 64 -> fits levels d ->
     (v = true -> tree_holds levels lower (hash_bytes d) /\ root = tree_root levels lower (hash_bytes d)) -> r = 0).
Proof.
  intros Hdev Hsep. pose proof (po_data Hp). pose proof hb_bounds. pose proof ds_bounds. intros E n lower. revert E.
  unfold VERITY_create_or_verify_hash. destruct (Z.ltb_spec VERITY_MAX_DIGEST_SIZE ds); [unfold VERITY_MAX_DIGEST_SIZE in *; lia|].
  assert (En : (if data_size params =? 0 then inr (dev_size / db) else inr (data_size params)) = @inr Z Z n)
    by (unfold n, data_blocks; by destruct (_ =? 0)).
  rewrite En. destruct (uint64_mult_overflow (data_size params) db) as [o u] eqn:Eo. cbn [fst]. destruct o.
  { intros [= <- _ _]. split; [done|]. intros hi levels _ _ Hlt _ _ _ _.
    destruct (mult_overflow_ok (data_size params) db (po_size Hp)) as [E|?]; [lia|by rewrite E in Eo|lia]. }
  apply mult_overflow_inv in Eo as [_ Hds]; [|apply (po_size Hp)|lia]. fold n. fold (tree_layout dev_size).
  change (hash_levels hb ds n (VERITY_hash_offset_block params)) with (tree_layout dev_size).
  destruct (tree_layout dev_size) as [[hi levels]|] eqn:El; [|intros [= <- _ _]; done].
  destruct (layout_placed dev_size hi levels Hdev Hds El) as (Hn & Hpl & Hhi). fold n in Hn, Hpl.
  pose proof hash_offset_bounds as Hpos.
  destruct (uint64_mult_overflow hi hb) as [o u2] eqn:Eo. cbn [fst]. destruct o.
  { intros [= <- _ _]. split; [done|]. intros hi' levels' _ [= <- <-] _ _ Hh _ _.
    destruct (mult_overflow_ok hi hb) as [E|?]; [lia|lia|by rewrite E in Eo|lia]. }
  apply mult_overflow_inv in Eo as [_ Hhb]; [|lia|lia].
  destruct (io_call d) as [ok d1] eqn:E1. apply io_call_spec in E1 as (Hs1 & Hm1 & Hq1).
  destruct ok; cbn [negb]; [|intros [= <- _ _]; split; [done|]; intros hi' levels' Hq; discriminate (Hq1 Hq)].
  destruct (io_call d1) as [ok d2] eqn:E2. apply io_call_spec in E2 as (Hs2 & Hm2 & Hq2).
  destruct ok; cbn [negb]; [|intros [= <- _ _]; split; [done|]; intros hi' levels' Hq; discriminate (Hq2 (Hm1 Hq))].
  assert (Hs : same_bytes d d2) by (destruct Hs1, Hs2; split; congruence).
  assert (Hm : io_moves d d2) by (intros Hq; by apply Hm2, Hm1).
  destruct (hash_tree _ _ _ _ _ _) as [[r3 dg] d3] eqn:E3.
  apply (hash_tree_spec v levels n (VERITY_hash_offset_block params) hi) in E3 as [Hok Hcan]; [|done|done|lia|].
  2: { unfold separate in *. destruct Hs as [_ ->]. done. }
  assert (Ed : dk_data d2 = dk_data d) by apply Hs. assert (Eh : hash_bytes d2 = hash_bytes d) by (by apply same_bytes_dev).
  rewrite Ed in Hok, Hcan. rewrite Eh in Hcan. fold lower in Hok, Hcan.
  destruct (Z.eqb_spec r3 0) as [->|Hne]; cbn [negb].
  2: { intros [= <- _ _]. split; [done|]. intros hi' levels' Hq [= <- <-] _ Hd _ Hh Hv. apply Hcan; [by apply Hm|done|unfold fits in *; by rewrite Eh|].
       intros Hver. by apply Hv. }
  destruct (Hok eq_refl) as (Ht & Edg & Hf & Hv & Hdn & Hfit). unfold fits in Hfit. rewrite Eh in Hfit. fold (fits levels d) in Hfit.
  assert (Hf0 : framed (VERITY_hash_offset_block params) hi d d3).
  { eapply framed_trans; [| | | |apply (same_framed (VERITY_hash_offset_block params) hi); [exact Hs|exact Hm]|exact Hf]; lia. }
  assert (Hsame : v = true -> same_bytes d d3) by (intros Hver; destruct Hs, (Hv Hver); split; congruence).
  destruct v.
  - intros [= <- <- <-]. case_bool_decide as Hroot.
    + split; [|done]. intros _. exists hi, levels. split; [done|]. split; [done|]. split; [done|]. split; [congruence|].
      split; [done|]. split; [|done]. intros _. split; [by apply Hsame|done].
    + split; [done|]. intros hi' levels' Hq [= <- <-] _ _ _ _ Hver. exfalso. apply Hroot.
      destruct (Hver eq_refl) as [_ ->]. rewrite Edg. unfold hash_bytes. by rewrite (same_bytes_dev _ _ _ (Hsame eq_refl)).
  - intros [= <- <- <-]. split; [|done]. intros _. exists hi, levels. done.
Qed.
End tree.

(** ** Properties *)

Section properties.
Context `{CHL : CryptHashLaws}.
Variables (params : crypt_params_verity) (ds : Z).
Hypothesis Hp : params_ok params ds.

Abbreviation offset := (VERITY_hash_offset_block params).
Abbreviation area_start := (offset * hash_block_size params).
Abbreviation data_end dev_size := (data_blocks params dev_size * data_block_size params).

Lemma zlen_root levels lower H : zlen (tree_root params ds levels lower H) = ds.
Proof. unfold tree_root, digest. by rewrite (proj2 (verify_hash_block_ok (lp0 params ds) (po_digest _ _ Hp) _)). Qed.

Lemma verity_create_spec dev_size d root d1 :
  0 <= dev_size < 2 ^ 64 -> separate params false offset (data_blocks params dev_size) d ->
  VERITY_create params ds (inr dev_size) d = (0, root, d1) ->
  let n := data_blocks params dev_size in
  let lower := blocks_of (Z.to_nat n) 0 (data_block_size params) (dk_data d) in
  exists hi levels, tree_layout params ds dev_size = Some (hi, levels) /\ data_size params * data_block_size params < 2 ^ 64 /\
     tree_holds params ds levels lower (hash_bytes d1) /\ root = tree_root params ds levels lower (hash_bytes d1) /\
     framed params offset hi d d1 /\ data_end dev_size <= zlen (dk_data d) /\ hi * hash_block_size params < 2 ^ 64 /\
     (zlen (hash_bytes d) < 2 ^ 64 -> fits params levels d).
Proof.
  intros Hdev Hsep. unfold VERITY_create. destruct (_ <? _); [done|]. intros E.
  apply (whole_spec params ds Hp) in E as [Hok _]; [|done|done].
  destruct (Hok eq_refl) as (hi & levels & H1 & H2 & H3 & H4 & H5 & _ & H7 & H8 & H9).
  exists hi, levels. exact (conj H1 (conj H2 (conj H3 (conj H4 (conj H5 (conj H7 (conj H8 H9))))))).
Qed.

(** C10: A tree that [VERITY_create] made verifies: [VERITY_verify] with the
    root hash it returned finds no error on the devices as they were left,
    however many levels the tree has. Creating it changes neither the data nor
    what lies before the hash area, when the data is on another device or ends
    before the hash area. *)
Theorem verity_create_verifies dev_size d root d1 :
  0 <= dev_size < 2 ^ 64 -> zlen (dk_data d) < 2 ^ 64 -> zlen (hash_bytes d) < 2 ^ 64 ->
  separate params false offset (data_blocks params dev_size) d ->
  VERITY_create params ds (inr dev_size) d = (0, root, d1) ->
  zlen root = ds /\
  slice 0 (data_end dev_size) (dk_data d1) = slice 0 (data_end dev_size) (dk_data d) /\
  (forall o m, 0 <= o -> 0 <= m -> o + m <= area_start -> slice o m (hash_bytes d1) = slice o m (hash_bytes d)) /\
  forall d2, same_bytes d1 d2 -> quiet d2 -> (VERITY_verify params root (inr dev_size) d2).1 = 0.
Proof.
  intros Hdev Hz1 Hz2 Hsep Hc. destruct (verity_create_spec _ _ _ _ Hdev Hsep Hc)
    as (hi & levels & El & Hds & Ht & -> & Hf & Hdn & Hhi & Hfit).
  pose proof (hash_offset_bounds params ds Hp). destruct (layout_placed params ds Hp dev_size hi levels Hdev Hds El) as (Hn & Hpl & _).
  assert (Hsep2 : is_Some (dk_hash d) \/ data_end dev_size <= area_start) by (by destruct Hsep).
  assert (Ed : slice 0 (data_end dev_size) (dk_data d1) = slice 0 (data_end dev_size) (dk_data d))
    by (eapply framed_data; [exact Hp|..|exact Hf]; try done; lia).
  split; [apply zlen_root|]. split; [done|]. split; [intros; apply Hf; lia|].
  intros d2 Hs Hq. unfold VERITY_verify. rewrite zlen_root.
  destruct (VERITY_create_or_verify_hash _ _ _ _ _ _) as [[r root'] d'] eqn:Ev. cbn [fst].
  apply (whole_spec params ds Hp) in Ev as [_ Hcan]; [|done|by left].
  assert (Eh : hash_bytes d2 = hash_bytes d1) by (by apply same_bytes_dev). pose proof Hf as (_ & Hzh & _ & Hnone & Hdata).
  assert (Hzd : zlen (dk_data d1) = zlen (dk_data d)).
  { destruct (dk_hash d) as [x|] eqn:E; [rewrite Hdata; [done|by eexists]|].
    unfold hash_bytes, dev_bytes in Hzh. by rewrite E, (proj2 Hnone eq_refl) in Hzh. }
  assert (Eb : blocks_of (Z.to_nat (data_blocks params dev_size)) 0 (data_block_size params) (dk_data d2) =
               blocks_of (Z.to_nat (data_blocks params dev_size)) 0 (data_block_size params) (dk_data d)).
  { pose proof (po_data _ _ Hp). destruct Hs as [-> _]. apply blocks_of_ext; [lia|lia|]. by rewrite Z2Nat.id by lia. }
  rewrite Eb, Eh in Hcan. destruct Hs as [E1 _]. rewrite E1, Hzd in Hcan. apply (Hcan hi levels); try done.
  specialize (Hfit Hz2). unfold fits in *. by rewrite Eh, Hzh.
Qed.

(** The block [i] of [n] blocks of [sz] bytes behind the first [o] ones has the
    same digest on both devices, where they hold different bytes. *)
Definition block_collision (o n sz : Z) (D D' : bytes) : Prop :=
  exists i, 0 <= i < n /\ slice ((o + i) * sz) sz D <> slice ((o + i) * sz) sz D' /\
    digest params ds (slice ((o + i) * sz) sz D) = digest params ds (slice ((o + i) * sz) sz D').

Lemma blocks_collision o n sz D D' :
  collision params ds (blocks_of (Z.to_nat n) (o * sz) sz D) (blocks_of (Z.to_nat n) (o * sz) sz D') ->
  block_collision o n sz D D'.
Proof.
  intros (i & x & y & [Hi <-]%lookup_blocks_of & [_ <-]%lookup_blocks_of & H). exists (Z.of_nat i). split; [lia|].
  by rewrite Z.mul_add_distr_r.
Qed.

(** C9: A root hash determines the data. When the devices verify against the
    root hash that [VERITY_create] gave for [d], their data is the data of [d].
    Otherwise there is a place where the two sets of devices hold different
    blocks with the same salted digest: a data block of the same index, or a
    block of the same index in the same level of the hash areas. This holds
    whatever the devices that are verified contain. *)
Theorem verity_verify_sound dev_size dev_size2 d root d1 d2 d3 :
  0 <= dev_size < 2 ^ 64 -> 0 <= dev_size2 < 2 ^ 64 -> data_blocks params dev_size2 = data_blocks params dev_size ->
  separate params false offset (data_blocks params dev_size) d ->
  VERITY_create params ds (inr dev_size) d = (0, root, d1) ->
  VERITY_verify params root (inr dev_size2) d2 = (0, d3) ->
  exists hi levels, tree_layout params ds dev_size = Some (hi, levels) /\
    (slice 0 (data_end dev_size) (dk_data d2) = slice 0 (data_end dev_size) (dk_data d) \/
     block_collision 0 (data_blocks params dev_size) (data_block_size params) (dk_data d2) (dk_data d) \/
     exists b s, In (b, s) levels /\ block_collision b s (hash_block_size params) (hash_bytes d2) (hash_bytes d1)).
Proof.
  intros Hdev Hdev2 En Hsep Hc. destruct (verity_create_spec _ _ _ _ Hdev Hsep Hc)
    as (hi & levels & El & Hds & Ht & Er & _). pose proof (hash_offset_bounds params ds Hp). pose proof (po_data _ _ Hp).
  destruct (layout_placed params ds Hp dev_size hi levels Hdev Hds El) as (Hn & Hpl & _).
  unfold VERITY_verify. rewrite Er, zlen_root, <-Er.
  destruct (VERITY_create_or_verify_hash _ _ _ _ _ _) as [[r root'] d'] eqn:Ev. intros [= -> ->].
  apply (whole_spec params ds Hp) in Ev as [Hok _]; [|done|by left].
  destruct (Hok eq_refl) as (hi2 & levels2 & El2 & _ & Ht2 & Er2 & _ & Hv & _). destruct (Hv eq_refl) as [Hsame Err].
  unfold tree_layout in El2. rewrite En in *. fold (tree_layout params ds dev_size) in El2.
  assert (Some (hi2, levels2) = Some (hi, levels)) as [= -> ->] by (rewrite <-El2, <-El; done).
  exists hi, levels. split; [done|]. assert (Eh2 : hash_bytes d2 = hash_bytes d3) by (symmetry; by apply same_bytes_dev).
  rewrite Eh2.
  destruct (root_inj params ds Hp offset hi (data_blocks params dev_size) levels
    (blocks_of (Z.to_nat (data_blocks params dev_size)) 0 (data_block_size params) (dk_data d2))
    (blocks_of (Z.to_nat (data_blocks params dev_size)) 0 (data_block_size params) (dk_data d)) (hash_bytes d3) (hash_bytes d1))
    as [Eb|[Hcol|(b & s & Hin & Hcol)]]; try done; try lia; rewrite ?length_blocks_of; try lia; [congruence|..].
  - left. replace (data_end dev_size) with (Z.of_nat (Z.to_nat (data_blocks params dev_size)) * data_block_size params) by lia.
    rewrite !blocks_of_slice by lia. by rewrite Eb.
  - right. left. by apply blocks_collision.
  - right. right. exists b, s. split; [done|]. by apply blocks_collision.
Qed.

(** C12: [VERITY_create] succeeds when no call fails, the data is there and the
    hash device has room for the tree; it refuses a device without a block of
    data. *)
Theorem verity_create_total dev_size d :
  0 <= dev_size < 2 ^ 64 -> salt_size params <= 256 -> quiet d ->
  separate params false offset (data_blocks params dev_size) d ->
  match tree_layout params ds dev_size with
  | None => (VERITY_create params ds (inr dev_size) d).1.1 = - EINVAL
  | Some (hi, levels) =>
      data_size params * data_block_size params < 2 ^ 64 -> data_end dev_size <= zlen (dk_data d) < 2 ^ 64 ->
      hi * hash_block_size params < 2 ^ 64 -> fits params levels d ->
      (VERITY_create params ds (inr dev_size) d).1.1 = 0
  end /\
  (data_blocks params dev_size = 0 -> tree_layout params ds dev_size = None).
Proof.
  intros Hdev Hsalt Hq Hsep. unfold VERITY_create. destruct (Z.ltb_spec 256 (salt_size params)); [lia|].
  pose proof (ds_bounds params ds Hp). pose proof (hb_bounds params ds Hp). split.
  - destruct (tree_layout params ds dev_size) as [[hi levels]|] eqn:El.
    + intros Hds Hd Hhi Hfit. destruct (VERITY_create_or_verify_hash _ _ _ _ _ _) as [[r root'] d'] eqn:E. cbn [fst].
      apply (whole_spec params ds Hp) in E as [_ Hcan]; [|done|done]. by apply (Hcan hi levels).
    + unfold VERITY_create_or_verify_hash. destruct (_ <? ds); [done|].
      assert (En : (if data_size params =? 0 then inr (dev_size / data_block_size params) else inr (data_size params)) =
                   @inr Z Z (data_blocks params dev_size)) by (unfold data_blocks; by destruct (_ =? 0)).
      rewrite En. destruct (fst (uint64_mult_overflow _ _)); [done|]. unfold tree_layout in El. by rewrite El.
  - intros E. unfold tree_layout. rewrite E. apply hash_levels_empty; lia.
Qed.
End properties.

(** ** An example: twenty blocks, a tree of two levels *)

#[local] Existing Instances fx_hash fx_hash_laws.

Definition fx_verity : crypt_params_verity :=
  {| hash_name := fx_alg; salt := bytes_of_string "salt"; salt_size := 4; hash_type := 1; data_block_size := 512;
     hash_block_size := 512; data_size := 20; hash_area_offset := 0; fec_area_offset := 0; fec_roots := 2; flags := 0 |}.
Definition fx_verity_data : bytes := seqZ 0 20 ≫= fun i => replicate 512 (byte_of_Z i).
Definition fx_verity_disks : disks := Disks fx_verity_data (Some (zeros 2048)) [].
Abbreviation fx_created := (VERITY_create fx_verity 32 (inr 10240) fx_verity_disks).

Lemma fx_verity_ok : params_ok fx_verity 32.
Proof.
  split; [exists 9; split; [reflexivity|lia]|cbn; lia| |cbn; lia|cbn; lia].
  assert (E : crypt_hash_size (hash_name fx_verity) = 32) by reflexivity. rewrite E. lia.
Qed.

Lemma fx_created_ok : exists root d1, fx_created = (0, root, d1).
Proof.
  destruct fx_created as [[r root] d1] eqn:E. exists root, d1. assert (Er : fx_created.1.1 = 0) by (vm_compute; reflexivity).
  rewrite E in Er. cbn in Er. by rewrite Er.
Qed.

Lemma verity_create_verifies_witness :
  exists root d1, fx_created = (0, root, d1) /\
    (VERITY_verify fx_verity root (inr 10240) (Disks (dk_data d1) (dk_hash d1) [])).1 = 0.
Proof.
  destruct fx_created_ok as (root & d1 & E). exists root, d1. split; [exact E|].
  destruct (verity_create_verifies fx_verity 32 fx_verity_ok 10240 fx_verity_disks root d1) as (_ & _ & _ & H).
  - split; [discriminate|reflexivity].
  - vm_compute. reflexivity.
  - vm_compute. reflexivity.
  - right. left. eexists. reflexivity.
  - exact E.
  - apply H; [split; reflexivity|constructor].
Defined.

Lemma verity_verify_sound_witness :
  exists root d1 d3, fx_created = (0, root, d1) /\ VERITY_verify fx_verity root (inr 10240) d1 = (0, d3) /\
    exists hi levels, tree_layout fx_verity 32 10240 = Some (hi, levels) /\
    (slice 0 10240 (dk_data d1) = slice 0 10240 fx_verity_data \/
     block_collision fx_verity 32 0 20 512 (dk_data d1) fx_verity_data \/
     exists b s, In (b, s) levels /\ block_collision fx_verity 32 b s 512 (hash_bytes d1) (hash_bytes d1)).
Proof.
  assert (Ev : (let '(r, root, d1) := fx_created in (VERITY_verify fx_verity root (inr 10240) d1).1) = 0) by (vm_compute; reflexivity).
  destruct fx_created_ok as (root & d1 & E). rewrite E in Ev.
  destruct (VERITY_verify fx_verity root (inr 10240) d1) as [r d3] eqn:E3. cbn in Ev. subst r.
  exists root, d1, d3. split; [exact E|]. split; [exact E3|].
  apply (verity_verify_sound fx_verity 32 fx_verity_ok 10240 10240 fx_verity_disks root d1 d1 d3).
  - split; [discriminate|reflexivity].
  - split; [discriminate|reflexivity].
  - reflexivity.
  - right. left. eexists. reflexivity.
  - exact E.
  - exact E3.
Defined.

Lemma verity_create_total_witness :
  tree_layout fx_verity 32 10240 = Some (4, [(2, 2); (1, 1)]) /\ fx_created.1.1 = 0.
Proof.
  assert (El : tree_layout fx_verity 32 10240 = Some (4, [(2, 2); (1, 1)])) by (vm_compute; reflexivity).
  split; [exact El|]. destruct (verity_create_total fx_verity 32 fx_verity_ok 10240 fx_verity_disks) as [H _].
  - split; [discriminate|reflexivity].
  - discriminate.
  - constructor.
  - right. left. eexists. reflexivity.
  - rewrite El in H. apply H.
    + vm_compute. reflexivity.
    + split; [vm_compute; discriminate|vm_compute; reflexivity].
    + vm_compute. reflexivity.
    + split; [vm_compute; reflexivity|vm_compute; discriminate].
Defined.
