(* ===== verification/ReedSolomon.v ===== *)
(** * ReedSolomon: the codec of dm-verity's error correction
    (lib/verity/rs.h, rs_encode_char.c, rs_decode_char.c)

    Symbols are numbers below [nn + 1]; arrays are lists, and an index outside
    an array, which the code never uses, reads 0 and writes nothing. A loop
    over an index is a recursion on the number of iterations left. *)

From S2P Require Import Prelude.

Definition get (l : list Z) (i : Z) : Z := List.nth (Z.to_nat i) l 0.
Definition set (l : list Z) (i v : Z) : list Z := <[Z.to_nat i := v]> l.

Record rs := {
  mm : Z;               (** bits per symbol *)
  nn : Z;               (** symbols per block *)
  alpha_to : list Z;
  index_of : list Z;
  genpoly : list Z;     (** in index form *)
  nroots : Z;
  fcr : Z;
  prim : Z;
  iprim : Z;
  pad : Z;
}.

(** Zero in index form. *)
Definition A0 (rs : rs) : Z := nn rs.

(** [x] bounds the iterations: each makes it smaller. *)
Fixpoint modnn_loop (fuel : nat) (mm nn x : Z) : Z :=
  match fuel with
  | O => x
  | S fuel' =>
      if x <? nn then x
      else let x := x - nn in modnn_loop fuel' mm nn (Z.shiftr x mm + Z.land x nn)
  end.
Definition modnn (rs : rs) (x : Z) : Z :=
  if x <? nn rs then x else modnn_loop (Z.to_nat x) (mm rs) (nn rs) x.

(** ** Tables *)

(** The powers of the primitive element: the tables and the last power. *)
Fixpoint table_loop (n : nat) (symsize gfpoly nn i sr : Z) (alpha_to index_of : list Z) : list Z * list Z * Z :=
  match n with
  | O => (alpha_to, index_of, sr)
  | S n' =>
      let index_of := set index_of sr i in
      let alpha_to := set alpha_to i sr in
      let sr := Z.shiftl sr 1 in
      let sr := if negb (Z.land sr (Z.shiftl 1 symsize) =? 0) then Z.lxor sr gfpoly else sr in
      table_loop n' symsize gfpoly nn (i + 1) (Z.land sr nn) alpha_to index_of
  end.

(** [prim] iterations are enough when [prim] and [nn] have no common divisor;
    otherwise the code does not stop. *)
Fixpoint iprim_loop (fuel : nat) (nn prim iprim : Z) : option Z :=
  if iprim mod prim =? 0 then Some iprim
  else match fuel with O => None | S fuel' => iprim_loop fuel' nn prim (iprim + nn) end.

(** Multiplication of [genpoly] by the next root; [j] runs down to 1. *)
Fixpoint gen_inner (j : nat) (rs : rs) (root : Z) (g : list Z) : list Z :=
  match j with
  | O => g
  | S j' =>
      let jz := Z.of_nat j in
      let g := if negb (get g jz =? 0)
               then set g jz (Z.lxor (get g (jz - 1)) (get (alpha_to rs) (modnn rs (get (index_of rs) (get g jz) + root))))
               else set g jz (get g (jz - 1)) in
      gen_inner j' rs root g
  end.

Fixpoint gen_loop (n : nat) (rs : rs) (i root : Z) (g : list Z) : list Z :=
  match n with
  | O => g
  | S n' =>
      let g := set g (i + 1) 1 in
      let g := gen_inner (Z.to_nat i) rs root g in
      let g := set g 0 (get (alpha_to rs) (modnn rs (get (index_of rs) (get g 0) + root))) in
      gen_loop n' rs (i + 1) (root + prim rs) g
  end.

Definition init_rs_char (symsize gfpoly fcr0 prim0 nroots0 pad0 : Z) : option rs :=
  if (symsize <? 0) || (8 <? symsize) then None
  else if (fcr0 <? 0) || (Z.shiftl 1 symsize <=? fcr0) then None
  else if (prim0 <=? 0) || (Z.shiftl 1 symsize <=? prim0) then None
  else if (nroots0 <? 0) || (Z.shiftl 1 symsize <=? nroots0) then None
  else if (pad0 <? 0) || (Z.shiftl 1 symsize - 1 - nroots0 <=? pad0) then None
  else
    let nn0 := Z.shiftl 1 symsize - 1 in
    let empty := replicate (Z.to_nat (nn0 + 1)) 0 in
    let '(a, x, sr) := table_loop (Z.to_nat nn0) symsize gfpoly nn0 0 1 (set empty nn0 0) (set empty 0 nn0) in
    if negb (sr =? 1) then None
    else match iprim_loop (Z.to_nat prim0) nn0 prim0 1 with
    | None => None
    | Some ip =>
        let rs := {| mm := symsize; nn := nn0; alpha_to := a; index_of := x; genpoly := []; nroots := nroots0;
                     fcr := fcr0; prim := prim0; iprim := ip / prim0; pad := pad0 |} in
        let g := gen_loop (Z.to_nat nroots0) rs 0 (fcr0 * prim0) (set (replicate (Z.to_nat (nroots0 + 1)) 0) 0 1) in
        Some {| mm := symsize; nn := nn0; alpha_to := a; index_of := x; genpoly := get x <$> g; nroots := nroots0;
                fcr := fcr0; prim := prim0; iprim := ip / prim0; pad := pad0 |}
    end.

Section codec.
Variable rs : rs.

Abbreviation alpha := (get (alpha_to rs)).
Abbreviation index := (get (index_of rs)).

(** ** Encoding *)

(** [parity[j] ^= ...] for [j] = 1, ..., [nroots - 1]; [n] are left. *)
Fixpoint feed_loop (n : nat) (feedback j : Z) (parity : list Z) : list Z :=
  match n with
  | O => parity
  | S n' => feed_loop n' feedback (j + 1)
              (set parity j (Z.lxor (get parity j) (alpha (modnn rs (feedback + get (genpoly rs) (nroots rs - j))))))
  end.

Definition encode_step (parity : list Z) (d : Z) : list Z :=
  let feedback := index (Z.lxor d (get parity 0)) in
  let parity := if negb (feedback =? A0 rs) then feed_loop (Z.to_nat (nroots rs - 1)) feedback 1 parity else parity in
  drop 1 parity ++ [if negb (feedback =? A0 rs) then alpha (modnn rs (feedback + get (genpoly rs) 0)) else 0].

(** [data] has [nn - nroots - pad] symbols. *)
Definition encode_rs_char (data : list Z) : list Z :=
  fold_left encode_step data (replicate (Z.to_nat (nroots rs)) 0).

(** ** Decoding *)

Definition MAX_NR_BUF : Z := 256.

Definition syndrome_step (data_j : Z) (i : Z) (s : Z) : Z :=
  if s =? 0 then data_j
  else Z.lxor data_j (alpha (modnn rs (index s + (fcr rs + i) * prim rs))).

(** The syndromes, in polynomial form. *)
Definition syndromes (data : list Z) : list Z :=
  fold_left (fun s data_j => imap (fun i s_i => syndrome_step data_j (Z.of_nat i) s_i) s) (drop 1 data)
    (replicate (Z.to_nat (nroots rs)) (get data 0)).

(** The discrepancy: [n] terms from [i] on. *)
Fixpoint discr_loop (n : nat) (i r : Z) (lambda s : list Z) (discr : Z) : Z :=
  match n with
  | O => discr
  | S n' =>
      let discr := if negb (get lambda i =? 0) && negb (get s (r - i - 1) =? A0 rs)
                   then Z.lxor discr (alpha (modnn rs (index (get lambda i) + get s (r - i - 1)))) else discr in
      discr_loop n' (i + 1) r lambda s discr
  end.

(** B(x) <-- x B(x) *)
Definition shift_b (b : list Z) : list Z := A0 rs :: take (Z.to_nat (nroots rs)) b.

(** T(x) <-- lambda(x) - discr x B(x) *)
Definition next_lambda (lambda b : list Z) (discr_r : Z) : list Z :=
  get lambda 0 ::
  map (fun i => if negb (get b i =? A0 rs)
                then Z.lxor (get lambda (i + 1)) (alpha (modnn rs (discr_r + get b i)))
                else get lambda (i + 1)) (seqZ 0 (nroots rs)).

Definition berlekamp_step (r : Z) (s : list Z) (st : list Z * list Z * Z) : list Z * list Z * Z :=
  let '(lambda, b, el) := st in
  let discr_r := index (discr_loop (Z.to_nat r) 0 r lambda s 0) in
  if discr_r =? A0 rs then (lambda, shift_b b, el)
  else
    let t := next_lambda lambda b discr_r in
    if 2 * el <=? r - 1 then
      (t, map (fun i => if get lambda i =? 0 then A0 rs else modnn rs (index (get lambda i) - discr_r + nn rs))
            (seqZ 0 (nroots rs + 1)), r - el)
    else (t, shift_b b, el).

Definition berlekamp (s : list Z) : list Z :=
  let lambda := 1 :: replicate (Z.to_nat (nroots rs)) 0 in
  let b := map (fun i => index (get lambda i)) (seqZ 0 (nroots rs + 1)) in
  (fold_left (fun st r => berlekamp_step r s st) (seqZ 1 (nroots rs)) (lambda, b, 0)).1.1.

(** Chien search. A root ends the inner loop's sum at 0; [reg] is kept between
    iterations. *)
Definition chien_step (j : Z) (st : list Z * Z) : list Z * Z :=
  let '(reg, q) := st in
  if negb (get reg j =? A0 rs) then
    let reg := set reg j (modnn rs (get reg j + j)) in (reg, Z.lxor q (alpha (get reg j)))
  else (reg, q).

(** [j] = [deg_lambda], ..., 1 *)
Definition chien_eval (deg_lambda : Z) (reg : list Z) : list Z * Z :=
  fold_left (fun st j => chien_step j st) (reverse (seqZ 1 deg_lambda)) (reg, 1).

Fixpoint chien_loop (n : nat) (i k deg_lambda : Z) (reg : list Z) (roots : list (Z * Z)) : list (Z * Z) :=
  match n with
  | O => roots
  | S n' =>
      let '(reg, q) := chien_eval deg_lambda reg in
      if negb (q =? 0) then chien_loop n' (i + 1) (modnn rs (k + iprim rs)) deg_lambda reg roots
      else
        let roots := roots ++ [(i, k)] in
        if Z.of_nat (length roots) =? deg_lambda then roots
        else chien_loop n' (i + 1) (modnn rs (k + iprim rs)) deg_lambda reg roots
  end.

(** The largest index that is not zero, 0 when there is none. *)
Definition degree (lambda : list Z) : Z :=
  fold_left (fun deg i => if negb (get lambda i =? A0 rs) then i else deg) (seqZ 0 (nroots rs + 1)) 0.

Definition omega_at (s lambda : list Z) (i : Z) : Z :=
  index (fold_left (fun tmp j => if negb (get s (i - j) =? A0 rs) && negb (get lambda j =? A0 rs)
                                 then Z.lxor tmp (alpha (modnn rs (get s (i - j) + get lambda j))) else tmp)
           (reverse (seqZ 0 (i + 1))) 0).

(** The correction of the error at [loc], by Forney's formula. *)
Definition correct (lambda omega : list Z) (deg_lambda : Z) (data : list Z) (root_loc : Z * Z) : list Z :=
  let '(root, loc) := root_loc in
  let deg_omega := deg_lambda - 1 in
  let num1 := fold_left (fun num1 i => if negb (get omega i =? A0 rs)
                                       then Z.lxor num1 (alpha (modnn rs (get omega i + i * root))) else num1)
                (reverse (seqZ 0 (deg_omega + 1))) 0 in
  let num2 := alpha (modnn rs (root * (fcr rs - 1) + nn rs)) in
  let top := Z.land (Z.min deg_lambda (nroots rs - 1)) (-2) in
  let den := fold_left (fun den i => if negb (get lambda (i + 1) =? A0 rs)
                                     then Z.lxor den (alpha (modnn rs (get lambda (i + 1) + i * root))) else den)
               (map (fun k => top - 2 * k) (seqZ 0 (top / 2 + 1))) 0 in
  if negb (num1 =? 0) && (pad rs <=? loc)
  then set data (loc - pad rs)
         (Z.lxor (get data (loc - pad rs)) (alpha (modnn rs (index num1 + index num2 + nn rs - index den))))
  else data.

(** The number of corrected errors, -1 when there are too many, and the data. *)
Definition decode_rs_char (data : list Z) : Z * list Z :=
  if MAX_NR_BUF <=? nroots rs then (-1, data)
  else
    let s := syndromes data in
    if forallb (Z.eqb 0) s then (0, data)
    else
      let s := map index s in
      let lambda := map index (berlekamp s) in
      let deg_lambda := degree lambda in
      let roots := chien_loop (Z.to_nat (nn rs)) 1 (iprim rs - 1) deg_lambda lambda [] in
      let count := Z.of_nat (length roots) in
      if negb (deg_lambda =? count) then (-1, data)
      else
        let omega := map (omega_at s lambda) (seqZ 0 deg_lambda) in
        (count, fold_left (correct lambda omega deg_lambda) (reverse roots) data).
End codec.
