(* ===== verification/Massey.v ===== *)
(** * Massey: linear recurrences over a field

    What decoding a Reed-Solomon word rests on, over any field: sequences and
    their convolution, power sums, the Vandermonde argument, the number of roots
    of a polynomial, the invariant of Berlekamp's and Massey's algorithm and the
    values of errors (Forney). Sequences are functions on [nat]; the polynomial
    1 + a_1 x + ... is the sequence of its coefficients. Nothing here is code:
    ReedSolomonDecode applies it to the decoder. *)

From S2P Require Import Prelude.
From Stdlib Require Import Field.

Class FieldOps (F : Type) := {
  f0 : F;
  f1 : F;
  fadd : F -> F -> F;
  fmul : F -> F -> F;
  fsub : F -> F -> F;
  fopp : F -> F;
  fdiv : F -> F -> F;
  finv : F -> F;
  field_laws : field_theory f0 f1 fadd fmul fsub fopp fdiv finv eq;
  #[global] field_dec :: EqDecision F;
}.

Declare Scope massey_scope.
Delimit Scope massey_scope with massey.
Infix "+" := fadd : massey_scope.
Infix "*" := fmul : massey_scope.
Infix "-" := fsub : massey_scope.

Section massey.
Context {F : Type} {K : FieldOps F}.
Add Field massey_field : (field_laws (F := F)).
Local Open Scope massey_scope.

Implicit Types (a b c s : nat -> F) (x y : F) (i j k d : nat).

Lemma mul_zero x y : x * y = f0 -> x = f0 \/ y = f0.
Proof.
  intros H. destruct (decide (x = f0)) as [|Hx]; [by left|right].
  transitivity (finv x * (x * y)); [field; done|rewrite H; ring].
Qed.

(** ** Sums *)

Fixpoint sum (f : nat -> F) (k : nat) : F := match k with O => f0 | S k' => sum f k' + f k' end.

Lemma sum_ext f g k : (forall i, (i < k)%nat -> f i = g i) -> sum f k = sum g k.
Proof. induction k as [|k IH]; intros H; [done|]. cbn. by rewrite IH, H by auto with lia. Qed.
Lemma sum_add f g k : sum (fun i => f i + g i) k = sum f k + sum g k.
Proof. induction k as [|k IH]; cbn; [ring|]. rewrite IH. ring. Qed.
Lemma sum_mul x f k : sum (fun i => x * f i) k = x * sum f k.
Proof. induction k as [|k IH]; cbn; [ring|]. rewrite IH. ring. Qed.
Lemma sum_zero f k : (forall i, (i < k)%nat -> f i = f0) -> sum f k = f0.
Proof. induction k as [|k IH]; intros H; [done|]. cbn. rewrite IH, H by auto with lia. ring. Qed.
Lemma sum_swap (f : nat -> nat -> F) k d : sum (fun i => sum (f i) d) k = sum (fun j => sum (fun i => f i j) k) d.
Proof. induction k as [|k IH]; cbn; [symmetry; by apply sum_zero|]. by rewrite IH, <-sum_add. Qed.
Lemma sum_pad f k d : (forall i, (k <= i < k + d)%nat -> f i = f0) -> sum f (k + d) = sum f k.
Proof.
  induction d as [|d IH]; intros H; [by rewrite Nat.add_0_r|]. rewrite Nat.add_succ_r. cbn. rewrite H, IH by auto with lia. ring.
Qed.
Lemma sum_first f k : sum f (S k) = f 0%nat + sum (fun i => f (S i)) k.
Proof. induction k as [|k IH]; [cbn; ring|]. change (sum f (S (S k))) with (sum f (S k) + f (S k)). rewrite IH. cbn. ring. Qed.

(** A sum over pairs with [i + j < k], either way. *)
Lemma sum_triangle (f : nat -> nat -> F) k :
  sum (fun i => sum (f i) (k - i)) k = sum (fun j => sum (fun i => f i j) (k - j)) k.
Proof.
  assert (E : forall g : nat -> nat -> F,
    sum (fun i => sum (g i) (k - i)) k = sum (fun i => sum (fun j => if (i + j <? k)%nat then g i j else f0) k) k).
  { intros g. apply sum_ext. intros i Hi. rewrite <-(Nat.sub_add i k) at 2 by lia. rewrite sum_pad.
    - apply sum_ext. intros j Hj. by rewrite (proj2 (Nat.ltb_lt _ _)) by lia.
    - intros j Hj. by rewrite (proj2 (Nat.ltb_ge _ _)) by lia. }
  rewrite (E f), (E (fun j i => f i j)), sum_swap. apply sum_ext. intros j _. apply sum_ext. intros i _.
  by rewrite Nat.add_comm.
Qed.

(** ** Convolution *)

Definition conv a b (j : nat) : F := sum (fun i => a i * b (j - i)%nat) (S j).

Lemma conv_linear x a b s j : conv (fun i => a i - x * b i) s j = conv a s j - x * conv b s j.
Proof.
  unfold conv. rewrite <-sum_mul. transitivity (sum (fun i => a i * s (j - i)%nat) (S j) + fopp f1 * sum (fun i => x * (b i * s (j - i)%nat)) (S j)); [|ring].
  rewrite <-sum_mul, <-sum_add. apply sum_ext. intros i _. ring.
Qed.
Lemma conv_scale x a s j : conv (fun i => x * a i) s j = x * conv a s j.
Proof. unfold conv. rewrite <-sum_mul. apply sum_ext. intros i _. ring. Qed.

(** Multiplication by the variable. *)
Definition shift b (i : nat) : F := match i with O => f0 | S i' => b i' end.

Lemma conv_shift b s j : conv (shift b) s j = match j with O => f0 | S j' => conv b s j' end.
Proof.
  unfold conv. destruct j as [|j]; [cbn; ring|]. rewrite sum_first. cbn [shift Nat.sub].
  transitivity (sum (fun i => b i * s (j - i)%nat) (S j)); [ring|done].
Qed.

(** [s] with a first term 1 in front. *)
Definition cons1 s (i : nat) : F := match i with O => f1 | S i' => s i' end.

Lemma conv_cons1 b s j : conv b (cons1 s) j = conv (shift b) s j + b j.
Proof.
  rewrite conv_shift. unfold conv. cbn [sum]. rewrite Nat.sub_diag. cbn [cons1].
  assert (E : sum (fun i => b i * cons1 s (j - i)%nat) j = match j with O => f0 | S j' => sum (fun i => b i * s (j' - i)%nat) (S j') end).
  { destruct j as [|j]; [done|]. apply sum_ext. intros i Hi. by rewrite Nat.sub_succ_l by lia. }
  rewrite E. destruct j; cbn; ring.
Qed.

Lemma conv_conv a b s j : conv a (conv b s) j = conv b (conv a s) j.
Proof.
  unfold conv.
  transitivity (sum (fun i => sum (fun k => a i * (b k * s (j - i - k)%nat)) (S j - i)) (S j)).
  { apply sum_ext. intros i Hi. rewrite <-sum_mul. by rewrite Nat.sub_succ_l by lia. }
  rewrite sum_triangle. apply sum_ext. intros k Hk. rewrite <-sum_mul, Nat.sub_succ_l by lia. apply sum_ext. intros i Hi.
  replace (j - i - k)%nat with (j - k - i)%nat by lia. ring.
Qed.

(** ** Powers and Horner's rule *)

Fixpoint pow x (k : nat) : F := match k with O => f1 | S k' => x * pow x k' end.
Fixpoint horner a x (k : nat) : F := match k with O => a 0%nat | S k' => x * horner a x k' + a (S k') end.

Lemma conv_pow a x j : conv a (pow x) j = horner a x j.
Proof.
  induction j as [|j IH]; [cbn; ring|]. cbn [horner]. rewrite <-IH. unfold conv. rewrite <-sum_mul.
  change (sum (fun i => a i * pow x (S j - i)) (S (S j))) with (sum (fun i => a i * pow x (S j - i)) (S j) + a (S j) * pow x (S j - S j)).
  rewrite Nat.sub_diag. cbn [pow]. f_equal; [|ring]. apply sum_ext. intros i Hi. rewrite Nat.sub_succ_l by lia. cbn. ring.
Qed.

Lemma horner_ext a b x k : (forall i, (i <= k)%nat -> a i = b i) -> horner a x k = horner b x k.
Proof. induction k as [|k IH]; intros H; cbn; [by apply H|]. by rewrite IH, H by auto with lia. Qed.

Lemma horner_tail a x k d : (forall i, (k < i <= k + d)%nat -> a i = f0) -> horner a x (k + d) = pow x d * horner a x k.
Proof.
  induction d as [|d IH]; intros H; [rewrite Nat.add_0_r; cbn; ring|]. rewrite Nat.add_succ_r. cbn [horner pow].
  rewrite H, IH by auto with lia. ring.
Qed.

(** Division by [X - y]: the quotient is Horner's sequence at [y]. *)
Lemma horner_divide a x y k : horner a x (S k) = (x - y) * horner (horner a y) x k + horner a y (S k).
Proof. induction k as [|k IH]; [cbn; ring|]. change (horner a x (S (S k))) with (x * horner a x (S k) + a (S (S k))). rewrite IH. cbn. ring. Qed.

(** A polynomial that is not zero has at most as many roots as its degree. *)
Lemma roots_bound (l : list F) : forall a k, a 0%nat <> f0 -> NoDup l -> Forall (fun x => horner a x k = f0) l -> (length l <= k)%nat.
Proof.
  induction l as [|y l IH]; intros a k H0 Hd Hl; [cbn; lia|]. apply NoDup_cons in Hd as [Hy Hd]. apply Forall_cons in Hl as [Ey Hl].
  destruct k as [|k]; [done|]. cbn [length]. apply le_n_S, (IH (horner a y)); [done|done|].
  rewrite Forall_forall in *. intros x Hx. specialize (Hl x Hx). rewrite (horner_divide a x y), Ey in Hl.
  destruct (mul_zero (x - y) (horner (horner a y) x k)) as [E|E]; [rewrite <-Hl; ring| |done].
  destruct Hy. replace y with x; [done|]. transitivity (x - y + y); [ring|rewrite E; ring].
Qed.

(** ** Power sums *)

(** A point is a pair of a coefficient and a base. *)
Definition psum (es : list (F * F)) (i : nat) : F := foldr (fun p acc => p.1 * pow p.2 i + acc) f0 es.
Definition wsum (es : list (F * F)) (f : F -> F) : F := foldr (fun p acc => p.1 * f p.2 + acc) f0 es.

Lemma psum_cons e x es i : psum ((e, x) :: es) i = e * pow x i + psum es i.
Proof. done. Qed.
Lemma wsum_cons e x es f : wsum ((e, x) :: es) f = e * f x + wsum es f.
Proof. done. Qed.

Lemma conv_psum a es j : conv a (psum es) j = wsum es (fun x => horner a x j).
Proof.
  induction es as [|[e x] es IH].
  - unfold conv. apply sum_zero. intros i _. cbn. ring.
  - rewrite wsum_cons, <-IH, <-conv_pow. unfold conv. rewrite <-sum_mul, <-sum_add. apply sum_ext.
    intros i _. rewrite psum_cons. ring.
Qed.

Lemma wsum_ext es f g : Forall (fun p => f p.2 = g p.2) es -> wsum es f = wsum es g.
Proof. intros H. induction H as [|[e x] es Hp H IH]; [done|]. cbn [snd] in Hp. by rewrite !wsum_cons, Hp, IH. Qed.

Lemma vandermonde es : NoDup es.*2 -> (forall i, (i < length es)%nat -> psum es i = f0) -> Forall (fun p => p.1 = f0) es.
Proof.
  remember (length es) as k eqn:Ek. revert es Ek. induction k as [|k IH]; intros [|[c x] es] Ek Hd Hs; try done.
  injection Ek as Ek. cbn [fmap list_fmap snd] in Hd. apply NoDup_cons in Hd as [Hni Hd].
  pose (g := fun p : F * F => (p.1 * (p.2 - x), p.2)).
  assert (Eg : forall i, psum (map g es) i = psum es (S i) - x * psum es i).
  { intros i. clear -K. induction es as [|[c y] es IH]; [cbn; ring|]. cbn [map]. unfold g at 1. cbn [fst snd].
    rewrite !psum_cons, IH. cbn [pow]. ring. }
  assert (He : Forall (fun p => p.1 = f0) (map g es)).
  { apply IH; [by rewrite length_map| |].
    - replace (map g es).*2 with es.*2; [done|]. clear. induction es as [|p es IH]; [done|]. cbn in *. by rewrite <-IH.
    - intros i Hi. rewrite Eg. pose proof (Hs i ltac:(lia)) as A. pose proof (Hs (S i) ltac:(lia)) as B. rewrite psum_cons in A, B. cbn [pow] in B.
      transitivity (c * (x * pow x i) + psum es (S i) - x * (c * pow x i + psum es i)); [ring|rewrite A, B; ring]. }
  assert (Hr : Forall (fun p => p.1 = f0) es).
  { rewrite Forall_map in He. rewrite !Forall_forall in *. intros [c' y] Hin. specialize (He _ Hin). cbn in He.
    apply mul_zero in He as [He|He]; [done|]. destruct Hni. apply list_elem_of_fmap. exists (c', y). split; [|done]. cbn.
    transitivity (y - (y - x)); [ring|rewrite He; ring]. }
  constructor; [|done]. cbn [fst]. specialize (Hs 0%nat ltac:(lia)). rewrite psum_cons in Hs.
  assert (H0 : psum es 0 = f0).
  { clear -Hr K. induction Hr as [|[d y] es Hc Hr IH]; [done|]. cbn [fst] in Hc. subst d. rewrite psum_cons, IH. ring. }
  rewrite H0 in Hs. cbn [pow] in Hs. transitivity (c * f1 + f0); [ring|done].
Qed.

(** ** The algorithm of Berlekamp and Massey *)

Definition deg_le a k := forall i, (k < i)%nat -> a i = f0.

(** After [r] steps: [lambda] of degree [L] generates the first [r] terms; [b] is
    the last one that failed, scaled and shifted to where it failed. *)
Record bm_inv s (r : nat) (lambda b : nat -> F) (L : nat) : Prop := {
  bi_one : lambda 0%nat = f1;
  bi_deg : deg_le lambda L;
  bi_le : (L <= r)%nat;
  bi_gen : forall j, (L <= j < r)%nat -> conv lambda s j = f0;
  bi_bdeg : deg_le b (r - L);
  bi_bgen : forall j, (r - L < j < r)%nat -> conv b (cons1 s) j = f0;
  bi_bone : conv b (cons1 s) r = f1;
}.

Lemma conv_ext a a' b b' j : (forall i, a i = a' i) -> (forall i, b i = b' i) -> conv a b j = conv a' b' j.
Proof. intros Ha Hb. apply sum_ext. intros i _. by rewrite Ha, Hb. Qed.

Lemma bm_inv_ext s r lambda lambda' b b' L : (forall i, lambda i = lambda' i) -> (forall i, b i = b' i) ->
  bm_inv s r lambda b L -> bm_inv s r lambda' b' L.
Proof.
  intros E1 E2 I. split; try apply I.
  - rewrite <-E1. apply I.
  - intros i Hi. rewrite <-E1. by apply I.
  - intros j Hj. rewrite <-(bi_gen _ _ _ _ _ I j Hj). by apply conv_ext.
  - intros i Hi. rewrite <-E2. by apply I.
  - intros j Hj. rewrite <-(bi_bgen _ _ _ _ _ I j Hj). by apply conv_ext.
  - rewrite <-(bi_bone _ _ _ _ _ I). by apply conv_ext.
Qed.

Definition delta (i : nat) : F := match i with O => f1 | S _ => f0 end.

Lemma bm_init s : bm_inv s 0 delta delta 0.
Proof. split; try done; try (intros j ?; lia); try (intros [|j] ?; [lia|done]). unfold conv. cbn. ring. Qed.

Lemma shift_deg b k : deg_le b k -> deg_le (shift b) (S k).
Proof. intros H [|i] Hi; [lia|]. cbn. apply H. lia. Qed.

(** [x b] meets the invariant of [b] one step later. *)
Lemma shift_conv1 s b j : conv (shift b) (cons1 s) (S j) = conv b (cons1 s) j.
Proof. apply conv_shift. Qed.

Lemma bm_keep s r lambda b L : bm_inv s r lambda b L -> conv lambda s r = f0 -> bm_inv s (S r) lambda (shift b) L.
Proof.
  intros I Hd. pose proof (bi_le _ _ _ _ _ I). split; [apply I|apply I|lia| | | |].
  - intros j Hj. destruct (decide (j = r)) as [->|]; [done|]. apply I. lia.
  - rewrite Nat.sub_succ_l by done. apply shift_deg, I.
  - intros [|j] Hj; [lia|]. rewrite shift_conv1. apply I. lia.
  - rewrite shift_conv1. apply I.
Qed.

(** The next [lambda] generates one more term. *)
Lemma bm_next s r lambda b L j : bm_inv s r lambda b L -> (L <= j)%nat -> (r - L < j <= r)%nat ->
  conv (fun i => lambda i - conv lambda s r * shift b i) s j = f0.
Proof.
  intros I HL Hj. rewrite conv_linear. assert (E : conv (shift b) s j = conv b (cons1 s) j).
  { rewrite conv_cons1, (bi_bdeg _ _ _ _ _ I j) by lia. ring. }
  rewrite E. destruct (decide (j = r)) as [->|].
  - rewrite (bi_bone _ _ _ _ _ I). ring.
  - rewrite (bi_bgen _ _ _ _ _ I), (bi_gen _ _ _ _ _ I) by lia. ring.
Qed.

Lemma bm_next_deg s r lambda b L x : bm_inv s r lambda b L -> deg_le (fun i => lambda i - x * shift b i) (Nat.max L (S r - L)).
Proof.
  intros I i Hi. pose proof (bi_le _ _ _ _ _ I). rewrite (bi_deg _ _ _ _ _ I) by lia. rewrite (shift_deg b (r - L)) by (apply I || lia). ring.
Qed.

Lemma bm_same s r lambda b L : bm_inv s r lambda b L -> (r < 2 * L)%nat ->
  bm_inv s (S r) (fun i => lambda i - conv lambda s r * shift b i) (shift b) L.
Proof.
  intros I HL. pose proof (bi_le _ _ _ _ _ I). split.
  - cbn. rewrite (bi_one _ _ _ _ _ I). ring.
  - intros i Hi. eapply bm_next_deg; [exact I|lia].
  - lia.
  - intros j Hj. eapply bm_next; [exact I|lia|lia].
  - rewrite Nat.sub_succ_l by done. apply shift_deg, I.
  - intros [|j] Hj; [lia|]. rewrite shift_conv1. apply I. lia.
  - rewrite shift_conv1. apply I.
Qed.

Lemma bm_grow s r lambda b L (c : F) : bm_inv s r lambda b L -> (2 * L <= r)%nat -> c * conv lambda s r = f1 ->
  bm_inv s (S r) (fun i => lambda i - conv lambda s r * shift b i) (fun i => c * lambda i) (S r - L).
Proof.
  intros I HL Hc.
  assert (A : forall j, (L < j)%nat -> conv (fun i => c * lambda i) (cons1 s) j = c * conv lambda s (j - 1)).
  { intros j Hj. rewrite conv_scale, conv_cons1, (bi_deg _ _ _ _ _ I j), conv_shift by lia. destruct j; [lia|].
    cbn [Nat.sub]. rewrite Nat.sub_0_r. ring. }
  split.
  - cbn. rewrite (bi_one _ _ _ _ _ I). ring.
  - intros i Hi. eapply bm_next_deg; [exact I|lia].
  - lia.
  - intros j Hj. eapply bm_next; [exact I|lia|lia].
  - intros i Hi. rewrite (bi_deg _ _ _ _ _ I) by lia. ring.
  - intros j Hj. rewrite A, (bi_gen _ _ _ _ _ I) by lia. ring.
  - rewrite A by lia. by rewrite Nat.sub_succ, Nat.sub_0_r.
Qed.

(** The degree stays below that of any polynomial that generates the sequence. *)
Lemma bm_bound s r n lambda b L sigma k : bm_inv s r lambda b L -> (r < n)%nat ->
  sigma 0%nat = f1 -> deg_le sigma k -> (forall j, (k <= j < n)%nat -> conv sigma s j = f0) ->
  conv lambda s r <> f0 -> (S r - L <= k)%nat.
Proof.
  intros I Hr H1 Hk Hs Hd. destruct (decide (S r - L <= k)%nat) as [|Hn]; [done|]. destruct Hd.
  transitivity (conv sigma (conv lambda s) r).
  - unfold conv at 2. rewrite sum_first, H1, Nat.sub_0_r. rewrite sum_zero; [ring|]. intros i Hi.
    destruct (decide (S i <= k)%nat); [rewrite (bi_gen _ _ _ _ _ I) by lia|rewrite Hk by lia]; ring.
  - rewrite conv_conv. unfold conv at 1. apply sum_zero. intros i Hi.
    destruct (decide (i <= L)%nat); [rewrite Hs by lia|rewrite (bi_deg _ _ _ _ _ I) by lia]; ring.
Qed.

(** The polynomial with the inverses of the bases as roots. *)
Fixpoint locator (xs : list F) : nat -> F :=
  match xs with [] => delta | x :: xs => fun i => locator xs i - x * shift (locator xs) i end.

Lemma locator_one xs : locator xs 0%nat = f1.
Proof. induction xs as [|x xs IH]; [done|]. cbn. rewrite IH. ring. Qed.
Lemma locator_deg xs : deg_le (locator xs) (length xs).
Proof.
  induction xs as [|x xs IH]; [intros [|i] Hi; [lia|done]|]. intros i Hi. cbn [locator length] in *.
  rewrite IH, (shift_deg _ _ IH) by lia. ring.
Qed.
Lemma locator_pow xs x j : x ∈ xs -> (length xs <= j)%nat -> conv (locator xs) (pow x) j = f0.
Proof.
  revert j. induction xs as [|y xs IH]; intros j Hx Hj; [by apply elem_of_nil in Hx|]. cbn [locator length] in *.
  rewrite conv_linear, conv_shift. destruct j as [|j]; [lia|]. destruct (decide (x = y)) as [->|Hne].
  - rewrite !conv_pow. cbn [horner]. rewrite (locator_deg xs (S j)) by lia. ring.
  - apply elem_of_cons in Hx as [?|Hx]; [done|]. rewrite !IH by (done || lia). ring.
Qed.
Lemma wsum_zero es f : Forall (fun p => f p.2 = f0) es -> wsum es f = f0.
Proof. intros H. induction H as [|[e x] es Hp H IH]; [done|]. cbn [snd] in Hp. rewrite wsum_cons, Hp, IH. ring. Qed.

Lemma locator_psum es j : (length es <= j)%nat -> conv (locator es.*2) (psum es) j = f0.
Proof.
  intros Hj. rewrite conv_psum. apply wsum_zero, Forall_forall. intros p Hp. rewrite <-conv_pow. apply locator_pow.
  - apply list_elem_of_fmap. by exists p.
  - by rewrite length_fmap.
Qed.

(** ** The result *)

Section locate.
Context (es : list (F * F)) (n : nat) (lambda b : nat -> F) (L : nat).
Context (Hdup : NoDup es.*2) (Hnz : Forall (fun p => p.1 <> f0 /\ p.2 <> f0) es).
Context (I : bm_inv (psum es) n lambda b L) (HL : (L <= length es)%nat) (Hn : (2 * length es <= n)%nat).

Lemma lambda_roots : Forall (fun p => horner lambda p.2 L = f0) es.
Proof.
  pose (g := fun p : F * F => (p.1 * horner lambda p.2 L, p.2)).
  assert (V : Forall (fun p => p.1 = f0) (map g es)).
  { apply vandermonde.
    - replace (map g es).*2 with es.*2; [done|]. clear. induction es as [|p l IH]; [done|]. cbn in *. by rewrite <-IH.
    - intros t Ht. rewrite length_map in Ht. rewrite <-(bi_gen _ _ _ _ _ I (L + t)) by lia. rewrite conv_psum.
      assert (D : forall x, horner lambda x (L + t) = pow x t * horner lambda x L).
      { intros x. apply horner_tail. intros i Hi. apply I. lia. }
      clear -K D. induction es as [|[e x] l IH]; [done|]. cbn [map]. unfold g at 1. cbn [fst snd].
      rewrite psum_cons, wsum_cons, IH, D. ring. }
  rewrite Forall_map in V. rewrite !Forall_forall in *. intros p Hp. specialize (V p Hp). cbn in V.
  apply mul_zero in V as [V|V]; [|done]. by destruct (Hnz p Hp).
Qed.

Lemma lambda_length : L = length es.
Proof.
  apply Nat.le_antisymm; [exact HL|]. rewrite <-(length_fmap snd es). apply (roots_bound _ lambda); [|done|].
  - rewrite (bi_one _ _ _ _ _ I). apply field_laws.
  - apply Forall_fmap. exact lambda_roots.
Qed.

Lemma root_iff x : horner lambda x (length es) = f0 <-> x ∈ es.*2.
Proof.
  pose proof lambda_roots as R. rewrite lambda_length in R. split.
  - intros Hx. destruct (decide (x ∈ es.*2)) as [|Hn']; [done|].
    assert (B : (length (x :: es.*2) <= length es)%nat).
    { apply (roots_bound _ lambda).
      - rewrite (bi_one _ _ _ _ _ I). apply field_laws.
      - by constructor.
      - constructor; [done|]. by apply Forall_fmap. }
    cbn [length] in B. rewrite length_fmap in B. lia.
  - intros (p & -> & Hp)%list_elem_of_fmap. rewrite Forall_forall in R. by apply R.
Qed.

Lemma lambda_lead : lambda (length es) <> f0.
Proof.
  assert (E : horner lambda f0 (length es) = lambda (length es)) by (destruct (length es); cbn; ring || done).
  rewrite <-E, root_iff. intros (p & Ep & Hp)%list_elem_of_fmap. rewrite Forall_forall in Hnz. destruct (Hnz p Hp). done.
Qed.

(** ** Values of the errors *)

(** The quotient of [lambda] by the factor of [x], at [y]. *)
Definition quotient_at (x y : F) : F := sum (fun i => horner lambda x i * pow y i) (length es).

Lemma sum_pow a x y k : x * y = f1 -> sum (fun i => a i * pow y i) (S k) = pow y k * horner a x k.
Proof.
  intros Hxy. induction k as [|k IH]; [cbn; ring|].
  change (sum (fun i => a i * pow y i) (S (S k))) with (sum (fun i => a i * pow y i) (S k) + a (S k) * pow y (S k)).
  rewrite IH. cbn [pow horner]. transitivity (x * y * pow y k * horner a x k + a (S k) * (y * pow y k)); [rewrite Hxy; ring|ring].
Qed.

Lemma pow_nz y k : y <> f0 -> pow y k <> f0.
Proof. intros Hy. induction k as [|k IH]; [apply field_laws|]. cbn. intros [?|?]%mul_zero; done. Qed.

Lemma quotient_zero x x' y : x ∈ es.*2 -> x' ∈ es.*2 -> x <> x' -> x * y = f1 -> quotient_at x' y = f0.
Proof.
  intros Hx Hx' Hne Hxy. unfold quotient_at. apply root_iff in Hx, Hx'. destruct (length es) as [|k]; [done|].
  rewrite (sum_pow _ x) by done. rewrite (horner_divide lambda x x'), Hx' in Hx.
  destruct (mul_zero (x - x') (horner (horner lambda x') x k)) as [E|E]; [rewrite <-Hx; ring| |rewrite E; ring].
  destruct Hne. transitivity (x - x' + x'); [ring|rewrite E; ring].
Qed.

Lemma quotient_nz x y : x ∈ es.*2 -> x * y = f1 -> quotient_at x y <> f0.
Proof.
  intros Hx Hxy Hq. assert (Hy : y <> f0) by (intros ->; destruct (field_laws (F := F)) as [_ F1 _ _]; apply F1; rewrite <-Hxy; ring).
  assert (Ek : exists k, length es = S k) by (destruct es; [by apply elem_of_nil in Hx|by eexists]). destruct Ek as [k Ek].
  unfold quotient_at in Hq. rewrite Ek, (sum_pow _ x) in Hq by done. apply mul_zero in Hq as [Hq|Hq]; [by apply (pow_nz y k)|].
  assert (B : (length es.*2 <= k)%nat).
  { apply (roots_bound _ (horner lambda x)); [cbn; rewrite (bi_one _ _ _ _ _ I); apply field_laws|done|]. apply Forall_forall.
    intros x' Hx'. destruct (decide (x' = x)) as [->|Hne]; [done|]. apply root_iff in Hx'. rewrite Ek in Hx'.
    apply root_iff in Hx. rewrite Ek in Hx. rewrite (horner_divide lambda x' x), Hx in Hx'.
    destruct (mul_zero (x' - x) (horner (horner lambda x) x' k)) as [E|E]; [rewrite <-Hx'; ring| |done].
    destruct Hne. transitivity (x' - x + x); [ring|rewrite E; ring]. }
  rewrite length_fmap in B. lia.
Qed.

Lemma wsum_single e x f : (e, x) ∈ es -> (forall x', x' ∈ es.*2 -> x' <> x -> f x' = f0) -> wsum es f = e * f x.
Proof.
  clear -K Hdup. induction es as [|[e' x'] l IH]; intros Hin Hf; [by apply elem_of_nil in Hin|].
  cbn [fmap list_fmap snd] in *. apply NoDup_cons in Hdup as [Hx' Hd]. rewrite wsum_cons.
  apply elem_of_cons in Hin as [[= <- <-]|Hin].
  - rewrite wsum_zero; [ring|]. apply Forall_forall. intros [e1 x1] Hp. cbn. assert (x1 ∈ l.*2) by (apply list_elem_of_fmap; by exists (e1, x1)).
    apply Hf; [by right|]. intros ->. done.
  - rewrite IH; [|done|done|intros; apply Hf; [by right|done]]. rewrite (Hf x'); [ring|by left|].
    intros ->. destruct Hx'. apply list_elem_of_fmap. by exists (e, x).
Qed.

(** The evaluator: the low coefficients of [lambda] times the sequence. *)
Lemma omega_value e x y : (e, x) ∈ es -> x * y = f1 ->
  sum (fun i => conv lambda (psum es) i * pow y i) (length es) = e * quotient_at x y.
Proof.
  intros Hin Hxy. assert (Hx : x ∈ es.*2) by (apply list_elem_of_fmap; by exists (e, x)).
  transitivity (wsum es (fun x' => quotient_at x' y)).
  - unfold quotient_at. generalize (length es) as k. intros k. induction k as [|k IH]; cbn [sum].
    + symmetry. apply wsum_zero, Forall_forall. done.
    + rewrite IH, conv_psum. clear -K. induction es as [|[e1 x1] l IH]; [cbn; ring|]. rewrite !wsum_cons, <-IH. ring.
  - apply (wsum_single e x (fun x' => quotient_at x' y)); [done|]. intros x' Hx' Hne. by apply (quotient_zero x).
Qed.

Lemma horner_beyond x i : x ∈ es.*2 -> (length es <= i)%nat -> horner lambda x i = f0.
Proof.
  intros Hx Hi. replace i with (length es + (i - length es))%nat by lia. rewrite horner_tail.
  - apply root_iff in Hx. rewrite Hx. ring.
  - intros j Hj. apply I. rewrite lambda_length. lia.
Qed.

(** In characteristic 2 the terms of odd degree make the derivative. *)
Lemma derivative_value x y k : (forall z, z + z = f0) -> x ∈ es.*2 -> x * y = f1 -> (length es <= 2 * k)%nat ->
  sum (fun i => lambda (S (2 * i)) * pow y (2 * i)) k = x * quotient_at x y.
Proof.
  intros H2 Hx Hxy Hk. transitivity (x * sum (fun i => horner lambda x i * pow y i) (2 * k)).
  - clear Hk. induction k as [|k IH]; [cbn; ring|]. replace (2 * S k)%nat with (S (S (2 * k))) by lia. cbn [sum]. rewrite IH.
    change (horner lambda x (S (2 * k))) with (x * horner lambda x (2 * k) + lambda (S (2 * k))).
    set (q := horner lambda x (2 * k)). set (u := sum _ (2 * k)). cbn [pow]. set (p := pow y (2 * k)). set (m := lambda (S (2 * k))).
    transitivity (x * u + (x * q * p + x * q * p) + (x * y) * (m * p) + (x * y) * (x * q * p) - x * q * p); [rewrite H2, Hxy; ring|].
    transitivity (x * (u + q * p + (x * q + m) * (y * p)) + (x * q * p - x * q * p)); [ring|ring].
  - unfold quotient_at. f_equal. replace (2 * k)%nat with (length es + (2 * k - length es))%nat by lia. apply sum_pad.
    intros i Hi. rewrite horner_beyond by (done || lia). ring.
Qed.
End locate.
End massey.
