(* ===== verification/ReedSolomonField.v ===== *)
(** * ReedSolomonField: the field behind the codec's tables

    Products through the logarithm tables are those of a field: [gmul] is
    commutative, associative, distributes over xor and has no zero divisors.
    Polynomials are lists of coefficients, the highest first, as the codec has
    its data; [eval] is their value. *)

From S2P Require Import Prelude ReedSolomon Massey.

(** The codec of dm-verity (FEC_PARAMS). *)
Definition fec_codec (roots : Z) : option rs := init_rs_char 8 0x11d 0 1 roots 0.

Definition gf_tables : list Z * list Z * Z :=
  table_loop 255 8 0x11d 255 0 1 (set (replicate 256 0) 255 0) (set (replicate 256 0) 0 255).
Definition gf_alpha : list Z := Eval vm_compute in gf_tables.1.1.
Definition gf_index : list Z := Eval vm_compute in gf_tables.1.2.

#[global] Arguments gf_alpha : simpl never.
#[global] Arguments gf_index : simpl never.

Abbreviation gf x := (0 <= x < 256).
Abbreviation alpha := (get gf_alpha).
Abbreviation index := (get gf_index).

(** A statement about the numbers below [n], by computation. *)
Lemma forallb_below (f : Z -> bool) n : forallb f (seqZ 0 n) = true -> forall x, 0 <= x < n -> f x = true.
Proof. intros H x Hx. rewrite forallb_forall in H. apply H. apply list_elem_of_In, elem_of_seqZ. lia. Qed.

Ltac by_table x :=
  match goal with |- ?P => let f := eval pattern x in (bool_decide P) in
    match f with ?g _ => apply (bool_decide_eq_true_1 P); apply (forallb_below g 256 ltac:(vm_compute; reflexivity) x); lia end end.

Lemma alpha_255 : alpha 255 = 0.
Proof. reflexivity. Qed.
Lemma index_0 : index 0 = 255.
Proof. reflexivity. Qed.

Lemma index_spec x : gf x -> x <> 0 -> 0 <= index x < 255 /\ alpha (index x) = x.
Proof.
  intros Hx Hn. assert (H : x = 0 \/ (0 <= index x /\ index x < 255) /\ alpha (index x) = x) by (by_table x).
  destruct H as [|[? ?]]; [done|]. split; [lia|done].
Qed.

Lemma alpha_spec i : 0 <= i < 255 -> 0 < alpha i < 256 /\ index (alpha i) = i.
Proof.
  intros Hi. assert (H : i = 255 \/ (0 < alpha i /\ alpha i < 256) /\ index (alpha i) = i) by (by_table i).
  destruct H as [|[? ?]]; [lia|]. split; [lia|done].
Qed.

(** Multiplication by the primitive element. *)
Definition xtime (y : Z) : Z := if Z.testbit y 7 then Z.lxor (Z.shiftl y 1) 0x11d else Z.shiftl y 1.

Lemma xtime_xor x y : xtime (Z.lxor x y) = Z.lxor (xtime x) (xtime y).
Proof.
  unfold xtime. rewrite Z.lxor_spec, Z.shiftl_lxor.
  apply Z.bits_inj'. intros k _.
  destruct (Z.testbit x 7), (Z.testbit y 7); cbn [xorb]; rewrite ?Z.lxor_spec;
    destruct (Z.testbit (Z.shiftl x 1) k), (Z.testbit (Z.shiftl y 1) k), (Z.testbit 285 k); done.
Qed.

Lemma xtime_gf x : gf x -> gf (xtime x).
Proof. intros Hx. assert (H : 0 <= xtime x /\ xtime x < 256) by (by_table x). lia. Qed.

Lemma xtime_index x : gf x -> x <> 0 -> xtime x = alpha ((index x + 1) mod 255).
Proof. intros Hx Hn. assert (H : x = 0 \/ xtime x = alpha ((index x + 1) mod 255)) by (by_table x). by destruct H. Qed.

(** ** Products *)

Definition gmul (x y : Z) : Z := if (x =? 0) || (y =? 0) then 0 else alpha ((index x + index y) mod 255).

Lemma gmul_0_l y : gmul 0 y = 0.
Proof. done. Qed.
Lemma gmul_0_r x : gmul x 0 = 0.
Proof. unfold gmul. by rewrite orb_true_r. Qed.
Lemma gmul_comm x y : gmul x y = gmul y x.
Proof. unfold gmul. by rewrite orb_comm, Z.add_comm. Qed.

Lemma gmul_nz x y : x <> 0 -> y <> 0 -> gmul x y = alpha ((index x + index y) mod 255).
Proof. intros Hx Hy. unfold gmul. by rewrite (proj2 (Z.eqb_neq x 0) Hx), (proj2 (Z.eqb_neq y 0) Hy). Qed.

Lemma gmul_gf x y : gf (gmul x y).
Proof.
  unfold gmul. destruct (_ || _); [lia|]. pose proof (Z.mod_pos_bound (index x + index y) 255 ltac:(lia)).
  destruct (alpha_spec ((index x + index y) mod 255)); lia.
Qed.

Lemma gmul_index x y : x <> 0 -> y <> 0 -> gmul x y <> 0 /\ index (gmul x y) = (index x + index y) mod 255.
Proof.
  intros Hx Hy. rewrite gmul_nz by done. pose proof (Z.mod_pos_bound (index x + index y) 255 ltac:(lia)).
  destruct (alpha_spec ((index x + index y) mod 255)) as [? ?]; [lia|]. split; [lia|done].
Qed.

Lemma gmul_zero x y : gmul x y = 0 -> x = 0 \/ y = 0.
Proof.
  intros H. destruct (Z.eq_dec x 0); [by left|]. destruct (Z.eq_dec y 0); [by right|].
  by destruct (gmul_index x y).
Qed.

Lemma gmul_assoc x y z : gmul (gmul x y) z = gmul x (gmul y z).
Proof.
  destruct (Z.eq_dec x 0) as [->|Hx]; [done|]. destruct (Z.eq_dec y 0) as [->|Hy]; [by rewrite gmul_0_r, !gmul_0_l, gmul_0_r|].
  destruct (Z.eq_dec z 0) as [->|Hz]; [by rewrite !gmul_0_r|].
  destruct (gmul_index x y Hx Hy) as [H1 E1], (gmul_index y z Hy Hz) as [H2 E2].
  rewrite gmul_nz, E1 by done. rewrite (gmul_nz x), E2 by done. f_equal.
  rewrite Z.add_mod_idemp_l, Z.add_mod_idemp_r by lia. f_equal. lia.
Qed.

Lemma gmul_1_l x : gf x -> gmul 1 x = x.
Proof.
  intros Hx. destruct (Z.eq_dec x 0) as [->|Hn]; [done|]. destruct (index_spec x Hx Hn) as [Hi E].
  rewrite gmul_nz by done. change (index 1) with 0. rewrite Z.mod_small by lia. exact E.
Qed.

(** Products by powers of the primitive element are iterations of [xtime]. *)
Lemma gmul_alpha n y : gf y -> gmul (alpha (Z.of_nat n mod 255)) y = Nat.iter n xtime y.
Proof.
  intros Hy. destruct (Z.eq_dec y 0) as [->|Hn].
  { rewrite gmul_0_r. induction n as [|n IH]; [done|]. by rewrite Nat.iter_succ, <-IH. }
  assert (H : gf (Nat.iter n xtime y) /\ Nat.iter n xtime y = alpha ((Z.of_nat n + index y) mod 255)).
  { induction n as [|n [IH1 IH2]].
    - destruct (index_spec y Hy Hn) as [Hi E]. cbn. split; [done|]. by rewrite Z.mod_small.
    - rewrite !Nat.iter_succ. split; [by apply xtime_gf|].
      pose proof (Z.mod_pos_bound (Z.of_nat n + index y) 255 ltac:(lia)) as Hb.
      destruct (alpha_spec _ Hb) as [Ha Hi]. rewrite <-IH2 in Ha, Hi. rewrite xtime_index, Hi by lia.
      rewrite Z.add_mod_idemp_l by lia. do 2 f_equal. lia. }
  destruct H as [_ ->]. pose proof (Z.mod_pos_bound (Z.of_nat n) 255 ltac:(lia)) as Hb.
  destruct (alpha_spec _ Hb) as [Ha Hi]. rewrite gmul_nz, Hi by lia. by rewrite Z.add_mod_idemp_l by lia.
Qed.

Lemma iter_xtime_xor n x y : Nat.iter n xtime (Z.lxor x y) = Z.lxor (Nat.iter n xtime x) (Nat.iter n xtime y).
Proof. induction n as [|n IH]; [done|]. by rewrite !Nat.iter_succ, IH, xtime_xor. Qed.

Lemma lxor_gf x y : gf x -> gf y -> gf (Z.lxor x y).
Proof. intros Hx Hy. apply (lxor_range 8 x y); [lia|exact Hx|exact Hy]. Qed.

Lemma gmul_xor_r x y z : gf x -> gf y -> gf z -> gmul x (Z.lxor y z) = Z.lxor (gmul x y) (gmul x z).
Proof.
  intros Hx Hy Hz. destruct (Z.eq_dec x 0) as [->|Hn]; [done|]. destruct (index_spec x Hx Hn) as [Hi E].
  assert (Ex : x = alpha (Z.of_nat (Z.to_nat (index x)) mod 255)) by (by rewrite Z2Nat.id, Z.mod_small, E by lia).
  rewrite Ex, !gmul_alpha by (done || by apply lxor_gf). apply iter_xtime_xor.
Qed.

Lemma gmul_xor_l x y z : gf x -> gf y -> gf z -> gmul (Z.lxor y z) x = Z.lxor (gmul y x) (gmul z x).
Proof. intros. rewrite !(gmul_comm _ x). by apply gmul_xor_r. Qed.

(** Powers. *)
Definition gpow (x : Z) (n : nat) : Z := Nat.iter n (gmul x) 1.

Lemma gpow_gf x n : gf (gpow x n).
Proof. destruct n; [unfold gpow; cbn; lia|apply gmul_gf]. Qed.
Lemma gpow_S x n : gpow x (S n) = gmul x (gpow x n).
Proof. done. Qed.
Lemma gpow_add x n m : gpow x (n + m) = gmul (gpow x n) (gpow x m).
Proof.
  induction n as [|n IH]; cbn [Nat.add]; [symmetry; apply gmul_1_l, gpow_gf|]. rewrite !gpow_S, IH. symmetry. apply gmul_assoc.
Qed.
Lemma gpow_nz x n : x <> 0 -> gpow x n <> 0.
Proof.
  intros Hx. induction n as [|n IH]; [done|]. rewrite gpow_S. intros [?|?]%gmul_zero; done.
Qed.

(** ** Polynomials *)

Abbreviation poly l := (Forall (fun x => gf x) l).

Definition eval (rho : Z) (l : list Z) : Z := fold_left (fun acc c => Z.lxor (gmul acc rho) c) l 0.

Lemma fold_eval_gf rho l acc : poly l -> gf acc -> gf (fold_left (fun acc c => Z.lxor (gmul acc rho) c) l acc).
Proof.
  intros Hl. revert acc. induction Hl as [|c l Hc Hl IH]; intros acc Ha; [done|]. apply IH. apply lxor_gf; [apply gmul_gf|done].
Qed.
Lemma eval_gf rho l : poly l -> gf (eval rho l).
Proof. intros H. apply fold_eval_gf; [done|lia]. Qed.

Lemma eval_snoc rho l c : eval rho (l ++ [c]) = Z.lxor (gmul (eval rho l) rho) c.
Proof. unfold eval. by rewrite fold_left_app. Qed.

Lemma eval_app rho l l' : gf rho -> poly l -> poly l' ->
  eval rho (l ++ l') = Z.lxor (gmul (eval rho l) (gpow rho (length l'))) (eval rho l').
Proof.
  intros Hr Hl. induction l' as [|c l' IH] using rev_ind; intros Hl'.
  - rewrite app_nil_r, gmul_comm. cbn [length]. change (gpow rho 0) with 1. rewrite gmul_1_l by (by apply eval_gf).
    by rewrite Z.lxor_0_r.
  - apply Forall_app in Hl' as [Hl' _]. rewrite app_assoc, !eval_snoc, IH by done. rewrite length_app, Nat.add_comm. cbn [length Nat.add].
    rewrite gpow_S, gmul_xor_l by (done || by apply eval_gf || apply gmul_gf).
    rewrite gmul_assoc, (gmul_comm (gpow _ _) rho). by rewrite Z.lxor_assoc.
Qed.

Lemma eval_cons rho c l : gf rho -> gf c -> poly l -> eval rho (c :: l) = Z.lxor (gmul c (gpow rho (length l))) (eval rho l).
Proof.
  intros Hr Hc Hl. change (c :: l) with ([c] ++ l). rewrite eval_app by (done || by apply Forall_singleton). done.
Qed.

Lemma eval_zeros rho k : gf rho -> eval rho (replicate k 0) = 0.
Proof.
  intros Hr. induction k as [|k IH]; [done|]. cbn [replicate].
  rewrite eval_cons, IH by (done || lia || (apply Forall_replicate; lia)). by rewrite gmul_0_l.
Qed.

Definition poly_xor (a b : list Z) : list Z := zip_with Z.lxor a b.

Lemma poly_xor_poly a b : poly a -> poly b -> poly (poly_xor a b).
Proof.
  intros Ha. revert b. induction Ha as [|x a Hx Ha IH]; intros [|y b] Hb; try constructor.
  - inversion Hb. by apply lxor_gf.
  - inversion Hb. by apply IH.
Qed.

Lemma eval_xor rho a b : gf rho -> poly a -> poly b -> length a = length b ->
  eval rho (poly_xor a b) = Z.lxor (eval rho a) (eval rho b).
Proof.
  intros Hr Ha. revert b. induction Ha as [|x a Hx Ha IH]; intros [|y b] Hb; try done. cbn [length]. intros [=Hl].
  apply Forall_cons in Hb as [Hy Hb]. cbn [poly_xor zip_with]. fold (poly_xor a b).
  pose proof (poly_xor_poly a b Ha Hb). rewrite !eval_cons by (done || by apply lxor_gf). rewrite IH by done.
  assert (El : length (poly_xor a b) = length a) by (unfold poly_xor; rewrite length_zip_with; lia).
  rewrite El, <-Hl, gmul_xor_l by (done || apply gpow_gf).
  set (u := gmul x _). set (v := gmul y _). rewrite !Z.lxor_assoc. f_equal. rewrite <-!Z.lxor_assoc. f_equal. apply Z.lxor_comm.
Qed.

Lemma eval_scale rho f a : gf rho -> gf f -> poly a -> eval rho (map (gmul f) a) = gmul f (eval rho a).
Proof.
  intros Hr Hf Ha. induction Ha as [|x a Hx Ha IH]; [by rewrite gmul_0_r|]. cbn [map].
  assert (poly (map (gmul f) a)) by (apply Forall_map, Forall_true; intros; apply gmul_gf).
  rewrite !eval_cons by (done || apply gmul_gf). rewrite IH, length_map.
  rewrite gmul_xor_r by (done || apply gmul_gf || by apply eval_gf). by rewrite gmul_assoc.
Qed.

(** ** The field of the symbols *)

Record gf256 := GF { gval : Z; gok : (0 <=? gval) && (gval <? 256) = true }.

Lemma gval_range a : gf (gval a).
Proof. destruct a as [x Hx]. cbn. lia. Qed.

Lemma gval_inj a b : gval a = gval b -> a = b.
Proof. destruct a as [x Hx], b as [y Hy]. cbn. intros ->. f_equal. apply proof_irrel. Qed.

Program Definition sym (x : Z) : gf256 := GF (x mod 256) _.
Next Obligation. intros x. pose proof (Z.mod_pos_bound x 256 ltac:(lia)). lia. Qed.

Lemma gval_sym x : gf x -> gval (sym x) = x.
Proof. intros H. cbn. by apply Z.mod_small. Qed.
Lemma sym_gval a : sym (gval a) = a.
Proof. apply gval_inj, gval_sym, gval_range. Qed.

#[global] Instance gf256_dec : EqDecision gf256.
Proof. intros a b. destruct (decide (gval a = gval b)) as [E|E]; [left; by apply gval_inj|right; congruence]. Defined.

(** Inverses. *)
Definition ginv (x : Z) : Z := if x =? 0 then 0 else alpha ((255 - index x) mod 255).

Lemma ginv_gf x : gf (ginv x).
Proof.
  unfold ginv. destruct (Z.eqb_spec x 0); [lia|]. pose proof (Z.mod_pos_bound (255 - index x) 255 ltac:(lia)) as Hb.
  destruct (alpha_spec _ Hb). lia.
Qed.

Lemma ginv_l x : gf x -> x <> 0 -> gmul (ginv x) x = 1.
Proof.
  intros Hx Hn. unfold ginv. rewrite (proj2 (Z.eqb_neq x 0) Hn). destruct (index_spec x Hx Hn) as [Hi _].
  pose proof (Z.mod_pos_bound (255 - index x) 255 ltac:(lia)) as Hb. destruct (alpha_spec _ Hb) as [? Ei].
  rewrite gmul_nz, Ei, Z.add_mod_idemp_l by lia. by replace (255 - index x + index x) with 255 by lia.
Qed.

Definition gf_add (a b : gf256) : gf256 := sym (Z.lxor (gval a) (gval b)).
Definition gf_mul (a b : gf256) : gf256 := sym (gmul (gval a) (gval b)).
Definition gf_inv (a : gf256) : gf256 := sym (ginv (gval a)).

Lemma gval_add a b : gval (gf_add a b) = Z.lxor (gval a) (gval b).
Proof. apply gval_sym, lxor_gf; apply gval_range. Qed.
Lemma gval_mul a b : gval (gf_mul a b) = gmul (gval a) (gval b).
Proof. apply gval_sym, gmul_gf. Qed.
Lemma gval_inv a : gval (gf_inv a) = ginv (gval a).
Proof. apply gval_sym, ginv_gf. Qed.

#[global] Program Instance gf256_field : FieldOps gf256 := {
  f0 := sym 0; f1 := sym 1; fadd := gf_add; fmul := gf_mul; fsub := gf_add; fopp := fun a => a;
  fdiv := fun a b => gf_mul a (gf_inv b); finv := gf_inv;
}.
Next Obligation.
  split; [split| | |].
  all: try (intros; apply gval_inj; rewrite ?gval_add, ?gval_mul, ?gval_add, ?gval_mul, ?(gval_sym 0), ?(gval_sym 1) by lia).
  - apply Z.lxor_0_l.
  - apply Z.lxor_comm.
  - symmetry. apply Z.lxor_assoc.
  - apply gmul_1_l, gval_range.
  - apply gmul_comm.
  - symmetry. apply gmul_assoc.
  - apply gmul_xor_l; apply gval_range.
  - done.
  - apply Z.lxor_nilpotent.
  - done.
  - done.
  - rewrite gval_inv. apply ginv_l; [apply gval_range|]. intros E. apply H. apply gval_inj. by rewrite E, gval_sym by lia.
Qed.

Lemma sym_xor x y : gf x -> gf y -> sym (Z.lxor x y) = fadd (sym x) (sym y).
Proof. intros. apply gval_inj. cbn -[sym]. rewrite gval_add, !gval_sym by (done || by apply lxor_gf). done. Qed.
Lemma sym_mul x y : gf x -> gf y -> sym (gmul x y) = fmul (sym x) (sym y).
Proof. intros. apply gval_inj. cbn -[sym]. rewrite gval_mul, !gval_sym by (done || apply gmul_gf). done. Qed.
Lemma sym_inj x y : gf x -> gf y -> sym x = sym y -> x = y.
Proof. intros Hx Hy E. rewrite <-(gval_sym x), <-(gval_sym y) by done. by rewrite E. Qed.
Lemma sym_zero x : gf x -> sym x = f0 <-> x = 0.
Proof. intros Hx. split; [intros E; by apply sym_inj|by intros ->]. Qed.
Lemma sym_pow x k : gf x -> sym (gpow x k) = pow (sym x) k.
Proof.
  intros Hx. induction k as [|k IH]; [done|]. rewrite gpow_S, sym_mul by (done || apply gpow_gf). by rewrite IH.
Qed.
Lemma gf_char2 (a : gf256) : fadd a a = f0.
Proof. apply gval_inj. cbn -[sym]. by rewrite gval_add, Z.lxor_nilpotent. Qed.
