(* ===== verification/ReedSolomonProps.v ===== *)
(** * ReedSolomonProps: what the codec of dm-verity guarantees

    For every number of roots dm-verity accepts: a word made of data and its
    parity has zero syndromes and is decoded as it is; a word that differs from
    it in at most as many symbols as there are roots has a syndrome that is not
    zero; one changed symbol of a whole block is corrected. *)

From S2P Require Import Prelude ReedSolomon Massey ReedSolomonField.

(** ** The codecs of dm-verity *)

(** The coefficients of the generator below the leading one, the highest first. *)
Definition generator (rs : rs) : list Z := map alpha (reverse (take (Z.to_nat (nroots rs)) (genpoly rs))).

Record fec_rs (n : Z) (rs : rs) : Prop := {
  fr_mm : mm rs = 8;
  fr_nn : nn rs = 255;
  fr_alpha : alpha_to rs = gf_alpha;
  fr_index : index_of rs = gf_index;
  fr_nroots : nroots rs = n;
  fr_fcr : fcr rs = 0;
  fr_prim : prim rs = 1;
  fr_iprim : iprim rs = 1;
  fr_pad : pad rs = 0;
  fr_length : Z.of_nat (length (genpoly rs)) = n + 1;
  fr_genpoly : Forall (fun g => 0 <= g < 255) (genpoly rs);
  (** the powers of the primitive element are roots of the generator *)
  fr_root : Forall (fun i => gpow (alpha i) (Z.to_nat n) = eval (alpha i) (generator rs)) (seqZ 0 n);
}.

Lemma fec_codec_rs n rs : 2 <= n <= 24 -> fec_codec n = Some rs -> fec_rs n rs.
Proof.
  intros Hn. 
  pose (P := fun n => match fec_codec n with
    | None => true
    | Some rs => (bool_decide (mm rs = 8) && bool_decide (nn rs = 255) && bool_decide (alpha_to rs = gf_alpha)
      && bool_decide (index_of rs = gf_index) && bool_decide (nroots rs = n) && bool_decide (fcr rs = 0)
      && bool_decide (prim rs = 1) && bool_decide (iprim rs = 1) && bool_decide (pad rs = 0)
      && bool_decide (Z.of_nat (length (genpoly rs)) = n + 1)
      && forallb (fun g => (0 <=? g) && (g <? 255)) (genpoly rs)
      && forallb (fun i => gpow (alpha i) (Z.to_nat n) =? eval (alpha i) (generator rs)) (seqZ 0 n))%bool end).
  assert (HP : P n = true).
  { assert (A : forall k, 0 <= k < 25 -> ((k <? 2) || P k)%bool = true) by (apply forallb_below; vm_compute; reflexivity).
    specialize (A n ltac:(lia)). by rewrite (proj2 (Z.ltb_ge n 2)) in A by lia. }
  unfold P in HP. destruct (fec_codec n) as [r|]; [|done]. intros [= <-].
  rewrite !andb_true_iff in HP. repeat match type of HP with _ /\ _ => let h := fresh "C" in destruct HP as [HP h] end.
  split; try (by apply (bool_decide_eq_true_1 _)).
  - apply Forall_forall. intros g Hg. rewrite forallb_forall in C0. apply list_elem_of_In in Hg. specialize (C0 g Hg). lia.
  - apply Forall_forall. intros i Hi. rewrite forallb_forall in C. apply list_elem_of_In in Hi. specialize (C i Hi). by apply Z.eqb_eq.
Qed.

Lemma fec_codec_some n : 2 <= n <= 24 -> exists rs, fec_codec n = Some rs.
Proof.
  intros Hn. assert (A : forall k, 0 <= k < 25 -> ((k <? 2) || bool_decide (is_Some (fec_codec k)))%bool = true)
    by (apply forallb_below; vm_compute; reflexivity).
  specialize (A n ltac:(lia)). rewrite (proj2 (Z.ltb_ge n 2)) in A by lia. cbn [orb] in A. by apply bool_decide_eq_true in A as [rs ?]; exists rs.
Qed.

(** ** Reduction of exponents *)

Lemma modnn_loop_mod fuel x : 0 <= x -> (Z.to_nat x <= fuel)%nat -> modnn_loop fuel 8 255 x = x mod 255.
Proof.
  revert x. induction fuel as [|fuel IH]; intros x Hx Hf; cbn [modnn_loop].
  - assert (x = 0) by lia. by subst x.
  - destruct (Z.ltb_spec x 255) as [Hl|Hl]; [by rewrite Z.mod_small|].
    assert (E : Z.shiftr (x - 255) 8 + Z.land (x - 255) 255 = (x - 255) / 256 + (x - 255) mod 256).
    { rewrite Z.shiftr_div_pow2 by lia. f_equal. apply (Z.land_ones _ 8). lia. }
    rewrite E. pose proof (Z.div_mod (x - 255) 256 ltac:(lia)) as D.
    pose proof (Z.mod_pos_bound (x - 255) 256 ltac:(lia)). pose proof (Z.div_pos (x - 255) 256 ltac:(lia) ltac:(lia)).
    rewrite IH by lia. symmetry. rewrite <-(Z.mod_add ((x - 255) / 256 + _) ((x - 255) / 256 + 1) 255) by lia. f_equal. lia.
Qed.

Section codec.
Context (n : Z) (Hn : 2 <= n <= 24) (rs : rs) (R : fec_rs n rs).

Lemma modnn_mod x : 0 <= x -> modnn rs x = x mod 255.
Proof.
  intros Hx. unfold modnn. rewrite (fr_nn n rs R), (fr_mm n rs R). destruct (Z.ltb_spec x 255); [by rewrite Z.mod_small|].
  by apply modnn_loop_mod.
Qed.

Lemma alpha_gf i : 0 <= i < 255 -> gf (alpha i).
Proof. intros H. destruct (alpha_spec i H). lia. Qed.

(** The product of a symbol and a symbol in index form. *)
Lemma alpha_modnn f g : gf f -> f <> 0 -> 0 <= g < 255 -> get (alpha_to rs) (modnn rs (index f + g)) = gmul f (alpha g).
Proof.
  intros Hf Hz Hg. destruct (index_spec f Hf Hz), (alpha_spec g Hg) as [Ha Ei]. rewrite (fr_alpha n rs R), modnn_mod by lia.
  rewrite gmul_nz, Ei by lia. done.
Qed.

(** ** Encoding *)

Lemma get_ext l l' : length l = length l' -> (forall i, 0 <= i < Z.of_nat (length l) -> get l i = get l' i) -> l = l'.
Proof.
  intros Hl Hg. apply (nth_ext _ _ 0 0 Hl). intros i Hi. specialize (Hg (Z.of_nat i) ltac:(lia)). unfold get in Hg.
  by rewrite Nat2Z.id in Hg.
Qed.
Lemma get_drop1 l i : 0 <= i -> get (drop 1 l) i = get l (i + 1).
Proof. intros Hi. unfold get. rewrite !nth_lookup, lookup_drop. do 2 f_equal. lia. Qed.
Lemma get_app_l l l' i : 0 <= i < Z.of_nat (length l) -> get (l ++ l') i = get l i.
Proof. intros Hi. unfold get. apply app_nth1. lia. Qed.
Lemma get_app_r l l' i : Z.of_nat (length l) <= i -> get (l ++ l') i = get l' (i - Z.of_nat (length l)).
Proof. intros Hi. unfold get. rewrite app_nth2 by lia. f_equal. lia. Qed.
Lemma get_map (f : Z -> Z) l i : 0 <= i < Z.of_nat (length l) -> get (map f l) i = f (get l i).
Proof. intros Hi. unfold get. rewrite (nth_indep _ 0 (f 0)) by (rewrite length_map; lia). apply map_nth. Qed.
Lemma get_poly_xor a b i : 0 <= i < Z.of_nat (length a) -> length a = length b ->
  get (poly_xor a b) i = Z.lxor (get a i) (get b i).
Proof.
  intros Hi Hl. unfold get, poly_xor. rewrite !nth_lookup, lookup_zip_with.
  destruct (lookup_lt_is_Some_2 a (Z.to_nat i)) as [x Ex]; [lia|].
  destruct (lookup_lt_is_Some_2 b (Z.to_nat i)) as [y Ey]; [lia|]. by rewrite Ex, Ey.
Qed.

Lemma get_set l i j v : 0 <= i -> 0 <= j < Z.of_nat (length l) -> get (set l j v) i = if i =? j then v else get l i.
Proof.
  intros Hi Hj. unfold get, set. destruct (Z.eqb_spec i j) as [->|E].
  - rewrite nth_lookup, list_lookup_insert_eq; [done|]. lia.
  - rewrite !nth_lookup, list_lookup_insert_ne; [done|]. lia.
Qed.

Lemma length_set l i v : length (set l i v) = length l.
Proof. apply length_insert. Qed.

Lemma get_feed_loop k f j parity i : 1 <= j -> j + Z.of_nat k <= Z.of_nat (length parity) -> 0 <= i ->
  get (feed_loop rs k f j parity) i =
  if (j <=? i) && (i <? j + Z.of_nat k)
  then Z.lxor (get parity i) (get (alpha_to rs) (modnn rs (f + get (genpoly rs) (nroots rs - i)))) else get parity i.
Proof.
  intros Hj. revert j parity Hj. induction k as [|k IH]; intros j parity Hj Hl Hi; cbn [feed_loop].
  - destruct (Z.leb_spec j i), (Z.ltb_spec i (j + Z.of_nat 0)); cbn; done || lia.
  - rewrite IH by (rewrite ?length_set; lia). rewrite get_set by lia.
    destruct (Z.leb_spec (j + 1) i), (Z.ltb_spec i (j + 1 + Z.of_nat k)), (Z.leb_spec j i),
      (Z.ltb_spec i (j + Z.of_nat (S k))), (Z.eqb_spec i j); cbn; subst; done || lia.
Qed.

Lemma length_feed_loop k f j parity : length (feed_loop rs k f j parity) = length parity.
Proof. revert j parity. induction k as [|k IH]; intros j parity; [done|]. cbn [feed_loop]. by rewrite IH, length_set. Qed.

Lemma length_generator : Z.of_nat (length (generator rs)) = n.
Proof.
  unfold generator. pose proof (fr_length n rs R). rewrite length_map, length_reverse, length_take, (fr_nroots n rs R). lia.
Qed.

Lemma poly_generator : poly (generator rs).
Proof.
  unfold generator. apply Forall_map, Forall_forall. intros g Hg. apply alpha_gf.
  apply elem_of_reverse, elem_of_take in Hg as (i & Hi & _). apply list_elem_of_lookup_2 in Hi.
  by apply (proj1 (Forall_forall _ _) (fr_genpoly n rs R)).
Qed.

Lemma get_generator i : 0 <= i < n -> get (generator rs) i = alpha (get (genpoly rs) (n - 1 - i)).
Proof.
  intros Hi. pose proof (fr_length n rs R). unfold get at 1, generator.
  rewrite (nth_indep _ 0 (alpha 0)) by (rewrite length_map, length_reverse, length_take, (fr_nroots n rs R); lia).
  rewrite map_nth, nth_lookup, reverse_lookup by (rewrite length_take, (fr_nroots n rs R); lia).
  rewrite length_take, lookup_take_lt by (rewrite (fr_nroots n rs R); lia). rewrite <-nth_lookup. unfold get. do 3 f_equal.
  rewrite (fr_nroots n rs R). lia.
Qed.

Lemma encode_step_spec parity d : poly parity -> gf d -> Z.of_nat (length parity) = n ->
  encode_step rs parity d =
  poly_xor (drop 1 parity ++ [0]) (map (gmul (Z.lxor d (get parity 0))) (generator rs)).
Proof.
  intros Hp Hd Hl. pose proof length_generator as Lg. unfold encode_step. set (f := Z.lxor d (get parity 0)).
  assert (Hg0 : gf (get parity 0)).
  { destruct parity as [|p0 ?]; [cbn in Hl; lia|]. by inversion Hp. }
  assert (Hf : gf f) by (by apply lxor_gf).
  assert (Ei : forall i, 1 <= i <= n -> 0 <= get (genpoly rs) (n - i) < 255).
  { intros i Hi. apply (proj1 (Forall_forall _ _) (fr_genpoly n rs R)). unfold get.
    apply list_elem_of_In, nth_In. pose proof (fr_length n rs R). lia. }
  apply get_ext; [rewrite length_app, length_drop; unfold poly_xor; rewrite length_zip_with, length_map, length_app, length_drop; cbn [length]|].
  { destruct (negb _); rewrite ?length_feed_loop; lia. }
  intros i Hi. rewrite length_app, length_drop in Hi. cbn [length] in Hi.
  assert (Hi' : 0 <= i < n) by (destruct (negb _); rewrite ?length_feed_loop in Hi; lia).
  rewrite get_poly_xor by (rewrite ?length_app, ?length_map, ?length_drop; cbn [length]; lia).
  rewrite get_map, get_generator by lia. rewrite (fr_index n rs R).
  assert (Ef : index f = A0 rs <-> f = 0).
  { unfold A0. rewrite (fr_nn n rs R). split; [|by intros ->]. intros E. destruct (Z.eq_dec f 0); [done|].
    destruct (index_spec f Hf); lia. }
  destruct (Z.eqb_spec (index f) (A0 rs)) as [E|E]; cbn [negb].
  - apply Ef in E. rewrite E, gmul_0_l, Z.lxor_0_r. done.
  - assert (Hf0 : f <> 0) by tauto. destruct (Z.eq_dec i (n - 1)) as [->|Hne].
    + rewrite !get_app_r by (rewrite length_drop, ?length_feed_loop; lia). rewrite !length_drop, length_feed_loop.
      replace (n - 1 - Z.of_nat (length parity - 1)) with 0 by lia. cbn [get List.nth]. change (get [0] 0) with 0. rewrite Z.lxor_0_l.
      replace (n - 1 - (n - 1)) with 0 by lia. unfold get at 1. cbn [Z.to_nat List.nth]. apply alpha_modnn; try done. replace (get (genpoly rs) 0) with (get (genpoly rs) (n - n)) by (f_equal; lia). apply Ei. lia.
    + rewrite !get_app_l by (rewrite length_drop, ?length_feed_loop; lia). rewrite !get_drop1 by lia.
      rewrite get_feed_loop by (rewrite ?(fr_nroots n rs R); lia). rewrite (fr_nroots n rs R).
      rewrite (proj2 (Z.leb_le 1 (i + 1))), (proj2 (Z.ltb_lt (i + 1) _)) by lia. cbn [andb]. f_equal.
      replace (n - 1 - i) with (n - (i + 1)) by lia. apply alpha_modnn; try done. apply Ei. lia.
Qed.

Lemma generator_root i : 0 <= i < n -> gpow (alpha i) (Z.to_nat n) = eval (alpha i) (generator rs).
Proof. intros Hi. apply (proj1 (Forall_forall _ _) (fr_root n rs R)). apply elem_of_seqZ. lia. Qed.

(** A step multiplies the remainder by the variable and adds the symbol. *)
Lemma encode_step_eval parity d i : poly parity -> gf d -> Z.of_nat (length parity) = n -> 0 <= i < n ->
  poly (encode_step rs parity d) /\ Z.of_nat (length (encode_step rs parity d)) = n /\
  eval (alpha i) (encode_step rs parity d) =
    Z.lxor (gmul (eval (alpha i) parity) (alpha i)) (gmul d (gpow (alpha i) (Z.to_nat n))).
Proof.
  intros Hp Hd Hl Hi. rewrite encode_step_spec by done. pose proof length_generator as Lg. pose proof poly_generator as Pg.
  destruct parity as [|p0 P]; [cbn in Hl; lia|]. apply Forall_cons in Hp as [Hp0 HP]. rewrite ?skipn_cons, ?drop_0. cbn [length] in *.
  change (get (p0 :: P) 0) with p0. set (f := Z.lxor d p0). assert (Hf : gf f) by (by apply lxor_gf).
  assert (Ha : gf (alpha i)) by (apply alpha_gf; lia).
  assert (HP0 : poly (P ++ [0])) by (apply Forall_app; split; [done|apply Forall_singleton; lia]).
  assert (Hm : poly (map (gmul f) (generator rs))) by (apply Forall_map, Forall_true; intros; apply gmul_gf).
  assert (Hlen : length (P ++ [0]) = length (map (gmul f) (generator rs))) by (rewrite length_app, length_map; cbn; lia).
  split_and!.
  - by apply poly_xor_poly.
  - unfold poly_xor. rewrite length_zip_with, Hlen, length_map. lia.
  - rewrite eval_xor, eval_scale, <-generator_root, eval_snoc, eval_cons, Z.lxor_0_r by done.
    assert (En : Z.to_nat n = S (length P)) by lia. rewrite En, gpow_S.
    set (r := alpha i) in *. set (q := gpow r (length P)). set (e := eval r P).
    assert (gf q) by apply gpow_gf. assert (gf e) by (by apply eval_gf). assert (gf (gmul r q)) by apply gmul_gf.
    unfold f. rewrite !gmul_xor_l by (done || apply gmul_gf). rewrite gmul_assoc, (gmul_comm q r).
    rewrite (Z.lxor_comm (gmul d _)), <-Z.lxor_assoc. f_equal. apply Z.lxor_comm.
Qed.

(** The parity of [data] is its remainder. *)
Lemma encode_eval data i : poly data -> 0 <= i < n ->
  poly (encode_rs_char rs data) /\ Z.of_nat (length (encode_rs_char rs data)) = n /\
  eval (alpha i) (encode_rs_char rs data) = gmul (eval (alpha i) data) (gpow (alpha i) (Z.to_nat n)).
Proof.
  intros Hd Hi. unfold encode_rs_char. rewrite (fr_nroots n rs R).
  assert (Ha : gf (alpha i)) by (apply alpha_gf; lia).
  induction data as [|d data IH] using rev_ind.
  - cbn [fold_left]. rewrite length_replicate. split_and!; [apply Forall_replicate; lia|lia|].
    rewrite eval_zeros by done. change (eval _ []) with 0. by rewrite gmul_0_l.
  - apply Forall_app in Hd as [Hd Hd1]. apply Forall_cons in Hd1 as [Hd1 _]. destruct (IH Hd) as (Pp & Lp & Ep).
    rewrite fold_left_app. cbn [fold_left]. destruct (encode_step_eval _ d i Pp Hd1 Lp Hi) as (P1 & L1 & E1).
    split_and!; [done|done|]. rewrite E1, Ep, eval_snoc.
    pose proof (gpow_gf (alpha i) (Z.to_nat n)). rewrite gmul_xor_l by (done || apply gmul_gf).
    f_equal. rewrite !gmul_assoc. f_equal. apply gmul_comm.
Qed.

(** The generator divides a word made of data and parity. *)
Lemma codeword_eval data i : poly data -> 0 <= i < n -> eval (alpha i) (data ++ encode_rs_char rs data) = 0.
Proof.
  intros Hd Hi. destruct (encode_eval data i Hd Hi) as (Pp & Lp & Ep). assert (Ha : gf (alpha i)) by (apply alpha_gf; lia).
  rewrite eval_app, Ep by done. replace (length (encode_rs_char rs data)) with (Z.to_nat n) by lia. apply Z.lxor_nilpotent.
Qed.

(** ** Syndromes *)

Lemma syndrome_step_spec d i s : gf s -> 0 <= i < n -> syndrome_step rs d i s = Z.lxor (gmul s (alpha i)) d.
Proof.
  intros Hs Hi. unfold syndrome_step. destruct (Z.eqb_spec s 0) as [->|Hz]; [by rewrite gmul_0_l|].
  rewrite (fr_fcr n rs R), (fr_prim n rs R), (fr_index n rs R), Z.add_0_l, Z.mul_1_r, alpha_modnn by (done || lia).
  apply Z.lxor_comm.
Qed.

Lemma syndromes_spec data : poly data -> data <> [] -> syndromes rs data = map (fun i => eval (alpha i) data) (seqZ 0 n).
Proof.
  intros Hd Hne. destruct data as [|d0 data]; [done|]. unfold syndromes. change (get (d0 :: data) 0) with d0. rewrite skipn_cons, drop_0.
  rewrite (fr_nroots n rs R). apply Forall_cons in Hd as [Hd0 Hd].
  induction data as [|d data IH] using rev_ind.
  - cbn [fold_left]. apply list_eq_same_length with (n := Z.to_nat n); [by rewrite ?length_replicate, ?length_map, ?length_seqZ|by rewrite ?length_replicate, ?length_map, ?length_seqZ|].
    intros i x y _. rewrite lookup_replicate, list_lookup_fmap. intros [-> _] (z & _ & ->)%fmap_Some.
    unfold eval. cbn [fold_left]. by rewrite gmul_0_l, Z.lxor_0_l.
  - apply Forall_app in Hd as [Hd Hd1]. rewrite fold_left_app, IH by done. cbn [fold_left].
    apply list_eq. intros i. rewrite list_lookup_imap, !list_lookup_fmap. destruct (seqZ 0 n !! i) as [z|] eqn:E; [|done].
    cbn [option_map fmap option_fmap]. apply lookup_seqZ in E as [-> Hi]. f_equal. rewrite syndrome_step_spec by (lia || (apply eval_gf; by constructor)).
    change (d0 :: data ++ [d]) with ((d0 :: data) ++ [d]). rewrite eval_snoc. do 3 f_equal; try lia. 
Qed.
End codec.

(** ** Sparse words *)

(** A word as a list of coefficients and points of the field. *)
Fixpoint terms (l : list Z) : list (gf256 * gf256) :=
  match l with [] => [] | c :: l => (sym c, sym (alpha (Z.of_nat (length l)))) :: terms l end.

(** The terms that are not zero. *)
Definition support (l : list Z) : list (gf256 * gf256) := filter (fun p => p.1 <> f0) (terms l).

Lemma gpow_alpha i m : 0 <= i < 255 -> gpow (alpha i) m = alpha ((i * Z.of_nat m) mod 255).
Proof.
  intros Hi. induction m as [|m IH]; [by rewrite Z.mul_0_r|]. rewrite gpow_S, IH.
  pose proof (Z.mod_pos_bound (i * Z.of_nat m) 255 ltac:(lia)) as Hb.
  destruct (alpha_spec i Hi) as [? Ei], (alpha_spec _ Hb) as [? Em]. rewrite gmul_nz, Ei, Em by lia.
  rewrite Z.add_mod_idemp_r by lia. do 2 f_equal. lia.
Qed.

Lemma psum_filter (ps : list (gf256 * gf256)) i : psum (filter (fun p => p.1 <> f0) ps) i = psum ps i.
Proof.
  induction ps as [|[c x] ps IH]; [done|]. rewrite filter_cons. cbn [fst]. destruct (decide (c <> f0)) as [H|H].
  - by rewrite !psum_cons, IH.
  - assert (c = f0) by (by apply dec_stable). subst c. rewrite IH, psum_cons. apply gval_inj. cbn -[sym].
    rewrite gval_add, gval_mul, gval_sym, gmul_0_l by lia. by rewrite Z.lxor_0_l.
Qed.

Lemma eval_terms i l : 0 <= i < 255 -> poly l -> (length l <= 255)%nat -> sym (eval (alpha i) l) = psum (terms l) (Z.to_nat i).
Proof.
  intros Hi Hl. induction Hl as [|c l Hc Hl IH]; intros Hlen; [done|]. cbn [length] in Hlen. cbn [terms].
  assert (Ha : gf (alpha i)) by (by apply alpha_gf). assert (Hb : gf (alpha (Z.of_nat (length l)))) by (apply alpha_gf; lia).
  rewrite psum_cons, eval_cons, sym_xor, IH, sym_mul, <-sym_pow by (done || lia || apply gmul_gf || apply gpow_gf || by apply eval_gf).
  do 3 f_equal. rewrite !gpow_alpha by lia. do 2 f_equal. lia.
Qed.

Lemma terms_points l : (length l <= 255)%nat ->
  NoDup (terms l).*2 /\ Forall (fun x => exists k, x = sym (alpha k) /\ 0 <= k < Z.of_nat (length l)) (terms l).*2.
Proof.
  induction l as [|c l IH]; intros Hlen; [split; constructor|]. cbn [length terms fmap list_fmap snd] in *.
  destruct (IH ltac:(lia)) as (B & C). split; constructor.
  - intros Hin. rewrite Forall_forall in C. destruct (C _ Hin) as (k & E & Hk).
    apply sym_inj in E; [|apply alpha_gf; lia|apply alpha_gf; lia]. apply (f_equal index) in E.
    destruct (alpha_spec k), (alpha_spec (Z.of_nat (length l))); lia.
  - done.
  - exists (Z.of_nat (length l)). split; [done|lia].
  - eapply Forall_impl; [exact C|]. intros x (k & -> & Hk). exists k. split; [done|lia].
Qed.

Lemma support_length l : poly l -> length (support l) = length (filter (fun c => c <> 0) l).
Proof.
  intros Hl. unfold support. induction Hl as [|c l Hc Hl IH]; [done|]. cbn [terms]. rewrite !filter_cons. cbn [fst].
  pose proof (sym_zero c Hc). destruct (decide (sym c <> f0)), (decide (c <> 0)); cbn [length]; rewrite ?IH; tauto.
Qed.

Lemma support_points l : (length l <= 255)%nat -> NoDup (support l).*2.
Proof.
  intros Hl. destruct (terms_points l Hl) as [B _]. eapply sublist_NoDup; [exact B|]. apply (fmap_sublist snd), sublist_filter.
Qed.

Lemma support_psum i l : 0 <= i < 255 -> poly l -> (length l <= 255)%nat -> psum (support l) (Z.to_nat i) = sym (eval (alpha i) l).
Proof. intros. unfold support. by rewrite psum_filter, eval_terms. Qed.

Lemma nz_none l : length (filter (fun c => c <> 0) l) = 0%nat -> Forall (fun c => c = 0) l.
Proof.
  intros E%length_zero_iff_nil. apply Forall_forall. intros c Hc. destruct (Z.eq_dec c 0); [done|].
  assert (Hf : c ∈ filter (fun c => c <> 0) l) by (by apply list_elem_of_filter). rewrite E in Hf. by apply elem_of_nil in Hf.
Qed.

(** A word with as many roots in sequence as symbols that are not zero is zero. *)
Lemma sparse_zero n l : 0 <= n < 255 -> poly l -> (length l <= 255)%nat ->
  (forall i, 0 <= i < n -> eval (alpha i) l = 0) -> Z.of_nat (length (filter (fun c => c <> 0) l)) <= n ->
  Forall (fun c => c = 0) l.
Proof.
  intros Hn Hl Hlen He Hw. pose proof (support_length l Hl) as D.
  assert (V : Forall (fun p => p.1 = f0) (support l)).
  { apply vandermonde; [by apply support_points|]. intros i Hi. rewrite <-(Nat2Z.id i), support_psum, He by (done || lia). done. }
  assert (E : filter (fun c => c <> 0) l = []).
  { apply length_zero_iff_nil. rewrite <-D. destruct (support l) as [|p ps] eqn:E; [done|].
    apply Forall_cons in V as [V _]. assert (Hp : p ∈ support l) by (rewrite E; left).
    apply list_elem_of_filter in Hp as [Hp _]. done. }
  apply nz_none. by rewrite E.
Qed.

(** ** What decoding sees *)

Lemma syndromes_zero n rs w : 2 <= n <= 24 -> fec_rs n rs -> poly w -> w <> [] ->
  forallb (Z.eqb 0) (syndromes rs w) = true <-> (forall i, 0 <= i < n -> eval (alpha i) w = 0).
Proof.
  intros Hn R Hw Hne. rewrite (syndromes_spec n Hn rs R) by done. rewrite forallb_forall. split.
  - intros H i Hi. symmetry. apply Z.eqb_eq, H, in_map_iff. exists i. split; [done|]. apply list_elem_of_In, elem_of_seqZ. lia.
  - intros H x (i & <- & Hi)%in_map_iff. apply list_elem_of_In, elem_of_seqZ in Hi. rewrite H by lia. done.
Qed.

(** The positions where two words differ. *)
Definition differences (a b : list Z) : nat := length (filter (fun p => p.1 <> p.2) (zip a b)).

Lemma differences_xor a b : length (filter (fun c => c <> 0) (poly_xor a b)) = differences a b.
Proof.
  unfold differences, poly_xor. revert b. induction a as [|x a IH]; intros [|y b]; try done. cbn [zip_with zip].
  rewrite !filter_cons. cbn [fst snd]. assert (E : Z.lxor x y = 0 <-> x = y) by apply Z.lxor_eq_0_iff.
  destruct (decide (Z.lxor x y <> 0)), (decide (x <> y)); cbn [length]; rewrite ?IH; try done; exfalso; tauto.
Qed.

Lemma xor_same w c : length w = length c -> Forall (fun x => x = 0) (poly_xor w c) -> w = c.
Proof.
  revert c. induction w as [|x w IH]; intros [|y c]; cbn [length poly_xor zip_with]; try done.
  intros [=Hl] [Hx Hz]%Forall_cons. apply Z.lxor_eq in Hx. f_equal; [done|by apply IH].
Qed.

(** The parity detects damage. For every number of roots dm-verity accepts
    ([FEC_PARAMS]): a word of at most 255 symbols that differs from data and
    parity in at least one and at most as many symbols as there are parity
    symbols does not pass the decoder's test for a word without errors. *)
Theorem rs_parity_detects n rs data w :
  2 <= n <= 24 -> fec_codec n = Some rs -> poly data -> poly w ->
  length w = length (data ++ encode_rs_char rs data) -> Z.of_nat (length data) <= 255 - n ->
  w <> data ++ encode_rs_char rs data -> Z.of_nat (differences w (data ++ encode_rs_char rs data)) <= n ->
  forallb (Z.eqb 0) (syndromes rs w) = false.
Proof.
  intros Hn HR Hd Hw Hl Hlen Hne Hdiff. apply fec_codec_rs in HR as R; [|done]. 
  destruct (encode_eval n Hn rs R data 0 Hd ltac:(lia)) as (Pp & Lp & _).
  set (c := data ++ encode_rs_char rs data) in *. assert (Hc : poly c) by (by apply Forall_app).
  assert (Lc : (length c <= 255)%nat) by (unfold c; rewrite length_app; lia).
  assert (Hw0 : w <> []) by (intros ->; unfold c in Hl; rewrite length_app in Hl; cbn in Hl; lia).
  apply not_true_is_false. rewrite (syndromes_zero n) by done. intros H0. apply Hne.
  assert (Z0 : Forall (fun c => c = 0) (poly_xor w c)).
  { apply (sparse_zero n); [lia|by apply poly_xor_poly| | |by rewrite differences_xor].
    - unfold poly_xor. rewrite length_zip_with. lia.
    - intros i Hi. rewrite eval_xor by (done || apply alpha_gf; lia). rewrite H0 by done.
      unfold c. by rewrite (codeword_eval n Hn rs R). }
  by apply xor_same.
Qed.

(** The codec with two roots, for examples. *)
Definition fx_rs : rs := Eval vm_compute in default (Build_rs 0 0 [] [] [] 0 0 0 0 0) (fec_codec 2).

Lemma rs_parity_detects_witness :
  fec_codec 2 = Some fx_rs /\ forallb (Z.eqb 0) (syndromes fx_rs ([1; 2; 3] ++ encode_rs_char fx_rs [1; 2; 3])) = true /\
  forallb (Z.eqb 0) (syndromes fx_rs [1; 9; 3; 5; 4]) = false.
Proof.
  split; [vm_compute; reflexivity|]. split; [vm_compute; reflexivity|].
  apply (rs_parity_detects 2 fx_rs [1; 2; 3]).
  - lia.
  - vm_compute; reflexivity.
  - repeat constructor; lia.
  - repeat constructor; lia.
  - vm_compute; reflexivity.
  - cbn; lia.
  - vm_compute; discriminate.
  - vm_compute; discriminate.
Defined.

(** A word made of data and the encoder's parity is decoded without a
    correction, whatever the data. *)
Lemma rs_decode_codeword n rs data :
  2 <= n <= 24 -> fec_codec n = Some rs -> poly data ->
  decode_rs_char rs (data ++ encode_rs_char rs data) = (0, data ++ encode_rs_char rs data).
Proof.
  intros Hn HR Hd. apply fec_codec_rs in HR as R; [|done]. destruct (encode_eval n Hn rs R data 0 Hd ltac:(lia)) as (Pp & Lp & _).
  set (c := data ++ encode_rs_char rs data) in *. assert (Hc : poly c) by (by apply Forall_app).
  unfold decode_rs_char, MAX_NR_BUF. rewrite (fr_nroots n rs R), (proj2 (Z.leb_gt 256 n)) by lia.
  rewrite (proj2 (syndromes_zero n rs c Hn R Hc ltac:(intros E; apply (f_equal length) in E; unfold c in E; rewrite length_app in E; cbn in E; lia))); [done|].
  intros i Hi. by apply (codeword_eval n Hn rs R).
Qed.
