(* ===== verification/ReedSolomonDecode.v ===== *)
(** * ReedSolomonDecode: decoding corrects as many errors as half the roots

    The decoder's arrays as sequences of the field (polynomial form through
    [pf], index form through [xf]), its loops as sums, and Massey's invariant for
    them. *)

From S2P Require Import Prelude ReedSolomon Massey ReedSolomonField ReedSolomonProps.
From Stdlib Require Import Field.

Local Open Scope massey_scope.
Local Open Scope Z_scope.

Add Field gf256_ring : (field_laws (F := gf256)).

(** ** Logarithms *)

(** The symbol with logarithm [g]; 255 is the logarithm of zero. *)
Definition ix (g : Z) : gf256 := sym (alpha g).
(** Powers of the primitive element. *)
Definition ax (h : Z) : gf256 := sym (alpha (h mod 255)).

Lemma alpha_gf' g : 0 <= g <= 255 -> gf (alpha g).
Proof. intros H. destruct (Z.eq_dec g 255) as [->|]; [rewrite alpha_255; lia|apply alpha_gf; lia]. Qed.

Lemma index_range x : gf x -> 0 <= index x <= 255.
Proof. intros H. destruct (Z.eq_dec x 0) as [->|Hn]; [rewrite index_0; lia|destruct (index_spec x H Hn); lia]. Qed.

Lemma index_A0 x : gf x -> index x = 255 <-> x = 0.
Proof. intros H. split; [|by intros ->]. intros E. destruct (Z.eq_dec x 0); [done|]. destruct (index_spec x); lia. Qed.

Lemma ix_index x : gf x -> ix (index x) = sym x.
Proof. intros H. unfold ix. destruct (Z.eq_dec x 0) as [->|Hn]; [done|]. by destruct (index_spec x H Hn) as [_ ->]. Qed.

Lemma ix_ax g : 0 <= g < 255 -> ix g = ax g.
Proof. intros H. unfold ax. by rewrite Z.mod_small. Qed.

Lemma ix_zero g : 0 <= g <= 255 -> ix g = f0 <-> g = 255.
Proof.
  intros H. split; [|by intros ->]. intros E. apply sym_zero in E; [|by apply alpha_gf'].
  destruct (Z.eq_dec g 255); [done|]. destruct (alpha_spec g); lia.
Qed.

Lemma ax_add a b : 0 <= a -> 0 <= b -> ax (a + b) = fmul (ax a) (ax b).
Proof.
  intros Ha Hb. unfold ax. pose proof (Z.mod_pos_bound a 255 ltac:(lia)) as A. pose proof (Z.mod_pos_bound b 255 ltac:(lia)) as B.
  destruct (alpha_spec _ A) as [? Ea], (alpha_spec _ B) as [? Eb]. rewrite <-sym_mul by lia. f_equal.
  rewrite gmul_nz, Ea, Eb by lia. by rewrite <-Z.add_mod by lia.
Qed.

Lemma ax_pow h k : 0 <= h -> pow (ax h) k = ax (h * Z.of_nat k).
Proof.
  intros Hh. induction k as [|k IH]; [by rewrite Z.mul_0_r|]. cbn [pow]. rewrite IH, <-ax_add by lia. f_equal. lia.
Qed.

Lemma ax_nz h : ax h <> f0.
Proof.
  unfold ax. pose proof (Z.mod_pos_bound h 255 ltac:(lia)) as A. destruct (alpha_spec _ A).
  rewrite sym_zero by lia. lia.
Qed.

Lemma ax_mod h h' : h mod 255 = h' mod 255 -> ax h = ax h'.
Proof. unfold ax. by intros ->. Qed.

(** ** Sums *)

Definition lsum (t : Z -> gf256) (l : list Z) : gf256 := foldr (fun i acc => fadd (t i) acc) f0 l.

Lemma lsum_cons t i l : lsum t (i :: l) = fadd (t i) (lsum t l).
Proof. done. Qed.
Lemma lsum_app t l l' : lsum t (l ++ l') = fadd (lsum t l) (lsum t l').
Proof. induction l as [|i l IH]; [cbn [app]; change (lsum t []) with (f0 (F := gf256)); ring|]. cbn [app]. rewrite !lsum_cons, IH. ring. Qed.
Lemma lsum_reverse t l : lsum t (reverse l) = lsum t l.
Proof. induction l as [|i l IH]; [done|]. rewrite reverse_cons, lsum_app, IH, !lsum_cons. change (lsum t []) with (f0 (F := gf256)). ring. Qed.
Lemma lsum_ext t t' l : (forall i, i ∈ l -> t i = t' i) -> lsum t l = lsum t' l.
Proof. induction l as [|i l IH]; intros H; [done|]. rewrite !lsum_cons, IH, H; [done|by left|intros; apply H; by right]. Qed.
Lemma lsum_map t g l : lsum t (map g l) = lsum (fun i => t (g i)) l.
Proof. induction l as [|i l IH]; [done|]. cbn [map]. by rewrite !lsum_cons, IH. Qed.
Lemma lsum_seqZ t k : lsum t (seqZ 0 k) = sum (fun i => t (Z.of_nat i)) (Z.to_nat k).
Proof.
  destruct (Z.le_gt_cases k 0) as [Hk|Hk]; [replace (Z.to_nat k) with 0%nat by lia; by rewrite seqZ_nil|].
  rewrite <-(Z2Nat.id k) at 1 by lia. generalize (Z.to_nat k) as m. clear. induction m as [|m IH]; [done|].
  rewrite seqZ_S, lsum_app, IH by lia. cbn [sum]. rewrite lsum_cons. change (lsum t []) with (f0 (F := gf256)).
  rewrite Z.add_0_l. ring.
Qed.

(** A loop that adds a term for every index. *)
Lemma xor_fold (f : Z -> Z -> Z) (t : Z -> gf256) l acc : gf acc ->
  (forall a i, i ∈ l -> gf a -> gf (f a i) /\ sym (f a i) = fadd (sym a) (t i)) ->
  gf (fold_left f l acc) /\ sym (fold_left f l acc) = fadd (sym acc) (lsum t l).
Proof.
  revert acc. induction l as [|i l IH]; intros acc Ha Hf; [split; [done|]; cbn [fold_left]; change (lsum t []) with (f0 (F := gf256)); ring|].
  cbn [fold_left]. destruct (Hf acc i ltac:(by left) Ha) as [Hg E]. destruct (IH (f acc i) Hg) as [Hg' E'].
  { intros a j Hj. apply Hf. by right. }
  split; [done|]. rewrite E', E, lsum_cons. ring.
Qed.

Lemma filter_ext_in {A} (P Q : A -> Prop) `{!forall x, Decision (P x), !forall x, Decision (Q x)} (l : list A) :
  (forall x, x ∈ l -> P x <-> Q x) -> filter P l = filter Q l.
Proof.
  induction l as [|x l IH]; intros HPQ; [done|]. rewrite !filter_cons, IH by (intros; apply HPQ; by right).
  pose proof (HPQ x ltac:(by left)). destruct (decide (P x)), (decide (Q x)); tauto.
Qed.

(** ** Arrays *)

(** An array in polynomial form and one in index form. *)
Definition pf (l : list Z) (i : nat) : gf256 := sym (List.nth i l 0).
Definition xf (l : list Z) (i : nat) : gf256 := ix (List.nth i l 255).

Abbreviation logs l := (Forall (fun g => 0 <= g <= 255) l).

Lemma pf_get l i : 0 <= i -> sym (get l i) = pf l (Z.to_nat i).
Proof. done. Qed.
Lemma xf_get l i : 0 <= i < Z.of_nat (length l) -> ix (get l i) = xf l (Z.to_nat i).
Proof. intros H. unfold xf, get. f_equal. apply nth_indep. lia. Qed.
Lemma pf_over l i : (length l <= i)%nat -> pf l i = f0.
Proof. intros H. unfold pf. by rewrite nth_overflow. Qed.
Lemma xf_over l i : (length l <= i)%nat -> xf l i = f0.
Proof. intros H. unfold xf. by rewrite nth_overflow. Qed.
Lemma get_gf l i : poly l -> gf (get l i).
Proof. intros H. unfold get. destruct (nth_in_or_default (Z.to_nat i) l 0) as [Hin| ->]; [|lia]. apply list_elem_of_In in Hin. by apply (proj1 (Forall_forall _ _) H). Qed.
Lemma get_logs l i : logs l -> 0 <= get l i <= 255.
Proof. intros H. unfold get. destruct (nth_in_or_default (Z.to_nat i) l 0) as [Hin| ->]; [|lia]. apply list_elem_of_In in Hin. by apply (proj1 (Forall_forall _ _) H). Qed.
Lemma logs_index l : poly l -> logs (map index l).
Proof. intros H. apply Forall_map. eapply Forall_impl; [exact H|]. apply index_range. Qed.
Lemma xf_index l i : poly l -> xf (map index l) i = pf l i.
Proof.
  intros H. unfold xf, pf. change 255 with (index 0). rewrite map_nth. apply ix_index.
  pose proof (get_gf l (Z.of_nat i) H) as G. unfold get in G. by rewrite Nat2Z.id in G.
Qed.

Section codec.
Context (n : Z) (Hn : 2 <= n <= 24) (rs : rs) (R : fec_rs n rs).

Lemma A0_255 : A0 rs = 255.
Proof. apply (fr_nn n rs R). Qed.

(** A term of a sum: a symbol in index form times a power. *)
Lemma ix_term d g h : gf d -> 0 <= g <= 255 -> 0 <= h ->
  let v := if negb (g =? A0 rs) then Z.lxor d (get (alpha_to rs) (modnn rs (g + h))) else d in
  gf v /\ sym v = fadd (sym d) (fmul (ix g) (ax h)).
Proof.
  intros Hd Hg Hh. rewrite A0_255, (fr_alpha n rs R). destruct (Z.eqb_spec g 255) as [->|E]; cbn [negb].
  - split; [done|]. rewrite (proj2 (ix_zero 255 ltac:(lia))) by done. ring.
  - rewrite (modnn_mod n rs R) by lia. pose proof (Z.mod_pos_bound (g + h) 255 ltac:(lia)) as Hb.
    pose proof (alpha_gf _ Hb). split; [by apply lxor_gf|]. rewrite sym_xor by done. f_equal.
    rewrite ix_ax, <-ax_add by lia. done.
Qed.

(** Both in index form. *)
Lemma ix_term2 d g h : gf d -> 0 <= g <= 255 -> 0 <= h <= 255 ->
  let v := if negb (g =? A0 rs) && negb (h =? A0 rs) then Z.lxor d (get (alpha_to rs) (modnn rs (g + h))) else d in
  gf v /\ sym v = fadd (sym d) (fmul (ix g) (ix h)).
Proof.
  intros Hd Hg Hh. rewrite A0_255. destruct (Z.eqb_spec h 255) as [->|E]; cbn [negb].
  - rewrite andb_false_r. split; [done|]. rewrite (proj2 (ix_zero 255 ltac:(lia))) by done. ring.
  - rewrite andb_true_r. rewrite <-A0_255, (ix_ax h) by lia. apply ix_term; [done|done|lia].
Qed.

(** ** The error locator *)

Section locator.
(** The syndromes, in index form, and the sequence they begin. *)
Context (s : list Z) (S' : nat -> gf256).
Context (Hs : logs s) (Ls : Z.of_nat (length s) = n) (ES : forall j, (j < Z.to_nat n)%nat -> xf s j = S' j).

Lemma discr_loop_sum k i r lambda d : poly lambda -> gf d -> 0 <= i -> i + Z.of_nat k <= r <= n ->
  gf (discr_loop rs k i r lambda s d) /\
  sym (discr_loop rs k i r lambda s d) =
    fadd (sym d) (sum (fun t => fmul (pf lambda (Z.to_nat i + t)) (S' (Z.to_nat (r - i - 1) - t)%nat)) k).
Proof.
  intros Hl. revert i d. induction k as [|k IH]; intros i d Hd Hi Hr; cbn [discr_loop].
  - split; [done|]. cbn [sum]. ring.
  - pose proof (get_gf lambda i Hl) as Gl. pose proof (get_logs s (r - i - 1) Hs) as Gs. pose proof (index_range _ Gl) as Gi.
    set (v := if _ && _ then _ else d).
    assert (Hv : gf v /\ sym v = fadd (sym d) (fmul (pf lambda (Z.to_nat i)) (S' (Z.to_nat (r - i - 1))))).
    { destruct (ix_term2 d (index (get lambda i)) (get s (r - i - 1)) Hd Gi Gs) as [T1 T2].
      rewrite A0_255 in T1, T2. unfold v. rewrite A0_255, (fr_index n rs R).
      replace (get lambda i =? 0) with (index (get lambda i) =? 255).
      2:{ pose proof (index_A0 _ Gl). destruct (Z.eqb_spec (index (get lambda i)) 255), (Z.eqb_spec (get lambda i) 0); tauto. }
      split; [exact T1|]. rewrite T2, ix_index, (pf_get lambda i), (xf_get s), ES by (done || lia). done. }
    destruct Hv as [Hv Ev]. destruct (IH (i + 1) v Hv ltac:(lia) ltac:(lia)) as [G E]. split; [exact G|].
    rewrite E, Ev, sum_first, Nat.add_0_r, Nat.sub_0_r.
    assert (Es : sum (fun t => fmul (pf lambda (Z.to_nat (i + 1) + t)) (S' (Z.to_nat (r - (i + 1) - 1) - t)%nat)) k =
                 sum (fun t => fmul (pf lambda (Z.to_nat i + S t)) (S' (Z.to_nat (r - i - 1) - S t)%nat)) k).
    { apply sum_ext. intros t Ht. do 2 f_equal; lia. }
    rewrite Es. ring.
Qed.

Lemma discr_conv r lambda : poly lambda -> 0 <= r < n ->
  gf (discr_loop rs (Z.to_nat (r + 1)) 0 (r + 1) lambda s 0) /\
  sym (discr_loop rs (Z.to_nat (r + 1)) 0 (r + 1) lambda s 0) = conv (pf lambda) S' (Z.to_nat r).
Proof.
  intros Hl Hr. destruct (discr_loop_sum (Z.to_nat (r + 1)) 0 (r + 1) lambda 0 Hl ltac:(lia) ltac:(lia) ltac:(lia)) as [G E].
  split; [exact G|]. rewrite E. unfold conv. replace (Z.to_nat (r + 1)) with (S (Z.to_nat r)) by lia.
  transitivity (sum (fun t => fmul (pf lambda (Z.to_nat 0 + t)) (S' (Z.to_nat (r + 1 - 0 - 1) - t)%nat)) (S (Z.to_nat r)));
    [change (sym 0) with (f0 (F := gf256)); ring|]. apply sum_ext. intros t Ht. do 2 f_equal; lia.
Qed.

Lemma shift_b_xf b i : Z.of_nat (length b) = n + 1 -> xf b (Z.to_nat n) = f0 -> xf (shift_b rs b) i = shift (xf b) i.
Proof.
  intros Hb Hz. unfold shift_b. rewrite A0_255, (fr_nroots n rs R). destruct i as [|i]; [done|]. cbn [shift].
  destruct (decide (i < Z.to_nat n)%nat) as [Hi|Hi].
  - unfold xf. cbn [List.nth]. rewrite !nth_lookup, lookup_take_lt by lia. done.
  - rewrite xf_over by (cbn [length]; rewrite length_take; lia).
    destruct (decide (i = Z.to_nat n)) as [->|]; [done|]. rewrite xf_over by lia. done.
Qed.

Lemma next_lambda_pf lambda b d i : poly lambda -> logs b -> 0 <= d < 255 ->
  Z.of_nat (length lambda) = n + 1 -> Z.of_nat (length b) = n + 1 -> xf b (Z.to_nat n) = f0 ->
  poly (next_lambda rs lambda b d) /\ length (next_lambda rs lambda b d) = length lambda /\
  pf (next_lambda rs lambda b d) i = fsub (pf lambda i) (fmul (ix d) (shift (xf b) i)).
Proof.
  intros Hl Hb Hd Ll Lb Hz. unfold next_lambda. rewrite (fr_nroots n rs R).
  set (g := fun i => if negb (get b i =? A0 rs) then _ else _).
  assert (Hg : forall i, gf (g i) /\ (0 <= i <= n -> sym (g i) = fadd (pf lambda (Z.to_nat (i + 1))) (fmul (ix d) (xf b (Z.to_nat i))))).
  { intros j. unfold g. pose proof (get_logs b j Hb) as Gb.
    destruct (ix_term (get lambda (j + 1)) (get b j) d (get_gf _ _ Hl) Gb ltac:(lia)) as [T1 T2].
    rewrite (Z.add_comm (get b j) d) in T1, T2. split; [exact T1|]. intros Hj. rewrite T2, <-(ix_ax d), (xf_get b j), (pf_get lambda) by lia. ring. }
  split_and!.
  - constructor; [by apply get_gf|]. apply Forall_map, Forall_true. apply Hg.
  - cbn [length]. rewrite length_map, length_seqZ. lia.
  - destruct i as [|i]; cbn [shift]; [change (pf (get lambda 0 :: map g (seqZ 0 n)) 0) with (pf lambda 0); ring|].
    destruct (decide (i < Z.to_nat n)%nat) as [Hi|Hi].
    + unfold pf at 1. cbn [List.nth]. rewrite (nth_indep _ 0 (g 0)) by (rewrite length_map, length_seqZ; lia). rewrite map_nth.
      rewrite (nth_lookup_Some _ _ _ (Z.of_nat i)) by (apply lookup_seqZ; lia). rewrite (proj2 (Hg _)) by lia.
      rewrite Nat2Z.id. replace (Z.to_nat (Z.of_nat i + 1)) with (S i) by lia. done.
    + rewrite pf_over by (cbn [length]; rewrite length_map, length_seqZ; lia). rewrite pf_over by lia.
      assert (E : xf b i = f0) by (destruct (decide (i = Z.to_nat n)) as [->|]; [done|apply xf_over; lia]). rewrite E. ring.
Qed.

(** The invariant of the loop after [r] steps; [k] bounds the degree. *)
Record bm_ok (k : nat) (r : Z) (st : list Z * list Z * Z) : Prop := {
  bo_lambda : poly st.1.1;
  bo_b : logs st.1.2;
  bo_llen : Z.of_nat (length st.1.1) = n + 1;
  bo_blen : Z.of_nat (length st.1.2) = n + 1;
  bo_el : 0 <= st.2;
  bo_bound : (Z.to_nat st.2 <= k)%nat;
  bo_inv : bm_inv S' (Z.to_nat r) (pf st.1.1) (xf st.1.2) (Z.to_nat st.2);
}.

(** [s] is generated by a polynomial of degree [k]. *)
Context (k : nat) (sigma : nat -> gf256) (Hone : sigma 0%nat = f1) (Hdeg : deg_le sigma k)
  (Hgen : forall j, (k <= j < Z.to_nat n)%nat -> conv sigma S' j = f0).

Lemma shift_b_logs b : logs b -> logs (shift_b rs b).
Proof. intros H. unfold shift_b. constructor; [rewrite A0_255; lia|by apply Forall_take]. Qed.

Lemma shift_b_length b : Z.of_nat (length b) = n + 1 -> Z.of_nat (length (shift_b rs b)) = n + 1.
Proof. intros H. unfold shift_b. cbn [length]. rewrite length_take, (fr_nroots n rs R). lia. Qed.

(** [B] after a change of degree: [lambda] divided by the discrepancy. *)
Lemma scaled_xf lambda d i : poly lambda -> 0 <= d < 255 -> Z.of_nat (length lambda) = n + 1 ->
  let b := map (fun i => if get lambda i =? 0 then A0 rs
                         else modnn rs (get (index_of rs) (get lambda i) - d + nn rs)) (seqZ 0 (nroots rs + 1)) in
  logs b /\ Z.of_nat (length b) = n + 1 /\ xf b i = fmul (ax (255 - d)) (pf lambda i).
Proof.
  intros Hl Hd Ll. rewrite A0_255, (fr_nroots n rs R), (fr_index n rs R), (fr_nn n rs R). set (g := fun i => if _ =? 0 then _ else _).
  assert (Hg : forall i, 0 <= g i <= 255 /\ ix (g i) = fmul (ax (255 - d)) (sym (get lambda i))).
  { intros j. unfold g. pose proof (get_gf lambda j Hl) as Gl. destruct (Z.eqb_spec (get lambda j) 0) as [->|E].
    - split; [lia|]. change (sym 0) with (f0 (F := gf256)). change (ix 255) with (f0 (F := gf256)). ring.
    - destruct (index_spec _ Gl E) as [Hi Ei]. rewrite (modnn_mod n rs R) by lia.
      pose proof (Z.mod_pos_bound (index (get lambda j) - d + 255) 255 ltac:(lia)). split; [lia|].
      rewrite ix_ax by lia. rewrite <-(ix_index _ Gl), ix_ax, <-ax_add by lia. apply ax_mod. rewrite Z.mod_mod by lia. f_equal. lia. }
  split_and!.
  - apply Forall_map, Forall_true. apply Hg.
  - rewrite length_map, length_seqZ. lia.
  - destruct (decide (i < Z.to_nat (n + 1))%nat) as [Hi|Hi].
    + unfold xf. rewrite (nth_indep _ 255 (g 0)) by (rewrite length_map, length_seqZ; lia). rewrite map_nth.
      rewrite (nth_lookup_Some _ _ _ (Z.of_nat i)) by (apply lookup_seqZ; lia). rewrite (proj2 (Hg _)), pf_get by lia. by rewrite Nat2Z.id.
    + rewrite xf_over by (rewrite length_map, length_seqZ; lia). rewrite pf_over by lia. ring.
Qed.

Lemma berlekamp_step_ok r st : 0 <= r < n -> bm_ok k r st -> bm_ok k (r + 1) (berlekamp_step rs (r + 1) s st).
Proof.
  intros Hr O. destruct st as [[lambda b] el]. destruct O as [Hl Hb Ll Lb He Hk I]. cbn [fst snd] in *.
  destruct (discr_conv r lambda Hl Hr) as [Gd Ed]. unfold berlekamp_step. rewrite (fr_index n rs R), A0_255.
  set (dr := discr_loop rs (Z.to_nat (r + 1)) 0 (r + 1) lambda s 0) in *.
  assert (Hz : xf b (Z.to_nat n) = f0) by (apply (bi_bdeg _ _ _ _ _ I); lia).
  assert (Er : Z.to_nat (r + 1) = S (Z.to_nat r)) by lia.
  assert (Es : forall i, shift (xf b) i = xf (shift_b rs b) i) by (intros i; symmetry; by apply shift_b_xf).
  destruct (Z.eqb_spec (index dr) 255) as [E|E].
  - apply index_A0 in E; [|done]. split; cbn [fst snd]; try done; [by apply shift_b_logs|by apply shift_b_length|].
    rewrite Er. eapply bm_inv_ext; [done|exact Es|]. apply bm_keep; [done|]. by rewrite <-Ed, E.
  - assert (Hd0 : dr <> 0) by (intros E'; by rewrite E' in E). destruct (index_spec dr Gd Hd0) as [Hi Ei].
    assert (Ed' : ix (index dr) = conv (pf lambda) S' (Z.to_nat r)) by (by rewrite ix_index).
    assert (Hne : conv (pf lambda) S' (Z.to_nat r) <> f0) by (rewrite <-Ed; intros E'; by apply sym_zero in E').
    assert (Hd : 0 <= index dr < 255) by lia.
    assert (Et : forall i, fsub (pf lambda i) (fmul (conv (pf lambda) S' (Z.to_nat r)) (shift (xf b) i)) = pf (next_lambda rs lambda b (index dr)) i).
    { intros i. destruct (next_lambda_pf lambda b (index dr) i Hl Hb Hd Ll Lb Hz) as (_ & _ & ->). by rewrite Ed'. }
    destruct (next_lambda_pf lambda b (index dr) 0 Hl Hb Hd Ll Lb Hz) as (Pt & Lt & _).
    pose proof (bi_le _ _ _ _ _ I) as Hle.
    destruct (Z.leb_spec (2 * el) (r + 1 - 1)) as [H2|H2].
    + destruct (scaled_xf lambda (index dr) 0 Hl Hd Ll) as (Pb & Lb' & _). rewrite (fr_index n rs R), A0_255 in Pb, Lb'.
      assert (Eb : forall i, fmul (ax (255 - index dr)) (pf lambda i) =
        xf (map (fun i => if get lambda i =? 0 then 255 else modnn rs (index (get lambda i) - index dr + nn rs)) (seqZ 0 (nroots rs + 1))) i).
      { intros i. destruct (scaled_xf lambda (index dr) i Hl Hd Ll) as (_ & _ & E'). by rewrite (fr_index n rs R), A0_255 in E'. }
      split; cbn [fst snd]; try done; try lia.
      * pose proof (bm_bound S' (Z.to_nat r) (Z.to_nat n) _ _ _ sigma k I ltac:(lia) Hone Hdeg Hgen Hne). lia.
      * replace (Z.to_nat (r + 1 - el)) with (S (Z.to_nat r) - Z.to_nat el)%nat by lia. rewrite Er.
        eapply bm_inv_ext; [exact Et|exact Eb|]. apply bm_grow; [done|lia|].
        rewrite <-Ed', ix_ax, <-ax_add by lia. replace (255 - index dr + index dr) with 255 by lia. done.
    + split; cbn [fst snd]; try done; try lia; [by apply shift_b_logs|by apply shift_b_length|].
      rewrite Er. eapply bm_inv_ext; [exact Et|exact Es|]. apply bm_same; [done|lia].
Qed.

Lemma berlekamp_loop_ok m r st : 0 <= r -> r + Z.of_nat m <= n -> bm_ok k r st ->
  bm_ok k (r + Z.of_nat m) (fold_left (fun st r => berlekamp_step rs r s st) (seqZ (r + 1) (Z.of_nat m)) st).
Proof.
  revert r st. induction m as [|m IH]; intros r st H0 Hm O; [by rewrite Z.add_0_r|].
  rewrite seqZ_cons by lia. cbn [fold_left]. replace (Z.pred (Z.of_nat (S m))) with (Z.of_nat m) by lia.
  replace (r + Z.of_nat (S m)) with (r + 1 + Z.of_nat m) by lia. replace (Z.succ (r + 1)) with (r + 1 + 1) by lia.
  apply IH; [lia|lia|]. apply berlekamp_step_ok; [lia|done].
Qed.

Lemma berlekamp_ok : exists b el, bm_ok k n (berlekamp rs s, b, el).
Proof.
  unfold berlekamp. rewrite (fr_nroots n rs R), (fr_index n rs R). set (l0 := 1 :: replicate (Z.to_nat n) 0).
  set (b0 := map (fun i => index (get l0 i)) (seqZ 0 (n + 1))).
  assert (Pl : poly l0) by (constructor; [lia|apply Forall_replicate; lia]).
  assert (Hl0 : forall i, pf l0 i = delta i).
  { intros [|i]; [done|]. unfold pf, l0. cbn [List.nth delta]. rewrite nth_lookup.
    destruct (replicate (Z.to_nat n) 0 !! i) eqn:E; [by apply lookup_replicate in E as [-> _]|done]. }
  assert (Lb : Z.of_nat (length b0) = n + 1) by (unfold b0; rewrite length_map, length_seqZ; lia).
  assert (Hb0 : forall i, xf b0 i = delta i).
  { intros i. rewrite <-Hl0. destruct (decide (i < Z.to_nat (n + 1))%nat) as [Hi|Hi].
    - unfold xf, b0. rewrite (nth_indep _ 255 (index (get l0 0))) by (rewrite length_map, length_seqZ; lia).
      rewrite (map_nth (fun i => index (get l0 i))), (nth_lookup_Some _ _ _ (Z.of_nat i)) by (apply lookup_seqZ; lia).
      rewrite ix_index by (by apply get_gf). rewrite pf_get by lia. by rewrite Nat2Z.id.
    - rewrite xf_over by lia. rewrite pf_over; [done|]. unfold l0. cbn [length]. rewrite length_replicate. lia. }
  pose proof (berlekamp_loop_ok (Z.to_nat n) 0 (l0, b0, 0)) as B. rewrite Z2Nat.id, Z.add_0_l in B by lia.
  destruct (fold_left _ _ (l0, b0, 0)) as [[l b] el]. exists b, el. apply B; [lia|lia|]. split; cbn [fst snd].
  - done.
  - unfold b0. apply Forall_map, Forall_true. intros i. apply index_range. by apply get_gf.
  - unfold l0. cbn [length]. rewrite length_replicate. lia.
  - done.
  - lia.
  - cbn. lia.
  - eapply bm_inv_ext; [intros i; symmetry; apply Hl0|intros i; symmetry; apply Hb0|]. apply bm_init.
Qed.
End locator.

(** ** The positions and values of the errors *)

Lemma degree_spec l k : 0 <= k <= n -> get l k <> 255 -> (forall i, k < i <= n -> get l i = 255) -> degree rs l = k.
Proof.
  intros Hk Hl Hi. unfold degree. rewrite (fr_nroots n rs R), A0_255.
  set (f := fun deg i => if negb (get l i =? 255) then i else deg).
  replace (n + 1) with (k + 1 + (n - k)) by lia. rewrite seqZ_app, fold_left_app, seqZ_app, fold_left_app by lia.
  rewrite (seqZ_cons (0 + k) 1) by lia. change (seqZ (Z.succ (0 + k)) (Z.pred 1)) with (@nil Z). cbn [fold_left].
  set (a := fold_left f (seqZ 0 k) 0). assert (E : f a (0 + k) = k).
  { unfold f. rewrite Z.add_0_l. by rewrite (proj2 (Z.eqb_neq _ _) Hl). }
  rewrite E. assert (G : forall l' d, Forall (fun i => k < i <= n) l' -> fold_left f l' d = d).
  { intros l' d H. induction H as [|i l' Hi' H IH]; [done|]. cbn [fold_left]. unfold f at 2. by rewrite Hi. }
  apply G, Forall_forall. intros i Hin. apply elem_of_seqZ in Hin. lia.
Qed.

Section errors.
Context (w c : list Z) (Pw : poly w) (Pc : poly c) (Lw : length w = 255%nat) (Lc : length c = 255%nat).
Context (Hc : forall i, 0 <= i < n -> eval (alpha i) c = 0).

Definition errors : list Z := poly_xor w c.
Definition points : list (gf256 * gf256) := support errors.
Context (H1 : points <> []) (H2 : 2 * Z.of_nat (length points) <= n).

Lemma errors_poly : poly errors.
Proof. by apply poly_xor_poly. Qed.
Lemma errors_length : length errors = 255%nat.
Proof. unfold errors, poly_xor. rewrite length_zip_with. lia. Qed.

Definition good (i : Z) : bool := negb (get errors (i - 1) =? 0).

Lemma terms_lookup l p : terms l !! p = (fun c => (sym c, sym (alpha (Z.of_nat (length l) - 1 - Z.of_nat p)))) <$> (l !! p).
Proof.
  revert p. induction l as [|x l IH]; intros [|p]; try done.
  { cbn [terms lookup list_lookup fmap option_fmap option_map length]. do 4 f_equal. lia. }
  change (terms (x :: l) !! S p) with (terms l !! p). change ((x :: l) !! S p) with (l !! p). rewrite IH.
  destruct (l !! p); [|done]. cbn [fmap option_fmap option_map length]. do 4 f_equal. lia.
Qed.

(** The point of the error at position [i - 1]. *)
Lemma good_point i : 1 <= i <= 255 -> good i = true -> (sym (get errors (i - 1)), ax (255 - i)) ∈ points.
Proof.
  intros Hi Hg. apply list_elem_of_filter. split.
  - cbn [fst]. rewrite sym_zero by (apply get_gf, errors_poly). unfold good in Hg. lia.
  - apply list_elem_of_lookup. exists (Z.to_nat (i - 1)). rewrite terms_lookup, errors_length.
    destruct (lookup_lt_is_Some_2 errors (Z.to_nat (i - 1))) as [x Ex]; [rewrite errors_length; lia|].
    assert (Ex' : get errors (i - 1) = x) by (unfold get; by rewrite (nth_lookup_Some _ _ _ x Ex)).
    rewrite Ex', Ex. cbn [fmap option_fmap option_map]. do 2 f_equal. unfold ax. rewrite Z.mod_small by lia. do 2 f_equal. lia.
Qed.

Lemma point_good i : 1 <= i <= 255 -> ax (255 - i) ∈ points.*2 -> good i = true.
Proof.
  intros Hi (p & Ep & Hp)%list_elem_of_fmap. apply list_elem_of_filter in Hp as [Hnz Hp].
  apply list_elem_of_lookup in Hp as [q Hq]. rewrite terms_lookup, errors_length in Hq.
  destruct (errors !! q) as [x|] eqn:Ex; [|done]. injection Hq as <-. cbn [fst snd] in *.
  pose proof (lookup_lt_Some _ _ _ Ex) as Lq. rewrite errors_length in Lq.
  unfold ax in Ep. rewrite Z.mod_small in Ep by lia. apply sym_inj in Ep; [|apply alpha_gf; lia|apply alpha_gf; lia].
  apply (f_equal index) in Ep. destruct (alpha_spec (255 - i)) as [_ E1]; [lia|].
  destruct (alpha_spec (Z.of_nat 255 - 1 - Z.of_nat q)) as [_ E2]; [lia|]. rewrite E1, E2 in Ep.
  unfold good. replace (i - 1) with (Z.of_nat q) by lia. unfold get. rewrite Nat2Z.id, (nth_lookup_Some _ _ _ x Ex).
  rewrite sym_zero in Hnz; [lia|]. apply (proj1 (Forall_forall _ _) errors_poly). by apply (list_elem_of_lookup_2 _ q).
Qed.

Lemma good_count : length (filter good (seqZ 1 255)) = length points.
Proof.
  unfold points. rewrite support_length by apply errors_poly. unfold good.
  assert (G : forall (l : list Z) k, length (filter (fun i => negb (get l (i - k) =? 0)) (seqZ k (Z.of_nat (length l)))) =
    length (filter (fun c => c <> 0) l)).
  { induction l as [|x l IH]; intros k; [done|]. rewrite seqZ_cons by (cbn [length]; lia). rewrite !filter_cons.
    replace (Z.pred (Z.of_nat (length (x :: l)))) with (Z.of_nat (length l)) by (cbn [length]; lia).
    assert (E : length (filter (fun i => negb (get (x :: l) (i - k) =? 0)) (seqZ (Z.succ k) (Z.of_nat (length l)))) =
      length (filter (fun c => c <> 0) l)).
    { rewrite <-(IH (Z.succ k)). f_equal. apply filter_ext_in. intros i Hi. apply elem_of_seqZ in Hi.
      unfold get. replace (Z.to_nat (i - k)) with (S (Z.to_nat (i - Z.succ k))) by lia. done. }
    rewrite Z.sub_diag. change (get (x :: l) 0) with x. destruct (Z.eqb_spec x 0) as [->|Hx]; cbn [negb].
    - repeat case_decide; done.
    - repeat case_decide; try done. cbn [length]. by rewrite E. }
  specialize (G errors 1). rewrite errors_length in G. exact G.
Qed.

(** The syndromes of the word are those of its errors. *)
Definition logsyn : list Z := map index (syndromes rs w).

Lemma w_nil : w <> [].
Proof. intros E. rewrite E in Lw. done. Qed.

Lemma syndromes_poly : poly (syndromes rs w).
Proof.
  rewrite (syndromes_spec n Hn rs R w Pw w_nil). apply Forall_map, Forall_true. intros i. by apply eval_gf.
Qed.

Lemma logsyn_psum j : (j < Z.to_nat n)%nat -> xf logsyn j = psum points j.
Proof.
  intros Hj. unfold logsyn. rewrite xf_index by apply syndromes_poly. rewrite (syndromes_spec n Hn rs R w Pw w_nil).
  unfold pf. rewrite (nth_indep _ 0 (eval (alpha 0) w)) by (rewrite length_map, length_seqZ; lia).
  rewrite (map_nth (fun i => eval (alpha i) w)), (nth_lookup_Some _ _ _ (Z.of_nat j)) by (apply lookup_seqZ; lia).
  rewrite <-(Nat2Z.id j) at 2. unfold points. rewrite support_psum by (lia || apply errors_poly || (rewrite errors_length; lia)). f_equal.
  unfold errors. rewrite eval_xor, Hc by (done || lia || (apply alpha_gf; lia)). by rewrite Z.lxor_0_r.
Qed.

Lemma points_nodup : NoDup points.*2.
Proof. apply support_points. rewrite errors_length. lia. Qed.

Lemma points_nz : Forall (fun p => p.1 <> f0 /\ p.2 <> f0) points.
Proof.
  apply Forall_forall. intros p Hp. apply list_elem_of_filter in Hp as [Hp Hin]. split; [done|].
  destruct (terms_points errors) as [_ T]; [rewrite errors_length; lia|]. rewrite Forall_forall in T.
  destruct (T p.2) as (k & -> & Hk); [apply list_elem_of_fmap; by exists p|]. rewrite errors_length in Hk.
  destruct (alpha_spec k) as [? _]; [lia|]. rewrite sym_zero by lia. lia.
Qed.

Definition lambda : list Z := berlekamp rs logsyn.
Abbreviation nu := (length points).

Lemma lambda_ok : poly lambda /\ Z.of_nat (length lambda) = n + 1 /\
  exists (b : nat -> gf256) L, bm_inv (psum points) (Z.to_nat n) (pf lambda) b L /\ (L <= nu)%nat.
Proof.
  destruct (berlekamp_ok logsyn (psum points) (logs_index _ syndromes_poly)
    ltac:(unfold logsyn; rewrite length_map, (syndromes_spec n Hn rs R w Pw w_nil), length_map, length_seqZ; lia) logsyn_psum
    nu (Massey.locator points.*2)) as (b & el & O).
  - apply locator_one.
  - intros i Hi. apply locator_deg. by rewrite length_fmap.
  - intros j Hj. apply locator_psum. lia.
  - split_and!; [apply O|apply O|]. exists (xf b), (Z.to_nat el). split; apply O.
Qed.

Lemma lambda_horner x : horner (pf lambda) x nu = f0 <-> x ∈ points.*2.
Proof.
  destruct lambda_ok as (_ & _ & b & L & I & HL).
  apply (root_iff points (Z.to_nat n) (pf lambda) b L points_nodup points_nz I HL). lia.
Qed.

Lemma lambda_degree : degree rs (map index lambda) = Z.of_nat nu.
Proof.
  destruct lambda_ok as (Pl & Ll & b & L & I & HL). assert (H2' : (2 * nu <= Z.to_nat n)%nat) by lia.
  assert (G : forall i, 0 <= i <= n -> get (map index lambda) i = 255 <-> pf lambda (Z.to_nat i) = f0).
  { intros i Hi. rewrite get_map by lia. rewrite index_A0 by (by apply get_gf). rewrite <-pf_get by lia.
    rewrite sym_zero by (by apply get_gf). done. }
  apply degree_spec; [lia| |].
  - rewrite G, Nat2Z.id by lia. apply (lambda_lead points (Z.to_nat n) (pf lambda) b L points_nodup points_nz I HL H2').
  - intros i Hi. rewrite G by lia. apply (bi_deg _ _ _ _ _ I). lia.
Qed.

(** The locator at a power of the primitive element. *)
Lemma lambda_value i : 1 <= i <= 255 ->
  fadd f1 (lsum (fun j => fmul (pf lambda (Z.to_nat j)) (ax (i * j))) (seqZ 1 (Z.of_nat nu))) = f0 <-> good i = true.
Proof.
  intros Hi. destruct lambda_ok as (Pl & Ll & b & L & I & HL).
  assert (Hxy : fmul (ax (255 - i)) (ax i) = f1).
  { rewrite <-ax_add by lia. by replace (255 - i + i) with 255 by lia. }
  assert (E : fadd f1 (lsum (fun j => fmul (pf lambda (Z.to_nat j)) (ax (i * j))) (seqZ 1 (Z.of_nat nu))) =
    fmul (pow (ax i) nu) (horner (pf lambda) (ax (255 - i)) nu)).
  { rewrite <-(sum_pow _ (ax (255 - i)) (ax i)) by done.
    transitivity (lsum (fun j => fmul (pf lambda (Z.to_nat j)) (ax (i * j))) (seqZ 0 (Z.of_nat (S nu)))).
    - rewrite (seqZ_cons 0) by lia. rewrite lsum_cons. change (Z.to_nat 0) with 0%nat. rewrite (bi_one _ _ _ _ _ I), Z.mul_0_r.
      change (ax 0) with (f1 (F := gf256)). replace (Z.pred (Z.of_nat (S nu))) with (Z.of_nat nu) by lia.
      change (Z.succ 0) with 1. ring.
    - rewrite lsum_seqZ, Nat2Z.id. apply sum_ext. intros j Hj. rewrite Nat2Z.id, ax_pow by lia. done. }
  rewrite E. split.
  - intros Z0. apply mul_zero in Z0 as [Z0|Z0]; [exfalso; apply (pow_nz (ax i) nu); [apply ax_nz|done]|].
    apply point_good; [done|]. by apply lambda_horner.
  - intros Hg. apply good_point in Hg; [|done].
    assert (Hr : horner (pf lambda) (ax (255 - i)) nu = f0) by (apply lambda_horner, list_elem_of_fmap; by eexists; split; [|exact Hg]).
    rewrite Hr. ring.
Qed.

(** ** The search for the roots *)

(** The registers before iteration [i]. *)
Definition regs (i : Z) (reg : list Z) : Prop :=
  Z.of_nat (length reg) = n + 1 /\
  forall j, 1 <= j <= Z.of_nat nu -> 0 <= get reg j <= 255 /\ ix (get reg j) = fmul (pf lambda (Z.to_nat j)) (ax ((i - 1) * j)).

Lemma chien_fold i l reg q : 1 <= i -> NoDup l -> Forall (fun j => 1 <= j <= Z.of_nat nu) l -> gf q -> Z.of_nat (length reg) = n + 1 ->
  (forall j, 1 <= j <= Z.of_nat nu -> 0 <= get reg j <= 255 /\
    ix (get reg j) = fmul (pf lambda (Z.to_nat j)) (ax ((if decide (j ∈ l) then i - 1 else i) * j))) ->
  let '(reg', q') := fold_left (fun st j => chien_step rs j st) l (reg, q) in
  regs (i + 1) reg' /\ gf q' /\ sym q' = fadd (sym q) (lsum (fun j => fmul (pf lambda (Z.to_nat j)) (ax (i * j))) l).
Proof.
  intros Hi. revert reg q. induction l as [|j l IH]; intros reg q Hd Hl Hq Hlen Hr; cbn [fold_left].
  - split; [split; [done|]|split; [done|change (lsum _ []) with (f0 (F := gf256)); ring]]. intros j Hj. destruct (Hr j Hj) as [A B].
    rewrite decide_False in B by apply not_elem_of_nil. split; [done|]. rewrite B. by replace (i + 1 - 1) with i by lia.
  - apply NoDup_cons in Hd as [Hj Hd]. apply Forall_cons in Hl as [Hjn Hl]. destruct (Hr j Hjn) as [A B].
    rewrite decide_True in B by left. destruct (chien_step rs j (reg, q)) as [reg1 q1] eqn:Es.
    assert (C : Z.of_nat (length reg1) = n + 1 /\ gf q1 /\ 0 <= get reg1 j <= 255 /\
      ix (get reg1 j) = fmul (pf lambda (Z.to_nat j)) (ax (i * j)) /\ sym q1 = fadd (sym q) (ix (get reg1 j)) /\
      forall j', 0 <= j' -> j' <> j -> get reg1 j' = get reg j').
    { assert (M : fmul (pf lambda (Z.to_nat j)) (ax (i * j)) = fmul (ix (get reg j)) (ax j)).
      { rewrite B. replace (i * j) with ((i - 1) * j + j) by lia. rewrite ax_add by nia. ring. }
      unfold chien_step in Es. rewrite A0_255 in Es. destruct (Z.eqb_spec (get reg j) 255) as [E|E]; cbn [negb] in Es.
      - injection Es as <- <-. rewrite M, E. change (ix 255) with (f0 (F := gf256)). split_and!; try done; try lia; ring.
      - rewrite (modnn_mod n rs R), (fr_alpha n rs R) in Es by lia. pose proof (Z.mod_pos_bound (get reg j + j) 255 ltac:(lia)) as Hb.
        injection Es as <- <-. rewrite get_set by lia. rewrite Z.eqb_refl.
        rewrite M, ix_ax, (ix_ax (get reg j)) by lia. pose proof (alpha_gf _ Hb).
        assert (Em : ax ((get reg j + j) mod 255) = fmul (ax (get reg j)) (ax j)).
        { rewrite <-ax_add by lia. apply ax_mod. by rewrite Z.mod_mod by lia. }
        split_and!; try done; try lia; [by rewrite length_set|apply lxor_gf; [lia|done]|apply lxor_gf; [lia|done]| |].
        + rewrite sym_xor by done. f_equal. apply (ix_ax _ Hb).
        + intros j' Hj' Hne. rewrite get_set by lia. by rewrite (proj2 (Z.eqb_neq j' j)). }
    destruct C as (C1 & C2 & C3 & C4 & C5 & C6).
    specialize (IH reg1 q1 Hd Hl C2 C1). destruct (fold_left _ l (reg1, q1)) as [reg' q'].
    destruct IH as (I1 & I2 & I3).
    { intros j' Hj'. destruct (Z.eq_dec j' j) as [->|Hne]; [rewrite decide_False by done; done|].
      rewrite C6 by lia. destruct (Hr j' Hj') as [A' B']. split; [done|]. rewrite B'.
      assert (D : j' ∈ j :: l <-> j' ∈ l) by (rewrite elem_of_cons; tauto). do 3 f_equal. destruct (decide (j' ∈ j :: l)), (decide (j' ∈ l)); tauto. }
    split; [done|]. split; [done|]. rewrite I3, C5, C4, lsum_cons. ring.
Qed.

Lemma chien_eval_ok i reg : 1 <= i <= 255 -> regs i reg ->
  let '(reg', q') := chien_eval rs (Z.of_nat nu) reg in regs (i + 1) reg' /\ (q' =? 0) = good i.
Proof.
  intros Hi [Hl Hr]. unfold chien_eval.
  pose proof (chien_fold i (reverse (seqZ 1 (Z.of_nat nu))) reg 1 ltac:(lia)) as C.
  destruct (fold_left _ _ (reg, 1)) as [reg' q']. destruct C as (C1 & C2 & C3).
  - rewrite reverse_Permutation. apply NoDup_seqZ.
  - apply Forall_forall. intros j Hj. apply elem_of_reverse, elem_of_seqZ in Hj. lia.
  - lia.
  - done.
  - intros j Hj. rewrite decide_True by (apply elem_of_reverse, elem_of_seqZ; lia). by apply Hr.
  - split; [done|]. rewrite lsum_reverse in C3. change (sym 1) with (f1 (F := gf256)) in C3.
    pose proof (lambda_value i Hi) as V. rewrite <-C3, sym_zero in V by done.
    destruct (Z.eqb_spec q' 0), (good i); tauto || (symmetry; tauto) || (exfalso; intuition discriminate).
Qed.

Definition root_of (i : Z) : Z * Z := (i, i - 1).

Lemma chien_loop_ok m i reg roots : 1 <= i -> i + Z.of_nat m = 256 -> regs i reg ->
  (length roots + length (filter good (seqZ i (Z.of_nat m))) = nu)%nat -> (length roots < nu)%nat ->
  chien_loop rs m i ((i - 1) mod 255) (Z.of_nat nu) reg roots = roots ++ map root_of (filter good (seqZ i (Z.of_nat m))).
Proof.
  revert i reg roots. induction m as [|m IH]; intros i reg roots Hi Hm Hr Hc' Hlt; cbn [chien_loop].
  - rewrite seqZ_nil in Hc' by lia. cbn in Hc'. lia.
  - pose proof (chien_eval_ok i reg ltac:(lia) Hr) as C. destruct (chien_eval rs (Z.of_nat nu) reg) as [reg' q'].
    destruct C as [Hr' Eq]. rewrite seqZ_cons in * by lia. rewrite filter_cons in *.
    replace (Z.pred (Z.of_nat (S m))) with (Z.of_nat m) in * by lia. replace (Z.succ i) with (i + 1) in * by lia.
    assert (Ek : modnn rs ((i - 1) mod 255 + iprim rs) = (i + 1 - 1) mod 255).
    { rewrite (fr_iprim n rs R), (modnn_mod n rs R) by (pose proof (Z.mod_pos_bound (i - 1) 255); lia).
      rewrite Z.add_mod_idemp_l by lia. f_equal. lia. }
    rewrite Ek, Eq. destruct (good i); cbn [negb].
    + rewrite decide_True in Hc' by done. rewrite decide_True by done. cbn [length] in Hc'. cbn [map]. unfold root_of at 1. rewrite (Z.mod_small (i - 1)) by lia.
      destruct (Z.eqb_spec (Z.of_nat (length (roots ++ [(i, i - 1)]))) (Z.of_nat nu)) as [E|E]; rewrite length_app in E; cbn [length] in E.
      * assert (En : filter good (seqZ (i + 1) (Z.of_nat m)) = []) by (apply length_zero_iff_nil; lia). by rewrite En.
      * rewrite IH by (rewrite ?length_app; cbn [length]; try lia; done). by rewrite <-app_assoc.
    + rewrite decide_False in Hc' by auto. rewrite decide_False by auto. apply IH; done || lia.
Qed.

Lemma nu_pos : (0 < nu)%nat.
Proof. destruct points; [done|cbn; lia]. Qed.

Lemma chien_ok : chien_loop rs (Z.to_nat (nn rs)) 1 (iprim rs - 1) (Z.of_nat nu) (map index lambda) [] = map root_of (filter good (seqZ 1 255)).
Proof.
  destruct lambda_ok as (Pl & Ll & _). rewrite (fr_nn n rs R), (fr_iprim n rs R).
  pose proof (chien_loop_ok 255 1 (map index lambda) []) as C. apply C.
  - lia.
  - lia.
  - split; [by rewrite length_map|]. intros j Hj. rewrite get_map by lia. split; [apply index_range; by apply get_gf|].
    rewrite ix_index by (by apply get_gf). rewrite pf_get by lia. change ((1 - 1) * j) with 0. change (ax 0) with (f1 (F := gf256)). ring.
  - apply good_count.
  - apply nu_pos.
Qed.

(** ** Forney's formula *)

Abbreviation loglambda := (map index lambda).

Lemma loglambda_xf i : xf loglambda i = pf lambda i.
Proof. apply xf_index. apply lambda_ok. Qed.

Lemma loglambda_logs : logs loglambda.
Proof. apply logs_index. apply lambda_ok. Qed.

Lemma logsyn_length : Z.of_nat (length logsyn) = n.
Proof. unfold logsyn. rewrite length_map, (syndromes_spec n Hn rs R w Pw w_nil), length_map, length_seqZ. lia. Qed.

Lemma omega_at_ok i : 0 <= i < n ->
  0 <= omega_at rs logsyn loglambda i <= 255 /\ ix (omega_at rs logsyn loglambda i) = conv (pf lambda) (psum points) (Z.to_nat i).
Proof.
  intros Hi. destruct lambda_ok as (Pl & Ll & _). unfold omega_at. rewrite (fr_index n rs R).
  set (f := fun tmp j => if _ && _ then _ else tmp).
  destruct (xor_fold f (fun j => fmul (pf lambda (Z.to_nat j)) (psum points (Z.to_nat (i - j)))) (reverse (seqZ 0 (i + 1))) 0) as [G E].
  - lia.
  - intros a j Hj Ha. apply elem_of_reverse, elem_of_seqZ in Hj. unfold f.
    pose proof (get_logs logsyn (i - j) (logs_index _ syndromes_poly)) as Gs. pose proof (get_logs loglambda j loglambda_logs) as Gl.
    destruct (ix_term2 a (get logsyn (i - j)) (get loglambda j) Ha Gs Gl) as [T1 T2]. split; [exact T1|].
    rewrite T2. rewrite (xf_get loglambda) by (rewrite length_map; lia). rewrite (xf_get logsyn) by (rewrite logsyn_length; lia).
    rewrite loglambda_xf, logsyn_psum by lia. ring.
  - split; [by apply index_range|]. rewrite ix_index, E, lsum_reverse, lsum_seqZ by done. change (sym 0) with (f0 (F := gf256)).
    replace (Z.to_nat (i + 1)) with (S (Z.to_nat i)) by lia.
    transitivity (sum (fun j => fmul (pf lambda (Z.to_nat (Z.of_nat j))) (psum points (Z.to_nat (i - Z.of_nat j)))) (S (Z.to_nat i))); [ring|].
    apply sum_ext. intros j Hj. do 2 f_equal; lia.
Qed.

Definition omega : list Z := map (omega_at rs logsyn loglambda) (seqZ 0 (Z.of_nat nu)).

Lemma omega_get i : 0 <= i < Z.of_nat nu -> get omega i = omega_at rs logsyn loglambda i.
Proof.
  intros Hi. unfold omega, get at 1. rewrite (nth_indep _ 0 (omega_at rs logsyn loglambda 0)) by (rewrite length_map, length_seqZ; lia).
  rewrite map_nth, (nth_lookup_Some _ _ _ i) by (apply lookup_seqZ; lia). done.
Qed.

Section forney.
Context (i : Z) (Hi : 1 <= i <= 255) (Hg : good i = true).
Abbreviation X := (ax (255 - i)).
Abbreviation Y := (ax i).
Abbreviation E := (sym (get errors (i - 1))).
Abbreviation Q := (quotient_at points (pf lambda) X Y).

Lemma point_inverse : fmul X Y = f1.
Proof. rewrite <-ax_add by lia. by replace (255 - i + i) with 255 by lia. Qed.

Lemma numerator_ok :
  let num1 := fold_left (fun num1 t => if negb (get omega t =? A0 rs)
                                       then Z.lxor num1 (get (alpha_to rs) (modnn rs (get omega t + t * i))) else num1)
                (reverse (seqZ 0 (Z.of_nat nu - 1 + 1))) 0 in
  gf num1 /\ sym num1 = fmul E Q.
Proof.
  destruct lambda_ok as (Pl & Ll & b & L & I & HL).
  match goal with |- context [fold_left ?f0 _ _] => set (f := f0) end.
  destruct (xor_fold f (fun t => fmul (conv (pf lambda) (psum points) (Z.to_nat t)) (pow Y (Z.to_nat t))) (reverse (seqZ 0 (Z.of_nat nu - 1 + 1))) 0)
    as [G Ef].
  - lia.
  - intros a t Ht Ha. apply elem_of_reverse, elem_of_seqZ in Ht. unfold f. rewrite omega_get by lia.
    destruct (omega_at_ok t ltac:(lia)) as [O1 O2]. destruct (ix_term a _ (t * i) Ha O1 ltac:(nia)) as [T1 T2].
    split; [exact T1|]. rewrite T2, O2, ax_pow by lia. do 3 f_equal. lia.
  - split; [done|]. rewrite Ef, lsum_reverse, lsum_seqZ. replace (Z.to_nat (Z.of_nat nu - 1 + 1)) with nu by lia.
    change (sym 0) with (f0 (F := gf256)).
    rewrite <-(omega_value points (Z.to_nat n) (pf lambda) b L points_nodup points_nz I HL ltac:(lia) E X Y); [|by apply good_point|apply point_inverse].
    transitivity (sum (fun t => fmul (conv (pf lambda) (psum points) (Z.to_nat (Z.of_nat t))) (pow Y (Z.to_nat (Z.of_nat t)))) nu); [ring|].
    apply sum_ext. intros t _. by rewrite Nat2Z.id.
Qed.

Lemma evens_reverse m : map (fun t => 2 * Z.of_nat m - 2 * t) (seqZ 0 (Z.of_nat m + 1)) = reverse (map (fun t => 2 * t) (seqZ 0 (Z.of_nat m + 1))).
Proof.
  induction m as [|m IH]; [done|]. replace (Z.of_nat (S m) + 1) with (Z.of_nat (S (S m))) by lia.
  rewrite (seqZ_cons 0) at 1 by lia. rewrite (seqZ_S 0 (S m)), map_app, reverse_app. cbn [map].
  replace (Z.pred (Z.of_nat (S (S m)))) with (Z.of_nat m + 1) by lia. replace (Z.of_nat (S m)) with (Z.of_nat m + 1) by lia.
  rewrite <-IH. change (reverse [2 * (0 + (Z.of_nat m + 1))]) with [2 * (0 + (Z.of_nat m + 1))]. cbn [app]. f_equal; [lia|].
  change (Z.succ 0) with (1 + 0). rewrite <-(fmap_add_seqZ 1). change (Z.add 1 <$> ?l) with (map (Z.add 1) l). rewrite map_map. apply map_ext. intros t. lia.
Qed.

Lemma denominator_ok :
  let top := Z.land (Z.min (Z.of_nat nu) (nroots rs - 1)) (-2) in
  let den := fold_left (fun den t => if negb (get loglambda (t + 1) =? A0 rs)
                                     then Z.lxor den (get (alpha_to rs) (modnn rs (get loglambda (t + 1) + t * i))) else den)
               (map (fun k => top - 2 * k) (seqZ 0 (top / 2 + 1))) 0 in
  gf den /\ sym den = fmul X Q.
Proof.
  destruct lambda_ok as (Pl & Ll & b & L & I & HL). pose proof nu_pos as Hnu. rewrite (fr_nroots n rs R). 
  match goal with |- context [fold_left ?f0 _ _] => set (f := f0) end. cbn zeta.
  set (top := Z.land (Z.min (Z.of_nat nu) (n - 1)) (-2)).
  assert (Em : exists m, top = 2 * Z.of_nat m /\ (nu <= 2 * S m)%nat /\ 2 * Z.of_nat m + 1 <= n).
  { set (z := Z.min (Z.of_nat nu) (n - 1)) in *. assert (Ez : top = 2 * (z / 2)).
    { unfold top. change (-2) with (Z.lnot (Z.ones 1)). rewrite <-Z.ldiff_land, Z.ldiff_ones_r, Z.shiftr_div_pow2, Z.shiftl_mul_pow2 by lia.
      change (2 ^ 1) with 2. lia. }
    exists (Z.to_nat (z / 2)). pose proof (Z.div_mod z 2 ltac:(lia)). pose proof (Z.mod_pos_bound z 2 ltac:(lia)). lia. }
  destruct Em as (m & Et & Hm & Hmn). rewrite Et. replace (2 * Z.of_nat m / 2) with (Z.of_nat m) by (rewrite Z.mul_comm, Z.div_mul by lia; done).
  rewrite evens_reverse.
  destruct (xor_fold f (fun t => fmul (pf lambda (S (Z.to_nat t))) (pow Y (Z.to_nat t))) (reverse (map (fun t => 2 * t) (seqZ 0 (Z.of_nat m + 1)))) 0)
    as [G Ef].
  - lia.
  - intros a t Ht Ha. apply elem_of_reverse, list_elem_of_fmap in Ht as (t' & -> & Ht). apply elem_of_seqZ in Ht. unfold f.
    pose proof (get_logs loglambda (2 * t' + 1) loglambda_logs) as Gl. destruct (ix_term a _ (2 * t' * i) Ha Gl ltac:(nia)) as [T1 T2].
    split; [exact T1|]. rewrite T2, (xf_get loglambda), loglambda_xf, ax_pow by (rewrite ?length_map; lia).
    f_equal. f_equal; [f_equal; lia|f_equal; lia].
  - split; [done|]. rewrite Ef, lsum_reverse, lsum_map, lsum_seqZ. replace (Z.to_nat (Z.of_nat m + 1)) with (S m) by lia.
    change (sym 0) with (f0 (F := gf256)).
    rewrite <-(derivative_value points (Z.to_nat n) (pf lambda) b L points_nodup points_nz I HL ltac:(lia) X Y (S m));
      [|apply gf_char2|apply list_elem_of_fmap; by eexists; split; [|by apply good_point]|apply point_inverse|done].
    transitivity (sum (fun t => fmul (pf lambda (S (Z.to_nat (2 * Z.of_nat t)))) (pow Y (Z.to_nat (2 * Z.of_nat t)))) (S m)); [ring|].
    apply sum_ext. intros t _. replace (Z.to_nat (2 * Z.of_nat t)) with (2 * t)%nat by lia. done.
Qed.

(** One correction puts the symbol right. *)
Lemma correct_ok data : length data = 255%nat ->
  correct rs loglambda omega (Z.of_nat nu) data (root_of i) = set data (i - 1) (Z.lxor (get data (i - 1)) (get errors (i - 1))).
Proof.
  intros Ld. unfold correct, root_of. rewrite (fr_fcr n rs R), (fr_pad n rs R), Z.sub_0_r, (fr_index n rs R), (fr_nn n rs R).
  destruct numerator_ok as [Gn En]. destruct denominator_ok as [Gd Ed].
  rewrite (fr_alpha n rs R) in *.
  match type of Gn with gf ?a => set (num1 := a) in * end. match type of Gd with gf ?a => set (den := a) in * end.
  destruct lambda_ok as (Pl & Ll & b & L & I & HL). pose proof (good_point i Hi Hg) as Hp.
  assert (HX : X ∈ points.*2) by (apply list_elem_of_fmap; by eexists; split; [|exact Hp]).
  assert (HE : E <> f0) by (apply list_elem_of_filter in Hp; tauto).
  assert (HQ : Q <> f0).
  { apply (quotient_nz points (Z.to_nat n) (pf lambda) b L points_nodup points_nz I HL ltac:(lia) X Y HX point_inverse). }
  assert (Hn1 : num1 <> 0).
  { intros Z0. rewrite Z0 in En. symmetry in En. change (sym 0) with (f0 (F := gf256)) in En. apply mul_zero in En as [?|?]; done. }
  assert (Hd1 : den <> 0).
  { intros Z0. rewrite Z0 in Ed. symmetry in Ed. change (sym 0) with (f0 (F := gf256)) in Ed. apply mul_zero in Ed as [Ed|?]; [|done]. by apply (ax_nz (255 - i)). }
  rewrite (proj2 (Z.eqb_neq num1 0) Hn1), (proj2 (Z.leb_le 0 (i - 1))) by lia. cbn [negb andb]. f_equal. f_equal.
  replace (i * (0 - 1) + 255) with (255 - i) by lia. rewrite (modnn_mod n rs R (255 - i)) by lia. rewrite Z.mod_small by lia.
  destruct (alpha_spec (255 - i)) as [_ Ei]; [lia|]. rewrite Ei.
  destruct (index_spec num1 Gn Hn1) as [In _], (index_spec den Gd Hd1) as [Id _].
  rewrite (modnn_mod n rs R) by lia. pose proof (Z.mod_pos_bound (index num1 + (255 - i) + 255 - index den) 255 ltac:(lia)) as Hb.
  apply sym_inj; [by apply alpha_gf|apply get_gf, errors_poly|].
  change (sym (alpha ((index num1 + (255 - i) + 255 - index den) mod 255))) with (ax (index num1 + (255 - i) + 255 - index den)).
  set (v := ax _). assert (Hv : fmul v (ax (index den)) = fmul (ax (index num1)) X).
  { unfold v. rewrite <-!ax_add by lia. apply ax_mod.
    replace (index num1 + (255 - i) + 255 - index den + index den) with (index num1 + (255 - i) + 1 * 255) by lia.
    by rewrite Z.mod_add by lia. }
  rewrite <-!ix_ax, !ix_index, En, Ed in Hv by (done || lia).
  rewrite (ix_ax (255 - i)) in Hv by lia. pose proof (ax_nz (255 - i)) as HX0.
  transitivity (fmul v (fmul (fmul X Q) (finv (fmul X Q)))); [field; done|].
  transitivity (fmul (fmul v (fmul X Q)) (finv (fmul X Q))); [ring|]. rewrite Hv. field. done.
Qed.
End forney.

Lemma correct_all l data : NoDup l -> Forall (fun i => 1 <= i <= 255 /\ good i = true) l -> length data = 255%nat ->
  let data' := fold_left (correct rs loglambda omega (Z.of_nat nu)) (map root_of l) data in
  length data' = 255%nat /\
  forall j, 0 <= j < 255 -> get data' j = if decide (j + 1 ∈ l) then Z.lxor (get data j) (get errors j) else get data j.
Proof.
  revert data. induction l as [|i l IH]; intros data Hd Hl Ld; cbn [map fold_left].
  - split; [done|]. intros j Hj. by rewrite decide_False by apply not_elem_of_nil.
  - apply NoDup_cons in Hd as [Hni Hd]. apply Forall_cons in Hl as [[Hi Hg] Hl]. rewrite correct_ok by done.
    destruct (IH (set data (i - 1) (Z.lxor (get data (i - 1)) (get errors (i - 1)))) Hd Hl) as [A B]; [by rewrite length_set|].
    split; [exact A|]. intros j Hj. rewrite B by done. rewrite get_set by lia.
    destruct (Z.eqb_spec j (i - 1)) as [->|E].
    + replace (i - 1 + 1) with i by lia. rewrite decide_False by done. rewrite decide_True by left. done.
    + destruct (decide (j + 1 ∈ l)) as [Hin|Hin].
      * rewrite decide_True by (by right). done.
      * rewrite decide_False; [done|]. rewrite elem_of_cons. intros [?|?]; [lia|done].
Qed.

Lemma decode_errors : decode_rs_char rs w = (Z.of_nat nu, c).
Proof.
  unfold decode_rs_char, MAX_NR_BUF. rewrite (fr_nroots n rs R), (proj2 (Z.leb_gt 256 n)) by lia.
  assert (Hz : forallb (Z.eqb 0) (syndromes rs w) = false).
  { apply not_true_is_false. rewrite (syndromes_zero n rs w Hn R Pw w_nil). intros H0.
    assert (V : Forall (fun p => p.1 = f0) points).
    { apply vandermonde; [apply points_nodup|]. intros i Hi. rewrite <-logsyn_psum by lia. unfold logsyn.
      rewrite xf_index by apply syndromes_poly. rewrite (syndromes_spec n Hn rs R w Pw w_nil). unfold pf.
      rewrite (nth_indep _ 0 (eval (alpha 0) w)) by (rewrite length_map, length_seqZ; lia).
      rewrite (map_nth (fun i => eval (alpha i) w)), (nth_lookup_Some _ _ _ (Z.of_nat i)) by (apply lookup_seqZ; lia).
      by rewrite H0 by lia. }
    pose proof points_nz as N. destruct points as [|p ps]; [done|]. apply Forall_cons in V as [V _]. apply Forall_cons in N as [[N _] _]. done. }
  rewrite Hz. rewrite (fr_index n rs R). fold logsyn. fold lambda. rewrite lambda_degree, chien_ok.
  rewrite length_map, good_count, Z.eqb_refl. cbn [negb]. f_equal.
  rewrite <-(fmap_reverse root_of). change (root_of <$> ?l) with (map root_of l). fold omega.
  destruct (correct_all (reverse (filter good (seqZ 1 255))) w) as [A B].
  - rewrite reverse_Permutation. apply NoDup_filter, NoDup_seqZ.
  - apply Forall_forall. intros i Hi. apply elem_of_reverse, list_elem_of_filter in Hi as [Hg Hi]. apply elem_of_seqZ in Hi.
    split; [lia|]. by apply Is_true_eq_true.
  - done.
  - apply get_ext; [by rewrite A|]. intros j Hj. rewrite A in Hj. rewrite B by lia.
    assert (Ee : get errors j = Z.lxor (get w j) (get c j)) by (apply get_poly_xor; lia).
    destruct (decide (j + 1 ∈ reverse (filter good (seqZ 1 255)))) as [Hin|Hin].
    + rewrite Ee, <-Z.lxor_assoc, Z.lxor_nilpotent. apply Z.lxor_0_l.
    + assert (Hg : good (j + 1) <> true).
      { intros Hg. apply Hin. apply elem_of_reverse, list_elem_of_filter. split; [by rewrite Hg|]. apply elem_of_seqZ. lia. }
      unfold good in Hg. replace (j + 1 - 1) with j in Hg by lia. destruct (Z.eqb_spec (get errors j) 0) as [E0|]; [|done].
      rewrite Ee in E0. by apply Z.lxor_eq in E0.
Qed.
End errors.
End codec.

Lemma decode_corrects n rs data w :
  2 <= n <= 24 -> fec_codec n = Some rs -> poly data -> Z.of_nat (length data) = 255 - n ->
  poly w -> length w = 255%nat -> 2 * Z.of_nat (differences w (data ++ encode_rs_char rs data)) <= n ->
  decode_rs_char rs w = (Z.of_nat (differences w (data ++ encode_rs_char rs data)), data ++ encode_rs_char rs data).
Proof.
  intros Hn HR Hd Ld Hw Lw Hdiff. pose proof (fec_codec_rs n rs Hn HR) as R.
  destruct (encode_eval n Hn rs R data 0 Hd ltac:(lia)) as (Pp & Lp & _). set (c := data ++ encode_rs_char rs data) in *.
  assert (Pc : poly c) by (by apply Forall_app). assert (Lc : length c = 255%nat) by (unfold c; rewrite length_app; lia).
  assert (Ep : length (points w c) = differences w c).
  { unfold points. rewrite support_length by (by apply errors_poly). apply differences_xor. }
  rewrite <-Ep in *. destruct (points w c) as [|p ps] eqn:Es.
  - replace w with c; [cbn [length]; change (Z.of_nat 0) with 0; by apply (rs_decode_codeword n)|].
    symmetry. apply xor_same; [by rewrite Lw, Lc|]. apply nz_none. by rewrite differences_xor.
  - rewrite <-Es in *. apply (decode_errors n Hn rs R w c Hw Pc Lw Lc); [|by rewrite Es|done].
    intros i Hi. by apply (codeword_eval n Hn rs R).
Qed.

(** C14: decoding repairs a damaged block. For every number of roots dm-verity
    accepts ([FEC_PARAMS]) and a block of 255 symbols, data and their parity, of
    which at most half as many as there are roots are changed, whichever they
    are and whatever they are changed to: [decode_rs_char] returns the number of
    changed symbols and leaves the block as it was encoded. *)
Theorem rs_decode_corrects n rs data w :
  2 <= n <= 24 -> fec_codec n = Some rs -> poly data -> Z.of_nat (length data) = 255 - n ->
  poly w -> length w = 255%nat -> 2 * Z.of_nat (differences w (data ++ encode_rs_char rs data)) <= n ->
  decode_rs_char rs w = (Z.of_nat (differences w (data ++ encode_rs_char rs data)), data ++ encode_rs_char rs data).
Proof. apply decode_corrects. Qed.

(** Four symbols of a block with eight parity symbols are changed. *)
Definition fx_rs8 : rs := Eval vm_compute in default fx_rs (fec_codec 8).
Definition fx_block : list Z := map (fun i => (i * 7) mod 256) (seqZ 0 247).
Definition fx_damaged : list Z := set (set (set (set (fx_block ++ encode_rs_char fx_rs8 fx_block) 3 200) 100 1) 101 2) 254 77.

Lemma rs_decode_corrects_witness :
  differences fx_damaged (fx_block ++ encode_rs_char fx_rs8 fx_block) = 4%nat /\
  decode_rs_char fx_rs8 fx_damaged =
    (Z.of_nat (differences fx_damaged (fx_block ++ encode_rs_char fx_rs8 fx_block)), fx_block ++ encode_rs_char fx_rs8 fx_block).
Proof.
  split; [vm_compute; reflexivity|]. apply (rs_decode_corrects 8 fx_rs8 fx_block fx_damaged).
  - lia.
  - vm_compute; reflexivity.
  - apply (bool_decide_eq_true_1 _); vm_compute; reflexivity.
  - vm_compute; reflexivity.
  - apply (bool_decide_eq_true_1 _); vm_compute; reflexivity.
  - vm_compute; reflexivity.
  - vm_compute; discriminate.
Defined.

(** A damaged block that the decoder reports as good. With two parity symbols
    the all-zero block of which the last two symbols are changed to 244 and 245
    has a syndrome that is not zero, yet [decode_rs_char] returns 0 and leaves it
    as it is: the locator has degree 0 and the search finds no root, which
    passes the test for an uncorrectable block. *)
Theorem rs_uncorrectable_unreported :
  exists rs, fec_codec 2 = Some rs /\
    let w := replicate 253 0 ++ [244; 245] in syndromes rs w = [1; 0] /\ decode_rs_char rs w = (0, w).
Proof. exists fx_rs. split; [vm_compute; reflexivity|]. split; vm_compute; reflexivity. Qed.
