(* ===== verification/VerityFec.v ===== *)
(** * VerityFec: error correction of dm-verity (lib/verity/verity_fec.c)

    The protected area is the data followed by the hash area. Each byte of a
    block belongs to another code word, and the bytes of a code word are
    [rounds] blocks apart, so a run of damaged blocks is spread over many words.
    The parity is written, or read and checked, as one stream.

    Devices are numbered; the data, hash and parity devices may be the same.
    All calls take their transfers from one schedule (UtilsIO). Memory
    allocation succeeds; a buffer is a list of the columns read into it. *)

From S2P Require Import Prelude UtilsIO VerityHash ReedSolomon.

Definition FEC_RSM : Z := 255.
Definition FEC_MIN_RSN : Z := 231.
Definition FEC_MAX_RSN : Z := 253.

(** [FEC_PARAMS] *)
Definition fec_init_rs (roots : Z) : option rs := init_rs_char 8 0x11d 0 1 roots 0.

Record fec_io := FecIO { fi_devs : list bytes; fi_sched : list xfer }.

Definition dev (d : nat) (io : fec_io) : bytes := default [] (fi_devs io !! d).

(** [read_buffer] and [write_buffer] at a position of device [d]. *)
Definition dev_read (d : nat) (pos len : Z) (io : fec_io) : Z * bytes * Z * fec_io :=
  let '(r, b, f) := read_buffer 0 len (File (dev d io) pos (fi_sched io)) in
  (r, b, f_pos f, FecIO (fi_devs io) (f_sched f)).
Definition dev_write (d : nat) (pos : Z) (b : bytes) (io : fec_io) : Z * Z * fec_io :=
  let '(r, f) := write_buffer 0 b (zlen b) (File (dev d io) pos (fi_sched io)) in
  (r, f_pos f, FecIO (<[d := f_data f]> (fi_devs io)) (f_sched f)).

Record fec_input_device := { in_dev : nat; in_start : Z; in_count : Z }.

Record fec_context := {
  rsn : Z;
  roots : Z;
  size : Z;
  blocks : Z;
  rounds : Z;
  block_size : Z;
  inputs : list fec_input_device;
}.

Definition FEC_div_round_up (x y : Z) : Z := x / y + (if 0 <? x mod y then 1 else 0).

Definition FEC_interleave (ctx : fec_context) (offset : Z) : Z :=
  offset / rsn ctx +64 (((offset mod rsn ctx) *64 rounds ctx) *64 block_size ctx).

(** The input device of an offset; [None] is the end of the list. *)
Fixpoint find_input (inputs : list fec_input_device) (offset : Z) : option (fec_input_device * Z) :=
  match inputs with
  | [] => None
  | i :: inputs => if in_count i <=? offset then find_input inputs (offset - in_count i) else Some (i, offset)
  end.

(** The bytes, [None] for -1. *)
Definition FEC_read_interleaved (ctx : fec_context) (i count : Z) (io : fec_io) : option bytes * fec_io :=
  let offset := FEC_interleave ctx i in
  if size ctx <=? offset then (Some (zeros (Z.to_nat count)), io)
  else match find_input (inputs ctx) offset with
  | None => (None, io)
  | Some (inp, offset) =>
      if i64 (in_start inp +64 offset) <? 0 then (None, io)
      else
        let '(r, b, _, io) := dev_read (in_dev inp) (in_start inp +64 offset) count io in
        (if r =? count then Some b else None, io)
  end.

(** Columns [i], ... of round [n]; [k] are left. *)
Fixpoint read_columns (ctx : fec_context) (k : nat) (n i : Z) (io : fec_io) : option (list bytes) * fec_io :=
  match k with
  | O => (Some [], io)
  | S k' =>
      let '(col, io) := FEC_read_interleaved ctx (((n *64 rsn ctx) *64 block_size ctx) +64 i) (block_size ctx) io in
      match col with
      | None => (None, io)
      | Some col =>
          let '(cols, io) := read_columns ctx k' n (i + 1) io in
          ((fun cols => col :: cols) <$> cols, io)
      end
  end.

(** Byte [b] of every column. *)
Definition row (cols : list bytes) (b : nat) : list Z := map (fun col => byte_val (default Byte.x00 (col !! b))) cols.

(** The position in the parity, the parity part of [rs_block], the number of
    errors. *)
Record fec_state := FecSt { fs_pos : Z; fs_parity : list Z; fs_errors : Z; fs_io : fec_io }.

Section process.
Variables (ctx : fec_context) (rs : rs) (fd : nat) (decode : bool).

(** One code word. *)
Definition process_word (data : list Z) (st : fec_state) : Z * fec_state :=
  if decode then
    let '(r, b, pos, io) := dev_read fd (fs_pos st) (roots ctx) (fs_io st) in
    (* what was read replaces the beginning of the parity *)
    let parity := map byte_val b ++ drop (length b) (fs_parity st) in
    if r <? 0 then (- EIO, FecSt pos parity (fs_errors st) io)
    else
      let '(r, rs_block) := decode_rs_char rs (data ++ parity) in
      let parity := drop (Z.to_nat (rsn ctx)) rs_block in
      if r <? 0 then (- EPERM, FecSt pos parity (fs_errors st) io)
      else (0, FecSt pos parity (u32 (fs_errors st + r)) io)
  else
    let parity := encode_rs_char rs data in
    let '(r, pos, io) := dev_write fd (fs_pos st) (map byte_of_Z parity) (fs_io st) in
    (if r <? 0 then - EIO else 0, FecSt pos parity (fs_errors st) io).

(** Bytes [b], ... of the columns; [k] are left. *)
Fixpoint bytes_loop (k : nat) (b : nat) (cols : list bytes) (st : fec_state) : Z * fec_state :=
  match k with
  | O => (0, st)
  | S k' =>
      let '(r, st) := process_word (row cols b) st in
      if r <? 0 then (r, st) else bytes_loop k' (S b) cols st
  end.

Fixpoint rounds_loop (k : nat) (n : Z) (st : fec_state) : Z * fec_state :=
  match k with
  | O => (0, st)
  | S k' =>
      let '(cols, io) := read_columns ctx (Z.to_nat (rsn ctx)) n 0 (fs_io st) in
      let st := FecSt (fs_pos st) (fs_parity st) (fs_errors st) io in
      match cols with
      | None => (- EIO, st)
      | Some cols =>
          let '(r, st) := bytes_loop (Z.to_nat (block_size ctx)) 0 cols st in
          if r <? 0 then (r, st) else rounds_loop k' (n + 1) st
      end
  end.
End process.

(** [stack] is what [rs_block] holds at the beginning. *)
Definition FEC_process_inputs (params : crypt_params_verity) (inputs : list fec_input_device) (fd : nat) (pos : Z)
    (decode : bool) (errors : Z) (stack : list Z) (io : fec_io) : Z * Z * fec_io :=
  let roots := fec_roots params in
  let rsn := FEC_RSM - roots in
  match fec_init_rs roots with
  | None => (- ENOMEM, errors, io)
  | Some rs =>
      let size := fold_left (fun size i => size +64 in_count i) inputs 0 in
      let blocks := FEC_div_round_up size (data_block_size params) in
      let ctx := {| rsn := rsn; roots := roots; size := size; blocks := blocks; rounds := FEC_div_round_up blocks rsn;
                    block_size := data_block_size params; inputs := inputs |} in
      let '(r, st) := rounds_loop ctx rs fd decode (Z.to_nat (rounds ctx)) 0 (FecSt pos stack errors io) in
      (r, fs_errors st, fs_io st)
  end.

(** [meta_size] is what [device_size] finds of the hash device. *)
Definition VERITY_FEC_blocks (params : crypt_params_verity) (meta_is_fec : bool) (meta_size : option Z) : Z :=
  match (if meta_is_fec then Some (fec_area_offset params) else meta_size) with
  | None => 0
  | Some b =>
      let b := b / data_block_size params in
      let b := if negb (b =? 0) then b -64 VERITY_hash_offset_block params else b in
      b +64 data_size params
  end.

(** What [open] finds of the three devices: their numbers, unless it fails. *)
Record fec_devices := { fec_dev : option nat; data_dev : option nat; hash_dev : option nat }.

Definition fec_inputs (params : crypt_params_verity) (meta_is_fec : bool) (meta_size : option Z) (data hash : nat)
    : list fec_input_device :=
  let first := {| in_dev := data; in_start := 0; in_count := data_size params *64 data_block_size params |} in
  let second := {| in_dev := hash;
                   in_start := VERITY_hash_offset_block params *64 data_block_size params;
                   in_count := (VERITY_FEC_blocks params meta_is_fec meta_size -64 data_size params) *64 data_block_size params |} in
  if in_count second =? 0 then [first] else [first; second].

Definition VERITY_FEC_process (params : crypt_params_verity) (devs : fec_devices) (meta_is_fec : bool) (meta_size : option Z)
    (check_fec : bool) (errors : Z) (stack : list Z) (io : fec_io) : Z * Z * fec_io :=
  if negb (data_block_size params =? hash_block_size params) then (- EINVAL, errors, io)
  else if (FEC_RSM - FEC_MIN_RSN <? fec_roots params) || (fec_roots params <? FEC_RSM - FEC_MAX_RSN) then (- EINVAL, errors, io)
  else if data_size params *64 data_block_size params =? 0 then (- EINVAL, errors, io)
  else match fec_dev devs with
  | None => (- EIO, errors, io)
  | Some fd =>
      if i64 (fec_area_offset params) <? 0 then (- EIO, errors, io)
      else match data_dev devs, hash_dev devs with
      | Some data, Some hash =>
          FEC_process_inputs params (fec_inputs params meta_is_fec meta_size data hash) fd (fec_area_offset params)
            check_fec errors stack io
      | _, _ => (- EIO, errors, io)
      end
  end.
