(* ===== verification/VerityFecProps.v ===== *)
(** * VerityFecProps: the parity of dm-verity protects the area it covers

    The code words of the protected area and its parity as functions of the
    devices; [VERITY_FEC_process] writes parity that makes every word a code
    word, and its check corrects any damage of at most half as many symbols of a
    word as there are parity bytes. *)

From S2P Require Import Prelude UtilsIO VerityHash ReedSolomon Massey ReedSolomonField ReedSolomonProps ReedSolomonDecode VerityFec.

(** ** Reading and writing a device *)

Lemma fec_dev_read_ok d pos len io : 0 <= pos -> 0 <= len -> pos + len <= zlen (dev d io) -> benign (fi_sched io) ->
  exists io', dev_read d pos len io = (len, slice pos len (dev d io), pos + len, io') /\
    fi_devs io' = fi_devs io /\ benign (fi_sched io').
Proof.
  intros Hp Hl Hf Hb. unfold dev_read.
  destruct (read_buffer_spec 0 len (File (dev d io) pos (fi_sched io)) ltac:(lia) Hl Hp) as (r & b & f' & E & Hs & Hd & Hpos & Hr).
  rewrite E. cbn [f_pos f_data f_sched f_size] in *. unfold f_size in Hr. cbn [f_data] in Hr.
  destruct Hr as [[_ Hnb]|(Hr & Hbuf & Hz)]; [done|].
  assert (Hrl : r = len) by lia. rewrite Hbuf, Hz, Hrl in *. rewrite Hpos. eexists. split; [done|]. split; [done|].
  by apply (Hs (fun x => match x with Xerr e => e = EINTR | Xfer _ => True end)).
Qed.

Lemma fec_dev_write_ok d pos b io : (d < length (fi_devs io))%nat -> 0 <= pos -> 0 < zlen b -> pos + zlen b <= zlen (dev d io) ->
  benign (fi_sched io) ->
  exists io', dev_write d pos b io = (zlen b, pos + zlen b, io') /\
    fi_devs io' = <[d := splice pos b (dev d io)]> (fi_devs io) /\ benign (fi_sched io').
Proof.
  intros Hd Hp Hz Hf Hb. unfold dev_write.
  pose proof (zlen_nonneg (dev d io)).
  destruct (write_buffer_spec 0 b (zlen b) (File (dev d io) pos (fi_sched io)) ltac:(lia) Hz eq_refl ltac:(unfold f_size; cbn [f_pos f_data]; lia)) as (r & f' & E & Hs & Ho).
  rewrite E. destruct Ho as (k & Hk & _ & Hdata & Hpos & _ & Hr). cbn [f_data f_pos f_sched f_size] in *.
  destruct Hr as [[-> ->]|[_ [Hnb|Hsz]]]; [|done|unfold f_size in Hsz; cbn in Hsz; lia].
  rewrite Hdata, Hpos. rewrite take_ge by (unfold zlen; lia). eexists. split; [done|]. split; [done|].
  by apply (Hs (fun x => match x with Xerr e => e = EINTR | Xfer _ => True end)).
Qed.

(** ** The protected area *)

Definition dev_of (devs : list bytes) (d : nat) : bytes := default [] (devs !! d).

Section area.
Context (ctx : fec_context).

Definition input_bytes (devs : list bytes) (i : fec_input_device) : bytes := slice (in_start i) (in_count i) (dev_of devs (in_dev i)).
Definition area (devs : list bytes) : bytes := concat (map (input_bytes devs) (inputs ctx)).

(** Column [i] of round [n]; there are zeros behind the area. *)
Definition column (devs : list bytes) (n i : Z) : bytes :=
  let off := (n + i * rounds ctx) * block_size ctx in
  if size ctx <=? off then zeros (Z.to_nat (block_size ctx)) else slice off (block_size ctx) (area devs).

(** The data of code word [k]. *)
Definition data_word (devs : list bytes) (k : Z) : list Z :=
  row (map (column devs (k / block_size ctx)) (seqZ 0 (rsn ctx))) (Z.to_nat (k mod block_size ctx)).

Definition words : Z := rounds ctx * block_size ctx.

(** Code word [k]: the data and its parity on device [fd] from [pos] on. *)
Definition fec_word (fd : nat) (pos : Z) (devs : list bytes) (k : Z) : list Z :=
  data_word devs k ++ map byte_val (slice (pos + k * roots ctx) (roots ctx) (dev_of devs fd)).

Definition input_ok (devs : list bytes) (i : fec_input_device) : Prop :=
  0 <= in_start i /\ 0 <= in_count i /\ (block_size ctx | in_count i) /\
  in_start i + in_count i <= zlen (dev_of devs (in_dev i)) /\ in_start i + in_count i < 2 ^ 63.

Record ctx_ok : Prop := {
  co_roots : 2 <= roots ctx <= 24;
  co_rsn : rsn ctx = 255 - roots ctx;
  co_bs : 0 < block_size ctx;
  co_size : size ctx = foldr (fun i acc => in_count i + acc) 0 (inputs ctx);
  co_rounds : 0 <= rounds ctx;
  co_cover : size ctx <= rounds ctx * rsn ctx * block_size ctx;
  co_max : rounds ctx * rsn ctx * block_size ctx < 2 ^ 63;
}.

Context (C : ctx_ok).

Lemma find_input_ok devs off : Forall (input_ok devs) (inputs ctx) -> (block_size ctx | off) -> 0 <= off < size ctx ->
  exists i o, find_input (inputs ctx) off = Some (i, o) /\ input_ok devs i /\ 0 <= o /\ o + block_size ctx <= in_count i /\
    slice off (block_size ctx) (area devs) = slice (in_start i + o) (block_size ctx) (dev_of devs (in_dev i)).
Proof.
  pose proof (co_bs C) as Hbs. rewrite (co_size C). unfold area. intros Hi. revert off.
  induction Hi as [|i l Hi Hl IH]; intros off Hdiv Ho; cbn [foldr find_input map concat] in *; [lia|].
  destruct Hi as (H1 & H2 & H3 & H4 & H5).
  assert (Zi : zlen (input_bytes devs i) = in_count i) by (unfold input_bytes; apply zlen_slice; lia).
  destruct (Z.leb_spec (in_count i) off) as [Hc|Hc].
  - destruct (IH (off - in_count i)) as (j & o & E & A & B & D & F); [by apply Z.divide_sub_r|lia|].
    exists j, o. split_and!; try done; try apply A. rewrite slice_app_r by lia. rewrite Zi. exact F.
  - exists i, off. assert (off + block_size ctx <= in_count i).
    { destruct Hdiv as [a Ha], H3 as [b Hb]. assert (a < b) by nia. nia. }
    split_and!; try done; try lia. rewrite slice_app_l by lia. unfold input_bytes. by rewrite slice_slice by lia.
Qed.

Lemma interleave_ok n i : 0 <= n < rounds ctx -> 0 <= i < rsn ctx ->
  FEC_interleave ctx (((n *64 rsn ctx) *64 block_size ctx) +64 i) = (n + i * rounds ctx) * block_size ctx.
Proof.
  intros Hn Hi. destruct C as [Hr Hrsn Hbs _ _ _ Hmax]. unfold FEC_interleave.
  assert (Hr0 : 0 < rsn ctx) by lia. clear Hrsn Hr. generalize dependent (rounds ctx). generalize dependent (rsn ctx).
  generalize dependent (block_size ctx). intros bs Hbs r Hi Hr0 q Hn Hmax.
  assert (A : 0 <= n * r) by nia. assert (A' : n * r <= n * r * bs) by nia.
  assert (M : n * r * bs + r * bs <= q * r * bs) by (assert ((n + 1) * r <= q * r) by nia; nia). assert (Hi' : i < r * bs) by nia.
  rewrite (u64_id (n * r)), (u64_id (n * r * bs)), (u64_id (n * r * bs + i)) by lia.
  replace (n * r * bs + i) with (i + n * bs * r) by ring. rewrite Z.div_add, Z.mod_add, Z.div_small, Z.mod_small, Z.add_0_l by lia.
  assert (B : 0 <= i * q) by nia. assert (B' : i * q <= i * q * bs) by nia.
  assert (D : (n + i * q) * bs <= q * r * bs) by (assert (n + i * q <= q * r) by nia; nia). assert (0 <= n * bs) by nia.
  rewrite (u64_id (i * q)), (u64_id (i * q * bs)), (u64_id (n * bs + i * q * bs)) by lia. ring.
Qed.

Lemma read_interleaved_ok n i io : 0 <= n < rounds ctx -> 0 <= i < rsn ctx ->
  Forall (input_ok (fi_devs io)) (inputs ctx) -> benign (fi_sched io) ->
  exists io', FEC_read_interleaved ctx (((n *64 rsn ctx) *64 block_size ctx) +64 i) (block_size ctx) io =
      (Some (column (fi_devs io) n i), io') /\ fi_devs io' = fi_devs io /\ benign (fi_sched io').
Proof.
  intros Hn Hi Hin Hb. unfold FEC_read_interleaved, column. rewrite interleave_ok by done.
  pose proof (co_bs C). destruct (Z.leb_spec (size ctx) ((n + i * rounds ctx) * block_size ctx)) as [|Hlt]; [by exists io|].
  destruct (find_input_ok (fi_devs io) ((n + i * rounds ctx) * block_size ctx) Hin) as (j & o & E & Hj & Ho1 & Ho2 & Es).
  { apply Z.divide_factor_r. }
  { split; [apply Z.mul_nonneg_nonneg; nia|lia]. }
  rewrite E. destruct Hj as (H1 & H2 & _ & H4 & H5). rewrite (u64_id (in_start j + o)) by lia.
  rewrite swrap_id by lia. destruct (Z.ltb_spec (in_start j + o) 0); [lia|].
  destruct (fec_dev_read_ok (in_dev j) (in_start j + o) (block_size ctx) io) as (io' & Er & Hd & Hb'); [lia|lia| |done|].
  { change (dev (in_dev j) io) with (dev_of (fi_devs io) (in_dev j)). lia. }
  rewrite Er, Z.eqb_refl. exists io'. split; [|done]. by rewrite Es.
Qed.

Lemma read_columns_ok k n i io : 0 <= n < rounds ctx -> 0 <= i -> i + Z.of_nat k <= rsn ctx ->
  Forall (input_ok (fi_devs io)) (inputs ctx) -> benign (fi_sched io) ->
  exists io', read_columns ctx k n i io = (Some (map (column (fi_devs io) n) (seqZ i (Z.of_nat k))), io') /\
    fi_devs io' = fi_devs io /\ benign (fi_sched io').
Proof.
  intros Hn. revert i io. induction k as [|k IH]; intros i io Hi Hk Hin Hb; cbn [read_columns]; [by exists io|].
  destruct (read_interleaved_ok n i io Hn ltac:(lia) Hin Hb) as (io1 & -> & D1 & B1).
  destruct (IH (i + 1) io1) as (io2 & -> & D2 & B2); [lia|lia|by rewrite D1|done|].
  exists io2. split; [|split; [congruence|done]]. rewrite D1. rewrite (seqZ_cons i) by lia. cbn [map fmap option_fmap option_map].
  replace (Z.pred (Z.of_nat (S k))) with (Z.of_nat k) by lia. done.
Qed.

Lemma data_word_length devs k : length (data_word devs k) = Z.to_nat (rsn ctx).
Proof. unfold data_word, row. by rewrite !length_map, length_seqZ. Qed.
Lemma data_word_poly devs k : poly (data_word devs k).
Proof. apply Forall_map, Forall_true. intros col. apply byte_val_range. Qed.

(** ** The loops *)

Section loops.
Context (rs : rs) (fd : nat) (decode : bool).
(** What holds before code word [k], and the data of the words. *)
Context (Inv : Z -> fec_state -> Prop) (W : Z -> list Z).
Context (Hcols : forall n st, 0 <= n < rounds ctx -> Inv (n * block_size ctx) st ->
  exists cols io', read_columns ctx (Z.to_nat (rsn ctx)) n 0 (fs_io st) = (Some cols, io') /\
    (forall b, 0 <= b < block_size ctx -> row cols (Z.to_nat b) = W (n * block_size ctx + b)) /\
    Inv (n * block_size ctx) (FecSt (fs_pos st) (fs_parity st) (fs_errors st) io')).
Context (Hword : forall k st, 0 <= k < words -> Inv k st ->
  exists st', process_word ctx rs fd decode (W k) st = (0, st') /\ Inv (k + 1) st').

Lemma bytes_loop_ok k b n cols st : 0 <= n < rounds ctx -> Z.of_nat b + Z.of_nat k = block_size ctx ->
  (forall b, 0 <= b < block_size ctx -> row cols (Z.to_nat b) = W (n * block_size ctx + b)) ->
  Inv (n * block_size ctx + Z.of_nat b) st ->
  exists st', bytes_loop ctx rs fd decode k b cols st = (0, st') /\ Inv ((n + 1) * block_size ctx) st'.
Proof.
  intros Hn. revert b st. induction k as [|k IH]; intros b st Hk Hc HI; cbn [bytes_loop].
  - exists st. split; [done|]. by replace ((n + 1) * block_size ctx) with (n * block_size ctx + Z.of_nat b) by lia.
  - rewrite <-(Nat2Z.id b), Hc by lia.
    destruct (Hword (n * block_size ctx + Z.of_nat b) st) as (st1 & -> & I1); [unfold words; nia|done|].
    change (0 <? 0) with false. cbv iota. rewrite Nat2Z.id. apply IH; [lia|done|].
    by replace (n * block_size ctx + Z.of_nat (S b)) with (n * block_size ctx + Z.of_nat b + 1) by lia.
Qed.

Lemma rounds_loop_ok k n st : 0 <= n -> n + Z.of_nat k = rounds ctx -> Inv (n * block_size ctx) st ->
  exists st', rounds_loop ctx rs fd decode k n st = (0, st') /\ Inv words st'.
Proof.
  revert n st. induction k as [|k IH]; intros n st Hn Hk HI; cbn [rounds_loop].
  - exists st. split; [done|]. unfold words. by replace (rounds ctx) with n by lia.
  - destruct (Hcols n st ltac:(lia) HI) as (cols & io' & -> & Hc & I1).
    destruct (bytes_loop_ok (Z.to_nat (block_size ctx)) 0 n cols (FecSt (fs_pos st) (fs_parity st) (fs_errors st) io') ltac:(lia) ltac:(pose proof (co_bs C); lia) Hc) as (st2 & -> & I2).
    { by rewrite Z.add_0_r. }
    change (0 <? 0) with false. cbv iota. apply IH; [lia|lia|done].
Qed.
End loops.

Lemma read_columns_words devs n io : 0 <= n < rounds ctx -> fi_devs io = devs ->
  Forall (input_ok devs) (inputs ctx) -> benign (fi_sched io) ->
  exists cols io', read_columns ctx (Z.to_nat (rsn ctx)) n 0 io = (Some cols, io') /\ fi_devs io' = devs /\ benign (fi_sched io') /\
    forall b, 0 <= b < block_size ctx -> row cols (Z.to_nat b) = data_word devs (n * block_size ctx + b).
Proof.
  intros Hn <- Hin Hb. destruct C as [Hr Hrsn Hbs _ _ _ _].
  destruct (read_columns_ok (Z.to_nat (rsn ctx)) n 0 io Hn ltac:(lia) ltac:(lia) Hin Hb) as (io' & E & D & B).
  rewrite Z2Nat.id in E by lia. eexists _, io'. split; [exact E|]. split; [done|]. split; [done|]. intros b Hb'. unfold data_word.
  rewrite Z.div_add_l, Z.div_small, Z.add_0_r by lia. rewrite Z.add_comm, Z.mod_add, Z.mod_small by lia. done.
Qed.

(** ** Writing the parity *)

Section encode.
Context (rs : rs) (R : fec_rs (roots ctx) rs) (fd : nat) (pos : Z) (devs : list bytes).
Context (Hin : Forall (input_ok devs) (inputs ctx)) (Hfd : (fd < length devs)%nat).
Context (Hpos : 0 <= pos) (Hfit : pos + words * roots ctx <= zlen (dev_of devs fd)).
(** The parity does not overlap what it covers. *)
Context (Hdisj : Forall (fun i => in_dev i <> fd \/ in_start i + in_count i <= pos \/ pos + words * roots ctx <= in_start i) (inputs ctx)).

Definition parity_of (k : Z) : list Z := encode_rs_char rs (data_word devs k).

(** The parity of the first [m] words. *)
Definition stream (m : Z) : bytes := concat (map (fun k => map byte_of_Z (parity_of k)) (seqZ 0 m)).

Lemma parity_ok k : poly (parity_of k) /\ Z.of_nat (length (parity_of k)) = roots ctx.
Proof.
  destruct (encode_eval (roots ctx) (co_roots C) rs R (data_word devs k) 0 (data_word_poly devs k)) as (A & B & _); [pose proof (co_roots C); lia|done].
Qed.

Lemma stream_snoc m : 0 <= m -> stream (m + 1) = stream m ++ map byte_of_Z (parity_of m).
Proof.
  intros Hm. unfold stream. rewrite seqZ_app, map_app, concat_app by lia. f_equal.
  rewrite (seqZ_cons (0 + m)) by lia. change (Z.pred 1) with 0. rewrite seqZ_nil by lia. cbn [map concat]. rewrite Z.add_0_l. apply app_nil_r.
Qed.

Lemma stream_length m : 0 <= m -> zlen (stream m) = m * roots ctx.
Proof.
  intros Hm. rewrite <-(Z2Nat.id m) by done. generalize (Z.to_nat m) as k. clear m Hm. induction k as [|k IH]; [done|].
  replace (Z.of_nat (S k)) with (Z.of_nat k + 1) by lia. rewrite stream_snoc, zlen_app, IH by lia.
  unfold zlen. rewrite length_map. destruct (parity_ok (Z.of_nat k)). lia.
Qed.

Definition written (m : Z) : list bytes := <[fd := splice pos (stream m) (dev_of devs fd)]> devs.

Lemma written_dev m d : dev_of (written m) d = if decide (d = fd) then splice pos (stream m) (dev_of devs fd) else dev_of devs d.
Proof.
  unfold dev_of, written. destruct (decide (d = fd)) as [->|E]; [by rewrite list_lookup_insert_eq|by rewrite list_lookup_insert_ne].
Qed.

Lemma written_fits m : 0 <= m <= words -> pos + zlen (stream m) <= zlen (dev_of devs fd).
Proof. intros Hm. rewrite stream_length by lia. pose proof (co_roots C). nia. Qed.

(** The inputs stay as they are. *)
Lemma written_input m i : 0 <= m <= words -> input_ok devs i ->
  (in_dev i <> fd \/ in_start i + in_count i <= pos \/ pos + words * roots ctx <= in_start i) ->
  input_ok (written m) i /\ input_bytes (written m) i = input_bytes devs i.
Proof.
  intros Hm (H1 & H2 & H3 & H4 & H5) Hd. pose proof (written_fits m Hm) as Hf. pose proof (stream_length m ltac:(lia)) as Ls.
  pose proof (co_roots C). assert (m * roots ctx <= words * roots ctx) by nia.
  unfold input_ok, input_bytes. rewrite written_dev. destruct (decide (in_dev i = fd)) as [E|E].
  - rewrite E in H4. rewrite E, zlen_splice by lia. split; [done|]. apply slice_splice_disj; lia.
  - done.
Qed.

Lemma written_inputs m : 0 <= m <= words ->
  Forall (input_ok (written m)) (inputs ctx) /\ area (written m) = area devs.
Proof.
  intros Hm. unfold area. revert Hin Hdisj. generalize (inputs ctx). intros l Hl Hd. induction Hl as [|i l Hi Hl IH]; [done|].
  apply Forall_cons in Hd as [Hdi Hd]. destruct (written_input m i Hm Hi Hdi) as [A B]. destruct (IH Hd) as [A' B'].
  split; [by constructor|]. cbn [map concat]. by rewrite B, B'.
Qed.

Lemma data_word_written m k : 0 <= m <= words -> data_word (written m) k = data_word devs k.
Proof.
  intros Hm. unfold data_word. f_equal. apply map_ext. intros i. unfold column. by rewrite (proj2 (written_inputs m Hm)).
Qed.

Definition encode_inv (errors : Z) (m : Z) (st : fec_state) : Prop :=
  0 <= m <= words /\ fs_pos st = pos + m * roots ctx /\ fi_devs (fs_io st) = written m /\ benign (fi_sched (fs_io st)) /\ fs_errors st = errors.

Lemma encode_loop_ok errors stack io : fi_devs io = devs -> benign (fi_sched io) ->
  exists st, rounds_loop ctx rs fd false (Z.to_nat (rounds ctx)) 0 (FecSt pos stack errors io) = (0, st) /\ encode_inv errors words st.
Proof.
  intros Hdev Hb. pose proof C as C'. destruct C' as [Hr Hrsn Hbs _ Hrd _ _].
  apply (rounds_loop_ok rs fd false (encode_inv errors) (data_word devs)); [| |lia|lia|].
  - intros n st Hn (Hm & Hp & Hd & Hs & He).
    destruct (read_columns_words (written (n * block_size ctx)) n (fs_io st) Hn Hd (proj1 (written_inputs _ Hm)) Hs)
      as (cols & io' & E & D & B & W).
    exists cols, io'. split; [done|]. split; [|unfold encode_inv; cbn [fs_pos fs_io fs_errors]; auto].
    intros b Hb'. rewrite W by done. by apply data_word_written.
  - intros k st Hk (_ & Hp & Hd & Hs & He). unfold process_word. fold (parity_of k). destruct (parity_ok k) as [Pp Lp].
    assert (Zp : zlen (map byte_of_Z (parity_of k)) = roots ctx) by (unfold zlen; by rewrite length_map).
    assert (Hk' : 0 <= k <= words) by lia. pose proof (written_fits k Hk') as Hf. rewrite (stream_length k) in Hf by lia.
    assert (Ed : dev fd (fs_io st) = splice pos (stream k) (dev_of devs fd)).
    { unfold dev. rewrite Hd. pose proof (written_dev k fd) as E. rewrite decide_True in E by done. exact E. }
    destruct (fec_dev_write_ok fd (fs_pos st) (map byte_of_Z (parity_of k)) (fs_io st)) as (io' & E & D & B).
    + by rewrite Hd; unfold written; rewrite length_insert.
    + rewrite Hp. nia.
    + lia.
    + rewrite Zp, Hp, Ed, zlen_splice by (rewrite ?stream_length; lia). nia.
    + done.
    + rewrite E. rewrite (proj2 (Z.ltb_ge (zlen _) 0)) by lia. eexists. split; [done|]. split; [lia|]. cbn [fs_pos fs_io fs_errors].
      split; [rewrite Zp, Hp; lia|]. split; [|done]. rewrite D, Hd. unfold written. rewrite list_insert_insert_eq. f_equal.
      rewrite Ed, Hp, <-(stream_length k) by lia. rewrite splice_app by (rewrite ?stream_length, ?Zp; nia). by rewrite stream_snoc by lia.
  - unfold encode_inv. cbn [fs_pos fs_io fs_errors]. unfold words. split; [nia|]. split; [lia|]. split; [|done].
    rewrite Hdev. unfold written. change (stream (0 * block_size ctx)) with (@nil byte). rewrite splice_nil. symmetry. apply list_insert_id.
    unfold dev_of. destruct (lookup_lt_is_Some_2 devs fd Hfd) as [x Ex]. by rewrite Ex.
Qed.

(** Every word of the written devices is a code word. *)
Lemma fec_word_written k : 0 <= k < words -> fec_word fd pos (written words) k = data_word devs k ++ parity_of k.
Proof.
  intros Hk. unfold fec_word. rewrite data_word_written by lia. f_equal. rewrite written_dev, decide_True by done.
  pose proof (written_fits words ltac:(lia)) as Hf. destruct (parity_ok k) as [Pp Lp].
  assert (Es : stream words = stream k ++ map byte_of_Z (parity_of k) ++ drop (Z.to_nat ((k + 1) * roots ctx)) (stream words)).
  { rewrite app_assoc, <-stream_snoc by lia. unfold stream at 1 3. rewrite <-(take_drop (Z.to_nat ((k + 1) * roots ctx)) (concat _)) at 1. f_equal.
    fold (stream words). replace words with (k + 1 + (words - (k + 1))) by lia. unfold stream at 1. rewrite seqZ_app, map_app, concat_app by lia.
    fold (stream (k + 1)). apply take_app_length'. pose proof (stream_length (k + 1) ltac:(lia)) as L. unfold zlen in L. lia. }
  assert (Z1 : zlen (map byte_of_Z (parity_of k)) = roots ctx) by (unfold zlen; by rewrite length_map).
  assert (E : slice (pos + k * roots ctx) (roots ctx) (splice pos (stream words) (dev_of devs fd)) = map byte_of_Z (parity_of k)).
  { transitivity (slice (k * roots ctx) (roots ctx) (slice pos (zlen (stream words)) (splice pos (stream words) (dev_of devs fd)))).
    - rewrite slice_slice; [done|nia|pose proof (co_roots C); lia|done|]. rewrite stream_length by lia. pose proof (co_roots C). nia.
    - rewrite slice_splice_same by lia. rewrite Es. rewrite slice_app_r by (rewrite stream_length; lia). rewrite stream_length, Z.sub_diag by lia.
      rewrite slice_app_l by lia. rewrite <-Z1. apply slice_all. }
  rewrite E, map_map. rewrite <-(map_id (parity_of k)) at 2. apply map_ext_in. intros x Hx. rewrite byte_val_of_Z. apply wrap_id.
  apply (proj1 (Forall_forall _ _) Pp). by apply list_elem_of_In.
Qed.
End encode.

(** ** Checking the parity *)

(** The symbols in which the first [m] words of two states of the devices differ. *)
Definition damage (fd : nat) (pos : Z) (devs devs' : list bytes) (m : Z) : Z :=
  foldr Z.add 0 (map (fun k => Z.of_nat (differences (fec_word fd pos devs k) (fec_word fd pos devs' k))) (seqZ 0 m)).

Lemma damage_snoc fd pos devs devs' m : 0 <= m ->
  damage fd pos devs devs' (m + 1) = damage fd pos devs devs' m + Z.of_nat (differences (fec_word fd pos devs m) (fec_word fd pos devs' m)).
Proof.
  intros Hm. unfold damage. rewrite seqZ_app, map_app by lia. rewrite (seqZ_cons (0 + m)) by lia.
  change (seqZ (Z.succ (0 + m)) (Z.pred 1)) with (@nil Z). cbn [map]. rewrite Z.add_0_l, foldr_app. cbn [foldr].
  generalize (map (fun k => Z.of_nat (differences (fec_word fd pos devs k) (fec_word fd pos devs' k))) (seqZ 0 m)). intros l.
  induction l as [|x l IH]; cbn [foldr]; lia.
Qed.

Section check.
Context (rs : rs) (HR : fec_codec (roots ctx) = Some rs) (fd : nat) (pos : Z) (devs devs' : list bytes).
Context (Hin : Forall (input_ok devs) (inputs ctx)) (Hpos : 0 <= pos) (Hfit : pos + words * roots ctx <= zlen (dev_of devs fd)).
(** The words of [devs'] are code words close to those of [devs]. *)
Context (Hcode : forall k, 0 <= k < words -> exists data, poly data /\ length data = Z.to_nat (rsn ctx) /\
  fec_word fd pos devs' k = data ++ encode_rs_char rs data).
Context (Hnear : forall k, 0 <= k < words -> 2 * Z.of_nat (differences (fec_word fd pos devs k) (fec_word fd pos devs' k)) <= roots ctx).

Definition check_inv (errors : Z) (m : Z) (st : fec_state) : Prop :=
  0 <= m <= words /\ fs_pos st = pos + m * roots ctx /\ fi_devs (fs_io st) = devs /\ benign (fi_sched (fs_io st)) /\
  Z.of_nat (length (fs_parity st)) = roots ctx /\ fs_errors st = u32 (errors + damage fd pos devs devs' m).

Lemma check_loop_ok errors stack io : fi_devs io = devs -> benign (fi_sched io) -> Z.of_nat (length stack) = roots ctx -> 0 <= errors < 2 ^ 32 ->
  exists st, rounds_loop ctx rs fd true (Z.to_nat (rounds ctx)) 0 (FecSt pos stack errors io) = (0, st) /\ check_inv errors words st.
Proof.
  intros Hdev Hb Hst He0. pose proof C as C'. destruct C' as [Hr Hrsn Hbs _ Hrd _ _].
  apply (rounds_loop_ok rs fd true (check_inv errors) (data_word devs)); [| |lia|lia|].
  - intros n st Hn (Hm & Hp & Hd & Hs & Hl & He).
    destruct (read_columns_words devs n (fs_io st) Hn Hd Hin Hs) as (cols & io' & E & D & B & W).
    exists cols, io'. split; [done|]. split; [done|]. unfold check_inv; cbn [fs_pos fs_io fs_errors fs_parity]; auto 10.
  - intros k st Hk (_ & Hp & Hd & Hs & Hl & He). unfold process_word.
    destruct (fec_dev_read_ok fd (fs_pos st) (roots ctx) (fs_io st)) as (io' & E & D & B); [rewrite Hp; nia|lia| |done|].
    { unfold dev. rewrite Hd, Hp. change (default [] (devs !! fd)) with (dev_of devs fd). nia. }
    rewrite E. rewrite (proj2 (Z.ltb_ge (roots ctx) 0)) by lia. unfold dev. rewrite Hd, Hp. change (default [] (devs !! fd)) with (dev_of devs fd).
    set (par := slice (pos + k * roots ctx) (roots ctx) (dev_of devs fd)).
    assert (Zp : zlen par = roots ctx) by (apply zlen_slice; nia). unfold zlen in Zp.
    rewrite (drop_ge (fs_parity st)) by lia. rewrite app_nil_r. fold par. change (data_word devs k ++ map byte_val par) with (fec_word fd pos devs k).
    destruct (Hcode k Hk) as (data & Pd & Ld & Ec). pose proof (Hnear k Hk) as Hn'. rewrite Ec in Hn'.
    pose proof (fec_codec_rs _ _ Hr HR) as R. destruct (encode_eval (roots ctx) Hr rs R data 0 Pd ltac:(lia)) as (_ & Lp & _).
    rewrite (decode_corrects (roots ctx) rs data (fec_word fd pos devs k) Hr HR Pd); [|lia| | |done].
    + rewrite (proj2 (Z.ltb_ge (Z.of_nat _) 0)) by lia. eexists. split; [done|]. split; [lia|]. cbn [fs_pos fs_io fs_errors fs_parity].
      split; [lia|]. split; [congruence|]. split; [done|]. split.
      * rewrite <-Ld, drop_app_length. exact Lp.
      * rewrite He, damage_snoc, Ec by lia. unfold wrap. rewrite Zplus_mod_idemp_l. f_equal. lia.
    + apply Forall_app. split; [apply data_word_poly|]. apply Forall_map, Forall_true. intros x. apply byte_val_range.
    + unfold fec_word. rewrite length_app, data_word_length, length_map. fold par. lia.
  - unfold check_inv. cbn [fs_pos fs_io fs_errors fs_parity]. unfold words. split; [nia|]. split; [lia|]. split; [done|]. split; [done|]. split; [done|].
    change (damage fd pos devs devs' (0 * block_size ctx)) with 0. by rewrite Z.add_0_r, u32_id.
Qed.
End check.
End area.

(** ** VERITY_FEC_process *)

Definition fec_ctx (params : crypt_params_verity) (inputs : list fec_input_device) : fec_context :=
  let size := fold_left (fun size i => size +64 in_count i) inputs 0 in
  let blocks := FEC_div_round_up size (data_block_size params) in
  {| rsn := FEC_RSM - fec_roots params; roots := fec_roots params; size := size; blocks := blocks;
     rounds := FEC_div_round_up blocks (FEC_RSM - fec_roots params);
     block_size := data_block_size params; inputs := inputs |}.

(** Parameters that [VERITY_FEC_process] accepts, for devices with room for what
    they are to hold: the parity of [pos] on does not overlap what it covers. *)
Record fec_layout (params : crypt_params_verity) (inputs : list fec_input_device) (fd : nat) (devs : list bytes) : Prop := {
  fl_bs : 0 < data_block_size params;
  fl_same : data_block_size params = hash_block_size params;
  fl_roots : 2 <= fec_roots params <= 24;
  fl_data : data_size params *64 data_block_size params <> 0;
  fl_inputs : Forall (input_ok (fec_ctx params inputs) devs) inputs;
  fl_max : foldr (fun i acc => in_count i + acc) 0 inputs + 256 * data_block_size params < 2 ^ 63;
  fl_fd : (fd < length devs)%nat;
  fl_pos : 0 <= fec_area_offset params < 2 ^ 63;
  fl_fit : fec_area_offset params + words (fec_ctx params inputs) * fec_roots params <= zlen (dev_of devs fd);
  fl_disj : Forall (fun i => in_dev i <> fd \/ in_start i + in_count i <= fec_area_offset params \/
    fec_area_offset params + words (fec_ctx params inputs) * fec_roots params <= in_start i) inputs;
}.

Lemma div_round_up_spec x y : 0 <= x -> 0 < y -> x <= FEC_div_round_up x y * y < x + y.
Proof.
  intros Hx Hy. unfold FEC_div_round_up. pose proof (Z.div_mod x y ltac:(lia)) as D. pose proof (Z.mod_pos_bound x y Hy).
  destruct (Z.ltb_spec 0 (x mod y)); nia.
Qed.

Lemma rounds_bounds total bs r : 0 <= total -> 0 < bs -> 0 < r ->
  let q := FEC_div_round_up (FEC_div_round_up total bs) r in 0 <= q /\ total <= q * r * bs /\ q * r * bs < total + bs + r * bs.
Proof.
  intros Ht Hb Hr. pose proof (div_round_up_spec total bs Ht Hb) as D1. set (b := FEC_div_round_up total bs) in *.
  assert (Hb0 : 0 <= b) by nia. pose proof (div_round_up_spec b r Hb0 Hr) as D2. set (q := FEC_div_round_up b r) in *. cbv zeta. nia.
Qed.

Lemma fec_ctx_ok params inputs fd devs : fec_layout params inputs fd devs -> ctx_ok (fec_ctx params inputs).
Proof.
  intros L. destruct L as [Hbs _ Hr _ Hin Hmax _ _ _ _].
  assert (E : forall l a, Forall (input_ok (fec_ctx params inputs) devs) l -> 0 <= a -> a + foldr (fun i acc => in_count i + acc) 0 l < 2 ^ 64 ->
    fold_left (fun size i => size +64 in_count i) l a = a + foldr (fun i acc => in_count i + acc) 0 l /\
    0 <= foldr (fun i acc => in_count i + acc) 0 l).
  { induction l as [|i l IH]; intros a Hl Ha Hb; cbn [fold_left foldr] in *; [lia|]. apply Forall_cons in Hl as [(_ & Hc & _) Hl].
    destruct (IH 0 Hl) as [_ H0]; [lia| |].
    { assert (0 <= foldr (fun i acc => in_count i + acc) 0 l); [|lia]. clear -Hl. induction Hl as [|j l (_ & Hj & _) Hl IH]; cbn [foldr]; lia. }
    rewrite u64_id by lia. destruct (IH (a + in_count i) Hl) as [E _]; [lia|lia|]. rewrite E. lia. }
  destruct (E inputs 0 Hin) as [Es H0]; [lia|lia|]. rewrite Z.add_0_l in Es.
  pose proof (rounds_bounds _ (data_block_size params) (255 - fec_roots params) H0 Hbs ltac:(lia)) as B.
  unfold fec_ctx, FEC_RSM. split; cbn [ReedSolomon.nroots VerityFec.roots VerityFec.rsn block_size size rounds VerityFec.inputs blocks]; rewrite ?Es.
  - done.
  - lia.
  - done.
  - done.
  - apply B.
  - apply B.
  - pose proof (proj2 (proj2 B)). nia.
Qed.

Lemma fec_process_runs params devs meta_is_fec meta_size check errors stack io fd data hash :
  fec_dev devs = Some fd -> data_dev devs = Some data -> hash_dev devs = Some hash ->
  fec_layout params (fec_inputs params meta_is_fec meta_size data hash) fd (fi_devs io) ->
  VERITY_FEC_process params devs meta_is_fec meta_size check errors stack io =
  FEC_process_inputs params (fec_inputs params meta_is_fec meta_size data hash) fd (fec_area_offset params) check errors stack io.
Proof.
  intros E1 E2 E3 L. destruct L as [Hbs Hs Hr Hd _ _ _ Hp _ _]. unfold VERITY_FEC_process, FEC_RSM, FEC_MIN_RSN, FEC_MAX_RSN.
  rewrite E1, E2, E3, <-Hs, Z.eqb_refl. cbn [negb].
  rewrite (proj2 (Z.ltb_ge (255 - 231) _)), (proj2 (Z.ltb_ge _ (255 - 253))) by lia. cbn [orb].
  rewrite (proj2 (Z.eqb_neq _ 0) Hd). rewrite swrap_id by lia. by rewrite (proj2 (Z.ltb_ge _ 0)) by lia.
Qed.

(** C13: the parity of dm-verity corrects damage. When [VERITY_FEC_process] has
    written the parity of a device set whose areas have room and do not overlap
    (the data, hash and parity devices may be the same), and afterwards, on
    devices of the same sizes, at most half as many symbols of each code word as
    there are parity bytes were changed, in the data, the hash area or the parity
    itself, then the check returns 0 and adds the number of changed symbols to
    the count of errors. No call fails for good. *)
Theorem verity_fec_corrects params devs meta_is_fec meta_size errors stack io fd data hash :
  fec_dev devs = Some fd -> data_dev devs = Some data -> hash_dev devs = Some hash ->
  fec_layout params (fec_inputs params meta_is_fec meta_size data hash) fd (fi_devs io) -> benign (fi_sched io) ->
  0 <= errors < 2 ^ 32 -> Z.of_nat (length stack) = fec_roots params ->
  let ctx := fec_ctx params (fec_inputs params meta_is_fec meta_size data hash) in
  let word := fec_word ctx fd (fec_area_offset params) in
  exists io1, VERITY_FEC_process params devs meta_is_fec meta_size false errors stack io = (0, errors, io1) /\
    forall io2, map length (fi_devs io2) = map length (fi_devs io1) -> benign (fi_sched io2) ->
      (forall k, 0 <= k < words ctx -> 2 * Z.of_nat (differences (word (fi_devs io2) k) (word (fi_devs io1) k)) <= fec_roots params) ->
      exists io3, VERITY_FEC_process params devs meta_is_fec meta_size true errors stack io2 =
        (0, u32 (errors + damage ctx fd (fec_area_offset params) (fi_devs io2) (fi_devs io1) (words ctx)), io3) /\ fi_devs io3 = fi_devs io2.
Proof.
  intros E1 E2 E3 L Hb He Hst ctx word. pose proof (fec_ctx_ok _ _ _ _ L) as C. fold ctx in C.
  destruct (fec_codec_some (fec_roots params) (fl_roots _ _ _ _ L)) as [rs HR].
  pose proof (fec_codec_rs _ _ (fl_roots _ _ _ _ L) HR) as R.
  assert (P : forall check st io, rounds_loop ctx rs fd check (Z.to_nat (rounds ctx)) 0 (FecSt (fec_area_offset params) stack errors io) = (0, st) ->
    FEC_process_inputs params (fec_inputs params meta_is_fec meta_size data hash) fd (fec_area_offset params) check errors stack io = (0, fs_errors st, fs_io st)).
  { intros check st io' E. unfold FEC_process_inputs. change (fec_init_rs (fec_roots params)) with (fec_codec (fec_roots params)). rewrite HR.
    cbv zeta. unfold ctx, fec_ctx in E. by rewrite E. }
  destruct (encode_loop_ok ctx C rs R fd (fec_area_offset params) (fi_devs io) (fl_inputs _ _ _ _ L) (fl_fd _ _ _ _ L)
    (proj1 (fl_pos _ _ _ _ L)) (fl_fit _ _ _ _ L) (fl_disj _ _ _ _ L) errors stack io eq_refl Hb) as (st & Est & _ & _ & Hd1 & _ & Her).
  exists (fs_io st). split.
  { rewrite (fec_process_runs _ _ _ _ _ _ _ _ fd data hash) by done. rewrite (P false st io Est). by rewrite Her. }
  intros io2 Hlen Hb2 Hnear.
  assert (Hw : 0 <= words ctx) by (unfold words; pose proof (co_rounds _ C); pose proof (co_bs _ C); nia).
  assert (Hlen2 : forall d, zlen (dev_of (fi_devs io2) d) = zlen (dev_of (fi_devs io) d)).
  { intros d. assert (E : zlen (dev_of (fi_devs io2) d) = zlen (dev_of (fi_devs (fs_io st)) d)).
    { unfold dev_of, zlen. f_equal. apply (f_equal (fun l => l !! d)) in Hlen. change (map length ?l !! d) with ((length <$> l) !! d) in Hlen.
      rewrite !list_lookup_fmap in Hlen. destruct (fi_devs io2 !! d), (fi_devs (fs_io st) !! d); cbn in *; congruence. }
    rewrite E, Hd1, (written_dev ctx rs fd (fec_area_offset params) (fi_devs io) (fl_fd _ _ _ _ L)). destruct (decide (d = fd)) as [->|]; [|done].
    apply zlen_splice; [apply (fl_pos _ _ _ _ L)|]. eapply written_fits; try apply L; try done; lia. }
  assert (L2 : fec_layout params (fec_inputs params meta_is_fec meta_size data hash) fd (fi_devs io2)).
  { destruct L as [A1 A2 A3 A4 A5 A6 A7 A8 A9 A10]. split; try done.
    - eapply Forall_impl; [exact A5|]. intros i (B1 & B2 & B3 & B4 & B5). unfold input_ok. by rewrite Hlen2.
    - apply (f_equal length) in Hlen. rewrite !length_map, Hd1 in Hlen. unfold written in Hlen. rewrite length_insert in Hlen. lia.
    - by rewrite Hlen2. }
  destruct (check_loop_ok ctx C rs HR fd (fec_area_offset params) (fi_devs io2) (fi_devs (fs_io st)) (fl_inputs _ _ _ _ L2)
    (proj1 (fl_pos _ _ _ _ L2)) (fl_fit _ _ _ _ L2)) with (errors := errors) (stack := stack) (io := io2) as (st3 & Est3 & _ & _ & Hd3 & _ & _ & Her3); try done.
  - intros k Hk. exists (data_word ctx (fi_devs io) k). split; [apply data_word_poly|]. split; [apply data_word_length|].
    rewrite Hd1. eapply fec_word_written; try apply L; done.
  - exists (fs_io st3). split; [|done]. rewrite (fec_process_runs _ _ _ _ _ _ _ _ fd data hash) by done. rewrite (P true st3 io2 Est3). by rewrite Her3.
Qed.

(** Three blocks of data, two of hashes, and 8 bytes of parity. *)
Definition fx_fec_params : crypt_params_verity :=
  {| hash_name := []; salt := []; salt_size := 0; hash_type := 1; data_block_size := 4; hash_block_size := 4; data_size := 3;
     hash_area_offset := 0; fec_area_offset := 2; fec_roots := 2; flags := CRYPT_VERITY_NO_HEADER |}.
Definition fx_fec_devs : fec_devices := {| fec_dev := Some 2%nat; data_dev := Some 0%nat; hash_dev := Some 1%nat |}.
Definition fx_fec_io : fec_io :=
  FecIO [map byte_of_Z (seqZ 1 12); map byte_of_Z (seqZ 100 8); zeros 12] [Xfer 5; Xerr EINTR; Xfer 1].
(** A data block and a parity byte are damaged. *)
Definition fx_fec_damage (io : fec_io) : fec_io :=
  FecIO [splice 4 (map byte_of_Z [99; 6; 98; 97]) (dev 0 io); dev 1 io; splice 5 [byte_of_Z 7] (dev 2 io)] [].

Lemma fx_fec_layout : fec_layout fx_fec_params (fec_inputs fx_fec_params false (Some 8) 0 1) 2 (fi_devs fx_fec_io).
Proof.
  split.
  - reflexivity.
  - reflexivity.
  - split; discriminate.
  - discriminate.
  - repeat constructor; try discriminate; [by exists 3|by exists 2].
  - reflexivity.
  - cbn. lia.
  - split; [discriminate|reflexivity].
  - vm_compute. discriminate.
  - repeat constructor; discriminate.
Qed.

Lemma verity_fec_corrects_witness :
  exists io1, VERITY_FEC_process fx_fec_params fx_fec_devs false (Some 8) false 0 [0; 0] fx_fec_io = (0, 0, io1) /\
    damage (fec_ctx fx_fec_params (fec_inputs fx_fec_params false (Some 8) 0 1)) 2 2 (fi_devs (fx_fec_damage io1)) (fi_devs io1) 4 = 4 /\
    exists io3, VERITY_FEC_process fx_fec_params fx_fec_devs false (Some 8) true 0 [0; 0] (fx_fec_damage io1) = (0, 4, io3).
Proof.
  destruct (verity_fec_corrects fx_fec_params fx_fec_devs false (Some 8) 0 [0; 0] fx_fec_io 2 0 1 eq_refl eq_refl eq_refl fx_fec_layout)
    as (io1 & E & H).
  - repeat constructor.
  - lia.
  - reflexivity.
  - assert (Eio : io1 = (VERITY_FEC_process fx_fec_params fx_fec_devs false (Some 8) false 0 [0; 0] fx_fec_io).2) by (rewrite E; reflexivity).
    exists io1. split; [exact E|]. subst io1.
    destruct (H (fx_fec_damage (VERITY_FEC_process fx_fec_params fx_fec_devs false (Some 8) false 0 [0; 0] fx_fec_io).2)) as (io3 & E3 & _).
    + vm_compute. reflexivity.
    + constructor.
    + assert (A : forallb (fun k => 2 * Z.of_nat (differences (fec_word (fec_ctx fx_fec_params (fec_inputs fx_fec_params false (Some 8) 0 1)) 2 2
          (fi_devs (fx_fec_damage (VERITY_FEC_process fx_fec_params fx_fec_devs false (Some 8) false 0 [0; 0] fx_fec_io).2)) k)
          (fec_word (fec_ctx fx_fec_params (fec_inputs fx_fec_params false (Some 8) 0 1)) 2 2
          (fi_devs (VERITY_FEC_process fx_fec_params fx_fec_devs false (Some 8) false 0 [0; 0] fx_fec_io).2) k)) <=? 2) (seqZ 0 4) = true) by (vm_compute; reflexivity).
      intros k Hk. apply Z.leb_le. exact (forallb_below _ 4 A k Hk).
    + split; [vm_compute; reflexivity|]. exists io3. rewrite E3. f_equal.
Defined.

(** A parity device without parity passes the check when the protected area and
    the uninitialised [rs_block] hold zeros: a short read is not an error, and
    the parity of the word before is used. *)
Lemma fec_missing_parity_accepted :
  let io := FecIO [zeros 12; zeros 8; []] [] in
  exists io', VERITY_FEC_process fx_fec_params fx_fec_devs false (Some 8) true 0 [0; 0] io = (0, 0, io').
Proof. eexists. vm_compute. reflexivity. Qed.
