(* ===== verification/Verity.v ===== *)
(** * Verity: the superblock of dm-verity and activation (lib/verity/verity.c)

    The superblock is a packed struct of little-endian fields on the hash
    device, which is a [file] (UtilsIO). UUIDs are libuuid's (the class
    [LibUuid] of LibC). A [memcpy] of the salt behind the end of its field is undefined:
    [None]. Activation asks the kernel through [verity_env]. *)

From S2P Require Import Prelude UtilsIO CryptBackend Cstd VerityHash ReedSolomon VerityFec.

(** "verity\0\0" *)
Definition VERITY_SIGNATURE : bytes := bytes_of_string "verity" ++ zeros 2.
Definition VERITY_MAX_HASH_TYPE : Z := 1.

(** [VERITY_BLOCK_SIZE_OK] holds of the sizes that are not supported. *)
Definition VERITY_BLOCK_SIZE_OK (x : Z) : bool :=
  negb (x mod 512 =? 0) || (x <? 512) || (512 * 1024 <? x) || negb (Z.land x (u32 (x - 1)) =? 0).

Definition MISALIGNED_512 (a : Z) : bool := negb (Z.land a 511 =? 0).

Record verity_sb := VeritySb {
  sb_signature : bytes;
  sb_version : bytes;
  sb_hash_type : bytes;
  sb_uuid : bytes;
  sb_algorithm : bytes;
  sb_data_block_size : bytes;
  sb_hash_block_size : bytes;
  sb_data_blocks : bytes;
  sb_salt_size : bytes;
  sb_pad1 : bytes;
  sb_salt : bytes;
  sb_pad2 : bytes;
}.

Definition sb_bytes (s : verity_sb) : bytes :=
  mjoin [ sb_signature s; sb_version s; sb_hash_type s; sb_uuid s; sb_algorithm s; sb_data_block_size s;
          sb_hash_block_size s; sb_data_blocks s; sb_salt_size s; sb_pad1 s; sb_salt s; sb_pad2 s ].

Definition sb_of_bytes (b : bytes) : verity_sb :=
  VeritySb (slice 0 8 b) (slice 8 4 b) (slice 12 4 b) (slice 16 16 b) (slice 32 32 b) (slice 64 4 b)
    (slice 68 4 b) (slice 72 8 b) (slice 80 2 b) (slice 82 6 b) (slice 88 256 b) (slice 344 168 b).

(** Up to the terminating NUL. *)
Fixpoint _to_lower (str : bytes) : bytes :=
  match str with
  | [] => []
  | c :: str => if bool_decide (c = Byte.x00) then c :: str else (if isupper c then tolower c else c) :: _to_lower str
  end.

(** The device and the descriptor [device_open] returns. *)
Record sb_device := SbDevice { sd_fd : Z; sd_block_size : Z; sd_alignment : Z }.

(** Assignments of [VERITY_read_sb] to [params]. *)
Definition set_hash_type (v : Z) (p : crypt_params_verity) : crypt_params_verity :=
  {| hash_name := hash_name p; salt := salt p; salt_size := salt_size p; hash_type := v; data_block_size := data_block_size p;
     hash_block_size := hash_block_size p; data_size := data_size p; hash_area_offset := hash_area_offset p;
     fec_area_offset := fec_area_offset p; fec_roots := fec_roots p; flags := flags p |}.
Definition set_block_sizes (d h : Z) (p : crypt_params_verity) : crypt_params_verity :=
  {| hash_name := hash_name p; salt := salt p; salt_size := salt_size p; hash_type := hash_type p; data_block_size := d;
     hash_block_size := h; data_size := data_size p; hash_area_offset := hash_area_offset p;
     fec_area_offset := fec_area_offset p; fec_roots := fec_roots p; flags := flags p |}.
Definition set_data_size (v : Z) (p : crypt_params_verity) : crypt_params_verity :=
  {| hash_name := hash_name p; salt := salt p; salt_size := salt_size p; hash_type := hash_type p;
     data_block_size := data_block_size p; hash_block_size := hash_block_size p; data_size := v;
     hash_area_offset := hash_area_offset p; fec_area_offset := fec_area_offset p; fec_roots := fec_roots p; flags := flags p |}.
(** The empty name stands for NULL. *)
Definition set_hash_name (v : bytes) (p : crypt_params_verity) : crypt_params_verity :=
  {| hash_name := v; salt := salt p; salt_size := salt_size p; hash_type := hash_type p; data_block_size := data_block_size p;
     hash_block_size := hash_block_size p; data_size := data_size p; hash_area_offset := hash_area_offset p;
     fec_area_offset := fec_area_offset p; fec_roots := fec_roots p; flags := flags p |}.
Definition set_salt_size (v : Z) (p : crypt_params_verity) : crypt_params_verity :=
  {| hash_name := hash_name p; salt := salt p; salt_size := v; hash_type := hash_type p; data_block_size := data_block_size p;
     hash_block_size := hash_block_size p; data_size := data_size p; hash_area_offset := hash_area_offset p;
     fec_area_offset := fec_area_offset p; fec_roots := fec_roots p; flags := flags p |}.
Definition set_salt (v : bytes) (p : crypt_params_verity) : crypt_params_verity :=
  {| hash_name := hash_name p; salt := v; salt_size := salt_size p; hash_type := hash_type p; data_block_size := data_block_size p;
     hash_block_size := hash_block_size p; data_size := data_size p; hash_area_offset := hash_area_offset p;
     fec_area_offset := fec_area_offset p; fec_roots := fec_roots p; flags := flags p |}.
Definition set_hash_area_offset (v : Z) (p : crypt_params_verity) : crypt_params_verity :=
  {| hash_name := hash_name p; salt := salt p; salt_size := salt_size p; hash_type := hash_type p;
     data_block_size := data_block_size p; hash_block_size := hash_block_size p; data_size := data_size p;
     hash_area_offset := v; fec_area_offset := fec_area_offset p; fec_roots := fec_roots p; flags := flags p |}.

Section superblock.
Context `{CH : CryptHash} `{LU : LibUuid}.

(** The checks of what was read. The result has the UUID string. *)
Definition parse_sb (sb : verity_sb) (sb_offset : Z) (params : crypt_params_verity) : Z * option bytes * crypt_params_verity :=
  if negb (bool_decide (sb_signature sb = VERITY_SIGNATURE)) then (- EINVAL, None, params)
  else if negb (i32 (le_decode (sb_version sb)) =? 1) then (- EINVAL, None, params)
  else
    let params := set_hash_type (le_decode (sb_hash_type sb)) params in
    if VERITY_MAX_HASH_TYPE <? hash_type params then (- EINVAL, None, params)
    else
      let params := set_block_sizes (le_decode (sb_data_block_size sb)) (le_decode (sb_hash_block_size sb)) params in
      if VERITY_BLOCK_SIZE_OK (data_block_size params) || VERITY_BLOCK_SIZE_OK (hash_block_size params)
      then (- EINVAL, None, params)
      else
        let params := set_data_size (le_decode (sb_data_blocks sb)) params in
        (* strndup *)
        let params := set_hash_name (cstr (sb_algorithm sb)) params in
        if crypt_hash_size (hash_name params) <=? 0 then (- EINVAL, None, set_hash_name [] params)
        else
          let params := set_salt_size (le_decode (sb_salt_size sb)) params in
          if 256 <? salt_size params then (- EINVAL, None, set_hash_name [] params)
          else
            let params := set_salt (take (Z.to_nat (salt_size params)) (sb_salt sb)) params in
            (0, Some (uuid_unparse (sb_uuid sb)), set_hash_area_offset sb_offset params).

Definition VERITY_read_sb (sd : sb_device) (sb_offset : Z) (params : crypt_params_verity) (f : file)
    : Z * option bytes * crypt_params_verity * file :=
  if negb (Z.land (flags params) CRYPT_VERITY_NO_HEADER =? 0) then (- EINVAL, None, params, f)
  else if MISALIGNED_512 sb_offset then (- EINVAL, None, params, f)
  else if sd_fd sd <? 0 then (- EINVAL, None, params, f)
  else
    let '(n, b, f) := read_lseek_blockwise (sd_fd sd) (sd_block_size sd) (sd_alignment sd) VERITY_SB_SIZE sb_offset f in
    if n <? VERITY_SB_SIZE then (- EIO, None, params, f)
    else let '(r, u, params) := parse_sb (sb_of_bytes b) sb_offset params in (r, u, params, f).

(** The superblock; [None] is a salt that runs over its field. *)
Definition make_sb (uuid : bytes) (params : crypt_params_verity) : option verity_sb :=
  (* strncpy of at most 31 bytes *)
  let name := take 31 (cstr (hash_name params)) in
  if 256 <? salt_size params then None
  else Some (VeritySb VERITY_SIGNATURE (le_encode 4 1) (le_encode 4 (hash_type params)) uuid
    (_to_lower (splice 0 name (zeros 32))) (le_encode 4 (data_block_size params)) (le_encode 4 (hash_block_size params))
    (le_encode 8 (data_size params)) (le_encode 2 (salt_size params)) (zeros 6)
    (splice 0 (take (Z.to_nat (salt_size params)) (salt params)) (zeros 256)) (zeros 168)).

(** [uuid_string] is [None] for a NULL pointer. *)
Definition VERITY_write_sb (sd : sb_device) (sb_offset : Z) (uuid_string : option bytes) (params : crypt_params_verity) (f : file)
    : option (Z * file) :=
  match uuid_string ≫= uuid_parse with
  | None => Some (- EINVAL, f)
  | Some uuid =>
      if negb (Z.land (flags params) CRYPT_VERITY_NO_HEADER =? 0) then Some (- EINVAL, f)
      else
        let block_size := if hash_block_size params <? sd_block_size sd then hash_block_size params else sd_block_size sd in
        if sd_fd sd <? 0 then Some (- EINVAL, f)
        else match make_sb uuid params with
        | None => None
        | Some sb =>
            let '(n, f) := write_lseek_blockwise (sd_fd sd) block_size (sd_alignment sd) (sb_bytes sb) VERITY_SB_SIZE sb_offset f in
            Some (if n <? VERITY_SB_SIZE then - EIO else 0, f)
        end
  end.
End superblock.

(** ** Activation *)

Definition CRYPT_VERITY_CHECK_HASH : Z := 2.
Definition DM_VERITY_SUPPORTED : Z := Z.shiftl 1 5.
Definition DM_VERITY_SIGNATURE_SUPPORTED : Z := Z.shiftl 1 22.

(** What the kernel and device-mapper answer. *)
Record verity_env := {
  ve_hash_adjust : Z;          (** [device_block_adjust] of the hash device *)
  ve_data_adjust : Z;
  ve_fec_adjust : Z;
  ve_target_set : Z;           (** [dm_verity_target_set] *)
  ve_create : Z;               (** [dm_create_device] *)
  ve_flags : Z * Z;            (** [dm_flags]: result and flags *)
  ve_status : Z;               (** [dm_status_verity_ok] *)
}.

(** The devices of an activation: their contents for the hash tree, and for the
    parity when there is a FEC device. *)
Record verity_devices := {
  vd_disks : disks;
  vd_size : Z + Z;             (** [device_size] of the data device *)
  vd_fec : option fec_devices;
  vd_meta_is_fec : bool;
  vd_meta_size : option Z;
  vd_io : fec_io;
  vd_stack : list Z;
}.

Section activate.
Context `{CH : CryptHash}.

(** Verification in userspace, repaired by the FEC device. *)
Definition check_hash (params : crypt_params_verity) (root_hash : bytes) (signature : bool) (vd : verity_devices) : Z :=
  if signature then - EINVAL
  else
    let '(r, _) := VERITY_verify params root_hash (vd_size vd) (vd_disks vd) in
    match vd_fec vd with
    | Some fec =>
        if (r =? - EPERM) || (r =? - EFAULT) then
          let v := r in
          let '(r, fec_errors, _) := VERITY_FEC_process params fec (vd_meta_is_fec vd) (vd_meta_size vd) true 0 (vd_stack vd) (vd_io vd) in
          if v =? - EFAULT then - EPERM else r
        else r
    | None => r
    end.

(** The result, and whether the mapping was created. *)
Definition VERITY_activate (env : verity_env) (name : option bytes) (params : crypt_params_verity) (root_hash : bytes)
    (signature : bool) (vd : verity_devices) : Z * bool :=
  let r := if negb (Z.land (flags params) CRYPT_VERITY_CHECK_HASH =? 0) then check_hash params root_hash signature vd else 0 in
  if r <? 0 then (r, false)
  else match name with
  | None => (0, false)
  | Some name =>
      if negb (ve_hash_adjust env =? 0) then (ve_hash_adjust env, false)
      else if negb (ve_data_adjust env =? 0) then (ve_data_adjust env, false)
      else
        let fec_r := match vd_fec vd with Some _ => ve_fec_adjust env | None => 0 end in
        if negb (fec_r =? 0) then (fec_r, false)
      else if negb (ve_target_set env =? 0) then (ve_target_set env, false)
      else
        let r := ve_create env in
        let r := if (r <? 0) && (negb (fst (ve_flags env) =? 0) || (Z.land (snd (ve_flags env)) DM_VERITY_SUPPORTED =? 0))
                 then - ENOTSUP else r in
        let r := if (r <? 0) && signature && (Z.land (snd (ve_flags env)) DM_VERITY_SIGNATURE_SUPPORTED =? 0)
                 then - ENOTSUP else r in
        if r <? 0 then (r, false)
        else if ve_status env <? 0 then (ve_status env, true)
        else (0, true)
  end.
End activate.
