(* ===== verification/VerityProps.v ===== *)
(** * VerityProps: the superblock of dm-verity, and activation after a check

    What [VERITY_read_sb] accepts is well formed, what [VERITY_write_sb] writes
    is read back, and a mapping with a requested check is only created after the
    hash tree was verified or its damage repaired. *)

From S2P Require Import Prelude UtilsIO CryptBackend Cstd VerityHash ReedSolomon VerityFec Verity.

(** ** The packed struct *)

(** The sizes of the fields. *)
Record sb_ok (s : verity_sb) : Prop := {
  so_signature : zlen (sb_signature s) = 8;
  so_version : zlen (sb_version s) = 4;
  so_hash_type : zlen (sb_hash_type s) = 4;
  so_uuid : zlen (sb_uuid s) = 16;
  so_algorithm : zlen (sb_algorithm s) = 32;
  so_data_block_size : zlen (sb_data_block_size s) = 4;
  so_hash_block_size : zlen (sb_hash_block_size s) = 4;
  so_data_blocks : zlen (sb_data_blocks s) = 8;
  so_salt_size : zlen (sb_salt_size s) = 2;
  so_pad1 : zlen (sb_pad1 s) = 6;
  so_salt : zlen (sb_salt s) = 256;
  so_pad2 : zlen (sb_pad2 s) = 168;
}.

Lemma sb_of_sb_bytes s : sb_ok s -> sb_of_bytes (sb_bytes s) = s.
Proof.
  intros [H1 H2 H3 H4 H5 H6 H7 H8 H9 H10 H11 H12]. unfold sb_of_bytes, sb_bytes. destruct s; cbn -[mjoin slice] in *.
  f_equal; repeat (erewrite slice_join_tail; [|eassumption|lia]); by apply slice_join_head.
Qed.

Lemma sb_bytes_length s : sb_ok s -> zlen (sb_bytes s) = 512.
Proof.
  intros [H1 H2 H3 H4 H5 H6 H7 H8 H9 H10 H11 H12]. unfold sb_bytes.
  repeat match goal with |- context [mjoin (?a :: ?l)] => change (mjoin (a :: l)) with (a ++ mjoin l) end.
  rewrite !zlen_app. change (zlen (mjoin [])) with 0. lia.
Qed.

Lemma pow2_land x : 0 < x -> Z.land x (x - 1) = 0 -> x = 2 ^ Z.log2 x.
Proof.
  intros Hx Hl. destruct (Z.log2_spec x Hx) as [H1 H2]. destruct (Z.eq_dec x (2 ^ Z.log2 x)) as [|Hne]; [done|].
  assert (Hb : Z.testbit (Z.land x (x - 1)) (Z.log2 x) = true).
  { rewrite Z.land_spec, Z.bit_log2 by done. cbn [andb]. replace (Z.log2 x) with (Z.log2 (x - 1)); [apply Z.bit_log2; pose proof (Z.pow_pos_nonneg 2 (Z.log2 x)); pose proof (Z.log2_nonneg x); lia|].
    apply Z.log2_unique; [apply Z.log2_nonneg|]. lia. }
  rewrite Hl, Z.bits_0 in Hb. done.
Qed.

(** A supported block size: a power of two from 512 bytes to 512 KiB. *)
Definition block_size_ok (x : Z) : Prop := exists k, x = 2 ^ k /\ 9 <= k <= 19.

Lemma block_size_ok_spec x : 0 <= x < 2 ^ 32 -> VERITY_BLOCK_SIZE_OK x = false <-> block_size_ok x.
Proof.
  intros Hx. unfold VERITY_BLOCK_SIZE_OK. rewrite !orb_false_iff, !negb_false_iff, !Z.eqb_eq, !Z.ltb_ge. split.
  - intros [[[_ H1] H2] H3]. rewrite u32_id in H3 by lia. apply pow2_land in H3; [|lia]. exists (Z.log2 x). split; [done|].
    split; [change 9 with (Z.log2 512)|change 19 with (Z.log2 (512 * 1024))]; apply Z.log2_le_mono; lia.
  - intros (k & -> & Hk). assert (Ek : exists j, (j < 20)%nat /\ k = Z.of_nat j) by (exists (Z.to_nat k); lia). destruct Ek as (j & Hj & ->).
    do 20 (destruct j as [|j]; [try lia; repeat split; vm_compute; try reflexivity; discriminate|]). lia.
Qed.

(** Parameters of a device with a superblock. *)
Record verity_params_ok `{CH : CryptHash} (p : crypt_params_verity) : Prop := {
  vo_type : 0 <= hash_type p <= VERITY_MAX_HASH_TYPE;
  vo_data_block : block_size_ok (data_block_size p);
  vo_hash_block : block_size_ok (hash_block_size p);
  vo_data_size : 0 <= data_size p < 2 ^ 64;
  vo_hash : 0 < crypt_hash_size (hash_name p);
  vo_name : no_nul (hash_name p) /\ zlen (hash_name p) <= 32;
  vo_salt : zlen (salt p) = salt_size p /\ salt_size p <= 256;
}.

Section props.
Context `{CHL : CryptHashLaws} `{LUL : LibUuidLaws}.

Lemma le_decode_n n b : zlen b <= n -> 0 <= le_decode b < 2 ^ (8 * n).
Proof.
  intros Hn. pose proof (le_decode_range b) as [A B]. split; [done|]. eapply Z.lt_le_trans; [exact B|].
  apply Z.pow_le_mono_r; unfold zlen in Hn; lia.
Qed.

Lemma cstr_length b : zlen (cstr b) <= zlen b.
Proof. unfold zlen. induction b as [|c b IH]; [done|]. cbn [cstr length]. case_match; cbn [length]; lia. Qed.

Lemma parse_sb_valid b off p0 u p : parse_sb (sb_of_bytes b) off p0 = (0, u, p) -> zlen b = 512 ->
  verity_params_ok p /\ hash_area_offset p = off /\ flags p = flags p0 /\ u = Some (uuid_unparse (slice 16 16 b)).
Proof.
  intros E Hb. unfold parse_sb in E. cbv zeta in E.
  destruct (bool_decide _); [|done]. cbn [negb] in E. destruct (_ =? 1); [|done]. cbn [negb] in E.
  destruct (Z.ltb_spec VERITY_MAX_HASH_TYPE (hash_type (set_hash_type (le_decode (sb_hash_type (sb_of_bytes b))) p0))) as [|Ht]; [done|].
  destruct (_ || _) eqn:Ebs; [done|]. apply orb_false_iff in Ebs as [Ed Eh].
  destruct (Z.leb_spec (crypt_hash_size (hash_name (set_hash_name (cstr (sb_algorithm (sb_of_bytes b)))
    (set_data_size (le_decode (sb_data_blocks (sb_of_bytes b))) (set_block_sizes (le_decode (sb_data_block_size (sb_of_bytes b)))
    (le_decode (sb_hash_block_size (sb_of_bytes b))) (set_hash_type (le_decode (sb_hash_type (sb_of_bytes b))) p0)))))) 0) as [|Hh]; [done|].
  destruct (Z.ltb_spec 256 (salt_size (set_salt_size (le_decode (sb_salt_size (sb_of_bytes b))) (set_hash_name (cstr (sb_algorithm (sb_of_bytes b)))
    (set_data_size (le_decode (sb_data_blocks (sb_of_bytes b))) (set_block_sizes (le_decode (sb_data_block_size (sb_of_bytes b)))
    (le_decode (sb_hash_block_size (sb_of_bytes b))) (set_hash_type (le_decode (sb_hash_type (sb_of_bytes b))) p0))))))) as [|Hs]; [done|].
  injection E as <- <-. cbn -[slice le_decode cstr] in *.
  assert (B : forall o n, 0 <= o -> 0 <= n -> o + n <= 512 -> 0 <= le_decode (slice o n b) < 2 ^ (8 * n)).
  { intros o n Ho Hn Hf. apply le_decode_n. rewrite zlen_slice; lia. }
  split; [|split_and!; done]. split; cbn -[slice le_decode cstr].
  - pose proof (B 12 4 ltac:(lia) ltac:(lia) ltac:(lia)). lia.
  - apply block_size_ok_spec; [by apply B|done].
  - apply block_size_ok_spec; [by apply B|done].
  - by apply B.
  - done.
  - split; [apply cstr_no_nul|]. pose proof (cstr_length (slice 32 32 b)). rewrite zlen_slice in *; lia.
  - pose proof (B 80 2 ltac:(lia) ltac:(lia) ltac:(lia)). split; [|done]. apply zlen_take. rewrite zlen_slice; lia.
Qed.

(** C16: what is read is well formed. Whatever the device holds, when
    [VERITY_read_sb] returns 0 the parameters have a known hash type and
    algorithm, block sizes that are powers of two from 512 bytes to 512 KiB, and
    a salt of at most 256 bytes of which [salt_size] is the length; the offset is
    the one given, and the device has the whole superblock there. *)
Theorem verity_read_sb_valid sd off p0 f u p f' :
  0 < sd_block_size sd -> sd_alignment sd <> 0 -> 0 <= off ->
  VERITY_read_sb sd off p0 f = (0, u, p, f') ->
  verity_params_ok p /\ hash_area_offset p = off /\ Z.land (flags p) CRYPT_VERITY_NO_HEADER = 0 /\
  exists b, b = slice off 512 (f_data f) /\ zlen b = 512 /\ take 8 b = VERITY_SIGNATURE /\ u = Some (uuid_unparse (slice 16 16 b)).
Proof.
  intros Hbs Ha Ho E. unfold VERITY_read_sb in E. destruct (Z.eqb_spec (Z.land (flags p0) CRYPT_VERITY_NO_HEADER) 0) as [Hf|]; [|done].
  cbn [negb] in E. destruct (MISALIGNED_512 off); [done|]. destruct (Z.ltb_spec (sd_fd sd) 0); [done|].
  pose proof (read_lseek_blockwise_spec (sd_fd sd) (sd_block_size sd) (sd_alignment sd) VERITY_SB_SIZE off f ltac:(lia) Hbs Ha ltac:(done) Ho) as R.
  destruct (read_lseek_blockwise _ _ _ _ _ _) as [[n b] f1] eqn:Er. destruct R as (_ & _ & R).
  destruct (Z.ltb_spec n VERITY_SB_SIZE) as [|Hn]; [done|].
  assert (H0 : 0 <= n) by (unfold VERITY_SB_SIZE in Hn; lia).
  apply read_lseek_blockwise_length in Er as [_ Hb]; [|lia|done|done|done|done].
  destruct R as [[-> Eb]|[-> _]]; [|done].
  destruct (parse_sb _ _ _) as [[r u'] p'] eqn:Ep. injection E as -> -> -> <-.
  destruct (parse_sb_valid _ _ _ _ _ Ep Hb) as (V & Eo & Ef & Eu). split; [done|]. split; [done|]. split; [by rewrite Ef|].
  exists b. split; [exact Eb|]. split; [exact Hb|]. split; [|exact Eu].
  unfold parse_sb in Ep. cbv zeta in Ep. destruct (bool_decide (sb_signature (sb_of_bytes b) = VERITY_SIGNATURE)) eqn:Es; [|done].
  apply bool_decide_eq_true in Es. exact Es.
Qed.

(** ** What is written *)

Lemma to_lower_app s rest : no_nul s -> _to_lower (s ++ Byte.x00 :: rest) = map tolower s ++ Byte.x00 :: rest.
Proof.
  intros H. induction H as [|c s Hc H IH]; [by cbn|]. cbn [app _to_lower map]. rewrite bool_decide_eq_false_2 by done.
  rewrite IH. f_equal. unfold tolower. by destruct (isupper c).
Qed.

Lemma tolower_no_nul s : no_nul s -> no_nul (map tolower s).
Proof.
  intros H. apply Forall_map. eapply Forall_impl; [exact H|]. intros c Hc E. unfold tolower, isupper in E.
  destruct (Z.leb_spec 65 (byte_val c)), (Z.leb_spec (byte_val c) 90); cbn [andb] in E; try done.
  apply (f_equal byte_val) in E. rewrite byte_val_of_Z, wrap_id in E by (unfold in_u; lia). change (byte_val Byte.x00) with 0 in E. lia.
Qed.

(** The algorithm field. *)
Lemma algorithm_field s : no_nul s -> zlen s <= 31 ->
  _to_lower (splice 0 s (zeros 32)) = map tolower s ++ zeros (32 - length s) /\ cstr (_to_lower (splice 0 s (zeros 32))) = map tolower s.
Proof.
  intros Hs Hl. unfold zlen in Hl. assert (E : splice 0 s (zeros 32) = s ++ zeros (32 - length s)).
  { unfold splice, zeros. cbn [Z.to_nat take app Nat.add]. by rewrite drop_replicate. }
  assert (Ez : exists k, (32 - length s = S k)%nat) by (exists (31 - length s)%nat; lia). destruct Ez as [k Ek].
  rewrite E, Ek. unfold zeros. cbn [replicate]. rewrite to_lower_app by done. split; [done|].
  apply cstr_app_nul. by apply tolower_no_nul.
Qed.

Lemma le_round n z : 0 <= z < 2 ^ (8 * Z.of_nat n) -> le_decode (le_encode n z) = z.
Proof. intros H. rewrite le_decode_encode. by apply wrap_id. Qed.

(** The parameters that are read back. *)
Definition stored_params (off : Z) (params p0 : crypt_params_verity) : crypt_params_verity :=
  {| hash_name := map tolower (hash_name params); salt := salt params; salt_size := salt_size params; hash_type := hash_type params;
     data_block_size := data_block_size params; hash_block_size := hash_block_size params; data_size := data_size params;
     hash_area_offset := off; fec_area_offset := fec_area_offset p0; fec_roots := fec_roots p0; flags := flags p0 |}.

Lemma make_sb_ok uuid params : zlen uuid = 16 -> verity_params_ok params -> zlen (hash_name params) <= 31 ->
  0 < crypt_hash_size (map tolower (hash_name params)) ->
  exists sb, make_sb uuid params = Some sb /\ sb_ok sb /\ forall off p0, parse_sb sb off p0 = (0, Some (uuid_unparse uuid), stored_params off params p0).
Proof.
  intros Hu V Hn Hh. destruct V as [Ht Hd Hb Hds _ [Hnn _] [Hsl Hs]]. unfold make_sb. cbv zeta. rewrite (proj2 (Z.ltb_ge 256 _)) by done.
  rewrite cstr_id, (take_ge (hash_name params)) by (done || (unfold zlen in Hn; lia)).
  destruct (algorithm_field _ Hnn Hn) as [Ea Ec].
  assert (Es : take (Z.to_nat (salt_size params)) (salt params) = salt params) by (apply take_ge; unfold zlen in Hsl; lia). rewrite Es.
  eexists. split; [done|]. pose proof (zlen_nonneg (salt params)).
  assert (Lz : forall k, zlen (zeros k) = Z.of_nat k) by (intros k; unfold zlen, zeros; by rewrite length_replicate).
  split.
  - split; cbn -[le_encode _to_lower splice zeros]; try done; try (unfold zlen; by rewrite length_le_encode); try apply Lz.
    + rewrite Ea, zlen_app, Lz. unfold zlen in *. rewrite length_map. lia.
    + rewrite zlen_splice by (rewrite ?Lz; lia). apply Lz.
  - intros off p0. unfold parse_sb. cbn -[le_encode le_decode _to_lower splice zeros VERITY_SIGNATURE cstr crypt_hash_size].
    rewrite bool_decide_eq_true_2 by done. cbn [negb]. change (i32 (le_decode (le_encode 4 1)) =? 1) with true. cbn [negb].
    assert (P : forall x, block_size_ok x -> 0 <= x < 2 ^ 32).
    { intros x (k & -> & Hk). split; [lia|]. apply Z.pow_lt_mono_r; lia. }
    rewrite (le_round 4 (hash_type params)), (proj2 (Z.ltb_ge VERITY_MAX_HASH_TYPE _)) by (unfold VERITY_MAX_HASH_TYPE in *; lia).
    rewrite !(le_round 4) by (by apply P). rewrite (proj2 (block_size_ok_spec _ (P _ Hd)) Hd), (proj2 (block_size_ok_spec _ (P _ Hb)) Hb). cbn [orb].
    unfold CryptBackend.crypt_hash_size in *. rewrite Ec. rewrite (proj2 (Z.leb_gt _ 0)) by done.
    rewrite (le_round 2) by lia. rewrite (proj2 (Z.ltb_ge 256 _)) by done. rewrite (le_round 8) by done.
    unfold stored_params. f_equal. f_equal.
    assert (Et : take (Z.to_nat (salt_size params)) (splice 0 (salt params) (zeros 256)) = salt params).
    { unfold splice. change (take (Z.to_nat 0) (zeros 256)) with (@nil byte). cbn [app]. apply take_app_length'. unfold zlen in Hsl. lia. }
    rewrite Et. reflexivity.
Qed.

(** C15: a superblock that is written is read back. Whatever the capitals of the
    algorithm's name, which is stored in lower case, [VERITY_read_sb] finds the
    block sizes, the number of data blocks, the hash type, the salt and the UUID
    that [VERITY_write_sb] was given. No call fails for good. *)
Theorem verity_sb_roundtrip sd off uuid_string uuid params p0 f :
  let bs := Z.min (hash_block_size params) (sd_block_size sd) in
  0 <= sd_fd sd -> 0 < sd_block_size sd -> sd_alignment sd <> 0 -> (bs | f_size f) -> (512 | off) -> 0 <= off -> off + 512 <= f_size f ->
  benign (f_sched f) -> uuid_parse uuid_string = Some uuid -> verity_params_ok params -> zlen (hash_name params) <= 31 ->
  0 < crypt_hash_size (map tolower (hash_name params)) ->
  Z.land (flags params) CRYPT_VERITY_NO_HEADER = 0 -> Z.land (flags p0) CRYPT_VERITY_NO_HEADER = 0 ->
  exists f1 f2, VERITY_write_sb sd off (Some uuid_string) params f = Some (0, f1) /\
    VERITY_read_sb sd off p0 f1 = (0, Some (uuid_unparse uuid), stored_params off params p0, f2) /\ f_data f2 = f_data f1.
Proof.
  intros bs Hfd Hsb Ha Hdiv Hoff Ho Hfit Hb Hu V Hn Hh Hf1 Hf0.
  destruct (make_sb_ok uuid params (uuid_parse_length _ _ Hu) V Hn Hh) as (sb & Es & Hsbok & Hparse).
  pose proof (sb_bytes_length sb Hsbok) as Lsb.
  assert (Hbs : 0 < bs) by (destruct (vo_hash_block _ V) as (k & E & Hk); pose proof (Z.pow_pos_nonneg 2 k); unfold bs; lia).
  unfold VERITY_write_sb. cbn [mbind option_bind]. rewrite Hu, Hf1. change (negb (0 =? 0)) with false. cbv iota. cbv zeta.
  rewrite (proj2 (Z.ltb_ge (sd_fd sd) 0)), Es by done.
  assert (Ebs : (if hash_block_size params <? sd_block_size sd then hash_block_size params else sd_block_size sd) = bs).
  { unfold bs. destruct (Z.ltb_spec (hash_block_size params) (sd_block_size sd)); lia. }
  rewrite Ebs. unfold VERITY_SB_SIZE.
  pose proof (write_lseek_blockwise_spec (sd_fd sd) bs (sd_alignment sd) (sb_bytes sb) 512 off f Hfd Hbs Ha ltac:(done) Lsb Hdiv Ho Hfit) as W.
  destruct (write_lseek_blockwise _ _ _ _ _ _ _) as [n f1]. destruct W as (Hs & k & Hk & Hd & Hr).
  destruct Hr as [[-> ->]|[_ Hnb]]; [|done]. rewrite take_ge in Hd by (unfold zlen in Lsb; lia).
  change (512 <? 512) with false. cbv iota. exists f1.
  unfold VERITY_read_sb. rewrite Hf0. change (negb (0 =? 0)) with false. cbv iota.
  assert (Em : MISALIGNED_512 off = false).
  { unfold MISALIGNED_512. destruct Hoff as [q ->]. change 511 with (Z.ones 9). rewrite Z.land_ones by lia. change (2 ^ 9) with 512. by rewrite Z.mod_mul by lia. }
  rewrite Em. rewrite (proj2 (Z.ltb_ge (sd_fd sd) 0)) by done.
  pose proof (read_lseek_blockwise_spec (sd_fd sd) (sd_block_size sd) (sd_alignment sd) VERITY_SB_SIZE off f1 Hfd Hsb Ha ltac:(done) Ho) as Rd.
  destruct (read_lseek_blockwise _ _ _ _ _ _) as [[n b] f2]. destruct Rd as (_ & Hd2 & R).
  assert (Hsz : f_size f1 = f_size f) by (unfold f_size in *; rewrite Hd; apply zlen_splice; lia).
  destruct R as [[-> ->]|[_ [Hnb|Hsm]]]; [|destruct Hnb; by apply Hs|unfold VERITY_SB_SIZE in Hsm; lia].
  rewrite Z.ltb_irrefl. exists f2. split; [done|]. split; [|done].
  assert (Eb : slice off VERITY_SB_SIZE (f_data f1) = sb_bytes sb).
  { rewrite Hd. unfold VERITY_SB_SIZE. rewrite <-Lsb. apply slice_splice_same; [done|]. unfold f_size in Hfit. lia. }
  by rewrite Eb, sb_of_sb_bytes, Hparse by done.
Qed.
End props.

(** ** Activation *)

(** C17: no mapping without its check. With [CRYPT_VERITY_CHECK_HASH],
    [VERITY_activate] creates a mapping only for a name, without a root hash
    signature, and after [VERITY_verify] returned no error for the data and the
    root hash, or after it returned -EPERM (a wrong block, not a wrong root
    hash), there is a FEC device, and the check of its parity,
    [VERITY_FEC_process], returned no error either. The second case does not
    promise intact data: that check accepts a parity that is missing, and an
    uncorrectable block is not always reported ([fec_missing_parity_accepted],
    [rs_uncorrectable_unreported]). *)
Theorem verity_activate_checked `{CH : CryptHash} env name params root_hash signature vd r :
  Z.land (flags params) CRYPT_VERITY_CHECK_HASH <> 0 ->
  VERITY_activate env name params root_hash signature vd = (r, true) ->
  signature = false /\ is_Some name /\ 0 <= ve_create env /\
  let v := (VERITY_verify params root_hash (vd_size vd) (vd_disks vd)).1 in
  0 <= v \/
  (v = - EPERM /\ exists fec, vd_fec vd = Some fec /\
    0 <= (VERITY_FEC_process params fec (vd_meta_is_fec vd) (vd_meta_size vd) true 0 (vd_stack vd) (vd_io vd)).1.1).
Proof.
  intros Hf. unfold VERITY_activate. rewrite (proj2 (Z.eqb_neq _ 0) Hf). cbn [negb].
  destruct (Z.ltb_spec (check_hash params root_hash signature vd) 0) as [|Hc]; [done|].
  destruct name as [name|]; [|done]. destruct (negb _); [done|]. destruct (negb _); [done|]. cbv zeta. destruct (negb _); [done|].
  destruct (negb _); [done|]. intros E.
  assert (Hcr : 0 <= ve_create env).
  { destruct (Z.ltb_spec (ve_create env) 0) as [Hneg|]; [|done]. exfalso. cbn [andb] in E.
    destruct (negb (fst (ve_flags env) =? 0) || _) in E; cbn [andb] in E.
    - change (- ENOTSUP <? 0) with true in E. cbn [andb] in E. destruct (signature && _) in E; cbn in E; done.
    - rewrite (proj2 (Z.ltb_lt (ve_create env) 0)) in E by done. cbn [andb] in E. destruct (signature && _) in E; [done|].
      by rewrite (proj2 (Z.ltb_lt (ve_create env) 0)) in E. }
  unfold check_hash in Hc. destruct signature; [done|]. split; [done|]. split; [by eexists|]. split; [done|].
  destruct (VERITY_verify params root_hash (vd_size vd) (vd_disks vd)) as [v d]. cbn [fst]. cbv zeta.
  destruct (vd_fec vd) as [fec|]; [|by left].
  destruct (Z.eqb_spec v (- EPERM)) as [->|]; cbn [orb] in Hc.
  - right. split; [done|]. exists fec. split; [done|]. destruct (VERITY_FEC_process _ _ _ _ _ _ _ _) as [[r' e] io]. exact Hc.
  - destruct (Z.eqb_spec v (- EFAULT)) as [->|]; [|by left]. destruct (VERITY_FEC_process _ _ _ _ _ _ _ _) as [[r' e] io]. done.
Qed.

(** ** Examples *)

#[local] Existing Instances fx_hash fx_hash_laws fx_uuid fx_uuid_laws.
Definition fx_sb_device : sb_device := SbDevice 3 512 1.
Definition fx_sb_uuid : bytes := bytes_of_string "0123456789abcdef".
Definition fx_sb_text : bytes := uuid_unparse fx_sb_uuid.
Definition fx_sb_params (flags : Z) : crypt_params_verity :=
  {| hash_name := bytes_of_string "sha256"; salt := bytes_of_string "salt"; salt_size := 4; hash_type := 1; data_block_size := 512;
     hash_block_size := 512; data_size := 2; hash_area_offset := 0; fec_area_offset := 0; fec_roots := 2; flags := flags |}.
Definition fx_sb_file : file := File (zeros 1024) 0 [Xfer 100; Xerr EINTR].

Lemma fx_sb_params_ok flags : verity_params_ok (fx_sb_params flags).
Proof.
  split; cbn -[zlen block_size_ok crypt_hash_size].
  - by split.
  - by exists 9.
  - by exists 9.
  - done.
  - reflexivity.
  - split; [apply (bool_decide_eq_true_1 _); vm_compute; reflexivity|vm_compute; discriminate].
  - split; [reflexivity|discriminate].
Qed.

Lemma verity_sb_roundtrip_witness :
  exists f1 f2, VERITY_write_sb fx_sb_device 512 (Some fx_sb_text) (fx_sb_params 0) fx_sb_file = Some (0, f1) /\
    VERITY_read_sb fx_sb_device 512 (fx_sb_params 0) f1 = (0, Some fx_sb_text, stored_params 512 (fx_sb_params 0) (fx_sb_params 0), f2) /\
    f_data f2 = f_data f1.
Proof.
  apply (verity_sb_roundtrip fx_sb_device 512 fx_sb_text fx_sb_uuid (fx_sb_params 0) (fx_sb_params 0) fx_sb_file);
    try done; try (by exists 2); try (by exists 1); try apply fx_sb_params_ok; try (vm_compute; reflexivity).
  - repeat constructor.
Defined.

Abbreviation fx_sb_written := (default (0, fx_sb_file) (VERITY_write_sb fx_sb_device 512 (Some fx_sb_text) (fx_sb_params 0) fx_sb_file)).2.

Lemma verity_read_sb_valid_witness :
  exists u p f', VERITY_read_sb fx_sb_device 512 (fx_sb_params 0) fx_sb_written = (0, u, p, f') /\ verity_params_ok p.
Proof.
  destruct (VERITY_read_sb fx_sb_device 512 (fx_sb_params 0) fx_sb_written) as [[[r u] p] f'] eqn:E.
  assert (Er : (VERITY_read_sb fx_sb_device 512 (fx_sb_params 0) fx_sb_written).1.1.1 = 0) by (vm_compute; reflexivity).
  rewrite E in Er. cbn [fst] in Er. subst r. exists u, p, f'. split; [reflexivity|].
  exact (proj1 (verity_read_sb_valid fx_sb_device 512 (fx_sb_params 0) fx_sb_written u p f' eq_refl ltac:(discriminate) ltac:(discriminate) E)).
Defined.

(** A device with two blocks of data and its tree. *)
Definition fx_check_disks : disks := Disks (zeros 1024) (Some (zeros 1024)) [].
Abbreviation fx_check_created := (VERITY_create (fx_sb_params CRYPT_VERITY_CHECK_HASH) 32 (inr 1024) fx_check_disks).
Definition fx_verity_env : verity_env :=
  {| ve_hash_adjust := 0; ve_data_adjust := 0; ve_fec_adjust := 0; ve_target_set := 0; ve_create := 0; ve_flags := (0, 0); ve_status := 1 |}.
Definition fx_verity_devices (d : disks) : verity_devices :=
  {| vd_disks := d; vd_size := inr 1024; vd_fec := None; vd_meta_is_fec := false; vd_meta_size := None; vd_io := FecIO [] []; vd_stack := [] |}.

Lemma verity_activate_checked_witness :
  exists root d r, fx_check_created = (0, root, d) /\
    VERITY_activate fx_verity_env (Some fx_sb_uuid) (fx_sb_params CRYPT_VERITY_CHECK_HASH) root false (fx_verity_devices d) = (r, true) /\
    0 <= (VERITY_verify (fx_sb_params CRYPT_VERITY_CHECK_HASH) root (inr 1024) d).1.
Proof.
  assert (A : (VERITY_activate fx_verity_env (Some fx_sb_uuid) (fx_sb_params CRYPT_VERITY_CHECK_HASH) fx_check_created.1.2 false
                (fx_verity_devices fx_check_created.2)).2 = true /\ fx_check_created.1.1 = 0) by (vm_compute; split; reflexivity).
  destruct fx_check_created as [[r0 root] d]. cbn [fst snd] in A. destruct A as [A ->]. exists root, d.
  destruct (VERITY_activate fx_verity_env (Some fx_sb_uuid) (fx_sb_params CRYPT_VERITY_CHECK_HASH) root false (fx_verity_devices d)) as [r c] eqn:E.
  cbn [snd] in A. subst c. exists r. split; [reflexivity|]. split; [reflexivity|].
  destruct (verity_activate_checked fx_verity_env (Some fx_sb_uuid) (fx_sb_params CRYPT_VERITY_CHECK_HASH) root false (fx_verity_devices d) r ltac:(discriminate) E)
    as (_ & _ & _ & H). destruct H as [H|[_ (fec & H & _)]]; [exact H|discriminate H].
Defined.
