(* ===== verification/SetupFormat.v ===== *)
(** * SetupFormat: new devices (lib/setup.c)

    [crypt_format] of the types PLAIN, LUKS1, LUKS2 and loop-AES, and the checks
    of the parameters of VERITY. What is asked of the devices and the kernel is
    in [format_io]; memory for the strings is there. *)

From S2P Require Import Prelude UtilsIO Keyfile CryptBackend UtilsCrypt CryptPlain CryptStorage Cstd JsonC Luks2Json Luks2Keyslot Luks2Edit Luks2Areas Device Integrity Wipe KeyEncryption Luks1 Luks2Format Luks2Disk Luks2KeyslotIo Luks2Info Luks2Token Luks2Convert Setup SetupKeyslot VerityHash Verity Pbkdf DmTable.
From Stdlib Require Import Strings.Byte Ascii.

Local Open Scope string_scope.
Local Open Scope Z_scope.

Definition DEFAULT_DISK_ALIGNMENT : Z := 1048576.
Definition DEFAULT_LOOPAES_CIPHER : string := "aes".

(** [crypt_params_luks1] and [crypt_params_luks2] *)
Record params_luks1 := ParamsLuks1 { p1_hash : option string; p1_data_alignment : Z; p1_data_device : bool }.

Record params_luks2 := ParamsLuks2 {
  p2_pbkdf : option crypt_pbkdf_type;
  p2_integrity : option string;
  (** of [integrity_params]: integrity or a size of its key; a journal's encryption or MAC *)
  p2_integrity_params : option (bool * bool);
  p2_data_alignment : Z;
  p2_data_device : bool;
  p2_sector_size : Z;
  p2_label : option bytes;
  p2_subsystem : option bytes;
}.

(** The devices of the context, whether there is one at all and whether the
    header is detached, and what is asked of them and of the kernel. *)
Record format_io := FormatIo {
  fi_metadata_device : bool;
  fi_detached : bool;
  (** [device_alloc] of the data device in the parameters *)
  fi_device_alloc : Z;
  (** required alignment and offset, in bytes *)
  fi_topology : Z * Z;
  fi_optimal_sector : Z;
  fi_check_access : Z;
  (** [dm_flags] for dm-crypt *)
  fi_dm : Z * Z;
  (** [crypt_cipher_check_kernel] *)
  fi_check_kernel : Z;
  (** [crypt_wipe_device] of a data device that is not the metadata device *)
  fi_wipe_data : Z;
  fi_integrity_format : Z;
  (** size of the metadata device, [device_fallocate], the two salts and a new UUID *)
  fi_mdev_size : option Z;
  fi_fallocate_fails : bool;
  fi_salt1 : bytes;
  fi_salt2 : bytes;
  fi_uuid : bytes;
}.

(** A sector size that is supported. *)
Definition sector_size_ok (sector_size : Z) : bool :=
  negb ((sector_size <? SECTOR_SIZE) || (MAX_SECTOR_SIZE <? sector_size) || negb (NOTPOW2 sector_size =? 0)).

Section format.
Context `{JC : JsonC} `{CH : CryptHash} `{CM : CryptHmac} `{CC : CryptCipher} `{CP : CryptPbkdf} `{LU : LibUuid}.
Variable env : setup_env.
Variable io : format_io.
Let cv : convert_env := se_convert env.
Let env1 : luks1_env := cv_luks1 cv.

Definition set_volume_key (key : option bytes) (cd : crypt_device) : crypt_device :=
  CryptDevice (cd_u cd) key (cd_pbkdf cd) (cd_data_offset cd) (cd_metadata_size cd) (cd_keyslots_size cd).
Definition set_data_offset (offset : Z) (cd : crypt_device) : crypt_device :=
  set_sizes offset (cd_metadata_size cd) (cd_keyslots_size cd) cd.

(** ** Plain and loop-AES *)

Definition _crypt_format_plain (cd : crypt_device) (cipher cipher_mode uuid : option string) (volume_key_size : Z)
    (params : option plain_params) : Z * crypt_device :=
  let sector_size := match params with Some p => pl_sector_size p | None => SECTOR_SIZE end in
  match cipher, cipher_mode with
  | Some c, Some m =>
      if 1024 <? volume_key_size then (- EINVAL, cd)
      else if bool_decide (is_Some uuid) then (- EINVAL, cd)
      else if fi_detached io then (- EINVAL, cd)
      else
        let sector_size := if sector_size =? 0 then SECTOR_SIZE else sector_size in
        if negb (sector_size_ok sector_size) then (- EINVAL, cd)
        else
          let '(r, dev_size) := se_data_size env in
          let offset := match params with Some p => pl_offset p | None => 0 end in
          let dev_size := if offset =? 0 then dev_size else dev_size -64 offset *64 SECTOR_SIZE in
          if (SECTOR_SIZE <? sector_size) && (r =? 0) && negb (dev_size mod sector_size =? 0) then (- EINVAL, cd)
          else
            let hdr := PlainParams (params ≫= pl_hash) offset (match params with Some p => pl_skip p | None => 0 end)
                         (match params with Some p => pl_size p | None => 0 end) sector_size in
            (0, set_volume_key (Some (zeros (Z.to_nat volume_key_size)))
                  (set_u (U_plain hdr (CipherInfo (c ++ "-" ++ m) c m volume_key_size)) cd))
  | _, _ => (- EINVAL, cd)
  end.

(** The mode of loop-AES is known when its key file is. *)
Definition _crypt_format_loopaes (cd : crypt_device) (cipher uuid : option string) (volume_key_size : Z) (params : option plain_params)
    : Z * crypt_device :=
  if negb (fi_metadata_device io) then (- EINVAL, cd)
  else if 1024 <? volume_key_size then (- EINVAL, cd)
  else if bool_decide (is_Some uuid) then (- EINVAL, cd)
  else if fi_detached io then (- EINVAL, cd)
  else
    let hdr := PlainParams (params ≫= pl_hash) (match params with Some p => pl_offset p | None => 0 end)
                 (match params with Some p => pl_skip p | None => 0 end) 0 0 in
    (0, set_u (U_loopaes hdr (CipherInfo "" (default DEFAULT_LOOPAES_CIPHER cipher) "" volume_key_size)) cd).

(** ** LUKS *)

(** The volume key given, or a new one; [None] without memory or random bytes. *)
Definition format_key (volume_key : option bytes) (size : Z) : option bytes :=
  match volume_key with
  | Some k => if alloc_fails (os (ky_disk (cv_keys cv))) size then None else Some (take (Z.to_nat size) k)
  | None => se_generate_key env size
  end.

(** A data device in the parameters makes the header a detached one. *)
Definition data_device (wanted : bool) : Z + bool :=
  if wanted then if fi_device_alloc io <? 0 then inl (- ENOMEM) else inr true else inr (fi_detached io).

(** The data offset of the context, the alignment required and the offset of
    the alignment; [alignment] is the parameters', if there are any. *)
Definition format_alignment (alignment : option Z) (detached : bool) (data_offset : Z) : Z * Z * Z :=
  match alignment with
  | Some a =>
      if detached then ((if data_offset =? 0 then a else data_offset), a *64 SECTOR_SIZE, 0)
      else if negb (a =? 0) then (data_offset, a *64 SECTOR_SIZE, 0)
      else (data_offset, (fi_topology io).1, (fi_topology io).2)
  | None => (data_offset, (fi_topology io).1, (fi_topology io).2)
  end.

(** The alignment must divide the data offset asked for. *)
Definition alignment_conflict (alignment : option Z) (data_offset : Z) : bool :=
  match alignment with
  | Some a => negb (data_offset =? 0) && negb (a =? 0) && negb (data_offset mod a =? 0)
  | None => false
  end.

(** Parameters of the key derivation, when the context's do not do. *)
Definition format_pbkdf (cd : crypt_device) (type : string) : Z * crypt_device :=
  if verify_pbkdf_params (se_pbkdf env) (Some type) (cd_pbkdf cd) =? 0 then (0, cd)
  else
    let '(r, p) := init_pbkdf_type (se_pbkdf env) (cd_pbkdf cd) (Some type) None (Some type) in
    (r, set_pbkdf p cd).

Definition _crypt_format_luks1 (cd : crypt_device) (cipher cipher_mode : option string) (uuid : option bytes) (volume_key : option bytes)
    (volume_key_size : Z) (params : option params_luks1) : M (Z * crypt_device) :=
  match cipher, cipher_mode with
  | Some c, Some m =>
      let alignment := p1_data_alignment <$> params in
      if negb (fi_metadata_device io) then mret (- EINVAL, cd)
      else if alignment_conflict alignment (cd_data_offset cd) then mret (- EINVAL, cd)
      else
        let cd := set_u (U_luks1 (phdr_of_bytes []) None) cd in
        match format_key volume_key volume_key_size with
        | None => mret (- ENOMEM, cd)
        | Some vk =>
            let cd := set_volume_key (Some vk) cd in
            let '(r, cd) := format_pbkdf cd CRYPT_LUKS1 in
            if negb (r =? 0) then mret (r, cd)
            else
              let cd := match params ≫= p1_hash with Some h => set_pbkdf (set_hash h (cd_pbkdf cd)) cd | None => cd end in
              match data_device (match params with Some p => p1_data_device p | None => false end) with
              | inl r => mret (r, cd)
              | inr detached =>
                  let '(data_offset, required_alignment, alignment_offset) := format_alignment alignment detached (cd_data_offset cd) in
                  let cd := set_data_offset data_offset cd in
                  r ← LUKS_check_cipher env1 volume_key_size c m;
                  if r <? 0 then mret (r, cd)
                  else
                    let hash := bytes_of_string (default "" (p_hash (cd_pbkdf cd))) in
                    '(r, hdr, p) ← LUKS_generate_phdr env1 (phdr_of_bytes []) (cd_pbkdf cd) vk (bytes_of_string c) (bytes_of_string m)
                                     hash uuid (data_offset *64 SECTOR_SIZE) alignment_offset required_alignment;
                    let cd := set_pbkdf p (set_luks1 hdr cd) in
                    if r <? 0 then mret (r, cd)
                    else if fi_check_access io <? 0 then mret (fi_check_access io, cd)
                    else
                      r ← LUKS_wipe_header_areas env1 hdr;
                      if r <? 0 then mret (r, cd)
                      else
                        '(r, hdr) ← LUKS_write_phdr env1 hdr;
                        mret (r, set_u (U_luks1 hdr (Some (c ++ "-" ++ m))) cd)
              end
        end
  | _, _ => mret (- EINVAL, cd)
  end.

(** The integrity, with "none" taken away when it has no tags, and the size of
    its key; or an error. *)
Definition format_integrity (params : option params_luks2) (cipher : string) (cipher_mode : option string) (volume_key_size : Z)
    : Z + option string * Z :=
  match params ≫= p2_integrity with
  | None => inr (None, 0)
  | Some integrity =>
      match params ≫= p2_integrity_params with
      | Some (true, _) => inl (- EINVAL)
      | Some (_, true) => inl (- ENOTSUP)
      | _ =>
          let no_tag := INTEGRITY_tag_size (Some integrity) cipher cipher_mode =? 0 in
          if no_tag && negb (integrity =? "none")%string then inl (- EINVAL)
          else
            let integrity := if no_tag then None else Some integrity in
            let key_size := INTEGRITY_key_size integrity in
            if (key_size <? 0) || (i32 volume_key_size <=? key_size) then inl (- EINVAL) else inr (integrity, key_size)
      end
  end.

(** The sector size asked for or detected, before the devices are looked at. *)
Definition format_sector_size (params : option params_luks2) (autodetect : bool) : bool * Z :=
  let given := match params with Some p => p2_sector_size p | None => SECTOR_SIZE end in
  let autodetect := autodetect && negb (match params with Some p => negb (p2_sector_size p =? 0) | None => false end) in
  (autodetect, if autodetect then fi_optimal_sector io else given).

(** An optimal size falls back to 512 when the kernel cannot have it, *)
Definition sector_for_kernel (autodetect : bool) (sector_size : Z) : Z :=
  let '(code, dmc_flags) := fi_dm io in
  if negb (sector_size =? SECTOR_SIZE) && (code =? 0) && negb (has_flag dmc_flags DM_SECTOR_SIZE_SUPPORTED) && autodetect
  then SECTOR_SIZE else sector_size.

(** or the offset of the data, in sectors, or the size of the device are not
    multiples of it. *)
Definition sector_for_device (autodetect : bool) (sector_size data_offset dev_size required_alignment alignment_offset : Z) : Z :=
  if autodetect then
    if negb (data_offset =? 0) && negb (MISALIGNED data_offset sector_size =? 0) then SECTOR_SIZE
    else if negb (MISALIGNED (dev_size -64 required_alignment -64 alignment_offset) sector_size =? 0) then SECTOR_SIZE
    else sector_size
  else sector_size.

(** Whether the cipher can be used, with the kernel or by a trial. *)
Definition format_check_cipher (integrity : option string) (integrity_key_size volume_key_size : Z) (cipher : string)
    (cipher_mode : option string) : M Z :=
  let aead := bool_decide (is_Some integrity) && (integrity_key_size =? 0) in
  if aead && (fi_check_kernel io <? 0) then mret (fi_check_kernel io)
  else if negb aead && negb (crypt_cipher_wrapped_key cipher cipher_mode) && (INTEGRITY_tag_size None cipher cipher_mode =? 0)
  then LUKS_check_cipher env1 (volume_key_size - integrity_key_size) cipher (default "" cipher_mode)
  else mret 0.

(** The environment of a new header: the UUID is the one given, if it parses. *)
Definition format_env_of (cd : crypt_device) (uuid : option bytes) : format_env :=
  FormatEnv (digest_of env cd) (fi_mdev_size io) (fi_fallocate_fails io) (fi_salt1 io) (fi_salt2 io)
    (match uuid with Some s => uuid_unparse <$> uuid_parse s | None => Some (uuid_unparse (fi_uuid io)) end).

(** Nobody is told why a device was refused. *)
Definition map_eacces (r : Z) : Z := if r =? - EACCES then - EINVAL else r.

(** The end of the data device's first sectors and of the metadata of
    dm-integrity. *)
Definition format_tags (cd : crypt_device) (detached : bool) (r : Z) : M Z :=
  if crypt_get_integrity_tag_size cd =? 0 then mret r
  else
    w ← (if detached then mret (fi_wipe_data io)
         else crypt_wipe_device (ky_wipe (cv_keys cv)) CRYPT_WIPE_ZERO (crypt_get_data_offset cd *64 SECTOR_SIZE) (8 * SECTOR_SIZE) (8 * SECTOR_SIZE));
    mret (if w <? 0 then map_eacces w else fi_integrity_format io).

(** From a header in memory to the disk. *)
Definition format_write_luks2 (cd : crypt_device) (hdr : luks2_hdr) (detached : bool) (params : option params_luks2) : M (Z * crypt_device) :=
  let keys := keys_of env cd in
  '(r, hdr) ← (match params with
               | Some p => if bool_decide (is_Some (p2_label p)) || bool_decide (is_Some (p2_subsystem p))
                           then LUKS2_hdr_labels keys hdr (p2_label p) (p2_subsystem p) false else mret (0, hdr)
               | None => mret (0, hdr)
               end);
  if r <? 0 then mret (r, cd)
  else
    r ← LUKS2_wipe_header_areas keys hdr detached;
    if r <? 0 then mret (r, cd)
    else
      r ← format_tags (set_luks2 hdr cd) detached r;
      if r <? 0 then mret (r, cd)
      else
        '(r, hdr) ← LUKS2_hdr_write_force keys hdr;
        mret (if r <? 0 then map_eacces r else r, set_luks2 hdr cd).

(** Data behind the header has to be whole sectors, unless they have tags. *)
Definition data_misaligned (cd : crypt_device) (integrity : option string) (dev_size sector_size : Z) : bool :=
  negb (bool_decide (is_Some integrity)) && (SECTOR_SIZE <? sector_size) &&
  negb ((dev_size -64 crypt_get_data_offset cd *64 SECTOR_SIZE) mod sector_size =? 0).

(** The context's type is set, its key and key derivation are; a header that
    could not be completed is dropped. *)
Definition format_luks2_hdr (cd : crypt_device) (c m : string) (uuid : option bytes) (vk : bytes) (params : option params_luks2)
    (integrity : option string) (integrity_key_size sector_size : Z) (autodetect detached : bool) : M (Z * crypt_device) :=
  let '(data_offset, required_alignment, alignment_offset) :=
    format_alignment (p2_data_alignment <$> params) detached (cd_data_offset cd) in
  let cd := set_data_offset data_offset cd in
  let '(r, dev_size) := se_data_size env in
  if r <? 0 then mret (r, cd)
  else
    let sector_size := sector_for_device autodetect sector_size data_offset dev_size required_alignment alignment_offset in
    r ← format_check_cipher integrity integrity_key_size (zlen vk) c (Some m);
    if r <? 0 then mret (r, cd)
    else
      match LUKS2_generate_hdr (format_env_of cd uuid) empty_hdr vk c m integrity sector_size (data_offset *64 SECTOR_SIZE)
              alignment_offset required_alignment (cd_metadata_size cd) (cd_keyslots_size cd) with
      | None => fun _ => None
      | Some (r, hdr) =>
          if r <? 0 then mret (r, cd)
          else
            let cd := set_luks2 hdr cd in
            if data_misaligned cd integrity dev_size sector_size then mret (- EINVAL, cd)
            else format_write_luks2 cd hdr detached params
      end.

Definition _crypt_format_luks2 (cd : crypt_device) (cipher cipher_mode : option string) (uuid : option bytes) (volume_key : option bytes)
    (volume_key_size : Z) (params : option params_luks2) (sector_size_autodetect : bool) : M (Z * crypt_device) :=
  match cipher, cipher_mode with
  | Some c, Some m =>
      if negb (fi_metadata_device io) then mret (- EINVAL, cd)
      else if alignment_conflict (p2_data_alignment <$> params) (cd_data_offset cd) then mret (- EINVAL, cd)
      else
        let '(autodetect, sector_size) := format_sector_size params sector_size_autodetect in
        if negb (sector_size_ok sector_size) then mret (- EINVAL, cd)
        else
          let sector_size := sector_for_kernel autodetect sector_size in
          match format_integrity params c (Some m) volume_key_size with
          | inl r => mret (r, cd)
          | inr (integrity, integrity_key_size) =>
              if fi_check_access io <? 0 then mret (fi_check_access io, cd)
              else
                let cd := set_u (U_luks2 (Luks2Context empty_hdr None 0 false)) cd in
                match format_key volume_key volume_key_size with
                | None => mret (- ENOMEM, cd)
                | Some vk =>
                    let cd := set_volume_key (Some vk) cd in
                    let '(r, cd) := match params ≫= p2_pbkdf with
                                    | Some p =>
                                        let '(r, p) := crypt_set_pbkdf_type (se_pbkdf env) (cd_pbkdf cd) (cd_type cd) (Some p) in
                                        (r, set_pbkdf p cd)
                                    | None => format_pbkdf cd CRYPT_LUKS2
                                    end in
                    if r <? 0 then mret (r, cd)
                    else match data_device (match params with Some p => p2_data_device p | None => false end) with
                    | inl r => mret (r, cd)
                    | inr detached => format_luks2_hdr cd c m uuid vk params integrity integrity_key_size sector_size autodetect detached
                    end
                end
          end
  | _, _ => mret (- EINVAL, cd)
  end.

(** ** Any type *)

Inductive format_params :=
| F_plain (p : option plain_params)
| F_luks1 (p : option params_luks1)
| F_luks2 (p : option params_luks2)
| F_loopaes (p : option plain_params).

(** After an error the context has no type and no key. *)
Definition format_failed (cd : crypt_device) : crypt_device := set_volume_key None (crypt_set_null_type cd).

(** [_crypt_format] of these types; the UUID of the others is no bytes but a text. *)
Definition _crypt_format (cd : crypt_device) (cipher cipher_mode uuid : option string) (volume_key : option bytes) (volume_key_size : Z)
    (params : format_params) (sector_size_autodetect : bool) : M (Z * crypt_device) :=
  if bool_decide (is_Some (cd_type cd)) then mret (- EINVAL, cd)
  else
    let cd := set_u (U_none None) cd in
    if pe_init_crypto (se_pbkdf env) <? 0 then mret (pe_init_crypto (se_pbkdf env), cd)
    else
      '(r, cd) ← match params with
                 | F_plain p => mret (_crypt_format_plain cd cipher cipher_mode uuid volume_key_size p)
                 | F_loopaes p => mret (_crypt_format_loopaes cd cipher uuid volume_key_size p)
                 | F_luks1 p => _crypt_format_luks1 cd cipher cipher_mode (bytes_of_string <$> uuid) volume_key volume_key_size p
                 | F_luks2 p => _crypt_format_luks2 cd cipher cipher_mode (bytes_of_string <$> uuid) volume_key volume_key_size p
                                  sector_size_autodetect
                 end;
      mret (r, if r <? 0 then format_failed cd else cd).

(** [crypt_format]: of this version, and of programs built for the older one. *)
Definition crypt_format (cd : crypt_device) (cipher cipher_mode uuid : option string) (volume_key : option bytes) (volume_key_size : Z)
    (params : format_params) : M (Z * crypt_device) :=
  _crypt_format cd cipher cipher_mode uuid volume_key volume_key_size params true.
Definition crypt_format_2_0 (cd : crypt_device) (cipher cipher_mode uuid : option string) (volume_key : option bytes) (volume_key_size : Z)
    (params : format_params) : M (Z * crypt_device) :=
  _crypt_format cd cipher cipher_mode uuid volume_key volume_key_size params false.
End format.

(** ** Parameters of VERITY *)

(** The checks before anything is written: the devices' identity, the size of
    the data device and of a hash are given; the result is the size of the data
    in blocks. The blocks of the hash tree are counted with the size of the
    data in the parameters. *)
Definition verity_params_check (has_device detached data_device : bool) (set_data_device : Z) (data_is_hash hash_is_fec data_is_fec : bool)
    (device_size : Z * Z) (hash_size : Z) (fec_device : option Z) (params : crypt_params_verity) : Z + Z :=
  if negb has_device then inl (- EINVAL)
  else if negb data_device && negb detached then inl (- EINVAL)
  else if VERITY_MAX_HASH_TYPE <? hash_type params then inl (- EINVAL)
  else if VERITY_BLOCK_SIZE_OK (data_block_size params) || VERITY_BLOCK_SIZE_OK (hash_block_size params) then inl (- EINVAL)
  else if MISALIGNED_512 (hash_area_offset params) then inl (- EINVAL)
  else if MISALIGNED_512 (fec_area_offset params) then inl (- EINVAL)
  else if data_device && negb (set_data_device =? 0) then inl set_data_device
  else
    let '(r, size) := device_size in
    if (data_size params =? 0) && (r <? 0) then inl r
    else
      let blocks := if data_size params =? 0 then size / data_block_size params else data_size params in
      let data_end := blocks *64 data_block_size params in
      if data_is_hash && (hash_area_offset params <? data_end) then inl (- EINVAL)
      else if hash_size <=? 0 then inl (- EINVAL)
      else match fec_device with
      | None => inr blocks
      | Some r =>
          let hash_blocks_size := VERITY_hash_blocks params hash_size *64 hash_block_size params in
          if r <? 0 then inl (- ENOMEM)
          else if hash_is_fec && (fec_area_offset params <? u64 (hash_area_offset params + hash_blocks_size)) then inl (- EINVAL)
          else if data_is_fec && (fec_area_offset params <? data_end) then inl (- EINVAL)
          else inr blocks
      end.
