(* ===== verification/Tcrypt.v ===== *)
(** * Tcrypt: TrueCrypt and VeraCrypt volumes (lib/tcrypt/tcrypt.c)

    The header of a volume is found by trial: every key derivation that the
    parameters admit gives a key, with which every chain of ciphers is tried
    until the magic shows. Ciphers and key derivation are the back end's. The
    theorems: keys stay in their buffers, and chained CBC, which the library
    does by itself, undoes a reference encryption. *)

From S2P Require Import Prelude UtilsIO CryptBackend Cstd UtilsCrypt Crc32 CryptStorage Device VerityHash DmTable Pbkdf.
From Stdlib Require Import Strings.Byte.

Local Open Scope string_scope.
Local Open Scope Z_scope.

Definition TCRYPT_HDR_SALT_LEN : Z := 64.
Definition TCRYPT_HDR_IV_LEN : Z := 16.
Definition TCRYPT_HDR_LEN : Z := 448.
Definition TCRYPT_HDR_KEY_LEN : Z := 192.
Definition TCRYPT_HDR_MAGIC : string := "TRUE".
Definition VCRYPT_HDR_MAGIC : string := "VERA".
Definition TCRYPT_HDR_HIDDEN_OFFSET_OLD : Z := -1536.
Definition TCRYPT_HDR_HIDDEN_OFFSET : Z := 65536.
Definition TCRYPT_HDR_HIDDEN_OFFSET_BCK : Z := -65536.
Definition TCRYPT_HDR_OFFSET_BCK : Z := -131072.
Definition TCRYPT_HDR_SYSTEM_OFFSET : Z := 31744.
Definition TCRYPT_LRW_IKEY_LEN : Z := 16.
Definition TCRYPT_KEY_POOL_LEN : Z := 64.
Definition VCRYPT_KEY_POOL_LEN : Z := 128.
Definition TCRYPT_KEYFILE_LEN : Z := 1048576.

Definition CRYPT_TCRYPT_LEGACY_MODES : Z := Z.shiftl 1 0.
Definition CRYPT_TCRYPT_HIDDEN_HEADER : Z := Z.shiftl 1 1.
Definition CRYPT_TCRYPT_BACKUP_HEADER : Z := Z.shiftl 1 2.
Definition CRYPT_TCRYPT_SYSTEM_HEADER : Z := Z.shiftl 1 3.
Definition CRYPT_TCRYPT_VERA_MODES : Z := Z.shiftl 1 4.

(** ** Tables *)

Record tcrypt_kdf_entry := Kdf {
  k_legacy : bool; k_veracrypt : bool; k_hash : string; k_iterations : Z; k_pim_const : Z; k_pim_mult : Z }.

Definition tcrypt_kdf : list tcrypt_kdf_entry := [
  Kdf false false "ripemd160" 2000 0 0; Kdf false false "ripemd160" 1000 0 0; Kdf false false "sha512" 1000 0 0;
  Kdf false false "whirlpool" 1000 0 0; Kdf true false "sha1" 2000 0 0; Kdf false true "sha512" 500000 15000 1000;
  Kdf false true "whirlpool" 500000 15000 1000; Kdf false true "sha256" 500000 15000 1000; Kdf false true "sha256" 200000 0 2048;
  Kdf false true "ripemd160" 655331 15000 1000; Kdf false true "ripemd160" 327661 0 2048; Kdf false true "stribog512" 500000 15000 1000 ].

Record tcrypt_alg := Alg { a_name : string; a_key_size : Z; a_iv_size : Z; a_key_offset : Z; a_iv_offset : Z; a_key_extra_size : Z }.

(** The chain's length is that of the list. *)
Record tcrypt_algs := Algs { as_legacy : bool; as_chain_key_size : Z; as_long_name : string; as_mode : string; as_cipher : list tcrypt_alg }.

Definition tcrypt_cipher : list tcrypt_algs :=
  let xts name ko io := Alg name 64 16 ko io 0 in
  let lrw name ko := Alg name 48 16 ko 0 0 in
  let cbc name ko extra := Alg name 32 16 ko 0 extra in
  [ Algs false 64 "aes" "xts-plain64" [xts "aes" 0 32];
    Algs false 64 "serpent" "xts-plain64" [xts "serpent" 0 32];
    Algs false 64 "twofish" "xts-plain64" [xts "twofish" 0 32];
    Algs false 128 "twofish-aes" "xts-plain64" [xts "twofish" 0 64; xts "aes" 32 96];
    Algs false 192 "serpent-twofish-aes" "xts-plain64" [xts "serpent" 0 96; xts "twofish" 32 128; xts "aes" 64 160];
    Algs false 128 "aes-serpent" "xts-plain64" [xts "aes" 0 64; xts "serpent" 32 96];
    Algs false 192 "aes-twofish-serpent" "xts-plain64" [xts "aes" 0 96; xts "twofish" 32 128; xts "serpent" 64 160];
    Algs false 128 "serpent-twofish" "xts-plain64" [xts "serpent" 0 64; xts "twofish" 32 96];
    Algs false 64 "camellia" "xts-plain64" [xts "camellia" 0 32];
    Algs false 64 "kuznyechik" "xts-plain64" [xts "kuznyechik" 0 32];
    Algs false 128 "kuznyechik-camellia" "xts-plain64" [xts "kuznyechik" 0 64; xts "camellia" 32 96];
    Algs false 128 "twofish-kuznyechik" "xts-plain64" [xts "twofish" 0 64; xts "kuznyechik" 32 96];
    Algs false 128 "serpent-camellia" "xts-plain64" [xts "serpent" 0 64; xts "camellia" 32 96];
    Algs false 128 "aes-kuznyechik" "xts-plain64" [xts "aes" 0 64; xts "kuznyechik" 32 96];
    Algs false 192 "camellia-serpent-kuznyechik" "xts-plain64" [xts "camellia" 0 96; xts "serpent" 32 128; xts "kuznyechik" 64 160];
    Algs false 48 "aes" "lrw-benbi" [lrw "aes" 32];
    Algs false 48 "serpent" "lrw-benbi" [lrw "serpent" 32];
    Algs false 48 "twofish" "lrw-benbi" [lrw "twofish" 32];
    Algs false 96 "twofish-aes" "lrw-benbi" [lrw "twofish" 32; lrw "aes" 64];
    Algs false 144 "serpent-twofish-aes" "lrw-benbi" [lrw "serpent" 32; lrw "twofish" 64; lrw "aes" 96];
    Algs false 96 "aes-serpent" "lrw-benbi" [lrw "aes" 32; lrw "serpent" 64];
    Algs false 144 "aes-twofish-serpent" "lrw-benbi" [lrw "aes" 32; lrw "twofish" 64; lrw "serpent" 96];
    Algs false 96 "serpent-twofish" "lrw-benbi" [lrw "serpent" 32; lrw "twofish" 64];
    Algs true (32 + 16 + 16) "aes" "cbc-tcw" [cbc "aes" 32 32];
    Algs true (32 + 16 + 16) "serpent" "cbc-tcw" [cbc "serpent" 32 32];
    Algs true (32 + 16 + 16) "twofish" "cbc-tcw" [cbc "twofish" 32 32];
    Algs true (64 + 16 + 16) "twofish-aes" "cbci-tcrypt" [cbc "twofish" 32 0; cbc "aes" 64 32];
    Algs true (96 + 16 + 16) "serpent-twofish-aes" "cbci-tcrypt" [cbc "serpent" 32 0; cbc "twofish" 64 0; cbc "aes" 96 32];
    Algs true (64 + 16 + 16) "aes-serpent" "cbci-tcrypt" [cbc "aes" 32 0; cbc "serpent" 64 32];
    Algs true (96 + 16 + 16) "aes-twofish-serpent" "cbci-tcrypt" [cbc "aes" 32 0; cbc "twofish" 64 0; cbc "serpent" 96 32];
    Algs true (64 + 16 + 16) "serpent-twofish" "cbci-tcrypt" [cbc "serpent" 32 0; cbc "twofish" 64 32];
    Algs true (16 + 8 + 16) "cast5" "cbc-tcw" [Alg "cast5" 16 8 32 0 24];
    Algs true (24 + 8 + 16) "des3_ede" "cbc-tcw" [Alg "des3_ede" 24 8 32 0 24];
    Algs true (56 + 8 + 16) "blowfish_le" "cbc-tcrypt" [Alg "blowfish_le" 56 8 32 0 24];
    Algs true (88 + 16 + 16) "blowfish_le-aes" "cbc-tcrypt" [Alg "blowfish_le" 56 8 32 0 0; Alg "aes" 32 16 88 0 32];
    Algs true (120 + 16 + 16) "serpent-blowfish_le-aes" "cbc-tcrypt"
      [Alg "serpent" 32 16 32 0 0; Alg "blowfish_le" 56 8 64 0 0; Alg "aes" 32 16 120 0 32] ].

(** ** Headers and parameters *)

(** The decrypted part, in the byte order of the machine. *)
Record tcrypt_phdr := TcryptPhdr {
  th_magic : bytes;
  th_version : Z;
  th_version_tc : Z;
  th_keys_crc32 : Z;
  th_hidden_volume_size : Z;
  th_volume_size : Z;
  th_mk_offset : Z;
  th_mk_size : Z;
  th_flags : Z;
  th_sector_size : Z;
  th_header_crc32 : Z;
  th_keys : bytes;
}.

Definition zero_phdr : tcrypt_phdr := TcryptPhdr (zeros 4) 0 0 0 0 0 0 0 0 0 0 (zeros 256).

(** A key file is its content, or it cannot be read. *)
Record crypt_params_tcrypt := TcryptParams {
  tp_passphrase : bytes;
  tp_keyfiles : list (option bytes);
  tp_hash_name : option string;
  tp_cipher : option string;
  tp_mode : option string;
  tp_key_size : Z;
  tp_flags : Z;
  tp_veracrypt_pim : Z;
}.

Definition has_tflag (params : crypt_params_tcrypt) (f : Z) : bool := has_flag (tp_flags params) f.

Definition get_be (o n : Z) (e : bytes) : Z := be_decode (slice o n e).
Definition crc32_of (buf : bytes) : Z := Z.lxor (crypt_crc32 UINT32_MAX buf) UINT32_MAX.

(** Header and parameters, or an error; the entry of the key derivation may be
    the one that ends the table, which has no hash. *)
Definition TCRYPT_hdr_from_disk (e : bytes) (params : crypt_params_tcrypt) (kdf_index cipher_index : Z) : Z + tcrypt_phdr * crypt_params_tcrypt :=
  let keys := slice 192 256 e in
  if (3 <? get_be 4 2 e) && negb (crc32_of (slice 0 188 e) =? get_be 188 4 e) then inl (- EINVAL)
  else if negb (crc32_of keys =? get_be 8 4 e) then inl (- EINVAL)
  else
    let or_512 v := if v =? 0 then 512 else v in
    let hdr := TcryptPhdr (slice 0 4 e) (get_be 4 2 e) (get_be 6 2 e) (get_be 8 4 e) (get_be 28 8 e) (get_be 36 8 e)
                 (or_512 (get_be 44 8 e)) (get_be 52 8 e) (get_be 60 4 e) (or_512 (get_be 64 4 e)) (get_be 188 4 e) keys in
    match tcrypt_cipher !! Z.to_nat cipher_index with
    | None => inl (- EINVAL)
    | Some c =>
        inr (hdr, TcryptParams [] (tp_keyfiles params) (k_hash <$> tcrypt_kdf !! Z.to_nat kdf_index) (Some (as_long_name c))
                    (Some (as_mode c)) (as_chain_key_size c) (tp_flags params) (tp_veracrypt_pim params))
    end.

(** ** Decryption *)

Definition mode_is (p mode : string) : bool := String.prefix p mode.

(** Up to the first dash *)
Definition before_dash (mode : string) : string :=
  match conv_set 32 not_dash mode with Some (a, _) => a | None => "" end.

Definition reads_within (size off len : Z) : bool := (0 <=? off) && (0 <=? len) && (off + len <=? size).

(** A copy out of a buffer; [None] when it reads outside. *)
Definition copy_from (off len : Z) (buf : bytes) : option bytes :=
  if reads_within (zlen buf) off len then Some (slice off len buf) else None.

(** The key that a cipher takes out of the keys of a header, [None] for a read
    behind them; nothing is written for other modes. *)
Definition TCRYPT_copy_key (alg : tcrypt_alg) (mode : string) (key : bytes) : option bytes :=
  if mode_is "xts" mode then
    let ks2 := a_key_size alg / 2 in
    a ← copy_from (a_key_offset alg) ks2 key; b ← copy_from (a_iv_offset alg) ks2 key; Some (a ++ b)%list
  else if mode_is "lrw" mode then
    let ks2 := a_key_size alg - TCRYPT_LRW_IKEY_LEN in
    a ← copy_from (a_key_offset alg) ks2 key; b ← copy_from 0 TCRYPT_LRW_IKEY_LEN key; Some (a ++ b)%list
  else if mode_is "cbc" mode then
    a ← copy_from (a_key_offset alg) (a_key_size alg) key;
    b ← copy_from (a_iv_offset alg) (a_key_extra_size alg) key; Some (a ++ b)%list
  else Some [].

Definition TCRYPT_swab_le (buf : bytes) : bytes := (rev (take 4 buf) ++ rev (take 4 (drop 4 buf)) ++ drop 8 buf)%list.

Definition xor_with (a b : bytes) : bytes := zip_with byte_xor a b.

Definition TCRYPT_remove_whitening (buf key : bytes) : bytes :=
  imap (fun j b => byte_xor b (nth (j mod 8) key x00)) buf.

Section tcrypt.
Context `{CC : CryptCipher} `{CP : CryptPbkdf}.

(** A block and the vector before it: what it decrypts to and the next vector.
    [f] decrypts the block alone; there is no vector for the back end. *)
Fixpoint cbc_blocks (f : bytes -> Z + bytes) (bs n : nat) (iv buf : bytes) : Z + bytes :=
  match n with
  | O => inr buf
  | S n =>
      match f (take bs buf) with
      | inl r => inl r
      | inr d =>
          match cbc_blocks f bs n (take bs buf) (drop bs buf) with
          | inl r => inl r
          | inr rest => inr (xor_with d iv ++ rest)%list
          end
      end
  end.

(** The blocks of size [bs] of a header. *)
Definition hdr_blocks (bs : Z) : nat := Z.to_nat ((TCRYPT_HDR_LEN + bs - 1) / bs).

Definition decrypt_blowfish_le_cbc (alg : tcrypt_alg) (key buf : bytes) : Z + bytes :=
  match crypt_cipher_init "blowfish" "ecb" (slice (a_key_offset alg) (a_key_size alg) key) with
  | inl r => inl r
  | inr c =>
      cbc_blocks (fun block => match cipher_decrypt c [] (TCRYPT_swab_le block) with inl r => inl r | inr d => inr (TCRYPT_swab_le d) end)
        (Z.to_nat (a_iv_size alg)) (hdr_blocks (a_iv_size alg)) (slice (a_iv_offset alg) (a_iv_size alg) key) buf
  end.

(** A vector for the back end: zeros, ending in 1 for LRW, or from the key. *)
Definition hdr_iv (alg : tcrypt_alg) (mode : string) (key : bytes) : bytes :=
  if mode_is "lrw" mode then (zeros (Z.to_nat (a_iv_size alg - 1)) ++ [x01])%list
  else if mode_is "cbc" mode then slice (a_iv_offset alg) (a_iv_size alg) key
  else zeros (Z.to_nat (a_iv_size alg)).

Definition TCRYPT_decrypt_hdr_one (alg : tcrypt_alg) (mode : string) (key buf : bytes) : Z + bytes :=
  let cbc := mode_is "cbc" mode in
  let buf := if cbc then TCRYPT_remove_whitening buf (drop 8 key) else buf in
  if cbc && (a_name alg =? "blowfish_le")%string then decrypt_blowfish_le_cbc alg key buf
  else
    match crypt_cipher_init (a_name alg) (before_dash mode) (take (Z.to_nat (a_key_size alg)) (default [] (TCRYPT_copy_key alg mode key))) with
    | inl r => inl r
    | inr c => cipher_decrypt c (hdr_iv alg mode key) buf
    end.

(** The ciphers of a chain, in the order of the table, or the first error. *)
Fixpoint init_chain (l : list tcrypt_alg) (key : bytes) : Z + list crypt_cipher :=
  match l with
  | [] => inr []
  | alg :: l =>
      match crypt_cipher_init (a_name alg) "ecb" (slice (a_key_offset alg) (a_key_size alg) key) with
      | inl r => inl r
      | inr c => match init_chain l key with inl r => inl r | inr cs => inr (c :: cs) end
      end
  end.

(** A block through the chain, from its end. *)
Fixpoint chain_decrypt (cs : list crypt_cipher) (block : bytes) : Z + bytes :=
  match cs with
  | [] => inr block
  | c :: cs => match chain_decrypt cs block with inl r => inl r | inr b => cipher_decrypt c [] b end
  end.

Definition TCRYPT_decrypt_cbci (ciphers : tcrypt_algs) (key buf : bytes) : Z + bytes :=
  match as_cipher ciphers with
  | [] => inl (- EINVAL)
  | first :: _ =>
      let bs := a_iv_size first in
      let buf := TCRYPT_remove_whitening buf (drop 8 key) in
      match init_chain (as_cipher ciphers) key with
      | inl r => inl r
      | inr cs => cbc_blocks (chain_decrypt cs) (Z.to_nat bs) (hdr_blocks bs) (slice (a_iv_offset first) bs key) buf
      end
  end.

(** The ciphers of a chain one after the other, from its end. *)
Fixpoint decrypt_chain (l : list tcrypt_alg) (mode : string) (key buf : bytes) : Z + bytes :=
  match l with
  | [] => inr buf
  | alg :: l => match decrypt_chain l mode key buf with inl r => inl r | inr b => TCRYPT_decrypt_hdr_one alg mode key b end
  end.

Definition decrypt_with (algs : tcrypt_algs) (key buf : bytes) : Z + bytes :=
  if mode_is "cbci" (as_mode algs) then TCRYPT_decrypt_cbci algs key buf
  else decrypt_chain (as_cipher algs) (as_mode algs) key buf.

(** Whether a chain is tried. *)
Definition admits (params : crypt_params_tcrypt) (algs : tcrypt_algs) : bool :=
  match tp_cipher params with Some c => strstr c (as_long_name algs) | None => true end &&
  (has_tflag params CRYPT_TCRYPT_LEGACY_MODES || negb (as_legacy algs)).

Definition magic_found (params : crypt_params_tcrypt) (e : bytes) : bool :=
  bool_decide (take 4 e = bytes_of_string TCRYPT_HDR_MAGIC) ||
  (has_tflag params CRYPT_TCRYPT_VERA_MODES && bool_decide (take 4 e = bytes_of_string VCRYPT_HDR_MAGIC)).

(** The index of the first chain that gives the magic, or a code, and the
    header, decrypted then. A back end fails with a negative code. *)
Fixpoint try_ciphers (params : crypt_params_tcrypt) (key : bytes) (l : list tcrypt_algs) (i r : Z) (e : bytes) : Z * bytes :=
  match l with
  | [] => (r, e)
  | algs :: l =>
      if negb (admits params algs) then try_ciphers params key l (i + 1) r e
      else match decrypt_with algs key e with
      | inl r => if r =? - ENOTSUP then (r, e) else try_ciphers params key l (i + 1) (- ENOENT) e
      | inr e' => if magic_found params e' then (i, e') else try_ciphers params key l (i + 1) (- EPERM) e
      end
  end.

Definition TCRYPT_decrypt_hdr (e key : bytes) (params : crypt_params_tcrypt) : Z * bytes :=
  try_ciphers params key tcrypt_cipher 0 (- EINVAL) e.

(** ** Passwords *)

Definition add_at (j : Z) (v : Z) (pool : bytes) : bytes := alter (fun b => byte_of_Z (byte_val b + v)) (Z.to_nat j) pool.

(** The bytes of a key file, from a position in the pool and a checksum. *)
Fixpoint pool_bytes (data : bytes) (len j crc : Z) (pool : bytes) : bytes :=
  match data with
  | [] => pool
  | b :: data =>
      let crc := crypt_crc32 crc [b] in
      let pool := add_at j (Z.shiftr crc 24) pool in
      let pool := add_at (j + 1) (Z.shiftr crc 16) pool in
      let pool := add_at (j + 2) (Z.shiftr crc 8) pool in
      let pool := add_at (j + 3) crc pool in
      pool_bytes data len ((j + 4) mod len) crc pool
  end.

Definition TCRYPT_pool_keyfile (pool : bytes) (keyfile : option bytes) (len : Z) : Z + bytes :=
  match keyfile with
  | None => inl (- EIO)
  | Some data => inr (pool_bytes (take (Z.to_nat TCRYPT_KEYFILE_LEN) data) len 0 UINT32_MAX pool)
  end.

Fixpoint pool_keyfiles (l : list (option bytes)) (len : Z) (pool : bytes) : Z + bytes :=
  match l with
  | [] => inr pool
  | f :: l => match TCRYPT_pool_keyfile pool f len with inl r => inl r | inr pool => pool_keyfiles l len pool end
  end.

Definition kdf_admitted (params : crypt_params_tcrypt) (k : tcrypt_kdf_entry) : bool :=
  match tp_hash_name params with Some h => (h =? k_hash k)%string | None => true end &&
  (has_tflag params CRYPT_TCRYPT_LEGACY_MODES || negb (k_legacy k)) &&
  (has_tflag params CRYPT_TCRYPT_VERA_MODES || negb (k_veracrypt k)) &&
  (negb (has_tflag params CRYPT_TCRYPT_VERA_MODES && negb (tp_veracrypt_pim params =? 0)) || k_veracrypt k).

Definition kdf_iterations (params : crypt_params_tcrypt) (k : tcrypt_kdf_entry) : Z :=
  if has_tflag params CRYPT_TCRYPT_VERA_MODES && negb (tp_veracrypt_pim params =? 0)
  then u32 (k_pim_const k + k_pim_mult k * tp_veracrypt_pim params) else k_iterations k.

(** Code, index of the entry the loop stopped at (the end's if at none) and
    the header. *)
Fixpoint try_kdfs (params : crypt_params_tcrypt) (pwd salt : bytes) (l : list tcrypt_kdf_entry) (i r : Z) (e : bytes) : Z * Z * bytes :=
  match l with
  | [] => (r, i, e)
  | k :: l =>
      if negb (kdf_admitted params k) then try_kdfs params pwd salt l (i + 1) r e
      else
        let '(r, key) := crypt_pbkdf CRYPT_KDF_PBKDF2 (bytes_of_string (k_hash k)) pwd salt TCRYPT_HDR_KEY_LEN (kdf_iterations params k) 0 0 in
        if r <? 0 then try_kdfs params pwd salt l (i + 1) r e
        else
          let '(r, e) := TCRYPT_decrypt_hdr e key params in
          let r := if r =? - ENOENT then - EPERM else r in
          if r =? - EPERM then try_kdfs params pwd salt l (i + 1) r e else (r, i, e)
  end.

(** [buf] is salt and encrypted header. *)
Definition TCRYPT_init_hdr (buf : bytes) (params : crypt_params_tcrypt) : Z + tcrypt_phdr * crypt_params_tcrypt :=
  let size := zlen (tp_passphrase params) in
  let pool_length := if has_tflag params CRYPT_TCRYPT_VERA_MODES && (TCRYPT_KEY_POOL_LEN <? size)
                     then VCRYPT_KEY_POOL_LEN else TCRYPT_KEY_POOL_LEN in
  let passphrase_size := if bool_decide (tp_keyfiles params = []) then size else pool_length in
  if pool_length <? size then inl (- EPERM)
  else match pool_keyfiles (tp_keyfiles params) pool_length (zeros (Z.to_nat VCRYPT_KEY_POOL_LEN)) with
  | inl r => inl r
  | inr pool =>
      let r := if bool_decide (tp_keyfiles params = []) then - EPERM else 0 in
      let pwd := imap (fun i b => byte_of_Z (byte_val b + byte_val (nth i (tp_passphrase params) x00))) pool in
      let '(r, i, e) := try_kdfs params (take (Z.to_nat passphrase_size) pwd) (take 64 buf) tcrypt_kdf 0 r (drop 64 buf) in
      if r <? 0 then inl r else TCRYPT_hdr_from_disk e params i r
  end.

(** ** Reading the header *)

(** The system header lies on the device that holds the partition: [base] is
    that device, [Some None] when none is found, [None] when the device is not a
    partition. *)
Variable os : os_env.

Definition TCRYPT_try_header (devfd offset : Z) (params : crypt_params_tcrypt)
    (r : Z + tcrypt_phdr * crypt_params_tcrypt) : M (Z + tcrypt_phdr * crypt_params_tcrypt) :=
  '(n, buf) ← dev_read os devfd 512 offset;
  mret (if n =? 512 then TCRYPT_init_hdr buf params else r).

Definition TCRYPT_headers (devfd : Z) (params : crypt_params_tcrypt) : M (Z + tcrypt_phdr * crypt_params_tcrypt) :=
  let io := inl (- EIO) in
  if has_tflag params CRYPT_TCRYPT_SYSTEM_HEADER then TCRYPT_try_header devfd TCRYPT_HDR_SYSTEM_OFFSET params io
  else if has_tflag params CRYPT_TCRYPT_HIDDEN_HEADER then
    if has_tflag params CRYPT_TCRYPT_BACKUP_HEADER then TCRYPT_try_header devfd TCRYPT_HDR_HIDDEN_OFFSET_BCK params io
    else
      r ← TCRYPT_try_header devfd TCRYPT_HDR_HIDDEN_OFFSET params io;
      match r with
      | inr _ => mret r
      | inl _ => TCRYPT_try_header devfd TCRYPT_HDR_HIDDEN_OFFSET_OLD params r
      end
  else if has_tflag params CRYPT_TCRYPT_BACKUP_HEADER then TCRYPT_try_header devfd TCRYPT_HDR_OFFSET_BCK params io
  else TCRYPT_try_header devfd 0 params io.

(** Without a result the header is cleared. *)
Definition TCRYPT_read_phdr (base : option (option device)) (params : crypt_params_tcrypt) : M (Z + tcrypt_phdr * crypt_params_tcrypt) :=
  match (if has_tflag params CRYPT_TCRYPT_SYSTEM_HEADER then base else None) with
  | None =>
      devfd ← device_open os O_RDONLY;
      if devfd <? 0 then mret (inl (- EINVAL)) else TCRYPT_headers devfd params
  | Some None => mret (inl (- EINVAL))
  | Some (Some base_device) => fun d =>
      match device_open os O_RDONLY base_device with
      | None => None
      | Some (devfd, base_device) =>
          if devfd <? 0 then Some (inl (- EINVAL), d)
          else match TCRYPT_headers devfd params base_device with Some (r, _) => Some (r, d) | None => None end
      end
  end.
End tcrypt.

(** ** Volume keys *)

Definition TCRYPT_get_algs (cipher mode : option string) : option tcrypt_algs :=
  match cipher, mode with
  | Some c, Some m => find (fun a => (as_long_name a =? c)%string && (as_mode a =? m)%string) tcrypt_cipher
  | _, _ => None
  end.

(** A copy to a position of a buffer; [None] when it leaves the buffer. *)
Definition copy_to (pos : Z) (data buf : bytes) : option bytes :=
  if (0 <=? pos) && (pos + zlen data <=? zlen buf)
  then Some (splice pos data buf) else None.

Fixpoint copy_keys (l : list tcrypt_alg) (mode : string) (keys : bytes) (key_index : Z) (vk : bytes) : option bytes :=
  match l with
  | [] => Some vk
  | alg :: l =>
      match (TCRYPT_copy_key alg mode keys ≫= fun key => copy_to key_index key vk) with
      | Some vk => copy_keys l mode keys (key_index + a_key_size alg) vk
      | None => None
      end
  end.

(** The inner result is [None] for a write behind the key, or a read behind the
    keys of the header. *)
Definition TCRYPT_get_volume_key (hdr : tcrypt_phdr) (params : crypt_params_tcrypt) : Z + option bytes :=
  if th_version hdr =? 0 then inl (- ENOTSUP)
  else match TCRYPT_get_algs (tp_cipher params) (tp_mode params) with
  | None => inl (- EINVAL)
  | Some algs => inr (copy_keys (as_cipher algs) (as_mode algs) (th_keys hdr) 0 (zeros (Z.to_nat (tp_key_size params))))
  end.

(** ** Offsets *)

(** [size] is the device's in bytes, when it is known. *)
Definition hidden_offset (size : option Z) (hdr : tcrypt_phdr) : Z :=
  match size with None => 0 | Some size => u64 (size - th_hidden_volume_size hdr + TCRYPT_HDR_HIDDEN_OFFSET_OLD) / SECTOR_512 end.

Definition TCRYPT_get_data_offset (partition : bool) (size : option Z) (hdr : tcrypt_phdr) (params : crypt_params_tcrypt) : Z :=
  let mk := th_mk_offset hdr / SECTOR_512 in
  let hidden := has_tflag params CRYPT_TCRYPT_HIDDEN_HEADER in
  if th_version hdr =? 0 then mk
  else if has_tflag params CRYPT_TCRYPT_SYSTEM_HEADER then if partition then 0 else mk
  else if match tp_mode params with Some m => mode_is "xts" m | None => false end then
    if th_version hdr <? 3 then 1
    else if hidden then if 3 <? th_version hdr then mk else hidden_offset size hdr
    else mk
  else if hidden then hidden_offset size hdr
  else mk.

Definition TCRYPT_get_iv_offset (partition : bool) (partition_offset : Z) (size : option Z) (hdr : tcrypt_phdr) (params : crypt_params_tcrypt) : Z :=
  let starts p := match tp_mode params with Some m => mode_is p m | None => false end in
  let iv_offset :=
    if starts "xts" then TCRYPT_get_data_offset partition size hdr params
    else if starts "lrw" then 0
    else th_mk_offset hdr / SECTOR_512 in
  if has_tflag params CRYPT_TCRYPT_SYSTEM_HEADER then u64 (iv_offset + partition_offset) else iv_offset.

(** ** Mappings *)

Definition CRYPT_ACTIVATE_SHARED : Z := Z.shiftl 1 2.
Definition CRYPT_ACTIVATE_PRIVATE : Z := Z.shiftl 1 4.
Definition PATH_MAX : Z := 4096.

(** The mapping with a number of a chain. *)
Definition chain_name (name : string) (i : Z) : string := cut PATH_MAX (name ++ "_" ++ dec_i32 i).

(** Mappings of the first [i] ciphers of a chain of [count], the last first: each
    lies on the one before. [create] is dm_create_device; the mappings it was
    asked for are returned with the code. [vk] is the buffer of the key. *)
Fixpoint activate_loop (create : string -> Z -> dm_target -> Z) (dir name : string) (flags size iv_offset : Z) (algs : tcrypt_algs) (keys : bytes)
    (i : nat) (ptr_dev : string) (offset : Z) (vk : bytes) : Z * list (string * Z * dm_target) :=
  match i with
  | O => (0, [])
  | S j =>
      match as_cipher algs !! j with
      | None => (- EINVAL, [])
      | Some alg =>
          let last := (length (as_cipher algs) =? i)%nat in
          let dm_name := if (j =? 0)%nat then cut PATH_MAX name else chain_name name (Z.of_nat j) in
          let dmd_flags := if (j =? 0)%nat then flags else Z.lor flags CRYPT_ACTIVATE_PRIVATE in
          let vk := default vk (TCRYPT_copy_key alg (as_mode algs) keys ≫= fun key => copy_to 0 key vk) in
          let ptr_dev := if last then ptr_dev else cut PATH_MAX (dir ++ "/" ++ name ++ "_" ++ dec_i32 (Z.of_nat i)) in
          let offset := if last then offset else 0 in
          let spec := a_name alg ++ "-" ++ as_mode algs in
          if MAX_CIPHER_LEN * 2 + 1 <=? strlen spec then (- ENOMEM, [])
          else
            let t := dm_crypt_target_set 0 size ptr_dev (DmKey (zlen vk) vk None) spec iv_offset offset None 0 SECTOR_512 in
            let r := create dm_name dmd_flags t in
            if negb (r =? 0) then (r, [(dm_name, dmd_flags, t)])
            else let '(r, l) := activate_loop create dir name flags size iv_offset algs keys j ptr_dev offset vk in
                 (r, (dm_name, dmd_flags, t) :: l)
      end
  end.

(** [adjust] is device_block_adjust with its check for other users, which gives
    the size; [part_device] is the partition that a system header on a whole disk
    leads to; [dmc_flags] is what the kernel supports when that is known. *)
Definition TCRYPT_activate (create : string -> Z -> dm_target -> Z) (adjust : bool -> string -> Z -> Z -> Z + Z) (dir : string)
    (partition : bool) (part_device : Z -> option (option string)) (dmc_flags : option Z)
    (data_device name : string) (offset iv_offset : Z) (hdr : tcrypt_phdr) (params : crypt_params_tcrypt) (flags : Z)
    : Z * list (string * Z * dm_target) :=
  let mode := default "" (tp_mode params) in
  if th_version hdr =? 0 then (- ENOTSUP, [])
  else if negb (th_sector_size hdr mod SECTOR_512 =? 0) then (- ENOTSUP, [])
  else if strstr "-tcrypt" mode then (- ENOTSUP, [])
  else
    let req_flags := if strstr "-tcw" mode then DM_TCW_SUPPORTED else DM_PLAIN64_SUPPORTED in
    match TCRYPT_get_algs (tp_cipher params) (tp_mode params) with
    | None => (- EINVAL, [])
    | Some algs =>
        let size :=
          if has_tflag params CRYPT_TCRYPT_SYSTEM_HEADER then 0
          else if has_tflag params CRYPT_TCRYPT_HIDDEN_HEADER then th_hidden_volume_size hdr / SECTOR_512
          else th_volume_size hdr / SECTOR_512 in
        let excl := negb (has_flag flags CRYPT_ACTIVATE_SHARED) in
        let '(ptr_dev, offset', excl) :=
          if has_tflag params CRYPT_TCRYPT_SYSTEM_HEADER && negb partition then
            match part_device size with
            | Some (Some p) => (p, 0, excl)
            | Some None => (data_device, offset, excl)
            | None => (data_device, offset, false)
            end
          else (data_device, offset, excl) in
        match adjust excl ptr_dev offset' size with
        | inl r => (r, [])
        | inr size =>
            match as_cipher algs with
            | [] => (- EINVAL, [])
            | first :: _ =>
                let '(r, l) := activate_loop create dir name flags size iv_offset algs (th_keys hdr) (length (as_cipher algs)) ptr_dev offset'
                                 (zeros (Z.to_nat (a_key_size first + a_key_extra_size first))) in
                let unsupported := match dmc_flags with None => true | Some f => negb (Z.land f req_flags =? req_flags) end in
                ((if (r <? 0) && unsupported then - ENOTSUP else r), l)
            end
        end
    end.

(** Mappings by name: dm_status_device, the code and UUID of dm_query_device,
    and dm_remove_device, with the names removed so far. *)
Record dm_names := DmNames {
  n_status : string -> Z;
  n_query : string -> Z * option string;
  n_remove : string -> Z;
}.

Definition TCRYPT_remove_one (n : dm_names) (name base_uuid : string) (index : Z) : Z * list string :=
  let dm_name := chain_name name index in
  let r := n_status n dm_name in
  if r <? 0 then (r, [])
  else
    let '(r, uuid) := n_query n dm_name in
    if (r =? 0) && match uuid with Some u => String.prefix base_uuid u | None => false end
    then (n_remove n dm_name, [dm_name]) else (r, []).

Definition TCRYPT_deactivate (n : dm_names) (name : string) : Z * list string :=
  let result r := if r =? - ENODEV then 0 else r in
  let '(r, uuid) := n_query n name in
  if r <? 0 then (r, [])
  else match uuid with
  | None => (- EINVAL, [])
  | Some uuid =>
      let r := n_remove n name in
      if r <? 0 then (result r, [name])
      else
        let '(r, l1) := TCRYPT_remove_one n name uuid 1 in
        if r <? 0 then (result r, name :: l1)
        else
          let '(r, l2) := TCRYPT_remove_one n name uuid 2 in
          (result r, name :: l1 ++ l2)%list
  end.

(** What a query tells of a mapping: [q_crypt] is [None] unless it has one
    segment of dm-crypt; then cipher, key size, offset and device. *)
Record chain_query := ChainQuery { q_uuid : string; q_crypt : option (string * Z * Z * string) }.

(** Key size, cipher, offset and device so far. *)
Definition chain_state : Type := Z * string * Z * option string.

Definition TCRYPT_status_one (status : string -> Z) (query : string -> Z + chain_query) (name base_uuid : string) (index : Z)
    (st : chain_state) : Z * chain_state :=
  let dm_name := chain_name name index in
  let r := status dm_name in
  if r <? 0 then (r, st)
  else match query dm_name with
  | inl r => (r, st)
  | inr q =>
      match q_crypt q with
      | None => (- ENOTSUP, st)
      | Some (spec, key_len, offset, device) =>
          if String.prefix base_uuid (q_uuid q) then
            let '(key_size, cipher, _, _) := st in
            (0, (key_size + key_len, cipher ++ "-" ++ String.substring 0 (Z.to_nat MAX_CIPHER_LEN) (split_first_dash spec).1,
                 u64 (offset * SECTOR_512), Some device))
          else (- ENODEV, st)
      end
  end.

(** From the target of the mapping: cipher, key size, offset. A cipher of 32
    bytes or more fills the buffer without an end; it has none in the model
    either. *)
Definition TCRYPT_init_by_name (status : string -> Z) (query : string -> Z + chain_query) (name uuid spec : string) (key_len offset : Z)
    (device : option string) : Z + crypt_params_tcrypt * tcrypt_phdr * option string :=
  match split_first_dash (String.substring 0 (Z.to_nat MAX_CIPHER_LEN) spec) with
  | (_, None) => inl (- EINVAL)
  | (cipher, Some mode) =>
      let st := (key_len, cipher, u64 (offset * SECTOR_512), device) in
      let '(r, st) := TCRYPT_status_one status query name uuid 1 st in
      let '(r, st) := if r =? 0 then TCRYPT_status_one status query name uuid 2 st else (r, st) in
      if (r <? 0) && negb (r =? - ENODEV) then inl r
      else
        let '(key_size, cipher, mk_offset, device) := st in
        match TCRYPT_get_algs (Some cipher) (Some mode) with
        | None => inl (- EINVAL)
        | Some algs =>
            if negb (key_size =? as_chain_key_size algs) then inl (- EINVAL)
            else inr (TcryptParams [] [] None (Some (as_long_name algs)) (Some (as_mode algs)) (as_chain_key_size algs) 0 0,
                      TcryptPhdr (zeros 4) 0 0 0 0 0 mk_offset 0 0 512 0 (zeros 256), device)
        end
  end.

(** * Properties of TrueCrypt volumes *)

(** ** Keys stay in their buffers *)

(** Where the key of a cipher comes from: offsets and lengths in the keys of the
    header. *)
Definition key_sources (alg : tcrypt_alg) (mode : string) : list (Z * Z) :=
  if mode_is "xts" mode then [(a_key_offset alg, a_key_size alg / 2); (a_iv_offset alg, a_key_size alg / 2)]
  else if mode_is "lrw" mode then [(a_key_offset alg, a_key_size alg - TCRYPT_LRW_IKEY_LEN); (0, TCRYPT_LRW_IKEY_LEN)]
  else if mode_is "cbc" mode then [(a_key_offset alg, a_key_size alg); (a_iv_offset alg, a_key_extra_size alg)]
  else [].

Definition key_piece (keys : bytes) (alg : tcrypt_alg) (mode : string) : bytes :=
  concat ((fun '(off, len) => slice off len keys) <$> key_sources alg mode).

Definition sources_within (size : Z) (alg : tcrypt_alg) (mode : string) : bool :=
  forallb (fun '(off, len) => reads_within size off len) (key_sources alg mode).

Definition piece_size (alg : tcrypt_alg) (mode : string) : Z := foldr Z.add 0 (snd <$> key_sources alg mode).

(** The pieces of a chain lie one behind the other, up to [total]. *)
Fixpoint keys_tile (l : list tcrypt_alg) (mode : string) (size key_index total : Z) : bool :=
  match l with
  | [] => key_index =? total
  | alg :: l' =>
      sources_within size alg mode && (0 <=? key_index) &&
      match l' with
      | [] => key_index + piece_size alg mode =? total
      | _ => (piece_size alg mode =? a_key_size alg) && keys_tile l' mode size (key_index + a_key_size alg) total
      end
  end.

Lemma zlen_reads_within off len (l : bytes) : reads_within (zlen l) off len = true -> zlen (slice off len l) = len.
Proof. unfold reads_within. rewrite !andb_true_iff, !Z.leb_le. intros [[? ?] ?]. apply zlen_slice; lia. Qed.

Lemma copy_key_within alg mode keys : sources_within (zlen keys) alg mode = true ->
  TCRYPT_copy_key alg mode keys = Some (key_piece keys alg mode) /\ zlen (key_piece keys alg mode) = piece_size alg mode.
Proof.
  unfold sources_within, TCRYPT_copy_key, key_piece, piece_size, key_sources, copy_from.
  destruct (mode_is "xts" mode); [|destruct (mode_is "lrw" mode); [|destruct (mode_is "cbc" mode); [|done]]];
    cbn -[reads_within slice]; rewrite !andb_true_iff; intros (Ha & Hb & _); rewrite ?Ha, ?Hb; cbn -[slice]; rewrite app_nil_r; (split; [done|]);
    rewrite zlen_app, !zlen_reads_within by done; lia.
Qed.

Lemma copy_to_fits pos data buf : 0 <= pos -> pos + zlen data <= zlen buf -> copy_to pos data buf = Some (splice pos data buf).
Proof. intros ? ?. unfold copy_to. by rewrite (proj2 (Z.leb_le _ _)), (proj2 (Z.leb_le _ _)) by lia. Qed.

Lemma take_splice (pos : Z) (data buf : bytes) : 0 <= pos -> pos + zlen data <= zlen buf ->
  take (Z.to_nat (pos + zlen data)) (splice pos data buf) = (take (Z.to_nat pos) buf ++ data)%list.
Proof.
  intros ? ?. unfold splice, zlen in *. rewrite app_assoc, take_app_le; [apply take_ge|]; rewrite ?length_app, ?length_take; lia.
Qed.

(** A chain whose pieces tile the key copies them one behind the other. *)
Lemma copy_keys_tile l mode keys total : forall key_index vk,
  keys_tile l mode (zlen keys) key_index total = true -> zlen vk = total ->
  let pieces := concat ((fun a => key_piece keys a mode) <$> l) in
  copy_keys l mode keys key_index vk = Some (take (Z.to_nat key_index) vk ++ pieces)%list /\
  zlen pieces = total - key_index /\ Forall (fun a => sources_within (zlen keys) a mode = true) l.
Proof.
  induction l as [|alg l IH]; intros key_index vk; cbn [keys_tile copy_keys]; cbv zeta.
  { intros <-%Z.eqb_eq Hvk. rewrite app_nil_r, take_ge by (unfold zlen in *; lia). cbn. rewrite Z.sub_diag. done. }
  rewrite !andb_true_iff, Z.leb_le. intros [[Hs Hk] Hr] Hvk.
  destruct (copy_key_within _ _ _ Hs) as [-> Hz]. cbn [mbind option_bind]. rewrite fmap_cons. cbn [concat].
  pose proof (zlen_nonneg (key_piece keys alg mode)) as Hp0.
  destruct l as [|a' l].
  - apply Z.eqb_eq in Hr. rewrite copy_to_fits by lia. cbn [copy_keys fmap list_fmap concat]. rewrite app_nil_r.
    split; [|split; [lia|by constructor]]. f_equal. rewrite <-take_splice by lia. symmetry. apply take_ge.
    pose proof (zlen_splice key_index (key_piece keys alg mode) vk). unfold zlen in *. lia.
  - apply andb_true_iff in Hr as [Hp%Z.eqb_eq Hr].
    destruct (IH _ vk Hr Hvk) as (_ & Hl & HF). pose proof (zlen_nonneg (concat ((fun a => key_piece keys a mode) <$> a' :: l))).
    rewrite copy_to_fits by lia.
    destruct (IH (key_index + a_key_size alg) (splice key_index (key_piece keys alg mode) vk) Hr) as (-> & _ & _).
    { rewrite zlen_splice; lia. }
    split; [|split; [rewrite zlen_app; lia|by constructor]]. by rewrite <-Hp, <-Hz, take_splice, <-app_assoc by lia.
Qed.

Definition key_entry_ok (a : tcrypt_algs) : bool :=
  match TCRYPT_get_algs (Some (as_long_name a)) (Some (as_mode a)) with
  | None => false
  | Some b => (as_chain_key_size b =? as_chain_key_size a) && (0 <=? as_chain_key_size a) &&
              keys_tile (as_cipher b) (as_mode b) 256 0 (as_chain_key_size a)
  end.

Lemma table_keys_fit a : In a tcrypt_cipher -> key_entry_ok a = true.
Proof. intros Ha. assert (forallb key_entry_ok tcrypt_cipher = true) as H by (vm_compute; reflexivity). rewrite forallb_forall in H. by apply H. Qed.

Lemma zlen_zeros_Z n : 0 <= n -> zlen (zeros (Z.to_nat n)) = n.
Proof. intros ?. unfold zlen, zeros. rewrite length_replicate. lia. Qed.

Lemma hdr_from_disk_entry e params k c hdr params' :
  TCRYPT_hdr_from_disk e params k c = inr (hdr, params') ->
  th_keys hdr = slice 192 256 e /\
  exists a, In a tcrypt_cipher /\ tp_cipher params' = Some (as_long_name a) /\ tp_mode params' = Some (as_mode a) /\ tp_key_size params' = as_chain_key_size a.
Proof.
  unfold TCRYPT_hdr_from_disk. destruct (_ && _); [done|]. destruct (negb _); [done|].
  destruct (tcrypt_cipher !! Z.to_nat c) as [a|] eqn:E; [|done]. intros [= <- <-]. split; [done|].
  exists a. split; [|done]. apply list_elem_of_lookup_2, list_elem_of_In in E. done.
Qed.

(** ** Sizes *)

Section sizes.
Context `{CL : CryptCipherLaws} `{PL : CryptPbkdfLaws}.

Lemma zlen_whitening buf key : zlen (TCRYPT_remove_whitening buf key) = zlen buf.
Proof. unfold zlen, TCRYPT_remove_whitening. by rewrite length_imap. Qed.

Lemma zlen_xor_with a b : zlen (xor_with a b) = Z.min (zlen a) (zlen b).
Proof. unfold zlen, xor_with. rewrite length_zip_with. lia. Qed.

Lemma cbc_blocks_size f bs n : (forall b d, f b = inr d -> zlen d = zlen b) ->
  forall iv buf e, cbc_blocks f bs n iv buf = inr e -> zlen iv = Z.of_nat bs -> Z.of_nat n * Z.of_nat bs <= zlen buf -> zlen e = zlen buf.
Proof.
  intros Hf. induction n as [|n IH]; intros iv buf e; cbn; [by intros [= <-]|].
  destruct (f (take bs buf)) as [|d] eqn:Ed; [done|]. destruct (cbc_blocks f bs n _ _) as [|rest] eqn:Er; [done|].
  intros [= <-] Hiv Hl. apply Hf in Ed.
  assert (zlen (take bs buf) = Z.of_nat bs) as Ht by (unfold zlen in *; rewrite length_take; lia).
  apply IH in Er; [|done|unfold zlen in *; rewrite length_drop; lia].
  rewrite zlen_app, zlen_xor_with. unfold zlen in *. rewrite length_drop in Er. lia.
Qed.

Lemma init_chain_ok l key cs : init_chain l key = inr cs -> Forall cipher_ok cs.
Proof.
  revert cs. induction l as [|alg l IH]; intros cs; cbn; [by intros [= <-]|].
  destruct (crypt_cipher_init _ _ _) eqn:E; [done|]. destruct (init_chain l key); [done|]. intros [= <-].
  constructor; [by eapply cipher_init_ok|by apply IH].
Qed.

Lemma chain_decrypt_size cs : Forall cipher_ok cs -> forall b d, chain_decrypt cs b = inr d -> zlen d = zlen b.
Proof.
  induction 1 as [|c cs Hc _ IH]; intros b d; cbn; [by intros [= <-]|].
  destruct (chain_decrypt cs b) as [|b'] eqn:E; [done|]. intros H. apply IH in E. apply (decrypt_size _ Hc) in H. lia.
Qed.
End sizes.

(** ** Headers of a known size *)

(** A header is whole blocks, and its vector lies in the keys. *)
Definition whole_blocks (alg : tcrypt_alg) : bool :=
  (0 <? a_iv_size alg) && (TCRYPT_HDR_LEN mod a_iv_size alg =? 0) && reads_within TCRYPT_HDR_KEY_LEN (a_iv_offset alg) (a_iv_size alg).

Lemma table_whole_blocks a alg : In a tcrypt_cipher -> In alg (as_cipher a) -> whole_blocks alg = true.
Proof.
  intros Ha Halg. assert (forallb (fun a => forallb whole_blocks (as_cipher a)) tcrypt_cipher = true) as H by (vm_compute; reflexivity).
  rewrite forallb_forall in H. specialize (H a Ha). rewrite forallb_forall in H. by apply H.
Qed.

Lemma hdr_blocks_size alg : whole_blocks alg = true ->
  Z.of_nat (hdr_blocks (a_iv_size alg)) * Z.of_nat (Z.to_nat (a_iv_size alg)) = TCRYPT_HDR_LEN /\ 0 < a_iv_size alg.
Proof.
  unfold whole_blocks. rewrite !andb_true_iff, Z.ltb_lt, Z.eqb_eq. intros [[Hp Hm] _]. split; [|done].
  apply Z_div_exact_full_2 in Hm; [|lia]. unfold hdr_blocks.
  assert ((TCRYPT_HDR_LEN + a_iv_size alg - 1) / a_iv_size alg = TCRYPT_HDR_LEN / a_iv_size alg) as ->.
  { rewrite Hm at 1. replace (a_iv_size alg * (TCRYPT_HDR_LEN / a_iv_size alg) + a_iv_size alg - 1)
      with ((a_iv_size alg - 1) + (TCRYPT_HDR_LEN / a_iv_size alg) * a_iv_size alg) by lia.
    rewrite Z.div_add by lia. rewrite Z.div_small by lia. lia. }
  rewrite !Z2Nat.id; [lia|lia|]. apply Z.div_pos; [unfold TCRYPT_HDR_LEN; lia|lia].
Qed.

Section headers.
Context `{CL : CryptCipherLaws} `{PL : CryptPbkdfLaws}.

(** The vector of a cipher, and CBC over a header with it. *)
Lemma hdr_cbc_size alg f key buf e : whole_blocks alg = true -> (forall b d, f b = inr d -> zlen d = zlen b) ->
  zlen key = TCRYPT_HDR_KEY_LEN -> zlen buf = TCRYPT_HDR_LEN ->
  cbc_blocks f (Z.to_nat (a_iv_size alg)) (hdr_blocks (a_iv_size alg)) (slice (a_iv_offset alg) (a_iv_size alg) key) buf = inr e ->
  zlen e = TCRYPT_HDR_LEN.
Proof.
  intros Hw Hf Hk Hb He. destruct (hdr_blocks_size alg Hw) as [Hn Hp]. unfold whole_blocks in Hw. apply andb_true_iff in Hw as [_ Hr].
  rewrite <- Hk in Hr. apply (cbc_blocks_size _ _ _ Hf) in He; [lia| |lia]. rewrite (zlen_reads_within _ _ _ Hr). lia.
Qed.

Lemma swab_le_size b : zlen (TCRYPT_swab_le b) = zlen b.
Proof. unfold TCRYPT_swab_le, zlen. rewrite !length_app, !length_rev, !length_take, !length_drop. lia. Qed.

Lemma decrypt_hdr_one_size alg mode key buf e : whole_blocks alg = true -> zlen key = TCRYPT_HDR_KEY_LEN -> zlen buf = TCRYPT_HDR_LEN ->
  TCRYPT_decrypt_hdr_one alg mode key buf = inr e -> zlen e = TCRYPT_HDR_LEN.
Proof.
  intros Hw Hk Hb. unfold TCRYPT_decrypt_hdr_one.
  set (buf' := if mode_is "cbc" mode then _ else _).
  assert (zlen buf' = TCRYPT_HDR_LEN) as Hb' by (unfold buf'; case_match; [by rewrite zlen_whitening|done]).
  destruct (_ && _).
  - unfold decrypt_blowfish_le_cbc. destruct (crypt_cipher_init _ _ _) as [|c] eqn:Ec; [done|]. apply hdr_cbc_size; [done| |done|done].
    intros b d. destruct (cipher_decrypt c [] _) as [|x] eqn:Ed; [done|]. intros [= <-]. apply (decrypt_size _ (cipher_init_ok _ _ _ _ Ec)) in Ed.
    rewrite swab_le_size in Ed. by rewrite swab_le_size.
  - destruct (crypt_cipher_init _ _ _) as [|c] eqn:Ec; [done|]. intros Hd. apply (decrypt_size _ (cipher_init_ok _ _ _ _ Ec)) in Hd. congruence.
Qed.

Lemma decrypt_chain_size l mode key : zlen key = TCRYPT_HDR_KEY_LEN -> (forall alg, In alg l -> whole_blocks alg = true) ->
  forall buf e, zlen buf = TCRYPT_HDR_LEN -> decrypt_chain l mode key buf = inr e -> zlen e = TCRYPT_HDR_LEN.
Proof.
  intros Hk. induction l as [|alg l IH]; intros Hl buf e Hb; cbn [decrypt_chain]; [by intros [= <-]|].
  destruct (decrypt_chain l mode key buf) as [|b] eqn:E; [done|]. apply IH in E; [|intros; apply Hl; by right|done].
  apply decrypt_hdr_one_size; [apply Hl; by left|done|done].
Qed.

Lemma decrypt_with_size a key buf e : In a tcrypt_cipher -> zlen key = TCRYPT_HDR_KEY_LEN -> zlen buf = TCRYPT_HDR_LEN ->
  decrypt_with a key buf = inr e -> zlen e = TCRYPT_HDR_LEN.
Proof.
  intros Ha Hk Hb. unfold decrypt_with. destruct (mode_is "cbci" (as_mode a)).
  - unfold TCRYPT_decrypt_cbci. destruct (as_cipher a) as [|first l] eqn:El; [done|].
    destruct (init_chain _ _) as [|cs] eqn:Ec; [done|]. apply hdr_cbc_size; try done.
    + apply (table_whole_blocks a); [done|]. rewrite El. by left.
    + apply chain_decrypt_size. by eapply init_chain_ok.
    + by rewrite zlen_whitening.
  - apply decrypt_chain_size; [done| |done]. intros alg. by apply table_whole_blocks.
Qed.

Lemma try_ciphers_size params key l : zlen key = TCRYPT_HDR_KEY_LEN -> incl l tcrypt_cipher ->
  forall i r e r' e', zlen e = TCRYPT_HDR_LEN -> try_ciphers params key l i r e = (r', e') -> zlen e' = TCRYPT_HDR_LEN.
Proof.
  intros Hk. induction l as [|a l IH]; intros Hl i r e r' e' He; cbn [try_ciphers]; [by intros [= _ <-]|].
  apply incl_cons_inv in Hl as [Ha Hl]. specialize (IH Hl).
  destruct (negb _); [by apply IH|]. destruct (decrypt_with a key e) as [x|x] eqn:Ed.
  - destruct (x =? _); [by intros [= _ <-]|by apply IH].
  - destruct (magic_found _ _); [|by apply IH]. intros [= _ <-]. by apply decrypt_with_size in Ed.
Qed.

(** *** Key files and hashes *)

Lemma try_kdfs_none params pwd salt r e l : (forall k, In k l -> kdf_admitted params k = false) ->
  forall i, try_kdfs params pwd salt l i r e = (r, i + zlen l, e).
Proof.
  intros Hl. induction l as [|k l IH]; intros i; cbn [try_kdfs]; [unfold zlen; cbn; by rewrite Z.add_0_r|].
  rewrite Hl by (by left). cbn [negb]. rewrite IH by (intros; apply Hl; by right). unfold zlen. cbn [length]. do 2 f_equal. lia.
Qed.

(** The header is taken as it is on the disk when there are key files and no
    entry has the hash. *)
Theorem unknown_hash_accepts_plain_header buf params h data :
  tp_hash_name params = Some h -> (forall k, In k tcrypt_kdf -> k_hash k <> h) -> tp_keyfiles params = [Some data] ->
  zlen (tp_passphrase params) <= 64 ->
  TCRYPT_init_hdr buf params = TCRYPT_hdr_from_disk (drop 64 buf) params 12 0.
Proof.
  intros Hh Hk Hf Hp. unfold TCRYPT_init_hdr. rewrite Hf. unfold TCRYPT_KEY_POOL_LEN, VCRYPT_KEY_POOL_LEN.
  destruct (Z.ltb_spec 64 (zlen (tp_passphrase params))) as [|_]; [lia|]. rewrite andb_false_r.
  destruct (Z.ltb_spec 64 (zlen (tp_passphrase params))) as [|_]; [lia|]. cbn [pool_keyfiles TCRYPT_pool_keyfile].
  rewrite try_kdfs_none; [reflexivity|]. intros k Hin. unfold kdf_admitted. rewrite Hh.
  destruct (String.eqb_spec h (k_hash k)) as [->|]; [|done]. by apply Hk in Hin.
Qed.

(** *** Sizes *)

Lemma decrypt_hdr_size e key params r' e' : zlen key = TCRYPT_HDR_KEY_LEN -> zlen e = TCRYPT_HDR_LEN ->
  TCRYPT_decrypt_hdr e key params = (r', e') -> zlen e' = TCRYPT_HDR_LEN.
Proof. intros Hk He. unfold TCRYPT_decrypt_hdr. apply (try_ciphers_size params key tcrypt_cipher Hk (incl_refl _) _ _ _ _ _ He). Qed.

Lemma try_kdfs_size params pwd salt l : forall i r e r' i' e', zlen e = TCRYPT_HDR_LEN ->
  try_kdfs params pwd salt l i r e = (r', i', e') -> zlen e' = TCRYPT_HDR_LEN.
Proof.
  induction l as [|k l IH]; intros i r e r' i' e' He; cbn [try_kdfs]; [by intros [= _ _ <-]|].
  destruct (negb _); [by apply IH|]. destruct (crypt_pbkdf _ _ _ _ _ _ _ _) as [r1 key] eqn:Ek. destruct (Z.ltb_spec r1 0) as [|Hr]; [by apply IH|].
  destruct (TCRYPT_decrypt_hdr e key params) as [r2 e2] eqn:Ed.
  assert (zlen key = TCRYPT_HDR_KEY_LEN) as Hk.
  { epose proof (pbkdf_length _ _ _ _ _ _ _ _) as H. rewrite Ek in H. apply H; [unfold TCRYPT_HDR_KEY_LEN; lia|done]. }
  apply (decrypt_hdr_size _ _ _ _ _ Hk He) in Ed.
  destruct (_ =? - EPERM); [by apply IH|]. intros E. by injection E as _ _ <-.
Qed.

(** C35: the volume key of a header that was found (its 512 bytes read from the
    disk) is made of the pieces that the table names for the ciphers of the
    chain, one behind the other and in their order: each piece is read within
    the 256 bytes of keys in the header, and together they are exactly as long
    as the buffer, so that no copy leaves it. *)
Theorem volume_key_fits buf params hdr params' : zlen buf = 512 -> TCRYPT_init_hdr buf params = inr (hdr, params') -> th_version hdr <> 0 ->
  exists algs vk, TCRYPT_get_algs (tp_cipher params') (tp_mode params') = Some algs /\ zlen (th_keys hdr) = 256 /\
    TCRYPT_get_volume_key hdr params' = inr (Some vk) /\
    vk = concat ((fun alg => key_piece (th_keys hdr) alg (as_mode algs)) <$> as_cipher algs) /\
    zlen vk = tp_key_size params' /\
    forall alg off len, In alg (as_cipher algs) -> In (off, len) (key_sources alg (as_mode algs)) ->
      0 <= off /\ 0 <= len /\ off + len <= 256.
Proof.
  intros Hb Hi Hv. unfold TCRYPT_init_hdr in Hi. destruct (_ <? zlen _) in Hi; [done|]. destruct (pool_keyfiles _ _ _) as [|pool]; [done|].
  destruct (try_kdfs _ _ _ _ _ _ _) as [[r i] e] eqn:Et. destruct (r <? 0); [done|].
  apply try_kdfs_size in Et; [|unfold zlen in *; rewrite length_drop; unfold TCRYPT_HDR_LEN; lia].
  apply hdr_from_disk_entry in Hi as (Hkeys & a & Ha & Hc & Hm & Hs). pose proof (table_keys_fit a Ha) as Hf. unfold key_entry_ok in Hf.
  unfold TCRYPT_get_volume_key. rewrite (proj2 (Z.eqb_neq _ _) Hv), Hc, Hm, Hs.
  destruct (TCRYPT_get_algs _ _) as [b|]; [|done]. rewrite !andb_true_iff, Z.leb_le in Hf. destruct Hf as [[_ Hp] Hf].
  assert (zlen (th_keys hdr) = 256) as Hk by (rewrite Hkeys; apply zlen_slice; unfold TCRYPT_HDR_LEN in Et; lia).
  rewrite <- Hk in Hf. apply copy_keys_tile with (vk := zeros (Z.to_nat (as_chain_key_size a))) in Hf as (Hvk & Hz & HF); [|by apply zlen_zeros_Z].
  exists b, (concat ((fun alg => key_piece (th_keys hdr) alg (as_mode b)) <$> as_cipher b)).
  split; [done|]. split; [done|]. split; [by rewrite Hvk|]. split; [done|]. split; [rewrite Hz; lia|].
  intros alg off len Halg Hin. rewrite Forall_forall in HF. apply list_elem_of_In, HF in Halg. unfold sources_within in Halg.
  rewrite forallb_forall in Halg. apply Halg in Hin. unfold reads_within in Hin. lia.
Qed.

(** ** Chained CBC *)

(** A block through the chain, and CBC over blocks by the book. *)
Fixpoint chain_encrypt (cs : list crypt_cipher) (block : bytes) : Z + bytes :=
  match cs with
  | [] => inr block
  | c :: cs => match cipher_encrypt c [] block with inl r => inl r | inr b => chain_encrypt cs b end
  end.

Fixpoint cbc_encrypt (f : bytes -> Z + bytes) (bs n : nat) (iv plain : bytes) : Z + bytes :=
  match n with
  | O => inr []
  | S n =>
      match f (xor_with (take bs plain) iv) with
      | inl r => inl r
      | inr c => match cbc_encrypt f bs n c (drop bs plain) with inl r => inl r | inr rest => inr (c ++ rest)%list end
      end
  end.

(** A header encrypted with a chain, with whitening. *)
Definition encrypt_cbci (a : tcrypt_algs) (key plain : bytes) : Z + bytes :=
  match as_cipher a, init_chain (as_cipher a) key with
  | first :: _, inr cs =>
      match cbc_encrypt (chain_encrypt cs) (Z.to_nat (a_iv_size first)) (hdr_blocks (a_iv_size first))
              (slice (a_iv_offset first) (a_iv_size first) key) plain with
      | inl r => inl r
      | inr e => inr (TCRYPT_remove_whitening e (drop 8 key))
      end
  | _, inl r => inl r
  | [], _ => inl (- EINVAL)
  end.

Lemma chain_encrypt_inverse cs : Forall cipher_ok cs -> forall b e, chain_encrypt cs b = inr e -> zlen e = zlen b /\ chain_decrypt cs e = inr b.
Proof.
  induction 1 as [|c cs Hc _ IH]; intros b e; cbn; [by intros [= <-]|].
  destruct (cipher_encrypt c [] b) as [|x] eqn:Ex; [done|]. intros H. apply (encrypt_inverse _ Hc) in Ex as [Ez Ed].
  apply IH in H as [Hz Hd]. rewrite Hd. split; [lia|done].
Qed.

Lemma xor_with_cancel a b : zlen a = zlen b -> xor_with (xor_with a b) b = a.
Proof.
  unfold zlen, xor_with. intros H. apply Nat2Z.inj in H. revert b H. induction a as [|x a IH]; intros [|y b]; cbn; [done..|].
  intros [= H]. by rewrite byte_xor_cancel, IH.
Qed.

Lemma cbc_inverse f g bs : (forall b e, f b = inr e -> zlen e = zlen b /\ g e = inr b) ->
  forall n iv plain e, zlen iv = Z.of_nat bs -> zlen plain = Z.of_nat n * Z.of_nat bs -> cbc_encrypt f bs n iv plain = inr e ->
  zlen e = zlen plain /\ cbc_blocks g bs n iv e = inr plain.
Proof.
  intros Hf. induction n as [|n IH]; intros iv plain e Hiv Hp; cbn [cbc_encrypt cbc_blocks].
  { intros [= <-]. cbn in Hp. apply zlen_0_nil in Hp. by subst. }
  destruct (f _) as [|c] eqn:Ec; [done|]. destruct (cbc_encrypt _ _ _ _ _) as [|rest] eqn:Er; [done|]. intros [= <-].
  assert (zlen (take bs plain) = Z.of_nat bs) as Ht by (unfold zlen in *; rewrite length_take; lia).
  apply Hf in Ec as [Hc Hg]. rewrite zlen_xor_with, Ht, Hiv, Z.min_id in Hc.
  apply IH in Er as [Hr Hd]; [|done|unfold zlen in *; rewrite length_drop; lia].
  assert (length c = bs) as Hl by (unfold zlen in Hc; lia).
  rewrite take_app_le, drop_app_le, take_ge, drop_ge by lia. cbn [app]. rewrite Hg, Hd, xor_with_cancel by lia. rewrite take_drop. split; [|done].
  rewrite zlen_app, Hr. unfold zlen in *. rewrite length_drop. lia.
Qed.

Lemma whitening_twice buf key : TCRYPT_remove_whitening (TCRYPT_remove_whitening buf key) key = buf.
Proof.
  unfold TCRYPT_remove_whitening. apply list_eq. intros i. rewrite !list_lookup_imap.
  destruct (buf !! i); cbn; [|done]. f_equal. apply byte_xor_cancel.
Qed.

(** C40: [TCRYPT_decrypt_cbci], the library's own CBC over a chain of ciphers, which
    no back end has, undoes the textbook's: of a header encrypted block by block
    through the ciphers of a chain, in their order, chained over the whole chain
    and whitened, it gives the header back, for every such chain of the table. *)
Theorem cbci_decrypts_reference a key plain e :
  In a tcrypt_cipher -> zlen key = TCRYPT_HDR_KEY_LEN -> zlen plain = TCRYPT_HDR_LEN ->
  encrypt_cbci a key plain = inr e -> TCRYPT_decrypt_cbci a key e = inr plain.
Proof.
  intros Ha Hk Hp. unfold encrypt_cbci, TCRYPT_decrypt_cbci. pose proof (table_whole_blocks a) as Hw.
  destruct (as_cipher a) as [|first l]; [by destruct (init_chain _ _)|]. specialize (Hw first Ha (or_introl eq_refl)).
  destruct (init_chain _ _) as [|cs] eqn:Ec; [done|]. destruct (cbc_encrypt _ _ _ _ _) as [|c] eqn:Ee; [done|]. intros [= <-].
  rewrite whitening_twice. destruct (hdr_blocks_size first Hw) as [Hn Hpos].
  unfold whole_blocks in Hw. apply andb_true_iff in Hw as [_ Hr]. rewrite <- Hk in Hr.
  eapply cbc_inverse; [| | |exact Ee].
  - apply chain_encrypt_inverse. by eapply init_chain_ok.
  - rewrite (zlen_reads_within _ _ _ Hr). lia.
  - lia.
Qed.
End headers.

(** ** Examples *)

#[local] Existing Instances fx_hash fx_hash_laws fx_hmac fx_crypt_pbkdf fx_pbkdf_laws.

(** A cipher of any name. *)
#[local] Instance fx_ciphers : CryptCipher := { crypt_cipher_init name mode key := inr (fx_cipher_ctx key) }.
#[local] Instance fx_ciphers_laws : CryptCipherLaws.
Proof. intros name mode key c. cbn. intros [= <-]. apply fx_cipher_ctx_ok. Qed.

(** A header in the clear, with the checksum of its keys. *)
Definition fx_tcrypt_header : bytes :=
  (zeros 64 ++ bytes_of_string TCRYPT_HDR_MAGIC ++ be_encode 2 3 ++ be_encode 2 0 ++ be_encode 4 (crc32_of (zeros 256)) ++ zeros 436)%list.
Definition fx_tcrypt_params : crypt_params_tcrypt := TcryptParams [] [Some [x01]] (Some "none") None None 0 0 0.

Lemma volume_key_fits_witness :
  match TCRYPT_init_hdr fx_tcrypt_header fx_tcrypt_params with
  | inr (hdr, params) => exists algs vk, TCRYPT_get_volume_key hdr params = inr (Some vk) /\
      vk = concat ((fun alg => key_piece (th_keys hdr) alg (as_mode algs)) <$> as_cipher algs) /\ zlen vk = tp_key_size params
  | inl _ => False
  end.
Proof.
  destruct (TCRYPT_init_hdr fx_tcrypt_header fx_tcrypt_params) as [r|[hdr params]] eqn:E.
  - exfalso. vm_compute in E. discriminate E.
  - assert ((match TCRYPT_init_hdr fx_tcrypt_header fx_tcrypt_params with inr (h, _) => th_version h | inl _ => 0 end) = 3) as H by (vm_compute; reflexivity).
    rewrite E in H. assert (Hv : th_version hdr <> 0) by (rewrite H; discriminate).
    assert (Hb : zlen fx_tcrypt_header = 512) by (vm_compute; reflexivity).
    destruct (volume_key_fits fx_tcrypt_header fx_tcrypt_params hdr params Hb E Hv) as (algs & vk & _ & _ & Hvk & Hp & Hz & _).
    exists algs, vk. exact (conj Hvk (conj Hp Hz)).
Defined.

Definition fx_chain : tcrypt_algs := default (Algs false 0 "" "" []) (tcrypt_cipher !! 27%nat).

Lemma cbci_decrypts_reference_witness :
  match encrypt_cbci fx_chain (replicate 192 x07) (replicate 448 x21) with
  | inr e => TCRYPT_decrypt_cbci fx_chain (replicate 192 x07) e = inr (replicate 448 x21) /\ e <> replicate 448 x21
  | inl _ => False
  end.
Proof.
  destruct (encrypt_cbci fx_chain (replicate 192 x07) (replicate 448 x21)) as [r|e] eqn:E.
  - exfalso. vm_compute in E. discriminate E.
  - split.
    + apply cbci_decrypts_reference; [|reflexivity|reflexivity|exact E]. apply list_elem_of_In, list_elem_of_lookup_2 with 27%nat. reflexivity.
    + intros ->. vm_compute in E. discriminate E.
Defined.
