(* ===== verification/Bitlk.v ===== *)
(** * Bitlk: BitLocker volumes (lib/bitlk/bitlk.c)

    The metadata of a volume as entries within entries, the keys that protect
    the volume's key, and the table of segments a volume is mapped with. Hash,
    AES-CCM and libuuid are parameters; iconv(3) is defined for the two
    encodings in use. Memory outside of an object is [Crash], as in [DmQuery].
    What is read from the metadata is little-endian; so is the machine. *)

From S2P Require Import Prelude UtilsIO CryptBackend Cstd UtilsCrypt Device VerityHash DmTable DmQuery Pbkdf.
From Stdlib Require Import Ascii Strings.Byte Permutation.

Local Open Scope string_scope.
Local Open Scope Z_scope.

Definition BITLK_BOOTCODE_V1 : bytes := [xeb; x52; x90].
Definition BITLK_BOOTCODE_V2 : bytes := [xeb; x58; x90].
Definition BITLK_SIGNATURE : bytes := bytes_of_string "-FVE-FS-".
Definition BITLK_SIGNATURE_TOGO : bytes := bytes_of_string "MSWIN4.1".
Definition BITLK_HEADER_METADATA_OFFSET : Z := 160.
Definition BITLK_HEADER_METADATA_OFFSET_TOGO : Z := 424.
Definition BITLK_FVE_METADATA_BLOCK_HEADER_LEN : Z := 64.
Definition BITLK_FVE_METADATA_HEADER_LEN : Z := 48.
Definition BITLK_FVE_METADATA_HEADERS_LEN : Z := BITLK_FVE_METADATA_BLOCK_HEADER_LEN + BITLK_FVE_METADATA_HEADER_LEN.
Definition BITLK_FVE_METADATA_SIZE : Z := 64 * 1024.
Definition BITLK_ENTRY_HEADER_LEN : Z := 8.
Definition BITLK_VMK_HEADER_LEN : Z := 28.
Definition BITLK_OPEN_KEY_METADATA_LEN : Z := 12.
Definition BITLK_RECOVERY_KEY_LEN : Z := 55.
Definition BITLK_RECOVERY_PARTS : nat := 8.
Definition BITLK_RECOVERY_PART_LEN : Z := 6.
Definition BITLK_BEK_FILE_HEADER_LEN : Z := 48.
Definition BITLK_STARTUP_KEY_HEADER_LEN : Z := 24.
Definition BITLK_KDF_HASH : bytes := bytes_of_string "sha256".
Definition BITLK_KDF_ITERATION_COUNT : Z := 0x100000.
Definition MAX_BITLK_SEGMENTS : Z := 10.
Definition EPOCH_AS_FILETIME : Z := 116444736000000000.
Definition HUNDREDS_OF_NANOSECONDS : Z := 10000000.
Definition BITLK_NONCE_SIZE : Z := 12.
Definition BITLK_SALT_SIZE : Z := 16.
Definition BITLK_VMK_MAC_TAG_SIZE : Z := 16.
Definition BITLK_STATE_NORMAL : Z := 4.
Definition EILSEQ : Z := 84.

Definition BITLK_GUID_NORMAL : bytes := [x3b; xd6; x67; x49; x29; x2e; xd8; x4a; x83; x99; xf6; xa3; x39; xe3; xd0; x01].
Definition BITLK_GUID_EOW : bytes := [x3b; x4d; xa8; x92; x80; xdd; x0e; x4d; x9e; x4e; xb1; xe3; x28; x4e; xae; xd8].

Inductive BITLKEncryptionType := BITLK_ENCRYPTION_TYPE_NORMAL | BITLK_ENCRYPTION_TYPE_EOW | BITLK_ENCRYPTION_TYPE_UNKNOWN.

Inductive BITLKVMKProtection :=
| BITLK_PROTECTION_CLEAR_KEY | BITLK_PROTECTION_TPM | BITLK_PROTECTION_STARTUP_KEY | BITLK_PROTECTION_TPM_PIN
| BITLK_PROTECTION_RECOVERY_PASSPHRASE | BITLK_PROTECTION_PASSPHRASE | BITLK_PROTECTION_SMART_CARD | BITLK_PROTECTION_UNKNOWN.
#[export] Instance BITLKVMKProtection_eq_dec : EqDecision BITLKVMKProtection. Proof. solve_decision. Defined.
#[export] Instance BITLKEncryptionType_eq_dec : EqDecision BITLKEncryptionType. Proof. solve_decision. Defined.

(** Entry types *)
Definition BITLK_ENTRY_TYPE_PROPERTY : Z := 0.
Definition BITLK_ENTRY_TYPE_VMK : Z := 2.
Definition BITLK_ENTRY_TYPE_FVEK : Z := 3.
Definition BITLK_ENTRY_TYPE_STARTUP_KEY : Z := 6.
Definition BITLK_ENTRY_TYPE_DESCRIPTION : Z := 7.
Definition BITLK_ENTRY_TYPE_VOLUME_HEADER : Z := 15.
(** Entry values *)
Definition BITLK_ENTRY_VALUE_KEY : Z := 1.
Definition BITLK_ENTRY_VALUE_STRING : Z := 2.
Definition BITLK_ENTRY_VALUE_STRETCH_KEY : Z := 3.
Definition BITLK_ENTRY_VALUE_USE_KEY : Z := 4.
Definition BITLK_ENTRY_VALUE_ENCRYPTED_KEY : Z := 5.
Definition BITLK_ENTRY_VALUE_EXTERNAL_KEY : Z := 9.
Definition BITLK_ENTRY_VALUE_RECOVERY_TIME : Z := 0x15.

Definition get_vmk_protection (protection : Z) : BITLKVMKProtection :=
  if protection =? 0 then BITLK_PROTECTION_CLEAR_KEY
  else if protection =? 0x0100 then BITLK_PROTECTION_TPM
  else if protection =? 0x0200 then BITLK_PROTECTION_STARTUP_KEY
  else if protection =? 0x0500 then BITLK_PROTECTION_TPM_PIN
  else if protection =? 0x0800 then BITLK_PROTECTION_RECOVERY_PASSPHRASE
  else if protection =? 0x1000 then BITLK_PROTECTION_SMART_CARD
  else if protection =? 0x2000 then BITLK_PROTECTION_PASSPHRASE
  else BITLK_PROTECTION_UNKNOWN.

Definition filetime_to_unixtime (time : Z) : Z := u64 (time - EPOCH_AS_FILETIME) / HUNDREDS_OF_NANOSECONDS.

(** A chain of encrypted keys is a list. *)
Record bitlk_vmk := BitlkVmk {
  v_guid : bytes;
  v_name : option bytes;
  v_protection : BITLKVMKProtection;
  v_salt : bytes;
  v_mac_tag : bytes;
  v_nonce : bytes;
  v_vk : list bytes;
}.

Record bitlk_fvek := BitlkFvek { f_mac_tag : bytes; f_nonce : bytes; f_vk : bytes }.

Record bitlk_metadata := BitlkMetadata {
  bm_sector_size : Z;
  bm_togo : bool;
  bm_state : bool;
  bm_type : BITLKEncryptionType;
  bm_cipher : string;
  bm_cipher_mode : string;
  bm_key_size : Z;
  bm_guid : bytes;
  bm_creation_time : Z;
  bm_description : option bytes;
  bm_metadata_offset : list Z;
  bm_metadata_version : Z;
  bm_volume_header_offset : Z;
  bm_volume_header_size : Z;
  bm_vmks : list bitlk_vmk;
  bm_fvek : option bitlk_fvek;
}.

(** ** Memory *)

(** [n] bytes at an offset, and a 16-bit number. *)
Definition rd (data : bytes) (off n : Z) : outcome bytes :=
  if (0 <=? off) && (0 <=? n) && (off + n <=? zlen data) then Ok (slice off n data) else Crash.
Definition rd16 (data : bytes) (off : Z) : outcome Z := b ← rd data off 2; Ok (le_decode b).

(** crypt_alloc_volume_key of a part of a buffer; a negative size is a huge one. *)
Definition key_part (data : bytes) (off n : Z) : outcome bytes := if n <? 0 then Err (- ENOMEM) else rd data off n.

(** ** Encodings *)

(** A code point in UTF-8 and in UTF-16LE. *)
Definition utf8_encode (c : Z) : bytes :=
  if c <? 0x80 then [byte_of_Z c]
  else if c <? 0x800 then [byte_of_Z (0xc0 + c / 64); byte_of_Z (0x80 + c mod 64)]
  else if c <? 0x10000 then [byte_of_Z (0xe0 + c / 4096); byte_of_Z (0x80 + c / 64 mod 64); byte_of_Z (0x80 + c mod 64)]
  else [byte_of_Z (0xf0 + c / 262144); byte_of_Z (0x80 + c / 4096 mod 64); byte_of_Z (0x80 + c / 64 mod 64); byte_of_Z (0x80 + c mod 64)].

Definition utf16le_encode (c : Z) : bytes :=
  if c <? 0x10000 then le_encode 2 c
  else le_encode 2 (0xd800 + (c - 0x10000) / 1024) ++ le_encode 2 (0xdc00 + (c - 0x10000) mod 1024).

Definition is_surrogate (c : Z) : bool := (0xd800 <=? c) && (c <? 0xe000).

(** The code points of UTF-16LE; [None] when it is malformed or cut. *)
Fixpoint utf16le_decode (b : bytes) : option (list Z) :=
  match b with
  | [] => Some []
  | b0 :: b1 :: b =>
      let c := le_decode [b0; b1] in
      if negb (is_surrogate c) then cs ← utf16le_decode b; Some (c :: cs)
      else match b with
      | b2 :: b3 :: b =>
          let d := le_decode [b2; b3] in
          if (c <? 0xdc00) && (0xdc00 <=? d) && (d <? 0xe000)
          then cs ← utf16le_decode b; Some (0x10000 + (c - 0xd800) * 1024 + (d - 0xdc00) :: cs)
          else None
      | _ => None
      end
  | _ => None
  end.

(** Of UTF-8: a code or the points; a sequence that is cut is not EILSEQ but
    EINVAL. *)
Definition cont (b : byte) : bool := (0x80 <=? byte_val b) && (byte_val b <? 0xc0).

Fixpoint utf8_decode (b : bytes) : Z + list Z :=
  let add c (r : Z + list Z) := match r with inl e => inl e | inr cs => inr (c :: cs) end in
  match b with
  | [] => inr []
  | b0 :: b =>
      let c0 := byte_val b0 in
      if c0 <? 0x80 then add c0 (utf8_decode b)
      else if (c0 <? 0xc2) || (0xf5 <=? c0) then inl EILSEQ
      else match b with
      | [] => inl EINVAL
      | b1 :: b =>
          if negb (cont b1) then inl EILSEQ
          else if c0 <? 0xe0 then add ((c0 - 0xc0) * 64 + (byte_val b1 - 0x80)) (utf8_decode b)
          else match b with
          | [] => inl EINVAL
          | b2 :: b =>
              if negb (cont b2) then inl EILSEQ
              else
                let c2 := (byte_val b1 - 0x80) * 64 + (byte_val b2 - 0x80) in
                if c0 <? 0xf0 then
                  let c := (c0 - 0xe0) * 4096 + c2 in
                  if (c <? 0x800) || is_surrogate c then inl EILSEQ else add c (utf8_decode b)
                else match b with
                | [] => inl EINVAL
                | b3 :: b =>
                    if negb (cont b3) then inl EILSEQ
                    else
                      let c := (c0 - 0xf0) * 262144 + c2 * 64 + (byte_val b3 - 0x80) in
                      if (c <? 0x10000) || (0x10ffff <? c) then inl EILSEQ else add c (utf8_decode b)
                end
          end
      end
  end.

(** The string in an output buffer of the size of the input, which may leave no
    room for its end; none when it does not fit or is malformed. *)
Definition convert_to_utf8 (data : bytes) (off inlen : Z) : outcome (option bytes) :=
  input ← key_part data off inlen;
  match utf16le_decode input with
  | None => Ok None
  | Some cs =>
      let out := mjoin (utf8_encode <$> cs) in
      if inlen <? zlen out then Ok None
      else
        let buf := (out ++ zeros (Z.to_nat (inlen - zlen out)))%list in
        if zlen (cstr buf) <? inlen then Ok (Some (cstr buf)) else Crash
  end.

(** A buffer of twice the size of the input, the rest of which is zeros. *)
Definition passphrase_to_utf16 (input : bytes) : outcome bytes :=
  match utf8_decode input with
  | inl e => Err (- e)
  | inr cs =>
      let out := mjoin (utf16le_encode <$> cs) in
      Ok (out ++ zeros (Z.to_nat (zlen input * 2 - zlen out)))%list
  end.

(** AES-CCM of the back ends: key, data, nonce and tag. *)
Class BitlkDecrypt := crypt_bitlk_decrypt_key : bytes -> bytes -> bytes -> bytes -> Z + bytes.
Class BitlkDecryptLaws `{BD : BitlkDecrypt} : Prop :=
  bitlk_decrypt_size : forall key enc iv tag out, crypt_bitlk_decrypt_key key enc iv tag = inr out -> zlen out = zlen enc.

Section bitlk.
Context `{CH : CryptHash} `{LU : LibUuid} `{BD : BitlkDecrypt}.

(** The first three fields change their byte order. *)
Definition guid_to_string (guid : bytes) : bytes :=
  uuid_unparse (reverse (slice 0 4 guid) ++ reverse (slice 4 2 guid) ++ reverse (slice 6 2 guid) ++ slice 8 8 guid).

(** ** Metadata *)

Definition supported (p : BITLKVMKProtection) : bool :=
  bool_decide (p = BITLK_PROTECTION_PASSPHRASE) || bool_decide (p = BITLK_PROTECTION_RECOVERY_PASSPHRASE) ||
  bool_decide (p = BITLK_PROTECTION_STARTUP_KEY).

(** One entry of a VMK: its size, type and value are known. *)
Definition vmk_entry (data : bytes) (start size type value : Z) (vmk : bitlk_vmk) : outcome bitlk_vmk :=
  let p := v_protection vmk in
  _ ← require (negb (negb (type =? BITLK_ENTRY_TYPE_PROPERTY) && supported p)) (- EINVAL);
  if value =? BITLK_ENTRY_VALUE_STRETCH_KEY then
    salt ← rd data (start + BITLK_ENTRY_HEADER_LEN + 4) BITLK_SALT_SIZE;
    Ok (BitlkVmk (v_guid vmk) (v_name vmk) p salt (v_mac_tag vmk) (v_nonce vmk) (v_vk vmk))
  else if value =? BITLK_ENTRY_VALUE_ENCRYPTED_KEY then
    nonce ← rd data (start + BITLK_ENTRY_HEADER_LEN) BITLK_NONCE_SIZE;
    mac_tag ← rd data (start + BITLK_ENTRY_HEADER_LEN + BITLK_NONCE_SIZE) BITLK_VMK_MAC_TAG_SIZE;
    let len := BITLK_ENTRY_HEADER_LEN + BITLK_NONCE_SIZE + BITLK_VMK_MAC_TAG_SIZE in
    vk ← key_part data (start + len) (size - len);
    Ok (BitlkVmk (v_guid vmk) (v_name vmk) p (v_salt vmk) mac_tag nonce (v_vk vmk ++ [vk]))
  else if (value =? BITLK_ENTRY_VALUE_KEY) || (value =? BITLK_ENTRY_VALUE_RECOVERY_TIME) then Ok vmk
  else if value =? BITLK_ENTRY_VALUE_STRING then
    match convert_to_utf8 data (start + BITLK_ENTRY_HEADER_LEN) (size - BITLK_ENTRY_HEADER_LEN) with
    | Err _ => Err (- EINVAL)
    | Ok string =>
        match v_name vmk with
        | Some _ => _ ← require (negb (supported p)) (- EINVAL); Ok vmk
        | None => Ok (BitlkVmk (v_guid vmk) string p (v_salt vmk) (v_mac_tag vmk) (v_nonce vmk) (v_vk vmk))
        end
    | Crash => Crash
    | NoFuel => NoFuel
    end
  else if (value =? BITLK_ENTRY_VALUE_USE_KEY) && bool_decide (p = BITLK_PROTECTION_STARTUP_KEY) then Ok vmk
  else _ ← require (negb (supported p)) (- EINVAL); Ok vmk.

(** A unit of fuel per byte of the entries: each has a size. *)
Fixpoint vmk_entries (fuel : nat) (data : bytes) (start end_ : Z) (vmk : bitlk_vmk) : outcome bitlk_vmk :=
  if end_ - start <=? 2 then Ok vmk
  else match fuel with
  | O => NoFuel
  | S fuel =>
      size ← rd16 data start;
      if size =? 0 then Ok vmk
      else
        type ← rd16 data (start + 2);
        value ← rd16 data (start + 4);
        vmk ← vmk_entry data start size type value vmk;
        vmk_entries fuel data (start + size) end_ vmk
  end.

Definition parse_vmk_entry (data : bytes) (start end_ : Z) (vmk : bitlk_vmk) : outcome bitlk_vmk :=
  vmk_entries (Z.to_nat (end_ - start)) data start end_ vmk.

Definition set_vmks (l : list bitlk_vmk) (p : bitlk_metadata) : bitlk_metadata :=
  BitlkMetadata (bm_sector_size p) (bm_togo p) (bm_state p) (bm_type p) (bm_cipher p) (bm_cipher_mode p) (bm_key_size p) (bm_guid p)
    (bm_creation_time p) (bm_description p) (bm_metadata_offset p) (bm_metadata_version p) (bm_volume_header_offset p)
    (bm_volume_header_size p) l (bm_fvek p).
Definition set_fvek (f : bitlk_fvek) (p : bitlk_metadata) : bitlk_metadata :=
  BitlkMetadata (bm_sector_size p) (bm_togo p) (bm_state p) (bm_type p) (bm_cipher p) (bm_cipher_mode p) (bm_key_size p) (bm_guid p)
    (bm_creation_time p) (bm_description p) (bm_metadata_offset p) (bm_metadata_version p) (bm_volume_header_offset p)
    (bm_volume_header_size p) (bm_vmks p) (Some f).
Definition set_volume_header (offset size : Z) (p : bitlk_metadata) : bitlk_metadata :=
  BitlkMetadata (bm_sector_size p) (bm_togo p) (bm_state p) (bm_type p) (bm_cipher p) (bm_cipher_mode p) (bm_key_size p) (bm_guid p)
    (bm_creation_time p) (bm_description p) (bm_metadata_offset p) (bm_metadata_version p) offset size (bm_vmks p) (bm_fvek p).
Definition set_description (d : option bytes) (p : bitlk_metadata) : bitlk_metadata :=
  BitlkMetadata (bm_sector_size p) (bm_togo p) (bm_state p) (bm_type p) (bm_cipher p) (bm_cipher_mode p) (bm_key_size p) (bm_guid p)
    (bm_creation_time p) d (bm_metadata_offset p) (bm_metadata_version p) (bm_volume_header_offset p)
    (bm_volume_header_size p) (bm_vmks p) (bm_fvek p).

(** An entry of the metadata. *)
Definition fve_entry (data : bytes) (start size type : Z) (p : bitlk_metadata) : outcome bitlk_metadata :=
  if type =? BITLK_ENTRY_TYPE_VMK then
    entry ← rd data (start + BITLK_ENTRY_HEADER_LEN) BITLK_VMK_HEADER_LEN;
    let vmk := BitlkVmk (guid_to_string (slice 0 16 entry)) None (get_vmk_protection (le_decode (slice 26 2 entry)))
                 (zeros 16) (zeros 16) (zeros 12) [] in
    vmk ← parse_vmk_entry data (start + BITLK_ENTRY_HEADER_LEN + BITLK_VMK_HEADER_LEN) (start + size) vmk;
    Ok (set_vmks (bm_vmks p ++ [vmk]) p)
  else if type =? BITLK_ENTRY_TYPE_FVEK then
    nonce ← rd data (start + BITLK_ENTRY_HEADER_LEN) BITLK_NONCE_SIZE;
    mac_tag ← rd data (start + BITLK_ENTRY_HEADER_LEN + BITLK_NONCE_SIZE) BITLK_VMK_MAC_TAG_SIZE;
    let len := BITLK_ENTRY_HEADER_LEN + BITLK_NONCE_SIZE + BITLK_VMK_MAC_TAG_SIZE in
    vk ← key_part data (start + len) (size - len);
    Ok (set_fvek (BitlkFvek mac_tag nonce vk) p)
  else if type =? BITLK_ENTRY_TYPE_VOLUME_HEADER then
    entry ← rd data (start + BITLK_ENTRY_HEADER_LEN) 16;
    Ok (set_volume_header (le_decode (slice 0 8 entry)) (le_decode (slice 8 8 entry)) p)
  else if type =? BITLK_ENTRY_TYPE_DESCRIPTION then
    description ← convert_to_utf8 data (start + BITLK_ENTRY_HEADER_LEN) (size - BITLK_ENTRY_HEADER_LEN);
    Ok (set_description description p)
  else Ok p.

Fixpoint fve_entries_loop (fuel : nat) (data : bytes) (start end_ : Z) (p : bitlk_metadata) : outcome bitlk_metadata :=
  if end_ - start <=? 2 then Ok p
  else match fuel with
  | O => NoFuel
  | S fuel =>
      size ← rd16 data start;
      if size =? 0 then Ok p
      else
        type ← rd16 data (start + 2);
        p ← fve_entry data start size type p;
        fve_entries_loop fuel data (start + size) end_ p
  end.

Definition fve_entries (data : bytes) (end_ : Z) (p : bitlk_metadata) : outcome bitlk_metadata :=
  fve_entries_loop (Z.to_nat end_) data 0 end_ p.

(** Key size, in bits, and mode of AES. *)
Definition bitlk_cipher (encryption : Z) : option (Z * string) :=
  if encryption =? 0x8000 then Some (256, "cbc-elephant")
  else if encryption =? 0x8001 then Some (512, "cbc-elephant")
  else if encryption =? 0x8002 then Some (128, "cbc-eboiv")
  else if encryption =? 0x8003 then Some (256, "cbc-eboiv")
  else if encryption =? 0x8004 then Some (256, "xts-plain64")
  else if encryption =? 0x8005 then Some (512, "xts-plain64")
  else None.

(** Whether the volume is a portable one, from the first bytes of the device,
    and the size of its sectors. *)
Definition check_signature (sig : bytes) : outcome (bool * Z) :=
  togo ← (if bool_decide (slice 3 8 sig = BITLK_SIGNATURE) then Ok false
          else if bool_decide (slice 3 8 sig = BITLK_SIGNATURE_TOGO) then Ok true else Err (- EINVAL));
  _ ← require (negb (bool_decide (slice 0 3 sig = BITLK_BOOTCODE_V1))) (- ENOTSUP);
  _ ← require (bool_decide (slice 0 3 sig = BITLK_BOOTCODE_V2)) (- EINVAL);
  let sector_size := if le_decode (slice 11 2 sig) =? 0 then 512 else le_decode (slice 11 2 sig) in
  _ ← require ((sector_size =? 512) || (sector_size =? 4096)) (- EINVAL);
  Ok (togo, sector_size).

(** The metadata so far and the size of the entries. *)
Definition fve_header (togo : bool) (sector_size : Z) (sb fve : bytes) : outcome (bitlk_metadata * Z) :=
  let field o n := le_decode (slice o n fve) in
  let type := if bool_decide (slice 0 16 sb = BITLK_GUID_NORMAL) then BITLK_ENCRYPTION_TYPE_NORMAL
              else if bool_decide (slice 0 16 sb = BITLK_GUID_EOW) then BITLK_ENCRYPTION_TYPE_EOW else BITLK_ENCRYPTION_TYPE_UNKNOWN in
  let offsets := [le_decode (slice 16 8 sb); le_decode (slice 24 8 sb); le_decode (slice 32 8 sb)] in
  _ ← require (bool_decide (slice 0 8 fve = BITLK_SIGNATURE) && (field 10 2 =? 2)) (- EINVAL);
  let state := (field 12 2 =? BITLK_STATE_NORMAL) && (field 14 2 =? BITLK_STATE_NORMAL) in
  '(key_size, mode) ← tested (bitlk_cipher (field 100 2)) (- ENOTSUP);
  Ok (BitlkMetadata sector_size togo state type "aes" mode key_size (guid_to_string (slice 80 16 fve)) (filetime_to_unixtime (field 104 8))
        None offsets (field 10 2) 0 0 [] None, field 64 4).

Variable os : os_env.

(** Exactly [n] bytes at an offset of the device, or an error. *)
Definition read_exactly (devfd n offset : Z) : M (outcome bytes) :=
  '(r, buf) ← dev_read os devfd n (i64 offset);
  mret (if r =? n then Ok buf else Err (- EINVAL)).

(** The next step, when this one was successful. *)
Definition and_then {A B} (m : M (outcome A)) (k : A -> M (outcome B)) : M (outcome B) :=
  x ← m;
  match x with Ok a => k a | Err r => mret (Err r) | Crash => mret Crash | NoFuel => mret NoFuel end.

Definition BITLK_read_sb : M (outcome bitlk_metadata) :=
  devfd ← device_open os O_RDONLY;
  if devfd <? 0 then mret (Err (- EINVAL))
  else
    and_then (read_exactly devfd 13 0) (fun sig =>
    and_then (mret (check_signature sig)) (fun '(togo, sector_size) =>
    let fve_offset := if togo then BITLK_HEADER_METADATA_OFFSET_TOGO else BITLK_HEADER_METADATA_OFFSET in
    and_then (read_exactly devfd 40 fve_offset) (fun sb =>
    let offset := le_decode (slice 16 8 sb) in
    and_then (read_exactly devfd 112 offset) (fun fve =>
    and_then (mret (fve_header togo sector_size sb fve)) (fun '(params, metadata_size) =>
    let size := u32 (metadata_size - BITLK_FVE_METADATA_HEADER_LEN) in
    if alloc_fails os size then mret (Err (- ENOMEM))
    else
      and_then (read_exactly devfd size (u64 (offset + BITLK_FVE_METADATA_HEADERS_LEN))) (fun entries =>
      mret (fve_entries entries (i32 size) params))))))).

(** ** Keys from passwords *)

(** strtol(3) of a part of six characters. *)
Definition part_number (part : bytes) : Z := atoi (string_of_bytes (cstr part)).

(** A key of 16 bytes, if the password has its form and all parts are
    multiples of 11. The parts have 16 bits. *)
Fixpoint recovery_parts (n : nat) (password : bytes) : option bytes :=
  match n with
  | O => Some []
  | S n =>
      let part := part_number (take (Z.to_nat BITLK_RECOVERY_PART_LEN) password) in
      if negb (Z.rem part 11 =? 0) then None
      else rest ← recovery_parts n (drop (Z.to_nat (BITLK_RECOVERY_PART_LEN + 1)) password); Some (le_encode 2 (Z.quot part 11) ++ rest)%list
  end.

Definition dashes_ok (password : bytes) : bool :=
  forallb (fun i => bool_decide (nth (7 * i + 6) password x00 = x2d)) (seq 0 7).

Definition get_recovery_key (password : bytes) : option bytes :=
  let len := zlen password in
  let newline := (len =? BITLK_RECOVERY_KEY_LEN + 1) && bool_decide (nth 55 password x00 = x0a) in
  if negb (len =? BITLK_RECOVERY_KEY_LEN) && negb newline then None
  else if negb (dashes_ok password) then None
  else recovery_parts BITLK_RECOVERY_PARTS password.

Fixpoint external_entries (fuel : nat) (data : bytes) (start end_ : Z) : outcome bytes :=
  if end_ - start <=? 2 then Err (- EINVAL)
  else match fuel with
  | O => NoFuel
  | S fuel =>
      size ← rd16 data start;
      if size =? 0 then Err (- EINVAL)
      else
        type ← rd16 data (start + 2);
        value ← rd16 data (start + 4);
        _ ← require (type =? BITLK_ENTRY_TYPE_PROPERTY) (- EINVAL);
        if value =? BITLK_ENTRY_VALUE_KEY then
          key_part data (start + BITLK_ENTRY_HEADER_LEN + 4) (size - (BITLK_ENTRY_HEADER_LEN + 4))
        else
          _ ← require (value =? BITLK_ENTRY_VALUE_STRING) (- EINVAL);
          external_entries fuel data (start + size) end_
  end.

Definition parse_external_key_entry (data : bytes) (start end_ : Z) : outcome bytes :=
  external_entries (Z.to_nat (end_ - start)) data start end_.

Definition get_startup_key (password : bytes) (vmk : bitlk_vmk) : outcome bytes :=
  let field o n := le_decode (slice o n password) in
  _ ← require (BITLK_BEK_FILE_HEADER_LEN <=? zlen password) (- EPERM);
  _ ← require (bool_decide (guid_to_string (slice 16 16 password) = v_guid vmk)) (- EPERM);
  _ ← require (field 4 4 =? 1) (- ENOTSUP);
  _ ← require (field 0 4 =? zlen password) (- EINVAL);
  size ← rd16 password BITLK_BEK_FILE_HEADER_LEN;
  _ ← require (BITLK_ENTRY_HEADER_LEN <=? size) (- EINVAL);
  type ← rd16 password (BITLK_BEK_FILE_HEADER_LEN + 2);
  value ← rd16 password (BITLK_BEK_FILE_HEADER_LEN + 4);
  _ ← require ((type =? BITLK_ENTRY_TYPE_STARTUP_KEY) && (value =? BITLK_ENTRY_VALUE_EXTERNAL_KEY)) (- EINVAL);
  parse_external_key_entry password (BITLK_BEK_FILE_HEADER_LEN + BITLK_ENTRY_HEADER_LEN + BITLK_STARTUP_KEY_HEADER_LEN) (zlen password).

(** A hash of 32 bytes; the structure that is hashed again and again has the
    last and the first hash, the salt and a count. *)
Definition kdf_hash (m : bytes) : bytes := crypt_hash_final BITLK_KDF_HASH m (crypt_hash_size BITLK_KDF_HASH).
Definition kdf_round (initial salt : bytes) (st : bytes * Z) : bytes * Z :=
  let '(last, count) := st in (kdf_hash (last ++ initial ++ salt ++ le_encode 8 count), count + 1).

Definition bitlk_kdf (password : bytes) (recovery : bool) (salt : bytes) : outcome bytes :=
  _ ← require (0 <=? crypt_hash_size BITLK_KDF_HASH) (crypt_hash_size BITLK_KDF_HASH);
  initial ← (if recovery then Ok (kdf_hash password)
             else utf16 ← passphrase_to_utf16 password; Ok (kdf_hash (kdf_hash utf16)));
  Ok (Z.iter BITLK_KDF_ITERATION_COUNT (kdf_round initial salt) (zeros 32, 0)).1.

(** The cipher mode and the key size in bytes are the volume's. *)
Definition decrypt_key (mode : string) (key_size : Z) (enc_key key tag iv : bytes) (is_fvek : bool) : outcome bytes :=
  if safe_alloc_fails os (zlen enc_key) then Err (- ENOMEM)
  else match crypt_bitlk_decrypt_key key enc_key iv tag with
  | inl r => Err r
  | inr outbuf =>
      size ← rd16 outbuf 0;
      _ ← require (zlen enc_key =? size) (- EINVAL);
      if is_fvek && (mode =? "cbc-elephant")%string && (key_size =? 32) then
        first ← rd outbuf BITLK_OPEN_KEY_METADATA_LEN 16;
        second ← rd outbuf (2 * 16 + BITLK_OPEN_KEY_METADATA_LEN) 16;
        Ok (first ++ second)%list
      else key_part outbuf BITLK_OPEN_KEY_METADATA_LEN (size - BITLK_OPEN_KEY_METADATA_LEN)
  end.

(** The key that protects a VMK: a code of [inl] ends the search, one of [inr]
    only this VMK. *)
Definition protecting_key (password : bytes) (r : Z) (vmk : bitlk_vmk) : outcome (Z + (Z + bytes)) :=
  let next (m : outcome bytes) := match m with
                | Ok k => Ok (inr (inr k)) | Err r => Ok (inr (inl r)) | Crash => Crash | NoFuel => NoFuel end in
  match v_protection vmk with
  | BITLK_PROTECTION_PASSPHRASE => next (bitlk_kdf password false (v_salt vmk))
  | BITLK_PROTECTION_RECOVERY_PASSPHRASE =>
      match get_recovery_key password with
      | None => Ok (inr (inl (- EPERM)))
      | Some key =>
          match bitlk_kdf key true (v_salt vmk) with
          | Ok k => Ok (inr (inr k)) | Err r => Ok (inl r) | Crash => Crash | NoFuel => NoFuel
          end
      end
  | BITLK_PROTECTION_STARTUP_KEY => next (get_startup_key password vmk)
  | _ => Ok (inr (inl (if r =? 0 then - ENOTSUP else r)))
  end.

(** One VMK after the other; [r] is the last code. A key, or none although
    nothing failed. *)
Fixpoint try_vmks (params : bitlk_metadata) (password : bytes) (l : list bitlk_vmk) (r : Z) : outcome (option bytes) :=
  match l with
  | [] => if r =? 0 then Ok None else Err r
  | vmk :: l =>
      dec ← protecting_key password r vmk;
      match dec with
      | inl r => Err r
      | inr (inl r) => try_vmks params password l r
      | inr (inr key) =>
          let mode := bm_cipher_mode params in
          let key_size := bm_key_size params / 8 in
          vk ← deref (head (v_vk vmk));
          match decrypt_key mode key_size vk key (v_mac_tag vmk) (v_nonce vmk) false with
          | Err r => if r =? - ENOTSUP then Err r else try_vmks params password l r
          | Ok open_vmk =>
              fvek ← deref (bm_fvek params);
              match decrypt_key mode key_size (f_vk fvek) open_vmk (f_mac_tag fvek) (f_nonce fvek) true with
              | Ok key => Ok (Some key)
              | Err r => if r =? - ENOTSUP then Err r else try_vmks params password l r
              | Crash => Crash
              | NoFuel => NoFuel
              end
          | Crash => Crash
          | NoFuel => NoFuel
          end
      end
  end.

Definition BITLK_get_volume_key (password : bytes) (params : bitlk_metadata) : outcome (option bytes) :=
  try_vmks params password (bm_vmks params) 0.

(** ** Activation *)

Definition _activate_check (params : bitlk_metadata) : outcome () :=
  _ ← require (bm_state params) (- ENOTSUP);
  _ ← require (bool_decide (bm_type params = BITLK_ENCRYPTION_TYPE_NORMAL)) (- ENOTSUP);
  require (negb (existsb (fun vmk => bool_decide (v_protection vmk = BITLK_PROTECTION_CLEAR_KEY)) (bm_vmks params))) (- ENOTSUP).

Inductive BitlkSegmentType := BITLK_SEGTYPE_CRYPT | BITLK_SEGTYPE_ZERO.

(** In sectors *)
Record segment := Segment { sg_offset : Z; sg_length : Z; sg_iv_offset : Z; sg_type : BitlkSegmentType }.
Definition sg_end (s : segment) : Z := sg_offset s +64 sg_length s.

(** The metadata and the volume's first sectors, and where those are read from. *)
Definition fixed_segments (params : bitlk_metadata) : list segment :=
  let zero o := Segment (o / SECTOR_512) (BITLK_FVE_METADATA_SIZE / SECTOR_512) 0 BITLK_SEGTYPE_ZERO in
  let header := bm_volume_header_offset params / SECTOR_512 in
  let size := bm_volume_header_size params / SECTOR_512 in
  ((zero <$> bm_metadata_offset params) ++ [Segment header size 0 BITLK_SEGTYPE_ZERO; Segment 0 size header BITLK_SEGTYPE_CRYPT])%list.

(** The least of the ends that are not before [last], and of the offsets. *)
Definition next_start (segments : list segment) (last size : Z) : Z :=
  fold_left (fun m s => if (sg_end s <? m) && (last <=? sg_end s) then sg_end s else m) segments size.
Definition next_end (segments : list segment) (start size : Z) : Z :=
  fold_left (fun m s => if (sg_offset s <? m) && (start <=? sg_offset s) then sg_offset s else m) segments size.

(** The gaps are filled; the code has no bound. *)
Fixpoint fill_gaps (fuel : nat) (segments : list segment) (last size : Z) : outcome (list segment) :=
  match fuel with
  | O => NoFuel
  | S fuel =>
      let start := next_start segments last size in
      let end_ := next_end segments start size in
      if end_ - start =? 0 then fill_gaps fuel segments (end_ +64 1) size
      else
        let segments := (segments ++ [Segment start (end_ -64 start) start BITLK_SEGTYPE_CRYPT])%list in
        if end_ =? size then Ok segments
        else if zlen segments =? MAX_BITLK_SEGMENTS then Err (- EINVAL)
        else fill_gaps fuel segments end_ size
  end.

(** The first of the least by offset: its position behind [x], 0 for [x]
    itself. *)
Fixpoint min_from (l : list segment) (i : nat) (best : segment) (pos : nat) : nat :=
  match l with
  | [] => pos
  | s :: l => if sg_offset s <? sg_offset best then min_from l (S i) s i else min_from l (S i) best pos
  end.

(** The least is swapped with the first, then the rest is sorted. *)
Fixpoint sort_segments (n : nat) (l : list segment) : list segment :=
  match n, l with
  | S n, x :: l =>
      match min_from l 1 x 0 with
      | O => x :: sort_segments n l
      | S k => default x (l !! k) :: sort_segments n (<[k := x]> l)
      end
  | _, _ => l
  end.

Definition bitlk_segments (fuel : nat) (params : bitlk_metadata) (size : Z) : outcome (list segment) :=
  l ← fill_gaps fuel (fixed_segments params) (bm_volume_header_size params / SECTOR_512) size;
  Ok (sort_segments (length l) l).

(** A missing key is dereferenced, when the table is printed. *)
Definition segment_target (data_device : string) (key : option dm_key) (spec : string) (sector_size : Z) (s : segment) : outcome dm_target :=
  match sg_type s with
  | BITLK_SEGTYPE_ZERO => Ok (dm_zero_target_set (sg_offset s) (sg_length s))
  | BITLK_SEGTYPE_CRYPT =>
      k ← deref key;
      Ok (dm_crypt_target_set (sg_offset s) (sg_length s) data_device k spec (sg_iv_offset s) (sg_iv_offset s) None 0 sector_size)
  end.

(** [adjust] is device_block_adjust, which gives the size and the flags;
    [create] is dm_create_device. The size of an unknown device is 0. *)
Definition _activate (fuel : nat) (adjust : Z + Z * Z) (create : Z -> list dm_target -> Z) (dmt_flags : Z) (data_device spec : string)
    (key : option dm_key) (params : bitlk_metadata) : outcome Z :=
  _ ← _activate_check params;
  match adjust with
  | inl r => Err r
  | inr (size, flags) =>
      segments ← bitlk_segments fuel params size;
      let flags := if bm_sector_size params =? SECTOR_512 then flags else Z.lor flags CRYPT_ACTIVATE_IV_LARGE_SECTORS in
      targets ← mapM (segment_target data_device key spec (bm_sector_size params)) segments;
      let r := create flags targets in
      let mode := bm_cipher_mode params in
      if r <? 0 then
        if (mode =? "cbc-eboiv")%string && negb (has_flag dmt_flags DM_BITLK_EBOIV_SUPPORTED) then Ok (- ENOTSUP)
        else if (mode =? "cbc-elephant")%string && negb (has_flag dmt_flags DM_BITLK_ELEPHANT_SUPPORTED) then Ok (- ENOTSUP)
        else Ok r
      else Ok r
  end.

(** [name] tells whether there is a name; a password is only checked without. *)
Definition BITLK_activate_by_passphrase (fuel : nat) (adjust : Z + Z * Z) (create : Z -> list dm_target -> Z) (dmt_flags : Z)
    (data_device spec : string) (name : bool) (password : bytes) (params : bitlk_metadata) : outcome Z :=
  _ ← _activate_check params;
  key ← BITLK_get_volume_key password params;
  if name then _activate fuel adjust create dmt_flags data_device spec ((fun k => DmKey (zlen k) k None) <$> key) params else Ok 0.

Definition BITLK_activate_by_volume_key (fuel : nat) (adjust : Z + Z * Z) (create : Z -> list dm_target -> Z) (dmt_flags : Z)
    (data_device spec : string) (volume_key : bytes) (params : bitlk_metadata) : outcome Z :=
  _ ← _activate_check params;
  if alloc_fails os (zlen volume_key) then Err (- ENOMEM)
  else _activate fuel adjust create dmt_flags data_device spec (Some (DmKey (zlen volume_key) volume_key None)) params.
End bitlk.

(** * Properties *)

(** ** Entries *)

Lemma rd_fuel data off n : rd data off n <> NoFuel.
Proof. unfold rd. by destruct (_ && _). Qed.
Lemma rd16_fuel data off : rd16 data off <> NoFuel.
Proof. unfold rd16. pose proof (rd_fuel data off 2). by destruct (rd data off 2). Qed.
Lemma key_part_fuel data off n : key_part data off n <> NoFuel.
Proof. unfold key_part. destruct (_ <? _); [done|apply rd_fuel]. Qed.
Lemma require_fuel b r : require b r <> NoFuel.
Proof. by destruct b. Qed.
Lemma convert_fuel data off n : convert_to_utf8 data off n <> NoFuel.
Proof.
  unfold convert_to_utf8. pose proof (key_part_fuel data off n). destruct (key_part data off n); try done. cbn [mbind outcome_bind].
  destruct (utf16le_decode a); [|done]. by repeat destruct (_ <? _).
Qed.

Lemma bind_fuel {A B} (m : outcome A) (k : A -> outcome B) : m <> NoFuel -> (forall a, m = Ok a -> k a <> NoFuel) -> mbind k m <> NoFuel.
Proof. destruct m; try done. intros _ H. by apply H. Qed.

#[local] Hint Resolve rd_fuel rd16_fuel key_part_fuel require_fuel convert_fuel : core.
Ltac no_fuel := repeat first [done | apply bind_fuel; [by eauto|intros ? ?] | case_match].

Lemma rd16_range data off z : rd16 data off = Ok z -> 0 <= z < 65536.
Proof.
  unfold rd16, rd. destruct (_ && _) eqn:E; [|done]. cbn [mbind outcome_bind]. intros [= <-].
  rewrite !andb_true_iff, !Z.leb_le in E. pose proof (le_decode_range (slice off 2 data)) as H. unfold in_u in H.
  assert (zlen (slice off 2 data) = 2) as Hz by (apply zlen_slice; lia). unfold zlen in Hz. assert (length (slice off 2 data) = 2%nat) as Hl by lia.
  rewrite Hl in H. cbn in H. lia.
Qed.

Lemma vmk_entry_fuel data start size type value vmk : vmk_entry data start size type value vmk <> NoFuel.
Proof.
  unfold vmk_entry. apply bind_fuel; [eauto|intros _ _].
  pose proof (convert_fuel data (start + BITLK_ENTRY_HEADER_LEN) (size - BITLK_ENTRY_HEADER_LEN)). no_fuel.
Qed.

Lemma vmk_entries_fuel fuel data end_ : forall start vmk, end_ - start <= Z.of_nat fuel -> vmk_entries fuel data start end_ vmk <> NoFuel.
Proof.
  induction fuel as [|fuel IH]; intros start vmk Hf; cbn [vmk_entries]; destruct (Z.leb_spec (end_ - start) 2); try done; [lia|].
  apply bind_fuel; [eauto|intros size Hs]. destruct (Z.eqb_spec size 0); [done|]. apply rd16_range in Hs.
  do 2 (apply bind_fuel; [eauto|intros ? _]). apply bind_fuel; [apply vmk_entry_fuel|intros ? _]. apply IH. lia.
Qed.

Section entries.
Context `{LU : LibUuid}.

Lemma fve_entry_fuel data start size type p : 0 <= size -> fve_entry data start size type p <> NoFuel.
Proof.
  intros Hs. unfold fve_entry. destruct (_ =? _).
  - apply bind_fuel; [eauto|intros ? _]. apply bind_fuel; [|done]. apply vmk_entries_fuel. lia.
  - no_fuel.
Qed.

Lemma fve_entries_loop_fuel fuel data end_ : forall start p, end_ - start <= Z.of_nat fuel -> fve_entries_loop fuel data start end_ p <> NoFuel.
Proof.
  induction fuel as [|fuel IH]; intros start p Hf; cbn [fve_entries_loop]; destruct (Z.leb_spec (end_ - start) 2); try done; [lia|].
  apply bind_fuel; [eauto|intros size Hs]. destruct (Z.eqb_spec size 0); [done|]. apply rd16_range in Hs.
  apply bind_fuel; [eauto|intros ? _]. apply bind_fuel; [apply fve_entry_fuel; lia|intros ? _]. apply IH. lia.
Qed.

(** The parser of the metadata's entries ends, whatever the entries say of
    their sizes, with fuel for every byte; the code has neither fuel nor a check
    that an entry lies in the metadata. *)
Theorem fve_entries_terminate data end_ p : fve_entries data end_ p <> NoFuel.
Proof. apply fve_entries_loop_fuel. lia. Qed.
End entries.

(** ** Recovery keys *)

Definition digits6 (n : Z) : bytes := (fun d => byte_of_Z (48 + n / d mod 10)) <$> [100000; 10000; 1000; 100; 10; 1].

(** The recovery password of a key of [2 * n] bytes. *)
Fixpoint recovery_text (n : nat) (key : bytes) : bytes :=
  match n with
  | O => []
  | S n => (digits6 (11 * le_decode (take 2 key)) ++ match n with O => [] | _ => [x2d] end ++ recovery_text n (drop 2 key))%list
  end.

Lemma digit_byte d : 0 <= d < 10 -> let b := byte_of_Z (48 + d) in
  b <> x00 /\ ascii_val (ascii_of_byte b) = 48 + d /\ isdigit (ascii_of_byte b) = true /\ isspace (ascii_of_byte b) = false.
Proof.
  intros Hd. assert (d = 0 \/ d = 1 \/ d = 2 \/ d = 3 \/ d = 4 \/ d = 5 \/ d = 6 \/ d = 7 \/ d = 8 \/ d = 9) as H by lia.
  repeat (destruct H as [->|H]; [by vm_compute|]). subst. by vm_compute.
Qed.

Lemma parse_digit_bytes ds : Forall (fun d => 0 <= d < 10) ds -> forall acc,
  parse_digits (string_of_bytes ((fun d => byte_of_Z (48 + d)) <$> ds)) acc = (fold_left (fun a d => a * 10 + d) ds acc, EmptyString).
Proof.
  induction 1 as [|d ds Hd _ IH]; intros acc; [done|]. destruct (digit_byte d Hd) as (_ & Hv & Hi & _).
  cbn [fmap list_fmap fold_left]. change (string_of_bytes (?b :: ?l)) with (String (ascii_of_byte b) (string_of_bytes l)).
  cbn [parse_digits]. rewrite Hi, Hv, IH. do 2 f_equal. lia.
Qed.

Lemma part_number_digits n : 0 <= n < 1000000 -> part_number (digits6 n) = n.
Proof.
  intros Hn. set (ds := (fun d => n / d mod 10) <$> [100000; 10000; 1000; 100; 10; 1]).
  assert (digits6 n = (fun d => byte_of_Z (48 + d)) <$> ds) as -> by reflexivity.
  assert (Forall (fun d => 0 <= d < 10) ds) as Hds by (apply Forall_map, Forall_true; intros; apply Z.mod_pos_bound; lia).
  unfold part_number. rewrite cstr_id by (apply Forall_map; eapply Forall_impl; [exact Hds|]; intros d Hd; by destruct (digit_byte d Hd)).
  assert (fold_left (fun a d => a * 10 + d) ds 0 = n) as Hf by (cbn; Z.to_euclidean_division_equations; lia).
  pose proof (parse_digit_bytes ds Hds 0) as Hp. rewrite Hf in Hp.
  assert (exists d ds', ds = d :: ds') as (d & ds' & E) by (eexists _, _; reflexivity). rewrite E in Hp, Hds |- *.
  apply Forall_cons_1 in Hds as [Hd _]. destruct (digit_byte d Hd) as (_ & Hv & Hi & Hs). cbn [fmap list_fmap] in Hp |- *.
  change (string_of_bytes (?b :: ?l)) with (String (ascii_of_byte b) (string_of_bytes l)) in Hp |- *.
  unfold atoi, parse_number. cbn [skip_space]. rewrite Hs, Hv.
  rewrite (proj2 (Z.eqb_neq (48 + d) 45)), (proj2 (Z.eqb_neq (48 + d) 43)), Hi, Hp by lia.
  rewrite Z.min_r by (unfold INT64_MAX; lia). apply i32_id. lia.
Qed.

Lemma take_digits6 n rest : take 6 (digits6 n ++ rest) = digits6 n.
Proof. reflexivity. Qed.
Lemma drop_digits6 n c rest : drop 7 (digits6 n ++ c :: rest) = rest.
Proof. reflexivity. Qed.

Lemma recovery_parts_text n : forall key tail, zlen key = 2 * Z.of_nat n -> recovery_parts n (recovery_text n key ++ tail) = Some key.
Proof.
  induction n as [|n IH]; intros key tail Hk; cbn [recovery_parts recovery_text].
  { f_equal. symmetry. by apply zlen_0_nil. }
  assert (exists a b key', key = a :: b :: key') as (a & b & key' & ->).
  { unfold zlen in Hk. destruct key as [|a [|b key']]; cbn in Hk; [lia|lia|by eauto]. }
  change (take 2 (a :: b :: key')) with [a; b]. change (drop 2 (a :: b :: key')) with key'. assert (0 <= le_decode [a; b] < 65536) as Hv.
  { pose proof (le_decode_range [a; b]) as H. unfold in_u in H. change (2 ^ (8 * Z.of_nat (length [a; b]))) with 65536 in H. lia. }
  rewrite <- app_assoc. change (Z.to_nat BITLK_RECOVERY_PART_LEN) with 6%nat. rewrite take_digits6, part_number_digits by lia.
  rewrite Z.mul_comm, Z.rem_mul, Z.quot_mul by lia. cbn [negb Z.eqb].
  change (Z.to_nat (BITLK_RECOVERY_PART_LEN + 1)) with 7%nat.
  assert (zlen key' = 2 * Z.of_nat n) as Hk' by (unfold zlen in *; cbn [length] in Hk; lia).
  assert (le_encode 2 (le_decode [a; b]) = [a; b]) as Hd by exact (le_encode_decode [a; b]). rewrite Hd.
  destruct n as [|n].
  - apply zlen_0_nil in Hk'. by subst.
  - cbn [app]. rewrite drop_digits6, (IH key' tail Hk'). done.
Qed.

(** A volume's recovery password is read as the key it was printed from:
    eight groups of six digits, each eleven times a part of 16 bits, joined by
    dashes; a line end behind it does not matter. *)
Theorem recovery_key_roundtrip key newline :
  zlen key = 16 -> get_recovery_key (recovery_text 8 key ++ if newline : bool then [x0a] else []) = Some key.
Proof.
  intros Hk. unfold get_recovery_key. set (text := recovery_text 8 key).
  assert (zlen text = 55) as Hl by reflexivity.
  assert (dashes_ok (text ++ if newline then [x0a] else []) = true) as Hd by (destruct newline; reflexivity).
  rewrite Hd. cbn [negb]. rewrite zlen_app, Hl. unfold BITLK_RECOVERY_PARTS, text. rewrite recovery_parts_text by done.
  destruct newline; reflexivity.
Qed.

Definition fx_recovery_key : bytes := (replicate 15 x00 ++ [xff])%list.

Lemma recovery_key_roundtrip_witness :
  zlen fx_recovery_key = 16 /\ get_recovery_key (recovery_text 8 fx_recovery_key ++ [x0a])%list = Some fx_recovery_key.
Proof. split; [reflexivity|]. apply (recovery_key_roundtrip fx_recovery_key true). reflexivity. Defined.

(** A group above 720885 does not fit a part, and is cut. *)
Theorem large_recovery_group_cut :
  get_recovery_key (bytes_of_string "720896-000000-000000-000000-000000-000000-000000-000000") = Some (zeros 16).
Proof. vm_compute. reflexivity. Qed.

(** ** Passwords *)

Lemma utf8_decode_ascii pw : Forall (fun b => byte_val b < 128) pw -> utf8_decode pw = inr (byte_val <$> pw).
Proof. induction 1 as [|b pw Hb _ IH]; [done|]. cbn. rewrite (proj2 (Z.ltb_lt _ _)) by done. by rewrite IH. Qed.

(** The password in ASCII is hashed as it should be, *)
Theorem ascii_password_exact pw :
  Forall (fun b => byte_val b < 128) pw -> passphrase_to_utf16 pw = Ok (mjoin ((fun b => [b; x00]) <$> pw)).
Proof.
  intros H. unfold passphrase_to_utf16. rewrite utf8_decode_ascii by done. f_equal.
  assert (mjoin (utf16le_encode <$> (byte_val <$> pw)) = mjoin ((fun b => [b; x00]) <$> pw)) as ->.
  { clear H. induction pw as [|b pw IH]; [done|].
    change (mjoin (utf16le_encode <$> (byte_val <$> b :: pw))) with (utf16le_encode (byte_val b) ++ mjoin (utf16le_encode <$> (byte_val <$> pw)))%list.
    change (mjoin ((fun b => [b; x00]) <$> b :: pw)) with ([b; x00] ++ mjoin ((fun b => [b; x00]) <$> pw))%list.
    rewrite IH. f_equal. pose proof (byte_val_range b). unfold utf16le_encode. rewrite (proj2 (Z.ltb_lt _ _)) by lia. cbn [le_encode]. rewrite Z.div_small by lia. rewrite byte_of_Z_val. reflexivity. }
  assert (zlen (mjoin ((fun b => [b; x00]) <$> pw)) = zlen pw * 2) as ->.
  { clear H. induction pw as [|b pw IH]; [done|]. change (mjoin ((fun b => [b; x00]) <$> b :: pw)) with ([b; x00] ++ mjoin ((fun b => [b; x00]) <$> pw))%list.
    rewrite zlen_app, IH. unfold zlen. cbn [length]. lia. }
  rewrite Z.sub_diag. cbn. by rewrite app_nil_r.
Qed.

(** and another with as many zeros behind it as it has bytes to spare. *)
Theorem non_ascii_password_padded : passphrase_to_utf16 [xc3; xa9] = Ok [xe9; x00; x00; x00].
Proof. reflexivity. Qed.

(** Without a VMK any password is the right one. *)
Theorem no_vmk_accepts_any_password `{CH : CryptHash} `{LU : LibUuid} `{BD : BitlkDecrypt} os fuel adjust create dmt_flags data_device spec password params :
  bm_vmks params = [] -> _activate_check params = Ok () ->
  BITLK_activate_by_passphrase os fuel adjust create dmt_flags data_device spec false password params = Ok 0.
Proof. intros Hv Hc. unfold BITLK_activate_by_passphrase, BITLK_get_volume_key. by rewrite Hc, Hv. Qed.

(** ** Segments *)

(** Segments end to end from [a] to [b]. *)
Fixpoint chain (a b : Z) (l : list segment) : Prop :=
  match l with
  | [] => a = b
  | s :: l => sg_offset s = a /\ 0 < sg_length s /\ chain (sg_offset s + sg_length s) b l
  end.

(** Segments apart from each other or end to end, from [a] on, the last of
    which ends before [size]. *)
Fixpoint spaced (a size : Z) (l : list segment) : Prop :=
  match l with
  | [] => a < size
  | s :: l => a <= sg_offset s /\ 0 < sg_length s /\ spaced (sg_offset s + sg_length s) size l
  end.

Lemma chain_app l1 l2 : forall a b c, chain a b l1 -> chain b c l2 -> chain a c (l1 ++ l2).
Proof.
  induction l1 as [|s l1 IH]; intros a b c; cbn; [by intros ->|]. intros (? & ? & H) H2. repeat split; [done..|]. by eapply IH.
Qed.

Lemma chain_in l s : forall a b, chain a b l -> In s l -> a <= sg_offset s /\ 0 < sg_length s /\ sg_offset s + sg_length s <= b.
Proof.
  assert (forall l a b, chain a b l -> a <= b) as Hle.
  { clear. induction l as [|s l IH]; intros a b; cbn; [lia|]. intros (? & ? & H). apply IH in H. lia. }
  induction l as [|t l IH]; intros a b; cbn; [done|]. intros (? & ? & H) [->|Hin]; [apply Hle in H; lia|]. apply IH in H; [lia|done].
Qed.

Lemma spaced_in l s : forall a size, spaced a size l -> In s l -> a <= sg_offset s /\ 0 < sg_length s /\ sg_offset s + sg_length s < size.
Proof.
  assert (forall l a size, spaced a size l -> a < size) as Hlt.
  { clear. induction l as [|s l IH]; intros a size; cbn; [lia|]. intros (? & ? & H). apply IH in H. lia. }
  induction l as [|t l IH]; intros a size; cbn; [done|]. intros (? & ? & H) [->|Hin]; [apply Hlt in H; lia|]. apply IH in H; [lia|done].
Qed.

(** The scan for the least of some numbers that are not below [lo]. *)
Lemma fold_least (f : segment -> Z) lo c l : (forall s, In s l -> lo <= f s -> c <= f s) -> lo <= c ->
  forall m, c <= m -> (exists s, In s l /\ f s = c) \/ m = c ->
  fold_left (fun m s => if (f s <? m) && (lo <=? f s) then f s else m) l m = c.
Proof.
  intros Hl Hlo. induction l as [|s l IH]; intros m Hm Hex; cbn [fold_left]; [by destruct Hex as [(? & [] & _)|]|].
  assert (forall s', In s' l -> lo <= f s' -> c <= f s') as Hl' by (intros; apply Hl; [by right|done]).
  destruct (_ && _) eqn:E; [apply andb_true_iff in E|apply andb_false_iff in E]; rewrite ?Z.ltb_lt, ?Z.ltb_ge, ?Z.leb_le, ?Z.leb_gt in E.
  - apply IH; [done|apply Hl; [by left|lia]|]. destruct Hex as [(s' & [->|Hin] & Hc)|]; [by right|left; by exists s'|].
    right. assert (c <= f s) by (apply Hl; [by left|lia]). lia.
  - apply IH; [done..|]. destruct Hex as [(s' & [->|Hin] & Hc)|]; [right; lia|left; by exists s'|by right].
Qed.

(** The segments so far: [C] covers what is before [c], [R] lies behind. *)
Record filling (last size c : Z) (C R L : list segment) : Prop := {
  fl_perm : Permutation L (C ++ R);
  fl_chain : chain 0 c C;
  fl_spaced : spaced c size R;
  fl_last : 0 <= last <= c;
  fl_c : c < size /\ size < 2 ^ 64 - 1;
  fl_end : exists s, In s C /\ sg_offset s + sg_length s = c;
  fl_before : forall s, In s C -> sg_offset s + sg_length s = c \/ sg_offset s + sg_length s < last;
}.

Section filling.
Context {last size c : Z} {C R L : list segment}.
Hypothesis F : filling last size c C R L.

Lemma filling_in s : In s L <-> In s C \/ In s R.
Proof. rewrite <- in_app_iff. split; apply Permutation_in; [|symmetry]; apply F. Qed.

Lemma filling_end s : In s L -> sg_end s = sg_offset s + sg_length s.
Proof.
  intros Hs. unfold sg_end. pose proof (fl_c _ _ _ _ _ _ F). apply add64_id;
    (apply filling_in in Hs as [Hs|Hs]; [apply (chain_in _ _ _ _ (fl_chain _ _ _ _ _ _ F)) in Hs|apply (spaced_in _ _ _ _ (fl_spaced _ _ _ _ _ _ F)) in Hs];
     pose proof (fl_last _ _ _ _ _ _ F); lia).
Qed.

Lemma filling_start : next_start L last size = c.
Proof.
  pose proof (fl_c _ _ _ _ _ _ F). pose proof (fl_last _ _ _ _ _ _ F). unfold next_start. apply fold_least; [|lia|lia|].
  - intros s Hs. rewrite filling_end by done. intros Hl. apply filling_in in Hs as [Hs|Hs].
    + destruct (fl_before _ _ _ _ _ _ F s Hs); lia.
    + apply (spaced_in _ _ _ _ (fl_spaced _ _ _ _ _ _ F)) in Hs. lia.
  - left. destruct (fl_end _ _ _ _ _ _ F) as (s & Hs & He). exists s.
    assert (In s L) by (apply filling_in; by left). by rewrite filling_end.
Qed.

Lemma filling_behind s : In s L -> c <= sg_offset s -> In s R.
Proof.
  intros Hs Hc. apply filling_in in Hs as [Hs|]; [|done]. apply (chain_in _ _ _ _ (fl_chain _ _ _ _ _ _ F)) in Hs. lia.
Qed.

Lemma filling_next_last : R = [] -> next_end L c size = size.
Proof.
  intros E. pose proof (fl_c _ _ _ _ _ _ F). unfold next_end.
  apply fold_least; [|lia|lia|by right]. intros s Hs Hc. apply filling_behind in Hs; [|done]. by rewrite E in Hs.
Qed.

Lemma filling_next r R' : R = r :: R' -> next_end L c size = sg_offset r.
Proof.
  intros E. pose proof (fl_c _ _ _ _ _ _ F). pose proof (fl_spaced _ _ _ _ _ _ F) as Hsp.
  assert (In r R) as Hr by (rewrite E; by left). pose proof (spaced_in _ r _ _ Hsp Hr). rewrite E in Hsp. destruct Hsp as (? & ? & Hsp).
  unfold next_end. apply fold_least; [|lia|lia|left; exists r; split; [apply filling_in; by right|done]].
  intros s Hs Hc. apply filling_behind in Hs; [|done]. rewrite E in Hs. destruct Hs as [->|Hs]; [lia|].
  apply (spaced_in _ _ _ _ Hsp) in Hs. lia.
Qed.
End filling.

Definition gap (start end_ : Z) : segment := Segment start (end_ - start) start BITLK_SEGTYPE_CRYPT.
Definition is_gap (s : segment) : Prop := sg_type s = BITLK_SEGTYPE_CRYPT /\ sg_iv_offset s = sg_offset s.

(** Whether there is a gap before the next segment: it takes a place of the
    table and a turn of the loop. *)
Definition gap_before (c : Z) (R : list segment) : nat := match R with [] => 0 | r :: _ => if sg_offset r =? c then 0 else 1 end.

Lemma filling_gap last size c C R L e : filling last size c C R L -> c < e -> e < size -> spaced e size R ->
  filling e size e (C ++ [gap c e]) R (L ++ [gap c e]).
Proof.
  intros F He Hes Hs. destruct F as [F1 F2 F3 F4 F5 F6 F7]. split; [|eapply chain_app; [exact F2|cbn; lia]|done|lia|lia| |].
  - rewrite F1, <- !app_assoc. apply Permutation_app_head, Permutation_app_comm.
  - exists (gap c e). split; [apply in_app_iff; right; by left|cbn; lia].
  - intros s Hin. apply in_app_iff in Hin as [Hin|[<-|[]]]; [|cbn; lia]. apply (chain_in _ _ _ _ F2) in Hin. lia.
Qed.

Lemma filling_take last size c C r R L : filling last size c C (r :: R) L -> sg_offset r = c ->
  filling (c + 1) size (sg_offset r + sg_length r) (C ++ [r]) R L.
Proof.
  intros F Hr. destruct F as [F1 F2 F3 F4 F5 F6 F7]. pose proof (spaced_in _ r _ _ F3 (or_introl eq_refl)). destruct F3 as (? & ? & F3).
  split; [by rewrite F1, <- app_assoc|eapply chain_app; [exact F2|cbn; lia]|done|lia|lia| |].
  - exists r. split; [apply in_app_iff; right; by left|done].
  - intros s Hin. apply in_app_iff in Hin as [Hin|[<-|[]]]; [|by left]. apply (chain_in _ _ _ _ F2) in Hin. lia.
Qed.

Lemma fill_gaps_tiles size fuel : forall last c C R L, filling last size c C R L ->
  (2 * length R + gap_before c R < fuel)%nat -> (length L + length R + gap_before c R <= 10)%nat ->
  exists C' gaps, fill_gaps fuel L last size = Ok (L ++ gaps)%list /\ Permutation (L ++ gaps) C' /\ chain 0 size C' /\ Forall is_gap gaps.
Proof.
  induction fuel as [|fuel IH]; intros last c C R L F Hf Hn; [lia|]. cbn [fill_gaps]. rewrite (filling_start F).
  pose proof (fl_c _ _ _ _ _ _ F) as Hc. pose proof (fl_last _ _ _ _ _ _ F) as Hlast.
  destruct R as [|r R].
  - rewrite (filling_next_last F eq_refl). destruct (Z.eqb_spec (size - c) 0); [lia|]. rewrite Z.eqb_refl, sub64_id by lia.
    exists (C ++ [gap c size])%list, [gap c size]. split; [done|]. split; [|split; [|by repeat constructor]].
    + apply Permutation_app_tail. rewrite (fl_perm _ _ _ _ _ _ F). by rewrite app_nil_r.
    + eapply chain_app; [apply F|cbn; lia].
  - rewrite (filling_next F r R eq_refl). pose proof (fl_spaced _ _ _ _ _ _ F) as Hsp.
    pose proof (spaced_in _ r _ _ Hsp (or_introl eq_refl)) as Hr. destruct Hsp as (_ & Hrl & Hsp). cbn [gap_before length] in Hf, Hn.
    revert Hf Hn. destruct (Z.eqb_spec (sg_offset r) c) as [Ec|Ec]; intros Hf Hn.
    + rewrite Ec, Z.sub_diag. cbn [Z.eqb]. rewrite add64_id by lia.
      assert (gap_before (sg_offset r + sg_length r) R <= 1)%nat by (unfold gap_before; destruct R as [|t ?]; [lia|destruct (_ =? _); lia]).
      apply (IH _ _ _ _ _ (filling_take _ _ _ _ _ _ _ F Ec)); lia.
    + destruct (Z.eqb_spec (sg_offset r - c) 0); [lia|]. destruct (Z.eqb_spec (sg_offset r) size); [lia|].
      rewrite sub64_id by lia. fold (gap c (sg_offset r)).
      assert ((zlen (L ++ [gap c (sg_offset r)])%list =? MAX_BITLK_SEGMENTS) = false) as ->.
      { apply Z.eqb_neq. unfold zlen, MAX_BITLK_SEGMENTS. rewrite length_app. cbn [length]. lia. }
      assert (filling (sg_offset r) size (sg_offset r) (C ++ [gap c (sg_offset r)]) (r :: R) (L ++ [gap c (sg_offset r)])) as F'
        by (apply (filling_gap _ _ _ _ _ _ _ F); [lia|lia|cbn; repeat split; [lia|done|done]]).
      destruct (IH _ _ _ _ _ F') as (C' & gaps & -> & Hp & Hch & Hg).
      * cbn [length gap_before]. rewrite Z.eqb_refl. lia.
      * rewrite length_app. cbn [length gap_before]. rewrite Z.eqb_refl. lia.
      * exists C', (gap c (sg_offset r) :: gaps). rewrite <- app_assoc in *. split; [done|]. split; [done|]. split; [done|]. by constructor.
Qed.

(** *** Order *)

Lemma min_from_spec l : forall i best pos,
  (min_from l i best pos = pos /\ forall s, In s l -> sg_offset best <= sg_offset s) \/
  (exists k m, min_from l i best pos = (i + k)%nat /\ l !! k = Some m /\ sg_offset m < sg_offset best /\ forall s, In s l -> sg_offset m <= sg_offset s).
Proof.
  induction l as [|t l IH]; intros i best pos; cbn [min_from]; [by left|].
  destruct (Z.ltb_spec (sg_offset t) (sg_offset best)) as [Ht|Ht].
  - right. destruct (IH (S i) t i) as [[-> Hall]|(k & m & -> & Hk & Hm & Hall)].
    + exists 0%nat, t. split; [lia|]. split; [done|]. split; [done|]. intros s [->|Hs]; [lia|by apply Hall].
    + exists (S k), m. split; [lia|]. split; [done|]. split; [lia|]. intros s [->|Hs]; [lia|by apply Hall].
  - destruct (IH (S i) best pos) as [[-> Hall]|(k & m & -> & Hk & Hm & Hall)].
    + left. split; [done|]. intros s [->|Hs]; [lia|by apply Hall].
    + right. exists (S k), m. split; [lia|]. split; [done|]. split; [lia|]. intros s [->|Hs]; [lia|by apply Hall].
Qed.

Lemma swap_permutation (x m : segment) l k : l !! k = Some m -> Permutation (x :: l) (m :: <[k := x]> l).
Proof.
  intros Hk. rewrite <- (take_drop_middle l k m Hk) at 1. rewrite insert_take_drop by (by eapply lookup_lt_Some).
  rewrite <- !Permutation_middle. constructor.
Qed.

(** Offsets that rise are found again. *)
Fixpoint rising (l : list segment) : Prop :=
  match l with [] => True | s :: l => (forall t, In t l -> sg_offset s < sg_offset t) /\ rising l end.

Lemma chain_rising l : forall a b, chain a b l -> rising l.
Proof.
  induction l as [|s l IH]; intros a b; cbn; [done|]. intros (? & ? & H). split; [|by eapply IH].
  intros t Ht. apply (chain_in _ _ _ _ H) in Ht. lia.
Qed.

Lemma least_is_head (x m s0 : segment) l l' C :
  Permutation (x :: l) (m :: l') -> Permutation (x :: l) (s0 :: C) -> rising (s0 :: C) ->
  (forall s, In s (x :: l) -> sg_offset m <= sg_offset s) -> m = s0 /\ Permutation l' C.
Proof.
  intros Hp HC [Hr _] Hm.
  assert (In m (s0 :: C)) as Hin by (apply (Permutation_in _ HC), (Permutation_in _ (Permutation_sym Hp)); by left).
  assert (sg_offset m <= sg_offset s0) by (apply Hm, (Permutation_in _ (Permutation_sym HC)); by left).
  destruct Hin as [->|Hin]; [|apply Hr in Hin; lia]. split; [done|].
  apply (Permutation_cons_inv (a := m)). by rewrite <- Hp.
Qed.

Lemma sort_segments_rising n : forall l C, length l = n -> Permutation l C -> rising C -> sort_segments n l = C.
Proof.
  induction n as [|n IH]; intros l C Hn HC Hr.
  { destruct l; [|done]. cbn. by apply Permutation_nil in HC. }
  destruct l as [|x l]; [done|]. destruct C as [|s0 C]; [by apply Permutation_sym, Permutation_nil in HC|].
  cbn [sort_segments]. destruct (min_from_spec l 1 x 0) as [[-> Hall]|(k & m & -> & Hk & Hm & Hall)]; cbn [Nat.add].
  - destruct (least_is_head x x s0 l l C) as [-> Hp]; [done..|intros s [->|Hs]; [lia|by apply Hall]|].
    f_equal. apply IH; [by injection Hn|done|apply Hr].
  - rewrite Hk. cbn [default from_option]. destruct (least_is_head x m s0 l (<[k:=x]> l) C) as [-> Hp]; [by apply swap_permutation|done..| |].
    + intros s [->|Hs]; [lia|by apply Hall].
    + cbn. f_equal. apply IH; [rewrite length_insert; by injection Hn|done|apply Hr].
Qed.

(** A volume's layout as it should be: four areas behind the volume's first
    sectors, apart from each other, and data behind the last. *)
Definition zero_segments (params : bitlk_metadata) : list segment := take 4 (fixed_segments params).
Definition layout_ok (params : bitlk_metadata) (size : Z) (R : list segment) : Prop :=
  length (bm_metadata_offset params) = 3%nat /\ Permutation (zero_segments params) R /\
  0 < bm_volume_header_size params / SECTOR_512 /\ spaced (bm_volume_header_size params / SECTOR_512) size R /\ size < 2 ^ 64 - 1.

(** C31: the table of a BitLocker volume covers the device: for a volume whose
    metadata areas and moved first sectors lie apart from each other behind the
    volume's first sectors, in any order, with data behind the last of them, the
    loop that fills the gaps ends within 10 turns and 10 segments; the sorted
    segments lie end to end from the first sector to the last; the areas read as
    zeros and the first sectors come from where they were moved to, and everything
    else is decrypted in its place. *)
Theorem bitlk_segments_tile params size R : layout_ok params size R ->
  exists l, bitlk_segments 10 params size = Ok l /\ chain 0 size l /\
    (forall s, In s (fixed_segments params) -> In s l) /\ (forall s, In s l -> In s (fixed_segments params) \/ is_gap s).
Proof.
  intros (H3 & Hp & Hh & Hs & Hz). set (h := bm_volume_header_size params / SECTOR_512) in *.
  set (first := Segment 0 h (bm_volume_header_offset params / SECTOR_512) BITLK_SEGTYPE_CRYPT).
  assert (fixed_segments params = zero_segments params ++ [first])%list as Hf.
  { unfold zero_segments, fixed_segments. by destruct (bm_metadata_offset params) as [|? [|? [|? [|? ?]]]]. }
  assert (length (zero_segments params) = 4%nat) as Hl by (unfold zero_segments, fixed_segments; rewrite length_take, length_app, length_fmap, H3; reflexivity).
  assert (length R = 4%nat) as HR by (by rewrite <- Hp).
  assert (h < size) as Hhs by (destruct R as [|r R]; [cbn in Hs; lia|]; pose proof (spaced_in _ r _ _ Hs (or_introl eq_refl)); lia).
  assert (filling h size h [first] R (fixed_segments params)) as F.
  { split; [rewrite Hf, Hp; apply Permutation_app_comm|cbn; lia|done|lia|lia|exists first; split; [by left|cbn; lia]|].
    intros s [<-|[]]. left. cbn. lia. }
  assert (gap_before h R <= 1)%nat as Hg by (unfold gap_before; destruct R as [|t ?]; [lia|destruct (_ =? _); lia]).
  destruct (fill_gaps_tiles size 10 _ _ _ _ _ F) as (C & gaps & Hfill & Hperm & Hch & Hgaps); [lia| |].
  { rewrite Hf, length_app, Hl, HR. cbn [length]. lia. }
  exists C. unfold bitlk_segments. fold h. rewrite Hfill. cbn [mbind outcome_bind].
  rewrite (sort_segments_rising _ _ C eq_refl Hperm (chain_rising _ _ _ Hch)). split; [done|]. split; [done|]. split; intros s Hin.
  - apply (Permutation_in _ Hperm), in_app_iff. by left.
  - apply (Permutation_in _ (Permutation_sym Hperm)), in_app_iff in Hin as [|Hin]; [by left|]. right. rewrite List.Forall_forall in Hgaps. by apply Hgaps.
Qed.

(** Metadata at sectors 600, 100 and 228, the first 16 sectors moved to 400. *)
Definition fx_bitlk : bitlk_metadata :=
  BitlkMetadata 512 false true BITLK_ENCRYPTION_TYPE_NORMAL "aes" "xts-plain64" 256 [] 0 None [600 * 512; 100 * 512; 228 * 512] 2
    (400 * 512) (16 * 512) [] None.
Definition fx_areas : list segment :=
  [Segment 100 128 0 BITLK_SEGTYPE_ZERO; Segment 228 128 0 BITLK_SEGTYPE_ZERO; Segment 400 16 0 BITLK_SEGTYPE_ZERO; Segment 600 128 0 BITLK_SEGTYPE_ZERO].

Lemma bitlk_segments_tile_witness :
  layout_ok fx_bitlk 1000 fx_areas /\ exists l, bitlk_segments 10 fx_bitlk 1000 = Ok l /\ chain 0 1000 l /\ length l = 9%nat.
Proof.
  assert (layout_ok fx_bitlk 1000 fx_areas) as H.
  { split; [reflexivity|]. split; [|split; [reflexivity|split; [|reflexivity]]].
    - change (Permutation [Segment 600 128 0 BITLK_SEGTYPE_ZERO; Segment 100 128 0 BITLK_SEGTYPE_ZERO; Segment 228 128 0 BITLK_SEGTYPE_ZERO;
        Segment 400 16 0 BITLK_SEGTYPE_ZERO] fx_areas). apply (Permutation_cons_append [_; _; _]).
    - vm_compute. repeat split; discriminate. }
  split; [exact H|]. destruct (bitlk_segments_tile fx_bitlk 1000 fx_areas H) as (l & Hl & Hc & _). exists l. split; [exact Hl|]. split; [exact Hc|].
  vm_compute in Hl. injection Hl as <-. reflexivity.
Defined.

(** *** A device that ends with metadata *)

Lemma fold_none (f : segment -> Z) lo size l : (forall s, In s l -> f s < lo \/ size <= f s) ->
  fold_left (fun m s => if (f s <? m) && (lo <=? f s) then f s else m) l size = size.
Proof.
  induction l as [|s l IH]; intros Hl; [done|]. cbn [fold_left].
  assert ((f s <? size) && (lo <=? f s) = false) as ->.
  { destruct (Hl s (or_introl eq_refl)); [rewrite (proj2 (Z.leb_gt _ _)), andb_false_r by done; done|by rewrite (proj2 (Z.ltb_ge _ _))]. }
  apply IH. intros; apply Hl. by right.
Qed.

(** Once no segment ends between the last one and the end of the device, the
    loop does not end: it looks behind the end of the device again and again. *)
Theorem metadata_at_end_diverges size l fuel : forall last, 0 <= size < 2 ^ 64 - 1 ->
  (forall s, In s l -> sg_end s < last \/ size <= sg_end s) -> fill_gaps fuel l last size = NoFuel.
Proof.
  induction fuel as [|fuel IH]; intros last Hz Hl; [done|]. cbn [fill_gaps].
  assert (next_start l last size = size) as -> by (by apply fold_none).
  assert (next_end l size size = size) as -> by (apply fold_none; intros; lia).
  rewrite Z.sub_diag. cbn [Z.eqb]. rewrite add64_id by lia. apply IH; [done|]. intros s Hs. destruct (Hl s Hs); lia.
Qed.

(** As for a volume of 728 sectors with the metadata above. *)
Theorem bitlk_layout_diverges fuel : bitlk_segments fuel fx_bitlk 728 = NoFuel.
Proof.
  unfold bitlk_segments.
  do 7 (destruct fuel as [|fuel]; [reflexivity|]).
  assert (forall fuel, fill_gaps (7 + fuel) (fixed_segments fx_bitlk) 16 728 = fill_gaps fuel (fixed_segments fx_bitlk ++
    [gap 16 100; gap 356 400; gap 416 600])%list 601 728) as H by reflexivity.
  change (bm_volume_header_size fx_bitlk / SECTOR_512) with 16. change (S (S (S (S (S (S (S fuel))))))) with (7 + fuel)%nat. rewrite H.
  rewrite metadata_at_end_diverges; [done|lia|]. intros s Hs. vm_compute in Hs. repeat destruct Hs as [<-|Hs]; try done; first [left; reflexivity|right; vm_compute; discriminate].
Qed.
