(* ===== verification/SetupActivate.v ===== *)
(** * SetupActivate: active mappings through the library's interface (lib/setup.c)

    Activation of plain, LUKS1, LUKS2 and loop-AES devices, the comparison and
    reload of an active mapping, also on top of dm-integrity, its resizing,
    suspension and removal. The requests to the kernel are kept in order
    ([trace]); what it answers may depend on all that was requested before. The
    recovery of an interrupted reencryption and the activation of the types
    whose contexts [Setup] has only the getters of are parameters. *)

From S2P Require Import Prelude UtilsIO Keyfile LoopAes CryptBackend UtilsCrypt CryptPlain CryptStorage Cstd JsonC Luks2Json Luks2Keyslot Luks2Edit Luks2Areas Device Integrity Wipe Luks1 Luks2Format Luks2Disk Luks2KeyslotIo Luks2KeyslotProps Luks2Info Luks2Token Luks2Convert Luks2Reencrypt Luks1Facts Luks2HdrStore Luks2KeyslotRun Luks1KeysProps Setup SetupKeyslot SetupProps Pbkdf VerityHash DmTable DmQuery Tcrypt.
From Stdlib Require Import Strings.Byte Ascii.

Local Open Scope string_scope.
Local Open Scope Z_scope.

Definition CRYPT_ACTIVATE_SHARED : Z := Z.shiftl 1 2.
Definition CRYPT_ACTIVATE_PRIVATE : Z := Z.shiftl 1 4.
Definition CRYPT_ACTIVATE_IGNORE_PERSISTENT : Z := Z.shiftl 1 14.
Definition CRYPT_ACTIVATE_ALLOW_UNBOUND_KEY : Z := Z.shiftl 1 16.
Definition CRYPT_ACTIVATE_REFRESH : Z := Z.shiftl 1 18.
Definition CRYPT_DEACTIVATE_DEFERRED_CANCEL : Z := Z.shiftl 1 2.
Definition DM_KEY_FLAGS : Z := Z.lor DM_ACTIVE_CRYPT_KEYSIZE DM_ACTIVE_CRYPT_KEY.
Definition EEXIST : Z := 17.

(** ** Requests and the kernel *)

(** A key is set by a message; the keyring is part of the kernel. *)
Inductive dm_request :=
| Create (name type : string) (dmd : crypt_dm_active_device)
| Reload (name : string) (dmd : crypt_dm_active_device)
| Resume (name : string)
| Suspend (name : string)
| WipeKey (name : string)
| SetKey (name : string) (vk : dm_key)
| SetError (name : string)
| Clear (name : string)
| Remove (name : string) (flags : Z)
| CancelDeferred (name : string)
| AddKey (description : string) (key : bytes)
| RevokeKey (description : string)
| ResizeLoop (device : string).

Definition trace : Type := list dm_request.

(** What the kernel and the system answer after the requests of a trace. The
    code of a request is negative or 0; a query is [None] for a name that is
    not mapped. *)
Record dm_kernel := DmKernel {
  k_do : trace -> dm_request -> Z;
  (** [dm_status_device], [dm_status_suspended] *)
  k_status : trace -> string -> Z;
  k_suspended : trace -> string -> Z;
  k_info : trace -> string -> option dm_info;
  k_lookup : string -> Z * option string;
  (** names of the mappings below one whose UUID has the prefix *)
  k_deps : trace -> string -> string -> Z * list string;
  (** [device_info] of a device, exclusively or not: code, read-only, sectors *)
  k_device_info : trace -> string -> bool -> Z * bool * Z;
  (** [device_compare_path] of different paths *)
  k_compare_path : string -> string -> Z;
  (** [device_dm_name] *)
  k_dm_name : string -> option string;
  (** [device_alloc] of a path *)
  k_device_alloc : string -> Z;
  k_block_size : string -> Z;
  k_is_loop : string -> bool;
  k_compat : dm_compat;
  k_dir : string;
  (** [kernel_keyring_support], [_vk_via_keyring] and [kernel_version] *)
  k_keyring : bool;
  k_vk_via_keyring : bool;
  k_version : option Z;
  (** [crypt_get_compatibility] *)
  k_compatibility : Z;
  (** [device_check_access] of the data device, exclusively *)
  k_data_access : trace -> Z;
  (** [LUKS2_reencrypt_lock], and by the UUID of a mapping *)
  k_reencrypt_lock : Z;
  (** [keyring_get_passphrase] *)
  k_passphrase : string -> Z + bytes;
}.

(** ** The monad: the trace over the device of the header *)

Definition T (A : Type) : Type := trace -> M (A * trace).

#[export] Instance T_ret : MRet T := fun A a t => mret (a, t).
#[export] Instance T_bind : MBind T := fun A B k m t => '(a, t) ← m t; k a t.

Definition lift {A} (m : M A) : T A := fun t => a ← m; mret (a, t).
(** A query of the present state. *)
Definition ask {A} (f : trace -> A) : T A := fun t => mret (f t, t).

Definition set_flags (flags : Z) (a : crypt_dm_active_device) : crypt_dm_active_device :=
  ActiveDevice (ad_size a) flags (ad_uuid a) (ad_holders a) (ad_segments a).
Definition set_size (size : Z) (a : crypt_dm_active_device) : crypt_dm_active_device :=
  ActiveDevice size (ad_flags a) (ad_uuid a) (ad_holders a) (ad_segments a).
Definition set_segment (s : dm_target) (a : crypt_dm_active_device) : crypt_dm_active_device :=
  ActiveDevice (ad_size a) (ad_flags a) (ad_uuid a) (ad_holders a) [s].
Definition t_set_size (size : Z) (s : dm_target) : dm_target := DmTarget (t_offset s) size (t_data_device s) (t_u s).
Definition t_set_device (device : string) (s : dm_target) : dm_target := DmTarget (t_offset s) (t_size s) (Some device) (t_u s).
Definition t_set_u (u : dm_target_u) (s : dm_target) : dm_target := DmTarget (t_offset s) (t_size s) (t_data_device s) u.
Definition ct_set_vk (vk : option dm_key) (c : crypt_target) : crypt_target :=
  CryptTarget (ct_cipher c) (ct_integrity c) vk (ct_offset c) (ct_iv_offset c) (ct_tag_size c) (ct_sector_size c).
Definition ct_set_offset (offset : Z) (c : crypt_target) : crypt_target :=
  CryptTarget (ct_cipher c) (ct_integrity c) (ct_vk c) offset (ct_iv_offset c) (ct_tag_size c) (ct_sector_size c).

(** The only segment, and what dm-crypt has there. *)
Definition single_segment (a : crypt_dm_active_device) : option dm_target :=
  match ad_segments a with [s] => Some s | _ => None end.
Definition crypt_u (s : dm_target) : option crypt_target := match t_u s with U_crypt c => Some c | _ => None end.
Definition integrity_u (s : dm_target) : option integrity_target := match t_u s with U_integrity i => Some i | _ => None end.
Definition single_crypt (a : crypt_dm_active_device) : option (dm_target * crypt_target) :=
  s ← single_segment a; c ← crypt_u s; Some (s, c).
Definition single_integrity (a : crypt_dm_active_device) : option (dm_target * integrity_target) :=
  s ← single_segment a; i ← integrity_u s; Some (s, i).

Definition with_flag (b : bool) (f flags : Z) : Z := if b then Z.lor flags f else clear_flags f flags.

Definition add_readonly (readonly : bool) (flags : Z) : Z := if readonly then Z.lor flags CRYPT_ACTIVATE_READONLY else flags.

(** ** Comparison of mappings *)

(** Whether the keys differ. *)
Definition _compare_volume_keys (svk : option dm_key) (skeyring_only : bool) (tvk : option dm_key) (tkeyring_only : bool) : bool :=
  match svk, tvk with
  | None, None => false
  | Some s, Some t =>
      if negb (keylength s =? keylength t) then true
      else if negb skeyring_only && negb tkeyring_only then
        negb (bool_decide (take (Z.to_nat (keylength s)) (key s) = take (Z.to_nat (keylength s)) (key t)))
      else match key_description s, key_description t with
      | Some a, Some b => negb (a =? b)%string
      | _, _ => false
      end
  | _, _ => true
  end.

Section activate.
Context `{JC : JsonC} `{CH : CryptHash} `{CM : CryptHmac} `{CC : CryptCipher} `{CP : CryptPbkdf} `{LU : LibUuid}.
Variable env : setup_env.
Variable kr : dm_kernel.
(** Paths of the data device and of the device of the metadata. *)
Variables data_dev meta_dev : string.
Let os : os_env := Luks2Disk.os (ky_disk (cv_keys (se_convert env))).

Definition _compare_device_types (cd : crypt_device) (src tgt : crypt_dm_active_device) : Z :=
  match ad_uuid tgt with
  | None => - EINVAL
  | Some tuuid =>
      let type := default "" (cd_type cd) in
      if isLUKS2 (cd_type cd) && String.prefix "INTEGRITY-" tuuid then
        if negb (crypt_uuid_cmp (Some tuuid) (ad_uuid src) =? 0) then - EINVAL else 0
      else if isLUKS (cd_type cd) then
        if negb (bool_decide (is_Some (ad_uuid src))) || negb (String.prefix type tuuid)
           || negb (crypt_uuid_cmp (Some tuuid) (ad_uuid src) =? 0)
        then - EINVAL else 0
      else if isPLAIN (cd_type cd) || isLOOPAES (cd_type cd) then
        if negb (String.prefix type tuuid) then - EINVAL else 0
      else - ENOTSUP
  end.

(** A path is a device: the same path is the same one. *)
Definition device_is_identical (device1 device2 : option string) : Z :=
  match device1, device2 with
  | Some d1, Some d2 => if (d1 =? d2)%string then 1 else k_compare_path kr d1 d2
  | _, _ => 0
  end.

Definition _compare_crypt_devices (sdev tdev : option string) (s t : crypt_target) : Z :=
  match ct_vk s, ct_vk t, ct_cipher s, ct_cipher t with
  | Some svk, Some tvk, Some sc, Some tc =>
      if negb (sc =? tc)%string then - EINVAL
      else if negb ((keylength tvk =? 0) && crypt_is_cipher_null (Some tc))
              && _compare_volume_keys (Some svk) false (Some tvk) (bool_decide (is_Some (key_description tvk))) then - EINVAL
      else if negb (crypt_strcmp (ct_integrity s) (ct_integrity t) =? 0) then - EINVAL
      else if negb (ct_offset s =? ct_offset t) || negb (ct_sector_size s =? ct_sector_size t)
              || negb (ct_iv_offset s =? ct_iv_offset t) || negb (ct_tag_size s =? ct_tag_size t) then - EINVAL
      else if device_is_identical sdev tdev <=? 0 then - EINVAL
      else 0
  | _, _, _, _ => - EINVAL
  end.

Definition _compare_integrity_devices (src tgt : dm_target) (s t : integrity_target) : Z :=
  if negb (it_tag_size s =? it_tag_size t) || negb (it_offset s =? it_offset t) || negb (it_sector_size s =? it_sector_size t) then - EINVAL
  else if negb (crypt_strcmp (it_integrity s) (it_integrity t) =? 0)
          || negb (crypt_strcmp (it_journal_integrity s) (it_journal_integrity t) =? 0)
          || negb (crypt_strcmp (it_journal_crypt s) (it_journal_crypt t) =? 0) then - EINVAL
  else if _compare_volume_keys (it_vk s) false (it_vk t) false
          || _compare_volume_keys (it_journal_integrity_key s) false (it_journal_integrity_key t) false
          || _compare_volume_keys (it_journal_crypt_key s) false (it_journal_crypt_key t) false then - EINVAL
  else if bool_decide (is_Some (it_meta_device s)) || bool_decide (is_Some (it_meta_device t)) then - ENOTSUP
  else if negb (t_size src =? t_size tgt) then - EINVAL
  else if device_is_identical (t_data_device src) (t_data_device tgt) <=? 0 then - EINVAL
  else 0.

Definition compare_segment (s t : dm_target) : Z :=
  match t_u s, t_u t with
  | U_crypt c, U_crypt c' => _compare_crypt_devices (t_data_device s) (t_data_device t) c c'
  | U_integrity i, U_integrity i' => _compare_integrity_devices s t i i'
  | U_linear o, U_linear o' => if o =? o' then 0 else - EINVAL
  | _, _ => if bool_decide (t_type s = t_type t) then - ENOTSUP else - EINVAL
  end.

Fixpoint compare_segments (l l' : list dm_target) : Z :=
  match l, l' with
  | [], [] => 0
  | s :: l, t :: l' => let r := compare_segment s t in if negb (r =? 0) then r else compare_segments l l'
  | _, _ => - EINVAL
  end.

Definition crypt_compare_dm_devices (cd : crypt_device) (src tgt : crypt_dm_active_device) : Z :=
  let r := _compare_device_types cd src tgt in
  if negb (r =? 0) then r else compare_segments (ad_segments src) (ad_segments tgt).

(** ** Requests (lib/libdevmapper.c) *)

Definition request (q : dm_request) : T Z := fun t => mret (k_do kr t q, (t ++ [q])%list).

(** A table that the query crashes on stops the program. *)
Definition query_device (name : string) (get_flags : Z) : T (Z + Z * crypt_dm_active_device) := fun t =>
  match dm_query_device (k_lookup kr) get_flags (k_info kr t name) with
  | Ok (r, dmd) => mret (inr (r, dmd), t)
  | Err r => mret (inl r, t)
  | Crash | NoFuel => fun _ => None
  end.

Definition first_type (dmd : crypt_dm_active_device) : dm_target_type :=
  match ad_segments dmd with s :: _ => t_type s | [] => DM_UNKNOWN end.

(** The request that counted is kept; code and the flags left. *)
Definition create_device (name type : string) (dmd : crypt_dm_active_device) : T (Z * Z) := fun t =>
  let create f := (k_do kr t (Create name type (set_flags f dmd)), k_compat kr) in
  let '(r, flags) := dm_create_device create (first_type dmd) (ad_flags dmd) in
  mret (r, flags, (t ++ [Create name type (set_flags flags dmd)])%list).

Definition reload_flags (flags : Z) : Z :=
  let '(r, dmt_flags) := dm_flags (k_compat kr) DM_INTEGRITY in
  if negb (r =? 0) || negb (has_flag dmt_flags DM_INTEGRITY_RECALC_SUPPORTED) then clear_flags CRYPT_ACTIVATE_RECALCULATE flags else flags.

Definition dm_reload_device (name : string) (dmd : crypt_dm_active_device) (resume : bool) : T Z :=
  r ← request (Reload name (set_flags (reload_flags (ad_flags dmd)) dmd));
  if (r =? 0) && resume then request (Resume name) else mret r.

Definition dm_error_device (name : string) : T Z :=
  q ← query_device name 0;
  match q with
  | inr _ => r ← request (SetError name); mret (if r =? 0 then 0 else - EINVAL)
  | inl _ => mret (- EINVAL)
  end.

Definition dm_resume_and_reinstate_key (name : string) (vk : dm_key) : T Z :=
  let '(r, dmt_flags) := dm_flags (k_compat kr) DM_CRYPT in
  if negb (r =? 0) || negb (has_flag dmt_flags DM_KEY_WIPE_SUPPORTED) then mret (- ENOTSUP)
  else
    r ← request (SetKey name vk);
    if negb (r =? 0) then mret (- EINVAL)
    else
      r ← request (Resume name);
      mret (if negb (r =? 0) then - EINVAL else 0).

Definition dm_suspend_device (name : string) (wipe_key : bool) : T Z :=
  let '(r, dmt_flags) := dm_flags (k_compat kr) DM_CRYPT in
  if wipe_key && (negb (r =? 0) || negb (has_flag dmt_flags DM_KEY_WIPE_SUPPORTED)) then mret (- ENOTSUP)
  else
    r ← request (Suspend name);
    if negb (r =? 0) then mret (- EINVAL)
    else if negb wipe_key then mret 0
    else
      r ← request (WipeKey name);
      if r =? 0 then mret 0 else (_ ← request (Resume name); mret (- EINVAL)).

(** lib/utils_device.c: code, or the size and whether the device is read-only.
    The size is adjusted when the caller has one; a file has a loop device. *)
Definition device_block_adjust (device : option string) (excl : bool) (offset : Z) (size : option Z) : T (Z + Z * bool) := fun t =>
  mret (match device with
        | None => inl (- ENOTBLK)
        | Some device =>
            let '(r, readonly, real_size) := k_device_info kr t device excl in
            if negb (r =? 0) then inl r
            else if real_size <=? offset then inl (- EINVAL)
            else match size with
            | None => inr (0, readonly)
            | Some size =>
                let size := if size =? 0 then real_size -64 offset else size in
                if real_size -64 offset <? size then inl (- EINVAL) else inr (size, readonly)
            end
        end, t).
(** ** Reload and creation *)

(** The key of the new table; [None] without memory. *)
Definition reload_key (flags : Z) (svk tvk : option dm_key) : option dm_key :=
  s ← svk; t ← tvk;
  if has_flag flags CRYPT_ACTIVATE_KEYRING_KEY then Some (DmKey (keylength t) (key t) (key_description s))
  else k ← alloc_key env (key s); Some (DmKey (keylength s) k None).

Definition DM_RELOAD_FLAGS : Z := Z.lor (Z.lor DM_ACTIVE_DEVICE DM_ACTIVE_CRYPT_CIPHER) (Z.lor DM_ACTIVE_UUID DM_KEY_FLAGS).

(** The callers' [sdmd] is one segment of dm-crypt ([sdmdi]: of dm-integrity);
    a read-only mapping stays one. *)
Definition keep_readonly (sdmd tdmd : crypt_dm_active_device) : Z :=
  with_flag (has_flag (ad_flags tdmd) CRYPT_ACTIVATE_READONLY) CRYPT_ACTIVATE_READONLY (ad_flags sdmd).

Definition _reload_device (cd : crypt_device) (name : string) (sdmd : crypt_dm_active_device) : T Z :=
  if negb (bool_decide (is_Some (cd_type cd))) || negb (has_flag (ad_flags sdmd) CRYPT_ACTIVATE_REFRESH) then mret (- EINVAL)
  else
    q ← query_device name DM_RELOAD_FLAGS;
    match q with
    | inl _ => mret (- EINVAL)
    | inr (_, tdmd) =>
        match single_crypt tdmd, single_crypt sdmd with
        | Some (tgt, tc), Some (src, sc) =>
            if negb (ct_tag_size tc =? 0) then mret (- ENOTSUP)
            else
              let r := crypt_compare_dm_devices cd sdmd tdmd in
              if negb (r =? 0) then mret r
              else
                let flags := keep_readonly sdmd tdmd in
                match reload_key flags (ct_vk sc) (ct_vk tc) with
                | None => mret (- ENOMEM)
                | Some vk =>
                    a ← device_block_adjust (t_data_device src) false (ct_offset sc) (Some (ad_size sdmd));
                    match a with
                    | inl r => mret r
                    | inr (size, _) =>
                        let tgt := t_set_size size (t_set_u (U_crypt (ct_set_vk (Some vk) tc)) tgt) in
                        dm_reload_device name (set_segment tgt (set_size size (set_flags flags tdmd))) true
                    end
                end
        | _, _ => mret (- ENOTSUP)
        end
    end.

(** New tables of both mappings are dropped and the mappings run again. *)
Definition drop_tables (name iname : string) : T unit :=
  _ ← request (Clear name);
  _ ← request (Clear iname);
  s ← ask (fun t => k_suspended kr t name);
  _ ← (if 0 <? s then request (Resume name) else mret 0);
  s ← ask (fun t => k_suspended kr t iname);
  _ ← (if 0 <? s then request (Resume iname) else mret 0);
  mret tt.

Definition or_drop (name iname : string) (r : Z) (k : T Z) : T Z :=
  if negb (r =? 0) then (_ ← drop_tables name iname; mret r) else k.

(** Both tables are loaded, then the mappings are switched to them; one that
    runs on the new dm-integrity without its new dm-crypt is broken. *)
Definition switch_tables (name iname : string) (tdmd sdmdi : crypt_dm_active_device) : T Z :=
  r ← dm_reload_device iname sdmdi false;
  if negb (r =? 0) then mret r
  else
    r ← dm_reload_device name tdmd false;
    or_drop name iname r (
    r ← dm_suspend_device name false;
    or_drop name iname r (
    r ← dm_suspend_device iname false;
    or_drop name iname r (
    r ← request (Resume iname);
    or_drop name iname r (
    r ← request (Resume name);
    if r =? 0 then mret 0
    else
      _ ← dm_error_device name;
      _ ← dm_error_device iname;
      mret r)))).

Definition _reload_device_with_integrity (cd : crypt_device) (name iname ipath : string) (sdmd sdmdi : crypt_dm_active_device) : T Z :=
  if negb (bool_decide (is_Some (cd_type cd))) || negb (has_flag (ad_flags sdmd) CRYPT_ACTIVATE_REFRESH) then mret (- EINVAL)
  else
    q ← query_device name DM_RELOAD_FLAGS;
    match q with
    | inl _ => mret (- EINVAL)
    | inr (_, tdmd) =>
        match single_crypt tdmd, single_crypt sdmd with
        | Some (tgt, tc), Some (src, sc) =>
            if ct_tag_size tc =? 0 then mret (- ENOTSUP)
            else
              q ← query_device iname (Z.lor DM_ACTIVE_DEVICE DM_ACTIVE_UUID);
              match q with
              | inl _ => mret (- EINVAL)
              | inr (_, tdmdi) =>
                  match single_integrity tdmdi, single_integrity sdmdi with
                  | Some _, Some (srci, ic) =>
                      let r := crypt_compare_dm_devices cd sdmdi tdmdi in
                      if negb (r =? 0) then mret r
                      else if k_device_alloc kr ipath <? 0 then mret (k_device_alloc kr ipath)
                      else
                        a ← device_block_adjust (t_data_device srci) false (it_offset ic) (Some (ad_size sdmdi));
                        match a with
                        | inl r => mret r
                        | inr (isize, _) =>
                            let r := crypt_compare_dm_devices cd (set_segment (t_set_device ipath src) sdmd) tdmd in
                            if negb (r =? 0) then mret r
                            else
                              let flags := keep_readonly sdmd tdmd in
                              let iflags := keep_readonly sdmdi tdmdi in
                              match reload_key flags (ct_vk sc) (ct_vk tc) with
                              | None => mret (- ENOMEM)
                              | Some vk =>
                                  a ← device_block_adjust (Some ipath) false (ct_offset sc) (Some (ad_size sdmd));
                                  match a with
                                  | inl r => mret r
                                  | inr (size, _) =>
                                      switch_tables name iname
                                        (set_segment (t_set_u (U_crypt (ct_set_vk (Some vk) tc)) tgt) (set_size size (set_flags flags tdmd)))
                                        (set_size isize (set_flags iflags sdmdi))
                                  end
                              end
                        end
                  | _, _ => mret (- ENOTSUP)
                  end
              end
        | _, _ => mret (- ENOTSUP)
        end
    end.

Definition _check_header_data_overlap (cd : crypt_device) (name : option string) : Z :=
  if negb (bool_decide (is_Some name)) || negb (isLUKS (cd_type cd)) then 0
  else if device_is_identical (Some data_dev) (Some meta_dev) <=? 0 then 0
  else if crypt_get_data_offset cd =? 0 then - EINVAL else 0.

(** One name: a code, and the flags, without the one to refresh an inactive
    mapping. *)
Definition check_device (name : string) (flags : Z) : T (Z * Z) :=
  r ← ask (fun t => k_status kr t name);
  mret (if (0 <=? r) && negb (has_flag flags CRYPT_ACTIVATE_REFRESH) then (- EBUSY, flags)
        else if (r <? 0) && negb (r =? - ENODEV) then (r, flags)
        else (0, if r =? - ENODEV then clear_flags CRYPT_ACTIVATE_REFRESH flags else flags)).

Definition check_devices (name : string) (iname : option string) (flags : Z) : T (Z * Z) :=
  '(r, flags) ← (match iname with Some i => check_device i flags | None => mret (0, flags) end : T (Z * Z));
  if negb (r =? 0) then mret (r, flags) else check_device name flags.

Definition excl_of (flags : Z) : bool := negb (has_flag flags CRYPT_ACTIVATE_SHARED).

(** [DM_UNKNOWN] is no type of a table, so the segment is dm-crypt's. *)
Definition create_or_reload_device (cd : crypt_device) (name type : string) (dmd : crypt_dm_active_device) : T Z :=
  match single_crypt dmd with
  | None => mret (- EINVAL)
  | Some (tgt, c) =>
      '(r, flags) ← check_devices name None (ad_flags dmd);
      if negb (r =? 0) then mret r
      else if has_flag flags CRYPT_ACTIVATE_REFRESH then _reload_device cd name (set_flags flags dmd)
      else
        a ← device_block_adjust (t_data_device tgt) (excl_of flags) (ct_offset c) (Some (ad_size dmd));
        match a with
        | inl r => mret r
        | inr (size, readonly) =>
            let flags := add_readonly readonly flags in
            '(r, _) ← create_device name type (set_segment (t_set_size size tgt) (set_size size (set_flags flags dmd)));
            mret r
        end
  end.

(** lib/integrity/integrity.c *)
Definition INTEGRITY_create_dmd_device (cd : crypt_device) (params : option integrity_params) (vk journal_crypt_key journal_mac_key : option dm_key)
    (flags sb_flags : Z) : T (Z + crypt_dm_active_device) :=
  let flags := if has_flag sb_flags SB_FLAG_RECALCULATING then Z.lor flags CRYPT_ACTIVATE_RECALCULATE else flags in
  '(r, size) ← lift (INTEGRITY_data_sectors os (crypt_get_data_offset cd *64 SECTOR_SIZE));
  if r <? 0 then mret (inl r)
  else
    mret (match dm_integrity_target_set (k_compat kr) (k_compatibility kr) 0 size (Some meta_dev) (Some data_dev)
                  (crypt_get_integrity_tag_size cd) (crypt_get_data_offset cd) (crypt_get_sector_size cd) vk journal_crypt_key
                  journal_mac_key params with
          | inl r => inl r
          | inr t => inr (ActiveDevice size flags None false [t])
          end).

Definition INTEGRITY_activate_dmd_device (name type : string) (dmd : crypt_dm_active_device) (sb_flags : Z) : T Z :=
  match single_integrity dmd with
  | None => mret (- EINVAL)
  | Some (tgt, i) =>
      a ← device_block_adjust (t_data_device tgt) true (it_offset i) None;
      match a with
      | inl r => mret r
      | inr (_, readonly) =>
          let flags := add_readonly readonly (ad_flags dmd) in
          m ← match it_meta_device i with
              | Some meta => device_block_adjust (Some meta) true 0 None
              | None => mret (inr (0, false))
              end;
          match m with
          | inl r => mret r
          | inr _ =>
              '(r, flags) ← create_device name type (set_flags flags dmd);
              let '(rf, dmi_flags) := dm_flags (k_compat kr) DM_INTEGRITY in
              let unsupported :=
                negb (rf =? 0) || negb (has_flag dmi_flags DM_INTEGRITY_SUPPORTED)
                || (has_flag sb_flags SB_FLAG_FIXED_PADDING && negb (has_flag dmi_flags DM_INTEGRITY_FIX_PADDING_SUPPORTED))
                || (has_flag flags CRYPT_ACTIVATE_RECALCULATE
                    && negb (has_flag (k_compatibility kr) CRYPT_COMPAT_LEGACY_INTEGRITY_RECALC)
                    && (if has_flag sb_flags SB_FLAG_FIXED_HMAC
                        then bool_decide (is_Some (it_vk i)) && negb (bool_decide (is_Some (it_journal_integrity_key i)))
                        else bool_decide (is_Some (it_vk i)) || bool_decide (is_Some (it_journal_integrity_key i)))) in
              mret (if (r <? 0) && unsupported then - ENOTSUP else r)
          end
      end
  end.

(** dm-crypt on top of dm-integrity; the latter is removed again after an error. *)
Definition _create_device_with_integrity (type name iname ipath : string) (dmd dmdi : crypt_dm_active_device) : T Z :=
  match single_crypt dmd with
  | None => mret (- EINVAL)
  | Some (tgt, c) =>
      r ← INTEGRITY_activate_dmd_device iname CRYPT_INTEGRITY dmdi 0;
      if negb (r =? 0) then mret r
      else
        let failed r := _ ← request (Remove iname 0); mret r in
        if k_device_alloc kr ipath <? 0 then failed (k_device_alloc kr ipath)
        else
          a ← device_block_adjust (Some ipath) (excl_of (ad_flags dmd)) (ct_offset c) (Some (ad_size dmd));
          match a with
          | inl r => if r <? 0 then failed r else mret r
          | inr (size, readonly) =>
              let flags := add_readonly readonly (ad_flags dmd) in
              '(r, _) ← create_device name type (set_segment (t_set_device ipath tgt) (set_size size (set_flags flags dmd)));
              if r <? 0 then failed r else mret r
          end
  end.

Definition create_or_reload_device_with_integrity (cd : crypt_device) (name type : string) (dmd dmdi : crypt_dm_active_device) : T Z :=
  let iname := name ++ "_dif" in
  let ipath := k_dir kr ++ "/" ++ iname in
  '(r, flags) ← check_devices name (Some iname) (ad_flags dmd);
  if negb (r =? 0) then mret r
  else if has_flag flags CRYPT_ACTIVATE_REFRESH then _reload_device_with_integrity cd name iname ipath (set_flags flags dmd) dmdi
  else _create_device_with_integrity type name iname ipath (set_flags flags dmd) dmdi.

(** ** Keys of the keyring (lib/luks2/luks2_digest.c, lib/setup.c) *)

(** The number of a digest has one digit. *)
Definition get_key_description_by_digest (cd : crypt_device) (digest : Z) : option string :=
  uuid ← crypt_get_uuid cd;
  let digest_str := "d" ++ dec_u32 digest in
  if 3 <=? strlen digest_str then None else Some ("cryptsetup:" ++ c_string uuid ++ "-" ++ digest_str).

Definition describe (desc : option string) (vk : dm_key) : dm_key := DmKey (keylength vk) (key vk) desc.

Definition crypt_volume_key_load_in_keyring (vk : dm_key) : T Z :=
  match key_description vk with
  | None => mret (- EINVAL)
  | Some d => request (AddKey d (key vk))
  end.

Fixpoint crypt_drop_keyring_key (vks : list dm_key) : T unit :=
  match vks with
  | [] => mret tt
  | vk :: vks =>
      _ ← match key_description vk with Some d => request (RevokeKey d) | None => mret 0 end;
      crypt_drop_keyring_key vks
  end.

(** Described and loaded: the code and the key. *)
Definition load_by_digest (cd : crypt_device) (vk : dm_key) (digest : Z) : T (Z * dm_key) :=
  let vk := describe (get_key_description_by_digest cd digest) vk in
  r ← crypt_volume_key_load_in_keyring vk;
  mret (r, vk).

Definition LUKS2_volume_key_load_in_keyring_by_keyslot (cd : crypt_device) (hdr : luks2_hdr) (vk : dm_key) (keyslot : Z) : T (Z * dm_key) :=
  load_by_digest cd vk (LUKS2_digest_by_keyslot hdr keyslot).

Definition crypt_use_keyring_for_vk (cd : crypt_device) : bool :=
  isLUKS2 (cd_type cd) && k_vk_via_keyring kr && k_keyring kr &&
  (let '(r, dmc_flags) := dm_flags (k_compat kr) DM_CRYPT in
   if negb (r =? 0) then
     match k_version kr with Some v => negb (v <? Z.lor (Z.shiftl 15 32) (Z.shiftl 4 48)) | None => false end
   else has_flag dmc_flags DM_KERNEL_KEYRING_SUPPORTED).

Definition key_of (vk : bytes) : dm_key := DmKey (zlen vk) vk None.

(** ** Activation *)

(** A mapping of one dm-crypt segment over the data device. *)
Definition crypt_dmd (cd : crypt_device) (vk : dm_key) (integrity : option string) (size flags : Z) : crypt_dm_active_device :=
  let tag_size := crypt_get_integrity_tag_size cd in
  ActiveDevice size flags (c_string <$> crypt_get_uuid cd) false
    [DmTarget 0 size (Some data_dev)
       (U_crypt (CryptTarget (crypt_get_cipher_spec cd) (if tag_size =? 0 then None else Some (default "none" integrity)) (Some vk)
                   (crypt_get_data_offset cd) (crypt_get_iv_offset cd) tag_size (crypt_get_sector_size cd)))].

Definition misaligned (a b : Z) : bool := negb (Z.land a (b - 1) =? 0).

Definition PLAIN_activate (cd : crypt_device) (name : string) (vk : dm_key) (size flags : Z) : T Z :=
  if misaligned size (Z.shiftr (k_block_size kr data_dev) 9) then mret (- EINVAL)
  else create_or_reload_device cd name CRYPT_PLAIN
         (crypt_dmd cd vk (crypt_get_integrity cd) size flags).

Definition LUKS1_activate (cd : crypt_device) (name : string) (vk : dm_key) (flags : Z) : T Z :=
  create_or_reload_device cd name CRYPT_LUKS1 (crypt_dmd cd vk (crypt_get_integrity cd) 0 flags).

(** Flags of the header are added unless they are ignored. *)
Definition persistent (hdr : luks2_hdr) (flags : Z) : Z :=
  if has_flag flags CRYPT_ACTIVATE_IGNORE_PERSISTENT then flags else Z.lor (LUKS2_config_get_flags hdr) flags.

Definition LUKS2_activate (cd : crypt_device) (hdr : luks2_hdr) (name : string) (vk : dm_key) (flags : Z) : T Z :=
  let r := LUKS2_unmet_requirements hdr 0 in
  if negb (r =? 0) then mret r
  else
    let flags := persistent hdr flags in
    let dmd := crypt_dmd cd vk (Some (default "none" (crypt_get_integrity cd))) 0 flags in
    if crypt_get_integrity_tag_size cd =? 0 then create_or_reload_device cd name CRYPT_LUKS2 dmd
    else if negb (LUKS2_integrity_compatible hdr) then mret (- EINVAL)
    else if has_flag flags CRYPT_ACTIVATE_ALLOW_DISCARDS then mret (- EINVAL)
    else
      i ← INTEGRITY_create_dmd_device cd None None None None flags 0;
      match i with
      | inl r => mret r
      | inr dmdi =>
          let dmdi := ActiveDevice (ad_size dmdi) (Z.lor (ad_flags dmdi) CRYPT_ACTIVATE_PRIVATE) (ad_uuid dmd) false (ad_segments dmdi) in
          match single_crypt dmd, single_segment dmdi with
          | Some (tgt, c), Some tgti =>
              let tgt := t_set_size (t_size tgti) (t_set_u (U_crypt (ct_set_offset 0 c)) tgt) in
              create_or_reload_device_with_integrity cd name CRYPT_LUKS2 (set_segment tgt dmd) dmdi
          | _, _ => mret (- EINVAL)
          end
      end.

(** *** Several keys: a device in reencryption *)

(** Keys with the numbers of their digests. *)
Definition keys : Type := list (Z * dm_key).

Definition drop_keys (vks : keys) : T unit := crypt_drop_keyring_key (snd <$> vks).

(** The keys are left as far as they were described. *)
Fixpoint load_all_keys (cd : crypt_device) (vks : keys) : T (Z * keys) :=
  match vks with
  | [] => mret (0, [])
  | (id, vk) :: vks =>
      '(r, vk) ← load_by_digest cd vk id;
      if r <? 0 then mret (r, (id, vk) :: vks)
      else
        '(r, vks) ← load_all_keys cd vks;
        mret (r, (id, vk) :: vks)
  end.

Definition key_by_id (vks : keys) (id : Z) : option dm_key :=
  if id <? 0 then None else snd <$> List.find (fun k => k.1 =? id) vks.

(** lib/luks2/luks2_reencrypt.c; the result is an int. *)
Definition LUKS2_reencrypt_data_offset (hdr : luks2_hdr) (blockwise : bool) : Z :=
  let data_offset := LUKS2_get_data_offset hdr in
  let data_offset :=
    if bool_decide (LUKS2_reencrypt_status hdr = CRYPT_REENCRYPT_CLEAN) && bool_decide (reencrypt_direction hdr = CRYPT_REENCRYPT_FORWARD)
    then data_offset +64 Z.shiftr (reencrypt_data_shift hdr) SECTOR_SHIFT else data_offset in
  i32 (if blockwise then data_offset else u64 (Z.shiftl data_offset SECTOR_SHIFT)).

(** Code and size; the data device is no file that could grow. *)
Definition LUKS2_reencrypt_check_device_size (hdr : luks2_hdr) (check_size : Z) (dynamic : bool) : T (Z * Z) := fun t =>
  let moved := bool_decide (is_Some (LUKS2_get_segment_by_flag hdr "backup-moved-segment")) in
  let check_size :=
    if bool_decide (reencrypt_direction hdr = CRYPT_REENCRYPT_BACKWARD) && (moved || dynamic)
    then check_size +64 reencrypt_data_shift hdr else check_size in
  let data_offset := u64 (LUKS2_reencrypt_data_offset hdr false) in
  let '(rs, real_size) := se_data_size env in
  mret (if negb (k_data_access kr t =? 0) then (k_data_access kr t, 0)
        else if negb (rs =? 0) then (- EIO, 0)
        else if real_size <? data_offset then (- EINVAL, 0)
        else if negb (check_size =? 0) && (real_size - data_offset <? check_size) then (- EINVAL, 0)
        else (0, real_size - data_offset), t).

(** The segments from [s] on, of which [n] are left; sizes in sectors. *)
Fixpoint multi_segments (n : nat) (hdr : luks2_hdr) (vks : keys) (segments : json) (size s start : Z) : Z + list dm_target :=
  match n with
  | O => inr []
  | S n =>
      match json_segments_get_segment segments s with
      | None => inl (- EINVAL)
      | Some j =>
          let offset := json_segment_get_offset (Some j) true in
          let segment_size := json_segment_get_size (Some j) true in
          let segment_size := if (segment_size =? 0) && Nat.eqb n 0 then size -64 start else segment_size in
          if segment_size =? 0 then inl (- EINVAL)
          else
            let target :=
              if bool_decide (json_segment_type (Some j) = Some "crypt") then
                match key_by_id vks (LUKS2_digest_by_segment hdr s) with
                | None => inl (- EINVAL)
                | Some vk => inr (dm_crypt_target_set start segment_size data_dev vk (json_segment_get_cipher (Some j))
                                    (json_segment_get_iv_offset (Some j)) offset (Some "none") 0 (u32 (json_segment_get_sector_size (Some j))))
                end
              else if bool_decide (json_segment_type (Some j) = Some "linear") then dm_linear_target_set start segment_size (Some data_dev) offset
              else inl (- EINVAL) in
            match target with
            | inl r => inl r
            | inr t =>
                match multi_segments n hdr vks segments size (s + 1) (start +64 segment_size) with
                | inl r => inl r
                | inr l => inr (t :: l)
                end
            end
      end
  end.

Definition LUKS2_assembly_multisegment_dmd (hdr : luks2_hdr) (vks : keys) (dmd : crypt_dm_active_device) : T (Z + crypt_dm_active_device) :=
  a ← device_block_adjust (Some data_dev) (excl_of (ad_flags dmd)) (u64 (LUKS2_reencrypt_data_offset hdr true)) (Some (ad_size dmd));
  mret (match a with
        | inl r => inl r
        | inr (size, readonly) =>
            let count := json_segments_count (LUKS2_get_segments_jobj hdr) in
            match LUKS2_get_segments_jobj hdr with
            | None => inl (- EINVAL)
            | Some segments =>
                if count =? 0 then inl (- EINVAL)
                else match multi_segments (Z.to_nat count) hdr vks segments size 0 0 with
                | inl r => inl r
                | inr l => inr (ActiveDevice size (add_readonly readonly (ad_flags dmd)) (ad_uuid dmd) false l)
                end
            end
        end).

(** The parameters of both functions over all segments of the header. *)
Definition multi_dmd (cd : crypt_device) (hdr : luks2_hdr) (device_size flags : Z) : crypt_dm_active_device :=
  ActiveDevice device_size (persistent hdr flags) (c_string <$> crypt_get_uuid cd) false [].

Definition LUKS2_activate_multi (cd : crypt_device) (hdr : luks2_hdr) (name : string) (vks : keys) (device_size flags : Z) : T Z :=
  let r := LUKS2_unmet_requirements hdr CRYPT_REQUIREMENT_ONLINE_REENCRYPT in
  if negb (r =? 0) then mret r
  else
    d ← LUKS2_assembly_multisegment_dmd hdr vks (multi_dmd cd hdr device_size flags);
    match d with
    | inl r => mret r
    | inr dmd => '(r, _) ← create_device name CRYPT_LUKS2 dmd; mret r
    end.

(** The requirements come before the flags here too; the mapping stays in use. *)
Definition LUKS2_reload (cd : crypt_device) (hdr : luks2_hdr) (name : string) (vks : keys) (device_size flags : Z) : T Z :=
  if negb (crypt_get_integrity_tag_size cd =? 0) then mret (- ENOTSUP)
  else
    let r := LUKS2_unmet_requirements hdr CRYPT_REQUIREMENT_ONLINE_REENCRYPT in
    if negb (r =? 0) then mret r
    else
      let dmd := multi_dmd cd hdr (Z.shiftr device_size SECTOR_SHIFT) flags in
      d ← LUKS2_assembly_multisegment_dmd hdr vks (set_flags (Z.lor (ad_flags dmd) CRYPT_ACTIVATE_SHARED) dmd);
      match d with
      | inl r => mret r
      | inr dmd => dm_reload_device name dmd false
      end.

(** *** By a passphrase *)

Definition segment_of (flags : Z) : Z :=
  if has_flag flags CRYPT_ACTIVATE_ALLOW_UNBOUND_KEY then CRYPT_ANY_SEGMENT else CRYPT_DEFAULT_SEGMENT.

(** Whether the key of a mapping goes through the keyring. *)
Definition use_keyring (cd : crypt_device) (name : option string) (flags : Z) : bool :=
  crypt_use_keyring_for_vk cd &&
  (bool_decide (is_Some name) && negb (crypt_is_cipher_null (crypt_get_cipher cd)) || has_flag flags CRYPT_ACTIVATE_KEYRING_KEY).

(** [None] checks the passphrase only. *)
Definition activate_named (cd : crypt_device) (hdr : luks2_hdr) (name : option string) (vk : dm_key) (flags : Z) : T Z :=
  match name with
  | Some name => LUKS2_activate cd hdr name vk flags
  | None => mret 0
  end.

Definition finish_key (keyslot r : Z) (vk : dm_key) : T Z :=
  if r <? 0 then (_ ← crypt_drop_keyring_key [vk]; mret r) else mret keyslot.

Definition _open_and_activate (cd : crypt_device) (hdr : luks2_hdr) (keyslot : Z) (name : option string) (passphrase : bytes) (flags : Z) : T Z :=
  '(keyslot, vk) ← lift (LUKS2_keyslot_open (keys_of env cd) hdr keyslot (segment_of flags) passphrase);
  match vk with
  | None => mret keyslot
  | Some (_, vk) =>
      let vk := key_of vk in
      if use_keyring cd name flags then
        '(r, vk) ← LUKS2_volume_key_load_in_keyring_by_keyslot cd hdr vk keyslot;
        if r <? 0 then finish_key keyslot r vk
        else
          r ← activate_named cd hdr name vk (Z.lor flags CRYPT_ACTIVATE_KEYRING_KEY);
          finish_key keyslot r vk
      else
        r ← activate_named cd hdr name vk flags;
        finish_key keyslot r vk
  end.

Definition keys_of_list (l : list volume_key) : keys := (fun k => (k.1, key_of k.2)) <$> l.

Definition _open_all_keys (cd : crypt_device) (hdr : luks2_hdr) (keyslot : Z) (passphrase : bytes) (flags : Z) : T (Z * keys) :=
  let segment := segment_of flags in
  let open_one :=
    '(r, vk) ← LUKS2_keyslot_open (keys_of env cd) hdr keyslot segment passphrase;
    mret (r, option_list vk) in
  '(r, vks) ← lift (match LUKS2_reencrypt_status hdr with
                    | CRYPT_REENCRYPT_NONE => open_one
                    | CRYPT_REENCRYPT_CLEAN | CRYPT_REENCRYPT_CRASH =>
                        if segment =? CRYPT_ANY_SEGMENT then open_one
                        else LUKS2_keyslot_open_all_segments (keys_of env cd) hdr keyslot keyslot passphrase
                    | CRYPT_REENCRYPT_INVALID => mret (- EINVAL, [])
                    end);
  let vks := keys_of_list vks in
  let keyslot := if keyslot =? CRYPT_ANY_SLOT then r else keyslot in
  if r <? 0 then mret (r, [])
  else if has_flag flags CRYPT_ACTIVATE_KEYRING_KEY then
    '(r, vks) ← load_all_keys cd vks;
    if r <? 0 then (_ ← drop_keys vks; mret (r, [])) else mret (keyslot, vks)
  else mret (keyslot, vks).

(** The recovery of an interrupted reencryption,
    LUKS2_reencrypt_locked_recovery_by_passphrase: code or keyslot, the context
    with the header left, and the keys. *)
Variable locked_recovery : crypt_device -> Z -> bytes -> Z -> T (Z * crypt_device * keys).

Definition luks2_hdr_of (cd : crypt_device) : option luks2_hdr := match cd_u cd with U_luks2 l => Some (l2_hdr l) | _ => None end.

(** A header whose data size is not known ends it with the code of the step
    before. *)
Definition activate_segments (cd : crypt_device) (hdr : luks2_hdr) (r keyslot : Z) (name : string) (passphrase : bytes) (flags : Z) (vks : keys) : T Z :=
  let failed r vks := _ ← drop_keys vks; mret r in
  let '(rs, minimal_size, dynamic) := LUKS2_get_data_size hdr in
  if negb (rs =? 0) then (if r <? 0 then failed r vks else mret keyslot)
  else
    '(keyslot, vks) ← (match vks with
                       | [] => _open_all_keys cd hdr keyslot passphrase flags
                       | _ => mret (keyslot, vks)
                       end : T (Z * keys));
    if keyslot <? 0 then failed keyslot vks
    else
      '(r, device_size) ← LUKS2_reencrypt_check_device_size hdr minimal_size dynamic;
      if r <? 0 then failed r vks
      else
        r ← LUKS2_activate_multi cd hdr name vks (Z.shiftr device_size SECTOR_SHIFT) flags;
        if r <? 0 then failed r vks else mret keyslot.

Definition _open_and_activate_reencrypt_device (cd : crypt_device) (keyslot : Z) (name : string) (passphrase : bytes) (flags : Z)
    : T (Z * crypt_device) :=
  let flags := if crypt_use_keyring_for_vk cd then Z.lor flags CRYPT_ACTIVATE_KEYRING_KEY else flags in
  if negb (k_reencrypt_lock kr =? 0) then mret (k_reencrypt_lock kr, cd)
  else
    '(r, cd) ← lift (crypt_load_luks env cd (Some CRYPT_LUKS2));
    match luks2_hdr_of cd with
    | None => mret (r, cd)
    | Some hdr =>
        if negb (r =? 0) then mret (if r <? 0 then r else keyslot, cd)
        else
          '(r, cd, vks, keyslot) ←
             (if bool_decide (LUKS2_reencrypt_status hdr = CRYPT_REENCRYPT_CRASH) then
                '(r, cd, vks) ← locked_recovery cd keyslot passphrase flags;
                mret (r, cd, vks, if r <? 0 then keyslot else r)
              else mret (r, cd, [], keyslot) : T (Z * crypt_device * keys * Z));
          if r <? 0 then (_ ← drop_keys vks; mret (r, cd))
          else match luks2_hdr_of cd with
          | None => mret (r, cd)
          | Some hdr =>
              match LUKS2_reencrypt_status hdr with
              | CRYPT_REENCRYPT_NONE =>
                  _ ← drop_keys vks;
                  r ← _open_and_activate cd hdr keyslot (Some name) passphrase flags;
                  mret (r, cd)
              | CRYPT_REENCRYPT_CLEAN =>
                  r ← activate_segments cd hdr r keyslot name passphrase flags vks;
                  mret (r, cd)
              | _ => _ ← drop_keys vks; mret (- EINVAL, cd)
              end
          end
    end.

Definition _open_and_activate_luks2 (cd : crypt_device) (hdr : luks2_hdr) (keyslot : Z) (name : option string) (passphrase : bytes) (flags : Z)
    : T (Z * crypt_device) :=
  match LUKS2_reencrypt_status hdr, name with
  | CRYPT_REENCRYPT_INVALID, _ => mret (- EINVAL, cd)
  | CRYPT_REENCRYPT_NONE, _ => r ← _open_and_activate cd hdr keyslot name passphrase flags; mret (r, cd)
  | _, Some name => _open_and_activate_reencrypt_device cd keyslot name passphrase flags
  | _, None => '(r, _) ← _open_all_keys cd hdr keyslot passphrase flags; mret (r, cd)
  end.

(** BITLK_activate_by_passphrase, and the activation of verity, TrueCrypt,
    integrity and BitLocker by a key, of such a context. *)
Variable bitlk_by_passphrase : crypt_device -> option string -> bytes -> Z -> T Z.
Variable other_by_volume_key : crypt_device -> option string -> option bytes -> Z -> T Z.

Let env1 : luks1_env := cv_luks1 (se_convert env).

Definition _activate_by_passphrase (cd : crypt_device) (name : option string) (keyslot : Z) (passphrase : bytes) (flags : Z) : T (Z * crypt_device) :=
  if has_flag flags CRYPT_ACTIVATE_KEYRING_KEY && negb (crypt_use_keyring_for_vk cd) then mret (- EINVAL, cd)
  else if has_flag flags CRYPT_ACTIVATE_ALLOW_UNBOUND_KEY && bool_decide (is_Some name) then mret (- EINVAL, cd)
  else if _check_header_data_overlap cd name <? 0 then mret (_check_header_data_overlap cd name, cd)
  else match cd_u cd with
  | U_plain hdr c =>
      match name with
      | None => mret (- EINVAL, cd)
      | Some name =>
          match process_key (pl_hash hdr) (ci_key_size c) passphrase with
          | inl r => mret (r, cd)
          | inr vk =>
              r ← PLAIN_activate cd name (key_of vk) (pl_size hdr) flags;
              mret (if r <? 0 then r else 0, cd)
          end
      end
  | U_luks1 hdr _ =>
      '(keyslot, vk) ← lift (LUKS_open_key_with_hdr env1 keyslot passphrase hdr);
      if keyslot <? 0 then mret (keyslot, cd)
      else match name with
      | None => mret (keyslot, cd)
      | Some name =>
          r ← LUKS1_activate cd name (key_of vk) flags;
          mret (if r <? 0 then r else keyslot, cd)
      end
  | U_luks2 l => _open_and_activate_luks2 cd (l2_hdr l) keyslot name passphrase flags
  | U_bitlk _ _ _ _ =>
      r ← bitlk_by_passphrase cd name passphrase flags;
      mret (if r <? 0 then r else 0, cd)
  | _ => mret (- EINVAL, cd)
  end.

(** lib/loopaes/loopaes.c *)
Definition LOOPAES_activate (cd : crypt_device) (name base_cipher : string) (keys_count : Z) (vk : dm_key) (flags : Z) : T Z :=
  a ← device_block_adjust (Some data_dev) true (crypt_get_data_offset cd) (Some 0);
  match a with
  | inl r => mret r
  | inr (size, readonly) =>
      let '(req_flags, cipher) :=
        if keys_count =? 1 then (DM_PLAIN64_SUPPORTED, base_cipher ++ "-cbc-plain64")
        else (DM_LMK_SUPPORTED, base_cipher ++ ":64-cbc-lmk") in
      let t := dm_crypt_target_set 0 size data_dev vk cipher (crypt_get_iv_offset cd) (crypt_get_data_offset cd) (crypt_get_integrity cd)
                 (crypt_get_integrity_tag_size cd) (crypt_get_sector_size cd) in
      '(r, _) ← create_device name CRYPT_LOOPAES (ActiveDevice size (add_readonly readonly flags) None false [t]);
      let '(rf, dmc_flags) := dm_flags (k_compat kr) DM_CRYPT in
      mret (if (r <? 0) && (rf =? 0) && negb (Z.land dmc_flags req_flags =? req_flags) then - ENOTSUP else r)
  end.

Definition _activate_loopaes (cd : crypt_device) (hdr : plain_params) (cipher : cipher_info) (name : option string) (buffer : bytes) (flags : Z) : T Z :=
  match LOOPAES_parse_keyfile (pl_hash hdr) buffer (ci_key_size cipher), name with
  | inl r, _ => mret r
  | inr _, None => mret 0
  | inr (key_count, vk), Some name => LOOPAES_activate cd name (ci_cipher cipher) key_count (key_of vk) flags
  end.

Definition _activate_check_status (name : option string) (reload : bool) : T Z :=
  match name with
  | None => mret 0
  | Some name =>
      r ← ask (fun t => k_status kr t name);
      mret (if (0 <=? r) && reload then 0
            else if (0 <=? r) || (r =? - EEXIST) then - EEXIST
            else if r =? - ENODEV then 0 else r)
  end.

(** A check of the name, then the activation. *)
Definition checked (cd : crypt_device) (name : option string) (flags : Z) (k : T (Z * crypt_device)) : T (Z * crypt_device) :=
  r ← _activate_check_status name (has_flag flags CRYPT_ACTIVATE_REFRESH);
  if r <? 0 then mret (r, cd) else k.

Definition crypt_activate_by_passphrase (cd : crypt_device) (name : option string) (keyslot : Z) (passphrase : option bytes) (flags : Z)
    : T (Z * crypt_device) :=
  match passphrase with
  | None => mret (- EINVAL, cd)
  | Some passphrase =>
      if negb (bool_decide (is_Some name)) && has_flag flags CRYPT_ACTIVATE_REFRESH then mret (- EINVAL, cd)
      else checked cd name flags (_activate_by_passphrase cd name keyslot passphrase flags)
  end.

Definition crypt_activate_by_keyfile_device_offset (cd : crypt_device) (name : option string) (keyslot : Z) (keyfile : key_input)
    (keyfile_size keyfile_offset flags : Z) : T (Z * crypt_device) :=
  if has_flag flags CRYPT_ACTIVATE_KEYRING_KEY && negb (crypt_use_keyring_for_vk cd) then mret (- EINVAL, cd)
  else checked cd name flags (
    match crypt_keyfile_device_read keyfile keyfile_offset keyfile_size 0 with
    | inl r => mret (r, cd)
    | inr passphrase =>
        match cd_u cd with
        | U_loopaes hdr c => r ← _activate_loopaes cd hdr c name passphrase flags; mret (r, cd)
        | _ => _activate_by_passphrase cd name keyslot passphrase flags
        end
    end).

Definition crypt_activate_by_keyring (cd : crypt_device) (name : option string) (key_description : string) (keyslot flags : Z) : T (Z * crypt_device) :=
  if negb (k_keyring kr) then mret (- EINVAL, cd)
  else checked cd name flags (
    match k_passphrase kr key_description with
    | inl _ => mret (- EINVAL, cd)
    | inr passphrase => _activate_by_passphrase cd name keyslot passphrase flags
    end).

(** *** By a volume key *)

(** The key given, or that of the context: a copy, or an error. *)
Definition given_key (cd : crypt_device) (volume_key : option bytes) : Z + dm_key :=
  match (match volume_key with Some k => Some k | None => cd_volume_key cd end) with
  | None => inl (- EINVAL)
  | Some k => match alloc_key env k with Some k => inr (key_of k) | None => inl (- ENOMEM) end
  end.

(** The end for a key that was verified with code [r]. *)
Definition activate_luks2_key (cd : crypt_device) (hdr : luks2_hdr) (name : option string) (vk : dm_key) (flags : Z) : T Z :=
  if use_keyring cd name flags then
    '(r, vk) ← load_by_digest cd vk (LUKS2_digest_by_segment hdr CRYPT_DEFAULT_SEGMENT);
    if negb (r =? 0) then finish_key r r vk
    else
      r ← activate_named cd hdr name vk (Z.lor flags CRYPT_ACTIVATE_KEYRING_KEY);
      finish_key r r vk
  else
    r ← activate_named cd hdr name vk flags;
    finish_key r r vk.

Definition crypt_activate_by_volume_key (cd : crypt_device) (name : option string) (volume_key : option bytes) (flags : Z) : T Z :=
  if has_flag flags CRYPT_ACTIVATE_KEYRING_KEY && negb (crypt_use_keyring_for_vk cd) then mret (- EINVAL)
  else
    r ← _activate_check_status name (has_flag flags CRYPT_ACTIVATE_REFRESH);
    if r <? 0 then mret r
    else if _check_header_data_overlap cd name <? 0 then mret (_check_header_data_overlap cd name)
    else match cd_u cd with
    | U_plain hdr c =>
        match name, volume_key with
        | Some name, Some k =>
            if (zlen k =? 0) || negb (zlen k =? ci_key_size c) then mret (- EINVAL)
            else match alloc_key env k with
            | None => mret (- ENOMEM)
            | Some k => PLAIN_activate cd name (key_of k) (pl_size hdr) flags
            end
        | _, _ => mret (- EINVAL)
        end
    | U_luks1 hdr _ =>
        match given_key cd volume_key with
        | inl r => mret r
        | inr vk =>
            let r := LUKS_verify_volume_key hdr (key vk) in
            match name with
            | Some name => if r =? 0 then LUKS1_activate cd name vk flags else mret r
            | None => mret r
            end
        end
    | U_luks2 l =>
        match given_key cd volume_key with
        | inl r => mret r
        | inr vk =>
            let r := LUKS2_digest_verify_by_segment (l2_hdr l) CRYPT_DEFAULT_SEGMENT (key vk) in
            if r <? 0 then mret r else activate_luks2_key cd (l2_hdr l) name vk flags
        end
    | Setup.U_verity _ _ _ | U_tcrypt _ _ _ | Setup.U_integrity _ _ _ | U_bitlk _ _ _ _ => other_by_volume_key cd name volume_key flags
    | _ => mret (- EINVAL)
    end.

(** ** Active mappings *)

(** [key_in_keyring] is the state of the context. *)
Definition crypt_resize (cd : crypt_device) (key_in_keyring : bool) (name : string) (new_size : Z) : T Z :=
  if negb (bool_decide (is_Some (cd_type cd))) then mret (- EINVAL)
  else if isTCRYPT (cd_type cd) || isBITLK (cd_type cd) then mret (- ENOTSUP)
  else
    q ← query_device name DM_KEY_FLAGS;
    match q with
    | inl _ => mret (- EINVAL)
    | inr (_, dmdq) =>
        match single_crypt dmdq with
        | None => mret (- EINVAL)
        | Some (_, tc) =>
            match ct_vk tc with
            | None => mret (- EINVAL)
            | Some vk =>
                if has_flag (ad_flags dmdq) CRYPT_ACTIVATE_KEYRING_KEY && negb key_in_keyring then mret (- EPERM)
                else if key_in_keyring && negb (isLUKS2 (cd_type cd)) then mret (- EINVAL)
                else
                  let hdr := luks2_hdr_of cd in
                  let vk := if key_in_keyring
                            then describe (h ← hdr; get_key_description_by_digest cd (LUKS2_digest_by_segment h CRYPT_DEFAULT_SEGMENT)) vk
                            else vk in
                  let flags := if key_in_keyring then Z.lor (ad_flags dmdq) CRYPT_ACTIVATE_KEYRING_KEY else ad_flags dmdq in
                  _ ← (if k_is_loop kr data_dev then request (ResizeLoop data_dev) else mret 0);
                  a ← device_block_adjust (Some data_dev) false (crypt_get_data_offset cd) (Some new_size);
                  match a with
                  | inl r => mret r
                  | inr (new_size, readonly) =>
                      if misaligned new_size (Z.shiftr (ct_sector_size tc) SECTOR_SHIFT) then mret (- EINVAL)
                      else if misaligned new_size (Z.shiftr (k_block_size kr data_dev) SECTOR_SHIFT) then mret (- EINVAL)
                      else
                        let dmd := crypt_dmd cd vk (crypt_get_integrity cd) new_size
                                     (Z.lor (add_readonly readonly flags) CRYPT_ACTIVATE_REFRESH) in
                        if new_size =? ad_size dmdq then mret 0
                        else
                          let r := match hdr with Some h => LUKS2_unmet_requirements h 0 | None => 0 end in
                          if negb (r =? 0) then mret r else _reload_device cd name dmd
                  end
            end
        end
    end.

Definition crypt_get_device_key_description (name : string) : T (option string) :=
  q ← query_device name DM_KEY_FLAGS;
  mret (match q with
        | inr (_, dmd) =>
            '(_, tc) ← single_crypt dmd;
            if has_flag (ad_flags dmd) CRYPT_ACTIVATE_KEYRING_KEY then vk ← ct_vk tc; key_description vk else None
        | inl _ => None
        end).

(** [active_name] is the mapping by which a context without type was found. *)
Definition crypt_uuid_type_cmp (active_name : option string) (type : string) : T Z :=
  match active_name with
  | None => mret (- EINVAL)
  | Some name =>
      q ← query_device name DM_ACTIVE_UUID;
      mret (match q with
            | inl r => r
            | inr (_, dmd) =>
                match ad_uuid dmd with
                | Some uuid => if String.prefix (type ++ "-") uuid then 0 else - ENODEV
                | None => - ENODEV
                end
            end)
  end.

Definition suspendable (cd : crypt_device) (active_name : option string) : T Z :=
  if bool_decide (is_Some (cd_type cd)) then mret (onlyLUKS cd)
  else
    r ← crypt_uuid_type_cmp active_name CRYPT_LUKS1;
    if r <? 0 then crypt_uuid_type_cmp active_name CRYPT_LUKS2 else mret r.

Definition crypt_suspend (cd : crypt_device) (active_name : option string) (name : string) : T Z :=
  r ← suspendable cd active_name;
  if r <? 0 then mret r
  else
    status ← ask (fun t => k_status kr t name);
    if status <? 0 then mret (- EINVAL)
    else
      s ← ask (fun t => k_suspended kr t name);
      if s <? 0 then mret s
      else if negb (s =? 0) then mret (- EINVAL)
      else
        key_desc ← crypt_get_device_key_description name;
        let wrapped := crypt_cipher_wrapped_key (default "" (crypt_get_cipher cd)) (crypt_get_cipher_mode cd) in
        r ← dm_suspend_device name (negb wrapped);
        _ ← match key_desc with Some d => if r =? 0 then request (RevokeKey d) else mret 0 | None => mret 0 end;
        mret r.

(** The key was verified; a cipher null has none. *)
Definition resume_by_volume_key (cd : crypt_device) (vk : dm_key) (name : string) : T Z :=
  '(r, vk) ←
     (if crypt_is_cipher_null (crypt_get_cipher_spec cd) then mret (0, key_of [])
      else match luks2_hdr_of cd with
      | Some hdr =>
          if crypt_use_keyring_for_vk cd then
            let digest := LUKS2_digest_by_segment hdr CRYPT_DEFAULT_SEGMENT in
            if digest <? 0 then mret (- EINVAL, vk) else load_by_digest cd vk digest
          else mret (0, vk)
      | None => mret (0, vk)
      end : T (Z * dm_key));
  if r <? 0 then mret r
  else
    r ← dm_resume_and_reinstate_key name vk;
    if r <? 0 then (_ ← crypt_drop_keyring_key [vk]; mret r) else mret r.

Definition only_suspended (cd : crypt_device) (name : string) (k : T Z) : T Z :=
  if negb (onlyLUKS cd =? 0) then mret (onlyLUKS cd)
  else
    s ← ask (fun t => k_suspended kr t name);
    if s <? 0 then mret s else if s =? 0 then mret (- EINVAL) else k.

Definition resume_by (cd : crypt_device) (name : string) (keyslot : Z) (passphrase : bytes) : T Z :=
  '(keyslot, vk) ← lift (open_keyslot env cd keyslot CRYPT_DEFAULT_SEGMENT passphrase);
  if keyslot <? 0 then mret keyslot
  else
    r ← resume_by_volume_key cd (key_of vk) name;
    mret (if r <? 0 then r else keyslot).

Definition crypt_resume_by_passphrase (cd : crypt_device) (name : string) (keyslot : Z) (passphrase : option bytes) : T Z :=
  match passphrase with
  | None => mret (- EINVAL)
  | Some passphrase => only_suspended cd name (resume_by cd name keyslot passphrase)
  end.

Definition crypt_resume_by_keyfile_device_offset (cd : crypt_device) (name : string) (keyslot : Z) (keyfile : key_input)
    (keyfile_size keyfile_offset : Z) : T Z :=
  only_suspended cd name (
    match crypt_keyfile_device_read keyfile keyfile_offset keyfile_size 0 with
    | inl r => mret r
    | inr passphrase => resume_by cd name keyslot passphrase
    end).

Definition crypt_resume_by_volume_key (cd : crypt_device) (name : string) (volume_key : option bytes) : T Z :=
  match volume_key with
  | None => mret (- EINVAL)
  | Some volume_key =>
      only_suspended cd name (
        match alloc_key env volume_key with
        | None => mret (- ENOMEM)
        | Some vk =>
            let r := match cd_u cd with
                     | U_luks1 hdr _ => LUKS_verify_volume_key hdr vk
                     | U_luks2 l => LUKS2_digest_verify_by_segment (l2_hdr l) CRYPT_DEFAULT_SEGMENT vk
                     | _ => - EINVAL
                     end in
            if 0 <=? r then resume_by_volume_key cd (key_of vk) name else mret r
        end)
  end.

(** *** Removal *)

(** The descriptions of the keys in a table. *)
Definition table_keys (q : Z + Z * crypt_dm_active_device) : list dm_key :=
  match q with
  | inl _ => []
  | inr (_, dmd) => omap (fun s => c ← crypt_u s; ct_vk c) (ad_segments dmd)
  end.

(** A mapping with its keys; a dependent one may be gone already. *)
Definition remove_with_keys (name : string) (flags : Z) (dependent : bool) : T Z :=
  q ← query_device name DM_KEY_FLAGS;
  r ← request (Remove name flags);
  status ← ask (fun t => k_status kr t name);
  let r := if dependent && (r <? 0) && (status =? - ENODEV) then 0 else r in
  _ ← (if r =? 0 then crypt_drop_keyring_key (table_keys q) else mret tt);
  mret r.

(** Suspended helpers of a reencryption get tables of errors. *)
Fixpoint error_helpers (deps : list string) : T unit :=
  match deps with
  | [] => mret tt
  | dep :: deps =>
      _ ← (if is_reencryption_helper dep then
             s ← ask (fun t => k_suspended kr t dep);
             if 0 <? s then dm_error_device dep else mret 0
           else mret 0 : T Z);
      error_helpers deps
  end.

(** The first error is returned. *)
Fixpoint remove_deps (deps : list string) (flags ret : Z) : T Z :=
  match deps with
  | [] => mret ret
  | dep :: deps =>
      r ← remove_with_keys dep flags true;
      remove_deps deps flags (if negb (r =? 0) && (ret =? 0) then r else ret)
  end.

(** [reencrypt_lock] is the lock by the UUID of the mapping; [dm_device_deps]
    leaves no names after an error. *)
Definition LUKS2_deactivate (cd : crypt_device) (name : string) (hdr : option luks2_hdr) (dmd : crypt_dm_active_device) (reencrypt_lock flags : Z) : T Z :=
  match ad_uuid dmd with
  | None => mret (- EINVAL)
  | Some uuid =>
      if negb (String.prefix CRYPT_LUKS2 uuid) then mret (- EINVAL)
      else if match hdr with Some h => negb (crypt_uuid_cmp (Some uuid) (Some (c_string (Luks2Json.uuid h))) =? 0) | None => false end then mret (- EINVAL)
      else
        let id := String.substring 6 32 uuid in
        if negb (strlen id =? 32) then mret (- EINVAL)
        else
          let namei :=
            match hdr, single_crypt dmd with
            | Some _, Some (tgt, _) => if crypt_get_integrity_tag_size cd =? 0 then None else d ← t_data_device tgt; k_dm_name kr d
            | _, _ => None
            end in
          '(r, deps) ← ask (fun t => k_deps kr t name ("SUBDEV-" ++ id));
          if r <? 0 then mret r
          else if contains_reencryption_helper deps && negb (reencrypt_lock =? 0) then mret reencrypt_lock
          else
            _ ← error_helpers deps;
            r ← remove_with_keys name flags false;
            r ← match namei with
                | Some i => if 0 <=? r then request (Remove i 0) else mret r
                | None => mret r
                end;
            if negb (r =? 0) then mret r else remove_deps deps flags 0
  end.

(** Mappings of TrueCrypt by what the kernel says now. *)
Definition tcrypt_names (t : trace) (flags : Z) : dm_names :=
  DmNames (k_status kr t)
    (fun n => match dm_query_device (k_lookup kr) DM_ACTIVE_UUID (k_info kr t n) with
              | Ok (r, d) => (r, ad_uuid d)
              | Err r => (r, None)
              | _ => (- EINVAL, None)
              end)
    (fun n => k_do kr t (Remove n flags)).

Definition deactivate_tcrypt (name : string) (flags : Z) : T Z := fun t =>
  let '(r, names) := TCRYPT_deactivate (tcrypt_names t flags) name in
  mret (r, (t ++ ((fun n => Remove n flags) <$> names))%list).

(** A context is given. *)
Definition crypt_deactivate_by_name (cd : crypt_device) (name : string) (reencrypt_lock flags : Z) : T Z :=
  if has_flag flags CRYPT_DEACTIVATE_DEFERRED && has_flag flags CRYPT_DEACTIVATE_DEFERRED_CANCEL then mret (- EINVAL)
  else
    status ← ask (fun t => k_status kr t name);
    if status =? - ENODEV then mret (- ENODEV)
    else if status <? 0 then mret (- EINVAL)
    else
      r ← (if has_flag flags CRYPT_DEACTIVATE_DEFERRED_CANCEL then
             r ← request (CancelDeferred name);
             mret (if r =? 0 then inl 0 else inl (- ENOTSUP))
           else
             let holders := negb (has_flag flags (Z.lor CRYPT_DEACTIVATE_FORCE (Z.lor CRYPT_DEACTIVATE_DEFERRED CRYPT_DEACTIVATE_DEFERRED_CANCEL))) in
             q ← query_device name (Z.lor (Z.lor DM_ACTIVE_DEVICE DM_ACTIVE_UUID) (if holders then DM_ACTIVE_HOLDERS else 0));
             let dmd := match q with inr (_, dmd) => dmd | inl _ => ActiveDevice 0 0 None false [] end in
             if ad_holders dmd then mret (inl (- EBUSY))
             else
               let hdr2 := luks2_hdr_of cd in
               let luks2 := match ad_uuid dmd with Some u => String.prefix CRYPT_LUKS2 u | None => false end in
               r ← (if luks2 || bool_decide (is_Some hdr2) then LUKS2_deactivate cd name hdr2 dmd reencrypt_lock flags
                    else if isTCRYPT (cd_type cd) then deactivate_tcrypt name flags
                    else request (Remove name flags));
               mret (inr r) : T (Z + Z));
      match r with
      | inl r => mret r
      | inr r =>
          status ← ask (fun t => k_status kr t name);
          mret (if (r <? 0) && (0 <? status) then - EBUSY else r)
      end.

(** *** State of a mapping *)

Record crypt_active_device := CryptActiveDevice { ca_offset : Z; ca_iv_offset : Z; ca_size : Z; ca_flags : Z }.

(** The least offset, and the IV offset there; [None] when no segment has one. *)
Fixpoint least_offset (l : list dm_target) (min : Z) (iv : option Z) : Z * option Z :=
  match l with
  | [] => (min, iv)
  | s :: l =>
      let found offset i := if offset <? min then least_offset l offset (Some i) else least_offset l min iv in
      match t_u s with
      | U_crypt c => found (ct_offset c) (ct_iv_offset c)
      | U_integrity i => found (it_offset i) 0
      | U_linear offset => found offset 0
      | _ => least_offset l min iv
      end
  end.

(** What is found replaces a part of the caller's record. *)
Definition crypt_get_active_device (cd : crypt_device) (name : string) (cad : crypt_active_device) : T (Z * crypt_active_device) :=
  q ← query_device name DM_ACTIVE_DEVICE;
  match q with
  | inl r => mret (r, cad)
  | inr (_, dmd) =>
      let namei :=
        if isLUKS2 (cd_type cd) && negb (crypt_get_integrity_tag_size cd =? 0)
        then s ← single_segment dmd; d ← t_data_device s; k_dm_name kr d else None in
      iflags ← (match namei with
                | Some i => q ← query_device i 0; mret (match q with inr (_, dmdi) => ad_flags dmdi | inl _ => 0 end)
                | None => mret 0
                end : T Z);
      let flags := Z.lor (ad_flags dmd) iflags in
      mret (0, match cd_u cd with
               | U_tcrypt _ data_offset iv_offset => CryptActiveDevice data_offset iv_offset (ad_size dmd) flags
               | _ => let '(offset, iv) := least_offset (ad_segments dmd) UINT64_MAX None in
                      CryptActiveDevice (if offset =? UINT64_MAX then ca_offset cad else offset) (default (ca_iv_offset cad) iv) (ad_size dmd) flags
               end)
  end.

End activate.

(** * Theorems *)

(** ** What a computation requests *)

(** [Q] of the trace before, the result and the requests made. *)
Definition post {A} (Q : trace -> A -> trace -> Prop) (m : T A) : Prop :=
  forall t d a t' d', m t d = Some ((a, t'), d') -> exists l, t' = (t ++ l)%list /\ Q t a l.

Lemma post_weaken {A} (Q Q' : trace -> A -> trace -> Prop) m : post Q m -> (forall t a l, Q t a l -> Q' t a l) -> post Q' m.
Proof. intros H W t d a t' d' E. destruct (H _ _ _ _ _ E) as (l & -> & HQ). eauto. Qed.

Lemma post_ret {A} (Q : trace -> A -> trace -> Prop) a : (forall t, Q t a []) -> post Q (mret a).
Proof. intros H t d b t' d' [= <- <- <-]. exists []. by rewrite app_nil_r. Qed.

Lemma post_bind {A B} (Q1 : trace -> A -> trace -> Prop) (Q : trace -> B -> trace -> Prop) m k :
  post Q1 m -> (forall t1 a l1, Q1 t1 a l1 -> forall t, t = (t1 ++ l1)%list ->
     forall d b t' d', k a t d = Some ((b, t'), d') -> exists l2, t' = (t ++ l2)%list /\ Q t1 b (l1 ++ l2)%list) ->
  post Q (m ≫= k).
Proof.
  intros H1 H2 t d b t' d' E. unfold mbind, T_bind in E. apply bind_inv in E as ([a t1] & d1 & E1 & E2).
  destruct (H1 _ _ _ _ _ E1) as (l1 & -> & HQ1). destruct (H2 _ _ _ HQ1 _ eq_refl _ _ _ _ E2) as (l2 & -> & HQ).
  exists (l1 ++ l2)%list. by rewrite app_assoc.
Qed.

Lemma post_ask {A} (Q : trace -> A -> trace -> Prop) f : (forall t, Q t (f t) []) -> post Q (ask f).
Proof. intros H t d b t' d' [= <- <- <-]. exists []. by rewrite app_nil_r. Qed.

Lemma post_lift {A} (Q : trace -> A -> trace -> Prop) (m : M A) : (forall d a d', m d = Some (a, d') -> forall t, Q t a []) -> post Q (lift m).
Proof.
  intros H t d b t' d' E. unfold lift in E. apply bind_inv in E as (a & d1 & E1 & [= <- <- <-]). exists [].
  rewrite app_nil_r. split; [done|]. by eapply H.
Qed.

(** Every request is a good one, whatever the result. *)
Definition emits (G : dm_request -> Prop) {A} (m : T A) : Prop := post (fun _ _ l => Forall G l) m.

Section emits.
Variable G : dm_request -> Prop.

Lemma emits_ret {A} (a : A) : emits G (mret a).
Proof. by apply post_ret. Qed.
Lemma emits_ask {A} (f : trace -> A) : emits G (ask f).
Proof. by apply post_ask. Qed.
Lemma emits_lift {A} (m : M A) : emits G (lift m).
Proof. by apply post_lift. Qed.
Lemma emits_bind {A B} (m : T A) (k : A -> T B) : emits G m -> (forall a, emits G (k a)) -> emits G (m ≫= k).
Proof.
  intros H1 H2. eapply post_bind; [exact H1|]. cbn beta. intros t1 a l1 F t -> d b t' d' E.
  destruct (H2 a _ _ _ _ _ E) as (l2 & -> & F2). exists l2. split; [done|]. by apply Forall_app.
Qed.
(** What comes back matters too. *)
Lemma emits_bind_post {A B} (P : A -> Prop) (m : T A) (k : A -> T B) :
  post (fun _ a l => P a /\ Forall G l) m -> (forall a, P a -> emits G (k a)) -> emits G (m ≫= k).
Proof.
  intros H1 H2. eapply post_bind; [exact H1|]. cbn beta. intros t1 a l1 [Pa F] t -> d b t' d' E.
  destruct (H2 a Pa _ _ _ _ _ E) as (l2 & -> & F2). exists l2. split; [done|]. by apply Forall_app.
Qed.
Lemma emits_request kr q : G q -> emits G (request kr q).
Proof. intros H t d b t' d' [= <- <- <-]. exists [q]. split; [done|]. by constructor. Qed.
Lemma emits_query kr name f : emits G (query_device kr name f).
Proof. intros t d b t' d' E. exists []. rewrite app_nil_r. split; [|done]. unfold query_device, mret, M_ret in E.
  destruct (dm_query_device _ _ _) as [[r x]|r| |]; by injection E as _ <- _ || done. Qed.
Lemma emits_adjust kr dev excl offset size : emits G (device_block_adjust kr dev excl offset size).
Proof. intros t d b t' d' [= <- <- <-]. exists []. by rewrite app_nil_r. Qed.
End emits.

Create HintDb cs_emits.
#[export] Hint Resolve emits_ret emits_ask emits_lift emits_query emits_adjust : cs_emits.

(** Splits a computation into its requests. *)
Ltac emits_step :=
  match goal with
  | |- emits _ (mret _) => apply emits_ret
  | |- emits _ (mbind _ _) => apply emits_bind; [|intros ?]
  | |- emits _ (let '(_, _) := ?p in _) => destruct p
  | |- emits _ (if ?b then _ else _) => destruct b
  | |- emits _ (match ?o with Some _ => _ | None => _ end) => destruct o
  | |- emits _ (match ?o with inl _ => _ | inr _ => _ end) => destruct o
  | |- emits _ (match ?o with [] => _ | _ :: _ => _ end) => destruct o
  | |- emits _ (request _ _) => apply emits_request
  | |- emits _ _ => solve [eauto with cs_emits]
  end.


(** ** The flag of the keyring *)

Definition keyring (flags : Z) : bool := has_flag flags CRYPT_ACTIVATE_KEYRING_KEY.

Lemma keyring_bit flags : keyring flags = Z.testbit flags 11.
Proof.
  unfold keyring, has_flag, CRYPT_ACTIVATE_KEYRING_KEY. rewrite Z.shiftl_1_l. apply eq_true_iff_eq. rewrite negb_true_iff, Z.eqb_neq. split.
  - intros H. destruct (Z.testbit flags 11) eqn:E; [done|]. destruct H. apply Z.bits_inj'. intros n Hn. rewrite Z.land_spec, Z.pow2_bits_eqb, Z.bits_0 by lia.
    destruct (Z.eqb_spec 11 n) as [<-|]; [by rewrite E|apply andb_false_r].
  - intros H E. assert (B : Z.testbit (Z.land flags (2 ^ 11)) 11 = true) by by rewrite Z.land_spec, H, Z.pow2_bits_true by lia.
    by rewrite E, Z.bits_0 in B.
Qed.

(** Setting or clearing other flags keeps it. *)
Lemma keyring_lor a b : keyring (Z.lor a b) = keyring a || keyring b.
Proof. by rewrite !keyring_bit, Z.lor_spec. Qed.
Lemma keyring_clear f flags : Z.testbit (u32 (Z.lnot f)) 11 = true -> keyring (clear_flags f flags) = keyring flags.
Proof. intros H. unfold clear_flags. by rewrite !keyring_bit, Z.land_spec, H, andb_true_r. Qed.
Lemma keyring_clear_le f flags : keyring (clear_flags f flags) = true -> keyring flags = true.
Proof. unfold clear_flags. rewrite !keyring_bit, Z.land_spec. by intros [? _]%andb_true_iff. Qed.
Lemma keyring_readonly b flags : keyring (add_readonly b flags) = keyring flags.
Proof. destruct b; [|done]. cbn [add_readonly]. rewrite keyring_lor. apply orb_false_r. Qed.
Lemma keyring_keep_readonly s t : keyring (keep_readonly s t) = keyring (ad_flags s).
Proof.
  unfold keep_readonly, with_flag. destruct (has_flag (ad_flags t) _); [rewrite keyring_lor; apply orb_false_r|by rewrite keyring_clear].
Qed.
Lemma keyring_reload kr flags : keyring (reload_flags kr flags) = keyring flags.
Proof. unfold reload_flags. destruct (dm_flags _ _) as [r f]. destruct (_ || _); [by rewrite keyring_clear|done]. Qed.

Lemma keyring_retry_le flags dmt : keyring (check_retry flags dmt).2 = true -> keyring flags = true.
Proof.
  unfold check_retry. generalize false at 1. match goal with |- context [foldl _ _ ?l] => generalize l end. intros l. revert flags.
  induction l as [|[o s] l IH]; intros flags b; [done|]. cbn [foldl]. destruct (_ && _); [|by apply IH].
  intros H%IH. by eapply keyring_clear_le.
Qed.

Lemma keyring_create create type flags : keyring (dm_create_device create type flags).2 = true -> keyring flags = true.
Proof.
  unfold dm_create_device. destruct (create flags) as [r c]. destruct (dm_flags c type) as [code known]. destruct (_ && _); [done|].
  destruct (negb (r =? 0) && _); [|done]. pose proof (keyring_retry_le flags (if r <? 0 then known else 0)) as H.
  destruct (check_retry _ _) as [again f]. destruct again; [apply H|done].
Qed.

Lemma keyring_config `{JsonC} hdr : keyring (LUKS2_config_get_flags hdr) = false.
Proof.
  unfold LUKS2_config_get_flags. destruct (_ ≫= _) as [j|]; [|done]. change 0 with 0 at 1.
  assert (G : forall l z, keyring z = false ->
    keyring (fold_left (fun flags jobj1 => match flag_by_name persistent_flags (json_object_get_string jobj1) with
                                          | Some f => Z.lor flags f | None => flags end) l z) = false); [|by apply G].
  induction l as [|x l IH]; intros z Hz; [done|]. cbn [fold_left]. apply IH. unfold flag_by_name.
  destruct (List.find _ _) as [[f n]|] eqn:E; [|done]. cbn [fmap option_fmap option_map fst]. rewrite keyring_lor, Hz.
  apply List.find_some in E as [Hi _]. unfold persistent_flags in Hi. cbn [In] in Hi.
  repeat (destruct Hi as [[= <- _]|Hi]; [done|]). done.
Qed.

Lemma keyring_persistent `{JsonC} hdr flags : keyring (persistent hdr flags) = keyring flags.
Proof. unfold persistent. destruct (has_flag flags _); [done|]. by rewrite keyring_lor, keyring_config. Qed.

(** ** The key that is sent *)

(** A key in a table: its bytes, or its description when the keyring has it. *)
Definition sent_key (k : bytes) (desc : option string) (flags : Z) (vk : dm_key) : Prop :=
  if keyring flags then key_description vk = desc /\ is_Some desc else key vk = k.

(** A segment with a key; the other types have none of the volume. *)
Definition sent_segment (k : bytes) (desc : option string) (flags : Z) (s : dm_target) : Prop :=
  match t_u s with U_crypt c => exists vk, ct_vk c = Some vk /\ sent_key k desc flags vk | _ => True end.

(** Every table and every key in the keyring has this key. *)
Definition sends (k : bytes) (desc : option string) (q : dm_request) : Prop :=
  match q with
  | Create _ _ dmd | Reload _ dmd => Forall (sent_segment k desc (ad_flags dmd)) (ad_segments dmd)
  | AddKey d k' => desc = Some d /\ k' = k
  | SetKey _ vk => key vk = k
  | _ => True
  end.

(** What the caller has: the bytes, with the description for the keyring. *)
Definition carries (k : bytes) (desc : option string) (flags : Z) (vk : dm_key) : Prop :=
  key vk = k /\ (keyring flags = true -> key_description vk = desc /\ is_Some desc).
Definition carried (k : bytes) (desc : option string) (dmd : crypt_dm_active_device) : Prop :=
  Forall (fun s => match t_u s with U_crypt c => exists vk, ct_vk c = Some vk /\ carries k desc (ad_flags dmd) vk | _ => True end) (ad_segments dmd).

Section sent.
Context `{JC : JsonC} `{CH : CryptHash} `{CM : CryptHmac} `{CC : CryptCipher} `{CP : CryptPbkdf} `{LU : LibUuid}.
Variable env : setup_env.
Variable kr : dm_kernel.
Variables data_dev meta_dev : string.
Variables (k : bytes) (desc : option string).

Lemma carries_sent flags flags' vk : (keyring flags' = true -> keyring flags = true) -> carries k desc flags vk -> sent_key k desc flags' vk.
Proof. intros H [Hk Hd]. unfold sent_key. destruct (keyring flags'); [by apply Hd, H|done]. Qed.

Lemma create_sends name type dmd : carried k desc dmd -> emits (sends k desc) (create_device kr name type dmd).
Proof.
  intros H t d b t' d' E. unfold create_device in E.
  pose proof (keyring_create (fun f => (k_do kr t (Create name type (set_flags f dmd)), k_compat kr)) (first_type dmd) (ad_flags dmd)) as Hk.
  destruct (dm_create_device _ _ _) as [r flags]. injection E as _ <- _. exists [Create name type (set_flags flags dmd)].
  split; [done|]. constructor; [|done]. cbn [sends ad_segments ad_flags set_flags]. eapply Forall_impl; [exact H|]. intros s. unfold sent_segment.
  destruct (t_u s); try done. intros (vk & E & C). exists vk. split; [done|]. by eapply carries_sent.
Qed.

Lemma reload_sends name dmd resume :
  Forall (sent_segment k desc (ad_flags dmd)) (ad_segments dmd) -> emits (sends k desc) (dm_reload_device kr name dmd resume).
Proof.
  intros H. unfold dm_reload_device. repeat emits_step; cbn [sends ad_segments ad_flags set_flags]; try done.
  eapply Forall_impl; [exact H|]. intros s. unfold sent_segment. destruct (t_u s); try done. unfold sent_key. by rewrite keyring_reload.
Qed.

Lemma reload_key_sent flags svk tvk vk : reload_key env flags (Some svk) tvk = Some vk -> carries k desc flags svk -> sent_key k desc flags vk.
Proof.
  intros E [Hk Hd]. unfold reload_key in E. cbn [mbind option_bind] in E. destruct tvk as [t|]; [|done]. cbn [mbind option_bind] in E. unfold sent_key.
  change (has_flag flags CRYPT_ACTIVATE_KEYRING_KEY) with (keyring flags) in E. destruct (keyring flags); [injection E as <-; by apply Hd|].
  unfold alloc_key in E. destruct (alloc_fails _ _); [done|]. by injection E as <-.
Qed.

(** The only segment of dm-crypt *)
Lemma single_crypt_inv dmd s c : single_crypt dmd = Some (s, c) -> ad_segments dmd = [s] /\ t_u s = U_crypt c.
Proof.
  unfold single_crypt, single_segment, crypt_u. destruct (ad_segments dmd) as [|x [|]]; try done. cbn [mbind option_bind].
  destruct (t_u x) eqn:E; try done. cbn [mbind option_bind]. by intros [= <- <-].
Qed.
Lemma single_integrity_inv dmd s i : single_integrity dmd = Some (s, i) -> ad_segments dmd = [s] /\ t_u s = U_integrity i.
Proof.
  unfold single_integrity, single_segment, integrity_u. destruct (ad_segments dmd) as [|x [|]]; try done. cbn [mbind option_bind].
  destruct (t_u x) eqn:E; try done. cbn [mbind option_bind]. by intros [= <- <-].
Qed.

Lemma carried_single dmd s c : carried k desc dmd -> single_crypt dmd = Some (s, c) -> exists vk, ct_vk c = Some vk /\ carries k desc (ad_flags dmd) vk.
Proof. intros H [E1 E2]%single_crypt_inv. unfold carried in H. rewrite E1 in H. apply Forall_inv in H. by rewrite E2 in H. Qed.

(** Flags that leave the keyring alone, another size or device: as before. *)
Lemma carried_change dmd dmd' s s' c c' :
  carried k desc dmd -> single_crypt dmd = Some (s, c) -> ad_segments dmd' = [s'] -> t_u s' = U_crypt c' -> ct_vk c' = ct_vk c ->
  keyring (ad_flags dmd') = keyring (ad_flags dmd) -> carried k desc dmd'.
Proof.
  intros H E Es Eu Ev Ef. destruct (carried_single _ _ _ H E) as (vk & Hv & Hk & Hd). unfold carried. rewrite Es. constructor; [|done].
  rewrite Eu. exists vk. rewrite Ev. split; [done|]. split; [done|]. by rewrite Ef.
Qed.

Lemma reload_device_sends cd name sdmd : carried k desc sdmd -> emits (sends k desc) (_reload_device env kr cd name sdmd).
Proof.
  intros H. unfold _reload_device. destruct (_ || _); [auto with cs_emits|]. emits_step; [auto with cs_emits|]. destruct a as [|[? tdmd]]; [auto with cs_emits|].
  destruct (single_crypt tdmd) as [[tgt tc]|]; [|auto with cs_emits]. destruct (single_crypt sdmd) as [[src sc]|] eqn:Es; [|auto with cs_emits].
  destruct (carried_single _ _ _ H Es) as (svk & Ev & Hc). destruct (negb _); [auto with cs_emits|]. cbv zeta. destruct (negb _); [auto with cs_emits|].
  rewrite Ev. destruct (reload_key env _ _ _) as [vk|] eqn:Er; [|auto with cs_emits]. emits_step; [auto with cs_emits|].
  destruct a as [|[size ro]]; [auto with cs_emits|]. apply reload_sends. constructor; [|done]. exists vk. split; [done|].
  cbn [ad_flags set_segment set_size set_flags]. eapply reload_key_sent; [exact Er|]. destruct Hc as [Hk Hd]. split; [done|]. by rewrite keyring_keep_readonly.
Qed.

Lemma error_device_sends name : emits (sends k desc) (dm_error_device kr name).
Proof. unfold dm_error_device. repeat emits_step; done. Qed.
Lemma suspend_sends name wipe : emits (sends k desc) (dm_suspend_device kr name wipe).
Proof. unfold dm_suspend_device. repeat emits_step; done. Qed.
Lemma drop_tables_sends name iname : emits (sends k desc) (drop_tables kr name iname).
Proof. unfold drop_tables. repeat emits_step; done. Qed.
Lemma check_devices_sends name iname flags : emits (sends k desc) (check_devices kr name iname flags).
Proof. unfold check_devices, check_device. repeat emits_step; done. Qed.
Lemma drop_key_sends vks : emits (sends k desc) (crypt_drop_keyring_key kr vks).
Proof. induction vks; cbn [crypt_drop_keyring_key]; repeat emits_step; done. Qed.
#[local] Hint Resolve error_device_sends suspend_sends drop_tables_sends check_devices_sends drop_key_sends : cs_emits.

Lemma or_drop_sends name iname r m : emits (sends k desc) m -> emits (sends k desc) (or_drop kr name iname r m).
Proof. intros H. unfold or_drop. repeat emits_step. Qed.

Lemma switch_sends name iname tdmd sdmdi :
  Forall (sent_segment k desc (ad_flags tdmd)) (ad_segments tdmd) -> Forall (sent_segment k desc (ad_flags sdmdi)) (ad_segments sdmdi) ->
  emits (sends k desc) (switch_tables kr name iname tdmd sdmdi).
Proof.
  intros H1 H2. unfold switch_tables. emits_step; [by apply reload_sends|]. destruct (negb _); [auto with cs_emits|].
  emits_step; [by apply reload_sends|]. apply or_drop_sends. emits_step; [auto with cs_emits|]. apply or_drop_sends.
  emits_step; [auto with cs_emits|]. apply or_drop_sends. emits_step; [by apply emits_request|]. apply or_drop_sends.
  repeat emits_step; done.
Qed.

Lemma reload_integrity_sends cd name iname ipath sdmd sdmdi :
  carried k desc sdmd -> emits (sends k desc) (_reload_device_with_integrity env kr cd name iname ipath sdmd sdmdi).
Proof.
  intros H. unfold _reload_device_with_integrity. destruct (_ || _); [auto with cs_emits|]. emits_step; [auto with cs_emits|].
  destruct a as [|[? tdmd]]; [auto with cs_emits|]. destruct (single_crypt tdmd) as [[tgt tc]|]; [|auto with cs_emits].
  destruct (single_crypt sdmd) as [[src sc]|] eqn:Es; [|auto with cs_emits]. destruct (carried_single _ _ _ H Es) as (svk & Ev & Hc).
  destruct (_ =? 0); [auto with cs_emits|]. emits_step; [auto with cs_emits|]. destruct a as [|[? tdmdi]]; [auto with cs_emits|].
  destruct (single_integrity tdmdi) as [[tgti it]|]; [|auto with cs_emits]. destruct (single_integrity sdmdi) as [[srci ic]|] eqn:Ei; [|auto with cs_emits].
  cbv zeta. destruct (negb _); [auto with cs_emits|]. destruct (_ <? 0); [auto with cs_emits|]. emits_step; [auto with cs_emits|].
  destruct a as [|[isize ?]]; [auto with cs_emits|]. destruct (negb _); [auto with cs_emits|]. rewrite Ev.
  destruct (reload_key env _ _ _) as [vk|] eqn:Er; [|auto with cs_emits]. emits_step; [auto with cs_emits|].
  destruct a as [|[size ?]]; [auto with cs_emits|]. apply switch_sends.
  - constructor; [|done]. exists vk. split; [done|]. cbn [ad_flags set_segment set_size set_flags]. eapply reload_key_sent; [exact Er|].
    destruct Hc as [Hk Hd]. split; [done|]. by rewrite keyring_keep_readonly.
  - apply single_integrity_inv in Ei as [E1 E2]. cbn [ad_segments set_size set_flags]. rewrite E1. constructor; [|done].
    unfold sent_segment. by rewrite E2.
Qed.

Lemma keyring_check_device name flags t d r t' d' :
  check_device kr name flags t d = Some ((r, t'), d') -> keyring r.2 = keyring flags.
Proof. intros [= <- _ _]. repeat case_match; cbn [snd]; try done. by rewrite keyring_clear. Qed.

(** The flags that the check leaves. *)
Lemma check_devices_post name iname flags :
  post (fun _ a l => keyring a.2 = keyring flags /\ Forall (sends k desc) l) (check_devices kr name iname flags).
Proof.
  intros t d a t' d' E. destruct (check_devices_sends name iname flags t d a t' d' E) as (l & -> & F). exists l. split; [done|]. split; [|done].
  unfold check_devices, mbind, T_bind in E. apply bind_inv in E as ([[r f] t1] & d1 & E1 & E2). cbn beta iota in E2.
  assert (H1 : keyring f = keyring flags). { destruct iname; [by apply keyring_check_device in E1|]. by injection E1 as _ <- _ _. }
  destruct (negb _); [by injection E2 as <- _ _|]. apply keyring_check_device in E2. congruence.
Qed.

Lemma create_or_reload_sends cd name type dmd : carried k desc dmd -> emits (sends k desc) (create_or_reload_device env kr cd name type dmd).
Proof.
  intros H. unfold create_or_reload_device. destruct (single_crypt dmd) as [[tgt c]|] eqn:Es; [|auto with cs_emits].
  apply single_crypt_inv in Es as Hs. destruct Hs as [Hs Hu].
  eapply emits_bind_post; [apply check_devices_post|]. intros [r flags] Hf. cbn [snd] in Hf. destruct (negb _); [auto with cs_emits|].
  destruct (has_flag flags _).
  - apply reload_device_sends. by eapply carried_change with (dmd := dmd).
  - emits_step; [auto with cs_emits|]. destruct a as [|[size ro]]; [auto with cs_emits|]. cbv zeta. emits_step; [|repeat emits_step].
    apply create_sends. eapply carried_change with (dmd := dmd); try done. cbn [ad_flags set_segment set_size set_flags]. by rewrite keyring_readonly.
Qed.

Lemma carried_integrity dmd s i : single_integrity dmd = Some (s, i) -> carried k desc dmd.
Proof. intros [E1 E2]%single_integrity_inv. unfold carried. rewrite E1. constructor; [|done]. by rewrite E2. Qed.

Lemma activate_dmd_sends name type dmd sb : emits (sends k desc) (INTEGRITY_activate_dmd_device kr name type dmd sb).
Proof.
  unfold INTEGRITY_activate_dmd_device. destruct (single_integrity dmd) as [[tgt i]|] eqn:Ei; [|auto with cs_emits]. emits_step; [auto with cs_emits|].
  destruct a as [|[? ro]]; [auto with cs_emits|]. cbv zeta. emits_step; [destruct (it_meta_device i); auto with cs_emits|].
  destruct a; [auto with cs_emits|]. emits_step; [|repeat emits_step]. apply create_sends. eapply (carried_integrity _ tgt i).
  unfold single_integrity, single_segment in *. exact Ei.
Qed.

Lemma create_integrity_sends type name iname ipath dmd dmdi :
  carried k desc dmd -> emits (sends k desc) (_create_device_with_integrity kr type name iname ipath dmd dmdi).
Proof.
  intros H. unfold _create_device_with_integrity. destruct (single_crypt dmd) as [[tgt c]|] eqn:Es; [|auto with cs_emits].
  apply single_crypt_inv in Es as Hs. destruct Hs as [Hs Hu]. emits_step; [apply activate_dmd_sends|]. destruct (negb _); [auto with cs_emits|].
  cbv zeta. assert (Hf : forall r : Z, emits (sends k desc) (_ ← request kr (Remove iname 0); mret r : T Z)) by (intros r; repeat emits_step; done).
  destruct (_ <? 0); [apply Hf|]. emits_step; [auto with cs_emits|]. destruct a0 as [r|[size ro]].
  - destruct (r <? 0); [apply Hf|auto with cs_emits].
  - emits_step; [|destruct a0 as [r f]; destruct (r <? 0); [apply Hf|auto with cs_emits]].
    apply create_sends. eapply carried_change with (dmd := dmd); try done. cbn [ad_flags set_segment set_size set_flags]. by rewrite keyring_readonly.
Qed.

Lemma with_integrity_sends cd name type dmd dmdi :
  carried k desc dmd -> emits (sends k desc) (create_or_reload_device_with_integrity env kr cd name type dmd dmdi).
Proof.
  intros H. unfold create_or_reload_device_with_integrity. cbv zeta. eapply emits_bind_post; [apply check_devices_post|].
  intros [r flags] Hf. cbn [snd] in Hf. destruct (negb _); [auto with cs_emits|].
  assert (H' : carried k desc (set_flags flags dmd)).
  { eapply Forall_impl; [exact H|]. intros s. cbn beta. destruct (t_u s); try done. intros (vk & E & Hk & Hd). exists vk. split; [done|]. split; [done|].
    cbn [ad_flags set_flags]. by rewrite Hf. }
  destruct (has_flag flags _); [by apply reload_integrity_sends|by apply create_integrity_sends].
Qed.

(** *** The three kinds of devices *)

Lemma crypt_dmd_carried cd vk integrity size flags : carries k desc flags vk -> carried k desc (crypt_dmd data_dev cd vk integrity size flags).
Proof. intros H. constructor; [|done]. by exists vk. Qed.

Lemma plain_activate_sends cd name vk size flags : carries k desc flags vk -> emits (sends k desc) (PLAIN_activate env kr data_dev cd name vk size flags).
Proof. intros H. unfold PLAIN_activate. destruct (misaligned _ _); [auto with cs_emits|]. by apply create_or_reload_sends, crypt_dmd_carried. Qed.

Lemma luks1_activate_sends cd name vk flags : carries k desc flags vk -> emits (sends k desc) (LUKS1_activate env kr data_dev cd name vk flags).
Proof. intros H. by apply create_or_reload_sends, crypt_dmd_carried. Qed.

Lemma luks2_activate_sends cd hdr name vk flags :
  carries k desc flags vk -> emits (sends k desc) (LUKS2_activate env kr data_dev meta_dev cd hdr name vk flags).
Proof.
  intros H. unfold LUKS2_activate. cbv zeta. destruct (negb _); [auto with cs_emits|].
  assert (Hc : carries k desc (persistent hdr flags) vk) by (destruct H; split; [done|by rewrite keyring_persistent]).
  destruct (_ =? 0); [by apply create_or_reload_sends, crypt_dmd_carried|]. destruct (negb _); [auto with cs_emits|].
  destruct (has_flag _ _); [auto with cs_emits|]. emits_step; [unfold INTEGRITY_create_dmd_device; repeat emits_step|].
  destruct a as [|dmdi]; [auto with cs_emits|]. cbn [single_crypt]. destruct (single_crypt _) as [[tgt c]|] eqn:Es; [|auto with cs_emits].
  destruct (single_segment _) as [tgti|]; [|auto with cs_emits]. apply with_integrity_sends.
  apply single_crypt_inv in Es as Hs. destruct Hs as [Hs Hu].
  eapply carried_change; [by apply crypt_dmd_carried with (integrity := Some (default "none" (crypt_get_integrity cd))) (size := 0)|exact Es|done|done|done|done].
Qed.
End sent.

(** ** Only verified keys *)

Section verified.
Context `{JC : JsonC} `{CH : CryptHash} `{CM : CryptHmac} `{CC : CryptCipher} `{CP : CryptPbkdf} `{LU : LibUuid}.
Variable env : setup_env.
Variable kr : dm_kernel.
Variables data_dev meta_dev : string.

(** A volume key of the device: the digest of the header is derived from it,
    with LUKS2 a digest of the default segment or of a keyslot for it. *)
Definition volume_key_of (cd : crypt_device) (k : bytes) : Prop :=
  match cd_u cd with
  | U_luks1 hdr _ => LUKS_verify_volume_key hdr k = 0
  | U_luks2 l => exists digest, PBKDF2_digest_verify (l2_hdr l) digest k = 0 /\
      (digest = LUKS2_digest_by_segment (l2_hdr l) CRYPT_DEFAULT_SEGMENT \/
       exists keyslot, digest = LUKS2_digest_by_keyslot (l2_hdr l) keyslot /\
         LUKS2_keyslot_for_segment (l2_hdr l) keyslot CRYPT_DEFAULT_SEGMENT = 0)
  | _ => False
  end.

(** No request, or one volume key in all of them; a description in a table is
    one under which that key was added to the keyring. *)
Definition sends_volume_key (cd : crypt_device) (l : trace) : Prop :=
  l = [] \/ exists k desc, volume_key_of cd k /\ (forall d, desc = Some d -> In (AddKey d k) l) /\ Forall (sends k desc) l.

Lemma emits_no_request {A} (m : T A) t d a t' d' : emits (fun _ => False) m -> m t d = Some ((a, t'), d') -> t' = t.
Proof. intros H E. destruct (H _ _ _ _ _ E) as (l & -> & F). destruct l; [by rewrite app_nil_r|]. by apply Forall_inv in F. Qed.

(** What a computation on the device returns. *)
Definition returns {A} (P : A -> Prop) (m : M A) : Prop := forall d a d', m d = Some (a, d') -> P a.

Lemma returns_ret {A} (P : A -> Prop) a : P a -> returns P (mret a).
Proof. by intros H d b d' [= <- _]. Qed.
Lemma returns_bind {A B} (P : B -> Prop) (m : M A) (k : A -> M B) : (forall a, returns P (k a)) -> returns P (m ≫= k).
Proof. intros H d b d' E. apply bind_inv in E as (a & d1 & _ & E). by eapply H. Qed.

Lemma post_lift_bind {A B} (P : A -> Prop) (Q : trace -> B -> trace -> Prop) (m : M A) (k : A -> T B) :
  returns P m -> (forall a, P a -> post Q (k a)) -> post Q (lift m ≫= k).
Proof.
  intros H1 H2 t d b t' d' E. unfold mbind, T_bind, lift in E. apply bind_inv in E as ([a t1] & d1 & E1 & E2).
  apply bind_inv in E1 as (a' & d2 & E1 & [= -> -> ->]). eapply H2; [by eapply H1|exact E2].
Qed.

Ltac returns_step :=
  match goal with
  | |- returns _ (mbind _ _) => apply returns_bind; intros [? ?]
  | |- returns _ (let '(_, _) := ?p in _) => destruct p
  | |- returns _ (if ?b then _ else _) => destruct b eqn:?
  | |- returns _ (mret _) => apply returns_ret
  end.

Definition verified1 (hdr : luks_phdr) (a : Z * bytes) : Prop := 0 <= a.1 -> LUKS_verify_volume_key hdr a.2 = 0.

Lemma open_key_verified e i password hdr : returns (verified1 hdr) (LUKS_open_key e i password hdr).
Proof.
  unfold LUKS_open_key. repeat (cbv zeta; returns_step); unfold verified1; cbn [fst snd]; try (unfold ENOENT, ENOMEM, EINVAL; lia).
  all: repeat case_match; cbn [fst snd] in *; try (unfold EPERM in *; lia).
  all: match goal with |- context [LUKS_verify_volume_key ?h ?v] => assert (LUKS_verify_volume_key h v <= 0); [|lia] end.
  all: unfold LUKS_verify_volume_key, EINVAL, EPERM; repeat case_match; lia.
Qed.

Lemma luks1_open_verified e keyslot password hdr : returns (verified1 hdr) (LUKS_open_key_with_hdr e keyslot password hdr).
Proof.
  unfold LUKS_open_key_with_hdr. destruct (0 <=? keyslot).
  - intros d a d' E. apply bind_inv in E as ([r vk] & d1 & E1 & E). injection E as <- _. apply open_key_verified in E1.
    unfold verified1 in *. cbn [fst snd] in *. destruct (Z.ltb_spec r 0); lia || auto.
  - generalize false at 1. generalize 0 at 1. generalize 8%nat. intros n. induction n as [|n IH]; intros i tried; cbn [open_any].
    { apply returns_ret. unfold verified1. cbn [fst]. destruct tried; unfold EPERM, ENOENT; lia. }
    intros d a d' E. apply bind_inv in E as ([r vk] & d1 & E1 & E). apply open_key_verified in E1. unfold verified1 in E1. cbn [fst snd] in E1.
    destruct (Z.eqb_spec r 0) as [->|]; [injection E as <- _; intros _; by apply E1|].
    destruct (_ && _); [injection E as <- _; unfold verified1; cbn [fst snd]; auto|]. by eapply IH.
Qed.

Lemma sends_volume_key_emits {A} cd k (m : T A) :
  volume_key_of cd k -> emits (sends k None) m -> post (fun _ _ l => sends_volume_key cd l) m.
Proof. intros Hk H. eapply post_weaken; [exact H|]. intros t a l F. right. exists k, None. done. Qed.

(** A key is described and added to the keyring; the rest follows. *)
Lemma load_then_sends {A} cd k digest (K : Z -> dm_key -> T A) :
  volume_key_of cd k -> (forall r desc, is_Some desc -> emits (sends k desc) (K r (describe desc (key_of k)))) ->
  emits (fun _ => False) (K (- EINVAL) (key_of k)) ->
  post (fun _ _ l => sends_volume_key cd l) ('(r, vk) ← load_by_digest kr cd (key_of k) digest; K r vk).
Proof.
  intros Hk HS HN t d a t' d' E. unfold load_by_digest, crypt_volume_key_load_in_keyring in E. cbn [key_description describe] in E.
  unfold mbind at 1, T_bind at 1 in E. apply bind_inv in E as ([[r vk] t1] & d1 & E1 & E). cbn beta iota in E.
  destruct (get_key_description_by_digest cd digest) as [desc|] eqn:Ed.
  - injection E1 as <- <- <- <-. change (DmKey _ _ _) with (describe (Some desc) (key_of k)) in E.
    destruct (HS _ (Some desc) ltac:(done) _ _ _ _ _ E) as (l & -> & F). exists (AddKey desc k :: l). rewrite <-app_assoc. split; [done|].
    right. exists k, (Some desc). split; [done|]. split; [intros ? [= ->]; by left|]. by constructor.
  - injection E1 as <- <- <- <-. apply (emits_no_request _ _ _ _ _ _ HN) in E. subst t'. exists []. rewrite app_nil_r. split; [done|]. by left.
Qed.

Lemma finish_key_sends k desc keyslot r vk : emits (sends k desc) (finish_key kr keyslot r vk).
Proof. unfold finish_key. repeat emits_step. apply drop_key_sends. Qed.

Lemma finish_key_none G k keyslot r : emits G (finish_key kr keyslot r (key_of k)).
Proof. unfold finish_key. cbn [crypt_drop_keyring_key key_description key_of]. repeat emits_step. Qed.

Lemma activate_named_sends k desc cd hdr name vk flags :
  carries k desc flags vk -> emits (sends k desc) (activate_named env kr data_dev meta_dev cd hdr name vk flags).
Proof. intros H. destruct name; cbn [activate_named]; [by apply luks2_activate_sends|apply emits_ret]. Qed.

Lemma carries_plain k flags : keyring flags = false -> carries k None flags (key_of k).
Proof. intros H. split; [done|]. by rewrite H. Qed.
Lemma carries_described k desc flags : is_Some desc -> carries k desc flags (describe desc (key_of k)).
Proof. intros H. by split. Qed.

(** Without the keyring for this mapping, the flags do not ask for it. *)
Lemma no_keyring cd name flags :
  (keyring flags = true -> crypt_use_keyring_for_vk kr cd = true) -> use_keyring kr cd name flags = false -> keyring flags = false.
Proof.
  intros H E. destruct (keyring flags) eqn:Ef; [|done]. unfold use_keyring in E. rewrite H in E by done.
  unfold keyring in Ef. by rewrite Ef, orb_true_r in E.
Qed.

Lemma opened_volume_key cd l r id k :
  cd_u cd = U_luks2 l -> opened (l2_hdr l) CRYPT_DEFAULT_SEGMENT r (Some (id, k)) -> volume_key_of cd k.
Proof.
  intros Hu [Hn Ho]. destruct (Z.ltb_spec r 0) as [Hr|Hr]; [by specialize (Hn Hr)|]. destruct (Ho Hr) as (key & [= -> <-] & _ & Hs & Hv).
  unfold volume_key_of. rewrite Hu. exists (LUKS2_digest_by_keyslot (l2_hdr l) r). split; [done|]. right. by exists r.
Qed.

Lemma open_and_activate_sends cd l keyslot name passphrase flags :
  cd_u cd = U_luks2 l -> has_flag flags CRYPT_ACTIVATE_ALLOW_UNBOUND_KEY = false ->
  (keyring flags = true -> crypt_use_keyring_for_vk kr cd = true) ->
  post (fun _ _ tr => sends_volume_key cd tr) (_open_and_activate env kr data_dev meta_dev cd (l2_hdr l) keyslot name passphrase flags).
Proof.
  intros Hu Hb Hf. unfold _open_and_activate, segment_of. rewrite Hb.
  apply post_lift_bind with (P := fun a => opened (l2_hdr l) CRYPT_DEFAULT_SEGMENT a.1 a.2).
  { intros d [r vk] d' E. by eapply keyslot_open_opened. }
  intros [r vk] Ho. cbn [fst snd] in Ho.
  destruct vk as [[id k]|]; [|by apply post_ret; left]. apply (opened_volume_key cd l r) in Ho as Hk; [|done]. cbv zeta.
  destruct (use_keyring kr cd name flags) eqn:Ek.
  - apply load_then_sends; [done| |].
    + intros r0 desc Hd. destruct (r0 <? 0); [apply finish_key_sends|]. emits_step; [|apply finish_key_sends].
      apply activate_named_sends. by apply carries_described.
    + apply finish_key_none.
  - apply (sends_volume_key_emits cd k); [done|]. emits_step; [|apply finish_key_sends]. apply activate_named_sends, carries_plain. by eapply no_keyring.
Qed.

Lemma activate_key_sends cd l k name flags :
  volume_key_of cd k -> cd_u cd = U_luks2 l -> (keyring flags = true -> crypt_use_keyring_for_vk kr cd = true) ->
  post (fun _ _ tr => sends_volume_key cd tr) (activate_luks2_key env kr data_dev meta_dev cd (l2_hdr l) name (key_of k) flags).
Proof.
  intros Hk Hu Hf. unfold activate_luks2_key. destruct (use_keyring kr cd name flags) eqn:Ek.
  - apply load_then_sends; [done| |].
    + intros r0 desc Hd. destruct (negb _); [apply finish_key_sends|]. emits_step; [|apply finish_key_sends].
      apply activate_named_sends. by apply carries_described.
    + apply finish_key_none.
  - apply (sends_volume_key_emits cd k); [done|]. emits_step; [|apply finish_key_sends]. apply activate_named_sends, carries_plain. by eapply no_keyring.
Qed.

Lemma given_key_of cd volume_key vk : given_key env cd volume_key = inr vk -> exists k, vk = key_of k.
Proof. unfold given_key, alloc_key. intros E. repeat case_match; simplify_eq/=; eauto. Qed.

Lemma luks_open_ri cd l : cd_u cd = U_luks2 l -> isLUKS (cd_type cd) = true.
Proof. intros E. unfold cd_type. by rewrite E. Qed.

Variable locked_recovery : crypt_device -> Z -> bytes -> Z -> T (Z * crypt_device * keys).
Variable bitlk_by_passphrase : crypt_device -> option string -> bytes -> Z -> T Z.
Variable other_by_volume_key : crypt_device -> option string -> option bytes -> Z -> T Z.

(** The calls of the library that activate a device. *)
Inductive activation :=
| By_passphrase (keyslot : Z) (passphrase : option bytes)
| By_keyfile (keyslot : Z) (keyfile : key_input) (size offset : Z)
| By_keyring (key_description : string) (keyslot : Z)
| By_volume_key (volume_key : option bytes).

Definition activate (a : activation) (cd : crypt_device) (name : option string) (flags : Z) : T (Z * crypt_device) :=
  match a with
  | By_passphrase keyslot passphrase =>
      crypt_activate_by_passphrase env kr data_dev meta_dev locked_recovery bitlk_by_passphrase cd name keyslot passphrase flags
  | By_keyfile keyslot keyfile size offset =>
      crypt_activate_by_keyfile_device_offset env kr data_dev meta_dev locked_recovery bitlk_by_passphrase cd name keyslot keyfile size offset flags
  | By_keyring description keyslot =>
      crypt_activate_by_keyring env kr data_dev meta_dev locked_recovery bitlk_by_passphrase cd name description keyslot flags
  | By_volume_key volume_key =>
      r ← crypt_activate_by_volume_key env kr data_dev meta_dev other_by_volume_key cd name volume_key flags;
      mret (r, cd)
  end.

Let quiet {A} (m : T A) (cd : crypt_device) : Prop := post (fun _ _ tr => sends_volume_key cd tr) m.

Lemma quiet_ret {A} cd (a : A) : quiet (mret a) cd.
Proof. apply post_ret. by left. Qed.

Lemma quiet_ret_bind {A B} cd (m : T A) (f : A -> B) : quiet m cd -> quiet (a ← m; mret (f a)) cd.
Proof.
  intros H. eapply post_bind; [exact H|]. cbn beta. intros t1 a l1 HQ t -> d b t' d' [= <- <- <-]. exists []. by rewrite !app_nil_r.
Qed.

Lemma quiet_status {A} cd name reload (k : Z -> T A) : (forall r, quiet (k r) cd) -> quiet (r ← _activate_check_status kr name reload; k r) cd.
Proof.
  intros H t d b t' d' E. unfold mbind, T_bind in E. apply bind_inv in E as ([r t1] & d1 & E1 & E).
  replace t1 with t in E; [by eapply H|]. unfold _activate_check_status in E1. destruct name; by injection E1.
Qed.

Lemma quiet_checked cd name flags m : quiet m cd -> quiet (checked kr cd name flags m) cd.
Proof. intros H. apply quiet_status. intros r. destruct (r <? 0); [apply quiet_ret|done]. Qed.

Lemma by_passphrase_sends cd name keyslot passphrase flags :
  isLUKS (cd_type cd) = true -> (forall l, cd_u cd = U_luks2 l -> LUKS2_reencrypt_status (l2_hdr l) = CRYPT_REENCRYPT_NONE) ->
  quiet (_activate_by_passphrase env kr data_dev meta_dev locked_recovery bitlk_by_passphrase cd (Some name) keyslot passphrase flags) cd.
Proof.
  intros Ht Hr. unfold _activate_by_passphrase. change (has_flag flags CRYPT_ACTIVATE_KEYRING_KEY) with (keyring flags).
  destruct (keyring flags && negb (crypt_use_keyring_for_vk kr cd)) eqn:Ef; [apply quiet_ret|]. rewrite bool_decide_true, andb_true_r by eauto.
  destruct (has_flag flags CRYPT_ACTIVATE_ALLOW_UNBOUND_KEY) eqn:Eb; [apply quiet_ret|]. destruct (_ <? 0); [apply quiet_ret|].
  assert (Hf : keyring flags = true -> crypt_use_keyring_for_vk kr cd = true).
  { intros H. rewrite H in Ef. by apply negb_false_iff in Ef. }
  destruct (cd_u cd) as [| |l| | | | | |] eqn:Hu; try (unfold cd_type in Ht; rewrite Hu in Ht; done).
  - apply post_lift_bind with (P := verified1 hdr); [apply luks1_open_verified|]. intros [r k] Hk. cbn [fst snd] in Hk. unfold verified1 in Hk. cbn [fst snd] in Hk.
    destruct (Z.ltb_spec r 0); [apply quiet_ret|]. apply quiet_ret_bind. apply (sends_volume_key_emits cd k).
    { unfold volume_key_of. rewrite Hu. by apply Hk. }
    apply luks1_activate_sends, carries_plain. destruct (keyring flags); [|done]. specialize (Hf eq_refl). unfold crypt_use_keyring_for_vk, cd_type in Hf.
    by rewrite Hu in Hf.
  - unfold _open_and_activate_luks2. rewrite (Hr l) by done. apply quiet_ret_bind. by apply open_and_activate_sends.
Qed.

Lemma by_volume_key_sends cd name volume_key flags :
  isLUKS (cd_type cd) = true ->
  quiet (crypt_activate_by_volume_key env kr data_dev meta_dev other_by_volume_key cd name volume_key flags) cd.
Proof.
  intros Ht. unfold crypt_activate_by_volume_key. change (has_flag flags CRYPT_ACTIVATE_KEYRING_KEY) with (keyring flags).
  destruct (keyring flags && negb (crypt_use_keyring_for_vk kr cd)) eqn:Ef; [apply quiet_ret|].
  assert (Hf : keyring flags = true -> crypt_use_keyring_for_vk kr cd = true).
  { intros H. rewrite H in Ef. by apply negb_false_iff in Ef. }
  apply quiet_status. intros r. destruct (r <? 0); [apply quiet_ret|]. destruct (_ <? 0); [apply quiet_ret|].
  destruct (cd_u cd) as [| |l| | | | | |] eqn:Hu; try (unfold cd_type in Ht; rewrite Hu in Ht; done).
  - destruct (given_key env cd volume_key) as [?|vk] eqn:Eg; [apply quiet_ret|]. apply given_key_of in Eg as [k ->]. cbv zeta.
    destruct name as [name|]; [|apply quiet_ret]. destruct (Z.eqb_spec (LUKS_verify_volume_key hdr (key (key_of k))) 0) as [Hk|]; [|apply quiet_ret].
    apply (sends_volume_key_emits cd k). { unfold volume_key_of. by rewrite Hu. }
    apply luks1_activate_sends, carries_plain. destruct (keyring flags); [|done]. specialize (Hf eq_refl). unfold crypt_use_keyring_for_vk, cd_type in Hf.
    by rewrite Hu in Hf.
  - destruct (given_key env cd volume_key) as [?|vk] eqn:Eg; [apply quiet_ret|]. apply given_key_of in Eg as [k ->]. cbv zeta.
    destruct (Z.ltb_spec (LUKS2_digest_verify_by_segment (l2_hdr l) CRYPT_DEFAULT_SEGMENT (key (key_of k))) 0) as [|Hd]; [apply quiet_ret|].
    apply activate_key_sends; [|done|done]. unfold volume_key_of. rewrite Hu. exists (LUKS2_digest_by_segment (l2_hdr l) CRYPT_DEFAULT_SEGMENT).
    split; [|by left]. unfold LUKS2_digest_verify_by_segment, LUKS2_digest_verify_by_digest in Hd. cbn [key key_of] in Hd.
    destruct (LUKS2_digest_handler _ _); cbn [negb] in Hd; [|unfold EINVAL in Hd; lia]. pose proof (pbkdf2_verify_nonpos (l2_hdr l) (LUKS2_digest_by_segment (l2_hdr l) CRYPT_DEFAULT_SEGMENT) k).
    destruct (Z.ltb_spec (PBKDF2_digest_verify (l2_hdr l) (LUKS2_digest_by_segment (l2_hdr l) CRYPT_DEFAULT_SEGMENT) k) 0); lia.
Qed.

(** Nothing is activated without a verified key. Whatever the call (by
    passphrase, key file, keyring or volume key), the header, the device and the
    answers of the kernel, of a LUKS device that is not in reencryption either
    nothing is requested, or there is one key whose digest in the header
    matches (with LUKS2 a digest of the default segment, or that of a keyslot
    for it) such that every table that is created or loaded has this key, by its
    bytes or by a description under which it was added to the keyring before,
    and no other key is added. *)
Theorem activation_sends_verified_key a cd name flags t d res t' d' :
  isLUKS (cd_type cd) = true -> (forall l, cd_u cd = U_luks2 l -> LUKS2_reencrypt_status (l2_hdr l) = CRYPT_REENCRYPT_NONE) ->
  activate a cd (Some name) flags t d = Some ((res, t'), d') ->
  exists l, t' = (t ++ l)%list /\ sends_volume_key cd l.
Proof.
  intros Ht Hr. revert t d res t' d'. change (quiet (activate a cd (Some name) flags) cd). destruct a; cbn [activate].
  - unfold crypt_activate_by_passphrase. destruct passphrase as [p|]; [|apply quiet_ret]. destruct (_ && _); [apply quiet_ret|].
    by apply quiet_checked, by_passphrase_sends.
  - unfold crypt_activate_by_keyfile_device_offset. destruct (_ && _); [apply quiet_ret|]. apply quiet_checked.
    destruct (crypt_keyfile_device_read _ _ _ _) as [?|p]; [apply quiet_ret|].
    pose proof (by_passphrase_sends cd name keyslot p flags Ht Hr) as H.
    destruct (cd_u cd) eqn:Hu; try exact H. unfold cd_type in Ht. by rewrite Hu in Ht.
  - unfold crypt_activate_by_keyring. destruct (negb _); [apply quiet_ret|]. apply quiet_checked. destruct (k_passphrase kr _); [apply quiet_ret|].
    by apply by_passphrase_sends.
  - apply quiet_ret_bind. by apply by_volume_key_sends.
Qed.
End verified.

(** ** Success means that the kernel took the table *)

(** The answers are codes: negative or 0. *)
Definition answers_coded (kr : dm_kernel) : Prop :=
  (forall t q, k_do kr t q <= 0) /\ (forall t d x, (k_device_info kr t d x).1.1 <= 0).

Section mapped.
Context `{JC : JsonC} `{CH : CryptHash} `{CM : CryptHmac} `{CC : CryptCipher} `{CP : CryptPbkdf} `{LU : LibUuid}.
Variable env : setup_env.
Variable kr : dm_kernel.
Variables data_dev meta_dev : string.
Variable name : string.

Hypothesis codes : answers_coded kr.

(** A table of the mapping was requested and the answer was 0. *)
Definition granted (t l : trace) : Prop :=
  exists l1 q l2 dmd, l = (l1 ++ q :: l2)%list /\ (q = Reload name dmd \/ exists type, q = Create name type dmd) /\ k_do kr (t ++ l1)%list q = 0.

Definition maps (m : T Z) : Prop := post (fun t r l => 0 <= r -> granted t l) m.
Definition any {A} (m : T A) : Prop := emits (fun _ => True) m.
(** The code is not positive. *)
Definition coded (m : T Z) : Prop := post (fun _ r _ => r <= 0) m.

Lemma granted_app t l1 l2 : granted (t ++ l1)%list l2 -> granted t (l1 ++ l2)%list.
Proof. intros (a & q & b & dmd & -> & H & E). exists (l1 ++ a)%list, q, b, dmd. by rewrite !app_assoc, <-(app_assoc l1 a) in *. Qed.
Lemma granted_more t l1 l2 : granted t l1 -> granted t (l1 ++ l2)%list.
Proof. intros (a & q & b & dmd & -> & H & E). exists a, q, (b ++ l2)%list, dmd. by rewrite <-app_assoc. Qed.

Lemma maps_ret r : r < 0 -> maps (mret r).
Proof. intros H. apply post_ret. intros t ?. lia. Qed.

Lemma maps_bind {A} (P : A -> Prop) (m : T A) (k : A -> T Z) : post (fun _ a _ => P a) m -> (forall a, P a -> maps (k a)) -> maps (m ≫= k).
Proof.
  intros H1 H2. eapply post_bind; [exact H1|]. cbn beta. intros t1 a l1 Ha t -> d b t' d' E.
  destruct (H2 a Ha _ _ _ _ _ E) as (l2 & -> & HQ). exists l2. split; [done|]. intros Hb. by apply granted_app, HQ.
Qed.
Lemma maps_bind_any {A} (m : T A) (k : A -> T Z) : any m -> (forall a, maps (k a)) -> maps (m ≫= k).
Proof. intros H1 H2. eapply (maps_bind (fun _ => True)); [|auto]. eapply post_weaken; [exact H1|done]. Qed.

(** After a table was taken the rest may do anything. *)
Lemma maps_then (m : T Z) (k : Z -> T Z) : maps m -> (forall r, r < 0 -> maps (k r)) -> (forall r, 0 <= r -> any (k r)) -> maps (m ≫= k).
Proof.
  intros H1 H2 H3. eapply post_bind; [exact H1|]. cbn beta. intros t1 r l1 Hr t -> d b t' d' E. destruct (Z.ltb_spec r 0) as [Hn|Hn].
  - destruct (H2 r Hn _ _ _ _ _ E) as (l2 & -> & HQ). exists l2. split; [done|]. intros Hb. by apply granted_app, HQ.
  - destruct (H3 r Hn _ _ _ _ _ E) as (l2 & -> & _). exists l2. split; [done|]. intros _. by apply granted_more, Hr.
Qed.

Lemma coded_ret r : r <= 0 -> coded (mret r).
Proof. intros H. by apply post_ret. Qed.
Lemma coded_bind {A} (m : T A) (k : A -> T Z) : any m -> (forall a, coded (k a)) -> coded (m ≫= k).
Proof.
  intros H1 H2. eapply post_bind; [exact H1|]. cbn beta. intros t1 a l1 _ t -> d b t' d' E.
  destruct (H2 a _ _ _ _ _ E) as (l2 & -> & HQ). by exists l2.
Qed.
Lemma coded_request q : coded (request kr q).
Proof. intros t d r t' d' [= <- <- <-]. exists [q]. split; [done|apply codes]. Qed.
Lemma coded_any m : coded m -> any m.
Proof. intros H t d a t' d' E. destruct (H _ _ _ _ _ E) as (l & -> & _). exists l. split; [done|]. by apply Forall_true. Qed.
Lemma maps_any m : maps m -> any m.
Proof. intros H t d a t' d' E. destruct (H _ _ _ _ _ E) as (l & -> & _). exists l. split; [done|]. by apply Forall_true. Qed.

Lemma any_request q : any (request kr q).
Proof. by apply emits_request. Qed.

Lemma adjust_coded dev x offset size : post (fun _ a _ => forall r, a = inl r -> r < 0) (device_block_adjust kr dev x offset size).
Proof.
  intros t d a t' d' [= <- <- <-]. exists []. rewrite app_nil_r. split; [done|]. intros r. destruct dev as [p|]; [|intros [= <-]; done].
  pose proof (proj2 codes t p x) as H. destruct (k_device_info kr t p x) as [[c ro] rs]. cbn [fst] in H.
  destruct (Z.eqb_spec c 0); cbn [negb]; [|intros [= <-]; lia]. unfold EINVAL. repeat case_match; intros E; by simplify_eq.
Qed.

Lemma check_retry_same flags dmt : (check_retry flags dmt).1 = false -> (check_retry flags dmt).2 = flags.
Proof.
  unfold check_retry. match goal with |- context [foldl ?f _ ?l] => set (g := f); generalize l end. intros l.
  assert (G : forall l f b, (foldl g (b, f) l).1 = false -> b = false /\ (foldl g (b, f) l).2 = f); [|intros H; by apply (G l flags false)].
  clear l. induction l as [|[o s] l IH]; intros f b; [done|]. cbn [foldl]. unfold g at 2 4. cbv beta iota.
  destruct (_ && _); [|apply IH]. intros H. by apply IH in H as [? _].
Qed.

Lemma create_code create type flags r flags' : dm_create_device create type flags = (r, flags') -> r = (create flags').1.
Proof.
  unfold dm_create_device. destruct (create flags) as [c k] eqn:E. destruct (dm_flags k type) as [code known]. cbv zeta.
  assert (H0 : forall r f, (c, flags) = (r, f) -> r = (create f).1) by (intros r0 f [= <- <-]; by rewrite E).
  destruct (_ && _); [apply H0|]. destruct (negb (c =? 0) && _); [|apply H0].
  pose proof (check_retry_same flags (if c <? 0 then known else 0)) as Hs. destruct (check_retry _ _) as [again f].
  destruct again; [by intros [= <- <-]|]. cbn [fst snd] in Hs. rewrite Hs by done. apply H0.
Qed.

(** For the mapping, and for one below it. *)
Lemma create_maps type dmd : maps ('(r, _) ← create_device kr name type dmd; mret r).
Proof.
  intros t d r t' d' E. unfold create_device, mbind, T_bind in E. apply bind_inv in E as ([[c f] t1] & d1 & E1 & [= <- <- <-]).
  destruct (dm_create_device _ _ _) as [c' f'] eqn:Ec. injection E1 as <- <- <- _. apply create_code in Ec. cbn [fst] in Ec.
  exists [Create name type (set_flags f' dmd)]. split; [done|]. intros H. exists [], (Create name type (set_flags f' dmd)), [], (set_flags f' dmd).
  split; [done|]. split; [eauto|]. rewrite app_nil_r, <-Ec. pose proof (proj1 codes t (Create name type (set_flags f' dmd))). lia.
Qed.
Lemma create_coded n type dmd : post (fun _ a _ => a.1 <= 0) (create_device kr n type dmd).
Proof.
  intros t d a t' d' E. unfold create_device in E. destruct (dm_create_device _ _ _) as [c f] eqn:Ec. injection E as <- <- <-.
  exists [Create n type (set_flags f dmd)]. split; [done|]. apply create_code in Ec. cbn [fst] in *. rewrite Ec. apply codes.
Qed.

Lemma reload_maps dmd resume : maps (dm_reload_device kr name dmd resume).
Proof.
  intros t d r t' d' E. unfold dm_reload_device, mbind, T_bind in E. apply bind_inv in E as ([c t1] & d1 & [= <- <- <-] & E).
  set (q := Reload name _) in *. pose proof (proj1 codes t q) as Hq. destruct (Z.eqb_spec (k_do kr t q) 0) as [E0|E0]; cbn [andb] in E.
  - assert (G : forall l, granted t (q :: l)) by (intros l; exists [], q, l; eexists; rewrite app_nil_r; eauto).
    destruct resume; injection E as <- <- <-; [exists [q; Resume name]; by rewrite <-app_assoc|by exists [q]].
  - injection E as <- <- <-. exists [q]. split; [done|]. lia.
Qed.
Lemma reload_coded n dmd resume : coded (dm_reload_device kr n dmd resume).
Proof.
  intros t d r t' d' E. unfold dm_reload_device, mbind, T_bind in E. apply bind_inv in E as ([c t1] & d1 & [= <- <- <-] & E).
  destruct (_ && _); injection E as <- <- <-; eexists; (split; [by rewrite <-?app_assoc|apply codes]).
Qed.

(** *** Codes *)

Ltac code_bound := repeat case_match; simplify_eq/=; unfold EINVAL, ENOTSUP, ENOMEM, EPERM, ENODEV, EBUSY, ENOENT in *; lia.

Lemma compare_coded cd src tgt : crypt_compare_dm_devices kr cd src tgt <= 0.
Proof.
  unfold crypt_compare_dm_devices. assert (H1 : _compare_device_types cd src tgt <= 0) by (unfold _compare_device_types; code_bound).
  destruct (Z.eqb_spec (_compare_device_types cd src tgt) 0); cbn [negb]; [|lia]. generalize (ad_segments tgt). induction (ad_segments src) as [|s l IH]; intros l'.
  - destruct l'; cbn [compare_segments]; unfold EINVAL; lia.
  - destruct l' as [|u l']; cbn [compare_segments]; [unfold EINVAL; lia|].
    assert (H2 : compare_segment kr s u <= 0). { unfold compare_segment, _compare_crypt_devices, _compare_integrity_devices. code_bound. }
    destruct (Z.eqb_spec (compare_segment kr s u) 0); cbn [negb]; [apply IH|lia].
Qed.

Lemma requirements_coded hdr mask : LUKS2_unmet_requirements hdr mask <= 0.
Proof. unfold LUKS2_unmet_requirements, EINVAL, ETXTBSY. repeat case_match; lia. Qed.

Lemma check_devices_coded n iname flags : post (fun _ a _ => a.1 <= 0) (check_devices kr n iname flags).
Proof.
  assert (H : forall n flags, post (fun _ a _ => a.1 <= 0) (check_device kr n flags)).
  { intros n' f t d a t' d' [= <- <- <-]. exists []. rewrite app_nil_r. split; [done|]. repeat case_match; cbn [fst]; unfold EBUSY; lia. }
  intros t d a t' d' E. unfold check_devices, mbind, T_bind in E. apply bind_inv in E as ([[r f] t1] & d1 & E1 & E). cbn beta iota in E.
  assert (H1 : exists l, t1 = (t ++ l)%list /\ r <= 0).
  { destruct iname as [i|]; [by apply (H i flags t d (r, f) t1 d1) in E1|]. injection E1 as <- _ <- _. exists []. by rewrite app_nil_r. }
  destruct H1 as (l1 & -> & Hr). destruct (negb _).
  - injection E as <- <- _. by exists l1.
  - apply H in E as (l2 & -> & Ha). exists (l1 ++ l2)%list. by rewrite app_assoc.
Qed.

Lemma nonzero_neg r : r <= 0 -> negb (r =? 0) = true -> r < 0.
Proof. intros H E%negb_true_iff%Z.eqb_neq. lia. Qed.

(** A step that may fail, and the rest. *)
Lemma maps_unless (r : Z) (m : T Z) : r <= 0 -> (r = 0 -> maps m) -> maps (if negb (r =? 0) then mret r else m).
Proof. intros H1 H2. destruct (negb (r =? 0)) eqn:E; [by apply maps_ret, nonzero_neg|]. apply H2. by apply negb_false_iff, Z.eqb_eq in E. Qed.

Lemma any_query n f : any (query_device kr n f).
Proof. apply emits_query. Qed.

(** *** Reload *)

Lemma adjust_maps dev x offset size (f : Z + Z * bool -> T Z) :
  (forall r, r < 0 -> maps (f (inl r))) -> (forall s b, maps (f (inr (s, b)))) -> maps (a ← device_block_adjust kr dev x offset size; f a).
Proof.
  intros H1 H2. eapply maps_bind; [apply adjust_coded|]. intros [r|[s b]] H; [by apply H1, H|apply H2].
Qed.

Lemma reload_device_maps cd sdmd : maps (_reload_device env kr cd name sdmd).
Proof.
  unfold _reload_device. destruct (_ || _); [by apply maps_ret|]. apply maps_bind_any; [apply any_query|]. intros [?|[? tdmd]]; [by apply maps_ret|].
  destruct (single_crypt tdmd) as [[tgt tc]|]; [|by apply maps_ret]. destruct (single_crypt sdmd) as [[src sc]|]; [|by apply maps_ret].
  destruct (negb _); [by apply maps_ret|]. cbv zeta. apply maps_unless; [apply compare_coded|]. intros _.
  destruct (reload_key env _ _ _) as [vk|]; [|by apply maps_ret]. apply adjust_maps; [intros; by apply maps_ret|].
  intros s b. apply reload_maps.
Qed.

Lemma any_of {A} (m : T A) : emits (fun _ => True) m -> any m.
Proof. done. Qed.

Ltac any_step :=
  match goal with
  | |- any (mret _) => apply emits_ret
  | |- any (mbind _ _) => apply emits_bind; [|intros ?]
  | |- any (if ?b then _ else _) => destruct b
  | |- any (let '(_, _) := ?p in _) => destruct p
  | |- any (match ?o with inl _ => _ | inr _ => _ end) => destruct o
  | |- any (request _ _) => apply any_request
  | |- any (query_device _ _ _) => apply any_query
  | |- any (dm_reload_device _ _ _ _) => apply coded_any, reload_coded
  | |- any (ask _) => apply emits_ask
  | |- emits (fun _ => True) ?m => change (any m)
  end.

Lemma any_drop n iname : any (drop_tables kr n iname).
Proof. unfold drop_tables. repeat any_step. Qed.
Lemma any_error n : any (dm_error_device kr n).
Proof. unfold dm_error_device. repeat any_step. Qed.
Lemma any_or_drop n iname r m : any m -> any (or_drop kr n iname r m).
Proof. intros H. unfold or_drop. repeat any_step; [apply any_drop|done]. Qed.
Lemma suspend_coded n : coded (dm_suspend_device kr n false).
Proof.
  unfold dm_suspend_device. destruct (dm_flags _ _). cbn [andb]. apply coded_bind; [apply any_request|]. intros r.
  destruct (negb _); [by apply coded_ret|by apply coded_ret].
Qed.

(** After the first table of the mapping, the code decides. *)
Lemma switch_maps iname tdmd sdmdi : maps (switch_tables kr name iname tdmd sdmdi).
Proof.
  unfold switch_tables. eapply maps_bind; [apply reload_coded|]. intros r Hr. apply maps_unless; [done|]. intros _.
  apply maps_then; [apply reload_maps| |].
  - intros r1 H1. unfold or_drop. rewrite (proj2 (Z.eqb_neq r1 0)) by lia. cbn [negb]. apply maps_bind_any; [apply any_drop|]. intros _. by apply maps_ret.
  - intros r1 H1. apply any_or_drop. any_step; [apply coded_any, suspend_coded|]. apply any_or_drop. any_step; [apply coded_any, suspend_coded|].
    apply any_or_drop. any_step; [apply any_request|]. apply any_or_drop. repeat any_step; apply any_error.
Qed.

Lemma reload_integrity_maps cd iname ipath sdmd sdmdi : maps (_reload_device_with_integrity env kr cd name iname ipath sdmd sdmdi).
Proof.
  unfold _reload_device_with_integrity. destruct (_ || _); [by apply maps_ret|]. apply maps_bind_any; [apply any_query|].
  intros [?|[? tdmd]]; [by apply maps_ret|]. destruct (single_crypt tdmd) as [[tgt tc]|]; [|by apply maps_ret].
  destruct (single_crypt sdmd) as [[src sc]|]; [|by apply maps_ret]. destruct (_ =? 0); [by apply maps_ret|].
  apply maps_bind_any; [apply any_query|]. intros [?|[? tdmdi]]; [by apply maps_ret|].
  destruct (single_integrity tdmdi); [|by apply maps_ret]. destruct (single_integrity sdmdi) as [[srci ic]|]; [|by apply maps_ret].
  cbv zeta. apply maps_unless; [apply compare_coded|]. intros _. destruct (Z.ltb_spec (k_device_alloc kr ipath) 0); [by apply maps_ret|].
  apply adjust_maps; [intros; by apply maps_ret|]. intros s b. apply maps_unless; [apply compare_coded|]. intros _.
  destruct (reload_key env _ _ _) as [vk|]; [|by apply maps_ret]. apply adjust_maps; [intros; by apply maps_ret|].
  intros s' b'. apply switch_maps.
Qed.

(** *** Creation *)

Lemma create_or_reload_maps cd type dmd : maps (create_or_reload_device env kr cd name type dmd).
Proof.
  unfold create_or_reload_device. destruct (single_crypt dmd) as [[tgt c]|]; [|by apply maps_ret].
  eapply maps_bind; [apply check_devices_coded|]. intros [r flags] Hr. cbn [fst] in Hr. apply maps_unless; [done|]. intros _.
  destruct (has_flag flags _); [apply reload_device_maps|]. apply adjust_maps; [intros; by apply maps_ret|]. intros s b. cbv zeta. apply create_maps.
Qed.

Lemma activate_dmd_coded n type dmd sb : coded (INTEGRITY_activate_dmd_device kr n type dmd sb).
Proof.
  assert (B : forall {A} (P : A -> Prop) (m : T A) (f : A -> T Z), post (fun _ a _ => P a) m -> (forall a, P a -> coded (f a)) -> coded (m ≫= f)).
  { intros A P m f H1 H2. eapply post_bind; [exact H1|]. cbn beta. intros t1 a l1 Ha t -> d b t' d' E.
    destruct (H2 a Ha _ _ _ _ _ E) as (l2 & -> & HQ). by exists l2. }
  unfold INTEGRITY_activate_dmd_device. destruct (single_integrity dmd) as [[tgt i]|]; [|by apply coded_ret].
  eapply B; [apply adjust_coded|]. intros [r|[s b]] H; [apply coded_ret; specialize (H r eq_refl); lia|]. cbv zeta.
  eapply (B _ (fun a : Z + Z * bool => forall r, a = inl r -> r < 0)).
  { destruct (it_meta_device i); [apply adjust_coded|]. by apply post_ret. }
  intros [r|x] H'; [apply coded_ret; specialize (H' r eq_refl); lia|]. eapply B; [apply create_coded|]. intros [r f] Hr. cbn [fst] in Hr.
  destruct (dm_flags _ _). apply coded_ret. destruct (_ && _); unfold ENOTSUP; lia.
Qed.

Lemma create_integrity_maps type iname ipath dmd dmdi : maps (_create_device_with_integrity kr type name iname ipath dmd dmdi).
Proof.
  unfold _create_device_with_integrity. destruct (single_crypt dmd) as [[tgt c]|]; [|by apply maps_ret].
  eapply maps_bind; [apply activate_dmd_coded|]. intros r Hr. apply maps_unless; [done|]. intros _. cbv zeta.
  assert (F : forall r : Z, r < 0 -> maps (_ ← request kr (Remove iname 0); mret r)).
  { intros r' Hr'. apply maps_bind_any; [apply any_request|]. intros _. by apply maps_ret. }
  destruct (Z.ltb_spec (k_device_alloc kr ipath) 0); [by apply F|]. apply adjust_maps.
  - intros r' Hr'. rewrite (proj2 (Z.ltb_lt r' 0)) by done. by apply F.
  - intros s b. set (dmd' := set_segment _ _).
    intros t d a t' d' E. unfold mbind, T_bind in E. apply bind_inv in E as ([[c0 f] t1] & d1 & E1 & E). cbn beta iota in E.
    assert (E0 : ('(r, _) ← create_device kr name type dmd'; mret r) t d = Some ((c0, t1), d1)).
    { unfold mbind, T_bind, mbind, M_bind. unfold mret, T_ret. by rewrite E1. }
    apply create_maps in E0 as (l1 & -> & G). destruct (Z.ltb_spec c0 0) as [Hc|Hc].
    + destruct (F c0 Hc _ _ _ _ _ E) as (l2 & -> & G2). exists (l1 ++ l2)%list. rewrite app_assoc. split; [done|]. intros Ha. by apply granted_app, G2.
    + injection E as <- <- _. by exists l1.
Qed.

Lemma with_integrity_maps cd type dmd dmdi : maps (create_or_reload_device_with_integrity env kr cd name type dmd dmdi).
Proof.
  unfold create_or_reload_device_with_integrity. cbv zeta. eapply maps_bind; [apply check_devices_coded|]. intros [r flags] Hr. cbn [fst] in Hr.
  apply maps_unless; [done|]. intros _. destruct (has_flag flags _); [apply reload_integrity_maps|apply create_integrity_maps].
Qed.

Lemma luks2_activate_maps cd hdr vk flags : maps (LUKS2_activate env kr data_dev meta_dev cd hdr name vk flags).
Proof.
  unfold LUKS2_activate. cbv zeta. apply maps_unless; [apply requirements_coded|]. intros _. destruct (_ =? 0); [apply create_or_reload_maps|].
  destruct (negb _); [by apply maps_ret|]. destruct (has_flag _ _); [by apply maps_ret|].
  eapply (maps_bind (fun a => forall r, a = inl r -> r < 0)).
  { unfold INTEGRITY_create_dmd_device. eapply post_bind; [by apply post_lift with (Q := fun _ _ _ => True)|]. cbn beta. intros t1 [r size] l1 _ t -> d b t' d' E.
    exists []. rewrite !app_nil_r. destruct (Z.ltb_spec r 0); injection E as <- <- _; (split; [done|]); intros r'; [by intros [= <-]|].
    unfold dm_integrity_target_set. by destruct (dm_flags (k_compat kr) DM_INTEGRITY). }
  intros [r|dmdi] H; [by apply maps_ret, H|]. destruct (single_crypt _) as [[tgt c]|]; [|by apply maps_ret].
  destruct (single_segment _); [|by apply maps_ret]. apply with_integrity_maps.
Qed.

(** *** The calls *)

Lemma any_finish keyslot r vk : any (finish_key kr keyslot r vk).
Proof. unfold finish_key. repeat any_step. cbn [crypt_drop_keyring_key]. repeat any_step. destruct (key_description vk); repeat any_step. Qed.
Lemma finish_neg keyslot r vk : r < 0 -> maps (finish_key kr keyslot r vk).
Proof. intros H. unfold finish_key. rewrite (proj2 (Z.ltb_lt r 0)) by done. apply maps_bind_any; [|intros _; by apply maps_ret].
  cbn [crypt_drop_keyring_key]. repeat any_step. destruct (key_description vk); repeat any_step. Qed.

Lemma activate_finish cd hdr vk flags f :
  (forall r, 0 <= r -> any (f r)) -> (forall r, r < 0 -> maps (f r)) ->
  maps (r ← activate_named env kr data_dev meta_dev cd hdr (Some name) vk flags; f r).
Proof. intros H1 H2. apply maps_then; [apply luks2_activate_maps|done|done]. Qed.

Lemma load_coded cd vk digest : post (fun _ a _ => a.1 <= 0) (load_by_digest kr cd vk digest).
Proof.
  intros t d a t' d' E. unfold load_by_digest, crypt_volume_key_load_in_keyring, mbind, T_bind in E. apply bind_inv in E as ([r t1] & d1 & E1 & [= <- <- <-]).
  cbn [fst]. cbn [key_description describe] in E1. destruct (get_key_description_by_digest cd digest).
  - injection E1 as <- <- _. eexists. split; [done|apply codes].
  - injection E1 as <- <- _. exists []. rewrite app_nil_r. split; [done|]. unfold EINVAL. lia.
Qed.

Lemma open_and_activate_maps cd hdr keyslot passphrase flags :
  maps (_open_and_activate env kr data_dev meta_dev cd hdr keyslot (Some name) passphrase flags).
Proof.
  unfold _open_and_activate. apply post_lift_bind with (P := fun a => opened hdr (segment_of flags) a.1 a.2).
  { intros d [r vk] d' E. by eapply keyslot_open_opened. }
  intros [r vk] [Hn Ho]. cbn [fst snd] in *. destruct vk as [[id k]|].
  2: { apply maps_ret. destruct (Z.ltb_spec r 0); [done|]. by destruct (Ho ltac:(done)) as (? & ? & _). }
  cbv zeta. destruct (use_keyring _ _ _ _).
  - eapply maps_bind; [apply load_coded|]. intros [r0 vk] Hr. destruct (Z.ltb_spec r0 0); [by apply finish_neg|].
    apply activate_finish; intros; [apply any_finish|by apply finish_neg].
  - apply activate_finish; intros; [apply any_finish|by apply finish_neg].
Qed.

Lemma activate_key_maps cd hdr vk flags : maps (activate_luks2_key env kr data_dev meta_dev cd hdr (Some name) vk flags).
Proof.
  unfold activate_luks2_key. destruct (use_keyring _ _ _ _).
  - eapply maps_bind; [apply load_coded|]. intros [r0 vk'] Hr. cbn [fst] in Hr. destruct (negb (r0 =? 0)) eqn:E; [by apply finish_neg, nonzero_neg|].
    apply activate_finish; intros; [apply any_finish|by apply finish_neg].
  - apply activate_finish; intros; [apply any_finish|by apply finish_neg].
Qed.

Variable locked_recovery : crypt_device -> Z -> bytes -> Z -> T (Z * crypt_device * keys).
Variable bitlk_by_passphrase : crypt_device -> option string -> bytes -> Z -> T Z.
Variable other_by_volume_key : crypt_device -> option string -> option bytes -> Z -> T Z.

Lemma keyfile_error inp o n f e : crypt_keyfile_device_read inp o n f = inl e -> e < 0.
Proof.
  assert (L : forall fuel eol ks bl p g r, key_loop fuel eol ks bl p g = Some (inl r) -> r < 0).
  { induction fuel as [|fuel IH]; intros eol ks bl p g r; [done|]. cbn [key_loop]. destruct (_ <=? _); [done|]. destruct (read_buffer _ _ _) as [[c b] g'].
    repeat case_match; try done; [intros [= <-]; unfold EPIPE; lia|apply IH..]. }
  unfold crypt_keyfile_device_read. destruct (ki_file inp) as [g|]; [|intros [= <-]; done]. cbv zeta. generalize (key_fuel). intros fuel.
  destruct (ki_tty inp); [intros [= <-]; done|]. destruct (ki_path inp && _); [intros [= <-]; done|]. destruct (_ && (_ <? o)); [intros [= <-]; done|].
  destruct (if o =? 0 then _ else _) as [r g']. destruct (r <? 0); [intros [= <-]; done|].
  destruct (key_loop _ _ _ _ _ _) as [[x|[p nl]]|] eqn:El; cbn [default from_option id]; [intros [= <-]; by eapply L| |intros [= <-]; done].
  unfold EPIPE, EINVAL. repeat (destruct (_ && _); [intros [= <-]; lia|]). done.
Qed.

(** With the context in the result. *)
Let mapped {A} (m : T (Z * A)) : Prop := post (fun t a l => 0 <= a.1 -> granted t l) m.

Lemma mapped_ret {A} r (cd : A) : r < 0 -> mapped (mret (r, cd)).
Proof. intros H. apply post_ret. intros t. cbn [fst]. lia. Qed.

Lemma mapped_bind {A} (m : T Z) (f : Z -> Z) (cd : A) : maps m -> (forall r, r < 0 -> f r < 0) -> mapped (r ← m; mret (f r, cd)).
Proof.
  intros H1 H2. eapply post_bind; [exact H1|]. cbn beta. intros t1 r l1 Hr t -> d b t' d' [= <- <- <-]. exists []. rewrite !app_nil_r.
  split; [done|]. cbn [fst]. intros Hf. apply Hr. destruct (Z.ltb_spec r 0) as [Hn|]; [|done]. specialize (H2 r Hn). lia.
Qed.

Lemma mapped_status {A} reload (k : Z -> T (Z * A)) : (forall r, mapped (k r)) -> mapped (r ← _activate_check_status kr (Some name) reload; k r).
Proof.
  intros H t d b t' d' E. unfold mbind, T_bind in E. apply bind_inv in E as ([r t1] & d1 & E1 & E).
  replace t1 with t in E; [by eapply H|]. by injection E1.
Qed.

Lemma mapped_checked cd flags m : mapped m -> mapped (checked kr cd (Some name) flags m).
Proof. intros H. apply mapped_status. intros r. destruct (Z.ltb_spec r 0); [by apply mapped_ret|done]. Qed.

Lemma by_passphrase_maps cd keyslot passphrase flags :
  isLUKS (cd_type cd) = true -> (forall l, cd_u cd = U_luks2 l -> LUKS2_reencrypt_status (l2_hdr l) = CRYPT_REENCRYPT_NONE) ->
  mapped (_activate_by_passphrase env kr data_dev meta_dev locked_recovery bitlk_by_passphrase cd (Some name) keyslot passphrase flags).
Proof.
  intros Ht Hr. unfold _activate_by_passphrase. destruct (_ && _); [by apply mapped_ret|]. destruct (_ && _); [by apply mapped_ret|].
  destruct (Z.ltb_spec (_check_header_data_overlap kr data_dev meta_dev cd (Some name)) 0); [by apply mapped_ret|].
  destruct (cd_u cd) as [| |l| | | | | |] eqn:Hu; try (unfold cd_type in Ht; rewrite Hu in Ht; done).
  - eapply (post_lift_bind (fun _ => True)); [done|]. intros [r k] _. destruct (Z.ltb_spec r 0); [by apply mapped_ret|].
    apply (mapped_bind _ (fun c => if c <? 0 then c else r)); [apply create_or_reload_maps|]. intros c Hc. by rewrite (proj2 (Z.ltb_lt c 0) Hc).
  - unfold _open_and_activate_luks2. rewrite (Hr l) by done. apply (mapped_bind _ id); [apply open_and_activate_maps|done].
Qed.

Lemma by_volume_key_maps cd volume_key flags :
  isLUKS (cd_type cd) = true ->
  mapped (r ← crypt_activate_by_volume_key env kr data_dev meta_dev other_by_volume_key cd (Some name) volume_key flags; mret (r, cd)).
Proof.
  intros Ht. apply (mapped_bind _ id); [|done]. unfold crypt_activate_by_volume_key. destruct (_ && _); [by apply maps_ret|].
  eapply (maps_bind (fun _ => True)).
  { intros t d r t' d' [= _ <- _]. exists []. by rewrite app_nil_r. }
  intros r _. destruct (Z.ltb_spec r 0); [by apply maps_ret|].
  destruct (Z.ltb_spec (_check_header_data_overlap kr data_dev meta_dev cd (Some name)) 0); [by apply maps_ret|].
  assert (Hg : forall e, given_key env cd volume_key = inl e -> e < 0).
  { unfold given_key. intros e E. repeat case_match; simplify_eq/=; done. }
  destruct (cd_u cd) as [| |l| | | | | |] eqn:Hu; try (unfold cd_type in Ht; rewrite Hu in Ht; done).
  - destruct (given_key env cd volume_key) as [e|vk]; [by apply maps_ret, Hg|]. cbv zeta.
    destruct (Z.eqb_spec (LUKS_verify_volume_key hdr (key vk)) 0); [apply create_or_reload_maps|]. apply maps_ret.
    unfold LUKS_verify_volume_key in *. unfold EINVAL, EPERM in *. repeat case_match; lia.
  - destruct (given_key env cd volume_key) as [e|vk]; [by apply maps_ret, Hg|]. cbv zeta.
    destruct (Z.ltb_spec (LUKS2_digest_verify_by_segment (l2_hdr l) CRYPT_DEFAULT_SEGMENT (key vk)) 0); [by apply maps_ret|]. apply activate_key_maps.
Qed.

(** Success is not reported without a mapping. When an activation of a LUKS
    device that is not in reencryption returns a keyslot or 0 for a name, the
    kernel answered 0 to a request to create the mapping of that name or to load
    a table for it: no path of the code (reload, dm-integrity below, retries
    without unsupported options, keys in the keyring) turns an error into
    success. *)
Theorem activation_success_mapped a cd flags t d res t' d' :
  isLUKS (cd_type cd) = true -> (forall l, cd_u cd = U_luks2 l -> LUKS2_reencrypt_status (l2_hdr l) = CRYPT_REENCRYPT_NONE) ->
  activate env kr data_dev meta_dev locked_recovery bitlk_by_passphrase other_by_volume_key a cd (Some name) flags t d = Some ((res, t'), d') ->
  exists l, t' = (t ++ l)%list /\ (0 <= res.1 -> granted t l).
Proof.
  intros Ht Hr. revert t d res t' d'.
  change (mapped (activate env kr data_dev meta_dev locked_recovery bitlk_by_passphrase other_by_volume_key a cd (Some name) flags)).
  destruct a; cbn [activate].
  - unfold crypt_activate_by_passphrase. destruct passphrase as [p|]; [|by apply mapped_ret]. destruct (_ && _); [by apply mapped_ret|].
    by apply mapped_checked, by_passphrase_maps.
  - unfold crypt_activate_by_keyfile_device_offset. destruct (_ && _); [by apply mapped_ret|]. apply mapped_checked.
    destruct (crypt_keyfile_device_read _ _ _ _) as [e|p] eqn:Ek.
    { apply mapped_ret. by eapply keyfile_error. }
    pose proof (by_passphrase_maps cd keyslot p flags Ht Hr) as H. destruct (cd_u cd) eqn:Hu; try exact H. unfold cd_type in Ht. by rewrite Hu in Ht.
  - unfold crypt_activate_by_keyring. destruct (negb _); [by apply mapped_ret|]. apply mapped_checked.
    destruct (k_passphrase kr _); [by apply mapped_ret|]. by apply by_passphrase_maps.
  - by apply by_volume_key_maps.
Qed.
End mapped.

(** ** The contract of an activation *)


(** ** An example: the context's own key *)

#[local] Existing Instances fx_hash fx_hash_laws fx_hmac fx_cipher fx_cipher_laws fx_crypt_pbkdf fx_pbkdf_laws fx_uuid fx_uuid_laws.

(** Nothing is mapped, and every request is granted. *)
Definition fx_kernel : dm_kernel := {|
  k_do := fun _ _ => 0;
  k_status := fun _ _ => - ENODEV;
  k_suspended := fun _ _ => - ENODEV;
  k_info := fun _ _ => None;
  k_lookup := fun p => (0, Some p);
  k_deps := fun _ _ _ => (0, []);
  k_device_info := fun _ _ _ => (0, false, 2 ^ 20);
  k_compare_path := fun _ _ => 0;
  k_dm_name := fun _ => None;
  k_device_alloc := fun _ => 0;
  k_block_size := fun _ => 512;
  k_is_loop := fun _ => false;
  k_compat := DmCompat (2 ^ 28 - 1) true true true;
  k_dir := "/dev/mapper";
  k_keyring := true;
  k_vk_via_keyring := true;
  k_version := None;
  k_compatibility := 0;
  k_data_access := fun _ => 0;
  k_reencrypt_lock := 0;
  k_passphrase := fun _ => inl (-1);
|}.

Definition fx_activate (volume_key : option bytes) : option (Z * @crypt_device fx_key_json * trace * device) :=
  activate fx_setup_env fx_kernel "/dev/sda" "/dev/sda" (fun cd _ _ _ => mret (- EINVAL, cd, [])) (fun _ _ _ _ => mret (- EINVAL))
    (fun _ _ _ _ => mret (- EINVAL)) (By_volume_key volume_key) fx_context (Some "vault") 0 [] (fx_key_device []).

(** It returns 0 and the kernel was asked for something. *)
Definition fx_activated (res : option (Z * @crypt_device fx_key_json * trace * device)) : bool :=
  match res with Some (r, _, t, _) => (r =? 0) && (zlen t =? 2) | None => false end.

Lemma fx_activate_runs : exists res t d, fx_activate None = Some ((res, t), d) /\ res.1 = 0 /\ zlen t = 2.
Proof.
  assert (H : fx_activated (fx_activate None) = true) by by vm_compute. unfold fx_activated in H.
  destruct (fx_activate None) as [[[[r c] t] d]|]; [|done]. apply andb_true_iff in H as [H1%Z.eqb_eq H2%Z.eqb_eq]. by exists (r, c), t, d.
Qed.

